(* ===== verification/_CoqProject ===== *)
-Q . S2P
Prelude.v
Flagcx.v
OrdMap.v
MemAllocRegistry.v
Arrays.v
MrRegistry.v
RegPool.v
IbRetrans.v
IbProtocol.v
C2cBuffers.v
C2cPlanner.v
C2cSchedule.v
C2cRefresh.v
C2cStrategy.v
C2cRounds.v
C2cDelivery.v
C2cFind.v
C2cExchange.v
C2cRunner.v
C2cExecute.v
NetTransport.v
NetScoreboard.v
NetAtomics.v
P2pEngineTransport.v
P2pTransfer.v
P2pTransferInv.v
P2pTransferProgress.v
P2pTransferStatus.v
P2pBackend.v
CollProxy.v
KernelProxy.v
KernelProxyInv.v
KernelProxyProgress.v
KernelProxyCalls.v
KernelProxyPoll.v
KernelTrigger.v
KernelFifo.v
KernelWorker.v
KernelWorkerInv.v
KernelWorkerOrder.v
KernelWorkerFence.v
KernelWorkerEnd.v
UniDag.v
UniDagBuild.v
UniDagShape.v
UniDagInit.v
UniDagChain.v
UniDagChainInit.v
UniSched.v
UniLedger.v
UniSchedPool.v
UniSchedInv.v
UniSchedStep.v
UniSchedRun.v
UniSchedLoop.v
UniSchedSafe.v
UniRunner.v
UniCollective.v
UniCollectives.v
UniAllGather.v
UniOutcome.v
UniParts.v
UniSystem.v
UniRing.v
UniRingData.v
UniRingInv.v
UniRingLive.v
UniRingResult.v
UniRingSafe.v
