(* ===== verification/Prelude.v ===== *)
(** * FlagCX: a verification library

    FlagCX is a communication library for clusters of unlike accelerators.
    Collectives within a cluster are left to the vendor's library; between
    clusters FlagCX plans and moves the data itself.  This development models
    the parts of it that carry their own logic and proves them correct.  Each
    file below names the source files it translates, its definitions keep
    their names, and every operation of a modelled part that changes state is
    a definition.

    ** Conventions

    A machine word is a [Z]; an operation that can leave the range is written
    with its wrap-around ([+u64], [-u32], ... below).  A C array is a list
    with bounds-checked access ([Arrays.v]); an access out of bounds, a dead
    pointer or a null dereference is undefined behaviour and makes the result
    [None], so [Some] states that an operation is defined.  Errors the code
    reports are values of [flagcxResult_t].  A [std::map] is a sorted
    association list ([OrdMap.v]), a hash map a [gmap].  Methods under a lock
    are single steps, so a concurrent execution is a sequence of steps; code
    that synchronises without a lock is split at its atomic accesses.  Code
    outside the repository, and the parts not modelled, are arguments:
    [realloc] may fail and leaves junk, the verbs layer and the vendor
    libraries are oracles that answer anything.

    ** Memory: registries

    - [MemAllocRegistry.v] ([core/mem_alloc_registry.cc]): the allocations
      handed out, with lease counts.  Over every sequence of calls the counts
      equal retains minus releases and no leased allocation is erased; insert
      and findRange are characterised on every input.
    - [MrRegistry.v] ([core/flagcx_mr_registry.cc]): registered memory regions
      in a sorted array with an index by id.  The invariant (sorted, disjoint,
      indexed, extensions owned once) holds after every entry point, whatever
      [realloc] answers; the binary searches agree with scans; ids are never
      reused; register and deregister are inverse.
    - [RegPool.v] ([core/reg_pool.cc]): registered buffers, page by page, and
      the shared IPC mappings.  Registration and deregistration are
      characterised, and a mapping is closed exactly with its last user.
      Reachable states are consistent as long as no registration has met two
      registered items at once: such a registration loses one of the items
      ([rp_bridge_loses_item]), and the system of calls records in a flag that
      it happened.

    ** Network

    - [IbRetrans.v] ([adaptor/net/ib_retrans.cc]): go-back-N retransmission
      with wrapped sequence numbers, in both builds (12 and 16 bits).  Each
      operation is specified.
    - [IbProtocol.v]: a sender, a receiver and a network that loses,
      duplicates and reorders, as a transition system.  A legacy sender with a
      full ring drops its oldest packet to make room, and the receiver may
      then wait for it for ever.  While nothing was dropped and nothing was
      delayed by more than half the number space, no packet leaves the ring
      before the receiver took it, in order; and the packets that
      [flagcxIbRetransCheckTimeout] posts again are enough to deliver all and
      to empty the ring of a legacy pair, even if everything on the way is
      lost.
    - [NetTransport.v] ([adaptor/net/net_transport.cc]): lanes, completion
      words, credits, request arrays and release groups; [NetScoreboard.v] the
      scoreboard refines a queue retired in order and a release group
      completes exactly when it is sealed and its members are done;
      [NetAtomics.v] the calls without a lock as atomic steps of many threads:
      credits are never exceeded, a request completes with its last operation.

    ** P2P engine

    - [P2pEngineTransport.v] ([core/p2p_engine_transport.cc]):
      registrations as segments, descriptors, and the cut of a transfer at the
      segment borders of both sides.
    - [P2pTransfer.v] ([core/p2p_engine_core.cc]): the queue
      of a transfer, its operations, credits and errors;
      [P2pTransferInv.v] its invariant, [P2pTransferProgress.v] that polling
      ends it, [P2pTransferStatus.v] what it reports;
      [P2pBackend.v] ([core/p2p_engine_backend.cc]) that the network
      backend meets the contract the transfers rely on.
    - [CollProxy.v] ([core/coll_proxy_transport.cc]): the window of
      submissions of a proxied collective, and its ordering key.

    ** Kernel proxy ([core/kernel_proxy_transport.cc], [core/proxy.cc])

    - [KernelTrigger.v], [KernelFifo.v] ([core/flagcx_kernel_host.cc],
      [default_comm_traits.h], [fifo_producer_gate.h]): the descriptor a
      kernel writes (its fields encode and decode), the FIFO between producers
      on the device and the worker as a system of steps: every descriptor is
      taken once, in order; after the gate is closed and drained nothing is in
      flight.
    - [KernelProxy.v]: requests, staging slots, counters, visibility; with
      [KernelProxyInv.v], [KernelProxyProgress.v], [KernelProxyCalls.v],
      [KernelProxyPoll.v] the lemmas on its operations.
    - [KernelWorker.v]: the worker that executes descriptors; its invariant
      ([KernelWorkerInv.v], [KernelWorkerOrder.v]) and its ordering guarantees
      ([KernelWorkerFence.v]): a signal waits for the data before it, a GET is
      visible only after its flush.
    - [KernelWorkerEnd.v]: the end of the worker ([flagcxKernelWorkerFinish]):
      closing the gate, draining, the finalization of a failed FIFO; and the
      fence of device code ([fifoFlush]) against all of it.  A fence that
      returns success covers what was submitted, unless the worker has ended
      with an error and given up what was left ([flush_of_failed_fifo]).

    ** Planning: cluster-to-cluster collectives ([runner/c2c_algo.cc])

    The planner splits a collective into steps inside each cluster and an
    exchange between clusters.  Its stages are the files:

    - [C2cBuffers.v]: arithmetic on ranks, the table of regions the
      inter-cluster ranks exchange, and the cache of plans (an LRU cache).
    - [C2cPlanner.v]: the layout of a collective ([refresh]), the table of
      library calls, and the search that places regions at peers
      ([searchHeteroSendRecvOps]); [C2cRefresh.v] and [C2cSchedule.v] prove
      what they guarantee: the regions of a cluster partition its data, and
      the search refines an abstract scheduler that conserves it.
    - [C2cStrategy.v]: the rounds of the exchange, in pieces;
      [C2cRounds.v] that the rounds end, and [C2cDelivery.v] that sends meet
      receives in order and that every element crosses exactly once.  These
      two are about sequential plans at COARSE granularity ([plan_ok]); with
      FINE, remainders are lost and orders differ ([fine_loses_remainder],
      [fine_order_mismatch]).
    - [C2cFind.v]: the whole of [findStrategy] for every collective, with
      several NICs or one; [C2cExchange.v] the exchange of those that need no
      rounds (AlltoAll(v), single-NIC reductions, rooted collectives).
    - [C2cRunner.v] ([runner/hybrid_runner.cc], [runner_result.h]): running a
      plan, as a program over an environment that answers every call into a
      device or library; [C2cExecute.v] that groups and resources are
      released on every path, that the first error is the one returned, and
      that a run without errors issues exactly the strategy's operations.

    ** Uniform runner ([runner/uni_runner_impl.cc], [uni_runner.cc])

    A rank turns a collective into a graph of transfers, copies and reductions
    and a scheduler runs it.

    - [UniDag.v]: the builders of the graphs, with every allocation;
      [UniDagBuild.v] the lemmas on building.  [UniDagShape.v] and
      [UniDagChain.v] state the graphs in closed form and that they are
      acyclic with parents counted right; [UniDagInit.v],
      [UniDagChainInit.v], [UniCollectives.v], [UniAllGather.v] that the
      builders produce them: ring all-reduce (plain, sliced, all-gather based,
      local), reduce-scatter, tree reduction.
    - [UniSched.v]: the scheduler, its pool of events, the FIFO of reductions
      ([core/flagcx_reduce_kernel_host.cc]) with the kernel as an environment
      that moves whenever the host reads; [UniSchedPool.v] pool and FIFO,
      [UniSchedInv.v] the invariant of the queues, [UniSchedStep.v],
      [UniSchedRun.v], [UniSchedLoop.v], [UniSchedSafe.v] its preservation by
      a step, a launch, a round and a run; [UniRunner.v] the theorems: parents
      first, at most once, nothing leaked, no waiting for nothing, an end.
    - [UniLedger.v]: the balance of every resource over the trace of calls;
      [UniCollective.v], [UniOutcome.v]: a whole collective, from set-up to
      clean-up, whatever fails: every event, stream, array and buffer is given
      back as often as it was taken.
    - [UniParts.v], [UniSystem.v]: the graphs of all ranks run together, each
      transfer and reduction element by element, with messages matched by
      their number.  [UniRing.v], [UniRingData.v], [UniRingInv.v]: the ring
      all-reduce in it; [UniRingLive.v] that it does not get stuck,
      [UniRingResult.v] and [UniRingSafe.v] that it ends and that, out of
      place and with fewer than 2^32 elements to a chunk, every rank ends with
      the reduction of all.  In place it does not ([ex_in_place_values]), and
      of a longer chunk the kernel sees the length modulo 2^32
      ([ex_long_reduction]).  How two elements are reduced is the parameter
      [combine], since the kernel is the vendor's.

    ** Recursion and fuel

    Loops over arrays recurse on lists.  The binary searches take the length
    of the array as fuel, halved by every iteration; the search and the rounds
    of the planner take the number of pending elements, which every
    placement and every round lowers ([search_sound], [rounds_terminate] state
    that they return).  Retransmission loops are bounded by the size of the
    ring; [split_pair_loop] by the bytes to cut, as every slice has one or
    more; [retire_loop] by the entries in flight; the loops over ready nodes by
    the length of the queue and one more.  The loop of the scheduler takes a
    number of rounds, and [scheduler_ends] states that a round per node and
    one more is enough.  Sequence counters of 64 bits are taken below their
    bound where a theorem says so.  Atomic accesses are sequentially
    consistent.

    ** Not modelled

    The adaptors for vendor collectives, devices, kernels and shared memory
    are wrappers around libraries that are not in the repository.  The
    InfiniBand, UCX, Barex and socket adaptors and bootstrap are dominated by
    system and library calls.  Of the proxy service the worker of the kernel
    proxy is modelled; the pool of operations with its socket protocol and the
    RMA proxy are not.  Groups, worker pool, symmetric heap,
    cluster discovery, topology discovery with path search, bindings, plugins,
    tools and tests are left out, and so is the tuner's floating-point cost
    model.  Of the retransmission part, the set-up of its queue pairs is left
    out.  Import and export of strategies as XML needs a parser that is
    vendored.  Of the uniform runner, the number of slices per reduction that
    the automatic setting computes in floating point is an argument, and the
    collectives that only issue a group of sends and receives are left out.

    ** Plan

    Next would be the proxy's pool of operations and the RMA proxy, path
    search in the topology, the symmetric heap, and group launch. *)
From stdpp Require Export base tactics numbers list gmap strings sorting fin_maps.
From Stdlib Require Export ZArith Lia.

Global Open Scope Z_scope.

(** ** Machine words

    [size_t], [uintptr_t] and [uint64_t] are 64 bits wide, [int] and
    [uint32_t] 32 bits.  A word is a [Z] in range and every operation that
    can leave the range is written with its wrap-around. *)

Declare Scope word_scope.
Delimit Scope word_scope with word.

Abbreviation U64_MOD := 18446744073709551616 (only parsing).
Abbreviation U64_MAX := 18446744073709551615 (only parsing).
Abbreviation U32_MOD := 4294967296 (only parsing).
Abbreviation INT_MAX := 2147483647 (only parsing).

Notation "a +u64 b" := ((a + b) mod U64_MOD) (at level 50, left associativity) : word_scope.
Notation "a -u64 b" := ((a - b) mod U64_MOD) (at level 50, left associativity) : word_scope.
Notation "a *u64 b" := ((a * b) mod U64_MOD) (at level 40, left associativity) : word_scope.
Notation "a +u32 b" := ((a + b) mod U32_MOD) (at level 50, left associativity) : word_scope.
Notation "a -u32 b" := ((a - b) mod U32_MOD) (at level 50, left associativity) : word_scope.
Global Open Scope word_scope.

Definition is_u64 (x : Z) : Prop := 0 <= x < U64_MOD.
Definition is_u32 (x : Z) : Prop := 0 <= x < U32_MOD.

#[export] Instance is_u64_dec x : Decision (is_u64 x).
Proof. unfold is_u64; apply _. Defined.
#[export] Instance is_u32_dec x : Decision (is_u32 x).
Proof. unfold is_u32; apply _. Defined.

(** Reduces a wrap-around that the context shows to be in range. *)
Ltac wrap_small :=
  repeat match goal with
  | |- context [?e mod ?m] => rewrite (Z.mod_small e m) by lia
  | H : context [?e mod ?m] |- _ => rewrite (Z.mod_small e m) in H by lia
  end.

(** [lia] after eliminating divisions and remainders. *)
Ltac zlia := Z.div_mod_to_equations; lia.
Ltac znia := Z.div_mod_to_equations; nia.

(** ** Boolean tests *)

(** Turns the boolean tests of the code into propositions. *)
Ltac bool_to_prop :=
  repeat match goal with
  | H : (_ && _)%bool = true |- _ => apply andb_true_iff in H; destruct H
  | H : (_ || _)%bool = false |- _ => apply orb_false_iff in H; destruct H
  | H : (_ || _)%bool = true |- _ => apply orb_true_iff in H
  | H : (_ && _)%bool = false |- _ => apply andb_false_iff in H
  | H : negb _ = true |- _ => apply negb_true_iff in H
  | H : negb _ = false |- _ => apply negb_false_iff in H
  | H : Z.ltb _ _ = true |- _ => apply Z.ltb_lt in H
  | H : Z.ltb _ _ = false |- _ => apply Z.ltb_ge in H
  | H : Z.leb _ _ = true |- _ => apply Z.leb_le in H
  | H : Z.leb _ _ = false |- _ => apply Z.leb_gt in H
  | H : Z.eqb _ _ = true |- _ => apply Z.eqb_eq in H
  | H : Z.eqb _ _ = false |- _ => apply Z.eqb_neq in H
  | H : bool_decide _ = true |- _ => apply bool_decide_eq_true in H
  | H : bool_decide _ = false |- _ => apply bool_decide_eq_false in H
  end.

(** Closes a closed decidable goal by evaluating its decision procedure. *)
Ltac by_deciding := apply (bool_decide_unpack _); vm_compute; exact I.

(** Splits a conjunction without unfolding, and closes the easy parts. *)
Ltac and_split :=
  repeat match goal with |- _ /\ _ => split end; try done; try lia.

(** Case analysis on the first test the goal (or a hypothesis) is stuck on. *)
Ltac case_test :=
  match goal with
  | |- context [if ?b then _ else _] =>
      lazymatch type of b with bool => destruct b eqn:? end
  end; bool_to_prop.

Ltac case_test_in H :=
  match type of H with
  | context [if ?b then _ else _] =>
      lazymatch type of b with bool => destruct b eqn:? end
  end; bool_to_prop.

(** ** Sequences of transitions *)

Section Reach.
Context {S : Type} (step : S -> S -> Prop).

Inductive reach : S -> S -> Prop :=
| reach_refl s : reach s s
| reach_step s1 s2 s3 : step s1 s2 -> reach s2 s3 -> reach s1 s3.

Lemma reach_one s1 s2 : step s1 s2 -> reach s1 s2.
Proof. econstructor; [done|constructor]. Qed.

Lemma reach_trans s1 s2 s3 : reach s1 s2 -> reach s2 s3 -> reach s1 s3.
Proof. induction 1; eauto using reach. Qed.

(** An inductive invariant holds in every state reached from a state where
    it holds. *)
Lemma reach_invariant (I : S -> Prop) :
  (forall s1 s2, I s1 -> step s1 s2 -> I s2) ->
  forall s1 s2, reach s1 s2 -> I s1 -> I s2.
Proof. intros Hpres s1 s2 Hr. induction Hr; eauto. Qed.
End Reach.

(** ** Lists *)

Section ListFacts.
Context {A : Type}.
Implicit Types l : list A.

Lemma StronglySorted_app_inv (R : A -> A -> Prop) l1 l2 :
  StronglySorted R (l1 ++ l2) <->
  StronglySorted R l1 /\ StronglySorted R l2 /\
  (forall x y, x ∈ l1 -> y ∈ l2 -> R x y).
Proof.
  induction l1 as [|a l1 IH]; cbn.
  - split; [intros H; repeat split; [constructor|done|set_solver]|naive_solver].
  - split.
    + intros H; inversion H as [|? ? Hs Hf]; subst.
      apply IH in Hs as (H1 & H2 & H3).
      rewrite Forall_app in Hf; destruct Hf as [Hf1 Hf2].
      rewrite !Forall_forall in *.
      repeat split; [constructor; [done|by apply Forall_forall]|done|].
      intros x y Hx Hy. apply elem_of_cons in Hx as [->|Hx]; eauto.
    + intros (H1 & H2 & H3). inversion H1; subst. constructor.
      * apply IH; repeat split; [done|done|]. intros; apply H3; set_solver.
      * apply Forall_app; split; [done|]. apply Forall_forall.
        intros; apply H3; set_solver.
Qed.

Lemma StronglySorted_lookup (R : A -> A -> Prop) l i j x y :
  StronglySorted R l -> l !! i = Some x -> l !! j = Some y ->
  (i < j)%nat -> R x y.
Proof.
  revert i j; induction l as [|a l IH]; intros i j Hs Hi Hj Hlt; [done|].
  inversion Hs as [|? ? Hs' Hf]; subst.
  destruct j as [|j]; [lia|]. cbn in Hj.
  destruct i as [|i]; cbn in Hi.
  - simplify_eq. rewrite Forall_forall in Hf. apply Hf.
    by eapply list_elem_of_lookup_2.
  - eapply IH; eauto. lia.
Qed.

Lemma filter_none (P : A -> Prop) `{!forall x, Decision (P x)} l : Forall (fun x => ~ P x) l -> filter P l = [].
Proof. induction 1; [done|]. by rewrite filter_cons_False. Qed.

Lemma filter_all (P : A -> Prop) `{!forall x, Decision (P x)} l : Forall P l -> filter P l = l.
Proof. induction 1; [done|]. rewrite filter_cons_True by done. by f_equal. Qed.

(** How many elements satisfy [P], after one of them changes. *)
Lemma length_filter_insert (P : A -> Prop) `{!forall x, Decision (P x)} l j x y :
  l !! j = Some x ->
  (length (filter P (<[j := y]> l)) + Nat.b2n (bool_decide (P x)) = length (filter P l) + Nat.b2n (bool_decide (P y)))%nat.
Proof.
  revert j. induction l as [|z l IH]; intros [|j] Hj; cbn in Hj; simplify_eq.
  - change (<[0%nat := y]> (x :: l)) with (y :: l). rewrite !filter_cons.
    destruct (decide (P y)) as [Hy|Hy], (decide (P x)) as [Hx|Hx];
      rewrite ?(bool_decide_eq_true_2 _ Hx), ?(bool_decide_eq_true_2 _ Hy), ?(bool_decide_eq_false_2 _ Hx),
        ?(bool_decide_eq_false_2 _ Hy); cbn [length Nat.b2n]; lia.
  - change (<[S j := y]> (z :: l)) with (z :: <[j := y]> l). rewrite !filter_cons.
    specialize (IH _ Hj). destruct (decide (P z)); cbn [length]; [|exact IH]. rewrite !Nat.add_succ_l. by f_equal.
Qed.

Lemma length_filter_positive (P : A -> Prop) `{!forall x, Decision (P x)} l j x :
  l !! j = Some x -> P x -> (0 < length (filter P l))%nat.
Proof.
  intros Hj Hx. assert (Hin : x ∈ filter P l).
  { apply list_elem_of_filter. split; [done|by eapply list_elem_of_lookup_2]. }
  destruct (filter P l); [by apply not_elem_of_nil in Hin|cbn; lia].
Qed.

Lemma StronglySorted_weaken (R1 R2 : A -> A -> Prop) l :
  (forall x y, x ∈ l -> y ∈ l -> R1 x y -> R2 x y) ->
  StronglySorted R1 l -> StronglySorted R2 l.
Proof.
  induction l as [|a l IH]; intros Hw Hs; [constructor|].
  inversion Hs as [|? ? Hs' Hf]; subst. constructor.
  - apply IH; [|done]. intros; apply Hw; set_solver.
  - rewrite Forall_forall in *. intros x Hx. apply Hw; set_solver.
Qed.
End ListFacts.

Create HintDb flagcx.
#[export] Hint Constructors StronglySorted Forall : flagcx.
#[export] Hint Resolve reach_refl reach_one : flagcx.
