(* ===== verification/Flagcx.v ===== *)
(** Data shared by the components: the enumerations of
    [flagcx/include/flagcx.h] and the error-propagation macros of
    [flagcx/service/include/check.h]. *)
From S2P Require Import Prelude.

(** [flagcxResult_t]. *)
Inductive flagcxResult_t :=
| flagcxSuccess
| flagcxUnhandledDeviceError
| flagcxSystemError
| flagcxInternalError
| flagcxInvalidArgument
| flagcxInvalidUsage
| flagcxRemoteError
| flagcxInProgress
| flagcxUnhandledCCLError
| flagcxNotSupported.

#[export] Instance flagcxResult_eq_dec : EqDecision flagcxResult_t.
Proof. solve_decision. Defined.

#[export] Instance flagcxResult_inhabited : Inhabited flagcxResult_t :=
  populate flagcxInternalError.

(** [FLAGCXCHECK(call)]: the codes that make the caller return. *)
Definition flagcx_failed (r : flagcxResult_t) : bool :=
  negb (bool_decide (r = flagcxSuccess)) && negb (bool_decide (r = flagcxInProgress)).

Lemma flagcx_failed_success : flagcx_failed flagcxSuccess = false.
Proof. done. Qed.

(** [flagcxCommOp_t]. *)
Inductive flagcxCommOp_t :=
| flagcxCommOpSend
| flagcxCommOpRecv
| flagcxCommOpBroadcast
| flagcxCommOpGather
| flagcxCommOpScatter
| flagcxCommOpReduce
| flagcxCommOpAllReduce
| flagcxCommOpAllGather
| flagcxCommOpReduceScatter
| flagcxCommOpAlltoAll
| flagcxCommOpAlltoAllv
| flagcxCommNoOp.

#[export] Instance flagcxCommOp_eq_dec : EqDecision flagcxCommOp_t.
Proof. solve_decision. Defined.

(** [flagcxRedOp_t]. *)
Inductive flagcxRedOp_t :=
| flagcxSum | flagcxProd | flagcxMax | flagcxMin | flagcxAvg | flagcxRedNoOp.

#[export] Instance flagcxRedOp_eq_dec : EqDecision flagcxRedOp_t.
Proof. solve_decision. Defined.

(** Tests on enumerations. *)
Abbreviation op_is o o' := (bool_decide (o = o')) (only parsing).

(** Folding with a step that may fail. *)
Section MFold.
Context {A B : Type} (f : A -> B -> option A).
Fixpoint mfold (a : A) (l : list B) : option A :=
  match l with
  | [] => Some a
  | b :: l' => a' ← f a b; mfold a' l'
  end.
End MFold.
