(* ===== verification/OrdMap.v ===== *)
(** Model of [std::map<uintptr_t, V>]: an association list in increasing key
  order.  An iterator is a position ([nat]) in the list and [end()] is its
  length, so [lower_bound], [upper_bound] and [std::prev] are the ones of the
  standard library, and iteration visits the keys in order. *)
From S2P Require Import Prelude.

Section OrdMap.
Context {V : Type}.
Implicit Types (m : list (Z * V)) (k : Z) (v : V).

(** Position of the first key that is not less than [k]. *)
Fixpoint om_lower_bound k m : nat :=
  match m with
  | [] => 0
  | (k', _) :: m' => if k' <? k then S (om_lower_bound k m') else 0%nat
  end.

(** Position of the first key that is greater than [k]. *)
Fixpoint om_upper_bound k m : nat :=
  match m with
  | [] => 0
  | (k', _) :: m' => if k' <=? k then S (om_upper_bound k m') else 0%nat
  end.

Fixpoint om_find k m : option V :=
  match m with
  | [] => None
  | (k', v) :: m' => if k' =? k then Some v else om_find k m'
  end.

(** [emplace]: inserts in order, and does nothing when the key is present. *)
Fixpoint om_emplace k v m : list (Z * V) :=
  match m with
  | [] => [(k, v)]
  | (k', v') :: m' =>
      if k' <? k then (k', v') :: om_emplace k v m'
      else if k' =? k then m else (k, v) :: m
  end.

(** Assignment through an iterator or a reference to the mapped value. *)
Fixpoint om_assign k v m : list (Z * V) :=
  match m with
  | [] => []
  | (k', v') :: m' => if k' =? k then (k', v) :: m' else (k', v') :: om_assign k v m'
  end.

Fixpoint om_erase k m : list (Z * V) :=
  match m with
  | [] => []
  | (k', v') :: m' => if k' =? k then m' else (k', v') :: om_erase k m'
  end.

Definition key_lt (a b : Z * V) : Prop := a.1 < b.1.
Definition om_sorted m : Prop := StronglySorted key_lt m.

Lemma om_sorted_cons a m :
  om_sorted (a :: m) <-> om_sorted m /\ Forall (key_lt a) m.
Proof. unfold om_sorted; split; [by inversion 1|intros []; by constructor]. Qed.

(** [lower_bound] splits a sorted map into the smaller keys and the rest. *)
Lemma om_lower_bound_split k m :
  om_sorted m ->
  exists l r, m = l ++ r /\ length l = om_lower_bound k m /\
    Forall (fun a => a.1 < k) l /\ Forall (fun a => k <= a.1) r.
Proof.
  induction m as [|[k' v] m IH]; intros Hs; cbn.
  - by exists [], [].
  - apply om_sorted_cons in Hs as [Hs Hf]. case_test.
    + destruct (IH Hs) as (l & r & -> & Hlen & Hl & Hr).
      exists ((k', v) :: l), r. cbn. rewrite Hlen. by repeat constructor.
    + exists [], ((k', v) :: m). repeat split; [by constructor|].
      constructor; [done|]. eapply Forall_impl; [exact Hf|].
      unfold key_lt; cbn; lia.
Qed.

Lemma om_upper_bound_split k m :
  om_sorted m ->
  exists l r, m = l ++ r /\ length l = om_upper_bound k m /\
    Forall (fun a => a.1 <= k) l /\ Forall (fun a => k < a.1) r.
Proof.
  induction m as [|[k' v] m IH]; intros Hs; cbn.
  - by exists [], [].
  - apply om_sorted_cons in Hs as [Hs Hf]. case_test.
    + destruct (IH Hs) as (l & r & -> & Hlen & Hl & Hr).
      exists ((k', v) :: l), r. cbn. rewrite Hlen. by repeat constructor.
    + exists [], ((k', v) :: m). repeat split; [by constructor|].
      constructor; [done|]. eapply Forall_impl; [exact Hf|].
      unfold key_lt; cbn; lia.
Qed.

Lemma om_find_Some_elem k v m : om_find k m = Some v -> (k, v) ∈ m.
Proof.
  induction m as [|[k' v'] m IH]; cbn; [done|]. case_test.
  - intros; simplify_eq. by constructor.
  - intros; constructor; auto.
Qed.

Lemma om_find_elem k v m :
  om_sorted m -> om_find k m = Some v <-> (k, v) ∈ m.
Proof.
  intros Hs; split; [apply om_find_Some_elem|].
  induction m as [|[k' v'] m IH]; [by intros ?%elem_of_nil|].
  apply om_sorted_cons in Hs as [Hs Hf]. cbn.
  intros [Heq|Hin]%elem_of_cons.
  - simplify_eq. by rewrite Z.eqb_refl.
  - case_test; [|auto]. subst.
    rewrite Forall_forall in Hf. specialize (Hf _ Hin).
    unfold key_lt in Hf; cbn in Hf; lia.
Qed.

Lemma om_find_None k m : om_find k m = None <-> forall v, (k, v) ∉ m.
Proof.
  induction m as [|[k' v'] m IH]; cbn.
  - split; [intros _ v ?%elem_of_nil; done|done].
  - case_test.
    + subst. split; [done|]. intros H. exfalso. apply (H v'). by constructor.
    + rewrite IH. split.
      * intros H v [?|?]%elem_of_cons; [simplify_eq|by eapply H].
      * intros H v Hin. apply (H v). by constructor.
Qed.

(** Inserting between the two halves that [lower_bound] separates. *)
Lemma om_emplace_split k v l r :
  Forall (fun a => a.1 < k) l -> Forall (fun a => k < a.1) r ->
  om_emplace k v (l ++ r) = l ++ (k, v) :: r.
Proof.
  induction l as [|[k' v'] l IH]; intros Hl Hr; cbn.
  - destruct r as [|[k' v'] r]; [done|]. inversion Hr; subst; cbn in *.
    cbn. destruct (Z.ltb_spec k' k); [lia|].
    destruct (Z.eqb_spec k' k); [lia|done].
  - inversion Hl; subst; cbn in *.
    destruct (Z.ltb_spec k' k); [|lia]. by rewrite IH.
Qed.

Lemma om_erase_split k v l r :
  Forall (fun a => a.1 < k) l -> om_erase k (l ++ (k, v) :: r) = l ++ r.
Proof.
  induction l as [|[k' v'] l IH]; intros Hl; cbn.
  - by rewrite Z.eqb_refl.
  - inversion Hl; subst; cbn in *.
    destruct (Z.eqb_spec k' k); [lia|]. by rewrite IH.
Qed.

Lemma om_assign_split k v v' l r :
  Forall (fun a => a.1 < k) l ->
  om_assign k v' (l ++ (k, v) :: r) = l ++ (k, v') :: r.
Proof.
  induction l as [|[k' w] l IH]; intros Hl; cbn.
  - by rewrite Z.eqb_refl.
  - inversion Hl; subst; cbn in *.
    destruct (Z.eqb_spec k' k); [lia|]. by rewrite IH.
Qed.

(** A present key sits between the smaller and the larger ones. *)
Lemma om_sorted_elem_split k v m :
  om_sorted m -> (k, v) ∈ m ->
  exists l r, m = l ++ (k, v) :: r /\
    Forall (fun a => a.1 < k) l /\ Forall (fun a => k < a.1) r.
Proof.
  intros Hs (l & r & ->)%list_elem_of_split.
  apply StronglySorted_app_inv in Hs as (_ & Hs2 & Hx).
  exists l, r; repeat split.
  - apply Forall_forall; intros x Hin.
    apply (Hx x (k, v)); [done|by constructor].
  - inversion Hs2; subst. eapply Forall_impl; [eassumption|]. done.
Qed.

Lemma om_find_app_middle k v l r :
  Forall (fun a => a.1 < k) l -> om_find k (l ++ (k, v) :: r) = Some v.
Proof.
  induction l as [|[k' w] l IH]; intros Hl; cbn; [by rewrite Z.eqb_refl|].
  inversion Hl; subst; cbn in *. destruct (Z.eqb_spec k' k); [lia|auto].
Qed.
End OrdMap.
