(* ===== verification/MemAllocRegistry.v ===== *)
(** The allocation registry [flagcxMemAllocRegistry]
    ([flagcx/core/mem_alloc_registry.cc]): the exact byte ranges handed out by
    [flagcxMemAlloc], with the number of symmetric windows that still lease
    each of them.

    The registry is the sorted map [allocations_].  Every method is a function
    from the map to the result code, the out parameter and the new map; a
    null out pointer is the boolean argument [out].  The mutex makes each
    method one step, so a concurrent execution is a sequence of steps. *)
From S2P Require Import Prelude Flagcx OrdMap.

(** [flagcxMemAllocBackend_t]. *)
Inductive flagcxMemAllocBackend_t :=
| flagcxMemAllocBackendNative
| flagcxMemAllocBackendCcl
| flagcxMemAllocBackendShmem.

(** [flagcxMemAllocationInfo]; pointers and sizes are 64-bit words. *)
Record flagcxMemAllocationInfo := MkAllocInfo {
  ma_base : Z;
  ma_size : Z;
  ma_allocator : Z;
  ma_backend : flagcxMemAllocBackend_t;
  ma_isVmm : bool;
  ma_windowRefs : Z
}.

Definition ma_setRefs (i : flagcxMemAllocationInfo) (r : Z) : flagcxMemAllocationInfo :=
  MkAllocInfo (ma_base i) (ma_size i) (ma_allocator i) (ma_backend i) (ma_isVmm i) r.

Abbreviation allocations := (list (Z * flagcxMemAllocationInfo)).

Definition validRange (base size : Z) : bool :=
  negb (base =? 0) && negb (size =? 0) && (size <=? U64_MAX - base).

(** [insert].  [mem_ok] is whether the node allocation of [emplace] succeeds
    ([std::bad_alloc] otherwise). *)
Definition MemAlloc_insert (mem_ok : bool) (info : flagcxMemAllocationInfo)
    (m : allocations) : flagcxResult_t * allocations :=
  let base := ma_base info in
  if negb (validRange base (ma_size info)) then (flagcxInvalidArgument, m) else
  let end_ := base +u64 ma_size info in
  let next := om_lower_bound base m in
  if (match m !! next with Some (k, _) => k <? end_ | None => false end)
  then (flagcxInvalidUsage, m) else
  if (match next with
      | O => false
      | S p => match m !! p with
               | Some (k, i) => base <? (k +u64 ma_size i)
               | None => false
               end
      end)
  then (flagcxInvalidUsage, m) else
  if mem_ok then (flagcxSuccess, om_emplace base info m)
  else (flagcxSystemError, m).

(** [findExact]. *)
Definition MemAlloc_findExact (basePtr : Z) (out : bool) (m : allocations)
    : flagcxResult_t * option flagcxMemAllocationInfo :=
  if (basePtr =? 0) || negb out then (flagcxInvalidArgument, None) else
  match om_find basePtr m with
  | None => (flagcxInvalidUsage, None)
  | Some info => (flagcxSuccess, Some info)
  end.

(** The entry that [upper_bound] followed by [--it] lands on. *)
Definition MemAlloc_prevEntry (address : Z) (m : allocations)
    : option (Z * flagcxMemAllocationInfo) :=
  match om_upper_bound address m with
  | O => None
  | S p => m !! p
  end.

(** [findRange]. *)
Definition MemAlloc_findRange (ptr size : Z) (out : bool) (m : allocations)
    : flagcxResult_t * option flagcxMemAllocationInfo :=
  if (ptr =? 0) || (size =? 0) || negb out then (flagcxInvalidArgument, None) else
  match MemAlloc_prevEntry ptr m with
  | None => (flagcxInvalidUsage, None)
  | Some (base, info) =>
      let allocationSize := ma_size info in
      let offset := ptr -u64 base in
      if (allocationSize <? offset) || (allocationSize -u64 offset <? size)
      then (flagcxInvalidUsage, None)
      else (flagcxSuccess, Some info)
  end.

(** [retainWindowRange]; the second component is [*allocationBase]. *)
Definition MemAlloc_retainWindowRange (ptr size : Z) (out : bool) (m : allocations)
    : flagcxResult_t * option Z * allocations :=
  if (ptr =? 0) || (size =? 0) || negb out then (flagcxInvalidArgument, None, m) else
  match MemAlloc_prevEntry ptr m with
  | None => (flagcxInvalidUsage, None, m)
  | Some (base, info) =>
      let offset := ptr -u64 base in
      if (ma_size info <? offset) || (ma_size info -u64 offset <? size)
      then (flagcxInvalidUsage, None, m) else
      if ma_windowRefs info =? U64_MAX then (flagcxSystemError, None, m) else
      (flagcxSuccess, Some (ma_base info),
       om_assign base (ma_setRefs info (ma_windowRefs info +u64 1)) m)
  end.

(** [releaseWindow]. *)
Definition MemAlloc_releaseWindow (allocationBase : Z) (m : allocations)
    : flagcxResult_t * allocations :=
  if allocationBase =? 0 then (flagcxInvalidArgument, m) else
  match om_find allocationBase m with
  | None => (flagcxInvalidUsage, m)
  | Some info =>
      if ma_windowRefs info =? 0 then (flagcxInvalidUsage, m)
      else (flagcxSuccess,
            om_assign allocationBase (ma_setRefs info (ma_windowRefs info -u64 1)) m)
  end.

(** [erase]. *)
Definition MemAlloc_erase (basePtr : Z) (m : allocations) : flagcxResult_t * allocations :=
  if basePtr =? 0 then (flagcxInvalidArgument, m) else
  match om_find basePtr m with
  | None => (flagcxInvalidUsage, m)
  | Some info =>
      if negb (ma_windowRefs info =? 0) then (flagcxInvalidUsage, m)
      else (flagcxSuccess, om_erase basePtr m)
  end.

(** A call of a mutating method, and its execution under the registry mutex:
    the result code, the base address written to the out parameter (of
    [retainWindowRange]) and the new map. *)
Inductive MemAlloc_call :=
| CallInsert (mem_ok : bool) (info : flagcxMemAllocationInfo)
| CallRetain (ptr size : Z) (out : bool)
| CallRelease (base : Z)
| CallErase (base : Z).

Definition MemAlloc_exec (c : MemAlloc_call) (m : allocations)
    : flagcxResult_t * option Z * allocations :=
  match c with
  | CallInsert ok info => let '(r, m') := MemAlloc_insert ok info m in (r, None, m')
  | CallRetain ptr size out => MemAlloc_retainWindowRange ptr size out m
  | CallRelease base => let '(r, m') := MemAlloc_releaseWindow base m in (r, None, m')
  | CallErase base => let '(r, m') := MemAlloc_erase base m in (r, None, m')
  end.

(** Argument ranges; a caller of [insert] passes an entry without leases. *)
Definition MemAlloc_call_ok (c : MemAlloc_call) : Prop :=
  match c with
  | CallInsert _ info =>
      is_u64 (ma_base info) /\ is_u64 (ma_size info) /\ ma_windowRefs info = 0
  | CallRetain ptr size _ => is_u64 ptr /\ is_u64 size
  | CallRelease _ | CallErase _ => True
  end.

(** A history records each call with what it answered; [leases b] counts, from
    a history, the leases taken on [b] and not given back. *)
Abbreviation MemAlloc_event := (MemAlloc_call * flagcxResult_t * option Z)%type.

Fixpoint MemAlloc_run (cs : list MemAlloc_call) (m : allocations)
    : list MemAlloc_event * allocations :=
  match cs with
  | [] => ([], m)
  | c :: cs' =>
      let '(r, o, m') := MemAlloc_exec c m in
      let '(h, m'') := MemAlloc_run cs' m' in ((c, r, o) :: h, m'')
  end.

Definition lease_delta (b : Z) (e : MemAlloc_event) : Z :=
  match e with
  | (CallRetain _ _ _, flagcxSuccess, Some b') => if b' =? b then 1 else 0
  | (CallRelease b', flagcxSuccess, _) => if b' =? b then -1 else 0
  | _ => 0
  end.

Fixpoint leases (b : Z) (h : list MemAlloc_event) : Z :=
  match h with
  | [] => 0
  | e :: h' => lease_delta b e + leases b h'
  end.

(** ** Invariant *)

Definition alloc_ok (a : Z * flagcxMemAllocationInfo) : Prop :=
  a.1 = ma_base a.2 /\ 0 < a.1 /\ 0 < ma_size a.2 /\
  a.1 + ma_size a.2 <= U64_MAX /\ is_u64 (ma_windowRefs a.2).

(** [a] ends at or before the start of [b]. *)
Definition range_before (a b : Z * flagcxMemAllocationInfo) : Prop :=
  a.1 + ma_size a.2 <= b.1.

(** Entries are well formed, in address order and pairwise disjoint. *)
Definition MemAlloc_wf (m : allocations) : Prop :=
  StronglySorted range_before m /\ Forall alloc_ok m.

(** The bytes [ptr, ptr+size) lie inside allocation [a]. *)
Definition covers (a : Z * flagcxMemAllocationInfo) (ptr size : Z) : Prop :=
  a.1 <= ptr /\ ptr + size <= a.1 + ma_size a.2.

Definition overlaps (a : Z * flagcxMemAllocationInfo) (ptr size : Z) : Prop :=
  a.1 < ptr + size /\ ptr < a.1 + ma_size a.2.

(** ** Lemmas *)

Lemma validRange_spec base size :
  is_u64 base -> is_u64 size ->
  validRange base size = true <-> 0 < base /\ 0 < size /\ base + size <= U64_MAX.
Proof.
  unfold validRange, is_u64; intros.
  rewrite !andb_true_iff, !negb_true_iff, !Z.eqb_neq, Z.leb_le. lia.
Qed.

Lemma MemAlloc_wf_sorted m : MemAlloc_wf m -> om_sorted m.
Proof.
  intros [Hs Hf]. eapply StronglySorted_weaken; [|exact Hs].
  intros x y Hx Hy. rewrite Forall_forall in Hf.
  destruct (Hf _ Hx) as (_ & _ & Hsz & _). unfold range_before, key_lt. lia.
Qed.

Lemma MemAlloc_wf_app l r :
  MemAlloc_wf (l ++ r) <->
  MemAlloc_wf l /\ MemAlloc_wf r /\
  (forall x y, x ∈ l -> y ∈ r -> range_before x y).
Proof.
  unfold MemAlloc_wf. rewrite StronglySorted_app_inv, Forall_app. naive_solver.
Qed.

Lemma MemAlloc_wf_cons a r :
  MemAlloc_wf (a :: r) <->
  alloc_ok a /\ MemAlloc_wf r /\ (forall y, y ∈ r -> range_before a y).
Proof.
  unfold MemAlloc_wf. split.
  - intros [Hs Hf]; inversion Hs; inversion Hf; subst.
    rewrite <-Forall_forall. naive_solver.
  - rewrite <-Forall_forall. intros (? & [] & ?).
    split; constructor; done.
Qed.

(** Replacing the entry at a key by one with the same range. *)
Lemma MemAlloc_wf_replace k i j l r :
  MemAlloc_wf (l ++ (k, i) :: r) -> ma_size j = ma_size i -> alloc_ok (k, j) ->
  MemAlloc_wf (l ++ (k, j) :: r).
Proof.
  rewrite !MemAlloc_wf_app, !MemAlloc_wf_cons.
  intros (Hl & (Hi & Hr & Hir) & Hx) Hsz Hj. unfold range_before in *; cbn in *.
  repeat split; [apply Hl|apply Hl|apply Hj..|apply Hr|apply Hr| |].
  - intros y Hy. rewrite Hsz. auto.
  - intros x y Hx1 [->|Hy]%elem_of_cons; cbn.
    + apply (Hx x (k, i)); [done|by constructor].
    + apply Hx; [done|by constructor].
Qed.

(** Where [upper_bound] followed by [--it] lands. *)
Lemma MemAlloc_prevEntry_split address m :
  om_sorted m ->
  (exists l k i r, m = l ++ (k, i) :: r /\ MemAlloc_prevEntry address m = Some (k, i) /\
     k <= address /\ Forall (fun a => a.1 < k) l /\ Forall (fun a => address < a.1) r) \/
  (MemAlloc_prevEntry address m = None /\ Forall (fun a => address < a.1) m).
Proof.
  intros Hs. destruct (om_upper_bound_split address m Hs) as (l & r & -> & Hlen & Hl & Hr).
  unfold MemAlloc_prevEntry. rewrite <-Hlen.
  destruct l as [|[k i] l _] using rev_ind; [by right|left].
  rewrite length_app; cbn. rewrite Nat.add_1_r.
  exists l, k, i, r. rewrite <-!app_assoc in *. cbn in *.
  rewrite lookup_app_r by lia. rewrite Nat.sub_diag; cbn.
  apply Forall_app in Hl as [_ Hk]. inversion Hk; subst; cbn in *.
  repeat split; [done| |done].
  apply StronglySorted_app_inv in Hs as (_ & _ & Hx).
  apply Forall_forall; intros x Hin. apply (Hx x (k, i)); [done|by constructor].
Qed.

(** In a disjoint map the entry found by [upper_bound]/[--it] is the only one
    that can cover the range. *)
Lemma MemAlloc_covers_prev m address size a :
  MemAlloc_wf m -> 0 < size -> a ∈ m -> covers a address size ->
  MemAlloc_prevEntry address m = Some a.
Proof.
  intros Hwf Hsz Ha [Hlo Hhi].
  destruct (MemAlloc_prevEntry_split address m (MemAlloc_wf_sorted _ Hwf))
    as [(l & k & i & r & -> & -> & Hk & Hl & Hr)|[_ Hall]].
  - apply MemAlloc_wf_app in Hwf as (_ & Hwf & Hx).
    apply elem_of_app in Ha as [Ha|[->|Ha]%elem_of_cons]; [|done|].
    + specialize (Hx a (k, i) Ha ltac:(by constructor)).
      unfold range_before in Hx; cbn in Hx. lia.
    + rewrite Forall_forall in Hr. specialize (Hr _ Ha). lia.
  - rewrite Forall_forall in Hall. specialize (Hall _ Ha). lia.
Qed.

Lemma MemAlloc_prev_elem address m a :
  om_sorted m -> MemAlloc_prevEntry address m = Some a -> a ∈ m /\ a.1 <= address.
Proof.
  intros Hs Ha.
  destruct (MemAlloc_prevEntry_split address m Hs)
    as [(l & k & i & r & -> & Heq & Hk & _)|[Heq _]]; simplify_eq.
  split; [|done]. apply elem_of_app; right; by constructor.
Qed.

(** The guard of [findRange] and [retainWindowRange] tests coverage. *)
Lemma MemAlloc_range_guard k i ptr size :
  alloc_ok (k, i) -> is_u64 ptr -> is_u64 size -> k <= ptr ->
  (ma_size i <? (ptr -u64 k)) || ((ma_size i -u64 (ptr -u64 k)) <? size) = false <->
  covers (k, i) ptr size.
Proof.
  unfold alloc_ok, is_u64, covers; cbn. intros (-> & ? & ? & ? & ?) Hp Hsz Hle.
  rewrite (Z.mod_small (ptr - _)) by lia.
  rewrite orb_false_iff, !Z.ltb_ge. split.
  - intros [Ha Hb]. rewrite Z.mod_small in Hb by lia. lia.
  - intros [Ha Hb]. rewrite Z.mod_small by lia. lia.
Qed.

Lemma MemAlloc_wf_elem m a : MemAlloc_wf m -> a ∈ m -> alloc_ok a.
Proof. intros [_ Hf] Ha. rewrite Forall_forall in Hf. auto. Qed.

#[export] Hint Resolve MemAlloc_wf_sorted MemAlloc_wf_elem : flagcx.

(** What both range queries decide. *)
Lemma MemAlloc_prev_guard ptr size m :
  MemAlloc_wf m -> is_u64 ptr -> is_u64 size -> 0 < size ->
  match MemAlloc_prevEntry ptr m with
  | Some (k, i) =>
      (k, i) ∈ m /\
      if (ma_size i <? (ptr -u64 k)) || ((ma_size i -u64 (ptr -u64 k)) <? size)
      then forall a, a ∈ m -> ~ covers a ptr size
      else covers (k, i) ptr size
  | None => forall a, a ∈ m -> ~ covers a ptr size
  end.
Proof.
  intros Hwf Hp Hsz Hpos.
  destruct (MemAlloc_prevEntry ptr m) as [[k i]|] eqn:Hprev.
  - destruct (MemAlloc_prev_elem ptr m (k, i)) as [Hin Hle]; eauto with flagcx.
    pose proof (MemAlloc_range_guard k i ptr size) as Hg.
    split; [done|]. case_match eqn:Hb.
    + intros a Ha Hc. pose proof (MemAlloc_covers_prev _ _ _ _ Hwf Hpos Ha Hc).
      simplify_eq. apply Hg in Hc; eauto with flagcx. congruence.
    + apply Hg; eauto with flagcx.
  - intros a Ha Hc. pose proof (MemAlloc_covers_prev _ _ _ _ Hwf Hpos Ha Hc). congruence.
Qed.

(** Two disjointness tests of [insert]: the entry at [lower_bound] and the one
    before it are the only ones that can overlap the new range. *)
Lemma MemAlloc_insert_tests base size m :
  MemAlloc_wf m -> is_u64 base -> is_u64 size ->
  0 < base -> 0 < size -> base + size <= U64_MAX ->
  exists l r, m = l ++ r /\ length l = om_lower_bound base m /\
    Forall (fun a => a.1 < base) l /\ Forall (fun a => base <= a.1) r /\
    (match r with [] => False | a :: _ => a.1 < base + size end \/
     match last l with None => False | Some a => base < a.1 + ma_size a.2 end <->
     exists a, a ∈ m /\ overlaps a base size).
Proof.
  intros Hwf Hb Hs Hb0 Hs0 Hend.
  destruct (om_lower_bound_split base m) as (l & r & Hm & Hlen & Hl & Hr);
    [eauto with flagcx|].
  exists l, r. repeat split; try done.
  - subst m. intros [Hn|Hp].
    + destruct r as [|[k i] r]; [done|]. exists (k, i). unfold overlaps; cbn in *.
      assert (alloc_ok (k, i)) as (? & ? & ? & ?)
        by (eapply MemAlloc_wf_elem; [exact Hwf|set_solver]).
      inversion Hr; subst; cbn in *. split; [set_solver|lia].
    + destruct (last l) as [[k i]|] eqn:Hlast; [|done].
      apply last_Some_elem_of in Hlast. exists (k, i). unfold overlaps; cbn in *.
      rewrite Forall_forall in Hl. specialize (Hl _ Hlast); cbn in Hl.
      split; [set_solver|lia].
  - subst m. intros (a & Ha & Hov). unfold overlaps in Hov.
    apply MemAlloc_wf_app in Hwf as (Hwl & Hwr & _).
    apply elem_of_app in Ha as [Ha|Ha].
    + right. destruct l as [|b l _] using rev_ind; [set_solver|].
      rewrite last_snoc. apply MemAlloc_wf_app in Hwl as (_ & Hwb & Hx).
      apply elem_of_app in Ha as [Ha|Ha]; [|set_solver].
      specialize (Hx a b Ha ltac:(set_solver)). unfold range_before in Hx.
      apply (MemAlloc_wf_elem _ b) in Hwb; [|set_solver].
      destruct Hwb as (_ & _ & ? & _). lia.
    + left. destruct r as [|b r]; [set_solver|].
      apply MemAlloc_wf_cons in Hwr as (Hb' & _ & Hx).
      apply elem_of_cons in Ha as [->|Ha]; [lia|].
      specialize (Hx a Ha). unfold range_before in Hx.
      destruct Hb' as (_ & _ & ? & _). lia.
Qed.

(** Inserting a disjoint range keeps the map well formed. *)
Lemma MemAlloc_wf_insert info l r :
  let base := ma_base info in
  MemAlloc_wf (l ++ r) -> alloc_ok (base, info) ->
  Forall (fun a => a.1 < base) l -> Forall (fun a => base <= a.1) r ->
  (forall a, a ∈ l ++ r -> ~ overlaps a base (ma_size info)) ->
  MemAlloc_wf (l ++ (base, info) :: r).
Proof.
  cbn. intros Hwf Hok Hl Hr Hno. rewrite MemAlloc_wf_app, MemAlloc_wf_cons.
  apply MemAlloc_wf_app in Hwf as (Hwl & Hwr & Hx).
  rewrite !Forall_forall in *. unfold overlaps in Hno.
  assert (Hll : forall x, x ∈ l -> range_before x (ma_base info, info)).
  { intros x Hin. specialize (Hl _ Hin). specialize (Hno x ltac:(set_solver)).
    destruct Hok as (_ & _ & ? & _). unfold range_before; cbn in *. lia. }
  repeat split; [apply Hwl|apply Hwl|apply Hok..|apply Hwr|apply Hwr| |].
  - intros y Hy. specialize (Hr _ Hy). specialize (Hno y ltac:(set_solver)).
    apply (MemAlloc_wf_elem _ y) in Hwr; [|done]. destruct Hwr as (_ & _ & ? & _).
    unfold range_before; cbn in *. lia.
  - intros x y Hxl [->|Hy]%elem_of_cons; auto.
Qed.

(** The two tests, as the code writes them, on a split map. *)
Lemma MemAlloc_next_test e (l r : allocations) :
  (match (l ++ r) !! length l with Some (k, _) => k <? e | None => false end) = true <->
  match r with [] => False | a :: _ => a.1 < e end.
Proof.
  rewrite lookup_app_r, Nat.sub_diag by lia.
  destruct r as [|[k i] r]; cbn; [done|]. apply Z.ltb_lt.
Qed.

Lemma MemAlloc_prev_test base (l r : allocations) :
  MemAlloc_wf (l ++ r) ->
  (match length l with
   | O => false
   | S p => match (l ++ r) !! p with
            | Some (k, i) => base <? (k +u64 ma_size i)
            | None => false
            end
   end) = true <->
  match last l with None => False | Some a => base < a.1 + ma_size a.2 end.
Proof.
  intros Hwf. destruct l as [|[k i] l _] using rev_ind; [done|].
  rewrite last_snoc, length_app; cbn. rewrite Nat.add_1_r, <-app_assoc.
  rewrite lookup_app_r, Nat.sub_diag by lia; cbn.
  assert (alloc_ok (k, i)) as (? & ? & ? & ? & ?)
    by (eapply MemAlloc_wf_elem; [exact Hwf|set_solver]); cbn in *.
  rewrite Z.mod_small by lia. apply Z.ltb_lt.
Qed.

(** The complete behaviour of [insert] on a well-formed map. *)
Lemma MemAlloc_insert_cases ok info m :
  MemAlloc_wf m -> is_u64 (ma_base info) -> is_u64 (ma_size info) ->
  is_u64 (ma_windowRefs info) ->
  let base := ma_base info in let size := ma_size info in
  (validRange base size = false /\
   MemAlloc_insert ok info m = (flagcxInvalidArgument, m)) \/
  (validRange base size = true /\ (exists a, a ∈ m /\ overlaps a base size) /\
   MemAlloc_insert ok info m = (flagcxInvalidUsage, m)) \/
  (validRange base size = true /\ (forall a, a ∈ m -> ~ overlaps a base size) /\
   exists l r, m = l ++ r /\ MemAlloc_wf (l ++ (base, info) :: r) /\
     MemAlloc_insert ok info m =
       if ok then (flagcxSuccess, l ++ (base, info) :: r) else (flagcxSystemError, m)).
Proof.
  intros Hwf Hb Hs Hw base size. unfold MemAlloc_insert; fold base size.
  destruct (validRange base size) eqn:Hv; cbn; [right|by left].
  pose proof Hv as Hv'. apply validRange_spec in Hv' as (Hb0 & Hs0 & Hend); [|done..].
  destruct (MemAlloc_insert_tests base size m) as (l & r & Hm & Hlen & Hl & Hr & Hiff);
    [done..|].
  rewrite <-Hlen. rewrite (Z.mod_small (base + size)) by lia.
  pose proof (MemAlloc_next_test (base + size) l r) as Hnext.
  pose proof (MemAlloc_prev_test base l r ltac:(by rewrite <-Hm)) as Hprev.
  rewrite <-Hm in Hnext, Hprev.
  repeat match goal with |- context [if ?b then _ else _] =>
    match type of b with bool =>
      lazymatch b with ok => fail | _ => destruct b eqn:? end end end.
  - left. repeat split; try done. apply Hiff; left. by apply Hnext.
  - left. repeat split; try done. apply Hiff; right. by apply Hprev.
  - assert (Hno : forall a, a ∈ m -> ~ overlaps a base size).
    { intros a Ha Hov. destruct Hiff as [_ Hiff].
      destruct Hiff as [H1|H1]; [by exists a|apply Hnext in H1|apply Hprev in H1]; congruence. }
    right. repeat split; [done|]. exists l, r. split; [done|].
    assert (Hok : alloc_ok (base, info)) by (repeat split; cbn; try done; lia || apply Hw).
    split; [by subst m; apply MemAlloc_wf_insert|].
    destruct ok; [|done]. f_equal. subst m. apply om_emplace_split; [done|].
    rewrite Forall_forall in *. intros a Ha. specialize (Hr _ Ha).
    assert (a.1 <> base); [|lia]. intros Heq.
    apply (Hno a); [set_solver|]. unfold overlaps.
    assert (alloc_ok a) as (_ & _ & ? & _)
      by (eapply MemAlloc_wf_elem; [exact Hwf|set_solver]). lia.
Qed.

(** Changing the leases of one entry. *)
Lemma MemAlloc_wf_setRefs k i n m :
  MemAlloc_wf m -> (k, i) ∈ m -> is_u64 n ->
  MemAlloc_wf (om_assign k (ma_setRefs i n) m).
Proof.
  intros Hwf Hin Hn.
  destruct (om_sorted_elem_split k i m) as (l & r & -> & Hl & Hr); [eauto with flagcx..|].
  rewrite om_assign_split by done. eapply MemAlloc_wf_replace; [done|done|].
  apply (MemAlloc_wf_elem _ (k, i)) in Hwf; [|done].
  unfold alloc_ok in *; cbn in *. naive_solver.
Qed.

Lemma MemAlloc_wf_erase k i m :
  MemAlloc_wf m -> (k, i) ∈ m -> MemAlloc_wf (om_erase k m).
Proof.
  intros Hwf Hin.
  destruct (om_sorted_elem_split k i m) as (l & r & -> & Hl & Hr); [eauto with flagcx..|].
  rewrite om_erase_split by done. revert Hwf.
  rewrite !MemAlloc_wf_app, MemAlloc_wf_cons. intros (Hwl & (_ & Hwr & _) & Hx).
  split; [done|]. split; [done|]. intros; apply Hx; set_solver.
Qed.

(** The state after a call, by the kind of call. *)
Inductive MemAlloc_effect (m : allocations) : MemAlloc_event -> allocations -> Prop :=
| effect_none c r o : (forall b, lease_delta b (c, r, o) = 0) ->
    (forall b, (c, r) <> (CallErase b, flagcxSuccess)) ->
    (forall ok i, (c, r) <> (CallInsert ok i, flagcxSuccess)) ->
    MemAlloc_effect m (c, r, o) m
| effect_insert ok info l r : m = l ++ r -> ma_windowRefs info = 0 ->
    (forall a, a ∈ m -> a.1 <> ma_base info) ->
    MemAlloc_effect m (CallInsert ok info, flagcxSuccess, None)
      (l ++ (ma_base info, info) :: r)
| effect_refs c o k i n : (k, i) ∈ m -> is_u64 n ->
    (forall b, lease_delta b (c, flagcxSuccess, o) =
       if b =? k then n - ma_windowRefs i else 0) ->
    (forall b, c <> CallErase b) -> (forall ok j, c <> CallInsert ok j) ->
    MemAlloc_effect m (c, flagcxSuccess, o) (om_assign k (ma_setRefs i n) m)
| effect_erase k i : (k, i) ∈ m -> ma_windowRefs i = 0 ->
    MemAlloc_effect m (CallErase k, flagcxSuccess, None) (om_erase k m).

Lemma MemAlloc_insert_effect ok info m r m' :
  MemAlloc_wf m -> MemAlloc_call_ok (CallInsert ok info) ->
  MemAlloc_insert ok info m = (r, m') ->
  MemAlloc_wf m' /\ MemAlloc_effect m (CallInsert ok info, r, None) m'.
Proof.
  intros Hwf (Hb & Hs & Hw0) Heq.
  assert (is_u64 (ma_windowRefs info)) as Hw by (rewrite Hw0; unfold is_u64; lia).
  destruct (MemAlloc_insert_cases ok info m Hwf Hb Hs Hw)
    as [(_ & Hi)|[(_ & _ & Hi)|(Hv & Hno & l & r' & Hm & Hwf' & Hi)]];
    rewrite Hi in Heq; simplify_eq.
  - split; [done|]. by constructor.
  - split; [done|]. by constructor.
  - destruct ok; simplify_eq; split; try done; [|by constructor].
    constructor; [done|done|].
    apply validRange_spec in Hv as (? & Hpos & _); [|done..].
    intros a Ha Hk. apply (Hno a Ha). unfold overlaps.
    pose proof (MemAlloc_wf_elem _ a Hwf Ha) as (_ & _ & ? & _). lia.
Qed.

Lemma MemAlloc_retain_effect ptr size out m r o m' :
  MemAlloc_wf m -> MemAlloc_call_ok (CallRetain ptr size out) ->
  MemAlloc_retainWindowRange ptr size out m = (r, o, m') ->
  MemAlloc_wf m' /\ MemAlloc_effect m (CallRetain ptr size out, r, o) m'.
Proof.
  intros Hwf [Hp Hs]. unfold MemAlloc_retainWindowRange.
  destruct (_ || negb out) eqn:Hargs; [intros; simplify_eq; split; [done|by constructor]|].
  bool_to_prop. unfold is_u64 in *.
  pose proof (MemAlloc_prev_guard ptr size m Hwf Hp Hs ltac:(lia)) as Hg.
  destruct (MemAlloc_prevEntry ptr m) as [[k i]|];
    [|intros; simplify_eq; split; [done|by constructor]].
  destruct Hg as [Hin Hg]. pose proof (MemAlloc_wf_elem _ _ Hwf Hin) as (Hk & _ & _ & _ & Hw).
  destruct (_ || _); [intros; simplify_eq; split; [done|by constructor]|].
  case_test; [intros; simplify_eq; split; [done|by constructor]|].
  unfold is_u64 in Hw; cbn in *. intros; simplify_eq.
  rewrite Z.mod_small by lia. split; [apply MemAlloc_wf_setRefs; [done|done|unfold is_u64; lia]|].
  apply effect_refs; [done|unfold is_u64; lia| |done|done].
  intros b''; cbn. rewrite (Z.eqb_sym b''). case_match; lia.
Qed.

Lemma MemAlloc_release_effect b m r m' :
  MemAlloc_wf m -> MemAlloc_releaseWindow b m = (r, m') ->
  MemAlloc_wf m' /\ MemAlloc_effect m (CallRelease b, r, None) m'.
Proof.
  intros Hwf. unfold MemAlloc_releaseWindow.
  case_test; [intros; simplify_eq; split; [done|by constructor]|].
  destruct (om_find b m) as [i|] eqn:Hf; [|intros; simplify_eq; split; [done|by constructor]].
  case_test; [intros; simplify_eq; split; [done|by constructor]|].
  apply om_find_Some_elem in Hf.
  pose proof (MemAlloc_wf_elem _ _ Hwf Hf) as (_ & _ & _ & _ & Hw).
  unfold is_u64 in Hw; cbn in *. intros; simplify_eq.
  rewrite Z.mod_small by lia. split; [apply MemAlloc_wf_setRefs; [done|done|unfold is_u64; lia]|].
  apply effect_refs; [done|unfold is_u64; lia| |done|done].
  intros b''; cbn. rewrite (Z.eqb_sym b''). case_match; lia.
Qed.

Lemma MemAlloc_erase_effect b m r m' :
  MemAlloc_wf m -> MemAlloc_erase b m = (r, m') ->
  MemAlloc_wf m' /\ MemAlloc_effect m (CallErase b, r, None) m'.
Proof.
  intros Hwf. unfold MemAlloc_erase.
  case_test; [intros; simplify_eq; split; [done|by constructor]|].
  destruct (om_find b m) as [i|] eqn:Hf; [|intros; simplify_eq; split; [done|by constructor]].
  case_test; [intros; simplify_eq; split; [done|by constructor]|].
  apply om_find_Some_elem in Hf. intros; simplify_eq.
  split; [by eapply MemAlloc_wf_erase|]. by econstructor.
Qed.

Lemma MemAlloc_exec_effect c m r o m' :
  MemAlloc_wf m -> MemAlloc_call_ok c -> MemAlloc_exec c m = (r, o, m') ->
  MemAlloc_wf m' /\ MemAlloc_effect m (c, r, o) m'.
Proof.
  intros Hwf Hok Hex. destruct c; cbn in Hex.
  - destruct (MemAlloc_insert _ _ _) eqn:?; simplify_eq. by apply MemAlloc_insert_effect.
  - by apply MemAlloc_retain_effect.
  - destruct (MemAlloc_releaseWindow _ _) eqn:?; simplify_eq. by apply MemAlloc_release_effect.
  - destruct (MemAlloc_erase _ _) eqn:?; simplify_eq. by apply MemAlloc_erase_effect.
Qed.

(** The lease count the registry stores for a base address. *)
Definition MemAlloc_refs (b : Z) (m : allocations) : Z :=
  match om_find b m with Some i => ma_windowRefs i | None => 0 end.

Lemma MemAlloc_refs_middle b k i (l r : allocations) :
  om_sorted (l ++ (k, i) :: r) ->
  MemAlloc_refs b (l ++ (k, i) :: r) =
    if b =? k then ma_windowRefs i else MemAlloc_refs b (l ++ r).
Proof.
  intros Hs. unfold MemAlloc_refs. case_test; subst.
  - assert (om_find k (l ++ (k, i) :: r) = Some i) as ->; [|done].
    apply om_find_elem; [done|set_solver].
  - replace (om_find b (l ++ (k, i) :: r)) with (om_find b (l ++ r)); [done|].
    clear Hs. induction l as [|[k' j] l IH]; cbn.
    + by destruct (Z.eqb_spec k b).
    + by rewrite IH.
Qed.

(** Each call changes the stored lease count by what its event says. *)
Lemma MemAlloc_effect_refs m e m' b :
  MemAlloc_wf m -> MemAlloc_wf m' -> MemAlloc_effect m e m' ->
  MemAlloc_refs b m' = MemAlloc_refs b m + lease_delta b e.
Proof.
  intros Hwf Hwf' He. apply MemAlloc_wf_sorted in Hwf, Hwf'.
  destruct He as [c r o Hd _ _|ok info l r -> Hr0 Hfresh|c o k i n Hin Hn Hd _ _|k i Hin Hr0].
  - rewrite Hd. lia.
  - rewrite MemAlloc_refs_middle by done. cbn. rewrite Z.add_0_r.
    case_test; [|done]. subst. rewrite Hr0. unfold MemAlloc_refs.
    destruct (om_find _ _) as [j|] eqn:Hf; [|done].
    apply om_find_Some_elem in Hf. by destruct (Hfresh _ Hf).
  - rewrite Hd. destruct (om_sorted_elem_split k i m) as (l & r & -> & Hl & Hr); [done..|].
    rewrite om_assign_split in Hwf' |- * by done.
    rewrite !MemAlloc_refs_middle by done. cbn. case_test; lia.
  - destruct (om_sorted_elem_split k i m) as (l & r & -> & Hl & Hr); [done..|].
    rewrite om_erase_split by done. rewrite MemAlloc_refs_middle by done.
    cbn. case_test; [|lia]. subst. unfold MemAlloc_refs.
    destruct (om_find k (l ++ r)) as [j|] eqn:Hf; [|lia].
    apply om_find_Some_elem in Hf. rewrite !Forall_forall in *.
    apply elem_of_app in Hf as [Hf|Hf]; [apply Hl in Hf|apply Hr in Hf]; cbn in Hf; lia.
Qed.

Lemma MemAlloc_run_spec cs m h m' :
  MemAlloc_wf m -> Forall MemAlloc_call_ok cs -> MemAlloc_run cs m = (h, m') ->
  MemAlloc_wf m' /\ forall b, MemAlloc_refs b m' = MemAlloc_refs b m + leases b h.
Proof.
  revert m h m'. induction cs as [|c cs IH]; intros m h m' Hwf Hok Hrun; cbn in Hrun.
  - simplify_eq. split; [done|]. intros; cbn; lia.
  - inversion Hok; subst.
    destruct (MemAlloc_exec c m) as [[r o] m1] eqn:Hex.
    destruct (MemAlloc_run cs m1) as [h1 m2] eqn:Hr. simplify_eq.
    destruct (MemAlloc_exec_effect c m r o m1) as [Hwf1 Heff]; [done..|].
    destruct (IH m1 h1 m') as [Hwf2 Hrefs]; [done..|]. split; [done|].
    intros b. rewrite Hrefs, (MemAlloc_effect_refs m (c, r, o) m1 b) by done. cbn. lia.
Qed.

Lemma MemAlloc_wf_nil : MemAlloc_wf [].
Proof. split; constructor. Qed.
#[export] Hint Resolve MemAlloc_wf_nil : flagcx.

(** ** Properties *)

(** [flagcxMemAllocRegistry::insert] accepts a range exactly when it is a
    valid non-wrapping range that overlaps no registered allocation and the
    node can be allocated; then the registry holds the old entries plus the new
    one and is still sorted and pairwise disjoint.  Each error code is returned
    in exactly its own case and leaves the registry unchanged. *)
Theorem mem_alloc_insert_spec ok info m :
  MemAlloc_wf m -> is_u64 (ma_base info) -> is_u64 (ma_size info) ->
  is_u64 (ma_windowRefs info) ->
  let base := ma_base info in let size := ma_size info in
  let valid := 0 < base /\ 0 < size /\ base + size <= U64_MAX in
  match MemAlloc_insert ok info m with
  | (flagcxInvalidArgument, m') => ~ valid /\ m' = m
  | (flagcxInvalidUsage, m') =>
      valid /\ (exists a, a ∈ m /\ overlaps a base size) /\ m' = m
  | (flagcxSystemError, m') =>
      valid /\ (forall a, a ∈ m -> ~ overlaps a base size) /\ ok = false /\ m' = m
  | (flagcxSuccess, m') =>
      valid /\ (forall a, a ∈ m -> ~ overlaps a base size) /\ ok = true /\
      MemAlloc_wf m' /\ forall a, a ∈ m' <-> a = (base, info) \/ a ∈ m
  | _ => False
  end.
Proof.
  intros Hwf Hb Hs Hw base size valid.
  pose proof (validRange_spec base size Hb Hs) as Hv. fold valid in Hv.
  destruct (MemAlloc_insert_cases ok info m Hwf Hb Hs Hw)
    as [(Hv' & ->)|[(Hv' & Hov & ->)|(Hv' & Hno & l & r & -> & Hwf' & ->)]];
    fold base size in Hv'; rewrite Hv' in Hv.
  - split; [|done]. intros ?%Hv; done.
  - naive_solver.
  - destruct ok; [|naive_solver].
    split; [by apply Hv|]. do 2 (split; [done|]). split; [done|].
    intros a. rewrite !elem_of_app, elem_of_cons. tauto.
Qed.

(** [findRange] (and so the lookup behind [retainWindowRange]) finds an
    allocation exactly when one of them contains the whole byte range
    [ptr, ptr+size), although it inspects only the last entry at or below
    [ptr]; otherwise it answers [flagcxInvalidUsage]. *)
Theorem mem_alloc_findRange_spec ptr size m :
  MemAlloc_wf m -> is_u64 ptr -> is_u64 size -> 0 < ptr -> 0 < size ->
  (forall i, MemAlloc_findRange ptr size true m = (flagcxSuccess, Some i) <->
     exists k, (k, i) ∈ m /\ covers (k, i) ptr size) /\
  (MemAlloc_findRange ptr size true m = (flagcxInvalidUsage, None) <->
     forall a, a ∈ m -> ~ covers a ptr size).
Proof.
  intros Hwf Hp Hs Hp0 Hs0.
  pose proof (MemAlloc_prev_guard ptr size m Hwf Hp Hs Hs0) as Hg.
  unfold MemAlloc_findRange.
  destruct (Z.eqb_spec ptr 0); [lia|]. destruct (Z.eqb_spec size 0); [lia|]. cbn.
  destruct (MemAlloc_prevEntry ptr m) as [[k i]|] eqn:Hprev; [|naive_solver].
  destruct Hg as [Hin Hg]. destruct (_ || _); [naive_solver|].
  split; [|split; [done|intros Hn; by destruct (Hn _ Hin)]].
  intros j. split; [intros; simplify_eq; eauto|].
  intros (k' & Hin' & Hc).
  pose proof (MemAlloc_covers_prev _ _ _ _ Hwf Hs0 Hin' Hc). congruence.
Qed.

(** C16: over every sequence of [insert], [retainWindowRange], [releaseWindow]
    and [erase] calls from the empty registry, the entries stay disjoint, the
    lease count stored for a base address is the number of successful retains
    minus the number of successful releases in the history, and [erase] of an
    address succeeds exactly when it is registered and no lease on it is
    outstanding - so an allocation with a live window is never removed. *)
Theorem mem_alloc_leases cs h m b :
  Forall MemAlloc_call_ok cs -> MemAlloc_run cs [] = (h, m) ->
  MemAlloc_wf m /\ MemAlloc_refs b m = leases b h /\
  ((MemAlloc_erase b m).1 = flagcxSuccess <->
     (exists i, (b, i) ∈ m) /\ leases b h = 0).
Proof.
  intros Hok Hrun.
  destruct (MemAlloc_run_spec cs [] h m) as [Hwf Hrefs]; [auto with flagcx..|].
  specialize (Hrefs b). change (MemAlloc_refs b []) with 0 in Hrefs.
  rewrite Z.add_0_l in Hrefs. rewrite <-Hrefs.
  split; [done|]. split; [done|].
  unfold MemAlloc_erase, MemAlloc_refs.
  destruct (om_find b m) as [i|] eqn:Hf.
  - apply om_find_Some_elem in Hf.
    pose proof (MemAlloc_wf_elem _ _ Hwf Hf) as (_ & Hpos & _); cbn in Hpos.
    destruct (Z.eqb_spec b 0); [lia|].
    destruct (Z.eqb_spec (ma_windowRefs i) 0); cbn; naive_solver.
  - case_match; cbn; (split; [done|]); intros [[i Hin] _];
      by apply (proj1 (om_find_None b m) Hf i) in Hin.
Qed.

(** ** Witnesses *)

Definition sample_info (base size : Z) : flagcxMemAllocationInfo :=
  MkAllocInfo base size 0 flagcxMemAllocBackendNative false 0.
Definition sample_allocs : allocations :=
  [(4096, sample_info 4096 4096); (16384, sample_info 16384 8192)].

Lemma sample_allocs_wf : MemAlloc_wf sample_allocs.
Proof.
  split; repeat constructor; cbn; unfold range_before, is_u64; cbn; lia.
Defined.

Lemma mem_alloc_insert_witness :
  MemAlloc_insert true (sample_info 8192 8192) sample_allocs =
    (flagcxSuccess, [(4096, sample_info 4096 4096); (8192, sample_info 8192 8192);
                     (16384, sample_info 16384 8192)]) /\
  MemAlloc_wf [(4096, sample_info 4096 4096); (8192, sample_info 8192 8192);
               (16384, sample_info 16384 8192)].
Proof.
  split; [reflexivity|].
  pose proof (mem_alloc_insert_spec true (sample_info 8192 8192) sample_allocs
    sample_allocs_wf ltac:(unfold is_u64; cbn; lia) ltac:(unfold is_u64; cbn; lia)
    ltac:(unfold is_u64; cbn; lia)) as H.
  exact (proj1 (proj2 (proj2 (proj2 H)))).
Defined.

Lemma mem_alloc_findRange_witness :
  MemAlloc_findRange 20000 100 true sample_allocs =
    (flagcxSuccess, Some (sample_info 16384 8192)).
Proof.
  apply (mem_alloc_findRange_spec 20000 100 sample_allocs sample_allocs_wf);
    [unfold is_u64; lia..|].
  exists 16384. split; [apply list_elem_of_further, list_elem_of_here|].
  unfold covers; cbn; lia.
Defined.

Definition sample_calls : list MemAlloc_call :=
  [CallInsert true (sample_info 4096 4096); CallRetain 5000 10 true;
   CallErase 4096; CallRelease 4096].

Lemma mem_alloc_leases_witness :
  leases 4096 (MemAlloc_run (take 3 sample_calls) []).1 = 1 /\
  (MemAlloc_erase 4096 (MemAlloc_run (take 3 sample_calls) []).2).1 = flagcxInvalidUsage /\
  (MemAlloc_erase 4096 (MemAlloc_run sample_calls []).2).1 = flagcxSuccess.
Proof.
  split; [reflexivity|]. split; [reflexivity|].
  apply (mem_alloc_leases sample_calls (MemAlloc_run sample_calls []).1
           (MemAlloc_run sample_calls []).2 4096);
    [repeat constructor; cbn; unfold is_u64; lia|reflexivity|].
  split; [|reflexivity]. eexists. apply list_elem_of_here.
Defined.
