(* ===== verification/Arrays.v ===== *)
(** C arrays as lists: bounds-checked access, [memmove] and growth by
    [realloc], and the binary searches over a sorted prefix.

    An access outside the array is undefined behaviour in the source; here it
    yields [None], so that a function which returns [Some] has made only
    in-bounds accesses. *)
From S2P Require Import Prelude.

Section Arrays.
Context {A : Type}.
Implicit Types (a : list A) (i n : Z) (x : A).

(** [a[i]] *)
Definition arr_get a i : option A :=
  if 0 <=? i then a !! Z.to_nat i else None.

(** [a[i] = x] *)
Definition arr_set a i x : option (list A) :=
  if (0 <=? i) && (i <? Z.of_nat (length a)) then Some (<[Z.to_nat i := x]> a) else None.

(** [memmove(&a[dst], &a[src], n * sizeof(A))] *)
Definition memmove a (dst src n : Z) : option (list A) :=
  if (0 <=? dst) && (0 <=? src) && (0 <=? n) &&
     (dst + n <=? Z.of_nat (length a)) && (src + n <=? Z.of_nat (length a))
  then Some (take (Z.to_nat dst) a ++
             take (Z.to_nat n) (drop (Z.to_nat src) a) ++
             drop (Z.to_nat (dst + n)) a)
  else None.

(** [realloc] to [newCap] elements: the new ones have arbitrary content. *)
Definition realloc_arr (junk : A) a (newCap : Z) : list A :=
  take (Z.to_nat newCap) a ++ replicate (Z.to_nat newCap - length a) junk.

Lemma arr_get_nat a (i : nat) : arr_get a (Z.of_nat i) = a !! i.
Proof. unfold arr_get. destruct (Z.leb_spec 0 (Z.of_nat i)); [|lia]. by rewrite Nat2Z.id. Qed.

Lemma arr_get_take a (i n : nat) :
  (i < n)%nat -> arr_get a (Z.of_nat i) = take n a !! i.
Proof. intros. by rewrite arr_get_nat, lookup_take_lt. Qed.

Lemma arr_set_nat a (i : nat) x :
  (i < length a)%nat -> arr_set a (Z.of_nat i) x = Some (<[i := x]> a).
Proof.
  intros. unfold arr_set.
  destruct (Z.leb_spec 0 (Z.of_nat i)); [|lia].
  destruct (Z.ltb_spec (Z.of_nat i) (Z.of_nat (length a))); [|lia]. cbn. by rewrite Nat2Z.id.
Qed.

(** Accesses at an index in range. *)
Lemma slot_range_lookup a (slot : Z) :
  0 <= slot < Z.of_nat (length a) -> exists x, arr_get a slot = Some x /\ a !! Z.to_nat slot = Some x.
Proof.
  intros Hs. unfold arr_get. rewrite (proj2 (Z.leb_le 0 slot)) by lia.
  destruct (lookup_lt_is_Some_2 a (Z.to_nat slot)) as [x Hx]; [lia|]. exists x. done.
Qed.

Lemma arr_set_slot a (slot : Z) x :
  0 <= slot < Z.of_nat (length a) -> arr_set a slot x = Some (<[Z.to_nat slot := x]> a).
Proof. intros Hs. unfold arr_set. by rewrite (proj2 (Z.leb_le 0 slot)), (proj2 (Z.ltb_lt _ _)) by lia. Qed.

(** Opening a gap at [p] and filling it inserts [x] in the live prefix. *)
Lemma memmove_insert a x (p c : nat) :
  (p <= c < length a)%nat ->
  exists a', memmove a (Z.of_nat p + 1) (Z.of_nat p) (Z.of_nat c - Z.of_nat p) = Some a' /\
    length a' = length a /\
    take (S c) (<[p := x]> a') = take p a ++ x :: drop p (take c a).
Proof.
  intros Hb. unfold memmove.
  repeat match goal with |- context [?u <=? ?v] => destruct (Z.leb_spec u v); [|lia] end. cbn.
  replace (Z.to_nat (Z.of_nat p + 1)) with (S p) by lia.
  replace (Z.to_nat (Z.of_nat c - Z.of_nat p)) with (c - p)%nat by lia.
  replace (Z.to_nat (Z.of_nat p + 1 + (Z.of_nat c - Z.of_nat p))) with (S c) by lia.
  rewrite Nat2Z.id. eexists. split; [done|].
  split; [rewrite !length_app, !length_take, !length_drop; lia|].
  apply list_eq; intros i.
  rewrite skipn_firstn_comm.
  destruct (decide (i < S c)%nat) as [Hi|Hi].
  - rewrite lookup_take_lt by done.
    destruct (lt_eq_lt_dec i p) as [[Hip| ->]|Hip].
    + rewrite list_lookup_insert_ne by lia.
      rewrite !lookup_app_l by (rewrite length_take; lia).
      by rewrite !lookup_take_lt by lia.
    + rewrite list_lookup_insert_eq by (rewrite !length_app, !length_take, !length_drop; lia).
      rewrite lookup_app_r by (rewrite length_take; lia).
      rewrite length_take. by replace (p - p `min` length a)%nat with 0%nat by lia.
    + rewrite list_lookup_insert_ne by lia.
      rewrite lookup_app_r by (rewrite length_take; lia).
      rewrite lookup_app_l by (rewrite !length_take, !length_drop; lia).
      rewrite lookup_app_r by (rewrite length_take; lia). rewrite !length_take.
      destruct (i - p `min` length a)%nat as [|j] eqn:Hj; [lia|].
      by replace (i - S p `min` length a)%nat with j by lia.
  - rewrite lookup_take_ge by lia.
    symmetry. apply lookup_ge_None_2.
    rewrite length_app; cbn. rewrite !length_take, !length_drop. lia.
Qed.

(** Closing the gap at [p] removes that element from the live prefix. *)
Lemma memmove_remove a (p c : nat) :
  (p < c <= length a)%nat ->
  exists a', memmove a (Z.of_nat p) (Z.of_nat p + 1) (Z.of_nat c - 1 - Z.of_nat p) = Some a' /\
    length a' = length a /\
    take (c - 1) a' = take p a ++ drop (S p) (take c a).
Proof.
  intros Hb. unfold memmove.
  repeat match goal with |- context [?u <=? ?v] => destruct (Z.leb_spec u v); [|lia] end. cbn.
  replace (Z.to_nat (Z.of_nat p + 1)) with (S p) by lia.
  replace (Z.to_nat (Z.of_nat c - 1 - Z.of_nat p)) with (c - 1 - p)%nat by lia.
  replace (Z.to_nat (Z.of_nat p + (Z.of_nat c - 1 - Z.of_nat p))) with (c - 1)%nat by lia.
  rewrite Nat2Z.id. eexists. split; [done|].
  split; [rewrite !length_app, !length_take, !length_drop; lia|].
  rewrite skipn_firstn_comm. rewrite app_assoc, take_app_length'.
  - f_equal. f_equal. lia.
  - rewrite length_app, !length_take, !length_drop. lia.
Qed.

Lemma length_realloc_arr junk a newCap :
  Z.of_nat (length a) <= newCap -> Z.of_nat (length (realloc_arr junk a newCap)) = newCap.
Proof.
  intros. unfold realloc_arr. rewrite length_app, length_take, length_replicate. lia.
Qed.

Lemma take_realloc_arr junk a newCap (n : nat) :
  Z.of_nat (length a) <= newCap -> (n <= length a)%nat ->
  take n (realloc_arr junk a newCap) = take n a.
Proof.
  intros. unfold realloc_arr. rewrite take_app_le by (rewrite length_take; lia).
  rewrite take_take. f_equal. lia.
Qed.

End Arrays.

(** ** Operations on the live prefix

    The first [n] elements of the array are the list [l1 ++ l2] or
    [l1 ++ x :: l2]; the position in question is [length l1]. *)
Section Live.
Context {A : Type}.
Implicit Types (a l : list A) (x y : A) (n : nat).

Lemma arr_get_live a n l1 x l2 :
  take n a = l1 ++ x :: l2 -> arr_get a (Z.of_nat (length l1)) = Some x.
Proof.
  intros Ht. assert (take n a !! length l1 = Some x) as Hx.
  { rewrite Ht. rewrite lookup_app_r by lia. by rewrite Nat.sub_diag. }
  pose proof (lookup_lt_Some _ _ _ Hx) as Hl. rewrite length_take in Hl.
  by rewrite (arr_get_take a _ n) by lia.
Qed.

Lemma arr_set_live a n l1 x l2 y :
  take n a = l1 ++ x :: l2 ->
  exists a', arr_set a (Z.of_nat (length l1)) y = Some a' /\ length a' = length a /\
    take n a' = l1 ++ y :: l2.
Proof.
  intros Ht. assert (length l1 < length (take n a))%nat as Hl by (rewrite Ht, length_app; cbn; lia).
  rewrite length_take in Hl. rewrite arr_set_nat by lia. eexists. split; [done|].
  split; [by rewrite length_insert|]. rewrite take_insert_lt by lia. rewrite Ht.
  rewrite insert_app_r_alt by lia. by rewrite Nat.sub_diag.
Qed.

(** The live prefix without its length. *)
Lemma live_length a n l : take n a = l -> (n <= length a)%nat -> length l = n.
Proof. intros <-. rewrite length_take. lia. Qed.

Lemma take_live a n l1 l2 :
  take n a = l1 ++ l2 -> (length l1 <= n)%nat -> take (length l1) a = l1.
Proof.
  intros Ht Hl. apply (f_equal (take (length l1))) in Ht.
  by rewrite take_take, take_app_length, Nat.min_l in Ht by done.
Qed.

Lemma arr_insert_live a n l1 l2 y :
  take n a = l1 ++ l2 -> (n < length a)%nat ->
  exists a1 a', (if Z.of_nat (length l1) <? Z.of_nat n
     then memmove a (Z.of_nat (length l1) + 1) (Z.of_nat (length l1)) (Z.of_nat n - Z.of_nat (length l1))
     else Some a) = Some a1 /\
    arr_set a1 (Z.of_nat (length l1)) y = Some a' /\ length a' = length a /\
    take (S n) a' = l1 ++ y :: l2.
Proof.
  intros Ht Hn. pose proof (live_length _ _ _ Ht ltac:(lia)) as Hl. rewrite length_app in Hl.
  destruct (Z.ltb_spec (Z.of_nat (length l1)) (Z.of_nat n)).
  - destruct (memmove_insert a y (length l1) n) as (a1 & Hm & Hla & Htk); [lia|].
    exists a1, (<[length l1 := y]> a1). rewrite Hm, arr_set_nat by lia.
    split; [done|]. split; [done|]. split; [by rewrite length_insert|].
    rewrite Htk, Ht, (take_live _ _ _ _ Ht), drop_app_length; [done|lia].
  - assert (l2 = []) as -> by (destruct l2; [done|cbn in Hl; lia]). cbn in Hl.
    rewrite app_nil_r in Ht. assert (length l1 = n) as Hln by lia.
    exists a, (<[length l1 := y]> a). rewrite arr_set_nat by lia.
    split; [done|]. split; [done|]. split; [by rewrite length_insert|].
    rewrite <-Hln at 1. rewrite (take_S_r _ _ y) by (apply list_lookup_insert_eq; lia).
    rewrite take_insert_ge by lia. congruence.
Qed.

Lemma arr_remove_live a n l1 x l2 :
  take n a = l1 ++ x :: l2 -> (n <= length a)%nat ->
  exists a', (if Z.of_nat (length l1) <? Z.of_nat n - 1
     then memmove a (Z.of_nat (length l1)) (Z.of_nat (length l1) + 1) (Z.of_nat n - 1 - Z.of_nat (length l1))
     else Some a) = Some a' /\
    length a' = length a /\ take (n - 1) a' = l1 ++ l2.
Proof.
  intros Ht Hn. pose proof (live_length _ _ _ Ht ltac:(lia)) as Hl. rewrite length_app in Hl. cbn in Hl.
  pose proof (take_live _ _ _ _ Ht ltac:(lia)) as Hp.
  destruct (Z.ltb_spec (Z.of_nat (length l1)) (Z.of_nat n - 1)).
  - destruct (memmove_remove a (length l1) n) as (a1 & Hm & Hla & Htk); [lia|].
    exists a1. split; [done|]. split; [done|]. rewrite Htk, Ht, Hp.
    f_equal. rewrite drop_app_ge by lia. replace (S (length l1) - length l1)%nat with 1%nat by lia. done.
  - exists a. split; [done|]. split; [done|].
    assert (l2 = []) as -> by (destruct l2; [done|cbn in Hl; lia]). cbn in Hl.
    rewrite app_nil_r. transitivity (take (length l1) a); [f_equal; lia|done].
Qed.
End Live.

(** ** Binary searches

    The loops of the registries: [lo], [hi] and the result are C [int]s, the
    fuel bounds the number of iterations and an out-of-bounds probe is [None]. *)
Section BSearch.
Context {A : Type} (key : A -> Z).
Implicit Types (a : list A) (lo hi target : Z).

(** Index of the element with the given key, or -1. *)
Fixpoint bsearch_exact_loop (fuel : nat) a target lo hi : option Z :=
  match fuel with
  | O => None
  | S fuel' =>
      if lo <=? hi then
        let mid := lo + (hi - lo) / 2 in
        e ← arr_get a mid;
        if key e =? target then Some mid
        else if key e <? target then bsearch_exact_loop fuel' a target (mid + 1) hi
        else bsearch_exact_loop fuel' a target lo (mid - 1)
      else Some (-1)
  end.

(** Largest index whose key is at most the target, or -1. *)
Fixpoint bsearch_containing_loop (fuel : nat) a target lo hi (result : Z) : option Z :=
  match fuel with
  | O => None
  | S fuel' =>
      if lo <=? hi then
        let mid := lo + (hi - lo) / 2 in
        e ← arr_get a mid;
        if key e <=? target then bsearch_containing_loop fuel' a target (mid + 1) hi mid
        else bsearch_containing_loop fuel' a target lo (mid - 1) result
      else Some result
  end.

(** First index whose key is at least the target. *)
Fixpoint bsearch_insertion_loop (fuel : nat) a target lo hi : option Z :=
  match fuel with
  | O => None
  | S fuel' =>
      if lo <? hi then
        let mid := lo + (hi - lo) / 2 in
        e ← arr_get a mid;
        if key e <? target then bsearch_insertion_loop fuel' a target (mid + 1) hi
        else bsearch_insertion_loop fuel' a target lo mid
      else Some lo
  end.

Definition key_sorted (l : list A) : Prop := StronglySorted (fun x y => key x < key y) l.

(** Elements strictly before position [p] have keys below [t]; elements from
    [p] on have keys at or above it. *)
Definition splits_at (l : list A) (t : Z) (p : nat) : Prop :=
  (p <= length l)%nat /\
  (forall i x, l !! i = Some x -> (i < p)%nat -> key x < t) /\
  (forall i x, l !! i = Some x -> (p <= i)%nat -> t <= key x).

Lemma key_sorted_lookup l i j x y :
  key_sorted l -> l !! i = Some x -> l !! j = Some y -> (i < j)%nat -> key x < key y.
Proof. intros Hs. by apply (StronglySorted_lookup _ l i j x y Hs). Qed.

Lemma key_sorted_inj l i j x y :
  key_sorted l -> l !! i = Some x -> l !! j = Some y -> key x = key y -> i = j.
Proof.
  intros Hs Hi Hj He. destruct (lt_eq_lt_dec i j) as [[Hlt|Heq]|Hlt]; [|done|].
  - pose proof (key_sorted_lookup _ _ _ _ _ Hs Hi Hj Hlt). lia.
  - pose proof (key_sorted_lookup _ _ _ _ _ Hs Hj Hi Hlt). lia.
Qed.

(** The probe of a non-empty interval is in the live prefix. *)
Lemma bsearch_probe a (n : nat) lo hi :
  (n <= length a)%nat -> 0 <= lo <= hi -> hi < Z.of_nat n ->
  let mid := lo + (hi - lo) / 2 in
  lo <= mid <= hi /\
  exists e, arr_get a mid = Some e /\ take n a !! Z.to_nat mid = Some e.
Proof.
  intros Hn Hlo Hhi mid. assert (Hm : lo <= mid <= hi) by (unfold mid; zlia).
  split; [done|].
  destruct (lookup_lt_is_Some_2 (take n a) (Z.to_nat mid)) as [e He].
  { rewrite length_take. lia. }
  exists e. split; [|done].
  rewrite <-(Z2Nat.id mid) by lia. rewrite (arr_get_take a _ n); [done|lia].
Qed.

Lemma bsearch_exact_loop_spec fuel a (n : nat) target lo hi :
  (n <= length a)%nat -> key_sorted (take n a) ->
  0 <= lo -> lo <= hi + 1 -> hi < Z.of_nat n -> hi - lo + 1 < Z.of_nat fuel ->
  (forall i x, take n a !! i = Some x -> Z.of_nat i < lo -> key x < target) ->
  (forall i x, take n a !! i = Some x -> hi < Z.of_nat i -> target < key x) ->
  (exists p x, bsearch_exact_loop fuel a target lo hi = Some (Z.of_nat p) /\
     take n a !! p = Some x /\ key x = target) \/
  (bsearch_exact_loop fuel a target lo hi = Some (-1) /\
     forall x, x ∈ take n a -> key x <> target).
Proof.
  intros Hn Hs. revert lo hi. induction fuel as [|fuel IH]; intros lo hi Hlo Hlh Hhi Hf Hb Ha; [lia|].
  cbn. destruct (Z.leb_spec lo hi) as [Hle|Hgt].
  - destruct (bsearch_probe a n lo hi) as (Hm & e & -> & He); [lia..|]. cbn.
    set (mid := lo + (hi - lo) / 2) in *.
    destruct (Z.eqb_spec (key e) target) as [Heq|Hne].
    { left. exists (Z.to_nat mid), e. rewrite Z2Nat.id by lia. done. }
    destruct (Z.ltb_spec (key e) target) as [Hlt|Hge].
    + apply IH; [lia..| |done].
      intros i x Hx Hi. destruct (decide (i = Z.to_nat mid)) as [->|]; [congruence|].
      pose proof (key_sorted_lookup _ i _ x e Hs Hx He ltac:(lia)). lia.
    + apply IH; [lia..|done|].
      intros i x Hx Hi. destruct (decide (i = Z.to_nat mid)) as [->|]; [simplify_eq; lia|].
      pose proof (key_sorted_lookup _ _ i e x Hs He Hx ltac:(lia)). lia.
  - right. split; [done|]. intros x [i Hx]%list_elem_of_lookup.
    destruct (decide (Z.of_nat i < lo)) as [Hi|Hi].
    + specialize (Hb _ _ Hx Hi). lia.
    + specialize (Ha _ _ Hx ltac:(lia)). lia.
Qed.

Lemma bsearch_insertion_loop_spec fuel a (n : nat) target lo hi :
  (n <= length a)%nat -> key_sorted (take n a) ->
  0 <= lo <= hi -> hi <= Z.of_nat n -> hi - lo < Z.of_nat fuel ->
  (forall i x, take n a !! i = Some x -> Z.of_nat i < lo -> key x < target) ->
  (forall i x, take n a !! i = Some x -> hi <= Z.of_nat i -> target <= key x) ->
  exists p, bsearch_insertion_loop fuel a target lo hi = Some (Z.of_nat p) /\
    splits_at (take n a) target p.
Proof.
  intros Hn Hs. revert lo hi. induction fuel as [|fuel IH]; intros lo hi Hlo Hhi Hf Hb Ha; [lia|].
  cbn. destruct (Z.ltb_spec lo hi) as [Hlt|Hge].
  - destruct (bsearch_probe a n lo (hi - 1)) as (_ & _); [lia..|].
    assert (Hm : lo <= lo + (hi - lo) / 2 < hi) by zlia.
    set (mid := lo + (hi - lo) / 2) in *.
    destruct (lookup_lt_is_Some_2 (take n a) (Z.to_nat mid)) as [e He];
      [rewrite length_take; lia|].
    assert (arr_get a mid = Some e) as ->.
    { rewrite <-(Z2Nat.id mid) by lia. rewrite (arr_get_take a _ n); [done|lia]. }
    cbn. destruct (Z.ltb_spec (key e) target) as [Hk|Hk].
    + apply IH; [lia..| |done].
      intros i x Hx Hi. destruct (decide (i = Z.to_nat mid)) as [->|]; [congruence|].
      pose proof (key_sorted_lookup _ i _ x e Hs Hx He ltac:(lia)). lia.
    + apply IH; [lia..|done|].
      intros i x Hx Hi. destruct (decide (i = Z.to_nat mid)) as [->|]; [congruence|].
      pose proof (key_sorted_lookup _ _ i e x Hs He Hx ltac:(lia)). lia.
  - assert (lo = hi) as -> by lia. exists (Z.to_nat hi). rewrite Z2Nat.id by lia.
    split; [done|]. split; [rewrite length_take; lia|].
    split; intros i x Hx Hi; [apply (Hb i)|apply (Ha i)]; (done || lia).
Qed.

(** The containing search in terms of the insertion point of [target + 1]. *)
Lemma bsearch_containing_loop_spec fuel a (n : nat) target lo hi :
  (n <= length a)%nat -> key_sorted (take n a) ->
  0 <= lo -> lo <= hi + 1 -> hi < Z.of_nat n -> hi - lo + 1 < Z.of_nat fuel ->
  (forall i x, take n a !! i = Some x -> Z.of_nat i < lo -> key x < target + 1) ->
  (forall i x, take n a !! i = Some x -> hi < Z.of_nat i -> target + 1 <= key x) ->
  exists p, bsearch_containing_loop fuel a target lo hi (lo - 1) = Some (Z.of_nat p - 1) /\
    splits_at (take n a) (target + 1) p.
Proof.
  intros Hn Hs. revert lo hi. induction fuel as [|fuel IH]; intros lo hi Hlo Hlh Hhi Hf Hb Ha; [lia|].
  cbn. destruct (Z.leb_spec lo hi) as [Hle|Hgt].
  - destruct (bsearch_probe a n lo hi) as (Hm & e & -> & He); [lia..|]. cbn.
    set (mid := lo + (hi - lo) / 2) in *.
    destruct (Z.leb_spec (key e) target) as [Hk|Hk].
    + specialize (IH (mid + 1) hi). replace (mid + 1 - 1) with mid in IH by lia.
      apply IH; [lia..| |done].
      intros i x Hx Hi. destruct (decide (i = Z.to_nat mid)) as [->|]; [simplify_eq; lia|].
      pose proof (key_sorted_lookup _ i _ x e Hs Hx He ltac:(lia)). lia.
    + apply IH; [lia..|done|].
      intros i x Hx Hi. destruct (decide (i = Z.to_nat mid)) as [->|]; [simplify_eq; lia|].
      pose proof (key_sorted_lookup _ _ i e x Hs He Hx ltac:(lia)). lia.
  - exists (Z.to_nat lo). rewrite Z2Nat.id by lia. split; [done|].
    split; [rewrite length_take; lia|].
    split; intros i x Hx Hi; [apply (Hb i)|apply (Ha i)]; (done || lia).
Qed.

(** The searches over the whole live prefix. *)
Definition bsearch_exact a (count target : Z) : option Z :=
  bsearch_exact_loop (S (S (Z.to_nat count))) a target 0 (count - 1).
Definition bsearch_containing a (count target : Z) : option Z :=
  bsearch_containing_loop (S (S (Z.to_nat count))) a target 0 (count - 1) (-1).
Definition bsearch_insertion a (count target : Z) : option Z :=
  bsearch_insertion_loop (S (S (Z.to_nat count))) a target 0 count.

Lemma bsearch_exact_spec a (n : nat) target :
  (n <= length a)%nat -> key_sorted (take n a) ->
  (exists p x, bsearch_exact a (Z.of_nat n) target = Some (Z.of_nat p) /\
     take n a !! p = Some x /\ key x = target) \/
  (bsearch_exact a (Z.of_nat n) target = Some (-1) /\
     forall x, x ∈ take n a -> key x <> target).
Proof.
  intros. unfold bsearch_exact. apply bsearch_exact_loop_spec; [done|done|lia..| |].
  - intros; lia.
  - intros i x Hx%lookup_lt_Some. rewrite length_take in Hx. lia.
Qed.

Lemma bsearch_insertion_spec a (n : nat) target :
  (n <= length a)%nat -> key_sorted (take n a) ->
  exists p, bsearch_insertion a (Z.of_nat n) target = Some (Z.of_nat p) /\
    splits_at (take n a) target p.
Proof.
  intros. unfold bsearch_insertion. apply bsearch_insertion_loop_spec; [done|done|lia..| |].
  - intros; lia.
  - intros i x Hx%lookup_lt_Some. rewrite length_take in Hx. lia.
Qed.

Lemma bsearch_containing_spec a (n : nat) target :
  (n <= length a)%nat -> key_sorted (take n a) ->
  exists p, bsearch_containing a (Z.of_nat n) target = Some (Z.of_nat p - 1) /\
    splits_at (take n a) (target + 1) p.
Proof.
  intros. unfold bsearch_containing.
  apply (bsearch_containing_loop_spec _ a n target 0); [done|done|lia..| |].
  - intros; lia.
  - intros i x Hx%lookup_lt_Some. rewrite length_take in Hx. lia.
Qed.

(** The insertion point as a split of the live prefix. *)
Lemma splits_at_app l t p :
  splits_at l t p ->
  exists l1 l2, l = l1 ++ l2 /\ length l1 = p /\
    Forall (fun x => key x < t) l1 /\ Forall (fun x => t <= key x) l2.
Proof.
  intros (Hp & Hlt & Hge). exists (take p l), (drop p l).
  rewrite take_drop, length_take. split; [done|]. split; [lia|].
  split; apply Forall_lookup; intros i x Hx.
  - apply lookup_take_Some in Hx as [Hx Hi]. eauto.
  - rewrite lookup_drop in Hx. eapply Hge; [exact Hx|lia].
Qed.
End BSearch.
