(* ===== verification/MrRegistry.v ===== *)
(** The unified MR registry ([flagcx/core/flagcx_mr_registry.cc]): memory
    regions registered by up to three subsystems, in an array sorted by base
    address, with a secondary index from P2P registration ids to base
    addresses.

    The extension structs of the subsystems are [malloc]ed objects whose
    ownership moves to the registry and back, so the model has a heap [heap]
    of live objects by address: an absent address is NULL, freed or never
    allocated, and reading or freeing it is [None] (undefined behaviour), as
    is an access outside an array.  [realloc] may fail ([okE], [okI]) and
    leaves new slots with arbitrary content ([junkE], [junkI]).  The
    read-write lock makes each entry point one step. *)
From S2P Require Import Prelude Flagcx Arrays.

Abbreviation FLAGCX_MR_OWNER_NONE := 0 (only parsing).
Abbreviation FLAGCX_MR_OWNER_P2P := 1 (only parsing).
Abbreviation FLAGCX_MR_OWNER_COLL := 2 (only parsing).
Abbreviation FLAGCX_MR_OWNER_RMA := 4 (only parsing).
Abbreviation MR_REGISTRY_INITIAL_CAPACITY := 16 (only parsing).
Abbreviation ID_INDEX_INITIAL_CAPACITY := 16 (only parsing).

(** ** Data *)

Record flagcxMrP2pExt := MkP2pExt {
  p2p_mrId : Z;
  p2p_hasIpc : bool;
  p2p_ipcHandleSize : Z;
  p2p_ipcHandle : list Z
}.

Record flagcxMrCollExt := MkCollExt {
  coll_proxyConn : Z;
  coll_channelId : Z
}.

Record flagcxMrRmaExt := MkRmaExt {
  rma_oneSideHandleIdx : Z
}.

(** A live extension object. *)
Inductive mr_object :=
| ObjP2p (o : flagcxMrP2pExt)
| ObjColl (o : flagcxMrCollExt)
| ObjRma (o : flagcxMrRmaExt).

Abbreviation mr_heap := (gmap Z mr_object).

(** The tagged by-value output [flagcxMrExtension]. *)
Inductive flagcxMrExtension :=
| ExtNone
| ExtP2p (o : flagcxMrP2pExt)
| ExtColl (o : flagcxMrCollExt)
| ExtRma (o : flagcxMrRmaExt).

(** [flagcxMrEntry]; [e_mhandles] has one handle per owner. *)
Record flagcxMrEntry := MkMrEntry {
  e_baseAddr : Z;
  e_size : Z;
  e_ibDevN : Z;
  e_ptrType : Z;
  e_ownerMask : Z;
  e_mhandles : list Z;
  e_p2p : Z;
  e_coll : Z;
  e_rma : Z
}.

Record flagcxMrIdEntry := MkMrIdEntry {
  id_mrId : Z;
  id_baseAddr : Z
}.

(** [flagcxMrRegistry]: the arrays with their whole capacity. *)
Record flagcxMrRegistry := MkMrRegistry {
  r_entries : list flagcxMrEntry;
  r_count : Z;
  r_capacity : Z;
  r_nextId : Z;
  r_idIndex : list flagcxMrIdEntry;
  r_idCount : Z;
  r_idCapacity : Z
}.

Definition e_setMask (e : flagcxMrEntry) (v : Z) : flagcxMrEntry :=
  MkMrEntry (e_baseAddr e) (e_size e) (e_ibDevN e) (e_ptrType e) v
    (e_mhandles e) (e_p2p e) (e_coll e) (e_rma e).
Definition e_setHandle (e : flagcxMrEntry) (idx h : Z) : flagcxMrEntry :=
  MkMrEntry (e_baseAddr e) (e_size e) (e_ibDevN e) (e_ptrType e) (e_ownerMask e)
    (<[Z.to_nat idx := h]> (e_mhandles e)) (e_p2p e) (e_coll e) (e_rma e).
Definition r_setEntries (r : flagcxMrRegistry) (es : list flagcxMrEntry) (c : Z)
    : flagcxMrRegistry :=
  MkMrRegistry es c (r_capacity r) (r_nextId r) (r_idIndex r) (r_idCount r) (r_idCapacity r).
Definition r_setNextId (r : flagcxMrRegistry) (n : Z) : flagcxMrRegistry :=
  MkMrRegistry (r_entries r) (r_count r) (r_capacity r) n (r_idIndex r) (r_idCount r)
    (r_idCapacity r).
Definition r_setIndex (r : flagcxMrRegistry) (ix : list flagcxMrIdEntry) (c cap : Z)
    : flagcxMrRegistry :=
  MkMrRegistry (r_entries r) (r_count r) (r_capacity r) (r_nextId r) ix c cap.

(** ** Internal helpers *)

Definition ownerBitToIdx (ownerBit : Z) : Z :=
  if ownerBit =? FLAGCX_MR_OWNER_P2P then 0
  else if ownerBit =? FLAGCX_MR_OWNER_COLL then 1
  else if ownerBit =? FLAGCX_MR_OWNER_RMA then 2
  else -1.

(** The extension pointer the [switch (ownerBit)] statements select, and its
    assignment. *)
Definition e_ext (e : flagcxMrEntry) (ownerBit : Z) : Z :=
  if ownerBit =? FLAGCX_MR_OWNER_P2P then e_p2p e
  else if ownerBit =? FLAGCX_MR_OWNER_COLL then e_coll e
  else e_rma e.

Definition e_setExt (e : flagcxMrEntry) (ownerBit p : Z) : flagcxMrEntry :=
  if ownerBit =? FLAGCX_MR_OWNER_P2P then
    MkMrEntry (e_baseAddr e) (e_size e) (e_ibDevN e) (e_ptrType e) (e_ownerMask e)
      (e_mhandles e) p (e_coll e) (e_rma e)
  else if ownerBit =? FLAGCX_MR_OWNER_COLL then
    MkMrEntry (e_baseAddr e) (e_size e) (e_ibDevN e) (e_ptrType e) (e_ownerMask e)
      (e_mhandles e) (e_p2p e) p (e_rma e)
  else
    MkMrEntry (e_baseAddr e) (e_size e) (e_ibDevN e) (e_ptrType e) (e_ownerMask e)
      (e_mhandles e) (e_p2p e) (e_coll e) p.

(** Reads through [struct flagcxMrP2pExt *], and the others. *)
Definition load_p2p (h : mr_heap) (p : Z) : option flagcxMrP2pExt :=
  match h !! p with Some (ObjP2p o) => Some o | _ => None end.
Definition load_coll (h : mr_heap) (p : Z) : option flagcxMrCollExt :=
  match h !! p with Some (ObjColl o) => Some o | _ => None end.
Definition load_rma (h : mr_heap) (p : Z) : option flagcxMrRmaExt :=
  match h !! p with Some (ObjRma o) => Some o | _ => None end.

(** [free]: NULL is ignored, a dead pointer is undefined behaviour. *)
Definition mr_free (h : mr_heap) (p : Z) : option mr_heap :=
  if p =? 0 then Some h else
  match h !! p with Some _ => Some (delete p h) | None => None end.

Definition set_mrId (o : flagcxMrP2pExt) (id : Z) : flagcxMrP2pExt :=
  MkP2pExt id (p2p_hasIpc o) (p2p_ipcHandleSize o) (p2p_ipcHandle o).

Definition bsearchContaining (entries : list flagcxMrEntry) (count addr : Z) : option Z :=
  bsearch_containing e_baseAddr entries count addr.
Definition bsearchExact (entries : list flagcxMrEntry) (count addr : Z) : option Z :=
  bsearch_exact e_baseAddr entries count addr.
Definition findInsertionPoint (entries : list flagcxMrEntry) (count addr : Z) : option Z :=
  bsearch_insertion e_baseAddr entries count addr.

(** The doubled capacity is an [int]: overflow is undefined behaviour. *)
Definition grow_capacity (cap initial : Z) : option Z :=
  if cap =? 0 then Some initial
  else if cap * 2 <=? INT_MAX then Some (cap * 2) else None.

Definition ensureCapacity (okE : bool) (junkE : flagcxMrEntry) (reg : flagcxMrRegistry)
    : option (flagcxResult_t * flagcxMrRegistry) :=
  if r_count reg <? r_capacity reg then Some (flagcxSuccess, reg) else
  newCap ← grow_capacity (r_capacity reg) MR_REGISTRY_INITIAL_CAPACITY;
  if okE then
    Some (flagcxSuccess,
      MkMrRegistry (realloc_arr junkE (r_entries reg) newCap) (r_count reg) newCap
        (r_nextId reg) (r_idIndex reg) (r_idCount reg) (r_idCapacity reg))
  else Some (flagcxSystemError, reg).

(** [copyExtensions]: [want] tells which slots of [outExts] are non-null. *)
Definition copyExtensions (h : mr_heap) (e : flagcxMrEntry) (want : bool * bool * bool)
    : option (option flagcxMrExtension * option flagcxMrExtension * option flagcxMrExtension) :=
  let '(w0, w1, w2) := want in
  x0 ← (if w0 then
          if e_p2p e =? 0 then Some (Some ExtNone)
          else o ← load_p2p h (e_p2p e); Some (Some (ExtP2p o))
        else Some None);
  x1 ← (if w1 then
          if e_coll e =? 0 then Some (Some ExtNone)
          else o ← load_coll h (e_coll e); Some (Some (ExtColl o))
        else Some None);
  x2 ← (if w2 then
          if e_rma e =? 0 then Some (Some ExtNone)
          else o ← load_rma h (e_rma e); Some (Some (ExtRma o))
        else Some None);
  Some (x0, x1, x2).

Definition sanitizeOutEntry (e : flagcxMrEntry) : flagcxMrEntry :=
  MkMrEntry (e_baseAddr e) (e_size e) (e_ibDevN e) (e_ptrType e) (e_ownerMask e)
    (e_mhandles e) 0 0 0.

Definition freeEntryExtensions (h : mr_heap) (e : flagcxMrEntry)
    : option (mr_heap * flagcxMrEntry) :=
  h1 ← mr_free h (e_p2p e);
  h2 ← mr_free h1 (e_coll e);
  h3 ← mr_free h2 (e_rma e);
  Some (h3, sanitizeOutEntry e).

(** ** The mrId index *)

Definition idIndexAppend (okI : bool) (junkI : flagcxMrIdEntry) (reg : flagcxMrRegistry)
    (mrId baseAddr : Z) : option (flagcxResult_t * flagcxMrRegistry) :=
  mono ← (if 0 <? r_idCount reg
          then last ← arr_get (r_idIndex reg) (r_idCount reg - 1);
               Some (id_mrId last <? mrId)
          else Some true);
  if negb mono then Some (flagcxInternalError, reg) else
  grown ← (if r_idCapacity reg <=? r_idCount reg then
             newCap ← grow_capacity (r_idCapacity reg) ID_INDEX_INITIAL_CAPACITY;
             if okI then
               Some (Some (r_setIndex reg (realloc_arr junkI (r_idIndex reg) newCap)
                             (r_idCount reg) newCap))
             else Some None
           else Some (Some reg));
  match grown with
  | None => Some (flagcxSystemError, reg)
  | Some reg1 =>
      ix ← arr_set (r_idIndex reg1) (r_idCount reg1) (MkMrIdEntry mrId baseAddr);
      Some (flagcxSuccess, r_setIndex reg1 ix (r_idCount reg1 + 1) (r_idCapacity reg1))
  end.

Definition idIndexRemove (reg : flagcxMrRegistry) (mrId : Z) : option flagcxMrRegistry :=
  mid ← bsearch_exact id_mrId (r_idIndex reg) (r_idCount reg) mrId;
  if mid <? 0 then Some reg else
  ix ← (if mid <? r_idCount reg - 1
        then memmove (r_idIndex reg) mid (mid + 1) (r_idCount reg - 1 - mid)
        else Some (r_idIndex reg));
  Some (r_setIndex reg ix (r_idCount reg - 1) (r_idCapacity reg)).

Definition idIndexFindBaseAddr (reg : flagcxMrRegistry) (mrId : Z) : option Z :=
  mid ← bsearch_exact id_mrId (r_idIndex reg) (r_idCount reg) mrId;
  if mid <? 0 then Some 0 else
  e ← arr_get (r_idIndex reg) mid;
  Some (id_baseAddr e).

(** ** Lifecycle *)

(** [flagcxMrRegistryCreate] when [calloc] and the lock initialisation succeed. *)
Definition mr_empty : flagcxMrRegistry := MkMrRegistry [] 0 0 1 [] 0 0.

Definition flagcxMrRegistryCreate (okAlloc okLock : bool)
    : flagcxResult_t * option flagcxMrRegistry :=
  if negb okAlloc then (flagcxSystemError, None)
  else if negb okLock then (flagcxSystemError, None)
  else (flagcxSuccess, Some mr_empty).

Fixpoint free_entries (h : mr_heap) (es : list flagcxMrEntry) : option mr_heap :=
  match es with
  | [] => Some h
  | e :: es' => '(h1, _) ← freeEntryExtensions h e; free_entries h1 es'
  end.

Definition flagcxMrRegistryDestroy (reg : option flagcxMrRegistry) (h : mr_heap)
    : option (flagcxResult_t * mr_heap) :=
  match reg with
  | None => Some (flagcxSuccess, h)
  | Some r => h' ← free_entries h (take (Z.to_nat (r_count r)) (r_entries r));
              Some (flagcxSuccess, h')
  end.

(** ** Registration *)

Abbreviation mr_answer := (flagcxResult_t * option Z * flagcxMrRegistry * mr_heap)%type.

(** Storing the extension of a new owner ([switch (ownerBit)] on both the
    existing and the new entry): a P2P extension without id gets one and is
    indexed, a COLL or RMA registration consumes an id only when the caller
    asks for it.  The result is the code, the out id, the registry and the
    heap. *)
Definition mr_attach (okI : bool) (junkI : flagcxMrIdEntry) (reg : flagcxMrRegistry)
    (h : mr_heap) (addr ownerBit ext : Z) (wantId : bool) : option mr_answer :=
  if ownerBit =? FLAGCX_MR_OWNER_P2P then
    o ← load_p2p h ext;
    let '(nextId1, o1) :=
      if p2p_mrId o =? 0 then (r_nextId reg +u64 1, set_mrId o (r_nextId reg))
      else (r_nextId reg, o) in
    let nextId2 := if nextId1 <=? p2p_mrId o1 then p2p_mrId o1 +u64 1 else nextId1 in
    let h1 := <[ext := ObjP2p o1]> h in
    '(res, reg1) ← idIndexAppend okI junkI (r_setNextId reg nextId2) (p2p_mrId o1) addr;
    if bool_decide (res = flagcxSuccess)
    then Some (flagcxSuccess, if wantId then Some (p2p_mrId o1) else None, reg1, h1)
    else Some (res, None, reg1, h1)
  else if wantId then
    Some (flagcxSuccess, Some (r_nextId reg), r_setNextId reg (r_nextId reg +u64 1), h)
  else Some (flagcxSuccess, None, reg, h).

(** Replacing the extension of an owner that already holds the entry; the
    boolean is false on an mrId conflict. *)
Definition mr_replaceExt (h : mr_heap) (e : flagcxMrEntry) (ownerBit ext : Z)
    : option (bool * flagcxMrEntry * mr_heap) :=
  if ext =? 0 then Some (true, e, h) else
  if ownerBit =? FLAGCX_MR_OWNER_P2P then
    prevMrId ← (if e_p2p e =? 0 then Some 0
                else o ← load_p2p h (e_p2p e); Some (p2p_mrId o));
    newP2p ← load_p2p h ext;
    if negb (p2p_mrId newP2p =? 0) && negb (prevMrId =? 0) &&
       negb (p2p_mrId newP2p =? prevMrId)
    then Some (false, e, h) else
    h1 ← mr_free h (e_p2p e);
    newP2p' ← load_p2p h1 ext;
    let h2 := if p2p_mrId newP2p' =? 0
              then <[ext := ObjP2p (set_mrId newP2p' prevMrId)]> h1 else h1 in
    Some (true, e_setExt e ownerBit ext, h2)
  else
    h1 ← mr_free h (e_ext e ownerBit);
    Some (true, e_setExt e ownerBit ext, h1).

(** The branch of [flagcxMrRegistryRegister] for a base address that is
    already in the array, at index [exactIdx]. *)
Definition mr_registerExisting (okI : bool) (junkI : flagcxMrIdEntry)
    (reg : flagcxMrRegistry) (h : mr_heap)
    (exactIdx addr size ibDevN ptrType ownerBit ownerIdx mhandle ext : Z) (wantId : bool)
    : option mr_answer :=
  existing ← arr_get (r_entries reg) exactIdx;
  if negb (e_size existing =? size) then Some (flagcxInternalError, None, reg, h) else
  if negb (e_ibDevN existing =? ibDevN) || negb (e_ptrType existing =? ptrType)
  then Some (flagcxInternalError, None, reg, h) else
  if negb (Z.land (e_ownerMask existing) ownerBit =? 0) then
    cur ← e_mhandles existing !! Z.to_nat ownerIdx;
    let e1 := if negb (cur =? mhandle) && negb (mhandle =? 0)
              then e_setHandle existing ownerIdx mhandle else existing in
    '(ok, e2, h2) ← mr_replaceExt h e1 ownerBit ext;
    es ← arr_set (r_entries reg) exactIdx e2;
    let reg2 := r_setEntries reg es (r_count reg) in
    if negb ok then Some (flagcxInternalError, None, reg2, h2) else
    outId ← (if wantId then
               if (ownerBit =? FLAGCX_MR_OWNER_P2P) && negb (e_p2p e2 =? 0)
               then o ← load_p2p h2 (e_p2p e2); Some (Some (p2p_mrId o))
               else Some (Some 0)
             else Some None);
    Some (flagcxSuccess, outId, reg2, h2)
  else
    if ext =? 0 then Some (flagcxInternalError, None, reg, h) else
    let e1 := e_setHandle (e_setMask existing (Z.lor (e_ownerMask existing) ownerBit))
                ownerIdx mhandle in
    '(res, outId, reg1, h1) ← mr_attach okI junkI reg h addr ownerBit ext wantId;
    if bool_decide (res = flagcxSuccess) then
      es ← arr_set (r_entries reg1) exactIdx (e_setExt e1 ownerBit ext);
      Some (flagcxSuccess, outId, r_setEntries reg1 es (r_count reg1), h1)
    else
      (* roll back the P2P ownership; the caller retains ext *)
      es ← arr_set (r_entries reg1) exactIdx
             (e_setHandle (e_setMask (e_setExt e1 ownerBit 0)
                (Z.land (e_ownerMask e1) (Z.lnot ownerBit))) ownerIdx 0);
      Some (res, None, r_setEntries reg1 es (r_count reg1), h1).

(** The branch that inserts a new entry. *)
Definition mr_registerNew (okE okI : bool) (junkE : flagcxMrEntry) (junkI : flagcxMrIdEntry)
    (reg : flagcxMrRegistry) (h : mr_heap)
    (addr size ibDevN ptrType ownerBit ownerIdx mhandle ext : Z) (wantId : bool)
    : option mr_answer :=
  pos ← findInsertionPoint (r_entries reg) (r_count reg) addr;
  leftOverlap ← (if 0 <? pos then
                   lent ← arr_get (r_entries reg) (pos - 1);
                   Some ((addr -u64 e_baseAddr lent) <? e_size lent)
                 else Some false);
  if (leftOverlap : bool) then Some (flagcxInternalError, None, reg, h) else
  rightOverlap ← (if pos <? r_count reg then
                    rent ← arr_get (r_entries reg) pos;
                    Some ((e_baseAddr rent -u64 addr) <? size)
                  else Some false);
  if (rightOverlap : bool) then Some (flagcxInternalError, None, reg, h) else
  if ext =? 0 then Some (flagcxInternalError, None, reg, h) else
  '(resC, reg1) ← ensureCapacity okE junkE reg;
  if negb (bool_decide (resC = flagcxSuccess)) then Some (resC, None, reg1, h) else
  es1 ← (if pos <? r_count reg1
         then memmove (r_entries reg1) (pos + 1) pos (r_count reg1 - pos)
         else Some (r_entries reg1));
  let entry := e_setHandle (MkMrEntry addr size ibDevN ptrType ownerBit [0; 0; 0] 0 0 0)
                 ownerIdx mhandle in
  es2 ← arr_set es1 pos (e_setExt entry ownerBit ext);
  let reg2 := r_setEntries reg1 es2 (r_count reg1) in
  '(res, outId, reg3, h3) ← mr_attach okI junkI reg2 h addr ownerBit ext wantId;
  if bool_decide (res = flagcxSuccess) then
    Some (flagcxSuccess, outId, r_setEntries reg3 (r_entries reg3) (r_count reg3 + 1), h3)
  else
    (* roll back: close the gap; the count was not incremented yet *)
    es3 ← arr_set (r_entries reg3) pos entry;
    es4 ← (if pos <? r_count reg3
           then memmove es3 pos (pos + 1) (r_count reg3 - pos)
           else Some es3);
    Some (res, None, r_setEntries reg3 es4 (r_count reg3), h3).

(** [flagcxMrRegistryRegister] on a non-null registry: the code, the value
    written to [*outId] (when [wantId], that is [outId != NULL]), the registry
    and the heap. *)
Definition flagcxMrRegistryRegister (okE okI : bool) (junkE : flagcxMrEntry)
    (junkI : flagcxMrIdEntry) (reg : flagcxMrRegistry) (h : mr_heap)
    (addr size ibDevN ptrType ownerBit mhandle ext : Z) (wantId : bool)
    : option mr_answer :=
  if (size =? 0) || (addr =? 0) then Some (flagcxInternalError, None, reg, h) else
  if (addr +u64 size) <? addr then Some (flagcxInternalError, None, reg, h) else
  let ownerIdx := ownerBitToIdx ownerBit in
  if ownerIdx <? 0 then Some (flagcxInternalError, None, reg, h) else
  exactIdx ← bsearchExact (r_entries reg) (r_count reg) addr;
  if 0 <=? exactIdx then
    mr_registerExisting okI junkI reg h exactIdx addr size ibDevN ptrType ownerBit
      ownerIdx mhandle ext wantId
  else
    mr_registerNew okE okI junkE junkI reg h addr size ibDevN ptrType ownerBit
      ownerIdx mhandle ext wantId.

(** [flagcxMrRegistryDeregister]: the code, [*outEntry], [*outExt] (when
    [wantExt]; otherwise the extension is freed), the registry and the heap. *)
Definition flagcxMrRegistryDeregister (reg : flagcxMrRegistry) (h : mr_heap)
    (addr ownerBit : Z) (wantExt : bool)
    : option (flagcxResult_t * option flagcxMrEntry * option Z * flagcxMrRegistry * mr_heap) :=
  let ownerIdx := ownerBitToIdx ownerBit in
  if ownerIdx <? 0 then Some (flagcxInternalError, None, None, reg, h) else
  idx ← bsearchExact (r_entries reg) (r_count reg) addr;
  if idx <? 0 then Some (flagcxInternalError, None, None, reg, h) else
  entry ← arr_get (r_entries reg) idx;
  if Z.land (e_ownerMask entry) ownerBit =? 0
  then Some (flagcxInternalError, None, None, reg, h) else
  let outEntry := sanitizeOutEntry entry in
  let ext := e_ext entry ownerBit in
  reg1 ← (if (ownerBit =? FLAGCX_MR_OWNER_P2P) && negb (e_p2p entry =? 0) then
            o ← load_p2p h (e_p2p entry);
            if negb (p2p_mrId o =? 0) then idIndexRemove reg (p2p_mrId o) else Some reg
          else Some reg);
  h1 ← (if wantExt then Some h else mr_free h ext);
  let e1 := e_setHandle (e_setMask (e_setExt entry ownerBit 0)
              (Z.land (e_ownerMask entry) (Z.lnot ownerBit))) ownerIdx 0 in
  es1 ← arr_set (r_entries reg1) idx e1;
  if e_ownerMask e1 =? 0 then
    '(h2, e2) ← freeEntryExtensions h1 e1;
    es2 ← arr_set es1 idx e2;
    es3 ← (if idx <? r_count reg1 - 1
           then memmove es2 idx (idx + 1) (r_count reg1 - 1 - idx)
           else Some es2);
    Some (flagcxSuccess, Some outEntry, if wantExt then Some ext else None,
          r_setEntries reg1 es3 (r_count reg1 - 1), h2)
  else
    Some (flagcxSuccess, Some outEntry, if wantExt then Some ext else None,
          r_setEntries reg1 es1 (r_count reg1), h1).

(** ** Lookup *)

Abbreviation mr_want := (bool * bool * bool)%type.
Abbreviation mr_exts :=
  (option flagcxMrExtension * option flagcxMrExtension * option flagcxMrExtension)%type.
Abbreviation mr_found := (flagcxResult_t * option (flagcxMrEntry * mr_exts))%type.

(** A hit: the sanitised copy of the entry and the extension copies. *)
Definition mr_hit (h : mr_heap) (e : flagcxMrEntry) (want : mr_want) : option mr_found :=
  x ← copyExtensions h e want;
  Some (flagcxSuccess, Some (sanitizeOutEntry e, x)).

Definition mr_miss : mr_found := (flagcxInternalError, None).

Definition flagcxMrRegistryLookup (reg : flagcxMrRegistry) (h : mr_heap) (addr : Z)
    (want : mr_want) : option mr_found :=
  if r_count reg =? 0 then Some mr_miss else
  idx ← bsearchContaining (r_entries reg) (r_count reg) addr;
  if idx <? 0 then Some mr_miss else
  entry ← arr_get (r_entries reg) idx;
  if (e_baseAddr entry <=? addr) && ((addr -u64 e_baseAddr entry) <? e_size entry)
  then mr_hit h entry want
  else Some mr_miss.

Definition flagcxMrRegistryFindExact (reg : flagcxMrRegistry) (h : mr_heap) (addr : Z)
    (want : mr_want) : option mr_found :=
  idx ← bsearchExact (r_entries reg) (r_count reg) addr;
  if idx <? 0 then Some mr_miss else
  entry ← arr_get (r_entries reg) idx;
  mr_hit h entry want.

Definition flagcxMrRegistryLookupById (reg : flagcxMrRegistry) (h : mr_heap) (mrId : Z)
    (want : mr_want) : option mr_found :=
  baseAddr ← idIndexFindBaseAddr reg mrId;
  if baseAddr =? 0 then Some mr_miss else
  idx ← bsearchExact (r_entries reg) (r_count reg) baseAddr;
  if idx <? 0 then Some mr_miss else
  entry ← arr_get (r_entries reg) idx;
  if e_p2p entry =? 0 then Some mr_miss else
  mr_hit h entry want.

(** The scan of [flagcxMrRegistryFindByHandle] over the live entries. *)
Fixpoint findByHandle_loop (h : mr_heap) (es : list flagcxMrEntry) (ownerIdx mhandle : Z)
    (want : mr_want) : option mr_found :=
  match es with
  | [] => Some mr_miss
  | e :: es' =>
      cur ← e_mhandles e !! Z.to_nat ownerIdx;
      if cur =? mhandle then mr_hit h e want
      else findByHandle_loop h es' ownerIdx mhandle want
  end.

Definition flagcxMrRegistryFindByHandle (reg : flagcxMrRegistry) (h : mr_heap)
    (ownerIdx mhandle : Z) (want : mr_want) : option mr_found :=
  if mhandle =? 0 then Some mr_miss else
  if (ownerIdx <? 0) || (3 <=? ownerIdx) then Some mr_miss else
  findByHandle_loop h (take (Z.to_nat (r_count reg)) (r_entries reg)) ownerIdx mhandle want.

(** ** The global instance *)

(** [flagcxGlobalMrRegistry], [gRegistryRefCount] and [gRegistryNextId]. *)
Record mr_global := MkMrGlobal {
  g_registry : option flagcxMrRegistry;
  g_refCount : Z;
  g_nextId : Z
}.

Definition flagcxMrRegistryGlobalInit (okAlloc okLock : bool) (g : mr_global)
    : flagcxResult_t * mr_global :=
  if g_refCount g =? 0 then
    match flagcxMrRegistryCreate okAlloc okLock with
    | (flagcxSuccess, Some r) =>
        (flagcxSuccess, MkMrGlobal (Some (r_setNextId r (g_nextId g))) 1 (g_nextId g))
    | (res, _) => (res, g)
    end
  else (flagcxSuccess, MkMrGlobal (g_registry g) (g_refCount g + 1) (g_nextId g)).

Definition flagcxMrRegistryGlobalRelease (g : mr_global) (h : mr_heap)
    : option (flagcxResult_t * mr_global * mr_heap) :=
  if g_refCount g <=? 0 then Some (flagcxInternalError, g, h) else
  if g_refCount g - 1 =? 0 then
    r ← g_registry g;
    '(_, h') ← flagcxMrRegistryDestroy (Some r) h;
    Some (flagcxSuccess, MkMrGlobal None 0 (r_nextId r), h')
  else Some (flagcxSuccess, MkMrGlobal (g_registry g) (g_refCount g - 1) (g_nextId g), h).

(** ** Invariant *)

Definition owner_bit (b : Z) : Prop := b = 1 \/ b = 2 \/ b = 4.

#[export] Instance owner_bit_dec b : Decision (owner_bit b).
Proof. unfold owner_bit; apply _. Defined.

(** The object behind the extension pointer of owner [b]. *)
Definition obj_of_bit (b : Z) (o : mr_object) : Prop :=
  match o with
  | ObjP2p p => b = 1 /\ 0 < p2p_mrId p
  | ObjColl _ => b = 2
  | ObjRma _ => b = 4
  end.

Definition e_ptrs (e : flagcxMrEntry) : list Z :=
  filter (fun p => p <> 0) [e_p2p e; e_coll e; e_rma e].

(** A well-formed entry: a non-wrapping range, and for each owner the mask bit
    tells whether its extension is present and live. *)
Definition entry_ok (h : mr_heap) (e : flagcxMrEntry) : Prop :=
  (0 < e_baseAddr e /\ 0 < e_size e /\ e_baseAddr e + e_size e < U64_MOD) /\
  length (e_mhandles e) = 3%nat /\ 0 <= e_ownerMask e < 8 /\
  forall b, owner_bit b ->
    (e_ext e b = 0 <-> Z.land (e_ownerMask e) b = 0) /\
    (e_ext e b <> 0 -> exists o, h !! e_ext e b = Some o /\ obj_of_bit b o).

(** The index entry an entry with a P2P owner is known under. *)
Definition id_of (h : mr_heap) (e : flagcxMrEntry) : option flagcxMrIdEntry :=
  match h !! e_p2p e with
  | Some (ObjP2p p) => Some (MkMrIdEntry (p2p_mrId p) (e_baseAddr e))
  | _ => None
  end.

Definition owned (live : list flagcxMrEntry) : list Z := live ≫= e_ptrs.

(** The part of the invariant that does not depend on the entry order: entries
    are well formed, every extension object has one owner, and the id index is
    sorted, below [nextId], and lists exactly the P2P-owned entries. *)
Record mr_core (live : list flagcxMrEntry) (lid : list flagcxMrIdEntry) (n : Z) (h : mr_heap)
    : Prop := {
  c_ok : Forall (entry_ok h) live;
  c_own : NoDup (owned live);
  c_sorted : key_sorted id_mrId lid;
  c_index : lid ≡ₚ omap (id_of h) live;
  c_next : Forall (fun x => id_mrId x < n) lid;
  c_null : h !! 0 = None
}.

Definition mr_before (a b : flagcxMrEntry) : Prop :=
  e_baseAddr a + e_size a <= e_baseAddr b.

Definition r_live (r : flagcxMrRegistry) : list flagcxMrEntry :=
  take (Z.to_nat (r_count r)) (r_entries r).
Definition r_lid (r : flagcxMrRegistry) : list flagcxMrIdEntry :=
  take (Z.to_nat (r_idCount r)) (r_idIndex r).

(** The handle of an absent owner is NULL. *)
Definition handles_ok (e : flagcxMrEntry) : Prop :=
  forall b, owner_bit b -> Z.land (e_ownerMask e) b = 0 ->
    e_mhandles e !! Z.to_nat (ownerBitToIdx b) = Some 0.

Record mr_wf (r : flagcxMrRegistry) (h : mr_heap) : Prop := {
  w_count : 0 <= r_count r <= r_capacity r;
  w_cap : Z.of_nat (length (r_entries r)) = r_capacity r;
  w_idCount : 0 <= r_idCount r <= r_idCapacity r;
  w_idCap : Z.of_nat (length (r_idIndex r)) = r_idCapacity r;
  w_order : StronglySorted mr_before (r_live r);
  w_masks : Forall (fun e => e_ownerMask e <> 0) (r_live r);
  w_core : mr_core (r_live r) (r_lid r) (r_nextId r) h;
  w_handles : Forall handles_ok (r_live r);
  w_next : 0 < r_nextId r < U64_MOD
}.

(** ** Owner bits *)

Ltac owner_cases H := destruct H as [->|[->| ->]].

Lemma ownerBitToIdx_nonneg b : 0 <= ownerBitToIdx b <-> owner_bit b.
Proof. unfold ownerBitToIdx, owner_bit. repeat case_test; lia. Qed.

Lemma ownerBitToIdx_lt b : ownerBitToIdx b < 3.
Proof. unfold ownerBitToIdx. repeat case_test; lia. Qed.

Lemma e_ext_setExt_eq e b p : e_ext (e_setExt e b p) b = p.
Proof. unfold e_ext, e_setExt. repeat case_test; done. Qed.

Lemma e_ext_setExt_ne e b b' p :
  owner_bit b -> owner_bit b' -> b <> b' -> e_ext (e_setExt e b p) b' = e_ext e b'.
Proof. intros H H' Hne. owner_cases H; owner_cases H'; done. Qed.

Lemma mask_lor_bit k b b' :
  0 <= k < 8 -> owner_bit b -> owner_bit b' ->
  0 <= Z.lor k b < 8 /\
  (Z.land (Z.lor k b) b' = 0 <-> b <> b' /\ Z.land k b' = 0).
Proof.
  intros Hk H H'.
  assert (k = 0 \/ k = 1 \/ k = 2 \/ k = 3 \/ k = 4 \/ k = 5 \/ k = 6 \/ k = 7) as Hc by lia.
  owner_cases H; owner_cases H'; destruct_or! Hc; subst k; by_deciding.
Qed.

Lemma mask_clear_bit k b b' :
  0 <= k < 8 -> owner_bit b -> owner_bit b' ->
  0 <= Z.land k (Z.lnot b) < 8 /\
  (Z.land (Z.land k (Z.lnot b)) b' = 0 <-> b = b' \/ Z.land k b' = 0).
Proof.
  intros Hk H H'.
  assert (k = 0 \/ k = 1 \/ k = 2 \/ k = 3 \/ k = 4 \/ k = 5 \/ k = 6 \/ k = 7) as Hc by lia.
  owner_cases H; owner_cases H'; destruct_or! Hc; subst k; by_deciding.
Qed.

Lemma mask_zero_no_owner k :
  0 <= k < 8 -> (forall b, owner_bit b -> Z.land k b = 0) -> k = 0.
Proof.
  intros Hk Hb.
  generalize (Hb 1 ltac:(by left)), (Hb 2 ltac:(right; by left)), (Hb 4 ltac:(right; by right)).
  clear Hb.
  assert (k = 0 \/ k = 1 \/ k = 2 \/ k = 3 \/ k = 4 \/ k = 5 \/ k = 6 \/ k = 7) as Hc by lia.
  destruct_or! Hc; subst k; by_deciding.
Qed.

(** ** Owned pointers *)

Lemma elem_of_e_ptrs e q : q ∈ e_ptrs e <-> q <> 0 /\ exists b, owner_bit b /\ e_ext e b = q.
Proof.
  unfold e_ptrs. rewrite list_elem_of_filter. split.
  - intros [Hq Hin]. split; [done|]. unfold owner_bit.
    rewrite !elem_of_cons, elem_of_nil in Hin. destruct Hin as [->|[->|[->|[]]]].
    + exists 1; auto.
    + exists 2; auto.
    + exists 4; auto.
  - intros [Hq (b & Hb & <-)]. split; [done|]. owner_cases Hb; cbn; set_solver.
Qed.

Lemma e_ptrs_setExt_new e b p :
  owner_bit b -> e_ext e b = 0 -> p <> 0 -> e_ptrs (e_setExt e b p) ≡ₚ p :: e_ptrs e.
Proof.
  intros Hb He Hp. unfold e_ptrs.
  owner_cases Hb; unfold e_setExt, e_ext in *; simpl in *; rewrite ?filter_cons, ?filter_nil;
    repeat case_decide; try done; try lia; try solve_Permutation.
Qed.

Lemma e_ptrs_setExt_clear e b :
  owner_bit b -> e_ext e b <> 0 -> e_ptrs e ≡ₚ e_ext e b :: e_ptrs (e_setExt e b 0).
Proof.
  intros Hb He. unfold e_ptrs.
  owner_cases Hb; unfold e_setExt, e_ext in *; simpl in *; rewrite ?filter_cons, ?filter_nil;
    repeat case_decide; try done; try lia; try solve_Permutation.
Qed.

(** ** The order-independent invariant *)

#[export] Instance mr_core_perm :
  Proper ((≡ₚ) ==> eq ==> eq ==> eq ==> iff) mr_core.
Proof.
  intros l1 l2 Hp ? lid -> ? n -> ? h ->.
  assert (Himp : forall l1 l2, l1 ≡ₚ l2 -> mr_core l1 lid n h -> mr_core l2 lid n h).
  { clear. intros l1 l2 Hp []. constructor; try done.
    - by rewrite <-Hp.
    - unfold owned in *. by rewrite <-Hp.
    - by rewrite <-Hp. }
  split; apply Himp; done.
Qed.

Lemma elem_of_owned q live : q ∈ owned live <-> exists e, e ∈ live /\ q ∈ e_ptrs e.
Proof. unfold owned. rewrite list_elem_of_bind. naive_solver. Qed.

Lemma owned_cons e live : owned (e :: live) = e_ptrs e ++ owned live.
Proof. done. Qed.

Lemma owned_neq_0 q live : q ∈ owned live -> q <> 0.
Proof. rewrite elem_of_owned. intros (e & _ & Hq). by apply elem_of_e_ptrs in Hq as []. Qed.

Lemma entry_ok_heap h h' e :
  (forall q, q ∈ e_ptrs e -> h' !! q = h !! q) -> entry_ok h e -> entry_ok h' e.
Proof.
  intros Hag (Hr & Hl & Hm & Hb). do 3 (split; [done|]). intros b Hob.
  destruct (Hb b Hob) as [Hz Ho]. split; [done|].
  intros Hne. rewrite Hag; [by apply Ho|]. apply elem_of_e_ptrs. eauto.
Qed.

Lemma id_of_heap h h' e :
  h !! 0 = None -> h' !! 0 = None ->
  (forall q, q ∈ e_ptrs e -> h' !! q = h !! q) -> id_of h' e = id_of h e.
Proof.
  intros H0 H0' Hag. unfold id_of. destruct (decide (e_p2p e = 0)) as [->|Hne].
  - by rewrite H0, H0'.
  - rewrite Hag; [done|]. apply elem_of_e_ptrs. split; [done|]. exists 1. split; [by left|done].
Qed.

(** Only the owned objects of the heap matter. *)
Lemma mr_core_heap live lid n h h' :
  (forall q, q ∈ owned live -> h' !! q = h !! q) -> h' !! 0 = None ->
  mr_core live lid n h -> mr_core live lid n h'.
Proof.
  intros Hag H0 [Hok Hown Hs Hix Hn Hnull]. constructor; try done.
  - rewrite Forall_forall in *. intros e He. eapply entry_ok_heap; [|by apply Hok].
    intros q Hq. apply Hag, elem_of_owned. eauto.
  - rewrite Hix. clear -Hag H0 Hnull.
    assert (omap (id_of h') live = omap (id_of h) live) as ->; [|done].
    induction live as [|e live IH]; [done|].
    rewrite owned_cons in Hag. cbn.
    rewrite (id_of_heap h h' e) by (try done; intros; apply Hag; set_solver).
    rewrite IH by (intros; apply Hag; set_solver). done.
Qed.

(** Pointer names of [e] do not occur in the other entries. *)
Lemma mr_core_cons_inv e live lid n h :
  mr_core (e :: live) lid n h ->
  entry_ok h e /\ Forall (entry_ok h) live /\ NoDup (e_ptrs e) /\ NoDup (owned live) /\
  (forall q, q ∈ e_ptrs e -> q ∉ owned live).
Proof.
  intros [Hok Hown _ _ _ _]. inversion Hok; subst.
  rewrite owned_cons in Hown. apply NoDup_app in Hown as (? & ? & ?). done.
Qed.

(** An entry without owners. *)
Lemma mr_core_drop e live lid n h :
  e_ownerMask e = 0 -> mr_core (e :: live) lid n h -> mr_core live lid n h.
Proof.
  intros Hm Hc. destruct (mr_core_cons_inv _ _ _ _ _ Hc) as ((_ & _ & _ & Hb) & ? & ? & ? & ?).
  destruct Hc as [Hok Hown Hs Hix Hn Hnull].
  constructor; try done.
  rewrite Hix. cbn. unfold id_of at 1.
  destruct (Hb 1 ltac:(by left)) as [Hz _]. cbn in Hz. rewrite Hm in Hz.
  rewrite (proj2 Hz) by done. by rewrite Hnull.
Qed.

Lemma e_ptrs_nil e :
  (forall b, owner_bit b -> e_ext e b = 0) -> e_ptrs e = [].
Proof.
  intros Hz. destruct (e_ptrs e) as [|q l] eqn:He; [done|].
  assert (q ∈ e_ptrs e) as Hq by (rewrite He; by constructor).
  apply elem_of_e_ptrs in Hq as (Hne & b & Hb & <-). by rewrite Hz in Hne.
Qed.

Lemma mr_core_new e live lid n h :
  entry_ok h e -> e_ownerMask e = 0 -> mr_core live lid n h -> mr_core (e :: live) lid n h.
Proof.
  intros Hok Hm [Hoks Hown Hs Hix Hn Hnull].
  assert (Hz : forall b, owner_bit b -> e_ext e b = 0).
  { intros b Hb. destruct Hok as (_ & _ & _ & Hbits). apply (Hbits b Hb). by rewrite Hm. }
  constructor; try done.
  - by constructor.
  - rewrite owned_cons, e_ptrs_nil; done.
  - rewrite Hix. cbn. unfold id_of at 2.
    specialize (Hz 1 ltac:(by left)). cbn in Hz. rewrite Hz, Hnull. done.
Qed.

(** Same entry but for the handles. *)
Definition same_shape (e e' : flagcxMrEntry) : Prop :=
  e_baseAddr e' = e_baseAddr e /\ e_size e' = e_size e /\
  e_ownerMask e' = e_ownerMask e /\ length (e_mhandles e') = length (e_mhandles e) /\
  e_p2p e' = e_p2p e /\ e_coll e' = e_coll e /\ e_rma e' = e_rma e.

Lemma same_shape_setHandle e idx v : same_shape e (e_setHandle e idx v).
Proof. unfold same_shape; cbn. by rewrite length_insert. Qed.

Lemma mr_core_same_shape e e' live lid n h :
  same_shape e e' -> mr_core (e :: live) lid n h -> mr_core (e' :: live) lid n h.
Proof.
  intros (Hb & Hsz & Hm & Hl & H1 & H2 & H4) [Hok Hown Hs Hix Hn Hnull].
  assert (Hext : forall b, e_ext e' b = e_ext e b) by (intros b; unfold e_ext; by rewrite H1, H2, H4).
  constructor; try done.
  - inversion Hok; subst. constructor; [|done]. unfold entry_ok in *.
    rewrite Hb, Hsz, Hm, Hl. setoid_rewrite Hext. done.
  - rewrite owned_cons in *. unfold e_ptrs in *. by rewrite H1, H2, H4.
  - assert (id_of h e' = id_of h e) as Hid by (unfold id_of; by rewrite H1, Hb).
    rewrite Hix. cbn. by rewrite Hid.
Qed.

(** The entry gains (or keeps) an owner whose extension is [ext]. *)
Definition e_own (e : flagcxMrEntry) (b ext : Z) : flagcxMrEntry :=
  e_setExt (e_setMask e (Z.lor (e_ownerMask e) b)) b ext.
Definition e_disown (e : flagcxMrEntry) (b : Z) : flagcxMrEntry :=
  e_setMask (e_setExt e b 0) (Z.land (e_ownerMask e) (Z.lnot b)).

Lemma e_own_fields e b p :
  e_baseAddr (e_own e b p) = e_baseAddr e /\ e_size (e_own e b p) = e_size e /\
  e_ownerMask (e_own e b p) = Z.lor (e_ownerMask e) b /\
  e_mhandles (e_own e b p) = e_mhandles e /\
  (forall b', e_ext (e_own e b p) b' = e_ext (e_setExt e b p) b') /\
  e_ptrs (e_own e b p) = e_ptrs (e_setExt e b p).
Proof. unfold e_own, e_setExt, e_ext, e_ptrs. repeat case_test; repeat split; intros; repeat case_test; done. Qed.

Lemma e_disown_fields e b :
  e_baseAddr (e_disown e b) = e_baseAddr e /\ e_size (e_disown e b) = e_size e /\
  e_ownerMask (e_disown e b) = Z.land (e_ownerMask e) (Z.lnot b) /\
  e_mhandles (e_disown e b) = e_mhandles e /\
  (forall b', e_ext (e_disown e b) b' = e_ext (e_setExt e b 0) b') /\
  e_ptrs (e_disown e b) = e_ptrs (e_setExt e b 0).
Proof. unfold e_disown, e_setExt, e_ext, e_ptrs. repeat case_test; repeat split; intros; repeat case_test; done. Qed.

Lemma entry_ok_own h e b p o :
  owner_bit b -> entry_ok h e -> p <> 0 -> h !! p = Some o -> obj_of_bit b o ->
  entry_ok h (e_own e b p).
Proof.
  intros Hb (Hr & Hl & Hm & Hbits) Hp Ho Hob. unfold entry_ok.
  destruct (e_own_fields e b p) as (-> & -> & -> & -> & Hext & _).
  split; [done|]. split; [done|].
  split; [by apply (mask_lor_bit _ b b)|]. intros b' Hb'. rewrite Hext.
  destruct (mask_lor_bit (e_ownerMask e) b b' Hm Hb Hb') as [_ ->].
  destruct (decide (b = b')) as [<-|Hne].
  - rewrite e_ext_setExt_eq. split; [naive_solver|]. eauto.
  - rewrite e_ext_setExt_ne by done. destruct (Hbits b' Hb') as [Hz Hx].
    split; [naive_solver|done].
Qed.

Lemma entry_ok_disown h e b :
  owner_bit b -> entry_ok h e -> entry_ok h (e_disown e b).
Proof.
  intros Hb (Hr & Hl & Hm & Hbits). unfold entry_ok.
  destruct (e_disown_fields e b) as (-> & -> & -> & -> & Hext & _).
  split; [done|]. split; [done|].
  split; [by apply (mask_clear_bit _ b b)|]. intros b' Hb'. rewrite Hext.
  destruct (mask_clear_bit (e_ownerMask e) b b' Hm Hb Hb') as [_ ->].
  destruct (decide (b = b')) as [<-|Hne].
  - rewrite e_ext_setExt_eq. split; [naive_solver|done].
  - rewrite e_ext_setExt_ne by done. destruct (Hbits b' Hb') as [Hz Hx].
    split; [naive_solver|done].
Qed.

Lemma id_of_p2p h e p :
  h !! e_p2p e = Some (ObjP2p p) -> id_of h e = Some (MkMrIdEntry (p2p_mrId p) (e_baseAddr e)).
Proof. intros H. unfold id_of. by rewrite H. Qed.

(** The id entry of an entry whose owner [b] is not P2P does not change. *)
Lemma id_of_setExt_other h e e' b :
  owner_bit b -> b <> 1 -> e_baseAddr e' = e_baseAddr e ->
  (forall b', e_ext e' b' = e_ext (e_setExt e b (e_ext e' b)) b') -> id_of h e' = id_of h e.
Proof.
  intros Hb Hne Hbase Hext. unfold id_of. specialize (Hext 1).
  rewrite e_ext_setExt_ne in Hext by (done || by left). cbn in Hext. by rewrite Hext, Hbase.
Qed.

(** Adding the id of a new P2P owner at the end of the index. *)
Lemma key_sorted_snoc lid n (x : flagcxMrIdEntry) :
  key_sorted id_mrId lid -> Forall (fun y => id_mrId y < n) lid -> n <= id_mrId x ->
  key_sorted id_mrId (lid ++ [x]).
Proof.
  intros Hs Hn Hx. apply StronglySorted_app_inv. split; [done|].
  split; [repeat constructor|]. intros y z Hy [->|Hz%elem_of_nil]%elem_of_cons; [|done].
  rewrite Forall_forall in Hn. specialize (Hn _ Hy). lia.
Qed.

(** Attaching an owner: all but the id index. *)
Lemma mr_core_own e live lid lid' n n' h b p o :
  owner_bit b -> mr_core (e :: live) lid n h ->
  e_ext e b = 0 -> p <> 0 -> p ∉ owned (e :: live) ->
  h !! p = Some o -> obj_of_bit b o ->
  key_sorted id_mrId lid' -> Forall (fun x => id_mrId x < n') lid' ->
  match o with
  | ObjP2p q => lid' ≡ₚ MkMrIdEntry (p2p_mrId q) (e_baseAddr e) :: lid
  | _ => lid' = lid
  end ->
  mr_core (e_own e b p :: live) lid' n' h.
Proof.
  intros Hb Hc He Hp Hfresh Ho Hob Hs' Hn' Hlid.
  destruct (mr_core_cons_inv _ _ _ _ _ Hc) as (Hok & Hoks & Hnd & Hnds & Hdisj).
  destruct Hc as [_ Hown _ Hix _ Hnull].
  destruct (e_own_fields e b p) as (Hbase & _ & _ & _ & Hext & Hptr).
  constructor; try done.
  - constructor; [by eapply entry_ok_own|done].
  - rewrite owned_cons, Hptr, e_ptrs_setExt_new by done.
    rewrite owned_cons in Hfresh, Hown. cbn. by constructor.
  - cbn. destruct o as [q|q|q]; cbn in Hob.
    + destruct Hob as [-> _].
      rewrite (id_of_p2p h _ q) by done.
      rewrite Hlid, Hbase. f_equiv. rewrite Hix. cbn. unfold id_of at 1.
      cbn in He. by rewrite He, Hnull.
    + subst lid' b. by rewrite Hix.
    + subst lid' b. by rewrite Hix.
Qed.

(** Detaching an owner: the id of a P2P owner leaves the index. *)
Lemma mr_core_disown e live lid lid' n h b o :
  owner_bit b -> mr_core (e :: live) lid n h ->
  e_ext e b <> 0 -> h !! e_ext e b = Some o ->
  key_sorted id_mrId lid' ->
  match o with
  | ObjP2p q => lid ≡ₚ MkMrIdEntry (p2p_mrId q) (e_baseAddr e) :: lid'
  | _ => lid' = lid
  end ->
  mr_core (e_disown e b :: live) lid' n h /\ e_ext e b ∉ owned (e_disown e b :: live).
Proof.
  intros Hb Hc He Ho Hs' Hlid.
  destruct (mr_core_cons_inv _ _ _ _ _ Hc) as (Hok & Hoks & Hnd & Hnds & Hdisj).
  destruct Hc as [_ Hown _ Hix Hn Hnull].
  destruct (e_disown_fields e b) as (Hbase & _ & _ & _ & Hext & Hptr).
  rewrite owned_cons, (e_ptrs_setExt_clear e b) in Hown by done. rewrite <-app_comm_cons in Hown.
  apply NoDup_cons in Hown as [Hnot Hown].
  split; [|by rewrite owned_cons, Hptr].
  pose proof Hok as (_ & _ & _ & Hbits). destruct (Hbits b Hb) as [_ Hx].
  destruct (Hx He) as (o' & Ho' & Hob). simplify_eq.
  constructor; try done.
  - constructor; [by apply entry_ok_disown|done].
  - cbn. destruct o as [q|q|q]; cbn in Hob.
    + destruct Hob as [-> _]. apply (Permutation_cons_inv (a := MkMrIdEntry (p2p_mrId q) (e_baseAddr e))).
      rewrite <-Hlid, Hix. cbn. rewrite (id_of_p2p h e q) by done. f_equiv.
      unfold id_of at 2.
      change (e_p2p (e_disown e 1)) with 0. by rewrite Hnull.
    + subst lid' b. by rewrite Hix.
    + subst lid' b. by rewrite Hix.
  - destruct o; [|by subst..]. rewrite Hlid in Hn. by inversion Hn.
Qed.

(** ** The index operations on the live index *)

Definition idx_wf (r : flagcxMrRegistry) : Prop :=
  0 <= r_idCount r <= r_idCapacity r /\ Z.of_nat (length (r_idIndex r)) = r_idCapacity r.

(** Everything but the index and the id counter. *)
Definition same_entries (r r' : flagcxMrRegistry) : Prop :=
  r_entries r' = r_entries r /\ r_count r' = r_count r /\ r_capacity r' = r_capacity r.

Lemma same_entries_refl r : same_entries r r.
Proof. done. Qed.
#[local] Hint Resolve same_entries_refl : flagcx.

Lemma length_r_lid r : idx_wf r -> length (r_lid r) = Z.to_nat (r_idCount r).
Proof. intros [? ?]. unfold r_lid. rewrite length_take. lia. Qed.

Lemma idIndexAppend_spec okI junkI r mrId base :
  idx_wf r -> r_idCapacity r * 2 <= INT_MAX -> key_sorted id_mrId (r_lid r) ->
  exists res r', idIndexAppend okI junkI r mrId base = Some (res, r') /\
    same_entries r r' /\ idx_wf r' /\ r_nextId r' = r_nextId r /\
    (res = flagcxSuccess ->
       r_lid r' = r_lid r ++ [MkMrIdEntry mrId base] /\ Forall (fun x => id_mrId x < mrId) (r_lid r)) /\
    (res <> flagcxSuccess -> r' = r) /\
    (okI = true -> Forall (fun x => id_mrId x < mrId) (r_lid r) -> res = flagcxSuccess).
Proof.
  intros [Hc Hl] Hcap Hs. unfold idIndexAppend.
  assert (Hmono : exists b, (if 0 <? r_idCount r
     then last ← arr_get (r_idIndex r) (r_idCount r - 1); Some (id_mrId last <? mrId)
     else Some true) = Some b /\ (b = true <-> Forall (fun x => id_mrId x < mrId) (r_lid r))).
  { destruct (Z.ltb_spec 0 (r_idCount r)) as [H0|H0].
    - destruct (exists_last (l := r_lid r)) as (l & x & Hx).
      { intros Hn. pose proof (length_r_lid r ltac:(done)) as H. rewrite Hn in H. cbn in H. lia. }
      pose proof (length_r_lid r ltac:(done)) as Hll. rewrite Hx, length_app in Hll. cbn in Hll.
      replace (r_idCount r - 1) with (Z.of_nat (length l)) by lia.
      rewrite (arr_get_live (r_idIndex r) (Z.to_nat (r_idCount r)) l x []) by exact Hx. cbn.
      eexists. split; [done|]. rewrite Hx in *. rewrite Forall_app, Forall_singleton.
      apply StronglySorted_app_inv in Hs as (_ & _ & Hlt).
      split; [|intros [_ H]; by apply Z.ltb_lt].
      intros H%Z.ltb_lt. split; [|done]. apply Forall_forall. intros y Hy.
      specialize (Hlt y x Hy ltac:(set_solver)). lia.
    - exists true. split; [done|]. split; [|done]. intros _. unfold r_lid.
      replace (Z.to_nat (r_idCount r)) with O by lia. constructor. }
  destruct Hmono as (b & -> & Hb). cbn. destruct b; cbn.
  2: { exists flagcxInternalError, r. and_split. intros _ HF. apply Hb in HF. done. }
  destruct Hb as [Hb _]. specialize (Hb eq_refl).
  assert (Hwrite : forall r1, same_entries r r1 -> r_nextId r1 = r_nextId r ->
      r_lid r1 = r_lid r -> idx_wf r1 -> r_idCount r1 = r_idCount r -> r_idCount r1 < r_idCapacity r1 ->
      exists ix, arr_set (r_idIndex r1) (r_idCount r1) (MkMrIdEntry mrId base) = Some ix /\
        idx_wf (r_setIndex r1 ix (r_idCount r1 + 1) (r_idCapacity r1)) /\
        r_lid (r_setIndex r1 ix (r_idCount r1 + 1) (r_idCapacity r1)) =
          r_lid r ++ [MkMrIdEntry mrId base]).
  { intros r1 _ _ Hlid Hwf Hcnt Hroom.
    destruct (arr_insert_live (r_idIndex r1) (Z.to_nat (r_idCount r1)) (r_lid r) []
                (MkMrIdEntry mrId base)) as (a1 & a' & Hm & Hset & Hla & Htk).
    { rewrite app_nil_r, <-Hlid. done. }
    { destruct Hwf. lia. }
    rewrite (length_r_lid r ltac:(done)), <-Hcnt, Z.ltb_irrefl in Hm. simplify_eq.
    rewrite (length_r_lid r ltac:(done)), <-Hcnt, Z2Nat.id in Hset by lia.
    exists a'. split; [done|]. split.
    - destruct Hwf. split; cbn; lia.
    - unfold r_lid; cbn. replace (Z.to_nat (r_idCount r1 + 1)) with (S (Z.to_nat (r_idCount r1))) by lia.
      done. }
  destruct (Z.leb_spec (r_idCapacity r) (r_idCount r)) as [Hfull|Hroom]; cbn.
  - assert (exists nc, grow_capacity (r_idCapacity r) ID_INDEX_INITIAL_CAPACITY = Some nc /\
              r_idCapacity r < nc) as (nc & -> & Hnc).
    { unfold grow_capacity. repeat case_test; try lia; eexists; (split; [done|]); lia. }
    cbn. destruct okI; cbn.
    2: { exists flagcxSystemError, r. and_split. }
    destruct (Hwrite (r_setIndex r (realloc_arr junkI (r_idIndex r) nc) (r_idCount r) nc))
      as (ix & Hset & Hix & Hlid); try done.
    + unfold r_lid; cbn. apply take_realloc_arr; lia.
    + split; cbn; [lia|]. apply length_realloc_arr. lia.
    + cbn. lia.
    + cbn in Hset. rewrite Hset. cbn. eexists _, _; split; [done|]. and_split.
  - edestruct (Hwrite r) as (ix & -> & Hix & Hlid); try done; try lia. cbn.
    eexists _, _; split; [done|]. and_split.
Qed.

(** Removal of an element of a sorted list by its key. *)
Lemma key_sorted_remove (l1 l2 : list flagcxMrIdEntry) x :
  key_sorted id_mrId (l1 ++ x :: l2) -> key_sorted id_mrId (l1 ++ l2).
Proof.
  unfold key_sorted. rewrite !StronglySorted_app_inv. intros (? & Hs & Hlt).
  inversion Hs; subst. split; [done|]. split; [done|]. set_solver.
Qed.

Lemma idIndexFind_spec r mrId :
  idx_wf r -> key_sorted id_mrId (r_lid r) ->
  (exists l1 x l2, r_lid r = l1 ++ x :: l2 /\ id_mrId x = mrId /\
     bsearch_exact id_mrId (r_idIndex r) (r_idCount r) mrId = Some (Z.of_nat (length l1))) \/
  (bsearch_exact id_mrId (r_idIndex r) (r_idCount r) mrId = Some (-1) /\
   forall x, x ∈ r_lid r -> id_mrId x <> mrId).
Proof.
  intros [Hc Hl] Hs.
  destruct (bsearch_exact_spec id_mrId (r_idIndex r) (Z.to_nat (r_idCount r)) mrId)
    as [(p & x & Hp & Hx & Hk)|[Hp Hk]]; [lia|done| |]; rewrite Z2Nat.id in Hp by lia.
  - left. apply list_elem_of_split_length in Hx as (l1 & l2 & Heq & ->). eauto 10.
  - right. done.
Qed.

Lemma idIndexRemove_spec r l1 x l2 :
  idx_wf r -> key_sorted id_mrId (r_lid r) -> r_lid r = l1 ++ x :: l2 ->
  exists r', idIndexRemove r (id_mrId x) = Some r' /\ same_entries r r' /\ idx_wf r' /\
    r_nextId r' = r_nextId r /\ r_lid r' = l1 ++ l2.
Proof.
  intros Hwf Hs Hlid. unfold idIndexRemove.
  destruct (idIndexFind_spec r (id_mrId x) Hwf Hs) as [(k1 & y & k2 & Hk & Hid & ->)|[_ Hne]].
  2: { destruct (Hne x); [rewrite Hlid; set_solver|done]. }
  assert (k1 = l1 /\ k2 = l2) as [-> ->].
  { assert (length k1 = length l1) as Hlen.
    { apply (key_sorted_inj id_mrId (r_lid r) (length k1) (length l1) y x); [done|..|done].
      - rewrite Hk, lookup_app_r, Nat.sub_diag by lia; done.
      - rewrite Hlid, lookup_app_r, Nat.sub_diag by lia; done. }
    rewrite Hlid in Hk. apply app_inj_1 in Hk as [-> Hk]; [|done]. by simplify_eq. }
  cbn. destruct (Z.ltb_spec (Z.of_nat (length l1)) 0); [lia|]. destruct Hwf as [Hc Hl].
  destruct (arr_remove_live (r_idIndex r) (Z.to_nat (r_idCount r)) l1 x l2)
    as (a' & Hm & Hla & Htk); [done|lia|].
  rewrite Z2Nat.id in Hm by lia. rewrite Hm. cbn. eexists. split; [done|].
  assert (0 < r_idCount r).
  { pose proof (length_r_lid r ltac:(done)) as H0. rewrite Hlid, length_app in H0. cbn in H0. lia. }
  repeat split; cbn; try lia. unfold r_lid; cbn.
  by replace (Z.to_nat (r_idCount r - 1)) with (Z.to_nat (r_idCount r) - 1)%nat by lia.
Qed.

(** ** Attaching, replacing and detaching an extension *)

(** What the caller passes: an object of the owner's kind, whose id leaves
    room for the next one. *)
Definition ext_kind (b : Z) (o : mr_object) : Prop :=
  match o with
  | ObjP2p p => b = 1 /\ 0 <= p2p_mrId p < U64_MAX
  | ObjColl _ => b = 2
  | ObjRma _ => b = 4
  end.

(** A live extension object that the registry does not own yet. *)
Definition ext_given (live : list flagcxMrEntry) (h : mr_heap) (b ext : Z) : Prop :=
  ext <> 0 /\ ext ∉ owned live /\ exists o, h !! ext = Some o /\ ext_kind b o.

Lemma ext_kind_bit b o : ext_kind b o -> owner_bit b.
Proof. unfold owner_bit. destruct o; cbn; intuition. Qed.

(** The id a P2P registration gets. *)
Definition assigned_id (n : Z) (p : flagcxMrP2pExt) : Z :=
  if p2p_mrId p =? 0 then n else p2p_mrId p.

(** The object after the registration. *)
Definition attached (n : Z) (o : mr_object) : mr_object :=
  match o with
  | ObjP2p p => ObjP2p (set_mrId p (assigned_id n p))
  | _ => o
  end.

(** The id counter after the registration. *)
Definition next_after (n : Z) (o : mr_object) (wantId : bool) : Z :=
  match o with
  | ObjP2p p => Z.max n (assigned_id n p + 1)
  | _ => if wantId then n + 1 else n
  end.

(** The id reported to the caller. *)
Definition out_id (n : Z) (o : mr_object) (wantId : bool) : option Z :=
  if wantId then
    match o with ObjP2p p => Some (assigned_id n p) | _ => Some n end
  else None.

(** The live index after the registration. *)
Definition lid_after (n : Z) (o : mr_object) (lid : list flagcxMrIdEntry) (base : Z)
    : list flagcxMrIdEntry :=
  match o with
  | ObjP2p p => lid ++ [MkMrIdEntry (assigned_id n p) base]
  | _ => lid
  end.

Lemma set_mrId_same p : set_mrId p (p2p_mrId p) = p.
Proof. by destruct p. Qed.

Lemma next_after_bounds n o b w :
  0 < n < U64_MAX -> ext_kind b o -> n <= next_after n o w < U64_MOD.
Proof.
  intros Hn Hk. destruct o as [p|p|p]; cbn in *; [|destruct w; lia..].
  unfold assigned_id. case_test; lia.
Qed.

Lemma mr_attach_spec okI junkI r h addr b ext wantId o :
  idx_wf r -> r_idCapacity r * 2 <= INT_MAX -> key_sorted id_mrId (r_lid r) ->
  Forall (fun x => id_mrId x < r_nextId r) (r_lid r) -> 0 < r_nextId r < U64_MAX ->
  h !! ext = Some o -> ext_kind b o ->
  exists res out r1, mr_attach okI junkI r h addr b ext wantId =
      Some (res, out, r1, <[ext := attached (r_nextId r) o]> h) /\
    same_entries r r1 /\ idx_wf r1 /\ r_nextId r1 = next_after (r_nextId r) o wantId /\
    (res = flagcxSuccess -> r_lid r1 = lid_after (r_nextId r) o (r_lid r) addr /\
       key_sorted id_mrId (r_lid r1) /\ out = out_id (r_nextId r) o wantId) /\
    (res <> flagcxSuccess -> r_lid r1 = r_lid r /\ out = None /\ b = FLAGCX_MR_OWNER_P2P) /\
    (match o with
     | ObjP2p p => okI = true /\ (p2p_mrId p = 0 \/ r_nextId r <= p2p_mrId p)
     | _ => True
     end -> res = flagcxSuccess).
Proof.
  intros Hwf Hcap Hs Hn Hnext Ho Hk. unfold mr_attach.
  destruct o as [p|p|p]; cbn in Hk.
  - destruct Hk as [-> Hp]. cbn. unfold load_p2p. rewrite Ho. cbn.
    set (id := assigned_id (r_nextId r) p).
    assert ((if p2p_mrId p =? 0 then (r_nextId r +u64 1, set_mrId p (r_nextId r)) else (r_nextId r, p))
      = (if p2p_mrId p =? 0 then r_nextId r + 1 else r_nextId r, set_mrId p id)) as ->.
    { unfold id, assigned_id. case_test; [by wrap_small|by rewrite set_mrId_same]. }
    assert (Hid : 0 < id < U64_MAX) by (unfold id, assigned_id; case_test; lia).
    cbn.
    assert ((if (if p2p_mrId p =? 0 then r_nextId r + 1 else r_nextId r) <=? id then id +u64 1
             else if p2p_mrId p =? 0 then r_nextId r + 1 else r_nextId r) = Z.max (r_nextId r) (id + 1)) as ->.
    { wrap_small. unfold id, assigned_id. repeat case_test; lia. }
    set (r0 := r_setNextId r (Z.max (r_nextId r) (id + 1))).
    destruct (idIndexAppend_spec okI junkI r0 id addr) as (res & r1 & -> & Hse & Hwf1 & Hn1 & Hok & Hbad & Hconv);
      [done..|].
    cbn. destruct (decide (res = flagcxSuccess)) as [->|Hne].
    + rewrite bool_decide_true by done.
      eexists _, _, _. split; [done|]. destruct (Hok eq_refl) as [Hlid HF].
      and_split. intros _. rewrite Hlid. and_split.
      by apply (key_sorted_snoc _ id).
    + rewrite bool_decide_false by done. specialize (Hbad Hne). subst r1.
      eexists _, _, _. split; [done|]. and_split.
      intros [-> Hid0]. apply Hconv; [done|].
      eapply Forall_impl; [exact Hn|]. cbn. unfold id, assigned_id. case_test; lia.
  - subst b. cbn. rewrite insert_id by done.
    destruct wantId; cbn; eexists _, _, _; (split; [done|]); and_split; cbn; by wrap_small.
  - subst b. cbn. rewrite insert_id by done.
    destruct wantId; cbn; eexists _, _, _; (split; [done|]); and_split; cbn; by wrap_small.
Qed.

(** Taking an object away from the heap (or handing it back) does not matter
    to entries that do not own it. *)
Lemma mr_core_delete live lid n h p :
  p ∉ owned live -> mr_core live lid n h -> mr_core live lid n (delete p h).
Proof.
  intros Hp Hc. apply mr_core_heap with h; [|by rewrite lookup_delete_None; right; apply Hc|done].
  intros q Hq. apply lookup_delete_ne. by intros ->.
Qed.

Lemma mr_core_insert live lid n h p o :
  p ∉ owned live -> p <> 0 -> mr_core live lid n h -> mr_core live lid n (<[p := o]> h).
Proof.
  intros Hp Hp0 Hc. apply mr_core_heap with h; [|by rewrite lookup_insert_ne; [apply Hc|]|done].
  intros q Hq. apply lookup_insert_ne. by intros ->.
Qed.

(** The bit of an owner that is present. *)
Lemma mask_restore k b :
  0 <= k < 8 -> owner_bit b -> Z.land k b <> 0 -> Z.lor (Z.land k (Z.lnot b)) b = k.
Proof.
  intros Hk H.
  assert (k = 0 \/ k = 1 \/ k = 2 \/ k = 3 \/ k = 4 \/ k = 5 \/ k = 6 \/ k = 7) as Hc by lia.
  owner_cases H; destruct_or! Hc; subst k; by_deciding.
Qed.

Lemma e_own_disown e b p :
  0 <= e_ownerMask e < 8 -> owner_bit b -> Z.land (e_ownerMask e) b <> 0 ->
  e_own (e_disown e b) b p = e_setExt e b p.
Proof.
  intros Hm Hb Hbit.
  destruct (e_disown_fields e b) as (_ & _ & Hk & _). unfold e_own. rewrite Hk, mask_restore by done.
  owner_cases Hb; unfold e_disown, e_setExt, e_setMask; cbn; done.
Qed.

(** The live object of an owner that is present, and the index without its
    entry. *)
Lemma mr_core_owner e live lid n h b :
  owner_bit b -> mr_core (e :: live) lid n h -> Z.land (e_ownerMask e) b <> 0 ->
  exists o, e_ext e b <> 0 /\ h !! e_ext e b = Some o /\ obj_of_bit b o /\
    match o with
    | ObjP2p q => exists l1 l2, lid = l1 ++ MkMrIdEntry (p2p_mrId q) (e_baseAddr e) :: l2 /\
                    e_ext e b = e_p2p e
    | _ => True
    end.
Proof.
  intros Hb Hc Hbit. destruct (mr_core_cons_inv _ _ _ _ _ Hc) as ((_ & _ & _ & Hbits) & _).
  destruct (Hbits b Hb) as [Hz Hx]. assert (e_ext e b <> 0) as Hne by tauto.
  destruct (Hx Hne) as (o & Ho & Hob). exists o. and_split.
  destruct o as [q|q|q]; [|done..]. destruct Hob as [-> Hq]. cbn in *.
  assert (MkMrIdEntry (p2p_mrId q) (e_baseAddr e) ∈ lid) as [l1 [l2 Hl]]%list_elem_of_split.
  { rewrite (c_index _ _ _ _ Hc). cbn. rewrite (id_of_p2p h e q) by done. by constructor. }
  by exists l1, l2.
Qed.

(** Removing an owner from an entry, in terms of the index. *)
Lemma mr_core_remove_owner e live lid n h b :
  owner_bit b -> mr_core (e :: live) lid n h -> Z.land (e_ownerMask e) b <> 0 ->
  exists o lid', e_ext e b <> 0 /\ h !! e_ext e b = Some o /\ obj_of_bit b o /\
    match o with
    | ObjP2p q => exists l1 l2, lid = l1 ++ MkMrIdEntry (p2p_mrId q) (e_baseAddr e) :: l2 /\
                    lid' = l1 ++ l2
    | _ => lid' = lid
    end /\
    mr_core (e_disown e b :: live) lid' n h /\ e_ext e b ∉ owned (e_disown e b :: live).
Proof.
  intros Hb Hc Hbit. destruct (mr_core_owner _ _ _ _ _ _ Hb Hc Hbit) as (o & Hne & Ho & Hob & Hix).
  exists o. destruct o as [q|q|q].
  - destruct Hix as (l1 & l2 & Hl & _). exists (l1 ++ l2). and_split; [eauto| |];
      apply (mr_core_disown e live lid (l1 ++ l2) n h b (ObjP2p q)); try done.
    + apply (key_sorted_remove l1 l2 (MkMrIdEntry (p2p_mrId q) (e_baseAddr e))). rewrite <-Hl. apply Hc.
    + by rewrite Hl, Permutation_middle.
    + apply (key_sorted_remove l1 l2 (MkMrIdEntry (p2p_mrId q) (e_baseAddr e))). rewrite <-Hl. apply Hc.
    + by rewrite Hl, Permutation_middle.
  - exists lid. and_split; apply (mr_core_disown e live lid lid n h b (ObjColl q)); try done; apply Hc.
  - exists lid. and_split; apply (mr_core_disown e live lid lid n h b (ObjRma q)); try done; apply Hc.
Qed.

(** The replacement keeps the id: a conflicting preset id is refused. *)
Definition id_conflict (h : mr_heap) (e : flagcxMrEntry) (ext : Z) : Prop :=
  exists p q, h !! ext = Some (ObjP2p p) /\ h !! e_p2p e = Some (ObjP2p q) /\
    p2p_mrId p <> 0 /\ p2p_mrId p <> p2p_mrId q.

Lemma mr_core_swap_owner e live lid n h b ext o o' :
  owner_bit b -> mr_core (e :: live) lid n h -> Z.land (e_ownerMask e) b <> 0 ->
  ext <> 0 -> ext ∉ owned (e :: live) -> h !! e_ext e b = Some o -> obj_of_bit b o' ->
  match o, o' with
  | ObjP2p q, ObjP2p p => p2p_mrId p = p2p_mrId q
  | _, _ => True
  end ->
  mr_core (e_setExt e b ext :: live) lid n (<[ext := o']> (delete (e_ext e b) h)).
Proof.
  intros Hb Hc Hbit Hext Hfresh Ho Hob' Hid.
  assert (Hm : 0 <= e_ownerMask e < 8).
  { destruct (mr_core_cons_inv _ _ _ _ _ Hc) as ((_ & _ & Hm & _) & _). done. }
  destruct (mr_core_remove_owner e live lid n h b Hb Hc Hbit) as (o1 & lid' & Hne & Ho1 & Hob & Hlid & Hc' & Hnot).
  simplify_eq.
  assert (Hfresh' : ext ∉ owned (e_disown e b :: live)).
  { intros Hin. apply Hfresh. rewrite owned_cons in *.
    destruct (e_disown_fields e b) as (_ & _ & _ & _ & _ & Hp). rewrite Hp in Hin.
    rewrite (e_ptrs_setExt_clear e b) by done. set_solver. }
  rewrite <-e_own_disown by done.
  apply (mr_core_own (e_disown e b) live lid' lid n n _ b ext o'); try done.
  - apply mr_core_insert; [done..|]. by apply mr_core_delete.
  - destruct (e_disown_fields e b) as (_ & _ & _ & _ & Hx & _). by rewrite Hx, e_ext_setExt_eq.
  - by rewrite lookup_insert_eq.
  - apply Hc.
  - apply Hc.
  - destruct o as [q|q|q], o' as [p|p|p]; cbn in Hob, Hob'; try lia; try done.
    destruct Hlid as (l1 & l2 & -> & ->).
    destruct (e_disown_fields e b) as (-> & _). by rewrite Hid, Permutation_middle.
Qed.

Lemma mr_replaceExt_spec e live lid n h b ext :
  owner_bit b -> mr_core (e :: live) lid n h -> Z.land (e_ownerMask e) b <> 0 ->
  ext = 0 \/ ext_given (e :: live) h b ext ->
  exists ok e2 h2, mr_replaceExt h e b ext = Some (ok, e2, h2) /\
    mr_core (e2 :: live) lid n h2 /\
    e2 = (if ok && negb (ext =? 0) then e_setExt e b ext else e) /\
    (ok = false <-> b = FLAGCX_MR_OWNER_P2P /\ ext <> 0 /\ id_conflict h e ext) /\
    (ok = false -> h2 = h).
Proof.
  intros Hb Hc Hbit Hext. unfold mr_replaceExt.
  destruct (Z.eqb_spec ext 0) as [Hz|Hz].
  { exists true, e, h. and_split. }
  destruct Hext as [?|(_ & Hfresh & o & Ho & Hk)]; [done|].
  destruct (mr_core_owner _ _ _ _ _ _ Hb Hc Hbit) as (o0 & Hne & Ho0 & Hob0 & _).
  assert (Hpe : ext <> e_ext e b).
  { intros ->. apply Hfresh. rewrite owned_cons. apply elem_of_app. left. apply elem_of_e_ptrs. eauto. }
  assert (Hfree : mr_free h (e_ext e b) = Some (delete (e_ext e b) h)).
  { unfold mr_free. destruct (Z.eqb_spec (e_ext e b) 0); [done|]. by rewrite Ho0. }
  assert (Hcs := fun o' => mr_core_swap_owner e live lid n h b ext o0 o' Hb Hc Hbit Hz Hfresh Ho0).
  destruct (Z.eqb_spec b FLAGCX_MR_OWNER_P2P) as [->|Hb1].
  - destruct o as [p|p|p]; cbn in Hk; [|done..]. destruct o0 as [q|q|q]; cbn in Hob0; [|done..].
    change (e_ext e 1) with (e_p2p e) in *. destruct (Z.eqb_spec (e_p2p e) 0); [done|].
    assert (load_p2p h (e_p2p e) = Some q) as -> by (unfold load_p2p; by rewrite Ho0).
    assert (load_p2p h ext = Some p) as -> by (unfold load_p2p; by rewrite Ho). cbn.
    case_test.
    { exists false, e, h. and_split. unfold id_conflict. split; [|done]. intros _. and_split. eauto 10. }
    rewrite Hfree. cbn. unfold load_p2p. rewrite lookup_delete_ne, Ho by done. cbn.
    eexists true, _, _. split; [done|]. cbn. and_split.
    + assert ((if p2p_mrId p =? 0 then <[ext := ObjP2p (set_mrId p (p2p_mrId q))]> (delete (e_p2p e) h)
               else delete (e_p2p e) h) = <[ext := ObjP2p (set_mrId p (p2p_mrId q))]> (delete (e_p2p e) h)) as ->.
      { case_test; [done|]. rewrite insert_id; [done|]. rewrite lookup_delete_ne, Ho by done.
        replace (p2p_mrId q) with (p2p_mrId p) by lia. by rewrite set_mrId_same. }
      apply Hcs; cbn; [intuition|done].
    + split; [done|]. intros (_ & _ & p' & q' & ? & ? & ? & ?). simplify_eq. lia.
  - rewrite Hfree. cbn. eexists true, _, _. split; [done|]. cbn. and_split.
    rewrite <-(insert_id (delete (e_ext e b) h) ext o) by (by rewrite lookup_delete_ne).
    apply Hcs; destruct o, o0; cbn in *; try done; try lia.
Qed.

(** ** The sorted array *)

Lemma mr_live_sorted live h :
  Forall (entry_ok h) live -> StronglySorted mr_before live -> key_sorted e_baseAddr live.
Proof.
  intros Hok. apply StronglySorted_weaken. intros x y Hx _ Hb. rewrite Forall_forall in Hok.
  destruct (Hok x Hx) as ((_ & ? & _) & _). unfold mr_before in Hb. lia.
Qed.

(** A range that leaves its neighbours alone leaves all entries alone. *)
Lemma mr_order_insert h l1 l2 e :
  Forall (entry_ok h) (l1 ++ l2) -> StronglySorted mr_before (l1 ++ l2) ->
  (forall l, last l1 = Some l -> mr_before l e) ->
  (forall r, head l2 = Some r -> mr_before e r) ->
  StronglySorted mr_before (l1 ++ e :: l2).
Proof.
  intros Hok Hs Hl Hr. apply Forall_app in Hok as [Hok1 Hok2].
  apply StronglySorted_app_inv in Hs as (Hs1 & Hs2 & Hx).
  rewrite Forall_forall in Hok1, Hok2.
  assert (Hall2 : forall x, x ∈ l2 -> mr_before e x).
  { destruct l2 as [|r l2]; [set_solver|]. specialize (Hr r eq_refl).
    inversion Hs2 as [|? ? _ HF]; subst. rewrite Forall_forall in HF.
    intros x [->|Hin]%elem_of_cons; [done|]. specialize (HF x Hin).
    destruct (Hok2 r ltac:(set_solver)) as ((_ & ? & _) & _). unfold mr_before in *. lia. }
  assert (Hall1 : forall x, x ∈ l1 -> mr_before x e).
  { destruct l1 as [|l l1 _] using rev_ind; [set_solver|]. specialize (Hl l ltac:(by rewrite last_snoc)).
    apply StronglySorted_app_inv in Hs1 as (_ & _ & HF).
    intros x [Hin| ->%list_elem_of_singleton]%elem_of_app; [|done].
    specialize (HF x l Hin ltac:(set_solver)).
    destruct (Hok1 l ltac:(set_solver)) as ((_ & ? & _) & _). unfold mr_before in *. lia. }
  apply StronglySorted_app_inv. split; [done|]. split.
  - constructor; [done|]. by apply Forall_forall.
  - intros x y Hx1 [->|Hy]%elem_of_cons; auto.
Qed.

(** Replacing an entry by one with the same range keeps the order. *)
Lemma mr_order_replace l1 e e' l2 :
  e_baseAddr e' = e_baseAddr e -> e_size e' = e_size e ->
  StronglySorted mr_before (l1 ++ e :: l2) -> StronglySorted mr_before (l1 ++ e' :: l2).
Proof.
  intros Hb Hs. rewrite !StronglySorted_app_inv. intros (? & Hs2 & Hx).
  inversion Hs2 as [|? ? ? HF]; subst. split; [done|]. split.
  - constructor; [done|]. rewrite Forall_forall in *. intros y Hy. specialize (HF y Hy).
    unfold mr_before in *. lia.
  - intros x y Hx1 Hy. specialize (Hx x). apply elem_of_cons in Hy as [->|Hy]; [|set_solver].
    specialize (Hx e Hx1 ltac:(set_solver)). unfold mr_before in *. lia.
Qed.

Lemma mr_order_remove l1 e l2 :
  StronglySorted mr_before (l1 ++ e :: l2) -> StronglySorted mr_before (l1 ++ l2).
Proof.
  rewrite !StronglySorted_app_inv. intros (? & Hs & Hx). inversion Hs; subst.
  split; [done|]. split; [done|]. set_solver.
Qed.

Lemma length_r_live r h : mr_wf r h -> length (r_live r) = Z.to_nat (r_count r).
Proof. intros Hw. pose proof (w_count _ _ Hw). pose proof (w_cap _ _ Hw).
  unfold r_live. rewrite length_take. lia. Qed.

Lemma w_live_sorted r h : mr_wf r h -> key_sorted e_baseAddr (r_live r).
Proof. intros Hw. apply mr_live_sorted with h; [apply (w_core _ _ Hw)|apply (w_order _ _ Hw)]. Qed.

(** The exact search splits the live entries around the entry. *)
Lemma bsearchExact_spec r h addr :
  mr_wf r h ->
  (exists l1 e l2, r_live r = l1 ++ e :: l2 /\ e_baseAddr e = addr /\
     bsearchExact (r_entries r) (r_count r) addr = Some (Z.of_nat (length l1))) \/
  (bsearchExact (r_entries r) (r_count r) addr = Some (-1) /\
   forall x, x ∈ r_live r -> e_baseAddr x <> addr).
Proof.
  intros Hw. pose proof (w_count _ _ Hw). pose proof (w_cap _ _ Hw).
  destruct (bsearch_exact_spec e_baseAddr (r_entries r) (Z.to_nat (r_count r)) addr)
    as [(p & x & Hp & Hx & Hk)|[Hp Hk]]; [lia|by apply (w_live_sorted _ h)| |];
    rewrite Z2Nat.id in Hp by lia.
  - left. apply list_elem_of_split_length in Hx as (l1 & l2 & Heq & ->). exists l1, x, l2. done.
  - right. done.
Qed.

Lemma findInsertionPoint_spec r h addr :
  mr_wf r h ->
  exists l1 l2, r_live r = l1 ++ l2 /\
    findInsertionPoint (r_entries r) (r_count r) addr = Some (Z.of_nat (length l1)) /\
    Forall (fun x => e_baseAddr x < addr) l1 /\ Forall (fun x => addr <= e_baseAddr x) l2.
Proof.
  intros Hw. pose proof (w_count _ _ Hw). pose proof (w_cap _ _ Hw).
  destruct (bsearch_insertion_spec e_baseAddr (r_entries r) (Z.to_nat (r_count r)) addr)
    as (p & Hp & Hsp); [lia|by apply (w_live_sorted _ h)|].
  apply splits_at_app in Hsp as (l1 & l2 & Heq & <- & H1 & H2).
  rewrite Z2Nat.id in Hp by lia. exists l1, l2. done.
Qed.

(** The entry with a given base address is unique. *)
Lemma live_base_unique r h l1 e l2 :
  mr_wf r h -> r_live r = l1 ++ e :: l2 ->
  forall x, x ∈ r_live r -> e_baseAddr x = e_baseAddr e -> x = e.
Proof.
  intros Hw Hl x [i Hi]%list_elem_of_lookup Hb. pose proof (w_live_sorted _ _ Hw) as Hs.
  assert (r_live r !! length l1 = Some e) as He by (rewrite Hl, lookup_app_r, Nat.sub_diag by lia; done).
  rewrite (key_sorted_inj e_baseAddr _ _ _ _ _ Hs Hi He Hb) in Hi. congruence.
Qed.

(** Rebuilding the invariant. *)
Lemma mr_wf_core r h : mr_wf r h -> mr_core (r_live r) (r_lid r) (r_nextId r) h.
Proof. apply w_core. Qed.

Lemma mr_wf_idx r h : mr_wf r h -> idx_wf r.
Proof. intros []. by split. Qed.

Lemma mr_core_middle l1 e l2 lid n h :
  mr_core (l1 ++ e :: l2) lid n h <-> mr_core (e :: l1 ++ l2) lid n h.
Proof. by rewrite Permutation_middle. Qed.

(** ** Registering on an existing entry *)

(** What the caller of [flagcxMrRegistryRegister] guarantees: machine words, an
    extension object the registry does not own yet, and counters that are not
    about to overflow. *)
Record mr_contract (r : flagcxMrRegistry) (h : mr_heap) (addr size b ext : Z) : Prop := {
  k_addr : is_u64 addr;
  k_size : is_u64 size;
  k_ext : owner_bit b -> ext = 0 \/ ext_given (r_live r) h b ext;
  k_next : r_nextId r < U64_MAX;
  k_cap : r_capacity r * 2 <= INT_MAX;
  k_idCap : r_idCapacity r * 2 <= INT_MAX
}.

Lemma ownerBitToIdx_inj b b' :
  owner_bit b -> owner_bit b' -> ownerBitToIdx b = ownerBitToIdx b' -> b = b'.
Proof. intros H H'. owner_cases H; owner_cases H'; done. Qed.

Lemma ownerBitToIdx_range b : owner_bit b -> 0 <= ownerBitToIdx b < 3.
Proof. intros H. split; [by apply ownerBitToIdx_nonneg|apply ownerBitToIdx_lt]. Qed.

Lemma owner_bit_mask b : owner_bit b -> 0 <= b < 8 /\ Z.land b b <> 0.
Proof. intros H. owner_cases H; by_deciding. Qed.

(** Setting the handle of a present owner, or clearing one. *)
Lemma handles_ok_set e k b v :
  length (e_mhandles e) = 3%nat -> owner_bit b -> handles_ok e ->
  (forall b', owner_bit b' -> b' <> b -> Z.land k b' = 0 -> Z.land (e_ownerMask e) b' = 0) ->
  (Z.land k b = 0 -> v = 0) ->
  forall e', e_ownerMask e' = k ->
  e_mhandles e' = <[Z.to_nat (ownerBitToIdx b) := v]> (e_mhandles e) -> handles_ok e'.
Proof.
  intros Hl Hb Hh Hk Hv e' Hm He b' Hb' Hz. rewrite Hm in Hz. rewrite He.
  pose proof (ownerBitToIdx_range b Hb). pose proof (ownerBitToIdx_range b' Hb').
  destruct (decide (b' = b)) as [->|Hne].
  - rewrite list_lookup_insert_eq by lia. by rewrite Hv.
  - rewrite list_lookup_insert_ne; [apply Hh; auto|].
    intros Heq. apply Hne, ownerBitToIdx_inj; [done..|lia].
Qed.

Lemma lor_clear k b :
  0 <= k < 8 -> owner_bit b -> Z.land k b = 0 -> Z.land (Z.lor k b) (Z.lnot b) = k.
Proof.
  intros Hk H.
  assert (k = 0 \/ k = 1 \/ k = 2 \/ k = 3 \/ k = 4 \/ k = 5 \/ k = 6 \/ k = 7) as Hc by lia.
  owner_cases H; destruct_or! Hc; subst k; by_deciding.
Qed.

Lemma lor_neq_0 k b : 0 <= k < 8 -> owner_bit b -> Z.lor k b <> 0.
Proof.
  intros Hk Hb. destruct (mask_lor_bit k b b Hk Hb Hb) as [_ H]. intros Hz.
  rewrite Hz in H. cbn in H. by destruct H as [[] _].
Qed.

(** The entry a successful registration leaves. *)
Definition e_registered (e : flagcxMrEntry) (b mhandle ext : Z) : flagcxMrEntry :=
  e_setHandle (e_own e b ext) (ownerBitToIdx b) mhandle.

Lemma e_setExt_registered e b mhandle ext :
  owner_bit b ->
  e_setExt (e_setHandle (e_setMask e (Z.lor (e_ownerMask e) b)) (ownerBitToIdx b) mhandle) b ext =
  e_registered e b mhandle ext.
Proof. intros Hb. owner_cases Hb; done. Qed.

Lemma e_rolled_back e b mhandle :
  owner_bit b -> 0 <= e_ownerMask e < 8 -> Z.land (e_ownerMask e) b = 0 ->
  e_ext e b = 0 -> e_mhandles e !! Z.to_nat (ownerBitToIdx b) = Some 0 ->
  let e1 := e_setHandle (e_setMask e (Z.lor (e_ownerMask e) b)) (ownerBitToIdx b) mhandle in
  e_setHandle (e_setMask (e_setExt e1 b 0) (Z.land (e_ownerMask e1) (Z.lnot b)))
    (ownerBitToIdx b) 0 = e.
Proof.
  intros Hb Hm Hz He Hh e1.
  assert (Hmask : e_ownerMask (e_setMask (e_setExt e1 b 0) (Z.land (e_ownerMask e1) (Z.lnot b)))
    = e_ownerMask e) by (by apply lor_clear).
  assert (Hhs : <[Z.to_nat (ownerBitToIdx b) := 0]>
     (<[Z.to_nat (ownerBitToIdx b) := mhandle]> (e_mhandles e)) = e_mhandles e).
  { rewrite list_insert_insert_eq. by apply list_insert_id. }
  destruct e as [base sz dev pt mask hs p c rm]. cbn in *.
  owner_cases Hb; cbn in *; unfold e_setHandle, e_setMask, e_setExt; cbn in *; congruence.
Qed.

(** The entry after a registration by an owner that already holds it. *)
Definition e_updated (e : flagcxMrEntry) (b mhandle ext : Z) : flagcxMrEntry :=
  let e1 := if mhandle =? 0 then e else e_setHandle e (ownerBitToIdx b) mhandle in
  if ext =? 0 then e1 else e_setExt e1 b ext.

(** The id under which owner [b] knows the entry, or 0. *)
Definition known_id (h : mr_heap) (e : flagcxMrEntry) (b : Z) : Z :=
  if b =? FLAGCX_MR_OWNER_P2P then from_option id_mrId 0 (id_of h e) else 0.

(** Replacing the live entries one for one. *)
Lemma mr_wf_replace r h r' h' l1 e e' l2 :
  mr_wf r h -> r_live r = l1 ++ e :: l2 ->
  r_count r' = r_count r -> r_capacity r' = r_capacity r ->
  length (r_entries r') = length (r_entries r) -> idx_wf r' ->
  r_live r' = l1 ++ e' :: l2 -> e_baseAddr e' = e_baseAddr e -> e_size e' = e_size e ->
  e_ownerMask e' <> 0 -> handles_ok e' ->
  mr_core (e' :: l1 ++ l2) (r_lid r') (r_nextId r') h' -> 0 < r_nextId r' < U64_MOD ->
  mr_wf r' h'.
Proof.
  intros Hw Hl Hcnt Hcap Hlen [? ?] Hl' Hb Hs Hm Hh Hc Hn.
  destruct Hw as [w1 w2 w3 w4 w5 w6 w7 w8 w9].
  constructor; rewrite ?Hcnt, ?Hcap, ?Hlen; try done.
  - rewrite Hl in w5. rewrite Hl'. by eapply mr_order_replace.
  - rewrite Hl in w6. rewrite Hl'. rewrite Forall_app, Forall_cons in *. tauto.
  - rewrite Hl'. by apply mr_core_middle.
  - rewrite Hl in w8. rewrite Hl'. rewrite Forall_app, Forall_cons in *. tauto.
Qed.

(** Writing entry [i] back. *)
Lemma mr_write_back r rx l1 e l2 e' :
  r_live r = l1 ++ e :: l2 -> same_entries r rx ->
  exists es, arr_set (r_entries rx) (Z.of_nat (length l1)) e' = Some es /\
    length es = length (r_entries r) /\
    r_live (r_setEntries rx es (r_count rx)) = l1 ++ e' :: l2.
Proof.
  intros Hl (He & Hc & _). rewrite He.
  destruct (arr_set_live (r_entries r) (Z.to_nat (r_count r)) l1 e l2 e' Hl) as (es & Hs & Hlen & Ht).
  exists es. and_split. unfold r_live; cbn. by rewrite Hc.
Qed.

Definition existing_entry (e : flagcxMrEntry) (b mhandle ext : Z) : flagcxMrEntry :=
  if Z.land (e_ownerMask e) b =? 0 then e_registered e b mhandle ext
  else e_updated e b mhandle ext.

Lemma mr_entry_facts r h l1 e l2 :
  mr_wf r h -> r_live r = l1 ++ e :: l2 ->
  entry_ok h e /\ e_ownerMask e <> 0 /\ handles_ok e /\
  mr_core (e :: l1 ++ l2) (r_lid r) (r_nextId r) h.
Proof.
  intros Hw Hl. pose proof (w_core _ _ Hw) as Hc. pose proof (w_masks _ _ Hw) as Hm.
  pose proof (w_handles _ _ Hw) as Hh. rewrite Hl in *.
  rewrite Forall_app, Forall_cons in *. apply mr_core_middle in Hc.
  destruct (mr_core_cons_inv _ _ _ _ _ Hc). tauto.
Qed.

Lemma e_ext_setHandle e i v b : e_ext (e_setHandle e i v) b = e_ext e b.
Proof. done. Qed.

(** Writing a handle does not matter to the rest of the invariant. *)
Lemma mr_core_setHandle e i v live lid n h :
  mr_core (e :: live) lid n h -> mr_core (e_setHandle e i v :: live) lid n h.
Proof. apply mr_core_same_shape, same_shape_setHandle. Qed.

Lemma setHandle_same e i v :
  e_mhandles e !! Z.to_nat i = Some v -> e_setHandle e i v = e.
Proof. intros H. destruct e; unfold e_setHandle; cbn in *. by rewrite list_insert_id. Qed.

Lemma ext_given_perm live live' h b ext :
  live ≡ₚ live' -> ext_given live h b ext -> ext_given live' h b ext.
Proof. intros Hp (? & Hn & ?). split; [done|]. split; [|done]. unfold owned in *. by rewrite <-Hp. Qed.

(** The handle update of an owner that is present. *)
Definition e_rehandled (e : flagcxMrEntry) (b mhandle : Z) : flagcxMrEntry :=
  if mhandle =? 0 then e else e_setHandle e (ownerBitToIdx b) mhandle.

Lemma e_rehandled_fields e b mhandle :
  e_baseAddr (e_rehandled e b mhandle) = e_baseAddr e /\
  e_size (e_rehandled e b mhandle) = e_size e /\
  e_ownerMask (e_rehandled e b mhandle) = e_ownerMask e /\
  e_p2p (e_rehandled e b mhandle) = e_p2p e /\
  e_ptrs (e_rehandled e b mhandle) = e_ptrs e /\
  (forall b', e_ext (e_rehandled e b mhandle) b' = e_ext e b').
Proof. unfold e_rehandled. case_test; done. Qed.

Lemma mr_core_rehandled e b mhandle live lid n h :
  mr_core (e :: live) lid n h -> mr_core (e_rehandled e b mhandle :: live) lid n h.
Proof. unfold e_rehandled. case_test; [done|apply mr_core_setHandle]. Qed.

Lemma handles_ok_rehandled e b mhandle :
  length (e_mhandles e) = 3%nat -> owner_bit b -> Z.land (e_ownerMask e) b <> 0 ->
  handles_ok e -> handles_ok (e_rehandled e b mhandle).
Proof.
  intros Hl Hb Hbit Hh. unfold e_rehandled. case_test; [done|].
  by eapply (handles_ok_set e (e_ownerMask e) b mhandle).
Qed.

Lemma handles_ok_setExt e b p : handles_ok e -> handles_ok (e_setExt e b p).
Proof.
  intros Hh b' Hb'. specialize (Hh b' Hb'). unfold e_setExt. repeat case_test; done.
Qed.

Lemma e_setExt_fields e b p :
  e_baseAddr (e_setExt e b p) = e_baseAddr e /\ e_size (e_setExt e b p) = e_size e /\
  e_ibDevN (e_setExt e b p) = e_ibDevN e /\ e_ptrType (e_setExt e b p) = e_ptrType e /\
  e_ownerMask (e_setExt e b p) = e_ownerMask e /\ e_mhandles (e_setExt e b p) = e_mhandles e.
Proof. unfold e_setExt. repeat case_test; done. Qed.

(** The id reported for an owner that is present. *)
Lemma mr_out_known h e live lid n b :
  owner_bit b -> mr_core (e :: live) lid n h -> Z.land (e_ownerMask e) b <> 0 ->
  exists id, (if (b =? FLAGCX_MR_OWNER_P2P) && negb (e_p2p e =? 0)
     then o ← load_p2p h (e_p2p e); Some (Some (p2p_mrId o))
     else Some (Some 0)) = Some (Some id) /\ known_id h e b = id.
Proof.
  intros Hb Hc Hbit. unfold known_id. destruct (Z.eqb_spec b FLAGCX_MR_OWNER_P2P) as [->|]; [|by exists 0].
  destruct (mr_core_owner e live lid n h 1 Hb Hc Hbit) as (o & Hne & Ho & Hob & _).
  change (e_ext e 1) with (e_p2p e) in *. destruct o as [q|q|q]; cbn in Hob; [|lia..].
  destruct (Z.eqb_spec (e_p2p e) 0); [done|]. cbn. unfold load_p2p. rewrite Ho. cbn.
  eexists. split; [done|]. by rewrite (id_of_p2p _ _ q).
Qed.

(** The owner already holds the entry. *)
Lemma mr_register_owned okI junkI r h l1 e l2 b mhandle ext wantId :
  mr_wf r h -> r_live r = l1 ++ e :: l2 -> owner_bit b ->
  ext = 0 \/ ext_given (r_live r) h b ext ->
  r_nextId r < U64_MAX -> Z.land (e_ownerMask e) b <> 0 ->
  exists res out r' h',
    mr_registerExisting okI junkI r h (Z.of_nat (length l1)) (e_baseAddr e) (e_size e)
      (e_ibDevN e) (e_ptrType e) b (ownerBitToIdx b) mhandle ext wantId
      = Some (res, out, r', h') /\
    mr_wf r' h' /\ r_lid r' = r_lid r /\ r_nextId r' = r_nextId r /\
    (res = flagcxSuccess \/ res = flagcxInternalError) /\
    (res = flagcxSuccess -> r_live r' = l1 ++ e_updated e b mhandle ext :: l2 /\
       out = if wantId then Some (known_id h' (e_updated e b mhandle ext) b) else None) /\
    (res <> flagcxSuccess -> r_live r' = l1 ++ e_rehandled e b mhandle :: l2 /\ h' = h /\ out = None) /\
    (res <> flagcxSuccess <-> b = FLAGCX_MR_OWNER_P2P /\ ext <> 0 /\ id_conflict h e ext).
Proof.
  intros Hw Hl Hb Hext Hnx Hbit.
  destruct (mr_entry_facts _ _ _ _ _ Hw Hl) as (Hok & Hm0 & Hh & Hc).
  pose proof Hok as (_ & Hlen & Hm & _). pose proof (ownerBitToIdx_range b Hb) as Hix.
  unfold mr_registerExisting. rewrite (arr_get_live _ _ _ _ _ Hl). cbn.
  rewrite !Z.eqb_refl. cbn. destruct (Z.eqb_spec (Z.land (e_ownerMask e) b) 0); [done|]. cbn.
  destruct (lookup_lt_is_Some_2 (e_mhandles e) (Z.to_nat (ownerBitToIdx b))) as [cur Hcur]; [lia|].
  rewrite Hcur. cbn.
  assert ((if negb (cur =? mhandle) && negb (mhandle =? 0) then e_setHandle e (ownerBitToIdx b) mhandle
           else e) = e_rehandled e b mhandle) as ->.
  { unfold e_rehandled. destruct (Z.eqb_spec mhandle 0); cbn; [by rewrite andb_false_r|].
    rewrite andb_true_r. destruct (Z.eqb_spec cur mhandle) as [->|]; cbn; [|done].
    by rewrite setHandle_same. }
  set (e1 := e_rehandled e b mhandle).
  destruct (e_rehandled_fields e b mhandle) as (Hbase & Hsz & Hmask & Hp2p & Hptrs & Hexts). fold e1 in Hbase, Hsz, Hmask, Hp2p, Hptrs, Hexts.
  assert (Hc1 : mr_core (e1 :: l1 ++ l2) (r_lid r) (r_nextId r) h) by by apply mr_core_rehandled.
  assert (Hh1 : handles_ok e1) by by apply handles_ok_rehandled.
  assert (Hext1 : ext = 0 \/ ext_given (e1 :: l1 ++ l2) h b ext).
  { destruct Hext as [|(? & Hno & ?)]; [by left|right]. split; [done|]. split; [|done].
    rewrite owned_cons, Hptrs, <-owned_cons. unfold owned in *. by rewrite Permutation_middle, <-Hl. }
  destruct (mr_replaceExt_spec e1 (l1 ++ l2) (r_lid r) (r_nextId r) h b ext Hb Hc1
    ltac:(by rewrite Hmask) Hext1) as (ok & e2 & h2 & -> & Hc2 & He2 & Hconf & Hh2). cbn.
  destruct (mr_write_back r r l1 e l2 e2 Hl (same_entries_refl r)) as (es & -> & Hles & Hlive). cbn.
  set (r2 := r_setEntries r es (r_count r)) in *.
  assert (He2s : e_baseAddr e2 = e_baseAddr e /\ e_size e2 = e_size e /\ e_ownerMask e2 = e_ownerMask e /\ handles_ok e2).
  { rewrite He2. destruct (ok && negb (ext =? 0)); [|done].
    destruct (e_setExt_fields e1 b ext) as (-> & -> & _ & _ & -> & _).
    and_split. by apply handles_ok_setExt. }
  destruct He2s as (Hb2 & Hs2 & Hm2 & Hho2).
  assert (Hw2 : mr_wf r2 h2).
  { eapply (mr_wf_replace r h r2 h2 l1 e e2 l2); try done; [by apply (mr_wf_idx r h)|by rewrite Hm2|].
    apply (w_next _ _ Hw). }
  assert (Hconf' : id_conflict h e1 ext <-> id_conflict h e ext) by (unfold id_conflict; by rewrite Hp2p).
  destruct ok; cbn.
  - assert (e2 = e_updated e b mhandle ext) as Heq.
    { rewrite He2. unfold e_updated. fold (e_rehandled e b mhandle). fold e1. cbn. by destruct (ext =? 0). }
    assert (Hsucc : forall out, out = (if wantId then Some (known_id h2 e2 b) else None) ->
      exists res out0 r' h', Some (flagcxSuccess, out, r2, h2) = Some (res, out0, r', h') /\
        mr_wf r' h' /\ r_lid r' = r_lid r /\ r_nextId r' = r_nextId r /\
        (res = flagcxSuccess \/ res = flagcxInternalError) /\
        (res = flagcxSuccess -> r_live r' = l1 ++ e_updated e b mhandle ext :: l2 /\
          out0 = if wantId then Some (known_id h' (e_updated e b mhandle ext) b) else None) /\
        (res <> flagcxSuccess -> r_live r' = l1 ++ e_rehandled e b mhandle :: l2 /\ h' = h /\ out0 = None) /\
        (res <> flagcxSuccess <-> b = FLAGCX_MR_OWNER_P2P /\ ext <> 0 /\ id_conflict h e ext)).
    { intros out Ho. eexists _, _, _, _. split; [done|]. rewrite <-Heq. and_split; [by left|].
      rewrite <-Hconf', <-Hconf. done. }
    destruct wantId; cbn; [|by apply Hsucc].
    destruct (mr_out_known h2 e2 (l1 ++ l2) (r_lid r) (r_nextId r) b Hb Hc2) as (id & -> & Hid);
      [by rewrite Hm2|]. cbn. apply Hsucc. by rewrite Hid.
  - eexists _, _, _, _. split; [done|]. cbn in He2. rewrite He2 in Hlive. and_split; [by right| |].
    + intros _. and_split. by apply Hh2.
    + rewrite <-Hconf', <-Hconf. done.
Qed.

(** ** Registering a new owner *)

(** When the id of a new owner can be indexed. *)
Definition id_fits (okI : bool) (n : Z) (o : mr_object) : Prop :=
  match o with
  | ObjP2p p => okI = true /\ (p2p_mrId p = 0 \/ n <= p2p_mrId p)
  | _ => True
  end.

(** The outcome of a registration that got as far as storing extension [o] at
    [ext], if the live entries become [live']. *)
Definition mr_attached (okI wantId : bool) (r : flagcxMrRegistry) (h : mr_heap)
    (addr b ext : Z) (o : mr_object) (live' : list flagcxMrEntry)
    (a : option mr_answer) : Prop :=
  exists res out r', a = Some (res, out, r', <[ext := attached (r_nextId r) o]> h) /\
    mr_wf r' (<[ext := attached (r_nextId r) o]> h) /\
    r_nextId r' = next_after (r_nextId r) o wantId /\
    (res = flagcxSuccess -> r_live r' = live' /\
       r_lid r' = lid_after (r_nextId r) o (r_lid r) addr /\ out = out_id (r_nextId r) o wantId) /\
    (res <> flagcxSuccess -> r_live r' = r_live r /\ r_lid r' = r_lid r /\ out = None /\
       b = FLAGCX_MR_OWNER_P2P) /\
    (id_fits okI (r_nextId r) o -> res = flagcxSuccess).

Lemma attached_bit b n o : 0 < n -> ext_kind b o -> obj_of_bit b (attached n o).
Proof.
  intros Hn Hk. destruct o; cbn in *; [|done..]. unfold assigned_id. split; [lia|].
  case_test; lia.
Qed.

Lemma lid_after_sorted n o lid b addr w :
  key_sorted id_mrId lid -> Forall (fun x => id_mrId x < n) lid ->
  key_sorted id_mrId (lid_after n o lid addr) -> ext_kind b o ->
  Forall (fun x => id_mrId x < next_after n o w) (lid_after n o lid addr).
Proof.
  intros Hs Hn Hs' Hk. destruct o; cbn in *.
  - apply Forall_app. split; [|repeat constructor; cbn; lia].
    eapply Forall_impl; [exact Hn|]. cbn. lia.
  - destruct w; [|done]. eapply Forall_impl; [exact Hn|]. cbn. lia.
  - destruct w; [|done]. eapply Forall_impl; [exact Hn|]. cbn. lia.
Qed.

(** The invariant after storing the extension of a new owner. *)
Lemma mr_core_attach e live lid n h b ext o addr w :
  mr_core (e :: live) lid n h -> owner_bit b -> e_ext e b = 0 -> 0 < n ->
  ext_given (e :: live) h b ext -> h !! ext = Some o -> ext_kind b o -> e_baseAddr e = addr ->
  key_sorted id_mrId (lid_after n o lid addr) ->
  mr_core (e_own e b ext :: live) (lid_after n o lid addr) (next_after n o w)
    (<[ext := attached n o]> h).
Proof.
  intros Hc Hb He Hn (Hz & Hfresh & _) Ho Hk Hbase Hs'.
  eapply (mr_core_own e live lid _ n); try done.
  - by apply mr_core_insert.
  - by rewrite lookup_insert_eq.
  - by apply attached_bit.
  - eapply lid_after_sorted; [apply Hc|apply Hc|done..].
  - destruct o; cbn in *; [|done..]. rewrite Hbase. by rewrite <-Permutation_cons_append.
Qed.

Lemma mr_core_next live lid n n' h : n <= n' -> mr_core live lid n h -> mr_core live lid n' h.
Proof.
  intros Hle []. constructor; try done. eapply Forall_impl; [done|]. cbn. lia.
Qed.

Lemma handles_ok_registered e b mhandle ext :
  length (e_mhandles e) = 3%nat -> 0 <= e_ownerMask e < 8 -> owner_bit b -> handles_ok e ->
  handles_ok (e_registered e b mhandle ext).
Proof.
  intros Hl Hm Hb Hh. destruct (e_own_fields e b ext) as (_ & _ & Hk & Hhs & _).
  eapply (handles_ok_set e (Z.lor (e_ownerMask e) b) b mhandle); try done.
  - intros b' Hb' Hne Hz. by apply (mask_lor_bit _ b b') in Hz as [_ ?].
  - intros Hz. by apply (mask_lor_bit _ b b) in Hz as [? _].
  - cbn. by rewrite Hhs.
Qed.

(** A new owner of an existing entry. *)
Lemma mr_register_join okI junkI r h l1 e l2 b mhandle ext wantId o :
  mr_wf r h -> r_live r = l1 ++ e :: l2 -> owner_bit b ->
  ext_given (r_live r) h b ext -> h !! ext = Some o -> ext_kind b o ->
  r_nextId r < U64_MAX -> r_idCapacity r * 2 <= INT_MAX -> Z.land (e_ownerMask e) b = 0 ->
  mr_attached okI wantId r h (e_baseAddr e) b ext o (l1 ++ e_registered e b mhandle ext :: l2)
    (mr_registerExisting okI junkI r h (Z.of_nat (length l1)) (e_baseAddr e) (e_size e)
      (e_ibDevN e) (e_ptrType e) b (ownerBitToIdx b) mhandle ext wantId).
Proof.
  intros Hw Hl Hb Hext Ho Hk Hnx Hcap Hbit.
  destruct (mr_entry_facts _ _ _ _ _ Hw Hl) as (Hok & Hm0 & Hh & Hc).
  pose proof Hok as (_ & Hlen & Hm & Hbits). destruct (Hbits b Hb) as [Hez _].
  assert (He : e_ext e b = 0) by tauto. pose proof (w_next _ _ Hw) as Hn0.
  assert (Hext' : ext_given (e :: l1 ++ l2) h b ext).
  { eapply ext_given_perm; [|done]. by rewrite Hl, Permutation_middle. }
  unfold mr_registerExisting. rewrite (arr_get_live _ _ _ _ _ Hl). cbn -[e_own].
  rewrite !Z.eqb_refl, Hbit. cbn.
  destruct (Z.eqb_spec ext 0) as [|Hz]; [by destruct Hext|].
  destruct (mr_attach_spec okI junkI r h (e_baseAddr e) b ext wantId o) as
    (res & out & r1 & -> & Hse & Hidx & Hnext & Hsucc & Hfail & Hconv); try done.
  { by apply (mr_wf_idx r h). }
  { apply Hc. } { apply Hc. } { lia. }
  pose proof (next_after_bounds (r_nextId r) o b wantId ltac:(lia) Hk) as Hnb.
  pose proof Hse as (_ & Hcnt & Hrc). cbn.
  destruct (decide (res = flagcxSuccess)) as [->|Hne].
  - rewrite bool_decide_true by done. destruct (Hsucc eq_refl) as (Hlid & Hs' & ->).
    rewrite e_setExt_registered by done.
    destruct (mr_write_back r r1 l1 e l2 (e_registered e b mhandle ext) Hl Hse) as (es & -> & Hes & Hlive).
    cbn. eexists _, _, _. split; [done|].
    destruct (e_own_fields e b ext) as (Hfb & Hfs & Hfm & _).
    and_split. eapply (mr_wf_replace r h _ _ l1 e (e_registered e b mhandle ext) l2); try done.
    + cbn. by rewrite Hfm; apply lor_neq_0.
    + by apply handles_ok_registered.
    + cbn. change (r_lid (r_setEntries r1 es (r_count r1))) with (r_lid r1).
      rewrite Hnext, Hlid. rewrite Hlid in Hs'. apply mr_core_setHandle. apply mr_core_attach; try done. lia.
    + cbn. lia.
  - rewrite bool_decide_false by done. destruct (Hfail Hne) as (Hlid & -> & ->).
    rewrite e_rolled_back by (done || apply Hh; done).
    destruct (mr_write_back r r1 l1 e l2 e Hl Hse) as (es & -> & Hes & Hlive).
    cbn. eexists _, _, _. split; [done|]. rewrite Hlive. and_split.
    eapply (mr_wf_replace r h _ _ l1 e e l2); try done; [|cbn; lia].
    cbn. change (r_lid (r_setEntries r1 es (r_count r1))) with (r_lid r1).
    rewrite Hnext, Hlid. apply mr_core_next with (r_nextId r); [lia|].
    destruct Hext' as (? & ? & _). by apply mr_core_insert.
Qed.

(** ** Inserting an entry *)

Lemma ensureCapacity_spec okE junkE r h :
  mr_wf r h -> r_capacity r * 2 <= INT_MAX ->
  exists res r1, ensureCapacity okE junkE r = Some (res, r1) /\
    (res <> flagcxSuccess -> res = flagcxSystemError /\ r1 = r) /\
    (okE = true -> res = flagcxSuccess) /\
    (res = flagcxSuccess -> mr_wf r1 h /\ r_count r1 = r_count r /\
       r_count r1 < r_capacity r1 /\ r_live r1 = r_live r /\ r_lid r1 = r_lid r /\
       r_nextId r1 = r_nextId r /\ r_idCapacity r1 = r_idCapacity r).
Proof.
  intros Hw Hcap. pose proof (w_count _ _ Hw) as Hc. pose proof (w_cap _ _ Hw) as Hl.
  unfold ensureCapacity. destruct (Z.ltb_spec (r_count r) (r_capacity r)).
  { eexists _, _. and_split. }
  assert (exists nc, grow_capacity (r_capacity r) MR_REGISTRY_INITIAL_CAPACITY = Some nc /\
            r_capacity r < nc) as (nc & -> & Hnc).
  { unfold grow_capacity. repeat case_test; try lia; eexists; (split; [done|]); lia. }
  cbn. destruct okE; [|eexists _, _; and_split].
  eexists _, _. split; [done|]. and_split. intros _.
  assert (Hlive : r_live (MkMrRegistry (realloc_arr junkE (r_entries r) nc) (r_count r) nc
      (r_nextId r) (r_idIndex r) (r_idCount r) (r_idCapacity r)) = r_live r).
  { unfold r_live; cbn. apply take_realloc_arr; lia. }
  destruct Hw. and_split; [|cbn; lia]. constructor; rewrite ?Hlive; cbn; try done; [lia|].
  apply length_realloc_arr. lia.
Qed.

(** Two ranges meet. *)
Definition mr_overlaps (addr size : Z) (e : flagcxMrEntry) : Prop :=
  e_baseAddr e < addr + size /\ addr < e_baseAddr e + e_size e.

#[export] Instance mr_overlaps_dec addr size e : Decision (mr_overlaps addr size e).
Proof. unfold mr_overlaps; apply _. Defined.

Definition new_entry (addr size ibDevN ptrType : Z) : flagcxMrEntry :=
  MkMrEntry addr size ibDevN ptrType 0 [0; 0; 0] 0 0 0.

Lemma new_entry_ok h addr size ibDevN ptrType :
  0 < addr -> 0 < size -> addr + size < U64_MOD ->
  entry_ok h (new_entry addr size ibDevN ptrType) /\ handles_ok (new_entry addr size ibDevN ptrType).
Proof.
  intros. split.
  - unfold entry_ok; cbn. and_split. intros b Hb. owner_cases Hb; cbn; done.
  - intros b Hb _. owner_cases Hb; done.
Qed.

Lemma new_entry_setExt addr size ibDevN ptrType b mhandle ext :
  owner_bit b ->
  e_setExt (e_setHandle (MkMrEntry addr size ibDevN ptrType b [0; 0; 0] 0 0 0)
    (ownerBitToIdx b) mhandle) b ext =
  e_registered (new_entry addr size ibDevN ptrType) b mhandle ext.
Proof. intros Hb. owner_cases Hb; done. Qed.

(** The neighbour tests decide whether the range meets any entry. *)
Lemma mr_neighbour_tests r h l1 l2 addr size :
  mr_wf r h -> r_live r = l1 ++ l2 ->
  Forall (fun x => e_baseAddr x < addr) l1 -> Forall (fun x => addr < e_baseAddr x) l2 ->
  0 < addr -> 0 < size -> addr + size < U64_MOD ->
  exists lo ro : bool,
    (if 0 <? Z.of_nat (length l1) then
       lent ← arr_get (r_entries r) (Z.of_nat (length l1) - 1);
       Some ((addr -u64 e_baseAddr lent) <? e_size lent)
     else Some false) = Some lo /\
    (if Z.of_nat (length l1) <? r_count r then
       rent ← arr_get (r_entries r) (Z.of_nat (length l1));
       Some ((e_baseAddr rent -u64 addr) <? size)
     else Some false) = Some ro /\
    (lo || ro = true <-> Exists (mr_overlaps addr size) (r_live r)) /\
    (lo || ro = false -> StronglySorted mr_before (l1 ++ new_entry addr size 0 0 :: l2)).
Proof.
  intros Hw Hl H1 H2 Ha Hs Hr. pose proof (length_r_live _ _ Hw) as Hlen. pose proof (w_count _ _ Hw) as Hcnt.
  pose proof (w_core _ _ Hw) as Hc. destruct Hc as [Hok _ _ _ _ _].
  pose proof (w_order _ _ Hw) as Hord. rewrite Hl in Hok, Hord, Hlen |- *. rewrite length_app in Hlen.
  rewrite Forall_forall in H1, H2.
  (* left *)
  assert (exists lo, (if 0 <? Z.of_nat (length l1) then
       lent ← arr_get (r_entries r) (Z.of_nat (length l1) - 1);
       Some ((addr -u64 e_baseAddr lent) <? e_size lent)
     else Some false) = Some lo /\
     (lo = false -> forall x, last l1 = Some x -> e_baseAddr x + e_size x <= addr) /\
     (lo = true -> exists x, x ∈ l1 /\ addr < e_baseAddr x + e_size x)) as (lo & -> & Hlo & Hlo').
  { destruct l1 as [|x l1 _] using rev_ind; [exists false; and_split|].
    rewrite length_app. cbn -[Z.of_nat]. destruct (Z.ltb_spec 0 (Z.of_nat (length l1 + 1))); [|lia].
    replace (Z.of_nat (length l1 + 1) - 1) with (Z.of_nat (length l1)) by lia.
    rewrite (arr_get_live _ (Z.to_nat (r_count r)) l1 x l2) by (unfold r_live in Hl; by rewrite Hl, <-app_assoc).
    cbn. specialize (H1 x ltac:(set_solver)). rewrite Forall_forall in Hok.
    destruct (Hok x ltac:(set_solver)) as ((? & ? & ?) & _). wrap_small.
    eexists. split; [done|]. split.
    - intros Hf%Z.ltb_ge y. rewrite last_snoc. intros [= <-]. lia.
    - intros Ht%Z.ltb_lt. exists x. split; [set_solver|lia]. }
  (* right *)
  assert (exists ro, (if Z.of_nat (length l1) <? r_count r then
       rent ← arr_get (r_entries r) (Z.of_nat (length l1));
       Some ((e_baseAddr rent -u64 addr) <? size)
     else Some false) = Some ro /\
     (ro = false -> forall x, head l2 = Some x -> addr + size <= e_baseAddr x) /\
     (ro = true -> exists x, x ∈ l2 /\ e_baseAddr x < addr + size)) as (ro & -> & Hro & Hro').
  { destruct l2 as [|x l2].
    - cbn in Hlen. destruct (Z.ltb_spec (Z.of_nat (length l1)) (r_count r)); [lia|]. exists false. and_split.
    - cbn in Hlen. destruct (Z.ltb_spec (Z.of_nat (length l1)) (r_count r)); [|lia].
      rewrite (arr_get_live _ (Z.to_nat (r_count r)) l1 x l2) by exact Hl.
      cbn. specialize (H2 x ltac:(set_solver)). rewrite Forall_forall in Hok.
      destruct (Hok x ltac:(set_solver)) as ((? & ? & ?) & _). wrap_small.
      eexists. split; [done|]. split.
      + intros Hf%Z.ltb_ge y. intros [= <-]. lia.
      + intros Ht%Z.ltb_lt. exists x. split; [set_solver|lia]. }
  exists lo, ro. split; [done|]. split; [done|].
  assert (Hnone : lo || ro = false -> StronglySorted mr_before (l1 ++ new_entry addr size 0 0 :: l2)).
  { intros [-> ->]%orb_false_iff. eapply mr_order_insert; [done|done|..].
    - intros x Hx. unfold mr_before; cbn. by apply Hlo.
    - intros x Hx. unfold mr_before; cbn. by apply Hro. }
  split; [|done]. rewrite Exists_exists, Forall_forall in *. split.
  - intros [->| ->]%orb_true_iff.
    + destruct (Hlo' eq_refl) as (x & Hx & ?). exists x. unfold mr_overlaps.
      specialize (H1 x Hx). split; [set_solver|lia].
    + destruct (Hro' eq_refl) as (x & Hx & ?). exists x. unfold mr_overlaps.
      specialize (H2 x Hx). destruct (Hok x ltac:(set_solver)) as ((? & ? & ?) & _). split; [set_solver|lia].
  - intros (x & Hx & Hov). destruct (lo || ro) eqn:Hlr; [done|]. specialize (Hnone eq_refl).
    apply StronglySorted_app_inv in Hnone as (_ & Hs2 & Hx12). inversion Hs2 as [|? ? _ HF]; subst.
    rewrite Forall_forall in HF. unfold mr_overlaps, mr_before in *. cbn in *.
    apply elem_of_app in Hx as [Hx|Hx].
    + specialize (Hx12 x _ Hx ltac:(by left)). cbn in Hx12. lia.
    + specialize (HF x Hx). lia.
Qed.

(** A live list with one more entry. *)
Lemma mr_wf_inserted r h r' h' l1 e l2 :
  mr_wf r h -> r_live r = l1 ++ l2 ->
  r_count r' = r_count r + 1 -> r_count r < r_capacity r' ->
  Z.of_nat (length (r_entries r')) = r_capacity r' -> idx_wf r' ->
  r_live r' = l1 ++ e :: l2 -> StronglySorted mr_before (l1 ++ e :: l2) ->
  e_ownerMask e <> 0 -> handles_ok e ->
  mr_core (e :: l1 ++ l2) (r_lid r') (r_nextId r') h' -> 0 < r_nextId r' < U64_MOD ->
  mr_wf r' h'.
Proof.
  intros Hw Hl Hcnt Hcap Hlen [? ?] Hl' Hs Hm Hh Hc Hn.
  pose proof (w_masks _ _ Hw) as w6. pose proof (w_handles _ _ Hw) as w8.
  pose proof (w_count _ _ Hw). rewrite Hl in w6, w8.
  constructor; try done; try lia.
  - by rewrite Hl'.
  - rewrite Hl'. rewrite Forall_app, Forall_cons in *. tauto.
  - rewrite Hl'. by apply mr_core_middle.
  - rewrite Hl'. rewrite Forall_app, Forall_cons in *. tauto.
Qed.

(** Shifting, writing the new entry and storing its extension. *)
Lemma mr_insert_attach okI junkI r h l1 l2 addr size ibDevN ptrType b mhandle ext wantId o :
  mr_wf r h -> r_live r = l1 ++ l2 -> r_count r < r_capacity r -> owner_bit b ->
  0 < addr -> 0 < size -> addr + size < U64_MOD ->
  StronglySorted mr_before (l1 ++ new_entry addr size 0 0 :: l2) ->
  ext_given (r_live r) h b ext -> h !! ext = Some o -> ext_kind b o ->
  r_nextId r < U64_MAX -> r_idCapacity r * 2 <= INT_MAX ->
  mr_attached okI wantId r h addr b ext o
    (l1 ++ e_registered (new_entry addr size ibDevN ptrType) b mhandle ext :: l2)
    (es1 ← (if Z.of_nat (length l1) <? r_count r
            then memmove (r_entries r) (Z.of_nat (length l1) + 1) (Z.of_nat (length l1))
                   (r_count r - Z.of_nat (length l1))
            else Some (r_entries r));
     let entry := e_setHandle (MkMrEntry addr size ibDevN ptrType b [0; 0; 0] 0 0 0)
                    (ownerBitToIdx b) mhandle in
     es2 ← arr_set es1 (Z.of_nat (length l1)) (e_setExt entry b ext);
     let reg2 := r_setEntries r es2 (r_count r) in
     '(res, outId, reg3, h3) ← mr_attach okI junkI reg2 h addr b ext wantId;
     if bool_decide (res = flagcxSuccess) then
       Some (flagcxSuccess, outId, r_setEntries reg3 (r_entries reg3) (r_count reg3 + 1), h3)
     else
       es3 ← arr_set (r_entries reg3) (Z.of_nat (length l1)) entry;
       es4 ← (if Z.of_nat (length l1) <? r_count reg3
              then memmove es3 (Z.of_nat (length l1)) (Z.of_nat (length l1) + 1)
                     (r_count reg3 - Z.of_nat (length l1))
              else Some es3);
       Some (res, None, r_setEntries reg3 es4 (r_count reg3), h3)).
Proof.
  intros Hw Hl Hroom Hb Ha Hs Hr Hord Hext Ho Hk Hnx Hcap.
  pose proof (w_count _ _ Hw) as Hcnt. pose proof (w_cap _ _ Hw) as Hlen. pose proof (w_next _ _ Hw) as Hn0.
  pose proof (w_core _ _ Hw) as Hc. pose proof (length_r_live _ _ Hw) as Hll.
  set (e0 := new_entry addr size ibDevN ptrType). set (en := e_registered e0 b mhandle ext).
  destruct (arr_insert_live (r_entries r) (Z.to_nat (r_count r)) l1 l2 en) as (es1 & es2 & Hes1 & Hes2 & Hl2 & Htk);
    [exact Hl|lia|].
  rewrite Z2Nat.id in Hes1 by lia. rewrite Hes1. cbn zeta. rewrite new_entry_setExt by done.
  fold e0. fold en. cbn -[mr_attach new_entry]. rewrite Hes2. cbn -[mr_attach].
  set (r2 := r_setEntries r es2 (r_count r)).
  destruct (mr_attach_spec okI junkI r2 h addr b ext wantId o) as
    (res & out & r3 & -> & (Hre & Hrc & Hrcap) & Hidx & Hnext & Hsucc & Hfail & Hconv); try done.
  { by apply (mr_wf_idx r h). }
  { apply Hc. } { apply Hc. } { cbn; lia. }
  pose proof (next_after_bounds (r_nextId r) o b wantId ltac:(lia) Hk) as Hnb.
  change (r_nextId r2) with (r_nextId r) in *. change (r_lid r2) with (r_lid r) in *.
  change (r_entries r2) with es2 in *. change (r_count r2) with (r_count r) in *.
  change (r_capacity r2) with (r_capacity r) in *. cbn -[new_entry].
  destruct (new_entry_ok h addr size ibDevN ptrType Ha Hs Hr) as [Hok0 Hh0].
  destruct (decide (res = flagcxSuccess)) as [->|Hne].
  - rewrite bool_decide_true by done. destruct (Hsucc eq_refl) as (Hlid & Hs' & ->).
    assert (Hlive : r_live (r_setEntries r3 (r_entries r3) (r_count r3 + 1)) = l1 ++ en :: l2).
    { unfold r_live; cbn. rewrite Hre, Hrc.
      by replace (Z.to_nat (r_count r + 1)) with (S (Z.to_nat (r_count r))) by lia. }
    eexists _, _, _. split; [done|]. and_split.
    destruct (e_own_fields e0 b ext) as (Hfb & Hfs & Hfm & _).
    assert (Hext' : ext_given (e0 :: l1 ++ l2) h b ext) by (rewrite <-Hl; done).
    eapply (mr_wf_inserted r h _ _ l1 en l2); try done.
    + cbn. lia.
    + cbn. lia.
    + cbn. rewrite Hre, Hrcap. lia.
    + eapply (mr_order_replace l1 (new_entry addr size 0 0)); done.
    + unfold en; cbn [e_registered e_setHandle e_ownerMask]. rewrite Hfm. by apply lor_neq_0.
    + by apply handles_ok_registered; [..|done].
    + change (r_lid (r_setEntries r3 (r_entries r3) (r_count r3 + 1))) with (r_lid r3).
      change (r_nextId (r_setEntries r3 (r_entries r3) (r_count r3 + 1))) with (r_nextId r3).
      rewrite Hnext, Hlid. rewrite Hlid in Hs'. apply mr_core_setHandle.
      apply mr_core_attach; try done; [|by owner_cases Hb|lia].
      apply mr_core_new; [done|done|]. by rewrite <-Hl.
    + cbn. lia.
  - rewrite bool_decide_false by done. destruct (Hfail Hne) as (Hlid & -> & ->).
    destruct (arr_set_live (r_entries r3) (S (Z.to_nat (r_count r))) l1 en l2
      (e_setHandle (MkMrEntry addr size ibDevN ptrType 1 [0; 0; 0] 0 0 0) (ownerBitToIdx 1) mhandle))
      as (es3 & Hset & Hl3 & Htk3); [by rewrite Hre|].
    cbn in Hset. cbn. rewrite Hset. cbn.
    destruct (arr_remove_live es3 (S (Z.to_nat (r_count r))) l1 _ l2 Htk3) as (es4 & Hmm & Hl4 & Htk4);
      [rewrite Hl3, Hre; lia|].
    replace (Z.of_nat (S (Z.to_nat (r_count r))) - 1) with (r_count r) in Hmm by lia.
    rewrite Hrc, Hmm. cbn.
    assert (Hlive : r_live (r_setEntries r3 es4 (r_count r)) = r_live r).
    { unfold r_live at 1; cbn. rewrite Hl. rewrite <-Htk4. f_equal. lia. }
    eexists _, _, _. split; [done|]. and_split.
    destruct Hw, Hidx. constructor; rewrite ?Hlive; cbn; rewrite ?Hrcap; try done; [| |lia].
    + rewrite Hl4, Hl3, Hre. lia.
    + change (r_lid (r_setEntries r3 es4 (r_count r))) with (r_lid r3).
      rewrite Hlid, Hnext. apply mr_core_next with (r_nextId r); [lia|].
      destruct Hext as (? & ? & _). by apply mr_core_insert.
Qed.

(** ** Deregistering *)

(** The entry after its owner [b] left. *)
Definition e_released (e : flagcxMrEntry) (b : Z) : flagcxMrEntry :=
  e_setHandle (e_disown e b) (ownerBitToIdx b) 0.

Lemma e_released_code e b :
  owner_bit b ->
  e_setHandle (e_setMask (e_setExt e b 0) (Z.land (e_ownerMask e) (Z.lnot b))) (ownerBitToIdx b) 0
  = e_released e b.
Proof. intros Hb. owner_cases Hb; done. Qed.

(** The live entries after owner [b] left. *)
Definition live_released (l1 : list flagcxMrEntry) (e : flagcxMrEntry) (l2 : list flagcxMrEntry)
    (b : Z) : list flagcxMrEntry :=
  if Z.land (e_ownerMask e) (Z.lnot b) =? 0 then l1 ++ l2 else l1 ++ e_released e b :: l2.

Lemma handles_ok_released e b :
  length (e_mhandles e) = 3%nat -> 0 <= e_ownerMask e < 8 -> owner_bit b -> handles_ok e ->
  handles_ok (e_released e b).
Proof.
  intros Hl Hm Hb Hh. destruct (e_disown_fields e b) as (_ & _ & Hk & Hhs & _).
  eapply (handles_ok_set e (Z.land (e_ownerMask e) (Z.lnot b)) b 0); try done.
  - intros b' Hb' Hne Hz. by apply (mask_clear_bit _ b b') in Hz as [?|?]; [by subst| |..].
  - unfold e_released, e_setHandle. cbn [e_mhandles]. by rewrite Hhs.
Qed.

(** The index step of the deregistration. *)
Lemma mr_dereg_index r h e live b :
  mr_wf r h -> r_live r ≡ₚ e :: live -> owner_bit b -> Z.land (e_ownerMask e) b <> 0 ->
  exists r1, (if (b =? FLAGCX_MR_OWNER_P2P) && negb (e_p2p e =? 0) then
       o ← load_p2p h (e_p2p e);
       if negb (p2p_mrId o =? 0) then idIndexRemove r (p2p_mrId o) else Some r
     else Some r) = Some r1 /\
    same_entries r r1 /\ idx_wf r1 /\ r_nextId r1 = r_nextId r /\ e_ext e b <> 0 /\
    (exists o, h !! e_ext e b = Some o /\ obj_of_bit b o) /\
    mr_core (e_released e b :: live) (r_lid r1) (r_nextId r) h /\
    e_ext e b ∉ owned (e_released e b :: live).
Proof.
  intros Hw Hp Hb Hbit. pose proof (w_core _ _ Hw) as Hc. rewrite Hp in Hc.
  destruct (mr_core_remove_owner _ _ _ _ _ _ Hb Hc Hbit)
    as (o & lid' & Hne & Ho & Hob & Hlid & Hc' & Hnot).
  assert (Hc2 := mr_core_setHandle _ (ownerBitToIdx b) 0 _ _ _ _ Hc').
  destruct o as [q|q|q]; cbn in Hob.
  - destruct Hob as [-> Hq]. destruct Hlid as (l1 & l2 & Hlid & ->). cbn in Ho.
    change (e_ext e 1) with (e_p2p e) in *.
    destruct (Z.eqb_spec (e_p2p e) 0); [done|]. cbn -[e_released].
    assert (load_p2p h (e_p2p e) = Some q) as -> by (unfold load_p2p; by rewrite Ho). cbn -[e_released].
    destruct (Z.eqb_spec (p2p_mrId q) 0); [lia|]. cbn -[e_released].
    destruct (idIndexRemove_spec r l1 (MkMrIdEntry (p2p_mrId q) (e_baseAddr e)) l2)
      as (r1 & Hrem & Hse & Hidx & Hn & Hlid1); [by apply (mr_wf_idx r h)|apply Hc|done|].
    cbn in Hrem. rewrite Hrem. exists r1. rewrite Hlid1. and_split. by exists (ObjP2p q).
  - subst b lid'. cbn -[e_released e_ext]. exists r. and_split; [by apply (mr_wf_idx r h)|].
    by exists (ObjColl q).
  - subst b lid'. cbn -[e_released e_ext]. exists r. and_split; [by apply (mr_wf_idx r h)|].
    by exists (ObjRma q).
Qed.

(** An entry without owners has nothing to free. *)
Lemma freeEntryExtensions_none h e live lid n :
  e_ownerMask e = 0 -> mr_core (e :: live) lid n h ->
  freeEntryExtensions h e = Some (h, e).
Proof.
  intros Hm Hc. destruct (mr_core_cons_inv _ _ _ _ _ Hc) as ((_ & _ & _ & Hbits) & _).
  assert (Hz : forall b, owner_bit b -> e_ext e b = 0).
  { intros b Hb. apply (Hbits b Hb). by rewrite Hm. }
  pose proof (Hz 1 ltac:(by left)) as H1. pose proof (Hz 2 ltac:(right; by left)) as H2.
  pose proof (Hz 4 ltac:(right; by right)) as H4. cbn in *.
  unfold freeEntryExtensions. rewrite H1, H2, H4. cbn. unfold sanitizeOutEntry.
  destruct e; cbn in *. by subst.
Qed.

Lemma mr_deregister_owner r h l1 e l2 b wantExt :
  mr_wf r h -> r_live r = l1 ++ e :: l2 -> owner_bit b -> Z.land (e_ownerMask e) b <> 0 ->
  exists r' h',
    flagcxMrRegistryDeregister r h (e_baseAddr e) b wantExt =
      Some (flagcxSuccess, Some (sanitizeOutEntry e),
            if wantExt then Some (e_ext e b) else None, r', h') /\
    h' = (if wantExt then h else delete (e_ext e b) h) /\
    mr_wf r' h' /\ r_live r' = live_released l1 e l2 b /\ r_nextId r' = r_nextId r /\
    e_ext e b ∉ owned (r_live r').
Proof.
  intros Hw Hl Hb Hbit. unfold flagcxMrRegistryDeregister.
  pose proof (ownerBitToIdx_range b Hb). destruct (Z.ltb_spec (ownerBitToIdx b) 0); [lia|].
  destruct (mr_entry_facts _ _ _ _ _ Hw Hl) as (Hok & Hm0 & Hh & Hc). pose proof Hok as (_ & Hlen & Hm & _).
  destruct (bsearchExact_spec r h (e_baseAddr e) Hw) as [(k1 & e' & k2 & Hk & Hbase & ->)|[_ Hno]].
  2: { destruct (Hno e); [rewrite Hl; set_solver|done]. }
  assert (e' = e) as -> by (eapply live_base_unique; [exact Hw|exact Hl|rewrite Hk; set_solver|done]).
  assert (k1 = l1 /\ k2 = l2) as [-> ->].
  { assert (length k1 = length l1) as Hlk.
    { apply (key_sorted_inj e_baseAddr (r_live r) (length k1) (length l1) e e); [by apply (w_live_sorted r h)|..|done].
      - rewrite Hk, lookup_app_r, Nat.sub_diag by lia; done.
      - rewrite Hl, lookup_app_r, Nat.sub_diag by lia; done. }
    rewrite Hl in Hk. apply app_inj_1 in Hk as [-> Hk]; [|done]. by simplify_eq. }
  cbn -[idIndexRemove]. destruct (Z.ltb_spec (Z.of_nat (length l1)) 0); [lia|].
  rewrite (arr_get_live _ _ _ _ _ Hl). cbn -[idIndexRemove].
  destruct (Z.eqb_spec (Z.land (e_ownerMask e) b) 0); [done|].
  destruct (mr_dereg_index r h e (l1 ++ l2) b Hw) as
    (r1 & -> & Hse & Hidx & Hnext & Hne & (o & Ho & Hob) & Hc1 & Hnot);
    [by rewrite Hl, Permutation_middle|done..|]. cbn.
  set (h1 := if wantExt then h else delete (e_ext e b) h).
  assert ((if wantExt then Some h else mr_free h (e_ext e b)) = Some h1) as ->.
  { unfold h1, mr_free. destruct wantExt; [done|]. destruct (Z.eqb_spec (e_ext e b) 0); [done|]. by rewrite Ho. }
  cbn. rewrite e_released_code by done.
  assert (Hc2 : mr_core (e_released e b :: l1 ++ l2) (r_lid r1) (r_nextId r) h1).
  { unfold h1. destruct wantExt; [done|]. by apply mr_core_delete. }
  destruct (mr_write_back r r1 l1 e l2 (e_released e b) Hl Hse) as (es & -> & Hles & Hlive). cbn.
  destruct (e_disown_fields e b) as (Hfb & Hfs & Hfm & _).
  assert (Hmask : e_ownerMask (e_released e b) = Z.land (e_ownerMask e) (Z.lnot b)) by (cbn; done).
  pose proof Hse as (Hre & Hcnt & Hcap). unfold live_released.
  rewrite owned_cons, elem_of_app in Hnot.
  destruct (Z.eqb_spec (Z.land (e_ownerMask e) (Z.lnot b)) 0) as [Hz|Hz].
  - rewrite (freeEntryExtensions_none h1 (e_released e b) (l1 ++ l2) (r_lid r1) (r_nextId r)) by (done || by rewrite Hmask).
    cbn. destruct (arr_set_live es (Z.to_nat (r_count r)) l1 (e_released e b) l2 (e_released e b)) as (es2 & -> & Hl2 & Htk2).
    { unfold r_live in Hlive; cbn in Hlive. by rewrite Hcnt in Hlive. }
    cbn. pose proof (w_count _ _ Hw). pose proof (w_cap _ _ Hw).
    destruct (arr_remove_live es2 (Z.to_nat (r_count r)) l1 _ l2 Htk2) as (es3 & Hmm & Hl3 & Htk3); [lia|].
    rewrite Z2Nat.id in Hmm by lia. rewrite Hcnt, Hmm. cbn.
    assert (Hlive3 : r_live (r_setEntries r1 es3 (r_count r - 1)) = l1 ++ l2).
    { unfold r_live; cbn. rewrite <-Htk3. f_equal. lia. }
    eexists _, _. split; [done|]. rewrite Hlive3.
    assert (0 < r_count r).
    { pose proof (length_r_live _ _ Hw) as Hll. rewrite Hl, length_app in Hll. cbn in Hll. lia. }
    and_split; [|by unfold owned in *; intuition].
    destruct Hw, Hidx. rewrite Hl in *.
    constructor; rewrite ?Hlive3; cbn; rewrite ?Hcap, ?Hnext; try done; try lia.
    + by eapply mr_order_remove.
    + rewrite !Forall_app, ?Forall_cons in *. tauto.
    + change (r_lid (r_setEntries r1 es3 (r_count r - 1))) with (r_lid r1).
      eapply mr_core_drop; [|done]. done.
    + rewrite !Forall_app, ?Forall_cons in *. tauto.
  - eexists _, _. split; [done|]. rewrite Hlive. and_split.
    + eapply (mr_wf_replace r h _ _ l1 e (e_released e b) l2); try done.
      * by apply handles_ok_released.
      * change (r_lid (r_setEntries r1 es (r_count r1))) with (r_lid r1). by cbn; rewrite Hnext.
      * cbn. rewrite Hnext. apply (w_next _ _ Hw).
    + rewrite <-elem_of_app, <-owned_cons in Hnot. unfold owned in *. by rewrite <-Permutation_middle.
Qed.

(** ** The whole registration *)

Lemma mr_register_guard okE okI junkE junkI r h addr size ibDevN ptrType b mhandle ext wantId :
  is_u64 addr -> is_u64 size -> owner_bit b -> addr <> 0 -> size <> 0 -> addr + size < U64_MOD ->
  flagcxMrRegistryRegister okE okI junkE junkI r h addr size ibDevN ptrType b mhandle ext wantId =
  (exactIdx ← bsearchExact (r_entries r) (r_count r) addr;
   if 0 <=? exactIdx then
     mr_registerExisting okI junkI r h exactIdx addr size ibDevN ptrType b
       (ownerBitToIdx b) mhandle ext wantId
   else
     mr_registerNew okE okI junkE junkI r h addr size ibDevN ptrType b
       (ownerBitToIdx b) mhandle ext wantId).
Proof.
  unfold is_u64. intros Ha Hs Hb Ha0 Hs0 Hr. unfold flagcxMrRegistryRegister.
  destruct (Z.eqb_spec size 0); [done|]. destruct (Z.eqb_spec addr 0); [done|]. cbn [orb].
  wrap_small. destruct (Z.ltb_spec (addr + size) addr); [lia|].
  pose proof (ownerBitToIdx_range b Hb). by destruct (Z.ltb_spec (ownerBitToIdx b) 0); [lia|].
Qed.

Lemma mr_register_bad okE okI junkE junkI r h addr size ibDevN ptrType b mhandle ext wantId :
  is_u64 addr -> is_u64 size -> ~ (owner_bit b /\ addr <> 0 /\ size <> 0 /\ addr + size < U64_MOD) ->
  flagcxMrRegistryRegister okE okI junkE junkI r h addr size ibDevN ptrType b mhandle ext wantId =
  Some (flagcxInternalError, None, r, h).
Proof.
  unfold is_u64. intros Ha Hs Hbad. unfold flagcxMrRegistryRegister.
  destruct (Z.eqb_spec size 0); [done|]. destruct (Z.eqb_spec addr 0); [done|]. cbn [orb].
  destruct (Z.ltb_spec (addr +u64 size) addr) as [Hlt|Hge]; [done|].
  destruct (Z.ltb_spec (ownerBitToIdx b) 0); [done|]. exfalso. apply Hbad. and_split.
  - by apply ownerBitToIdx_nonneg.
  - destruct (Z.lt_ge_cases (addr + size) U64_MOD); [done|].
    rewrite <-(Z_mod_plus_full _ (-1)), Z.mod_small in Hge by lia. lia.
Qed.

(** A base address that is not registered yet. *)
Lemma mr_register_fresh okE okI junkE junkI r h addr size ibDevN ptrType b mhandle ext wantId :
  mr_wf r h -> mr_contract r h addr size b ext ->
  owner_bit b -> addr <> 0 -> size <> 0 -> addr + size < U64_MOD ->
  (forall x, x ∈ r_live r -> e_baseAddr x <> addr) ->
  let run := flagcxMrRegistryRegister okE okI junkE junkI r h addr size ibDevN ptrType b
               mhandle ext wantId in
  (Exists (mr_overlaps addr size) (r_live r) \/ ext = 0 ->
     run = Some (flagcxInternalError, None, r, h)) /\
  (~ Exists (mr_overlaps addr size) (r_live r) -> forall o, ext <> 0 -> h !! ext = Some o -> ext_kind b o ->
     (okE = false /\ run = Some (flagcxSystemError, None, r, h)) \/
     exists l1 l2, r_live r = l1 ++ l2 /\
       mr_attached okI wantId r h addr b ext o
         (l1 ++ e_registered (new_entry addr size ibDevN ptrType) b mhandle ext :: l2) run).
Proof.
  intros Hw Hk Hb Ha0 Hs0 Hr Hno run. destruct Hk as [Ha Hs Hext Hnx Hcap Hicap].
  subst run. rewrite mr_register_guard by done. unfold is_u64 in *.
  destruct (bsearchExact_spec r h addr Hw) as [(l1 & e & l2 & Hl & Hbase & _)|[-> _]].
  { destruct (Hno e); [rewrite Hl; set_solver|done]. }
  cbn [mbind option_bind]. destruct (Z.leb_spec 0 (-1)); [lia|].
  unfold mr_registerNew.
  destruct (findInsertionPoint_spec r h addr Hw) as (l1 & l2 & Hl & -> & H1 & H2).
  assert (H2' : Forall (fun x => addr < e_baseAddr x) l2).
  { rewrite Forall_forall in *. intros x Hx. specialize (H2 x Hx). specialize (Hno x).
    rewrite Hl in Hno. specialize (Hno ltac:(set_solver)). lia. }
  cbn [mbind option_bind].
  destruct (mr_neighbour_tests r h l1 l2 addr size Hw Hl H1 H2') as (lo & ro & -> & -> & Hex & Hord); [lia..|].
  cbn [mbind option_bind]. split.
  - intros [Hov| ->].
    + apply Hex in Hov. destruct lo; [done|]. cbn in Hov. by subst ro.
    + by destruct lo, ro.
  - intros Hnov o Hz Ho Hkind.
    assert (lo || ro = false) as Hlr by (apply not_true_is_false; by rewrite Hex).
    specialize (Hord Hlr). apply orb_false_iff in Hlr as [-> ->].
    destruct (Z.eqb_spec ext 0); [done|].
    destruct (ensureCapacity_spec okE junkE r h Hw Hcap) as (res & r1 & -> & Hbad & Hconv & Hgood).
    cbn [mbind option_bind].
    destruct (decide (res = flagcxSuccess)) as [->|Hne].
    2: { rewrite bool_decide_false by done. cbn. left. destruct (Hbad Hne) as [-> ->].
         split; [|done]. destruct okE; [|done]. by specialize (Hconv eq_refl). }
    right. rewrite bool_decide_true by done.
    destruct (Hgood eq_refl) as (Hw1 & Hc1 & Hroom & Hl1 & Hlid1 & Hn1 & Hic1).
    exists l1, l2. split; [done|].
    assert (Hex1 : ext_given (r_live r1) h b ext) by (rewrite Hl1; destruct (Hext Hb); done).
    unfold mr_attached. rewrite <-Hn1, <-Hl1, <-Hlid1.
    apply (mr_insert_attach okI junkI r1 h l1 l2 addr size ibDevN ptrType b mhandle ext wantId o);
      try done; try lia; congruence.
Qed.

(** The result of [mr_attached] in the terms of the invariant. *)
Lemma mr_attached_owned okI wantId r h addr b ext o l1 e l2 mhandle a :
  mr_wf r h -> ext_given (r_live r) h b ext -> ext_kind b o -> r_nextId r < U64_MAX ->
  mr_attached okI wantId r h addr b ext o (l1 ++ e_registered e b mhandle ext :: l2) a ->
  exists res out r' h', a = Some (res, out, r', h') /\ mr_wf r' h' /\ r_nextId r <= r_nextId r' /\
    (res <> flagcxSuccess -> ext ∉ owned (r_live r')) /\
    (res = flagcxSuccess -> ext <> 0 -> ext ∈ owned (r_live r')).
Proof.
  intros Hw (Hz & Hno & _) Hk Hn (res & out & r' & -> & Hw' & Hnx & Hok & Hbad & _).
  eexists _, _, _, _. split; [done|]. pose proof (w_next _ _ Hw).
  pose proof (next_after_bounds (r_nextId r) o b wantId ltac:(lia) Hk). and_split.
  - intros Hne. destruct (Hbad Hne) as (-> & _). done.
  - intros Hs _. destruct (Hok Hs) as (-> & _). apply elem_of_owned.
    exists (e_registered e b mhandle ext). split; [set_solver|].
    destruct (e_own_fields e b ext) as (_ & _ & _ & _ & Hx & _).
    apply elem_of_e_ptrs. split; [done|]. exists b. split; [by eapply ext_kind_bit|].
    unfold e_registered. rewrite e_ext_setHandle, Hx. apply e_ext_setExt_eq.
Qed.

(** A base address that is registered: the call is
    [mr_registerExisting] at the index of that entry. *)
Lemma mr_register_at okE okI junkE junkI r h l1 e l2 size ibDevN ptrType b mhandle ext wantId :
  mr_wf r h -> r_live r = l1 ++ e :: l2 -> is_u64 size ->
  owner_bit b -> size <> 0 -> e_baseAddr e + size < U64_MOD ->
  flagcxMrRegistryRegister okE okI junkE junkI r h (e_baseAddr e) size ibDevN ptrType b
    mhandle ext wantId =
  mr_registerExisting okI junkI r h (Z.of_nat (length l1)) (e_baseAddr e) size ibDevN ptrType b
    (ownerBitToIdx b) mhandle ext wantId.
Proof.
  intros Hw Hl Hs Hb Hs0 Hr. destruct (mr_entry_facts _ _ _ _ _ Hw Hl) as (((? & ? & ?) & _) & _).
  unfold is_u64 in *. rewrite mr_register_guard by (unfold is_u64; done || lia).
  destruct (bsearchExact_spec r h (e_baseAddr e) Hw) as [(k1 & e' & k2 & Hk & Hbase & ->)|[_ Hno]].
  2: { destruct (Hno e); [rewrite Hl; set_solver|done]. }
  cbn [mbind option_bind]. destruct (Z.leb_spec 0 (Z.of_nat (length k1))); [|lia].
  assert (length k1 = length l1) as ->; [|done].
  apply (key_sorted_inj e_baseAddr (r_live r) (length k1) (length l1) e' e); [by apply (w_live_sorted r h)|..|done].
  - rewrite Hk, lookup_app_r, Nat.sub_diag by lia; done.
  - rewrite Hl, lookup_app_r, Nat.sub_diag by lia; done.
Qed.

Lemma mr_registerExisting_mismatch okI junkI r h l1 e l2 size ibDevN ptrType b mhandle ext wantId :
  r_live r = l1 ++ e :: l2 ->
  e_size e <> size \/ e_ibDevN e <> ibDevN \/ e_ptrType e <> ptrType \/
    Z.land (e_ownerMask e) b = 0 /\ ext = 0 ->
  mr_registerExisting okI junkI r h (Z.of_nat (length l1)) (e_baseAddr e) size ibDevN ptrType b
    (ownerBitToIdx b) mhandle ext wantId = Some (flagcxInternalError, None, r, h).
Proof.
  intros Hl Hd. unfold mr_registerExisting. rewrite (arr_get_live _ _ _ _ _ Hl). cbn.
  destruct (Z.eqb_spec (e_size e) size); [|done]. destruct (Z.eqb_spec (e_ibDevN e) ibDevN); [|done].
  destruct (Z.eqb_spec (e_ptrType e) ptrType); [|done]. cbn.
  destruct Hd as [|[|[|[Hz ->]]]]; [done..|]. by rewrite Hz.
Qed.

Lemma e_updated_ext e b mhandle ext :
  ext <> 0 -> e_ext (e_updated e b mhandle ext) b = ext.
Proof.
  intros Hz. unfold e_updated. destruct (Z.eqb_spec ext 0); [done|]. apply e_ext_setExt_eq.
Qed.

Lemma mr_register_preserves okE okI junkE junkI r h addr size ibDevN ptrType b mhandle ext wantId :
  mr_wf r h -> mr_contract r h addr size b ext ->
  exists res out r' h',
    flagcxMrRegistryRegister okE okI junkE junkI r h addr size ibDevN ptrType b mhandle ext wantId
      = Some (res, out, r', h') /\
    mr_wf r' h' /\ r_nextId r <= r_nextId r' /\
    (res <> flagcxSuccess -> owner_bit b -> ext ∉ owned (r_live r')) /\
    (res = flagcxSuccess -> ext <> 0 -> ext ∈ owned (r_live r')).
Proof.
  intros Hw Hk. pose proof Hk as [Ha Hs Hext Hnx Hcap Hicap].
  assert (Hfresh : owner_bit b -> ext ∉ owned (r_live r)).
  { intros Hb. destruct (Hext Hb) as [->|(_ & ? & _)]; [|done]. intros Hin. by apply owned_neq_0 in Hin. }
  assert (Hfail : forall res, res <> flagcxSuccess -> exists res' out r' h',
     Some (res, @None Z, r, h) = Some (res', out, r', h') /\ mr_wf r' h' /\ r_nextId r <= r_nextId r' /\
     (res' <> flagcxSuccess -> owner_bit b -> ext ∉ owned (r_live r')) /\
     (res' = flagcxSuccess -> ext <> 0 -> ext ∈ owned (r_live r'))).
  { intros res Hne. eexists _, _, _, _. split; [done|]. and_split. }
  destruct (decide (owner_bit b /\ addr <> 0 /\ size <> 0 /\ addr + size < U64_MOD)) as [(Hb & Ha0 & Hs0 & Hr)|Hbad].
  2: { rewrite mr_register_bad by done. by apply Hfail. }
  specialize (Hext Hb). specialize (Hfresh Hb).
  destruct (bsearchExact_spec r h addr Hw) as [(l1 & e & l2 & Hl & <- & _)|[_ Hno]].
  - rewrite (mr_register_at _ _ _ _ r h l1 e l2) by done.
    destruct (decide (e_size e <> size \/ e_ibDevN e <> ibDevN \/ e_ptrType e <> ptrType \/
      Z.land (e_ownerMask e) b = 0 /\ ext = 0)) as [Hd|Hd].
    { rewrite (mr_registerExisting_mismatch _ _ _ _ l1 e l2) by done. by apply Hfail. }
    assert (e_size e = size /\ e_ibDevN e = ibDevN /\ e_ptrType e = ptrType /\
      (Z.land (e_ownerMask e) b <> 0 \/ ext <> 0)) as (<- & <- & <- & Hd') by lia. clear Hd.
    destruct (decide (Z.land (e_ownerMask e) b = 0)) as [Hz|Hz].
    + destruct Hd' as [|Hd']; [done|]. destruct Hext as [|Hext]; [done|].
      pose proof Hext as (_ & _ & o & Ho & Hkind).
      destruct (mr_attached_owned _ _ _ _ _ _ _ _ _ _ _ _ _ Hw Hext Hkind Hnx
        (mr_register_join okI junkI r h l1 e l2 b mhandle ext wantId o Hw Hl Hb Hext Ho Hkind Hnx Hicap Hz))
        as (res & out & r' & h' & -> & ? & ? & ? & ?). eexists _, _, _, _. and_split. auto.
    + destruct (mr_register_owned okI junkI r h l1 e l2 b mhandle ext wantId Hw Hl Hb Hext Hnx Hz)
        as (res & out & r' & h' & -> & Hw' & _ & Hnext & _ & Hsucc & Hbad & _).
      eexists _, _, _, _. split; [done|]. and_split.
      * intros Hne _. destruct (Hbad Hne) as (-> & _). rewrite Hl in Hfresh. unfold owned in *.
        rewrite <-Permutation_middle, bind_cons in *.
        by destruct (e_rehandled_fields e b mhandle) as (_ & _ & _ & _ & -> & _).
      * intros Hok Hne. destruct (Hsucc Hok) as [-> _]. apply elem_of_owned.
        exists (e_updated e b mhandle ext). split; [set_solver|]. apply elem_of_e_ptrs.
        split; [done|]. exists b. split; [done|]. by apply e_updated_ext.
  - destruct (mr_register_fresh okE okI junkE junkI r h addr size ibDevN ptrType b mhandle ext wantId
      Hw Hk Hb Ha0 Hs0 Hr Hno) as [Herr Hnew].
    destruct (decide (ext = 0)) as [Hz|Hz]; [rewrite Herr by auto; by apply Hfail|].
    destruct (decide (Exists (mr_overlaps addr size) (r_live r))) as [Hov|Hov];
      [rewrite Herr by auto; by apply Hfail|].
    destruct Hext as [|Hext]; [done|]. pose proof Hext as (_ & _ & o & Ho & Hkind).
    destruct (Hnew Hov o Hz Ho Hkind) as [[_ ->]|(l1 & l2 & Hl & Hatt)]; [by apply Hfail|].
    destruct (mr_attached_owned _ _ _ _ _ _ _ _ _ _ _ _ _ Hw Hext Hkind Hnx Hatt)
      as (res & out & r' & h' & -> & ? & ? & ? & ?). eexists _, _, _, _. and_split. auto.
Qed.

(** ** Properties of registration *)

(** C2: the invariant (entries sorted and disjoint, every extension object
    alive, of the right kind and owned once, the id index sorted and listing
    exactly the P2P registrations) survives every registration, whatever
    [realloc] answers, and no step of the call is undefined behaviour.  The
    extension object moves to the registry exactly when the call succeeds. *)
Theorem mr_register_safe okE okI junkE junkI r h addr size ibDevN ptrType b mhandle ext wantId :
  mr_wf r h -> mr_contract r h addr size b ext ->
  exists res out r' h',
    flagcxMrRegistryRegister okE okI junkE junkI r h addr size ibDevN ptrType b mhandle ext wantId
      = Some (res, out, r', h') /\
    mr_wf r' h' /\ r_nextId r <= r_nextId r' /\
    (res <> flagcxSuccess -> owner_bit b -> ext ∉ owned (r_live r')) /\
    (res = flagcxSuccess -> ext <> 0 -> ext ∈ owned (r_live r')).
Proof. apply mr_register_preserves. Qed.

(** on a base address that is not registered, with memory available and
    an id that fits, the call succeeds exactly when the range meets no
    registered range; it then inserts one entry, at its place in the order,
    with the owner, handle and extension passed, indexes its id and reports
    it.  Otherwise nothing changes. *)
Theorem mr_register_new_spec junkE junkI r h addr size ibDevN ptrType b mhandle ext wantId o :
  mr_wf r h -> mr_contract r h addr size b ext ->
  owner_bit b -> addr <> 0 -> size <> 0 -> addr + size < U64_MOD ->
  (forall x, x ∈ r_live r -> e_baseAddr x <> addr) ->
  ext <> 0 -> h !! ext = Some o -> ext_kind b o -> id_fits true (r_nextId r) o ->
  let run := flagcxMrRegistryRegister true true junkE junkI r h addr size ibDevN ptrType b
               mhandle ext wantId in
  if decide (Exists (mr_overlaps addr size) (r_live r))
  then run = Some (flagcxInternalError, None, r, h)
  else exists r' l1 l2,
    run = Some (flagcxSuccess, out_id (r_nextId r) o wantId, r',
                <[ext := attached (r_nextId r) o]> h) /\
    mr_wf r' (<[ext := attached (r_nextId r) o]> h) /\
    r_live r = l1 ++ l2 /\
    r_live r' = l1 ++ e_registered (new_entry addr size ibDevN ptrType) b mhandle ext :: l2 /\
    r_lid r' = lid_after (r_nextId r) o (r_lid r) addr /\
    r_nextId r' = next_after (r_nextId r) o wantId.
Proof.
  intros Hw Hk Hb Ha0 Hs0 Hr Hno Hz Ho Hkind Hfit run.
  destruct (mr_register_fresh true true junkE junkI r h addr size ibDevN ptrType b mhandle ext wantId
      Hw Hk Hb Ha0 Hs0 Hr Hno) as [Herr Hnew].
  case_decide as Hov; [by apply Herr; left|].
  destruct (Hnew Hov o Hz Ho Hkind) as [[? _]|(l1 & l2 & Hl & res & out & r' & Hrun & Hw' & Hnx & Hok & _ & Hconv)]; [done|].
  rewrite (Hconv Hfit) in *. destruct (Hok eq_refl) as (Hlive & Hlid & ->).
  exists r', l1, l2. done.
Qed.

(** C34: registering a range and deregistering it gives the extension object
    back to the caller and leaves the live entries and the id index as they
    were. *)
Theorem mr_register_deregister junkE junkI r h addr size ibDevN ptrType b mhandle ext wantId o :
  mr_wf r h -> mr_contract r h addr size b ext ->
  owner_bit b -> addr <> 0 -> size <> 0 -> addr + size < U64_MOD ->
  ~ Exists (mr_overlaps addr size) (r_live r) ->
  (forall x, x ∈ r_live r -> e_baseAddr x <> addr) ->
  ext <> 0 -> h !! ext = Some o -> ext_kind b o -> id_fits true (r_nextId r) o ->
  exists out r1 r2 outEntry,
    flagcxMrRegistryRegister true true junkE junkI r h addr size ibDevN ptrType b mhandle ext wantId
      = Some (flagcxSuccess, out, r1, <[ext := attached (r_nextId r) o]> h) /\
    flagcxMrRegistryDeregister r1 (<[ext := attached (r_nextId r) o]> h) addr b true
      = Some (flagcxSuccess, Some outEntry, Some ext, r2, <[ext := attached (r_nextId r) o]> h) /\
    e_baseAddr outEntry = addr /\ e_size outEntry = size /\ e_ownerMask outEntry = b /\
    e_ext outEntry b = 0 /\
    r_live r2 = r_live r /\ r_lid r2 ≡ₚ r_lid r.
Proof.
  intros Hw Hk Hb Ha0 Hs0 Hr Hnov Hno Hz Ho Hkind Hfit.
  destruct (mr_register_fresh true true junkE junkI r h addr size ibDevN ptrType b mhandle ext wantId
      Hw Hk Hb Ha0 Hs0 Hr Hno) as [_ Hnew].
  destruct (Hnew Hnov o Hz Ho Hkind) as [[? _]|(l1 & l2 & Hl & res & out & r' & Hrun & Hw' & Hnx & Hok & _ & Hconv)]; [done|].
  rewrite (Hconv Hfit) in *. destruct (Hok eq_refl) as (Hlive & Hlid & ->).
  set (e := e_registered (new_entry addr size ibDevN ptrType) b mhandle ext) in *.
  assert (e_baseAddr e = addr /\ e_size e = size /\ e_ownerMask e = b /\ e_ext e b = ext)
    as (Hbase & Hsz & Hmask & Hext) by (unfold e; owner_cases Hb; done).
  destruct (mr_deregister_owner r' _ l1 e l2 b true Hw' Hlive Hb) as (r2 & h2 & Hde & Hh2 & Hw2 & Hl2 & Hn2 & _).
  { rewrite Hmask. by apply owner_bit_mask. }
  rewrite Hbase, Hext in Hde. subst h2.
  assert (Hlive2 : r_live r2 = r_live r).
  { rewrite Hl2, Hl. unfold live_released. rewrite Hmask.
    destruct (Z.eqb_spec (Z.land b (Z.lnot b)) 0) as [|Hc]; [done|]. by rewrite Z.land_lnot_diag in Hc. }
  exists (out_id (r_nextId r) o wantId), r', r2, (sanitizeOutEntry e).
  and_split; [by owner_cases Hb|].
  rewrite (c_index _ _ _ _ (w_core _ _ Hw2)), Hlive2, (c_index _ _ _ _ (w_core _ _ Hw)).
  assert (Hids : forall x, x ∈ r_live r -> id_of (<[ext := attached (r_nextId r) o]> h) x = id_of h x).
  { intros x Hx. destruct Hk as [_ _ Hext' _ _ _]. destruct (Hext' Hb) as [|(_ & Hfr & _)]; [done|].
    apply id_of_heap; [apply (w_core _ _ Hw)|by rewrite lookup_insert_ne; [apply (w_core _ _ Hw)|]|].
    intros q Hq. apply lookup_insert_ne. intros ->. apply Hfr, elem_of_owned. eauto. }
  clear -Hids. induction (r_live r) as [|x l IH]; [done|]. cbn.
  rewrite Hids by set_solver. destruct (id_of h x); cbn; rewrite IH by set_solver; done.
Qed.

Lemma mr_deregister_cases r h addr b wantExt :
  mr_wf r h ->
  (exists l1 e l2 r', r_live r = l1 ++ e :: l2 /\ e_baseAddr e = addr /\ owner_bit b /\
     Z.land (e_ownerMask e) b <> 0 /\
     flagcxMrRegistryDeregister r h addr b wantExt =
       Some (flagcxSuccess, Some (sanitizeOutEntry e), if wantExt then Some (e_ext e b) else None,
             r', if wantExt then h else delete (e_ext e b) h) /\
     mr_wf r' (if wantExt then h else delete (e_ext e b) h) /\
     r_live r' = live_released l1 e l2 b /\ r_nextId r' = r_nextId r /\
     e_ext e b ∉ owned (r_live r')) \/
  ((owner_bit b -> forall e, e ∈ r_live r -> e_baseAddr e = addr -> Z.land (e_ownerMask e) b = 0) /\
   flagcxMrRegistryDeregister r h addr b wantExt = Some (flagcxInternalError, None, None, r, h)).
Proof.
  intros Hw. destruct (decide (owner_bit b)) as [Hb|Hb].
  2: { right. split; [done|]. unfold flagcxMrRegistryDeregister.
       destruct (Z.ltb_spec (ownerBitToIdx b) 0) as [|Hge]; [done|]. by apply ownerBitToIdx_nonneg in Hge. }
  destruct (bsearchExact_spec r h addr Hw) as [(l1 & e & l2 & Hl & <- & Hs)|[Hs Hno]].
  - destruct (decide (Z.land (e_ownerMask e) b = 0)) as [Hz|Hz].
    + right. split; [intros _ x Hx Hbx; by rewrite (live_base_unique r h l1 e l2 Hw Hl x Hx Hbx)|].
      unfold flagcxMrRegistryDeregister. pose proof (ownerBitToIdx_range b Hb).
      destruct (Z.ltb_spec (ownerBitToIdx b) 0); [lia|]. rewrite Hs. cbn [mbind option_bind].
      destruct (Z.ltb_spec (Z.of_nat (length l1)) 0); [lia|].
      rewrite (arr_get_live _ _ _ _ _ Hl). cbn [mbind option_bind]. by rewrite Hz.
    + left. destruct (mr_deregister_owner r h l1 e l2 b wantExt Hw Hl Hb Hz)
        as (r' & h' & Hd & -> & Hw' & Hl' & Hn' & Hnot). exists l1, e, l2, r'. done.
  - right. split; [intros _ e He Hbe; by destruct (Hno e)|].
    unfold flagcxMrRegistryDeregister. pose proof (ownerBitToIdx_range b Hb).
    destruct (Z.ltb_spec (ownerBitToIdx b) 0); [lia|]. by rewrite Hs.
Qed.

(** deregistration.  When owner [b] holds the entry at [addr], the entry
    loses that owner (and goes away with the last one), its extension is
    handed back or freed, the id leaves the index and the invariant holds;
    otherwise the call fails and nothing changes.  Either way it is defined. *)
Theorem mr_deregister_spec r h addr b wantExt :
  mr_wf r h ->
  (exists l1 e l2 r', r_live r = l1 ++ e :: l2 /\ e_baseAddr e = addr /\ owner_bit b /\
     Z.land (e_ownerMask e) b <> 0 /\
     flagcxMrRegistryDeregister r h addr b wantExt =
       Some (flagcxSuccess, Some (sanitizeOutEntry e), if wantExt then Some (e_ext e b) else None,
             r', if wantExt then h else delete (e_ext e b) h) /\
     mr_wf r' (if wantExt then h else delete (e_ext e b) h) /\
     r_live r' = live_released l1 e l2 b /\ r_nextId r' = r_nextId r /\
     e_ext e b ∉ owned (r_live r')) \/
  ((owner_bit b -> forall e, e ∈ r_live r -> e_baseAddr e = addr -> Z.land (e_ownerMask e) b = 0) /\
   flagcxMrRegistryDeregister r h addr b wantExt = Some (flagcxInternalError, None, None, r, h)).
Proof. apply mr_deregister_cases. Qed.

(** ** Lookups *)

(** The copies of the extensions that the caller asked for. *)
Definition ext_copy (h : mr_heap) (p : Z) (want : bool) : option flagcxMrExtension :=
  if want then
    Some (match h !! p with
          | Some (ObjP2p o) => ExtP2p o
          | Some (ObjColl o) => ExtColl o
          | Some (ObjRma o) => ExtRma o
          | None => ExtNone
          end)
  else None.

Definition mr_copies (h : mr_heap) (e : flagcxMrEntry) (want : mr_want) : mr_exts :=
  (ext_copy h (e_p2p e) want.1.1, ext_copy h (e_coll e) want.1.2, ext_copy h (e_rma e) want.2).

Definition mr_found_at (h : mr_heap) (want : mr_want) (e : flagcxMrEntry) : mr_found :=
  (flagcxSuccess, Some (sanitizeOutEntry e, mr_copies h e want)).

Lemma mr_hit_spec h e want :
  entry_ok h e -> h !! 0 = None -> mr_hit h e want = Some (mr_found_at h want e).
Proof.
  intros (_ & _ & _ & Hb) Hnull. destruct want as [[w0 w1] w2].
  destruct (Hb 1 ltac:(by left)) as [_ H1]. destruct (Hb 2 ltac:(right; by left)) as [_ H2].
  destruct (Hb 4 ltac:(right; by right)) as [_ H4]. cbn in H1, H2, H4.
  unfold mr_hit, copyExtensions, mr_found_at, mr_copies, ext_copy, load_p2p, load_coll, load_rma. cbn.
  destruct (Z.eqb_spec (e_p2p e) 0) as [->|Hz1]; [|destruct (H1 Hz1) as ([] & -> & ?); try (cbn in *; lia)];
  (destruct (Z.eqb_spec (e_coll e) 0) as [->|Hz2]; [|destruct (H2 Hz2) as ([] & -> & ?); try (cbn in *; lia)]);
  (destruct (Z.eqb_spec (e_rma e) 0) as [->|Hz4]; [|destruct (H4 Hz4) as ([] & -> & ?); try (cbn in *; lia)]);
  rewrite ?Hnull; by destruct w0, w1, w2.
Qed.

(** The entry that contains an address. *)
Definition mr_contains (addr : Z) (e : flagcxMrEntry) : Prop :=
  e_baseAddr e <= addr < e_baseAddr e + e_size e.

#[export] Instance mr_contains_dec addr e : Decision (mr_contains addr e).
Proof. unfold mr_contains; apply _. Defined.

Lemma list_find_unique {A} (P : A -> Prop) `{!forall x, Decision (P x)} l x :
  x ∈ l -> P x -> (forall y, y ∈ l -> P y -> y = x) -> snd <$> list_find P l = Some x.
Proof.
  intros Hx HP Hu. destruct (list_find P l) as [[i y]|] eqn:Hf; cbn.
  - apply list_find_Some in Hf as (Hy & HPy & _). f_equal. apply Hu; [|done]. by eapply list_elem_of_lookup_2.
  - apply list_find_None in Hf. rewrite Forall_forall in Hf. by destruct (Hf x Hx).
Qed.

Lemma list_find_absent {A} (P : A -> Prop) `{!forall x, Decision (P x)} (l : list A) :
  (forall y, y ∈ l -> ~ P y) -> snd <$> list_find P l = None.
Proof. intros Hno. rewrite (proj2 (list_find_None P l)); [done|]. by apply Forall_forall. Qed.

(** the binary search by address agrees with a scan of all live entries:
    it returns the entry whose range contains the address, with copies of the
    extensions asked for, and fails exactly when there is none. *)
Theorem mr_lookup_spec r h addr want :
  mr_wf r h -> is_u64 addr ->
  flagcxMrRegistryLookup r h addr want =
    Some (from_option (mr_found_at h want) mr_miss
            (snd <$> list_find (mr_contains addr) (r_live r))).
Proof.
  intros Hw Ha. unfold is_u64 in Ha. pose proof (w_count _ _ Hw) as Hcnt. pose proof (w_cap _ _ Hw) as Hcap.
  pose proof (w_core _ _ Hw) as Hc. pose proof (c_ok _ _ _ _ Hc) as Hok. rewrite Forall_forall in Hok.
  unfold flagcxMrRegistryLookup. destruct (Z.eqb_spec (r_count r) 0) as [Hz|Hz].
  { unfold r_live. by rewrite Hz. }
  destruct (bsearch_containing_spec e_baseAddr (r_entries r) (Z.to_nat (r_count r)) addr)
    as (p & Hp & Hsp); [lia|by apply (w_live_sorted r h)|].
  rewrite Z2Nat.id in Hp by lia. unfold bsearchContaining. rewrite Hp. cbn [mbind option_bind].
  apply splits_at_app in Hsp as (l1 & l2 & Hl & <- & H1 & H2).
  fold (r_live r) in Hl. rewrite Forall_forall in H1, H2.
  destruct l1 as [|e l1 _] using rev_ind.
  { cbn. rewrite list_find_absent; [done|]. intros x Hx (Hb & _). rewrite Hl in Hx. cbn in Hx.
    specialize (H2 x Hx). lia. }
  rewrite length_app. cbn [length].
  replace (Z.of_nat (length l1 + 1) - 1) with (Z.of_nat (length l1)) by lia.
  destruct (Z.ltb_spec (Z.of_nat (length l1)) 0); [lia|].
  assert (Hl' : r_live r = l1 ++ e :: l2) by (by rewrite Hl, <-app_assoc).
  rewrite (arr_get_live _ _ _ _ _ Hl'). cbn [mbind option_bind].
  assert (He : e ∈ r_live r) by (rewrite Hl'; set_solver).
  specialize (H1 e ltac:(set_solver)) as Hbe. destruct (Hok e He) as ((? & ? & ?) & _).
  destruct (Z.leb_spec (e_baseAddr e) addr); [|lia]. cbn [andb]. wrap_small.
  assert (Hother : forall x, x ∈ r_live r -> mr_contains addr x -> x = e).
  { intros x Hx [Hx1 Hx2]. rewrite Hl' in Hx. apply elem_of_app in Hx as [Hx|[->|Hx]%elem_of_cons]; [|done|].
    - pose proof (w_order _ _ Hw) as Hord. rewrite Hl' in Hord.
      apply StronglySorted_app_inv in Hord as (_ & _ & Hord).
      specialize (Hord x e Hx ltac:(by left)). unfold mr_before in Hord. lia.
    - specialize (H2 x Hx). lia. }
  destruct (Z.ltb_spec (addr - e_baseAddr e) (e_size e)) as [Hlt|Hge].
  - rewrite (list_find_unique _ _ e He); [|unfold mr_contains; lia|done]. cbn.
    apply mr_hit_spec; [by apply Hok|apply Hc].
  - rewrite list_find_absent; [done|]. intros x Hx Hcx. pose proof (Hother x Hx Hcx) as ->.
    destruct Hcx. lia.
Qed.

(** The entry known to the P2P subsystem under an id. *)
Definition mr_has_id (h : mr_heap) (mrId : Z) (e : flagcxMrEntry) : Prop :=
  id_mrId <$> id_of h e = Some mrId.

#[export] Instance mr_has_id_dec h mrId e : Decision (mr_has_id h mrId e).
Proof. unfold mr_has_id; apply _. Defined.

(** the two-step search by id (index, then entries) agrees with a scan of
    all live entries for the P2P registration with that id. *)
Theorem mr_lookupById_spec r h mrId want :
  mr_wf r h ->
  flagcxMrRegistryLookupById r h mrId want =
    Some (from_option (mr_found_at h want) mr_miss
            (snd <$> list_find (mr_has_id h mrId) (r_live r))).
Proof.
  intros Hw. pose proof (w_core _ _ Hw) as Hc. pose proof (c_ok _ _ _ _ Hc) as Hok. rewrite Forall_forall in Hok.
  pose proof (c_index _ _ _ _ Hc) as Hix. pose proof (c_sorted _ _ _ _ Hc) as Hs.
  unfold flagcxMrRegistryLookupById, idIndexFindBaseAddr.
  destruct (idIndexFind_spec r mrId (mr_wf_idx _ _ Hw) Hs) as [(k1 & x & k2 & Hk & Hid & ->)|[-> Hno]].
  2: { cbn. rewrite list_find_absent; [done|]. intros e He Hhas. unfold mr_has_id in Hhas.
       destruct (id_of h e) as [y|] eqn:Hy; [|done]. cbn in Hhas. simplify_eq.
       apply (Hno y); [|done]. rewrite Hix. apply list_elem_of_omap. eauto. }
  cbn [mbind option_bind]. destruct (Z.ltb_spec (Z.of_nat (length k1)) 0); [lia|].
  rewrite (arr_get_live _ _ _ _ _ Hk). cbn [mbind option_bind].
  assert (x ∈ r_lid r) as Hx by (rewrite Hk; set_solver). pose proof Hx as Hx'.
  rewrite Hix in Hx'. apply list_elem_of_omap in Hx' as (e & He & Hide).
  destruct (Hok e He) as ((Hbase0 & _) & _ & _ & Hbits).
  assert (Hp2p : id_baseAddr x = e_baseAddr e /\ e_p2p e <> 0).
  { unfold id_of in Hide. destruct (h !! e_p2p e) as [[p|p|p]|] eqn:Hp; simplify_eq.
    split; [done|]. intros Hz. by rewrite Hz, (c_null _ _ _ _ Hc) in Hp. }
  destruct Hp2p as [Hxb Hp]. rewrite Hxb. destruct (Z.eqb_spec (e_baseAddr e) 0); [lia|].
  destruct (bsearchExact_spec r h (e_baseAddr e) Hw) as [(l1 & e' & l2 & Hl & Hbase & ->)|[_ Hno]].
  2: { by destruct (Hno e). }
  assert (e' = e) as -> by (symmetry; eapply live_base_unique; [exact Hw|exact Hl|done|by rewrite Hbase]).
  cbn [mbind option_bind]. destruct (Z.ltb_spec (Z.of_nat (length l1)) 0); [lia|].
  rewrite (arr_get_live _ _ _ _ _ Hl). cbn [mbind option_bind].
  destruct (Z.eqb_spec (e_p2p e) 0); [done|].
  rewrite (list_find_unique _ _ e He); [cbn; apply mr_hit_spec; [by apply Hok|apply Hc]| |].
  - unfold mr_has_id. by rewrite Hide; cbn; rewrite Hid.
  - intros y Hy Hhas. unfold mr_has_id in Hhas. destruct (id_of h y) as [z|] eqn:Hz; [|done]. cbn in Hhas.
    simplify_eq. assert (z ∈ r_lid r) as Hzl by (rewrite Hix; apply list_elem_of_omap; eauto).
    apply list_elem_of_lookup in Hzl as [i Hi]. apply list_elem_of_lookup in Hx as [j Hj].
    rewrite (key_sorted_inj id_mrId _ _ _ _ _ Hs Hi Hj Hhas) in Hi. simplify_eq.
    eapply live_base_unique; [exact Hw|exact Hl|done|].
    unfold id_of in Hz. destruct (h !! e_p2p y) as [[p|p|p]|]; simplify_eq. done.
Qed.

(** The search by handle is defined, and what it finds is held by the
    owner it was asked for. *)
Theorem mr_findByHandle_spec r h ownerIdx mhandle want :
  mr_wf r h ->
  (exists e b, e ∈ r_live r /\ owner_bit b /\ ownerBitToIdx b = ownerIdx /\ mhandle <> 0 /\
     e_mhandles e !! Z.to_nat ownerIdx = Some mhandle /\ Z.land (e_ownerMask e) b <> 0 /\
     flagcxMrRegistryFindByHandle r h ownerIdx mhandle want = Some (mr_found_at h want e)) \/
  ((mhandle = 0 \/ (forall b, owner_bit b -> ownerBitToIdx b <> ownerIdx) \/
    forall e, e ∈ r_live r -> e_mhandles e !! Z.to_nat ownerIdx <> Some mhandle) /\
   flagcxMrRegistryFindByHandle r h ownerIdx mhandle want = Some mr_miss).
Proof.
  intros Hw. unfold flagcxMrRegistryFindByHandle.
  destruct (Z.eqb_spec mhandle 0) as [Hz|Hz]; [right; auto|].
  case_test.
  { right. split; [|done]. right; left. intros b Hb. pose proof (ownerBitToIdx_range b Hb).
    destruct Heqb; bool_to_prop; lia. }
  assert (exists b, owner_bit b /\ ownerBitToIdx b = ownerIdx) as (b & Hb & Hib).
  { assert (ownerIdx = 0 \/ ownerIdx = 1 \/ ownerIdx = 2) as [->|[->| ->]] by lia;
      [exists 1|exists 2|exists 4]; (split; [unfold owner_bit; auto|done]). }
  pose proof (c_ok _ _ _ _ (w_core _ _ Hw)) as Hok. pose proof (w_handles _ _ Hw) as Hh.
  pose proof (c_null _ _ _ _ (w_core _ _ Hw)) as Hnull.
  change (take (Z.to_nat (r_count r)) (r_entries r)) with (r_live r).
  induction (r_live r) as [|e l IH]; cbn.
  { right. split; [|done]. right; right. set_solver. }
  apply Forall_cons in Hok as [Hoke Hok]. apply Forall_cons in Hh as [Hhe Hh].
  pose proof Hoke as (_ & Hlen & _).
  destruct (lookup_lt_is_Some_2 (e_mhandles e) (Z.to_nat ownerIdx)) as [cur Hcur]; [lia|].
  rewrite Hcur. cbn. destruct (Z.eqb_spec cur mhandle) as [->|Hne].
  - left. exists e, b. and_split; [by left| |by apply mr_hit_spec].
    intros Hm. specialize (Hhe b Hb Hm). rewrite Hib in Hhe. congruence.
  - destruct (IH Hok Hh) as [(e' & b' & He' & ?)|[Hno Hr]].
    + left. exists e', b'. split; [by right|done].
    + right. split; [|done]. destruct Hno as [?|[?|Hno]]; [by left|by right; left|].
      right; right. intros y [->|Hy]%elem_of_cons; [congruence|auto].
Qed.

(** ** The global registry and the life of ids *)

Lemma mr_empty_wf h n : h !! 0 = None -> 0 < n < U64_MOD -> mr_wf (r_setNextId mr_empty n) h.
Proof. intros. constructor; cbn; try done; try constructor; try done; constructor. Qed.

(** Freeing some pointers in turn. *)
Fixpoint free_all (h : mr_heap) (ps : list Z) : option mr_heap :=
  match ps with
  | [] => Some h
  | p :: ps' => h1 ← mr_free h p; free_all h1 ps'
  end.

Lemma free_all_spec ps h :
  let live := filter (fun p => p <> 0) ps in
  NoDup live -> (forall q, q ∈ live -> is_Some (h !! q)) ->
  exists h', free_all h ps = Some h' /\
    (forall q, q ∈ live -> h' !! q = None) /\ (forall q, q ∉ live -> h' !! q = h !! q).
Proof.
  revert h. induction ps as [|p ps IH]; intros h; cbn [free_all]; cbn zeta.
  { intros _ _. exists h. split; [done|]. split; [set_solver|done]. }
  unfold mr_free. destruct (Z.eqb_spec p 0) as [->|Hp].
  { rewrite filter_cons_False by (by intros []). intros Hnd Hl. cbn [mbind option_bind]. by apply IH. }
  rewrite filter_cons_True by done. intros Hnd Hl. apply NoDup_cons in Hnd as [Hp' Hnd].
  destruct (Hl p) as [o Ho]; [by left|]. rewrite Ho. cbn [mbind option_bind].
  destruct (IH (delete p h) Hnd) as (h' & -> & Hd & Hk).
  - intros q Hq. rewrite lookup_delete_ne by (by intros ->). apply Hl. by right.
  - exists h'. split; [done|]. split.
    + intros q [->|Hq]%elem_of_cons; [|by apply Hd].
      rewrite Hk by done. apply lookup_delete_eq.
    + intros q Hq. apply not_elem_of_cons in Hq as [Hne Hq]. rewrite Hk by done. by apply lookup_delete_ne.
Qed.

(** Releasing all entries frees each owned object once. *)
Lemma free_entries_spec h es :
  Forall (entry_ok h) es -> NoDup (owned es) ->
  exists h', free_entries h es = Some h' /\
    (forall q, q ∈ owned es -> h' !! q = None) /\ (forall q, q ∉ owned es -> h' !! q = h !! q).
Proof.
  revert h. induction es as [|e es IH]; intros h Hok Hnd.
  { exists h. split; [done|]. split; [set_solver|done]. }
  apply Forall_cons in Hok as [He Hok]. rewrite owned_cons in *. apply NoDup_app in Hnd as (Hnde & Hx & Hnd).
  assert (Hfree : exists h1, freeEntryExtensions h e = Some (h1, sanitizeOutEntry e) /\
     (forall q, q ∈ e_ptrs e -> h1 !! q = None) /\ (forall q, q ∉ e_ptrs e -> h1 !! q = h !! q)).
  { destruct (free_all_spec [e_p2p e; e_coll e; e_rma e] h) as (h1 & Hf & Hs); [done| |].
    - intros q Hq. apply elem_of_e_ptrs in Hq as (Hz & b & Hb & <-). destruct He as (_ & _ & _ & Hbits).
      destruct (Hbits b Hb) as [_ Hx']. destruct (Hx' Hz) as (o & Ho & _). by exists o.
    - exists h1. split; [|done]. cbn in Hf. unfold freeEntryExtensions.
      destruct (mr_free h (e_p2p e)) as [h2|]; cbn in *; [|done].
      destruct (mr_free h2 (e_coll e)) as [h3|]; cbn in *; [|done].
      by destruct (mr_free h3 (e_rma e)) as [h4|]; cbn in *; simplify_eq. }
  destruct Hfree as (h1 & Hf & Hf1 & Hf2). cbn. rewrite Hf. cbn.
  destruct (IH h1) as (h' & -> & Hd & Hk); [|done|].
  - rewrite Forall_forall in *. intros x Hxin. eapply entry_ok_heap; [|by apply Hok].
    intros q Hq. apply Hf2. intros Hin. apply (Hx q Hin). apply elem_of_owned. eauto.
  - exists h'. split; [done|]. split.
    + intros q [Hq|Hq]%elem_of_app; [|by apply Hd].
      destruct (decide (q ∈ owned es)) as [|Hn]; [by apply Hd|]. rewrite Hk by done. by apply Hf1.
    + intros q Hq. rewrite elem_of_app in Hq. rewrite Hk, Hf2; tauto.
Qed.

(** The id a call assigned: the owner is new to the entry and the caller left
    the id to the registry. *)
Definition auto_id (o : mr_object) : Prop :=
  match o with ObjP2p p => p2p_mrId p = 0 | _ => True end.

Definition newly_owned (r : flagcxMrRegistry) (addr b : Z) : Prop :=
  forall e, e ∈ r_live r -> e_baseAddr e = addr -> Z.land (e_ownerMask e) b = 0.

Lemma mr_attached_assigns okI r h addr b ext o live' res i r' h' a :
  mr_attached okI true r h addr b ext o live' a -> a = Some (res, Some i, r', h') ->
  0 < r_nextId r -> auto_id o -> i = r_nextId r /\ r_nextId r' = i + 1.
Proof.
  intros (res0 & out & r0 & -> & _ & Hn & Hok & Hbad & _) Ha Hpos Hauto. simplify_eq.
  destruct (decide (res = flagcxSuccess)) as [->|Hne].
  - destruct (Hok eq_refl) as (_ & _ & Hout). rewrite Hn.
    destruct o as [p|p|p]; cbn in *; unfold assigned_id in *; rewrite ?Hauto in *; cbn in *; simplify_eq; lia.
  - destruct (Hbad Hne) as (_ & _ & ? & _). done.
Qed.

Lemma mr_register_assigns okE okI junkE junkI r h addr size ibDevN ptrType b mhandle ext res i r' h' o :
  mr_wf r h -> mr_contract r h addr size b ext -> ext <> 0 -> h !! ext = Some o -> ext_kind b o ->
  auto_id o -> newly_owned r addr b ->
  flagcxMrRegistryRegister okE okI junkE junkI r h addr size ibDevN ptrType b mhandle ext true
    = Some (res, Some i, r', h') ->
  i = r_nextId r /\ r_nextId r' = i + 1.
Proof.
  intros Hw Hk Hz Ho Hkind Hauto Hnew Hrun. pose proof Hk as [Ha Hs Hext Hnx Hcap Hicap].
  pose proof (w_next _ _ Hw) as [Hpos _].
  destruct (decide (owner_bit b /\ addr <> 0 /\ size <> 0 /\ addr + size < U64_MOD)) as [(Hb & Ha0 & Hs0 & Hr)|Hbad].
  2: { by rewrite mr_register_bad in Hrun. }
  destruct (Hext Hb) as [|Hgiven]; [done|].
  destruct (bsearchExact_spec r h addr Hw) as [(l1 & e & l2 & Hl & <- & _)|[_ Hno]].
  - rewrite (mr_register_at _ _ _ _ r h l1 e l2) in Hrun by done.
    destruct (decide (e_size e <> size \/ e_ibDevN e <> ibDevN \/ e_ptrType e <> ptrType \/
      Z.land (e_ownerMask e) b = 0 /\ ext = 0)) as [Hd|Hd].
    { by rewrite (mr_registerExisting_mismatch _ _ _ _ l1 e l2) in Hrun. }
    assert (e_size e = size /\ e_ibDevN e = ibDevN /\ e_ptrType e = ptrType) as (<- & <- & <-) by lia.
    eapply mr_attached_assigns; [|exact Hrun|done|done].
    eapply (mr_register_join okI junkI r h l1 e l2 b mhandle ext true o); try done.
    apply Hnew; [rewrite Hl; set_solver|done].
  - destruct (mr_register_fresh okE okI junkE junkI r h addr size ibDevN ptrType b mhandle ext true
      Hw Hk Hb Ha0 Hs0 Hr Hno) as [Herr Hfresh].
    destruct (decide (Exists (mr_overlaps addr size) (r_live r))) as [Hov|Hov];
      [rewrite Herr in Hrun by auto; done|].
    destruct (Hfresh Hov o Hz Ho Hkind) as [[_ Hr0]|(l1 & l2 & Hl & Hatt)]; [by rewrite Hr0 in Hrun|].
    by eapply mr_attached_assigns.
Qed.

(** The process-wide state: the global registry and the heap of extension
    objects. *)
Record mr_sys := MkMrSys { s_g : mr_global; s_h : mr_heap }.

(** Calls on the global registry, with the ids they assign, and the callers'
    own use of the heap. *)
Inductive mr_step : mr_sys -> list Z -> mr_sys -> Prop :=
| step_init okAlloc okLock g h res g' :
    flagcxMrRegistryGlobalInit okAlloc okLock g = (res, g') ->
    mr_step (MkMrSys g h) [] (MkMrSys g' h)
| step_release g h res g' h' :
    flagcxMrRegistryGlobalRelease g h = Some (res, g', h') ->
    mr_step (MkMrSys g h) [] (MkMrSys g' h')
| step_register okE okI junkE junkI r rc n h addr size ibDevN ptrType b mhandle ext wantId res out r' h' :
    mr_contract r h addr size b ext ->
    flagcxMrRegistryRegister okE okI junkE junkI r h addr size ibDevN ptrType b mhandle ext wantId
      = Some (res, out, r', h') ->
    mr_step (MkMrSys (MkMrGlobal (Some r) rc n) h) [] (MkMrSys (MkMrGlobal (Some r') rc n) h')
| step_assign okE okI junkE junkI r rc n h addr size ibDevN ptrType b mhandle ext res i r' h' o :
    mr_contract r h addr size b ext ->
    ext <> 0 -> h !! ext = Some o -> ext_kind b o -> auto_id o -> newly_owned r addr b ->
    flagcxMrRegistryRegister okE okI junkE junkI r h addr size ibDevN ptrType b mhandle ext true
      = Some (res, Some i, r', h') ->
    mr_step (MkMrSys (MkMrGlobal (Some r) rc n) h) [i] (MkMrSys (MkMrGlobal (Some r') rc n) h')
| step_deregister r rc n h addr b wantExt res oe ox r' h' :
    flagcxMrRegistryDeregister r h addr b wantExt = Some (res, oe, ox, r', h') ->
    mr_step (MkMrSys (MkMrGlobal (Some r) rc n) h) [] (MkMrSys (MkMrGlobal (Some r') rc n) h')
| step_caller g h h' :
    (forall r, g_registry g = Some r -> forall q, q ∈ owned (r_live r) -> h' !! q = h !! q) ->
    h' !! 0 = None ->
    mr_step (MkMrSys g h) [] (MkMrSys g h').

Inductive mr_run : mr_sys -> list Z -> mr_sys -> Prop :=
| run_nil s : mr_run s [] s
| run_cons s1 ids s2 ids' s3 : mr_step s1 ids s2 -> mr_run s2 ids' s3 -> mr_run s1 (ids ++ ids') s3.

(** The next id the process would assign. *)
Definition cur_next (g : mr_global) : Z :=
  match g_registry g with Some r => r_nextId r | None => g_nextId g end.

Record mr_sys_wf (s : mr_sys) : Prop := {
  y_null : s_h s !! 0 = None;
  y_next : 0 < cur_next (s_g s) < U64_MOD;
  y_none : g_registry (s_g s) = None <-> g_refCount (s_g s) = 0;
  y_count : 0 <= g_refCount (s_g s);
  y_some : forall r, g_registry (s_g s) = Some r -> mr_wf r (s_h s)
}.

Definition mr_sys_init (h : mr_heap) : mr_sys := MkMrSys (MkMrGlobal None 0 1) h.

Lemma mr_sys_init_wf h : h !! 0 = None -> mr_sys_wf (mr_sys_init h).
Proof. intros. by constructor. Qed.

Lemma y_some_intro r rc n h :
  mr_wf r h -> rc <> 0 -> 0 <= rc -> mr_sys_wf (MkMrSys (MkMrGlobal (Some r) rc n) h).
Proof.
  intros Hw Hrc Hle. constructor; cbn; try done.
  - apply (w_core _ _ Hw).
  - apply (w_next _ _ Hw).
  - by intros r' [= <-].
Qed.

Lemma mr_deregister_preserves r h addr b wantExt res oe ox r' h' :
  mr_wf r h -> flagcxMrRegistryDeregister r h addr b wantExt = Some (res, oe, ox, r', h') ->
  mr_wf r' h' /\ r_nextId r' = r_nextId r.
Proof.
  intros Hw Hrun.
  destruct (mr_deregister_cases r h addr b wantExt Hw)
    as [(l1 & e & l2 & r1 & _ & _ & _ & _ & Hd & Hw1 & _ & Hn & _)|[_ Hd]];
    rewrite Hd in Hrun; by simplify_eq.
Qed.

Lemma mr_step_preserves s ids s' :
  mr_sys_wf s -> mr_step s ids s' ->
  mr_sys_wf s' /\ cur_next (s_g s) <= cur_next (s_g s') /\
  Forall (fun i => cur_next (s_g s) <= i < cur_next (s_g s')) ids.
Proof.
  intros [Hnull Hnext Hnone Hcnt Hsome] Hst. destruct Hst; cbn in *.
  - (* init *)
    assert (mr_sys_wf (MkMrSys g h)) as Hsame by by constructor.
    unfold flagcxMrRegistryGlobalInit, flagcxMrRegistryCreate in *.
    destruct (Z.eqb_spec (g_refCount g) 0) as [Hz|Hz].
    + assert (g_registry g = None) as Hg by tauto. unfold cur_next in Hnext. rewrite Hg in Hnext.
      destruct okAlloc, okLock; cbn in *; simplify_eq; try by (split; [done|]; split; [lia|constructor]).
      split; [|split; [|constructor]]; [|unfold cur_next; cbn; rewrite Hg; lia].
      apply y_some_intro; [|lia..]. by apply mr_empty_wf.
    + simplify_eq. split; [|split; [unfold cur_next; cbn; lia|constructor]].
      constructor; cbn; try done; [|lia]. split; [by intros ?%Hnone|lia].
  - (* release *)
    unfold flagcxMrRegistryGlobalRelease in *.
    destruct (Z.leb_spec (g_refCount g) 0).
    { simplify_eq. split; [by constructor|]. split; [lia|constructor]. }
    destruct (Z.eqb_spec (g_refCount g - 1) 0) as [Hz|Hz].
    + destruct (g_registry g) as [r|] eqn:Hg; cbn in *; [|done].
      pose proof (Hsome r eq_refl) as Hw. pose proof (w_core _ _ Hw) as Hc.
      destruct (free_entries_spec h (r_live r) (c_ok _ _ _ _ Hc) (c_own _ _ _ _ Hc)) as (h1 & Hf & _ & Hk).
      unfold r_live in Hf. rewrite Hf in *. cbn in *. simplify_eq.
      unfold cur_next in *; cbn in *. rewrite Hg in *. split; [|split; [lia|constructor]].
      constructor; cbn; try done; try lia.
      rewrite Hk; [done|]. intros Hin. by apply owned_neq_0 in Hin.
    + simplify_eq. split; [|split; [unfold cur_next; cbn; lia|constructor]].
      constructor; cbn; try done; [|lia]. split; [intros ?%Hnone; lia|lia].
  - (* register *)
    destruct (mr_register_preserves okE okI junkE junkI r h addr size ibDevN ptrType b mhandle ext wantId
      (Hsome r eq_refl) ltac:(done)) as (? & ? & ? & ? & Hrun & Hw' & Hn & _).
    simplify_eq. unfold cur_next; cbn. split; [|split; [lia|constructor]].
    apply y_some_intro; [done| |lia]. by intros ?%Hnone.
  - (* register, with an id of the registry *)
    destruct (mr_register_preserves okE okI junkE junkI r h addr size ibDevN ptrType b mhandle ext true
      (Hsome r eq_refl) ltac:(done)) as (? & ? & ? & ? & Hrun & Hw' & Hn & _).
    destruct (mr_register_assigns okE okI junkE junkI r h addr size ibDevN ptrType b mhandle ext res i r' h' o
      (Hsome r eq_refl)) as [-> Hn']; try done.
    simplify_eq. unfold cur_next; cbn. split; [|split; [lia|repeat constructor; lia]].
    apply y_some_intro; [done| |lia]. by intros ?%Hnone.
  - (* deregister *)
    destruct (mr_deregister_preserves r h addr b wantExt res oe ox r' h' (Hsome r eq_refl)) as [Hw' Hn]; [done|].
    unfold cur_next in *; cbn in *. rewrite Hn. split; [|split; [lia|constructor]].
    apply y_some_intro; [done| |lia]. by intros ?%Hnone.
  - (* the callers *)
    split; [|split; [lia|constructor]]. constructor; cbn; try done.
    intros r Hr. specialize (Hsome r Hr). destruct Hsome. constructor; try done. eapply mr_core_heap; [|done..]. eauto.
Qed.

Lemma mr_run_ids s ids s' :
  mr_run s ids s' -> mr_sys_wf s ->
  mr_sys_wf s' /\ cur_next (s_g s) <= cur_next (s_g s') /\
  StronglySorted Z.lt ids /\ Forall (fun i => cur_next (s_g s) <= i < cur_next (s_g s')) ids.
Proof.
  induction 1 as [s|s1 ids s2 ids' s3 Hstep Hrun IH]; intros Hw.
  { and_split; constructor. }
  pose proof (mr_step_preserves _ _ _ Hw Hstep) as (Hw2 & Hle & Hb).
  assert (StronglySorted Z.lt ids) as Hs1 by (destruct Hstep; repeat constructor).
  destruct (IH Hw2) as (Hw3 & Hle' & Hs & Hb'). and_split.
  - apply StronglySorted_app_inv. and_split. rewrite Forall_forall in Hb, Hb'.
    intros x y Hx Hy. specialize (Hb x Hx). specialize (Hb' y Hy). lia.
  - apply Forall_app. split; (eapply Forall_impl; [done|]); cbn; lia.
Qed.

(** C14: over any sequence of calls on the global registry, across its
    destruction and recreation, the ids assigned are strictly increasing: no
    id is ever assigned twice in the life of the process. *)
Theorem mr_ids_never_reused h ids s :
  h !! 0 = None -> mr_run (mr_sys_init h) ids s ->
  StronglySorted Z.lt ids /\ Forall (fun i => 0 < i) ids /\ mr_sys_wf s.
Proof.
  intros H0 Hrun. destruct (mr_run_ids _ _ _ Hrun (mr_sys_init_wf h H0)) as (Hw & _ & Hs & Hb).
  and_split. eapply Forall_impl; [done|]. cbn. lia.
Qed.

(** a registration by an owner that already holds the range keeps its id:
    an extension with a different preset id is refused, any other replaces
    the old one, which is freed.  Even a refused call has stored the handle. *)
Theorem mr_register_again okE okI junkE junkI r h l1 e l2 b mhandle ext wantId :
  mr_wf r h -> mr_contract r h (e_baseAddr e) (e_size e) b ext ->
  r_live r = l1 ++ e :: l2 -> owner_bit b -> Z.land (e_ownerMask e) b <> 0 ->
  exists res out r' h',
    flagcxMrRegistryRegister okE okI junkE junkI r h (e_baseAddr e) (e_size e) (e_ibDevN e)
      (e_ptrType e) b mhandle ext wantId = Some (res, out, r', h') /\
    r_lid r' = r_lid r /\ r_nextId r' = r_nextId r /\
    (res <> flagcxSuccess <-> b = FLAGCX_MR_OWNER_P2P /\ ext <> 0 /\ id_conflict h e ext) /\
    (res = flagcxSuccess -> r_live r' = l1 ++ e_updated e b mhandle ext :: l2 /\
       out = if wantId then Some (known_id h' (e_updated e b mhandle ext) b) else None) /\
    (res <> flagcxSuccess -> res = flagcxInternalError /\ h' = h /\
       r_live r' = l1 ++ e_rehandled e b mhandle :: l2).
Proof.
  intros Hw Hk Hl Hb Hbit. destruct Hk as [Ha Hs Hext Hnx _ _].
  destruct (mr_entry_facts _ _ _ _ _ Hw Hl) as (((? & ? & ?) & _) & _).
  rewrite (mr_register_at _ _ _ _ r h l1 e l2) by (done || lia).
  destruct (mr_register_owned okI junkI r h l1 e l2 b mhandle ext wantId Hw Hl Hb (Hext Hb) Hnx Hbit)
    as (res & out & r' & h' & -> & _ & Hlid & Hn & Hres & Hok & Hbad & Hconf).
  eexists _, _, _, _. split; [done|]. and_split. intros Hne. destruct (Hbad Hne) as (? & ? & _).
  and_split. by destruct Hres.
Qed.

(** ** A concrete registry *)

Definition ex_p2p (id : Z) : flagcxMrP2pExt := MkP2pExt id false 0 [].

Definition ex_heap : mr_heap :=
  <[100 := ObjP2p (ex_p2p 3)]> (<[200 := ObjColl (MkCollExt 1 0)]> (<[300 := ObjRma (MkRmaExt 7)]>
  (<[400 := ObjP2p (ex_p2p 0)]> (<[500 := ObjP2p (ex_p2p 9)]> ∅)))).

Definition ex_e1 : flagcxMrEntry := MkMrEntry 4096 4096 0 1 3 [11; 12; 0] 100 200 0.
Definition ex_e2 : flagcxMrEntry := MkMrEntry 16384 4096 0 1 4 [0; 0; 13] 0 0 300.

Definition ex_reg : flagcxMrRegistry :=
  MkMrRegistry [ex_e1; ex_e2] 2 2 5 [MkMrIdEntry 3 4096] 1 1.

Lemma ex_entry_ok e : e ∈ [ex_e1; ex_e2] -> entry_ok ex_heap e /\ handles_ok e.
Proof.
  intros He. assert (e = ex_e1 \/ e = ex_e2) as [->| ->] by set_solver.
  - split.
    + split; [by_deciding|]. split; [done|]. split; [done|]. intros b Hb.
      owner_cases Hb; (split; [by_deciding|]); intros Hne; cbn in *; [|..|done];
        [exists (ObjP2p (ex_p2p 3))|exists (ObjColl (MkCollExt 1 0))]; done.
    + intros b Hb. owner_cases Hb; done.
  - split.
    + split; [by_deciding|]. split; [done|]. split; [done|]. intros b Hb.
      owner_cases Hb; (split; [by_deciding|]); intros Hne; cbn in *; try done.
      by exists (ObjRma (MkRmaExt 7)).
    + intros b Hb. owner_cases Hb; done.
Qed.

Lemma ex_reg_wf : mr_wf ex_reg ex_heap.
Proof.
  constructor; try done.
  - repeat constructor; done.
  - repeat constructor; done.
  - constructor.
    + apply Forall_forall. intros e He. by apply ex_entry_ok.
    + by_deciding.
    + repeat constructor.
    + vm_compute. reflexivity.
    + repeat constructor.
    + done.
  - apply Forall_forall. intros e He. by apply ex_entry_ok.
Qed.

Lemma ex_contract addr size ext :
  is_u64 addr -> is_u64 size -> ext = 400 \/ ext = 500 ->
  mr_contract ex_reg ex_heap addr size FLAGCX_MR_OWNER_P2P ext.
Proof.
  intros Ha Hs Hext. constructor; try done. intros _. right.
  destruct Hext as [->| ->]; (split; [done|]); (split; [by_deciding|]);
    [exists (ObjP2p (ex_p2p 0))|exists (ObjP2p (ex_p2p 9))]; done.
Qed.

Lemma mr_register_safe_witness :
  exists res out r' h',
    flagcxMrRegistryRegister true true ex_e1 (MkMrIdEntry 0 0) ex_reg ex_heap 8192 4096 0 1
      FLAGCX_MR_OWNER_P2P 21 400 true = Some (res, out, r', h') /\
    mr_wf r' h' /\ r_nextId ex_reg <= r_nextId r' /\
    (res <> flagcxSuccess -> owner_bit FLAGCX_MR_OWNER_P2P -> 400 ∉ owned (r_live r')) /\
    (res = flagcxSuccess -> 400 <> 0 -> 400 ∈ owned (r_live r')).
Proof. apply mr_register_safe; [exact ex_reg_wf|apply ex_contract; [done|done|by left]]. Defined.

Lemma mr_register_new_witness :
  exists r' l1 l2,
    flagcxMrRegistryRegister true true ex_e1 (MkMrIdEntry 0 0) ex_reg ex_heap 8192 4096 0 1
      FLAGCX_MR_OWNER_P2P 21 400 true = Some (flagcxSuccess, Some 5, r',
        <[400 := ObjP2p (ex_p2p 5)]> ex_heap) /\
    r_live ex_reg = l1 ++ l2 /\
    r_live r' = l1 ++ e_registered (new_entry 8192 4096 0 1) FLAGCX_MR_OWNER_P2P 21 400 :: l2.
Proof.
  pose proof (mr_register_new_spec ex_e1 (MkMrIdEntry 0 0) ex_reg ex_heap 8192 4096 0 1
    FLAGCX_MR_OWNER_P2P 21 400 true (ObjP2p (ex_p2p 0)) ex_reg_wf
    (ex_contract 8192 4096 400 ltac:(done) ltac:(done) ltac:(by left)) ltac:(by left) ltac:(done)
    ltac:(done) ltac:(lia)) as H.
  destruct H as (r' & l1 & l2 & Hrun & _ & Hl & Hl' & _).
  - apply Forall_forall. by_deciding.
  - done.
  - done.
  - done.
  - split; [done|by left].
  - exists r', l1, l2. done.
Defined.

Lemma mr_register_deregister_witness :
  exists out r1 r2 outEntry h1,
    flagcxMrRegistryRegister true true ex_e1 (MkMrIdEntry 0 0) ex_reg ex_heap 8192 4096 0 1
      FLAGCX_MR_OWNER_P2P 21 500 false = Some (flagcxSuccess, out, r1, h1) /\
    flagcxMrRegistryDeregister r1 h1 8192 FLAGCX_MR_OWNER_P2P true
      = Some (flagcxSuccess, Some outEntry, Some 500, r2, h1) /\
    r_live r2 = [ex_e1; ex_e2].
Proof.
  destruct (mr_register_deregister ex_e1 (MkMrIdEntry 0 0) ex_reg ex_heap 8192 4096 0 1
    FLAGCX_MR_OWNER_P2P 21 500 false (ObjP2p (ex_p2p 9)) ex_reg_wf
    (ex_contract 8192 4096 500 ltac:(done) ltac:(done) ltac:(by right)) ltac:(by left) ltac:(done)
    ltac:(done) ltac:(lia)) as (out & r1 & r2 & oe & H1 & H2 & _ & _ & _ & _ & H3 & _).
  - by_deciding.
  - apply Forall_forall. by_deciding.
  - done.
  - done.
  - done.
  - split; [done|]. right. done.
  - exists out, r1, r2, oe, (<[500 := attached 5 (ObjP2p (ex_p2p 9))]> ex_heap). done.
Defined.

Lemma mr_deregister_witness :
  exists r', flagcxMrRegistryDeregister ex_reg ex_heap 16384 FLAGCX_MR_OWNER_RMA false =
     Some (flagcxSuccess, Some (sanitizeOutEntry ex_e2), None, r', delete 300 ex_heap) /\
     mr_wf r' (delete 300 ex_heap).
Proof.
  destruct (mr_deregister_spec ex_reg ex_heap 16384 FLAGCX_MR_OWNER_RMA false ex_reg_wf)
    as [(l1 & e & l2 & r' & Hl & Hb & _ & _ & Hd & Hw & _)|[Hno _]].
  - assert (e ∈ [ex_e1; ex_e2]) as He by (change [ex_e1; ex_e2] with (r_live ex_reg); rewrite Hl; set_solver).
    assert (e = ex_e1 \/ e = ex_e2) as [->| ->] by set_solver; [done|]. exists r'. done.
  - specialize (Hno ltac:(right; by right) ex_e2). cbv in Hno. exfalso.
    discriminate Hno; [right; left|done].
Defined.

Lemma mr_lookup_witness :
  flagcxMrRegistryLookup ex_reg ex_heap 5000 (true, false, false) =
  Some (flagcxSuccess, Some (sanitizeOutEntry ex_e1, (Some (ExtP2p (ex_p2p 3)), None, None))).
Proof. rewrite (mr_lookup_spec ex_reg ex_heap 5000 _ ex_reg_wf ltac:(done)). reflexivity. Defined.

Lemma mr_lookupById_witness :
  flagcxMrRegistryLookupById ex_reg ex_heap 3 (false, true, false) =
  Some (flagcxSuccess, Some (sanitizeOutEntry ex_e1, (None, Some (ExtColl (MkCollExt 1 0)), None))).
Proof. rewrite (mr_lookupById_spec ex_reg ex_heap 3 _ ex_reg_wf). reflexivity. Defined.

Lemma mr_findByHandle_witness :
  exists e, e ∈ r_live ex_reg /\
    flagcxMrRegistryFindByHandle ex_reg ex_heap 2 13 (false, false, false) =
      Some (mr_found_at ex_heap (false, false, false) e).
Proof.
  destruct (mr_findByHandle_spec ex_reg ex_heap 2 13 (false, false, false) ex_reg_wf)
    as [(e & b & He & _ & _ & _ & _ & _ & Hr)|[_ Hr]]; [by exists e|discriminate Hr].
Defined.

(** Two owners, a teardown and a second life. *)
Lemma mr_ids_never_reused_witness :
  exists s, mr_run (mr_sys_init ex_heap) [1; 2] s /\ StronglySorted Z.lt [1; 2].
Proof.
  assert (Hreg : forall n, exists r', flagcxMrRegistryRegister true true ex_e1 (MkMrIdEntry 0 0)
    (r_setNextId mr_empty n) ex_heap 8192 4096 0 1 FLAGCX_MR_OWNER_COLL 21 200 true
    = Some (flagcxSuccess, Some n, r', ex_heap) /\ r_nextId r' = n +u64 1 /\
      mr_free ex_heap 200 = Some (delete 200 ex_heap) /\
      free_entries ex_heap (take (Z.to_nat (r_count r')) (r_entries r')) = Some (delete 200 ex_heap)).
  { intros n. eexists. split; [reflexivity|]. split; [reflexivity|]. split; reflexivity. }
  assert (Hk : forall n, n < 3 -> mr_contract (r_setNextId mr_empty n) ex_heap 8192 4096 FLAGCX_MR_OWNER_COLL 200).
  { intros n Hn. constructor; try done; [|cbn; lia]. intros _. right. split; [done|].
    split; [by_deciding|]. by exists (ObjColl (MkCollExt 1 0)). }
  destruct (Hreg 1) as (r1 & Hr1 & Hn1 & _ & Hf1). destruct (Hreg 2) as (r2 & Hr2 & _).
  assert (Hrun : mr_run (mr_sys_init ex_heap) ([] ++ [1] ++ [] ++ [] ++ [] ++ [2] ++ [])
    (MkMrSys (MkMrGlobal (Some r2) 1 2) ex_heap)).
  { eapply run_cons. { by apply (step_init true true _ _ flagcxSuccess (MkMrGlobal (Some (r_setNextId mr_empty 1)) 1 1)). }
    eapply run_cons. { eapply (step_assign true true ex_e1 (MkMrIdEntry 0 0)); [by apply Hk| | | | | |exact Hr1]; try done.
      intros e He. by apply elem_of_nil in He. }
    eapply run_cons. { eapply step_release. unfold flagcxMrRegistryGlobalRelease. cbn -[free_entries].
      rewrite Hf1, Hn1. reflexivity. }
    eapply run_cons. { by apply (step_caller _ _ ex_heap). }
    eapply run_cons. { by apply (step_init true true _ _ flagcxSuccess (MkMrGlobal (Some (r_setNextId mr_empty 2)) 1 2)). }
    eapply run_cons. { eapply (step_assign true true ex_e1 (MkMrIdEntry 0 0)); [by apply Hk| | | | | |exact Hr2]; try done.
      intros e He. by apply elem_of_nil in He. }
    apply run_nil. }
  eexists. split; [exact Hrun|].
  exact (proj1 (mr_ids_never_reused ex_heap [1; 2] _ ltac:(done) Hrun)).
Defined.

(** The id conflict: the handle is stored although the call fails. *)
Lemma mr_register_again_witness :
  exists r', flagcxMrRegistryRegister true true ex_e1 (MkMrIdEntry 0 0) ex_reg ex_heap 4096 4096 0 1
      FLAGCX_MR_OWNER_P2P 21 500 true = Some (flagcxInternalError, None, r', ex_heap) /\
    r_live r' = [e_setHandle ex_e1 0 21; ex_e2].
Proof.
  destruct (mr_register_again true true ex_e1 (MkMrIdEntry 0 0) ex_reg ex_heap [] ex_e1 [ex_e2]
    FLAGCX_MR_OWNER_P2P 21 500 true ex_reg_wf
    (ex_contract 4096 4096 500 ltac:(done) ltac:(done) ltac:(by right)) ltac:(done) ltac:(by left) ltac:(done))
    as (res & out & r' & h' & Hrun & _ & _ & Hiff & _ & Hbad).
  assert (res <> flagcxSuccess) as Hne.
  { apply Hiff. split; [done|]. split; [done|]. by exists (ex_p2p 9), (ex_p2p 3). }
  destruct (Hbad Hne) as (-> & -> & Hl). vm_compute in Hrun. injection Hrun as <- <-.
  eexists. split; [reflexivity|exact Hl].
Defined.
