(* ===== verification/RegPool.v ===== *)
(** The buffer registration pool ([flagcx/core/reg_pool.cc]): user buffers are
    rounded to pages, registrations that share a page share one item, every
    page of an item is mapped to it, globally and per communicator, and the
    imported IPC mappings of P2P peers are shared through a reference-counted
    cache.

    Items and IPC records are heap objects ([rp_items], [rp_infos]); reading a
    dead one is undefined behaviour, here [None].  The maps are
    [std::unordered_map]s of words.  Deregistration of a backend handle is a
    call to the proxy, given by its result ([netDereg], [p2pDereg]); the
    address of a new item is [fresh]. *)
From S2P Require Import Prelude Flagcx.

Abbreviation GLOBAL_POOL_KEY := 0 (only parsing).

(** ** Data *)

Record flagcxRegNetHandle := MkNetHandle {
  nh_handle : Z;
  nh_proxyConn : Z;
  nh_ownerComm : Z
}.

Record flagcxRegP2pHandle := MkP2pHandle {
  ph_handle : Z;
  ph_proxyConn : Z;
  ph_ownerComm : Z
}.

Record flagcxIpcRegInfo := MkIpcRegInfo {
  ipc_peerRank : Z;
  ipc_allocationBase : Z;
  ipc_allocationSize : Z;
  ipc_refCount : Z;
  ipc_proxyconn : Z;
  ipc_importedBase : Z;
  ipc_legacyIpcCap : bool;
  ipc_handleReady : bool;
  ipc_sameProcess : bool
}.

Record flagcxRegItem := MkRegItem {
  it_beginAddr : Z;
  it_endAddr : Z;
  it_refCount : Z;
  it_handles : list (flagcxRegNetHandle * flagcxRegP2pHandle);
  it_homoRegHandles : gmap Z Z
}.

(** [flagcxRegPool]: [rp_pool] is [regPool[GLOBAL_POOL_KEY]], the only inner
    map the code uses. *)
Record flagcxRegPool := MkRegPool {
  rp_items : gmap Z flagcxRegItem;
  rp_infos : gmap Z flagcxIpcRegInfo;
  rp_map : gmap Z (gmap Z Z);
  rp_pool : gmap Z Z;
  rp_cache : gmap (Z * Z * Z) Z;
  rp_pageSize : Z
}.

Definition rp_setItems (s : flagcxRegPool) (x : gmap Z flagcxRegItem) : flagcxRegPool :=
  MkRegPool x (rp_infos s) (rp_map s) (rp_pool s) (rp_cache s) (rp_pageSize s).
Definition rp_setMap (s : flagcxRegPool) (x : gmap Z (gmap Z Z)) : flagcxRegPool :=
  MkRegPool (rp_items s) (rp_infos s) x (rp_pool s) (rp_cache s) (rp_pageSize s).
Definition rp_setPool (s : flagcxRegPool) (x : gmap Z Z) : flagcxRegPool :=
  MkRegPool (rp_items s) (rp_infos s) (rp_map s) x (rp_cache s) (rp_pageSize s).
Definition rp_setIpc (s : flagcxRegPool) (i : gmap Z flagcxIpcRegInfo) (c : gmap (Z * Z * Z) Z)
    : flagcxRegPool :=
  MkRegPool (rp_items s) i (rp_map s) (rp_pool s) c (rp_pageSize s).

Definition it_setRange (it : flagcxRegItem) (b e : Z) : flagcxRegItem :=
  MkRegItem b e (it_refCount it) (it_handles it) (it_homoRegHandles it).
Definition it_setRef (it : flagcxRegItem) (n : Z) : flagcxRegItem :=
  MkRegItem (it_beginAddr it) (it_endAddr it) n (it_handles it) (it_homoRegHandles it).
Definition it_setHandles (it : flagcxRegItem) hs : flagcxRegItem :=
  MkRegItem (it_beginAddr it) (it_endAddr it) (it_refCount it) hs (it_homoRegHandles it).
Definition ipc_setRef (i : flagcxIpcRegInfo) (n : Z) : flagcxIpcRegInfo :=
  MkIpcRegInfo (ipc_peerRank i) (ipc_allocationBase i) (ipc_allocationSize i) n
    (ipc_proxyconn i) (ipc_importedBase i) (ipc_legacyIpcCap i) (ipc_handleReady i)
    (ipc_sameProcess i).

Definition nh_null : flagcxRegNetHandle := MkNetHandle 0 0 0.
Definition ph_null : flagcxRegP2pHandle := MkP2pHandle 0 0 0.

(** ** Pages *)

(** [x & -pageSize] on 64 bits. *)
Definition page_mask (pageSize x : Z) : Z := Z.land x ((0 -u64 pageSize)).

Definition getPagedAddr (pageSize data length : Z) : Z * Z :=
  (page_mask pageSize data,
   page_mask pageSize (((data +u64 length) +u64 pageSize) -u64 1)).

(** The addresses [for (addr = b; addr < e; addr += pageSize)] visits. *)
Definition pages (pageSize b e : Z) : list Z :=
  (fun i => b + i * pageSize) <$> seqZ 0 ((e - b + pageSize - 1) / pageSize).

(** ** Maps of pages *)

(** [regMap[commKey]], which creates the inner map. *)
Definition comm_map (s : flagcxRegPool) (commKey : Z) : gmap Z Z :=
  default ∅ (rp_map s !! commKey).

Definition set_pages (pm : gmap Z Z) (addrs : list Z) (reg : Z) : gmap Z Z :=
  foldl (fun m a => <[a := reg]> m) pm addrs.

Definition map_pages (s : flagcxRegPool) (commKey b e reg : Z) : flagcxRegPool :=
  rp_setMap s (<[commKey := set_pages (comm_map s commKey) (pages (rp_pageSize s) b e) reg]> (rp_map s)).

Definition mapRegItemPages (s : flagcxRegPool) (commKey reg : Z) : option flagcxRegPool :=
  if reg =? 0 then Some s else
  it ← rp_items s !! reg;
  Some (map_pages s commKey (it_beginAddr it) (it_endAddr it) reg).

(** ** Registration *)

(** The scan for an existing item on the pages of the new range. *)
Definition find_existing (s : flagcxRegPool) (b e : Z) : option Z :=
  match rp_map s !! GLOBAL_POOL_KEY with
  | None => None
  | Some pm => head (omap (fun a => pm !! a) (pages (rp_pageSize s) b e))
  end.

Abbreviation rp_answer := (option (flagcxResult_t * flagcxRegPool)).

(** Extending [existing] backward to [b]. *)
Definition extend_backward (s : flagcxRegPool) (existing b : Z) : rp_answer :=
  it ← rp_items s !! existing;
  if negb (b <? it_beginAddr it) then Some (flagcxSuccess, s) else
  let oldBegin := it_beginAddr it in
  let s1 := map_pages (rp_setItems s (<[existing := it_setRange it b (it_endAddr it)]> (rp_items s)))
              GLOBAL_POOL_KEY b oldBegin existing in
  match rp_pool s1 !! oldBegin with
  | None => Some (flagcxInternalError, s1)
  | Some tmp =>
      let s2 := rp_setPool s1 (delete oldBegin (rp_pool s1)) in
      (* the moved-out item dies with [tmp] on this path *)
      if bool_decide (is_Some (rp_pool s2 !! b))
      then Some (flagcxInternalError, rp_setItems s2 (delete tmp (rp_items s2)))
      else Some (flagcxSuccess, rp_setPool s2 (<[b := tmp]> (rp_pool s2)))
  end.

(** Extending [existing] forward to [e]. *)
Definition extend_forward (s : flagcxRegPool) (existing e : Z) : option flagcxRegPool :=
  it ← rp_items s !! existing;
  if negb (it_endAddr it <? e) then Some s else
  let oldEnd := it_endAddr it in
  Some (map_pages (rp_setItems s (<[existing := it_setRange it (it_beginAddr it) e]> (rp_items s)))
          GLOBAL_POOL_KEY oldEnd e existing).

Definition registerExisting (s : flagcxRegPool) (comm existing b e : Z) : rp_answer :=
  it ← rp_items s !! existing;
  let s1 := rp_setItems s (<[existing := it_setRef it (it_refCount it + 1)]> (rp_items s)) in
  '(res, s2) ← extend_backward s1 existing b;
  if negb (bool_decide (res = flagcxSuccess)) then Some (res, s2) else
  s3 ← extend_forward s2 existing e;
  if negb (comm =? 0) then s4 ← mapRegItemPages s3 comm existing; Some (flagcxSuccess, s4)
  else Some (flagcxSuccess, s3).

Definition registerNew (s : flagcxRegPool) (fresh comm b e : Z) : rp_answer :=
  let '(s1, regPtr) :=
    match rp_pool s !! b with
    | Some p => (s, p)
    | None =>
        (rp_setPool (rp_setItems s (<[fresh := MkRegItem b e 1 [] ∅]> (rp_items s)))
           (<[b := fresh]> (rp_pool s)), fresh)
    end in
  s2 ← mapRegItemPages s1 GLOBAL_POOL_KEY regPtr;
  if negb (comm =? 0) then s3 ← mapRegItemPages s2 comm regPtr; Some (flagcxSuccess, s3)
  else Some (flagcxSuccess, s2).

Definition registerBuffer (s : flagcxRegPool) (fresh comm data length : Z) : rp_answer :=
  if (data =? 0) || (length =? 0) then Some (flagcxSuccess, s) else
  let '(b, e) := getPagedAddr (rp_pageSize s) data length in
  match find_existing s b e with
  | Some existing => registerExisting s comm existing b e
  | None => registerNew s fresh comm b e
  end.

(** ** Backend handles *)

Definition swap_remove {A} (i : nat) (l : list A) : list A :=
  match last l with
  | Some x => take (length l - 1) (<[i := x]> l)
  | None => l
  end.

(** After the treatment of pair [i]: dropped when both handles are null. *)
Definition settle_pair (np : flagcxRegNetHandle * flagcxRegP2pHandle) (i : nat)
    (hs : list (flagcxRegNetHandle * flagcxRegP2pHandle)) :=
  let hs1 := <[i := np]> hs in
  if (nh_handle np.1 =? 0) && (ph_handle np.2 =? 0) then (swap_remove i hs1, i) else (hs1, S i).

(** The scan of [removeRegItemNetHandles]. *)
Fixpoint net_loop (netDereg : Z -> Z -> Z -> flagcxResult_t) (comm : Z) (fuel : nat)
    (hs : list (flagcxRegNetHandle * flagcxRegP2pHandle)) (i : nat)
    : option (flagcxResult_t * list (flagcxRegNetHandle * flagcxRegP2pHandle)) :=
  match fuel with
  | O => None
  | S fuel' =>
      match hs !! i with
      | None => Some (flagcxSuccess, hs)
      | Some (n, p) =>
          if negb (nh_handle n =? 0) && ((comm =? 0) || (nh_ownerComm n =? comm)) then
            let r := netDereg (nh_ownerComm n) (nh_proxyConn n) (nh_handle n) in
            if flagcx_failed r then Some (r, hs) else
            let '(hs', i') := settle_pair (nh_null, p) i hs in
            net_loop netDereg comm fuel' hs' i'
          else
            let '(hs', i') := settle_pair (n, p) i hs in
            net_loop netDereg comm fuel' hs' i'
      end
  end.

(** Each round drops a pair or advances: [S (length hs)] rounds are enough. *)
Definition removeRegItemNetHandles (netDereg : Z -> Z -> Z -> flagcxResult_t)
    (s : flagcxRegPool) (comm reg : Z) : rp_answer :=
  if reg =? 0 then Some (flagcxSuccess, s) else
  it ← rp_items s !! reg;
  '(res, hs) ← net_loop netDereg comm (S (length (it_handles it))) (it_handles it) 0;
  Some (res, rp_setItems s (<[reg := it_setHandles it hs]> (rp_items s))).

(** Dropping one reference of an IPC record: the last one closes the mapping
    and frees the record. *)
Definition release_ipc (p2pDereg : Z -> Z -> flagcxResult_t) (s : flagcxRegPool)
    (p : flagcxRegP2pHandle) : rp_answer :=
  info ← rp_infos s !! ph_handle p;
  if ipc_refCount info <=? 0 then Some (flagcxInternalError, s) else
  if ipc_refCount info =? 1 then
    let key := (ph_ownerComm p, ipc_peerRank info, ipc_allocationBase info) in
    if negb (bool_decide (rp_cache s !! key = Some (ph_handle p)))
    then Some (flagcxInternalError, s) else
    let r := p2pDereg (ph_ownerComm p) (ph_handle p) in
    if flagcx_failed r then Some (r, s) else
    Some (flagcxSuccess,
          rp_setIpc s (delete (ph_handle p) (rp_infos s)) (delete key (rp_cache s)))
  else
    Some (flagcxSuccess,
          rp_setIpc s (<[ph_handle p := ipc_setRef info (ipc_refCount info - 1)]> (rp_infos s))
            (rp_cache s)).

(** The scan of [removeRegItemP2pHandles]; the handle list belongs to the item
    and is written back by the caller. *)
Fixpoint p2p_loop (p2pDereg : Z -> Z -> flagcxResult_t) (comm : Z) (fuel : nat)
    (s : flagcxRegPool) (hs : list (flagcxRegNetHandle * flagcxRegP2pHandle)) (i : nat)
    : option (flagcxResult_t * flagcxRegPool * list (flagcxRegNetHandle * flagcxRegP2pHandle)) :=
  match fuel with
  | O => None
  | S fuel' =>
      match hs !! i with
      | None => Some (flagcxSuccess, s, hs)
      | Some (n, p) =>
          if negb (ph_handle p =? 0) && ((comm =? 0) || (ph_ownerComm p =? comm)) then
            '(r, s') ← release_ipc p2pDereg s p;
            if flagcx_failed r then Some (r, s', hs) else
            let '(hs', i') := settle_pair (n, ph_null) i hs in
            p2p_loop p2pDereg comm fuel' s' hs' i'
          else
            let '(hs', i') := settle_pair (n, p) i hs in
            p2p_loop p2pDereg comm fuel' s hs' i'
      end
  end.

Definition removeRegItemP2pHandles (p2pDereg : Z -> Z -> flagcxResult_t)
    (s : flagcxRegPool) (comm reg : Z) : rp_answer :=
  if reg =? 0 then Some (flagcxSuccess, s) else
  it ← rp_items s !! reg;
  '(res, s', hs) ← p2p_loop p2pDereg comm (S (length (it_handles it))) s (it_handles it) 0;
  Some (res, rp_setItems s' (<[reg := it_setHandles it hs]> (rp_items s'))).

(** Adding handles: a net handle reuses the pair of its connector. *)
Fixpoint set_net_handle (hs : list (flagcxRegNetHandle * flagcxRegP2pHandle))
    (comm handle proxyConn : Z) : option (list (flagcxRegNetHandle * flagcxRegP2pHandle)) :=
  match hs with
  | [] => None
  | (n, p) :: hs' =>
      if nh_proxyConn n =? proxyConn then Some ((MkNetHandle handle proxyConn comm, p) :: hs')
      else hs'' ← set_net_handle hs' comm handle proxyConn; Some ((n, p) :: hs'')
  end.

Definition addNetHandle (s : flagcxRegPool) (comm reg handle proxyConn : Z) : rp_answer :=
  if (reg =? 0) || (comm =? 0) then Some (flagcxSuccess, s) else
  it ← rp_items s !! reg;
  let hs := match set_net_handle (it_handles it) comm handle proxyConn with
            | Some hs => hs
            | None => it_handles it ++ [(MkNetHandle handle proxyConn comm, ph_null)]
            end in
  Some (flagcxSuccess, rp_setItems s (<[reg := it_setHandles it hs]> (rp_items s))).

Definition addP2pHandle (s : flagcxRegPool) (comm reg handle proxyConn : Z) : rp_answer :=
  if (reg =? 0) || (comm =? 0) || (handle =? 0) then Some (flagcxSuccess, s) else
  it ← rp_items s !! reg;
  if existsb (fun np => (ph_handle np.2 =? handle) && (ph_ownerComm np.2 =? comm)) (it_handles it)
  then Some (flagcxSuccess, s) else
  info ← rp_infos s !! handle;
  let key := (comm, ipc_peerRank info, ipc_allocationBase info) in
  let push s' := rp_setItems s' (<[reg := it_setHandles it
                   (it_handles it ++ [(nh_null, MkP2pHandle handle proxyConn comm)])]> (rp_items s')) in
  match rp_cache s !! key with
  | None =>
      Some (flagcxSuccess,
        push (rp_setIpc s (<[handle := ipc_setRef info 1]> (rp_infos s)) (<[key := handle]> (rp_cache s))))
  | Some cached =>
      if cached =? handle then
        Some (flagcxSuccess,
          push (rp_setIpc s (<[handle := ipc_setRef info (ipc_refCount info + 1)]> (rp_infos s)) (rp_cache s)))
      else Some (flagcxInvalidUsage, s)
  end.

Definition findP2pHandle (s : flagcxRegPool) (comm peerRank allocationBase : Z) : Z :=
  if (comm =? 0) || (allocationBase =? 0) then 0
  else default 0 (rp_cache s !! (comm, peerRank, allocationBase)).

(** [removeAllP2pHandles], [removeAllNetHandles]: the items in the order the
    unordered map yields them. *)
Fixpoint over_items (f : flagcxRegPool -> Z -> rp_answer) (s : flagcxRegPool) (regs : list Z)
    : rp_answer :=
  match regs with
  | [] => Some (flagcxSuccess, s)
  | reg :: regs' =>
      '(r, s') ← f s reg;
      if flagcx_failed r then Some (r, s') else over_items f s' regs'
  end.

Definition removeAllP2pHandles (p2pDereg : Z -> Z -> flagcxResult_t) (s : flagcxRegPool)
    (comm : Z) (order : list Z) : rp_answer :=
  if comm =? 0 then Some (flagcxSuccess, s)
  else over_items (fun s reg => removeRegItemP2pHandles p2pDereg s comm reg) s order.

Definition removeAllNetHandles (netDereg : Z -> Z -> Z -> flagcxResult_t) (s : flagcxRegPool)
    (comm : Z) (order : list Z) : rp_answer :=
  if comm =? 0 then Some (flagcxSuccess, s)
  else over_items (fun s reg => removeRegItemNetHandles netDereg s comm reg) s order.

(** ** Deregistration *)

Definition unset_pages (pm : gmap Z Z) (addrs : list Z) : gmap Z Z :=
  foldl (fun m a => delete a m) pm addrs.

Definition unset_pages_of (pm : gmap Z Z) (addrs : list Z) (reg : Z) : gmap Z Z :=
  foldl (fun m a => if bool_decide (m !! a = Some reg) then delete a m else m) pm addrs.

(** Storing an inner map, or erasing it when it is empty. *)
Definition keep_map (pm : gmap Z Z) : option (gmap Z Z) :=
  if decide (pm = ∅) then None else Some pm.

Definition drop_comm_pages (s : flagcxRegPool) (comm : Z) (it : flagcxRegItem) : flagcxRegPool :=
  if comm =? 0 then s else
  match rp_map s !! comm with
  | None => s
  | Some pm =>
      rp_setMap s (partial_alter
        (fun _ => keep_map (unset_pages pm (pages (rp_pageSize s) (it_beginAddr it) (it_endAddr it))))
        comm (rp_map s))
  end.

Definition drop_all_pages (s : flagcxRegPool) (reg : Z) (it : flagcxRegItem) : flagcxRegPool :=
  rp_setMap s (omap (fun pm =>
    keep_map (unset_pages_of pm (pages (rp_pageSize s) (it_beginAddr it) (it_endAddr it)) reg))
    (rp_map s)).

Definition deregisterBuffer (netDereg : Z -> Z -> Z -> flagcxResult_t)
    (p2pDereg : Z -> Z -> flagcxResult_t) (s : flagcxRegPool) (comm handle : Z) : rp_answer :=
  if handle =? 0 then Some (flagcxSuccess, s) else
  it ← rp_items s !! handle;
  if negb (bool_decide (rp_pool s !! it_beginAddr it = Some handle))
  then Some (flagcxInvalidUsage, s) else
  let s1 := drop_comm_pages
              (rp_setItems s (<[handle := it_setRef it (it_refCount it - 1)]> (rp_items s))) comm it in
  if 0 <? it_refCount it - 1 then Some (flagcxSuccess, s1) else
  '(r1, s2) ← removeRegItemNetHandles netDereg s1 0 handle;
  if flagcx_failed r1 then Some (r1, s2) else
  '(r2, s3) ← removeRegItemP2pHandles p2pDereg s2 0 handle;
  if flagcx_failed r2 then Some (r2, s3) else
  let s4 := drop_all_pages s3 handle it in
  Some (flagcxSuccess,
        rp_setItems (rp_setPool s4 (delete (it_beginAddr it) (rp_pool s4)))
          (delete handle (rp_items s4))).

Definition getItem (s : flagcxRegPool) (comm data : Z) : Z :=
  let b := fst (getPagedAddr (rp_pageSize s) data 0) in
  let global := default 0 (rp_map s !! GLOBAL_POOL_KEY ≫= fun pm => pm !! b) in
  if negb (comm =? 0) then default global (rp_map s !! comm ≫= fun pm => pm !! b)
  else global.

(** ** Page arithmetic *)

Definition aligned (ps x : Z) : Prop := x mod ps = 0.

Definition page_size_ok (ps : Z) : Prop := exists k, 0 <= k < 63 /\ ps = 2 ^ k.

Lemma page_size_pos ps : page_size_ok ps -> 0 < ps < U64_MOD.
Proof.
  intros (k & Hk & ->). split; [apply Z.pow_pos_nonneg; lia|].
  change U64_MOD with (2 ^ 64). apply Z.pow_lt_mono_r; lia.
Qed.

Lemma page_mask_spec ps x : page_size_ok ps -> is_u64 x -> page_mask ps x = x - x mod ps.
Proof.
  intros Hps Hx. pose proof (page_size_pos ps Hps). destruct Hps as (k & Hk & ->). unfold page_mask, is_u64 in *.
  replace ((0 - 2 ^ k) mod U64_MOD) with (Z.shiftl (Z.ones (64 - k)) k).
  - rewrite Z.shiftl_mul_pow2 by lia.
    assert (Hlow : Z.land x (Z.ones (64 - k) * 2 ^ k) = Z.land (Z.shiftr x k) (Z.ones (64 - k)) * 2 ^ k).
    { rewrite <-!Z.shiftl_mul_pow2 by lia. apply Z.bits_inj'. intros n Hn.
      rewrite Z.land_spec, !Z.shiftl_spec, Z.land_spec by lia.
      destruct (Z.lt_ge_cases n k).
      - rewrite !(Z.testbit_neg_r _ (n - k)) by lia. by rewrite andb_false_r.
      - rewrite Z.shiftr_spec by lia. by replace (n - k + k) with n by lia. }
    rewrite Hlow, Z.land_ones by lia. rewrite Z.shiftr_div_pow2 by lia.
    rewrite Z.mod_small; [zlia|]. split; [apply Z.div_pos; lia|].
    apply Z.div_lt_upper_bound; [lia|]. rewrite <-Z.pow_add_r by lia.
    replace (k + (64 - k)) with 64 by lia. change (2 ^ 64) with U64_MOD. lia.
  - rewrite Z.shiftl_mul_pow2, Z.ones_equiv by lia.
    rewrite <-(Z.mod_add _ 1) by lia. rewrite Z.mod_small by lia.
    rewrite <-Z.sub_1_r, Z.mul_sub_distr_r, <-Z.pow_add_r by lia.
    replace (64 - k + k) with 64 by lia. change (2 ^ 64) with U64_MOD. lia.
Qed.

Lemma page_round_down ps x :
  page_size_ok ps -> is_u64 x ->
  aligned ps (page_mask ps x) /\ page_mask ps x <= x < page_mask ps x + ps /\ 0 <= page_mask ps x.
Proof.
  intros Hps Hx. pose proof (page_size_pos ps Hps). rewrite page_mask_spec by done.
  pose proof (Z.mod_pos_bound x ps ltac:(lia)). unfold aligned, is_u64 in *. and_split.
  - rewrite Zminus_mod_idemp_r. by rewrite Z.sub_diag.
  - pose proof (Z.mod_le x ps ltac:(lia) ltac:(lia)). lia.
Qed.

(** The page range of a buffer that does not wrap around. *)
Lemma getPagedAddr_spec ps data length b e :
  page_size_ok ps -> 0 < data -> 0 < length -> data + length + ps <= U64_MOD ->
  getPagedAddr ps data length = (b, e) ->
  aligned ps b /\ aligned ps e /\ 0 <= b <= data /\ data + length <= e < U64_MOD /\
  data < b + ps /\ e < data + length + ps.
Proof.
  intros Hps Hd Hl Hno [= <- <-]. pose proof (page_size_pos ps Hps).
  rewrite (Z.mod_small (data + length)) by lia.
  assert (Hw : ((data + length + ps) mod U64_MOD - 1) mod U64_MOD = data + length + ps - 1).
  { destruct (Z.eq_dec (data + length + ps) U64_MOD) as [->|Hne]; [done|].
    rewrite (Z.mod_small (data + length + ps)) by lia. by rewrite Z.mod_small by lia. }
  rewrite Hw.
  destruct (page_round_down ps data Hps ltac:(unfold is_u64; lia)) as (? & ? & ?).
  destruct (page_round_down ps (data + length + ps - 1) Hps ltac:(unfold is_u64; lia)) as (? & ? & ?).
  and_split.
Qed.

Lemma elem_of_pages ps b e x :
  0 < ps -> x ∈ pages ps b e <-> exists i, 0 <= i /\ x = b + i * ps /\ x < e.
Proof.
  intros Hps. unfold pages. rewrite list_elem_of_fmap. setoid_rewrite elem_of_seqZ. split.
  - intros (i & -> & Hi). exists i. and_split. znia.
  - intros (i & Hi & -> & Hx). exists i. and_split. znia.
Qed.

Lemma elem_of_pages_aligned ps b e x :
  0 < ps -> aligned ps b -> x ∈ pages ps b e <-> b <= x < e /\ aligned ps x.
Proof.
  intros Hps Hb. rewrite elem_of_pages by done. unfold aligned in *. split.
  - intros (i & Hi & -> & Hx). rewrite Z.mod_add by lia. and_split; nia.
  - intros [Hx Ha]. 
    assert ((x - b) mod ps = 0) as Hm by (rewrite Zminus_mod, Hb, Ha; done).
    pose proof (Z.div_mod (x - b) ps ltac:(lia)).
    exists ((x - b) / ps). split; [apply Z.div_pos; lia|lia].
Qed.

(** Aligned addresses are a page apart. *)
Lemma aligned_le ps a b : 0 < ps -> aligned ps a -> aligned ps b -> a < b + ps -> a <= b.
Proof.
  unfold aligned. intros Hps Ha Hb Hlt.
  pose proof (Z.div_mod a ps ltac:(lia)). pose proof (Z.div_mod b ps ltac:(lia)).
  assert (a / ps < b / ps + 1) by nia. nia.
Qed.

Lemma elem_of_page_of ps b e x :
  page_size_ok ps -> aligned ps b -> aligned ps e -> is_u64 x -> b <= x < e ->
  page_mask ps x ∈ pages ps b e.
Proof.
  intros Hps Hb He Hx Hr. pose proof (page_size_pos ps Hps).
  destruct (page_round_down ps x Hps Hx) as (Ha & Hlo & _).
  apply elem_of_pages_aligned; [lia|done|]. and_split.
  pose proof (aligned_le ps b (page_mask ps x) ltac:(lia) Hb Ha). lia.
Qed.

(** ** Page maps *)

Lemma lookup_set_pages pm addrs reg a :
  set_pages pm addrs reg !! a = if decide (a ∈ addrs) then Some reg else pm !! a.
Proof.
  unfold set_pages. revert pm. induction addrs as [|x addrs IH]; intros pm; cbn.
  { by rewrite decide_False by set_solver. }
  rewrite IH. destruct (decide (a ∈ addrs)); [by rewrite decide_True by set_solver|].
  destruct (decide (a = x)) as [->|].
  - by rewrite lookup_insert_eq, decide_True by set_solver.
  - by rewrite lookup_insert_ne, decide_False by set_solver.
Qed.

Lemma lookup_unset_pages pm addrs a :
  unset_pages pm addrs !! a = if decide (a ∈ addrs) then None else pm !! a.
Proof.
  unfold unset_pages. revert pm. induction addrs as [|x addrs IH]; intros pm; cbn.
  { by rewrite decide_False by set_solver. }
  rewrite IH. destruct (decide (a ∈ addrs)); [by rewrite decide_True by set_solver|].
  destruct (decide (a = x)) as [->|].
  - by rewrite lookup_delete_eq, decide_True by set_solver.
  - by rewrite lookup_delete_ne, decide_False by set_solver.
Qed.

Lemma lookup_unset_pages_of pm addrs reg a :
  unset_pages_of pm addrs reg !! a =
  if decide (a ∈ addrs /\ pm !! a = Some reg) then None else pm !! a.
Proof.
  unfold unset_pages_of. revert pm. induction addrs as [|x addrs IH]; intros pm; cbn.
  { by rewrite decide_False by set_solver. }
  rewrite IH. destruct (decide (pm !! x = Some reg)) as [Hx|Hx];
    rewrite ?bool_decide_true, ?bool_decide_false by done.
  - destruct (decide (a = x)) as [->|Hne].
    + rewrite lookup_delete_eq. rewrite (decide_True (P := x ∈ x :: addrs /\ _)) by set_solver.
      by case_decide.
    + rewrite lookup_delete_ne by done. apply decide_ext. set_solver.
  - apply decide_ext. set_solver.
Qed.

Lemma comm_map_map_pages s c b e reg c' :
  comm_map (map_pages s c b e reg) c' =
  if decide (c' = c) then set_pages (comm_map s c) (pages (rp_pageSize s) b e) reg else comm_map s c'.
Proof.
  unfold comm_map, map_pages; cbn. case_decide as Hc; subst.
  - by rewrite lookup_insert_eq.
  - by rewrite lookup_insert_ne.
Qed.

Lemma pages_lookup ps b e i x :
  0 < ps -> pages ps b e !! i = Some x <-> x = b + Z.of_nat i * ps /\ x < e.
Proof.
  intros Hps. unfold pages. rewrite list_lookup_fmap. split.
  - intros Hx. apply fmap_Some in Hx as (j & Hj & ->). apply lookup_seqZ in Hj as [-> Hj].
    rewrite Z.add_0_l. split; [done|]. znia.
  - intros [-> Hx]. apply fmap_Some. exists (Z.of_nat i). split; [|done].
    apply lookup_seqZ. split; [lia|]. znia.
Qed.

(** ** Invariant *)

(** Items own disjoint page ranges: they are exactly what the pool lists under
    their first page, the global map sends exactly their pages to them, and
    the communicators' maps are parts of the global one. *)
Record rp_core (ps : Z) (items : gmap Z flagcxRegItem) (pool : gmap Z Z) (m : gmap Z (gmap Z Z))
    : Prop := {
  f_page : page_size_ok ps;
  f_pool : forall b p, pool !! b = Some p <-> exists it, items !! p = Some it /\ it_beginAddr it = b;
  f_item : forall p it, items !! p = Some it ->
    p <> 0 /\ 0 <= it_beginAddr it < it_endAddr it /\ it_endAddr it < U64_MOD /\
    aligned ps (it_beginAddr it) /\ aligned ps (it_endAddr it);
  f_global : forall a p, default ∅ (m !! GLOBAL_POOL_KEY) !! a = Some p <->
    exists it, items !! p = Some it /\ a ∈ pages ps (it_beginAddr it) (it_endAddr it);
  f_comm : forall c pm a p, m !! c = Some pm -> pm !! a = Some p ->
    default ∅ (m !! GLOBAL_POOL_KEY) !! a = Some p
}.

Definition rp_wf (s : flagcxRegPool) : Prop :=
  rp_core (rp_pageSize s) (rp_items s) (rp_pool s) (rp_map s).

(** The ranges of a buffer and of an item have a page in common. *)
Definition meets (b e : Z) (it : flagcxRegItem) : Prop :=
  it_beginAddr it < e /\ b < it_endAddr it.

(** Counters and handles of an item are free. *)
Lemma rp_core_same_range ps items pool m p it it' :
  rp_core ps items pool m -> items !! p = Some it ->
  it_beginAddr it' = it_beginAddr it -> it_endAddr it' = it_endAddr it ->
  rp_core ps (<[p := it']> items) pool m.
Proof.
  intros [Hps Hpool Hitem Hglob Hcomm] Hp Hb He.
  assert (Hl : forall q (P : flagcxRegItem -> Prop),
     (P it' <-> P it) ->
     (exists x, <[p := it']> items !! q = Some x /\ P x) <-> (exists x, items !! q = Some x /\ P x)).
  { intros q P HP. destruct (decide (q = p)) as [->|Hq].
    - rewrite lookup_insert_eq, Hp. naive_solver.
    - by rewrite lookup_insert_ne. }
  constructor; try done.
  - intros b q. rewrite Hpool, (Hl q (fun x => it_beginAddr x = b)) by (by rewrite Hb). done.
  - intros q x. rewrite lookup_insert_Some. intros [[<- <-]|[_ Hx]]; [|by apply (Hitem q)].
    rewrite Hb, He. by apply (Hitem p).
  - intros a q. rewrite Hglob, (Hl q (fun x => a ∈ pages ps (it_beginAddr x) (it_endAddr x))); [done|].
    by rewrite Hb, He.
Qed.

Lemma rp_core_begin_inj ps items pool m p q x y :
  rp_core ps items pool m -> items !! p = Some x -> items !! q = Some y ->
  it_beginAddr x = it_beginAddr y -> p = q.
Proof.
  intros Hw Hp Hq Hb. apply (inj Some). rewrite <-(proj2 (f_pool _ _ _ _ Hw (it_beginAddr x) p)) by eauto.
  apply (f_pool _ _ _ _ Hw). eauto.
Qed.

(** Mapping more pages to [p], globally. *)
Lemma rp_core_extend ps items pool m p it it' x y :
  rp_core ps items pool m -> items !! p = Some it ->
  0 <= it_beginAddr it' < it_endAddr it' -> it_endAddr it' < U64_MOD ->
  aligned ps (it_beginAddr it') -> aligned ps (it_endAddr it') ->
  (forall a, a ∈ pages ps (it_beginAddr it') (it_endAddr it') <->
     a ∈ pages ps (it_beginAddr it) (it_endAddr it) \/ a ∈ pages ps x y) ->
  (forall a q, a ∈ pages ps x y -> default ∅ (m !! GLOBAL_POOL_KEY) !! a = Some q -> q = p) ->
  rp_core ps (<[p := it']> items) (<[it_beginAddr it' := p]> (delete (it_beginAddr it) pool))
    (<[GLOBAL_POOL_KEY := set_pages (default ∅ (m !! GLOBAL_POOL_KEY)) (pages ps x y) p]> m).
Proof.
  intros Hw Hp Hr He Ha1 Ha2 Hpg Hfree. pose proof (page_size_pos ps (f_page _ _ _ _ Hw)).
  assert (Hother : forall q z, items !! q = Some z -> it_beginAddr z = it_beginAddr it' -> q = p).
  { intros q z Hz Hb. pose proof (f_item _ _ _ _ Hw q z Hz) as (_ & Hzr & _ & Hza & _).
    assert (Hin : it_beginAddr z ∈ pages ps (it_beginAddr z) (it_endAddr z)).
    { apply elem_of_pages_aligned; [lia|done|]. split; [lia|done]. }
    assert (Hgl : default ∅ (m !! 0) !! it_beginAddr z = Some q) by (apply (f_global _ _ _ _ Hw); eauto).
    assert (it_beginAddr z ∈ pages ps (it_beginAddr it') (it_endAddr it')) as Hin'.
    { rewrite Hb. apply elem_of_pages_aligned; [lia|done|]. split; [lia|done]. }
    apply Hpg in Hin' as [Hin'|Hin']; [|by eapply Hfree].
    assert (Hgl' : default ∅ (m !! 0) !! it_beginAddr z = Some p) by (apply (f_global _ _ _ _ Hw); eauto).
    congruence. }
  constructor.
  - apply Hw.
  - intros b q. rewrite lookup_insert_Some, lookup_delete_Some, (f_pool _ _ _ _ Hw). split.
    + intros [[<- <-]|(Hb & Hbb & z & Hz & <-)]; [exists it'; by rewrite lookup_insert_eq|].
      exists z. rewrite lookup_insert_ne; [done|]. intros <-. by simplify_eq.
    + intros (z & Hz & Hzb). apply lookup_insert_Some in Hz as [[<- <-]|[Hq Hz]]; [by left|right].
      split; [intros Hbb; destruct Hq; symmetry; apply (Hother q z Hz); congruence|].
      split; [|eauto]. intros Hbb. destruct Hq. eapply (rp_core_begin_inj _ _ _ _ p q it z); [done..|congruence].
  - intros q z. rewrite lookup_insert_Some. intros [[<- <-]|[_ Hz]]; [|by apply (f_item _ _ _ _ Hw)].
    pose proof (f_item _ _ _ _ Hw p it Hp) as (? & _). done.
  - intros a q. rewrite lookup_insert_eq. cbn. rewrite lookup_set_pages. case_decide as Hax.
    + split.
      * intros [= <-]. exists it'. rewrite lookup_insert_eq. split; [done|]. apply Hpg. by right.
      * intros (z & Hz & Haz). apply lookup_insert_Some in Hz as [[<- <-]|[Hq Hz]]; [done|].
        f_equal. symmetry. apply (Hfree a q Hax). apply (f_global _ _ _ _ Hw). eauto.
    + rewrite (f_global _ _ _ _ Hw). split.
      * intros (z & Hz & Haz). destruct (decide (q = p)) as [->|Hq].
        -- simplify_eq. exists it'. rewrite lookup_insert_eq. split; [done|]. apply Hpg. by left.
        -- exists z. by rewrite lookup_insert_ne.
      * intros (z & Hz & Haz). apply lookup_insert_Some in Hz as [[<- <-]|[Hq Hz]]; [|eauto].
        exists it. split; [done|]. apply Hpg in Haz as [?|?]; done.
  - intros c pm a q Hc Hq. rewrite lookup_insert_eq. cbn. apply lookup_insert_Some in Hc as [[<- <-]|[Hc0 Hc]]; [done|].
    pose proof (f_comm _ _ _ _ Hw c pm a q Hc Hq) as Hg. rewrite lookup_set_pages. case_decide; [|done].
    f_equal. symmetry. by eapply Hfree.
Qed.

(** A communicator's map gains pages of an item. *)
Lemma rp_core_comm ps items pool m c p it :
  rp_core ps items pool m -> items !! p = Some it -> c <> GLOBAL_POOL_KEY ->
  rp_core ps items pool
    (<[c := set_pages (default ∅ (m !! c)) (pages ps (it_beginAddr it) (it_endAddr it)) p]> m).
Proof.
  intros Hw Hp Hc. assert (Hg : forall x, <[c := x]> m !! 0 = m !! 0) by (intros; by apply lookup_insert_ne).
  constructor; rewrite ?Hg; try apply Hw.
  intros c' pm a q. rewrite lookup_insert_Some. intros [[<- <-]|[_ Hc']].
  - rewrite lookup_set_pages. case_decide as Ha.
    + intros [= <-]. apply (f_global _ _ _ _ Hw). eauto.
    + intros Hq. destruct (m !! c) as [pm|] eqn:Hm; [|by cbn in Hq; rewrite lookup_empty in Hq].
      by apply (f_comm _ _ _ _ Hw c pm).
  - by apply (f_comm _ _ _ _ Hw c' pm).
Qed.

(** A new item on unmapped pages. *)
Lemma rp_core_new ps items pool m p it :
  rp_core ps items pool m -> items !! p = None -> p <> 0 ->
  0 <= it_beginAddr it < it_endAddr it -> it_endAddr it < U64_MOD ->
  aligned ps (it_beginAddr it) -> aligned ps (it_endAddr it) ->
  (forall a, a ∈ pages ps (it_beginAddr it) (it_endAddr it) -> default ∅ (m !! GLOBAL_POOL_KEY) !! a = None) ->
  pool !! it_beginAddr it = None /\
  rp_core ps (<[p := it]> items) (<[it_beginAddr it := p]> pool)
    (<[GLOBAL_POOL_KEY := set_pages (default ∅ (m !! GLOBAL_POOL_KEY))
         (pages ps (it_beginAddr it) (it_endAddr it)) p]> m).
Proof.
  intros Hw Hp Hp0 Hr He Ha1 Ha2 Hfree. pose proof (page_size_pos ps (f_page _ _ _ _ Hw)).
  assert (Hfirst : forall q z, items !! q = Some z -> it_beginAddr z <> it_beginAddr it).
  { intros q z Hz Hb. pose proof (f_item _ _ _ _ Hw q z Hz) as (_ & Hzr & _ & Hza & _).
    assert (it_beginAddr z ∈ pages ps (it_beginAddr it) (it_endAddr it)) as Hin.
    { rewrite Hb. apply elem_of_pages_aligned; [lia|done|]. split; [lia|done]. }
    apply Hfree in Hin. rewrite (proj2 (f_global _ _ _ _ Hw _ q)) in Hin; [done|].
    exists z. split; [done|]. apply elem_of_pages_aligned; [lia|done|]. split; [lia|done]. }
  split.
  { destruct (pool !! it_beginAddr it) as [q|] eqn:Hq; [|done].
    apply (f_pool _ _ _ _ Hw) in Hq as (z & Hz & Hzb). by destruct (Hfirst q z). }
  constructor.
  - apply Hw.
  - intros b q. rewrite lookup_insert_Some, (f_pool _ _ _ _ Hw). split.
    + intros [[<- <-]|(Hb & z & Hz & <-)]; [exists it; by rewrite lookup_insert_eq|].
      exists z. rewrite lookup_insert_ne; [done|]. intros <-. congruence.
    + intros (z & Hz & Hzb). apply lookup_insert_Some in Hz as [[<- <-]|[Hq Hz]]; [by left|right].
      split; [|eauto]. intros Hbb. apply (Hfirst q z Hz). congruence.
  - intros q z. rewrite lookup_insert_Some. intros [[<- <-]|[_ Hz]]; [done|by apply (f_item _ _ _ _ Hw)].
  - intros a q. rewrite lookup_insert_eq. cbn. rewrite lookup_set_pages. case_decide as Hax.
    + split.
      * intros [= <-]. exists it. by rewrite lookup_insert_eq.
      * intros (z & Hz & Haz). apply lookup_insert_Some in Hz as [[<- <-]|[Hq Hz]]; [done|].
        apply Hfree in Hax. rewrite (proj2 (f_global _ _ _ _ Hw a q)) in Hax; eauto. done.
    + rewrite (f_global _ _ _ _ Hw). split.
      * intros (z & Hz & Haz). exists z. rewrite lookup_insert_ne; [done|]. intros <-. congruence.
      * intros (z & Hz & Haz). apply lookup_insert_Some in Hz as [[<- <-]|[Hq Hz]]; [done|eauto].
  - intros c pm a q Hc Hq. rewrite lookup_insert_eq. cbn. apply lookup_insert_Some in Hc as [[<- <-]|[Hc0 Hc]]; [done|].
    pose proof (f_comm _ _ _ _ Hw c pm a q Hc Hq) as Hg. rewrite lookup_set_pages. case_decide as Hax; [|done].
    apply Hfree in Hax. congruence.
Qed.

(** The scan finds the item that meets the range, on its first mapped page. *)
Lemma find_existing_spec s b e :
  rp_wf s -> aligned (rp_pageSize s) b -> aligned (rp_pageSize s) e ->
  match find_existing s b e with
  | Some p => exists it, rp_items s !! p = Some it /\ meets b e it /\
      forall a, a ∈ pages (rp_pageSize s) b (it_beginAddr it) -> comm_map s GLOBAL_POOL_KEY !! a = None
  | None => forall a, a ∈ pages (rp_pageSize s) b e -> comm_map s GLOBAL_POOL_KEY !! a = None
  end.
Proof.
  intros Hw Hb He. pose proof (f_page _ _ _ _ Hw) as Hps. pose proof (page_size_pos _ Hps) as Hpos.
  set (ps := rp_pageSize s) in *. unfold find_existing.
  assert (Heq : match rp_map s !! GLOBAL_POOL_KEY with
     | None => None
     | Some pm => head (omap (fun a => pm !! a) (pages ps b e)) end =
     head (omap (fun a => comm_map s 0 !! a) (pages ps b e))).
  { unfold comm_map. destruct (rp_map s !! 0) as [pm|]; [done|]. cbn.
    induction (pages ps b e) as [|x l IH]; [done|]. cbn. by rewrite lookup_empty. }
  fold ps. rewrite Heq. clear Heq.
  assert (Hsplit : forall l, match head (omap (fun a => comm_map s 0 !! a) l) with
     | Some p => exists l1 a l2, l = l1 ++ a :: l2 /\ comm_map s 0 !! a = Some p /\
                   Forall (fun x => comm_map s 0 !! x = None) l1
     | None => Forall (fun x => comm_map s 0 !! x = None) l end).
  { induction l as [|x l IH]; [constructor|]. cbn. destruct (comm_map s 0 !! x) as [p|] eqn:Hx; cbn.
    - exists [], x, l. by split_and!.
    - destruct (head (omap _ l)) as [p|]; [|by constructor].
      destruct IH as (l1 & a & l2 & -> & Ha & Hf). exists (x :: l1), a, l2. split_and!; [done|done|by constructor]. }
  specialize (Hsplit (pages ps b e)).
  destruct (head (omap _ _)) as [p|]; [|by rewrite Forall_forall in Hsplit].
  destruct Hsplit as (l1 & a & l2 & Hl & Ha & Hf). rewrite Forall_forall in Hf.
  pose proof Ha as Hg. apply (f_global _ _ _ _ Hw) in Hg as (it & Hit & Hain).
  pose proof (f_item _ _ _ _ Hw p it Hit) as (_ & Hr & _ & Hal1 & Hal2). fold ps in Hal1, Hal2, Hain.
  assert (a ∈ pages ps b e) as Hab by (rewrite Hl; set_solver).
  apply elem_of_pages_aligned in Hab as [Hab _]; [|lia|done].
  apply elem_of_pages_aligned in Hain as [Hain _]; [|lia|done].
  exists it. split; [done|]. split; [unfold meets; lia|].
  intros x Hx. apply elem_of_pages_aligned in Hx as [Hx Hxa]; [|lia|done].
  apply Hf.
  assert (Hix : pages ps b e !! length l1 = Some a) by (rewrite Hl, lookup_app_r, Nat.sub_diag by lia; done).
  apply pages_lookup in Hix as [Hix _]; [|lia].
  assert (x ∈ pages ps b e) as Hin by (apply elem_of_pages_aligned; [lia|done|split; [lia|done]]).
  apply list_elem_of_lookup in Hin as [j Hj]. pose proof Hj as Hj'.
  apply pages_lookup in Hj' as [Hjx _]; [|lia].
  rewrite Hl, lookup_app_l in Hj by nia. by eapply list_elem_of_lookup_2.
Qed.

(** What a registration guarantees: item [p] covers the buffer's pages, has
    one more reference, and the other items are untouched. *)
Definition rp_registered (s s' : flagcxRegPool) (b e p : Z) : Prop :=
  rp_wf s' /\ rp_pageSize s' = rp_pageSize s /\ rp_infos s' = rp_infos s /\ rp_cache s' = rp_cache s /\
  exists it', rp_items s' !! p = Some it' /\ it_beginAddr it' <= b /\ e <= it_endAddr it' /\
    (forall q, q <> p -> rp_items s' !! q = rp_items s !! q) /\
    match rp_items s !! p with
    | Some it => meets b e it /\ it_refCount it' = it_refCount it + 1 /\ it_handles it' = it_handles it /\
        it_beginAddr it' = Z.min b (it_beginAddr it) /\ it_endAddr it' = Z.max e (it_endAddr it)
    | None => it_refCount it' = 1 /\ it_beginAddr it' = b /\ it_endAddr it' = e /\ it_handles it' = []
    end.

Lemma mapRegItemPages_comm s c p it :
  rp_wf s -> rp_items s !! p = Some it -> c <> GLOBAL_POOL_KEY ->
  exists s', mapRegItemPages s c p = Some s' /\ rp_wf s' /\ rp_items s' = rp_items s /\
    rp_pageSize s' = rp_pageSize s /\ rp_infos s' = rp_infos s /\ rp_cache s' = rp_cache s.
Proof.
  intros Hw Hp Hc. pose proof (f_item _ _ _ _ Hw p it Hp) as (Hp0 & _).
  unfold mapRegItemPages. destruct (Z.eqb_spec p 0); [done|]. rewrite Hp. cbn.
  eexists. split; [done|]. split_and!; try done. by apply rp_core_comm.
Qed.

Lemma pages_split ps b m e a :
  0 < ps -> aligned ps b -> aligned ps m -> b <= m <= e ->
  a ∈ pages ps b e <-> a ∈ pages ps m e \/ a ∈ pages ps b m.
Proof. intros. rewrite !elem_of_pages_aligned by done. split.
  - intros [? ?]. destruct (Z.lt_ge_cases a m); [right|left]; (split; [lia|done]).
  - intros [[? ?]|[? ?]]; (split; [lia|done]).
Qed.

Lemma extend_backward_spec s p it b :
  rp_wf s -> rp_items s !! p = Some it -> aligned (rp_pageSize s) b -> 0 <= b ->
  (forall a, a ∈ pages (rp_pageSize s) b (it_beginAddr it) -> comm_map s GLOBAL_POOL_KEY !! a = None) ->
  exists s', extend_backward s p b = Some (flagcxSuccess, s') /\ rp_wf s' /\
    rp_pageSize s' = rp_pageSize s /\ rp_infos s' = rp_infos s /\ rp_cache s' = rp_cache s /\
    rp_items s' = <[p := it_setRange it (Z.min b (it_beginAddr it)) (it_endAddr it)]> (rp_items s).
Proof.
  intros Hw Hp Hb Hb0 Hfree. pose proof (f_item _ _ _ _ Hw p it Hp) as (_ & Hr & He & Ha1 & Ha2).
  pose proof (page_size_pos _ (f_page _ _ _ _ Hw)).
  unfold extend_backward. rewrite Hp. cbn -[map_pages].
  destruct (Z.ltb_spec b (it_beginAddr it)) as [Hlt|Hge]; cbn -[map_pages].
  2: { exists s. split_and!; try done. rewrite Z.min_r by lia. symmetry. apply insert_id. rewrite Hp. by destruct it. }
  rewrite Z.min_l by lia. set (it' := it_setRange it b (it_endAddr it)).
  assert (Hcore := rp_core_extend _ _ _ _ p it it' b (it_beginAddr it) Hw Hp).
  cbn in Hcore. specialize (Hcore ltac:(lia) He Hb Ha2).
  assert (Hpool : rp_pool s !! it_beginAddr it = Some p) by (apply (f_pool _ _ _ _ Hw); eauto).
  cbn. rewrite Hpool. cbn.
  assert (Hcore' : rp_core (rp_pageSize s) (<[p := it']> (rp_items s)) (<[b := p]> (delete (it_beginAddr it) (rp_pool s)))
    (<[0 := set_pages (comm_map s 0) (pages (rp_pageSize s) b (it_beginAddr it)) p]> (rp_map s))).
  { apply Hcore.
    - intros a. apply pages_split; try done; lia.
    - intros a q Ha Hq. apply Hfree in Ha. unfold comm_map in Ha. congruence. }
  rewrite bool_decide_false; [eexists; split_and!; done|].
  intros [q Hq]. apply lookup_delete_Some in Hq as [_ Hq].
  apply (f_pool _ _ _ _ Hw) in Hq as (z & Hz & Hzb).
  assert (Hbad : comm_map s 0 !! b = None).
  { apply Hfree. apply elem_of_pages_aligned; [lia|done|split; [lia|done]]. }
  unfold comm_map in Hbad. rewrite (proj2 (f_global _ _ _ _ Hw b q)) in Hbad; [done|]. exists z. split; [done|].
  pose proof (f_item _ _ _ _ Hw q z Hz) as (_ & Hzr & _ & Hza & _). subst b.
  apply elem_of_pages_aligned; [lia|done|split; [lia|done]].
Qed.

Lemma extend_forward_spec s p it e :
  rp_wf s -> rp_items s !! p = Some it -> aligned (rp_pageSize s) e -> e < U64_MOD ->
  (forall a q, a ∈ pages (rp_pageSize s) (it_endAddr it) e -> comm_map s GLOBAL_POOL_KEY !! a = Some q -> q = p) ->
  exists s', extend_forward s p e = Some s' /\ rp_wf s' /\
    rp_pageSize s' = rp_pageSize s /\ rp_infos s' = rp_infos s /\ rp_cache s' = rp_cache s /\
    rp_items s' = <[p := it_setRange it (it_beginAddr it) (Z.max e (it_endAddr it))]> (rp_items s).
Proof.
  intros Hw Hp Hea He0 Hfree. pose proof (f_item _ _ _ _ Hw p it Hp) as (_ & Hr & He & Ha1 & Ha2).
  pose proof (page_size_pos _ (f_page _ _ _ _ Hw)).
  unfold extend_forward. rewrite Hp. cbn -[map_pages].
  destruct (Z.ltb_spec (it_endAddr it) e) as [Hlt|Hge]; cbn -[map_pages].
  2: { exists s. split_and!; try done. rewrite Z.max_r by lia. symmetry. apply insert_id. rewrite Hp. by destruct it. }
  rewrite Z.max_l by lia. set (it' := it_setRange it (it_beginAddr it) e).
  assert (Hcore := rp_core_extend _ _ _ _ p it it' (it_endAddr it) e Hw Hp).
  cbn in Hcore. specialize (Hcore ltac:(lia) He0 Ha1 Hea).
  eexists. split; [done|]. split_and!; try done. unfold rp_wf; cbn.
  assert (Hpool : rp_pool s = <[it_beginAddr it := p]> (delete (it_beginAddr it) (rp_pool s))).
  { rewrite insert_delete_eq. symmetry. apply insert_id. apply (f_pool _ _ _ _ Hw). eauto. }
  rewrite Hpool. apply Hcore; [|done].
  intros a. rewrite (pages_split _ _ (it_endAddr it)) by (done || lia). tauto.
Qed.

Lemma getItem_global s c x :
  rp_wf s -> getItem s c x = default 0 (comm_map s GLOBAL_POOL_KEY !! page_mask (rp_pageSize s) x).
Proof.
  intros Hw. unfold getItem. cbn [fst getPagedAddr].
  set (a := page_mask _ x).
  assert (Hg : default 0 (rp_map s !! 0 ≫= fun pm => pm !! a) = default 0 (comm_map s 0 !! a)).
  { unfold comm_map. destruct (rp_map s !! 0); cbn; [done|]. by rewrite lookup_empty. }
  rewrite Hg. destruct (Z.eqb_spec c 0) as [|Hc]; cbn; [done|].
  destruct (rp_map s !! c) as [pm|] eqn:Hpm; cbn; [|done].
  destruct (pm !! a) as [p|] eqn:Hp; cbn; [|done].
  unfold comm_map. by rewrite (f_comm _ _ _ _ Hw c pm a p Hpm Hp).
Qed.

(** An address belongs to the item whose range contains it. *)
Lemma getItem_in s c x p it :
  rp_wf s -> rp_items s !! p = Some it -> it_beginAddr it <= x < it_endAddr it -> getItem s c x = p.
Proof.
  intros Hw Hp Hx. rewrite getItem_global by done.
  pose proof (f_item _ _ _ _ Hw p it Hp) as (_ & Hr & He & Ha1 & Ha2).
  unfold comm_map. rewrite (proj2 (f_global _ _ _ _ Hw _ p)); [done|]. exists it. split; [done|].
  apply elem_of_page_of; try done; [apply (f_page _ _ _ _ Hw)|unfold is_u64; lia].
Qed.

Lemma getItem_out s c x :
  rp_wf s -> is_u64 x -> (forall p it, rp_items s !! p = Some it -> ~ it_beginAddr it <= x < it_endAddr it) ->
  getItem s c x = 0.
Proof.
  intros Hw Hx Hno. rewrite getItem_global by done.
  destruct (comm_map s 0 !! page_mask (rp_pageSize s) x) as [p|] eqn:Hp; [|done]. exfalso.
  apply (f_global _ _ _ _ Hw) in Hp as (it & Hit & Hin).
  pose proof (f_item _ _ _ _ Hw p it Hit) as (_ & Hr & He & Ha1 & Ha2).
  pose proof (page_size_pos _ (f_page _ _ _ _ Hw)).
  apply elem_of_pages_aligned in Hin as [Hin Hal]; [|lia|done].
  destruct (page_round_down (rp_pageSize s) x (f_page _ _ _ _ Hw) Hx) as (_ & Hlo & _).
  apply (Hno p it Hit). split; [lia|].
  destruct (Z.lt_ge_cases x (it_endAddr it)); [done|].
  pose proof (aligned_le (rp_pageSize s) (it_endAddr it) (page_mask (rp_pageSize s) x) ltac:(lia) Ha2 Hal). lia.
Qed.

(** Items that have a page of the range in common with the buffer. *)
Definition at_most_one_met (s : flagcxRegPool) (b e : Z) : Prop :=
  forall p q x y, rp_items s !! p = Some x -> rp_items s !! q = Some y ->
    meets b e x -> meets b e y -> p = q.

Lemma registerExisting_spec s comm p it b e :
  rp_wf s -> rp_items s !! p = Some it -> meets b e it -> at_most_one_met s b e ->
  aligned (rp_pageSize s) b -> aligned (rp_pageSize s) e -> 0 <= b -> b < e < U64_MOD ->
  (forall a, a ∈ pages (rp_pageSize s) b (it_beginAddr it) -> comm_map s GLOBAL_POOL_KEY !! a = None) ->
  exists s', registerExisting s comm p b e = Some (flagcxSuccess, s') /\ rp_registered s s' b e p.
Proof.
  intros Hw Hp Hm Hone Hb He Hb0 Hbe Hfree. unfold registerExisting. rewrite Hp. cbn [mbind option_bind].
  set (it1 := it_setRef it (it_refCount it + 1)).
  set (s1 := rp_setItems s (<[p := it1]> (rp_items s))).
  assert (Hw1 : rp_wf s1) by (by apply (rp_core_same_range _ _ _ _ p it)).
  destruct (extend_backward_spec s1 p it1 b Hw1) as (s2 & -> & Hw2 & Hps2 & Hi2 & Hc2 & Hit2);
    [by cbn; rewrite lookup_insert_eq|done..|]. cbn in Hit2. rewrite insert_insert_eq in Hit2.
  set (it2 := it_setRange it1 (Z.min b (it_beginAddr it)) (it_endAddr it)) in *.
  cbn [mbind option_bind]. rewrite bool_decide_true by done. cbn [negb].
  assert (Hp2 : rp_items s2 !! p = Some it2) by (by rewrite Hit2, lookup_insert_eq).
  pose proof (f_item _ _ _ _ Hw p it Hp) as (_ & Hr & HeU & Ha1 & Ha2).
  pose proof (page_size_pos _ (f_page _ _ _ _ Hw)) as Hpos.
  destruct (extend_forward_spec s2 p it2 e Hw2 Hp2) as (s3 & -> & Hw3 & Hps3 & Hi3 & Hc3 & Hit3).
  { by rewrite Hps2. }
  { lia. }
  { rewrite Hps2. cbn. intros a q Ha Hq. apply (f_global _ _ _ _ Hw2) in Hq as (z & Hz & Hza).
    rewrite Hit2 in Hz. apply lookup_insert_Some in Hz as [[<- _]|[Hqp Hz]]; [done|].
    pose proof (f_item _ _ _ _ Hw q z Hz) as (_ & Hzr & _ & Hzal & _). rewrite Hps2 in Hza.
    apply elem_of_pages_aligned in Hza as [Hza _]; [|cbn; lia|done].
    apply elem_of_pages_aligned in Ha as [Ha _]; [|cbn; lia|done].
    apply (Hone q p z it Hz Hp); [|done]. unfold meets in *. lia. }
  rewrite Hit2, insert_insert_eq in Hit3. cbn in Hit3.
  set (it3 := it_setRange it2 (Z.min b (it_beginAddr it)) (Z.max e (it_endAddr it))) in *.
  cbn [mbind option_bind].
  assert (Hp3 : rp_items s3 !! p = Some it3) by (by rewrite Hit3, lookup_insert_eq).
  assert (Hreg : forall s4, rp_wf s4 -> rp_items s4 = rp_items s3 -> rp_pageSize s4 = rp_pageSize s3 ->
    rp_infos s4 = rp_infos s3 -> rp_cache s4 = rp_cache s3 -> rp_registered s s4 b e p).
  { intros s4 Hw4 Hi4 Hps4 Hinf4 Hc4. unfold rp_registered. split; [done|].
    split; [by rewrite Hps4, Hps3, Hps2|]. split; [by rewrite Hinf4, Hi3, Hi2|].
    split; [by rewrite Hc4, Hc3, Hc2|].
    exists it3. rewrite Hi4, Hp. split; [done|]. split; [cbn; lia|]. split; [cbn; lia|].
    split; [|by unfold it3, it2, it1; cbn].
    intros q Hq. rewrite Hit3. by rewrite lookup_insert_ne. }
  destruct (Z.eqb_spec comm 0) as [|Hcomm]; cbn [negb]; [by eexists; split; [done|]; apply Hreg|].
  destruct (mapRegItemPages_comm s3 comm p it3 Hw3 Hp3 Hcomm) as (s4 & -> & Hw4 & ? & ? & ? & ?).
  cbn. eexists. split; [done|]. by apply Hreg.
Qed.

Lemma registerNew_spec s fresh comm b e :
  rp_wf s -> rp_items s !! fresh = None -> fresh <> 0 ->
  aligned (rp_pageSize s) b -> aligned (rp_pageSize s) e -> 0 <= b -> b < e < U64_MOD ->
  (forall a, a ∈ pages (rp_pageSize s) b e -> comm_map s GLOBAL_POOL_KEY !! a = None) ->
  exists s', registerNew s fresh comm b e = Some (flagcxSuccess, s') /\ rp_registered s s' b e fresh.
Proof.
  intros Hw Hf Hf0 Hb He Hb0 Hbe Hfree. unfold registerNew. set (it := MkRegItem b e 1 [] ∅).
  destruct (rp_core_new _ _ _ _ fresh it Hw Hf Hf0) as [Hpool Hcore]; [cbn; done || lia..|].
  cbn in Hpool. rewrite Hpool.
  set (s1 := rp_setPool (rp_setItems s (<[fresh := it]> (rp_items s))) (<[b := fresh]> (rp_pool s))).
  cbn zeta iota.
  set (s2 := map_pages s1 0 b e fresh).
  assert (Hmap : mapRegItemPages s1 GLOBAL_POOL_KEY fresh = Some s2).
  { unfold mapRegItemPages. destruct (Z.eqb_spec fresh 0); [done|].
    assert (rp_items s1 !! fresh = Some it) as -> by apply lookup_insert_eq. done. }
  rewrite Hmap. cbn [mbind option_bind].
  assert (Hw2 : rp_wf s2) by exact Hcore.
  assert (Hp2 : rp_items s2 !! fresh = Some it) by (cbn; by rewrite lookup_insert_eq).
  assert (Hreg : forall s4, rp_wf s4 -> rp_items s4 = rp_items s2 -> rp_pageSize s4 = rp_pageSize s2 ->
    rp_infos s4 = rp_infos s2 -> rp_cache s4 = rp_cache s2 -> rp_registered s s4 b e fresh).
  { intros s4 Hw4 Hi4 Hps4 Hinf4 Hc4. unfold rp_registered. do 4 (split; [done|]).
    exists it. rewrite Hi4, Hf. split; [done|]. split; [cbn; lia|]. split; [cbn; lia|].
    split; [|done]. intros q Hq. cbn. by rewrite lookup_insert_ne. }
  destruct (Z.eqb_spec comm 0) as [|Hcomm]; cbn [negb]; [by eexists; split; [done|]; apply Hreg|].
  destruct (mapRegItemPages_comm s2 comm fresh it Hw2 Hp2 Hcomm) as (s4 & -> & Hw4 & ? & ? & ? & ?).
  cbn. eexists. split; [done|]. by apply Hreg.
Qed.

(** C25: registering a buffer whose page range meets at most one item
    succeeds and keeps the invariant; afterwards one item covers the whole
    page range of the buffer, an existing one extended and counted once more
    or a new one, every address of the buffer resolves to it for every
    communicator, and the other items are untouched. *)
Theorem rp_register_spec s fresh comm data length b e :
  rp_wf s -> rp_items s !! fresh = None -> fresh <> 0 ->
  0 < data -> 0 < length -> data + length + rp_pageSize s <= U64_MOD ->
  getPagedAddr (rp_pageSize s) data length = (b, e) -> at_most_one_met s b e ->
  exists s' p, registerBuffer s fresh comm data length = Some (flagcxSuccess, s') /\
    rp_registered s s' b e p /\
    (forall c a, data <= a < data + length -> getItem s' c a = p) /\
    (p = fresh <-> forall q it, rp_items s !! q = Some it -> ~ meets b e it).
Proof.
  intros Hw Hf Hf0 Hd Hl Hno Hpa Hone. pose proof (f_page _ _ _ _ Hw) as Hps.
  destruct (getPagedAddr_spec _ _ _ _ _ Hps Hd Hl Hno Hpa) as (Hb & He & Hbd & Hed & _ & _).
  unfold registerBuffer. destruct (Z.eqb_spec data 0); [lia|]. destruct (Z.eqb_spec length 0); [lia|]. cbn [orb].
  rewrite Hpa. pose proof (find_existing_spec s b e Hw Hb He) as Hex.
  assert (Hget : forall s' p, rp_registered s s' b e p -> forall c a, data <= a < data + length -> getItem s' c a = p).
  { intros s' p (Hw' & _ & _ & _ & it' & Hit' & Hlo & Hhi & _) c a Ha. eapply getItem_in; [done|done|lia]. }
  destruct (find_existing s b e) as [p|].
  - destruct Hex as (it & Hp & Hm & Hfree).
    destruct (registerExisting_spec s comm p it b e Hw Hp Hm Hone Hb He) as (s' & -> & Hreg); [lia..|done|].
    exists s', p. split; [done|]. split; [done|]. split; [by eapply Hget|].
    split; [intros ->; congruence|]. intros Hnone. by destruct (Hnone p it).
  - destruct (registerNew_spec s fresh comm b e Hw Hf Hf0 Hb He) as (s' & -> & Hreg); [lia..|done|].
    exists s', fresh. split; [done|]. split; [done|]. split; [by eapply Hget|].
    split; [intros _|done]. intros q it Hq Hm.
    pose proof (f_item _ _ _ _ Hw q it Hq) as (_ & Hr & _ & Ha1 & Ha2). unfold meets in Hm.
    pose proof (page_size_pos _ Hps).
    assert (Hin : Z.max b (it_beginAddr it) ∈ pages (rp_pageSize s) b e).
    { apply elem_of_pages_aligned; [lia|done|]. split; [lia|]. by destruct (Z.max_spec b (it_beginAddr it)) as [[_ ->]|[_ ->]]. }
    apply Hex in Hin. unfold comm_map in Hin.
    rewrite (proj2 (f_global _ _ _ _ Hw _ q)) in Hin; [done|]. exists it. split; [done|].
    apply elem_of_pages_aligned; [lia|done|]. split; [lia|]. by destruct (Z.max_spec b (it_beginAddr it)) as [[_ ->]|[_ ->]].
Qed.

(** ** The scans over handle pairs *)

Abbreviation handle_pair := (flagcxRegNetHandle * flagcxRegP2pHandle)%type.

Definition pair_null (np : handle_pair) : bool := (nh_handle np.1 =? 0) && (ph_handle np.2 =? 0).

Lemma swap_remove_perm {A} (d t : list A) x :
  exists t', swap_remove (length d) (d ++ x :: t) = d ++ t' /\ t' ≡ₚ t.
Proof.
  unfold swap_remove. destruct t as [|y t _] using rev_ind.
  - rewrite last_snoc. exists []. split; [|done]. rewrite length_app. cbn.
    rewrite insert_app_r_alt, Nat.sub_diag by lia. cbn.
    rewrite take_app_le by lia. rewrite take_ge by lia. by rewrite app_nil_r.
  - rewrite app_comm_cons, app_assoc, last_snoc. exists (y :: t). split.
    + rewrite <-app_assoc. rewrite insert_app_r_alt, Nat.sub_diag by lia. cbn.
      rewrite !length_app. cbn. rewrite app_comm_cons, app_assoc.
      rewrite take_app_le by (rewrite length_app; cbn; rewrite length_app; cbn; lia).
      apply take_ge. rewrite length_app. cbn. rewrite length_app. cbn. lia.
    + by rewrite <-Permutation_cons_append.
Qed.

(** Settling the pair after [d]: it is kept behind [d] or dropped. *)
Lemma settle_pair_spec np d t x :
  exists d' t', settle_pair np (length d) (d ++ x :: t) = (d' ++ t', length d') /\ t' ≡ₚ t /\
    d' = if pair_null np then d else d ++ [np].
Proof.
  unfold settle_pair, pair_null. rewrite insert_app_r_alt, Nat.sub_diag by lia. cbn [insert list_insert].
  destruct (_ && _).
  - destruct (swap_remove_perm d t np) as (t' & -> & Ht). exists d, t'. done.
  - exists (d ++ [np]), t. rewrite <-app_assoc, length_app. cbn.
    by replace (length d + 1)%nat with (S (length d)) by lia.
Qed.

(** The net handle of [comm] (of anyone for null) removed; [None] when nothing
    is left of the pair. *)
Definition net_cleared (comm : Z) (np : handle_pair) : option handle_pair :=
  let n' := if negb (nh_handle np.1 =? 0) && ((comm =? 0) || (nh_ownerComm np.1 =? comm))
            then nh_null else np.1 in
  if pair_null (n', np.2) then None else Some (n', np.2).

(** Likewise for the P2P handle. *)
Definition p2p_cleared (comm : Z) (np : handle_pair) : option handle_pair :=
  let p' := if negb (ph_handle np.2 =? 0) && ((comm =? 0) || (ph_ownerComm np.2 =? comm))
            then ph_null else np.2 in
  if pair_null (np.1, p') then None else Some (np.1, p').

(** The P2P handles in use. *)
Definition p2ps (hs : list handle_pair) : list flagcxRegP2pHandle :=
  filter (fun p => ph_handle p <> 0) (snd <$> hs).

#[global] Arguments p2ps : simpl never.

Lemma p2ps_nil : p2ps [] = [].
Proof. done. Qed.

Lemma p2ps_app l l' : p2ps (l ++ l') = p2ps l ++ p2ps l'.
Proof. unfold p2ps. by rewrite fmap_app, filter_app. Qed.

Lemma p2ps_cons n p l : p2ps ((n, p) :: l) = (if ph_handle p =? 0 then [] else [p]) ++ p2ps l.
Proof.
  unfold p2ps. rewrite fmap_cons, filter_cons. cbn. destruct (Z.eqb_spec (ph_handle p) 0).
  - by rewrite decide_False by tauto.
  - by rewrite decide_True.
Qed.

#[export] Instance p2ps_perm : Proper ((≡ₚ) ==> (≡ₚ)) p2ps.
Proof. intros l l' Hl. unfold p2ps. by rewrite Hl. Qed.

Lemma p2ps_kept np l :
  p2ps (if pair_null np then l else l ++ [np]) = p2ps l ++ p2ps [np].
Proof.
  destruct (pair_null np) eqn:Hn; [|by rewrite p2ps_app].
  destruct np as [n p]. unfold pair_null in Hn. cbn in Hn. bool_to_prop.
  rewrite p2ps_cons. destruct (Z.eqb_spec (ph_handle p) 0); [|done]. cbn. by rewrite app_nil_r.
Qed.

Lemma omap_perm {A B} (f : A -> option B) l l' : l ≡ₚ l' -> omap f l ≡ₚ omap f l'.
Proof. induction 1; cbn; repeat destruct (f _); try done; [by constructor..|by etrans]. Qed.

Lemma net_loop_spec netDereg comm fuel d t :
  (length t < fuel)%nat ->
  exists r hs, net_loop netDereg comm fuel (d ++ t) (length d) = Some (r, hs) /\
    (r = flagcxSuccess -> hs ≡ₚ d ++ omap (net_cleared comm) t) /\
    ((forall c q h, flagcx_failed (netDereg c q h) = false) -> r = flagcxSuccess) /\
    (r = flagcxSuccess \/ flagcx_failed r = true) /\
    p2ps hs ≡ₚ p2ps (d ++ t).
Proof.
  revert d t. induction fuel as [|fuel IH]; intros d t Hf; [lia|]. cbn.
  destruct t as [|[n p] t].
  { rewrite app_nil_r, lookup_ge_None_2 by lia. exists flagcxSuccess, d.
    split_and!; [done|by rewrite app_nil_r|done|by left|done]. }
  rewrite list_lookup_middle by done. cbn in Hf.
  set (m := negb (nh_handle n =? 0) && ((comm =? 0) || (nh_ownerComm n =? comm))).
  set (n' := if m then nh_null else n).
  assert (Hstep : exists r hs, (let '(hs', i') := settle_pair (n', p) (length d) (d ++ (n, p) :: t) in
      net_loop netDereg comm fuel hs' i') = Some (r, hs) /\
    (r = flagcxSuccess -> hs ≡ₚ d ++ omap (net_cleared comm) ((n, p) :: t)) /\
    ((forall c q h, flagcx_failed (netDereg c q h) = false) -> r = flagcxSuccess) /\
    (r = flagcxSuccess \/ flagcx_failed r = true) /\
    p2ps hs ≡ₚ p2ps (d ++ (n, p) :: t)).
  { destruct (settle_pair_spec (n', p) d t (n, p)) as (d' & t' & -> & Ht & Hd').
    destruct (IH d' t') as (r & hs & -> & Hok & Hgood & Hr & Hall); [rewrite Ht; lia|].
    exists r, hs. split; [done|]. split; [|split; [done|split; [done|]]].
    - intros Hsucc. rewrite (Hok Hsucc), (omap_perm _ _ _ Ht), Hd'.
      cbn. unfold net_cleared at 2. cbn. fold m. fold n'. destruct (pair_null (n', p)); [done|].
      by rewrite <-app_assoc.
    - rewrite Hall, p2ps_app, Ht, Hd', p2ps_kept, p2ps_app, !p2ps_cons. by rewrite p2ps_nil, app_nil_r, <-app_assoc. }
  unfold n' in Hstep. destruct m; [|done].
  destruct (flagcx_failed (netDereg _ _ _)) eqn:Hfail; [|done].
  eexists _, _. split; [done|]. split; [intros Hs; by rewrite Hs in Hfail|].
  split; [intros Hs; by rewrite Hs in Hfail|]. split; [by right|done].
Qed.

(** ** The IPC mapping cache *)

(** All handle pairs of all items. *)
Definition all_pairs (items : gmap Z flagcxRegItem) : list handle_pair :=
  map_to_list items ≫= fun x => it_handles x.2.

Lemma all_pairs_insert items reg it it' :
  items !! reg = Some it ->
  all_pairs (<[reg := it']> items) ≡ₚ it_handles it' ++ all_pairs (delete reg items).
Proof.
  intros _. unfold all_pairs. rewrite <-(insert_delete_eq items).
  rewrite map_to_list_insert by apply lookup_delete_eq. done.
Qed.

Lemma all_pairs_split items reg it :
  items !! reg = Some it -> all_pairs items ≡ₚ it_handles it ++ all_pairs (delete reg items).
Proof. intros H. rewrite <-(all_pairs_insert items reg it it) by done. by rewrite insert_id. Qed.

Definition ipc_refs (Q : list flagcxRegP2pHandle) (h : Z) : Z :=
  Z.of_nat (length (filter (fun p => ph_handle p = h) Q)).

(** The cache lists exactly the shared records, each counted once per handle
    that uses it. *)
Record ipc_core (Q : list flagcxRegP2pHandle) (infos : gmap Z flagcxIpcRegInfo)
    (cache : gmap (Z * Z * Z) Z) : Prop := {
  i_live : forall c pr ba h, cache !! (c, pr, ba) = Some h ->
    exists i, infos !! h = Some i /\ ipc_peerRank i = pr /\ ipc_allocationBase i = ba /\
      ipc_refCount i = ipc_refs Q h /\ 0 < ipc_refCount i;
  i_inj : forall k1 k2 h, cache !! k1 = Some h -> cache !! k2 = Some h -> k1 = k2;
  i_pair : forall p, p ∈ Q -> exists i, infos !! ph_handle p = Some i /\
      cache !! (ph_ownerComm p, ipc_peerRank i, ipc_allocationBase i) = Some (ph_handle p)
}.

#[export] Instance ipc_refs_perm : Proper ((≡ₚ) ==> eq ==> eq) ipc_refs.
Proof. intros Q Q' HQ h ? <-. unfold ipc_refs. by rewrite HQ. Qed.

#[export] Instance ipc_core_perm : Proper ((≡ₚ) ==> eq ==> eq ==> iff) ipc_core.
Proof.
  intros Q Q' HQ i ? <- c ? <-. split; intros []; constructor; try done.
  - by setoid_rewrite <-HQ.
  - by setoid_rewrite <-HQ.
  - by setoid_rewrite HQ.
  - by setoid_rewrite HQ.
Qed.

Lemma ipc_refs_cons p Q h :
  ipc_refs (p :: Q) h = (if ph_handle p =? h then 1 else 0) + ipc_refs Q h.
Proof.
  unfold ipc_refs. rewrite filter_cons. destruct (Z.eqb_spec (ph_handle p) h).
  - rewrite decide_True by done. cbn. lia.
  - rewrite decide_False by done. lia.
Qed.

Lemma ipc_refs_nonneg Q h : 0 <= ipc_refs Q h.
Proof. unfold ipc_refs. lia. Qed.

Lemma ipc_refs_pos Q p : p ∈ Q -> 0 < ipc_refs Q (ph_handle p).
Proof.
  intros [l1 [l2 ->]]%list_elem_of_split. rewrite <-Permutation_middle, ipc_refs_cons, Z.eqb_refl.
  pose proof (ipc_refs_nonneg (l1 ++ l2) (ph_handle p)). lia.
Qed.

Lemma ipc_refs_zero Q h : ipc_refs Q h = 0 -> forall p, p ∈ Q -> ph_handle p <> h.
Proof. intros Hz p Hp <-. pose proof (ipc_refs_pos Q p Hp). lia. Qed.

(** Dropping a reference never fails by itself: what comes back is the proxy's
    answer, and the cache stays exact. *)
Lemma release_ipc_spec p2pDereg s p Q :
  ipc_core (p :: Q) (rp_infos s) (rp_cache s) ->
  (exists r, flagcx_failed r = true /\ release_ipc p2pDereg s p = Some (r, s) /\
     r = p2pDereg (ph_ownerComm p) (ph_handle p)) \/
  exists infos' cache', release_ipc p2pDereg s p = Some (flagcxSuccess, rp_setIpc s infos' cache') /\
    ipc_core Q infos' cache' /\
    (infos' !! ph_handle p = None <-> ipc_refs Q (ph_handle p) = 0) /\
    (forall h, h <> ph_handle p -> infos' !! h = rp_infos s !! h).
Proof.
  intros [Hlive Hinj Hpair]. destruct (Hpair p ltac:(by left)) as (i & Hi & Hc).
  destruct (Hlive _ _ _ _ Hc) as (i' & Hi' & _ & _ & Hcnt & Hpos). simplify_eq.
  rewrite ipc_refs_cons, Z.eqb_refl in Hcnt. pose proof (ipc_refs_nonneg Q (ph_handle p)) as Hnn.
  unfold release_ipc. rewrite Hi. cbn [mbind option_bind].
  destruct (Z.leb_spec (ipc_refCount i) 0); [lia|].
  destruct (Z.eqb_spec (ipc_refCount i) 1) as [H1|H1].
  - rewrite bool_decide_true by done. cbn [negb].
    destruct (flagcx_failed _) eqn:Hf; [left; by eexists|right].
    eexists _, _. split; [done|]. assert (Hz : ipc_refs Q (ph_handle p) = 0) by lia.
    pose proof (ipc_refs_zero Q _ Hz) as Hne. split; [|split].
    + constructor.
      * intros c pr ba h Hch. apply lookup_delete_Some in Hch as [Hk Hch].
        assert (h <> ph_handle p) as Hh by (intros ->; apply Hk; by eapply Hinj).
        destruct (Hlive _ _ _ _ Hch) as (j & Hj & ? & ? & Hjc & ?). exists j.
        rewrite lookup_delete_ne by done. split_and!; try done. rewrite Hjc, ipc_refs_cons.
        destruct (Z.eqb_spec (ph_handle p) h); [by subst|lia].
      * intros k1 k2 h [_ ?]%lookup_delete_Some [_ ?]%lookup_delete_Some. by eapply Hinj.
      * intros q Hq. destruct (Hpair q ltac:(by right)) as (j & Hj & Hjc). exists j.
        specialize (Hne q Hq). rewrite lookup_delete_ne by done. split; [done|].
        rewrite lookup_delete_ne; [done|]. intros Hk. rewrite <-Hk in Hjc. congruence.
    + split; [done|]. intros _. apply lookup_delete_eq.
    + intros h Hh. by apply lookup_delete_ne.
  - right. eexists _, _. split; [done|]. split; [|split].
    + constructor.
      * intros c pr ba h Hch. destruct (Hlive _ _ _ _ Hch) as (j & Hj & ? & ? & Hjc & ?).
        destruct (decide (h = ph_handle p)) as [->|Hh].
        -- simplify_eq. eexists. rewrite lookup_insert_eq. split; [done|]. cbn. split_and!; try done; lia.
        -- exists j. rewrite lookup_insert_ne by done. split_and!; try done. rewrite Hjc, ipc_refs_cons.
           destruct (Z.eqb_spec (ph_handle p) h); [by subst|lia].
      * done.
      * intros q Hq. destruct (Hpair q ltac:(by right)) as (j & Hj & Hjc).
        destruct (decide (ph_handle q = ph_handle p)) as [Hh|Hh].
        -- rewrite Hh in *. simplify_eq. eexists. rewrite lookup_insert_eq. split; [done|]. done.
        -- exists j. by rewrite lookup_insert_ne.
    + rewrite lookup_insert_eq. split; [done|lia].
    + intros h Hh. by apply lookup_insert_ne.
Qed.

Lemma p2p_loop_spec p2pDereg comm rest fuel s d t :
  (length t < fuel)%nat ->
  ipc_core (p2ps (d ++ t) ++ rest) (rp_infos s) (rp_cache s) ->
  exists r infos' cache' hs,
    p2p_loop p2pDereg comm fuel s (d ++ t) (length d) = Some (r, rp_setIpc s infos' cache', hs) /\
    ipc_core (p2ps hs ++ rest) infos' cache' /\
    (r = flagcxSuccess -> hs ≡ₚ d ++ omap (p2p_cleared comm) t) /\
    ((forall c h, flagcx_failed (p2pDereg c h) = false) -> r = flagcxSuccess) /\
    (r = flagcxSuccess \/ flagcx_failed r = true /\ exists c h, r = p2pDereg c h).
Proof.
  assert (Hsame : forall s, s = rp_setIpc s (rp_infos s) (rp_cache s)) by (by intros []).
  revert s d t. induction fuel as [|fuel IH]; intros s d t Hf Hc; [lia|]. cbn.
  destruct t as [|[n p] t].
  { rewrite app_nil_r in *. rewrite lookup_ge_None_2 by lia. exists flagcxSuccess, (rp_infos s), (rp_cache s), d.
    split_and!; [by rewrite <-Hsame|done|by rewrite app_nil_r|done|by left]. }
  rewrite list_lookup_middle by done. cbn in Hf.
  rewrite p2ps_app, p2ps_cons in Hc.
  set (m := negb (ph_handle p =? 0) && ((comm =? 0) || (ph_ownerComm p =? comm))).
  set (p' := if m then ph_null else p).
  assert (Hstep : forall s', ipc_core (p2ps d ++ p2ps [(n, p')] ++ p2ps t ++ rest) (rp_infos s') (rp_cache s') ->
      (exists i c, s' = rp_setIpc s i c) ->
    exists r infos' cache' hs, (let '(hs', i') := settle_pair (n, p') (length d) (d ++ (n, p) :: t) in
      p2p_loop p2pDereg comm fuel s' hs' i') = Some (r, rp_setIpc s infos' cache', hs) /\
    ipc_core (p2ps hs ++ rest) infos' cache' /\
    (r = flagcxSuccess -> hs ≡ₚ d ++ omap (p2p_cleared comm) ((n, p) :: t)) /\
    ((forall c h, flagcx_failed (p2pDereg c h) = false) -> r = flagcxSuccess) /\
    (r = flagcxSuccess \/ flagcx_failed r = true /\ exists c h, r = p2pDereg c h)).
  { intros s' Hc' (i0 & c0 & ->).
    destruct (settle_pair_spec (n, p') d t (n, p)) as (d' & t' & -> & Ht & Hd').
    destruct (IH (rp_setIpc s i0 c0) d' t') as (r & i1 & c1 & hs & Hrun & Hc1 & Hok & Hgood & Hr).
    { rewrite Ht. lia. }
    { rewrite p2ps_app, Ht, Hd', p2ps_kept, <-!app_assoc. done. }
    exists r, i1, c1, hs. split; [exact Hrun|]. split; [done|]. split; [|done].
    intros Hsucc. rewrite (Hok Hsucc), (omap_perm _ _ _ Ht), Hd'.
    cbn. unfold p2p_cleared at 2. cbn. fold m. fold p'. destruct (pair_null (n, p')); [done|].
    by rewrite <-app_assoc. }
  unfold p' in Hstep. destruct m eqn:Hm.
  2: { apply Hstep; [|by eexists _, _]. by rewrite p2ps_cons, p2ps_nil, app_nil_r, <-!app_assoc in *. }
  assert (Hp : ph_handle p <> 0) by (unfold m in Hm; bool_to_prop; lia).
  destruct (Z.eqb_spec (ph_handle p) 0); [done|]. cbn in Hc.
  rewrite <-!app_assoc in Hc. cbn in Hc. rewrite <-Permutation_middle in Hc.
  destruct (release_ipc_spec p2pDereg s p _ Hc) as [(r & Hrf & -> & Hre)|(i0 & c0 & -> & Hc0 & _)].
  - cbn. rewrite Hrf. exists r, (rp_infos s), (rp_cache s), (d ++ (n, p) :: t).
    split; [by rewrite <-Hsame|]. split.
    + rewrite p2ps_app, p2ps_cons. destruct (Z.eqb_spec (ph_handle p) 0); [done|].
      rewrite <-!app_assoc. cbn. by rewrite <-Permutation_middle.
    + split; [intros ->; done|]. split; [intros Hs; rewrite Hre, Hs in Hrf; done|]. right. eauto.
  - cbn. apply Hstep; [|by eexists _, _]. cbn. done.
Qed.

(** ** Removing handles and items *)

Definition rp_ipc (s : flagcxRegPool) : Prop :=
  ipc_core (p2ps (all_pairs (rp_items s))) (rp_infos s) (rp_cache s).

Lemma p2ps_all_insert items reg it it' :
  items !! reg = Some it ->
  p2ps (all_pairs (<[reg := it']> items)) ≡ₚ p2ps (it_handles it') ++ p2ps (all_pairs (delete reg items)).
Proof. intros H. by rewrite (all_pairs_insert _ _ _ _ H), p2ps_app. Qed.

Lemma p2ps_all_split items reg it :
  items !! reg = Some it ->
  p2ps (all_pairs items) ≡ₚ p2ps (it_handles it) ++ p2ps (all_pairs (delete reg items)).
Proof. intros H. by rewrite (all_pairs_split _ _ _ H), p2ps_app. Qed.

(** Both scans leave everything but the handles of the item (and the IPC
    records) alone. *)
Lemma removeNet_spec netDereg s comm reg it :
  rp_wf s -> rp_ipc s -> rp_items s !! reg = Some it ->
  exists r hs, removeRegItemNetHandles netDereg s comm reg =
      Some (r, rp_setItems s (<[reg := it_setHandles it hs]> (rp_items s))) /\
    rp_wf (rp_setItems s (<[reg := it_setHandles it hs]> (rp_items s))) /\
    rp_ipc (rp_setItems s (<[reg := it_setHandles it hs]> (rp_items s))) /\
    (r = flagcxSuccess -> hs ≡ₚ omap (net_cleared comm) (it_handles it)) /\
    ((forall c q h, flagcx_failed (netDereg c q h) = false) -> r = flagcxSuccess) /\
    (r = flagcxSuccess \/ flagcx_failed r = true).
Proof.
  intros Hw Hi Hp. pose proof (f_item _ _ _ _ Hw reg it Hp) as (Hp0 & _).
  unfold removeRegItemNetHandles. destruct (Z.eqb_spec reg 0); [done|]. rewrite Hp. cbn [mbind option_bind].
  destruct (net_loop_spec netDereg comm (S (length (it_handles it))) [] (it_handles it))
    as (r & hs & Hrun & Hok & Hgood & Hr & Hq); [cbn; lia|].
  cbn [app length] in Hrun. rewrite Hrun. cbn [mbind option_bind].
  exists r, hs. split; [done|]. split; [by apply (rp_core_same_range _ _ _ _ reg it)|]. split; [|done].
  unfold rp_ipc in *. cbn. rewrite (p2ps_all_insert _ _ _ _ Hp). cbn. rewrite Hq.
  by rewrite (p2ps_all_split _ _ _ Hp) in Hi.
Qed.

Lemma removeP2p_spec p2pDereg s comm reg it :
  rp_wf s -> rp_ipc s -> rp_items s !! reg = Some it ->
  exists r hs infos' cache', removeRegItemP2pHandles p2pDereg s comm reg =
      Some (r, rp_setItems (rp_setIpc s infos' cache') (<[reg := it_setHandles it hs]> (rp_items s))) /\
    rp_wf (rp_setItems (rp_setIpc s infos' cache') (<[reg := it_setHandles it hs]> (rp_items s))) /\
    rp_ipc (rp_setItems (rp_setIpc s infos' cache') (<[reg := it_setHandles it hs]> (rp_items s))) /\
    (r = flagcxSuccess -> hs ≡ₚ omap (p2p_cleared comm) (it_handles it)) /\
    ((forall c h, flagcx_failed (p2pDereg c h) = false) -> r = flagcxSuccess) /\
    (r = flagcxSuccess \/ flagcx_failed r = true /\ exists c h, r = p2pDereg c h).
Proof.
  intros Hw Hi Hp. pose proof (f_item _ _ _ _ Hw reg it Hp) as (Hp0 & _).
  unfold removeRegItemP2pHandles. destruct (Z.eqb_spec reg 0); [done|]. rewrite Hp. cbn [mbind option_bind].
  destruct (p2p_loop_spec p2pDereg comm (p2ps (all_pairs (delete reg (rp_items s))))
    (S (length (it_handles it))) s [] (it_handles it))
    as (r & i' & c' & hs & Hrun & Hc & Hok & Hgood & Hr); [cbn; lia|by rewrite <-(p2ps_all_split _ _ _ Hp)|].
  cbn [app length] in Hrun. rewrite Hrun. cbn [mbind option_bind].
  exists r, hs, i', c'. split; [done|]. split; [by apply (rp_core_same_range _ _ _ _ reg it)|]. split; [|done].
  unfold rp_ipc. cbn. by rewrite (p2ps_all_insert _ _ _ _ Hp).
Qed.

(** After both full scans no handle is left. *)
Lemma all_cleared hs : omap (p2p_cleared 0) (omap (net_cleared 0) hs) = [].
Proof.
  induction hs as [|[n p] hs IH]; [done|]. cbn. unfold net_cleared at 1. cbn.
  set (n' := if negb (nh_handle n =? 0) && true then nh_null else n).
  assert (Hn' : nh_handle n' = 0) by (unfold n'; destruct (Z.eqb_spec (nh_handle n) 0); done).
  unfold pair_null; cbn. rewrite Hn'. cbn.
  destruct (Z.eqb_spec (ph_handle p) 0) as [Hz|Hz]; [done|]. cbn.
  unfold p2p_cleared at 1. cbn. destruct (Z.eqb_spec (ph_handle p) 0); [done|]. cbn.
  unfold pair_null; cbn. by rewrite Hn'.
Qed.

Lemma keep_map_lookup (om : option (gmap Z Z)) a :
  default ∅ om !! a = (om ≫= fun pm => pm !! a).
Proof. destruct om; cbn; [done|apply lookup_empty]. Qed.

Lemma drop_comm_pages_core ps items pool m comm pm addrs :
  rp_core ps items pool m -> comm <> GLOBAL_POOL_KEY -> m !! comm = Some pm ->
  rp_core ps items pool (partial_alter (fun _ => keep_map (unset_pages pm addrs)) comm m).
Proof.
  intros Hw Hc Hpm.
  assert (Hg : forall f, partial_alter f comm m !! 0 = m !! 0) by (intros; by apply lookup_partial_alter_ne).
  constructor; rewrite ?Hg; try apply Hw.
  intros c pm' a p Hc' Hp. destruct (decide (c = comm)) as [->|Hne].
  - rewrite lookup_partial_alter_eq in Hc'. unfold keep_map in Hc'. case_decide; simplify_eq.
    rewrite lookup_unset_pages in Hp. case_decide; [done|]. by apply (f_comm _ _ _ _ Hw comm pm).
  - rewrite lookup_partial_alter_ne in Hc' by done. by apply (f_comm _ _ _ _ Hw c pm').
Qed.

Lemma drop_comm_pages_spec s comm it :
  rp_wf s -> rp_wf (drop_comm_pages s comm it) /\ rp_items (drop_comm_pages s comm it) = rp_items s /\
  rp_infos (drop_comm_pages s comm it) = rp_infos s /\ rp_cache (drop_comm_pages s comm it) = rp_cache s /\
  rp_pool (drop_comm_pages s comm it) = rp_pool s /\
  rp_pageSize (drop_comm_pages s comm it) = rp_pageSize s /\
  comm_map (drop_comm_pages s comm it) GLOBAL_POOL_KEY = comm_map s GLOBAL_POOL_KEY.
Proof.
  intros Hw. unfold drop_comm_pages. destruct (Z.eqb_spec comm 0) as [|Hc]; [done|].
  destruct (rp_map s !! comm) as [pm|] eqn:Hpm; [|done]. split_and!; try done.
  - by apply drop_comm_pages_core.
  - unfold comm_map; cbn. by rewrite lookup_partial_alter_ne.
Qed.

(** Removing an item with all its pages. *)
Lemma rp_core_remove ps items pool m p it :
  rp_core ps items pool m -> items !! p = Some it ->
  let m' := omap (fun pm => keep_map (unset_pages_of pm (pages ps (it_beginAddr it) (it_endAddr it)) p)) m in
  rp_core ps (delete p items) (delete (it_beginAddr it) pool) m' /\
  (forall c pm a, m' !! c = Some pm -> pm !! a <> Some p).
Proof.
  intros Hw Hp m'.
  assert (Hm' : forall c a q, (exists pm, m' !! c = Some pm /\ pm !! a = Some q) <->
     (exists pm, m !! c = Some pm /\ pm !! a = Some q /\ q <> p)).
  { intros c a q. unfold m'. rewrite lookup_omap. split.
    - intros (pm' & Hpm' & Hq). destruct (m !! c) as [pm|] eqn:Hpm; cbn in Hpm'; [|done].
      unfold keep_map in Hpm'. case_decide; simplify_eq. rewrite lookup_unset_pages_of in Hq.
      case_decide as Hd; [done|]. exists pm. split_and!; [done|done|]. intros ->. apply Hd. split; [|done].
      pose proof (f_comm _ _ _ _ Hw c pm a p Hpm Hq) as Hg. apply (f_global _ _ _ _ Hw) in Hg as (z & Hz & Hza).
      by simplify_eq.
    - intros (pm & -> & Hq & Hne). cbn. unfold keep_map.
      set (pm' := unset_pages_of _ _ _).
      assert (Hl : pm' !! a = Some q).
      { unfold pm'. rewrite lookup_unset_pages_of. case_decide as Hd; [|done]. destruct Hd as [_ Hd]. congruence. }
      case_decide as He; [by rewrite He, lookup_empty in Hl|]. eauto. }
  assert (Hdef : forall (x : gmap Z (gmap Z Z)) a q, default ∅ (x !! GLOBAL_POOL_KEY) !! a = Some q <->
      exists pm, x !! GLOBAL_POOL_KEY = Some pm /\ pm !! a = Some q).
  { intros x a q. rewrite keep_map_lookup. destruct (x !! 0); cbn; naive_solver. }
  split.
  - constructor.
    + apply Hw.
    + intros b q. rewrite lookup_delete_Some, (f_pool _ _ _ _ Hw). setoid_rewrite lookup_delete_Some. split.
      * intros (Hb & z & Hz & <-). exists z. split_and!; try done. intros <-. by simplify_eq.
      * intros (z & (Hne & Hz) & <-). split; [|eauto]. intros Hb. destruct Hne.
        by apply (rp_core_begin_inj _ _ _ _ _ _ it z Hw).
    + intros q z [_ Hz]%lookup_delete_Some. by apply (f_item _ _ _ _ Hw).
    + intros a q. rewrite Hdef, Hm'. setoid_rewrite lookup_delete_Some. split.
      * intros (pm & Hpm & Hq & Hne). assert (default ∅ (m !! 0) !! a = Some q) as Hg by (apply Hdef; eauto).
        apply (f_global _ _ _ _ Hw) in Hg as (z & Hz & Hza). exists z. split_and!; done.
      * intros (z & (Hne & Hz) & Hza).
        assert (default ∅ (m !! 0) !! a = Some q) as Hg by (apply (f_global _ _ _ _ Hw); eauto).
        apply Hdef in Hg as (pm & ? & ?). exists pm. split_and!; done.
    + intros c pm a q Hc Hq. apply Hdef, Hm'.
      destruct (proj1 (Hm' c a q) ltac:(eauto)) as (pm0 & Hpm0 & Hq0 & Hne).
      pose proof (f_comm _ _ _ _ Hw c pm0 a q Hpm0 Hq0) as Hg. apply Hdef in Hg as (pm1 & ? & ?). eauto.
  - intros c pm a Hc Hq. destruct (proj1 (Hm' c a p) ltac:(eauto)) as (? & _ & _ & ?). done.
Qed.

Lemma it_setHandles_range it hs :
  it_beginAddr (it_setHandles it hs) = it_beginAddr it /\ it_endAddr (it_setHandles it hs) = it_endAddr it.
Proof. done. Qed.

(** The whole deregistration of a live item, whatever the backends answer. *)
Lemma rp_deregister_cases netDereg p2pDereg s comm p it :
  rp_wf s -> rp_ipc s -> rp_items s !! p = Some it ->
  exists r s', deregisterBuffer netDereg p2pDereg s comm p = Some (r, s') /\
    rp_wf s' /\ rp_ipc s' /\
    (1 < it_refCount it -> r = flagcxSuccess /\
       rp_items s' = <[p := it_setRef it (it_refCount it - 1)]> (rp_items s) /\
       rp_infos s' = rp_infos s /\ rp_cache s' = rp_cache s /\
       comm_map s' GLOBAL_POOL_KEY = comm_map s GLOBAL_POOL_KEY) /\
    (it_refCount it <= 1 -> r = flagcxSuccess ->
       rp_items s' = delete p (rp_items s) /\
       (forall c pm a, rp_map s' !! c = Some pm -> pm !! a <> Some p)) /\
    (it_refCount it <= 1 -> (forall c q h, flagcx_failed (netDereg c q h) = false) ->
       (forall c h, flagcx_failed (p2pDereg c h) = false) -> r = flagcxSuccess).
Proof.
  intros Hw Hi Hp. pose proof (f_item _ _ _ _ Hw p it Hp) as (Hp0 & _).
  unfold deregisterBuffer. destruct (Z.eqb_spec p 0); [done|]. rewrite Hp. cbn [mbind option_bind].
  rewrite bool_decide_true by (apply (f_pool _ _ _ _ Hw); eauto). cbn [negb].
  set (it1 := it_setRef it (it_refCount it - 1)).
  set (s0 := rp_setItems s (<[p := it1]> (rp_items s))).
  assert (Hw0 : rp_wf s0) by (by apply (rp_core_same_range _ _ _ _ p it)).
  assert (Hi0 : rp_ipc s0).
  { unfold rp_ipc. cbn. rewrite (p2ps_all_insert _ _ _ _ Hp). cbn. by rewrite <-(p2ps_all_split _ _ _ Hp). }
  destruct (drop_comm_pages_spec s0 comm it Hw0) as (Hw1 & Hit1 & Hin1 & Hca1 & Hpo1 & Hps1 & Hcm1).
  set (s1 := drop_comm_pages s0 comm it) in *.
  assert (Hi1 : rp_ipc s1) by (unfold rp_ipc; by rewrite Hit1, Hin1, Hca1).
  destruct (Z.ltb_spec 0 (it_refCount it - 1)) as [Hr|Hr].
  { exists flagcxSuccess, s1. split_and!; try done; lia. }
  assert (Hp1 : rp_items s1 !! p = Some it1) by (rewrite Hit1; cbn; by rewrite lookup_insert_eq).
  destruct (removeNet_spec netDereg s1 0 p it1 Hw1 Hi1 Hp1) as (r1 & hs1 & -> & Hw2 & Hi2 & Hok1 & Hgood1 & Hr1).
  cbn [mbind option_bind].
  set (s2 := rp_setItems s1 (<[p := it_setHandles it1 hs1]> (rp_items s1))) in *.
  destruct (flagcx_failed r1) eqn:Hf1.
  { exists r1, s2. split_and!; try done; try lia.
    - intros _ ->. done.
    - intros _ Hs _. by rewrite (Hgood1 Hs) in Hf1. }
  assert (Hp2 : rp_items s2 !! p = Some (it_setHandles it1 hs1)) by (cbn; by rewrite lookup_insert_eq).
  destruct (removeP2p_spec p2pDereg s2 0 p _ Hw2 Hi2 Hp2) as (r2 & hs2 & i2 & c2 & -> & Hw3 & Hi3 & Hok2 & Hgood2 & Hr2).
  cbn [mbind option_bind].
  set (it3 := it_setHandles (it_setHandles it1 hs1) hs2) in *.
  set (s3 := rp_setItems (rp_setIpc s2 i2 c2) (<[p := it3]> (rp_items s2))) in *.
  destruct (flagcx_failed r2) eqn:Hf2.
  { exists r2, s3. split_and!; try done; try lia.
    - intros _ ->. done. }
  assert (Hp3 : rp_items s3 !! p = Some it3) by (cbn; by rewrite lookup_insert_eq).
  destruct (rp_core_remove _ _ _ _ p it3 Hw3 Hp3) as [Hcore Hgone].
  eexists flagcxSuccess, _. split; [done|]. split; [exact Hcore|]. split_and!; try done; try lia.
  - (* the pairs of the item are gone *)
    assert (r1 = flagcxSuccess) as -> by (destruct Hr1 as [|Hr1]; [done|by rewrite Hr1 in Hf1]).
    assert (r2 = flagcxSuccess) as -> by (destruct Hr2 as [|[Hr2 _]]; [done|by rewrite Hr2 in Hf2]).
    assert (Hnil : hs2 = []).
    { apply Permutation_nil. rewrite (Hok2 eq_refl). cbn. rewrite (omap_perm _ _ _ (Hok1 eq_refl)).
      by rewrite all_cleared. }
    unfold rp_ipc in Hi3 |- *. rewrite (p2ps_all_split _ _ _ Hp3) in Hi3. cbn [it_handles it3 it_setHandles] in Hi3.
    by rewrite Hnil in Hi3.
  - intros _ _. split; [|exact Hgone]. cbn. rewrite Hit1. cbn. by rewrite !insert_insert_eq, delete_insert_eq.
Qed.

(** deregistration of a live item, whatever the backends answer, is
    defined and keeps the invariants.  While other references remain it only
    takes one away; the last one, when the backends succeed, removes the item,
    every handle and every page mapping of it, for all communicators. *)
Theorem rp_deregister_spec netDereg p2pDereg s comm p it :
  rp_wf s -> rp_ipc s -> rp_items s !! p = Some it ->
  exists r s', deregisterBuffer netDereg p2pDereg s comm p = Some (r, s') /\
    rp_wf s' /\ rp_ipc s' /\
    (1 < it_refCount it -> r = flagcxSuccess /\
       rp_items s' = <[p := it_setRef it (it_refCount it - 1)]> (rp_items s) /\
       (forall c x, getItem s' c x = default 0 (comm_map s GLOBAL_POOL_KEY !! page_mask (rp_pageSize s') x))) /\
    (it_refCount it <= 1 -> r = flagcxSuccess ->
       rp_items s' = delete p (rp_items s) /\
       (forall c pm a, rp_map s' !! c = Some pm -> pm !! a <> Some p)) /\
    (it_refCount it <= 1 -> (forall c q h, flagcx_failed (netDereg c q h) = false) ->
       (forall c h, flagcx_failed (p2pDereg c h) = false) -> r = flagcxSuccess).
Proof.
  intros Hw Hi Hp.
  destruct (rp_deregister_cases netDereg p2pDereg s comm p it Hw Hi Hp)
    as (r & s' & Hrun & Hw' & Hi' & Hmany & Hlast & Hgood).
  exists r, s'. split_and!; try done.
  intros Hr. destruct (Hmany Hr) as (-> & -> & _ & _ & Hcm). split_and!; try done.
  intros c x. by rewrite getItem_global, Hcm.
Qed.

(** [getItem] is the look-up by containment: for every communicator it
    returns the live item whose pages contain the address, and null exactly
    when there is none. *)
Theorem rp_getItem_spec s comm x :
  rp_wf s -> is_u64 x ->
  (exists it, rp_items s !! getItem s comm x = Some it /\ it_beginAddr it <= x < it_endAddr it /\
     forall p it', rp_items s !! p = Some it' -> it_beginAddr it' <= x < it_endAddr it' ->
       p = getItem s comm x) \/
  (getItem s comm x = 0 /\ forall p it, rp_items s !! p = Some it -> ~ it_beginAddr it <= x < it_endAddr it).
Proof.
  intros Hw Hx.
  destruct (decide (map_Exists (fun _ it => it_beginAddr it <= x < it_endAddr it) (rp_items s))) as [He|Hn].
  - left. destruct He as (p & it & Hp & Hr). rewrite (getItem_in s comm x p it Hw Hp Hr).
    exists it. split_and!; [done|lia..|]. intros q it' Hq Hr'.
    by rewrite <-(getItem_in s comm x p it Hw Hp Hr), (getItem_in s comm x q it' Hw Hq Hr').
  - right. assert (forall p it, rp_items s !! p = Some it -> ~ it_beginAddr it <= x < it_endAddr it) as Hno.
    { intros p it Hp Hr. apply Hn. by exists p, it. }
    split; [by apply getItem_out|done].
Qed.

(** ** The life of the pool *)

(** What the caller of [addP2pHandle] guarantees: a live record that is not
    cached for another communicator, peer or allocation. *)
Definition ipc_given (s : flagcxRegPool) (comm handle : Z) : Prop :=
  exists i, rp_infos s !! handle = Some i /\
    forall k, rp_cache s !! k = Some handle -> k = (comm, ipc_peerRank i, ipc_allocationBase i).

Lemma addP2pHandle_spec s comm reg handle proxyConn it :
  rp_wf s -> rp_ipc s -> rp_items s !! reg = Some it -> ipc_given s comm handle ->
  exists r s', addP2pHandle s comm reg handle proxyConn = Some (r, s') /\ rp_wf s' /\ rp_ipc s' /\
    (r = flagcxSuccess \/ r = flagcxInvalidUsage /\ s' = s /\
       exists i h, rp_infos s !! handle = Some i /\ h <> handle /\
         rp_cache s !! (comm, ipc_peerRank i, ipc_allocationBase i) = Some h).
Proof.
  intros Hw Hi Hp (i & Hinfo & Hkey). unfold addP2pHandle.
  destruct ((reg =? 0) || (comm =? 0) || (handle =? 0)) eqn:Hz.
  { exists flagcxSuccess, s. split_and!; try done. by left. }
  bool_to_prop. rewrite Hp. cbn [mbind option_bind].
  destruct (existsb _ _). { exists flagcxSuccess, s. split_and!; try done. by left. }
  rewrite Hinfo. cbn [mbind option_bind].
  set (key := (comm, ipc_peerRank i, ipc_allocationBase i)) in *.
  set (it' := it_setHandles it (it_handles it ++ [(nh_null, MkP2pHandle handle proxyConn comm)])).
  pose proof Hi as Hi0. destruct Hi as [Hlive Hinj Hpair].
  set (Q := p2ps (all_pairs (rp_items s))) in *.
  set (pnew := MkP2pHandle handle proxyConn comm).
  assert (Hq : p2ps (all_pairs (<[reg := it']> (rp_items s))) ≡ₚ pnew :: Q).
  { rewrite (p2ps_all_insert _ _ _ _ Hp). unfold Q. rewrite (p2ps_all_split _ _ _ Hp).
    cbn. rewrite p2ps_app, p2ps_cons, p2ps_nil. cbn. destruct (Z.eqb_spec handle 0); [done|]. cbn.
    rewrite <-app_assoc. cbn. by rewrite <-Permutation_middle. }
  assert (Hadd : forall infos' cache', ipc_core (pnew :: Q) infos' cache' ->
     rp_ipc (rp_setItems (rp_setIpc s infos' cache') (<[reg := it']> (rp_items s)))).
  { intros. unfold rp_ipc; cbn. by rewrite Hq. }
  assert (Hwf : forall infos' cache', rp_wf (rp_setItems (rp_setIpc s infos' cache') (<[reg := it']> (rp_items s)))).
  { intros. by apply (rp_core_same_range _ _ _ _ reg it). }
  destruct (rp_cache s !! key) as [h|] eqn:Hc.
  - destruct (Z.eqb_spec h handle) as [->|Hne].
    2: { eexists _, _. split; [done|]. split_and!; try done. right. split_and!; try done. by exists i, h. }
    eexists _, _. split; [done|]. split_and!; [apply Hwf|apply Hadd|by left].
    destruct (Hlive _ _ _ _ Hc) as (j & Hj & _ & _ & Hjc & Hjp). simplify_eq.
    constructor.
    + intros c pr ba h' Hch. destruct (Hlive _ _ _ _ Hch) as (j' & Hj' & ? & ? & Hjc' & ?).
      rewrite ipc_refs_cons. cbn. destruct (decide (h' = handle)) as [->|Hh].
      * simplify_eq. eexists. rewrite lookup_insert_eq. split; [done|]. cbn.
        rewrite Z.eqb_refl. split_and!; try done; lia.
      * exists j'. rewrite lookup_insert_ne by done. split_and!; try done.
        destruct (Z.eqb_spec handle h'); [by subst|lia].
    + done.
    + intros q [->|Hin]%elem_of_cons; cbn.
      * eexists. rewrite lookup_insert_eq. split; [done|]. done.
      * destruct (Hpair q Hin) as (j' & Hj' & Hjc'). destruct (decide (ph_handle q = handle)) as [Hh|Hh].
        -- rewrite Hh in *. simplify_eq. eexists. rewrite lookup_insert_eq. split; [done|]. done.
        -- exists j'. by rewrite lookup_insert_ne.
  - assert (Hnone : forall k, rp_cache s !! k <> Some handle).
    { intros k Hk. rewrite (Hkey k Hk) in Hk. by rewrite Hc in Hk. }
    assert (Hno : forall q, q ∈ Q -> ph_handle q <> handle).
    { intros q Hin Hh. destruct (Hpair q Hin) as (j & _ & Hj). rewrite Hh in Hj. by apply Hnone in Hj. }
    assert (Hz0 : ipc_refs Q handle = 0).
    { unfold ipc_refs. destruct (filter (fun p => ph_handle p = handle) Q) as [|q l] eqn:Hf; [done|].
      assert (q ∈ filter (fun p => ph_handle p = handle) Q) as Hin by (rewrite Hf; by left).
      apply list_elem_of_filter in Hin as [? Hin]. by destruct (Hno q Hin). }
    eexists _, _. split; [done|]. split_and!; [apply Hwf|apply Hadd|by left].
    constructor.
    + intros c pr ba h' Hch. rewrite ipc_refs_cons. cbn.
      apply lookup_insert_Some in Hch as [[Hk <-]|[Hk Hch]].
      * unfold key in Hk. simplify_eq. eexists. rewrite lookup_insert_eq. split; [done|]. cbn.
        rewrite Z.eqb_refl. split_and!; try done; lia.
      * destruct (Hlive _ _ _ _ Hch) as (j' & Hj' & ? & ? & Hjc' & ?).
        assert (handle <> h') by (intros <-; by apply Hnone in Hch).
        exists j'. rewrite lookup_insert_ne by done. split_and!; try done.
        destruct (Z.eqb_spec handle h'); [done|lia].
    + intros k1 k2 h' Ha Hb. apply lookup_insert_Some in Ha as [[<- <-]|[Hk1 Ha]];
        apply lookup_insert_Some in Hb as [[<- Hh2]|[Hk2 Hb]]; subst; try done.
      * by apply Hnone in Hb.
      * by apply Hnone in Ha.
      * by eapply Hinj.
    + intros q [->|Hin]%elem_of_cons; cbn.
      * eexists. rewrite lookup_insert_eq. split; [done|]. cbn. by rewrite lookup_insert_eq.
      * destruct (Hpair q Hin) as (j' & Hj' & Hjc'). specialize (Hno q Hin).
        exists j'. rewrite lookup_insert_ne by done. split; [done|].
        rewrite lookup_insert_ne; [done|]. intros Hk. rewrite <-Hk in Hjc'. by rewrite Hc in Hjc'.
Qed.

Lemma set_net_handle_p2ps hs comm handle proxyConn hs' :
  set_net_handle hs comm handle proxyConn = Some hs' -> p2ps hs' = p2ps hs.
Proof.
  revert hs'. induction hs as [|[n p] hs IH]; intros hs'; cbn; [done|].
  destruct (nh_proxyConn n =? proxyConn); [intros [= <-]; by rewrite !p2ps_cons|].
  destruct (set_net_handle hs comm handle proxyConn); cbn; [|done]. intros [= <-].
  by rewrite !p2ps_cons, (IH _ eq_refl).
Qed.

Lemma addNetHandle_spec s comm reg handle proxyConn it :
  rp_wf s -> rp_ipc s -> rp_items s !! reg = Some it ->
  exists s', addNetHandle s comm reg handle proxyConn = Some (flagcxSuccess, s') /\ rp_wf s' /\ rp_ipc s'.
Proof.
  intros Hw Hi Hp. unfold addNetHandle. destruct (_ || _). { by exists s. }
  rewrite Hp. cbn [mbind option_bind]. eexists. split; [done|].
  set (hs := match set_net_handle _ _ _ _ with Some hs => hs | None => _ end).
  assert (Hhs : p2ps hs = p2ps (it_handles it)).
  { unfold hs. destruct (set_net_handle _ _ _ _) eqn:Hs; [by eapply set_net_handle_p2ps|].
    rewrite p2ps_app, p2ps_cons, p2ps_nil. cbn. by rewrite app_nil_r. }
  split; [by apply (rp_core_same_range _ _ _ _ reg it)|].
  unfold rp_ipc. cbn. rewrite (p2ps_all_insert _ _ _ _ Hp). cbn. rewrite Hhs.
  by rewrite <-(p2ps_all_split _ _ _ Hp).
Qed.

Definition rp_ok (s : flagcxRegPool) : Prop := rp_wf s /\ rp_ipc s.

Lemma over_items_ok f s regs :
  (forall s reg it, rp_ok s -> rp_items s !! reg = Some it -> exists r s', f s reg = Some (r, s') /\ rp_ok s' /\
     forall p, is_Some (rp_items s !! p) -> is_Some (rp_items s' !! p)) ->
  rp_ok s -> (forall p, p ∈ regs -> is_Some (rp_items s !! p)) ->
  exists r s', over_items f s regs = Some (r, s') /\ rp_ok s'.
Proof.
  intros Hf. revert s. induction regs as [|reg regs IH]; intros s Hok Hall; cbn; [eauto|].
  destruct (Hall reg) as [it Hit]; [by left|].
  destruct (Hf s reg it Hok Hit) as (r & s1 & -> & Hok1 & Hkeep). cbn.
  destruct (flagcx_failed r); [eauto|]. apply IH; [done|]. intros p Hp. apply Hkeep, Hall. by right.
Qed.

Lemma removeAllP2p_ok p2pDereg s comm order :
  rp_ok s -> (forall p, p ∈ order -> is_Some (rp_items s !! p)) ->
  exists r s', removeAllP2pHandles p2pDereg s comm order = Some (r, s') /\ rp_ok s'.
Proof.
  intros Hok Hall. unfold removeAllP2pHandles. case_test; [eauto|]. apply over_items_ok; [|done|done].
  clear. intros s reg it [Hw Hi] Hit.
  destruct (removeP2p_spec p2pDereg s comm reg it Hw Hi Hit) as (r & hs & i' & c' & -> & Hw' & Hi' & _).
  eexists _, _. split; [done|]. split; [done|]. intros p Hp. cbn.
  destruct (decide (p = reg)) as [->|]; [rewrite lookup_insert_eq; by eexists|by rewrite lookup_insert_ne].
Qed.

Lemma removeAllNet_ok netDereg s comm order :
  rp_ok s -> (forall p, p ∈ order -> is_Some (rp_items s !! p)) ->
  exists r s', removeAllNetHandles netDereg s comm order = Some (r, s') /\ rp_ok s'.
Proof.
  intros Hok Hall. unfold removeAllNetHandles. case_test; [eauto|]. apply over_items_ok; [|done|done].
  clear. intros s reg it [Hw Hi] Hit.
  destruct (removeNet_spec netDereg s comm reg it Hw Hi Hit) as (r & hs & -> & Hw' & Hi' & _).
  eexists _, _. split; [done|]. split; [done|]. intros p Hp. cbn.
  destruct (decide (p = reg)) as [->|]; [rewrite lookup_insert_eq; by eexists|by rewrite lookup_insert_ne].
Qed.

(** Calls on the pool that respect the contracts: handles are live items, IPC
    records are live and keep their cache key.  A caller may also allocate a
    record.  A buffer may meet any number of items; the flag beside the pool
    records whether a registration has met more than one. *)
Inductive rp_step : flagcxRegPool * bool -> flagcxRegPool * bool -> Prop :=
| st_register s bridged bridged' fresh comm data length b e r s' :
    rp_items s !! fresh = None -> fresh <> 0 ->
    0 < data -> 0 < length -> data + length + rp_pageSize s <= U64_MOD ->
    getPagedAddr (rp_pageSize s) data length = (b, e) ->
    (bridged' = false <-> bridged = false /\ at_most_one_met s b e) ->
    registerBuffer s fresh comm data length = Some (r, s') -> rp_step (s, bridged) (s', bridged')
| st_deregister s bridged netDereg p2pDereg comm p r s' :
    is_Some (rp_items s !! p) ->
    deregisterBuffer netDereg p2pDereg s comm p = Some (r, s') -> rp_step (s, bridged) (s', bridged)
| st_addNet s bridged comm reg handle proxyConn r s' :
    is_Some (rp_items s !! reg) ->
    addNetHandle s comm reg handle proxyConn = Some (r, s') -> rp_step (s, bridged) (s', bridged)
| st_addP2p s bridged comm reg handle proxyConn r s' :
    is_Some (rp_items s !! reg) -> ipc_given s comm handle ->
    addP2pHandle s comm reg handle proxyConn = Some (r, s') -> rp_step (s, bridged) (s', bridged)
| st_removeNet s bridged netDereg comm reg r s' :
    is_Some (rp_items s !! reg) ->
    removeRegItemNetHandles netDereg s comm reg = Some (r, s') -> rp_step (s, bridged) (s', bridged)
| st_removeP2p s bridged p2pDereg comm reg r s' :
    is_Some (rp_items s !! reg) ->
    removeRegItemP2pHandles p2pDereg s comm reg = Some (r, s') -> rp_step (s, bridged) (s', bridged)
| st_removeAllP2p s bridged p2pDereg comm order r s' :
    (forall p, p ∈ order -> is_Some (rp_items s !! p)) ->
    removeAllP2pHandles p2pDereg s comm order = Some (r, s') -> rp_step (s, bridged) (s', bridged)
| st_removeAllNet s bridged netDereg comm order r s' :
    (forall p, p ∈ order -> is_Some (rp_items s !! p)) ->
    removeAllNetHandles netDereg s comm order = Some (r, s') -> rp_step (s, bridged) (s', bridged)
| st_newInfo s bridged p i :
    rp_infos s !! p = None -> rp_step (s, bridged) (rp_setIpc s (<[p := i]> (rp_infos s)) (rp_cache s), bridged).

(** The empty pool of the constructor. *)
Definition rp_init (pageSize : Z) : flagcxRegPool := MkRegPool ∅ ∅ ∅ ∅ ∅ pageSize.

Lemma rp_init_ok ps : page_size_ok ps -> rp_ok (rp_init ps).
Proof.
  intros Hps. split; constructor; cbn; try done.
  - intros b p. setoid_rewrite lookup_empty. naive_solver.
  - intros a p. split; [intros Ha; by rewrite lookup_empty in Ha|].
    intros (it & Hit & _). by rewrite lookup_empty in Hit.
  - intros p Hp. change (p ∈ []) in Hp. by apply elem_of_nil in Hp.
Qed.

Lemma registerBuffer_ok s fresh comm data length b e :
  rp_ok s -> rp_items s !! fresh = None -> fresh <> 0 ->
  0 < data -> 0 < length -> data + length + rp_pageSize s <= U64_MOD ->
  getPagedAddr (rp_pageSize s) data length = (b, e) -> at_most_one_met s b e ->
  exists s' p, registerBuffer s fresh comm data length = Some (flagcxSuccess, s') /\
    rp_registered s s' b e p.
Proof.
  intros [Hw Hi] Hf Hf0 Hd Hl Hno Hpa Hone. pose proof (f_page _ _ _ _ Hw) as Hps.
  destruct (getPagedAddr_spec _ _ _ _ _ Hps Hd Hl Hno Hpa) as (Hb & He & Hbd & Hed & _ & _).
  unfold registerBuffer. destruct (Z.eqb_spec data 0); [lia|]. destruct (Z.eqb_spec length 0); [lia|]. cbn [orb].
  rewrite Hpa. pose proof (find_existing_spec s b e Hw Hb He) as Hex.
  destruct (find_existing s b e) as [p|].
  - destruct Hex as (it & Hp & Hm & Hfree).
    destruct (registerExisting_spec s comm p it b e Hw Hp Hm Hone Hb He) as (s' & -> & Hreg); [lia..|done|].
    by exists s', p.
  - destruct (registerNew_spec s fresh comm b e Hw Hf Hf0 Hb He) as (s' & -> & Hreg); [lia..|done|].
    by exists s', fresh.
Qed.

Lemma rp_registered_ipc s s' b e p : rp_ipc s -> rp_registered s s' b e p -> rp_ipc s'.
Proof.
  intros Hi (_ & _ & Hin & Hca & it' & Hit' & _ & _ & Hother & Hm). unfold rp_ipc in *. rewrite Hin, Hca.
  assert (Hdel : delete p (rp_items s') = delete p (rp_items s)).
  { apply map_eq. intros q. destruct (decide (q = p)) as [->|]; [by rewrite !lookup_delete_eq|].
    rewrite !lookup_delete_ne by done. by apply Hother. }
  rewrite (p2ps_all_split _ _ _ Hit'), Hdel.
  destruct (rp_items s !! p) as [it|] eqn:Hp.
  - destruct Hm as (_ & _ & -> & _). by rewrite <-(p2ps_all_split _ _ _ Hp).
  - destruct Hm as (_ & _ & _ & ->). rewrite delete_id by done. done.
Qed.

Definition rp_unless_bridged (x : flagcxRegPool * bool) : Prop := x.2 = false -> rp_ok x.1.

Lemma rp_step_ok x y : rp_unless_bridged x -> rp_step x y -> rp_unless_bridged y.
Proof.
  intros Hx Hst. unfold rp_unless_bridged in *. destruct Hst as
    [s br br' fresh comm data length b e r s' Hf Hf0 Hd Hl Hno Hpa Hbr Hrun|s br nd pd comm p r s' [it Hp] Hrun
    |s br comm reg h q r s' [it Hp] Hrun|s br comm reg h q r s' [it Hp] Hg Hrun|s br nd comm reg r s' [it Hp] Hrun
    |s br pd comm reg r s' [it Hp] Hrun|s br pd comm order r s' Hall Hrun|s br nd comm order r s' Hall Hrun|s br p i Hp];
    cbn [fst snd] in *; intros Hb.
  1: apply Hbr in Hb as [Hb Hone].
  all: specialize (Hx Hb); rename Hx into Hok; pose proof Hok as [Hw Hi].
  - destruct (registerBuffer_ok s fresh comm data length b e Hok) as (s1 & p & Hr & Hreg); try done.
    rewrite Hr in Hrun. simplify_eq. split; [apply Hreg|by eapply rp_registered_ipc].
  - destruct (rp_deregister_cases nd pd s comm p it Hw Hi Hp) as (r1 & s1 & Hr & ? & ? & _).
    rewrite Hr in Hrun. by simplify_eq.
  - destruct (addNetHandle_spec s comm reg h q it Hw Hi Hp) as (s1 & Hr & ? & ?).
    rewrite Hr in Hrun. by simplify_eq.
  - destruct (addP2pHandle_spec s comm reg h q it Hw Hi Hp Hg) as (r1 & s1 & Hr & ? & ? & _).
    rewrite Hr in Hrun. by simplify_eq.
  - destruct (removeNet_spec nd s comm reg it Hw Hi Hp) as (r1 & hs & Hr & ? & ? & _).
    rewrite Hr in Hrun. by simplify_eq.
  - destruct (removeP2p_spec pd s comm reg it Hw Hi Hp) as (r1 & hs & i1 & c1 & Hr & ? & ? & _).
    rewrite Hr in Hrun. by simplify_eq.
  - destruct (removeAllP2p_ok pd s comm order Hok Hall) as (r1 & s1 & Hr & ?).
    rewrite Hr in Hrun. by simplify_eq.
  - destruct (removeAllNet_ok nd s comm order Hok Hall) as (r1 & s1 & Hr & ?).
    rewrite Hr in Hrun. by simplify_eq.
  - split; [done|]. destruct Hi as [Hlive Hinj Hpair]. unfold rp_ipc. cbn. constructor.
    + intros c pr ba h Hc. destruct (Hlive _ _ _ _ Hc) as (j & Hj & ?). exists j.
      rewrite lookup_insert_ne; [done|]. intros <-. congruence.
    + done.
    + intros q Hq. destruct (Hpair q Hq) as (j & Hj & ?). exists j.
      rewrite lookup_insert_ne; [done|]. intros Heq. congruence.
Qed.

(** C8: the invariant of the pool, as long as no registration bridges items.  In
    every state the pool can reach while no buffer has met more than one item,
    items own disjoint page ranges, the maps send exactly these pages to them,
    no map holds a dead item, and every cached IPC record is live and counted
    exactly once per handle that uses it.  Then a buffer that meets at most one
    item is registered without an error, and the deregistration of a live item
    is defined.  A buffer that bridges two items breaks this: see
    [rp_bridge_loses_item]. *)
Theorem rp_invariant ps s :
  page_size_ok ps -> reach rp_step (rp_init ps, false) (s, false) ->
  rp_wf s /\ rp_ipc s /\
  (forall fresh comm data length b e, rp_items s !! fresh = None -> fresh <> 0 -> 0 < data -> 0 < length ->
     data + length + rp_pageSize s <= U64_MOD -> getPagedAddr (rp_pageSize s) data length = (b, e) -> at_most_one_met s b e ->
     exists s', registerBuffer s fresh comm data length = Some (flagcxSuccess, s')) /\
  (forall netDereg p2pDereg comm p, is_Some (rp_items s !! p) -> is_Some (deregisterBuffer netDereg p2pDereg s comm p)).
Proof.
  intros Hps Hr. assert (Hok : rp_ok s).
  { apply (reach_invariant rp_step rp_unless_bridged) with (s1 := (rp_init ps, false)) (s2 := (s, false));
      [intros x y; apply rp_step_ok|done| |done].
    intros _. by apply rp_init_ok. }
  destruct Hok as [Hw Hi]. split; [done|]. split; [done|]. split.
  - intros fresh comm data length b e Hf Hf0 Hd Hl Hno Hpa Hone.
    destruct (registerBuffer_ok s fresh comm data length b e (conj Hw Hi)) as (s' & p & Hrun & _); [done..|by exists s'].
  - intros nd pd comm p [it Hp]. destruct (rp_deregister_cases nd pd s comm p it Hw Hi Hp) as (r & s' & -> & _). by eexists.
Qed.

(** a reference to an IPC record is dropped without an error of the
    pool's own, and the mapping is closed and its record freed exactly when
    the last handle that uses it goes. *)
Theorem rp_release_ipc_spec p2pDereg s p Q :
  ipc_core (p :: Q) (rp_infos s) (rp_cache s) ->
  (forall c h, flagcx_failed (p2pDereg c h) = false) ->
  exists infos' cache', release_ipc p2pDereg s p = Some (flagcxSuccess, rp_setIpc s infos' cache') /\
    ipc_core Q infos' cache' /\
    (infos' !! ph_handle p = None <-> forall q, q ∈ Q -> ph_handle q <> ph_handle p) /\
    (forall h, h <> ph_handle p -> infos' !! h = rp_infos s !! h).
Proof.
  intros Hc Hgood.
  destruct (release_ipc_spec p2pDereg s p Q Hc) as [(r & Hf & _ & ->)|(i' & c' & Hrun & Hc' & Hz & Hk)].
  { by rewrite Hgood in Hf. }
  exists i', c'. split_and!; try done. rewrite Hz. split; [apply ipc_refs_zero|].
  intros Hno. unfold ipc_refs. destruct (filter _ Q) as [|q l] eqn:Hf; [done|].
  assert (q ∈ filter (fun x => ph_handle x = ph_handle p) Q) as Hin by (rewrite Hf; by left).
  apply list_elem_of_filter in Hin as [? Hin]. by destruct (Hno q Hin).
Qed.

(** The contract on registrations is needed.  A buffer that spans two
    registered items takes over the pages of the second: its address then
    resolves to the first item, and once the first item is gone the second,
    still registered, cannot be found any more. *)
Theorem rp_bridge_loses_item :
  let nd := fun _ _ _ => flagcxSuccess in let pd := fun _ _ => flagcxSuccess in
  exists s1 s2 s3 s4 s5,
    registerBuffer (rp_init 4096) 1 0 4096 4096 = Some (flagcxSuccess, s1) /\
    registerBuffer s1 2 0 12288 4096 = Some (flagcxSuccess, s2) /\
    getItem s2 0 12288 = 2 /\
    registerBuffer s2 3 0 4096 12288 = Some (flagcxSuccess, s3) /\
    getItem s3 0 12288 = 1 /\
    deregisterBuffer nd pd s3 0 1 = Some (flagcxSuccess, s4) /\
    deregisterBuffer nd pd s4 0 1 = Some (flagcxSuccess, s5) /\
    it_refCount <$> rp_items s5 !! 2 = Some 1 /\ getItem s5 0 12288 = 0.
Proof.
  eexists _, _, _, _, _. split; [vm_compute; reflexivity|]. split; [vm_compute; reflexivity|].
  split; [vm_compute; reflexivity|]. split; [vm_compute; reflexivity|]. split; [vm_compute; reflexivity|].
  split; [vm_compute; reflexivity|]. split; [vm_compute; reflexivity|]. split; vm_compute; reflexivity.
Qed.

(** ** A concrete pool *)

Lemma page_4096 : page_size_ok 4096.
Proof. exists 12. done. Qed.

(** One item, registered twice, with an IPC handle used once. *)
Definition ex_info : flagcxIpcRegInfo := MkIpcRegInfo 3 4096 4096 1 0 77 true true false.
Definition ex_item : flagcxRegItem :=
  MkRegItem 4096 8192 2 [(nh_null, MkP2pHandle 50 60 9)] ∅.
Definition ex_pool : flagcxRegPool :=
  MkRegPool {[1 := ex_item]} {[50 := ex_info]} {[0 := {[4096 := 1]}]} {[4096 := 1]}
    {[(9, 3, 4096) := 50]} 4096.

Lemma ex_pool_ok : rp_ok ex_pool.
Proof.
  split; constructor; cbn -[pages].
  - exact page_4096.
  - intros b p. rewrite lookup_singleton_Some. setoid_rewrite lookup_singleton_Some. split.
    + intros [<- <-]. by exists ex_item.
    + intros (it & [<- <-] & <-). done.
  - intros p it [<- <-]%lookup_singleton_Some. split_and!; try done.
  - intros a p. rewrite lookup_singleton_eq. cbn -[pages]. rewrite lookup_singleton_Some.
    setoid_rewrite lookup_singleton_Some. split.
    + intros [<- <-]. exists ex_item. split; [done|]. by_deciding.
    + intros (it & [<- <-] & Ha). change (a ∈ [4096]) in Ha. apply list_elem_of_singleton in Ha as ->. done.
  - intros c pm a p [<- <-]%lookup_singleton_Some. by rewrite lookup_singleton_eq.
  - intros c pr ba h [[= <- <- <-] <-]%lookup_singleton_Some. exists ex_info.
    split; [by rewrite lookup_singleton_eq|]. done.
  - intros k1 k2 h [<- <-]%lookup_singleton_Some [<- _]%lookup_singleton_Some. done.
  - intros p Hp. change (p ∈ [MkP2pHandle 50 60 9]) in Hp. apply list_elem_of_singleton in Hp as ->.
    exists ex_info. split; [by rewrite lookup_singleton_eq|]. by rewrite lookup_singleton_eq.
Qed.

Lemma ex_one_item b e : at_most_one_met ex_pool b e.
Proof.
  intros p q x y Hp Hq _ _. cbn in Hp, Hq. apply (lookup_singleton_Some 1) in Hp as [<- _].
  by apply (lookup_singleton_Some 1) in Hq as [<- _].
Qed.

(** A buffer that overlaps the item on both sides extends it. *)
Lemma rp_register_witness :
  exists s' p, registerBuffer ex_pool 2 9 4000 9000 = Some (flagcxSuccess, s') /\
    rp_registered ex_pool s' 0 16384 p /\ (forall c a, 4000 <= a < 4000 + 9000 -> getItem s' c a = p).
Proof.
  destruct (rp_register_spec ex_pool 2 9 4000 9000 0 16384 (proj1 ex_pool_ok)) as (s' & p & ? & ? & ? & _).
  - reflexivity.
  - lia.
  - lia.
  - lia.
  - vm_compute. done.
  - vm_compute. reflexivity.
  - apply ex_one_item.
  - exists s', p. done.
Defined.

Lemma rp_deregister_witness :
  exists r s', deregisterBuffer (fun _ _ _ => flagcxSuccess) (fun _ _ => flagcxRemoteError) ex_pool 9 1
     = Some (r, s') /\ rp_wf s' /\ rp_ipc s' /\ r = flagcxSuccess.
Proof.
  destruct (rp_deregister_spec (fun _ _ _ => flagcxSuccess) (fun _ _ => flagcxRemoteError) ex_pool 9 1 ex_item
    (proj1 ex_pool_ok) (proj2 ex_pool_ok)) as (r & s' & Hr & Hw & Hi & Hm & _).
  - reflexivity.
  - exists r, s'. destruct Hm as [-> _]; [reflexivity|]. done.
Defined.

Lemma rp_getItem_witness : getItem ex_pool 9 5000 = 1.
Proof.
  destruct (rp_getItem_spec ex_pool 9 5000 (proj1 ex_pool_ok)) as [(it & _ & _ & Hu)|[_ Hno]].
  - done.
  - symmetry. apply (Hu 1 ex_item); [reflexivity|done].
  - exfalso. apply (Hno 1 ex_item); [reflexivity|done].
Defined.

(** A registration, then a second user of the same page. *)
Lemma rp_invariant_witness :
  exists s1 s2, registerBuffer (rp_init 4096) 1 0 5000 100 = Some (flagcxSuccess, s1) /\
    registerBuffer s1 2 9 6000 100 = Some (flagcxSuccess, s2) /\ rp_wf s2 /\ rp_ipc s2.
Proof.
  eexists _, _. split; [vm_compute; reflexivity|]. split; [vm_compute; reflexivity|].
  edestruct (rp_invariant 4096) as (H1 & H2 & _); [exact page_4096| |split; [exact H1|exact H2]].
  eapply reach_step; [|eapply reach_step; [|apply reach_refl]].
  - eapply (st_register _ false false 1 0 5000 100 4096 8192 flagcxSuccess); done.
  - eapply (st_register _ false false 2 9 6000 100 4096 8192 flagcxSuccess); try done. split; [|done]. intros _. split; [done|].
    intros p q x y Hp Hq _ _. change (({[1 := MkRegItem 4096 8192 1 [] ∅]} : gmap Z flagcxRegItem) !! p = Some x) in Hp.
    change (({[1 := MkRegItem 4096 8192 1 [] ∅]} : gmap Z flagcxRegItem) !! q = Some y) in Hq.
    apply lookup_singleton_Some in Hp as [<- _]. by apply lookup_singleton_Some in Hq as [<- _].
Defined.

Lemma rp_release_ipc_witness :
  exists infos' cache', release_ipc (fun _ _ => flagcxSuccess) ex_pool (MkP2pHandle 50 60 9)
      = Some (flagcxSuccess, rp_setIpc ex_pool infos' cache') /\ infos' !! 50 = None.
Proof.
  destruct (rp_release_ipc_spec (fun _ _ => flagcxSuccess) ex_pool (MkP2pHandle 50 60 9) [] (proj2 ex_pool_ok))
    as (i' & c' & Hr & _ & Hz & _).
  - done.
  - exists i', c'. split; [exact Hr|]. apply Hz. intros q Hq. by apply elem_of_nil in Hq.
Defined.
