(* ===== verification/IbRetrans.v ===== *)
(** Retransmission for InfiniBand transports ([flagcx/adaptor/net/ib_retrans.cc],
    [flagcx/adaptor/include/ib_retrans.h]): a sender keeps its unacknowledged
    transfers in a ring, a receiver acknowledges cumulatively, sequence numbers
    wrap around.

    [ibuc] tells whether the build defines [USE_IBUC]: 12-bit sequence numbers
    and retransmission of request batches over a dedicated RC queue pair;
    otherwise 16-bit numbers and single packets.  The clock is an argument
    ([now]), the answers of the verbs layer are oracles.  An access outside an
    array or through a dead pointer is [None]. *)
From S2P Require Import Prelude Flagcx Arrays.

Abbreviation FLAGCX_IB_RETRANS_MAX_INFLIGHT := 2048 (only parsing).
Abbreviation FLAGCX_IB_RETRANS_MAX_CHUNK_SIZE := 8388608 (only parsing).
Abbreviation FLAGCX_IBUC_RETRANS_RECV_DEPTH := 16%nat (only parsing).
Abbreviation FLAGCX_IB_MAX_DEVS_PER_NIC := 2 (only parsing).
Abbreviation FLAGCX_NET_IB_MAX_RECVS := 8 (only parsing).
Abbreviation FLAGCX_NET_IB_REQ_SEND := 1 (only parsing).
Abbreviation FLAGCX_NET_IB_REQ_RECV := 2 (only parsing).
Abbreviation FLAGCX_RETRANS_MAGIC := 3735928559 (only parsing).
Abbreviation FLAGCX_RETRANS_WR_ID := 4294967294 (only parsing).
Abbreviation FLAGCX_IBUC_GENERATION_MASK := 4095 (only parsing).

(** ** Data *)

Record ib_segment := MkSegment {
  sg_size : Z;
  sg_data : Z;
  sg_lkeys : list Z
}.

Record flagcxIbRetransEntry := MkRetransEntry {
  en_seq : Z;
  en_size : Z;
  en_sendTimeUs : Z;
  en_remoteAddr : Z;
  en_data : Z;
  en_lkeys : list Z;
  en_rkeys : list Z;
  en_retryCount : Z;
  en_valid : bool;
  en_nreqs : Z;
  en_remoteRequestSlot : Z;
  en_remoteGeneration : Z;
  en_ackDevIndex : Z;
  en_requests : list Z;
  en_segments : list ib_segment;
  en_retransSegment : Z;
  en_retransOffset : Z;
  en_retransAllPosted : bool
}.

Record flagcxIbRetransState := MkRetransState {
  st_sendSeq : Z;
  st_sendUna : Z;
  st_recvSeq : Z;
  st_buffer : list flagcxIbRetransEntry;
  st_bufferHead : Z;
  st_bufferTail : Z;
  st_bufferCount : Z;
  st_lastAckTimeUs : Z;
  st_rtoUs : Z;
  st_srttUs : Z;
  st_rttvarUs : Z;
  st_totalSent : Z;
  st_totalRetrans : Z;
  st_totalAcked : Z;
  st_totalTimeout : Z;
  st_enabled : bool;
  st_maxRetry : Z;
  st_ackInterval : Z;
  st_minRtoUs : Z;
  st_maxRtoUs : Z;
  st_retransQPIndex : Z;
  st_lastAckSeq : Z;
  st_lastAckSendTimeUs : Z
}.

Record flagcxIbAckMsg := MkAckMsg {
  ack_peerId : Z;
  ack_flowId : Z;
  ack_path : Z;
  ack_ackSeq : Z;
  ack_sackBitmapCount : Z;
  ack_timestampUs : Z;
  ack_sackBitmap : Z
}.

(** The fields of [flagcxIbRequest] the code uses. *)
Record flagcxIbRequest := MkIbRequest {
  rq_type : Z;
  rq_events : list Z;
  rq_retransGeneration : Z;
  rq_sendSize : Z;
  rq_sendData : Z;
  rq_sendLkeys : list Z
}.

Abbreviation ib_heap := (gmap Z flagcxIbRequest).

Record flagcxIbRetransHdr := MkRetransHdr {
  hd_magic : Z;
  hd_seq : Z;
  hd_size : Z;
  hd_rkey : Z;
  hd_remoteAddr : Z;
  hd_immData : Z
}.

(** The fields of [flagcxIbSendComm] the code uses; [cm_qps] are the device
    indices of the data queue pairs that exist, [cm_rcReady] tells per device
    whether the RC queue pair and the header region exist. *)
Record flagcxIbSendComm := MkSendComm {
  cm_retrans : flagcxIbRetransState;
  cm_outstandingSends : Z;
  cm_outstandingRetrans : Z;
  cm_maxOutstanding : Z;
  cm_retransUsesRc : bool;
  cm_retransWindowNreqs : Z;
  cm_retransWindowDevIndex : Z;
  cm_retransWindowRequests : list Z;
  cm_hdrPool : list flagcxIbRetransHdr;
  cm_hdrMr : bool;
  cm_ndevs : Z;
  cm_nqps : Z;
  cm_qps : list (option Z);
  cm_rcReady : list bool
}.

(** *** Field updates *)

Definition st_setRing (s : flagcxIbRetransState) b hd tl c : flagcxIbRetransState :=
  MkRetransState (st_sendSeq s) (st_sendUna s) (st_recvSeq s) b hd tl c (st_lastAckTimeUs s)
    (st_rtoUs s) (st_srttUs s) (st_rttvarUs s) (st_totalSent s) (st_totalRetrans s)
    (st_totalAcked s) (st_totalTimeout s) (st_enabled s) (st_maxRetry s) (st_ackInterval s)
    (st_minRtoUs s) (st_maxRtoUs s) (st_retransQPIndex s) (st_lastAckSeq s) (st_lastAckSendTimeUs s).
Definition st_setBuffer (s : flagcxIbRetransState) b : flagcxIbRetransState :=
  st_setRing s b (st_bufferHead s) (st_bufferTail s) (st_bufferCount s).
Definition st_setRtt (s : flagcxIbRetransState) rto srtt var : flagcxIbRetransState :=
  MkRetransState (st_sendSeq s) (st_sendUna s) (st_recvSeq s) (st_buffer s) (st_bufferHead s)
    (st_bufferTail s) (st_bufferCount s) (st_lastAckTimeUs s) rto srtt var (st_totalSent s)
    (st_totalRetrans s) (st_totalAcked s) (st_totalTimeout s) (st_enabled s) (st_maxRetry s)
    (st_ackInterval s) (st_minRtoUs s) (st_maxRtoUs s) (st_retransQPIndex s) (st_lastAckSeq s)
    (st_lastAckSendTimeUs s).
Definition st_setTotals (s : flagcxIbRetransState) sent retr acked tmo : flagcxIbRetransState :=
  MkRetransState (st_sendSeq s) (st_sendUna s) (st_recvSeq s) (st_buffer s) (st_bufferHead s)
    (st_bufferTail s) (st_bufferCount s) (st_lastAckTimeUs s) (st_rtoUs s) (st_srttUs s)
    (st_rttvarUs s) sent retr acked tmo (st_enabled s) (st_maxRetry s)
    (st_ackInterval s) (st_minRtoUs s) (st_maxRtoUs s) (st_retransQPIndex s) (st_lastAckSeq s)
    (st_lastAckSendTimeUs s).
Definition st_setUna (s : flagcxIbRetransState) una lastAckTime : flagcxIbRetransState :=
  MkRetransState (st_sendSeq s) una (st_recvSeq s) (st_buffer s) (st_bufferHead s)
    (st_bufferTail s) (st_bufferCount s) lastAckTime (st_rtoUs s) (st_srttUs s)
    (st_rttvarUs s) (st_totalSent s) (st_totalRetrans s) (st_totalAcked s) (st_totalTimeout s)
    (st_enabled s) (st_maxRetry s) (st_ackInterval s) (st_minRtoUs s) (st_maxRtoUs s)
    (st_retransQPIndex s) (st_lastAckSeq s) (st_lastAckSendTimeUs s).
Definition st_setRecv (s : flagcxIbRetransState) recvSeq lastAckSeq lastAckSend : flagcxIbRetransState :=
  MkRetransState (st_sendSeq s) (st_sendUna s) recvSeq (st_buffer s) (st_bufferHead s)
    (st_bufferTail s) (st_bufferCount s) (st_lastAckTimeUs s) (st_rtoUs s) (st_srttUs s)
    (st_rttvarUs s) (st_totalSent s) (st_totalRetrans s) (st_totalAcked s) (st_totalTimeout s)
    (st_enabled s) (st_maxRetry s) (st_ackInterval s) (st_minRtoUs s) (st_maxRtoUs s)
    (st_retransQPIndex s) lastAckSeq lastAckSend.
Definition st_setMisc (s : flagcxIbRetransState) (enabled : bool) qpIndex : flagcxIbRetransState :=
  MkRetransState (st_sendSeq s) (st_sendUna s) (st_recvSeq s) (st_buffer s) (st_bufferHead s)
    (st_bufferTail s) (st_bufferCount s) (st_lastAckTimeUs s) (st_rtoUs s) (st_srttUs s)
    (st_rttvarUs s) (st_totalSent s) (st_totalRetrans s) (st_totalAcked s) (st_totalTimeout s)
    enabled (st_maxRetry s) (st_ackInterval s) (st_minRtoUs s) (st_maxRtoUs s)
    qpIndex (st_lastAckSeq s) (st_lastAckSendTimeUs s).

Definition en_setValid (e : flagcxIbRetransEntry) v : flagcxIbRetransEntry :=
  MkRetransEntry (en_seq e) (en_size e) (en_sendTimeUs e) (en_remoteAddr e) (en_data e) (en_lkeys e)
    (en_rkeys e) (en_retryCount e) v (en_nreqs e) (en_remoteRequestSlot e) (en_remoteGeneration e)
    (en_ackDevIndex e) (en_requests e) (en_segments e) (en_retransSegment e) (en_retransOffset e)
    (en_retransAllPosted e).
Definition en_setRequests (e : flagcxIbRetransEntry) rs n : flagcxIbRetransEntry :=
  MkRetransEntry (en_seq e) (en_size e) (en_sendTimeUs e) (en_remoteAddr e) (en_data e) (en_lkeys e)
    (en_rkeys e) (en_retryCount e) (en_valid e) n (en_remoteRequestSlot e) (en_remoteGeneration e)
    (en_ackDevIndex e) rs (en_segments e) (en_retransSegment e) (en_retransOffset e)
    (en_retransAllPosted e).
Definition en_setCursor (e : flagcxIbRetransEntry) sgm off all : flagcxIbRetransEntry :=
  MkRetransEntry (en_seq e) (en_size e) (en_sendTimeUs e) (en_remoteAddr e) (en_data e) (en_lkeys e)
    (en_rkeys e) (en_retryCount e) (en_valid e) (en_nreqs e) (en_remoteRequestSlot e)
    (en_remoteGeneration e) (en_ackDevIndex e) (en_requests e) (en_segments e) sgm off all.
Definition en_setRetry (e : flagcxIbRetransEntry) n t : flagcxIbRetransEntry :=
  MkRetransEntry (en_seq e) (en_size e) t (en_remoteAddr e) (en_data e) (en_lkeys e)
    (en_rkeys e) n (en_valid e) (en_nreqs e) (en_remoteRequestSlot e) (en_remoteGeneration e)
    (en_ackDevIndex e) (en_requests e) (en_segments e) (en_retransSegment e) (en_retransOffset e)
    (en_retransAllPosted e).

Definition cm_setRetrans (c : flagcxIbSendComm) s : flagcxIbSendComm :=
  MkSendComm s (cm_outstandingSends c) (cm_outstandingRetrans c) (cm_maxOutstanding c)
    (cm_retransUsesRc c) (cm_retransWindowNreqs c) (cm_retransWindowDevIndex c)
    (cm_retransWindowRequests c) (cm_hdrPool c) (cm_hdrMr c) (cm_ndevs c) (cm_nqps c) (cm_qps c) (cm_rcReady c).
Definition cm_setOutstandingRetrans (c : flagcxIbSendComm) n : flagcxIbSendComm :=
  MkSendComm (cm_retrans c) (cm_outstandingSends c) n (cm_maxOutstanding c)
    (cm_retransUsesRc c) (cm_retransWindowNreqs c) (cm_retransWindowDevIndex c)
    (cm_retransWindowRequests c) (cm_hdrPool c) (cm_hdrMr c) (cm_ndevs c) (cm_nqps c) (cm_qps c) (cm_rcReady c).
Definition cm_setWindow (c : flagcxIbSendComm) n dev rs : flagcxIbSendComm :=
  MkSendComm (cm_retrans c) (cm_outstandingSends c) (cm_outstandingRetrans c) (cm_maxOutstanding c)
    (cm_retransUsesRc c) n dev rs (cm_hdrPool c) (cm_hdrMr c) (cm_ndevs c) (cm_nqps c) (cm_qps c) (cm_rcReady c).
Definition cm_setHdrPool (c : flagcxIbSendComm) hp : flagcxIbSendComm :=
  MkSendComm (cm_retrans c) (cm_outstandingSends c) (cm_outstandingRetrans c) (cm_maxOutstanding c)
    (cm_retransUsesRc c) (cm_retransWindowNreqs c) (cm_retransWindowDevIndex c)
    (cm_retransWindowRequests c) hp (cm_hdrMr c) (cm_ndevs c) (cm_nqps c) (cm_qps c) (cm_rcReady c).

Definition rq_setEvents (q : flagcxIbRequest) evs : flagcxIbRequest :=
  MkIbRequest (rq_type q) evs (rq_retransGeneration q) (rq_sendSize q) (rq_sendData q) (rq_sendLkeys q).

(** [req->events[dev] += d] *)
Definition req_bump (h : ib_heap) (req dev d : Z) : option ib_heap :=
  q ← h !! req;
  ev ← arr_get (rq_events q) dev;
  evs ← arr_set (rq_events q) dev (ev + d);
  Some (<[req := rq_setEvents q evs]> h).

(** The zeroed entry of [memset]. *)
Definition zero_segment : ib_segment := MkSegment 0 0 [0; 0].
Definition zero_entry : flagcxIbRetransEntry :=
  MkRetransEntry 0 0 0 0 0 [0; 0] [0; 0] 0 false 0 0 0 0 (replicate 8 0) (replicate 8 zero_segment) 0 0 false.

(** ** Wire formats *)

Definition flagcxIbEncodeImmData (seq size : Z) : Z :=
  Z.lor ((Z.shiftl (Z.land seq 65535) 16) mod U32_MOD) (Z.land size 65535).

Definition flagcxIbDecodeImmData (imm : Z) : Z * Z :=
  (Z.land (Z.shiftr imm 16) 65535, Z.land imm 65535).

Definition flagcxIbucEncodeImmData (seq slot generation : Z) : Z :=
  Z.lor (Z.lor ((Z.shiftl (Z.land seq 4095) 20) mod U32_MOD)
               (Z.shiftl (Z.land generation FLAGCX_IBUC_GENERATION_MASK) 8)) slot.

Definition flagcxIbucDecodeImmData (imm : Z) : Z * Z * Z :=
  (Z.land (Z.shiftr imm 20) 4095, Z.land imm 255,
   Z.land (Z.shiftr imm 8) FLAGCX_IBUC_GENERATION_MASK).

Definition flagcxIbucRequestMatchesGeneration (h : ib_heap) (req generation : Z) : option bool :=
  if req =? 0 then Some false else
  q ← h !! req;
  Some ((rq_type q =? FLAGCX_NET_IB_REQ_RECV) &&
        (rq_retransGeneration q =? Z.land generation FLAGCX_IBUC_GENERATION_MASK)).

Definition flagcxIbucRetransChunkCount (size : Z) : Z :=
  if size =? 0 then 1 else 1 + (size - 1) / FLAGCX_IB_RETRANS_MAX_CHUNK_SIZE.

(** Completions of the data queue: the work-request id and whether it succeeded. *)
Abbreviation ib_wc := (Z * bool)%type.

Section Retrans.
Variable ibuc : bool.

(** ** Sequence numbers *)

Definition FLAGCX_IB_RETRANS_SEQ_MASK : Z := if ibuc then 4095 else 65535.

Definition flagcxIbSeqLess (a b : Z) : bool :=
  let diff := Z.land (a -u32 b) FLAGCX_IB_RETRANS_SEQ_MASK in
  negb (diff =? 0) && (Z.shiftr FLAGCX_IB_RETRANS_SEQ_MASK 1 <? diff).

Definition flagcxIbSeqLeq (a b : Z) : bool := (a =? b) || flagcxIbSeqLess a b.

(** ** The sender's ring *)

(** [flagcxIbRetransInit]: the parameters are read from the environment as
    64-bit integers and narrowed by the assignments ([int] or [uint32_t]). *)
Definition to_int (x : Z) : Z := (x + 2147483648) mod U32_MOD - 2147483648.

Definition flagcxIbRetransInit (paramEnable paramTimeout paramMaxRetry paramAckInterval : Z)
    (udSupported : bool) (now : Z) : flagcxIbRetransState :=
  let requested := to_int paramEnable in
  let minRto := paramTimeout mod U32_MOD in
  MkRetransState 0 0 0 (replicate (Z.to_nat FLAGCX_IB_RETRANS_MAX_INFLIGHT) zero_entry) 0 0 0
    now minRto 0 0 0 0 0 0
    (negb (requested =? 0) && udSupported)
    (to_int paramMaxRetry) (to_int paramAckInterval)
    minRto ((minRto * 64) mod U32_MOD) 0 0 0.

Definition ring_next (i : Z) : Z := Z.rem (i + 1) FLAGCX_IB_RETRANS_MAX_INFLIGHT.

(** Appending an entry at the tail. *)
Definition ring_push (s : flagcxIbRetransState) (e : flagcxIbRetransEntry)
    : option flagcxIbRetransState :=
  b ← arr_set (st_buffer s) (st_bufferTail s) e;
  let s1 := st_setRing s b (st_bufferHead s) (ring_next (st_bufferTail s)) (st_bufferCount s + 1) in
  Some (st_setTotals s1 (st_totalSent s +u64 1) (st_totalRetrans s) (st_totalAcked s) (st_totalTimeout s)).

Definition keys_or_zero (keys : option (list Z)) : list Z :=
  match keys with Some ks => ks | None => [0; 0] end.

Definition flagcxIbRetransAddPacket (s : flagcxIbRetransState) (seq size data remote_addr : Z)
    (lkeys rkeys : option (list Z)) (now : Z) : option (flagcxResult_t * flagcxIbRetransState) :=
  if negb (st_enabled s) then Some (flagcxSuccess, s) else
  s1 ← (if FLAGCX_IB_RETRANS_MAX_INFLIGHT <=? st_bufferCount s then
          (* drop the oldest packet *)
          e ← arr_get (st_buffer s) (st_bufferHead s);
          b ← arr_set (st_buffer s) (st_bufferHead s) (en_setValid e false);
          Some (st_setRing s b (ring_next (st_bufferHead s)) (st_bufferTail s) (st_bufferCount s - 1))
        else Some s);
  s2 ← ring_push s1
         (MkRetransEntry seq size now remote_addr data (keys_or_zero lkeys) (keys_or_zero rkeys)
            0 true 0 0 0 0 (replicate 8 0) (replicate 8 zero_segment) 0 0 false);
  Some (flagcxSuccess, s2).

(** The loops of [flagcxIbRetransAddBatch] over [reqs[i .. nreqs)]. *)
Fixpoint batch_check (n : nat) (h : ib_heap) (reqs : list Z) (i : Z) : option bool :=
  match n with
  | O => Some true
  | S n' =>
      r ← arr_get reqs i;
      if r =? 0 then Some false else
      q ← h !! r;
      if negb (rq_type q =? FLAGCX_NET_IB_REQ_SEND) then Some false
      else batch_check n' h reqs (i + 1)
  end.

Fixpoint batch_fill (n : nat) (h : ib_heap) (reqs : list Z) (ackDevIndex i : Z)
    (rs : list Z) (sgs : list ib_segment) : option (ib_heap * list Z * list ib_segment) :=
  match n with
  | O => Some (h, rs, sgs)
  | S n' =>
      r ← arr_get reqs i;
      q ← h !! r;
      rs' ← arr_set rs i r;
      sgs' ← arr_set sgs i (MkSegment (rq_sendSize q mod U32_MOD) (rq_sendData q) (rq_sendLkeys q));
      h' ← req_bump h r ackDevIndex 1;
      batch_fill n' h' reqs ackDevIndex (i + 1) rs' sgs'
  end.

Definition flagcxIbRetransAddBatch (s : flagcxIbRetransState) (h : ib_heap)
    (seq remoteRequestSlot remoteGeneration ackDevIndex nreqs : Z) (reqs : option (list Z)) (now : Z)
    : option (flagcxResult_t * flagcxIbRetransState * ib_heap) :=
  match reqs with
  | None => Some (flagcxInvalidArgument, s, h)
  | Some reqs =>
      if (nreqs <=? 0) || (FLAGCX_NET_IB_MAX_RECVS <? nreqs) ||
         (FLAGCX_IB_MAX_DEVS_PER_NIC <=? ackDevIndex)
      then Some (flagcxInvalidArgument, s, h) else
      if negb (st_enabled s) then Some (flagcxSuccess, s, h) else
      if FLAGCX_IB_RETRANS_MAX_INFLIGHT <=? st_bufferCount s then Some (flagcxInternalError, s, h) else
      ok ← batch_check (Z.to_nat nreqs) h reqs 0;
      if negb ok then Some (flagcxInternalError, s, h) else
      '(h', rs, sgs) ← batch_fill (Z.to_nat nreqs) h reqs ackDevIndex 0
                          (replicate 8 0) (replicate 8 zero_segment);
      s' ← ring_push s (MkRetransEntry seq 0 now 0 0 [0; 0] [0; 0] 0 true nreqs remoteRequestSlot
                          remoteGeneration ackDevIndex rs sgs 0 0 true);
      Some (flagcxSuccess, s', h')
  end.

(** ** Acknowledgements *)

Fixpoint release_loop (n : nat) (h : ib_heap) (rs : list Z) (ackDevIndex i : Z)
    : option (ib_heap * list Z) :=
  match n with
  | O => Some (h, rs)
  | S n' =>
      req ← arr_get rs i;
      h' ← (if req =? 0 then Some h else
              q ← h !! req;
              if negb (rq_type q =? FLAGCX_NET_IB_REQ_SEND) then Some h else
              if negb (ackDevIndex <? FLAGCX_IB_MAX_DEVS_PER_NIC) then Some h else
              ev ← arr_get (rq_events q) ackDevIndex;
              if 0 <? ev then req_bump h req ackDevIndex (-1) else Some h);
      rs' ← arr_set rs i 0;
      release_loop n' h' rs' ackDevIndex (i + 1)
  end.

Definition flagcxIbRetransReleaseRequests (h : ib_heap) (e : flagcxIbRetransEntry)
    : option (ib_heap * flagcxIbRetransEntry) :=
  if en_nreqs e <=? 0 then Some (h, e) else
  '(h', rs) ← release_loop (Z.to_nat (en_nreqs e)) h (en_requests e) (en_ackDevIndex e) 0;
  Some (h', en_setRequests e rs 0).

Definition flagcxIbUpdateRTO (s : flagcxIbRetransState) (rtt : Z) : flagcxIbRetransState :=
  let '(srtt, var) :=
    if st_srttUs s =? 0 then (rtt, rtt / 2) else
    let delta := if st_srttUs s <? rtt then rtt -u64 st_srttUs s else st_srttUs s -u64 rtt in
    ((((7 *u64 st_srttUs s) +u64 rtt) / 8), (((3 *u64 st_rttvarUs s) +u64 delta) / 4)) in
  let rto := srtt +u64 (4 *u64 var) in
  let rto1 := if rto <? st_minRtoUs s then st_minRtoUs s else rto in
  let rto2 := if st_maxRtoUs s <? rto1 then st_maxRtoUs s else rto1 in
  st_setRtt s rto2 srtt var.

(** The loop that retires entries from the head. *)
Fixpoint ack_loop (fuel : nat) (s : flagcxIbRetransState) (h : ib_heap) (ackSeq : Z)
    : option (flagcxIbRetransState * ib_heap) :=
  match fuel with
  | O => None
  | S fuel' =>
      if negb (0 <? st_bufferCount s) then Some (s, h) else
      e ← arr_get (st_buffer s) (st_bufferHead s);
      if negb (en_valid e) then
        ack_loop fuel' (st_setRing s (st_buffer s) (ring_next (st_bufferHead s)) (st_bufferTail s)
                          (st_bufferCount s - 1)) h ackSeq
      else if flagcxIbSeqLeq (en_seq e) ackSeq then
        '(h', e') ← (if ibuc then flagcxIbRetransReleaseRequests h e else Some (h, e));
        b ← arr_set (st_buffer s) (st_bufferHead s) (en_setValid e' false);
        let s1 := st_setRing s b (ring_next (st_bufferHead s)) (st_bufferTail s) (st_bufferCount s - 1) in
        let s2 := st_setTotals s1 (st_totalSent s) (st_totalRetrans s) (st_totalAcked s +u64 1)
                    (st_totalTimeout s) in
        let s3 := st_setUna s2 (Z.land (en_seq e +u32 1) FLAGCX_IB_RETRANS_SEQ_MASK)
                    (st_lastAckTimeUs s2) in
        ack_loop fuel' s3 h' ackSeq
      else Some (s, h)
  end.

Definition flagcxIbRetransProcessAck (s : flagcxIbRetransState) (h : ib_heap)
    (ack_msg : option flagcxIbAckMsg) (now : Z)
    : option (flagcxResult_t * flagcxIbRetransState * ib_heap) :=
  match ack_msg with
  | None => Some (flagcxSuccess, s, h)
  | Some m =>
      if negb (st_enabled s) then Some (flagcxSuccess, s, h) else
      let s1 := if 0 <? ack_timestampUs m then
                  let rtt := now -u64 ack_timestampUs m in
                  if rtt <? 10000000 then flagcxIbUpdateRTO s rtt else s
                else s in
      let s2 := st_setUna s1 (st_sendUna s1) now in
      '(s3, h') ← ack_loop (S (Z.to_nat (st_bufferCount s2))) s2 h (ack_ackSeq m);
      Some (flagcxSuccess, s3, h')
  end.

(** ** The receiver *)

(** The population count loop over the bitmap. *)
Fixpoint popcount_loop (fuel : nat) (bitmap cnt : Z) : Z :=
  match fuel with
  | O => cnt
  | S fuel' =>
      if bitmap =? 0 then cnt
      else popcount_loop fuel' (Z.shiftr bitmap 1) ((cnt + Z.land bitmap 1) mod 65536)
  end.

Definition flagcxIbRetransRecvPacket (s : flagcxIbRetransState) (seq : Z) (m : flagcxIbAckMsg) (now : Z)
    : bool * flagcxIbRetransState * flagcxIbAckMsg :=
  if negb (st_enabled s) then (false, s, m) else
  let mask := FLAGCX_IB_RETRANS_SEQ_MASK in
  let ack_interval := if 0 <? st_ackInterval s then st_ackInterval s else 1 in
  let '(should_ack, s1, m1) :=
    if seq =? st_recvSeq s then
      let recvSeq' := Z.land (st_recvSeq s +u32 1) mask in
      let delta := Z.land (recvSeq' -u32 st_lastAckSeq s) mask in
      ((ack_interval <=? delta) || (1000 <=? (now -u64 st_lastAckSendTimeUs s)) || (recvSeq' =? 1),
       st_setRecv s recvSeq' (st_lastAckSeq s) (st_lastAckSendTimeUs s), m)
    else if flagcxIbSeqLess seq (st_recvSeq s) then (true, s, m)
    else
      let gap := Z.land (seq -u32 st_recvSeq s) mask in
      if (0 <? gap) && (gap <? 64) then
        let bm := Z.lor (ack_sackBitmap m) (Z.shiftl 1 (gap - 1)) in
        (true, s, MkAckMsg (ack_peerId m) (ack_flowId m) (ack_path m) (ack_ackSeq m)
                    (popcount_loop 64 bm 0) (ack_timestampUs m) bm)
      else (true, s, m) in
  if should_ack then
    (true, st_setRecv s1 (st_recvSeq s1) (st_recvSeq s1) now,
     MkAckMsg 0 0 0 (Z.land (st_recvSeq s1 -u32 1) mask mod 65536) (ack_sackBitmapCount m1) now (ack_sackBitmap m1))
  else (false, s1, m1).

(** ** Resending *)

(** The entry with a sequence number: its index in the ring. *)
Fixpoint find_entry (n : nat) (buffer : list flagcxIbRetransEntry) (idx seq : Z)
    : option (option Z) :=
  match n with
  | O => Some None
  | S n' =>
      e ← arr_get buffer idx;
      if en_valid e && (en_seq e =? seq) then Some (Some idx)
      else find_entry n' buffer (ring_next idx) seq
  end.

(** One work request of a retransmission window, and the cursor after it. *)
Record retrans_wr := MkRetransWr {
  wr_hdr : flagcxIbRetransHdr;
  wr_addr : Z;
  wr_len : Z;
  wr_lkey : Z;
  wr_nextSegment : Z;
  wr_nextOffset : Z
}.

(** The loop that cuts the transfer into chunks, from the cursor on; [depth]
    is what is left of [FLAGCX_IBUC_RETRANS_RECV_DEPTH].  The boolean is false on
    the error return. *)
Fixpoint build_window (depth : nat) (e : flagcxIbRetransEntry) (devIndex segment offset : Z)
    : option (bool * list retrans_wr) :=
  match depth with
  | O => Some (true, [])
  | S depth' =>
      if negb (segment <? en_nreqs e) then Some (true, []) else
      sg ← arr_get (en_segments e) segment;
      let totalSize := sg_size sg in
      if totalSize <? offset then Some (false, []) else
      let chunkSize := if totalSize =? 0 then 0
                       else Z.min FLAGCX_IB_RETRANS_MAX_CHUNK_SIZE (totalSize -u32 offset) in
      lkey ← arr_get (sg_lkeys sg) devIndex;
      let hdr := MkRetransHdr FLAGCX_RETRANS_MAGIC (en_seq e) chunkSize totalSize
                   (Z.lor ((Z.shiftl offset 16) mod U64_MOD) (en_remoteGeneration e))
                   (Z.lor (Z.lor (en_remoteRequestSlot e) ((Z.shiftl segment 8) mod U32_MOD))
                          ((Z.shiftl (en_nreqs e) 16) mod U32_MOD)) in
      let offset1 := offset +u32 chunkSize in
      let last := (totalSize =? 0) || (offset1 =? totalSize) in
      let segment2 := if last then segment + 1 else segment in
      let offset2 := if last then 0 else offset1 in
      '(ok, ws) ← build_window depth' e devIndex segment2 offset2;
      Some (ok, MkRetransWr hdr (sg_data sg +u64 offset) chunkSize lkey (segment2 mod 256) offset2 :: ws)
  end.

(** Holding the source requests of the window. *)
Fixpoint hold_requests (n : nat) (h : ib_heap) (c : flagcxIbSendComm) (e : flagcxIbRetransEntry)
    (devIndex i : Z) : option (ib_heap * flagcxIbSendComm) :=
  match n with
  | O => Some (h, c)
  | S n' =>
      r ← arr_get (en_requests e) i;
      rs ← arr_set (cm_retransWindowRequests c) i r;
      let c1 := cm_setWindow c (cm_retransWindowNreqs c) (cm_retransWindowDevIndex c) rs in
      h' ← (if r =? 0 then Some h else req_bump h r devIndex 1);
      hold_requests n' h' c1 e devIndex (i + 1)
  end.

(** What stopped the posting loop. *)
Inductive post_stop := PostAll | PostBusy | PostError (r : flagcxResult_t).

(** The posting loop: [post k] is the answer to the [k]-th work request. *)
Fixpoint post_window (post : nat -> flagcxResult_t) (k : nat) (ws : list retrans_wr)
    (h : ib_heap) (c : flagcxIbSendComm) (e : flagcxIbRetransEntry) (devIndex : Z)
    : option (post_stop * nat * ib_heap * flagcxIbSendComm * flagcxIbRetransEntry) :=
  match ws with
  | [] => Some (PostAll, k, h, c, e)
  | w :: ws' =>
      let result := post k in
      if bool_decide (result = flagcxInProgress) then Some (PostBusy, k, h, c, e) else
      if negb (bool_decide (result = flagcxSuccess)) then Some (PostError result, k, h, c, e) else
      '(h1, c1) ← (if cm_retransWindowNreqs c =? 0
                   then hold_requests (Z.to_nat (en_nreqs e)) h
                          (cm_setWindow c (en_nreqs e) (devIndex mod 256) (cm_retransWindowRequests c))
                          e devIndex 0
                   else Some (h, c));
      let e1 := en_setCursor e (wr_nextSegment w) (wr_nextOffset w)
                  (wr_nextSegment w =? en_nreqs e) in
      post_window post (S k) ws' h1
        (cm_setOutstandingRetrans c1 (cm_outstandingRetrans c1 + 1)) e1 devIndex
  end.

(** Storing the entry back into the ring. *)
Definition cm_putEntry (c : flagcxIbSendComm) (idx : Z) (e : flagcxIbRetransEntry)
    : option flagcxIbSendComm :=
  b ← arr_set (st_buffer (cm_retrans c)) idx e;
  Some (cm_setRetrans c (st_setBuffer (cm_retrans c) b)).

Definition cm_countRetrans (c : flagcxIbSendComm) : flagcxIbSendComm :=
  let s := cm_retrans c in
  cm_setRetrans c (st_setTotals s (st_totalSent s) (st_totalRetrans s +u64 1) (st_totalAcked s)
                     (st_totalTimeout s)).

Abbreviation resend_answer := (option (flagcxResult_t * flagcxIbSendComm * ib_heap)).

(** The IBUC path: one window of chunks over the RC queue pair. *)
Definition resend_rc (post : nat -> flagcxResult_t) (now : Z) (c : flagcxIbSendComm) (h : ib_heap)
    (idx : Z) (e : flagcxIbRetransEntry) : resend_answer :=
  if 0 <? cm_outstandingRetrans c then Some (flagcxInProgress, c, h) else
  if cm_ndevs c =? 0 then None else
  let devIndex := Z.rem (en_ackDevIndex e) (cm_ndevs c) in
  ready ← arr_get (cm_rcReady c) devIndex;
  if negb ready then Some (flagcxInternalError, c, h) else
  '(ok, ws) ← build_window FLAGCX_IBUC_RETRANS_RECV_DEPTH e devIndex (en_retransSegment e) (en_retransOffset e);
  let c0 := cm_setHdrPool c ((wr_hdr <$> ws) ++ drop (length ws) (cm_hdrPool c)) in
  if negb ok then Some (flagcxInternalError, c0, h) else
  if (length ws =? 0)%nat then Some (flagcxInternalError, c0, h) else
  let firstAttempt := (en_retransSegment e =? 0) && (en_retransOffset e =? 0) in
  '(stop, posted, h1, c1, e1) ← post_window post 0 ws h c0 e devIndex;
  match stop with
  | PostError r => c2 ← cm_putEntry c1 idx e1; Some (r, c2, h1)
  | _ =>
      if (posted =? 0)%nat then c2 ← cm_putEntry c1 idx e1; Some (flagcxInProgress, c2, h1) else
      let e2 := en_setRetry e1 (if firstAttempt then en_retryCount e1 + 1 else en_retryCount e1) now in
      c2 ← cm_putEntry c1 idx e2;
      Some (flagcxSuccess, if firstAttempt then cm_countRetrans c2 else c2, h1)
  end.

(** Up to eight polls into the same 64-entry array; [polls] are the batches
    the verbs layer returns (at most 64 each). *)
Fixpoint poll_loop (n : nat) (polls : list (list ib_wc)) (wcs : list ib_wc) (totalPolled : Z)
    : list ib_wc * Z :=
  match n with
  | O => (wcs, totalPolled)
  | S n' =>
      let batch := take 64 (default [] (head polls)) in
      let wcs' := batch ++ drop (length batch) wcs in
      let totalPolled' := totalPolled + Z.of_nat (length batch) in
      if (length batch =? 0)%nat then (wcs', totalPolled')
      else poll_loop n' (tail polls) wcs' totalPolled'
  end.

(** The count of retransmission completions among [wcs[0 .. totalPolled)]. *)
Fixpoint count_retrans (n : nat) (wcs : list ib_wc) (i acc : Z) : option Z :=
  match n with
  | O => Some acc
  | S n' =>
      wc ← arr_get wcs i;
      count_retrans n' wcs (i + 1)
        (if (wc.1 =? FLAGCX_RETRANS_WR_ID) && wc.2 then acc + 1 else acc)
  end.

(** The legacy path: one SEND on a data queue pair; [junk] is the content of
    the uninitialised completion array. *)
Definition resend_send (post : nat -> flagcxResult_t) (polls : list (list ib_wc)) (junk : list ib_wc)
    (cqExists : bool) (now : Z) (c : flagcxIbSendComm) (h : ib_heap) (seq idx : Z)
    (e : flagcxIbRetransEntry) : resend_answer :=
  if (en_data e =? 0) || (en_size e =? 0) then Some (flagcxInternalError, c, h) else
  if cm_maxOutstanding c <=? cm_outstandingSends c + cm_outstandingRetrans c
  then Some (flagcxSuccess, c, h) else
  let s := cm_retrans c in
  if cm_nqps c =? 0 then None else
  let qpIndex := Z.rem (st_retransQPIndex s) (cm_nqps c) in
  let c1 := cm_setRetrans c (st_setMisc s (st_enabled s) (st_retransQPIndex s + 1)) in
  qp ← arr_get (cm_qps c) qpIndex;
  match qp with
  | None => Some (flagcxInternalError, c1, h)
  | Some devIndex =>
      if (devIndex <? 0) || (cm_ndevs c <=? devIndex) then Some (flagcxInternalError, c1, h) else
      if negb (cm_hdrMr c) then None else
      lkey ← arr_get (en_lkeys e) devIndex;
      hdr0 ← arr_get (cm_hdrPool c1) (Z.rem seq 32);
      pool ← arr_set (cm_hdrPool c1) (Z.rem seq 32)
               (MkRetransHdr FLAGCX_RETRANS_MAGIC seq (en_size e) (hd_rkey hdr0) (en_remoteAddr e) (hd_immData hdr0));
      let c2 := cm_setHdrPool c1 pool in
      '(result, c3) ←
        (if bool_decide (post 0%nat = flagcxSuccess) then Some (flagcxSuccess, c2)
         else if cqExists then
           let '(wcs, totalPolled) := poll_loop 8 polls junk 0 in
           if 0 <? totalPolled then
             n ← count_retrans (Z.to_nat totalPolled) wcs 0 0;
             Some (post 1%nat, cm_setOutstandingRetrans c2 (cm_outstandingRetrans c2 - n))
           else Some (post 0%nat, c2)
         else Some (post 0%nat, c2));
      if negb (bool_decide (result = flagcxSuccess)) then Some (flagcxSuccess, c3, h) else
      c4 ← cm_putEntry c3 idx (en_setRetry e (en_retryCount e + 1) now);
      let c5 := cm_countRetrans c4 in
      Some (flagcxSuccess, cm_setOutstandingRetrans c5 (cm_outstandingRetrans c5 + 1), h)
  end.

(** What the verbs layer and the clock answer during a call. *)
Record ib_env := MkIbEnv {
  ev_post : nat -> flagcxResult_t;
  ev_polls : list (list ib_wc);
  ev_junk : list ib_wc;
  ev_cqExists : bool;
  ev_now : Z
}.

Definition flagcxIbRetransResendViaSend (ev : ib_env) (c : flagcxIbSendComm) (h : ib_heap) (seq : Z)
    : resend_answer :=
  let s := cm_retrans c in
  if negb (st_enabled s) then Some (flagcxSuccess, c, h) else
  if (if ibuc then negb (cm_retransUsesRc c) && negb (cm_hdrMr c) else negb (cm_hdrMr c))
  then Some (flagcxSuccess, cm_setRetrans c (st_setMisc s false (st_retransQPIndex s)), h) else
  found ← find_entry (Z.to_nat (st_bufferCount s)) (st_buffer s) (st_bufferHead s) seq;
  match found with
  | None => Some (flagcxSuccess, c, h)
  | Some idx =>
      e ← arr_get (st_buffer s) idx;
      if ibuc && (cm_retransUsesRc c && (0 <? en_nreqs e))
      then resend_rc (ev_post ev) (ev_now ev) c h idx e
      else resend_send (ev_post ev) (ev_polls ev) (ev_junk ev) (ev_cqExists ev) (ev_now ev) c h seq idx e
  end.

(** ** Timeouts *)

(** The scan of [flagcxIbRetransCheckTimeout] from ring index [idx]; it ends
    with the first retransmission ([MAX_RETRANS_PER_CALL] is 1). *)
Fixpoint timeout_loop (ev : ib_env) (now : Z) (n : nat) (c : flagcxIbSendComm) (h : ib_heap) (idx : Z)
    : resend_answer :=
  match n with
  | O => Some (flagcxSuccess, c, h)
  | S n' =>
      let s := cm_retrans c in
      e ← arr_get (st_buffer s) idx;
      if negb (en_valid e) then timeout_loop ev now n' c h (ring_next idx) else
      let elapsed := now -u64 en_sendTimeUs e in
      let rc := ibuc && (cm_retransUsesRc c && (0 <? en_nreqs e)) in
      if rc && negb (en_retransAllPosted e) then
        '(r, c1, h1) ← flagcxIbRetransResendViaSend ev c h (en_seq e);
        Some (if bool_decide (r = flagcxInProgress) then flagcxSuccess else r, c1, h1)
      else if st_rtoUs s <=? elapsed then
        if st_maxRetry s <=? en_retryCount e then Some (flagcxRemoteError, c, h) else
        if rc && (0 <? cm_outstandingRetrans c) then Some (flagcxSuccess, c, h) else
        c0 ← (if rc then cm_putEntry c idx (en_setCursor e 0 0 false) else Some c);
        '(r, c1, h1) ← flagcxIbRetransResendViaSend ev c0 h (en_seq e);
        if bool_decide (r = flagcxSuccess) then
          let s1 := cm_retrans c1 in
          let s2 := st_setTotals s1 (st_totalSent s1) (st_totalRetrans s1) (st_totalAcked s1)
                      (st_totalTimeout s1 +u64 1) in
          let rto := if st_maxRtoUs s2 <? (st_rtoUs s2 *u64 2) then st_maxRtoUs s2
                     else (st_rtoUs s2 *u64 2) in
          Some (flagcxSuccess, cm_setRetrans c1 (st_setRtt s2 rto (st_srttUs s2) (st_rttvarUs s2)), h1)
        else if bool_decide (r = flagcxInProgress) then Some (flagcxSuccess, c1, h1)
        else Some (r, c1, h1)
      else timeout_loop ev now n' c h (ring_next idx)
  end.

Definition flagcxIbRetransCheckTimeout (ev : ib_env) (now : Z) (c : flagcxIbSendComm) (h : ib_heap)
    : resend_answer :=
  let s := cm_retrans c in
  if negb (st_enabled s) then Some (flagcxSuccess, c, h) else
  if st_bufferCount s =? 0 then Some (flagcxSuccess, c, h) else
  timeout_loop ev now (Z.to_nat (st_bufferCount s)) c h (st_bufferHead s).

End Retrans.

(** ** Bit arithmetic of the wire formats *)

Lemma land_low a b k : 0 <= k -> 0 <= b < 2 ^ k -> Z.land (a * 2 ^ k) b = 0.
Proof.
  intros Hk Hb. apply Z.bits_inj'; intros n Hn. rewrite Z.land_spec, Z.bits_0.
  destruct (Z.ltb_spec n k).
  - rewrite Z.mul_pow2_bits_low by done. done.
  - destruct (decide (b = 0)) as [->|Hb0]; [by rewrite Z.bits_0, andb_false_r|].
    rewrite (Z.bits_above_log2 b n), andb_false_r; [done|lia|].
    apply Z.log2_lt_pow2; [lia|]. eapply Z.lt_le_trans; [apply Hb|].
    by apply Z.pow_le_mono_r; lia.
Qed.

Lemma lor_low a b k : 0 <= k -> 0 <= b < 2 ^ k -> Z.lor (a * 2 ^ k) b = a * 2 ^ k + b.
Proof.
  intros Hk Hb. pose proof (Z.add_lor_land (a * 2 ^ k) b) as Hs.
  rewrite (land_low a b k Hk Hb) in Hs. lia.
Qed.

Lemma land_mod x k : 0 <= k -> Z.land x (Z.ones k) = x mod 2 ^ k.
Proof. apply Z.land_ones. Qed.

(** The masks and shifts of the code as divisions and remainders. *)
Lemma land_ffff x : Z.land x 65535 = x mod 65536.
Proof. by apply (land_mod x 16). Qed.
Lemma land_fff x : Z.land x 4095 = x mod 4096.
Proof. by apply (land_mod x 12). Qed.
Lemma land_ff x : Z.land x 255 = x mod 256.
Proof. by apply (land_mod x 8). Qed.
Lemma shr_div x k : 0 <= k -> Z.shiftr x k = x / 2 ^ k.
Proof. apply Z.shiftr_div_pow2. Qed.
Lemma shl_mul x k : 0 <= k -> Z.shiftl x k = x * 2 ^ k.
Proof. apply Z.shiftl_mul_pow2. Qed.

Lemma encode_arith seq size :
  flagcxIbEncodeImmData seq size = (seq mod 65536) * 65536 + size mod 65536.
Proof.
  unfold flagcxIbEncodeImmData. rewrite !land_ffff, shl_mul by lia.
  rewrite Z.mod_small by zlia. by rewrite (lor_low _ _ 16) by zlia.
Qed.

Lemma ibuc_encode_arith seq slot generation :
  0 <= slot < 256 ->
  flagcxIbucEncodeImmData seq slot generation
  = (seq mod 4096) * 1048576 + (generation mod 4096) * 256 + slot.
Proof.
  intros Hs. unfold flagcxIbucEncodeImmData. rewrite !land_fff, !shl_mul by lia.
  rewrite Z.mod_small by zlia.
  rewrite (lor_low (seq mod 4096) _ 20) by zlia.
  replace ((seq mod 4096) * 2 ^ 20 + generation mod 4096 * 2 ^ 8)
    with (((seq mod 4096) * 4096 + generation mod 4096) * 2 ^ 8) by lia.
  rewrite lor_low by lia. lia.
Qed.

(** the immediate data identifies a transfer: decoding what was encoded
    gives back the low bits of the sequence number and the size (legacy, 16 and
    16 bits) or the sequence number, the request slot and the generation (IBUC,
    12, 8 and 12 bits); and every 32-bit immediate is the encoding of what it
    decodes to, so no two transfers share one. *)
Theorem immData_roundtrip (seq size slot generation imm : Z)
    (Hslot : 0 <= slot < 256) (Himm : is_u32 imm) :
  flagcxIbDecodeImmData (flagcxIbEncodeImmData seq size) = (seq mod 65536, size mod 65536) /\
  (let '(q, z) := flagcxIbDecodeImmData imm in flagcxIbEncodeImmData q z = imm) /\
  flagcxIbucDecodeImmData (flagcxIbucEncodeImmData seq slot generation)
  = (seq mod 4096, slot, generation mod 4096) /\
  (let '(q, t, g) := flagcxIbucDecodeImmData imm in flagcxIbucEncodeImmData q t g = imm).
Proof.
  unfold is_u32 in *. unfold flagcxIbDecodeImmData, flagcxIbucDecodeImmData. cbv zeta.
  rewrite !encode_arith, !land_ff, !land_ffff, !land_fff, !shr_div by lia.
  rewrite !ibuc_encode_arith by first [lia | by apply Z.mod_pos_bound].
  and_split; repeat match goal with |- (_, _) = (_, _) => apply f_equal2 end; zlia.
Qed.

Lemma immData_roundtrip_witness :
  flagcxIbucDecodeImmData (flagcxIbucEncodeImmData 5000 37 4099) = (904, 37, 3) /\
  flagcxIbDecodeImmData (flagcxIbEncodeImmData 70000 65537) = (4464, 1).
Proof.
  assert (Hw : 0 <= 37 < 256 /\ is_u32 123456789) by (unfold is_u32; lia).
  destruct (immData_roundtrip 5000 65537 37 4099 123456789 (proj1 Hw) (proj2 Hw)) as (_ & _ & Hb & _).
  destruct (immData_roundtrip 70000 65537 37 4099 123456789 (proj1 Hw) (proj2 Hw)) as (Ha & _).
  split; [exact Hb|exact Ha].
Defined.

(** ** Sequence numbers *)

Section SeqFacts.
Variable ibuc : bool.
Abbreviation MASK := (FLAGCX_IB_RETRANS_SEQ_MASK ibuc).

(** The number of sequence numbers, and half of it. *)
Definition seq_mod : Z := if ibuc then 4096 else 65536.
Definition seq_half : Z := if ibuc then 2048 else 32768.

Lemma seq_half_mod : seq_mod = 2 * seq_half.
Proof. unfold seq_mod, seq_half. by destruct ibuc. Qed.

Lemma seq_half_bounds : 2048 <= seq_half <= 32768.
Proof. unfold seq_half. destruct ibuc; lia. Qed.

Lemma land_mask x : Z.land x MASK = x mod seq_mod.
Proof. unfold FLAGCX_IB_RETRANS_SEQ_MASK, seq_mod. destruct ibuc; [apply land_fff|apply land_ffff]. Qed.

Lemma u32_mod_seq x : (x mod U32_MOD) mod seq_mod = x mod seq_mod.
Proof. unfold seq_mod. destruct ibuc; zlia. Qed.

Lemma seqLess_arith a b :
  flagcxIbSeqLess ibuc a b = (seq_half <=? (a - b) mod seq_mod).
Proof.
  unfold flagcxIbSeqLess. rewrite land_mask, u32_mod_seq. cbv zeta.
  assert (Hsh : Z.shiftr MASK 1 = seq_half - 1) by (unfold seq_half; by destruct ibuc).
  rewrite Hsh. pose proof seq_half_bounds.
  destruct (Z.eqb_spec ((a - b) mod seq_mod) 0), (Z.ltb_spec (seq_half - 1) ((a - b) mod seq_mod)),
    (Z.leb_spec seq_half ((a - b) mod seq_mod)); cbn; lia || done.
Qed.

Lemma mod_diff a b m : 0 < m -> (a mod m - b mod m) mod m = (a - b) mod m.
Proof. intros. symmetry. apply Zminus_mod. Qed.

(** The comparison of wrapped numbers is the comparison of the unwrapped ones
    as long as these are less than half the number space apart. *)
Lemma seqLeq_window a b :
  b - a <= seq_half -> a - b < seq_half ->
  flagcxIbSeqLeq ibuc (a mod seq_mod) (b mod seq_mod) = (a <=? b).
Proof.
  intros H1 H2. unfold flagcxIbSeqLeq. rewrite seqLess_arith.
  pose proof seq_half_bounds. pose proof seq_half_mod as Hm.
  rewrite mod_diff by lia.
  destruct (decide (a <= b)) as [Hab|Hab].
  - rewrite (proj2 (Z.leb_le a b) Hab).
    destruct (decide (a = b)) as [->|Hne]; [by rewrite Z.eqb_refl|].
    replace ((a - b) mod seq_mod) with (a - b + seq_mod)
      by (symmetry; rewrite <-(Z.mod_add (a - b) 1), Z.mul_1_l by lia; apply Z.mod_small; lia).
    apply orb_true_iff; right. lia.
  - rewrite (proj2 (Z.leb_gt a b)) by lia. rewrite (Z.mod_small (a - b)) by lia.
    destruct (Z.leb_spec seq_half (a - b)); [lia|]. rewrite orb_false_r. apply Z.eqb_neq.
    intros He. assert (Hz : (a - b) mod seq_mod = 0) by (rewrite <-mod_diff, He by lia; by rewrite Z.sub_diag, Zmod_0_l).
    rewrite Z.mod_small in Hz by lia. lia.
Qed.

(** C38: wrapped sequence numbers compare like the unbounded counters they
    stand for: [flagcxIbSeqLeq] of two counters taken modulo the number space
    (2^12 with IBUC, 2^16 without) decides [a <= b] whenever the counters are
    at most half the space apart; beyond that the answer is inverted. *)
Theorem seqLeq_exact (a b : Z) :
  (b - a <= seq_half -> a - b < seq_half ->
   flagcxIbSeqLeq ibuc (a mod seq_mod) (b mod seq_mod) = (a <=? b)) /\
  (seq_half < b - a < seq_mod -> flagcxIbSeqLeq ibuc (a mod seq_mod) (b mod seq_mod) = false) /\
  (seq_half <= a - b <= seq_mod -> flagcxIbSeqLeq ibuc (a mod seq_mod) (b mod seq_mod) = true).
Proof.
  pose proof seq_half_bounds. pose proof seq_half_mod as Hm.
  split; [apply seqLeq_window|]. split; intros Hd.
  - replace (b mod seq_mod) with ((b - seq_mod) mod seq_mod)
      by (rewrite <-(Z.mod_add (b - seq_mod) 1), Z.mul_1_l by lia; f_equal; lia).
    rewrite seqLeq_window by lia. lia.
  - replace (b mod seq_mod) with ((b + seq_mod) mod seq_mod)
      by (rewrite <-(Z.mod_add b 1 seq_mod), Z.mul_1_l by lia; done).
    rewrite seqLeq_window by lia. lia.
Qed.
End SeqFacts.

Lemma seqLeq_exact_witness :
  flagcxIbSeqLeq true (4095 mod seq_mod true) (4097 mod seq_mod true) = true /\
  flagcxIbSeqLeq true (4097 mod seq_mod true) (4095 mod seq_mod true) = false /\
  flagcxIbSeqLeq true (0 mod seq_mod true) (2049 mod seq_mod true) = false.
Proof.
  destruct (seqLeq_exact true 4095 4097) as (Ha & _).
  destruct (seqLeq_exact true 4097 4095) as (Hb & _).
  destruct (seqLeq_exact true 0 2049) as (_ & Hc & _).
  split; [rewrite Ha; [reflexivity|cbn; lia..]|].
  split; [rewrite Hb; [reflexivity|cbn; lia..]|]. apply Hc; cbn; lia.
Defined.

(** ** The ring as a list *)

(** The live entries, oldest first. *)
Definition ring_ix (hd : Z) (i : nat) : nat :=
  Z.to_nat ((hd + Z.of_nat i) mod FLAGCX_IB_RETRANS_MAX_INFLIGHT).
Definition ring_list (b : list flagcxIbRetransEntry) (hd c : Z) : list flagcxIbRetransEntry :=
  (fun i => default zero_entry (b !! ring_ix hd i)) <$> seq 0 (Z.to_nat c).
Definition st_live (s : flagcxIbRetransState) : list flagcxIbRetransEntry :=
  ring_list (st_buffer s) (st_bufferHead s) (st_bufferCount s).

Lemma ring_next_mod i : 0 <= i -> ring_next i = (i + 1) mod FLAGCX_IB_RETRANS_MAX_INFLIGHT.
Proof. intros. unfold ring_next. apply Z.rem_mod_nonneg; lia. Qed.

Lemma ring_next_range i : 0 <= i -> 0 <= ring_next i < FLAGCX_IB_RETRANS_MAX_INFLIGHT.
Proof. intros. rewrite ring_next_mod by done. by apply Z.mod_pos_bound. Qed.

Lemma ring_ix_bound hd i : (ring_ix hd i < 2048)%nat.
Proof.
  unfold ring_ix. pose proof (Z.mod_pos_bound (hd + Z.of_nat i) FLAGCX_IB_RETRANS_MAX_INFLIGHT). lia.
Qed.

Lemma ring_ix_0 hd : 0 <= hd < FLAGCX_IB_RETRANS_MAX_INFLIGHT -> ring_ix hd 0 = Z.to_nat hd.
Proof. intros. unfold ring_ix. rewrite Z.add_0_r, Z.mod_small by lia. done. Qed.

Lemma ring_ix_next hd i : 0 <= hd -> ring_ix (ring_next hd) i = ring_ix hd (S i).
Proof.
  intros. unfold ring_ix. rewrite ring_next_mod by done.
  rewrite Zplus_mod_idemp_l. do 2 f_equal. lia.
Qed.

Lemma ring_ix_inj hd i j : (i < 2048)%nat -> (j < 2048)%nat -> ring_ix hd i = ring_ix hd j -> i = j.
Proof. unfold ring_ix. intros. zlia. Qed.

Lemma length_ring_list b hd c : length (ring_list b hd c) = Z.to_nat c.
Proof. unfold ring_list. by rewrite length_fmap, length_seq. Qed.

Lemma ring_list_lookup b hd c i :
  length b = 2048%nat -> (i < Z.to_nat c)%nat -> ring_list b hd c !! i = b !! ring_ix hd i.
Proof.
  intros Hl Hi. unfold ring_list. rewrite list_lookup_fmap, lookup_seq_lt by done. cbn.
  destruct (lookup_lt_is_Some_2 b (ring_ix hd i)) as [e He]; [rewrite Hl; apply ring_ix_bound|].
  by rewrite He.
Qed.

Lemma ring_list_nil b hd c : c <= 0 -> ring_list b hd c = [].
Proof. intros. unfold ring_list. by replace (Z.to_nat c) with 0%nat by lia. Qed.

Lemma ring_list_cons b hd c :
  length b = 2048%nat -> 0 <= hd < FLAGCX_IB_RETRANS_MAX_INFLIGHT -> 0 < c ->
  exists e, arr_get b hd = Some e /\ ring_list b hd c = e :: ring_list b (ring_next hd) (c - 1).
Proof.
  intros Hl Hh Hc. unfold arr_get. rewrite (proj2 (Z.leb_le 0 hd)) by lia.
  destruct (lookup_lt_is_Some_2 b (Z.to_nat hd)) as [e He]; [lia|].
  exists e. split; [done|]. unfold ring_list.
  replace (Z.to_nat c) with (S (Z.to_nat (c - 1))) by lia.
  rewrite <-cons_seq, fmap_cons, ring_ix_0, He by lia. cbn. f_equal.
  rewrite <-fmap_S_seq, <-list_fmap_compose. apply list_fmap_ext; intros i x _. cbn.
  by rewrite ring_ix_next by lia.
Qed.

Lemma ring_list_ext b b' hd c :
  (forall i, (i < Z.to_nat c)%nat -> b' !! ring_ix hd i = b !! ring_ix hd i) ->
  ring_list b' hd c = ring_list b hd c.
Proof.
  intros He. unfold ring_list. apply list_fmap_ext; intros i x Hx.
  apply lookup_seq in Hx as [-> Hi]. by rewrite He by lia.
Qed.

Lemma ring_list_update b hd c (i : nat) e :
  length b = 2048%nat -> (i < Z.to_nat c)%nat -> c <= 2048 ->
  ring_list (<[ring_ix hd i := e]> b) hd c = <[i := e]> (ring_list b hd c).
Proof.
  intros Hl Hi Hc. apply list_eq; intros j.
  destruct (decide (j < Z.to_nat c)%nat) as [Hj|Hj].
  - rewrite ring_list_lookup by (rewrite ?length_insert; done).
    destruct (decide (i = j)) as [->|Hne].
    + rewrite !list_lookup_insert_eq; [done|rewrite length_ring_list; lia|].
      rewrite Hl. apply ring_ix_bound.
    + rewrite list_lookup_insert_ne by (intros Hx; apply ring_ix_inj in Hx; lia).
      by rewrite list_lookup_insert_ne, ring_list_lookup by done.
  - rewrite !lookup_ge_None_2; [done|rewrite length_insert|]; rewrite length_ring_list; lia.
Qed.

Lemma ring_list_snoc b hd c e :
  length b = 2048%nat -> 0 <= c < 2048 ->
  ring_list (<[ring_ix hd (Z.to_nat c) := e]> b) hd (c + 1) = ring_list b hd c ++ [e].
Proof.
  intros Hl Hc. apply list_eq; intros j.
  destruct (decide (j < Z.to_nat (c + 1))%nat) as [Hj|Hj].
  - rewrite ring_list_lookup by (rewrite ?length_insert; done).
    destruct (decide (j = Z.to_nat c)) as [->|Hne].
    + rewrite list_lookup_insert_eq by (rewrite Hl; apply ring_ix_bound).
      rewrite lookup_app_r by (rewrite length_ring_list; lia).
      by rewrite length_ring_list, Nat.sub_diag.
    + rewrite list_lookup_insert_ne by (intros Hx; apply ring_ix_inj in Hx; lia).
      rewrite lookup_app_l by (rewrite length_ring_list; lia).
      by rewrite ring_list_lookup by (done || lia).
  - rewrite !lookup_ge_None_2; [done|rewrite length_app, length_ring_list; cbn; lia|].
    rewrite length_ring_list; lia.
Qed.

(** Marking the head does not disturb the rest. *)
Lemma ring_list_insert_head b hd c e :
  length b = 2048%nat -> 0 <= hd < FLAGCX_IB_RETRANS_MAX_INFLIGHT -> c <= 2048 ->
  ring_list (<[Z.to_nat hd := e]> b) (ring_next hd) (c - 1) = ring_list b (ring_next hd) (c - 1).
Proof.
  intros Hl Hh Hc. apply ring_list_ext; intros i Hi.
  rewrite ring_ix_next by lia. apply list_lookup_insert_ne.
  rewrite <-ring_ix_0 by done. intros Hx. apply ring_ix_inj in Hx; lia.
Qed.

Record ring_wf (s : flagcxIbRetransState) : Prop := {
  rw_length : length (st_buffer s) = 2048%nat;
  rw_head : 0 <= st_bufferHead s < FLAGCX_IB_RETRANS_MAX_INFLIGHT;
  rw_count : 0 <= st_bufferCount s <= FLAGCX_IB_RETRANS_MAX_INFLIGHT;
  rw_tail : st_bufferTail s = (st_bufferHead s + st_bufferCount s) mod FLAGCX_IB_RETRANS_MAX_INFLIGHT;
  rw_valid : Forall (fun e => en_valid e = true) (st_live s)
}.

Lemma arr_set_some {A} (a : list A) (i : Z) x :
  0 <= i < Z.of_nat (length a) -> arr_set a i x = Some (<[Z.to_nat i := x]> a).
Proof.
  intros. unfold arr_set. destruct (Z.leb_spec 0 i), (Z.ltb_spec i (Z.of_nat (length a))); done || lia.
Qed.

Lemma arr_get_some {A} (a : list A) (i : Z) :
  0 <= i < Z.of_nat (length a) -> exists x, arr_get a i = Some x /\ a !! Z.to_nat i = Some x.
Proof.
  intros. unfold arr_get. rewrite (proj2 (Z.leb_le 0 i)) by lia.
  destruct (lookup_lt_is_Some_2 a (Z.to_nat i)) as [x Hx]; [lia|]. eauto.
Qed.

(** Appending. *)
Lemma ring_push_spec s e :
  ring_wf s -> st_bufferCount s < FLAGCX_IB_RETRANS_MAX_INFLIGHT -> en_valid e = true ->
  exists s', ring_push s e = Some s' /\ ring_wf s' /\ st_live s' = st_live s ++ [e] /\
    st_bufferCount s' = st_bufferCount s + 1 /\
    s' = st_setTotals (st_setRing s (st_buffer s') (st_bufferHead s) (st_bufferTail s') (st_bufferCount s'))
           (st_totalSent s +u64 1) (st_totalRetrans s) (st_totalAcked s) (st_totalTimeout s).
Proof.
  intros [Hl Hh Hc Ht Hv] Hlt He. unfold ring_push.
  assert (Htb : 0 <= st_bufferTail s < FLAGCX_IB_RETRANS_MAX_INFLIGHT) by (rewrite Ht; by apply Z.mod_pos_bound).
  rewrite arr_set_some by lia. cbn [mbind option_bind]. eexists. split; [done|].
  assert (Hlive : ring_list (<[Z.to_nat (st_bufferTail s):=e]> (st_buffer s)) (st_bufferHead s)
      (st_bufferCount s + 1) = st_live s ++ [e]).
  { replace (Z.to_nat (st_bufferTail s)) with (ring_ix (st_bufferHead s) (Z.to_nat (st_bufferCount s)))
      by (unfold ring_ix; rewrite Ht; do 2 f_equal; lia).
    by apply ring_list_snoc; [|lia]. }
  split; [|done]. split; cbn.
  - by rewrite length_insert.
  - done.
  - lia.
  - rewrite ring_next_mod, Ht by lia. rewrite Zplus_mod_idemp_l. f_equal. lia.
  - unfold st_live. cbn. rewrite Hlive. apply Forall_app; split; [done|by repeat constructor].
Qed.

(** Removing the head. *)
Lemma ring_pop_wf s b e l :
  ring_wf s -> st_live s = e :: l ->
  (b = st_buffer s \/ exists e', b = <[Z.to_nat (st_bufferHead s) := e']> (st_buffer s)) ->
  let s' := st_setRing s b (ring_next (st_bufferHead s)) (st_bufferTail s) (st_bufferCount s - 1) in
  ring_wf s' /\ st_live s' = l.
Proof.
  intros [Hl Hh Hc Ht Hv] Hlive Hb s'.
  assert (Hpos : 0 < st_bufferCount s).
  { apply (f_equal length) in Hlive. unfold st_live in Hlive. rewrite length_ring_list in Hlive. cbn in Hlive. lia. }
  destruct (ring_list_cons (st_buffer s) (st_bufferHead s) (st_bufferCount s)) as (e0 & He & Hcons); [done..|].
  unfold st_live in Hlive. rewrite Hcons in Hlive. injection Hlive as -> Hl'.
  assert (Hs' : st_live s' = l).
  { change (ring_list b (ring_next (st_bufferHead s)) (st_bufferCount s - 1) = l).
    rewrite <-Hl'. destruct Hb as [-> | [e' ->]]; [done|]. apply ring_list_insert_head; lia || done. }
  split; [|done]. split.
  - cbn. destruct Hb as [-> | [e' ->]]; rewrite ?length_insert; done.
  - apply ring_next_range; lia.
  - cbn. lia.
  - change (st_bufferTail s = (ring_next (st_bufferHead s) + (st_bufferCount s - 1)) mod FLAGCX_IB_RETRANS_MAX_INFLIGHT).
    rewrite Ht, ring_next_mod by lia. rewrite Zplus_mod_idemp_l. f_equal. lia.
  - rewrite Hs'. unfold st_live in Hv. rewrite Hcons, Hl' in Hv. by inversion Hv.
Qed.

Lemma ring_wf_setTotals s a b c d : ring_wf s -> ring_wf (st_setTotals s a b c d).
Proof. by intros []. Qed.
Lemma ring_wf_setUna s a b : ring_wf s -> ring_wf (st_setUna s a b).
Proof. by intros []. Qed.
Lemma ring_wf_setRtt s a b c : ring_wf s -> ring_wf (st_setRtt s a b c).
Proof. by intros []. Qed.
#[export] Hint Resolve ring_wf_setTotals ring_wf_setUna ring_wf_setRtt : flagcx.

(** ** Holds on source requests

    An IBUC batch keeps each of its requests pending by one event on the
    acknowledging device until the acknowledgement retires the batch. *)

Definition req_ev (h : ib_heap) (r d : Z) : Z :=
  match h !! r with Some q => default 0 (arr_get (rq_events q) d) | None => 0 end.
Definition count_of (r : Z) (l : list Z) : Z := Z.of_nat (length (filter (fun x => x = r) l)).
Definition entry_reqs (e : flagcxIbRetransEntry) : list Z := take (Z.to_nat (en_nreqs e)) (en_requests e).
Definition entry_holds (e : flagcxIbRetransEntry) (r d : Z) : Z :=
  if en_ackDevIndex e =? d then count_of r (entry_reqs e) else 0.
Fixpoint holds (l : list flagcxIbRetransEntry) (r d : Z) : Z :=
  match l with [] => 0 | e :: l' => entry_holds e r d + holds l' r d end.

Definition sendReq (h : ib_heap) (r : Z) : Prop :=
  exists q, h !! r = Some q /\ rq_type q = FLAGCX_NET_IB_REQ_SEND /\ length (rq_events q) = 2%nat.

Definition entry_wf (e : flagcxIbRetransEntry) : Prop :=
  0 <= en_nreqs e <= FLAGCX_NET_IB_MAX_RECVS /\ length (en_requests e) = 8%nat /\
  0 <= en_ackDevIndex e < FLAGCX_IB_MAX_DEVS_PER_NIC /\ Forall (fun r => r <> 0) (entry_reqs e).

Record holds_ok (h : ib_heap) (l : list flagcxIbRetransEntry) : Prop := {
  ho_wf : Forall entry_wf l;
  ho_held : forall r d, 0 < holds l r d -> sendReq h r /\ holds l r d <= req_ev h r d
}.

(** Nothing but event counts differs. *)
Definition heap_frame (h h' : ib_heap) : Prop :=
  forall r, match h !! r, h' !! r with
            | Some q, Some q' => q' = rq_setEvents q (rq_events q') /\
                                 length (rq_events q') = length (rq_events q)
            | None, None => True
            | _, _ => False
            end.

Lemma heap_frame_refl h : heap_frame h h.
Proof. intros r. destruct (h !! r) as [[]|]; done. Qed.

Lemma heap_frame_trans h1 h2 h3 : heap_frame h1 h2 -> heap_frame h2 h3 -> heap_frame h1 h3.
Proof.
  intros Ha Hb r. specialize (Ha r). specialize (Hb r).
  destruct (h1 !! r), (h2 !! r), (h3 !! r); try done.
  destruct Ha as [Ha1 Ha2], Hb as [Hb1 Hb2]. split; [by rewrite Hb1, Ha1|congruence].
Qed.

Lemma heap_frame_sendReq h h' r : heap_frame h h' -> sendReq h r -> sendReq h' r.
Proof.
  intros Hf (q & Hq & Ht & Hl). specialize (Hf r). rewrite Hq in Hf.
  destruct (h' !! r) as [q'|] eqn:Hq'; [|done]. destruct Hf as [Hf1 Hf2].
  exists q'. split; [done|]. split; [by rewrite Hf1|congruence].
Qed.

Lemma req_bump_spec h r d x :
  sendReq h r -> 0 <= d < FLAGCX_IB_MAX_DEVS_PER_NIC ->
  exists h', req_bump h r d x = Some h' /\ heap_frame h h' /\
    forall r' d', req_ev h' r' d' = req_ev h r' d' + (if (r' =? r) && (d' =? d) then x else 0).
Proof.
  intros (q & Hq & Ht & Hl) Hd. unfold req_bump. rewrite Hq. cbn [mbind option_bind].
  destruct (arr_get_some (rq_events q) d) as (ev & Hev & Hev'); [lia|].
  rewrite Hev. cbn [mbind option_bind]. rewrite arr_set_some by lia. cbn [mbind option_bind].
  eexists. split; [done|]. split.
  - intros r'. destruct (decide (r' = r)) as [->|Hne].
    + rewrite lookup_insert_eq, Hq. cbn. by rewrite length_insert.
    + rewrite lookup_insert_ne by done. apply (heap_frame_refl h).
  - intros r' d'. unfold req_ev. destruct (Z.eqb_spec r' r) as [->|Hne].
    + rewrite lookup_insert_eq, Hq. cbn. unfold arr_get in *.
      destruct (Z.leb_spec 0 d') as [Hd'|Hd']; cbn.
      * destruct (Z.eqb_spec d' d) as [->|Hnd].
        -- rewrite list_lookup_insert_eq by lia. rewrite Hev'. done.
        -- rewrite list_lookup_insert_ne by lia. lia.
      * destruct (Z.eqb_spec d' d); lia.
    + rewrite lookup_insert_ne by done. cbn. lia.
Qed.

Lemma count_of_cons r x l : count_of r (x :: l) = (if r =? x then 1 else 0) + count_of r l.
Proof.
  unfold count_of. rewrite filter_cons. destruct (Z.eqb_spec r x) as [->|Hne].
  - rewrite decide_True by done. cbn. lia.
  - rewrite decide_False by done. lia.
Qed.

Lemma count_of_nonneg r l : 0 <= count_of r l.
Proof. unfold count_of. lia. Qed.

Lemma count_of_elem r l : 0 < count_of r l <-> r ∈ l.
Proof.
  induction l as [|x l IH]; [split; [done|by intros ?%elem_of_nil]|].
  rewrite count_of_cons, elem_of_cons. pose proof (count_of_nonneg r l).
  destruct (Z.eqb_spec r x); split; intros; try (by left); try lia.
  - right. apply IH. lia.
  - destruct H0 as [->|H0]; [done|]. apply IH in H0. lia.
Qed.

Lemma entry_holds_nonneg e r d : 0 <= entry_holds e r d.
Proof. unfold entry_holds. case_match; [apply count_of_nonneg|done]. Qed.
Lemma holds_nonneg l r d : 0 <= holds l r d.
Proof. induction l; cbn; [done|]. pose proof (entry_holds_nonneg a r d). lia. Qed.
Lemma holds_app l1 l2 r d : holds (l1 ++ l2) r d = holds l1 r d + holds l2 r d.
Proof. induction l1; cbn; [done|]. rewrite IHl1. lia. Qed.

Lemma holds_lookup l i e r d : l !! i = Some e -> entry_holds e r d <= holds l r d.
Proof.
  revert i. induction l as [|a l IH]; intros [|i] Hi; cbn in Hi; [done..| |].
  - injection Hi as ->. cbn. pose proof (holds_nonneg l r d). lia.
  - cbn. pose proof (entry_holds_nonneg a r d). specialize (IH _ Hi). lia.
Qed.

Lemma release_loop_spec n h rs dev (i : nat) :
  let pend := take n (drop i rs) in
  length rs = 8%nat -> (i + n <= 8)%nat -> 0 <= dev < FLAGCX_IB_MAX_DEVS_PER_NIC ->
  Forall (fun r => r <> 0) pend ->
  (forall r, r ∈ pend -> sendReq h r /\ count_of r pend <= req_ev h r dev) ->
  exists h' rs', release_loop n h rs dev (Z.of_nat i) = Some (h', rs') /\
    heap_frame h h' /\
    forall r d, req_ev h' r d = req_ev h r d - (if dev =? d then count_of r pend else 0).
Proof.
  revert h rs i. induction n as [|n IH]; intros h rs i pend Hl Hi Hd Hnz Hr.
  - exists h, rs. subst pend. rewrite take_0 in *. split; [done|]. split; [apply heap_frame_refl|].
    intros r d. change (count_of r []) with 0. destruct (dev =? d); lia.
  - destruct (lookup_lt_is_Some_2 rs i) as [q Hq]; [lia|].
    assert (Hp : pend = q :: take n (drop (S i) rs)) by (subst pend; by rewrite (drop_S rs q i Hq)).
    rewrite Hp in *. inversion Hnz as [|? ? Hq0 Hnz']; subst.
    destruct (Hr q) as [Hsq Hcq]; [set_solver|].
    rewrite count_of_cons, Z.eqb_refl in Hcq. pose proof (count_of_nonneg q (take n (drop (S i) rs))) as Hcn.
    destruct (req_bump_spec h q dev (-1) Hsq Hd) as (h1 & Hb1 & Hf1 & He1).
    cbn -[Z.of_nat]. rewrite arr_get_nat, Hq. cbn [mbind option_bind].
    destruct (Z.eqb_spec q 0); [done|].
    destruct Hsq as (qq & Hqq & Ht & Hle). rewrite Hqq. cbn [mbind option_bind]. rewrite Ht. cbn -[Z.of_nat req_bump].
    destruct (Z.ltb_spec dev 2); [|lia]. cbn -[Z.of_nat req_bump].
    destruct (arr_get_some (rq_events qq) dev) as (ev & Hev & _); [lia|]. rewrite Hev. cbn -[Z.of_nat req_bump].
    unfold req_ev in Hcq. rewrite Hqq, Hev in Hcq. cbn in Hcq.
    destruct (Z.ltb_spec 0 ev); [|lia]. rewrite Hb1. cbn -[Z.of_nat].
    rewrite arr_set_nat by lia. cbn -[Z.of_nat].
    replace (Z.of_nat i + 1) with (Z.of_nat (S i)) by lia.
    assert (Hdrop : drop (S i) (<[i:=0]> rs) = drop (S i) rs) by (apply drop_insert_lt; lia).
    destruct (IH h1 (<[i:=0]> rs) (S i)) as (h' & rs' & Hrun & Hf' & He').
    + by rewrite length_insert.
    + lia.
    + done.
    + by rewrite Hdrop.
    + rewrite Hdrop. intros r Hin. destruct (Hr r) as [Hs Hc]; [set_solver|].
      split; [by eapply heap_frame_sendReq|]. rewrite count_of_cons in Hc. rewrite He1.
      rewrite Z.eqb_refl, andb_true_r. destruct (r =? q); lia.
    + exists h', rs'. split; [done|]. split; [by eapply heap_frame_trans|].
      intros r d. rewrite He', He1, Hdrop, count_of_cons, (Z.eqb_sym d dev).
      destruct (r =? q), (dev =? d); cbn; lia.
Qed.

Lemma ReleaseRequests_spec h e :
  entry_wf e -> (forall r, r ∈ entry_reqs e -> sendReq h r /\ entry_holds e r (en_ackDevIndex e) <= req_ev h r (en_ackDevIndex e)) ->
  exists h' e', flagcxIbRetransReleaseRequests h e = Some (h', e') /\ heap_frame h h' /\
    forall r d, req_ev h' r d = req_ev h r d - entry_holds e r d.
Proof.
  intros (Hn & Hl & Hd & Hnz) Hr. unfold flagcxIbRetransReleaseRequests.
  destruct (Z.leb_spec (en_nreqs e) 0) as [Hz|Hz].
  - exists h, e. split; [done|]. split; [apply heap_frame_refl|]. intros. unfold entry_holds, entry_reqs.
    replace (Z.to_nat (en_nreqs e)) with 0%nat by lia. rewrite take_0.
    change (count_of r []) with 0. case_match; lia.
  - destruct (release_loop_spec (Z.to_nat (en_nreqs e)) h (en_requests e) (en_ackDevIndex e) 0)
      as (h' & rs & Hrun & Hf & He); rewrite ?drop_0; try done; try lia.
    { intros r Hin. specialize (Hr r Hin). unfold entry_holds in Hr. by rewrite Z.eqb_refl in Hr. }
    change (Z.of_nat 0) with 0 in Hrun. rewrite Hrun. cbn. do 2 eexists. done.
Qed.

(** ** Acknowledgements retire a prefix *)

Section AckFacts.
Variable ibuc : bool.

Record st_ok (s : flagcxIbRetransState) (h : ib_heap) : Prop := {
  so_ring : ring_wf s;
  so_acked : is_u64 (st_totalAcked s);
  so_holds : ibuc = true -> holds_ok h (st_live s)
}.

Lemma st_ok_frame s s' h :
  st_ok s h -> ring_wf s' -> is_u64 (st_totalAcked s') -> st_live s' = st_live s -> st_ok s' h.
Proof. intros [? ? Ho] ? ? Hl. split; [done..|]. by rewrite Hl. Qed.

Lemma holds_ok_cons h e l :
  holds_ok h (e :: l) ->
  exists h' e', flagcxIbRetransReleaseRequests h e = Some (h', e') /\ heap_frame h h' /\
    holds_ok h' l /\ forall r d, req_ev h' r d = req_ev h r d - entry_holds e r d.
Proof.
  intros [Hw Hh]. inversion Hw as [|? ? He Hl]; subst.
  assert (Hnn : forall r d, 0 <= entry_holds e r d /\ 0 <= holds l r d)
    by (intros; split; [apply entry_holds_nonneg|apply holds_nonneg]).
  destruct (ReleaseRequests_spec h e He) as (h' & e' & Hr & Hf & Hev).
  { intros r Hin. apply count_of_elem in Hin.
    destruct (Hh r (en_ackDevIndex e)) as [Hs Hc].
    - cbn. unfold entry_holds at 1. rewrite Z.eqb_refl. destruct (Hnn r (en_ackDevIndex e)). lia.
    - split; [done|]. cbn in Hc. destruct (Hnn r (en_ackDevIndex e)). lia. }
  exists h', e'. split; [done|]. split; [done|]. split; [|done]. split; [done|].
  intros r d Hpos. destruct (Hh r d) as [Hs Hc]; [cbn; destruct (Hnn r d); lia|].
  split; [by eapply heap_frame_sendReq|]. rewrite Hev. cbn in Hc. lia.
Qed.

(** The entries an acknowledgement covers. *)
Definition covered (ackSeq : Z) (e : flagcxIbRetransEntry) : Prop :=
  flagcxIbSeqLeq ibuc (en_seq e) ackSeq = true.

(** What retiring [acked] does to the cumulative state. *)
Definition una_after (una : Z) (acked : list flagcxIbRetransEntry) : Z :=
  match last acked with Some e => (en_seq e + 1) mod seq_mod ibuc | None => una end.

Lemma una_after_cons una e acked :
  una_after una (e :: acked) = una_after ((en_seq e + 1) mod seq_mod ibuc) acked.
Proof. unfold una_after. rewrite last_cons. by destruct (last acked). Qed.

Record retired (ackSeq : Z) (s s' : flagcxIbRetransState) (h h' : ib_heap)
    (acked : list flagcxIbRetransEntry) : Prop := {
  re_live : st_live s = acked ++ st_live s';
  re_covered : Forall (covered ackSeq) acked;
  re_maximal : forall e, head (st_live s') = Some e -> ~ covered ackSeq e;
  re_frame : s' = st_setUna (st_setTotals (st_setRing s (st_buffer s') (st_bufferHead s') (st_bufferTail s)
                      (st_bufferCount s')) (st_totalSent s) (st_totalRetrans s)
                      (st_totalAcked s +u64 Z.of_nat (length acked)) (st_totalTimeout s))
                    (una_after (st_sendUna s) acked) (st_lastAckTimeUs s);
  re_heap : heap_frame h h';
  re_released : forall r d, req_ev h' r d = req_ev h r d - (if ibuc then holds acked r d else 0)
}.

Lemma ack_loop_stop ackSeq s h :
  st_ok s h -> (forall e, head (st_live s) = Some e -> ~ covered ackSeq e) -> retired ackSeq s s h h [].
Proof.
  intros [Hw Ha _] Hno. split; try done.
  - unfold una_after. cbn [length last]. rewrite Z.add_0_r, Z.mod_small by apply Ha. by destruct s.
  - apply heap_frame_refl.
  - intros. destruct ibuc; cbn; lia.
Qed.

Lemma st_live_nil s : ring_wf s -> st_bufferCount s <= 0 -> st_live s = [].
Proof. intros. by apply ring_list_nil. Qed.

(** One retirement. *)
Lemma ack_retire_head ackSeq s h e l :
  st_ok s h -> st_live s = e :: l -> covered ackSeq e ->
  exists h1 e1,
    (if ibuc then flagcxIbRetransReleaseRequests h e else Some (h, e)) = Some (h1, e1) /\
    arr_get (st_buffer s) (st_bufferHead s) = Some e /\ 0 < st_bufferCount s /\
    let b := <[Z.to_nat (st_bufferHead s) := en_setValid e1 false]> (st_buffer s) in
    arr_set (st_buffer s) (st_bufferHead s) (en_setValid e1 false) = Some b /\
    let s1 := st_setUna (st_setTotals (st_setRing s b (ring_next (st_bufferHead s)) (st_bufferTail s)
                  (st_bufferCount s - 1)) (st_totalSent s) (st_totalRetrans s) (st_totalAcked s +u64 1)
                  (st_totalTimeout s)) ((en_seq e + 1) mod seq_mod ibuc) (st_lastAckTimeUs s) in
    st_ok s1 h1 /\ st_live s1 = l /\ heap_frame h h1 /\
    forall r d, req_ev h1 r d = req_ev h r d - (if ibuc then entry_holds e r d else 0).
Proof.
  intros [Hw Ha Ho] Hl Hc.
  assert (Hpos : 0 < st_bufferCount s).
  { destruct (Z.leb_spec (st_bufferCount s) 0); [|lia]. by rewrite (st_live_nil s) in Hl. }
  destruct (ring_list_cons (st_buffer s) (st_bufferHead s) (st_bufferCount s)) as (e0 & He0 & Hcons);
    [apply Hw|apply Hw|done|].
  assert (Heq : e0 = e) by (unfold st_live in Hl; rewrite Hcons in Hl; by injection Hl). subst e0.
  assert (Hrel : exists h1 e1, (if ibuc then flagcxIbRetransReleaseRequests h e else Some (h, e)) = Some (h1, e1) /\
            heap_frame h h1 /\ (ibuc = true -> holds_ok h1 l) /\
            forall r d, req_ev h1 r d = req_ev h r d - (if ibuc then entry_holds e r d else 0)).
  { destruct ibuc.
    - specialize (Ho eq_refl). rewrite Hl in Ho.
      destruct (holds_ok_cons h e l Ho) as (h1 & e1 & Hr & Hf & Ho' & Hev). eauto 10.
    - exists h, e. split; [done|]. split; [apply heap_frame_refl|]. split; [done|]. intros. lia. }
  destruct Hrel as (h1 & e1 & Hr & Hf & Ho' & Hev).
  exists h1, e1. split; [done|]. split; [done|]. split; [done|]. intros b.
  split; [apply arr_set_some; pose proof (rw_head s Hw); rewrite (rw_length s Hw); lia|].
  intros s1. destruct (ring_pop_wf s b e l Hw Hl) as [Hw1 Hl1]; [by right; eexists|].
  assert (Hlive1 : st_live s1 = l) by (rewrite <-Hl1; done).
  split; [|done]. split.
  - apply ring_wf_setUna, ring_wf_setTotals. apply Hw1.
  - apply (Z.mod_pos_bound (st_totalAcked s + 1) U64_MOD). lia.
  - rewrite Hlive1. done.
Qed.

(** One round of the loop that retires the head. *)
Lemma ack_loop_step ackSeq s h e l fuel :
  st_ok s h -> st_live s = e :: l -> en_valid e = true -> covered ackSeq e ->
  exists s1 h1, ack_loop ibuc (S fuel) s h ackSeq = ack_loop ibuc fuel s1 h1 ackSeq /\
    st_ok s1 h1 /\ 0 < st_bufferCount s /\ st_bufferCount s1 = st_bufferCount s - 1 /\
    (forall s' h' acked, retired ackSeq s1 s' h1 h' acked -> retired ackSeq s s' h h' (e :: acked)).
Proof.
  intros Hok Hl Hve Hc.
  destruct (ack_retire_head ackSeq s h e l Hok Hl Hc) as (h1 & e1 & Hr & Hg & Hpos & Hset & Hok1 & Hl1 & Hf1 & Hev1).
  set (b := <[Z.to_nat (st_bufferHead s) := en_setValid e1 false]> (st_buffer s)) in *.
  set (s1 := st_setUna _ _ _) in Hok1, Hl1.
  exists s1, h1. split.
  { cbn [ack_loop]. rewrite (proj2 (Z.ltb_lt 0 _)) by done. cbn [negb]. rewrite Hg. cbn [mbind option_bind].
    rewrite Hve. cbn [negb]. rewrite Hc, Hr. cbn [mbind option_bind]. rewrite Hset. cbn [mbind option_bind].
    rewrite land_mask, u32_mod_seq. unfold s1. do 2 f_equal. }
  split; [exact Hok1|]. split; [done|]. split; [reflexivity|].
  intros s' h' acked [Rl Rc Rm Rf Rh Rr]. split.
  - rewrite Hl, <-Hl1, Rl. reflexivity.
  - by constructor.
  - done.
  - rewrite una_after_cons. rewrite Rf at 1. cbn [length].
    replace (st_totalAcked s +u64 Z.of_nat (S (length acked)))
      with ((st_totalAcked s +u64 1) +u64 Z.of_nat (length acked))
      by (rewrite Zplus_mod_idemp_l; f_equal; lia).
    reflexivity.
  - by eapply heap_frame_trans.
  - intros r d. rewrite Rr, Hev1. cbn [holds]. destruct ibuc; lia.
Qed.

Lemma ack_loop_spec ackSeq fuel s h :
  st_ok s h -> (Z.to_nat (st_bufferCount s) < fuel)%nat ->
  exists s' h' acked, ack_loop ibuc fuel s h ackSeq = Some (s', h') /\ st_ok s' h' /\
    retired ackSeq s s' h h' acked.
Proof.
  revert s h. induction fuel as [|fuel IH]; intros s h Hok Hfuel; [lia|].
  destruct (st_live s) as [|e l] eqn:Hl.
  - assert (Hz : st_bufferCount s <= 0).
    { apply (f_equal length) in Hl. unfold st_live in Hl. rewrite length_ring_list in Hl. cbn in Hl. lia. }
    cbn [ack_loop]. rewrite (proj2 (Z.ltb_ge 0 _)) by lia. cbn [negb].
    exists s, h, []. split; [done|]. split; [done|]. apply ack_loop_stop; [done|]. by rewrite Hl.
  - pose proof (rw_valid s (so_ring _ _ Hok)) as Hv. rewrite Hl in Hv. inversion Hv as [|? ? Hve Hvl]; subst.
    destruct (flagcxIbSeqLeq ibuc (en_seq e) ackSeq) eqn:Hc.
    + destruct (ack_loop_step ackSeq s h e l fuel Hok Hl Hve Hc) as (s1 & h1 & Hstep & Hok1 & Hpos & Hcnt & Hret1).
      rewrite Hstep.
      destruct (IH s1 h1 Hok1) as (s' & h' & acked & Hrun & Hok' & Hret); [lia|].
      exists s', h', (e :: acked). split; [exact Hrun|]. split; [done|]. by apply Hret1.
    + exists s, h, []. split.
      * assert (Hpos : 0 < st_bufferCount s).
        { destruct (Z.leb_spec (st_bufferCount s) 0); [|lia].
          rewrite (st_live_nil s) in Hl; [done|apply Hok|done]. }
        destruct (ring_list_cons (st_buffer s) (st_bufferHead s) (st_bufferCount s)) as (e0 & He0 & Hcons);
          [apply Hok|apply Hok|done|].
        unfold st_live in Hl. rewrite Hcons in Hl. injection Hl as -> _.
        cbn [ack_loop]. rewrite (proj2 (Z.ltb_lt 0 _)) by done. cbn [negb]. rewrite He0. cbn [mbind option_bind].
        rewrite Hve. cbn [negb]. by rewrite Hc.
      * split; [done|]. apply ack_loop_stop; [done|]. rewrite Hl. cbn. unfold covered.
        intros ? [= <-]. by rewrite Hc.
Qed.
End AckFacts.

(** ** Batches take their holds *)

Definition seg_of (h : ib_heap) (r : Z) : ib_segment :=
  match h !! r with
  | Some q => MkSegment (rq_sendSize q mod U32_MOD) (rq_sendData q) (rq_sendLkeys q)
  | None => zero_segment
  end.

Lemma heap_frame_seg h h' r : heap_frame h h' -> sendReq h r -> seg_of h' r = seg_of h r.
Proof.
  intros Hf (q & Hq & _). specialize (Hf r). unfold seg_of. rewrite Hq in *.
  destruct (h' !! r) as [q'|]; [|done]. destruct Hf as [-> _]. done.
Qed.

Lemma batch_check_spec h reqs n (i : nat) :
  (i + n <= length reqs)%nat ->
  Forall (fun r => r <> 0 -> is_Some (h !! r)) reqs ->
  exists ok, batch_check n h reqs (Z.of_nat i) = Some ok /\
    (ok = true <-> Forall (fun r => r <> 0 /\ exists q, h !! r = Some q /\ rq_type q = FLAGCX_NET_IB_REQ_SEND)
                     (take n (drop i reqs))).
Proof.
  revert i. induction n as [|n IH]; intros i Hi Hlive.
  - exists true. cbn. split; [done|]. split; [constructor|done].
  - destruct (lookup_lt_is_Some_2 reqs i) as [r Hr]; [lia|].
    rewrite (drop_S reqs r i Hr). cbn -[Z.of_nat]. rewrite arr_get_nat, Hr. cbn [mbind option_bind].
    destruct (Z.eqb_spec r 0) as [->|Hr0].
    { exists false. split; [done|]. split; [done|]. intros Ha. by inversion Ha as [|? ? [? _] _]. }
    rewrite Forall_forall in Hlive.
    destruct (Hlive r) as [q Hq]; [by eapply list_elem_of_lookup_2|done|].
    rewrite Hq. cbn [mbind option_bind].
    destruct (Z.eqb_spec (rq_type q) FLAGCX_NET_IB_REQ_SEND) as [Ht|Ht]; cbn [negb].
    + replace (Z.of_nat i + 1) with (Z.of_nat (S i)) by lia.
      destruct (IH (S i)) as (ok & Hrun & Hiff); [lia|by apply Forall_forall|].
      exists ok. split; [done|]. rewrite Forall_cons, Hiff. naive_solver.
    + exists false. split; [done|]. split; [done|].
      intros Ha. inversion Ha as [|? ? [_ (q' & Hq' & Ht')] _]; congruence.
Qed.

Lemma batch_fill_spec dev reqs n h (i : nat) rs sgs :
  let new := take n (drop i reqs) in
  0 <= dev < FLAGCX_IB_MAX_DEVS_PER_NIC -> (i + n <= length reqs)%nat -> (i + n <= 8)%nat ->
  length rs = 8%nat -> length sgs = 8%nat -> Forall (sendReq h) new ->
  exists h', batch_fill n h reqs dev (Z.of_nat i) rs sgs
             = Some (h', take i rs ++ new ++ drop (i + n) rs, take i sgs ++ (seg_of h <$> new) ++ drop (i + n) sgs) /\
    heap_frame h h' /\
    forall r d, req_ev h' r d = req_ev h r d + (if dev =? d then count_of r new else 0).
Proof.
  revert h i rs sgs. induction n as [|n IH]; intros h i rs sgs new Hd Hi H8 Hlr Hls Hs.
  - exists h. subst new. rewrite take_0, Nat.add_0_r. cbn. rewrite !take_drop.
    split; [done|]. split; [apply heap_frame_refl|]. intros r d.
    change (count_of r []) with 0. destruct (dev =? d); lia.
  - destruct (lookup_lt_is_Some_2 reqs i) as [r Hr]; [lia|].
    assert (Hnew : new = r :: take n (drop (S i) reqs)) by (subst new; by rewrite (drop_S reqs r i Hr)).
    rewrite Hnew in *. inversion Hs as [|? ? Hsr Hs']; subst.
    destruct (req_bump_spec h r dev 1 Hsr Hd) as (h1 & Hb & Hf1 & He1).
    cbn -[Z.of_nat req_bump]. rewrite arr_get_nat, Hr. cbn -[Z.of_nat req_bump].
    assert (Hseg : seg_of h r = match h !! r with Some q => MkSegment (rq_sendSize q mod U32_MOD) (rq_sendData q) (rq_sendLkeys q) | None => zero_segment end) by done.
    destruct Hsr as (q & Hq & Hrest). rewrite Hq in *. cbn -[Z.of_nat req_bump Z.modulo].
    rewrite arr_set_nat by lia. cbn -[Z.of_nat req_bump Z.modulo].
    rewrite arr_set_nat by lia. cbn -[Z.of_nat req_bump Z.modulo]. rewrite Hb. cbn -[Z.of_nat Z.modulo].
    replace (Z.of_nat i + 1) with (Z.of_nat (S i)) by lia. rewrite <-Hseg.
    destruct (IH h1 (S i) (<[i:=r]> rs) (<[i:=seg_of h r]> sgs)) as (h' & Hrun & Hf' & He');
      [done|lia|lia|by rewrite length_insert..| |].
    { eapply Forall_impl; [exact Hs'|]. intros ? ?. by eapply heap_frame_sendReq. }
    exists h'. split; [|split; [by eapply heap_frame_trans|]].
    + rewrite Hrun. do 2 f_equal.
      * f_equal. rewrite (take_S_r _ i r) by (apply list_lookup_insert_eq; lia).
        rewrite take_insert_ge by lia. rewrite drop_insert_lt by lia.
        rewrite <-app_assoc. cbn. by rewrite Nat.add_succ_r.
      * rewrite (take_S_r _ i (seg_of h r)) by (apply list_lookup_insert_eq; lia).
        rewrite take_insert_ge by lia. rewrite drop_insert_lt by lia.
        rewrite <-app_assoc. cbn. rewrite Nat.add_succ_r. do 3 f_equal.
        apply list_fmap_ext. intros j x Hx.
        eapply heap_frame_seg; [done|]. eapply Forall_lookup_1; [exact Hs'|done].
    + intros r' d. rewrite He', He1, count_of_cons, (Z.eqb_sym d dev).
      destruct (r' =? r), (dev =? d); cbn; lia.
Qed.

(** ** The sender's operations *)

Lemma st_setRing_live s b hd tl c : st_live (st_setRing s b hd tl c) = ring_list b hd c.
Proof. done. Qed.

(** The entry of a packet, and the room for it. *)
Definition packet_entry (seq size data addr now : Z) (lkeys rkeys : option (list Z)) : flagcxIbRetransEntry :=
  MkRetransEntry seq size now addr data (keys_or_zero lkeys) (keys_or_zero rkeys) 0 true 0 0 0 0
    (replicate 8 0) (replicate 8 zero_segment) 0 0 false.

(** [s'] is [s] with one more entry. *)
Definition pushed (s s' : flagcxIbRetransState) (e : flagcxIbRetransEntry) : Prop :=
  ring_wf s' /\ st_live s' = st_live s ++ [e] /\ st_bufferCount s' = st_bufferCount s + 1 /\
  s' = st_setTotals (st_setRing s (st_buffer s') (st_bufferHead s) (st_bufferTail s') (st_bufferCount s'))
         (st_totalSent s +u64 1) (st_totalRetrans s) (st_totalAcked s) (st_totalTimeout s).

Lemma AddPacket_room s seq size data addr now lkeys rkeys :
  ring_wf s -> st_enabled s = true -> st_bufferCount s < FLAGCX_IB_RETRANS_MAX_INFLIGHT ->
  exists s', flagcxIbRetransAddPacket s seq size data addr lkeys rkeys now = Some (flagcxSuccess, s') /\
    pushed s s' (packet_entry seq size data addr now lkeys rkeys).
Proof.
  intros Hwf Hen Hlt. unfold flagcxIbRetransAddPacket. rewrite Hen. cbn [negb].
  rewrite (proj2 (Z.leb_gt _ _)) by done. cbn [mbind option_bind].
  destruct (ring_push_spec s (packet_entry seq size data addr now lkeys rkeys) Hwf) as (s' & Hp & Hrest); [done..|].
  unfold packet_entry in Hp. rewrite Hp. cbn [mbind option_bind]. by exists s'.
Qed.

(** A full ring first loses its oldest entry. *)
Lemma AddPacket_spec s seq size data addr now lkeys rkeys : ring_wf s -> st_enabled s = true ->
  exists s', flagcxIbRetransAddPacket s seq size data addr lkeys rkeys now = Some (flagcxSuccess, s') /\
    ring_wf s' /\
    st_live s' = drop (if FLAGCX_IB_RETRANS_MAX_INFLIGHT <=? st_bufferCount s then 1 else 0) (st_live s) ++
      [packet_entry seq size data addr now lkeys rkeys] /\
    s' = st_setTotals (st_setRing s (st_buffer s') (st_bufferHead s') (st_bufferTail s') (st_bufferCount s'))
           (st_totalSent s +u64 1) (st_totalRetrans s) (st_totalAcked s) (st_totalTimeout s).
Proof.
  intros Hwf Hen.
  destruct (Z.leb_spec FLAGCX_IB_RETRANS_MAX_INFLIGHT (st_bufferCount s)) as [Hfull|Hroom].
  2: { destruct (AddPacket_room s seq size data addr now lkeys rkeys Hwf Hen Hroom) as (s' & Hr & Hw' & Hl' & _ & Hfr).
       exists s'. split; [done|]. split; [done|]. split; [done|]. by rewrite Hfr at 1; rewrite Hfr. }
  unfold flagcxIbRetransAddPacket. rewrite Hen, (proj2 (Z.leb_le _ _) Hfull). cbn [negb].
  destruct (st_live s) as [|e l] eqn:Hl.
  { apply (f_equal length) in Hl. unfold st_live in Hl. rewrite length_ring_list in Hl. cbn in Hl. lia. }
  destruct (arr_get_some (st_buffer s) (st_bufferHead s)) as (e0 & He0 & _);
    [rewrite (rw_length s Hwf); apply Hwf|].
  rewrite He0. cbn [mbind option_bind]. rewrite arr_set_some by (rewrite (rw_length s Hwf); apply Hwf).
  cbn [mbind option_bind].
  destruct (ring_pop_wf s (<[Z.to_nat (st_bufferHead s):=en_setValid e0 false]> (st_buffer s)) e l Hwf Hl)
    as [Hwf1 Hl1]; [by right; eexists|].
  destruct (ring_push_spec _ (packet_entry seq size data addr now lkeys rkeys) Hwf1) as (s' & Hp & Hwf' & Hl' & _ & Hfr); [|done|].
  { cbn. pose proof (rw_count s Hwf). lia. }
  unfold packet_entry in Hp. rewrite Hp. cbn [mbind option_bind]. exists s'. split; [done|]. split; [done|].
  rewrite Hl', Hl1. split; [done|]. by rewrite Hfr.
Qed.

(** The sender's ring is a queue.  Adding a packet to an enabled sender
    appends one fresh entry to the live ones; on a full ring the oldest entry
    is first thrown away, whether or not it has been acknowledged. *)
Theorem addPacket_spec (s : flagcxIbRetransState) (seq size data addr now : Z) lkeys rkeys
    (Hwf : ring_wf s) (Hen : st_enabled s = true) :
  exists s', flagcxIbRetransAddPacket s seq size data addr lkeys rkeys now = Some (flagcxSuccess, s') /\
    ring_wf s' /\
    st_live s' = drop (if FLAGCX_IB_RETRANS_MAX_INFLIGHT <=? st_bufferCount s then 1 else 0) (st_live s) ++
      [packet_entry seq size data addr now lkeys rkeys] /\
    st_sendUna s' = st_sendUna s /\ st_recvSeq s' = st_recvSeq s /\ st_rtoUs s' = st_rtoUs s.
Proof.
  destruct (AddPacket_spec s seq size data addr now lkeys rkeys Hwf Hen) as (s' & Hr & Hw & Hl & Hf). exists s'. rewrite Hf at 4 5 6. done.
Qed.

(** The state of [flagcxIbRetransInit] with retransmission enabled. *)
Lemma init_ring_wf pe pt pm pa ud now :
  ring_wf (flagcxIbRetransInit pe pt pm pa ud now).
Proof. split; [reflexivity|cbn; lia|cbn; lia|reflexivity|constructor]. Qed.

Lemma addPacket_spec_witness :
  exists s', flagcxIbRetransAddPacket (flagcxIbRetransInit 1 5000 10 16 true 0) 0 64 4096 8192 None None 7
             = Some (flagcxSuccess, s') /\ (en_seq <$> st_live s') = [0].
Proof.
  destruct (addPacket_spec (flagcxIbRetransInit 1 5000 10 16 true 0) 0 64 4096 8192 7 None None
              (init_ring_wf 1 5000 10 16 true 0) eq_refl) as (s' & Hr & _ & Hl & _).
  exists s'. split; [exact Hr|]. rewrite Hl. reflexivity.
Defined.

Lemma holds_ok_app h h' l e :
  holds_ok h l -> entry_wf e -> heap_frame h h' -> Forall (sendReq h) (entry_reqs e) ->
  (forall r d, req_ev h' r d = req_ev h r d + entry_holds e r d) -> 
  (forall r d, 0 <= req_ev h r d) -> holds_ok h' (l ++ [e]).
Proof.
  intros [Hw Hh] He Hf Hs Hev Hnn. split; [apply Forall_app; split; [done|by constructor]|].
  intros r d Hpos. rewrite holds_app in *. cbn [holds] in *. rewrite Z.add_0_r in *. rewrite Hev.
  destruct (decide (0 < holds l r d)) as [Hl|Hl].
  - destruct (Hh r d Hl). split; [by eapply heap_frame_sendReq|lia].
  - pose proof (holds_nonneg l r d). specialize (Hnn r d). split; [|lia].
    eapply heap_frame_sendReq; [done|]. rewrite Forall_forall in Hs. apply Hs.
    apply count_of_elem. unfold entry_holds in Hpos. destruct (en_ackDevIndex e =? d); lia.
Qed.

(** The entry of a batch. *)
Definition batch_entry (h : ib_heap) (seq slot gen dev nreqs now : Z) (reqs : list Z) : flagcxIbRetransEntry :=
  MkRetransEntry seq 0 now 0 0 [0; 0] [0; 0] 0 true nreqs slot gen dev
    (reqs ++ drop (length reqs) (replicate 8 0))
    ((seg_of h <$> reqs) ++ drop (length reqs) (replicate 8 zero_segment)) 0 0 true.

Lemma AddBatch_spec (s : flagcxIbRetransState) (h : ib_heap) (seq slot gen dev nreqs now : Z) (reqs : list Z)
    (Hok : st_ok true s h) (Hen : st_enabled s = true)
    (Hn : 0 < nreqs <= FLAGCX_NET_IB_MAX_RECVS) (Hd : 0 <= dev < FLAGCX_IB_MAX_DEVS_PER_NIC)
    (Hlen : Z.of_nat (length reqs) = nreqs)
    (Hlive : Forall (fun r => r <> 0 -> is_Some (h !! r)) reqs)
    (Hev2 : forall r q, h !! r = Some q -> length (rq_events q) = 2%nat)
    (Hnn : forall r d, 0 <= req_ev h r d) :
  exists res s' h', flagcxIbRetransAddBatch s h seq slot gen dev nreqs (Some reqs) now = Some (res, s', h') /\
    st_ok true s' h' /\
    (res = flagcxSuccess <->
      st_bufferCount s < FLAGCX_IB_RETRANS_MAX_INFLIGHT /\ Forall (fun r => r <> 0 /\ sendReq h r) reqs) /\
    (res <> flagcxSuccess -> res = flagcxInternalError /\ s' = s /\ h' = h) /\
    (res = flagcxSuccess ->
      pushed s s' (batch_entry h seq slot gen dev nreqs now reqs) /\
      entry_reqs (batch_entry h seq slot gen dev nreqs now reqs) = reqs /\ heap_frame h h' /\
      forall r d, req_ev h' r d = req_ev h r d + (if dev =? d then count_of r reqs else 0)).
Proof.
  unfold flagcxIbRetransAddBatch. rewrite Hen.
  rewrite (proj2 (Z.leb_gt nreqs 0)), (proj2 (Z.ltb_ge FLAGCX_NET_IB_MAX_RECVS nreqs)),
    (proj2 (Z.leb_gt FLAGCX_IB_MAX_DEVS_PER_NIC dev)) by lia. cbn [orb negb].
  destruct (Z.leb_spec FLAGCX_IB_RETRANS_MAX_INFLIGHT (st_bufferCount s)) as [Hfull|Hfull].
  { exists flagcxInternalError, s, h. split; [done|]. split; [done|].
    split; [split; [done|intros [? _]; lia]|]. done. }
  assert (Hto : Z.to_nat nreqs = length reqs) by lia. rewrite Hto.
  destruct (batch_check_spec h reqs (length reqs) 0) as (ok & Hck & Hiff); [lia|done|].
  change (Z.of_nat 0) with 0 in Hck. rewrite Hck. cbn [mbind option_bind]. rewrite drop_0, take_ge in Hiff by lia.
  assert (Hiff' : ok = true <-> Forall (fun r => r <> 0 /\ sendReq h r) reqs).
  { rewrite Hiff. split; intros Ha; (eapply Forall_impl; [exact Ha|]); cbn.
    - intros r [Hr0 (q & Hq & Ht)]. split; [done|]. exists q. eauto.
    - intros r [Hr0 (q & Hq & Ht & _)]. eauto. }
  destruct ok; cbn [negb].
  2: { exists flagcxInternalError, s, h. split; [done|]. split; [done|].
       split; [split; [done|intros [_ Ha]; by apply Hiff' in Ha]|]. done. }
  pose proof (proj1 Hiff' eq_refl) as Hall.
  destruct (batch_fill_spec dev reqs (length reqs) h 0 (replicate 8 0) (replicate 8 zero_segment))
    as (h' & Hfill & Hf & Hevs); [done|lia|lia|done|done| |].
  { rewrite drop_0, take_ge by lia. eapply Forall_impl; [exact Hall|]. by intros ? []. }
  rewrite drop_0, (take_ge reqs) in Hfill by lia. rewrite drop_0, (take_ge reqs) in Hevs by lia.
  change (Z.of_nat 0) with 0 in Hfill. rewrite Hfill. cbn [mbind option_bind]. rewrite Nat.add_0_l.
  rewrite take_0. change ([] ++ ?l) with l.
  set (e := MkRetransEntry _ _ _ _ _ _ _ _ _ _ _ _ _ _ _ _ _ _).
  destruct (ring_push_spec s e (so_ring _ _ _ Hok)) as (s' & Hp & Hwf' & Hl' & Hcnt & Hfr); [done..|].
  rewrite Hp. cbn [mbind option_bind]. exists flagcxSuccess, s', h'. split; [done|].
  assert (Her : entry_reqs e = reqs).
  { unfold entry_reqs. cbn. rewrite Hto. rewrite take_app_length'; done. }
  split; [|split; [split; [by split|done]|split; [done|]]].
  - split; [done| |].
    + rewrite Hfr. apply Hok.
    + intros _. rewrite Hl'. apply (holds_ok_app h); try done.
      * by apply Hok.
      * split; [cbn; lia|]. split; [|split; [done|]].
        -- cbn [en_requests e]. rewrite !length_app, length_drop, length_replicate. cbn. lia.
        -- rewrite Her. eapply Forall_impl; [exact Hall|]. by intros ? [].
      * rewrite Her. eapply Forall_impl; [exact Hall|]. by intros ? [].
      * intros r d. rewrite Hevs. unfold entry_holds. by rewrite Her.
  - intros _. split; [split; [done|split; [done|split; [exact Hcnt|exact Hfr]]]|].
    split; [done|]. by split.
Qed.

(** adding an IBUC batch is all or nothing.  With live requests, a full
    ring or a member that is no send request is an internal error that leaves
    ring and requests as they were; otherwise one entry is appended that
    records every request with its segment, and each request is kept pending
    by exactly one event per occurrence on the acknowledging device. *)
Theorem addBatch_spec (s : flagcxIbRetransState) (h : ib_heap) (seq slot gen dev nreqs now : Z) (reqs : list Z)
    (Hok : st_ok true s h) (Hen : st_enabled s = true)
    (Hn : 0 < nreqs <= FLAGCX_NET_IB_MAX_RECVS) (Hd : 0 <= dev < FLAGCX_IB_MAX_DEVS_PER_NIC)
    (Hlen : Z.of_nat (length reqs) = nreqs)
    (Hlive : Forall (fun r => r <> 0 -> is_Some (h !! r)) reqs)
    (Hev2 : forall r q, h !! r = Some q -> length (rq_events q) = 2%nat)
    (Hnn : forall r d, 0 <= req_ev h r d) :
  exists res s' h', flagcxIbRetransAddBatch s h seq slot gen dev nreqs (Some reqs) now = Some (res, s', h') /\
    st_ok true s' h' /\
    (res = flagcxSuccess <->
      st_bufferCount s < FLAGCX_IB_RETRANS_MAX_INFLIGHT /\ Forall (fun r => r <> 0 /\ sendReq h r) reqs) /\
    (res <> flagcxSuccess -> res = flagcxInternalError /\ s' = s /\ h' = h) /\
    (res = flagcxSuccess ->
      pushed s s' (batch_entry h seq slot gen dev nreqs now reqs) /\
      entry_reqs (batch_entry h seq slot gen dev nreqs now reqs) = reqs /\ heap_frame h h' /\
      forall r d, req_ev h' r d = req_ev h r d + (if dev =? d then count_of r reqs else 0)).
Proof. exact (AddBatch_spec s h seq slot gen dev nreqs now reqs Hok Hen Hn Hd Hlen Hlive Hev2 Hnn). Qed.

(** A heap with two send requests, used by the witnesses. *)
Definition demo_heap : ib_heap :=
  {[5 := MkIbRequest FLAGCX_NET_IB_REQ_SEND [0; 0] 0 100 4096 [1; 2];
    6 := MkIbRequest FLAGCX_NET_IB_REQ_SEND [0; 0] 0 20000000 8192 [1; 2]]}.

Lemma demo_heap_live r q : demo_heap !! r = Some q -> (r = 5 \/ r = 6) /\ rq_events q = [0; 0] /\
  rq_type q = FLAGCX_NET_IB_REQ_SEND.
Proof.
  unfold demo_heap. intros Hq. apply lookup_insert_Some in Hq as [[<- <-]|[_ Hq]]; [eauto|].
  apply lookup_singleton_Some in Hq as [<- <-]. eauto.
Qed.

Lemma demo_heap_ev r d : req_ev demo_heap r d = 0.
Proof.
  unfold req_ev. destruct (demo_heap !! r) as [q|] eqn:Hq; [|done].
  apply demo_heap_live in Hq as (_ & -> & _). unfold arr_get.
  destruct (0 <=? d); [|done]. by destruct (Z.to_nat d) as [|[|[]]].
Qed.

Lemma init_st_ok ibuc pe pt pm pa ud now h : st_ok ibuc (flagcxIbRetransInit pe pt pm pa ud now) h.
Proof.
  split; [apply init_ring_wf|cbn; unfold is_u64; lia|]. intros _.
  change (st_live (flagcxIbRetransInit pe pt pm pa ud now)) with (@nil flagcxIbRetransEntry).
  split; [constructor|]. intros r d Hpos. by apply Z.lt_irrefl in Hpos.
Qed.

Lemma addBatch_spec_witness :
  exists s' h', flagcxIbRetransAddBatch (flagcxIbRetransInit 1 5000 10 16 true 0) demo_heap 0 3 9 1 2 (Some [5; 6]) 7
                = Some (flagcxSuccess, s', h') /\ req_ev h' 6 1 = 1 /\ req_ev h' 6 0 = 0.
Proof.
  destruct (addBatch_spec (flagcxIbRetransInit 1 5000 10 16 true 0) demo_heap 0 3 9 1 2 7 [5; 6])
    as (res & s' & h' & Hr & _ & Hiff & _ & Hs).
  - apply init_st_ok.
  - reflexivity.
  - lia.
  - lia.
  - reflexivity.
  - repeat constructor; intros _; eexists; reflexivity.
  - intros r q Hq. apply demo_heap_live in Hq as (_ & -> & _). reflexivity.
  - intros. rewrite demo_heap_ev. lia.
  - assert (Hres : res = flagcxSuccess).
    { apply Hiff. split; [reflexivity|].
      repeat constructor; try (intro; discriminate); eexists; split; try reflexivity; split; reflexivity. }
    subst res. exists s', h'. split; [exact Hr|].
    destruct (Hs eq_refl) as (_ & _ & _ & Hev).
    rewrite !Hev, !demo_heap_ev. split; reflexivity.
Defined.

(** ** Acknowledgements *)

Lemma UpdateRTO_bounds s rtt :
  let s' := flagcxIbUpdateRTO s rtt in
  st_rtoUs s' <= st_maxRtoUs s /\ (st_minRtoUs s <= st_maxRtoUs s -> st_minRtoUs s <= st_rtoUs s') /\
  s' = st_setRtt s (st_rtoUs s') (st_srttUs s') (st_rttvarUs s').
Proof.
  unfold flagcxIbUpdateRTO.
  destruct (if st_srttUs s =? 0 then _ else _) as [srtt var]. cbn [st_setRtt st_rtoUs st_srttUs st_rttvarUs].
  repeat case_test; and_split.
Qed.

Lemma st_ok_setRtt ibuc s h a b c : st_ok ibuc s h -> st_ok ibuc (st_setRtt s a b c) h.
Proof. intros Hok. eapply st_ok_frame; [done|apply ring_wf_setRtt, Hok|apply Hok|done]. Qed.
Lemma st_ok_setUna ibuc s h a b : st_ok ibuc s h -> st_ok ibuc (st_setUna s a b) h.
Proof. intros Hok. eapply st_ok_frame; [done|apply ring_wf_setUna, Hok|apply Hok|done]. Qed.

(** The state in which the retirement loop starts. *)
Definition ack_prepared (s : flagcxIbRetransState) (m : flagcxIbAckMsg) (now : Z) : flagcxIbRetransState :=
  let s1 := if (0 <? ack_timestampUs m) && ((now -u64 ack_timestampUs m) <? 10000000)
            then flagcxIbUpdateRTO s (now -u64 ack_timestampUs m) else s in
  st_setUna s1 (st_sendUna s1) now.

Lemma ack_prepared_spec s m now :
  let s2 := ack_prepared s m now in
  s2 = st_setUna (st_setRtt s (st_rtoUs s2) (st_srttUs s2) (st_rttvarUs s2)) (st_sendUna s) now /\
  (st_minRtoUs s <= st_rtoUs s <= st_maxRtoUs s -> st_minRtoUs s <= st_rtoUs s2 <= st_maxRtoUs s).
Proof.
  unfold ack_prepared. destruct (_ && _)%bool.
  - destruct (UpdateRTO_bounds s (now -u64 ack_timestampUs m)) as (Hmax & Hmin & Hfr).
    set (s1 := flagcxIbUpdateRTO s (now -u64 ack_timestampUs m)) in *.
    split; [|intros; cbn; lia]. rewrite Hfr at 1 2. by destruct s.
  - split; [by destruct s|done].
Qed.

Lemma ProcessAck_spec ibuc s h m now :
  st_ok ibuc s h -> st_enabled s = true ->
  exists s' h' acked,
    flagcxIbRetransProcessAck ibuc s h (Some m) now = Some (flagcxSuccess, s', h') /\
    st_ok ibuc s' h' /\ retired ibuc (ack_ackSeq m) (ack_prepared s m now) s' h h' acked.
Proof.
  intros Hok Hen. unfold flagcxIbRetransProcessAck. rewrite Hen. cbn [negb].
  assert (Hp : st_setUna (if 0 <? ack_timestampUs m
                 then if (now -u64 ack_timestampUs m) <? 10000000
                      then flagcxIbUpdateRTO s (now -u64 ack_timestampUs m) else s else s)
               (st_sendUna (if 0 <? ack_timestampUs m
                 then if (now -u64 ack_timestampUs m) <? 10000000
                      then flagcxIbUpdateRTO s (now -u64 ack_timestampUs m) else s else s)) now
               = ack_prepared s m now).
  { unfold ack_prepared. by destruct (0 <? ack_timestampUs m), (_ <? 10000000). }
  cbv zeta. rewrite Hp.
  assert (Hok2 : st_ok ibuc (ack_prepared s m now) h).
  { destruct (ack_prepared_spec s m now) as [-> _]. apply st_ok_setUna, st_ok_setRtt, Hok. }
  destruct (ack_loop_spec ibuc (ack_ackSeq m) (S (Z.to_nat (st_bufferCount (ack_prepared s m now))))
              (ack_prepared s m now) h Hok2) as (s' & h' & acked & Hrun & Hok' & Hret); [lia|].
  rewrite Hrun. cbn. eauto 10.
Qed.

(** an acknowledgement retires exactly the longest prefix of the live
    entries it covers, newer ones stay; the oldest unacknowledged number moves
    behind the last retired entry; with IBUC every retired entry gives back
    exactly the holds it took, so that each request's other events are
    untouched; and the timeout stays within its bounds.  SACK bits never retire
    anything. *)
Theorem processAck_spec (ibuc : bool) (s : flagcxIbRetransState) (h : ib_heap) (m : flagcxIbAckMsg) (now : Z)
    (Hok : st_ok ibuc s h) (Hen : st_enabled s = true) :
  exists s' h' acked,
    flagcxIbRetransProcessAck ibuc s h (Some m) now = Some (flagcxSuccess, s', h') /\
    st_ok ibuc s' h' /\
    st_live s = acked ++ st_live s' /\
    Forall (fun e => flagcxIbSeqLeq ibuc (en_seq e) (ack_ackSeq m) = true) acked /\
    (forall e, head (st_live s') = Some e -> flagcxIbSeqLeq ibuc (en_seq e) (ack_ackSeq m) = false) /\
    st_sendUna s' = una_after ibuc (st_sendUna s) acked /\
    st_totalAcked s' = (st_totalAcked s +u64 Z.of_nat (length acked)) /\
    heap_frame h h' /\
    (forall r d, ibuc = true -> req_ev h' r d - holds (st_live s') r d = req_ev h r d - holds (st_live s) r d) /\
    (st_minRtoUs s <= st_rtoUs s <= st_maxRtoUs s -> st_minRtoUs s' <= st_rtoUs s' <= st_maxRtoUs s') /\
    st_recvSeq s' = st_recvSeq s.
Proof.
  destruct (ProcessAck_spec ibuc s h m now Hok Hen) as (s' & h' & acked & Hrun & Hok' & [Rl Rc Rm Rf Rh Rr]).
  destruct (ack_prepared_spec s m now) as [Hp Hrto].
  exists s', h', acked. split; [done|]. split; [done|].
  assert (Hlp : st_live (ack_prepared s m now) = st_live s) by (by rewrite Hp). rewrite Hlp in Rl.
  split; [done|]. split; [done|].
  split; [intros e He; apply not_true_is_false, Rm, He|].
  assert (Hs' : st_sendUna s' = una_after ibuc (st_sendUna s) acked /\
      st_totalAcked s' = (st_totalAcked s +u64 Z.of_nat (length acked)) /\
      st_minRtoUs s' = st_minRtoUs s /\ st_maxRtoUs s' = st_maxRtoUs s /\
      st_rtoUs s' = st_rtoUs (ack_prepared s m now) /\ st_recvSeq s' = st_recvSeq s).
  { rewrite Rf. cbn [st_sendUna st_totalAcked st_minRtoUs st_rtoUs st_maxRtoUs st_recvSeq
      st_setUna st_setTotals st_setRing]. by rewrite Hp. }
  destruct Hs' as (-> & -> & -> & -> & -> & ->).
  split; [done|]. split; [done|]. split; [done|]. split; [|by split].
  intros r d Hi. rewrite Rr, Rl, holds_app, Hi. lia.
Qed.

(** Two packets in flight, the first acknowledged. *)
Definition demo_entry (q t : Z) : flagcxIbRetransEntry :=
  MkRetransEntry q 64 t 8192 4096 [1; 2] [3; 4] 0 true 0 0 0 0 (replicate 8 0) (replicate 8 zero_segment) 0 0 false.
Definition demo_sender : flagcxIbRetransState :=
  st_setRing (flagcxIbRetransInit 1 5000 10 16 true 0)
    (demo_entry 0 1 :: demo_entry 1 2 :: replicate 2046 zero_entry) 0 2 2.

Lemma demo_sender_ok : st_ok false demo_sender ∅.
Proof.
  split; [|cbn; unfold is_u64; lia|done].
  split; [reflexivity|cbn; lia|cbn; lia|reflexivity|by repeat constructor].
Qed.

Lemma processAck_spec_witness :
  exists s' h', flagcxIbRetransProcessAck false demo_sender ∅ (Some (MkAckMsg 0 0 0 0 0 0 0)) 9
                = Some (flagcxSuccess, s', h') /\ (en_seq <$> st_live s') = [1] /\ st_sendUna s' = 1.
Proof.
  destruct (processAck_spec false demo_sender ∅ (MkAckMsg 0 0 0 0 0 0 0) 9 demo_sender_ok eq_refl)
    as (s' & h' & acked & Hr & _ & Hl & Hc & Hm & Hu & _).
  exists s', h'. split; [exact Hr|].
  assert (Hlive : st_live demo_sender = [demo_entry 0 1; demo_entry 1 2]) by reflexivity.
  rewrite Hlive in Hl. destruct acked as [|e1 [|e2 [|]]]; cbn in Hl.
  - exfalso. rewrite <-Hl in Hm. specialize (Hm _ eq_refl). vm_compute in Hm. discriminate Hm.
  - injection Hl as <- Hl. rewrite <-Hl, Hu. split; reflexivity.
  - injection Hl as <- <- _. inversion Hc as [|? ? _ Hc']. inversion Hc' as [|? ? Hx _]. vm_compute in Hx. discriminate Hx.
  - discriminate Hl.
Defined.

(** ** Retransmission windows *)

(** The reference: a chunk is (segment, offset, length); a segment of size [T]
    is cut from offset [o] on into full chunks and a last shorter one, an empty
    segment still takes one empty chunk. *)
Abbreviation CHUNK := FLAGCX_IB_RETRANS_MAX_CHUNK_SIZE (only parsing).
Abbreviation chunk := (Z * Z * Z)%type (only parsing).

Definition seg_chunks (i T o : Z) : list chunk :=
  if T =? 0 then [(i, 0, 0)]
  else (fun k => (i, o + Z.of_nat k * CHUNK, Z.min CHUNK (T - o - Z.of_nat k * CHUNK)))
         <$> seq 0 (Z.to_nat ((T - o + CHUNK - 1) / CHUNK)).

Fixpoint rest_chunks (sizes : list Z) (i o : Z) : list chunk :=
  match sizes with
  | [] => []
  | T :: sizes' => seg_chunks i T o ++ rest_chunks sizes' (i + 1) 0
  end.

(** What is left of a transfer at a cursor. *)
Definition left_chunks (e : flagcxIbRetransEntry) (segment offset : Z) : list chunk :=
  rest_chunks (sg_size <$> drop (Z.to_nat segment) (take (Z.to_nat (en_nreqs e)) (en_segments e))) segment offset.

Lemma seg_chunks_step i T o :
  0 <= o < T ->
  seg_chunks i T o = (i, o, Z.min CHUNK (T - o)) ::
    (if o + Z.min CHUNK (T - o) =? T then [] else seg_chunks i T (o + Z.min CHUNK (T - o))).
Proof.
  intros Ho. unfold seg_chunks. rewrite (proj2 (Z.eqb_neq T 0)) by lia.
  replace (Z.to_nat ((T - o + CHUNK - 1) / CHUNK)) with (S (Z.to_nat ((T - o - 1) / CHUNK))) by zlia.
  rewrite <-cons_seq, fmap_cons. f_equal; [f_equal; [f_equal|]; lia|].
  destruct (Z.eqb_spec (o + Z.min CHUNK (T - o)) T) as [He|He].
  - replace (Z.to_nat ((T - o - 1) / CHUNK)) with 0%nat by zlia. done.
  - rewrite Z.min_l in * by lia. rewrite <-fmap_S_seq, <-list_fmap_compose.
    replace (T - (o + CHUNK) + CHUNK - 1) with (T - o - 1) by lia.
    apply list_fmap_ext. intros k x _. cbn [compose]. f_equal; [f_equal|]; lia.
Qed.

Definition segs_wf (e : flagcxIbRetransEntry) : Prop :=
  0 <= en_nreqs e <= FLAGCX_NET_IB_MAX_RECVS /\ length (en_segments e) = 8%nat /\
  Forall (fun g => is_u32 (sg_size g) /\ length (sg_lkeys g) = 2%nat) (en_segments e).

(** A cursor inside the transfer: at the start of a segment, or strictly
    inside one. *)
Definition cursor_ok (e : flagcxIbRetransEntry) (segment offset : Z) : Prop :=
  0 <= segment <= en_nreqs e /\
  (offset = 0 \/ exists g, arr_get (en_segments e) segment = Some g /\ segment < en_nreqs e /\ 0 < offset < sg_size g).

(** The cursor after a chunk of [len] bytes. *)
Definition after_chunk (T segment offset len : Z) : Z * Z :=
  if (T =? 0) || (offset + len =? T) then (segment + 1, 0) else (segment, offset + len).

Lemma left_chunks_end e segment offset : segs_wf e -> en_nreqs e <= segment -> left_chunks e segment offset = [].
Proof.
  intros (Hn & Hl & _) Hs. unfold left_chunks. rewrite drop_ge; [done|]. rewrite length_take. lia.
Qed.

Lemma left_chunks_step e segment offset g :
  segs_wf e -> cursor_ok e segment offset -> segment < en_nreqs e ->
  arr_get (en_segments e) segment = Some g ->
  let len := if sg_size g =? 0 then 0 else Z.min CHUNK (sg_size g - offset) in
  let '(s2, o2) := after_chunk (sg_size g) segment offset len in
  left_chunks e segment offset = (segment, offset, len) :: left_chunks e s2 o2 /\ cursor_ok e s2 o2 /\
  offset + len <= sg_size g.
Proof.
  intros (Hn & Hl & Hf) (Hs & Ho) Hlt Hg len.
  assert (Hgl : en_segments e !! Z.to_nat segment = Some g).
  { unfold arr_get in Hg. by rewrite (proj2 (Z.leb_le 0 segment)) in Hg by lia. }
  assert (Hdrop : drop (Z.to_nat segment) (take (Z.to_nat (en_nreqs e)) (en_segments e))
      = g :: drop (Z.to_nat (segment + 1)) (take (Z.to_nat (en_nreqs e)) (en_segments e))).
  { rewrite (drop_S _ g (Z.to_nat segment)); [do 2 f_equal; lia|]. by rewrite lookup_take_lt by lia. }
  assert (Hoff : 0 <= offset /\ (sg_size g = 0 -> offset = 0) /\ (sg_size g <> 0 -> offset < sg_size g)).
  { assert (Hu : is_u32 (sg_size g)) by (rewrite Forall_lookup in Hf; by apply (Hf _ _ Hgl)).
    unfold is_u32 in Hu. destruct Ho as [->|(g' & Hg' & _ & Ho)]; [lia|]. rewrite Hg in Hg'. injection Hg' as <-. lia. }
  unfold after_chunk, left_chunks. subst len. rewrite Hdrop, fmap_cons. cbn [rest_chunks].
  destruct (Z.eqb_spec (sg_size g) 0) as [Hz|Hz]; cbn [orb].
  - destruct Hoff as (_ & -> & _); [|done]. split; [unfold seg_chunks; by rewrite Hz|].
    split; [split; [lia|by left]|lia].
  - destruct Hoff as (Ho0 & _ & Ho1). specialize (Ho1 Hz). rewrite seg_chunks_step by lia.
    destruct (Z.eqb_spec (offset + Z.min CHUNK (sg_size g - offset)) (sg_size g)) as [He|He].
    + split; [done|]. split; [split; [lia|by left]|lia].
    + rewrite Hdrop. cbn [fmap list_fmap rest_chunks]. split; [done|]. split; [|lia].
      split; [lia|]. right. exists g. split; [done|]. lia.
Qed.

(** The work request for a chunk. *)
Definition wr_for (e : flagcxIbRetransEntry) (devIndex : Z) (w : retrans_wr) (c : chunk) : Prop :=
  let '(i, o, len) := c in
  exists g, arr_get (en_segments e) i = Some g /\
    wr_hdr w = MkRetransHdr FLAGCX_RETRANS_MAGIC (en_seq e) len (sg_size g)
                 (Z.lor ((Z.shiftl o 16) mod U64_MOD) (en_remoteGeneration e))
                 (Z.lor (Z.lor (en_remoteRequestSlot e) ((Z.shiftl i 8) mod U32_MOD))
                        ((Z.shiftl (en_nreqs e) 16) mod U32_MOD)) /\
    wr_addr w = (sg_data g +u64 o) /\ wr_len w = len /\ arr_get (sg_lkeys g) devIndex = Some (wr_lkey w).

Lemma build_window_spec e dev depth segment offset :
  segs_wf e -> cursor_ok e segment offset -> 0 <= dev < FLAGCX_IB_MAX_DEVS_PER_NIC ->
  exists ws, build_window depth e dev segment offset = Some (true, ws) /\
    Forall2 (wr_for e dev) ws (take depth (left_chunks e segment offset)) /\
    (forall k w, ws !! k = Some w ->
       cursor_ok e (wr_nextSegment w) (wr_nextOffset w) /\
       left_chunks e (wr_nextSegment w) (wr_nextOffset w) = drop (S k) (left_chunks e segment offset) /\
       (wr_nextSegment w = en_nreqs e <-> drop (S k) (left_chunks e segment offset) = [])).
Proof.
  intros Hw. revert segment offset. induction depth as [|depth IH]; intros segment offset Hc Hd.
  { exists []. split; [done|]. split; [constructor|]. done. }
  destruct (Z.ltb_spec segment (en_nreqs e)) as [Hlt|Hge].
  2: { exists []. cbn [build_window]. rewrite (proj2 (Z.ltb_ge segment _)) by lia.
       rewrite left_chunks_end by (done || lia). split; [done|]. split; [constructor|done]. }
  destruct Hw as (Hn & Hl & Hf).
  destruct (arr_get_some (en_segments e) segment) as (g & Hg & Hg'); [destruct Hc; lia|].
  assert (Hgw : is_u32 (sg_size g) /\ length (sg_lkeys g) = 2%nat) by (rewrite Forall_lookup in Hf; by apply (Hf _ _ Hg')).
  destruct Hgw as [Hu Hlk]. unfold is_u32 in Hu.
  pose proof (left_chunks_step e segment offset g (conj Hn (conj Hl Hf)) Hc Hlt Hg) as Hstep. cbv zeta in Hstep.
  set (len := if sg_size g =? 0 then 0 else Z.min CHUNK (sg_size g - offset)) in *.
  destruct (after_chunk (sg_size g) segment offset len) as [s2 o2] eqn:Hac.
  destruct Hstep as (Hleft & Hc2 & Hle).
  assert (Ho : 0 <= offset <= sg_size g).
  { destruct Hc as [_ [->|(g1 & Hg1 & _ & Ho)]]; [lia|]. rewrite Hg in Hg1. injection Hg1 as <-. lia. }
  destruct (IH s2 o2 Hc2 Hd) as (ws & Hrun & Hfor & Hcur).
  destruct (arr_get_some (sg_lkeys g) dev) as (lk & Hlk' & _); [lia|].
  assert (Hlen : 0 <= len) by (unfold len; destruct (Z.eqb_spec (sg_size g) 0); lia).
  cbn [build_window]. rewrite (proj2 (Z.ltb_lt segment _)) by lia. cbn [negb]. rewrite Hg. cbn [mbind option_bind].
  rewrite (proj2 (Z.ltb_ge (sg_size g) offset)) by lia. rewrite Hlk'. cbn [mbind option_bind].
  assert (Hcs : (if sg_size g =? 0 then 0 else Z.min FLAGCX_IB_RETRANS_MAX_CHUNK_SIZE (sg_size g -u32 offset)) = len)
    by (unfold len; destruct (sg_size g =? 0); [done|]; by rewrite Z.mod_small by lia).
  rewrite Hcs. rewrite (Z.mod_small (offset + len)) by lia.
  assert (Hs2 : (if (sg_size g =? 0) || (offset + len =? sg_size g) then segment + 1 else segment) = s2
     /\ (if (sg_size g =? 0) || (offset + len =? sg_size g) then 0 else offset + len) = o2).
  { unfold after_chunk in Hac. by destruct (_ || _); injection Hac as <- <-. }
  destruct Hs2 as [-> ->]. rewrite Hrun. cbn [mbind option_bind].
  assert (Hsm : s2 mod 256 = s2) by (destruct Hc2; apply Z.mod_small; lia).
  rewrite Hsm. eexists. split; [done|]. rewrite Hleft. split.
  - rewrite firstn_cons. constructor; [|done]. exists g. done.
  - intros [|k] w Hk; cbn in Hk.
    + injection Hk as <-. cbn. rewrite drop_0. split; [done|]. split; [done|].
      split; [intros ->; apply left_chunks_end; [done|lia]|].
      intros Hnil. destruct (Z.eq_dec s2 (en_nreqs e)) as [|Hne]; [done|]. exfalso.
      destruct Hc2 as [Hc2 Hc2']. destruct (arr_get_some (en_segments e) s2) as (g2 & Hg2 & _); [lia|].
      pose proof (left_chunks_step e s2 o2 g2 (conj Hn (conj Hl Hf)) (conj Hc2 Hc2')) as Hst.
      cbv zeta in Hst. destruct (after_chunk _ _ _ _) in Hst. destruct Hst as [Hst _]; [lia|done|].
      rewrite Hnil in Hst. done.
    + destruct (Hcur k w Hk) as (H1 & H2 & H3). cbn. done.
Qed.

(** The number of chunks of a segment is [flagcxIbucRetransChunkCount]. *)
Lemma seg_chunks_length i T : 0 <= T -> Z.of_nat (length (seg_chunks i T 0)) = flagcxIbucRetransChunkCount T.
Proof.
  intros. unfold seg_chunks, flagcxIbucRetransChunkCount. destruct (Z.eqb_spec T 0); [done|].
  rewrite length_fmap, length_seq. zlia.
Qed.

(** retransmission windows cover a transfer exactly.  From a cursor in
    the transfer, a window takes the next (at most 16) chunks of the reference
    cut in order, with the headers and addresses of these chunks; the cursor
    after its k-th work request stands exactly where the k-th chunk ended, so
    that successive windows neither skip nor repeat a byte, and reads as "all
    posted" exactly when no chunk is left. *)
Theorem window_spec (e : flagcxIbRetransEntry) (dev segment offset : Z)
    (Hw : segs_wf e) (Hc : cursor_ok e segment offset) (Hd : 0 <= dev < FLAGCX_IB_MAX_DEVS_PER_NIC) :
  exists ws, build_window FLAGCX_IBUC_RETRANS_RECV_DEPTH e dev segment offset = Some (true, ws) /\
    Forall2 (wr_for e dev) ws (take 16 (left_chunks e segment offset)) /\
    (forall k w, ws !! k = Some w ->
       left_chunks e (wr_nextSegment w) (wr_nextOffset w) = drop (S k) (left_chunks e segment offset) /\
       (wr_nextSegment w =? en_nreqs e) = bool_decide (drop (S k) (left_chunks e segment offset) = [])) /\
    (forall i g, en_segments e !! i = Some g ->
       Z.of_nat (length (seg_chunks (Z.of_nat i) (sg_size g) 0)) = flagcxIbucRetransChunkCount (sg_size g)).
Proof.
  destruct (build_window_spec e dev FLAGCX_IBUC_RETRANS_RECV_DEPTH segment offset Hw Hc Hd) as (ws & Hr & Hf & Hk).
  exists ws. split; [done|]. split; [done|]. split.
  - intros k w Hw'. destruct (Hk k w Hw') as (_ & Hl & Hiff). split; [done|].
    destruct (Z.eqb_spec (wr_nextSegment w) (en_nreqs e)) as [He|He]; symmetry.
    + by apply bool_decide_eq_true, Hiff.
    + apply bool_decide_eq_false. intros Hx. by apply He, Hiff.
  - intros i g Hg. apply seg_chunks_length. destruct Hw as (_ & _ & Hf'). rewrite Forall_lookup in Hf'.
    apply (Hf' _ _ Hg).
Qed.

(** A two-segment transfer of 20000000 and 5 bytes. *)
Definition demo_batch : flagcxIbRetransEntry :=
  MkRetransEntry 7 0 0 0 0 [0; 0] [0; 0] 0 true 2 3 9 1 ([6; 5] ++ replicate 6 0)
    ([MkSegment 20000000 8192 [1; 2]; MkSegment 5 4096 [1; 2]] ++ replicate 6 zero_segment) 0 0 false.

Lemma demo_batch_wf : segs_wf demo_batch /\ cursor_ok demo_batch 0 0.
Proof.
  split; [split; [cbn; lia|split; [reflexivity|]]|split; [cbn; lia|by left]].
  unfold demo_batch, is_u32. repeat constructor; cbn; lia.
Qed.

Lemma window_spec_witness :
  exists ws, build_window FLAGCX_IBUC_RETRANS_RECV_DEPTH demo_batch 1 0 0 = Some (true, ws) /\
    Forall2 (wr_for demo_batch 1) ws [(0, 0, 8388608); (0, 8388608, 8388608); (0, 16777216, 3222784); (1, 0, 5)].
Proof.
  destruct (window_spec demo_batch 1 0 0 (proj1 demo_batch_wf) (proj2 demo_batch_wf)) as (ws & Hr & Hf & _); [lia|].
  exists ws. split; [exact Hr|].
  assert (Hl : take 16 (left_chunks demo_batch 0 0)
               = [(0, 0, 8388608); (0, 8388608, 8388608); (0, 16777216, 3222784); (1, 0, 5)]) by (vm_compute; reflexivity).
  rewrite <-Hl. exact Hf.
Defined.

(** ** Resending and timeouts *)

Section ResendFacts.
Variable ibuc : bool.

(** Equal up to the bookkeeping of retransmission. *)
Definition en_same (e e' : flagcxIbRetransEntry) : Prop :=
  e' = en_setRetry (en_setCursor e (en_retransSegment e') (en_retransOffset e') (en_retransAllPosted e'))
         (en_retryCount e') (en_sendTimeUs e').

Definition retrans_wf (e : flagcxIbRetransEntry) : Prop :=
  segs_wf e /\ length (en_lkeys e) = 2%nat /\ 0 <= en_ackDevIndex e /\
  cursor_ok e (en_retransSegment e) (en_retransOffset e) /\
  (en_retransAllPosted e = false -> 0 < en_nreqs e -> en_retransSegment e < en_nreqs e).

Record comm_ok (c : flagcxIbSendComm) (h : ib_heap) : Prop := {
  co_st : st_ok ibuc (cm_retrans c) h;
  co_live : Forall retrans_wf (st_live (cm_retrans c));
  co_distinct : NoDup (en_seq <$> st_live (cm_retrans c));
  co_ndevs : 1 <= cm_ndevs c <= FLAGCX_IB_MAX_DEVS_PER_NIC;
  co_ready : length (cm_rcReady c) = 2%nat;
  co_window : length (cm_retransWindowRequests c) = 8%nat;
  co_pool : length (cm_hdrPool c) = 32%nat;
  co_qps : 1 <= cm_nqps c <= Z.of_nat (length (cm_qps c));
  co_index : 0 <= st_retransQPIndex (cm_retrans c);
  co_rto : 0 <= st_minRtoUs (cm_retrans c) <= st_rtoUs (cm_retrans c) /\
           st_rtoUs (cm_retrans c) <= st_maxRtoUs (cm_retrans c) < U32_MOD
}.

(** Ring positions and list positions. *)
Lemma ring_ix_get s i e :
  ring_wf s -> st_live s !! i = Some e -> arr_get (st_buffer s) (Z.of_nat (ring_ix (st_bufferHead s) i)) = Some e.
Proof.
  intros Hw Hi. rewrite arr_get_nat. assert (Hlt : (i < Z.to_nat (st_bufferCount s))%nat).
  { apply lookup_lt_Some in Hi. unfold st_live in Hi. by rewrite length_ring_list in Hi. }
  rewrite <-(ring_list_lookup _ _ (st_bufferCount s)); [done|apply Hw|done].
Qed.

Lemma ring_ix_step hd i : 0 <= hd -> ring_next (Z.of_nat (ring_ix hd i)) = Z.of_nat (ring_ix hd (S i)).
Proof.
  intros. rewrite ring_next_mod by lia. unfold ring_ix.
  rewrite !Z2Nat.id by (apply Z.mod_pos_bound; lia). rewrite Zplus_mod_idemp_l. f_equal. lia.
Qed.

Lemma find_entry_spec s n i q :
  ring_wf s -> (i + n = Z.to_nat (st_bufferCount s))%nat ->
  find_entry n (st_buffer s) (Z.of_nat (ring_ix (st_bufferHead s) i)) q
  = Some (match list_find (fun e => en_seq e = q) (drop i (st_live s)) with
          | Some (j, _) => Some (Z.of_nat (ring_ix (st_bufferHead s) (i + j)))
          | None => None
          end).
Proof.
  intros Hw. revert i. induction n as [|n IH]; intros i Hi.
  - rewrite drop_ge; [done|]. unfold st_live. rewrite length_ring_list. lia.
  - destruct (lookup_lt_is_Some_2 (st_live s) i) as [e He]; [unfold st_live; rewrite length_ring_list; lia|].
    cbn [find_entry]. rewrite (ring_ix_get s i e Hw He). cbn [mbind option_bind].
    assert (Hv : en_valid e = true) by (eapply (Forall_lookup_1 _ _ _ _ (rw_valid s Hw) He)).
    rewrite Hv, (drop_S _ e i He). cbn [andb list_find].
    destruct (Z.eqb_spec (en_seq e) q) as [Hq|Hq].
    + rewrite decide_True by done. by rewrite Nat.add_0_r.
    + rewrite decide_False by done. rewrite ring_ix_step by apply Hw. rewrite IH by lia.
      destruct (list_find _ (drop (S i) (st_live s))) as [[j e']|]; cbn; [|done].
      by rewrite Nat.add_succ_r.
Qed.

(** With distinct numbers the search finds the entry itself. *)
Lemma find_entry_live c h i e :
  comm_ok c h -> st_live (cm_retrans c) !! i = Some e ->
  let s := cm_retrans c in
  find_entry (Z.to_nat (st_bufferCount s)) (st_buffer s) (st_bufferHead s) (en_seq e)
  = Some (Some (Z.of_nat (ring_ix (st_bufferHead s) i))).
Proof.
  intros Hok Hi s. pose proof (so_ring _ _ _ (co_st _ _ Hok)) as Hw.
  rewrite <-(Z2Nat.id (st_bufferHead s)) at 1 by apply Hw. rewrite <-(ring_ix_0 (st_bufferHead s)) by apply Hw.
  rewrite find_entry_spec by done. rewrite drop_0.
  destruct (list_find (fun e' => en_seq e' = en_seq e) (st_live s)) as [[j e']|] eqn:Hf.
  - apply list_find_Some in Hf as (Hj & Hs & _). assert (j = i) as ->; [|done].
    eapply (NoDup_lookup _ _ _ (en_seq e) (co_distinct _ _ Hok)); rewrite list_lookup_fmap;
      [fold s; rewrite Hj; cbn; by f_equal|by rewrite Hi].
  - apply list_find_None in Hf. rewrite Forall_lookup in Hf. by destruct (Hf _ _ Hi).
Qed.

Lemma en_same_fields e e' : en_same e e' ->
  en_seq e' = en_seq e /\ en_valid e' = en_valid e /\ en_nreqs e' = en_nreqs e /\ en_requests e' = en_requests e /\
  en_ackDevIndex e' = en_ackDevIndex e /\ en_segments e' = en_segments e /\ en_lkeys e' = en_lkeys e.
Proof. intros ->. done. Qed.

Lemma entry_holds_same e e' r d : en_same e e' -> entry_holds e' r d = entry_holds e r d.
Proof. intros ->. done. Qed.

Lemma holds_insert l i e e' r d : l !! i = Some e -> en_same e e' -> holds (<[i := e']> l) r d = holds l r d.
Proof.
  revert i. induction l as [|a l IH]; intros [|i] Hi Hs; [done..| |]; cbn in Hi.
  - injection Hi as ->. cbn. by rewrite (entry_holds_same e e').
  - change (entry_holds a r d + holds (<[i := e']> l) r d = entry_holds a r d + holds l r d). by rewrite (IH i).
Qed.

(** Storing a changed entry. *)
Lemma cm_putEntry_spec c h h' i e e' :
  comm_ok c h -> st_live (cm_retrans c) !! i = Some e -> en_same e e' -> retrans_wf e' ->
  heap_frame h h' -> (forall r d, req_ev h r d <= req_ev h' r d) ->
  exists c', cm_putEntry c (Z.of_nat (ring_ix (st_bufferHead (cm_retrans c)) i)) e' = Some c' /\
    c' = cm_setRetrans c (st_setBuffer (cm_retrans c) (st_buffer (cm_retrans c'))) /\
    comm_ok c' h' /\ st_live (cm_retrans c') = <[i := e']> (st_live (cm_retrans c)).
Proof.
  intros Hok Hi Hs He' Hf Hge. pose proof (co_st _ _ Hok) as Hst. pose proof (so_ring _ _ _ Hst) as Hw.
  unfold cm_putEntry. rewrite arr_set_nat by (rewrite (rw_length _ Hw); apply ring_ix_bound).
  cbn [mbind option_bind]. eexists. split; [done|]. split; [done|].
  assert (Hlt : (i < Z.to_nat (st_bufferCount (cm_retrans c)))%nat).
  { apply lookup_lt_Some in Hi. unfold st_live in Hi. by rewrite length_ring_list in Hi. }
  assert (Hl : st_live (st_setBuffer (cm_retrans c)
      (<[ring_ix (st_bufferHead (cm_retrans c)) i:=e']> (st_buffer (cm_retrans c)))) = <[i := e']> (st_live (cm_retrans c))).
  { unfold st_live, st_setBuffer. cbn [st_setRing st_buffer st_bufferHead st_bufferCount].
    apply ring_list_update; [apply Hw|done|pose proof (rw_count _ Hw); lia]. }
  split; [|exact Hl]. destruct (en_same_fields e e' Hs) as (Hseq & Hval & Hn & Hrq & Hdev & _).
  split; try apply Hok.
  - split; [|apply Hst|].
    + split; [cbn; rewrite length_insert; apply Hw|apply Hw|apply Hw|apply Hw|].
      cbn [cm_setRetrans cm_retrans]. rewrite Hl. apply Forall_insert; [apply Hw|].
      rewrite Hval. exact (Forall_lookup_1 _ _ _ _ (rw_valid _ Hw) Hi).
    + intros Hib. cbn [cm_setRetrans cm_retrans]. rewrite Hl. destruct (so_holds _ _ _ Hst Hib) as [Hew Hho]. split.
      * apply Forall_insert; [done|]. pose proof (Forall_lookup_1 _ _ _ _ Hew Hi) as (E1 & E2 & E3 & E4).
        unfold entry_wf, entry_reqs in *. by rewrite Hn, Hrq, Hdev.
      * intros r d. rewrite (holds_insert _ _ e) by done. intros Hp. destruct (Hho r d Hp) as [Hsr Hle].
        split; [by eapply heap_frame_sendReq|]. specialize (Hge r d). lia.
  - cbn [cm_setRetrans cm_retrans]. rewrite Hl. apply Forall_insert; [apply Hok|done].
  - cbn [cm_setRetrans cm_retrans]. rewrite Hl, list_fmap_insert, Hseq.
    rewrite list_insert_id; [apply Hok|]. by rewrite list_lookup_fmap, Hi.
Qed.

Lemma hold_requests_spec n h c e dev (i : nat) :
  let pend := take n (drop i (en_requests e)) in
  length (cm_retransWindowRequests c) = 8%nat -> length (en_requests e) = 8%nat -> (i + n <= 8)%nat ->
  0 <= dev < FLAGCX_IB_MAX_DEVS_PER_NIC -> Forall (fun r => r <> 0 /\ sendReq h r) pend ->
  exists h' rs, hold_requests n h c e dev (Z.of_nat i)
      = Some (h', cm_setWindow c (cm_retransWindowNreqs c) (cm_retransWindowDevIndex c) rs) /\
    length rs = 8%nat /\ heap_frame h h' /\
    forall r d, req_ev h' r d = req_ev h r d + (if dev =? d then count_of r pend else 0).
Proof.
  revert h c i. induction n as [|n IH]; intros h c i pend Hlw Hlr Hi Hd Hr.
  - exists h, (cm_retransWindowRequests c). subst pend. rewrite take_0. split; [by destruct c|].
    split; [done|]. split; [apply heap_frame_refl|]. intros r d.
    change (count_of r []) with 0. destruct (dev =? d); lia.
  - destruct (lookup_lt_is_Some_2 (en_requests e) i) as [r Hri]; [lia|].
    assert (Hp : pend = r :: take n (drop (S i) (en_requests e))) by (subst pend; by rewrite (drop_S _ r i Hri)).
    rewrite Hp in *. inversion Hr as [|? ? [Hr0 Hsr] Hr']; subst.
    destruct (req_bump_spec h r dev 1 Hsr Hd) as (h1 & Hb & Hf1 & He1).
    cbn -[Z.of_nat req_bump]. rewrite arr_get_nat, Hri. cbn -[Z.of_nat req_bump].
    rewrite arr_set_nat by lia. cbn -[Z.of_nat req_bump]. rewrite (proj2 (Z.eqb_neq r 0)) by done.
    rewrite Hb. cbn -[Z.of_nat].
    replace (Z.of_nat i + 1) with (Z.of_nat (S i)) by lia.
    destruct (IH h1 (cm_setWindow c (cm_retransWindowNreqs c) (cm_retransWindowDevIndex c)
                (<[i := r]> (cm_retransWindowRequests c))) (S i)) as (h' & rs & Hrun & Hl & Hf & He); try done; try lia.
    { cbn. by rewrite length_insert. }
    { eapply Forall_impl; [exact Hr'|]. intros ? []. split; [done|by eapply heap_frame_sendReq]. }
    exists h', rs. split; [exact Hrun|]. split; [done|]. split; [by eapply heap_frame_trans|].
    intros r' d. rewrite He, He1, count_of_cons, (Z.eqb_sym d dev). destruct (r' =? r), (dev =? d); cbn; lia.
Qed.

(** The entry after [j] accepted work requests. *)
Definition advanced (e : flagcxIbRetransEntry) (ws : list retrans_wr) (j : nat) : flagcxIbRetransEntry :=
  match j with
  | O => e
  | S j' =>
      match ws !! j' with
      | Some w => en_setCursor e (wr_nextSegment w) (wr_nextOffset w) (wr_nextSegment w =? en_nreqs e)
      | None => e
      end
  end.

Definition stop_of (r : flagcxResult_t) : post_stop :=
  if bool_decide (r = flagcxInProgress) then PostBusy else PostError r.

Lemma advanced_cons e w ws j :
  advanced (en_setCursor e (wr_nextSegment w) (wr_nextOffset w) (wr_nextSegment w =? en_nreqs e)) ws j
  = advanced e (w :: ws) (S j) \/ (length ws < j)%nat.
Proof.
  destruct j as [|j]; [by left|].
  destruct (decide (length ws < S j)%nat) as [|Hlt]; [by right|left].
  destruct (lookup_lt_is_Some_2 ws j) as [w' Hw']; [lia|].
  unfold advanced. change ((w :: ws) !! S j) with (ws !! j). by rewrite Hw'.
Qed.

Lemma post_window_spec post dev ws k h c e :
  0 < en_nreqs e -> entry_wf e -> Forall (sendReq h) (entry_reqs e) ->
  length (cm_retransWindowRequests c) = 8%nat -> 0 <= dev < FLAGCX_IB_MAX_DEVS_PER_NIC ->
  exists j stop h1 n d rs,
    post_window post k ws h c e dev
    = Some (stop, (k + j)%nat, h1, cm_setOutstandingRetrans (cm_setWindow c n d rs) (cm_outstandingRetrans c + Z.of_nat j),
            advanced e ws j) /\
    (j <= length ws)%nat /\
    stop = (if bool_decide (j = length ws) then PostAll else stop_of (post (k + j)%nat)) /\
    (forall t, (t < j)%nat -> post (k + t)%nat = flagcxSuccess) /\
    ((j < length ws)%nat -> post (k + j)%nat <> flagcxSuccess) /\
    length rs = 8%nat /\ heap_frame h h1 /\
    forall r d, req_ev h1 r d = req_ev h r d +
      (if (0 <? j)%nat && ((cm_retransWindowNreqs c =? 0) && (dev =? d)) then count_of r (entry_reqs e) else 0).
Proof.
  revert k h c e. induction ws as [|w ws IH]; intros k h c e Hn He Hs Hlw Hd.
  { exists 0%nat, PostAll, h, (cm_retransWindowNreqs c), (cm_retransWindowDevIndex c), (cm_retransWindowRequests c).
    rewrite Nat.add_0_r. split; [cbn; rewrite Z.add_0_r; by destruct c|].
    split; [done|]. split; [done|]. split; [lia|]. split; [cbn; lia|]. split; [done|].
    split; [apply heap_frame_refl|]. intros. cbn. lia. }
  cbn [post_window].
  destruct (decide (post k = flagcxSuccess)) as [Hp|Hp].
  2: { exists 0%nat, (stop_of (post k)), h, (cm_retransWindowNreqs c), (cm_retransWindowDevIndex c), (cm_retransWindowRequests c).
       rewrite Nat.add_0_r. rewrite (bool_decide_eq_false_2 (0%nat = length (w :: ws))) by done. split.
       { unfold stop_of. destruct (bool_decide (post k = flagcxInProgress)); [cbn; rewrite Z.add_0_r; by destruct c|].
         rewrite (bool_decide_eq_false_2 (post k = flagcxSuccess)) by done. cbn. rewrite Z.add_0_r. by destruct c. }
       split; [lia|]. split; [done|]. split; [lia|]. split; [done|]. split; [done|].
       split; [apply heap_frame_refl|]. intros. cbn. lia. }
  rewrite Hp. cbn -[Z.of_nat hold_requests Z.modulo].
  set (h0 := if cm_retransWindowNreqs c =? 0 then _ else _).
  assert (Hhold : exists h1 n d rs, h0 = Some (h1, cm_setWindow c n d rs) /\ length rs = 8%nat /\ n <> 0 /\
      heap_frame h h1 /\ forall r d', req_ev h1 r d' = req_ev h r d' +
        (if (cm_retransWindowNreqs c =? 0) && (dev =? d') then count_of r (entry_reqs e) else 0)).
  { subst h0. destruct (Z.eqb_spec (cm_retransWindowNreqs c) 0) as [Hz|Hz].
    - destruct He as (He1 & He2 & He3 & He4).
      destruct (hold_requests_spec (Z.to_nat (en_nreqs e)) h
        (cm_setWindow c (en_nreqs e) (dev mod 256) (cm_retransWindowRequests c)) e dev 0) as (h1 & rs & Hrun & Hl & Hf & Hev);
        try done; try lia.
      { rewrite drop_0. unfold entry_reqs in *. rewrite Forall_forall in *. eauto. }
      change (Z.of_nat 0) with 0 in Hrun. rewrite Hrun. rewrite drop_0 in Hev.
      exists h1, (en_nreqs e), (dev mod 256), rs. split; [done|]. split; [done|]. split; [lia|]. split; [done|].
      intros. rewrite Hev. done.
    - exists h, (cm_retransWindowNreqs c), (cm_retransWindowDevIndex c), (cm_retransWindowRequests c).
      split; [by destruct c|]. split; [done|]. split; [done|]. split; [apply heap_frame_refl|]. intros. cbn. lia. }
  destruct Hhold as (h1 & n1 & d1 & rs1 & -> & Hl1 & Hn1 & Hf1 & Hev1). cbn [mbind option_bind].
  set (e1 := en_setCursor e _ _ _).
  destruct (IH (S k) h1 (cm_setOutstandingRetrans (cm_setWindow c n1 d1 rs1) (cm_outstandingRetrans c + 1)) e1)
    as (j & stop & h2 & n2 & d2 & rs2 & Hrun & Hj & Hstop & Hsucc & Hfail & Hl2 & Hf2 & Hev2); try done.
  { eapply Forall_impl; [exact Hs|]. intros ?. by apply heap_frame_sendReq. }
  exists (S j), stop, h2, n2, d2, rs2.
  rewrite Nat.add_succ_r. split.
  { change (cm_outstandingRetrans (cm_setWindow c n1 d1 rs1)) with (cm_outstandingRetrans c) in Hrun.
    replace (cm_outstandingRetrans c + Z.of_nat (S j)) with (cm_outstandingRetrans c + 1 + Z.of_nat j) by lia.
    destruct (advanced_cons e w ws j) as [<-|Hbad]; [|lia]. exact Hrun. }
  split; [cbn; lia|]. split.
  { rewrite Hstop. cbn [length]. destruct (decide (j = length ws)) as [->|Hne];
      [rewrite !bool_decide_eq_true_2 by done; done|rewrite !bool_decide_eq_false_2 by lia; done]. }
  split.
  { intros [|t] Ht; [by rewrite Nat.add_0_r|]. rewrite Nat.add_succ_r. apply (Hsucc t). lia. }
  split; [cbn; intros; apply Hfail; lia|]. split; [done|]. split; [by eapply heap_frame_trans|].
  intros r d'. rewrite Hev2, Hev1. cbn [cm_retransWindowNreqs cm_setOutstandingRetrans cm_setWindow].
  rewrite (proj2 (Z.eqb_neq n1 0)) by done. rewrite andb_false_r. cbn. lia.
Qed.

Lemma st_ok_heap s h h' :
  st_ok ibuc s h -> heap_frame h h' -> (forall r d, req_ev h r d <= req_ev h' r d) -> st_ok ibuc s h'.
Proof.
  intros [Hw Ha Ho] Hf Hge. split; [done..|]. intros Hi. destruct (Ho Hi) as [Hew Hh]. split; [done|].
  intros r d Hp. destruct (Hh r d Hp). split; [by eapply heap_frame_sendReq|]. specialize (Hge r d). lia.
Qed.

(** Changes outside the ring keep the communicator well formed. *)
Lemma comm_ok_outside c c' h h' :
  comm_ok c h -> cm_retrans c' = cm_retrans c -> cm_ndevs c' = cm_ndevs c -> cm_rcReady c' = cm_rcReady c ->
  cm_nqps c' = cm_nqps c -> cm_qps c' = cm_qps c -> length (cm_retransWindowRequests c') = 8%nat ->
  length (cm_hdrPool c') = 32%nat -> heap_frame h h' -> (forall r d, req_ev h r d <= req_ev h' r d) ->
  comm_ok c' h'.
Proof.
  intros Hok Hr Hn Hrd Hnq Hq Hw Hp Hf Hge. split; rewrite ?Hr, ?Hn, ?Hrd, ?Hnq, ?Hq; try apply Hok; try done.
  eapply st_ok_heap; [apply Hok|done..].
Qed.

Lemma comm_ok_counters c h s' :
  comm_ok c h -> let s := cm_retrans c in
  st_buffer s' = st_buffer s -> st_bufferHead s' = st_bufferHead s -> st_bufferTail s' = st_bufferTail s ->
  st_bufferCount s' = st_bufferCount s -> st_totalAcked s' = st_totalAcked s -> 0 <= st_retransQPIndex s' ->
  st_minRtoUs s' = st_minRtoUs s -> st_maxRtoUs s' = st_maxRtoUs s ->
  st_minRtoUs s' <= st_rtoUs s' <= st_maxRtoUs s' -> comm_ok (cm_setRetrans c s') h.
Proof.
  intros Hok s Hb Hh Ht Hc Ha Hq Hmin Hmax Hrto.
  assert (Hl : st_live s' = st_live s) by (unfold st_live; by rewrite Hb, Hh, Hc).
  pose proof (so_ring _ _ _ (co_st _ _ Hok)) as Hw.
  split; try apply Hok; cbn [cm_setRetrans cm_retrans]; rewrite ?Hl; try apply Hok.
  - eapply st_ok_frame; [apply Hok| | |exact Hl]; [|by rewrite Ha; apply (so_acked _ _ _ (co_st _ _ Hok))].
    split; [by rewrite Hb; apply Hw|by rewrite Hh; apply Hw|by rewrite Hc; apply Hw| |by rewrite Hl; apply Hw].
    rewrite Ht, Hh, Hc. apply Hw.
  - done.
  - destruct (co_rto _ _ Hok). fold s in H, H0. rewrite <-Hmax in H0. rewrite <-Hmin in H. lia.
Qed.

(** The effect of a resend on the communicator: the entry at [i] becomes
    [e'], every other part of the protocol state stays. *)
Record resent (c : flagcxIbSendComm) (h : ib_heap) (i : nat) (e : flagcxIbRetransEntry)
    (c' : flagcxIbSendComm) (h' : ib_heap) (e' : flagcxIbRetransEntry) : Prop := {
  rs_ok : comm_ok c' h';
  rs_live : st_live (cm_retrans c') = <[i := e']> (st_live (cm_retrans c));
  rs_same : en_same e e';
  rs_retry : en_retryCount e <= en_retryCount e' <= en_retryCount e + 1;
  rs_heap : heap_frame h h';
  rs_events : forall r d, req_ev h r d <= req_ev h' r d;
  rs_protocol : let s := cm_retrans c in let s' := cm_retrans c' in
    st_sendSeq s' = st_sendSeq s /\ st_sendUna s' = st_sendUna s /\ st_recvSeq s' = st_recvSeq s /\
    st_bufferHead s' = st_bufferHead s /\ st_bufferTail s' = st_bufferTail s /\ st_bufferCount s' = st_bufferCount s /\
    st_enabled s' = st_enabled s /\ st_totalAcked s' = st_totalAcked s;
  rs_timing : let s := cm_retrans c in let s' := cm_retrans c' in
    st_rtoUs s' = st_rtoUs s /\ st_minRtoUs s' = st_minRtoUs s /\ st_maxRtoUs s' = st_maxRtoUs s /\
    st_maxRetry s' = st_maxRetry s /\ st_totalTimeout s' = st_totalTimeout s
}.

Lemma en_same_refl e : en_same e e.
Proof. by destruct e. Qed.

Lemma resent_refl c h i e :
  comm_ok c h -> st_live (cm_retrans c) !! i = Some e -> resent c h i e c h e.
Proof.
  intros Hok Hi. split; [done|by rewrite list_insert_id|apply en_same_refl|lia|apply heap_frame_refl|done|done..].
Qed.

Lemma resend_rc_spec post now c h i e :
  ibuc = true -> comm_ok c h -> st_live (cm_retrans c) !! i = Some e -> 0 < en_nreqs e ->
  en_retransAllPosted e = false ->
  let idx := Z.of_nat (ring_ix (st_bufferHead (cm_retrans c)) i) in
  exists r c' h' e', resend_rc post now c h idx e = Some (r, c', h') /\ resent c h i e c' h' e' /\
    (r = flagcxSuccess -> cm_outstandingRetrans c <= 0 /\
       cm_outstandingRetrans c < cm_outstandingRetrans c' <= cm_outstandingRetrans c + 16 /\
       en_retryCount e' = en_retryCount e + (if (en_retransSegment e =? 0) && (en_retransOffset e =? 0) then 1 else 0) /\
       en_sendTimeUs e' = now) /\
    (r <> flagcxSuccess -> en_retryCount e' = en_retryCount e /\ en_sendTimeUs e' = en_sendTimeUs e).
Proof.
  intros Hib Hok Hi Hn Hall idx.
  assert (Hsame : forall r, r <> flagcxSuccess -> exists r' c' h' e', Some (r, c, h) = Some (r', c', h') /\ resent c h i e c' h' e' /\
    (r' = flagcxSuccess -> cm_outstandingRetrans c <= 0 /\
       cm_outstandingRetrans c < cm_outstandingRetrans c' <= cm_outstandingRetrans c + 16 /\
       en_retryCount e' = en_retryCount e + (if (en_retransSegment e =? 0) && (en_retransOffset e =? 0) then 1 else 0) /\
       en_sendTimeUs e' = now) /\
    (r' <> flagcxSuccess -> en_retryCount e' = en_retryCount e /\ en_sendTimeUs e' = en_sendTimeUs e)).
  { intros r Hr. exists r, c, h, e. split; [done|]. split; [by apply resent_refl|]. done. }
  unfold resend_rc. destruct (Z.ltb_spec 0 (cm_outstandingRetrans c)) as [Hout|Hout]; [by apply Hsame|].
  pose proof (co_ndevs _ _ Hok) as Hnd. rewrite (proj2 (Z.eqb_neq (cm_ndevs c) 0)) by lia.
  pose proof (Forall_lookup_1 _ _ _ _ (co_live _ _ Hok) Hi) as (Hsw & Hlk & Hdev & Hcur & Hnext).
  specialize (Hnext Hall Hn).
  set (dev := Z.rem (en_ackDevIndex e) (cm_ndevs c)).
  assert (Hd : 0 <= dev < FLAGCX_IB_MAX_DEVS_PER_NIC).
  { unfold dev. rewrite Z.rem_mod_nonneg by lia. pose proof (Z.mod_pos_bound (en_ackDevIndex e) (cm_ndevs c)). lia. }
  destruct (arr_get_some (cm_rcReady c) dev) as (rd & Hrd & _); [rewrite (co_ready _ _ Hok); lia|].
  rewrite Hrd. cbn [mbind option_bind]. destruct rd; cbn [negb]; [|by apply Hsame].
  destruct (build_window_spec e dev FLAGCX_IBUC_RETRANS_RECV_DEPTH _ _ Hsw Hcur Hd) as (ws & Hbw & Hfor & Hck).
  rewrite Hbw. cbn [mbind option_bind negb].
  assert (Hlen : (0 < length ws <= 16)%nat).
  { apply Forall2_length in Hfor. rewrite length_take in Hfor.
    assert (Hne : left_chunks e (en_retransSegment e) (en_retransOffset e) <> []).
    { destruct (arr_get_some (en_segments e) (en_retransSegment e)) as (g & Hg & _); [destruct Hsw, Hcur; lia|].
      pose proof (left_chunks_step e _ _ g Hsw Hcur Hnext Hg) as Hst. cbv zeta in Hst.
      destruct (after_chunk _ _ _ _). destruct Hst as [-> _]. done. }
    destruct (left_chunks _ _ _); [done|]. cbn [length] in Hfor. lia. }
  destruct (Nat.eqb_spec (length ws) 0); [lia|].
  set (c0 := cm_setHdrPool c _).
  assert (Hpool : length (cm_hdrPool c0) = 32%nat).
  { unfold c0. cbn [cm_setHdrPool cm_hdrPool]. rewrite length_app, length_fmap, length_drop, (co_pool _ _ Hok). lia. }
  assert (Hok0 : comm_ok c0 h) by (eapply comm_ok_outside; [exact Hok|done..|apply Hok|done|apply heap_frame_refl|done]).
  pose proof (co_st _ _ Hok) as Hst. destruct (so_holds _ _ _ Hst Hib) as [Hew Hho].
  pose proof (Forall_lookup_1 _ _ _ _ Hew Hi) as Hewf.
  assert (Hsr : Forall (sendReq h) (entry_reqs e)).
  { apply Forall_forall. intros r Hr. apply count_of_elem in Hr.
    destruct (Hho r (en_ackDevIndex e)) as [Hsr _]; [|done].
    pose proof (holds_lookup _ _ _ r (en_ackDevIndex e) Hi) as Hle.
    unfold entry_holds in Hle at 1. rewrite Z.eqb_refl in Hle. lia. }
  destruct (post_window_spec post dev ws 0 h c0 e Hn Hewf Hsr) as (j & stop & h1 & n1 & d1 & rs1 & Hrun & Hj & Hstop & Hsucc & Hfail & Hlrs & Hf1 & Hev1);
    [apply Hok|done|].
  rewrite Hrun. cbn [mbind option_bind]. clear Hrun.
  set (c1 := cm_setOutstandingRetrans _ _). set (e1 := advanced e ws j).
  assert (Hge1 : forall r d, req_ev h r d <= req_ev h1 r d).
  { intros r d. rewrite Hev1. pose proof (count_of_nonneg r (entry_reqs e)).
    match goal with |- context [if ?b then _ else _] => destruct b end; lia. }
  assert (Hok1 : comm_ok c1 h1) by (eapply comm_ok_outside; [exact Hok0|done..]).
  assert (Hi1 : st_live (cm_retrans c1) !! i = Some e) by exact Hi.
  assert (He1 : en_same e e1 /\ retrans_wf e1 /\ en_retryCount e1 = en_retryCount e /\ en_sendTimeUs e1 = en_sendTimeUs e).
  { unfold e1, advanced. destruct j as [|j']; [split; [apply en_same_refl|done]|].
    destruct (lookup_lt_is_Some_2 ws j') as [w Hw]; [lia|]. rewrite Hw. destruct (Hck _ _ Hw) as (Hcw & _ & _).
    split; [done|]. split; [|done]. split; [exact Hsw|]. split; [done|]. split; [done|]. split; [exact Hcw|].
    cbn. intros Hne _. destruct (proj1 Hcw). apply Z.eqb_neq in Hne. lia. }
  destruct He1 as (Hse1 & Hre1 & Hrt1 & Htm1).
  assert (Hfin : forall n t r, en_retryCount e <= n <= en_retryCount e + 1 -> exists c2,
    cm_putEntry c1 idx (en_setRetry e1 n t) = Some c2 /\ resent c h i e c2 h1 (en_setRetry e1 n t) /\
    cm_outstandingRetrans c2 = cm_outstandingRetrans c1 /\
    resent c h i e (if r : bool then cm_countRetrans c2 else c2) h1 (en_setRetry e1 n t)).
  { intros n2 t r Hn2. destruct (cm_putEntry_spec c1 h1 h1 i e (en_setRetry e1 n2 t)) as (c2 & Hp & Hfr & Hok2 & Hl2); try done.
    { by rewrite Hse1. }
    { apply heap_frame_refl. }
    exists c2. split; [exact Hp|].
    assert (Hres : resent c h i e c2 h1 (en_setRetry e1 n2 t)).
    { split; [done|exact Hl2|by rewrite Hse1|done|done|done| |]; rewrite Hfr; done. }
    split; [done|]. split; [by rewrite Hfr|]. destruct r; [|done].
    destruct Hres as [Ro Rl Rs Rr Rh Re Rp Rt]. split; try done.
    unfold cm_countRetrans. apply comm_ok_counters; try done; try apply Ro.
    destruct (co_rto _ _ Ro). cbn [st_setTotals st_minRtoUs st_rtoUs st_maxRtoUs]. lia. }
  assert (Hself : e1 = en_setRetry e1 (en_retryCount e) (en_sendTimeUs e))
    by (rewrite <-Hrt1, <-Htm1; by destruct e1).
  assert (Hput1 : exists c2, cm_putEntry c1 idx e1 = Some c2 /\ resent c h i e c2 h1 e1).
  { rewrite Hself. destruct (Hfin (en_retryCount e) (en_sendTimeUs e) false) as (c2 & Hp & Hr & _); [lia|eauto]. }
  destruct Hput1 as (c2 & Hput & Hres).
  destruct (bool_decide_reflect (j = length ws)) as [Hjall|Hjall]; subst stop.
  2: assert (Hfj : post j <> flagcxSuccess) by (apply Hfail; lia); unfold stop_of; cbn [Nat.add];
     destruct (bool_decide_reflect (post j = flagcxInProgress)) as [Hpr|Hpr].
  3: { rewrite Hput. cbn [mbind option_bind]. exists (post j), c2, h1, e1. split; [done|]. split; [done|]. by split. }
  1,2: cbn [Nat.add]; destruct (Nat.eqb_spec j 0) as [Hj0|Hj0].
  1: lia.
  2: { rewrite Hput. cbn [mbind option_bind]. exists flagcxInProgress, c2, h1, e1. split; [done|]. split; [done|]. by split. }
  1,2: set (fa := (en_retransSegment e =? 0) && (en_retransOffset e =? 0));
     destruct (Hfin (if fa then en_retryCount e + 1 else en_retryCount e) now fa) as (c3 & Hp3 & Hr3 & Ho3 & Hr3');
     [destruct fa; lia|]; rewrite Hrt1, Hp3; cbn [mbind option_bind];
     eexists flagcxSuccess, _, h1, _; (split; [done|]); (split; [exact Hr3'|]); (split; [|done]); intros _;
     (split; [done|]); (split; [|split; [cbn; destruct fa; lia|done]]);
     assert (Ho4 : cm_outstandingRetrans (if fa then cm_countRetrans c3 else c3) = cm_outstandingRetrans c1) by (by destruct fa);
     rewrite Ho4; unfold c1; cbn [cm_setOutstandingRetrans cm_outstandingRetrans];
     change (cm_outstandingRetrans c0) with (cm_outstandingRetrans c); lia.
Qed.

(** The completions that the legacy path polls fit its array. *)
Definition polls_fit (ev : ib_env) : Prop :=
  length (ev_junk ev) = 64%nat /\ (length (concat (ev_polls ev)) <= 64)%nat.

Lemma poll_loop_spec n polls wcs total :
  let '(wcs', total') := poll_loop n polls wcs total in
  length wcs = 64%nat -> length wcs' = 64%nat /\
  total <= total' <= total + Z.of_nat (length (concat polls)).
Proof.
  revert polls wcs total. induction n as [|n IH]; intros polls wcs total; cbn [poll_loop]; [intros; split; [done|lia]|].
  set (batch := take 64 (default [] (head polls))).
  assert (Hb : (length batch <= 64 /\ length batch + length (concat (tail polls)) <= length (concat polls))%nat).
  { unfold batch. rewrite length_take. destruct polls as [|p ps]; [cbn; lia|].
    cbn [head tail default]. change (concat (p :: ps)) with (p ++ concat ps). rewrite length_app.
    change (id p) with p. lia. }
  assert (Hlen : length wcs = 64%nat -> length (batch ++ drop (length batch) wcs) = 64%nat)
    by (intros; rewrite length_app, length_drop; lia).
  destruct (Nat.eqb_spec (length batch) 0) as [Hz|Hz].
  - intros Hw. split; [by apply Hlen|]. rewrite Hz. lia.
  - specialize (IH (tail polls) (batch ++ drop (length batch) wcs) (total + Z.of_nat (length batch))).
    destruct (poll_loop _ _ _ _) as [wcs' total']. intros Hw. destruct (IH (Hlen Hw)). split; [done|lia].
Qed.

Lemma count_retrans_some n wcs (i : nat) acc :
  (i + n <= length wcs)%nat -> exists k, count_retrans n wcs (Z.of_nat i) acc = Some k.
Proof.
  revert i acc. induction n as [|n IH]; intros i acc Hi; [by exists acc|].
  destruct (lookup_lt_is_Some_2 wcs i) as [w Hw]; [lia|].
  cbn -[Z.of_nat]. rewrite arr_get_nat, Hw. cbn -[Z.of_nat].
  replace (Z.of_nat i + 1) with (Z.of_nat (S i)) by lia. apply IH. lia.
Qed.

Lemma arr_get_none_or {A} (a : list A) i : 0 <= i < Z.of_nat (length a) -> arr_get a i <> None.
Proof. intros Hi. destruct (arr_get_some a i Hi) as (x & -> & _). done. Qed.

Lemma resend_send_spec ev c h i e :
  comm_ok c h -> polls_fit ev -> cm_hdrMr c = true -> st_live (cm_retrans c) !! i = Some e -> 0 <= en_seq e ->
  let idx := Z.of_nat (ring_ix (st_bufferHead (cm_retrans c)) i) in
  exists r c' h' e', resend_send (ev_post ev) (ev_polls ev) (ev_junk ev) (ev_cqExists ev) (ev_now ev) c h (en_seq e) idx e
      = Some (r, c', h') /\ resent c h i e c' h' e'.
Proof.
  intros Hok [Hjunk Hpolls] Hmr Hi Hq idx.
  assert (Hsame : forall r : flagcxResult_t, exists r' c' h' e', Some (r, c, h) = Some (r', c', h') /\ resent c h i e c' h' e').
  { intros r. exists r, c, h, e. split; [done|]. by apply resent_refl. }
  unfold resend_send. destruct (_ || _); [apply Hsame|].
  destruct (Z.leb_spec (cm_maxOutstanding c) (cm_outstandingSends c + cm_outstandingRetrans c)) as [Hm|Hm]; [apply Hsame|].
  pose proof (co_qps _ _ Hok) as Hqps. rewrite (proj2 (Z.eqb_neq (cm_nqps c) 0)) by lia. clear Hsame.
  assert (Hok1 : resent c h i e (cm_setRetrans c (st_setMisc (cm_retrans c) (st_enabled (cm_retrans c))
                   (st_retransQPIndex (cm_retrans c) + 1))) h e).
  { destruct (resent_refl c h i e Hok Hi) as [Ro Rl Rs Rr Rh Re Rp Rt]. split; try done.
    apply comm_ok_counters; try done; [pose proof (co_index _ _ Hok)|destruct (co_rto _ _ Hok)]; cbn; lia. }
  set (c1 := cm_setRetrans c _) in *.
  destruct (arr_get_some (cm_qps c) (Z.rem (st_retransQPIndex (cm_retrans c)) (cm_nqps c))) as (qp & Hqp & _).
  { rewrite Z.rem_mod_nonneg by (try apply Hok; lia).
    pose proof (Z.mod_pos_bound (st_retransQPIndex (cm_retrans c)) (cm_nqps c)). lia. }
  rewrite Hqp. cbn [mbind option_bind].
  assert (Hsame : forall r : flagcxResult_t, exists r' c' h' e', Some (r, c1, h) = Some (r', c', h') /\ resent c h i e c' h' e') by eauto 10.
  destruct qp as [dev|]; [|apply Hsame].
  destruct (Z.ltb_spec dev 0) as [Hd0|Hd0]; [apply Hsame|]. cbn [orb].
  destruct (Z.leb_spec (cm_ndevs c) dev) as [Hd1|Hd1]; [apply Hsame|]. rewrite Hmr. cbn [negb].
  pose proof (Forall_lookup_1 _ _ _ _ (co_live _ _ Hok) Hi) as (_ & Hlk & _).
  destruct (arr_get_some (en_lkeys e) dev) as (lk & Hlk' & _); [pose proof (co_ndevs _ _ Hok); lia|].
  rewrite Hlk'. cbn [mbind option_bind].
  assert (Hpi : 0 <= Z.rem (en_seq e) 32 < Z.of_nat (length (cm_hdrPool c1))).
  { change (cm_hdrPool c1) with (cm_hdrPool c). rewrite (co_pool _ _ Hok), Z.rem_mod_nonneg by lia.
    pose proof (Z.mod_pos_bound (en_seq e) 32). lia. }
  destruct (arr_get_some _ _ Hpi) as (hdr0 & Hh0 & _). rewrite Hh0. cbn [mbind option_bind].
  rewrite arr_set_some by done. cbn [mbind option_bind].
  set (c2 := cm_setHdrPool c1 _).
  assert (Hout : forall n, resent c h i e (cm_setOutstandingRetrans c2 n) h e).
  { intros n. destruct Hok1 as [Ro Rl Rs Rr Rh Re Rp Rt]. split; try done.
    eapply comm_ok_outside; [exact Ro|done..|apply Ro| |apply heap_frame_refl|done].
    cbn. rewrite length_insert. apply Hok. }
  assert (Hc2 : c2 = cm_setOutstandingRetrans c2 (cm_outstandingRetrans c2)) by done.
  assert (Hpost : exists result n, (if bool_decide (ev_post ev 0%nat = flagcxSuccess) then Some (flagcxSuccess, c2)
     else if ev_cqExists ev then
       let '(wcs, totalPolled) := poll_loop 8 (ev_polls ev) (ev_junk ev) 0 in
       if 0 <? totalPolled then
         n ← count_retrans (Z.to_nat totalPolled) wcs 0 0;
         Some (ev_post ev 1%nat, cm_setOutstandingRetrans c2 (cm_outstandingRetrans c2 - n))
       else Some (ev_post ev 0%nat, c2)
     else Some (ev_post ev 0%nat, c2)) = Some (result, cm_setOutstandingRetrans c2 n)).
  { destruct (bool_decide _); [by eexists _, (cm_outstandingRetrans c2)|].
    destruct (ev_cqExists ev); [|by eexists _, (cm_outstandingRetrans c2)].
    pose proof (poll_loop_spec 8 (ev_polls ev) (ev_junk ev) 0) as Hpl.
    destruct (poll_loop 8 (ev_polls ev) (ev_junk ev) 0) as [wcs total]. destruct (Hpl Hjunk) as [Hlw Htot].
    destruct (Z.ltb_spec 0 total); [|by eexists _, (cm_outstandingRetrans c2)].
    destruct (count_retrans_some (Z.to_nat total) wcs 0 0) as (k & Hk); [lia|].
    change (Z.of_nat 0) with 0 in Hk. rewrite Hk. cbn. by eexists _, _. }
  destruct Hpost as (result & n & ->). cbn [mbind option_bind].
  destruct (bool_decide (result = flagcxSuccess)); cbn [negb].
  2: { do 4 eexists. split; [done|apply Hout]. }
  destruct (Hout n) as [Ro Rl Rs Rr Rh Re Rp Rt].
  destruct (cm_putEntry_spec _ h h i e (en_setRetry e (en_retryCount e + 1) (ev_now ev)) Ro) as (c4 & Hp4 & Hfr & Hok4 & Hl4).
  { done. }
  { by destruct e. }
  { exact (Forall_lookup_1 _ _ _ _ (co_live _ _ Hok) Hi). }
  { apply heap_frame_refl. }
  { done. }
  change (st_bufferHead (cm_retrans (cm_setOutstandingRetrans c2 n))) with (st_bufferHead (cm_retrans c)) in Hp4.
  unfold idx. rewrite Hp4. cbn [mbind option_bind]. do 4 eexists. split; [done|].
  assert (Hres : resent c h i e c4 h (en_setRetry e (en_retryCount e + 1) (ev_now ev))).
  { split; [done|exact Hl4|by destruct e|cbn; lia|apply heap_frame_refl|done| |]; rewrite Hfr; done. }
  destruct Hres as [Ro' Rl' Rs' Rr' Rh' Re' Rp' Rt']. split; try done.
  assert (Hoc : comm_ok (cm_countRetrans c4) h).
  { unfold cm_countRetrans. apply comm_ok_counters; try done; try apply Ro'. destruct (co_rto _ _ Ro'). cbn. lia. }
  eapply comm_ok_outside; [exact Hoc|done..|apply Hoc|apply Hoc|apply heap_frame_refl|done].
Qed.

(** A header region exists where the build needs one. *)
Definition hdr_ready (c : flagcxIbSendComm) : Prop :=
  cm_hdrMr c = true \/ (ibuc = true /\ cm_retransUsesRc c = true /\
    Forall (fun e => 0 < en_nreqs e) (st_live (cm_retrans c))).

(** The entries that go over the RC queue pair. *)
Definition rc_entry (c : flagcxIbSendComm) (e : flagcxIbRetransEntry) : bool :=
  ibuc && (cm_retransUsesRc c && (0 <? en_nreqs e)).

Lemma Resend_spec ev c h i e :
  comm_ok c h -> polls_fit ev -> hdr_ready c -> st_enabled (cm_retrans c) = true ->
  st_live (cm_retrans c) !! i = Some e -> 0 <= en_seq e ->
  (rc_entry c e = true -> en_retransAllPosted e = false) ->
  exists r c' h' e', flagcxIbRetransResendViaSend ibuc ev c h (en_seq e) = Some (r, c', h') /\
    resent c h i e c' h' e'.
Proof.
  intros Hok Hp Hmr Hen Hi Hq Hap. unfold flagcxIbRetransResendViaSend. rewrite Hen. cbn [negb].
  assert (Hg : (if ibuc then negb (cm_retransUsesRc c) && negb (cm_hdrMr c) else negb (cm_hdrMr c)) = false).
  { destruct Hmr as [->|(-> & -> & _)]; [|done]. destruct ibuc; [by rewrite andb_false_r|done]. }
  rewrite Hg. rewrite (find_entry_live c h i e Hok Hi). cbn [mbind option_bind].
  rewrite (ring_ix_get _ i e (so_ring _ _ _ (co_st _ _ Hok)) Hi). cbn [mbind option_bind].
  change (ibuc && (cm_retransUsesRc c && (0 <? en_nreqs e))) with (rc_entry c e).
  destruct (rc_entry c e) eqn:Hrc.
  - unfold rc_entry in Hrc. apply andb_true_iff in Hrc as [Hib Hrc]. apply andb_true_iff in Hrc as [Hus Hn].
    apply Z.ltb_lt in Hn.
    destruct (resend_rc_spec (ev_post ev) (ev_now ev) c h i e Hib Hok Hi Hn (Hap eq_refl)) as (r & c' & h' & e' & Hr & Hres & _).
    eauto 10.
  - apply resend_send_spec; try done. destruct Hmr as [|(Hib & Hus & Hall)]; [done|exfalso].
    assert (Hn : 0 < en_nreqs e) by exact (Forall_lookup_1 _ _ _ _ Hall Hi). unfold rc_entry in Hrc. rewrite Hib, Hus in Hrc.
    cbn in Hrc. apply Z.ltb_ge in Hrc. lia.
Qed.

(** What makes an entry due for retransmission: an RC transfer that is not
    posted to its end, or a timeout. *)
Definition unfinished (c : flagcxIbSendComm) (e : flagcxIbRetransEntry) : bool :=
  rc_entry c e && negb (en_retransAllPosted e).
Definition due (c : flagcxIbSendComm) (now : Z) (e : flagcxIbRetransEntry) : bool :=
  unfinished c e || (st_rtoUs (cm_retrans c) <=? (now -u64 en_sendTimeUs e)).

(** The loop acts on the first due entry only. *)
Lemma timeout_loop_skip ev now c h n i e :
  ring_wf (cm_retrans c) -> st_live (cm_retrans c) !! i = Some e -> due c now e = false ->
  let hd := st_bufferHead (cm_retrans c) in
  timeout_loop ibuc ev now (S n) c h (Z.of_nat (ring_ix hd i))
  = timeout_loop ibuc ev now n c h (Z.of_nat (ring_ix hd (S i))).
Proof.
  intros Hw Hi Hd hd. subst hd. cbn [timeout_loop]. rewrite (ring_ix_get _ i e Hw Hi). cbn [mbind option_bind].
  rewrite (Forall_lookup_1 _ _ _ _ (rw_valid _ Hw) Hi). cbn [negb].
  unfold due, unfinished, rc_entry in Hd. apply orb_false_iff in Hd as [-> ->].
  by rewrite ring_ix_step by apply Hw.
Qed.

Lemma timeout_loop_find ev now c h n i :
  ring_wf (cm_retrans c) -> (i + n = length (st_live (cm_retrans c)))%nat ->
  let hd := st_bufferHead (cm_retrans c) in
  match list_find (fun e => due c now e = true) (drop i (st_live (cm_retrans c))) with
  | None => timeout_loop ibuc ev now n c h (Z.of_nat (ring_ix hd i)) = Some (flagcxSuccess, c, h)
  | Some (j, e) => exists n', timeout_loop ibuc ev now n c h (Z.of_nat (ring_ix hd i))
                   = timeout_loop ibuc ev now (S n') c h (Z.of_nat (ring_ix hd (i + j)))
  end.
Proof.
  intros Hw. revert i. induction n as [|n IH]; intros i Hi hd; subst hd.
  - rewrite drop_ge by lia. done.
  - destruct (lookup_lt_is_Some_2 (st_live (cm_retrans c)) i) as [e He]; [lia|].
    rewrite (drop_S _ e i He). cbn [list_find].
    destruct (decide (due c now e = true)) as [Hd|Hd].
    + exists n. by rewrite Nat.add_0_r.
    + apply not_true_is_false in Hd. specialize (IH (S i)). cbv zeta in IH.
      pose proof (timeout_loop_skip ev now c h n i e Hw He Hd) as Hskip. cbv zeta in Hskip.
      destruct (list_find _ (drop (S i) _)) as [[j e']|]; cbn -[timeout_loop].
      * destruct IH as [n' Hn']; [lia|]. exists n'. rewrite Hskip, Hn'. by rewrite Nat.add_succ_r.
      * rewrite Hskip. apply IH. lia.
Qed.

Lemma cursor_reset_wf e : retrans_wf e -> retrans_wf (en_setCursor e 0 0 false).
Proof.
  intros (Hs & Hl & Hd & _ & _). split; [exact Hs|]. split; [exact Hl|]. split; [exact Hd|].
  split; [|cbn; lia]. destruct Hs. split; [cbn; lia|by left].
Qed.

Lemma resent_trans c0 c1 c2 h0 h1 h2 i e0 e1 e2 :
  resent c0 h0 i e0 c1 h1 e1 -> en_retryCount e1 = en_retryCount e0 -> resent c1 h1 i e1 c2 h2 e2 ->
  resent c0 h0 i e0 c2 h2 e2.
Proof.
  intros [A1 A2 A3 A4 A5 A6 A7 A8] Hr [B1 B2 B3 B4 B5 B6 B7 B8]. split; try done.
  - by rewrite B2, A2, list_insert_insert_eq.
  - rewrite B3, A3. done.
  - lia.
  - by eapply heap_frame_trans.
  - intros r d. specialize (A6 r d). specialize (B6 r d). lia.
  - cbv zeta in *. destruct A7 as (?&?&?&?&?&?&?&?), B7 as (?&?&?&?&?&?&?&?). by repeat split; etrans.
  - cbv zeta in *. destruct A8 as (?&?&?&?&?), B8 as (?&?&?&?&?). by repeat split; etrans.
Qed.

(** What a call may do: nothing, or one step on one entry, after which the
    timeout may be doubled. *)
Record timed (c : flagcxIbSendComm) (h : ib_heap) (i : nat) (e : flagcxIbRetransEntry)
    (r : flagcxResult_t) (c' : flagcxIbSendComm) (h' : ib_heap) (e' : flagcxIbRetransEntry) : Prop := {
  td_ok : comm_ok c' h';
  td_live : st_live (cm_retrans c') = <[i := e']> (st_live (cm_retrans c));
  td_same : en_same e e';
  td_retry : en_retryCount e <= en_retryCount e' <= en_retryCount e + 1;
  td_heap : heap_frame h h';
  td_events : forall r d, req_ev h r d <= req_ev h' r d;
  td_protocol : let s := cm_retrans c in let s' := cm_retrans c' in
    st_sendSeq s' = st_sendSeq s /\ st_sendUna s' = st_sendUna s /\ st_recvSeq s' = st_recvSeq s /\
    st_bufferCount s' = st_bufferCount s /\ st_totalAcked s' = st_totalAcked s /\
    st_enabled s' = st_enabled s;
  td_rto : st_rtoUs (cm_retrans c') = st_rtoUs (cm_retrans c) \/
           st_rtoUs (cm_retrans c') = Z.min (2 * st_rtoUs (cm_retrans c)) (st_maxRtoUs (cm_retrans c))
}.

Lemma timed_of_resent c h i e r c' h' e' : resent c h i e c' h' e' -> timed c h i e r c' h' e'.
Proof.
  intros [A1 A2 A3 A4 A5 A6 A7 A8]. cbv zeta in *. split; try done; cbv zeta; naive_solver.
Qed.

Lemma timed_backoff c h i e c1 h1 e1 r :
  resent c h i e c1 h1 e1 ->
  let s1 := cm_retrans c1 in
  let s2 := st_setTotals s1 (st_totalSent s1) (st_totalRetrans s1) (st_totalAcked s1) (st_totalTimeout s1 +u64 1) in
  let rto := if st_maxRtoUs s2 <? (st_rtoUs s2 *u64 2) then st_maxRtoUs s2 else (st_rtoUs s2 *u64 2) in
  timed c h i e r (cm_setRetrans c1 (st_setRtt s2 rto (st_srttUs s2) (st_rttvarUs s2))) h1 e1.
Proof.
  intros [A1 A2 A3 A4 A5 A6 A7 A8] s1 s2 rto. cbv zeta in *.
  destruct A7 as (B1 & B2 & B3 & B4 & B5 & B6 & B7 & B8), A8 as (D1 & D2 & D3 & D4 & D5).
  destruct (co_rto _ _ A1) as [Hr1 Hr2]. fold s1 in Hr1, Hr2.
  assert (Hrto : rto = Z.min (2 * st_rtoUs (cm_retrans c)) (st_maxRtoUs (cm_retrans c)) /\
                 st_minRtoUs s1 <= rto <= st_maxRtoUs s1).
  { unfold rto. change (st_maxRtoUs s2) with (st_maxRtoUs s1). change (st_rtoUs s2) with (st_rtoUs s1).
    rewrite <-D1, <-D3. fold s1. rewrite (Z.mod_small (st_rtoUs s1 * 2)) by lia.
    destruct (Z.ltb_spec (st_maxRtoUs s1) (st_rtoUs s1 * 2)); lia. }
  destruct Hrto as [Hrto Hb]. split; try done.
  - apply comm_ok_counters; try done. apply A1.
  - by right.
Qed.

Lemma CheckTimeout_spec ev now c h :
  comm_ok c h -> polls_fit ev -> hdr_ready c -> st_enabled (cm_retrans c) = true ->
  Forall (fun e => 0 <= en_seq e) (st_live (cm_retrans c)) ->
  match list_find (fun e => due c now e = true) (st_live (cm_retrans c)) with
  | None => flagcxIbRetransCheckTimeout ibuc ev now c h = Some (flagcxSuccess, c, h)
  | Some (i, e) => exists r c' h' e',
      flagcxIbRetransCheckTimeout ibuc ev now c h = Some (r, c', h') /\ timed c h i e r c' h' e' /\
      (unfinished c e = false -> st_maxRetry (cm_retrans c) <= en_retryCount e ->
         r = flagcxRemoteError /\ c' = c /\ h' = h) /\
      (en_retryCount e' = en_retryCount e + 1 -> unfinished c e = true \/ en_retryCount e < st_maxRetry (cm_retrans c))
  end.
Proof.
  intros Hok Hp Hmr Hen Hseq. pose proof (co_st _ _ Hok) as Hst. pose proof (so_ring _ _ _ Hst) as Hw.
  unfold flagcxIbRetransCheckTimeout. rewrite Hen. cbn [negb].
  assert (Hlen : length (st_live (cm_retrans c)) = Z.to_nat (st_bufferCount (cm_retrans c)))
    by (unfold st_live; apply length_ring_list).
  destruct (Z.eqb_spec (st_bufferCount (cm_retrans c)) 0) as [Hz|Hz].
  { rewrite (st_live_nil _ Hw) by lia. done. }
  pose proof (timeout_loop_find ev now c h (Z.to_nat (st_bufferCount (cm_retrans c))) 0 Hw (eq_sym Hlen)) as Hfind.
  cbv zeta in Hfind. rewrite drop_0 in Hfind. rewrite ring_ix_0 in Hfind by apply Hw.
  rewrite Z2Nat.id in Hfind by apply Hw.
  destruct (list_find _ (st_live (cm_retrans c))) as [[i e]|] eqn:Hf; [|exact Hfind].
  apply list_find_Some in Hf as (Hi & Hdue & _). destruct Hfind as [n' ->]. cbn [Nat.add timeout_loop].
  rewrite (ring_ix_get _ i e Hw Hi). cbn [mbind option_bind].
  rewrite (Forall_lookup_1 _ _ _ _ (rw_valid _ Hw) Hi). cbn [negb].
  assert (Hq : 0 <= en_seq e) by exact (Forall_lookup_1 _ _ _ _ Hseq Hi).
  change (ibuc && (cm_retransUsesRc c && (0 <? en_nreqs e)) && negb (en_retransAllPosted e)) with (unfinished c e).
  change (ibuc && (cm_retransUsesRc c && (0 <? en_nreqs e))) with (rc_entry c e).
  destruct (unfinished c e) eqn:Hun.
  { destruct (Resend_spec ev c h i e Hok Hp Hmr Hen Hi Hq) as (r & c' & h' & e' & Hr & Hres).
    { intros _. unfold unfinished in Hun. apply andb_true_iff in Hun as [_ Hun]. by apply negb_true_iff in Hun. }
    rewrite Hr. cbn [mbind option_bind]. do 4 eexists. split; [done|].
    split; [by apply timed_of_resent|]. split; [done|]. intros _. by left. }
  unfold due in Hdue. rewrite Hun in Hdue. cbn [orb] in Hdue. rewrite Hdue.
  destruct (Z.leb_spec (st_maxRetry (cm_retrans c)) (en_retryCount e)) as [Hmax|Hmax].
  { exists flagcxRemoteError, c, h, e. split; [done|]. split; [by apply timed_of_resent, resent_refl|].
    split; [done|]. lia. }
  assert (Hno : forall P, st_maxRetry (cm_retrans c) <= en_retryCount e -> P) by (intros; lia).
  destruct (rc_entry c e && (0 <? cm_outstandingRetrans c)).
  { exists flagcxSuccess, c, h, e. split; [done|]. split; [by apply timed_of_resent, resent_refl|].
    split; [intros _; apply Hno|]. lia. }
  assert (Hc0 : exists c0 e0, (if rc_entry c e then cm_putEntry c (Z.of_nat (ring_ix (st_bufferHead (cm_retrans c)) i)) (en_setCursor e 0 0 false) else Some c) = Some c0 /\
      resent c h i e c0 h e0 /\ en_retryCount e0 = en_retryCount e /\ (rc_entry c e = true -> en_retransAllPosted e0 = false) /\
      hdr_ready c0 /\ st_enabled (cm_retrans c0) = true /\ (rc_entry c0 e0 = rc_entry c e)).
  { destruct (rc_entry c e) eqn:Hrc.
    - destruct (cm_putEntry_spec c h h i e (en_setCursor e 0 0 false) Hok Hi) as (c0 & Hput & Hfr & Hok0 & Hl0).
      { by destruct e. }
      { apply cursor_reset_wf. exact (Forall_lookup_1 _ _ _ _ (co_live _ _ Hok) Hi). }
      { apply heap_frame_refl. }
      { done. }
      exists c0, (en_setCursor e 0 0 false). split; [done|]. split.
      { split; [done|exact Hl0|by destruct e|cbn; lia|apply heap_frame_refl|done| |]; rewrite Hfr; done. }
      split; [done|]. split; [done|]. split.
      { destruct Hmr as [Hm|(Hm1 & Hm2 & Hm3)]; [left; by rewrite Hfr|right].
        split; [done|]. split; [by rewrite Hfr|]. rewrite Hl0. apply Forall_insert; [done|].
        exact (Forall_lookup_1 _ _ _ _ Hm3 Hi). }
      split; [by rewrite Hfr|]. unfold rc_entry in *. rewrite Hfr. exact Hrc.
    - exists c, e. split; [done|]. split; [by apply resent_refl|]. split; [done|]. split; [done|]. by split. }
  destruct Hc0 as (c0 & e0 & -> & Hr0 & Hn0 & Hall0 & Hm0 & Hen0 & Hrc0). cbn [mbind option_bind].
  assert (Hi0 : st_live (cm_retrans c0) !! i = Some e0).
  { rewrite (rs_live _ _ _ _ _ _ _ Hr0). apply list_lookup_insert_eq. by eapply lookup_lt_Some. }
  assert (Hs0 : en_seq e0 = en_seq e) by (destruct (en_same_fields _ _ (rs_same _ _ _ _ _ _ _ Hr0)); done).
  destruct (Resend_spec ev c0 h i e0 (rs_ok _ _ _ _ _ _ _ Hr0) Hp Hm0 Hen0 Hi0) as (r & c1 & h1 & e1 & Hr & Hres).
  { by rewrite Hs0. }
  { by rewrite Hrc0. }
  rewrite Hs0 in Hr. rewrite Hr. cbn [mbind option_bind].
  pose proof (resent_trans _ _ _ _ _ _ _ _ _ _ Hr0 Hn0 Hres) as Hres'.
  destruct (bool_decide (r = flagcxSuccess)); [|destruct (bool_decide (r = flagcxInProgress))];
    do 4 eexists; (split; [done|]);
    (split; [first [by apply timed_backoff|by apply timed_of_resent]|]); (split; [intros _; apply Hno|by right]).
Qed.
End ResendFacts.

(** a timeout check touches at most one entry.  With the verbs layer
    answering anything (within the completion array), the call is defined and
    keeps the communicator well formed; if no live entry is due nothing
    changes; otherwise only the oldest due entry does, its retry count grows by
    at most one and never beyond the limit unless a started attempt is being
    finished; an entry out of retries fails the operation and is not sent
    again; and the timeout either stays or doubles up to its maximum. *)
Theorem checkTimeout_spec (ibuc : bool) (ev : ib_env) (now : Z) (c : flagcxIbSendComm) (h : ib_heap)
    (Hok : comm_ok ibuc c h) (Hp : polls_fit ev) (Hmr : hdr_ready ibuc c)
    (Hen : st_enabled (cm_retrans c) = true)
    (Hseq : Forall (fun e => 0 <= en_seq e) (st_live (cm_retrans c))) :
  match list_find (fun e => due ibuc c now e = true) (st_live (cm_retrans c)) with
  | None => flagcxIbRetransCheckTimeout ibuc ev now c h = Some (flagcxSuccess, c, h)
  | Some (i, e) => exists r c' h' e',
      flagcxIbRetransCheckTimeout ibuc ev now c h = Some (r, c', h') /\
      comm_ok ibuc c' h' /\ heap_frame h h' /\
      st_live (cm_retrans c') = <[i := e']> (st_live (cm_retrans c)) /\ en_same e e' /\
      en_retryCount e <= en_retryCount e' <= en_retryCount e + 1 /\
      (en_retryCount e' = en_retryCount e + 1 -> unfinished ibuc c e = true \/ en_retryCount e < st_maxRetry (cm_retrans c)) /\
      (unfinished ibuc c e = false -> st_maxRetry (cm_retrans c) <= en_retryCount e ->
         r = flagcxRemoteError /\ c' = c /\ h' = h) /\
      st_sendUna (cm_retrans c') = st_sendUna (cm_retrans c) /\
      (st_rtoUs (cm_retrans c') = st_rtoUs (cm_retrans c) \/
       st_rtoUs (cm_retrans c') = Z.min (2 * st_rtoUs (cm_retrans c)) (st_maxRtoUs (cm_retrans c)))
  end.
Proof.
  pose proof (CheckTimeout_spec ibuc ev now c h Hok Hp Hmr Hen Hseq) as Hct.
  destruct (list_find _ _) as [[i e]|]; [|exact Hct].
  destruct Hct as (r & c' & h' & e' & Hr & [T1 T2 T3 T4 T5 T6 T7 T8] & Hrem & Hret).
  exists r, c', h', e'. cbv zeta in T7. naive_solver.
Qed.

(** A communicator with two packets in flight. *)
Definition demo_comm : flagcxIbSendComm :=
  MkSendComm demo_sender 2 0 16 false 0 0 (replicate 8 0) (replicate 32 (MkRetransHdr 0 0 0 0 0 0)) true
    1 1 [Some 0] [false; false].

Lemma demo_comm_ok : comm_ok false demo_comm ∅.
Proof.
  assert (Hl : st_live demo_sender = [demo_entry 0 1; demo_entry 1 2]) by reflexivity.
  assert (Hd : forall q t, retrans_wf (demo_entry q t)).
  { intros q t. split; [split; [cbn; lia|split; [reflexivity|]]|split; [reflexivity|split; [cbn; lia|split]]].
    - unfold demo_entry, is_u32. repeat constructor; cbn; lia.
    - split; [cbn; lia|by left].
    - cbn. lia. }
  split; cbn [demo_comm cm_retrans].
  - apply demo_sender_ok.
  - rewrite Hl. by repeat constructor.
  - rewrite Hl. cbn. by_deciding.
  - cbn. lia.
  - reflexivity.
  - reflexivity.
  - reflexivity.
  - cbn. lia.
  - cbn. lia.
  - vm_compute. by_deciding.
Qed.

Lemma checkTimeout_spec_witness :
  exists r c' h', flagcxIbRetransCheckTimeout false (MkIbEnv (fun _ => flagcxSuccess) [] (replicate 64 (0, false)) true 9000)
      6000 demo_comm ∅ = Some (r, c', h') /\ st_sendUna (cm_retrans c') = 0.
Proof.
  pose proof (checkTimeout_spec false (MkIbEnv (fun _ => flagcxSuccess) [] (replicate 64 (0, false)) true 9000)
      6000 demo_comm ∅ demo_comm_ok) as Hspec.
  assert (Hp : polls_fit (MkIbEnv (fun _ => flagcxSuccess) [] (replicate 64 (0, false)) true 9000))
    by (split; [reflexivity|cbn; lia]).
  assert (Hs : Forall (fun e => 0 <= en_seq e) (st_live (cm_retrans demo_comm))).
  { change (st_live (cm_retrans demo_comm)) with [demo_entry 0 1; demo_entry 1 2]. repeat constructor; cbn; lia. }
  specialize (Hspec Hp (or_introl eq_refl) eq_refl Hs).
  assert (Hf : list_find (fun e => due false demo_comm 6000 e = true) (st_live (cm_retrans demo_comm))
               = Some (0%nat, demo_entry 0 1)) by (vm_compute; reflexivity).
  rewrite Hf in Hspec. destruct Hspec as (r & c' & h' & e' & Hr & _ & _ & _ & _ & _ & _ & _ & Hu & _).
  exists r, c', h'. split; [exact Hr|]. rewrite Hu. reflexivity.
Defined.

(** Polls that return more completions than the array holds. *)
Lemma count_retrans_overrun n (i : nat) acc (wcs : list ib_wc) :
  (i <= length wcs < i + n)%nat -> count_retrans n wcs (Z.of_nat i) acc = None.
Proof.
  revert i acc. induction n as [|n IH]; intros i acc Hi; [lia|]. cbn -[Z.of_nat]. rewrite arr_get_nat.
  destruct (wcs !! i) as [w|] eqn:Hw; [|done]. cbn -[Z.of_nat].
  apply lookup_lt_Some in Hw.
  replace (Z.of_nat i + 1) with (Z.of_nat (S i)) by lia. apply IH. lia.
Qed.

Lemma poll_two_batches (junk b1 b2 : list ib_wc) :
  length junk = 64%nat -> length b1 = 64%nat -> (0 < length b2 <= 64)%nat ->
  exists wcs, poll_loop 8 [b1; b2] junk 0 = (wcs, 64 + Z.of_nat (length b2)) /\ length wcs = 64%nat.
Proof.
  intros Hj H1 H2. cbn [poll_loop]. change (default [] (head [b1; b2])) with b1.
  change (default [] (head (tail [b1; b2]))) with b2. change (default [] (head (tail (tail [b1; b2])))) with (@nil ib_wc).
  rewrite !(take_ge b1), !(take_ge b2), take_nil by lia.
  destruct (Nat.eqb_spec (length b1) 0); [lia|]. destruct (Nat.eqb_spec (length b2) 0); [lia|]. cbn [length Nat.eqb app].
  eexists. split; [f_equal; lia|]. rewrite drop_0, length_app, length_drop, length_app, length_drop. lia.
Qed.

(** The legacy resend overruns its completion array.  When the first
    post fails and polling returns a full batch of 64 completions followed by
    a non-empty one, the scan reads past the 64-entry array: the call has no
    defined result. *)
Theorem resend_overruns_wcs (junk b1 b2 : list ib_wc)
    (Hj : length junk = 64%nat) (H1 : length b1 = 64%nat) (H2 : (0 < length b2 <= 64)%nat) :
  flagcxIbRetransResendViaSend false
    (MkIbEnv (fun _ => flagcxInProgress) [b1; b2] junk true 9000) demo_comm ∅ 0 = None.
Proof.
  destruct (poll_two_batches junk b1 b2 Hj H1 H2) as (wcs & Hpoll & Hlen).
  unfold flagcxIbRetransResendViaSend. 
  assert (Hfind : find_entry (Z.to_nat (st_bufferCount (cm_retrans demo_comm))) (st_buffer (cm_retrans demo_comm))
      (st_bufferHead (cm_retrans demo_comm)) 0 = Some (Some 0)) by (vm_compute; reflexivity).
  assert (Hget : arr_get (st_buffer (cm_retrans demo_comm)) 0 = Some (demo_entry 0 1)) by (vm_compute; reflexivity).
  rewrite Hfind. cbn [mbind option_bind]. rewrite Hget. cbn [mbind option_bind].
  change (resend_send (fun _ => flagcxInProgress) [b1; b2] junk true 9000 demo_comm ∅ 0 0 (demo_entry 0 1) = None).
  unfold resend_send. rewrite Hpoll. rewrite (proj2 (Z.ltb_lt 0 (64 + Z.of_nat (length b2)))) by lia.
  assert (Hcr : count_retrans (Z.to_nat (64 + Z.of_nat (length b2))) wcs 0 0 = None)
    by (apply (count_retrans_overrun _ 0); lia).
  rewrite Hcr.
  set (pool := cm_hdrPool _).
  assert (Hpool : exists p, arr_set pool (Z.rem 0 32) (MkRetransHdr FLAGCX_RETRANS_MAGIC 0 64 0 8192 0) = Some p)
    by (vm_compute; eexists; reflexivity).
  destruct Hpool as [p Hpool].
  change (arr_get (cm_qps demo_comm) (Z.rem (st_retransQPIndex (cm_retrans demo_comm)) (cm_nqps demo_comm)))
    with (Some (Some 0)).
  change (arr_get pool (Z.rem 0 32)) with (Some (MkRetransHdr 0 0 0 0 0 0)).
  change (arr_get (en_lkeys (demo_entry 0 1)) 0) with (Some 1).
  cbn -[arr_set demo_comm pool]. change ([1; 2] !! Z.to_nat 0) with (Some 1). cbn [mbind option_bind].
  rewrite Hpool. reflexivity.
Qed.

Lemma resend_overruns_wcs_witness :
  flagcxIbRetransResendViaSend false
    (MkIbEnv (fun _ => flagcxInProgress) [replicate 64 (0, true); [(0, true)]] (replicate 64 (0, false)) true 9000)
    demo_comm ∅ 0 = None.
Proof. apply resend_overruns_wcs; cbn; lia. Defined.

(** ** The receiver *)

(** The number of set bits among the lowest [n]. *)
Fixpoint popcount (n : nat) (x : Z) : Z :=
  match n with O => 0 | S n' => x mod 2 + popcount n' (x / 2) end.

Lemma popcount_bounds n x : 0 <= popcount n x <= Z.of_nat n.
Proof. revert x. induction n as [|n IH]; intros x; cbn -[Z.of_nat]; [lia|]. specialize (IH (x / 2)). zlia. Qed.

Lemma popcount_0 n : popcount n 0 = 0.
Proof. induction n as [|n IH]; [done|]. change (0 mod 2 + popcount n (0 / 2) = 0). by rewrite Z.div_0_l, IH by done. Qed.

Lemma popcount_loop_spec fuel x cnt :
  0 <= x < 2 ^ Z.of_nat fuel -> 0 <= cnt -> cnt + Z.of_nat fuel < 65536 ->
  popcount_loop fuel x cnt = cnt + popcount fuel x.
Proof.
  revert x cnt. induction fuel as [|fuel IH]; intros x cnt Hx Hc Hb; [cbn; lia|].
  cbn [popcount_loop popcount]. destruct (Z.eqb_spec x 0) as [->|Hx0].
  - rewrite Z.div_0_l, popcount_0 by done. rewrite Z.mod_0_l by done. lia.
  - change (Z.land x 1) with (Z.land x (Z.ones 1)).
    rewrite (Z.land_ones x 1), Z.shiftr_div_pow2 by lia. change (2 ^ 1) with 2.
    pose proof (Z.mod_pos_bound x 2). rewrite (Z.mod_small (cnt + x mod 2)) by lia.
    rewrite Nat2Z.inj_succ, Z.pow_succ_r in Hx by lia.
    rewrite IH by first [lia | split; zlia]. lia.
Qed.

Section Receiver.
Variable ibuc : bool.
Abbreviation M := (seq_mod ibuc).

Lemma RecvPacket_spec (s : flagcxIbRetransState) (m : flagcxIbAckMsg) (R n now : Z)
    (Hen : st_enabled s = true) (HR : st_recvSeq s = R mod M)
    (Hlo : R - n <= seq_half ibuc) (Hhi : n - R < seq_half ibuc) :
  let '(ack, s', m') := flagcxIbRetransRecvPacket ibuc s (n mod M) m now in
  let R' := if n =? R then R + 1 else R in
  st_recvSeq s' = R' mod M /\
  (ack = true -> ack_ackSeq m' = (R' - 1) mod M /\ ack_timestampUs m' = now /\
                 st_lastAckSeq s' = R' mod M /\ st_lastAckSendTimeUs s' = now) /\
  (n <> R -> ack = true) /\ (ack = false -> m' = m) /\
  (0 < n - R < 64 -> is_u64 (ack_sackBitmap m) ->
     ack_sackBitmap m' = Z.lor (ack_sackBitmap m) (2 ^ (n - R - 1)) /\
     ack_sackBitmapCount m' = popcount 64 (ack_sackBitmap m')) /\
  (n <= R \/ 64 <= n - R -> ack_sackBitmap m' = ack_sackBitmap m) /\
  s' = st_setRecv s (st_recvSeq s') (st_lastAckSeq s') (st_lastAckSendTimeUs s').
Proof.
  pose proof (seq_half_bounds ibuc) as Hh. pose proof (seq_half_mod ibuc) as Hm.
  unfold flagcxIbRetransRecvPacket. rewrite Hen. cbn [negb].
  assert (Hack : forall x, Z.land (x mod M -u32 1) (FLAGCX_IB_RETRANS_SEQ_MASK ibuc) mod 65536 = (x - 1) mod M).
  { intros x. rewrite land_mask, u32_mod_seq, Zminus_mod_idemp_l.
    apply Z.mod_small. pose proof (Z.mod_pos_bound (x - 1) M). lia. }
  assert (Hnext : Z.land (st_recvSeq s +u32 1) (FLAGCX_IB_RETRANS_SEQ_MASK ibuc) = (R + 1) mod M).
  { by rewrite land_mask, u32_mod_seq, HR, Zplus_mod_idemp_l. }
  cbv zeta. rewrite Hnext, HR.
  destruct (Z.eqb_spec n R) as [->|Hne].
  - rewrite Z.eqb_refl.
    destruct ((_ <=? _) || _ || _); cbn [st_recvSeq st_setRecv st_lastAckSeq st_lastAckSendTimeUs ack_ackSeq
      ack_timestampUs ack_sackBitmap ack_sackBitmapCount]; rewrite ?Hack; split_and!; try done; lia.
  - assert (Hneq : n mod M <> R mod M).
    { intros He. assert (Hz : (n - R) mod M = 0) by (rewrite <-mod_diff, He by lia; by rewrite Z.sub_diag, Zmod_0_l).
      destruct (Z.ltb_spec n R).
      - rewrite <-(Z.mod_add (n - R) 1) in Hz by lia. rewrite Z.mod_small in Hz by lia. lia.
      - rewrite Z.mod_small in Hz by lia. lia. }
    rewrite (proj2 (Z.eqb_neq _ _)) by done.
    assert (Hless : flagcxIbSeqLess ibuc (n mod M) (R mod M) = (n <? R)).
    { pose proof (seqLeq_window ibuc n R Hlo Hhi) as Hw. unfold flagcxIbSeqLeq in Hw.
      rewrite (proj2 (Z.eqb_neq _ _)) in Hw by done. cbn [orb] in Hw. rewrite Hw. lia. }
    rewrite Hless. destruct (Z.ltb_spec n R) as [Hlt|Hge].
    + cbn [st_recvSeq st_setRecv st_lastAckSeq st_lastAckSendTimeUs ack_ackSeq
        ack_timestampUs ack_sackBitmap ack_sackBitmapCount]. rewrite HR, Hack. split_and!; try done; lia.
    + assert (Hgap : Z.land (n mod M -u32 (R mod M)) (FLAGCX_IB_RETRANS_SEQ_MASK ibuc) = n - R).
      { rewrite land_mask, u32_mod_seq, mod_diff by lia. apply Z.mod_small. lia. }
      rewrite Hgap. rewrite (proj2 (Z.ltb_lt 0 (n - R))) by lia. cbn [andb].
      destruct (Z.ltb_spec (n - R) 64) as [Hg|Hg];
        cbn [st_recvSeq st_setRecv st_lastAckSeq st_lastAckSendTimeUs ack_ackSeq
          ack_timestampUs ack_sackBitmap ack_sackBitmapCount]; rewrite HR, Hack; split_and!; try done; try lia.
      intros _ Hu. rewrite Z.shiftl_mul_pow2, Z.mul_1_l by lia. split; [done|].
      apply (popcount_loop_spec 64); try lia. split; [apply Z.lor_nonneg; unfold is_u64 in Hu; lia|].
      destruct (decide (Z.lor (ack_sackBitmap m) (2 ^ (n - R - 1)) = 0)) as [->|Hl0]; [lia|].
      apply Z.log2_lt_pow2; [pose proof (proj2 (Z.lor_nonneg (ack_sackBitmap m) (2 ^ (n - R - 1)))); unfold is_u64 in Hu; lia|].
      rewrite Z.log2_lor by (unfold is_u64 in Hu; lia). rewrite Z.log2_pow2 by lia.
      apply Z.max_lub_lt; [|lia]. destruct (decide (ack_sackBitmap m = 0)) as [->|Hb0]; [done|].
      apply Z.log2_lt_pow2; unfold is_u64 in Hu; [lia|]. change (2 ^ Z.of_nat 64) with U64_MOD. lia.
Qed.
(** the receiver accepts in order and acknowledges cumulatively.  Let
    [R] packets have been received in order and let packet number [n], less
    than half the number space away, arrive.  Only [n = R] advances the
    receiver; every duplicate and every early packet is acknowledged at once,
    and an acknowledgement always carries the last number received in order
    and the time it was built; an early packet within the next 63 numbers is
    recorded in the bitmap with its population count. *)
Theorem recvPacket_spec (s : flagcxIbRetransState) (m : flagcxIbAckMsg) (R n now : Z)
    (Hen : st_enabled s = true) (HR : st_recvSeq s = R mod M)
    (Hlo : R - n <= seq_half ibuc) (Hhi : n - R < seq_half ibuc) :
  let '(ack, s', m') := flagcxIbRetransRecvPacket ibuc s (n mod M) m now in
  let R' := if n =? R then R + 1 else R in
  st_recvSeq s' = R' mod M /\
  (ack = true -> ack_ackSeq m' = (R' - 1) mod M /\ ack_timestampUs m' = now /\
                 st_lastAckSeq s' = R' mod M /\ st_lastAckSendTimeUs s' = now) /\
  (n <> R -> ack = true) /\ (ack = false -> m' = m) /\
  (0 < n - R < 64 -> is_u64 (ack_sackBitmap m) ->
     ack_sackBitmap m' = Z.lor (ack_sackBitmap m) (2 ^ (n - R - 1)) /\
     ack_sackBitmapCount m' = popcount 64 (ack_sackBitmap m')) /\
  (n <= R \/ 64 <= n - R -> ack_sackBitmap m' = ack_sackBitmap m) /\
  s' = st_setRecv s (st_recvSeq s') (st_lastAckSeq s') (st_lastAckSendTimeUs s').
Proof. exact (RecvPacket_spec s m R n now Hen HR Hlo Hhi). Qed.
End Receiver.

Lemma recvPacket_spec_witness :
  let '(ack, s', m') := flagcxIbRetransRecvPacket true (flagcxIbRetransInit 1 5000 10 16 true 0) 2
                          (MkAckMsg 0 0 0 0 0 0 0) 50 in
  ack = true /\ st_recvSeq s' = 0 /\ ack_sackBitmap m' = 2 /\ ack_sackBitmapCount m' = 1 /\ ack_ackSeq m' = 4095.
Proof.
  pose proof (recvPacket_spec true (flagcxIbRetransInit 1 5000 10 16 true 0) (MkAckMsg 0 0 0 0 0 0 0) 0 2 50
    eq_refl eq_refl) as Hspec.
  change (2 mod seq_mod true) with 2 in Hspec. cbn [Z.eqb] in Hspec.
  destruct (flagcxIbRetransRecvPacket _ _ _ _ _) as [[ack s'] m']. 
  destruct Hspec as (Hr & Ha & Hn & _ & Hb & _); [cbn; lia|cbn; lia|].
  assert (Hack : ack = true) by (apply Hn; lia). destruct (Ha Hack) as (Hq & _).
  destruct Hb as (Hbm & Hc); [lia|cbn; unfold is_u64; lia|].
  split; [exact Hack|]. split; [exact Hr|]. rewrite Hc, Hbm. split; [reflexivity|]. split; [reflexivity|exact Hq].
Defined.
