(* ===== verification/IbProtocol.v ===== *)
(** The two ends of an InfiniBand connection with retransmission
    ([IbRetrans]), joined by a network that may lose, duplicate, reorder and
    delay both data and acknowledgements.

    The wrapped 32-bit fields are the code's; unbounded counters are kept beside
    them: [S] packets were sent, the first [R] of them were received in order,
    and the ring of the sender begins with packet [U], the ones before it being
    retired or, [drops] of them, dropped by a sender whose ring was full.

    What is asked of the network, as long as nothing was dropped, is that
    nothing is delayed by more than half the number space.  On the wire are the
    packets that were sent and those that [flagcxIbRetransCheckTimeout] posted
    again, and no others. *)
From S2P Require Import Prelude Flagcx Arrays IbRetrans.

(** The adaptors take a number before they post ([ibrc] line 2690, [ibuc] line 2143). *)
Definition take_seq (ibuc : bool) (s : flagcxIbRetransState) : Z * flagcxIbRetransState :=
  (st_sendSeq s,
   MkRetransState (Z.land (st_sendSeq s +u32 1) (FLAGCX_IB_RETRANS_SEQ_MASK ibuc)) (st_sendUna s) (st_recvSeq s)
     (st_buffer s) (st_bufferHead s) (st_bufferTail s) (st_bufferCount s) (st_lastAckTimeUs s)
     (st_rtoUs s) (st_srttUs s) (st_rttvarUs s) (st_totalSent s) (st_totalRetrans s)
     (st_totalAcked s) (st_totalTimeout s) (st_enabled s) (st_maxRetry s) (st_ackInterval s)
     (st_minRtoUs s) (st_maxRtoUs s) (st_retransQPIndex s) (st_lastAckSeq s) (st_lastAckSendTimeUs s)).

Section Protocol.
Variable ibuc : bool.
Abbreviation M := (seq_mod ibuc).

Record proto := MkProto {
  pr_comm : flagcxIbSendComm;
  pr_heap : ib_heap;
  pr_recv : flagcxIbRetransState;
  pr_S : Z;
  pr_R : Z;
  pr_U : Z;
  pr_drops : Z;
  pr_data : list Z;                       (* numbers of the packets on the wire *)
  pr_acks : list (Z * flagcxIbAckMsg)     (* the acknowledgements on the wire, with the last number they cover *)
}.

(** Whether a timeout check posted an entry again, to its end: a legacy packet
    is counted, a batch is posted window by window. *)
Definition sent_again (c : flagcxIbSendComm) (e e' : flagcxIbRetransEntry) : bool :=
  if rc_entry ibuc c e then en_retransAllPosted e' && (negb (en_retransAllPosted e) || (en_retryCount e <? en_retryCount e'))
  else en_retryCount e <? en_retryCount e'.

(** The numbers of the packets it posted, [U] being that of the first entry. *)
Definition sent_again_at (c c' : flagcxIbSendComm) (i : nat) : bool :=
  match st_live (cm_retrans c) !! i, st_live (cm_retrans c') !! i with
  | Some e, Some e' => sent_again c e e'
  | _, _ => false
  end.
Definition resends (U : Z) (c c' : flagcxIbSendComm) : list Z :=
  (fun i => U + Z.of_nat i) <$>
    filter (fun i => sent_again_at c c' i = true) (seq 0 (length (st_live (cm_retrans c)))).

(** The sends and the retransmissions in flight, as the adaptors count them. *)
Definition cm_setOutstanding (c : flagcxIbSendComm) (sends retrans : Z) : flagcxIbSendComm :=
  MkSendComm (cm_retrans c) sends retrans (cm_maxOutstanding c)
    (cm_retransUsesRc c) (cm_retransWindowNreqs c) (cm_retransWindowDevIndex c)
    (cm_retransWindowRequests c) (cm_hdrPool c) (cm_hdrMr c) (cm_ndevs c) (cm_nqps c) (cm_qps c) (cm_rcReady c).

Inductive proto_step : proto -> proto -> Prop :=
| ps_send_packet p q s1 s2 size data addr lkeys now :
    ibuc = false -> length lkeys = 2%nat -> take_seq ibuc (cm_retrans (pr_comm p)) = (q, s1) ->
    flagcxIbRetransAddPacket s1 q size data addr (Some lkeys) None now = Some (flagcxSuccess, s2) ->
    let dropped := if FLAGCX_IB_RETRANS_MAX_INFLIGHT <=? st_bufferCount (cm_retrans (pr_comm p)) then 1 else 0 in
    proto_step p (MkProto (cm_setRetrans (pr_comm p) s2) (pr_heap p) (pr_recv p) (pr_S p + 1) (pr_R p) (pr_U p + dropped) (pr_drops p + dropped)
                    (pr_S p :: pr_data p) (pr_acks p))
| ps_send_batch p q s1 s2 h2 slot gen dev nreqs reqs now :
    ibuc = true -> take_seq ibuc (cm_retrans (pr_comm p)) = (q, s1) ->
    0 < nreqs <= FLAGCX_NET_IB_MAX_RECVS -> 0 <= dev < FLAGCX_IB_MAX_DEVS_PER_NIC -> Z.of_nat (length reqs) = nreqs ->
    Forall (fun r => r <> 0 -> is_Some (pr_heap p !! r)) reqs ->
    flagcxIbRetransAddBatch s1 (pr_heap p) q slot gen dev nreqs (Some reqs) now = Some (flagcxSuccess, s2, h2) ->
    proto_step p (MkProto (cm_setRetrans (pr_comm p) s2) h2 (pr_recv p) (pr_S p + 1) (pr_R p) (pr_U p) (pr_drops p)
                    (pr_S p :: pr_data p) (pr_acks p))
| ps_requests p h2 :
    (* the adaptor creates, progresses and completes requests that no entry holds *)
    (forall r q, h2 !! r = Some q -> length (rq_events q) = 2%nat /\ length (rq_sendLkeys q) = 2%nat) ->
    (forall r d, 0 <= req_ev h2 r d) ->
    (ibuc = true -> holds_ok h2 (st_live (cm_retrans (pr_comm p)))) ->
    proto_step p (MkProto (pr_comm p) h2 (pr_recv p) (pr_S p) (pr_R p) (pr_U p) (pr_drops p) (pr_data p) (pr_acks p))
| ps_counters p sends retrans :
    (* the adaptor posts data and polls completions *)
    0 <= sends -> 0 <= retrans ->
    proto_step p (MkProto (cm_setOutstanding (pr_comm p) sends retrans) (pr_heap p) (pr_recv p) (pr_S p) (pr_R p) (pr_U p) (pr_drops p) (pr_data p) (pr_acks p))
| ps_timeout p ev now r c' h' :
    polls_fit ev -> hdr_ready ibuc (pr_comm p) ->
    flagcxIbRetransCheckTimeout ibuc ev now (pr_comm p) (pr_heap p) = Some (r, c', h') ->
    proto_step p (MkProto c' h' (pr_recv p) (pr_S p) (pr_R p) (pr_U p) (pr_drops p) (resends (pr_U p) (pr_comm p) c' ++ pr_data p) (pr_acks p))
| ps_lose p data acks :
    data ⊆ pr_data p -> acks ⊆ pr_acks p ->
    proto_step p (MkProto (pr_comm p) (pr_heap p) (pr_recv p) (pr_S p) (pr_R p) (pr_U p) (pr_drops p) data acks)
| ps_receive p n m ack s' m' now :
    n ∈ pr_data p -> (pr_drops p = 0 -> pr_R p - n <= seq_half ibuc) ->
    flagcxIbRetransRecvPacket ibuc (pr_recv p) (n mod M) m now = (ack, s', m') ->
    let R' := if n =? pr_R p then pr_R p + 1 else pr_R p in
    proto_step p (MkProto (pr_comm p) (pr_heap p) s' (pr_S p) R' (pr_U p) (pr_drops p) (pr_data p)
                    (if ack then (R' - 1, m') :: pr_acks p else pr_acks p))
| ps_ack p a m r s' h' now :
    (a, m) ∈ pr_acks p -> (pr_drops p = 0 -> pr_U p - a < seq_half ibuc) ->
    flagcxIbRetransProcessAck ibuc (cm_retrans (pr_comm p)) (pr_heap p) (Some m) now = Some (r, s', h') ->
    proto_step p (MkProto (cm_setRetrans (pr_comm p) s') h' (pr_recv p) (pr_S p) (pr_R p)
                    (pr_U p + (st_bufferCount (cm_retrans (pr_comm p)) - st_bufferCount s')) (pr_drops p) (pr_data p) (pr_acks p)).

(** The numbers of [n] consecutive packets from [U] on, as the code stores them. *)
Definition wrapped (U : Z) (n : nat) : list Z := (fun i => (U + Z.of_nat i) mod M) <$> seq 0 n.

(** As long as nothing was dropped: what was retired was received, and the
    fields and the acknowledgements say so. *)
Record delivered (p : proto) : Prop := {
  pd_order : pr_U p <= pr_R p <= pr_S p;
  pd_una : st_sendUna (cm_retrans (pr_comm p)) = pr_U p mod M;
  pd_recv : st_recvSeq (pr_recv p) = pr_R p mod M;
  pd_acks : Forall (fun am => am.1 < pr_R p /\ ack_ackSeq am.2 = am.1 mod M) (pr_acks p)
}.

Record proto_inv (p : proto) : Prop := {
  pi_comm : comm_ok ibuc (pr_comm p) (pr_heap p);
  pi_low : 0 <= pr_U p <= pr_S p;
  pi_ring : en_seq <$> st_live (cm_retrans (pr_comm p)) = wrapped (pr_U p) (Z.to_nat (pr_S p - pr_U p));
  pi_next : st_sendSeq (cm_retrans (pr_comm p)) = pr_S p mod M;
  pi_enabled : st_enabled (cm_retrans (pr_comm p)) = true /\ st_enabled (pr_recv p) = true;
  pi_data : Forall (fun n => n < pr_S p) (pr_data p);
  pi_heap : (forall r q, pr_heap p !! r = Some q -> length (rq_events q) = 2%nat /\ length (rq_sendLkeys q) = 2%nat) /\
            (forall r d, 0 <= req_ev (pr_heap p) r d);
  pi_drops : 0 <= pr_drops p /\ (ibuc = true -> pr_drops p = 0) /\ (0 < pr_drops p -> FLAGCX_IB_RETRANS_MAX_INFLIGHT < pr_S p);
  pi_delivered : pr_drops p = 0 -> delivered p
}.

Lemma wrapped_lookup U n i x : wrapped U n !! i = Some x -> x = (U + Z.of_nat i) mod M /\ (i < n)%nat.
Proof.
  unfold wrapped. rewrite list_lookup_fmap. intros (j & Hj & ->)%fmap_Some.
  apply lookup_seq in Hj as [-> Hj]. done.
Qed.

Lemma wrapped_some U n i : (i < n)%nat -> wrapped U n !! i = Some ((U + Z.of_nat i) mod M).
Proof. intros. unfold wrapped. by rewrite list_lookup_fmap, lookup_seq_lt by done. Qed.

Lemma length_wrapped U n : length (wrapped U n) = n.
Proof. unfold wrapped. by rewrite length_fmap, length_seq. Qed.

Lemma wrapped_snoc U n : wrapped U n ++ [(U + Z.of_nat n) mod M] = wrapped U (S n).
Proof. unfold wrapped. by rewrite seq_S, fmap_app. Qed.

Lemma wrapped_app U n m : wrapped U (n + m) = wrapped U n ++ wrapped (U + Z.of_nat n) m.
Proof.
  unfold wrapped. rewrite seq_app, fmap_app. f_equal.
  apply list_eq. intros i. rewrite !list_lookup_fmap.
  destruct (decide (i < m)%nat).
  - rewrite !lookup_seq_lt by done. cbn. do 2 f_equal. lia.
  - by rewrite !lookup_seq_ge by lia.
Qed.

Lemma drop_wrapped U n d : drop d (wrapped U n) = wrapped (U + Z.of_nat d) (n - d).
Proof.
  destruct (decide (d <= n)%nat).
  - replace n with (d + (n - d))%nat at 1 by lia. rewrite wrapped_app. apply drop_app_length'. by rewrite length_wrapped.
  - rewrite drop_ge by (rewrite length_wrapped; lia). by replace (n - d)%nat with 0%nat by lia.
Qed.

Lemma wrapped_nodup U n : (n <= 2048)%nat -> NoDup (wrapped U n).
Proof.
  intros Hn. apply NoDup_alt. intros i j x Hi Hj.
  apply wrapped_lookup in Hi as [-> Hi]. apply wrapped_lookup in Hj as [Hx Hj].
  pose proof (seq_half_bounds ibuc). pose proof (seq_half_mod ibuc).
  assert (Hd : (Z.of_nat i - Z.of_nat j) mod M = 0).
  { replace (Z.of_nat i - Z.of_nat j) with ((U + Z.of_nat i) - (U + Z.of_nat j)) by lia.
    rewrite <-mod_diff, Hx by lia. by rewrite Z.sub_diag, Zmod_0_l. }
  destruct (lt_eq_lt_dec i j) as [[Hlt|]|Hgt]; [|done|].
  - rewrite <-(Z.mod_add _ 1) in Hd by lia. rewrite Z.mod_small in Hd by lia. lia.
  - rewrite Z.mod_small in Hd by lia. lia.
Qed.

Lemma wrapped_range U n : Forall (fun x => 0 <= x) (wrapped U n).
Proof.
  apply Forall_lookup. intros i x Hx. apply wrapped_lookup in Hx as [-> _].
  pose proof (seq_half_bounds ibuc). pose proof (seq_half_mod ibuc).
  pose proof (Z.mod_pos_bound (U + Z.of_nat i) M). lia.
Qed.

(** A sender that has read a batch of entries. *)
Lemma pi_count p : proto_inv p -> pr_S p - pr_U p = st_bufferCount (cm_retrans (pr_comm p)) /\
  0 <= pr_S p - pr_U p <= 2048.
Proof.
  intros Hi. pose proof (f_equal length (pi_ring _ Hi)) as Hl. rewrite length_fmap, length_wrapped in Hl.
  unfold st_live in Hl. rewrite length_ring_list in Hl.
  pose proof (rw_count _ (so_ring _ _ _ (co_st _ _ _ (pi_comm _ Hi)))). pose proof (pi_low _ Hi). lia.
Qed.

(** A new ring in a well-formed communicator. *)
Lemma comm_ok_ring c h s' h' :
  comm_ok ibuc c h -> st_ok ibuc s' h' -> Forall retrans_wf (st_live s') -> NoDup (en_seq <$> st_live s') ->
  st_retransQPIndex s' = st_retransQPIndex (cm_retrans c) ->
  st_minRtoUs s' = st_minRtoUs (cm_retrans c) -> st_maxRtoUs s' = st_maxRtoUs (cm_retrans c) ->
  st_minRtoUs s' <= st_rtoUs s' <= st_maxRtoUs s' -> comm_ok ibuc (cm_setRetrans c s') h'.
Proof.
  intros Hok Hst Hl Hnd Hq Hmin Hmax Hr. destruct (co_rto _ _ _ Hok) as [Hr1 Hr2].
  split; cbn [cm_setRetrans cm_retrans cm_ndevs cm_rcReady cm_retransWindowRequests cm_hdrPool cm_qps cm_nqps];
    try apply Hok; try done.
  - rewrite Hq. apply Hok.
  - rewrite Hmin, Hmax in *. lia.
Qed.

Lemma take_seq_spec c h q s1 :
  comm_ok ibuc c h -> take_seq ibuc (cm_retrans c) = (q, s1) ->
  st_ok ibuc s1 h /\ st_live s1 = st_live (cm_retrans c) /\ q = st_sendSeq (cm_retrans c).
Proof.
  intros Hok [= <- <-]. split; [|done].
  destruct (co_st _ _ _ Hok) as [[W1 W2 W3 W4 W5] Ha Hh]. split; [split; done|done|done].
Qed.

(** One more entry, [d] being how many the full ring of a legacy sender loses. *)
Lemma inv_send p q s1 s2 h2 e (d : nat) :
  proto_inv p -> take_seq ibuc (cm_retrans (pr_comm p)) = (q, s1) ->
  (d = 0%nat \/ d = 1%nat /\ ibuc = false /\ st_bufferCount s1 = 2048) ->
  ring_wf s2 -> st_live s2 = drop d (st_live s1) ++ [e] ->
  s2 = st_setTotals (st_setRing s1 (st_buffer s2) (st_bufferHead s2) (st_bufferTail s2) (st_bufferCount s2))
         (st_totalSent s1 +u64 1) (st_totalRetrans s1) (st_totalAcked s1) (st_totalTimeout s1) ->
  en_seq e = q -> retrans_wf e -> st_ok ibuc s2 h2 ->
  (forall r q', h2 !! r = Some q' -> length (rq_events q') = 2%nat /\ length (rq_sendLkeys q') = 2%nat) ->
  (forall r d, 0 <= req_ev h2 r d) ->
  proto_inv (MkProto (cm_setRetrans (pr_comm p) s2) h2 (pr_recv p) (pr_S p + 1) (pr_R p) (pr_U p + Z.of_nat d)
               (pr_drops p + Z.of_nat d) (pr_S p :: pr_data p) (pr_acks p)).
Proof.
  intros Hi Hts Hd Hw2 Hl2 Hfr Hq Hre Hst Hh1 Hh2.
  destruct (take_seq_spec _ _ _ _ (pi_comm _ Hi) Hts) as (_ & Hl1 & Hqs).
  destruct (pi_count _ Hi) as [Hcnt Hb]. pose proof (pi_low _ Hi) as Ho. pose proof (pi_drops _ Hi) as (Hd0 & Hdi & Hds).
  injection Hts as Hqq Hs1.
  assert (Hfull : d = 0%nat \/ d = 1%nat /\ ibuc = false /\ pr_S p - pr_U p = 2048).
  { destruct Hd as [|(-> & -> & Hf)]; [by left|right]. rewrite <-Hs1 in Hf. cbn in Hf. split; [done|]. split; [done|lia]. }
  assert (Hring : en_seq <$> st_live s2 = wrapped (pr_U p + Z.of_nat d) (Z.to_nat (pr_S p + 1 - (pr_U p + Z.of_nat d)))).
  { rewrite Hl2, Hl1, fmap_app, fmap_drop, (pi_ring _ Hi). cbn [fmap list_fmap].
    replace (Z.to_nat (pr_S p + 1 - (pr_U p + Z.of_nat d))) with (S (Z.to_nat (pr_S p - pr_U p - Z.of_nat d))) by lia.
    rewrite <-wrapped_snoc, drop_wrapped. f_equal; [f_equal; lia|]. f_equal. rewrite Hq, Hqs, (pi_next _ Hi). f_equal. lia. }
  assert (Hcnt2 : length (st_live s2) = Z.to_nat (pr_S p + 1 - (pr_U p + Z.of_nat d))).
  { apply (f_equal length) in Hring. by rewrite length_fmap, length_wrapped in Hring. }
  unfold st_live in Hcnt2. rewrite length_ring_list in Hcnt2.
  pose proof (rw_count _ Hw2) as Hcw.
  split; cbn [pr_comm pr_heap pr_recv pr_S pr_R pr_U pr_drops pr_data pr_acks cm_setRetrans cm_retrans].
  - eapply comm_ok_ring; [apply Hi|done| | |by rewrite Hfr, <-Hs1..|].
    + rewrite Hl2, Hl1. apply Forall_app. split; [apply Forall_drop, (pi_comm _ Hi)|by constructor].
    + rewrite Hring. apply wrapped_nodup. lia.
    + rewrite Hfr, <-Hs1. cbn. destruct (co_rto _ _ _ (pi_comm _ Hi)). lia.
  - lia.
  - done.
  - rewrite Hfr, <-Hs1. cbn [st_sendSeq st_setTotals st_setRing].
    by rewrite land_mask, u32_mod_seq, (pi_next _ Hi), Zplus_mod_idemp_l.
  - rewrite Hfr, <-Hs1. apply (pi_enabled _ Hi).
  - constructor; [lia|]. eapply Forall_impl; [apply (pi_data _ Hi)|]. cbn. lia.
  - done.
  - split; [lia|]. split; [|lia]. intros Hib. specialize (Hdi Hib). destruct Hfull as [->|(_ & Hf & _)]; [lia|congruence].
  - intros Hz. assert (Hdz : d = 0%nat) by lia. subst d. destruct (pi_delivered _ Hi) as [D1 D2 D3 D4]; [lia|].
    split; cbn [pr_comm pr_heap pr_recv pr_S pr_R pr_U pr_drops pr_data pr_acks cm_setRetrans cm_retrans]; try done.
    + lia.
    + rewrite Z.add_0_r, Hfr, <-Hs1. exact D2.
Qed.

Lemma packet_entry_wf seq size data addr now lkeys :
  length lkeys = 2%nat -> retrans_wf (packet_entry seq size data addr now (Some lkeys) None).
Proof.
  intros Hl. split; [split; [cbn; lia|split; [reflexivity|]]|split; [exact Hl|split; [cbn; lia|split]]].
  - unfold packet_entry, is_u32. repeat constructor; cbn; lia.
  - split; [cbn; lia|by left].
  - cbn. lia.
Qed.

Lemma batch_entry_wf h seq slot gen dev nreqs now reqs :
  0 < nreqs <= FLAGCX_NET_IB_MAX_RECVS -> Z.of_nat (length reqs) = nreqs -> 0 <= dev ->
  (forall r q, h !! r = Some q -> length (rq_sendLkeys q) = 2%nat) ->
  retrans_wf (batch_entry h seq slot gen dev nreqs now reqs).
Proof.
  intros Hn Hl Hd Hk. assert (Hz : is_u32 (sg_size zero_segment) /\ length (sg_lkeys zero_segment) = 2%nat)
    by (unfold is_u32; cbn; lia).
  split; [split; [cbn; lia|split]|split; [reflexivity|split; [cbn; lia|split]]].
  - cbn [batch_entry en_segments]. rewrite length_app, length_fmap, length_drop, length_replicate. lia.
  - cbn [batch_entry en_segments]. apply Forall_app; split.
    + apply Forall_fmap, Forall_forall. intros r _. unfold compose, seg_of.
      destruct (h !! r) as [q|] eqn:Hq; [|done]. split; [|by apply (Hk r)].
      apply (Z.mod_pos_bound (rq_sendSize q) U32_MOD). lia.
    + apply Forall_drop, Forall_replicate, Hz.
  - split; [cbn; lia|by left].
  - cbn. done.
Qed.

(** Acknowledging [a]: the sender retires the entries up to [a] and no other. *)
Lemma ack_retires_upto (U a : Z) (live acked rest : list flagcxIbRetransEntry) (n : nat) ackSeq :
  en_seq <$> live = wrapped U n -> live = acked ++ rest -> (n <= 2048)%nat ->
  ackSeq = a mod M -> a < U + Z.of_nat n -> U - a < seq_half ibuc ->
  Forall (covered ibuc ackSeq) acked -> (forall e, head rest = Some e -> ~ covered ibuc ackSeq e) ->
  Z.of_nat (length acked) = Z.max 0 (a + 1 - U).
Proof.
  intros Hseq -> Hn -> Han Hua Hcov Hmax. pose proof (seq_half_bounds ibuc) as Hb.
  rewrite fmap_app in Hseq.
  assert (Hlen : (length acked + length rest = n)%nat).
  { apply (f_equal length) in Hseq. rewrite length_app, !length_fmap, length_wrapped in Hseq. done. }
  assert (Hnum : forall i e, (acked ++ rest) !! i = Some e -> en_seq e = (U + Z.of_nat i) mod M /\ (i < n)%nat).
  { intros i e Hi. apply (wrapped_lookup U n). rewrite <-Hseq, <-fmap_app, list_lookup_fmap, Hi. done. }
  assert (Hdec : forall i e, (acked ++ rest) !! i = Some e -> U + Z.of_nat i - a < seq_half ibuc ->
      (covered ibuc (a mod M) e <-> U + Z.of_nat i <= a)).
  { intros i e Hi Hlt. destruct (Hnum i e Hi) as [Hs Hin]. unfold covered. rewrite Hs, seqLeq_window by lia. lia. }
  destruct (Z.ltb_spec a U) as [Hlt|Hge].
  - destruct acked as [|e acked]; [cbn; lia|exfalso]. inversion Hcov as [|? ? Hc _]; subst.
    apply (Hdec 0%nat e) in Hc; [lia|done|lia].
  - destruct (lt_eq_lt_dec (length acked) (Z.to_nat (a + 1 - U))) as [[Hl|Hl]|Hl]; [|lia|].
    + exfalso. destruct rest as [|e rest]; [cbn in Hlen; lia|]. apply (Hmax e); [done|].
      apply (Hdec (length acked) e); [|lia|lia].
      by rewrite lookup_app_r, Nat.sub_diag by lia.
    + exfalso. destruct (lookup_lt_is_Some_2 acked (Z.to_nat (a + 1 - U))) as [e He]; [done|].
      pose proof (Forall_lookup_1 _ _ _ _ Hcov He) as Hc.
      apply (Hdec (Z.to_nat (a + 1 - U)) e) in Hc; [lia|by rewrite lookup_app_l|lia].
Qed.

Lemma una_after_wrapped U una acked rest n :
  en_seq <$> (acked ++ rest) = wrapped U n -> una = U mod M ->
  una_after ibuc una acked = (U + Z.of_nat (length acked)) mod M.
Proof.
  intros Hseq ->. unfold una_after. destruct (last acked) as [e|] eqn:Hl.
  - rewrite last_lookup in Hl. assert (Hlt : (pred (length acked) < length acked)%nat) by (by eapply lookup_lt_Some).
    assert (Hx : wrapped U n !! pred (length acked) = Some (en_seq e)).
    { rewrite <-Hseq, list_lookup_fmap, lookup_app_l, Hl by done. done. }
    apply wrapped_lookup in Hx as [-> _]. rewrite Zplus_mod_idemp_l. f_equal. lia.
  - apply last_None in Hl as ->. cbn. by rewrite Z.add_0_r.
Qed.

Lemma heap_frame_shapes h h' :
  heap_frame h h' ->
  (forall r q, h !! r = Some q -> length (rq_events q) = 2%nat /\ length (rq_sendLkeys q) = 2%nat) ->
  forall r q, h' !! r = Some q -> length (rq_events q) = 2%nat /\ length (rq_sendLkeys q) = 2%nat.
Proof.
  intros Hf Hh r q Hq. specialize (Hf r). rewrite Hq in Hf.
  destruct (h !! r) as [q1|] eqn:Hq1; [|done]. destruct (Hh _ _ Hq1) as [E1 E2].
  destruct Hf as [He Hlen]. split; [congruence|]. by rewrite He.
Qed.

Lemma inv_packet p q s1 s2 size data addr lkeys now :
  proto_inv p -> ibuc = false ->
  length lkeys = 2%nat -> take_seq ibuc (cm_retrans (pr_comm p)) = (q, s1) ->
  flagcxIbRetransAddPacket s1 q size data addr (Some lkeys) None now = Some (flagcxSuccess, s2) ->
  let dropped := if FLAGCX_IB_RETRANS_MAX_INFLIGHT <=? st_bufferCount (cm_retrans (pr_comm p)) then 1 else 0 in
  proto_inv (MkProto (cm_setRetrans (pr_comm p) s2) (pr_heap p) (pr_recv p) (pr_S p + 1) (pr_R p) (pr_U p + dropped)
               (pr_drops p + dropped) (pr_S p :: pr_data p) (pr_acks p)).
Proof.
  intros Hi Hib Hlk Hts Hadd dropped.
  destruct (take_seq_spec _ _ _ _ (pi_comm _ Hi) Hts) as (Hok1 & Hl1 & Hq).
  assert (Hs1 : st_enabled s1 = true /\ st_bufferCount s1 = st_bufferCount (cm_retrans (pr_comm p)) /\
                st_totalAcked s1 = st_totalAcked (cm_retrans (pr_comm p)))
    by (injection Hts as _ <-; split; [apply Hi|done]).
  destruct Hs1 as (Hen & Hcnt & Hta).
  destruct (AddPacket_spec s1 q size data addr now (Some lkeys) None (so_ring _ _ _ Hok1) Hen) as (s2' & Hr & Hw2 & Hl2 & Hfr).
  rewrite Hadd in Hr. injection Hr as <-.
  pose proof (rw_count _ (so_ring _ _ _ Hok1)) as Hrc.
  set (d := if FLAGCX_IB_RETRANS_MAX_INFLIGHT <=? st_bufferCount s1 then 1%nat else 0%nat) in *.
  assert (Hdd : dropped = Z.of_nat d) by (unfold dropped, d; rewrite Hcnt; by destruct (_ <=? _)).
  rewrite Hdd. eapply inv_send; [done|done| |done|exact Hl2|exact Hfr|done|by apply packet_entry_wf| |apply (pi_heap _ Hi)..].
  - unfold d. destruct (Z.leb_spec FLAGCX_IB_RETRANS_MAX_INFLIGHT (st_bufferCount s1)); [right|by left].
    split; [done|]. split; [done|lia].
  - split; [done| |by rewrite Hib]. rewrite Hfr. cbn. rewrite Hta. apply (pi_comm _ Hi).
Qed.

Lemma inv_batch p q s1 s2 h2 slot gen dev nreqs reqs now :
  proto_inv p -> ibuc = true -> take_seq ibuc (cm_retrans (pr_comm p)) = (q, s1) ->
  0 < nreqs <= FLAGCX_NET_IB_MAX_RECVS -> 0 <= dev < FLAGCX_IB_MAX_DEVS_PER_NIC -> Z.of_nat (length reqs) = nreqs ->
  Forall (fun r => r <> 0 -> is_Some (pr_heap p !! r)) reqs ->
  flagcxIbRetransAddBatch s1 (pr_heap p) q slot gen dev nreqs (Some reqs) now = Some (flagcxSuccess, s2, h2) ->
  proto_inv (MkProto (cm_setRetrans (pr_comm p) s2) h2 (pr_recv p) (pr_S p + 1) (pr_R p) (pr_U p) (pr_drops p)
               (pr_S p :: pr_data p) (pr_acks p)).
Proof.
  intros Hi Hib Hts Hn Hd Hl Hlive Hadd.
  destruct (take_seq_spec _ _ _ _ (pi_comm _ Hi) Hts) as (Hok1 & Hl1 & Hq).
  assert (Hen : st_enabled s1 = true) by (injection Hts as _ <-; apply Hi).
  rewrite Hib in Hok1. destruct (pi_heap _ Hi) as [Hh Hnn].
  destruct (AddBatch_spec s1 (pr_heap p) q slot gen dev nreqs now reqs Hok1 Hen Hn Hd Hl Hlive) as
    (res & s' & h' & Hr & Hok2 & _ & _ & Hs); [by intros; eapply Hh|done|].
  rewrite Hadd in Hr. injection Hr as <- <- <-.
  destruct (Hs eq_refl) as ((Hw2 & Hl2 & _ & Hfr) & _ & Hf & Hev). rewrite <-Hib in Hok2.
  rewrite <-(Z.add_0_r (pr_U p)), <-(Z.add_0_r (pr_drops p)). change 0 with (Z.of_nat 0).
  eapply (inv_send p q s1 s2 h2 _ 0); [done|done|by left|done|exact Hl2| |done| |done| |].
  - rewrite Hfr at 1. by rewrite Hfr.
  - apply batch_entry_wf; [done|done|lia|]. intros; by eapply Hh.
  - by eapply heap_frame_shapes.
  - intros r d. rewrite Hev. specialize (Hnn r d). pose proof (count_of_nonneg r reqs). destruct (dev =? d); lia.
Qed.

Lemma inv_counters p sends retrans :
  proto_inv p ->
  proto_inv (MkProto (cm_setOutstanding (pr_comm p) sends retrans) (pr_heap p) (pr_recv p) (pr_S p) (pr_R p) (pr_U p)
               (pr_drops p) (pr_data p) (pr_acks p)).
Proof.
  intros [I1 I2 I3 I4 I5 I6 I7 I8 I9]. split; try done.
  - eapply (comm_ok_outside _ (pr_comm p)); [exact I1|done..|apply I1|apply I1|apply heap_frame_refl|done].
  - intros Hz. destruct (I9 Hz). by split.
Qed.

Lemma inv_lose p data acks :
  proto_inv p -> data ⊆ pr_data p -> acks ⊆ pr_acks p ->
  proto_inv (MkProto (pr_comm p) (pr_heap p) (pr_recv p) (pr_S p) (pr_R p) (pr_U p) (pr_drops p) data acks).
Proof.
  intros [I1 I2 I3 I4 I5 I6 I7 I8 I9] Hd Ha. split; try done.
  - cbn. rewrite Forall_forall in I6 |- *. intros n Hn. by apply I6, Hd.
  - intros Hz. destruct (I9 Hz) as [D1 D2 D3 D4]. split; try done. cbn.
    rewrite Forall_forall in D4 |- *. intros n Hn. by apply D4, Ha.
Qed.

Lemma resends_range p c' :
  proto_inv p -> Forall (fun n => pr_U p <= n < pr_S p) (resends (pr_U p) (pr_comm p) c').
Proof.
  intros Hi. pose proof (pi_count _ Hi) as [Hc Hb]. apply Forall_fmap, Forall_forall.
  intros i [_ Hin]%list_elem_of_filter. apply elem_of_seq in Hin. unfold st_live in Hin. rewrite length_ring_list in Hin. cbn. lia.
Qed.

Lemma inv_timeout p ev now r c' h' :
  proto_inv p -> polls_fit ev -> hdr_ready ibuc (pr_comm p) ->
  flagcxIbRetransCheckTimeout ibuc ev now (pr_comm p) (pr_heap p) = Some (r, c', h') ->
  proto_inv (MkProto c' h' (pr_recv p) (pr_S p) (pr_R p) (pr_U p) (pr_drops p)
    (resends (pr_U p) (pr_comm p) c' ++ pr_data p) (pr_acks p)).
Proof.
  intros Hi Hp Hh Hrun.
  assert (Hdata : Forall (fun n => n < pr_S p) (resends (pr_U p) (pr_comm p) c' ++ pr_data p)).
  { apply Forall_app; split; [|apply Hi]. eapply Forall_impl; [by apply resends_range|]. cbn. lia. }
  revert Hdata. generalize (resends (pr_U p) (pr_comm p) c'). intros again Hdata.
  assert (Hseq : Forall (fun e => 0 <= en_seq e) (st_live (cm_retrans (pr_comm p)))).
  { pose proof (wrapped_range (pr_U p) (Z.to_nat (pr_S p - pr_U p))) as Hwr.
    rewrite <-(pi_ring _ Hi), Forall_fmap in Hwr. exact Hwr. }
  pose proof (CheckTimeout_spec ibuc ev now (pr_comm p) (pr_heap p) (pi_comm _ Hi) Hp Hh (proj1 (pi_enabled _ Hi)) Hseq) as Hct.
  destruct (list_find _ _) as [[i e]|] eqn:Hf.
  2: { rewrite Hrun in Hct. injection Hct as -> -> ->. destruct Hi as [I1 I2 I3 I4 I5 I6 I7 I8 I9]. split; try done.
       intros Hz. destruct (I9 Hz). by split. }
  destruct Hct as (r' & c2 & h2 & e' & Hrun' & T & _). rewrite Hrun in Hrun'. injection Hrun' as <- <- <-.
  apply list_find_Some in Hf as (Hfi & _).
  destruct T as [T1 T2 T3 T4 T5 T6 T7 T8]. cbv zeta in T7. destruct T7 as (P1 & P2 & P3 & P4 & P5 & P6).
  split; cbn [pr_comm pr_heap pr_recv pr_S pr_R pr_U pr_drops pr_data pr_acks]; try apply Hi; try done.
  - rewrite T2, list_fmap_insert, (proj1 (en_same_fields _ _ T3)).
    rewrite list_insert_id; [apply Hi|]. by rewrite list_lookup_fmap, Hfi.
  - rewrite P1. apply Hi.
  - rewrite P6. apply Hi.
  - destruct (pi_heap _ Hi) as [Hh1 Hh2]. split.
    + by eapply heap_frame_shapes.
    + intros r1 d. specialize (Hh2 r1 d). specialize (T6 r1 d). lia.
  - intros Hz. destruct (pi_delivered _ Hi Hz) as [D1 D2 D3 D4]. split; try done. cbn. by rewrite P2.
Qed.

Lemma RecvPacket_enabled s n m now ack s' m' :
  flagcxIbRetransRecvPacket ibuc s n m now = (ack, s', m') -> st_enabled s' = st_enabled s.
Proof.
  unfold flagcxIbRetransRecvPacket. destruct (st_enabled s) eqn:He; cbn [negb]; [|by intros [= _ <- _]].
  assert (Hfin : forall (b : bool) s1 m1 (x y : Z), st_enabled s1 = true ->
    (if b then (true, st_setRecv s1 (st_recvSeq s1) (st_recvSeq s1) now, MkAckMsg 0 0 0 x y now (ack_sackBitmap m1))
     else (false, s1, m1)) = (ack, s', m') -> st_enabled s' = true).
  { intros b s1 m1 x y H1. destruct b; intros Hx; apply (f_equal (fun t => t.1.2)) in Hx; cbn in Hx; by rewrite <-Hx. }
  cbv zeta. destruct (n =? st_recvSeq s); [apply Hfin; exact He|].
  destruct (flagcxIbSeqLess _ _ _); [|destruct (_ && _)];
    intros Hx; apply (f_equal (fun t => t.1.2)) in Hx; cbn [fst snd] in Hx; rewrite <-Hx; exact He.
Qed.

Lemma inv_receive p n m ack s' m' now :
  proto_inv p -> n ∈ pr_data p -> (pr_drops p = 0 -> pr_R p - n <= seq_half ibuc) ->
  flagcxIbRetransRecvPacket ibuc (pr_recv p) (n mod M) m now = (ack, s', m') ->
  let R' := if n =? pr_R p then pr_R p + 1 else pr_R p in
  proto_inv (MkProto (pr_comm p) (pr_heap p) s' (pr_S p) R' (pr_U p) (pr_drops p) (pr_data p)
               (if ack then (R' - 1, m') :: pr_acks p else pr_acks p)).
Proof.
  intros Hi Hn Hlo Hrun R'.
  assert (Hns : n < pr_S p) by (pose proof (pi_data _ Hi) as Hd; rewrite Forall_forall in Hd; by apply Hd).
  destruct (pi_count _ Hi) as [_ Hcnt]. pose proof (seq_half_bounds ibuc) as Hb.
  split; cbn [pr_comm pr_heap pr_recv pr_S pr_R pr_U pr_drops pr_data pr_acks]; try apply Hi.
  - split; [apply Hi|]. rewrite (RecvPacket_enabled _ _ _ _ _ _ _ Hrun). apply Hi.
  - intros Hz. destruct (pi_delivered _ Hi Hz) as [D1 D2 D3 D4].
    pose proof (RecvPacket_spec ibuc (pr_recv p) m (pr_R p) n now (proj2 (pi_enabled _ Hi)) D3 (Hlo Hz)) as Hsp.
    rewrite Hrun in Hsp. cbv zeta in Hsp. fold R' in Hsp. destruct Hsp as (Hr & Ha & _ & _ & _ & _ & Hfr); [lia|].
    assert (HR' : pr_R p <= R' <= pr_S p) by (unfold R'; destruct (Z.eqb_spec n (pr_R p)); lia).
    split; cbn [pr_comm pr_heap pr_recv pr_S pr_R pr_U pr_drops pr_data pr_acks]; try done.
    + lia.
    + assert (Hold : Forall (fun am => am.1 < R' /\ ack_ackSeq am.2 = am.1 mod M) (pr_acks p)).
      { eapply Forall_impl; [exact D4|]. intros am [E1 E2]. split; [lia|done]. }
      destruct ack; [|done]. constructor; [|done]. cbn. split; [lia|]. by apply Ha.
Qed.

(** What an acknowledgement step retires: a prefix of the ring, and, as long as
    nothing was dropped, exactly what the acknowledgement covers. *)
Lemma ack_step_retired p m r s' h' now :
  proto_inv p ->
  flagcxIbRetransProcessAck ibuc (cm_retrans (pr_comm p)) (pr_heap p) (Some m) now = Some (r, s', h') ->
  exists acked, st_ok ibuc s' h' /\ st_live (cm_retrans (pr_comm p)) = acked ++ st_live s' /\
    retired ibuc (ack_ackSeq m) (ack_prepared (cm_retrans (pr_comm p)) m now) s' (pr_heap p) h' acked /\
    st_bufferCount (cm_retrans (pr_comm p)) - st_bufferCount s' = Z.of_nat (length acked).
Proof.
  intros Hi Hrun. pose proof (pi_comm _ Hi) as Hok. destruct (pi_count _ Hi) as [Hc0 Hcb].
  destruct (ProcessAck_spec ibuc (cm_retrans (pr_comm p)) (pr_heap p) m now (co_st _ _ _ Hok) (proj1 (pi_enabled _ Hi)))
    as (s2 & h2 & acked & Hr2 & Hok2 & Hret).
  rewrite Hrun in Hr2. injection Hr2 as -> <- <-.
  destruct (ack_prepared_spec (cm_retrans (pr_comm p)) m now) as [Hprep Hrto].
  pose proof (re_live _ _ _ _ _ _ _ Hret) as Rl.
  assert (Hlp : st_live (ack_prepared (cm_retrans (pr_comm p)) m now) = st_live (cm_retrans (pr_comm p))) by (by rewrite Hprep).
  rewrite Hlp in Rl. exists acked. split; [done|]. split; [done|]. split; [done|].
  apply (f_equal length) in Rl. rewrite length_app in Rl. unfold st_live in Rl. rewrite !length_ring_list in Rl.
  pose proof (rw_count _ (so_ring _ _ _ Hok2)). lia.
Qed.

Lemma ack_step_upto p a m s' h' now acked :
  proto_inv p -> pr_drops p = 0 -> (a, m) ∈ pr_acks p -> pr_U p - a < seq_half ibuc ->
  st_live (cm_retrans (pr_comm p)) = acked ++ st_live s' ->
  retired ibuc (ack_ackSeq m) (ack_prepared (cm_retrans (pr_comm p)) m now) s' (pr_heap p) h' acked ->
  a < pr_R p /\ Z.of_nat (length acked) = Z.max 0 (a + 1 - pr_U p).
Proof.
  intros Hi Hz Hin Hua Hl Hret. destruct (pi_delivered _ Hi Hz) as [Ho _ _ Hd]. rewrite Forall_forall in Hd.
  destruct (Hd _ Hin) as [HaR Hseq]. cbn in HaR, Hseq. destruct (pi_count _ Hi) as [_ Hcb]. split; [done|].
  eapply (ack_retires_upto (pr_U p) a _ acked (st_live s') (Z.to_nat (pr_S p - pr_U p)) (ack_ackSeq m));
    [apply Hi|exact Hl|lia|done|lia|done|apply Hret|apply Hret].
Qed.

Lemma inv_ack p a m r s' h' now :
  proto_inv p -> (a, m) ∈ pr_acks p -> (pr_drops p = 0 -> pr_U p - a < seq_half ibuc) ->
  flagcxIbRetransProcessAck ibuc (cm_retrans (pr_comm p)) (pr_heap p) (Some m) now = Some (r, s', h') ->
  proto_inv (MkProto (cm_setRetrans (pr_comm p) s') h' (pr_recv p) (pr_S p) (pr_R p)
               (pr_U p + (st_bufferCount (cm_retrans (pr_comm p)) - st_bufferCount s')) (pr_drops p) (pr_data p) (pr_acks p)).
Proof.
  intros Hi Hin Hua Hrun. pose proof (pi_comm _ Hi) as Hok. destruct (pi_count _ Hi) as [Hc0 Hcb].
  pose proof (pi_low _ Hi) as Ho.
  destruct (ack_step_retired p m r s' h' now Hi Hrun) as (acked & Hok2 & Rl & Hret & Hcnt).
  destruct (ack_prepared_spec (cm_retrans (pr_comm p)) m now) as [Hprep Hrto].
  pose proof (pi_ring _ Hi) as Hring. rewrite Rl in Hring. rewrite Hcnt.
  pose proof (re_frame _ _ _ _ _ _ _ Hret) as Rf.
  assert (Hf : st_sendSeq s' = st_sendSeq (cm_retrans (pr_comm p)) /\ st_enabled s' = st_enabled (cm_retrans (pr_comm p)) /\
     st_retransQPIndex s' = st_retransQPIndex (cm_retrans (pr_comm p)) /\ st_minRtoUs s' = st_minRtoUs (cm_retrans (pr_comm p)) /\
     st_maxRtoUs s' = st_maxRtoUs (cm_retrans (pr_comm p)) /\ st_rtoUs s' = st_rtoUs (ack_prepared (cm_retrans (pr_comm p)) m now) /\
     st_sendUna s' = una_after ibuc (st_sendUna (cm_retrans (pr_comm p))) acked).
  { rewrite Rf. cbn [st_sendSeq st_enabled st_retransQPIndex st_minRtoUs st_maxRtoUs st_rtoUs st_sendUna
      st_setUna st_setTotals st_setRing]. by rewrite Hprep. }
  destruct Hf as (F1 & F2 & F3 & F4 & F5 & F6 & F7).
  assert (Hle : Z.of_nat (length acked) <= pr_S p - pr_U p).
  { apply (f_equal length) in Hring. rewrite length_fmap, length_app, length_wrapped in Hring. lia. }
  assert (Hrest : en_seq <$> st_live s' = wrapped (pr_U p + Z.of_nat (length acked)) (Z.to_nat (pr_S p - (pr_U p + Z.of_nat (length acked))))).
  { apply (f_equal (drop (length acked))) in Hring. rewrite fmap_app, drop_wrapped in Hring.
    rewrite (drop_app_length' (en_seq <$> acked)) in Hring by (by rewrite length_fmap).
    rewrite Hring. f_equal. lia. }
  split; cbn [pr_comm pr_heap pr_recv pr_S pr_R pr_U pr_drops pr_data pr_acks cm_setRetrans cm_retrans]; try apply Hi; try done.
  - destruct (co_rto _ _ _ Hok) as [Hr1 Hr2].
    apply (comm_ok_ring _ _ _ _ Hok); try done.
    + pose proof (co_live _ _ _ Hok) as Hcl'. rewrite Rl in Hcl'. by apply Forall_app in Hcl' as [_ Hcl'].
    + rewrite Hrest. apply wrapped_nodup. lia.
    + rewrite F4, F5, F6. apply Hrto. lia.
  - lia.
  - rewrite F1. apply Hi.
  - rewrite F2. apply Hi.
  - destruct (pi_heap _ Hi) as [Hh1 Hh2]. split.
    + eapply heap_frame_shapes; [apply Hret|done].
    + intros r1 d. rewrite (re_released _ _ _ _ _ _ _ Hret). specialize (Hh2 r1 d). destruct ibuc eqn:Hib; [|lia].
      destruct (so_holds _ _ _ (co_st _ _ _ Hok) eq_refl) as [_ Hho].
      pose proof (holds_nonneg acked r1 d) as Hna. pose proof (holds_nonneg (st_live s') r1 d) as Hns.
      destruct (decide (0 < holds acked r1 d)) as [Hp|Hp]; [|lia].
      destruct (Hho r1 d) as [_ Hle']; rewrite Rl, holds_app in *; lia.
  - intros Hz. destruct (ack_step_upto p a m s' h' now acked Hi Hz Hin (Hua Hz) Rl Hret) as [HaR Hk].
    destruct (pi_delivered _ Hi Hz) as [D1 D2 D3 D4].
    split; cbn [pr_comm pr_heap pr_recv pr_S pr_R pr_U pr_drops pr_data pr_acks cm_setRetrans cm_retrans]; try done.
    + lia.
    + rewrite F7. eapply una_after_wrapped; [exact Hring|exact D2].
Qed.

Lemma proto_step_inv p p' : proto_inv p -> proto_step p p' -> proto_inv p'.
Proof.
  intros Hi Hs. destruct Hs.
  - by eapply inv_packet.
  - by eapply inv_batch.
  - destruct Hi as [I1 I2 I3 I4 I5 I6 I7 I8 I9]. split; try done.
    + cbn [pr_comm pr_heap]. pose proof (co_st _ _ _ I1) as Hst.
      assert (Hst2 : st_ok ibuc (cm_retrans (pr_comm p)) h2) by (destruct Hst; by split).
      by destruct I1.
    + intros Hz. destruct (I9 Hz). by split.
  - by apply inv_counters.
  - by eapply inv_timeout.
  - by apply inv_lose.
  - by apply inv_receive with (m := m) (now := now).
  - by eapply inv_ack.
Qed.

(** The start: both ends initialised and enabled, nothing sent. *)
Definition proto_init (c : flagcxIbSendComm) (h : ib_heap) (r : flagcxIbRetransState) : proto :=
  MkProto c h r 0 0 0 0 [] [].

Record proto_start (c : flagcxIbSendComm) (h : ib_heap) (r : flagcxIbRetransState) : Prop := {
  pt_comm : comm_ok ibuc c h;
  pt_empty : st_live (cm_retrans c) = [];
  pt_zero : st_sendSeq (cm_retrans c) = 0 /\ st_sendUna (cm_retrans c) = 0 /\ st_recvSeq r = 0;
  pt_enabled : st_enabled (cm_retrans c) = true /\ st_enabled r = true;
  pt_heap : (forall q x, h !! q = Some x -> length (rq_events x) = 2%nat /\ length (rq_sendLkeys x) = 2%nat) /\
            (forall q d, 0 <= req_ev h q d)
}.

Lemma proto_init_inv c h r : proto_start c h r -> proto_inv (proto_init c h r).
Proof.
  intros [H1 H2 (H3 & H4 & H5) H6 H7]. split; cbn [proto_init pr_comm pr_heap pr_recv pr_S pr_R pr_U pr_drops pr_data pr_acks];
    rewrite ?H2, ?H3; done.
Qed.

Lemma proto_reach_inv c h r p : proto_start c h r -> reach proto_step (proto_init c h r) p -> proto_inv p.
Proof.
  intros Hs Hr. eapply (reach_invariant proto_step proto_inv); [apply proto_step_inv|exact Hr|by apply proto_init_inv].
Qed.
End Protocol.

(** ** Recovery by retransmission

    A legacy sender whose completions are polled and whose queue pairs accept
    its posts.  Its timeouts resend the oldest entry, and what the receiver
    answers retires it. *)

(** What a retransmission needs of the communicator. *)
Record usable (c : flagcxIbSendComm) : Prop := {
  us_header : cm_hdrMr c = true;
  us_room : 0 <= cm_outstandingSends c < cm_maxOutstanding c;
  us_qps : forall i, 0 <= i < cm_nqps c -> exists dev, arr_get (cm_qps c) i = Some (Some dev) /\ 0 <= dev < cm_ndevs c
}.

(** Everything but the ring, the headers and the count in flight stays. *)
Record same_setup (c c' : flagcxIbSendComm) : Prop := {
  ss_comm : (cm_hdrMr c', cm_outstandingSends c', cm_maxOutstanding c', cm_nqps c', cm_qps c', cm_ndevs c')
            = (cm_hdrMr c, cm_outstandingSends c, cm_maxOutstanding c, cm_nqps c, cm_qps c, cm_ndevs c);
  ss_retry : st_maxRetry (cm_retrans c') = st_maxRetry (cm_retrans c)
}.

Lemma same_setup_refl c : same_setup c c.
Proof. done. Qed.



(** A packet that may be sent again. *)
Definition sendable (e : flagcxIbRetransEntry) : Prop := en_data e <> 0 /\ en_size e <> 0.












(** C3: reliable delivery, as long as a legacy sender does not overrun its ring.
    In every state the protocol can reach from its start, the ring holds exactly
    the numbers from [U] to [S], at most 2048 of them, valid and, with IBUC,
    with their source requests held.  An IBUC sender never drops an entry, a
    legacy sender only after filling the ring.  While nothing was dropped, and
    nothing was delayed by more than half the number space, no packet has left
    the ring before the receiver took it in order: the retired ones are the
    first [U], the received ones the first [R], the sent ones the first [S],
    with [U <= R <= S], every packet the receiver still waits for is in the ring
    to be sent again, and the wrapped fields of both ends are these counters
    modulo the number space.  After a drop the last part is lost: the receiver
    may wait for a packet the sender no longer has. *)
Theorem protocol_safety (ibuc : bool) (c : flagcxIbSendComm) (h : ib_heap) (r : flagcxIbRetransState) (p : proto)
    (Hstart : proto_start ibuc c h r) (Hreach : reach (proto_step ibuc) (proto_init c h r) p) :
  pr_S p <= pr_U p + FLAGCX_IB_RETRANS_MAX_INFLIGHT /\
  en_seq <$> st_live (cm_retrans (pr_comm p)) = wrapped ibuc (pr_U p) (Z.to_nat (pr_S p - pr_U p)) /\
  Forall (fun e => en_valid e = true) (st_live (cm_retrans (pr_comm p))) /\
  st_sendSeq (cm_retrans (pr_comm p)) = pr_S p mod seq_mod ibuc /\
  (ibuc = true -> forall e q, e ∈ st_live (cm_retrans (pr_comm p)) -> q ∈ entry_reqs e ->
     0 < req_ev (pr_heap p) q (en_ackDevIndex e)) /\
  (ibuc = true -> pr_drops p = 0) /\ (0 < pr_drops p -> FLAGCX_IB_RETRANS_MAX_INFLIGHT < pr_S p) /\
  (pr_drops p = 0 ->
     pr_U p <= pr_R p <= pr_S p /\
     (forall n, pr_R p <= n < pr_S p -> exists e,
        st_live (cm_retrans (pr_comm p)) !! Z.to_nat (n - pr_U p) = Some e /\ en_seq e = n mod seq_mod ibuc) /\
     st_sendUna (cm_retrans (pr_comm p)) = pr_U p mod seq_mod ibuc /\
     st_recvSeq (pr_recv p) = pr_R p mod seq_mod ibuc).
Proof.
  pose proof (proto_reach_inv ibuc c h r p Hstart Hreach) as Hi.
  pose proof (pi_count _ _ Hi) as [_ Hc]. pose proof (co_st _ _ _ (pi_comm _ _ Hi)) as Hst.
  split; [lia|]. split; [apply Hi|]. split; [apply Hst|]. split; [apply Hi|]. split; [|split; [apply Hi|split; [apply Hi|]]].
  - intros Hib e q He Hq. destruct (so_holds _ _ _ Hst Hib) as [_ Hho].
    apply list_elem_of_lookup_1 in He as [i He]. apply count_of_elem in Hq.
    pose proof (holds_lookup _ _ _ q (en_ackDevIndex e) He) as Hle. unfold entry_holds in Hle at 1.
    rewrite Z.eqb_refl in Hle. destruct (Hho q (en_ackDevIndex e)); lia.
  - intros Hz. destruct (pi_delivered _ _ Hi Hz) as [D1 D2 D3 D4]. split; [done|]. split; [|done].
    intros n Hn. pose proof (wrapped_some ibuc (pr_U p) (Z.to_nat (pr_S p - pr_U p)) (Z.to_nat (n - pr_U p))) as Hx.
    rewrite <-(pi_ring _ _ Hi), list_lookup_fmap in Hx.
    specialize (Hx ltac:(lia)).
    destruct (st_live (cm_retrans (pr_comm p)) !! Z.to_nat (n - pr_U p)) as [e|]; cbn in Hx; [|discriminate Hx].
    exists e. split; [done|]. injection Hx as ->. f_equal. lia.
Qed.



(** A legacy pair: after one packet is sent, received and acknowledged. *)
Definition demo_start : proto :=
  proto_init (cm_setRetrans demo_comm (flagcxIbRetransInit 1 5000 10 16 true 0)) ∅
    (flagcxIbRetransInit 1 5000 10 16 true 0).

Lemma demo_start_ok : proto_start false (pr_comm demo_start) (pr_heap demo_start) (pr_recv demo_start).
Proof.
  split; cbn [demo_start proto_init pr_comm pr_heap pr_recv].
  - split; cbn [cm_setRetrans cm_retrans]; try apply demo_comm_ok.
    + apply init_st_ok.
    + constructor.
    + constructor.
  - reflexivity.
  - done.
  - done.
  - split; [by intros ? ? ?%lookup_empty_Some|]. intros q d. unfold req_ev. by rewrite lookup_empty.
Qed.

(** One packet is sent. *)
Lemma demo_send : exists p, reach (proto_step false) demo_start p /\ pr_S p = 1 /\ pr_drops p = 0 /\
  usable (pr_comm p) /\
  Forall (fun e => sendable e /\ en_retryCount e + 2 <= st_maxRetry (cm_retrans (pr_comm p))) (st_live (cm_retrans (pr_comm p))).
Proof.
  destruct (take_seq false (cm_retrans (pr_comm demo_start))) as [q s1] eqn:Hts.
  assert (Hs1 : ring_wf s1 /\ st_enabled s1 = true /\ st_maxRetry s1 = 10 /\ st_live s1 = []).
  { injection Hts as _ <-. split; [|done]. destruct (init_ring_wf 1 5000 10 16 true 0). by split. }
  destruct Hs1 as (Hw & He & Hm & Hl).
  destruct (AddPacket_spec s1 q 64 4096 8192 3 (Some [1; 2]) None Hw He) as (s2 & Hr & _ & Hl2 & Hfr).
  eexists. split; [apply reach_one; eapply (ps_send_packet false demo_start q s1 s2 64 4096 8192 [1; 2] 3); try done|].
  split; [reflexivity|]. split; [reflexivity|]. cbn [pr_comm cm_setRetrans cm_retrans]. split.
  - split; [reflexivity|cbn; lia|]. intros i Hi. cbn in Hi. assert (i = 0) as -> by lia. exists 0. by split; [|cbn; lia].
  - rewrite Hl2, Hl, drop_nil. repeat constructor; cbn; [lia|lia|]. rewrite Hfr. cbn. lia.
Qed.

Lemma protocol_safety_witness :
  exists p, pr_S p = 1 /\ pr_drops p = 0 /\ pr_U p <= pr_R p <= pr_S p.
Proof.
  destruct demo_send as (p & Hr & HS & Hz & _). exists p. split; [exact HS|]. split; [exact Hz|].
  destruct (protocol_safety false _ _ _ p demo_start_ok Hr) as (_ & _ & _ & _ & _ & _ & _ & Hd).
  destruct (Hd Hz) as (Ho & _). exact Ho.
Defined.

