(* ===== verification/C2cBuffers.v ===== *)
(** Bookkeeping of the cluster-to-cluster planner
    ([flagcx/runner/c2c_algo.cc], [flagcx/runner/include/c2c_algo.h]): the
    cache of plans, the arithmetic on ranks, and the table of buffer regions
    that the inter-cluster ranks send and receive. *)
From S2P Require Import Prelude Flagcx Arrays.

(** ** Arithmetic *)

(** [gcd] on non-negative [int]s; the second argument decreases. *)
Fixpoint gcd_loop (fuel : nat) (a b : Z) : Z :=
  match fuel with
  | O => a
  | S fuel' => if b =? 0 then a else gcd_loop fuel' b (Z.rem a b)
  end.
Definition gcd (a b : Z) : Z := gcd_loop (S (Z.to_nat b)) a b.

(** [lcm]: a division by zero is [None]. *)
Definition lcm (a b : Z) : option Z :=
  if gcd a b =? 0 then None else Some (Z.quot (Z.abs (a * b)) (gcd a b)).

Fixpoint lcm_fold (result : Z) (lists : list (list Z)) : option Z :=
  match lists with
  | [] => Some result
  | l :: lists' => r ← lcm result (Z.of_nat (length l)); lcm_fold r lists'
  end.
Definition getLcmOfInterRankList (clusterInterRankList : list (list Z)) : option Z :=
  lcm_fold 1 clusterInterRankList.

(** The slot of a remote cluster's partial result. *)
Definition flagcxC2cGetPeerHomoRank (representativeHomoRank sourceClusterId destinationClusterId
    destinationHomoRanks : Z) : Z :=
  if (sourceClusterId <? 0) || (destinationClusterId <? 0) || (sourceClusterId =? destinationClusterId) ||
     (destinationHomoRanks <=? 0) || (representativeHomoRank <? 0) ||
     (destinationHomoRanks <=? representativeHomoRank) then -1
  else
    let peerOrdinal := if sourceClusterId <? destinationClusterId then sourceClusterId else sourceClusterId - 1 in
    if destinationHomoRanks - 1 <=? peerOrdinal then -1
    else Z.rem (representativeHomoRank - peerOrdinal - 1 + destinationHomoRanks) destinationHomoRanks.

(** ** The cache of plans

    [cacheItems_] is the list, most recent first; [cacheMap_] sends a key to
    its node, so it holds exactly the keys of the list. *)
Section LRU.
Context {K V : Type} `{EqDecision K}.

Record flagcxLRUCache := MkLRU { lru_capacity : Z; lru_items : list (K * V) }.

Definition lru_find (c : flagcxLRUCache) (key : K) : option V :=
  snd <$> head (filter (fun kv => kv.1 = key) (lru_items c)).

(** The list without a key. *)
Definition lru_without (l : list (K * V)) (key : K) : list (K * V) := filter (fun kv => kv.1 <> key) l.

Definition lru_get (c : flagcxLRUCache) (key : K) : option V * flagcxLRUCache :=
  match lru_find c key with
  | None => (None, c)
  | Some v => (Some v, MkLRU (lru_capacity c) ((key, v) :: lru_without (lru_items c) key))
  end.

(** [cacheItems_.back()] of an empty list is undefined. *)
Definition lru_put (c : flagcxLRUCache) (key : K) (value : V) : option flagcxLRUCache :=
  match lru_find c key with
  | Some _ => Some (MkLRU (lru_capacity c) ((key, value) :: lru_without (lru_items c) key))
  | None =>
      items ← (if Z.of_nat (length (lru_items c)) =? lru_capacity c then
                 if bool_decide (lru_items c = []) then None else Some (removelast (lru_items c))
               else Some (lru_items c));
      Some (MkLRU (lru_capacity c) ((key, value) :: items))
  end.
End LRU.
Arguments flagcxLRUCache : clear implicits.

(** ** Buffer regions *)

Record flagcxBufferInfo := MkBufferInfo {
  bi_offset : Z;
  bi_count : Z;
  bi_clusterIdToSend : Z;
  bi_isRecv : bool;
  bi_isScheduled : bool;
  bi_peerRank : Z;
  bi_loopId : Z
}.

#[export] Instance flagcxBufferInfo_eq_dec : EqDecision flagcxBufferInfo.
Proof. solve_decision. Defined.

(** [bufferInfos_] by cluster and rank; [operator[]] of the C++ maps creates
    an empty list, so an absent key is the empty list. *)
Record flagcxInterRankBufferInfoManager := MkManager {
  bm_totalCount : Z;
  bm_infos : gmap (Z * Z) (list flagcxBufferInfo)
}.

Definition getBufferInfoList (m : flagcxInterRankBufferInfoManager) (clusterId rank : Z) : list flagcxBufferInfo :=
  default [] (bm_infos m !! (clusterId, rank)).

(** Writing a list back (the callers mutate it through the reference). *)
Definition setBufferInfoList (m : flagcxInterRankBufferInfoManager) (clusterId rank : Z)
    (l : list flagcxBufferInfo) : flagcxInterRankBufferInfoManager :=
  MkManager (bm_totalCount m) (<[(clusterId, rank) := l]> (bm_infos m)).

(** The overlap test, with the wrap-around of [size_t]. *)
Definition conflicts (offset count : Z) (info : flagcxBufferInfo) : bool :=
  ((offset <? bi_offset info) && (bi_offset info <? (offset +u64 count))) ||
  (offset =? bi_offset info) ||
  ((bi_offset info <? offset) && (offset <? (bi_offset info +u64 bi_count info))).

Definition checkIfPossibleToPush (m : flagcxInterRankBufferInfoManager) (clusterId rank offset count : Z) : bool :=
  forallb (fun info => negb (conflicts offset count info)) (getBufferInfoList m clusterId rank).

(** One round of the scan for a free prefix (mode 0) or suffix (mode 1). *)
Definition split_round (m : flagcxInterRankBufferInfoManager) (clusterId rank offset count : Z)
    (acc : Z * Z) (info : flagcxBufferInfo) : Z * Z :=
  let acc1 :=
    if (offset <? bi_offset info) && (bi_offset info <? (offset +u64 count)) &&
       checkIfPossibleToPush m clusterId rank offset (bi_offset info -u64 offset)
    then (Z.max (bi_offset info -u64 offset) acc.1, 0) else acc in
  let iend := bi_offset info +u64 bi_count info in
  if (bi_offset info <=? offset) && (offset <? iend) && (iend <? (offset +u64 count)) &&
     checkIfPossibleToPush m clusterId rank iend ((offset + count - bi_offset info - bi_count info) mod U64_MOD)
  then (Z.max ((offset + count - bi_offset info - bi_count info) mod U64_MOD) acc1.1, 1) else acc1.

(** [Some (splitCount, pushMode)] when the function returns true. *)
Definition checkIfPossibleToSplitAndPush (m : flagcxInterRankBufferInfoManager) (clusterId rank offset count : Z)
    : option (Z * Z) :=
  let '(maxSplitCount, finalPushMode) :=
    foldl (split_round m clusterId rank offset count) (0, 0) (getBufferInfoList m clusterId rank) in
  if 0 <? maxSplitCount then Some (maxSplitCount, finalPushMode) else None.

(** [rankCount] is an [int], compared with a [size_t]. *)
Definition as_int (x : Z) : Z := (x + 2147483648) mod U32_MOD - 2147483648.
Definition checkIsFull (m : flagcxInterRankBufferInfoManager) (clusterId rank : Z) : bool :=
  let rankCount := foldl (fun a info => as_int (a + bi_count info)) 0 (getBufferInfoList m clusterId rank) in
  rankCount mod U64_MOD =? bm_totalCount m.

Definition checkIsScheduled (m : flagcxInterRankBufferInfoManager) (clusterId rank : Z) : bool :=
  forallb bi_isScheduled (getBufferInfoList m clusterId rank).

Definition pushBackBufferInfo (m : flagcxInterRankBufferInfoManager) (clusterId rank offset count clusterIdToSend : Z)
    (isRecv isScheduled : bool) (peerRank loopId : Z) : flagcxInterRankBufferInfoManager :=
  setBufferInfoList m clusterId rank
    (getBufferInfoList m clusterId rank ++
     [MkBufferInfo offset count clusterIdToSend isRecv isScheduled peerRank loopId]).

(** [pop_front] of an empty list is undefined. *)
Definition popFrontBufferInfo (m : flagcxInterRankBufferInfoManager) (clusterId rank : Z)
    : option flagcxInterRankBufferInfoManager :=
  match getBufferInfoList m clusterId rank with
  | [] => None
  | _ :: l => Some (setBufferInfoList m clusterId rank l)
  end.

Definition resetBufferInfo (m : flagcxInterRankBufferInfoManager) : flagcxInterRankBufferInfoManager :=
  MkManager (bm_totalCount m) ((fun _ => []) <$> bm_infos m).

(** ** Facts: arithmetic *)

Lemma gcd_loop_spec fuel a b :
  0 <= a -> 0 <= b -> (Z.to_nat b < fuel)%nat -> gcd_loop fuel a b = Z.gcd a b.
Proof.
  revert a b. induction fuel as [|fuel IH]; intros a b Ha Hb Hf; [lia|]. cbn [gcd_loop].
  destruct (Z.eqb_spec b 0) as [->|Hb0].
  - rewrite Z.gcd_0_r. lia.
  - pose proof (Z.rem_bound_pos a b). rewrite IH by lia.
    rewrite Z.rem_mod_nonneg by lia. rewrite (Z.gcd_comm b), Z.gcd_mod by lia. apply Z.gcd_comm.
Qed.

Lemma gcd_spec a b : 0 <= a -> 0 <= b -> gcd a b = Z.gcd a b.
Proof. intros. apply gcd_loop_spec; lia. Qed.

Lemma lcm_spec a b : 0 <= a -> 0 < b -> lcm a b = Some (Z.lcm a b).
Proof.
  intros Ha Hb. unfold lcm. rewrite gcd_spec by lia.
  assert (Hg : Z.gcd a b <> 0) by (intros Hg; apply Z.gcd_eq_0 in Hg; lia).
  rewrite (proj2 (Z.eqb_neq _ _)) by done. f_equal.
  pose proof (Z.gcd_nonneg a b). rewrite Z.quot_div_nonneg by lia.
  unfold Z.lcm. rewrite Z.abs_eq by nia. rewrite Z.abs_eq by (apply Z.mul_nonneg_nonneg; [lia|apply Z.div_pos; lia]).
  apply Z.divide_div_mul_exact; [done|apply Z.gcd_divide_r].
Qed.

(** The slots of different source clusters differ from each other and from the
    representative. *)
Lemma peerHomoRank_eq rep src dst n :
  0 <= rep < n -> 0 <= src -> 0 <= dst -> src <> dst ->
  let ord := if src <? dst then src else src - 1 in
  flagcxC2cGetPeerHomoRank rep src dst n
  = if n - 1 <=? ord then -1 else (rep - ord - 1) mod n.
Proof.
  intros Hr Hs Hd Hne ord. unfold flagcxC2cGetPeerHomoRank.
  rewrite (proj2 (Z.ltb_ge src 0)), (proj2 (Z.ltb_ge dst 0)), (proj2 (Z.eqb_neq src dst)),
    (proj2 (Z.leb_gt n 0)), (proj2 (Z.ltb_ge rep 0)), (proj2 (Z.leb_gt n rep)) by lia. cbn [orb].
  fold ord. destruct (Z.leb_spec (n - 1) ord) as [Ho|Ho]; [done|].
  assert (Ho0 : 0 <= ord) by (unfold ord; destruct (Z.ltb_spec src dst); lia).
  rewrite Z.rem_mod_nonneg by lia. rewrite <-(Z.mod_add (rep - ord - 1) 1 n) by lia. f_equal. lia.
Qed.

Lemma peerHomoRank_slots (rep src1 src2 dst n : Z)
    (Hr : 0 <= rep < n) (Hs1 : 0 <= src1) (Hs2 : 0 <= src2) (Hd : 0 <= dst) (Hn1 : src1 <> dst) (Hn2 : src2 <> dst) :
  let ord s := if s <? dst then s else s - 1 in
  (flagcxC2cGetPeerHomoRank rep src1 dst n = -1 <-> n - 1 <= ord src1) /\
  (ord src1 < n - 1 -> 0 <= flagcxC2cGetPeerHomoRank rep src1 dst n < n /\
                       flagcxC2cGetPeerHomoRank rep src1 dst n <> rep) /\
  (ord src1 < n - 1 -> ord src2 < n - 1 ->
     flagcxC2cGetPeerHomoRank rep src1 dst n = flagcxC2cGetPeerHomoRank rep src2 dst n -> src1 = src2).
Proof.
  intros ord.
  assert (Hmod : forall k, 0 <= k < n - 1 -> 
            (rep - k - 1) mod n = if rep - k - 1 <? 0 then rep - k - 1 + n else rep - k - 1).
  { intros k Hk. destruct (Z.ltb_spec (rep - k - 1) 0).
    - rewrite <-(Z.mod_add _ 1) by lia. rewrite Z.mod_small by lia. lia.
    - rewrite Z.mod_small by lia. lia. }
  assert (Hord : forall s, 0 <= s -> s <> dst -> 0 <= ord s)
    by (intros s Hs0 Hsd; unfold ord; destruct (Z.ltb_spec s dst); lia).
  pose proof (Hord src1 Hs1 Hn1) as Ho1. pose proof (Hord src2 Hs2 Hn2) as Ho2.
  rewrite !peerHomoRank_eq by lia. fold (ord src1) (ord src2).
  split; [|split].
  - destruct (Z.leb_spec (n - 1) (ord src1)); [done|]. pose proof (Z.mod_pos_bound (rep - ord src1 - 1) n). lia.
  - intros Hlt. rewrite (proj2 (Z.leb_gt _ _)) by lia. rewrite Hmod by lia.
    destruct (Z.ltb_spec (rep - ord src1 - 1) 0); lia.
  - intros Hl1 Hl2. rewrite !(proj2 (Z.leb_gt _ _)) by lia. rewrite !Hmod by lia.
    intros He. assert (Heq : ord src1 = ord src2).
    { destruct (Z.ltb_spec (rep - ord src1 - 1) 0), (Z.ltb_spec (rep - ord src2 - 1) 0); lia. }
    unfold ord in Heq. destruct (Z.ltb_spec src1 dst), (Z.ltb_spec src2 dst); lia.
Qed.

(** the reduction slots never collide.  For a destination cluster of
    [n] ranks, every source cluster whose compacted number fits below [n - 1]
    gets a slot within the cluster that is not the representative's; two
    different source clusters get different slots; and a source that does not
    fit, or arguments out of range, are rejected with -1. *)
Theorem peerHomoRank_distinct (rep src1 src2 dst n : Z)
    (Hr : 0 <= rep < n) (Hs1 : 0 <= src1) (Hs2 : 0 <= src2) (Hd : 0 <= dst) (H1 : src1 <> dst) (H2 : src2 <> dst) :
  let ord s := if s <? dst then s else s - 1 in
  (flagcxC2cGetPeerHomoRank rep src1 dst n = -1 <-> n - 1 <= ord src1) /\
  (ord src1 < n - 1 -> 0 <= flagcxC2cGetPeerHomoRank rep src1 dst n < n /\
                       flagcxC2cGetPeerHomoRank rep src1 dst n <> rep) /\
  (ord src1 < n - 1 -> ord src2 < n - 1 ->
     flagcxC2cGetPeerHomoRank rep src1 dst n = flagcxC2cGetPeerHomoRank rep src2 dst n -> src1 = src2).
Proof. by apply peerHomoRank_slots. Qed.

Lemma peerHomoRank_distinct_witness :
  flagcxC2cGetPeerHomoRank 2 0 1 4 <> flagcxC2cGetPeerHomoRank 2 3 1 4 /\
  0 <= flagcxC2cGetPeerHomoRank 2 3 1 4 < 4.
Proof.
  destruct (peerHomoRank_distinct 2 0 3 1 4) as (_ & _ & Hd); try lia.
  destruct (peerHomoRank_distinct 2 3 0 1 4) as (_ & Hr & _); try lia.
  split.
  - intros He. assert (0 = 3) by (apply Hd; [reflexivity|reflexivity|exact He]). lia.
  - apply Hr. reflexivity.
Defined.

(** ** Facts: the cache *)

Section LRUFacts.
Context {K V : Type} `{EqDecision K}.
Implicit Types (l : list (K * V)).

Lemma lru_without_notin l key : key ∉ l.*1 -> lru_without l key = l.
Proof.
  induction l as [|[k v] l IH]; [done|]. cbn [fmap list_fmap fst]. intros Hn. unfold lru_without in *. rewrite filter_cons_True.
  - f_equal. apply IH. set_solver.
  - cbn. set_solver.
Qed.

Lemma lru_without_take n l key :
  NoDup l.*1 -> key ∈ (take (S n) l).*1 -> take n (lru_without l key) = lru_without (take (S n) l) key.
Proof.
  revert n. induction l as [|[k v] l IH]; intros n Hnd Hin; [by destruct n|].
  inversion Hnd as [|? ? Hk Hnd']; subst. unfold lru_without in *. cbn [take].
  destruct (decide (k = key)) as [->|Hne].
  - rewrite !filter_cons_False by (cbn; naive_solver).
    change (filter (fun kv => kv.1 <> key) l) with (lru_without l key).
    change (filter (fun kv => kv.1 <> key) (take n l)) with (lru_without (take n l) key).
    rewrite !lru_without_notin; [done| |done]. intros Hx. apply Hk.
    apply list_elem_of_fmap in Hx as (y & -> & Hy). apply list_elem_of_fmap. exists y. split; [done|].
    by eapply subseteq_take.
  - rewrite !filter_cons_True by done. destruct n as [|n].
    + cbn in Hin. set_solver.
    + cbn [take]. f_equal. apply IH; [done|]. cbn [take fmap list_fmap] in Hin. set_solver.
Qed.

Lemma lru_without_take_out n l key :
  key ∉ (take n l).*1 -> take n (lru_without l key) = take n l.
Proof.
  revert n. induction l as [|[k v] l IH]; intros [|n] Hin; [done..|].
  cbn [take fmap list_fmap] in Hin. unfold lru_without in *. rewrite filter_cons_True by (cbn; set_solver).
  cbn [take]. f_equal. apply IH. set_solver.
Qed.

Lemma lru_without_nodup l key : NoDup l.*1 -> NoDup (lru_without l key).*1.
Proof.
  induction l as [|[k v] l IH]; intros Hnd; [done|]. inversion Hnd as [|? ? Hk Hnd']; subst.
  unfold lru_without in *. destruct (decide (k = key)) as [->|Hne].
  - rewrite filter_cons_False by (cbn; naive_solver). by apply IH.
  - rewrite filter_cons_True by done. cbn. constructor; [|by apply IH].
    intros Hx. apply Hk. apply list_elem_of_fmap in Hx as (y & Hy & Hy').
    apply list_elem_of_filter in Hy' as [_ Hy']. apply list_elem_of_fmap. eauto.
Qed.

Lemma lru_without_fresh l key : key ∉ (lru_without l key).*1.
Proof.
  intros Hx. apply list_elem_of_fmap in Hx as (y & Hy & Hy'). apply list_elem_of_filter in Hy' as [Hne _]. done.
Qed.

Lemma lru_find_none cap l key : lru_find (MkLRU cap l) key = None <-> key ∉ l.*1.
Proof.
  unfold lru_find. cbn [lru_items]. induction l as [|[k v] l IH]; [set_solver|].
  destruct (decide (k = key)) as [->|Hne].
  - rewrite filter_cons_True by done. cbn. set_solver.
  - rewrite filter_cons_False by done. rewrite IH. cbn. set_solver.
Qed.

(** The operations of a client, and the reference: an unbounded cache of which
    only the [n] most recently used entries answer. *)
Inductive lru_op := LGet (k : K) | LPut (k : K) (v : V).

Definition ref_step (n : nat) l (op : lru_op) : list (K * V) :=
  match op with
  | LGet k => match lru_find (MkLRU 0 (take n l)) k with Some v => (k, v) :: lru_without l k | None => l end
  | LPut k v => (k, v) :: lru_without l k
  end.
Definition ref_answer (n : nat) l (op : lru_op) : option V :=
  match op with LGet k => lru_find (MkLRU 0 (take n l)) k | LPut _ _ => None end.
Fixpoint ref_run (n : nat) l (ops : list lru_op) : list (option V) * list (K * V) :=
  match ops with
  | [] => ([], l)
  | op :: ops' => let '(answers, l') := ref_run n (ref_step n l op) ops' in (ref_answer n l op :: answers, l')
  end.

Definition lru_step (c : flagcxLRUCache K V) (op : lru_op) : option (option V * flagcxLRUCache K V) :=
  match op with
  | LGet k => Some (lru_get c k)
  | LPut k v => c' ← lru_put c k v; Some (None, c')
  end.
Fixpoint lru_run (c : flagcxLRUCache K V) (ops : list lru_op) : option (list (option V) * flagcxLRUCache K V) :=
  match ops with
  | [] => Some ([], c)
  | op :: ops' =>
      '(a, c1) ← lru_step c op;
      '(answers, c2) ← lru_run c1 ops';
      Some (a :: answers, c2)
  end.

Lemma ref_step_nodup n l op : NoDup l.*1 -> NoDup (ref_step n l op).*1.
Proof.
  intros Hnd. destruct op as [k|k v]; cbn.
  - destruct (lru_find _ k); [|done]. cbn. constructor; [apply lru_without_fresh|by apply lru_without_nodup].
  - constructor; [apply lru_without_fresh|by apply lru_without_nodup].
Qed.

Lemma lru_step_spec n l op :
  (0 < n)%nat -> NoDup l.*1 ->
  lru_step (MkLRU (Z.of_nat n) (take n l)) op
  = Some (ref_answer n l op, MkLRU (Z.of_nat n) (take n (ref_step n l op))).
Proof.
  intros Hn Hnd. destruct n as [|n]; [lia|].
  assert (Hmove : forall k v, k ∈ (take (S n) l).*1 ->
    (k, v) :: lru_without (take (S n) l) k = take (S n) ((k, v) :: lru_without l k)).
  { intros k v Hin. cbn [take]. by rewrite lru_without_take. }
  destruct op as [k|k v]; cbn -[take Z.of_nat].
  - unfold lru_get. change (lru_find (MkLRU (Z.of_nat (S n)) (take (S n) l)) k) with (lru_find (MkLRU 0 (take (S n) l)) k).
    destruct (lru_find (MkLRU 0 (take (S n) l)) k) as [v|] eqn:Hf; [|done].
    cbn -[take Z.of_nat]. rewrite <-Hmove; [done|].
    destruct (decide (k ∈ (take (S n) l).*1)) as [|Hnin]; [done|].
    by rewrite (proj2 (lru_find_none 0 _ k) Hnin) in Hf.
  - unfold lru_put. cbn [lru_items lru_capacity].
    destruct (lru_find (MkLRU (Z.of_nat (S n)) (take (S n) l)) k) as [w|] eqn:Hf.
    + cbn -[take Z.of_nat]. rewrite <-Hmove; [done|].
      destruct (decide (k ∈ (take (S n) l).*1)) as [|Hnin]; [done|].
      by rewrite (proj2 (lru_find_none (Z.of_nat (S n)) _ k) Hnin) in Hf.
    + apply lru_find_none in Hf. rewrite length_take.
      destruct (Z.eqb_spec (Z.of_nat (S n `min` length l)) (Z.of_nat (S n))) as [Hfull|Hfull].
      * rewrite bool_decide_eq_false_2 by (destruct l; cbn in *; [lia|done]). cbn -[take Z.of_nat removelast].
        do 3 f_equal. cbn [take]. f_equal. rewrite removelast_firstn by lia.
        symmetry. apply lru_without_take_out. intros Hx. apply Hf.
        apply list_elem_of_fmap in Hx as (y & -> & Hy). apply list_elem_of_fmap. exists y. split; [done|].
        apply (subseteq_take n). by rewrite take_take, Nat.min_l by lia.
      * assert (Hlen : (length l <= n)%nat) by lia.
        cbn -[take Z.of_nat]. do 3 f_equal. rewrite take_ge in Hf by lia. rewrite (take_ge l) by lia.
        rewrite lru_without_notin by done. rewrite take_ge by (cbn; lia). done.
Qed.

Lemma lru_run_spec n l ops :
  (0 < n)%nat -> NoDup l.*1 ->
  lru_run (MkLRU (Z.of_nat n) (take n l)) ops
  = Some (let '(answers, l') := ref_run n l ops in (answers, MkLRU (Z.of_nat n) (take n l'))).
Proof.
  intros Hn. revert l. induction ops as [|op ops IH]; intros l Hnd; [done|].
  cbn [lru_run ref_run]. rewrite lru_step_spec by done. cbn [mbind option_bind].
  rewrite IH by (by apply ref_step_nodup). by destruct (ref_run n (ref_step n l op) ops).
Qed.

Lemma ref_run_nodup n l ops : NoDup l.*1 -> NoDup (ref_run n l ops).2.*1.
Proof.
  revert l. induction ops as [|op ops IH]; intros l Hl; [done|].
  cbn [ref_run]. specialize (IH _ (ref_step_nodup n l op Hl)). by destruct (ref_run n (ref_step n l op) ops).
Qed.

(** the cache is an LRU cache.  Started empty with a positive capacity,
    no sequence of operations is undefined; at every moment it holds the
    [capacity] most recently used entries of the cache that never evicts, and
    every look-up answers exactly what that prefix answers. *)
Theorem lru_refines (n : nat) (ops : list lru_op) (Hn : (0 < n)%nat) :
  exists c, lru_run (MkLRU (Z.of_nat n) []) ops = Some ((ref_run n [] ops).1, c) /\
    lru_items c = take n (ref_run n [] ops).2 /\ (length (lru_items c) <= n)%nat /\ NoDup (lru_items c).*1.
Proof.
  pose proof (lru_run_spec n [] ops Hn (NoDup_nil_2)) as Hr. rewrite take_nil in Hr.
  assert (Hnd : NoDup (ref_run n [] ops).2.*1).
  { apply ref_run_nodup, NoDup_nil_2. }
  destruct (ref_run n [] ops) as [answers l']. eexists. split; [exact Hr|]. cbn. split; [done|].
  split; [rewrite length_take; lia|]. cbn in Hnd.
  rewrite fmap_take. rewrite <-(take_drop n l'.*1) in Hnd. by apply NoDup_app in Hnd as [? _].
Qed.
End LRUFacts.

Lemma lru_refines_witness :
  exists c, lru_run (MkLRU (Z.of_nat 2) []) [LPut 1 10; LPut 2 20; LGet 1; LPut 3 30; LGet 2; LGet 1]
            = Some ([None; None; Some 10; None; None; Some 10], c) /\ lru_items c = [(1, 10); (3, 30)].
Proof.
  destruct (lru_refines 2 [LPut 1 10; LPut 2 20; LGet 1; LPut 3 30; LGet 2; LGet 1]) as (c & Hr & Hi & _); [lia|].
  exists c. split; [exact Hr|exact Hi].
Defined.

(** ** Facts: regions *)

(** A region inside the address range of [size_t]. *)
Definition region_ok (offset count : Z) : Prop := 0 <= offset /\ 0 < count /\ offset + count < U64_MOD.
Definition info_ok (info : flagcxBufferInfo) : Prop := region_ok (bi_offset info) (bi_count info).
Definition infos_ok (m : flagcxInterRankBufferInfoManager) : Prop :=
  forall c r, Forall info_ok (getBufferInfoList m c r).

Definition apart (o1 n1 o2 n2 : Z) : Prop := o1 + n1 <= o2 \/ o2 + n2 <= o1.

Lemma conflicts_spec offset count info :
  region_ok offset count -> info_ok info ->
  conflicts offset count info = false <-> apart offset count (bi_offset info) (bi_count info).
Proof.
  unfold info_ok, region_ok, conflicts, apart. intros Hr Hi. rewrite !Z.mod_small by lia.
  destruct (Z.ltb_spec offset (bi_offset info)), (Z.ltb_spec (bi_offset info) (offset + count)),
    (Z.eqb_spec offset (bi_offset info)), (Z.ltb_spec (bi_offset info) offset),
    (Z.ltb_spec offset (bi_offset info + bi_count info)); cbn; lia.
Qed.

Definition free_at (m : flagcxInterRankBufferInfoManager) (c r offset count : Z) : Prop :=
  Forall (fun info => apart offset count (bi_offset info) (bi_count info)) (getBufferInfoList m c r).

Lemma checkIfPossibleToPush_spec m c r offset count :
  infos_ok m -> region_ok offset count ->
  checkIfPossibleToPush m c r offset count = true <-> free_at m c r offset count.
Proof.
  intros Hm Hr. unfold checkIfPossibleToPush, free_at. specialize (Hm c r).
  induction Hm as [|info l Hi Hl IH]; [done|]. cbn [forallb]. rewrite andb_true_iff, Forall_cons, negb_true_iff, IH.
  by rewrite conflicts_spec.
Qed.

(** What the scan for a split maintains. *)
Definition split_inv (m : flagcxInterRankBufferInfoManager) (c r offset count : Z) (acc : Z * Z) : Prop :=
  0 <= acc.1 < count /\
  (0 < acc.1 -> acc.2 = 0 /\ free_at m c r offset acc.1 \/
                acc.2 = 1 /\ free_at m c r (offset + count - acc.1) acc.1 /\
                exists info, info ∈ getBufferInfoList m c r /\ bi_offset info <= offset < bi_offset info + bi_count info).

Lemma free_not_covered m c r offset count info :
  free_at m c r offset count -> 0 < count -> info ∈ getBufferInfoList m c r ->
  bi_offset info <= offset < bi_offset info + bi_count info -> False.
Proof. unfold free_at, apart. rewrite Forall_forall. intros Hf Hc Hin Hcov. specialize (Hf _ Hin). lia. Qed.

Lemma split_round_inv m c r offset count acc info :
  infos_ok m -> region_ok offset count -> info ∈ getBufferInfoList m c r ->
  split_inv m c r offset count acc -> split_inv m c r offset count (split_round m c r offset count acc info).
Proof.
  intros Hm Hr Hin Hacc.
  assert (Hi : info_ok info) by (specialize (Hm c r); rewrite Forall_forall in Hm; by apply Hm).
  unfold info_ok, region_ok in *. destruct acc as [mx mode]. unfold split_round. cbn [fst snd].
  rewrite !Z.mod_small by lia.
  set (acc1 := if (offset <? bi_offset info) && _ && _ then _ else _).
  assert (H1 : split_inv m c r offset count acc1).
  { subst acc1. destruct (Z.ltb_spec offset (bi_offset info)) as [Ha|Ha]; [|exact Hacc].
    destruct (Z.ltb_spec (bi_offset info) (offset + count)) as [Hb|Hb]; [|exact Hacc]. cbn [andb].
    rewrite (Z.mod_small (bi_offset info - offset)) by lia.
    destruct (checkIfPossibleToPush m c r offset (bi_offset info - offset)) eqn:Hp; [|exact Hacc].
    apply checkIfPossibleToPush_spec in Hp; [|done|unfold region_ok; lia].
    destruct Hacc as [Hmx Hacc]. unfold split_inv. cbn [fst snd] in *. split; [lia|]. intros _. left. split; [done|].
    destruct (Z.max_spec (bi_offset info - offset) mx) as [[Hlt ->]|[Hge ->]]; [|done].
    destruct Hacc as [[_ Hf]|(_ & _ & i2 & Hi2 & Hcov)]; [lia|done|].
    exfalso. by eapply (free_not_covered m c r offset _ i2 Hp); [lia|..]. }
  clearbody acc1. destruct acc1 as [mx1 mode1]. cbn [fst snd].
  destruct (Z.leb_spec (bi_offset info) offset) as [Ha|Ha]; [|exact H1].
  destruct (Z.ltb_spec offset (bi_offset info + bi_count info)) as [Hb|Hb]; [|exact H1].
  destruct (Z.ltb_spec (bi_offset info + bi_count info) (offset + count)) as [Hd|Hd]; [|exact H1]. cbn [andb].
  rewrite (Z.mod_small (offset + count - bi_offset info - bi_count info)) by lia.
  set (d := offset + count - bi_offset info - bi_count info).
  destruct (checkIfPossibleToPush m c r (bi_offset info + bi_count info) d) eqn:Hp; [|exact H1].
  apply checkIfPossibleToPush_spec in Hp; [|done|unfold region_ok; lia].
  destruct H1 as [Hmx H1]. unfold split_inv. cbn [fst snd] in *. split; [lia|]. intros _. right. split; [done|].
  split; [|eauto].
  destruct (Z.max_spec d mx1) as [[Hlt ->]|[Hge ->]].
  - destruct H1 as [[_ Hf]|(_ & Hf & _)]; [lia| |done].
    exfalso. eapply (free_not_covered m c r offset _ info Hf); [lia|done|lia].
  - replace (offset + count - d) with (bi_offset info + bi_count info) by lia. done.
Qed.

Lemma checkIfPossibleToSplitAndPush_spec m c r offset count n mode :
  infos_ok m -> region_ok offset count ->
  checkIfPossibleToSplitAndPush m c r offset count = Some (n, mode) ->
  0 < n < count /\ (mode = 0 /\ free_at m c r offset n \/ mode = 1 /\ free_at m c r (offset + count - n) n).
Proof.
  intros Hm Hr. unfold checkIfPossibleToSplitAndPush.
  assert (Hfold : forall l acc, (forall x, x ∈ l -> x ∈ getBufferInfoList m c r) -> split_inv m c r offset count acc ->
    split_inv m c r offset count (foldl (split_round m c r offset count) acc l)).
  { induction l as [|x l IH]; intros acc Hl Hacc; [done|]. cbn. apply IH; [set_solver|].
    apply split_round_inv; try done. set_solver. }
  specialize (Hfold (getBufferInfoList m c r) (0, 0) (fun x Hx => Hx)).
  destruct (foldl _ _ _) as [mx md]. destruct (Z.ltb_spec 0 mx); [|done]. intros [= <- <-].
  destruct Hfold as [Hb Hf]; [split; cbn; unfold region_ok in Hr; lia|]. cbn [fst snd] in *.
  split; [lia|]. destruct Hf as [[-> Hf]|(-> & Hf & _)]; [lia|by left|by right].
Qed.

(** Look-ups after writes. *)
Lemma getBufferInfoList_set m c r l c' r' :
  getBufferInfoList (setBufferInfoList m c r l) c' r'
  = if bool_decide ((c', r') = (c, r)) then l else getBufferInfoList m c' r'.
Proof.
  unfold getBufferInfoList, setBufferInfoList. cbn. case_bool_decide as Hd.
  - injection Hd as -> ->. by rewrite lookup_insert_eq.
  - by rewrite lookup_insert_ne by done.
Qed.

Lemma getBufferInfoList_reset m c r : getBufferInfoList (resetBufferInfo m) c r = [].
Proof. unfold getBufferInfoList, resetBufferInfo. cbn. rewrite lookup_fmap. by destruct (bm_infos m !! (c, r)). Qed.
