(* ===== verification/C2cPlanner.v ===== *)
(** The cluster-to-cluster planner ([flagcx/runner/c2c_algo.cc]): which steps a
    collective takes, which library call each step is, which regions every
    inter-cluster rank sends, and to which peer. *)
From S2P Require Import Prelude Flagcx Arrays C2cBuffers.

(** ** Data *)

(** The fields of [flagcxComm] the planner reads. *)
Record flagcxComm := MkComm {
  cc_rank : Z;
  cc_nranks : Z;
  cc_nclusters : Z;
  cc_homoRank : Z;
  cc_homoRootRank : Z;
  cc_homoRanks : Z;
  cc_clusterSizes : list Z;
  cc_clusterIds : list Z;
  cc_globalRank2HomoRank : list Z;
  cc_homoInterRootRank : Z;
  cc_homoInterMyRank : Z;
  cc_homoInterRanks : Z;
  cc_clusterInterRankList : list (list Z)
}.

Inductive flagcxAlgorithm_t := flagcxAlgoSequential | flagcxAlgoPipeline | flagcxAlgoInput.

#[export] Instance flagcxAlgorithm_eq_dec : EqDecision flagcxAlgorithm_t.
Proof. solve_decision. Defined.

(** [flagcxC2cPlanner] (before a strategy is laid out). *)
Record flagcxC2cPlanner := MkPlanner {
  pl_nSeqPreSteps : Z;
  pl_nPipePreSteps : Z;
  pl_nSeqInterSteps : Z;
  pl_nPipePostSteps : Z;
  pl_nSeqPostSteps : Z;
  pl_nchunks : Z;
  pl_sendCount : Z;
  pl_recvCount : Z;
  pl_rootRank : Z;
  pl_comm : flagcxComm;
  pl_commOp : flagcxCommOp_t;
  pl_redOp : flagcxRedOp_t;
  pl_clusterInterRankList : list (list Z);
  pl_clusterId : Z;
  pl_rank : Z;
  pl_homoInterMyRank : Z;
  pl_totalCount : Z;
  pl_rootClusterId : Z;
  pl_isRootCluster : bool;
  pl_clusterCount : Z;
  pl_clusterOffset : Z;
  pl_multiNic : bool;
  pl_eachNicPerRank : bool;
  pl_algorithm : flagcxAlgorithm_t;
  pl_manager : flagcxInterRankBufferInfoManager
}.

(** ** Construction *)

(** [multiNic_] before and after the size test. *)
Definition sizes_of (lists : list (list Z)) : list Z := (fun l => Z.of_nat (length l)) <$> lists.

Definition init_multiNic (commOp : flagcxCommOp_t) (lists : list (list Z)) (totalCount : Z) : bool :=
  let m := if op_is commOp flagcxCommOpAllReduce || op_is commOp flagcxCommOpReduceScatter ||
              op_is commOp flagcxCommOpReduce
           then forallb (fun n => negb (n =? 1)) (sizes_of lists)
           else negb (forallb (fun n => n =? 1) (sizes_of lists)) in
  if existsb (fun n => totalCount <? n) (sizes_of lists) then false else m.

(** [eachNicPerRank_]: every rank of every cluster is an inter-cluster rank;
    [None] is an access outside [clusterSizes]. *)
Fixpoint all_inter (lists : list (list Z)) (clusterSizes : list Z) (i : Z) : option bool :=
  match lists with
  | [] => Some true
  | l :: lists' =>
      n ← arr_get clusterSizes i;
      if negb (Z.of_nat (length l) =? n mod U64_MOD) then Some false else all_inter lists' clusterSizes (i + 1)
  end.

Fixpoint same_sizes (n : nat) (clusterSizes : list Z) (clusterCount i : Z) : option bool :=
  match n with
  | O => Some true
  | S n' =>
      k ← arr_get clusterSizes i;
      if negb (clusterCount =? k) then Some false else same_sizes n' clusterSizes clusterCount (i + 1)
  end.

Fixpoint sum_sizes (n : nat) (clusterSizes : list Z) (i acc : Z) : option Z :=
  match n with
  | O => Some acc
  | S n' => k ← arr_get clusterSizes i; sum_sizes n' clusterSizes (i + 1) (acc + k)
  end.

(** The step counts: (sequential pre, pipelined pre, sequential inter,
    pipelined post, sequential post). *)
Definition init_steps (env : option string) (commOp : flagcxCommOp_t) (eachNicPerRank multiNic isRootCluster : bool)
    (nclusters : Z) : flagcxAlgorithm_t * (Z * Z * Z * Z * Z) :=
  let default_steps := (1, 0, 1, 0, 1) in
  let pipelined := match env with
                   | Some a => String.eqb a "RING_PIPELINED" || String.eqb a "Ring_pipelined"
                   | None => false
                   end in
  if negb pipelined then (flagcxAlgoSequential, default_steps) else
  if op_is commOp flagcxCommOpAllGather then
    (flagcxAlgoPipeline,
     if eachNicPerRank then (0, 1, 0, nclusters - 2, 1)
     else if multiNic then (1, 0, 1, nclusters - 2, 1)
     else (1, 0, 0, nclusters - 1, 1))
  else if op_is commOp flagcxCommOpReduceScatter && multiNic then
    (flagcxAlgoPipeline, (1, nclusters - 2, 1, 0, 1))
  else if op_is commOp flagcxCommOpAllReduce && multiNic then
    (flagcxAlgoPipeline, (1, nclusters - 2, 1, nclusters - 1, 1))
  else if op_is commOp flagcxCommOpScatter && eachNicPerRank then
    (flagcxAlgoPipeline, if isRootCluster then (1, nclusters - 2, 0, 1, 0) else default_steps)
  else if op_is commOp flagcxCommOpGather && eachNicPerRank then
    (flagcxAlgoPipeline, if isRootCluster then (0, 1, 0, nclusters - 2, 1) else default_steps)
  else if op_is commOp flagcxCommOpAlltoAll || op_is commOp flagcxCommOpAlltoAllv then
    (flagcxAlgoPipeline, (0, 1, 0, 0, 0))
  else (flagcxAlgoSequential, default_steps).

(** The constructor.  Collectives without a root pass [rootRank = -1], for
    which [clusterIds[rootRank_]] reads the word before the array: [before] is
    what stands there.  Any other access out of range is [None]. *)
Definition mk_flagcxC2cPlanner (before : Z) (env : option string) (sendCount recvCount rootRank : Z)
    (comm : flagcxComm) (commOp : flagcxCommOp_t) (redOp : flagcxRedOp_t) : option flagcxC2cPlanner :=
  clusterId ← arr_get (cc_clusterIds comm) (cc_rank comm);
  let totalCount := if recvCount <=? sendCount then sendCount else recvCount in
  rootClusterId ← (if rootRank =? -1 then Some before else arr_get (cc_clusterIds comm) rootRank);
  let isRootCluster := rootClusterId =? clusterId in
  clusterOffset ← sum_sizes (Z.to_nat clusterId) (cc_clusterSizes comm) 0 0;
  clusterCount ← arr_get (cc_clusterSizes comm) clusterId;
  let lists := cc_clusterInterRankList comm in
  let multiNic0 := init_multiNic commOp lists totalCount in
  each0 ← all_inter lists (cc_clusterSizes comm) 0;
  '(each, multiNic) ← (if (each0 : bool) then
                         same ← same_sizes (Z.to_nat (cc_nclusters comm)) (cc_clusterSizes comm) clusterCount 0;
                         Some (if (same : bool) then (true, multiNic0) else (false, false))
                       else Some (false, multiNic0));
  let '(algorithm, steps) := init_steps env commOp each multiNic isRootCluster (cc_nclusters comm) in
  let '(a, b, c, d, e) := steps in
  Some (MkPlanner a b c d e totalCount sendCount recvCount rootRank comm commOp redOp lists clusterId
          (cc_rank comm) (cc_homoInterMyRank comm) totalCount rootClusterId isRootCluster clusterCount clusterOffset
          multiNic each algorithm (MkManager totalCount ∅)).

(** ** The library call of each step

    [homoType]: 0 before, 1 among the inter-cluster ranks, 2 after; [mode]: 0
    every rank has a NIC, 1 normal, 2 single NIC.  A [switch] without a
    matching case falls through to the next operation's cases: [table_from]
    chains the cases in the order of the source. *)
Section OpTable.
Variable p : flagcxC2cPlanner.

Definition pick {A : Type} (cases : list (Z * A)) (x : Z) : option A :=
  snd <$> head (filter (fun c => c.1 = x) cases).

Definition root_case (notRoot isRoot : flagcxCommOp_t) : flagcxCommOp_t :=
  if pl_isRootCluster p then isRoot else notRoot.
Definition inter0_case (other zero : flagcxCommOp_t) : flagcxCommOp_t :=
  if pl_homoInterMyRank p =? 0 then zero else other.
Definition rootRank_case (other root : flagcxCommOp_t) : flagcxCommOp_t :=
  if pl_rank p =? pl_rootRank p then root else other.
Definition algo_is (a : flagcxAlgorithm_t) : bool := bool_decide (pl_algorithm p = a).

(** The rows: for an operation, by [homoType] and [mode] in {0, 1, 2}. *)
Definition table_row (op : flagcxCommOp_t) (homoType mode : Z) : option flagcxCommOp_t :=
  match op with
  | flagcxCommOpSend => Some flagcxCommOpSend
  | flagcxCommOpRecv => Some flagcxCommOpRecv
  | flagcxCommOpBroadcast =>
      pick [(0, root_case flagcxCommNoOp flagcxCommOpBroadcast); (1, flagcxCommNoOp);
            (2, root_case flagcxCommOpBroadcast flagcxCommNoOp)] homoType
  | flagcxCommOpGather =>
      r ← pick [(0, [(0, root_case flagcxCommNoOp flagcxCommOpGather); (1, flagcxCommOpAllGather); (2, flagcxCommOpGather)]);
                (1, [(0, flagcxCommNoOp);
                     (1, root_case flagcxCommNoOp (inter0_case flagcxCommOpSend flagcxCommOpRecv));
                     (2, root_case flagcxCommNoOp (inter0_case flagcxCommOpSend flagcxCommOpRecv))]);
                (2, [(0, root_case flagcxCommNoOp flagcxCommOpGather);
                     (1, root_case flagcxCommNoOp (rootRank_case flagcxCommOpSend flagcxCommOpRecv));
                     (2, root_case flagcxCommNoOp (rootRank_case flagcxCommOpSend flagcxCommOpRecv))])] homoType;
      pick r mode
  | flagcxCommOpScatter =>
      r ← pick [(0, [(0, root_case flagcxCommNoOp flagcxCommOpScatter);
                     (1, root_case flagcxCommNoOp (rootRank_case flagcxCommOpRecv flagcxCommOpSend));
                     (2, root_case flagcxCommNoOp (rootRank_case flagcxCommOpRecv flagcxCommOpSend))]);
                (1, [(0, flagcxCommNoOp);
                     (1, root_case (inter0_case flagcxCommOpSend flagcxCommOpRecv) flagcxCommNoOp);
                     (2, root_case (inter0_case flagcxCommOpSend flagcxCommOpRecv) flagcxCommNoOp)]);
                (2, [(0, root_case flagcxCommNoOp flagcxCommOpScatter); (1, flagcxCommOpScatter); (2, flagcxCommOpScatter)])] homoType;
      pick r mode
  | flagcxCommOpReduce =>
      r ← pick [(0, [(0, flagcxCommOpReduceScatter); (1, flagcxCommOpReduce); (2, flagcxCommOpReduce)]);
                (1, [(mode, root_case flagcxCommNoOp flagcxCommOpReduce)]);
                (2, [(mode, flagcxCommNoOp)])] homoType;
      pick r mode
  | flagcxCommOpAllReduce =>
      r ← pick [(0, [(0, flagcxCommOpReduceScatter); (1, flagcxCommOpReduce); (2, flagcxCommOpReduce)]);
                (1, if algo_is flagcxAlgoSequential then [(mode, flagcxCommOpAllReduce)]
                    else [(0, flagcxCommOpReduceScatter); (1, flagcxCommOpAllReduce); (2, flagcxCommOpAllReduce)]);
                (2, if algo_is flagcxAlgoPipeline then [(mode, flagcxCommOpBroadcast)]
                    else [(0, flagcxCommNoOp); (1, flagcxCommOpAllReduce); (2, flagcxCommNoOp)])] homoType;
      pick r mode
  | flagcxCommOpAllGather =>
      r ← pick [(0, [(0, flagcxCommOpAllGather); (1, flagcxCommOpAllGather); (2, flagcxCommOpGather)]);
                (1, [(mode, flagcxCommNoOp)]); (2, [(mode, flagcxCommOpBroadcast)])] homoType;
      pick r mode
  | flagcxCommOpReduceScatter =>
      r ← pick [(0, [(0, flagcxCommOpReduceScatter); (1, flagcxCommOpReduce); (2, flagcxCommOpReduce)]);
                (1, [(0, if algo_is flagcxAlgoPipeline then flagcxCommOpReduceScatter else flagcxCommOpAllReduce);
                     (1, flagcxCommOpAllReduce); (2, flagcxCommOpAllReduce)]);
                (2, [(0, if algo_is flagcxAlgoPipeline then flagcxCommNoOp else flagcxCommOpReduceScatter);
                     (1, flagcxCommOpReduceScatter); (2, flagcxCommOpReduceScatter)])] homoType;
      pick r mode
  | flagcxCommOpAlltoAll => pick [(0, flagcxCommOpAlltoAll); (1, flagcxCommNoOp); (2, flagcxCommNoOp)] homoType
  | flagcxCommOpAlltoAllv => pick [(0, flagcxCommOpAlltoAllv); (1, flagcxCommNoOp); (2, flagcxCommNoOp)] homoType
  | flagcxCommNoOp => Some flagcxCommNoOp
  end.

(** The planner's operation; [None]: a [homoType] or [mode] outside {0, 1, 2},
    for which the source falls through into unrelated cases. *)
Definition getC2cHomoCommOp (homoType mode : Z) : option flagcxCommOp_t :=
  table_row (pl_commOp p) homoType mode.
End OpTable.

(** ** Refreshing the regions

    [refresh(1)] lays out what every inter-cluster rank sends; [refresh(0)]
    forgets the receives; [refresh(2)] forgets whatever has a peer. *)

(** [FLAGCX_C2C_SEARCH_GRANULARITY]: anything but FINE is COARSE. *)
Definition searchGranularity_fine (env : option string) : bool :=
  match env with Some s => String.eqb s "FINE" | None => false end.

(** Everything that is constant for a cluster in [refresh(1)]. *)
Record refresh_env := MkRefreshEnv {
  re_i : Z;                      (* the cluster *)
  re_ranks : list Z;             (* its inter-cluster ranks *)
  re_n : Z;                      (* nClusterInterRanks *)
  re_fine : bool;
  re_lcm : Z;
  re_myCount : Z;
  re_myRes : Z;
  re_minCount : Z;
  re_isScheduled : bool;
  re_isUseless : bool;
  re_clusterOffset : Z
}.

Section Refresh.
Variable p : flagcxC2cPlanner.
Abbreviation mgr := flagcxInterRankBufferInfoManager (only parsing).

Definition sendGe : bool := pl_recvCount p <=? pl_sendCount p.
Definition pipelined_reduction : bool :=
  (op_is (pl_commOp p) flagcxCommOpReduceScatter || op_is (pl_commOp p) flagcxCommOpAllReduce) &&
  bool_decide (pl_algorithm p = flagcxAlgoPipeline).

(** The pipelined layout for one destination cluster [z] of [size] ranks. *)
Definition push_pipelined (v : refresh_env) (j : Z) (rank : Z) (m : mgr) (z size clusterdataoffset : Z) : option mgr :=
  if cc_nranks (pl_comm p) mod U64_MOD =? 0 then None else
  let rankCount := pl_totalCount p / (cc_nranks (pl_comm p) mod U64_MOD) in
  let data := rankCount *u64 size in
  let myCount := data / re_n v in
  let myRes := data mod re_n v in
  let minCount := data / re_lcm v in
  if minCount =? 0 then None else
  let isScheduled := re_isScheduled v || (re_i v =? z) in
  let m1 := foldl (fun m k => pushBackBufferInfo m (re_i v) rank
                                ((clusterdataoffset *u64 rankCount) +u64 (myCount *u64 j) +u64 (minCount *u64 Z.of_nat k))
                                minCount z false isScheduled (-1) (-1))
              m (seq 0 (Z.to_nat (myCount / minCount))) in
  Some (if (j =? re_n v - 1) && (0 <? myRes)
        then pushBackBufferInfo m1 (re_i v) rank ((clusterdataoffset *u64 rankCount) +u64 (myCount *u64 j))
               myRes z false isScheduled (-1) (-1)
        else m1).

(** The balanced layout for one destination cluster: the last [myRes] ranks
    take one element more. *)
Definition rank_count (v : refresh_env) (j : Z) : Z :=
  re_myCount v +u64 (if re_n v - re_myRes v <=? j then 1 else 0).
Definition rank_offset (v : refresh_env) (j : Z) : Z :=
  if j <? re_n v - re_myRes v then re_myCount v *u64 j
  else (re_myCount v *u64 (re_n v - re_myRes v)) +u64 ((re_myCount v +u64 1) *u64 (j - (re_n v - re_myRes v))).
Definition push_balanced (v : refresh_env) (j : Z) (rank : Z) (m : mgr) (z : Z) : mgr :=
  let rankMinCount := if re_fine v then re_minCount v else rank_count v j in
  foldl (fun m k => pushBackBufferInfo m (re_i v) rank
                      (if sendGe then rank_offset v j +u64 (rankMinCount *u64 Z.of_nat k)
                       else (re_clusterOffset v *u64 pl_sendCount p) +u64 rank_offset v j +u64 (rankMinCount *u64 Z.of_nat k))
                      rankMinCount z false (re_isScheduled v) (-1) (-1))
    m (seq 0 (Z.to_nat (if 0 <? rankMinCount then rank_count v j / rankMinCount else 0))).

(** The loop over the destination clusters, for one inter-cluster rank. *)
Definition refresh_dest (v : refresh_env) (j rank : Z) (acc : mgr * Z) (z : nat) : option (mgr * Z) :=
  let '(m, clusterdataoffset) := acc in
  if pipelined_reduction then
    size ← arr_get (cc_clusterSizes (pl_comm p)) (Z.of_nat z);
    m' ← push_pipelined v j rank m (Z.of_nat z) size clusterdataoffset;
    Some (m', clusterdataoffset +u64 size)
  else if negb (re_i v =? Z.of_nat z) && negb (re_isUseless v)
  then Some (push_balanced v j rank m (Z.of_nat z), clusterdataoffset)
  else Some (m, clusterdataoffset).

Definition refresh_rank (v : refresh_env) (m : mgr) (j : nat) : option mgr :=
  rank ← arr_get (re_ranks v) (Z.of_nat j);
  '(m', _) ← mfold (refresh_dest v (Z.of_nat j) rank) (m, 0) (seq 0 (length (pl_clusterInterRankList p)));
  Some m'.

(** What is computed once per cluster. *)
Definition refresh_env_of (fine : bool) (lcm clusterOffset : Z) (i : nat) (ranks : list Z) : option refresh_env :=
  let n := if pl_multiNic p then Z.of_nat (length ranks) else 1 in
  size ← arr_get (cc_clusterSizes (pl_comm p)) (Z.of_nat i);
  if (n =? 0) || (lcm =? 0) then None else
  let data := if sendGe then pl_totalCount p else pl_sendCount p *u64 size in
  let myCount := data / n in
  let rooted := 0 <=? pl_rootClusterId p in
  Some (MkRefreshEnv (Z.of_nat i) ranks n fine lcm myCount (data mod n)
          (if fine then data / lcm else myCount)
          (rooted && (op_is (pl_commOp p) flagcxCommOpReduce || op_is (pl_commOp p) flagcxCommOpGather) &&
           (Z.of_nat i =? pl_rootClusterId p))
          (rooted && (op_is (pl_commOp p) flagcxCommOpScatter || op_is (pl_commOp p) flagcxCommOpBroadcast) &&
           negb (Z.of_nat i =? pl_rootClusterId p))
          clusterOffset).

Definition refresh_cluster (fine : bool) (lcm : Z) (acc : mgr * Z) (i : nat) : option (mgr * Z) :=
  let '(m, clusterOffset) := acc in
  ranks ← pl_clusterInterRankList p !! i;
  v ← refresh_env_of fine lcm clusterOffset i ranks;
  size ← arr_get (cc_clusterSizes (pl_comm p)) (Z.of_nat i);
  m' ← mfold (refresh_rank v) m (seq 0 (Z.to_nat (re_n v)));
  Some (m', clusterOffset + size).

(** Forgetting entries, over every inter-cluster rank of every cluster. *)
Definition drop_rank (keep : flagcxBufferInfo -> bool) (i : nat) (m : mgr) (rank : Z) : mgr :=
  setBufferInfoList m (Z.of_nat i) rank (filter (fun x => keep x = true) (getBufferInfoList m (Z.of_nat i) rank)).
Fixpoint drop_entries (keep : flagcxBufferInfo -> bool) (i : nat) (lists : list (list Z)) (m : mgr) : mgr :=
  match lists with
  | [] => m
  | ranks :: lists' => drop_entries keep (S i) lists' (foldl (drop_rank keep i) m ranks)
  end.

Definition refresh (env : option string) (isSendRecv : Z) (m : mgr) : option mgr :=
  if isSendRecv =? 2 then
    Some (drop_entries (fun x => bi_peerRank x =? -1) 0 (pl_clusterInterRankList p) m)
  else if negb (isSendRecv =? 0) then
    lcm ← getLcmOfInterRankList (pl_clusterInterRankList p);
    '(m', _) ← mfold (refresh_cluster (searchGranularity_fine env) lcm) (resetBufferInfo m, 0)
                 (seq 0 (length (pl_clusterInterRankList p)));
    Some m'
  else Some (drop_entries (fun x => negb (bi_isRecv x)) 0 (pl_clusterInterRankList p) m).

(** ** Matching sends with receivers *)

(** The receiver's rank tried at index [r2]. *)
Definition try_rank (searchMethod : Z) (ranks : list Z) (r1 r2 : nat) : option Z :=
  let n := length ranks in
  ranks !! (if searchMethod =? 1 then ((r2 + r1) mod n)%nat else r2).

(** The first receiver with room for the whole region. *)
Fixpoint find_push (searchMethod : Z) (m : mgr) (zc : Z) (ranks : list Z) (r1 : nat) (offset count : Z)
    (r2s : list nat) : option Z :=
  match r2s with
  | [] => None
  | r2 :: r2s' =>
      match try_rank searchMethod ranks r1 r2 with
      | None => None
      | Some rank =>
          if checkIfPossibleToPush m zc rank offset count then Some rank
          else find_push searchMethod m zc ranks r1 offset count r2s'
      end
  end.

(** The receiver with room for the longest prefix or suffix. *)
Definition split_better (m : mgr) (zc : Z) (ranks : list Z) (r1 : nat) (offset count : Z)
    (acc : Z * Z * Z) (r2 : nat) : Z * Z * Z :=
  let '(maxSplitCount, finalPushMode, splitRank) := acc in
  match ranks !! ((r2 + r1) mod length ranks)%nat with
  | None => acc
  | Some rank =>
      match checkIfPossibleToSplitAndPush m zc rank offset count with
      | Some (splitCount, pushMode) =>
          if maxSplitCount <? splitCount then (splitCount, pushMode, rank) else acc
      | None => acc
      end
  end.

(** The pushes of a split, before the entry is erased. *)
Definition push_split (m : mgr) (sc sr zc splitRank loopId : Z) (it : flagcxBufferInfo) (n mode : Z) : mgr :=
  let o := bi_offset it in let c := bi_count it in let d := bi_clusterIdToSend it in
  if mode =? 0 then
    let m1 := pushBackBufferInfo m zc splitRank o n 0 true true sr loopId in
    let m2 := pushBackBufferInfo m1 sc sr o n d false true splitRank loopId in
    pushBackBufferInfo m2 sc sr (o +u64 n) (c -u64 n) d false false (-1) (-1)
  else if mode =? 1 then
    let tail := (o + c - n) mod U64_MOD in
    let m1 := pushBackBufferInfo m zc splitRank tail n 0 true true sr loopId in
    let m2 := pushBackBufferInfo m1 sc sr tail n d false true splitRank loopId in
    pushBackBufferInfo m2 sc sr o (c -u64 n) d false false (-1) (-1)
  else m.

Definition bi_schedule (it : flagcxBufferInfo) (peerRank loopId : Z) : flagcxBufferInfo :=
  MkBufferInfo (bi_offset it) (bi_count it) (bi_clusterIdToSend it) (bi_isRecv it) true peerRank loopId.

(** An entry the edge from [sc] to [zc] still has to place. *)
Definition pending (zc : Z) (it : flagcxBufferInfo) : bool :=
  negb (bi_isScheduled it) && negb (bi_isRecv it) && (bi_clusterIdToSend it =? zc).

(** One iteration over the list of rank [sr] at index [i]: the new state and
    the next index. *)
Definition edge_body (searchMethod loopId : Z) (m : mgr) (sc sr zc : Z) (ranks : list Z) (r1 i : nat)
    (it : flagcxBufferInfo) : option (mgr * nat) :=
  if negb (pending zc it) then Some (m, S i) else
  match find_push searchMethod m zc ranks r1 (bi_offset it) (bi_count it) (seq 0 (length ranks)) with
  | Some rank =>
      let m1 := pushBackBufferInfo m zc rank (bi_offset it) (bi_count it) 0 true true sr loopId in
      Some (setBufferInfoList m1 sc sr (<[i := bi_schedule it rank loopId]> (getBufferInfoList m1 sc sr)), S i)
  | None =>
      rank0 ← ranks !! 0%nat;
      let '(maxSplitCount, finalPushMode, splitRank) :=
        foldl (split_better m zc ranks r1 (bi_offset it) (bi_count it)) (0, 0, rank0) (seq 0 (length ranks)) in
      if 0 <? maxSplitCount then
        let m1 := push_split m sc sr zc splitRank loopId it maxSplitCount finalPushMode in
        Some (setBufferInfoList m1 sc sr (delete i (getBufferInfoList m1 sc sr)), i)
      else Some (m, S i)
  end.

(** The iteration: pushes to the list being traversed are reached later. *)
Fixpoint edge_loop (fuel : nat) (searchMethod loopId : Z) (m : mgr) (sc sr zc : Z) (ranks : list Z) (r1 i : nat)
    : option mgr :=
  match fuel with
  | O => None
  | S fuel' =>
      match getBufferInfoList m sc sr !! i with
      | None => Some m
      | Some it =>
          '(m', i') ← edge_body searchMethod loopId m sc sr zc ranks r1 i it;
          edge_loop fuel' searchMethod loopId m' sc sr zc ranks r1 i'
      end
  end.

(** A split leaves a shorter region: twice the pending counts and the length
    bound the number of iterations. *)
Definition edge_fuel (m : mgr) (sc sr : Z) : nat :=
  S (sum_list ((fun it => S (2 * Z.to_nat (bi_count it))) <$> getBufferInfoList m sc sr)).

Definition search_rank (searchMethod loopId sc zc : Z) (ranks : list Z) (m : mgr) (r1sr : nat * Z) : option mgr :=
  edge_loop (edge_fuel m sc r1sr.2) searchMethod loopId m sc r1sr.2 zc ranks r1sr.1 0.

(** All the sends of cluster [sc] to cluster [zc]. *)
Definition search_edge (searchMethod loopId : Z) (m : mgr) (sc zc : nat) : option mgr :=
  senders ← pl_clusterInterRankList p !! sc;
  ranks ← pl_clusterInterRankList p !! zc;
  mfold (search_rank searchMethod loopId (Z.of_nat sc) (Z.of_nat zc) ranks) m (imap (fun r1 sr => (r1, sr)) senders).

(** First every cluster sends to the later ones, then to the earlier ones. *)
Definition search_pairs (n : nat) : list (nat * nat) :=
  flat_map (fun j => (fun z => (j, z)) <$> seq (S j) (n - S j)) (seq 0 n).
Definition search_forward (searchMethod loopId : Z) (m : mgr) (jz : nat * nat) : option mgr :=
  search_edge searchMethod loopId m jz.1 jz.2.
Definition search_backward (searchMethod loopId : Z) (m : mgr) (jz : nat * nat) : option mgr :=
  search_edge searchMethod loopId m jz.2 jz.1.
Definition searchHeteroSendRecvOps (searchMethod loopId : Z) (m : mgr) : option mgr :=
  let pairs := search_pairs (length (pl_clusterInterRankList p)) in
  m1 ← mfold (search_forward searchMethod loopId) m pairs;
  mfold (search_backward searchMethod loopId) m1 pairs.
End Refresh.

(** The planner as another rank of the same communicator builds it: what
    depends on the rank, and the rest. *)
Record rank_info := MkRankInfo {
  ri_clusterId : Z; ri_homoRank : Z; ri_homoInterMyRank : Z; ri_isRootCluster : bool; ri_clusterCount : Z; ri_clusterOffset : Z
}.
Definition on_rank (p : flagcxC2cPlanner) (rank : Z) (i : rank_info) : flagcxC2cPlanner :=
  let c := pl_comm p in
  MkPlanner (pl_nSeqPreSteps p) (pl_nPipePreSteps p) (pl_nSeqInterSteps p) (pl_nPipePostSteps p) (pl_nSeqPostSteps p)
    (pl_nchunks p) (pl_sendCount p) (pl_recvCount p) (pl_rootRank p)
    (MkComm rank (cc_nranks c) (cc_nclusters c) (ri_homoRank i) (cc_homoRootRank c) (ri_clusterCount i) (cc_clusterSizes c)
       (cc_clusterIds c) (cc_globalRank2HomoRank c) (cc_homoInterRootRank c) (ri_homoInterMyRank i) (cc_homoInterRanks c)
       (cc_clusterInterRankList c))
    (pl_commOp p) (pl_redOp p) (pl_clusterInterRankList p) (ri_clusterId i) rank (ri_homoInterMyRank i) (pl_totalCount p)
    (pl_rootClusterId p) (ri_isRootCluster i) (ri_clusterCount i) (ri_clusterOffset i) (pl_multiNic p) (pl_eachNicPerRank p)
    (pl_algorithm p) (pl_manager p).

(** ** What the table promises *)

(** The rank that plays the other part in a send and receive. *)
Definition at_root (q : flagcxC2cPlanner) : bool := pl_rank q =? pl_rootRank q.
Definition at_inter0 (q : flagcxC2cPlanner) : bool := pl_homoInterMyRank q =? 0.

(** C40: within a cluster the ranks agree on the collective.  For every
    operation, step and mode the table has an entry, and either all ranks of
    the cluster get the same one, or a send and a receive: one for the root
    rank (or the inter-cluster rank 0), the other for everyone else. *)
Theorem homo_ops_agree (p : flagcxC2cPlanner) (isRoot : bool) (homoType mode : Z)
    (Ht : 0 <= homoType <= 2) (Hm : 0 <= mode <= 2) :
  (exists op, forall r i, ri_isRootCluster i = isRoot -> getC2cHomoCommOp (on_rank p r i) homoType mode = Some op) \/
  (exists special one other,
     (special = at_root \/ special = at_inter0 /\ homoType = 1) /\
     ((one, other) = (flagcxCommOpSend, flagcxCommOpRecv) \/ (one, other) = (flagcxCommOpRecv, flagcxCommOpSend)) /\
     forall r i, ri_isRootCluster i = isRoot ->
       getC2cHomoCommOp (on_rank p r i) homoType mode = Some (if special (on_rank p r i) then one else other)).
Proof.
  assert (H3 : homoType = 0 \/ homoType = 1 \/ homoType = 2) by lia.
  assert (Hm3 : mode = 0 \/ mode = 1 \/ mode = 2) by lia.
  unfold getC2cHomoCommOp, table_row, root_case, inter0_case, rootRank_case, algo_is. cbn [on_rank pl_commOp pl_algorithm pl_isRootCluster].
  destruct (pl_commOp p), (pl_algorithm p), H3 as [->|[->| ->]], Hm3 as [->|[->| ->]], isRoot;
    first
      [ left; eexists; intros r i Hc; rewrite ?Hc; reflexivity
      | right; exists at_root; do 2 eexists; split; [by left|split; [by left|intros r i Hc; rewrite ?Hc; reflexivity]]
      | right; exists at_root; do 2 eexists; split; [by left|split; [by right|intros r i Hc; rewrite ?Hc; reflexivity]]
      | right; exists at_inter0; do 2 eexists; split; [by right|split; [by left|intros r i Hc; rewrite ?Hc; reflexivity]]
      | right; exists at_inter0; do 2 eexists; split; [by right|split; [by right|intros r i Hc; rewrite ?Hc; reflexivity]] ].
Qed.

Lemma homo_ops_agree_witness :
  let p := MkPlanner 1 0 1 0 1 8 8 8 0 (MkComm 0 4 2 0 0 2 [2; 2] [0; 0; 1; 1] [0; 1; 0; 1] 0 0 2 [[0; 1]; [2; 3]])
    flagcxCommOpGather flagcxRedNoOp [[0; 1]; [2; 3]] 0 0 0 8 0 true 2 0 true false flagcxAlgoSequential (MkManager 8 ∅) in
  (exists op, forall r i, ri_isRootCluster i = true -> getC2cHomoCommOp (on_rank p r i) 2 1 = Some op) \/
  (exists special one other,
     (special = at_root \/ special = at_inter0 /\ 2 = 1) /\
     ((one, other) = (flagcxCommOpSend, flagcxCommOpRecv) \/ (one, other) = (flagcxCommOpRecv, flagcxCommOpSend)) /\
     forall r i, ri_isRootCluster i = true ->
       getC2cHomoCommOp (on_rank p r i) 2 1 = Some (if special (on_rank p r i) then one else other)).
Proof. intros p. apply (homo_ops_agree p true 2 1); lia. Defined.

(** ** An example *)

(** A plan of two clusters, of three ranks each, with two and three
    inter-cluster ranks, for the sum of seven elements. *)
Definition example_comm : flagcxComm :=
  MkComm 0 6 2 0 0 3 [3; 3] [0; 0; 0; 1; 1; 1] [0; 1; 2; 0; 1; 2] 0 0 2 [[0; 1]; [3; 4; 5]].
Definition example_plan : flagcxC2cPlanner :=
  MkPlanner 1 0 1 0 1 7 7 7 (-1) example_comm flagcxCommOpAllReduce flagcxSum [[0; 1]; [3; 4; 5]] 0 0 0 7 (-1) false 3 0
    true false flagcxAlgoSequential (MkManager 7 ∅).
Definition example_info (r : Z) : rank_info :=
  if r <=? 2 then MkRankInfo 0 r r false 3 0 else MkRankInfo 1 (r - 3) (r - 3) false 3 3.

(** The example is the planner that the constructor builds. *)
Example example_constructed :
  mk_flagcxC2cPlanner (-1) None 7 7 (-1) example_comm flagcxCommOpAllReduce flagcxSum = Some example_plan.
Proof. reflexivity. Qed.
