(* ===== verification/C2cSchedule.v ===== *)
(** What the planner's search for hetero sends and receives guarantees
    ([flagcxC2cPlanner::searchHeteroSendRecvOps] and [refresh] in
    [flagcx/runner/c2c_algo.cc]).

    The abstract scheduler [sched_step] places one pending region, whole or
    one end of it, at a receiver with room for it.  The search is shown to
    terminate and to be a sequence of such steps; what the steps preserve then
    holds of the search. *)
From S2P Require Import Prelude Flagcx Arrays C2cBuffers C2cPlanner.

(** ** Lists of pairwise related elements *)

Section Pairwise.
Context {A : Type} (R : A -> A -> Prop) (Rsym : forall x y, R x y -> R y x).

Lemma pairwise_middle l1 x l2 :
  StronglySorted R (l1 ++ x :: l2) <-> StronglySorted R (l1 ++ l2) /\ Forall (R x) (l1 ++ l2).
Proof.
  rewrite !StronglySorted_app_inv, Forall_app, !Forall_forall.
  split.
  - intros (Ha & Hb & Hc). inversion Hb as [|? ? Hb1 Hb2]; subst. rewrite Forall_forall in Hb2.
    split; [|split; [|done]].
    + split; [done|]. split; [done|]. intros y z Hy Hz. apply Hc; [done|by right].
    + intros y Hy. apply Rsym, Hc; [done|by left].
  - intros ((Ha & Hb & Hc) & Hd & He). split; [done|]. split.
    + constructor; [done|]. by apply Forall_forall.
    + intros y z Hy [->|Hz]%elem_of_cons; [by apply Rsym, Hd|by apply Hc].
Qed.

Lemma pairwise_snoc l x : StronglySorted R (l ++ [x]) <-> StronglySorted R l /\ Forall (R x) l.
Proof. rewrite pairwise_middle. by rewrite app_nil_r. Qed.
End Pairwise.

(** ** The abstract scheduler *)

Abbreviation mgr := flagcxInterRankBufferInfoManager (only parsing).

Section Scheduler.
Variables (L : list (list Z)) (loop : Z).

Definition rank_in (c : nat) (r : Z) : Prop := exists l, L !! c = Some l /\ r ∈ l.

(** Writing the receiver's new entry and the sender's new list. *)
Definition place (m : mgr) (zc : nat) (rank : Z) (recv : flagcxBufferInfo) (sc : nat) (sr : Z)
    (l : list flagcxBufferInfo) : mgr :=
  setBufferInfoList
    (setBufferInfoList m (Z.of_nat zc) rank (getBufferInfoList m (Z.of_nat zc) rank ++ [recv]))
    (Z.of_nat sc) sr l.

Definition recv_of (o n sr loop : Z) : flagcxBufferInfo := MkBufferInfo o n 0 true true sr loop.
Definition sent_of (o n : Z) (it : flagcxBufferInfo) (rank loop : Z) : flagcxBufferInfo :=
  MkBufferInfo o n (bi_clusterIdToSend it) false true rank loop.
Definition open_of (o n : Z) (it : flagcxBufferInfo) : flagcxBufferInfo :=
  MkBufferInfo o n (bi_clusterIdToSend it) false false (-1) (-1).

(** [o, n] is one end of the region of [it], [o'] the start of the rest. *)
Definition end_of (it : flagcxBufferInfo) (o n o' : Z) : Prop :=
  0 < n < bi_count it /\
  (o = bi_offset it /\ o' = bi_offset it + n \/ o = bi_offset it + bi_count it - n /\ o' = bi_offset it).

(** One step of the sends of rank [sr] of cluster [sc] to cluster [zc]. *)
Inductive sched_at (sc : nat) (sr : Z) (zc : nat) (m : mgr) : mgr -> Prop :=
| sched_whole rank it l1 l2 :
    rank_in sc sr -> rank_in zc rank -> sc <> zc ->
    getBufferInfoList m (Z.of_nat sc) sr = l1 ++ it :: l2 -> pending (Z.of_nat zc) it = true ->
    free_at m (Z.of_nat zc) rank (bi_offset it) (bi_count it) ->
    sched_at sc sr zc m (place m zc rank (recv_of (bi_offset it) (bi_count it) sr loop) sc sr
                    (l1 ++ sent_of (bi_offset it) (bi_count it) it rank loop :: l2))
| sched_split rank it l1 l2 o n o' :
    rank_in sc sr -> rank_in zc rank -> sc <> zc ->
    getBufferInfoList m (Z.of_nat sc) sr = l1 ++ it :: l2 -> pending (Z.of_nat zc) it = true ->
    end_of it o n o' -> free_at m (Z.of_nat zc) rank o n ->
    sched_at sc sr zc m (place m zc rank (recv_of o n sr loop) sc sr
                    (l1 ++ l2 ++ [sent_of o n it rank loop; open_of o' (bi_count it - n) it])).

Definition sched_step (m m' : mgr) : Prop := exists sc sr zc, sched_at sc sr zc m m'.

(** *** Look-ups after a step *)
Lemma place_get m zc rank recv sc sr l c r :
  sc <> zc ->
  getBufferInfoList (place m zc rank recv sc sr l) c r
  = if bool_decide ((c, r) = (Z.of_nat sc, sr)) then l
    else if bool_decide ((c, r) = (Z.of_nat zc, rank)) then getBufferInfoList m (Z.of_nat zc) rank ++ [recv]
    else getBufferInfoList m c r.
Proof. intros Hne. unfold place. by rewrite !getBufferInfoList_set. Qed.

(** A property of lists that every step keeps: it must survive the new
    receive on the one side and the rewriting of the send on the other. *)
Lemma place_forall (P : Z -> Z -> list flagcxBufferInfo -> Prop) m zc rank recv sc sr l :
  sc <> zc -> (forall c r, P c r (getBufferInfoList m c r)) ->
  P (Z.of_nat sc) sr l -> P (Z.of_nat zc) rank (getBufferInfoList m (Z.of_nat zc) rank ++ [recv]) ->
  forall c r, P c r (getBufferInfoList (place m zc rank recv sc sr l) c r).
Proof.
  intros Hne Hall Hl Hr c r. rewrite place_get by done.
  destruct (bool_decide_reflect ((c, r) = (Z.of_nat sc, sr))) as [[= -> ->]|]; [done|].
  destruct (bool_decide_reflect ((c, r) = (Z.of_nat zc, rank))) as [[= -> ->]|]; [done|]. apply Hall.
Qed.

Lemma pending_spec zc it :
  pending zc it = true -> bi_isScheduled it = false /\ bi_isRecv it = false /\ bi_clusterIdToSend it = zc.
Proof. unfold pending. intros H. bool_to_prop. done. Qed.

Lemma step_infos_ok m m' : infos_ok m -> sched_step m m' -> infos_ok m'.
Proof.
  intros Hm Hs. unfold infos_ok in *. destruct Hs as (sc & sr & zc & [rank it l1 l2 _ _ Hne Hl _ _|
    rank it l1 l2 o n o' _ _ Hne Hl _ He _]);
    apply (place_forall (fun _ _ => Forall info_ok)); try done;
    pose proof (Hm (Z.of_nat sc) sr) as Hsr; rewrite Hl, Forall_app, Forall_cons in Hsr;
    destruct Hsr as (Ha & Hi & Hb).
  - rewrite Forall_app, Forall_cons. done.
  - apply Forall_app; split; [apply Hm|by repeat constructor; apply Hi].
  - unfold info_ok, region_ok in Hi. destruct He as [Hn [[-> ->]|[-> ->]]];
      rewrite !Forall_app, !Forall_cons; unfold info_ok, region_ok; cbn; and_split.
  - apply Forall_app; split; [apply Hm|]. unfold info_ok, region_ok in *.
    destruct He as [Hn [[-> ->]|[-> ->]]]; repeat constructor; cbn; lia.
Qed.

(** *** No receive overlaps anything *)
Definition no_clash (x y : flagcxBufferInfo) : Prop :=
  bi_isRecv x = true \/ bi_isRecv y = true -> apart (bi_offset x) (bi_count x) (bi_offset y) (bi_count y).

Lemma no_clash_sym x y : no_clash x y -> no_clash y x.
Proof. unfold no_clash, apart. tauto. Qed.

Definition recv_apart (m : mgr) : Prop := forall c r, StronglySorted no_clash (getBufferInfoList m c r).

Lemma free_no_clash m c r o n sr :
  free_at m c r o n -> Forall (no_clash (recv_of o n sr loop)) (getBufferInfoList m c r).
Proof. intros Hf. eapply Forall_impl; [exact Hf|]. intros x Hx _. exact Hx. Qed.

Lemma step_recv_apart m m' : recv_apart m -> sched_step m m' -> recv_apart m'.
Proof.
  intros Hm Hs. unfold recv_apart in *. destruct Hs as (sc & sr & zc & [rank it l1 l2 _ _ Hne Hl Hp Hf|
    rank it l1 l2 o n o' _ _ Hne Hl Hp He Hf]);
    apply (place_forall (fun _ _ => StronglySorted no_clash)); try done;
    pose proof (Hm (Z.of_nat sc) sr) as Hsr; rewrite Hl, (pairwise_middle _ no_clash_sym) in Hsr;
    destruct Hsr as [Ha Hb]; apply pending_spec in Hp as (Hp1 & Hp2 & Hp3);
    try (apply (pairwise_snoc _ no_clash_sym); split; [apply Hm|by apply free_no_clash]).
  - apply (pairwise_middle _ no_clash_sym). split; [done|].
    eapply Forall_impl; [exact Hb|]. intros x Hx. unfold no_clash in *. cbn in *. rewrite Hp2 in Hx. exact Hx.
  - rewrite app_assoc. change [?a; ?b] with ([a] ++ [b]). rewrite app_assoc.
    assert (Hsub : forall x o1 n1, no_clash it x -> bi_offset it <= o1 -> o1 + n1 <= bi_offset it + bi_count it ->
      forall y, bi_isRecv y = false -> bi_offset y = o1 -> bi_count y = n1 -> no_clash y x).
    { intros x o1 n1 Hx Hlo Hhi y Hy <- <- [Hr|Hr]; [congruence|].
      unfold no_clash, apart in *. specialize (Hx (or_intror Hr)). lia. }
    assert (Hall : forall y, bi_isRecv y = false -> bi_offset it <= bi_offset y ->
      bi_offset y + bi_count y <= bi_offset it + bi_count it -> Forall (no_clash y) (l1 ++ l2)).
    { intros y Hy Hlo Hhi. eapply Forall_impl; [exact Hb|]. intros x Hx. by eapply (Hsub x _ _ Hx Hlo Hhi y). }
    apply (pairwise_snoc _ no_clash_sym). split; [apply (pairwise_snoc _ no_clash_sym); split; [done|]|].
    + apply Hall; [done|..]; destruct He as [Hn [[-> ->]|[-> ->]]]; cbn; lia.
    + apply Forall_app. split; [apply Hall; [done|..]; destruct He as [Hn [[-> ->]|[-> ->]]]; cbn; lia|].
      constructor; [|done]. intros [Hx|Hx]; discriminate Hx.
Qed.

(** *** Every element keeps its send *)

(** How many entries for cluster [z] cover element [x]. *)
Definition covers (z x : Z) (it : flagcxBufferInfo) : bool :=
  negb (bi_isRecv it) && (bi_clusterIdToSend it =? z) && (bi_offset it <=? x) && (x <? bi_offset it + bi_count it).
Definition coverage (z x : Z) (l : list flagcxBufferInfo) : nat := length (filter (fun it => covers z x it = true) l).

Lemma coverage_app z x l1 l2 : coverage z x (l1 ++ l2) = (coverage z x l1 + coverage z x l2)%nat.
Proof. unfold coverage. by rewrite filter_app, length_app. Qed.
Lemma coverage_one z x it : coverage z x [it] = if covers z x it then 1%nat else 0%nat.
Proof.
  unfold coverage. destruct (covers z x it) eqn:Hc.
  - by rewrite filter_cons_True.
  - rewrite filter_cons_False; [done|]. by rewrite Hc.
Qed.
Lemma coverage_cons z x it l : coverage z x (it :: l) = ((if covers z x it then 1 else 0) + coverage z x l)%nat.
Proof. change (it :: l) with ([it] ++ l). by rewrite coverage_app, coverage_one. Qed.

Lemma step_coverage m m' z x c r :
  sched_step m m' -> coverage z x (getBufferInfoList m' c r) = coverage z x (getBufferInfoList m c r).
Proof.
  intros Hs. revert c r. destruct Hs as (sc & sr & zc & [rank it l1 l2 _ _ Hne Hl Hp _|
    rank it l1 l2 o n o' _ _ Hne Hl Hp He _]);
    apply (place_forall (fun c r l => coverage z x l = coverage z x (getBufferInfoList m c r))); try done;
    rewrite ?Hl; apply pending_spec in Hp as (Hp1 & Hp2 & Hp3);
    rewrite ?coverage_app, ?coverage_cons.
  - unfold covers. cbn. by rewrite Hp2.
  - unfold covers. cbn. change (coverage z x []) with 0%nat. lia.
  - change (coverage z x []) with 0%nat. unfold covers. cbn. rewrite Hp2. cbn.
    destruct He as [Hn [[-> ->]|[-> ->]]]; destruct (bi_clusterIdToSend it =? z); cbn; try lia;
      repeat match goal with |- context [?a <=? ?b] => destruct (Z.leb_spec a b) end;
      repeat match goal with |- context [?a <? ?b] => destruct (Z.ltb_spec a b) end; cbn; lia.
  - unfold covers. cbn. change (coverage z x []) with 0%nat. lia.
Qed.

(** *** Sends and receives come in pairs *)

Definition key (it : flagcxBufferInfo) : Z * Z * Z := (bi_offset it, bi_count it, bi_loopId it).
Definition is_sent (zc rank : Z) (it : flagcxBufferInfo) : bool :=
  negb (bi_isRecv it) && bi_isScheduled it && (bi_peerRank it =? rank) && (bi_clusterIdToSend it =? zc).
Definition is_got (sr : Z) (it : flagcxBufferInfo) : bool := bi_isRecv it && (bi_peerRank it =? sr).

Definition keys_of (f : flagcxBufferInfo -> bool) (l : list flagcxBufferInfo) : list (Z * Z * Z) :=
  key <$> filter (fun it => f it = true) l.

Lemma keys_of_app f l1 l2 : keys_of f (l1 ++ l2) = keys_of f l1 ++ keys_of f l2.
Proof. unfold keys_of. by rewrite filter_app, fmap_app. Qed.
Lemma keys_of_cons f it l : keys_of f (it :: l) = (if f it then [key it] else []) ++ keys_of f l.
Proof.
  unfold keys_of. destruct (f it) eqn:Hf; [by rewrite filter_cons_True|].
  rewrite filter_cons_False; [done|]. by rewrite Hf.
Qed.

(** A rank belongs to one cluster. *)
Definition ranks_distinct : Prop := forall c1 c2 r, rank_in c1 r -> rank_in c2 r -> c1 = c2.

(** Sends and receives agree up to [R]: equality when their order is the same,
    permutation when it is not. *)
Section Pairing.
Context (R : list (Z * Z * Z) -> list (Z * Z * Z) -> Prop) `{!PreOrder R}.
Hypothesis (Happ : forall x y z, R x y -> R (x ++ z) (y ++ z)).

(** What rank [sr] of [sc] sends to [rank] of [zc] is what the latter receives,
    apart from the sends [B] of earlier rounds. *)
Definition paired (B : nat -> Z -> nat -> Z -> list (Z * Z * Z)) (m : mgr) : Prop :=
  forall sc sr zc rank, rank_in sc sr -> rank_in zc rank -> sc <> zc ->
    R (keys_of (is_sent (Z.of_nat zc) rank) (getBufferInfoList m (Z.of_nat sc) sr))
      (B sc sr zc rank ++ keys_of (is_got sr) (getBufferInfoList m (Z.of_nat zc) rank)).

(** The bookkeeping common to both kinds of step: one send entry, scheduled
    with key [k] to [rank] of [zc], and one receive entry with the same key. *)
Lemma place_paired B m zc rank recv sc sr l new k :
  ranks_distinct -> rank_in sc sr -> rank_in zc rank -> sc <> zc -> paired B m ->
  recv = recv_of k.1.1 k.1.2 sr k.2 ->
  (forall zc' rank', R (keys_of (is_sent zc' rank') l)
     (keys_of (is_sent zc' rank') (getBufferInfoList m (Z.of_nat sc) sr) ++ (if is_sent zc' rank' new then [k] else []))) ->
  (forall q, keys_of (is_got q) l = keys_of (is_got q) (getBufferInfoList m (Z.of_nat sc) sr)) ->
  (forall zc' rank', is_sent zc' rank' new = (zc' =? Z.of_nat zc) && (rank' =? rank)) ->
  paired B (place m zc rank recv sc sr l).
Proof.
  intros Hd Hsr Hzr Hne Hp -> Hsent Hgot Hnew sc' sr' zc' rank' Hin1 Hin2 Hne'.
  specialize (Hp sc' sr' zc' rank' Hin1 Hin2 Hne').
  destruct k as [[o n] lp]. cbn [fst snd] in *.
  set (X := if bool_decide ((sc', sr') = (sc, sr)) && bool_decide ((zc', rank') = (zc, rank)) then [(o, n, lp)] else []).
  assert (HL : R (keys_of (is_sent (Z.of_nat zc') rank') (getBufferInfoList (place m zc rank (recv_of o n sr lp) sc sr l) (Z.of_nat sc') sr'))
    (keys_of (is_sent (Z.of_nat zc') rank') (getBufferInfoList m (Z.of_nat sc') sr') ++ X)).
  { subst X. rewrite place_get by done.
    destruct (bool_decide_reflect ((Z.of_nat sc', sr') = (Z.of_nat sc, sr))) as [Heq|Hneq].
    - injection Heq as Hsc ->. apply Nat2Z.inj in Hsc as ->. rewrite (bool_decide_eq_true_2 ((sc, sr) = _)) by done. cbn [andb].
      specialize (Hsent (Z.of_nat zc') rank'). rewrite Hnew in Hsent.
      destruct (Z.eqb_spec (Z.of_nat zc') (Z.of_nat zc)) as [Hz|Hz], (Z.eqb_spec rank' rank) as [Hr|Hr]; cbn [andb] in Hsent.
      + apply Nat2Z.inj in Hz as ->. subst. by rewrite bool_decide_eq_true_2.
      + by rewrite bool_decide_eq_false_2 by naive_solver.
      + rewrite bool_decide_eq_false_2; [done|]. intros [= -> ->]. done.
      + rewrite bool_decide_eq_false_2; [done|]. intros [= -> ->]. done.
    - rewrite (bool_decide_eq_false_2 ((sc', sr') = (sc, sr))) by naive_solver. cbn [andb]. rewrite app_nil_r.
      destruct (bool_decide_reflect ((Z.of_nat sc', sr') = (Z.of_nat zc, rank))) as [Heq|]; [|done].
      injection Heq as Hsc ->. rewrite Hsc. rewrite keys_of_app, keys_of_cons. cbn. by rewrite app_nil_r. }
  assert (HR : keys_of (is_got sr') (getBufferInfoList (place m zc rank (recv_of o n sr lp) sc sr l) (Z.of_nat zc') rank')
    = keys_of (is_got sr') (getBufferInfoList m (Z.of_nat zc') rank') ++ X).
  { clear HL. subst X. rewrite place_get by done.
    destruct (bool_decide_reflect ((Z.of_nat zc', rank') = (Z.of_nat sc, sr))) as [Heq|Hneq].
    - injection Heq as Hsc ->. rewrite Hgot, Hsc.
      rewrite (bool_decide_eq_false_2 ((zc', sr) = (zc, rank))); [by rewrite andb_false_r, app_nil_r|].
      intros [= -> ->]. apply Nat2Z.inj in Hsc. congruence.
    - destruct (bool_decide_reflect ((Z.of_nat zc', rank') = (Z.of_nat zc, rank))) as [Heq|Hneq2].
      + injection Heq as Hz ->. apply Nat2Z.inj in Hz as ->.
        rewrite (bool_decide_eq_true_2 ((zc, rank) = (zc, rank))) by done. rewrite andb_true_r.
        rewrite keys_of_app, keys_of_cons. change (keys_of (is_got sr') []) with (@nil (Z * Z * Z)). rewrite app_nil_r. f_equal.
        unfold is_got. cbn. destruct (Z.eqb_spec sr sr') as [->|Hnsr].
        * rewrite bool_decide_eq_true_2; [done|]. f_equal. by apply (Hd sc' sc sr').
        * rewrite bool_decide_eq_false_2 by naive_solver. done.
      + rewrite (bool_decide_eq_false_2 ((zc', rank') = (zc, rank))) by naive_solver. by rewrite andb_false_r, app_nil_r. }
  rewrite HR. etrans; [exact HL|]. rewrite (app_assoc (B _ _ _ _)). by apply Happ.
Qed.
End Pairing.

Lemma step_paired B m m' : ranks_distinct -> paired (≡ₚ) B m -> sched_step m m' -> paired (≡ₚ) B m'.
Proof.
  intros Hd Hp Hs.
  assert (Happ : forall x y z : list (Z * Z * Z), x ≡ₚ y -> x ++ z ≡ₚ y ++ z) by (intros x y z ->; done).
  destruct Hs as (sc & sr & zc & [rank it l1 l2 Hi1 Hi2 Hne Hl Hpe _|rank it l1 l2 o n o' Hi1 Hi2 Hne Hl Hpe He _]);
    apply pending_spec in Hpe as (Hp1 & Hp2 & Hp3).
  - apply (place_paired (≡ₚ) Happ B m zc rank _ sc sr _ (sent_of (bi_offset it) (bi_count it) it rank loop)
             (bi_offset it, bi_count it, loop)); try done.
    + intros zc' rank'. rewrite Hl, !keys_of_app, !keys_of_cons.
      assert (Hit : is_sent zc' rank' it = false) by (unfold is_sent; rewrite Hp1; by rewrite andb_false_r).
      rewrite Hit. cbn [app]. change (key (sent_of (bi_offset it) (bi_count it) it rank loop)) with (bi_offset it, bi_count it, loop).
      rewrite <-!app_assoc. by rewrite (Permutation_app_comm (keys_of _ l2)).
    + intros q. rewrite Hl, !keys_of_app, !keys_of_cons. unfold is_got. cbn. by rewrite Hp2.
    + intros zc' rank'. unfold is_sent. cbn. rewrite Hp3, (Z.eqb_sym (Z.of_nat zc)), (Z.eqb_sym rank). apply andb_comm.
  - apply (place_paired (≡ₚ) Happ B m zc rank _ sc sr _ (sent_of o n it rank loop) (o, n, loop)); try done.
    + intros zc' rank'. rewrite Hl, !keys_of_app, !keys_of_cons.
      assert (Hit : is_sent zc' rank' it = false) by (unfold is_sent; rewrite Hp1; by rewrite andb_false_r).
      assert (Hop : is_sent zc' rank' (open_of o' (bi_count it - n) it) = false) by done.
      rewrite Hit, Hop. cbn [app]. rewrite app_nil_r. change (key (sent_of o n it rank loop)) with (o, n, loop).
      by rewrite (app_assoc (keys_of _ l1)).
    + intros q. rewrite Hl, !keys_of_app, !keys_of_cons. unfold is_got. cbn. rewrite Hp2. cbn. by rewrite app_nil_r.
    + intros zc' rank'. unfold is_sent. cbn. rewrite Hp3, (Z.eqb_sym (Z.of_nat zc)), (Z.eqb_sym rank). apply andb_comm.
Qed.

(** *** The order of sends and receives *)

Definition to_cluster (z : Z) (it : flagcxBufferInfo) : bool := negb (bi_isRecv it) && (bi_clusterIdToSend it =? z).
Definition sends_for (z : Z) (l : list flagcxBufferInfo) : list flagcxBufferInfo := filter (fun it => to_cluster z it = true) l.

Lemma sends_for_app z l1 l2 : sends_for z (l1 ++ l2) = sends_for z l1 ++ sends_for z l2.
Proof. apply filter_app. Qed.
Lemma sends_for_cons z it l : sends_for z (it :: l) = (if to_cluster z it then [it] else []) ++ sends_for z l.
Proof.
  unfold sends_for. destruct (to_cluster z it) eqn:Hf; [by rewrite filter_cons_True|].
  rewrite filter_cons_False; [done|]. by rewrite Hf.
Qed.

Lemma keys_of_sends_for z rank l : keys_of (is_sent z rank) l = keys_of (is_sent z rank) (sends_for z l).
Proof.
  induction l as [|it l IH]; [done|]. rewrite sends_for_cons, keys_of_app, keys_of_cons, IH. f_equal.
  destruct (to_cluster z it) eqn:Ht.
  - rewrite keys_of_cons. change (keys_of (is_sent z rank) []) with (@nil (Z * Z * Z)). by rewrite app_nil_r.
  - assert (Hs : is_sent z rank it = false); [|by rewrite Hs]. unfold to_cluster, is_sent in *.
    destruct (bi_isRecv it); [done|]. cbn [negb andb] in *. by rewrite Ht, andb_false_r.
Qed.

(** For every cluster, at most one open send, after all the placed ones. *)
Definition ordered (m : mgr) : Prop := forall c r z, exists s o,
  sends_for z (getBufferInfoList m c r) = s ++ o /\ Forall (fun it => bi_isScheduled it = true) s /\ (length o <= 1)%nat.

Lemma ordered_pending m c r l1 it l2 z :
  ordered m -> getBufferInfoList m c r = l1 ++ it :: l2 -> pending z it = true ->
  sends_for z l2 = [] /\ Forall (fun it => bi_isScheduled it = true) (sends_for z l1).
Proof.
  intros Hm Hl Hp. destruct (Hm c r z) as (s & o & Heq & Hs & Ho). rewrite Hl, sends_for_app, sends_for_cons in Heq.
  apply pending_spec in Hp as (Hp1 & Hp2 & Hp3).
  assert (Hto : to_cluster z it = true) by (unfold to_cluster; rewrite Hp2, Hp3; by rewrite Z.eqb_refl). rewrite Hto in Heq.
  revert s Heq Hs. induction (sends_for z l1) as [|x l IH]; intros [|y s] Heq Hs; cbn [app] in Heq.
  - destruct o as [|x [|? ?]]; [done| |cbn in Ho; lia]. by injection Heq as -> Hn.
  - injection Heq as -> Heq. inversion Hs as [|? ? Hy]; subst. congruence.
  - destruct o as [|? [|? ?]]; [done| |cbn in Ho; lia]. injection Heq as _ Heq. by destruct l.
  - injection Heq as <- Heq. inversion Hs; subst. destruct (IH s Heq) as [? ?]; [done|]. split; [done|]. by constructor.
Qed.

Lemma step_ordered m m' : ordered m -> sched_step m m' -> ordered m'.
Proof.
  intros Hm Hs. unfold ordered in *.
  assert (Hrecv : forall z l r, bi_isRecv r = true -> sends_for z (l ++ [r]) = sends_for z l).
  { intros z l r Hr. rewrite sends_for_app, sends_for_cons. unfold to_cluster. rewrite Hr. apply app_nil_r. }
  destruct Hs as (sc & sr & zc & [rank it l1 l2 _ _ Hne Hl Hp _|rank it l1 l2 o n o' _ _ Hne Hl Hp He _]);
    pose proof (ordered_pending m _ _ _ _ _ _ Hm Hl Hp) as [Hn Hf]; apply pending_spec in Hp as (Hp1 & Hp2 & Hp3);
    apply (place_forall (fun _ _ l => forall z, exists s o, sends_for z l = s ++ o /\
             Forall (fun it => bi_isScheduled it = true) s /\ (length o <= 1)%nat)); try done;
    try (intros z; rewrite Hrecv by done; apply Hm); intros z; specialize (Hm (Z.of_nat sc) sr z); rewrite Hl in Hm;
    rewrite ?sends_for_app, ?sends_for_cons, ?sends_for_app in *; unfold to_cluster in *;
    cbn [sent_of open_of bi_isRecv bi_clusterIdToSend negb andb] in *; rewrite Hp2, Hp3 in *; cbn [negb andb] in *;
    (destruct (Z.eqb_spec (Z.of_nat zc) z) as [<-|Hnz]; [|by rewrite ?app_nil_r]); clear Hm; rewrite Hn.
  - exists (sends_for (Z.of_nat zc) l1 ++ [sent_of (bi_offset it) (bi_count it) it rank loop]), [].
    rewrite <-!app_assoc. split_and!; [done| |cbn; lia]. apply Forall_app. by split; [|repeat constructor].
  - exists (sends_for (Z.of_nat zc) l1 ++ [sent_of o n it rank loop]), [open_of o' (bi_count it - n) it].
    rewrite <-!app_assoc. split_and!; [done| |cbn; lia]. apply Forall_app. by split; [|repeat constructor].
Qed.

Lemma step_paired_ordered B m m' :
  ranks_distinct -> ordered m -> paired eq B m -> sched_step m m' -> paired eq B m'.
Proof.
  intros Hd Hm Hp Hs.
  assert (Happ : forall x y z : list (Z * Z * Z), x = y -> x ++ z = y ++ z) by (intros x y z ->; done).
  destruct Hs as (sc & sr & zc & [rank it l1 l2 Hi1 Hi2 Hne Hl Hpe _|rank it l1 l2 o n o' Hi1 Hi2 Hne Hl Hpe He _]);
    pose proof (ordered_pending m _ _ _ _ _ _ Hm Hl Hpe) as [Hn _]; apply pending_spec in Hpe as (Hp1 & Hp2 & Hp3);
    assert (Hit : forall zc' rank', is_sent zc' rank' it = false)
      by (intros; unfold is_sent; rewrite Hp1; by rewrite andb_false_r).
  - apply (place_paired eq Happ B m zc rank _ sc sr _ (sent_of (bi_offset it) (bi_count it) it rank loop)
             (bi_offset it, bi_count it, loop)); try done.
    + intros zc' rank'. rewrite Hl, !keys_of_app, !keys_of_cons, Hit. cbn [app].
      destruct (is_sent zc' rank' (sent_of _ _ _ _ _)) eqn:Hnew; [|by rewrite !app_nil_r].
      unfold is_sent in Hnew. cbn in Hnew. rewrite Hp3 in Hnew. apply andb_true_iff in Hnew as [_ <-%Z.eqb_eq].
      rewrite (keys_of_sends_for _ _ l2), Hn. by rewrite !app_nil_r.
    + intros q. rewrite Hl, !keys_of_app, !keys_of_cons. unfold is_got. cbn. by rewrite Hp2.
    + intros zc' rank'. unfold is_sent. cbn. rewrite Hp3, (Z.eqb_sym (Z.of_nat zc)), (Z.eqb_sym rank). apply andb_comm.
  - apply (place_paired eq Happ B m zc rank _ sc sr _ (sent_of o n it rank loop) (o, n, loop)); try done.
    + intros zc' rank'. rewrite Hl, !keys_of_app, !keys_of_cons, Hit.
      change (is_sent zc' rank' (open_of o' (bi_count it - n) it)) with false. cbn [app]. rewrite app_nil_r.
      by rewrite app_assoc.
    + intros q. rewrite Hl, !keys_of_app, !keys_of_cons. unfold is_got. cbn. rewrite Hp2. cbn. by rewrite app_nil_r.
    + intros zc' rank'. unfold is_sent. cbn. rewrite Hp3, (Z.eqb_sym (Z.of_nat zc)), (Z.eqb_sym rank). apply andb_comm.
Qed.

(** *** Room only shrinks *)

(** What a step leaves free was free before it. *)
Lemma sched_at_free sc sr zc m m' c r o n :
  0 < n -> sched_at sc sr zc m m' -> free_at m' c r o n -> free_at m c r o n.
Proof.
  intros Hn Hs. revert c r. unfold free_at. destruct Hs as [rank it l1 l2 _ _ Hne Hl _ _|
    rank it l1 l2 o1 n1 o' _ _ Hne Hl _ He _];
    apply (place_forall (fun c r l => Forall (fun info => apart o n (bi_offset info) (bi_count info)) l ->
             Forall (fun info => apart o n (bi_offset info) (bi_count info)) (getBufferInfoList m c r))); try done;
    rewrite ?Hl, ?Forall_app, ?Forall_cons; unfold apart; cbn [sent_of open_of bi_offset bi_count]; try tauto.
  intros (? & ? & H1 & H2 & _). split_and!; [done| |done].
  destruct He as [Hb [[-> ->]|[-> ->]]]; lia.
Qed.

(** *** One visited entry *)

Definition has_room (m : mgr) (zc : nat) (o n : Z) : Prop :=
  exists rank, rank_in zc rank /\ free_at m (Z.of_nat zc) rank o n.

Lemma find_push_some searchMethod m zc ranks r1 o n r2s rank :
  find_push searchMethod m zc ranks r1 o n r2s = Some rank ->
  rank ∈ ranks /\ checkIfPossibleToPush m zc rank o n = true.
Proof.
  induction r2s as [|r2 r2s IH]; [done|]. cbn [find_push].
  destruct (try_rank searchMethod ranks r1 r2) as [r|] eqn:Hr; [|done].
  destruct (checkIfPossibleToPush m zc r o n) eqn:Hc; [|done]. intros [= ->]. split; [|done].
  by eapply list_elem_of_lookup_2.
Qed.

Lemma try_rank_in searchMethod ranks r1 r2 : (r2 < length ranks)%nat -> is_Some (try_rank searchMethod ranks r1 r2).
Proof.
  intros Hr. unfold try_rank. apply lookup_lt_is_Some_2. destruct (searchMethod =? 1); [|done].
  apply Nat.mod_upper_bound. lia.
Qed.

(** The rotation reaches every receiver. *)
Lemma try_rank_all searchMethod ranks r1 rank :
  rank ∈ ranks -> exists r2, (r2 < length ranks)%nat /\ try_rank searchMethod ranks r1 r2 = Some rank.
Proof.
  intros [k Hk]%list_elem_of_lookup. pose proof (lookup_lt_Some _ _ _ Hk) as Hlt. unfold try_rank.
  destruct (searchMethod =? 1); [|by exists k].
  set (n := length ranks) in *. exists ((k + (n - r1 mod n)) mod n)%nat.
  pose proof (Nat.mod_upper_bound r1 n). split; [apply Nat.mod_upper_bound; lia|].
  rewrite Nat.Div0.add_mod_idemp_l, <-Nat.Div0.add_mod_idemp_r.
  replace (k + (n - r1 mod n) + r1 mod n)%nat with (k + 1 * n)%nat by lia.
  rewrite Nat.Div0.mod_add, Nat.mod_small; done.
Qed.

Lemma find_push_none_list searchMethod m zc ranks r1 o n r2s :
  Forall (fun r2 => (r2 < length ranks)%nat) r2s -> find_push searchMethod m zc ranks r1 o n r2s = None ->
  forall r2 rank, r2 ∈ r2s -> try_rank searchMethod ranks r1 r2 = Some rank -> checkIfPossibleToPush m zc rank o n = false.
Proof.
  induction 1 as [|r2 r2s Hr2 Hr2s IH]; [set_solver|]. cbn [find_push].
  destruct (try_rank_in searchMethod ranks r1 r2 Hr2) as [r Hr]. rewrite Hr.
  destruct (checkIfPossibleToPush m zc r o n) eqn:Hc; [done|]. intros Hf r3 rank [->|Hin]%elem_of_cons Ht; [congruence|].
  by eapply IH.
Qed.

Lemma find_push_none searchMethod m zc ranks r1 o n rank :
  find_push searchMethod m zc ranks r1 o n (seq 0 (length ranks)) = None -> rank ∈ ranks ->
  checkIfPossibleToPush m zc rank o n = false.
Proof.
  intros Hf Hin. destruct (try_rank_all searchMethod ranks r1 rank Hin) as (r2 & Hr2 & Ht).
  eapply find_push_none_list; [|exact Hf| |exact Ht].
  - apply Forall_forall. intros x Hx%elem_of_seq. lia.
  - apply elem_of_seq. lia.
Qed.

Definition split_found (m : mgr) (zc : Z) (ranks : list Z) (o c : Z) (acc : Z * Z * Z) : Prop :=
  let '(n, mode, rank) := acc in
  0 <= n /\ (0 < n -> n < c /\ rank ∈ ranks /\
    (mode = 0 /\ free_at m zc rank o n \/ mode = 1 /\ free_at m zc rank (o + c - n) n)).

Lemma split_fold_spec m zc ranks r1 o c r2s acc :
  infos_ok m -> region_ok o c -> split_found m zc ranks o c acc ->
  split_found m zc ranks o c (foldl (split_better m zc ranks r1 o c) acc r2s).
Proof.
  intros Hm Hr. revert acc. induction r2s as [|r2 r2s IH]; intros acc Hacc; [done|]. cbn [foldl]. apply IH.
  destruct acc as [[mx mode] rank0]. unfold split_better.
  destruct (ranks !! ((r2 + r1) mod length ranks)%nat) as [rank|] eqn:Hrank; [|done].
  destruct (checkIfPossibleToSplitAndPush m zc rank o c) as [[n md]|] eqn:Hc; [|done].
  destruct (mx <? n) eqn:Hlt; [|done].
  apply checkIfPossibleToSplitAndPush_spec in Hc as [Hb Hc]; [|done|done].
  unfold split_found. split; [lia|]. intros _. split; [lia|]. split; [by eapply list_elem_of_lookup_2|done].
Qed.

(** When the scan finds nothing, no receiver offers a part. *)
Lemma split_fold_max m zc ranks r1 o c r2s acc :
  let res := foldl (split_better m zc ranks r1 o c) acc r2s in
  acc.1.1 <= res.1.1 /\
  forall r2 rank n md, r2 ∈ r2s -> ranks !! ((r2 + r1) mod length ranks)%nat = Some rank ->
    checkIfPossibleToSplitAndPush m zc rank o c = Some (n, md) -> n <= res.1.1.
Proof.
  revert acc. induction r2s as [|r2 r2s IH]; intros acc; cbn [foldl]; [split; [lia|set_solver]|].
  destruct (IH (split_better m zc ranks r1 o c acc r2)) as [H1 H2].
  assert (Hb : acc.1.1 <= (split_better m zc ranks r1 o c acc r2).1.1 /\
    forall rank n md, ranks !! ((r2 + r1) mod length ranks)%nat = Some rank ->
      checkIfPossibleToSplitAndPush m zc rank o c = Some (n, md) -> n <= (split_better m zc ranks r1 o c acc r2).1.1).
  { destruct acc as [[mx mode] rank0]. unfold split_better.
    destruct (ranks !! ((r2 + r1) mod length ranks)%nat) as [rank|]; [|cbn; split; [lia|done]].
    destruct (checkIfPossibleToSplitAndPush m zc rank o c) as [[n md]|] eqn:Hc.
    - destruct (Z.ltb_spec mx n); cbn; (split; [lia|]); intros ? ? ? [= <-]; rewrite Hc; intros [= <- <-]; lia.
    - cbn. split; [lia|]. intros ? ? ? [= <-]. congruence. }
  split; [lia|]. intros r rank n md [->|Hin]%elem_of_cons Hr Hc; [|by eapply H2].
  destruct Hb as [_ Hb]. specialize (Hb rank n md Hr Hc). lia.
Qed.

Lemma split_fold_none m zc ranks r1 o c n mode rank0 rank1 :
  foldl (split_better m zc ranks r1 o c) (0, 0, rank0) (seq 0 (length ranks)) = (n, mode, rank1) -> n <= 0 ->
  forall rank, rank ∈ ranks -> infos_ok m -> region_ok o c -> checkIfPossibleToSplitAndPush m zc rank o c = None.
Proof.
  intros Hf Hn rank Hin Hm Hr. destruct (checkIfPossibleToSplitAndPush m zc rank o c) as [[k md]|] eqn:Hc; [|done].
  destruct (try_rank_all 1 ranks r1 rank Hin) as (r2 & Hlt & Ht).
  destruct (split_fold_max m zc ranks r1 o c (seq 0 (length ranks)) (0, 0, rank0)) as [_ Hmax]. rewrite Hf in Hmax. cbn in Hmax.
  specialize (Hmax r2 rank k md ltac:(apply elem_of_seq; lia) Ht Hc).
  apply checkIfPossibleToSplitAndPush_spec in Hc as [Hk _]; [lia|done|done].
Qed.

Lemma setBufferInfoList_twice m c r l l' :
  setBufferInfoList (setBufferInfoList m c r l) c r l' = setBufferInfoList m c r l'.
Proof. unfold setBufferInfoList. cbn. by rewrite insert_insert_eq. Qed.

(** The pushes and the erasure of the source are the rewriting of [place]. *)
Lemma push_whole_place m sc sr zc rank it l1 l2 :
  sc <> zc -> getBufferInfoList m (Z.of_nat sc) sr = l1 ++ it :: l2 -> bi_isRecv it = false ->
  let m1 := pushBackBufferInfo m (Z.of_nat zc) rank (bi_offset it) (bi_count it) 0 true true sr loop in
  setBufferInfoList m1 (Z.of_nat sc) sr (<[length l1 := bi_schedule it rank loop]> (getBufferInfoList m1 (Z.of_nat sc) sr))
  = place m zc rank (recv_of (bi_offset it) (bi_count it) sr loop) sc sr
      (l1 ++ sent_of (bi_offset it) (bi_count it) it rank loop :: l2).
Proof.
  intros Hne Hl Hr m1. unfold m1, pushBackBufferInfo at 2. rewrite getBufferInfoList_set, bool_decide_eq_false_2 by naive_solver.
  rewrite Hl, insert_app_r_alt, Nat.sub_diag by done. unfold bi_schedule. by rewrite Hr.
Qed.

Lemma push_split_place m sc sr zc rank it l1 l2 n mode :
  sc <> zc -> getBufferInfoList m (Z.of_nat sc) sr = l1 ++ it :: l2 -> info_ok it -> 0 < n < bi_count it ->
  mode = 0 \/ mode = 1 ->
  let m1 := push_split m (Z.of_nat sc) sr (Z.of_nat zc) rank loop it n mode in
  let o := if mode =? 0 then bi_offset it else bi_offset it + bi_count it - n in
  let o' := if mode =? 0 then bi_offset it + n else bi_offset it in
  setBufferInfoList m1 (Z.of_nat sc) sr (delete (length l1) (getBufferInfoList m1 (Z.of_nat sc) sr))
  = place m zc rank (recv_of o n sr loop) sc sr
      (l1 ++ l2 ++ [sent_of o n it rank loop; open_of o' (bi_count it - n) it]).
Proof.
  intros Hne Hl Hi Hn Hmode m1 o o'.
  assert (Hm : m1 = place m zc rank (recv_of o n sr loop) sc sr
      ((l1 ++ it :: l2) ++ [sent_of o n it rank loop; open_of o' (bi_count it - n) it])).
  { unfold m1, push_split, pushBackBufferInfo, info_ok, region_ok in *. destruct Hmode as [-> | ->]; subst o o'; cbn [Z.eqb Pos.eqb];
      rewrite !Z.mod_small by lia; rewrite setBufferInfoList_twice; unfold place; f_equal;
      rewrite !getBufferInfoList_set, bool_decide_eq_true_2, bool_decide_eq_false_2 by naive_solver;
      rewrite Hl, <-(app_assoc (l1 ++ it :: l2)); done. }
  rewrite Hm, place_get, bool_decide_eq_true_2 by done. unfold place. rewrite setBufferInfoList_twice.
  by rewrite <-app_assoc, <-app_comm_cons, delete_middle.
Qed.

(** *** The traversal of one list *)

(** An entry that no receiver could take whole. *)
Definition blocked (m : mgr) (zc : nat) (it : flagcxBufferInfo) : Prop :=
  pending (Z.of_nat zc) it = true -> ~ has_room m zc (bi_offset it) (bi_count it).

Lemma sched_at_blocked sc sr zc m m' zc' it :
  info_ok it -> sched_at sc sr zc m m' -> blocked m zc' it -> blocked m' zc' it.
Proof.
  intros Hi Hs Hb Hp [rank [Hin Hf]]. apply (Hb Hp). exists rank. split; [done|].
  eapply sched_at_free; [|exact Hs|exact Hf]. unfold info_ok, region_ok in Hi. lia.
Qed.

(** An entry that no receiver takes, whole or in part. *)
Definition stuck (m : mgr) (zc : nat) (it : flagcxBufferInfo) : Prop :=
  pending (Z.of_nat zc) it = true -> forall rank, rank_in zc rank ->
    checkIfPossibleToPush m (Z.of_nat zc) rank (bi_offset it) (bi_count it) = false /\
    checkIfPossibleToSplitAndPush m (Z.of_nat zc) rank (bi_offset it) (bi_count it) = None.

Lemma stuck_blocked m zc it : infos_ok m -> info_ok it -> stuck m zc it -> blocked m zc it.
Proof.
  intros Hm Hi Hs Hp (rank & Hin & Hf). destruct (Hs Hp rank Hin) as [Hc _].
  apply checkIfPossibleToPush_spec in Hf; [congruence|done|done].
Qed.

(** At least one step, or nothing. *)
Definition moves (step : mgr -> mgr -> Prop) (m m' : mgr) : Prop := exists m1, step m m1 /\ reach step m1 m'.

(** What is left to do: a split leaves a shorter pending region. *)
Definition weight1 (zc : Z) (it : flagcxBufferInfo) : nat := if pending zc it then S (2 * Z.to_nat (bi_count it)) else 1.
Definition weight (zc : Z) (l : list flagcxBufferInfo) : nat := sum_list (weight1 zc <$> l).

Lemma weight_app zc l1 l2 : weight zc (l1 ++ l2) = (weight zc l1 + weight zc l2)%nat.
Proof. unfold weight. by rewrite fmap_app, sum_list_with_app. Qed.
Lemma weight_cons zc it l : weight zc (it :: l) = (weight1 zc it + weight zc l)%nat.
Proof. done. Qed.

Lemma weight_fuel m sc sr zc : (weight zc (getBufferInfoList m sc sr) < edge_fuel m sc sr)%nat.
Proof.
  unfold edge_fuel, weight. apply Nat.lt_succ_r. induction (getBufferInfoList m sc sr) as [|it l IH]; [done|].
  cbn. unfold weight1 at 1. destruct (pending zc it); cbn in *; lia.
Qed.

(** What the traversal of the list of [sr] for cluster [zc] knows at an entry. *)
Definition passed (m : mgr) (sc : nat) (sr : Z) (zc i : nat) : Prop :=
  Forall (blocked m zc) (take i (getBufferInfoList m (Z.of_nat sc) sr)).

Lemma passed_step m m' sc sr zc i it l' :
  infos_ok m -> sched_at sc sr zc m m' -> getBufferInfoList m (Z.of_nat sc) sr !! i = Some it ->
  getBufferInfoList m' (Z.of_nat sc) sr = take i (getBufferInfoList m (Z.of_nat sc) sr) ++ l' ->
  passed m sc sr zc i -> passed m' sc sr zc i.
Proof.
  intros Hm Hs Hi Hl Hp. unfold passed in *. rewrite Hl, take_app_le, take_take, Nat.min_id.
  - rewrite Forall_forall in *. intros x Hx. eapply sched_at_blocked; [|exact Hs|by apply Hp].
    specialize (Hm (Z.of_nat sc) sr). rewrite Forall_forall in Hm. by apply Hm, (subseteq_take i).
  - rewrite length_take_le; [done|]. apply lookup_lt_Some in Hi. lia.
Qed.

Section Edge.
Variables (searchMethod : Z) (sc : nat) (sr : Z) (zc : nat) (ranks : list Z) (r1 : nat).
Hypotheses (Hsr : rank_in sc sr) (Hzc : L !! zc = Some ranks) (Hne : sc <> zc) (Hranks : ranks <> []).

Lemma rank_in_zc rank : rank ∈ ranks -> rank_in zc rank.
Proof. by exists ranks. Qed.

Definition at_entry (m : mgr) (i : nat) (it : flagcxBufferInfo) (m' : mgr) (i' : nat) : Prop :=
  (m' = m /\ i' = S i /\ stuck m zc it \/ sched_at sc sr zc m m') /\ passed m' sc sr zc i' /\
  (weight (Z.of_nat zc) (drop i' (getBufferInfoList m' (Z.of_nat sc) sr))
   < weight (Z.of_nat zc) (drop i (getBufferInfoList m (Z.of_nat sc) sr)))%nat.

Lemma at_entry_skip m i it :
  getBufferInfoList m (Z.of_nat sc) sr !! i = Some it -> passed m sc sr zc i -> infos_ok m -> stuck m zc it ->
  at_entry m i it m (S i).
Proof.
  intros Hi Hp Hm Hst.
  assert (Hb : blocked m zc it).
  { apply stuck_blocked; [done| |done]. specialize (Hm (Z.of_nat sc) sr). rewrite Forall_forall in Hm.
    apply Hm. by eapply list_elem_of_lookup_2. }
  split_and!; [by left| |].
  - unfold passed. rewrite (take_S_r _ _ it) by done. apply Forall_app. by split; [|constructor].
  - rewrite (drop_S _ it i) by done. rewrite weight_cons. unfold weight1. destruct (pending _ it); lia.
Qed.

Lemma at_entry_whole m i it rank :
  infos_ok m -> getBufferInfoList m (Z.of_nat sc) sr !! i = Some it -> passed m sc sr zc i ->
  pending (Z.of_nat zc) it = true -> rank ∈ ranks -> free_at m (Z.of_nat zc) rank (bi_offset it) (bi_count it) ->
  let m1 := pushBackBufferInfo m (Z.of_nat zc) rank (bi_offset it) (bi_count it) 0 true true sr loop in
  at_entry m i it
    (setBufferInfoList m1 (Z.of_nat sc) sr (<[i := bi_schedule it rank loop]> (getBufferInfoList m1 (Z.of_nat sc) sr)))
    (S i).
Proof.
  intros Hm Hi Hp Hpend Hrank Hfree m1. set (l := getBufferInfoList m (Z.of_nat sc) sr) in *.
  assert (Hl : l = take i l ++ it :: drop (S i) l) by (by rewrite take_drop_middle).
  assert (Hlen : length (take i l) = i) by (apply length_take_le; apply lookup_lt_Some in Hi; lia).
  pose proof (pending_spec _ _ Hpend) as (_ & Hr & _).
  pose proof (push_whole_place m sc sr zc rank it _ _ Hne Hl Hr) as Heq. rewrite Hlen in Heq. cbv zeta in Heq.
  unfold m1. rewrite Heq. clear Heq.
  assert (Hs := sched_whole sc sr zc m rank it _ _ Hsr (rank_in_zc rank Hrank) Hne Hl Hpend Hfree).
  set (m' := place _ _ _ _ _ _ _) in *.
  assert (Hl' : getBufferInfoList m' (Z.of_nat sc) sr = take i l ++ sent_of (bi_offset it) (bi_count it) it rank loop :: drop (S i) l)
    by (unfold m'; by rewrite place_get, bool_decide_eq_true_2).
  split_and!; [by right| |].
  - unfold passed. rewrite (take_S_r _ i (sent_of (bi_offset it) (bi_count it) it rank loop)).
    + apply Forall_app. split; [by eapply passed_step|]. constructor; [|done]. intros [=].
    + rewrite Hl', lookup_app_r, Hlen, Nat.sub_diag by lia. done.
  - rewrite Hl', drop_app_ge, Hlen by lia. replace (S i - i)%nat with 1%nat by lia.
    fold l. rewrite (drop_S l it i) by done. rewrite weight_cons. change (drop 1 (?x :: ?r)) with r. unfold weight1. rewrite Hpend. lia.
Qed.

Lemma at_entry_split m i it rank n mode :
  infos_ok m -> getBufferInfoList m (Z.of_nat sc) sr !! i = Some it -> passed m sc sr zc i ->
  pending (Z.of_nat zc) it = true -> rank ∈ ranks -> 0 < n < bi_count it ->
  mode = 0 /\ free_at m (Z.of_nat zc) rank (bi_offset it) n \/
  mode = 1 /\ free_at m (Z.of_nat zc) rank (bi_offset it + bi_count it - n) n ->
  let m1 := push_split m (Z.of_nat sc) sr (Z.of_nat zc) rank loop it n mode in
  at_entry m i it (setBufferInfoList m1 (Z.of_nat sc) sr (delete i (getBufferInfoList m1 (Z.of_nat sc) sr))) i.
Proof.
  intros Hm Hi Hp Hpend Hrank Hn Hfree m1. set (l := getBufferInfoList m (Z.of_nat sc) sr) in *.
  assert (Hl : l = take i l ++ it :: drop (S i) l) by (by rewrite take_drop_middle).
  assert (Hlen : length (take i l) = i) by (apply length_take_le; apply lookup_lt_Some in Hi; lia).
  assert (Hok : info_ok it).
  { specialize (Hm (Z.of_nat sc) sr). rewrite Forall_forall in Hm. apply Hm. by eapply list_elem_of_lookup_2. }
  pose proof (push_split_place m sc sr zc rank it _ _ n mode Hne Hl Hok Hn ltac:(tauto)) as Heq.
  rewrite Hlen in Heq. cbv zeta in Heq. unfold m1. rewrite Heq. clear Heq.
  set (o := if mode =? 0 then bi_offset it else _). set (o' := if mode =? 0 then bi_offset it + n else _).
  assert (He : end_of it o n o') by (split; [done|]; destruct Hfree as [[-> _]|[-> _]]; [by left|by right]).
  assert (Hf : free_at m (Z.of_nat zc) rank o n) by (destruct Hfree as [[-> ?]|[-> ?]]; done).
  assert (Hs := sched_split sc sr zc m rank it _ _ o n o' Hsr (rank_in_zc rank Hrank) Hne Hl Hpend He Hf).
  set (new := [_; _]) in *. set (m' := place _ _ _ _ _ _ _) in *.
  assert (Hl' : getBufferInfoList m' (Z.of_nat sc) sr = take i l ++ drop (S i) l ++ new)
    by (unfold m'; by rewrite place_get, bool_decide_eq_true_2).
  split_and!; [by right|by eapply passed_step|].
  rewrite Hl', drop_app_ge, Hlen, Nat.sub_diag by lia. fold l. rewrite (drop_S l it i) by done.
  change (drop 0 ?r) with r. rewrite weight_cons, weight_app. unfold new. rewrite !weight_cons. change (weight (Z.of_nat zc) []) with 0%nat.
  unfold weight1. rewrite Hpend.
  pose proof (pending_spec _ _ Hpend) as (_ & _ & Hd). unfold pending, open_of, sent_of. cbn [bi_isScheduled bi_isRecv negb andb bi_clusterIdToSend bi_count].
  rewrite Hd, Z.eqb_refl. lia.
Qed.

Lemma edge_body_spec m i it :
  infos_ok m -> getBufferInfoList m (Z.of_nat sc) sr !! i = Some it -> passed m sc sr zc i ->
  exists m' i', edge_body searchMethod loop m (Z.of_nat sc) sr (Z.of_nat zc) ranks r1 i it = Some (m', i') /\
    at_entry m i it m' i'.
Proof.
  intros Hm Hi Hp. unfold edge_body. destruct (pending (Z.of_nat zc) it) eqn:Hpend; cbn [negb].
  2:{ eexists _, _. split; [done|]. apply at_entry_skip; [done..|]. intros Hx. congruence. }
  assert (Hok : info_ok it).
  { specialize (Hm (Z.of_nat sc) sr). rewrite Forall_forall in Hm. apply Hm. by eapply list_elem_of_lookup_2. }
  destruct (find_push _ _ _ _ _ _ _ _) as [rank|] eqn:Hfp.
  - apply find_push_some in Hfp as [Hrank Hc]. apply checkIfPossibleToPush_spec in Hc; [|done|done].
    eexists _, _. split; [done|]. by apply at_entry_whole.
  - assert (exists rank0, ranks !! 0%nat = Some rank0) as [rank0 Hr0] by (destruct ranks; [done|by eexists]).
    rewrite Hr0. cbn [mbind option_bind].
    pose proof (split_fold_spec m (Z.of_nat zc) ranks r1 (bi_offset it) (bi_count it) (seq 0 (length ranks)) (0, 0, rank0) Hm Hok)
      as Hsf.
    destruct (foldl _ _ _) as [[n mode] rank] eqn:Hfold. destruct Hsf as [Hn0 Hsf]; [by split|].
    destruct (Z.ltb_spec 0 n) as [Hn|Hn].
    + destruct (Hsf Hn) as (Hlt & Hrank & Hfree). eexists _, _. split; [done|]. apply at_entry_split; try done.
    + eexists _, _. split; [done|]. apply at_entry_skip; [done..|]. intros _ rank' (l' & Hl' & Hin).
      assert (l' = ranks) as -> by congruence. split; [by eapply find_push_none|].
      by eapply (split_fold_none _ _ _ _ _ _ _ _ _ _ Hfold); [lia|..].
Qed.

Lemma edge_loop_spec fuel m i :
  infos_ok m -> passed m sc sr zc i ->
  (weight (Z.of_nat zc) (drop i (getBufferInfoList m (Z.of_nat sc) sr)) < fuel)%nat ->
  exists m', edge_loop fuel searchMethod loop m (Z.of_nat sc) sr (Z.of_nat zc) ranks r1 i = Some m' /\
    reach (sched_at sc sr zc) m m' /\ Forall (blocked m' zc) (getBufferInfoList m' (Z.of_nat sc) sr) /\
    (moves (sched_at sc sr zc) m m' \/ m' = m /\ Forall (stuck m zc) (drop i (getBufferInfoList m (Z.of_nat sc) sr))).
Proof.
  revert m i. induction fuel as [|fuel IH]; intros m i Hm Hp Hf; [lia|]. cbn [edge_loop].
  destruct (getBufferInfoList m (Z.of_nat sc) sr !! i) as [it|] eqn:Hi.
  - destruct (edge_body_spec m i it Hm Hi Hp) as (m1 & i1 & -> & Hs & Hp1 & Hw). cbn [mbind option_bind].
    destruct Hs as [(-> & -> & Hst) |Hs].
    + destruct (IH m (S i)) as (m' & He & Hr & Hb & Hd); [done|done|lia|]. exists m'. split_and!; [done..|].
      destruct Hd as [?|[-> Hd]]; [by left|right]. split; [done|]. rewrite (drop_S _ it i) by done. by constructor.
    + destruct (IH m1 i1) as (m' & He & Hr & Hb & _); [|done|lia|].
      * eapply step_infos_ok; [exact Hm|]. by exists sc, sr, zc.
      * exists m'. split_and!; [done|by econstructor|done|]. left. by exists m1.
  - exists m. apply lookup_ge_None in Hi. split_and!; [done|constructor| |right; split; [done|]].
    + unfold passed in Hp. by rewrite take_ge in Hp.
    + by rewrite drop_ge.
Qed.
End Edge.

(** *** All the lists *)

Definition list_done (m : mgr) (sc : nat) (sr : Z) (zc : nat) : Prop :=
  Forall (blocked m zc) (getBufferInfoList m (Z.of_nat sc) sr).

Lemma not_pending_blocked m zc it : pending (Z.of_nat zc) it = false -> blocked m zc it.
Proof. intros Hp Hx. congruence. Qed.

(** Work on another list, or for another cluster, keeps a list done. *)
Lemma sched_at_done sc sr zc sc' sr' zc' m m' :
  infos_ok m -> sched_at sc' sr' zc' m m' -> (sc', sr', zc') <> (sc, sr, zc) ->
  list_done m sc sr zc -> list_done m' sc sr zc.
Proof.
  intros Hm Hs Hneq Hd. unfold list_done in *.
  assert (Hd' : Forall (blocked m' zc) (getBufferInfoList m (Z.of_nat sc) sr)).
  { specialize (Hm (Z.of_nat sc) sr). rewrite Forall_forall in *. intros x Hx.
    eapply sched_at_blocked; [by apply Hm|exact Hs|by apply Hd]. }
  clear Hd. revert Hd'. generalize (blocked m' zc) (not_pending_blocked m' zc). intros B HB Hd'.
  assert (Hother : forall it, bi_clusterIdToSend it = Z.of_nat zc' -> sc' = sc -> sr' = sr -> B it).
  { intros it Hc -> ->. apply HB. unfold pending. rewrite Hc, (proj2 (Z.eqb_neq _ _)); [apply andb_false_r|].
    intros Hz%Nat2Z.inj. by subst. }
  destruct Hs as [rank it l1 l2 _ _ Hne Hl Hp _|rank it l1 l2 o1 n1 o' _ _ Hne Hl Hp _ _];
    apply pending_spec in Hp as (_ & _ & Hc);
    rewrite place_get by done;
    (destruct (bool_decide_reflect ((Z.of_nat sc, sr) = (Z.of_nat sc', sr'))) as [[= Hsc ->]|_];
     [apply Nat2Z.inj in Hsc as ->; rewrite Hl in Hd'|
      destruct (bool_decide_reflect ((Z.of_nat sc, sr) = (Z.of_nat zc', rank))) as [[= Hsc ->]|_]; [|done];
      rewrite Hsc in Hd'; apply Forall_app; split; [done|]; constructor; [by apply HB|done]]).
  - rewrite Forall_app, Forall_cons in *. split_and!; [apply Hd'|by apply Hother|apply Hd'].
  - rewrite !Forall_app, !Forall_cons in *. split_and!; [apply Hd'..|by apply HB|by apply Hother|done].
Qed.

Lemma sched_at_infos_ok sc sr zc m m' : infos_ok m -> sched_at sc sr zc m m' -> infos_ok m'.
Proof. intros Hm Hs. eapply step_infos_ok; [exact Hm|]. by exists sc, sr, zc. Qed.

Lemma reach_sched_at sc sr zc m m' :
  reach (sched_at sc sr zc) m m' -> reach sched_step m m'.
Proof. induction 1 as [|m1 m2 m3 Hs _ IH]; [constructor|]. econstructor; [by exists sc, sr, zc|exact IH]. Qed.

Lemma reach_done sc sr zc sc' sr' zc' m m' :
  infos_ok m -> reach (sched_at sc' sr' zc') m m' -> (sc', sr', zc') <> (sc, sr, zc) ->
  list_done m sc sr zc -> list_done m' sc sr zc.
Proof.
  intros Hm Hr Hne. revert Hm. induction Hr as [|m1 m2 m3 Hs _ IH]; intros Hm Hd; [done|].
  apply IH; [by eapply sched_at_infos_ok|]. by eapply sched_at_done.
Qed.

Lemma reach_infos_ok m m' : infos_ok m -> reach sched_step m m' -> infos_ok m'.
Proof. intros Hm Hr. by apply (reach_invariant _ infos_ok step_infos_ok _ _ Hr). Qed.

(** What processing a list of tasks achieves: only steps, and the listed
    tasks are done at the end, as are those done before. *)
Definition tasks_done (tasks : nat -> Z -> nat -> Prop) (m m' : mgr) : Prop :=
  reach sched_step m m' /\ infos_ok m' /\
  (forall sc sr zc, tasks sc sr zc -> list_done m' sc sr zc) /\
  (forall sc sr zc, list_done m sc sr zc -> list_done m' sc sr zc) /\
  (moves sched_step m m' \/
   m' = m /\ forall sc sr zc, tasks sc sr zc -> Forall (stuck m zc) (getBufferInfoList m (Z.of_nat sc) sr)).

Lemma tasks_done_nil (tasks : nat -> Z -> nat -> Prop) m :
  infos_ok m -> (forall sc sr zc, ~ tasks sc sr zc) -> tasks_done tasks m m.
Proof. 
  intros Hm Hno. split_and!; [constructor|done| |done|right; split; [done|]]; intros sc sr zc Ht; by destruct (Hno sc sr zc).
Qed.

Lemma tasks_done_app (t1 t2 t3 : nat -> Z -> nat -> Prop) m1 m2 m3 :
  (forall sc sr zc, t3 sc sr zc -> t1 sc sr zc \/ t2 sc sr zc) ->
  tasks_done t1 m1 m2 -> tasks_done t2 m2 m3 -> tasks_done t3 m1 m3.
Proof.
  intros Ht (Hr1 & _ & Hd1 & Hk1 & Hs1) (Hr2 & Hm2 & Hd2 & Hk2 & Hs2).
  split_and!; [by eapply reach_trans|done| |by auto|].
  - intros sc sr zc [H1|H2]%Ht; auto.
  - destruct Hs1 as [(m & H1 & H2)|[-> H1]].
    + left. exists m. split; [done|]. by eapply reach_trans.
    + destruct Hs2 as [?|[-> H2]]; [by left|right]. split; [done|]. intros sc sr zc [?|?]%Ht; auto.
Qed.

Lemma tasks_done_weaken (t1 t2 : nat -> Z -> nat -> Prop) m m' :
  (forall sc sr zc, t2 sc sr zc -> t1 sc sr zc) -> tasks_done t1 m m' -> tasks_done t2 m m'.
Proof.
  intros Ht (H1 & H2 & H3 & H4 & H5). split_and!; [done..|by auto|done|].
  destruct H5 as [?|[-> ?]]; [by left|right; by auto].
Qed.

Lemma search_rank_spec searchMethod m sc zc ranks r1 sr :
  infos_ok m -> rank_in sc sr -> L !! zc = Some ranks -> sc <> zc -> ranks <> [] ->
  exists m', search_rank searchMethod loop (Z.of_nat sc) (Z.of_nat zc) ranks m (r1, sr) = Some m' /\
    tasks_done (fun sc' sr' zc' => (sc', sr', zc') = (sc, sr, zc)) m m'.
Proof.
  intros Hm Hsr Hzc Hne Hranks. unfold search_rank. cbn [fst snd].
  destruct (edge_loop_spec searchMethod sc sr zc ranks r1 Hsr Hzc Hne Hranks (edge_fuel m (Z.of_nat sc) sr) m 0)
    as (m' & -> & Hr & Hb & Hs); [done|by constructor|apply weight_fuel|].
  exists m'. split; [done|]. pose proof (reach_sched_at _ _ _ _ _ Hr) as Hr'. split_and!; [done|by eapply reach_infos_ok| | |].
  - intros sc' sr' zc' [= -> -> ->]. exact Hb.
  - intros sc' sr' zc' Hd. destruct (decide ((sc, sr, zc) = (sc', sr', zc'))) as [[= <- <- <-]|Hn]; [exact Hb|].
    by eapply reach_done.
  - destruct Hs as [(m1 & H1 & H2)|[-> Hs]]; [left|right].
    + exists m1. split; [by exists sc, sr, zc|by eapply reach_sched_at].
    + split; [done|]. intros sc' sr' zc' [= -> -> ->]. exact Hs.
Qed.

Lemma search_ranks_spec searchMethod sc zc ranks l m :
  infos_ok m -> Forall (fun x => rank_in sc x.2) l -> L !! zc = Some ranks -> sc <> zc -> ranks <> [] ->
  exists m', mfold (search_rank searchMethod loop (Z.of_nat sc) (Z.of_nat zc) ranks) m l = Some m' /\
    tasks_done (fun sc' sr' zc' => sc' = sc /\ zc' = zc /\ sr' ∈ l.*2) m m'.
Proof.
  intros Hm Hl Hzc Hne Hranks. revert m Hm. induction Hl as [|[r1 sr] l Hsr Hl IH]; intros m Hm; cbn [mfold].
  - eexists; split; [done|]. apply tasks_done_nil; [done|]. intros sc' sr' zc' (_ & _ & Hin). by apply elem_of_nil in Hin.
  - destruct (search_rank_spec searchMethod m sc zc ranks r1 sr) as (m1 & -> & H1); [done..|].
    destruct (IH m1) as (m2 & He & H2); [apply H1|]. cbn [mbind option_bind]. exists m2. split; [done|].
    eapply tasks_done_app; [|exact H1|exact H2]. cbn. intros sc' sr' zc' (-> & -> & [-> |Hin]%elem_of_cons); auto.
Qed.
End Scheduler.

Section Search.
Variable p : flagcxC2cPlanner.
Let L := pl_clusterInterRankList p.
Hypothesis (Hnonempty : Forall (fun ranks => ranks <> []) L).

Definition edge_tasks (edges : list (nat * nat)) (sc : nat) (sr : Z) (zc : nat) : Prop :=
  (sc, zc) ∈ edges /\ rank_in L sc sr.

Lemma search_edge_spec searchMethod loopId m sc zc :
  infos_ok m -> (sc < length L)%nat -> (zc < length L)%nat -> sc <> zc ->
  exists m', search_edge p searchMethod loopId m sc zc = Some m' /\ tasks_done L loopId (edge_tasks [(sc, zc)]) m m'.
Proof.
  intros Hm Hsc Hzc Hne. unfold search_edge. fold L.
  destruct (lookup_lt_is_Some_2 L sc Hsc) as [senders Hs]. destruct (lookup_lt_is_Some_2 L zc Hzc) as [ranks Hr].
  rewrite Hs, Hr. cbn [mbind option_bind].
  assert (Hsnd : (imap (fun r1 sr => (r1, sr)) senders).*2 = senders)
    by (rewrite fmap_imap; apply list_eq; intros i; rewrite list_lookup_imap; by destruct (senders !! i)).
  destruct (search_ranks_spec L loopId searchMethod sc zc ranks (imap (fun r1 sr => (r1, sr)) senders) m)
    as (m' & He & Ht); [done| |done|done| |].
  - rewrite Forall_forall. intros x Hx. exists senders. split; [done|]. rewrite <-Hsnd. by apply list_elem_of_fmap_2.
  - rewrite Forall_forall in Hnonempty. by eapply Hnonempty, list_elem_of_lookup_2.
  - exists m'. split; [done|]. rewrite Hsnd in Ht. eapply tasks_done_weaken; [|exact Ht].
    intros sc' sr' zc' (Hin & l & Hl & Hin'). apply list_elem_of_singleton in Hin as [= -> ->]. split_and!; [done|done|]. congruence.
Qed.

Definition edges_ok (edges : list (nat * nat)) : Prop :=
  Forall (fun e => (e.1 < length L)%nat /\ (e.2 < length L)%nat /\ e.1 <> e.2) edges.

Lemma search_edges_spec searchMethod loopId edges m :
  infos_ok m -> edges_ok edges ->
  exists m', mfold (search_forward p searchMethod loopId) m edges = Some m' /\ tasks_done L loopId (edge_tasks edges) m m'.
Proof.
  intros Hm Hedges. revert m Hm. induction Hedges as [|[sc zc] edges (H1 & H2 & H3) _ IH]; intros m Hm; cbn [mfold].
  - eexists. split; [done|]. apply tasks_done_nil; [done|]. intros sc sr zc [Hin _]. by apply elem_of_nil in Hin.
  - change (search_forward p searchMethod loopId m (sc, zc)) with (search_edge p searchMethod loopId m sc zc). cbn [fst snd] in *.
    destruct (search_edge_spec searchMethod loopId m sc zc Hm H1 H2 H3) as (m1 & -> & Ht1).
    destruct (IH m1) as (m2 & He & Ht2); [apply Ht1|]. cbn [mbind option_bind]. exists m2. split; [done|].
    eapply tasks_done_app; [|exact Ht1|exact Ht2]. intros sc' sr' zc' [[Heq|Hin]%elem_of_cons Hr]; [left|by right].
    split; [by apply list_elem_of_singleton|done].
Qed.

(** Turning the edges round. *)
Lemma search_backward_edges searchMethod loopId edges m :
  mfold (search_backward p searchMethod loopId) m edges
  = mfold (search_forward p searchMethod loopId) m ((fun e => (e.2, e.1)) <$> edges).
Proof.
  revert m. induction edges as [|[j z] edges IH]; intros m; [done|]. cbn [mfold fmap list_fmap fst snd].
  change (search_backward p searchMethod loopId m (j, z)) with (search_edge p searchMethod loopId m z j).
  change (search_forward p searchMethod loopId m (z, j)) with (search_edge p searchMethod loopId m z j).
  destruct (search_edge p searchMethod loopId m z j) as [m'|]; [apply IH|done].
Qed.

Lemma search_pairs_spec n j z : (j, z) ∈ search_pairs n <-> (j < z < n)%nat.
Proof.
  unfold search_pairs. rewrite list_elem_of_In, in_flat_map. split.
  - intros (x & Hx%list_elem_of_In%elem_of_seq & (y & [= -> ->] & Hy%elem_of_seq)%list_elem_of_In%list_elem_of_fmap). lia.
  - intros Hjz. exists j. split; [apply list_elem_of_In, elem_of_seq; lia|].
    apply list_elem_of_In, list_elem_of_fmap. exists z. split; [done|]. apply elem_of_seq. lia.
Qed.

(** The whole search: it returns, it is a sequence of scheduler steps, and
    it does every list of every ordered pair of clusters. *)
Lemma search_spec searchMethod loopId m :
  infos_ok m ->
  exists m', searchHeteroSendRecvOps p searchMethod loopId m = Some m' /\
    tasks_done L loopId (fun sc sr zc => (sc < length L)%nat /\ (zc < length L)%nat /\ sc <> zc /\ rank_in L sc sr) m m'.
Proof.
  intros Hm. unfold searchHeteroSendRecvOps. fold L. set (pairs := search_pairs (length L)).
  assert (Hf : edges_ok pairs).
  { apply Forall_forall. intros [j z] Hin%search_pairs_spec. cbn. lia. }
  assert (Hb : edges_ok ((fun e => (e.2, e.1)) <$> pairs)).
  { apply Forall_fmap, Forall_forall. intros [j z] Hin%search_pairs_spec. cbn. lia. }
  destruct (search_edges_spec searchMethod loopId pairs m Hm Hf) as (m1 & -> & H1). cbn [mbind option_bind].
  rewrite search_backward_edges.
  destruct (search_edges_spec searchMethod loopId _ m1 ltac:(apply H1) Hb) as (m2 & -> & H2).
  exists m2. split; [done|]. eapply tasks_done_app; [|exact H1|exact H2].
  intros sc sr zc (Hsc & Hzc & Hne & Hr). destruct (decide (sc < zc)%nat).
  - left. split; [|done]. apply search_pairs_spec. lia.
  - right. split; [|done]. apply list_elem_of_fmap. exists (zc, sc). split; [done|]. apply search_pairs_spec. lia.
Qed.
End Search.

(** C36: the search is sound, whatever the granularity.  On any table of
    regions inside the address range, with every rank in one cluster, the
    search returns; it only ever places an open region, or one end of it, at a
    receiver with room for it, so that no receive comes to overlap another
    region of its rank, sends and receives stay in pairs, and every element
    keeps the sends that covered it; and when it returns, no receiver has room
    for any region that is still open. *)
Theorem search_sound (p : flagcxC2cPlanner) (searchMethod loopId : Z) (m : mgr)
    (B : nat -> Z -> nat -> Z -> list (Z * Z * Z))
    (Hne : Forall (fun ranks => ranks <> []) (pl_clusterInterRankList p))
    (Hd : ranks_distinct (pl_clusterInterRankList p))
    (Hm : infos_ok m) (Ha : recv_apart m) (Hb : paired (pl_clusterInterRankList p) (≡ₚ) B m) :
  let L := pl_clusterInterRankList p in
  exists m', searchHeteroSendRecvOps p searchMethod loopId m = Some m' /\
    reach (sched_step L loopId) m m' /\ recv_apart m' /\ paired L (≡ₚ) B m' /\
    (forall z x c r, coverage z x (getBufferInfoList m' c r) = coverage z x (getBufferInfoList m c r)) /\
    (forall sc zc sr it, (zc < length L)%nat -> sc <> zc -> rank_in L sc sr ->
       it ∈ getBufferInfoList m' (Z.of_nat sc) sr -> pending (Z.of_nat zc) it = true ->
       ~ has_room L m' zc (bi_offset it) (bi_count it)).
Proof.
  intros L. destruct (search_spec p Hne searchMethod loopId m Hm) as (m' & Hs & Hr & _ & Hdone & _).
  exists m'. split_and!; [done|done| | | |].
  - by apply (reach_invariant _ recv_apart (step_recv_apart L loopId) _ _ Hr).
  - by apply (reach_invariant _ (paired L (≡ₚ) B) (fun m1 m2 => step_paired L loopId B m1 m2 Hd) _ _ Hr).
  - intros z x. apply (reach_invariant (sched_step L loopId)
      (fun m2 => forall c r, coverage z x (getBufferInfoList m2 c r) = coverage z x (getBufferInfoList m c r))) with m; [|done|done].
    intros m1 m2 IH Hstep c r. by rewrite (step_coverage L loopId m1 m2 z x c r Hstep).
  - intros sc zc sr it Hz Hneq Hin Hit Hp.
    assert (Hl : list_done L m' sc sr zc).
    { apply Hdone. split_and!; [|done|done|done]. destruct Hin as (l & Hl & _). by eapply lookup_lt_Some. }
    unfold list_done in Hl. rewrite Forall_forall in Hl. by apply Hl.
Qed.

(** One region of eight elements, from cluster 0 to cluster 1. *)
Definition tiny_plan : flagcxC2cPlanner :=
  MkPlanner 1 0 1 0 1 8 8 8 0 (MkComm 0 2 2 0 0 1 [1; 1] [0; 1] [0; 0] 0 0 1 [[0]; [1]])
    flagcxCommOpBroadcast flagcxRedNoOp [[0]; [1]] 0 0 0 8 0 true 1 0 true true flagcxAlgoSequential (MkManager 8 ∅).
Definition tiny_regions : mgr := pushBackBufferInfo (MkManager 8 ∅) 0 0 0 8 1 false false (-1) (-1).

Lemma tiny_forall (P : Z -> Z -> list flagcxBufferInfo -> Prop) :
  (forall c r, P c r []) -> P 0 0 [MkBufferInfo 0 8 1 false false (-1) (-1)] ->
  forall c r, P c r (getBufferInfoList tiny_regions c r).
Proof.
  intros Hn Hp c r. unfold tiny_regions, pushBackBufferInfo. rewrite getBufferInfoList_set.
  destruct (bool_decide_reflect ((c, r) = (0, 0))) as [[= -> ->]|]; [exact Hp|apply Hn].
Qed.

Lemma tiny_distinct : ranks_distinct [[0]; [1]].
Proof.
  intros [|[|c1]] [|[|c2]] r (l1 & H1 & Hr1) (l2 & H2 & Hr2); try done; cbn in H1, H2; simplify_eq;
    rewrite list_elem_of_singleton in Hr1, Hr2; congruence.
Qed.

Lemma search_sound_witness :
  exists m', searchHeteroSendRecvOps tiny_plan 1 0 tiny_regions = Some m' /\
    coverage 1 5 (getBufferInfoList m' 0 0) = 1%nat /\ recv_apart m'.
Proof.
  destruct (search_sound tiny_plan 1 0 tiny_regions (fun _ _ _ _ => [])) as (m' & Hs & _ & Ha & _ & Hc & _).
  - by_deciding.
  - exact tiny_distinct.
  - intros c r. apply (tiny_forall (fun _ _ => Forall info_ok)); [done|repeat constructor; cbn; lia].
  - intros c r. apply (tiny_forall (fun _ _ => StronglySorted no_clash)); repeat constructor.
  - assert (Hg : forall f c r, f (MkBufferInfo 0 8 1 false false (-1) (-1)) = false -> keys_of f (getBufferInfoList tiny_regions c r) = []).
    { intros f c r Hf. apply (tiny_forall (fun _ _ l => keys_of f l = [])); [done|]. rewrite keys_of_cons. by rewrite Hf. }
    intros sc sr zc rank _ _ _. rewrite !Hg; [done| |]; [done|].
    unfold is_sent. cbn. by rewrite ?andb_false_r.
  - exists m'. split; [exact Hs|]. split; [rewrite Hc; reflexivity|exact Ha].
Defined.
