(* ===== verification/C2cRefresh.v ===== *)
(** What [flagcxC2cPlanner::refresh] lays out ([flagcx/runner/c2c_algo.cc]):
    with the coarse granularity and outside the pipelined reductions, the
    inter-cluster ranks of a cluster share its data without gap or overlap,
    once per destination cluster. *)
From S2P Require Import Prelude Flagcx Arrays C2cBuffers C2cPlanner C2cSchedule.

(** ** Writing one list *)

(** [m'] is [m] with [l] appended to the list of rank [r] of cluster [c]. *)
Definition appended (m m' : mgr) (c r : Z) (l : list flagcxBufferInfo) : Prop :=
  forall c' r', getBufferInfoList m' c' r'
    = if bool_decide ((c', r') = (c, r)) then getBufferInfoList m c r ++ l else getBufferInfoList m c' r'.

Lemma appended_nil m c r : appended m m c r [].
Proof. intros c' r'. destruct (bool_decide_reflect ((c', r') = (c, r))) as [[= -> ->]|]; [|done]. by rewrite app_nil_r. Qed.

Lemma appended_app m1 m2 m3 c r l1 l2 :
  appended m1 m2 c r l1 -> appended m2 m3 c r l2 -> appended m1 m3 c r (l1 ++ l2).
Proof.
  intros H1 H2 c' r'. rewrite H2, !H1. rewrite (bool_decide_eq_true_2 ((c, r) = (c, r))) by done.
  destruct (bool_decide _); [by rewrite app_assoc|done].
Qed.

Lemma appended_push m c r o n d recv sch peer loop :
  appended m (pushBackBufferInfo m c r o n d recv sch peer loop) c r [MkBufferInfo o n d recv sch peer loop].
Proof. intros c' r'. unfold pushBackBufferInfo. by rewrite getBufferInfoList_set. Qed.

(** ** The layout *)

Lemma foldl_seq_one {A : Type} (f : A -> nat -> A) a : foldl f a (seq 0 (Z.to_nat 1)) = f a 0%nat.
Proof. done. Qed.

Section Layout.
Variable p : flagcxC2cPlanner.
Let L := pl_clusterInterRankList p.
Let sizes := cc_clusterSizes (pl_comm p).

(** The data of cluster [i]: where it starts and how long it is. *)
Definition cluster_size (i : nat) : Z := default 0 (sizes !! i).
Definition cluster_offset (i : nat) : Z := foldr Z.add 0 (take i sizes).
Definition cluster_base (i : nat) : Z := if sendGe p then 0 else cluster_offset i * pl_sendCount p.
Definition cluster_data (i : nat) : Z := if sendGe p then pl_totalCount p else pl_sendCount p * cluster_size i.

(** How many ranks of cluster [i] send, and the share of the [j]-th. *)
Definition cluster_ranks (i : nat) : list Z := default [] (L !! i).
Definition cluster_n (i : nat) : Z := if pl_multiNic p then Z.of_nat (length (cluster_ranks i)) else 1.
Definition share_start (i : nat) (j : Z) : Z :=
  cluster_data i / cluster_n i * j + Z.max 0 (j - (cluster_n i - cluster_data i mod cluster_n i)).
Definition share_count (i : nat) (j : Z) : Z := share_start i (j + 1) - share_start i j.

(** The clusters of a rooted collective that have nothing to send, or whose
    entries are marked from the start. *)
Definition silent (i : nat) : bool :=
  (0 <=? pl_rootClusterId p) && (op_is (pl_commOp p) flagcxCommOpScatter || op_is (pl_commOp p) flagcxCommOpBroadcast) &&
  negb (Z.of_nat i =? pl_rootClusterId p).
Definition premarked (i : nat) : bool :=
  (0 <=? pl_rootClusterId p) && (op_is (pl_commOp p) flagcxCommOpReduce || op_is (pl_commOp p) flagcxCommOpGather) &&
  (Z.of_nat i =? pl_rootClusterId p).

Definition share_entry (i : nat) (j : Z) (z : nat) : flagcxBufferInfo :=
  MkBufferInfo (cluster_base i + share_start i j) (share_count i j) (Z.of_nat z) false (premarked i) (-1) (-1).
Definition sends_to (i : nat) (j : Z) (z : nat) : bool :=
  negb (Z.of_nat i =? Z.of_nat z) && negb (silent i) && (0 <? share_count i j).
Definition share_list (i : nat) (j : Z) : list flagcxBufferInfo :=
  share_entry i j <$> filter (fun z => sends_to i j z = true) (seq 0 (length L)).

(** What the layout needs of the communicator and the counts. *)
Record layout_ok : Prop := {
  lo_nonempty : Forall (fun ranks => ranks <> []) L;
  lo_nodup : Forall (fun ranks : list Z => NoDup ranks) L;
  lo_ranks : Forall (fun ranks : list Z => Forall (fun r => 0 <= r) ranks) L;
  lo_sizes : (length L <= length sizes)%nat;
  lo_positive : Forall (fun s => 0 < s) sizes;
  lo_counts : 0 <= pl_sendCount p /\ pl_sendCount p <= pl_totalCount p;
  lo_range : pl_totalCount p < U64_MOD;
  lo_total : sendGe p = false -> pl_sendCount p * foldr Z.add 0 sizes < U64_MOD;
  lo_plain : pipelined_reduction p = false
}.

Section Facts.
Hypothesis (Hok : layout_ok).

Lemma cluster_n_pos i : (i < length L)%nat -> 0 < cluster_n i.
Proof.
  intros [ranks Hr]%lookup_lt_is_Some_2. unfold cluster_n, cluster_ranks. rewrite Hr. cbn.
  pose proof (lo_nonempty Hok) as Hne. rewrite Forall_forall in Hne. specialize (Hne ranks (list_elem_of_lookup_2 _ _ _ Hr)).
  destruct (pl_multiNic p); [|lia]. destruct ranks; [done|]. cbn. lia.
Qed.

Lemma sum_nonneg l : Forall (fun s => 0 < s) l -> 0 <= foldr Z.add 0 l.
Proof. induction 1; cbn in *; lia. Qed.

Lemma cluster_size_lookup i : (i < length L)%nat -> sizes !! i = Some (cluster_size i).
Proof.
  intros Hi. pose proof (lo_sizes Hok). unfold cluster_size.
  destruct (lookup_lt_is_Some_2 sizes i) as [s Hs]; [lia|]. by rewrite Hs.
Qed.

Lemma cluster_size_pos i : (i < length L)%nat -> 0 < cluster_size i.
Proof.
  intros Hi%cluster_size_lookup. pose proof (lo_positive Hok) as Hp. rewrite Forall_forall in Hp.
  eapply Hp, list_elem_of_lookup_2, Hi.
Qed.

Lemma cluster_offset_S i : (i < length L)%nat -> cluster_offset (S i) = cluster_offset i + cluster_size i.
Proof.
  intros Hi. unfold cluster_offset. rewrite (take_S_r _ _ _ (cluster_size_lookup i Hi)), foldr_app. cbn.
  generalize (cluster_size i). intros s. rewrite Z.add_0_r. induction (take i sizes) as [|x l IH]; cbn; lia.
Qed.

Lemma cluster_offset_bound i : (i < length L)%nat -> 0 <= cluster_offset i /\ cluster_offset i + cluster_size i <= foldr Z.add 0 sizes.
Proof.
  intros Hi. rewrite <-cluster_offset_S by done. unfold cluster_offset. pose proof (lo_positive Hok) as Hp.
  assert (Hsum : forall l k, foldr Z.add 0 (take k l) + foldr Z.add 0 (drop k l) = foldr Z.add 0 l).
  { induction l as [|x l IH]; intros [|k]; try done. cbn. rewrite <-Z.add_assoc. by rewrite IH. }
  split.
  - apply sum_nonneg. by apply Forall_take.
  - rewrite <-(Hsum sizes (S i)). pose proof (sum_nonneg (drop (S i) sizes) (Forall_drop _ _ _ Hp)). lia.
Qed.

Lemma cluster_region i : (i < length L)%nat ->
  0 <= cluster_base i /\ 0 <= cluster_data i /\ cluster_base i + cluster_data i < U64_MOD.
Proof.
  intros Hi. unfold cluster_base, cluster_data. pose proof (lo_counts Hok). pose proof (lo_range Hok).
  pose proof (cluster_offset_bound i Hi). pose proof (cluster_size_pos i Hi).
  destruct (sendGe p) eqn:Hs; [lia|]. pose proof (lo_total Hok Hs). split_and!; nia.
Qed.

(** When the ranks receive more than they send, the data of different clusters
    are disjoint. *)
Lemma cluster_offset_mono i k : (i < k)%nat -> (k < length L)%nat -> cluster_offset i + cluster_size i <= cluster_offset k.
Proof.
  intros Hik Hk. induction k as [|k IH]; [lia|]. rewrite cluster_offset_S by lia.
  pose proof (cluster_size_pos k ltac:(lia)). destruct (decide (i = k)) as [->|]; [lia|].
  specialize (IH ltac:(lia) ltac:(lia)). lia.
Qed.

Lemma cluster_data_apart i k : (i < length L)%nat -> (k < length L)%nat -> i <> k -> sendGe p = false ->
  cluster_base i + cluster_data i <= cluster_base k \/ cluster_base k + cluster_data k <= cluster_base i.
Proof.
  intros Hi Hk Hne Hs. unfold cluster_base, cluster_data. rewrite Hs. pose proof (lo_counts Hok).
  destruct (decide (i < k)%nat).
  - pose proof (cluster_offset_mono i k ltac:(lia) Hk). left. nia.
  - pose proof (cluster_offset_mono k i ltac:(lia) Hi). right. nia.
Qed.

(** Shares follow each other and fill the data. *)
Lemma share_start_0 i : (i < length L)%nat -> share_start i 0 = 0.
Proof.
  intros Hi. unfold share_start. pose proof (cluster_n_pos i Hi).
  pose proof (Z.mod_pos_bound (cluster_data i) (cluster_n i)). lia.
Qed.

Lemma share_start_n i : (i < length L)%nat -> share_start i (cluster_n i) = cluster_data i.
Proof.
  intros Hi. unfold share_start. pose proof (cluster_n_pos i Hi).
  pose proof (Z.mod_pos_bound (cluster_data i) (cluster_n i)). pose proof (Z.div_mod (cluster_data i) (cluster_n i)). lia.
Qed.

Lemma share_count_eq i j :
  share_count i j = cluster_data i / cluster_n i + (if cluster_n i - cluster_data i mod cluster_n i <=? j then 1 else 0).
Proof. unfold share_count, share_start. destruct (Z.leb_spec (cluster_n i - cluster_data i mod cluster_n i) j); lia. Qed.

Lemma share_count_nonneg i j : (i < length L)%nat -> 0 <= share_count i j.
Proof.
  intros Hi. rewrite share_count_eq. pose proof (cluster_n_pos i Hi). pose proof (cluster_region i Hi).
  assert (0 <= cluster_data i / cluster_n i) by (apply Z.div_pos; lia).
  destruct (_ <=? j); lia.
Qed.

Lemma share_mono i (j k : nat) : (i < length L)%nat -> (j <= k)%nat -> share_start i (Z.of_nat j) <= share_start i (Z.of_nat k).
Proof.
  intros Hi. induction 1 as [|k Hjk IH]; [lia|]. pose proof (share_count_nonneg i (Z.of_nat k) Hi) as Hc.
  unfold share_count in Hc. replace (Z.of_nat (S k)) with (Z.of_nat k + 1) by lia. lia.
Qed.

Lemma share_bounds i (j : nat) : (i < length L)%nat -> Z.of_nat j < cluster_n i ->
  0 <= share_start i (Z.of_nat j) /\ share_start i (Z.of_nat j) + share_count i (Z.of_nat j) <= cluster_data i.
Proof.
  intros Hi Hj.
  assert (H0 : share_start i (Z.of_nat 0) <= share_start i (Z.of_nat j)) by (apply share_mono; [done|lia]).
  assert (Hn : share_start i (Z.of_nat (S j)) <= share_start i (Z.of_nat (Z.to_nat (cluster_n i))))
    by (apply share_mono; [done|lia]).
  rewrite Z2Nat.id, (share_start_n i Hi) in Hn by lia. change (Z.of_nat 0) with 0 in H0. rewrite (share_start_0 i Hi) in H0.
  unfold share_count. replace (Z.of_nat j + 1) with (Z.of_nat (S j)) by lia. lia.
Qed.

(** *** The operations compute the shares *)

Definition coarse_env (lcm : Z) (i : nat) : refresh_env :=
  MkRefreshEnv (Z.of_nat i) (cluster_ranks i) (cluster_n i) false lcm (cluster_data i / cluster_n i)
    (cluster_data i mod cluster_n i) (cluster_data i / cluster_n i) (premarked i) (silent i) (cluster_offset i).

Lemma refresh_env_of_eq lcm i :
  (i < length L)%nat -> lcm <> 0 ->
  refresh_env_of p false lcm (cluster_offset i) i (cluster_ranks i) = Some (coarse_env lcm i).
Proof.
  intros Hi Hlcm. unfold refresh_env_of. fold L sizes. pose proof (cluster_n_pos i Hi) as Hn.
  rewrite arr_get_nat, (cluster_size_lookup i Hi).
  cbn [mbind option_bind]. fold (cluster_n i).
  rewrite (proj2 (Z.eqb_neq (cluster_n i) 0)), (proj2 (Z.eqb_neq lcm 0)) by lia. cbn [orb].
  assert (Hd : (if sendGe p then pl_totalCount p else pl_sendCount p *u64 cluster_size i) = cluster_data i).
  { pose proof (cluster_region i Hi) as Hr. unfold cluster_data, cluster_base in *. destruct (sendGe p) eqn:Hs; [done|].
    pose proof (cluster_offset_bound i Hi). pose proof (lo_counts Hok). rewrite Z.mod_small by nia. done. }
  rewrite Hd. done.
Qed.

Lemma rank_count_eq lcm i (j : nat) :
  (i < length L)%nat -> Z.of_nat j < cluster_n i -> rank_count (coarse_env lcm i) (Z.of_nat j) = share_count i (Z.of_nat j).
Proof.
  intros Hi Hj. unfold rank_count. cbn. pose proof (share_bounds i j Hi Hj). pose proof (share_count_nonneg i (Z.of_nat j) Hi).
  pose proof (cluster_region i Hi). rewrite share_count_eq in *. rewrite Z.mod_small; [done|].
  destruct (_ <=? _); lia.
Qed.

Lemma rank_offset_eq lcm i (j : nat) :
  (i < length L)%nat -> Z.of_nat j < cluster_n i -> rank_offset (coarse_env lcm i) (Z.of_nat j) = share_start i (Z.of_nat j).
Proof.
  intros Hi Hj. unfold rank_offset. cbn. pose proof (share_bounds i j Hi Hj) as Hb. pose proof (share_count_nonneg i (Z.of_nat j) Hi).
  pose proof (cluster_region i Hi). unfold share_start in *. pose proof (cluster_n_pos i Hi).
  pose proof (Z.mod_pos_bound (cluster_data i) (cluster_n i)). set (n := cluster_n i) in *.
  set (q := cluster_data i / n) in *. set (r := cluster_data i mod n) in *.
  assert (0 <= q) by (apply Z.div_pos; lia).
  destruct (Z.ltb_spec (Z.of_nat j) (n - r)).
  - rewrite Z.max_l in * by lia. rewrite Z.add_0_r in *. apply Z.mod_small. lia.
  - rewrite Z.max_r in * by lia. assert (Hdm : cluster_data i = n * q + r) by (apply Z.div_mod; lia).
    rewrite (Z.mod_small (q + 1)), (Z.mod_small (q * (n - r))), (Z.mod_small ((q + 1) * (Z.of_nat j - (n - r)))) by nia.
    rewrite Z.mod_small by nia. nia.
Qed.

Lemma push_balanced_eq lcm i (j : nat) rank m z :
  (i < length L)%nat -> Z.of_nat j < cluster_n i ->
  push_balanced p (coarse_env lcm i) (Z.of_nat j) rank m (Z.of_nat z)
  = if 0 <? share_count i (Z.of_nat j)
    then pushBackBufferInfo m (Z.of_nat i) rank (cluster_base i + share_start i (Z.of_nat j)) (share_count i (Z.of_nat j))
           (Z.of_nat z) false (premarked i) (-1) (-1)
    else m.
Proof.
  intros Hi Hj. unfold push_balanced. cbn [re_fine coarse_env]. fold (coarse_env lcm i).
  rewrite !(rank_count_eq lcm i j Hi Hj), (rank_offset_eq lcm i j Hi Hj).
  pose proof (share_bounds i j Hi Hj) as Hb. pose proof (cluster_region i Hi) as Hr.
  destruct (Z.ltb_spec 0 (share_count i (Z.of_nat j))) as [Hc|Hc]; [|done].
  rewrite Z.div_same, foldl_seq_one by lia. rewrite Z.mul_0_r. change (0 mod U64_MOD) with 0. rewrite !Z.add_0_r.
  cbn [re_i re_isScheduled coarse_env re_clusterOffset]. unfold cluster_base in *.
  destruct (sendGe p); [by rewrite Z.mod_small by lia|].
  rewrite (Z.mod_small (cluster_offset i * _)) by lia. rewrite (Z.mod_small (_ + _)) by lia. rewrite Z.mod_small by lia. done.
Qed.

(** One rank: its list grows by its shares. *)
Lemma refresh_dests_spec lcm i (j : nat) rank m off zs :
  (i < length L)%nat -> Z.of_nat j < cluster_n i ->
  exists m', mfold (refresh_dest p (coarse_env lcm i) (Z.of_nat j) rank) (m, off) zs = Some (m', off) /\
    appended m m' (Z.of_nat i) rank (share_entry i (Z.of_nat j) <$> filter (fun z => sends_to i (Z.of_nat j) z = true) zs).
Proof.
  intros Hi Hj. revert m. induction zs as [|z zs IH]; intros m; cbn [mfold].
  { exists m. split; [done|]. apply appended_nil. }
  assert (Hd : refresh_dest p (coarse_env lcm i) (Z.of_nat j) rank (m, off) z
    = Some (if sends_to i (Z.of_nat j) z
            then pushBackBufferInfo m (Z.of_nat i) rank (cluster_base i + share_start i (Z.of_nat j)) (share_count i (Z.of_nat j))
                   (Z.of_nat z) false (premarked i) (-1) (-1)
            else m, off)).
  { unfold refresh_dest. rewrite (lo_plain Hok). cbn [re_i re_isUseless coarse_env]. fold (coarse_env lcm i).
    unfold sends_to. destruct (negb (Z.of_nat i =? Z.of_nat z)), (negb (silent i)); try done. cbn [andb].
    by rewrite push_balanced_eq. }
  rewrite Hd. cbn [mbind option_bind]. destruct (sends_to i (Z.of_nat j) z) eqn:Hz.
  - destruct (IH (pushBackBufferInfo m (Z.of_nat i) rank (cluster_base i + share_start i (Z.of_nat j)) (share_count i (Z.of_nat j))
                   (Z.of_nat z) false (premarked i) (-1) (-1))) as (m' & He & Ha).
    exists m'. split; [done|]. rewrite filter_cons_True by done. cbn [fmap list_fmap].
    eapply (appended_app _ _ _ _ _ [_]); [apply appended_push|exact Ha].
  - rewrite filter_cons_False by (by rewrite Hz). apply IH.
Qed.

Lemma refresh_rank_spec lcm i (j : nat) rank m :
  (i < length L)%nat -> Z.of_nat j < cluster_n i -> cluster_ranks i !! j = Some rank ->
  exists m', refresh_rank p (coarse_env lcm i) m j = Some m' /\ appended m m' (Z.of_nat i) rank (share_list i (Z.of_nat j)).
Proof.
  intros Hi Hj Hr. unfold refresh_rank. cbn [re_ranks coarse_env].
  rewrite arr_get_nat, Hr. cbn [mbind option_bind]. fold L (coarse_env lcm i).
  destruct (refresh_dests_spec lcm i j rank m 0 (seq 0 (length L)) Hi Hj) as (m' & -> & Ha). by exists m'.
Qed.

(** *** All the ranks of a cluster, all the clusters *)

Lemma cluster_ranks_lookup i : (i < length L)%nat -> L !! i = Some (cluster_ranks i).
Proof. intros [l Hl]%lookup_lt_is_Some_2. unfold cluster_ranks. by rewrite Hl. Qed.

Lemma cluster_ranks_nodup i : (i < length L)%nat -> NoDup (cluster_ranks i).
Proof.
  intros Hi. pose proof (lo_nodup Hok) as Hd. rewrite Forall_forall in Hd.
  eapply Hd, list_elem_of_lookup_2, cluster_ranks_lookup, Hi.
Qed.

Lemma cluster_n_le i : (i < length L)%nat -> cluster_n i <= Z.of_nat (length (cluster_ranks i)).
Proof.
  intros Hi. pose proof (lo_nonempty Hok) as Hne. rewrite Forall_forall in Hne.
  specialize (Hne _ (list_elem_of_lookup_2 _ _ _ (cluster_ranks_lookup i Hi))). unfold cluster_n.
  destruct (pl_multiNic p); [done|]. destruct (cluster_ranks i); [done|]. cbn. lia.
Qed.

(** The lists of cluster [i] have grown by the shares [a <= j < b]. *)
Definition filled (m m' : mgr) (i a b : nat) : Prop :=
  (forall c r, c <> Z.of_nat i \/ r ∉ cluster_ranks i -> getBufferInfoList m' c r = getBufferInfoList m c r) /\
  (forall j rank, cluster_ranks i !! j = Some rank ->
     getBufferInfoList m' (Z.of_nat i) rank
     = getBufferInfoList m (Z.of_nat i) rank ++ (if bool_decide (a <= j < b)%nat then share_list i (Z.of_nat j) else [])).

Lemma filled_nil m i a : filled m m i a a.
Proof. split; [done|]. intros j rank _. rewrite bool_decide_eq_false_2 by lia. by rewrite app_nil_r. Qed.

Lemma filled_cons m m1 m2 i a b rank :
  (i < length L)%nat -> (a < b)%nat -> cluster_ranks i !! a = Some rank -> appended m m1 (Z.of_nat i) rank (share_list i (Z.of_nat a)) ->
  filled m1 m2 i (S a) b -> filled m m2 i a b.
Proof.
  intros Hi Hab Ha Happ [H1 H2]. split.
  - intros c r Hcr. rewrite H1, Happ by done. rewrite bool_decide_eq_false_2; [done|]. intros [= -> ->].
    destruct Hcr as [?|Hr]; [done|]. apply Hr. by eapply list_elem_of_lookup_2.
  - intros j r Hj. rewrite (H2 j r Hj), Happ. destruct (decide (j = a)) as [->|Hne].
    + assert (r = rank) as -> by congruence. rewrite (bool_decide_eq_true_2 (_ = _)), (bool_decide_eq_false_2 (S a <= a < b)%nat) by (done || lia).
      rewrite (bool_decide_eq_true_2 (a <= a < b)%nat) by lia. by rewrite app_nil_r.
    + rewrite (bool_decide_eq_false_2 ((Z.of_nat i, r) = _)).
      * f_equal. by rewrite (bool_decide_ext (S a <= j < b)%nat (a <= j < b)%nat) by lia.
      * intros [= ->]. apply Hne. by eapply NoDup_lookup; [apply (cluster_ranks_nodup i Hi)|..].
Qed.

Lemma refresh_ranks_spec lcm i len a m :
  (i < length L)%nat -> Z.of_nat (a + len) <= cluster_n i ->
  exists m', mfold (refresh_rank p (coarse_env lcm i)) m (seq a len) = Some m' /\ filled m m' i a (a + len).
Proof.
  intros Hi. revert a m. induction len as [|len IH]; intros a m Hlen; cbn [seq mfold].
  - exists m. split; [done|]. rewrite Nat.add_0_r. apply filled_nil.
  - pose proof (cluster_n_le i Hi). destruct (lookup_lt_is_Some_2 (cluster_ranks i) a) as [rank Hr]; [lia|].
    destruct (refresh_rank_spec lcm i a rank m Hi) as (m1 & -> & Ha); [lia|done|]. cbn [mbind option_bind].
    destruct (IH (S a) m1) as (m2 & He & Hf); [lia|]. exists m2. split; [done|].
    rewrite Nat.add_succ_r. eapply filled_cons; [done|lia|exact Hr|exact Ha|exact Hf].
Qed.

Lemma refresh_cluster_spec lcm i m :
  (i < length L)%nat -> lcm <> 0 ->
  exists m', refresh_cluster p false lcm (m, cluster_offset i) i = Some (m', cluster_offset (S i)) /\
    filled m m' i 0 (Z.to_nat (cluster_n i)).
Proof.
  intros Hi Hl. unfold refresh_cluster. fold L sizes. rewrite (cluster_ranks_lookup i Hi). cbn [mbind option_bind].
  rewrite (refresh_env_of_eq lcm i Hi Hl). cbn [mbind option_bind]. rewrite arr_get_nat, (cluster_size_lookup i Hi). cbn [mbind option_bind re_n coarse_env].
  fold (coarse_env lcm i). pose proof (cluster_n_pos i Hi).
  destruct (refresh_ranks_spec lcm i (Z.to_nat (cluster_n i)) 0 m Hi) as (m' & -> & Hf); [lia|].
  cbn [mbind option_bind]. rewrite (cluster_offset_S i Hi). by exists m'.
Qed.

(** The lists after [refresh(1)]. *)
Definition laid_out (m : mgr) (n : nat) : Prop :=
  (forall i j rank, (i < n)%nat -> cluster_ranks i !! j = Some rank ->
     getBufferInfoList m (Z.of_nat i) rank = if Z.of_nat j <? cluster_n i then share_list i (Z.of_nat j) else []) /\
  (forall c r, (forall i, (i < n)%nat -> c = Z.of_nat i -> r ∉ cluster_ranks i) -> getBufferInfoList m c r = []).

Lemma laid_out_S m m' n :
  laid_out m n -> filled m m' n 0 (Z.to_nat (cluster_n n)) -> laid_out m' (S n).
Proof.
  intros [H1 H2] [F1 F2]. split.
  - intros i j rank Hi Hj. destruct (decide (i = n)) as [->|Hne].
    + rewrite (F2 j rank Hj), H2; [|intros i Hi' Hc%Nat2Z.inj; lia]. cbn [app].
      destruct (Z.ltb_spec (Z.of_nat j) (cluster_n n)); [by rewrite bool_decide_eq_true_2 by lia|by rewrite bool_decide_eq_false_2 by lia].
    + rewrite F1 by (left; lia). apply H1; [lia|done].
  - intros c r Hcr. rewrite F1.
    + apply H2. intros i Hi. apply Hcr. lia.
    + destruct (decide (c = Z.of_nat n)) as [->|]; [right; by apply (Hcr n); [lia|]|by left].
Qed.

Lemma refresh_clusters_spec lcm len a m :
  (a + len <= length L)%nat -> lcm <> 0 -> laid_out m a ->
  exists m' off, mfold (refresh_cluster p false lcm) (m, cluster_offset a) (seq a len) = Some (m', off) /\ laid_out m' (a + len).
Proof.
  intros Hlen Hl. revert a m Hlen. induction len as [|len IH]; intros a m Hlen Hm; cbn [seq mfold].
  - eexists _, _. split; [done|]. by rewrite Nat.add_0_r.
  - destruct (refresh_cluster_spec lcm a m) as (m1 & -> & Hf); [lia|done|]. cbn [mbind option_bind].
    destruct (IH (S a) m1) as (m2 & off & He & Hm2); [lia|by eapply laid_out_S|]. exists m2, off. split; [done|].
    by rewrite Nat.add_succ_r.
Qed.

Lemma lcm_fold_pos r l : 0 < r -> Forall (fun ranks : list Z => ranks <> []) l -> exists k, lcm_fold r l = Some k /\ 0 < k.
Proof.
  intros Hr Hl. revert r Hr. induction Hl as [|x l Hx Hl IH]; intros r Hr; cbn [lcm_fold]; [by exists r|].
  assert (0 < Z.of_nat (length x)) by (destruct x; [done|cbn; lia]).
  rewrite lcm_spec by lia. cbn [mbind option_bind]. apply IH.
  pose proof (Z.lcm_nonneg r (Z.of_nat (length x))). assert (Z.lcm r (Z.of_nat (length x)) <> 0); [|lia].
  intros [?|?]%Z.lcm_eq_0; lia.
Qed.

Lemma refresh_spec env m :
  searchGranularity_fine env = false -> exists m', refresh p env 1 m = Some m' /\ laid_out m' (length L).
Proof.
  intros Henv. unfold refresh. cbn [Z.eqb Pos.eqb negb]. fold L.
  destruct (lcm_fold_pos 1 L) as (k & Hk & Hpos); [lia|apply (lo_nonempty Hok)|].
  unfold getLcmOfInterRankList. rewrite Hk. cbn [mbind option_bind]. rewrite Henv.
  destruct (refresh_clusters_spec k (length L) 0 (resetBufferInfo m)) as (m' & off & He & Hm'); [lia|lia| |].
  - split; [intros; lia|]. intros c r _. apply getBufferInfoList_reset.
  - change (cluster_offset 0) with 0 in He. rewrite He. cbn [mbind option_bind]. by exists m'.
Qed.

(** *** What the layout covers *)

(** An open send, or one marked from the start: it has no peer. *)
Definition unplaced (it : flagcxBufferInfo) : Prop := bi_isRecv it = false /\ bi_peerRank it = -1.

Lemma share_entry_facts i (j z : nat) :
  (i < length L)%nat -> Z.of_nat j < cluster_n i -> sends_to i (Z.of_nat j) z = true ->
  info_ok (share_entry i (Z.of_nat j) z) /\ unplaced (share_entry i (Z.of_nat j) z).
Proof.
  intros Hi Hj Hs. unfold sends_to in Hs. bool_to_prop. pose proof (share_bounds i j Hi Hj). pose proof (cluster_region i Hi).
  split; [|done]. unfold info_ok, region_ok. cbn. lia.
Qed.

(** What holds of every entry of the layout holds of every list. *)
Lemma laid_out_forall (P : Z -> Z -> flagcxBufferInfo -> Prop) m :
  laid_out m (length L) ->
  (forall i j rank z, (i < length L)%nat -> cluster_ranks i !! j = Some rank -> Z.of_nat j < cluster_n i ->
     sends_to i (Z.of_nat j) z = true -> (z < length L)%nat -> P (Z.of_nat i) rank (share_entry i (Z.of_nat j) z)) ->
  forall c r, Forall (P c r) (getBufferInfoList m c r).
Proof.
  intros [H1 H2] HP c r.
  destruct (decide (0 <= c < Z.of_nat (length L))) as [Hc|Hc].
  - assert (Hic : c = Z.of_nat (Z.to_nat c)) by lia. set (i := Z.to_nat c) in *. rewrite Hic.
    destruct (decide (r ∈ cluster_ranks i)) as [[j Hj]%list_elem_of_lookup|Hr].
    + rewrite (H1 i j r) by (lia || done). destruct (Z.ltb_spec (Z.of_nat j) (cluster_n i)) as [Hlt|]; [|done].
      unfold share_list. apply Forall_fmap, Forall_forall. intros z [Hz Hin%elem_of_seq]%list_elem_of_filter.
      apply HP; [lia|done|done|done|lia].
    + rewrite H2; [done|]. intros k Hk He%Nat2Z.inj. by subst k.
  - rewrite H2; [done|]. intros i Hi ->. lia.
Qed.

Lemma laid_out_infos_ok m : laid_out m (length L) -> infos_ok m.
Proof. intros Hm c r. apply (laid_out_forall (fun _ _ => info_ok) m Hm). intros. by apply share_entry_facts. Qed.

Lemma laid_out_unplaced m c r : laid_out m (length L) -> Forall unplaced (getBufferInfoList m c r).
Proof. intros Hm. apply (laid_out_forall (fun _ _ => unplaced) m Hm). intros. by apply share_entry_facts. Qed.

(** One entry per destination. *)
Lemma share_list_sends i j z :
  (length (sends_for z (share_list i j)) <= 1)%nat.
Proof.
  unfold share_list. assert (Hnd : NoDup (seq 0 (length L))) by apply NoDup_seq. revert Hnd.
  generalize (seq 0 (length L)). intros zs. induction 1 as [|y zs Hy Hnd IH]; [cbn; lia|].
  destruct (decide (sends_to i j y = true)) as [Hs|Hs]; [|by rewrite filter_cons_False].
  rewrite filter_cons_True by done. cbn [fmap list_fmap]. rewrite sends_for_cons. unfold to_cluster at 1. cbn [share_entry bi_isRecv bi_clusterIdToSend negb andb].
  destruct (Z.eqb_spec (Z.of_nat y) z) as [<-|Hne]; [|done]. cbn [app length].
  unfold sends_for. rewrite filter_none; [cbn; lia|]. apply Forall_fmap, Forall_forall.
  intros x [_ Hx]%list_elem_of_filter. unfold to_cluster. cbn. intros He%Z.eqb_eq. apply Nat2Z.inj in He as ->. done.
Qed.

Lemma laid_out_ordered m : laid_out m (length L) -> ordered m.
Proof.
  intros [H1 H2] c r z. exists [], (sends_for z (getBufferInfoList m c r)). split_and!; [done|constructor|].
  destruct (decide (getBufferInfoList m c r = [])) as [->|Hne]; [cbn; lia|].
  destruct (decide (0 <= c < Z.of_nat (length L) /\ r ∈ cluster_ranks (Z.to_nat c))) as [[Hc [j Hj]%list_elem_of_lookup]|Hn].
  - assert (Hic : c = Z.of_nat (Z.to_nat c)) by lia. rewrite Hic, (H1 _ j r) by (lia || done).
    destruct (Z.ltb_spec (Z.of_nat j) (cluster_n (Z.to_nat c))); [apply share_list_sends|cbn; lia].
  - exfalso. apply Hne, H2. intros i Hi -> Hr. apply Hn. rewrite Nat2Z.id. split; [lia|done].
Qed.

(** How many entries of cluster [i] for cluster [z] cover element [x]. *)
Definition cluster_coverage (m : mgr) (i z : nat) (x : Z) : nat :=
  sum_list ((fun r => coverage (Z.of_nat z) x (getBufferInfoList m (Z.of_nat i) r)) <$> cluster_ranks i).

Lemma coverage_share_list i j z x zs :
  NoDup zs ->
  coverage (Z.of_nat z) x (share_entry i j <$> filter (fun z => sends_to i j z = true) zs)
  = if bool_decide (z ∈ zs) && sends_to i j z && (cluster_base i + share_start i j <=? x) &&
       (x <? cluster_base i + share_start i j + share_count i j) then 1%nat else 0%nat.
Proof.
  induction 1 as [|z' zs Hz' Hnd IH]; [done|].
  assert (Hb : bool_decide (z ∈ z' :: zs) = bool_decide (z = z') || bool_decide (z ∈ zs))
    by (rewrite <-bool_decide_or; apply bool_decide_ext, elem_of_cons).
  rewrite Hb. destruct (sends_to i j z') eqn:Hs.
  - rewrite filter_cons_True by done. cbn [fmap list_fmap]. rewrite coverage_cons, IH. unfold covers. cbn [share_entry bi_isRecv bi_clusterIdToSend bi_offset bi_count negb andb].
    destruct (bool_decide_reflect (z = z')) as [->|Hne].
    + rewrite (bool_decide_eq_false_2 (z' ∈ zs)) by done. rewrite Z.eqb_refl, Hs. cbn [andb orb]. by destruct (_ && _).
    + rewrite (proj2 (Z.eqb_neq _ _)) by lia. done.
  - rewrite filter_cons_False by (by rewrite Hs). rewrite IH. destruct (bool_decide_reflect (z = z')) as [->|Hne]; [|done].
    rewrite Hs, !andb_false_r. done.
Qed.

Lemma share_start_S i (j : nat) : share_start i (Z.of_nat (S j)) = share_start i (Z.of_nat j) + share_count i (Z.of_nat j).
Proof. unfold share_count. replace (Z.of_nat (S j)) with (Z.of_nat j + 1) by lia. lia. Qed.

Lemma prefix_coverage m i z x k :
  laid_out m (length L) -> (i < length L)%nat -> (z < length L)%nat -> i <> z -> (k <= length (cluster_ranks i))%nat ->
  sum_list ((fun r => coverage (Z.of_nat z) x (getBufferInfoList m (Z.of_nat i) r)) <$> take k (cluster_ranks i))
  = if negb (silent i) && (cluster_base i <=? x) &&
       (x <? cluster_base i + share_start i (Z.min (Z.of_nat k) (cluster_n i))) then 1%nat else 0%nat.
Proof.
  intros Hm Hi Hz Hne. pose proof (cluster_n_pos i Hi). induction k as [|k IH]; intros Hk.
  - cbn [take fmap list_fmap sum_list sum_list_with]. rewrite Z.min_l by lia. change (Z.of_nat 0) with 0. rewrite (share_start_0 i Hi), Z.add_0_r.
    destruct (Z.leb_spec (cluster_base i) x), (Z.ltb_spec x (cluster_base i)); cbn; rewrite ?andb_false_r; (done || lia).
  - destruct (lookup_lt_is_Some_2 (cluster_ranks i) k) as [rank Hr]; [lia|].
    rewrite (take_S_r _ _ _ Hr), fmap_app, sum_list_with_app, IH by lia. cbn [fmap list_fmap sum_list_with].
    rewrite (proj1 Hm i k rank Hi Hr), Nat.add_0_r.
    destruct (Z.ltb_spec (Z.of_nat k) (cluster_n i)) as [Hlt|Hge].
    + unfold share_list. rewrite coverage_share_list by apply NoDup_seq.
      rewrite bool_decide_eq_true_2 by (apply elem_of_seq; lia). rewrite !Z.min_l, share_start_S by lia.
      unfold sends_to. rewrite (proj2 (Z.eqb_neq (Z.of_nat i) (Z.of_nat z))) by lia. cbn [negb andb].
      pose proof (share_bounds i k Hi Hlt). pose proof (share_count_nonneg i (Z.of_nat k) Hi). destruct (silent i); [done|]. cbn [negb andb]. unfold id.
      repeat match goal with
      | |- context [?a <=? ?b] => destruct (Z.leb_spec a b); cbn [andb]
      | |- context [?a <? ?b] => destruct (Z.ltb_spec a b); cbn [andb]
      end; lia.
    + rewrite !Z.min_r by lia. change (id (coverage (Z.of_nat z) x [])) with 0%nat. lia.
Qed.

Lemma laid_out_coverage m i z x :
  laid_out m (length L) -> (i < length L)%nat -> (z < length L)%nat -> i <> z ->
  cluster_coverage m i z x
  = if negb (silent i) && (cluster_base i <=? x) && (x <? cluster_base i + cluster_data i) then 1%nat else 0%nat.
Proof.
  intros Hm Hi Hz Hne. pose proof (cluster_n_le i Hi). unfold cluster_coverage.
  rewrite <-(firstn_all (cluster_ranks i)) at 1. rewrite (prefix_coverage m i z x _ Hm Hi Hz Hne) by lia.
  rewrite Z.min_r by lia. by rewrite (share_start_n i Hi).
Qed.
End Facts.
End Layout.

(** [refresh(1)] shares the data out.  With the coarse granularity and
    outside the pipelined reductions, it is defined, and for any two clusters
    [i] and [z]: the regions the ranks of [i] are to send to [z] cover every
    element of [i]'s data once and nothing else (nothing at all when [i] is a
    silent cluster of a rooted collective), the share of no rank exceeds that
    of another by more than one element, and no region has a peer yet. *)
Theorem refresh_partition (p : flagcxC2cPlanner) (env : option string) (m : mgr) (i z : nat) (x : Z)
    (Hok : layout_ok p) (Henv : searchGranularity_fine env = false)
    (Hi : (i < length (pl_clusterInterRankList p))%nat) (Hz : (z < length (pl_clusterInterRankList p))%nat) (Hne : i <> z) :
  exists m0, refresh p env 1 m = Some m0 /\
    cluster_coverage p m0 i z x
    = (if negb (silent p i) && (cluster_base p i <=? x) && (x <? cluster_base p i + cluster_data p i) then 1%nat else 0%nat) /\
    (forall j k, share_count p i j <= share_count p i k + 1) /\
    (forall c r, Forall unplaced (getBufferInfoList m0 c r)).
Proof.
  destruct (refresh_spec p Hok env m Henv) as (m0 & Hr & Hm0). exists m0. split_and!; [done| | |].
  - by apply (laid_out_coverage p Hok).
  - intros j k. rewrite !share_count_eq. destruct (_ <=? j), (_ <=? k); lia.
  - intros c r. by apply (laid_out_unplaced p Hok).
Qed.

Lemma example_layout_ok : layout_ok example_plan.
Proof.
  split.
  1, 2, 3, 5: by_deciding.
  - cbn. lia.
  - cbn. lia.
  - cbn. lia.
  - done.
  - done.
Qed.

Lemma refresh_partition_witness :
  exists m0, refresh example_plan None 1 (MkManager 7 ∅) = Some m0 /\ cluster_coverage example_plan m0 1 0 6 = 1%nat.
Proof.
  destruct (refresh_partition example_plan None (MkManager 7 ∅) 1 0 6 example_layout_ok eq_refl) as (m0 & Hr & Hc & _);
    [cbn; lia|cbn; lia|lia|].
  exists m0. split; [exact Hr|]. rewrite Hc. reflexivity.
Defined.
