(* ===== verification/C2cStrategy.v ===== *)
(** The strategy of the cluster-to-cluster planner
    ([flagcxC2cPlanner::findStrategy] in [flagcx/runner/c2c_algo.cc]): the
    functions each step runs inside a cluster, the point-to-point operations
    between clusters, and the rounds in which the latter are scheduled. *)
From S2P Require Import Prelude Flagcx Arrays C2cBuffers C2cPlanner.

(** ** Data *)

Record flagcxC2cP2pOp := MkP2pOp {
  op_rank : Z; op_peerRank : Z; op_offset : Z; op_count : Z; op_isRecv : bool
}.

(** A [flagcxC2cHeteroFunc] is its list of operations. *)
Abbreviation flagcxC2cHeteroFunc := (list flagcxC2cP2pOp) (only parsing).

(** The constructor without a manager stores an empty one. *)
Record flagcxC2cHomoFunc := MkHomoFunc {
  hf_rootRank : Z; hf_sendType : Z; hf_recvType : Z; hf_sendOffset : Z; hf_recvOffset : Z; hf_count : Z;
  hf_homoType : Z; hf_commOp : flagcxCommOp_t; hf_manager : flagcxInterRankBufferInfoManager
}.
Definition homo_func (rootRank sendType recvType sendOffset recvOffset count homoType : Z) (op : flagcxCommOp_t)
    : flagcxC2cHomoFunc :=
  MkHomoFunc rootRank sendType recvType (sendOffset mod U64_MOD) (recvOffset mod U64_MOD) (count mod U64_MOD) homoType op
    (MkManager 0 ∅).

Record flagcxC2cRefreshFunc := MkRefreshFunc {
  rf_bufftype : Z; rf_start : Z; rf_offset : Z; rf_count : Z; rf_totalCount : Z; rf_redOp : flagcxRedOp_t
}.

(** [steps[k].emplace_back(x)]; [None] out of range. *)
Definition push_at {A : Type} (steps : list (list A)) (k : Z) (x : A) : option (list (list A)) :=
  l ← arr_get steps k;
  Some (<[Z.to_nat k := l ++ [x]]> steps).

(** [steps[s].push_back(new[s])] for every step. *)
Definition push_each {A : Type} (steps : list (list A)) (new : list A) : option (list (list A)) :=
  mfold (fun st sx => push_at st (Z.of_nat sx.1) sx.2) steps (imap pair new).

(** What [findStrategy] builds. *)
Record strategy := MkStrategy {
  st_preHomoFuncSteps : list (list flagcxC2cHomoFunc);
  st_heteroFuncSteps : list (list flagcxC2cHeteroFunc);
  st_homoInterFuncSteps : list (list flagcxC2cHomoFunc);
  st_postHomoFuncSteps : list (list flagcxC2cHomoFunc);
  st_manager : flagcxInterRankBufferInfoManager
}.

Section Strategy.
Variable p : flagcxC2cPlanner.
Let comm := pl_comm p.
Let L := pl_clusterInterRankList p.
Abbreviation mgr := flagcxInterRankBufferInfoManager (only parsing).

Definition is_op (o : flagcxCommOp_t) : bool := op_is (pl_commOp p) o.

(** The steps that have point-to-point operations. *)
Definition nsteps : Z := pl_nPipePreSteps p + pl_nSeqInterSteps p + pl_nPipePostSteps p.
Definition step_of (sendClusterId recvClusterId : Z) : Z :=
  Z.rem (sendClusterId + cc_nclusters comm - 1 - recvClusterId) (cc_nclusters comm).

(** ** One round of scheduling *)

(** [scheduleCompleted]. *)
Fixpoint schedule_completed (m : mgr) (i : nat) (lists : list (list Z)) : bool :=
  match lists with
  | [] => true
  | ranks :: lists' => forallb (checkIsScheduled m (Z.of_nat i)) ranks && schedule_completed m (S i) lists'
  end.

(** The clusters an entry of this rank sends from and to. *)
Definition entry_clusters (it : flagcxBufferInfo) : option (Z * Z) :=
  peer ← arr_get (cc_clusterIds comm) (bi_peerRank it);
  Some (if bi_isRecv it then (peer, pl_clusterId p) else (pl_clusterId p, peer)).

(** The operation of one entry in round [loop]. *)
Definition add_round_op (loop : Z) (steps : list flagcxC2cHeteroFunc) (it : flagcxBufferInfo)
    : option (list flagcxC2cHeteroFunc) :=
  if bi_isScheduled it && (bi_loopId it =? loop) then
    let offset := if negb (bi_isRecv it) && is_op flagcxCommOpAllGather && pl_eachNicPerRank p then 0 else bi_offset it in
    let op := MkP2pOp (pl_rank p) (bi_peerRank it) offset (bi_count it) (bi_isRecv it) in
    if 1 <? nsteps then
      if bi_peerRank it =? -1 then Some steps else
      '(sendClusterId, recvClusterId) ← entry_clusters it;
      push_at steps (step_of sendClusterId recvClusterId) op
    else push_at steps 0 op
  else Some steps.

(** The lists of this rank, in every cluster that lists it. *)
Definition my_lists (m : mgr) : list (list flagcxBufferInfo) :=
  concat (imap (fun j ranks => (fun _ => getBufferInfoList m (Z.of_nat j) (pl_rank p)) <$>
                               filter (fun r => r = pl_rank p) ranks) L).

Definition round_ops (loop : Z) (m : mgr) : option (list flagcxC2cHeteroFunc) :=
  mfold (add_round_op loop) (replicate (Z.to_nat nsteps) []) (concat (my_lists m)).

(** The pipelined AllReduce turns what every cluster has reduced into sends to
    all the others.  The traversal of a list appends to it only entries it
    skips, so erasing the scheduled ones comes last. *)
Definition restage_entry (i : nat) (target : Z) (m : mgr) (it : flagcxBufferInfo) : mgr :=
  if bi_isScheduled it && (bi_peerRank it =? -1) then
    foldl (fun m c => if Z.of_nat c =? Z.of_nat i then m
                      else pushBackBufferInfo m (Z.of_nat i) target (bi_offset it) (bi_count it) (Z.of_nat c) false false (-1) (-1))
      m (seq 0 (Z.to_nat (cc_nclusters comm)))
  else m.
Definition restage_post (i : nat) (homoMyRank rank : Z) (post : list (list flagcxC2cHomoFunc)) (it : flagcxBufferInfo)
    : option (list (list flagcxC2cHomoFunc)) :=
  if bi_isScheduled it && (bi_peerRank it =? -1) && (Z.of_nat i =? pl_clusterId p)
  then push_at post 0 (homo_func (rank - (pl_rank p - homoMyRank)) 1 1 (bi_offset it) (bi_offset it) (bi_count it) 2
                         flagcxCommOpBroadcast)
  else Some post.
Definition restage_rank (i : nat) (clusterOffset : Z) (acc : mgr * list (list flagcxC2cHomoFunc)) (jrank : nat * Z)
    : option (mgr * list (list flagcxC2cHomoFunc)) :=
  let '(m, post) := acc in
  let '(j, rank) := jrank in
  let l := getBufferInfoList m (Z.of_nat i) rank in
  post' ← mfold (restage_post i (cc_homoRank comm) rank) post l;
  let m1 := foldl (restage_entry i (Z.of_nat j + clusterOffset)) m l in
  Some (setBufferInfoList m1 (Z.of_nat i) rank
          (filter (fun it => bi_isScheduled it = false) (getBufferInfoList m1 (Z.of_nat i) rank)), post').
Definition restage_cluster (acc : mgr * list (list flagcxC2cHomoFunc) * Z) (i : nat)
    : option (mgr * list (list flagcxC2cHomoFunc) * Z) :=
  let '(m, post, clusterOffset) := acc in
  ranks ← L !! i;
  size ← arr_get (cc_clusterSizes comm) (Z.of_nat i);
  '(m', post') ← mfold (restage_rank i clusterOffset) (m, post) (imap pair ranks);
  Some (m', post', clusterOffset + size).

(** The operations of the second half of the pipelined AllReduce. *)
Definition add_gather_op (steps : list flagcxC2cHeteroFunc) (it : flagcxBufferInfo) : option (list flagcxC2cHeteroFunc) :=
  if bi_isScheduled it then
    '(sendClusterId, recvClusterId) ← entry_clusters it;
    if sendClusterId =? recvClusterId then Some steps
    else push_at steps (step_of sendClusterId recvClusterId + cc_nclusters comm - 1)
           (MkP2pOp (pl_rank p) (bi_peerRank it) (bi_offset it) (bi_count it) (bi_isRecv it))
  else Some steps.

Definition gather_phase (env : option string) (m : mgr) (post : list (list flagcxC2cHomoFunc)) (steps : list flagcxC2cHeteroFunc)
    : option (mgr * list (list flagcxC2cHomoFunc) * list flagcxC2cHeteroFunc) :=
  m1 ← refresh p env 2 m;
  '(m2, post', _) ← mfold restage_cluster (m1, post, 0) (seq 0 (length L));
  m3 ← searchHeteroSendRecvOps p 1 0 m2;
  steps' ← mfold add_gather_op steps (concat (my_lists m3));
  Some (m3, post', steps').

(** The collective among the inter-cluster ranks after a round. *)
Definition add_reduce_scatter (sendType recvType : Z) (op : flagcxCommOp_t) (inter : list (list flagcxC2cHomoFunc)) (c : nat)
    : option (list (list flagcxC2cHomoFunc)) :=
  let step := if algo_is p flagcxAlgoSequential then 0 else step_of (pl_clusterId p) (Z.of_nat c) in
  if step =? cc_nclusters comm - 1 then Some inter else
  if cc_nranks comm =? 0 then None else
  let rankCount := pl_totalCount p / (cc_nranks comm) in
  let recvFlag := algo_is p flagcxAlgoPipeline && is_op flagcxCommOpReduceScatter && pl_eachNicPerRank p &&
                  (step =? cc_nclusters comm - 2) in
  push_at inter step
    (homo_func (-1) sendType (if recvFlag then 1 else recvType) (pl_clusterOffset p * rankCount)
       (if recvFlag then 0 else pl_clusterOffset p * rankCount + cc_homoRank comm * rankCount) rankCount 2 op).

Definition add_inter_func (sendType recvType : Z) (m : mgr) (inter : list (list flagcxC2cHomoFunc))
    : option (list (list flagcxC2cHomoFunc)) :=
  op ← getC2cHomoCommOp p 1 (if pl_eachNicPerRank p then 0 else 1);
  let func homoType := homo_func (-1) sendType recvType 0 0 (pl_totalCount p) homoType op in
  match op with
  | flagcxCommOpAllReduce | flagcxCommNoOp => push_at inter 0 (func 1)
  | flagcxCommOpReduce => push_at inter 0 (func 0)
  | flagcxCommOpReduceScatter =>
      mfold (add_reduce_scatter sendType recvType op) inter (seq 0 (Z.to_nat (cc_nclusters comm)))
  | flagcxCommOpSend | flagcxCommOpRecv =>
      push_at inter 0 (MkHomoFunc (-1) sendType recvType 0 0 (pl_totalCount p) 1 op m)
  | _ => Some inter
  end.

(** One round, and the rounds until everything is scheduled. *)
Definition schedule_round (env : option string) (sendType recvType loop : Z) (s : strategy) : option (bool * strategy) :=
  m1 ← searchHeteroSendRecvOps p 1 loop (st_manager s);
  let completed := schedule_completed m1 0 L in
  steps ← round_ops loop m1;
  '(m2, post, steps') ←
    (if is_op flagcxCommOpAllReduce && algo_is p flagcxAlgoPipeline
     then gather_phase env m1 (st_postHomoFuncSteps s) steps
     else Some (m1, st_postHomoFuncSteps s, steps));
  hetero ← push_each (st_heteroFuncSteps s) steps';
  inter ← add_inter_func sendType recvType m2 (st_homoInterFuncSteps s);
  m3 ← (if (completed : bool) then Some m2 else refresh p env 0 m2);
  Some (completed, MkStrategy (st_preHomoFuncSteps s) hetero inter post m3).

Fixpoint schedule_rounds (fuel : nat) (env : option string) (sendType recvType loop : Z) (s : strategy) : option strategy :=
  match fuel with
  | O => None
  | S fuel' =>
      '(completed, s') ← schedule_round env sendType recvType loop s;
      if (completed : bool) then Some s' else schedule_rounds fuel' env sendType recvType (loop + 1) s'
  end.
End Strategy.
