(* ===== verification/C2cRounds.v ===== *)
(** The rounds of [flagcxC2cPlanner::findStrategy] ([flagcx/runner/c2c_algo.cc]):
    each round places more of the data, so the rounds end, with every region
    placed once and every send matched by a receive. *)
From S2P Require Import Prelude Flagcx Arrays C2cBuffers C2cPlanner C2cSchedule C2cRefresh C2cStrategy.

(** ** Room at a receiver whose own regions all start later *)

Lemma split_round_mono m c r o n acc info : acc.1 <= (split_round m c r o n acc info).1.
Proof.
  destruct acc as [mx mode]. unfold split_round. cbn [fst snd].
  set (acc1 := if (o <? bi_offset info) && _ && _ then _ else _).
  assert (H1 : mx <= acc1.1) by (subst acc1; destruct (_ && _); cbn; lia). clearbody acc1.
  destruct (_ && _); cbn; lia.
Qed.

Lemma split_fold_mono m c r o n l acc : acc.1 <= (foldl (split_round m c r o n) acc l).1.
Proof.
  revert acc. induction l as [|x l IH]; intros acc; cbn [foldl]; [lia|].
  pose proof (split_round_mono m c r o n acc x). specialize (IH (split_round m c r o n acc x)). lia.
Qed.

(** The entry with the least offset. *)
Lemma least_offset (l : list flagcxBufferInfo) :
  l <> [] -> exists it, it ∈ l /\ Forall (fun x => bi_offset it <= bi_offset x) l.
Proof.
  induction l as [|x l IH]; [done|]. intros _. destruct l as [|y l].
  - exists x. split; [set_solver|]. by repeat constructor.
  - destruct IH as (it & Hin & Hall); [done|]. destruct (Z.leb_spec (bi_offset x) (bi_offset it)).
    + exists x. split; [set_solver|]. constructor; [lia|]. eapply Forall_impl; [exact Hall|]. cbn. lia.
    + exists it. split; [set_solver|]. constructor; [lia|done].
Qed.

Lemma prefix_room m c r o n :
  infos_ok m -> region_ok o n -> Forall (fun it => o < bi_offset it) (getBufferInfoList m c r) ->
  checkIfPossibleToPush m c r o n = true \/ checkIfPossibleToSplitAndPush m c r o n <> None.
Proof.
  intros Hm Hr Hafter. destruct (checkIfPossibleToPush m c r o n) eqn:Hpush; [by left|right].
  destruct (getBufferInfoList m c r) as [|x l] eqn:Hl.
  { exfalso. unfold checkIfPossibleToPush in Hpush. by rewrite Hl in Hpush. }
  destruct (least_offset (x :: l)) as (it & Hin & Hleast); [done|]. rewrite <-Hl in *.
  assert (Hok : Forall info_ok (getBufferInfoList m c r)) by apply Hm.
  rewrite !Forall_forall in *. specialize (Hafter it Hin). pose proof (Hok it Hin) as Hi. unfold info_ok, region_ok in *.
  assert (Hfree : checkIfPossibleToPush m c r o (bi_offset it - o) = true).
  { apply checkIfPossibleToPush_spec; [done|unfold region_ok; lia|]. apply Forall_forall. intros y Hy. unfold apart.
    specialize (Hleast y Hy). lia. }
  assert (Hlt : bi_offset it < o + n).
  { destruct (Z.ltb_spec (bi_offset it) (o + n)); [done|]. exfalso.
    assert (checkIfPossibleToPush m c r o n = true); [|congruence].
    apply checkIfPossibleToPush_spec; [done|unfold region_ok; lia|]. apply Forall_forall. intros y Hy. unfold apart.
    specialize (Hleast y Hy). lia. }
  unfold checkIfPossibleToSplitAndPush.
  apply list_elem_of_split in Hin as (l1 & l2 & Hsplit).
  assert (Hpos : 0 < (foldl (split_round m c r o n) (0, 0) (getBufferInfoList m c r)).1).
  { rewrite Hsplit, foldl_app. cbn [foldl]. eapply Z.lt_le_trans; [|apply split_fold_mono].
    set (acc := foldl _ _ l1). unfold split_round at 1. rewrite !(Z.mod_small (o + n)) by lia.
    rewrite (proj2 (Z.ltb_lt o (bi_offset it))), (proj2 (Z.ltb_lt (bi_offset it) (o + n))) by lia.
    rewrite (Z.mod_small (bi_offset it - o)) by lia. rewrite Hfree. cbn [andb].
    rewrite (proj2 (Z.leb_gt (bi_offset it) o)) by lia. cbn [andb fst]. lia. }
  destruct (foldl _ _ _) as [mx mode]. cbn [fst] in Hpos. by rewrite (proj2 (Z.ltb_lt 0 mx)).
Qed.

(** ** The data still to be placed *)

Definition open_count1 (it : flagcxBufferInfo) : nat :=
  if negb (bi_isScheduled it) && negb (bi_isRecv it) then Z.to_nat (bi_count it) else 0.
Definition open_count (l : list flagcxBufferInfo) : nat := sum_list (open_count1 <$> l).

Lemma open_count_app l1 l2 : open_count (l1 ++ l2) = (open_count l1 + open_count l2)%nat.
Proof. unfold open_count. by rewrite fmap_app, sum_list_with_app. Qed.
Lemma open_count_cons it l : open_count (it :: l) = (open_count1 it + open_count l)%nat.
Proof. done. Qed.

(** Changing one summand of a sum over distinct keys. *)
Lemma sum_lower {K : Type} (f g : K -> nat) (keys : list K) k :
  NoDup keys -> k ∈ keys -> (g k < f k)%nat -> (forall k', k' <> k -> g k' = f k') ->
  (sum_list (g <$> keys) < sum_list (f <$> keys))%nat.
Proof.
  intros Hnd Hin Hlt Hother. induction Hnd as [|x keys Hx Hnd IH]; [by apply elem_of_nil in Hin|].
  cbn. apply elem_of_cons in Hin as [<-|Hin].
  - assert (Heq : g <$> keys = f <$> keys).
    { apply list_fmap_ext. intros i y Hy. apply Hother. intros ->. apply Hx. by eapply list_elem_of_lookup_2. }
    unfold sum_list in *. rewrite Heq. lia.
  - specialize (IH Hin). destruct (Hother x) as []; [set_solver|]. unfold sum_list in *. lia.
Qed.

Section Rounds.
Variable p : flagcxC2cPlanner.
Let L := pl_clusterInterRankList p.

Definition all_keys : list (nat * Z) := concat (imap (fun i ranks => pair i <$> ranks) L).
Definition open_total (m : mgr) : nat := sum_list ((fun k => open_count (getBufferInfoList m (Z.of_nat k.1) k.2)) <$> all_keys).

Lemma all_keys_spec i r : (i, r) ∈ all_keys <-> rank_in L i r.
Proof.
  unfold all_keys, rank_in. rewrite list_elem_of_In, in_concat. split.
  - intros (l & Hl%list_elem_of_In & Hin%list_elem_of_In). apply elem_of_lookup_imap in Hl as (j & ranks & -> & Hj).
    apply list_elem_of_fmap in Hin as (x & [= -> ->] & Hx). by exists ranks.
  - intros (ranks & Hr & Hin). exists (pair i <$> ranks). split; apply list_elem_of_In.
    + apply elem_of_lookup_imap. by exists i, ranks.
    + by apply list_elem_of_fmap_2.
Qed.

Lemma all_keys_nodup : Forall (fun ranks : list Z => NoDup ranks) L -> NoDup all_keys.
Proof.
  unfold all_keys. change (imap (fun i ranks => pair i <$> ranks) L) with (imap (fun i ranks => pair (0 + i)%nat <$> ranks) L).
  generalize 0%nat. intros a Hnd. revert a. induction Hnd as [|ranks l Hr Hnd IH]; intros a; [constructor|].
  cbn [imap concat]. apply NoDup_app. split; [|split].
  - rewrite Nat.add_0_r. apply NoDup_fmap; [|done]. by intros x y [= ->].
  - intros [i r] [x [[= -> ->] Hx]]%list_elem_of_fmap Hin.
    apply list_elem_of_In, in_concat in Hin as (l' & Hl'%list_elem_of_In & Hin%list_elem_of_In).
    apply elem_of_lookup_imap in Hl' as (j & ranks' & -> & Hj). apply list_elem_of_fmap in Hin as (y & [= Heq _] & _). lia.
  - specialize (IH (S a)). erewrite imap_ext; [exact IH|]. intros i x _. cbn. by rewrite Nat.add_succ_r.
Qed.

Lemma step_open_total loop m m' :
  Forall (fun ranks : list Z => NoDup ranks) L -> infos_ok m -> sched_step L loop m m' -> (open_total m' < open_total m)%nat.
Proof.
  intros Hnd%all_keys_nodup Hm (sc & sr & zc & Hs). unfold open_total.
  assert (Hkeys : (sc, sr) ∈ all_keys) by (apply all_keys_spec; by destruct Hs).
  assert (Hrecv : forall l r, bi_isRecv r = true -> open_count (l ++ [r]) = open_count l).
  { intros l r Hr. rewrite open_count_app, open_count_cons. unfold open_count1. rewrite Hr, andb_false_r.
    change (open_count []) with 0%nat. lia. }
  assert (Hget : forall zc rank recv l, sc <> zc -> bi_isRecv recv = true ->
    forall k : nat * Z, k <> (sc, sr) ->
      open_count (getBufferInfoList (place m zc rank recv sc sr l) (Z.of_nat k.1) k.2) = open_count (getBufferInfoList m (Z.of_nat k.1) k.2)).
  { intros zc' rank recv l Hne Hr [i r] Hk. cbn [fst snd]. rewrite place_get by done.
    rewrite (bool_decide_eq_false_2 ((Z.of_nat i, r) = (Z.of_nat sc, sr))).
    - destruct (bool_decide_reflect ((Z.of_nat i, r) = (Z.of_nat zc', rank))) as [[= -> ->]|]; [by rewrite Hrecv|done].
    - intros [= ->%Nat2Z.inj ->]. done. }
  eapply (sum_lower _ _ _ (sc, sr)); [done|done| |]; cbn [fst snd].
  - specialize (Hm (Z.of_nat sc) sr). destruct Hs as [rank it l1 l2 _ _ Hne Hl Hp _|rank it l1 l2 o n o' _ _ Hne Hl Hp He _];
      rewrite place_get, bool_decide_eq_true_2, Hl by done; rewrite Hl, Forall_app, Forall_cons in Hm;
      destruct Hm as (_ & Hi & _); unfold info_ok, region_ok in Hi; apply pending_spec in Hp as (Hp1 & Hp2 & _);
      rewrite !open_count_app, !open_count_cons; unfold open_count1; cbn; rewrite Hp1, Hp2; cbn.
    + lia.
    + destruct He as [Hn _]. lia.
  - intros k Hk. destruct Hs; by apply Hget.
Qed.

(** ** What holds between the rounds *)

Definition receivers_ok : Prop := forall sc zc, (sc < length L)%nat -> (zc < length L)%nat -> sc <> zc ->
  silent p sc = false ->
  (2 <= length (cluster_ranks p zc))%nat \/ silent p zc = true \/ sendGe p = false.

(** Every entry belongs to the [j]-th rank of a cluster: a receive, or part of
    the rank's share, for another cluster. *)
Definition own_share (i : nat) (j : nat) (it : flagcxBufferInfo) : Prop :=
  Z.of_nat j < cluster_n p i /\ silent p i = false /\
  cluster_base p i + share_start p i (Z.of_nat j) <= bi_offset it /\
  bi_offset it + bi_count it <= cluster_base p i + share_start p i (Z.of_nat (S j)) /\
  (exists z, bi_clusterIdToSend it = Z.of_nat z /\ (z < length L)%nat /\ z <> i) /\
  (bi_isScheduled it = true -> bi_peerRank it = -1 -> premarked p i = true).
Definition entry_ok (c r : Z) (it : flagcxBufferInfo) : Prop :=
  exists i j, c = Z.of_nat i /\ (i < length L)%nat /\ cluster_ranks p i !! j = Some r /\
    (if bi_isRecv it then bi_isScheduled it = true else own_share i j it).
Definition entries_ok (m : mgr) : Prop := forall c r, Forall (entry_ok c r) (getBufferInfoList m c r).
Definition no_receives (m : mgr) : Prop := forall c r, Forall (fun it => bi_isRecv it = false) (getBufferInfoList m c r).

Lemma rank_in_index i r : rank_in L i r <-> (i < length L)%nat /\ exists j, cluster_ranks p i !! j = Some r.
Proof.
  unfold rank_in, cluster_ranks. split.
  - intros (l & Hl & [j Hj]%list_elem_of_lookup). fold L. rewrite Hl. split; [by eapply lookup_lt_Some|]. by exists j.
  - fold L. intros [[l Hl]%lookup_lt_is_Some_2 [j Hj]]. rewrite Hl in Hj. exists l. split; [done|]. by eapply list_elem_of_lookup_2.
Qed.

Lemma rank_valid i r : layout_ok p -> rank_in L i r -> 0 <= r.
Proof.
  intros Hok (l & Hl & Hr). pose proof (lo_ranks p Hok) as Hv. rewrite Forall_forall in Hv.
  specialize (Hv l (list_elem_of_lookup_2 _ _ _ Hl)). rewrite Forall_forall in Hv. by apply Hv.
Qed.

Lemma step_entries_ok loop m m' : layout_ok p -> entries_ok m -> sched_step L loop m m' -> entries_ok m'.
Proof.
  intros Hok Hm Hs. unfold entries_ok in *.
  assert (Hrecv : forall zc rank r, rank_in L zc rank -> bi_isRecv r = true -> bi_isScheduled r = true ->
    entry_ok (Z.of_nat zc) rank r).
  { intros zc rank r [Hi [j Hj]]%rank_in_index Hr Hsch. exists zc, j. rewrite Hr. by split_and!. }
  destruct Hs as (sc & sr & zc & [rank it l1 l2 _ Hzc Hne Hl Hp _|rank it l1 l2 o n o' _ Hzc Hne Hl Hp He _]);
    apply (place_forall (fun c r => Forall (entry_ok c r))); try done;
    try (apply Forall_app; split; [apply Hm|]; constructor; [by apply Hrecv|done]);
    specialize (Hm (Z.of_nat sc) sr); rewrite Hl, Forall_app, Forall_cons in Hm; destruct Hm as (Ha & Hi & Hb);
    apply pending_spec in Hp as (Hp1 & Hp2 & Hp3);
    destruct Hi as (i & j & Hc & Hlen & Hj & Hi); rewrite Hp2 in Hi; destruct Hi as (Hn & Hsi & Hlo & Hhi & Hz & _);
    pose proof (rank_valid zc rank Hok Hzc) as Hrk.
  - rewrite Forall_app, Forall_cons. split_and!; [done| |done]. exists i, j. unfold own_share. cbn. split_and!; [done..|lia].
  - rewrite !Forall_app, !Forall_cons. split_and!; [done|done| | |done]; exists i, j; split_and!; try done;
      destruct He as [Hb' [[-> ->]|[-> ->]]]; unfold own_share; cbn; split_and!; try done; try lia.
Qed.

Section Steps.
Hypothesis (Hok : layout_ok p) (Hrecv : receivers_ok).

Lemma laid_out_entries_ok m : laid_out p m (length L) -> entries_ok m /\ no_receives m.
Proof.
  intros Hm. split; intros c r; [|eapply Forall_impl; [by apply (laid_out_unplaced p Hok m c r)|by intros it []]].
  apply (laid_out_forall p entry_ok m Hm). intros i j rank z Hi Hr Hj Hs Hz. exists i, j. split_and!; [done..|].
  cbn [share_entry bi_isRecv]. unfold sends_to in Hs. bool_to_prop. unfold own_share. cbn [share_entry bi_offset bi_count bi_clusterIdToSend].
  split_and!; [done|done|lia| |exists z; split_and!; [done|done|lia]|done].
  unfold share_count. replace (Z.of_nat (S j)) with (Z.of_nat j + 1) by lia. lia.
Qed.

(** Before any receive, an open region has room somewhere. *)
Lemma room m sc sr zc it :
  infos_ok m -> entries_ok m -> no_receives m -> it ∈ getBufferInfoList m (Z.of_nat sc) sr ->
  bi_isScheduled it = false -> bi_clusterIdToSend it = Z.of_nat zc -> ~ stuck L m zc it.
Proof.
  intros Hm He Hno Hin Hsch Hd Hst.
  assert (Hi : info_ok it) by (specialize (Hm (Z.of_nat sc) sr); rewrite Forall_forall in Hm; by apply Hm).
  assert (Hnr : bi_isRecv it = false) by (specialize (Hno (Z.of_nat sc) sr); rewrite Forall_forall in Hno; by apply Hno).
  assert (Hp : pending (Z.of_nat zc) it = true) by (unfold pending; rewrite Hsch, Hnr, Hd, Z.eqb_refl; done).
  assert (Hit : entry_ok (Z.of_nat sc) sr it) by (specialize (He (Z.of_nat sc) sr); rewrite Forall_forall in He; by apply He).
  destruct Hit as (i & j & Hc & Hlen & Hj & Hit). apply Nat2Z.inj in Hc as <-. rewrite Hnr in Hit.
  destruct Hit as (Hjn & Hsil & Hlo & Hhi & (z & Hz & Hzlen & Hzne) & _). rewrite Hd in Hz. apply Nat2Z.inj in Hz as <-.
  (* a receiver with nothing in the way, or only later regions, is not stuck *)
  assert (Hfree : forall k rank, cluster_ranks p zc !! k = Some rank ->
    Forall (fun x => bi_offset it < bi_offset x) (getBufferInfoList m (Z.of_nat zc) rank) \/
    Forall (fun x => apart (bi_offset it) (bi_count it) (bi_offset x) (bi_count x)) (getBufferInfoList m (Z.of_nat zc) rank) -> False).
  { intros k rank Hk Hcase. assert (Hr : rank_in L zc rank) by (apply rank_in_index; eauto).
    destruct (Hst Hp rank Hr) as [Hno1 Hno2]. destruct Hcase as [Hlater|Hap].
    - destruct (prefix_room m (Z.of_nat zc) rank _ _ Hm Hi Hlater); [congruence|done].
    - apply (checkIfPossibleToPush_spec _ (Z.of_nat zc) rank _ _ Hm Hi) in Hap. congruence. }
  assert (Hown : forall k rank x, cluster_ranks p zc !! k = Some rank -> x ∈ getBufferInfoList m (Z.of_nat zc) rank ->
    own_share zc k x /\ info_ok x).
  { intros k rank x Hk Hx. specialize (He (Z.of_nat zc) rank). specialize (Hno (Z.of_nat zc) rank). specialize (Hm (Z.of_nat zc) rank).
    rewrite Forall_forall in He, Hno, Hm. split; [|by apply Hm]. destruct (He x Hx) as (i' & k' & Hc' & Hl' & Hk' & Hx').
    apply Nat2Z.inj in Hc' as <-. rewrite (Hno x Hx) in Hx'.
    assert (k' = k) as -> by (eapply NoDup_lookup; [by apply (cluster_ranks_nodup p Hok zc Hzlen)|done..]). done. }
  pose proof (cluster_n_le p Hok zc Hzlen). pose proof (cluster_n_pos p Hok zc Hzlen).
  destruct (lookup_lt_is_Some_2 (cluster_ranks p zc) 0) as [rank0 Hr0]; [lia|].
  pose proof (share_bounds p Hok sc j Hlen Hjn) as Hsb. rewrite (share_start_S p) in Hhi.
  pose proof (cluster_region p Hok sc Hlen) as Hreg. pose proof (cluster_region p Hok zc Hzlen) as Hregz.
  unfold info_ok, region_ok in Hi.
  destruct (Hrecv sc zc Hlen Hzlen (not_eq_sym Hzne) Hsil) as [Htwo|[Hs|Hs]].
  - (* two ranks: the first one if the region starts behind its share, else the second *)
    destruct (lookup_lt_is_Some_2 (cluster_ranks p zc) 1) as [rank1 Hr1]; [lia|].
    destruct (Z.leb_spec (cluster_base p zc + share_start p zc (Z.of_nat 1)) (bi_offset it)) as [Hge|Hlt].
    + apply (Hfree 0%nat rank0 Hr0). right. apply Forall_forall. intros x Hx.
      destruct (Hown 0%nat rank0 x Hr0 Hx) as [(_ & _ & _ & Hx2 & _) _]. unfold apart. lia.
    + apply (Hfree 1%nat rank1 Hr1). left. apply Forall_forall. intros x Hx.
      destruct (Hown 1%nat rank1 x Hr1 Hx) as [(_ & _ & Hx1 & _ & _) _]. lia.
  - (* a silent cluster has no regions *)
    apply (Hfree 0%nat rank0 Hr0). left. apply Forall_forall. intros x Hx.
    destruct (Hown 0%nat rank0 x Hr0 Hx) as [(_ & Hx1 & _) _]. congruence.
  - (* the clusters' data are disjoint *)
    apply (Hfree 0%nat rank0 Hr0). right. apply Forall_forall. intros x Hx.
    destruct (Hown 0%nat rank0 x Hr0 Hx) as [(Hkn & _ & Hx1 & Hx2 & _ & _) _]. rewrite (share_start_S p) in Hx2.
    pose proof (share_bounds p Hok zc 0 Hzlen Hkn) as Hsz. unfold apart.
    assert (Hdis : cluster_base p sc + cluster_data p sc <= cluster_base p zc \/
                   cluster_base p zc + cluster_data p zc <= cluster_base p sc); [|lia].
    apply (cluster_data_apart p Hok); [done..|congruence].
Qed.

(** ** One round *)

Lemma reach_facts loop m m' :
  reach (sched_step L loop) m m' -> infos_ok m -> entries_ok m ->
  infos_ok m' /\ entries_ok m' /\ (open_total m' <= open_total m)%nat.
Proof.
  induction 1 as [m|m1 m2 m3 Hs _ IH]; intros Hm He; [done|].
  pose proof (step_open_total loop m1 m2 (lo_nodup p Hok) Hm Hs).
  destruct IH as (H1 & H2 & Hle); [by eapply step_infos_ok|by eapply step_entries_ok|]. split_and!; [done|done|lia].
Qed.

Lemma schedule_completed_spec m a lists :
  schedule_completed m a lists = true <->
  forall i ranks r it, lists !! i = Some ranks -> r ∈ ranks -> it ∈ getBufferInfoList m (Z.of_nat (a + i)) r -> bi_isScheduled it = true.
Proof.
  revert a. induction lists as [|l lists IH]; intros a; [done|]. cbn [schedule_completed].
  rewrite andb_true_iff, IH, forallb_forall. unfold checkIsScheduled. split.
  - intros [H1 H2] [|i] ranks r it Hi Hr Hit.
    + injection Hi as ->. rewrite Nat.add_0_r in Hit. specialize (H1 r (proj1 (list_elem_of_In _ _) Hr)).
      rewrite forallb_forall in H1. by apply H1, list_elem_of_In.
    + apply (H2 i ranks r it); [done|done|]. by rewrite Nat.add_succ_comm.
  - intros H. split.
    + intros r Hr%list_elem_of_In. apply forallb_forall. intros it Hit%list_elem_of_In.
      apply (H 0%nat l r it); [done|done|]. by rewrite Nat.add_0_r.
    + intros i ranks r it Hi Hr Hit. apply (H (S i) ranks r it); [done|done|]. by rewrite <-Nat.add_succ_comm.
Qed.

Lemma completed_all m :
  entries_ok m -> schedule_completed m 0 L = true ->
  forall c r, Forall (fun it => bi_isScheduled it = true) (getBufferInfoList m c r).
Proof.
  intros He Hc c r. apply Forall_forall. intros it Hit.
  pose proof (He c r) as Hcr. rewrite Forall_forall in Hcr. destruct (Hcr it Hit) as (i & j & -> & Hi & Hj & _).
  eapply (proj1 (schedule_completed_spec m 0 L) Hc i (cluster_ranks p i) r); [by apply (cluster_ranks_lookup p)| |done].
  by eapply list_elem_of_lookup_2.
Qed.

Lemma search_round loop m :
  infos_ok m -> entries_ok m -> no_receives m ->
  exists m1, searchHeteroSendRecvOps p 1 loop m = Some m1 /\ reach (sched_step L loop) m m1 /\
    (schedule_completed m1 0 L = true \/ (open_total m1 < open_total m)%nat).
Proof.
  intros Hm He Hno. destruct (search_spec p (lo_nonempty p Hok) 1 loop m Hm) as (m1 & Hs & Hr & _ & _ & _ & Hmv).
  exists m1. split; [done|]. split; [done|]. destruct Hmv as [(m2 & Hstep & Hr2)|[-> Hst]]; [right|left].
  - pose proof (step_open_total loop m m2 (lo_nodup p Hok) Hm Hstep).
    destruct (reach_facts loop m2 m1 Hr2) as (_ & _ & Hle); [by eapply step_infos_ok|by eapply step_entries_ok|lia].
  - apply schedule_completed_spec. intros sc ranks r it Hsc Hin Hit. cbn [Nat.add] in Hit.
    destruct (bi_isScheduled it) eqn:Hsch; [done|]. exfalso.
    pose proof (He (Z.of_nat sc) r) as Hcr. rewrite Forall_forall in Hcr. pose proof (Hcr it Hit) as (i & j & Hi & Hlen & Hj & Hown).
    apply Nat2Z.inj in Hi as <-. pose proof (Hno (Z.of_nat sc) r) as Hnr. rewrite Forall_forall in Hnr. rewrite (Hnr it Hit) in Hown.
    destruct Hown as (_ & _ & _ & _ & (zc & Hd & Hz & Hne) & _).
    apply (room m sc r zc it Hm He Hno Hit Hsch Hd).
    assert (Htask : Forall (stuck L m zc) (getBufferInfoList m (Z.of_nat sc) r)).
    { apply Hst. split_and!; [done|done|done|]. by exists ranks. }
    rewrite Forall_forall in Htask. by apply Htask.
Qed.
End Steps.

(** ** Forgetting the receives *)

Lemma if_decide_ext {A : Type} (P Q : Prop) `{!Decision P, !Decision Q} (x y : A) :
  (P <-> Q) -> (if bool_decide P then x else y) = (if bool_decide Q then x else y).
Proof. intros H. by rewrite (bool_decide_ext P Q H). Qed.

Lemma drop_rank_get keep i m rank c r :
  getBufferInfoList (drop_rank keep i m rank) c r
  = if bool_decide ((c, r) = (Z.of_nat i, rank)) then filter (fun x => keep x = true) (getBufferInfoList m c r)
    else getBufferInfoList m c r.
Proof.
  unfold drop_rank. rewrite getBufferInfoList_set. destruct (bool_decide_reflect ((c, r) = (Z.of_nat i, rank))) as [[= -> ->]|]; done.
Qed.

Lemma filter_twice {A : Type} (P : A -> Prop) `{!forall x, Decision (P x)} (l : list A) : filter P (filter P l) = filter P l.
Proof. rewrite list_filter_filter. apply list_filter_iff. tauto. Qed.

Lemma drop_ranks_get keep i m ranks c r :
  getBufferInfoList (foldl (drop_rank keep i) m ranks) c r
  = if bool_decide (c = Z.of_nat i /\ r ∈ ranks) then filter (fun x => keep x = true) (getBufferInfoList m c r)
    else getBufferInfoList m c r.
Proof.
  revert m. induction ranks as [|rank ranks IH]; intros m; cbn [foldl].
  - rewrite bool_decide_eq_false_2; [done|]. intros [_ Hin]. by apply elem_of_nil in Hin.
  - rewrite IH, !drop_rank_get. destruct (bool_decide_reflect ((c, r) = (Z.of_nat i, rank))) as [[= -> ->]|Hne].
    + rewrite (bool_decide_eq_true_2 (_ /\ rank ∈ rank :: ranks)) by set_solver.
      destruct (bool_decide _); [apply filter_twice|done].
    + rewrite (bool_decide_ext (c = Z.of_nat i /\ r ∈ rank :: ranks) (c = Z.of_nat i /\ r ∈ ranks)); [done|].
      rewrite elem_of_cons. naive_solver.
Qed.

Lemma drop_entries_get keep a lists m c r :
  getBufferInfoList (drop_entries keep a lists m) c r
  = if bool_decide (Z.of_nat a <= c /\ r ∈ default [] (lists !! Z.to_nat (c - Z.of_nat a)))
    then filter (fun x => keep x = true) (getBufferInfoList m c r) else getBufferInfoList m c r.
Proof.
  revert a m. induction lists as [|ranks lists IH]; intros a m; cbn [drop_entries].
  - rewrite bool_decide_eq_false_2; [done|]. rewrite lookup_nil. intros [_ Hin]. by apply elem_of_nil in Hin.
  - rewrite IH, drop_ranks_get. destruct (decide (c = Z.of_nat a)) as [->|Hne].
    + rewrite (bool_decide_eq_false_2 (Z.of_nat (S a) <= Z.of_nat a /\ _)) by lia.
      rewrite Z.sub_diag. apply if_decide_ext. change ((ranks :: lists) !! Z.to_nat 0) with (Some ranks). split; [intros [_ ?]|intros [_ ?]]; split; (done || lia).
    + rewrite (bool_decide_eq_false_2 (c = Z.of_nat a /\ _)) by tauto. apply if_decide_ext.
      destruct (Z.leb_spec (Z.of_nat (S a)) c).
      * replace (Z.to_nat (c - Z.of_nat a)) with (S (Z.to_nat (c - Z.of_nat (S a)))) by lia. cbn [lookup list_lookup].
        split; intros [_ ?]; split; (done || lia).
      * split; intros [? _]; lia.
Qed.

(** [refresh(0)] keeps exactly the sends. *)
Definition sends_only (l : list flagcxBufferInfo) : list flagcxBufferInfo := filter (fun x => negb (bi_isRecv x) = true) l.

Lemma refresh0_spec env m :
  entries_ok m -> exists m', refresh p env 0 m = Some m' /\
    forall c r, getBufferInfoList m' c r = sends_only (getBufferInfoList m c r).
Proof.
  intros He. eexists. split; [reflexivity|]. intros c r. rewrite drop_entries_get. fold L.
  destruct (bool_decide_reflect (Z.of_nat 0 <= c /\ r ∈ default [] (L !! Z.to_nat (c - Z.of_nat 0)))) as [_|Hn]; [done|].
  pose proof (He c r) as Hcr. destruct (getBufferInfoList m c r) as [|it l] eqn:Hl; [done|]. exfalso.
  inversion Hcr as [|? ? (i & j & -> & Hi & Hj & _) _]; subst. apply Hn. split; [lia|].
  replace (Z.to_nat (Z.of_nat i - Z.of_nat 0)) with i by lia. fold (cluster_ranks p i). by eapply list_elem_of_lookup_2.
Qed.

Lemma open_count_sends l : open_count (sends_only l) = open_count l.
Proof.
  induction l as [|it l IH]; [done|]. unfold sends_only in *. destruct (bi_isRecv it) eqn:Hr.
  - rewrite filter_cons_False by (by rewrite Hr). rewrite open_count_cons. unfold open_count1. rewrite Hr, andb_false_r. apply IH.
  - rewrite filter_cons_True by (by rewrite Hr). by rewrite !open_count_cons, IH.
Qed.

Lemma sends_for_sends z l : sends_for z (sends_only l) = sends_for z l.
Proof.
  unfold sends_for, sends_only. rewrite list_filter_filter. apply list_filter_iff. intros it. unfold to_cluster.
  destruct (bi_isRecv it); cbn; naive_solver.
Qed.

Lemma keys_sent_sends z rank l : keys_of (is_sent z rank) (sends_only l) = keys_of (is_sent z rank) l.
Proof. by rewrite keys_of_sends_for, sends_for_sends, <-keys_of_sends_for. Qed.

Lemma keys_got_sends q l : keys_of (is_got q) (sends_only l) = [].
Proof.
  unfold keys_of, sends_only. rewrite list_filter_filter.
  induction l as [|it l IH]; [done|]. rewrite filter_cons_False; [done|]. unfold is_got. destruct (bi_isRecv it); naive_solver.
Qed.

Lemma coverage_sends z x l : coverage z x (sends_only l) = coverage z x l.
Proof.
  unfold coverage, sends_only. rewrite list_filter_filter. f_equal. apply list_filter_iff. intros it. unfold covers.
  destruct (bi_isRecv it); cbn; naive_solver.
Qed.

Lemma sends_only_forall (P : flagcxBufferInfo -> Prop) l : Forall P l -> Forall P (sends_only l).
Proof. rewrite !Forall_forall. intros H it [_ Hin]%list_elem_of_filter. by apply H. Qed.

Lemma sends_only_facts m m' :
  (forall c r, getBufferInfoList m' c r = sends_only (getBufferInfoList m c r)) ->
  infos_ok m -> entries_ok m ->
  infos_ok m' /\ entries_ok m' /\ no_receives m' /\ open_total m' = open_total m.
Proof.
  intros Hg Hm He. split_and!.
  - intros c r. rewrite Hg. apply sends_only_forall, Hm.
  - intros c r. rewrite Hg. apply sends_only_forall, He.
  - intros c r. rewrite Hg. apply Forall_forall. intros it [Hn _]%list_elem_of_filter. by apply negb_true_iff.
  - unfold open_total. f_equal. apply list_fmap_ext. intros i k _. by rewrite Hg, open_count_sends.
Qed.

(** ** What the placed entries say *)

(** A scheduled entry was marked from the start, or placed in a round before
    [K] with a rank of the cluster it is for; receives are of the last round. *)
Definition placed (K : Z) (it : flagcxBufferInfo) : Prop :=
  bi_isScheduled it = true ->
  bi_isRecv it = false /\ bi_peerRank it = -1 \/
  0 <= bi_loopId it < K /\
  (if bi_isRecv it then bi_loopId it = K - 1 else exists zc, bi_clusterIdToSend it = Z.of_nat zc /\ rank_in L zc (bi_peerRank it)).
Definition all_placed (K : Z) (m : mgr) : Prop := forall c r, Forall (placed K) (getBufferInfoList m c r).

Lemma step_all_placed loop m m' : 0 <= loop -> all_placed (loop + 1) m -> sched_step L loop m m' -> all_placed (loop + 1) m'.
Proof.
  intros Hloop Hm Hs. unfold all_placed in *.
  destruct Hs as (sc & sr & zc & [rank it l1 l2 _ Hzc Hne Hl Hp _|rank it l1 l2 o n o' _ Hzc Hne Hl Hp _ _]);
    apply pending_spec in Hp as (_ & _ & Hd);
    apply (place_forall (fun _ _ => Forall (placed (loop + 1)))); try done;
    try (apply Forall_app; split; [apply Hm|]; constructor; [|done]; intros _; right; cbn; lia);
    specialize (Hm (Z.of_nat sc) sr); rewrite Hl, Forall_app, Forall_cons in Hm; destruct Hm as (Ha & _ & Hb);
    rewrite ?Forall_app, ?Forall_cons; split_and!; try done;
    intros Hx; try discriminate Hx; right; cbn; (split; [lia|]); by exists zc.
Qed.

Lemma placed_weaken K it : bi_isRecv it = false -> placed K it -> placed (K + 1) it.
Proof. intros Hr Hp Hs. destruct (Hp Hs) as [?|[Hl Hk]]; [by left|right]. rewrite Hr in *. split; [lia|done]. Qed.

(** The keys of one round. *)
Definition round_keys (loop : Z) (l : list (Z * Z * Z)) : list (Z * Z * Z) := filter (fun k => k.2 = loop) l.

Lemma round_keys_app loop l1 l2 : round_keys loop (l1 ++ l2) = round_keys loop l1 ++ round_keys loop l2.
Proof. apply filter_app. Qed.

Lemma keys_of_loop K f l :
  (forall it, f it = true -> bi_isScheduled it = true /\ bi_peerRank it <> -1) -> Forall (placed K) l ->
  Forall (fun k => 0 <= k.2 < K) (keys_of f l).
Proof.
  intros Hf. induction 1 as [|it l Hit _ IH]; [constructor|]. rewrite keys_of_cons. apply Forall_app. split; [|done].
  destruct (f it) eqn:Hfi; [|constructor]. constructor; [|done]. destruct (Hf it Hfi) as [Hs Hp].
  destruct (Hit Hs) as [[_ Hx]|[Hl _]]; [done|]. exact Hl.
Qed.

Lemma got_keys_loop K q l : Forall (placed K) l -> (forall it, it ∈ l -> bi_isRecv it = true -> bi_isScheduled it = true) ->
  Forall (fun k => k.2 = K - 1) (keys_of (is_got q) l).
Proof.
  induction 1 as [|it l Hit _ IH]; intros Hsch; [constructor|]. rewrite keys_of_cons. apply Forall_app. split; [|apply IH; set_solver].
  destruct (is_got q it) eqn:Hg; [|constructor]. constructor; [|done]. unfold is_got in Hg. apply andb_true_iff in Hg as [Hr _].
  destruct (Hit (Hsch it ltac:(set_solver) Hr)) as [[Hx _]|[_ Hk]]; [congruence|]. by rewrite Hr in Hk.
Qed.

Lemma round_keys_all loop l : Forall (fun k => k.2 = loop) l -> round_keys loop l = l.
Proof. apply filter_all. Qed.
Lemma round_keys_none loop l : Forall (fun k => k.2 <> loop) l -> round_keys loop l = [].
Proof. apply filter_none. Qed.

(** What holds at the start of round [loop]. *)
Record round_start (loop : Z) (m : mgr) : Prop := {
  rs_infos : infos_ok m;
  rs_entries : entries_ok m;
  rs_sends : no_receives m;
  rs_ordered : ordered m;
  rs_placed : all_placed loop m
}.

(** What holds after the search of round [loop]: the sends of the round from
    one rank to another are, in order, the receives of the other. *)
Record round_end (loop : Z) (m m1 : mgr) : Prop := {
  re_infos : infos_ok m1;
  re_entries : entries_ok m1;
  re_ordered : ordered m1;
  re_placed : all_placed (loop + 1) m1;
  re_matched : forall a b r1 r2, rank_in L a r1 -> rank_in L b r2 -> a <> b ->
    keys_of (is_sent (Z.of_nat b) r2) (getBufferInfoList m1 (Z.of_nat a) r1)
    = keys_of (is_sent (Z.of_nat b) r2) (getBufferInfoList m (Z.of_nat a) r1) ++
      keys_of (is_got r1) (getBufferInfoList m1 (Z.of_nat b) r2);
  re_coverage : forall z x c r, coverage z x (getBufferInfoList m1 c r) = coverage z x (getBufferInfoList m c r)
}.

Section RoundSteps.
Hypothesis (Hok : layout_ok p) (Hrecv : receivers_ok) (Hd : ranks_distinct L).

Lemma no_receives_got m q c r : no_receives m -> keys_of (is_got q) (getBufferInfoList m c r) = [].
Proof.
  intros Hm. specialize (Hm c r). unfold keys_of. induction Hm as [|it l Hit _ IH]; [done|].
  rewrite filter_cons_False; [done|]. unfold is_got. by rewrite Hit.
Qed.

(** The invariants of a round, along its steps. *)
Lemma round_invariant loop m m1 : 0 <= loop -> round_start loop m -> reach (sched_step L loop) m m1 -> round_end loop m m1.
Proof.
  intros Hloop Hs Hr.
  set (B := fun (sc : nat) sr (zc : nat) rank => keys_of (is_sent (Z.of_nat zc) rank) (getBufferInfoList m (Z.of_nat sc) sr)).
  set (I m' := infos_ok m' /\ entries_ok m' /\ ordered m' /\ all_placed (loop + 1) m' /\ paired L eq B m' /\
    (forall z x c r, coverage z x (getBufferInfoList m' c r) = coverage z x (getBufferInfoList m c r))).
  assert (HI : I m1).
  { apply (reach_invariant (sched_step L loop) I) with m; [|done|].
    - intros m2 m3 (H1 & H2 & H3 & H4 & H5 & H6) Hstep.
      split_and!; [by eapply step_infos_ok|by eapply step_entries_ok|by eapply step_ordered|by eapply step_all_placed| |].
      + eapply step_paired_ordered; [done|exact H3|exact H5|exact Hstep].
      + intros z x c r. rewrite (step_coverage L loop m2 m3 z x c r Hstep). apply H6.
    - destruct Hs as [H1 H2 H3 H4 H5]. split_and!; [done..| | |done].
      + intros c r. pose proof (H5 c r) as H5'. pose proof (H3 c r) as H3'. rewrite Forall_forall in *.
        intros it Hin. by apply placed_weaken; [apply H3'|apply H5'].
      + intros sc sr zc rank _ _ _. rewrite no_receives_got by done. by rewrite app_nil_r. }
  destruct HI as (H1 & H2 & H3 & H4 & H5 & H6). split; try done.
  intros a b r1 r2 Ha Hb Hne. apply (H5 a r1 b r2 Ha Hb Hne).
Qed.

(** Forgetting the receives starts the next round. *)
Lemma next_round env loop m m1 : round_end loop m m1 ->
  exists m2, refresh p env 0 m1 = Some m2 /\ round_start (loop + 1) m2 /\ open_total m2 = open_total m1 /\
    forall c r, getBufferInfoList m2 c r = sends_only (getBufferInfoList m1 c r).
Proof.
  intros [H1 H2 H3 H4 H5 H6]. destruct (refresh0_spec env m1 H2) as (m2 & He & Hg).
  destruct (sends_only_facts m1 m2 Hg H1 H2) as (G1 & G2 & G3 & G4).
  exists m2. split_and!; [done| |done|done]. split; try done.
  - intros c r z. rewrite Hg, sends_for_sends. apply H3.
  - intros c r. rewrite Hg. apply sends_only_forall, H4.
Qed.

(** ** All the rounds *)

(** The managers after the searches, and the last one. *)
Fixpoint managers (fuel : nat) (env : option string) (loop : Z) (m : mgr) : option (list mgr * mgr) :=
  match fuel with
  | O => None
  | S fuel' =>
      m1 ← searchHeteroSendRecvOps p 1 loop m;
      if schedule_completed m1 0 L then Some ([m1], m1) else
      m2 ← refresh p env 0 m1;
      '(ms, m') ← managers fuel' env (loop + 1) m2;
      Some (m1 :: ms, m')
  end.

Definition sent_keys (m : mgr) (a : nat) (r1 : Z) (b : nat) (r2 : Z) : list (Z * Z * Z) :=
  keys_of (is_sent (Z.of_nat b) r2) (getBufferInfoList m (Z.of_nat a) r1).
Definition got_keys (m : mgr) (a : nat) (r1 : Z) (b : nat) (r2 : Z) : list (Z * Z * Z) :=
  keys_of (is_got r1) (getBufferInfoList m (Z.of_nat b) r2).

(** Round [loop + k] sends what it receives, and later rounds leave it. *)
Record rounds_ok (loop : Z) (m : mgr) (ms : list mgr) (m' : mgr) : Prop := {
  ro_scheduled : forall c r, Forall (fun it => bi_isScheduled it = true) (getBufferInfoList m' c r);
  ro_infos : infos_ok m';
  ro_entries : entries_ok m';
  ro_placed : all_placed (loop + Z.of_nat (length ms)) m';
  ro_coverage : forall z x c r, coverage z x (getBufferInfoList m' c r) = coverage z x (getBufferInfoList m c r);
  ro_later : forall a b r1 r2, rank_in L a r1 -> rank_in L b r2 -> a <> b ->
    exists extra, sent_keys m' a r1 b r2 = sent_keys m a r1 b r2 ++ extra /\ Forall (fun k => loop <= k.2) extra;
  ro_round : forall k mk a b r1 r2, ms !! k = Some mk -> rank_in L a r1 -> rank_in L b r2 -> a <> b ->
    round_keys (loop + Z.of_nat k) (sent_keys m' a r1 b r2) = got_keys mk a r1 b r2 /\
    round_keys (loop + Z.of_nat k) (sent_keys mk a r1 b r2) = got_keys mk a r1 b r2 /\
    round_keys (loop + Z.of_nat k) (got_keys mk a r1 b r2) = got_keys mk a r1 b r2;
  ro_mplaced : forall k mk, ms !! k = Some mk -> all_placed (loop + Z.of_nat k + 1) mk /\ entries_ok mk
}.

Lemma sent_keys_before K m a r1 b r2 :
  0 <= r2 -> all_placed K m -> Forall (fun k => 0 <= k.2 < K) (sent_keys m a r1 b r2).
Proof.
  intros Hr Hm. eapply keys_of_loop; [|apply Hm]. intros it Hs. unfold is_sent in Hs. bool_to_prop. split; [done|]. lia.
Qed.

Lemma end_got_keys loop m1 a r1 b r2 : all_placed (loop + 1) m1 -> entries_ok m1 -> Forall (fun k => k.2 = loop) (got_keys m1 a r1 b r2).
Proof.
  intros Hm He. unfold got_keys. replace loop with (loop + 1 - 1) by lia. apply got_keys_loop; [apply Hm|].
  intros it Hin Hr. specialize (He (Z.of_nat b) r2). rewrite Forall_forall in He. destruct (He it Hin) as (? & ? & _ & _ & _ & Hx).
  by rewrite Hr in Hx.
Qed.

Lemma round_matched loop m m1 a b r1 r2 :
  round_start loop m -> round_end loop m m1 -> rank_in L a r1 -> rank_in L b r2 -> a <> b ->
  sent_keys m1 a r1 b r2 = sent_keys m a r1 b r2 ++ got_keys m1 a r1 b r2 /\
  round_keys loop (sent_keys m1 a r1 b r2) = got_keys m1 a r1 b r2 /\
  round_keys loop (got_keys m1 a r1 b r2) = got_keys m1 a r1 b r2.
Proof.
  intros Hs He Ha Hb Hne. pose proof (re_matched _ _ _ He a b r1 r2 Ha Hb Hne) as Hm.
  fold (sent_keys m1 a r1 b r2) (sent_keys m a r1 b r2) (got_keys m1 a r1 b r2) in Hm.
  pose proof (end_got_keys loop m1 a r1 b r2 (re_placed _ _ _ He) (re_entries _ _ _ He)) as Hg.
  split; [done|]. rewrite Hm, round_keys_app, (round_keys_all loop (got_keys _ _ _ _ _)) by done. split; [|done].
  rewrite round_keys_none; [done|]. eapply Forall_impl; [exact (sent_keys_before loop m a r1 b r2 (rank_valid b r2 Hok Hb) (rs_placed _ _ Hs))|].
  cbn. lia.
Qed.

Lemma rounds_last loop m m1 :
  round_start loop m -> round_end loop m m1 -> schedule_completed m1 0 L = true -> rounds_ok loop m [m1] m1.
Proof.
  intros Hs He Hc. pose proof He as [H1 H2 H3 H4 H5 H6]. split.
  - by apply completed_all.
  - done.
  - done.
  - exact H4.
  - exact H6.
  - intros a b r1 r2 Ha Hb Hne. destruct (round_matched loop m m1 a b r1 r2 Hs He Ha Hb Hne) as (-> & _ & _).
    eexists. split; [done|]. eapply Forall_impl; [by apply (end_got_keys loop m1 a r1 b r2)|]. cbn. lia.
  - intros k mk a b r1 r2 Hk Ha Hb Hne. destruct k as [|k]; [|done]. injection Hk as <-. rewrite Z.add_0_r.
    destruct (round_matched loop m m1 a b r1 r2 Hs He Ha Hb Hne) as (_ & ? & ?). done.
  - intros k mk Hk. destruct k as [|k]; [|done]. injection Hk as <-. by rewrite Z.add_0_r.
Qed.

Lemma rounds_more loop m m1 m2 ms m' :
  round_start loop m -> round_end loop m m1 -> (forall c r, getBufferInfoList m2 c r = sends_only (getBufferInfoList m1 c r)) ->
  rounds_ok (loop + 1) m2 ms m' -> rounds_ok loop m (m1 :: ms) m'.
Proof.
  intros Hs He Hg [R1 R2 R3 R4 R5 R6 R7 R8]. pose proof He as [H1 H2 H3 H4 H5 H6].
  assert (Hsent : forall a b r1 r2, sent_keys m2 a r1 b r2 = sent_keys m1 a r1 b r2).
  { intros. unfold sent_keys. by rewrite Hg, keys_sent_sends. }
  split.
  - done.
  - done.
  - done.
  - cbn [length]. by replace (loop + Z.of_nat (S (length ms))) with (loop + 1 + Z.of_nat (length ms)) by lia.
  - intros z x c r. by rewrite R5, Hg, coverage_sends, H6.
  - intros a b r1 r2 Ha Hb Hne. destruct (R6 a b r1 r2 Ha Hb Hne) as (extra & He2 & Hx).
    destruct (round_matched loop m m1 a b r1 r2 Hs He Ha Hb Hne) as (Hm & _ & _).
    exists (got_keys m1 a r1 b r2 ++ extra). rewrite He2, Hsent, Hm, app_assoc. split; [done|]. apply Forall_app. split.
    + eapply Forall_impl; [by apply (end_got_keys loop m1 a r1 b r2)|]. cbn. lia.
    + eapply Forall_impl; [exact Hx|]. cbn. lia.
  - intros [|k] mk a b r1 r2 Hk Ha Hb Hne.
    + injection Hk as <-. rewrite Z.add_0_r. destruct (round_matched loop m m1 a b r1 r2 Hs He Ha Hb Hne) as (_ & Hr1 & Hr2).
      split; [|done]. destruct (R6 a b r1 r2 Ha Hb Hne) as (extra & -> & Hx).
      rewrite round_keys_app, Hsent, Hr1, round_keys_none; [by rewrite app_nil_r|].
      eapply Forall_impl; [exact Hx|]. cbn. lia.
    + replace (loop + Z.of_nat (S k)) with (loop + 1 + Z.of_nat k) by lia. by apply R7.
  - intros [|k] mk Hk; [injection Hk as <-; by rewrite Z.add_0_r|].
    replace (loop + Z.of_nat (S k)) with (loop + 1 + Z.of_nat k) by lia. by apply R8.
Qed.

Lemma managers_spec fuel env loop m :
  0 <= loop -> round_start loop m -> (open_total m < fuel)%nat ->
  exists ms m', managers fuel env loop m = Some (ms, m') /\ rounds_ok loop m ms m' /\ (length ms <= fuel)%nat.
Proof.
  revert loop m. induction fuel as [|fuel IH]; intros loop m Hloop Hs Hf; [lia|]. cbn [managers].
  destruct (search_round Hok Hrecv loop m (rs_infos _ _ Hs) (rs_entries _ _ Hs) (rs_sends _ _ Hs)) as (m1 & -> & Hr & Hprog).
  cbn [mbind option_bind]. pose proof (round_invariant loop m m1 Hloop Hs Hr) as He.
  destruct (schedule_completed m1 0 L) eqn:Hc.
  - exists [m1], m1. split; [done|]. split; [by apply rounds_last|cbn; lia].
  - destruct Hprog as [?|Hlt]; [done|]. destruct (next_round env loop m m1 He) as (m2 & -> & Hs2 & Ho & Hg).
    cbn [mbind option_bind]. destruct (IH (loop + 1) m2) as (ms & m' & -> & Hro & Hlen); [lia|done|lia|].
    cbn [mbind option_bind]. exists (m1 :: ms), m'. split; [done|]. split; [by eapply rounds_more|cbn; lia].
Qed.
End RoundSteps.
End Rounds.
