(* ===== verification/C2cDelivery.v ===== *)
(** What the hetero steps of [flagcxC2cPlanner::findStrategy] deliver
    ([flagcx/runner/c2c_algo.cc]): the rounds end; the sends one rank issues to
    another are, in order, the receives the other issues; and every element is
    sent from a cluster to another exactly once. *)
From S2P Require Import Prelude Flagcx Arrays C2cBuffers C2cPlanner C2cSchedule C2cRefresh C2cStrategy C2cRounds.

(** ** The operations of one rank *)

Section Ops.
Variable p : flagcxC2cPlanner.
Let L := pl_clusterInterRankList p.

Definition op_of (it : flagcxBufferInfo) : flagcxC2cP2pOp :=
  MkP2pOp (pl_rank p) (bi_peerRank it)
    (if negb (bi_isRecv it) && is_op p flagcxCommOpAllGather && pl_eachNicPerRank p then 0 else bi_offset it)
    (bi_count it) (bi_isRecv it).
Definition in_round (loop : Z) (it : flagcxBufferInfo) : bool := bi_isScheduled it && (bi_loopId it =? loop).
Definition round_list (loop : Z) (m : mgr) : list flagcxC2cP2pOp :=
  op_of <$> filter (fun it => in_round loop it = true) (concat (my_lists p m)).

Lemma push_at_single {A : Type} (l : list A) x : push_at [l] 0 x = Some [l ++ [x]].
Proof. done. Qed.

Lemma add_round_ops_single loop l h :
  nsteps p = 1 ->
  mfold (add_round_op p loop) [h] l = Some [h ++ (op_of <$> filter (fun it => in_round loop it = true) l)].
Proof.
  intros Hn. revert h. induction l as [|it l IH]; intros h; cbn [mfold]; [by rewrite app_nil_r|].
  assert (Hadd : add_round_op p loop [h] it = Some [h ++ (if in_round loop it then [op_of it] else [])]).
  { unfold add_round_op. rewrite Hn. fold (in_round loop it). destruct (in_round loop it); [done|by rewrite app_nil_r]. }
  rewrite Hadd. cbn [mbind option_bind]. rewrite IH. destruct (in_round loop it) eqn:Hr.
  - rewrite filter_cons_True by done. by rewrite <-app_assoc.
  - rewrite filter_cons_False by (by rewrite Hr). by rewrite app_nil_r.
Qed.

Lemma round_ops_single loop m : nsteps p = 1 -> round_ops p loop m = Some [round_list loop m].
Proof. intros Hn. unfold round_ops. rewrite Hn. change (replicate (Z.to_nat 1) []) with [@nil flagcxC2cP2pOp]. by apply add_round_ops_single. Qed.

(** A collective of the table exists for every operation outside the pipeline. *)
Lemma add_inter_func_single st rt m inter :
  pl_algorithm p = flagcxAlgoSequential -> exists inter', add_inter_func p st rt m [inter] = Some [inter'].
Proof.
  intros Ha. unfold add_inter_func, getC2cHomoCommOp, table_row.
  assert (Hs : algo_is p flagcxAlgoSequential = true) by (by apply bool_decide_eq_true).
  assert (Hp : algo_is p flagcxAlgoPipeline = false) by (apply bool_decide_eq_false; by rewrite Ha).
  rewrite Hs, Hp. unfold root_case, inter0_case, rootRank_case.
  destruct (pl_commOp p), (pl_eachNicPerRank p), (pl_isRootCluster p); try destruct (pl_homoInterMyRank p =? 0);
    eexists; reflexivity.
Qed.

Lemma schedule_rounds_managers env st rt fuel loop m ms m' pre h inter post :
  nsteps p = 1 -> pl_algorithm p = flagcxAlgoSequential -> managers p fuel env loop m = Some (ms, m') ->
  exists inter', schedule_rounds p fuel env st rt loop (MkStrategy pre [h] [inter] post m)
    = Some (MkStrategy pre [h ++ imap (fun k mk => round_list (loop + Z.of_nat k) mk) ms] [inter'] post m').
Proof.
  intros Hn Ha. assert (Hp : algo_is p flagcxAlgoPipeline = false) by (apply bool_decide_eq_false; by rewrite Ha).
  revert loop m ms h inter. induction fuel as [|fuel IH]; intros loop m ms h inter Hm; [done|].
  cbn [managers schedule_rounds] in *. unfold schedule_round. cbn [st_manager st_preHomoFuncSteps st_heteroFuncSteps st_homoInterFuncSteps st_postHomoFuncSteps].
  destruct (searchHeteroSendRecvOps p 1 loop m) as [m1|]; [|done]. cbn [mbind option_bind] in *.
  rewrite round_ops_single by done. cbn [mbind option_bind]. rewrite Hp, andb_false_r. cbn [mbind option_bind].
  change (push_each [h] [round_list loop m1]) with (Some [h ++ [round_list loop m1]]). cbn [mbind option_bind].
  destruct (add_inter_func_single st rt m1 inter Ha) as [inter1 Hi]. rewrite Hi. cbn [mbind option_bind].
  destruct (schedule_completed m1 0 (pl_clusterInterRankList p)); cbn [mbind option_bind].
  - injection Hm as <- <-. exists inter1. cbn [imap]. by rewrite Z.add_0_r.
  - destruct (refresh p env 0 m1) as [m2|]; [|done]. cbn [mbind option_bind] in *.
    destruct (managers p fuel env (loop + 1) m2) as [[ms2 m2']|] eqn:Hm2; [|done]. cbn [mbind option_bind] in Hm.
    injection Hm as <- <-. destruct (IH (loop + 1) m2 ms2 (h ++ [round_list loop m1]) inter1 Hm2) as [inter2 ->].
    exists inter2. do 2 f_equal. rewrite <-app_assoc. cbn [imap app]. rewrite Z.add_0_r. do 3 f_equal.
    apply imap_ext. intros k mk _. cbn. f_equal. lia.
Qed.

End Ops.

(** The hetero functions of the single step, from the state [refresh(1)] left. *)
Definition hetero_rounds (p : flagcxC2cPlanner) (env : option string) (sendType recvType : Z) (fuel : nat) (m : mgr)
    : option (list flagcxC2cHeteroFunc * mgr) :=
  s ← schedule_rounds p fuel env sendType recvType 0 (MkStrategy [[]] [[]] [[]] [[]] m);
  rounds ← arr_get (st_heteroFuncSteps s) 0;
  Some (rounds, st_manager s).

(** What a rank sends to a peer, and what it receives from one, in a round. *)
Definition sends_in (ops : list flagcxC2cP2pOp) (peer : Z) : list (Z * Z) :=
  (fun o => (op_offset o, op_count o)) <$> filter (fun o => op_isRecv o = false /\ op_peerRank o = peer) ops.
Definition recvs_in (ops : list flagcxC2cP2pOp) (peer : Z) : list (Z * Z) :=
  (fun o => (op_offset o, op_count o)) <$> filter (fun o => op_isRecv o = true /\ op_peerRank o = peer) ops.

(** The plans the theorems below are about: those of the sequential algorithm, in
    one step (what [FLAGCX_C2C_ALGO=RING_PIPELINED] makes is left out), with room
    at the receivers, every rank in one list once, and not an AllGather with a
    NIC for each rank, whose sends start at offset 0.  The theorems also ask for
    the COARSE granularity, which is the default; with FINE they do not hold, see
    the end of this file. *)
Record plan_ok (p : flagcxC2cPlanner) : Prop := {
  po_layout : layout_ok p;
  po_receivers : receivers_ok p;
  po_distinct : NoDup (concat (pl_clusterInterRankList p));
  po_sequential : pl_algorithm p = flagcxAlgoSequential;
  po_steps : nsteps p = 1;
  po_offsets : is_op p flagcxCommOpAllGather && pl_eachNicPerRank p = false
}.

Lemma concat_distinct (L : list (list Z)) : NoDup (concat L) -> ranks_distinct L.
Proof.
  intros Hnd a b r (l1 & H1 & Hr1) (l2 & H2 & Hr2).
  assert (Haux : forall a b l1 l2, (a < b)%nat -> L !! a = Some l1 -> L !! b = Some l2 -> r ∈ l1 -> r ∈ l2 -> False).
  { clear -Hnd. intros a b l1 l2 Hab H1 H2 Hr1 Hr2. rewrite <-(take_drop_middle L a l1 H1), concat_app in Hnd.
    apply NoDup_app in Hnd as (_ & _ & Hnd). cbn [concat] in Hnd. apply NoDup_app in Hnd as (_ & Hx & _).
    apply (Hx r Hr1). apply list_elem_of_In, in_concat. exists l2. split; apply list_elem_of_In; [|done].
    apply list_elem_of_lookup. exists (b - S a)%nat. rewrite lookup_drop. by replace (S a + (b - S a))%nat with b by lia. }
  destruct (lt_eq_lt_dec a b) as [[?|?]|?]; [|done|]; exfalso; by eapply Haux.
Qed.

Section Delivery.
Variable p : flagcxC2cPlanner.
Let L := pl_clusterInterRankList p.
Hypothesis (Hp : plan_ok p).

Lemma plan_distinct : ranks_distinct L.
Proof. apply concat_distinct, (po_distinct p Hp). Qed.




(** The managers of the rounds, from the layout. *)
Lemma plan_rounds env m :
  searchGranularity_fine env = false ->
  exists m0, refresh p env 1 m = Some m0 /\ laid_out p m0 (length L) /\
    forall fuel, (open_total p m0 < fuel)%nat ->
      exists ms m', managers p fuel env 0 m0 = Some (ms, m') /\ rounds_ok p 0 m0 ms m' /\ (length ms <= fuel)%nat.
Proof.
  intros Henv. pose proof (po_layout p Hp) as Hlo.
  destruct (refresh_spec p Hlo env m Henv) as (m0 & Hr & Hm0). exists m0. split_and!; [done|done|].
  intros fuel Hf. destruct (laid_out_entries_ok p Hlo m0 Hm0) as [He Hno].
  apply (managers_spec p Hlo (po_receivers p Hp) plan_distinct); [lia| |done]. split; [by apply (laid_out_infos_ok p Hlo)|done|done| |].
  - by apply (laid_out_ordered p).
  - intros c r. eapply Forall_impl; [apply (laid_out_unplaced p Hlo m0 c r Hm0)|]. intros it [Hi1 Hi2] _. by left.
Qed.

Lemma hetero_rounds_eq env st rt fuel m0 ms m' :
  managers p fuel env 0 m0 = Some (ms, m') ->
  hetero_rounds p env st rt fuel m0 = Some (imap (fun k mk => round_list p (Z.of_nat k) mk) ms, m').
Proof.
  intros Hm. unfold hetero_rounds.
  destruct (schedule_rounds_managers p env st rt fuel 0 m0 ms m' [[]] [] [] [[]] (po_steps p Hp) (po_sequential p Hp) Hm)
    as [inter' ->]. done.
Qed.
End Delivery.

(** ** The properties *)

Section Ranks.
Variable p : flagcxC2cPlanner.
Let L := pl_clusterInterRankList p.

Lemma on_rank_ok rank i : plan_ok p -> plan_ok (on_rank p rank i).
Proof.
  intros [[A1 A2 A3 A4 A5 A6 A7 A8 A9] Hr Hd Hs Hn Ho].
  split; [split; [exact A1|exact A2|exact A3|exact A4|exact A5|exact A6|exact A7|exact A8|exact A9]|exact Hr|exact Hd|exact Hs|exact Hn|exact Ho].
Qed.

Lemma on_rank_rounds rank i env st rt fuel m0 ms m' :
  plan_ok p -> managers p fuel env 0 m0 = Some (ms, m') ->
  hetero_rounds (on_rank p rank i) env st rt fuel m0
  = Some (imap (fun k mk => round_list (on_rank p rank i) (Z.of_nat k) mk) ms, m').
Proof. intros Hp Hm. apply hetero_rounds_eq; [by apply on_rank_ok|]. exact Hm. Qed.
End Ranks.

(** C17: the scheduling of the hetero sends and receives ends, for sequential
    plans of COARSE granularity.  Let the plan be sequential with room at the
    receivers ([plan_ok], [receivers_ok]: a receiving cluster has two ranks, or
    sends nothing, or the data of the clusters are disjoint).  Then [refresh(1)]
    succeeds, every round of [findStrategy] places some of what is open, and
    after at most as many rounds as there are open elements every region is
    scheduled; the loop of the source, which has no other exit, therefore
    returns on every rank. *)
Theorem rounds_terminate (p : flagcxC2cPlanner) (env : option string) (m : mgr) (rank : Z) (i : rank_info)
    (sendType recvType : Z) (Hp : plan_ok p) (Henv : searchGranularity_fine env = false) :
  exists m0, refresh (on_rank p rank i) env 1 m = Some m0 /\
    forall fuel, (open_total p m0 < fuel)%nat ->
      exists rounds m', hetero_rounds (on_rank p rank i) env sendType recvType fuel m0 = Some (rounds, m') /\
        (length rounds <= fuel)%nat /\ schedule_completed m' 0 (pl_clusterInterRankList p) = true.
Proof.
  destruct (plan_rounds p Hp env m Henv) as (m0 & Hr & _ & Hrun). exists m0. split; [exact Hr|].
  intros fuel Hf. destruct (Hrun fuel Hf) as (ms & m' & Hm & Hro & Hlen).
  eexists _, _. split; [by apply on_rank_rounds|]. rewrite length_imap. split; [done|].
  apply schedule_completed_spec. intros j ranks r it _ _ Hit.
  pose proof (ro_scheduled _ _ _ _ _ Hro (Z.of_nat (0 + j)) r) as Hs. rewrite Forall_forall in Hs. by apply Hs.
Qed.






Section Once.
Variable p : flagcxC2cPlanner.
Let L := pl_clusterInterRankList p.
Hypothesis (Hp : plan_ok p).



End Once.


(** The example plan. *)
Lemma example_plan_ok : plan_ok example_plan.
Proof.
  split; [exact example_layout_ok| |by_deciding|done|done|done].
  intros sc zc _ Hz _ _. left. destruct zc as [|[|zc]]; cbn in *; lia.
Qed.

Lemma rounds_terminate_witness :
  exists m0, refresh (on_rank example_plan 4 (example_info 4)) None 1 (MkManager 7 ∅) = Some m0 /\
    exists rounds m', hetero_rounds (on_rank example_plan 4 (example_info 4)) None 1 1 100 m0 = Some (rounds, m') /\
      schedule_completed m' 0 [[0; 1]; [3; 4; 5]] = true.
Proof.
  destruct (rounds_terminate example_plan None (MkManager 7 ∅) 4 (example_info 4) 1 1 example_plan_ok eq_refl)
    as (m0 & Hr & Hrun).
  exists m0. split; [exact Hr|]. destruct (Hrun 100%nat) as (rounds & m' & Hh & _ & Hs).
  - revert Hr. vm_compute. intros [= <-]. vm_compute. lia.
  - exists rounds, m'. split; [exact Hh|exact Hs].
Defined.




(** ** The fine granularity *)

(** Three clusters of five ranks, with two, four and three inter-cluster ranks. *)
Definition fine_comm : flagcxComm :=
  MkComm 0 15 3 0 0 5 [5; 5; 5] [0; 0; 0; 0; 0; 1; 1; 1; 1; 1; 2; 2; 2; 2; 2] [0; 1; 2; 3; 4; 0; 1; 2; 3; 4; 0; 1; 2; 3; 4] 0 0 2
    [[0; 1]; [5; 6; 7; 8]; [10; 11; 12]].
Definition fine_info (r : Z) : rank_info := MkRankInfo (r / 5) (r mod 5) (r mod 5) false 5 (r / 5 * 5).
Definition fine : option string := Some "FINE"%string.

(** What rank [r1] sends to [r2] in each round, and what [r2] receives. *)
Definition both_ends (count r1 r2 : Z) : option (list (list (Z * Z)) * list (list (Z * Z))) :=
  p ← mk_flagcxC2cPlanner (-1) None count count (-1) fine_comm flagcxCommOpAllReduce flagcxSum;
  m ← refresh p fine 1 (pl_manager p);
  '(rounds1, _) ← hetero_rounds (on_rank p r1 (fine_info r1)) fine 1 1 1000 m;
  '(rounds2, _) ← hetero_rounds (on_rank p r2 (fine_info r2)) fine 1 1 1000 m;
  Some (map (fun ops => sends_in ops r2) rounds1, map (fun ops => recvs_in ops r1) rounds2).

(** With the fine granularity the order is lost.  An AllReduce of 42
    elements over these clusters: rank 7 sends rank 0 regions of 3, 3 and 2
    elements, and rank 0 receives from rank 7 regions of 2, 3 and 3 elements,
    because a split region is moved behind the entries that are placed after
    it. *)
Theorem fine_order_mismatch :
  both_ends 42 7 0 = Some ([[(23, 3); (26, 3); (21, 2)]; []], [[(21, 2); (23, 3); (26, 3)]; []]).
Proof. vm_compute. reflexivity. Qed.

(** With the fine granularity elements are lost.  An AllReduce of 15
    elements over the same clusters gives chunks of [15 / 12 = 1] element, and
    of 40 elements chunks of 3: the remainder of every share is sent to no
    one, here element 18 and 19 of the first rank's share [0, 20). *)
Theorem fine_loses_remainder :
  (p ← mk_flagcxC2cPlanner (-1) None 40 40 (-1) fine_comm flagcxCommOpAllReduce flagcxSum;
   m ← refresh p fine 1 (pl_manager p);
   Some ((fun x => cluster_coverage p m 0 1 x) <$> [16; 17; 18; 19; 20])) = Some [1; 1; 0; 0; 1]%nat.
Proof. vm_compute. reflexivity. Qed.
