(* ===== verification/C2cFind.v ===== *)
(** The whole of [flagcxC2cPlanner::findStrategy]
    ([flagcx/runner/c2c_algo.cc]): the steps before, between and after the
    clusters' exchange, for every operation, with several NICs or one. *)
From S2P Require Import Prelude Flagcx Arrays C2cBuffers C2cPlanner C2cStrategy.

(** The arrays of [AlltoAllv]. *)
Record v_counts := MkVCounts { vc_sendCounts : list Z; vc_sDispls : list Z; vc_recvCounts : list Z; vc_rDispls : list Z }.

(** [flagcxCCLAdaptorNeedSendrecv]. *)
Definition flagcxCCLAdaptorNeedSendrecv (value : Z) : bool := negb (value =? 0).

(** The planner with the NIC modes that depend on the operation. *)
Definition reset_nics (p : flagcxC2cPlanner) : flagcxC2cPlanner :=
  let opis o := op_is (pl_commOp p) o in
  let multiNic := opis flagcxCommOpBroadcast || opis flagcxCommOpAlltoAll || opis flagcxCommOpAlltoAllv ||
                  opis flagcxCommOpScatter || opis flagcxCommOpGather || pl_multiNic p in
  let each := opis flagcxCommOpAlltoAll || opis flagcxCommOpAlltoAllv || pl_eachNicPerRank p in
  MkPlanner (pl_nSeqPreSteps p) (pl_nPipePreSteps p) (pl_nSeqInterSteps p) (pl_nPipePostSteps p) (pl_nSeqPostSteps p)
    (pl_nchunks p) (pl_sendCount p) (pl_recvCount p) (pl_rootRank p) (pl_comm p) (pl_commOp p) (pl_redOp p)
    (pl_clusterInterRankList p) (pl_clusterId p) (pl_rank p) (pl_homoInterMyRank p) (pl_totalCount p)
    (pl_rootClusterId p) (pl_isRootCluster p) (pl_clusterCount p) (pl_clusterOffset p) multiNic each (pl_algorithm p)
    (pl_manager p).

(** [nchunks_] of the pipelined algorithm. *)
Definition chunk_step (comm : flagcxComm) (nchunks : Z) (i : nat) : option Z :=
  size ← arr_get (cc_clusterSizes comm) (Z.of_nat i);
  ranks ← cc_clusterInterRankList comm !! i;
  k ← lcm size (Z.of_nat (length ranks));
  lcm nchunks k.
Definition find_nchunks (p : flagcxC2cPlanner) : option Z :=
  if algo_is p flagcxAlgoPipeline
  then mfold (chunk_step (pl_comm p)) (cc_nranks (pl_comm p)) (seq 0 (Z.to_nat (cc_nclusters (pl_comm p))))
  else Some (pl_nchunks p).

Section Find.
Variable p : flagcxC2cPlanner.
Abbreviation mgr := flagcxInterRankBufferInfoManager (only parsing).
Let comm := pl_comm p.
Let L := pl_clusterInterRankList p.
Let opis (o : flagcxCommOp_t) : bool := is_op p o.
Let pipe : bool := algo_is p flagcxAlgoPipeline.
Let homoMyRank : Z := cc_homoRank comm.
Let nclusters : Z := cc_nclusters comm.

(** [totalCount_ / comm_->nranks]. *)
Definition per_rank (x : Z) : option Z := if cc_nranks comm =? 0 then None else Some (x / cc_nranks comm).

(** ** The refresh function *)

Fixpoint refresh_scan (l : list flagcxBufferInfo) (offset count total : Z) (first : bool) : option (Z * Z * Z) :=
  match l with
  | [] => Some (offset, count, total)
  | it :: l' =>
      if (opis flagcxCommOpReduceScatter || opis flagcxCommOpAllReduce) && negb (bi_isScheduled it) && pipe
      then refresh_scan l' offset count total first
      else if pipe then
        size ← arr_get (cc_clusterSizes comm) (pl_clusterId p);
        start ← per_rank (pl_clusterOffset p *u64 pl_totalCount p);
        share ← per_rank (size *u64 pl_totalCount p);
        Some (if opis flagcxCommOpReduceScatter
              then (bi_offset it -u64 (pl_clusterOffset p *u64 pl_recvCount p), bi_count it, size *u64 pl_recvCount p)
              else if opis flagcxCommOpAllReduce then (bi_offset it -u64 start, bi_count it, share)
              else (bi_offset it, bi_count it, pl_totalCount p))
      else refresh_scan l' (if first then bi_offset it else offset) (count +u64 bi_count it)
             (if first then pl_totalCount p else total) false
  end.

Definition find_refreshFunc (m : mgr) : option flagcxC2cRefreshFunc :=
  let bufftype := if opis flagcxCommOpReduceScatter || opis flagcxCommOpScatter ||
                     (opis flagcxCommOpGather && negb (pl_rank p =? pl_rootRank p)) then 2 else 1 in
  start ← per_rank (pl_clusterOffset p *u64 pl_totalCount p);
  let startoffset := if (opis flagcxCommOpReduceScatter || opis flagcxCommOpAllReduce) && pipe
                     then as_int start mod U64_MOD else 0 in
  match getBufferInfoList m (pl_clusterId p) (pl_rank p) with
  | [] => Some (MkRefreshFunc (-1) 0 0 0 (pl_totalCount p) (pl_redOp p))
  | l =>
      '(offset, count, total) ← refresh_scan l 0 0 0 true;
      Some (MkRefreshFunc bufftype startoffset offset count total (pl_redOp p))
  end.

(** ** Buffers *)

Definition recv_type : Z :=
  if opis flagcxCommOpReduceScatter || (opis flagcxCommOpScatter && (negb (pl_eachNicPerRank p) || pl_isRootCluster p)) ||
     (opis flagcxCommOpGather && negb (pl_rank p =? pl_rootRank p)) then 2 else 1.
Definition send_type : Z :=
  if opis flagcxCommOpAlltoAll || opis flagcxCommOpAlltoAllv ||
     (opis flagcxCommOpScatter &&
      (((pl_rank p =? pl_rootRank p) && negb (pl_eachNicPerRank p)) || pl_isRootCluster p)) ||
     (opis flagcxCommOpAllGather && pl_eachNicPerRank p && pl_multiNic p) then 0 else recv_type.

(** The homo rank of a rank of this cluster. *)
Definition local_rank (rank : Z) : Z := rank - (pl_rank p - homoMyRank).
Definition root_homo : option Z := arr_get (cc_globalRank2HomoRank comm) (pl_rootRank p).
Definition my_ranks : option (list Z) := arr_get L (pl_clusterId p).

(** ** Several NICs: before *)

Definition wrap_step (step : Z) : Z := if step =? nclusters - 1 then 0 else step.

Definition pre_reduce_scatter (op : flagcxCommOp_t) (acc : list (list flagcxC2cHomoFunc) * Z) (c : nat)
    : option (list (list flagcxC2cHomoFunc) * Z) :=
  let '(pre, dataoffset) := acc in
  rankCount ← per_rank (pl_totalCount p);
  size ← arr_get (cc_clusterSizes comm) (Z.of_nat c);
  ranks ← my_ranks;
  let n := Z.of_nat (length ranks) in
  if n =? 0 then None else
  let clusterdata := rankCount *u64 size in
  let preCount := clusterdata / n in
  let preRes := clusterdata mod n in
  let step := wrap_step (step_of p (pl_clusterId p) (Z.of_nat c)) in
  pre1 ← push_at pre step (homo_func (-1) 0 recv_type dataoffset (dataoffset + preCount * homoMyRank) preCount 0 op);
  pre2 ← (if 0 <? preRes then
            r ← last ranks;
            root ← arr_get (cc_globalRank2HomoRank comm) r;
            push_at pre1 step (homo_func root 0 recv_type (dataoffset + clusterdata - preRes) (dataoffset + clusterdata - preRes)
                                 preRes 0 flagcxCommOpReduce)
          else Some pre1);
  Some (pre2, dataoffset +u64 clusterdata).

Definition pre_scatter (op : flagcxCommOp_t) (acc : list (list flagcxC2cHomoFunc) * Z * Z) (c : nat)
    : option (list (list flagcxC2cHomoFunc) * Z * Z) :=
  let '(pre, dataOffset, step) := acc in
  rankCount ← per_rank (pl_totalCount p);
  size ← arr_get (cc_clusterSizes comm) (Z.of_nat c);
  '(pre1, step1) ←
    (if Z.of_nat c =? pl_clusterId p then Some (pre, step) else
     root ← root_homo;
     let f := homo_func root 0 2 dataOffset (dataOffset + rankCount * homoMyRank) rankCount 0 op in
     if algo_is p flagcxAlgoSequential then pre1 ← push_at pre 0 f; Some (pre1, step)
     else pre1 ← push_at pre step f; Some (pre1, step + 1));
  Some (pre1, dataOffset +u64 (rankCount *u64 size), step1).

(** The functions both NIC modes share. *)
Definition pre_common (op : flagcxCommOp_t) (pre : list (list flagcxC2cHomoFunc)) : option (list (list flagcxC2cHomoFunc)) :=
  match op with
  | flagcxCommOpAllGather =>
      push_at pre 0 (homo_func (-1) 0 recv_type 0 (pl_clusterOffset p * pl_sendCount p) (pl_sendCount p) 0 op)
  | flagcxCommOpBroadcast | flagcxCommNoOp => push_at pre 0 (homo_func (-1) 0 recv_type 0 0 (pl_totalCount p) 0 op)
  | flagcxCommOpSend | flagcxCommOpRecv =>
      root ← root_homo;
      push_at pre 0 (homo_func root 0 recv_type 0 0 (pl_totalCount p) 0 op)
  | _ => Some pre
  end.

Definition pre_each (m : mgr) (pre : list (list flagcxC2cHomoFunc)) : option (list (list flagcxC2cHomoFunc)) :=
  op ← getC2cHomoCommOp p 0 0;
  match op with
  | flagcxCommOpReduceScatter =>
      if opis flagcxCommOpReduce || algo_is p flagcxAlgoSequential then
        buffer ← head (getBufferInfoList m (pl_clusterId p) (pl_rank p));
        push_at pre 0 (homo_func (-1) 0 recv_type 0 (homoMyRank * bi_count buffer) (bi_count buffer) 0 op)
      else
        '(pre', _) ← mfold (pre_reduce_scatter op) (pre, 0) (seq 0 (Z.to_nat nclusters));
        Some pre'
  | flagcxCommOpGather =>
      root ← root_homo;
      push_at pre 0 (homo_func root 0 1 0 (pl_clusterOffset p * pl_sendCount p) (pl_sendCount p) 0 op)
  | flagcxCommOpScatter =>
      '(pre', _, _) ← mfold (pre_scatter op) (pre, 0, 0) (seq 0 (Z.to_nat nclusters));
      Some pre'
  | flagcxCommOpAlltoAll =>
      push_at pre 0 (homo_func (-1) send_type recv_type (pl_clusterOffset p * pl_sendCount p)
                       (pl_clusterOffset p * pl_recvCount p) (pl_totalCount p) 0 op)
  | flagcxCommOpAlltoAllv => push_at pre 0 (homo_func (-1) send_type recv_type 0 0 0 0 op)
  | _ => pre_common op pre
  end.

Definition pre_reduce_entry (op : flagcxCommOp_t) (rank : Z) (pre : list (list flagcxC2cHomoFunc)) (buffer : flagcxBufferInfo)
    : option (list (list flagcxC2cHomoFunc)) :=
  step ← (if negb (opis flagcxCommOpReduce) && pipe then
            c ← arr_get (cc_clusterIds comm) (bi_clusterIdToSend buffer);
            Some (wrap_step (step_of p (pl_clusterId p) c))
          else Some 0);
  push_at pre step (homo_func (local_rank rank) 0 recv_type (bi_offset buffer) (bi_offset buffer) (bi_count buffer) 0 op).
Definition pre_reduce_rank (op : flagcxCommOp_t) (m : mgr) (pre : list (list flagcxC2cHomoFunc)) (rank : Z)
    : option (list (list flagcxC2cHomoFunc)) :=
  mfold (pre_reduce_entry op rank) pre (getBufferInfoList m (pl_clusterId p) rank).

Definition pre_otherwise (m : mgr) (pre : list (list flagcxC2cHomoFunc)) : option (list (list flagcxC2cHomoFunc)) :=
  op ← getC2cHomoCommOp p 0 1;
  match op with
  | flagcxCommOpReduce => ranks ← my_ranks; mfold (pre_reduce_rank op m) pre ranks
  | _ => pre_common op pre
  end.

(** ** Several NICs: between the clusters *)

Definition send_op (peer offset count : Z) : flagcxC2cP2pOp :=
  MkP2pOp (pl_rank p) peer (offset mod U64_MOD) (count mod U64_MOD) false.
Definition recv_op (peer offset count : Z) : flagcxC2cP2pOp :=
  MkP2pOp (pl_rank p) peer (offset mod U64_MOD) (count mod U64_MOD) true.

Definition alltoall_ops (ops : list flagcxC2cP2pOp) (i : nat) : option (list flagcxC2cP2pOp) :=
  c ← arr_get (cc_clusterIds comm) (Z.of_nat i);
  Some (if pl_clusterId p =? c then ops
        else ops ++ [send_op (Z.of_nat i) (Z.of_nat i * pl_sendCount p) (pl_sendCount p);
                     recv_op (Z.of_nat i) (Z.of_nat i * pl_recvCount p) (pl_recvCount p)]).

Definition alltoallv_ops (v : v_counts) (ops : list flagcxC2cP2pOp) (i : nat) : option (list flagcxC2cP2pOp) :=
  c ← arr_get (cc_clusterIds comm) (Z.of_nat i);
  sc ← arr_get (vc_sendCounts v) (Z.of_nat i);
  rc ← arr_get (vc_recvCounts v) (Z.of_nat i);
  sd ← arr_get (vc_sDispls v) (Z.of_nat i);
  rd ← arr_get (vc_rDispls v) (Z.of_nat i);
  let far := negb (pl_clusterId p =? c) in
  Some (ops ++ (if flagcxCCLAdaptorNeedSendrecv sc && far then [send_op (Z.of_nat i) sd sc] else []) ++
               (if flagcxCCLAdaptorNeedSendrecv rc && far then [recv_op (Z.of_nat i) rd rc] else [])).

(** [heteroFuncStep] of Scatter and Gather when every rank has a NIC: the root
    cluster has one function per other cluster. *)
Definition rooted_op (op : flagcxCommOp_t) (acc : list flagcxC2cHeteroFunc * Z * Z) (c : nat)
    : option (list flagcxC2cHeteroFunc * Z * Z) :=
  let '(steps, clusterOffset, dataOffset) := acc in
  rankCount ← per_rank (pl_totalCount p);
  size ← arr_get (cc_clusterSizes comm) (Z.of_nat c);
  let peer := clusterOffset + homoMyRank in
  Some (if Z.of_nat c =? pl_clusterId p then steps
        else steps ++ [[if op_is op flagcxCommOpScatter then send_op peer (dataOffset + rankCount * homoMyRank) rankCount
                        else recv_op peer 0 (pl_sendCount p)]],
        clusterOffset + size, dataOffset +u64 (rankCount *u64 size)).
Definition rooted_ops (op : flagcxCommOp_t) : option (list flagcxC2cHeteroFunc) :=
  if pl_isRootCluster p then
    '(steps, _, _) ← mfold (rooted_op op) ([], 0, 0) (seq 0 (Z.to_nat nclusters));
    Some steps
  else
    first ← sum_sizes (Z.to_nat (if 0 <=? pl_rootClusterId p then Z.min (pl_rootClusterId p) nclusters else nclusters)) (cc_clusterSizes comm) 0 0;
    rankCount ← per_rank (pl_totalCount p);
    Some [[if op_is op flagcxCommOpScatter then recv_op (first + homoMyRank) 0 rankCount
           else send_op (first + homoMyRank) 0 (pl_sendCount p)]].

Definition push_rooted (new : list flagcxC2cHeteroFunc) (steps : list (list flagcxC2cHeteroFunc)) (s : nat)
    : option (list (list flagcxC2cHeteroFunc)) :=
  f ← new !! s;
  push_at steps (if algo_is p flagcxAlgoSequential then 0 else Z.of_nat s) f.
Definition push_noop (op : flagcxCommOp_t) (inter : list (list flagcxC2cHomoFunc)) (s : nat)
    : option (list (list flagcxC2cHomoFunc)) :=
  match op with
  | flagcxCommNoOp => push_at inter (Z.of_nat s) (homo_func (-1) send_type recv_type 0 0 (pl_totalCount p) 1 op)
  | _ => Some inter
  end.

Definition find_rooted (op : flagcxCommOp_t) (s : strategy) : option strategy :=
  new ← rooted_ops op;
  let steps := seq 0 (Z.to_nat (nsteps p)) in
  hetero ← mfold (push_rooted new) (st_heteroFuncSteps s) steps;
  interOp ← getC2cHomoCommOp p 1 0;
  inter ← mfold (push_noop interOp) (st_homoInterFuncSteps s) steps;
  Some (MkStrategy (st_preHomoFuncSteps s) hetero inter (st_postHomoFuncSteps s) (st_manager s)).

Definition find_exchange (ops : list flagcxC2cP2pOp) (s : strategy) : option strategy :=
  hetero ← push_at (st_heteroFuncSteps s) 0 ops;
  inter ← push_at (st_homoInterFuncSteps s) 0 (homo_func (-1) send_type recv_type 0 0 (pl_totalCount p) 1 flagcxCommNoOp);
  Some (MkStrategy (st_preHomoFuncSteps s) hetero inter (st_postHomoFuncSteps s) (st_manager s)).

Definition find_hetero (env : option string) (fuel : nat) (v : v_counts) (s : strategy) : option strategy :=
  let all := seq 0 (Z.to_nat (cc_nranks comm)) in
  if opis flagcxCommOpAlltoAll then ops ← mfold alltoall_ops [] all; find_exchange ops s
  else if opis flagcxCommOpAlltoAllv then ops ← mfold (alltoallv_ops v) [] all; find_exchange ops s
  else if opis flagcxCommOpScatter && pl_eachNicPerRank p then find_rooted flagcxCommOpScatter s
  else if opis flagcxCommOpGather && pl_eachNicPerRank p then find_rooted flagcxCommOpGather s
  else schedule_rounds p fuel env send_type recv_type 0 s.

(** ** Several NICs: after *)

Definition post_broadcast_entry (op : flagcxCommOp_t) (rank : Z) (post : list (list flagcxC2cHomoFunc)) (it : flagcxBufferInfo)
    : option (list (list flagcxC2cHomoFunc)) :=
  if bi_isRecv it then
    let f sendType := homo_func (local_rank rank) sendType 1 (bi_offset it) (bi_offset it) (bi_count it) 2 op in
    if opis flagcxCommOpAllGather && pl_eachNicPerRank p then
      c ← arr_get (cc_clusterIds comm) (bi_peerRank it);
      push_at post (if pipe then 0 else step_of p c (pl_clusterId p)) (f 1)
    else if 1 <? pl_nPipePostSteps p + pl_nSeqPostSteps p then
      c ← arr_get (cc_clusterIds comm) (bi_peerRank it);
      push_at post (Z.rem (c + nclusters - pl_clusterId p) nclusters) (f 1)
    else push_at post 0 (f send_type)
  else Some post.
Definition post_broadcast_rank (op : flagcxCommOp_t) (m : mgr) (post : list (list flagcxC2cHomoFunc)) (rank : Z)
    : option (list (list flagcxC2cHomoFunc)) :=
  mfold (post_broadcast_entry op rank) post (getBufferInfoList m (pl_clusterId p) rank).

Definition post_gather (op : flagcxCommOp_t) (acc : list (list flagcxC2cHomoFunc) * Z * Z) (c : nat)
    : option (list (list flagcxC2cHomoFunc) * Z * Z) :=
  let '(post, step, clusterOffset) := acc in
  size ← arr_get (cc_clusterSizes comm) (Z.of_nat c);
  '(post1, step1) ←
    (if Z.of_nat c =? pl_clusterId p then Some (post, step) else
     root ← root_homo;
     let f := homo_func root 2 1 0 (clusterOffset * pl_sendCount p) (pl_sendCount p) 2 op in
     if algo_is p flagcxAlgoSequential then post1 ← push_at post 0 f; Some (post1, step)
     else post1 ← push_at post step f; Some (post1, step + 1));
  Some (post1, step1, clusterOffset + size).

Definition find_post (m : mgr) (post : list (list flagcxC2cHomoFunc)) : option (list (list flagcxC2cHomoFunc)) :=
  op ← getC2cHomoCommOp p 2 (if pl_eachNicPerRank p then 0 else 1);
  match op with
  | flagcxCommOpAllReduce => push_at post 0 (homo_func (-1) send_type 1 0 0 (pl_recvCount p) 2 op)
  | flagcxCommOpReduceScatter =>
      push_at post 0 (homo_func (-1) send_type 1 (pl_clusterOffset p * pl_recvCount p) 0 (pl_recvCount p) 2 op)
  | flagcxCommOpBroadcast => ranks ← my_ranks; mfold (post_broadcast_rank op m) post ranks
  | flagcxCommOpScatter =>
      root ← (if pl_eachNicPerRank p then root_homo
              else ranks ← my_ranks; r ← head ranks; Some (local_rank r));
      push_at post 0 (homo_func root (if pl_eachNicPerRank p then 0 else 2) 1 (pl_clusterOffset p * pl_recvCount p) 0
                        (pl_recvCount p) 2 op)
  | flagcxCommOpGather =>
      '(post', _, _) ← mfold (post_gather op) (post, 0, 0) (seq 0 (Z.to_nat nclusters));
      Some post'
  | flagcxCommOpSend | flagcxCommOpRecv =>
      root ← root_homo;
      push_at post 0 (homo_func root send_type 1 0 0 (pl_totalCount p) 2 op)
  | _ => Some post
  end.

Definition find_multi (env : option string) (fuel : nat) (v : v_counts) (s : strategy) : option strategy :=
  pre ← (if pl_eachNicPerRank p then pre_each (st_manager s) (st_preHomoFuncSteps s)
         else pre_otherwise (st_manager s) (st_preHomoFuncSteps s));
  s1 ← find_hetero env fuel v (MkStrategy pre (st_heteroFuncSteps s) (st_homoInterFuncSteps s) (st_postHomoFuncSteps s) (st_manager s));
  post ← find_post (st_manager s1) (st_postHomoFuncSteps s1);
  Some (MkStrategy (st_preHomoFuncSteps s1) (st_heteroFuncSteps s1) (st_homoInterFuncSteps s1) post (st_manager s1)).

(** ** One NIC *)

Definition reducing : bool := opis flagcxCommOpAllReduce || opis flagcxCommOpReduceScatter || opis flagcxCommOpReduce.

(** Every destination cluster needs a slot per cluster. *)
Fixpoint slots_ok (n : nat) (c : Z) : option bool :=
  match n with
  | O => Some true
  | S n' =>
      size ← arr_get (cc_clusterSizes comm) c;
      if size <? nclusters then Some false else slots_ok n' (c + 1)
  end.
Definition single_slots : option bool :=
  if reducing then
    if opis flagcxCommOpReduce then slots_ok 1 (pl_rootClusterId p) else slots_ok (Z.to_nat nclusters) 0
  else Some true.

Definition first_rank (ranks : list (list Z)) (c : Z) : option Z := l ← arr_get ranks c; head l.

Definition single_pre (m : mgr) (pre : list (list flagcxC2cHomoFunc)) : option (list (list flagcxC2cHomoFunc)) :=
  op ← getC2cHomoCommOp p 0 2;
  r ← first_rank L (pl_clusterId p);
  match op with
  | flagcxCommOpReduce =>
      buffer ← head (getBufferInfoList m (pl_clusterId p) r);
      push_at pre 0 (homo_func (local_rank r) 0 recv_type (bi_offset buffer) (bi_offset buffer) (bi_count buffer) 0 op)
  | flagcxCommOpGather =>
      push_at pre 0 (homo_func (local_rank r) 0 recv_type 0 (pl_clusterOffset p * pl_sendCount p) (pl_sendCount p) 0 op)
  | flagcxCommNoOp => push_at pre 0 (homo_func (-1) 0 recv_type 0 0 (pl_totalCount p) 0 op)
  | _ => Some pre
  end.

(** The exchange of the reductions, for one other cluster; [None] inside is
    [flagcxNotSupported]. *)
Definition single_reduce_recv (j : nat) (ops : list flagcxC2cP2pOp) : option (option (list flagcxC2cP2pOp)) :=
  if pl_isRootCluster p || negb (opis flagcxCommOpReduce) then
    mine ← first_rank L (pl_clusterId p);
    rep ← arr_get (cc_globalRank2HomoRank comm) mine;
    peer ← first_rank L (Z.of_nat j);
    let slot := flagcxC2cGetPeerHomoRank rep (Z.of_nat j) (pl_clusterId p) (cc_homoRanks comm) in
    if slot <? 0 then Some None
    else Some (Some (if homoMyRank =? slot then ops ++ [recv_op peer 0 (pl_totalCount p)] else ops))
  else Some (Some ops).
Definition single_reduce_send (j : nat) (ops : list flagcxC2cP2pOp) : option (option (list flagcxC2cP2pOp)) :=
  if negb (pl_isRootCluster p) || negb (opis flagcxCommOpReduce) then
    mine ← first_rank L (pl_clusterId p);
    myRep ← arr_get (cc_globalRank2HomoRank comm) mine;
    peer ← first_rank L (Z.of_nat j);
    rep ← arr_get (cc_globalRank2HomoRank comm) peer;
    size ← arr_get (cc_clusterSizes comm) (Z.of_nat j);
    let slot := flagcxC2cGetPeerHomoRank rep (pl_clusterId p) (Z.of_nat j) size in
    if slot <? 0 then Some None else
    let dest := slot - rep + peer in
    if homoMyRank =? myRep then
      goes ← (if opis flagcxCommOpReduce then c ← arr_get (cc_clusterIds comm) dest; Some (c =? pl_rootClusterId p)
              else Some true);
      Some (Some (if (goes : bool) then ops ++ [send_op dest 0 (pl_totalCount p)] else ops))
    else Some (Some ops)
  else Some (Some ops).
Fixpoint single_reduce (js : list nat) (ops : list flagcxC2cP2pOp) : option (option (list flagcxC2cP2pOp)) :=
  match js with
  | [] => Some (Some ops)
  | j :: js' =>
      if pl_clusterId p =? Z.of_nat j then single_reduce js' ops else
      r1 ← single_reduce_recv j ops;
      match r1 with
      | None => Some None
      | Some ops1 =>
          r2 ← single_reduce_send j ops1;
          match r2 with None => Some None | Some ops2 => single_reduce js' ops2 end
      end
  end.

Definition single_allgather (acc : list flagcxC2cHeteroFunc * Z) (i : nat) : option (list flagcxC2cHeteroFunc * Z) :=
  let '(steps, recvOffset) := acc in
  size ← arr_get (cc_clusterSizes comm) (Z.of_nat i);
  steps' ←
    (if (pl_clusterId p =? Z.of_nat i) || (pl_homoInterMyRank p =? -1) then Some steps else
     peer ← first_rank L (Z.of_nat i);
     let out := send_op peer (pl_clusterOffset p * pl_sendCount p) (pl_clusterCount p * pl_sendCount p) in
     let inn := recv_op peer (recvOffset * pl_sendCount p) (size * pl_sendCount p) in
     if pipe then
       let step := step_of p (pl_clusterId p) (Z.of_nat i) in
       s1 ← push_at steps step out;
       push_at s1 (nclusters - 1 - step) inn
     else if algo_is p flagcxAlgoSequential then
       s1 ← push_at steps 0 out;
       push_at s1 0 inn
     else Some steps);
  Some (steps', recvOffset + size).

Definition single_post_broadcast (op : flagcxCommOp_t) (acc : list (list flagcxC2cHomoFunc) * Z) (i : nat)
    : option (list (list flagcxC2cHomoFunc) * Z) :=
  let '(post, clusterOffset) := acc in
  size ← arr_get (cc_clusterSizes comm) (Z.of_nat i);
  r ← first_rank L (pl_clusterId p);
  let step := if 1 <? nsteps p then Z.rem (Z.of_nat i + nclusters - pl_clusterId p) nclusters else 0 in
  post' ← push_at post step (homo_func (local_rank r) send_type 1 (clusterOffset * pl_sendCount p)
                               (clusterOffset * pl_sendCount p) (size * pl_sendCount p) 2 op);
  Some (post', clusterOffset + size).

Definition single_inter (inter : list (list flagcxC2cHomoFunc)) : option (list (list flagcxC2cHomoFunc)) :=
  op ← getC2cHomoCommOp p 1 2;
  match op with
  | flagcxCommOpAllReduce | flagcxCommOpReduce =>
      push_at inter 0 (homo_func (-1) send_type recv_type 0 0 (pl_totalCount p) 0 op)
  | flagcxCommNoOp => push_at inter 0 (homo_func (-1) send_type recv_type 0 0 (pl_totalCount p) 1 op)
  | _ => Some inter
  end.

Definition single_post (post : list (list flagcxC2cHomoFunc)) : option (list (list flagcxC2cHomoFunc)) :=
  op ← getC2cHomoCommOp p 2 2;
  match op with
  | flagcxCommOpReduceScatter =>
      push_at post 0 (homo_func (-1) send_type 1 (pl_clusterOffset p * pl_recvCount p) 0 (pl_recvCount p) 2 op)
  | flagcxCommOpBroadcast => '(post', _) ← mfold (single_post_broadcast op) (post, 0) (seq 0 (length L)); Some post'
  | _ => Some post
  end.

(** The point-to-point operations; [None] inside is [flagcxNotSupported]. *)
Definition single_hetero (hetero : list (list flagcxC2cHeteroFunc)) : option (option (list (list flagcxC2cHeteroFunc))) :=
  if reducing then
    r ← single_reduce (seq 0 (length L)) [];
    match r with
    | None => Some None
    | Some ops => h ← push_at hetero 0 ops; Some (Some h)
    end
  else if opis flagcxCommOpAllGather then
    '(steps, _) ← mfold single_allgather (replicate (Z.to_nat (nsteps p)) [], 0) (seq 0 (length L));
    h ← push_each hetero steps; Some (Some h)
  else Some (Some hetero).

Definition find_single (s : strategy) : option (flagcxResult_t * strategy) :=
  ok ← single_slots;
  if negb (ok : bool) then Some (flagcxNotSupported, s) else
  pre ← single_pre (st_manager s) (st_preHomoFuncSteps s);
  h ← single_hetero (st_heteroFuncSteps s);
  match h with
  | None => Some (flagcxNotSupported, MkStrategy pre (st_heteroFuncSteps s) (st_homoInterFuncSteps s) (st_postHomoFuncSteps s) (st_manager s))
  | Some hetero =>
      inter ← single_inter (st_homoInterFuncSteps s);
      post ← single_post (st_postHomoFuncSteps s);
      Some (flagcxSuccess, MkStrategy pre hetero inter post (st_manager s))
  end.
End Find.

(** ** The whole *)

(** The empty function queues of the constructor. *)
Definition empty_strategy (p : flagcxC2cPlanner) : strategy :=
  MkStrategy (replicate (Z.to_nat (pl_nSeqPreSteps p + pl_nPipePreSteps p)) []) (replicate (Z.to_nat (nsteps p)) [])
    (replicate (Z.to_nat (nsteps p)) []) (replicate (Z.to_nat (pl_nPipePostSteps p + pl_nSeqPostSteps p)) []) (pl_manager p).

(** [findStrategy] on the steps the planner holds; [fuel] bounds the rounds. *)
Definition findStrategy (p : flagcxC2cPlanner) (env : option string) (fuel : nat) (v : v_counts) (s : strategy)
    : option (flagcxResult_t * flagcxC2cPlanner * Z * flagcxC2cRefreshFunc * strategy) :=
  nchunks ← find_nchunks p;
  m ← refresh p env 1 (st_manager s);
  rf ← find_refreshFunc p m;
  let q := reset_nics p in
  let s1 := MkStrategy (st_preHomoFuncSteps s) (st_heteroFuncSteps s) (st_homoInterFuncSteps s) (st_postHomoFuncSteps s) m in
  if pl_multiNic q then
    s2 ← find_multi q env fuel v s1;
    Some (flagcxSuccess, q, nchunks, rf, s2)
  else
    '(r, s2) ← find_single q s1;
    Some (r, q, nchunks, rf, s2).
