(* ===== verification/C2cExchange.v ===== *)
(** What the strategies without scheduling rounds exchange between clusters:
    AlltoAll(v), the reductions and the AllGather of single-NIC clusters, and
    the rooted collectives. *)
From S2P Require Import Prelude Flagcx Arrays C2cBuffers C2cPlanner C2cStrategy C2cDelivery C2cFind.

(** ** Operations gathered by a loop *)

Lemma mfold_chunks {A : Type} (step : list A -> nat -> option (list A)) (f : nat -> list A) js ops :
  (forall i ops, i ∈ js -> step ops i = Some (ops ++ f i)) -> mfold step ops js = Some (ops ++ concat (f <$> js)).
Proof.
  revert ops. induction js as [|j js IH]; intros ops Hs; cbn [mfold]; [by rewrite app_nil_r|].
  rewrite Hs by set_solver. cbn [mbind option_bind]. rewrite IH by set_solver. by rewrite <-app_assoc.
Qed.

Lemma sends_in_app l1 l2 r : sends_in (l1 ++ l2) r = sends_in l1 r ++ sends_in l2 r.
Proof. unfold sends_in. by rewrite filter_app, fmap_app. Qed.
Lemma recvs_in_app l1 l2 r : recvs_in (l1 ++ l2) r = recvs_in l1 r ++ recvs_in l2 r.
Proof. unfold recvs_in. by rewrite filter_app, fmap_app. Qed.

Lemma sends_in_cons o l r :
  sends_in (o :: l) r = (if decide (op_isRecv o = false /\ op_peerRank o = r) then [(op_offset o, op_count o)] else []) ++ sends_in l r.
Proof. unfold sends_in. by destruct (decide _); [rewrite filter_cons_True|rewrite filter_cons_False]. Qed.
Lemma recvs_in_cons o l r :
  recvs_in (o :: l) r = (if decide (op_isRecv o = true /\ op_peerRank o = r) then [(op_offset o, op_count o)] else []) ++ recvs_in l r.
Proof. unfold recvs_in. by destruct (decide _); [rewrite filter_cons_True|rewrite filter_cons_False]. Qed.

(** Evaluates selections from explicit lists of operations. *)
Ltac select_ops :=
  repeat first [rewrite sends_in_cons | rewrite recvs_in_cons]; cbn [op_isRecv op_peerRank op_offset op_count];
  repeat destruct (decide _); try reflexivity; try (exfalso; naive_solver lia).

(** A selection that only one turn of the loop contributes to. *)
Lemma select_one {A B : Type} (sel : list A -> list B) (f : nat -> list A) (n b : nat) :
  sel [] = [] -> (forall l1 l2, sel (l1 ++ l2) = sel l1 ++ sel l2) ->
  (forall j, (j < n)%nat -> j <> b -> sel (f j) = []) -> (b < n)%nat -> sel (concat (f <$> seq 0 n)) = sel (f b).
Proof.
  intros Hnil Happ Hother Hb.
  assert (Hzero : forall js, (forall j, j ∈ js -> (j < n)%nat /\ j <> b) -> sel (concat (f <$> js)) = []).
  { induction js as [|j js IH]; intros Hjs; [done|]. cbn [fmap list_fmap concat]. rewrite Happ.
    destruct (Hjs j) as [Hj Hne]; [set_solver|]. rewrite Hother by done. apply IH. set_solver. }
  replace n with (b + S (n - b - 1))%nat by lia. rewrite seq_app, fmap_app, concat_app, Happ. cbn [seq fmap list_fmap concat].
  rewrite Happ, !Hzero; [by rewrite app_nil_r| |]; intros j Hj; apply elem_of_seq in Hj; lia.
Qed.

(** ** AlltoAll(v) *)

Section AlltoAll.
Variable p : flagcxC2cPlanner.
Let n := cc_nranks (pl_comm p).

Lemma alltoall_select (cl : list Z) ops peer (f : nat -> list flagcxC2cP2pOp) step :
  length cl = Z.to_nat n -> 0 <= peer < n ->
  (forall i c ops, cl !! i = Some c -> step ops i = Some (ops ++ f i)) ->
  (forall i o, o ∈ f i -> op_peerRank o = Z.of_nat i) ->
  mfold step ops (seq 0 (Z.to_nat n)) = Some (ops ++ concat (f <$> seq 0 (Z.to_nat n))) /\
  sends_in (concat (f <$> seq 0 (Z.to_nat n))) peer = sends_in (f (Z.to_nat peer)) peer /\
  recvs_in (concat (f <$> seq 0 (Z.to_nat n))) peer = recvs_in (f (Z.to_nat peer)) peer.
Proof.
  intros Hl Hp Hstep Hpeer. split_and!.
  - apply mfold_chunks. intros i ops' Hi. apply elem_of_seq in Hi.
    destruct (lookup_lt_is_Some_2 cl i) as [c Hc]; [lia|]. eauto.
  - apply (select_one (fun l => sends_in l peer)); [done|intros; apply sends_in_app| |lia].
    intros j Hj Hne. unfold sends_in. rewrite filter_none; [done|]. apply Forall_forall. intros o Ho [_ He].
    rewrite (Hpeer j) in He by done. lia.
  - apply (select_one (fun l => recvs_in l peer)); [done|intros; apply recvs_in_app| |lia].
    intros j Hj Hne. unfold recvs_in. rewrite filter_none; [done|]. apply Forall_forall. intros o Ho [_ He].
    rewrite (Hpeer j) in He by done. lia.
Qed.

(** The strategy of an exchange holds the gathered operations in one function. *)
Lemma find_exchange_steps ops :
  nsteps p = 1 -> option_map st_heteroFuncSteps (find_exchange p ops (empty_strategy p)) = Some [[ops]].
Proof. intros Hn. unfold find_exchange, empty_strategy. rewrite Hn. reflexivity. Qed.
End AlltoAll.

(** The four arrays of a rank hold an entry for every rank. *)
Definition counts_ok (nranks : Z) (v : v_counts) : Prop :=
  Forall (fun l => length l = Z.to_nat nranks) [vc_sendCounts v; vc_sDispls v; vc_recvCounts v; vc_rDispls v] /\
  Forall (fun l => Forall is_u64 l) [vc_sendCounts v; vc_sDispls v; vc_recvCounts v; vc_rDispls v].

(** The operations of rank [q] towards rank [i]. *)
Definition alltoallv_chunk (q : flagcxC2cPlanner) (v : v_counts) (i : nat) : list flagcxC2cP2pOp :=
  let at_ l := default 0 (arr_get l (Z.of_nat i)) in
  let far := negb (pl_clusterId q =? at_ (cc_clusterIds (pl_comm q))) in
  (if flagcxCCLAdaptorNeedSendrecv (at_ (vc_sendCounts v)) && far
   then [send_op q (Z.of_nat i) (at_ (vc_sDispls v)) (at_ (vc_sendCounts v))] else []) ++
  (if flagcxCCLAdaptorNeedSendrecv (at_ (vc_recvCounts v)) && far
   then [recv_op q (Z.of_nat i) (at_ (vc_rDispls v)) (at_ (vc_recvCounts v))] else []).

Lemma counts_get nranks v i :
  counts_ok nranks v -> (i < Z.to_nat nranks)%nat ->
  Forall (fun l => exists x, arr_get l (Z.of_nat i) = Some x /\ is_u64 x) [vc_sendCounts v; vc_sDispls v; vc_recvCounts v; vc_rDispls v].
Proof.
  intros [Hl Hu] Hi. rewrite Forall_forall in *. intros l Hin. rewrite arr_get_nat.
  destruct (lookup_lt_is_Some_2 l i) as [x Hx]; [by rewrite Hl|]. exists x. split; [done|]. by eapply Forall_lookup_1; [apply Hu|].
Qed.

Lemma alltoallv_chunk_spec q v ops i c :
  counts_ok (cc_nranks (pl_comm q)) v -> cc_clusterIds (pl_comm q) !! i = Some c -> (i < Z.to_nat (cc_nranks (pl_comm q)))%nat ->
  alltoallv_ops q v ops i = Some (ops ++ alltoallv_chunk q v i).
Proof.
  intros Hv Hc Hi. pose proof (counts_get _ _ _ Hv Hi) as Hg. rewrite !Forall_cons in Hg.
  destruct Hg as ((a & Ha & _) & (b & Hb & _) & (d & Hd & _) & (e & He & _) & _).
  unfold alltoallv_ops, alltoallv_chunk. rewrite !arr_get_nat in *. rewrite Hc, Ha, Hb, Hd, He. reflexivity.
Qed.

Lemma alltoallv_chunk_peer q v i o : o ∈ alltoallv_chunk q v i -> op_peerRank o = Z.of_nat i.
Proof. unfold alltoallv_chunk. repeat case_match; set_solver. Qed.

Lemma chunk_select q v r c k d k' d' :
  0 <= r -> arr_get (cc_clusterIds (pl_comm q)) r = Some c ->
  arr_get (vc_sendCounts v) r = Some k -> arr_get (vc_sDispls v) r = Some d ->
  arr_get (vc_recvCounts v) r = Some k' -> arr_get (vc_rDispls v) r = Some d' ->
  Forall is_u64 [k; d; k'; d'] ->
  let f := alltoallv_chunk q v (Z.to_nat r) in
  sends_in f r = (if decide (pl_clusterId q <> c /\ k <> 0) then [(d, k)] else []) /\
  recvs_in f r = (if decide (pl_clusterId q <> c /\ k' <> 0) then [(d', k')] else []).
Proof.
  intros Hr Hc Hk Hd Hk' Hd' Hu. unfold alltoallv_chunk. rewrite Z2Nat.id by done.
  rewrite Hc, Hk, Hd, Hk', Hd'. rewrite !Forall_cons in Hu.
  destruct Hu as (U1 & U2 & U3 & U4 & _). unfold is_u64 in *.
  unfold send_op, recv_op, flagcxCCLAdaptorNeedSendrecv, default, id. rewrite !Z.mod_small by done.
  destruct (Z.eqb_spec (pl_clusterId q) c), (Z.eqb_spec k 0), (Z.eqb_spec k' 0); simpl; split; select_ops.
Qed.

(** AlltoAllv.  What a rank sends to a rank of another cluster is what
    that one receives from it: when the counts the two were called with agree,
    each count but zero is one send at the sender's displacement and one
    receive at the receiver's; within a cluster nothing is sent. *)
Theorem alltoallv_match (p : flagcxC2cPlanner) (env : option string) (fuel : nat) (v : Z -> v_counts) (r1 r2 : Z)
    (i1 i2 : rank_info) (k d1 d2 : Z)
    (Hop : pl_commOp p = flagcxCommOpAlltoAllv) (Hn : nsteps p = 1)
    (Hids : length (cc_clusterIds (pl_comm p)) = Z.to_nat (cc_nranks (pl_comm p)))
    (H1 : arr_get (cc_clusterIds (pl_comm p)) r1 = Some (ri_clusterId i1))
    (H2 : arr_get (cc_clusterIds (pl_comm p)) r2 = Some (ri_clusterId i2))
    (Hv1 : counts_ok (cc_nranks (pl_comm p)) (v r1)) (Hv2 : counts_ok (cc_nranks (pl_comm p)) (v r2))
    (Hsend : arr_get (vc_sendCounts (v r1)) r2 = Some k) (Hrecv : arr_get (vc_recvCounts (v r2)) r1 = Some k)
    (Hd1 : arr_get (vc_sDispls (v r1)) r2 = Some d1) (Hd2 : arr_get (vc_rDispls (v r2)) r1 = Some d2) :
  let q1 := on_rank p r1 i1 in let q2 := on_rank p r2 i2 in
  exists ops1 ops2,
    option_map st_heteroFuncSteps (find_hetero q1 env fuel (v r1) (empty_strategy q1)) = Some [[ops1]] /\
    option_map st_heteroFuncSteps (find_hetero q2 env fuel (v r2) (empty_strategy q2)) = Some [[ops2]] /\
    sends_in ops1 r2 = (if decide (ri_clusterId i1 <> ri_clusterId i2 /\ k <> 0) then [(d1, k)] else []) /\
    recvs_in ops2 r1 = (if decide (ri_clusterId i1 <> ri_clusterId i2 /\ k <> 0) then [(d2, k)] else []).
Proof.
  intros q1 q2.
  assert (Hrange : forall r c, arr_get (cc_clusterIds (pl_comm p)) r = Some c -> 0 <= r < cc_nranks (pl_comm p)).
  { intros r c Hr. unfold arr_get in Hr. destruct (Z.leb_spec 0 r); [|done]. apply lookup_lt_Some in Hr. lia. }
  pose proof (Hrange _ _ H1) as R1. pose proof (Hrange _ _ H2) as R2.
  assert (Hfind : forall q w s, pl_commOp q = flagcxCommOpAlltoAllv ->
            find_hetero q env fuel w s = (ops ← mfold (alltoallv_ops q w) [] (seq 0 (Z.to_nat (cc_nranks (pl_comm q)))); find_exchange q ops s)).
  { intros q w s Hq. unfold find_hetero, is_op. by rewrite Hq. }
  destruct (alltoall_select q1 (cc_clusterIds (pl_comm p)) [] r2 (alltoallv_chunk q1 (v r1)) (alltoallv_ops q1 (v r1))) as (M1 & S1 & _);
    [done|done| | |].
  { intros i c ops Hc. apply (alltoallv_chunk_spec q1 (v r1) ops i c Hv1 Hc). apply lookup_lt_Some in Hc. cbn. lia. }
  { intros i o. apply alltoallv_chunk_peer. }
  destruct (alltoall_select q2 (cc_clusterIds (pl_comm p)) [] r1 (alltoallv_chunk q2 (v r2)) (alltoallv_ops q2 (v r2))) as (M2 & _ & S2);
    [done|done| | |].
  { intros i c ops Hc. apply (alltoallv_chunk_spec q2 (v r2) ops i c Hv2 Hc). apply lookup_lt_Some in Hc. cbn. lia. }
  { intros i o. apply alltoallv_chunk_peer. }
  do 2 eexists. rewrite !Hfind by done. rewrite M1, M2. cbn [mbind option_bind].
  split; [by apply find_exchange_steps|]. split; [by apply find_exchange_steps|]. cbn [app].
  rewrite S1, S2.
  pose proof (counts_get _ _ (Z.to_nat r2) Hv1 ltac:(lia)) as G1. pose proof (counts_get _ _ (Z.to_nat r1) Hv2 ltac:(lia)) as G2.
  rewrite !Forall_cons, Z2Nat.id in G1 by lia. rewrite !Forall_cons, Z2Nat.id in G2 by lia.
  destruct G1 as ((? & E1 & U1) & (? & E2 & U2) & (? & E3 & U3) & (? & E4 & U4) & _).
  destruct G2 as ((? & F1 & V1) & (? & F2 & V2) & (? & F3 & V3) & (? & F4 & V4) & _).
  rewrite Hsend in E1. rewrite Hd1 in E2. rewrite Hrecv in F3. rewrite Hd2 in F4. simplify_eq.
  split.
  - rewrite (proj1 (chunk_select q1 (v r1) r2 _ _ _ _ _ ltac:(lia) H2 Hsend Hd1 E3 E4 ltac:(by rewrite !Forall_cons, Forall_nil))). done.
  - rewrite (proj2 (chunk_select q2 (v r2) r1 _ _ _ _ _ ltac:(lia) H1 F1 F2 Hrecv Hd2 ltac:(by rewrite !Forall_cons, Forall_nil))).
    cbn. repeat destruct (decide _); try done; naive_solver.
Qed.

(** An AlltoAllv plan of the example's ranks, every count being one. *)
Definition exchange_plan (op : flagcxCommOp_t) : flagcxC2cPlanner :=
  MkPlanner 1 0 1 0 1 7 7 7 (-1) example_comm op flagcxRedNoOp [[0; 1]; [3; 4; 5]] 0 0 0 7 (-1) false 3 0
    true true flagcxAlgoSequential (MkManager 7 ∅).
Definition exchange_counts : v_counts := MkVCounts [1; 1; 1; 1; 2; 1] [0; 1; 2; 3; 4; 6] [2; 1; 1; 1; 1; 1] [0; 2; 3; 4; 5; 6].

Lemma alltoallv_match_witness :
  let q r := on_rank (exchange_plan flagcxCommOpAlltoAllv) r (example_info r) in
  exists ops1 ops2,
    option_map st_heteroFuncSteps (find_hetero (q 0) None 0 exchange_counts (empty_strategy (q 0))) = Some [[ops1]] /\
    option_map st_heteroFuncSteps (find_hetero (q 4) None 0 exchange_counts (empty_strategy (q 4))) = Some [[ops2]] /\
    sends_in ops1 4 = [(4, 2)] /\ recvs_in ops2 0 = [(0, 2)].
Proof.
  apply (alltoallv_match (exchange_plan flagcxCommOpAlltoAllv) None 0 (fun _ => exchange_counts) 0 4 (example_info 0) (example_info 4) 2 4 0);
    first [reflexivity | by_deciding].
Defined.

(** ** One NIC per cluster: reductions *)

(** The rank of a place: the [h]-th of cluster [c]. *)
Definition place_offset (sizes : list Z) (c : nat) : Z := foldr Z.add 0 (take c sizes).

Section Places.
Variable p : flagcxC2cPlanner.
Let comm := pl_comm p.
Let L := pl_clusterInterRankList p.
Let sizes := cc_clusterSizes comm.

Definition rank_at (c : nat) (h : Z) : Z := place_offset sizes c + h.
Definition place_ok (c : nat) (h : Z) : Prop := exists size, sizes !! c = Some size /\ 0 <= h < size.

(** The planner of the rank at a place; [im] is its number among the
    inter-cluster ranks of its cluster. *)
Definition planner_at (im : nat -> Z -> Z) (c : nat) (h : Z) : flagcxC2cPlanner :=
  on_rank p (rank_at c h)
    (MkRankInfo (Z.of_nat c) h (im c h) (pl_rootClusterId p =? Z.of_nat c) (default 0 (sizes !! c)) (place_offset sizes c)).

(** The communicator numbers its ranks cluster by cluster, and every cluster
    has inter-cluster ranks of its own. *)
Record clusters_ok : Prop := {
  cl_nclusters : cc_nclusters comm = Z.of_nat (length sizes);
  cl_lists : length L = length sizes;
  cl_positive : Forall (fun n => 0 < n) sizes;
  cl_ids : forall c h, place_ok c h -> arr_get (cc_clusterIds comm) (rank_at c h) = Some (Z.of_nat c);
  cl_homo : forall c h, place_ok c h -> arr_get (cc_globalRank2HomoRank comm) (rank_at c h) = Some h;
  cl_inter : forall c ranks, L !! c = Some ranks -> exists r, head ranks = Some r /\ exists h, place_ok c h /\ r = rank_at c h
}.

Hypothesis Hok : clusters_ok.

(** The representative of a cluster: its first inter-cluster rank. *)
Definition rep (c : nat) : Z := default 0 (r ← first_rank L (Z.of_nat c); arr_get (cc_globalRank2HomoRank comm) r).
Lemma rep_spec c : (c < length sizes)%nat ->
  place_ok c (rep c) /\ first_rank L (Z.of_nat c) = Some (rank_at c (rep c)) /\
  arr_get (cc_globalRank2HomoRank comm) (rank_at c (rep c)) = Some (rep c).
Proof.
  intros Hc. destruct (lookup_lt_is_Some_2 L c) as [ranks Hr]; [rewrite (cl_lists Hok); lia|].
  destruct (cl_inter Hok c ranks Hr) as (r & Hh & h & Hp & ->).
  assert (Hf : first_rank L (Z.of_nat c) = Some (rank_at c h)) by (unfold first_rank; rewrite arr_get_nat, Hr; exact Hh).
  assert (Hrep : rep c = h) by (unfold rep; rewrite Hf; cbn [mbind option_bind]; by rewrite (cl_homo Hok)).
  rewrite Hrep. split_and!; [done..|by apply (cl_homo Hok)].
Qed.

Lemma place_offset_mono c1 c2 h1 : (c1 < c2)%nat -> place_ok c1 h1 -> (c2 <= length sizes)%nat ->
  place_offset sizes c1 + h1 < place_offset sizes c2.
Proof.
  intros Hlt (size & Hs & Hh) Hc2. unfold place_offset. fold sizes in Hs. pose proof (cl_positive Hok) as Hp. fold sizes in Hp.
  revert c1 c2 Hlt Hs Hc2 Hp. generalize sizes. intros l. induction l as [|x l IH]; intros c1 c2 Hlt Hs Hc2 Hp; [done|].
  inversion Hp as [|? ? Hx Hl]; subst. destruct c2 as [|c2]; [lia|]. cbn [take foldr] in *.
  assert (Hnn : forall k l, Forall (fun n => 0 < n) l -> 0 <= foldr Z.add 0 (take k l)).
  { clear. intros k l Hl. revert k. induction Hl; intros [|k]; cbn; try lia. specialize (IHHl k). lia. }
  destruct c1 as [|c1].
  - cbn in Hs. simplify_eq. specialize (Hnn c2 l Hl). cbn. lia.
  - cbn [take foldr lookup list_lookup] in *. cbn in Hc2. specialize (IH c1 c2 ltac:(lia) Hs ltac:(lia) Hl). lia.
Qed.

Lemma rank_at_inj c1 h1 c2 h2 : place_ok c1 h1 -> place_ok c2 h2 -> rank_at c1 h1 = rank_at c2 h2 -> c1 = c2 /\ h1 = h2.
Proof.
  intros P1 P2 He. unfold rank_at in He.
  assert (Hlen : forall c h, place_ok c h -> (c <= length sizes)%nat) by (intros c h (? & Hs & _); apply lookup_lt_Some in Hs; unfold sizes in *; lia).
  assert (Hge : forall c h, place_ok c h -> 0 <= h) by (intros c h (? & _ & ?); lia).
  destruct (lt_eq_lt_dec c1 c2) as [[Hlt| ->]|Hlt]; [|split; [done|lia]|].
  - pose proof (place_offset_mono c1 c2 h1 Hlt P1 (Hlen _ _ P2)). pose proof (Hge _ _ P2). lia.
  - pose proof (place_offset_mono c2 c1 h2 Hlt P2 (Hlen _ _ P1)). pose proof (Hge _ _ P1). lia.
Qed.
End Places.

Section SingleReduce.
Variable p : flagcxC2cPlanner.
Variable im : nat -> Z -> Z.
Let comm := pl_comm p.
Let L := pl_clusterInterRankList p.
Let sizes := cc_clusterSizes comm.
Hypothesis Hok : clusters_ok p.
(** What [findStrategy] checks of the destination clusters. *)
Hypothesis Hslots : Forall (fun n => Z.of_nat (length sizes) <= n) sizes.

(** The rank of cluster [b] that receives from cluster [a]; whether [b] wants
    the result. *)
Definition slot (a b : nat) : Z := flagcxC2cGetPeerHomoRank (rep p b) (Z.of_nat a) (Z.of_nat b) (default 0 (sizes !! b)).
Definition wanted (b : nat) : bool := negb (is_op p flagcxCommOpReduce) || (pl_rootClusterId p =? Z.of_nat b).

Lemma slot_spec a b : (a < length sizes)%nat -> (b < length sizes)%nat -> a <> b ->
  place_ok p b (slot a b) /\ slot a b <> rep p b /\
  (forall a', (a' < length sizes)%nat -> a' <> b -> slot a' b = slot a b -> a' = a).
Proof.
  intros Ha Hb Hne. destruct (rep_spec p Hok b Hb) as ((n & Hn & Hr) & _ & _). fold comm sizes in Hn.
  assert (Hsz : Z.of_nat (length sizes) <= n) by (rewrite Forall_lookup in Hslots; by eapply Hslots).
  unfold slot. rewrite Hn. cbn [default].
  destruct (peerHomoRank_slots (rep p b) (Z.of_nat a) (Z.of_nat a) (Z.of_nat b) n) as (_ & Hs & _); try lia.
  assert (Hord : forall c, (c < length sizes)%nat -> c <> b ->
            (if Z.of_nat c <? Z.of_nat b then Z.of_nat c else Z.of_nat c - 1) < n - 1)
    by (intros c Hc Hcb; destruct (Z.ltb_spec (Z.of_nat c) (Z.of_nat b)); lia).
  destruct (Hs (Hord a Ha Hne)) as [Hrange Hnr]. split; [by exists n|]. split; [exact Hnr|].
  intros a' Ha' Hne' He. destruct (peerHomoRank_slots (rep p b) (Z.of_nat a') (Z.of_nat a) (Z.of_nat b) n) as (_ & _ & Hi); try lia.
  specialize (Hi (Hord a' Ha' Hne') (Hord a Ha Hne) He). lia.
Qed.

(** What the rank at [(c, h)] exchanges with cluster [j]. *)
Definition reduce_chunk (c : nat) (h : Z) (j : nat) : list flagcxC2cP2pOp :=
  if decide (j = c) then [] else
  let q := planner_at p im c h in
  (if decide (h = slot j c /\ wanted c = true) then [recv_op q (rank_at p j (rep p j)) 0 (pl_totalCount p)] else []) ++
  (if decide (h = rep p c /\ wanted j = true) then [send_op q (rank_at p j (slot c j)) 0 (pl_totalCount p)] else []).

Lemma single_reduce_recv_eq c h j ops : place_ok p c h -> (j < length sizes)%nat -> j <> c ->
  single_reduce_recv (planner_at p im c h) j ops
  = Some (Some (ops ++ if decide (h = slot j c /\ wanted c = true)
                       then [recv_op (planner_at p im c h) (rank_at p j (rep p j)) 0 (pl_totalCount p)] else [])).
Proof.
  intros Hp Hj Hne. assert (Hc : (c < length sizes)%nat) by (destruct Hp as (? & Hs & _); by eapply lookup_lt_Some).
  unfold single_reduce_recv. change (pl_isRootCluster (planner_at p im c h)) with (pl_rootClusterId p =? Z.of_nat c).
  change (is_op (planner_at p im c h)) with (is_op p). rewrite orb_comm. fold (wanted c).
  destruct (wanted c) eqn:Hw; [|destruct (decide _) as [[_ ?]|]; [done|by rewrite app_nil_r]].
  destruct (rep_spec p Hok c Hc) as (_ & Hf & Hh). destruct (rep_spec p Hok j Hj) as (_ & Hfj & _).
  cbn [planner_at on_rank pl_clusterInterRankList pl_clusterId ri_clusterId pl_comm cc_globalRank2HomoRank cc_homoRanks ri_clusterCount cc_homoRank ri_homoRank].
  rewrite Hf. cbn [mbind option_bind]. rewrite Hh. cbn [mbind option_bind]. rewrite Hfj. cbn [mbind option_bind].
  destruct (slot_spec j c Hj Hc Hne) as ((n & Hn & Hsl) & _ & _). fold comm sizes. fold (slot j c).
  rewrite (proj2 (Z.ltb_ge (slot j c) 0)) by lia.
  destruct (Z.eqb_spec h (slot j c)); destruct (decide _); try done; try naive_solver; by rewrite app_nil_r.
Qed.

Lemma single_reduce_send_eq c h j ops : place_ok p c h -> (j < length sizes)%nat -> j <> c ->
  single_reduce_send (planner_at p im c h) j ops
  = Some (Some (ops ++ if decide (h = rep p c /\ wanted j = true)
                       then [send_op (planner_at p im c h) (rank_at p j (slot c j)) 0 (pl_totalCount p)] else [])).
Proof.
  intros Hp Hj Hne. assert (Hc : (c < length sizes)%nat) by (destruct Hp as (? & Hs & _); by eapply lookup_lt_Some).
  destruct (rep_spec p Hok c Hc) as (_ & Hf & Hh). destruct (rep_spec p Hok j Hj) as ((n & Hn & Hrj) & Hfj & Hhj).
  destruct (slot_spec c j Hc Hj ltac:(done)) as (Hslp & _ & _).
  assert (Hdest : slot c j - rep p j + rank_at p j (rep p j) = rank_at p j (slot c j)) by (unfold rank_at; lia).
  assert (Hid := cl_ids p Hok j _ Hslp). destruct Hslp as (n' & Hn' & Hsl).
  unfold single_reduce_send. change (pl_isRootCluster (planner_at p im c h)) with (pl_rootClusterId p =? Z.of_nat c).
  change (is_op (planner_at p im c h)) with (is_op p).
  cbn [planner_at on_rank pl_clusterInterRankList pl_clusterId ri_clusterId pl_comm cc_globalRank2HomoRank cc_clusterSizes cc_clusterIds cc_homoRank ri_homoRank pl_rootClusterId].
  rewrite Hf. cbn [mbind option_bind]. rewrite Hh. cbn [mbind option_bind]. rewrite Hfj. cbn [mbind option_bind].
  rewrite Hhj. cbn [mbind option_bind]. rewrite arr_get_nat, Hn. cbn [mbind option_bind].
  assert (Hslot : flagcxC2cGetPeerHomoRank (rep p j) (Z.of_nat c) (Z.of_nat j) n = slot c j) by (unfold slot; fold comm sizes in Hn; by rewrite Hn).
  rewrite Hslot, (proj2 (Z.ltb_ge (slot c j) 0)) by lia. rewrite Hdest, Hid. cbn [mbind option_bind].
  unfold wanted. destruct (is_op p flagcxCommOpReduce); cbn [negb orb andb].
  - destruct (Z.eqb_spec (pl_rootClusterId p) (Z.of_nat c)) as [Hrc|Hrc]; cbn [negb orb].
    + destruct (Z.eqb_spec (pl_rootClusterId p) (Z.of_nat j)); [lia|]. destruct (decide _) as [[_ ?]|]; [done|by rewrite app_nil_r].
    + rewrite (Z.eqb_sym (Z.of_nat j)). destruct (Z.eqb_spec h (rep p c)), (pl_rootClusterId p =? Z.of_nat j); cbn [mbind option_bind];
        destruct (decide _); try done; try naive_solver; by rewrite app_nil_r.
  - rewrite orb_true_r. destruct (Z.eqb_spec h (rep p c)); cbn [mbind option_bind];
      destruct (decide _); try done; try naive_solver; by rewrite app_nil_r.
Qed.

Lemma single_reduce_eq c h js ops : place_ok p c h -> (forall j, j ∈ js -> (j < length sizes)%nat) ->
  single_reduce (planner_at p im c h) js ops = Some (Some (ops ++ concat (reduce_chunk c h <$> js))).
Proof.
  intros Hp. revert ops. induction js as [|j js IH]; intros ops Hjs; cbn [single_reduce fmap list_fmap concat]; [by rewrite app_nil_r|].
  change (pl_clusterId (planner_at p im c h)) with (Z.of_nat c). unfold reduce_chunk at 1.
  destruct (Z.eqb_spec (Z.of_nat c) (Z.of_nat j)), (decide (j = c)); try lia.
  - rewrite IH by set_solver. done.
  - rewrite single_reduce_recv_eq by (done || set_solver). cbn [mbind option_bind].
    rewrite single_reduce_send_eq by (done || set_solver). cbn [mbind option_bind].
    rewrite IH by set_solver. by rewrite <-!app_assoc.
Qed.

(** The two ends. *)
Lemma reduce_sends c h b k : place_ok p c h -> place_ok p b k ->
  sends_in (concat (reduce_chunk c h <$> seq 0 (length L))) (rank_at p b k)
  = if decide (b <> c /\ h = rep p c /\ k = slot c b /\ wanted b = true) then [(0, pl_totalCount p mod U64_MOD)] else [].
Proof.
  intros Hp Hq. assert (Hlt : forall c h, place_ok p c h -> (c < length sizes)%nat) by (intros ? ? (? & Hs & _); by eapply lookup_lt_Some).
  assert (Hsend : forall j, (j < length sizes)%nat -> sends_in (reduce_chunk c h j) (rank_at p b k)
            = if decide (j = b /\ b <> c /\ h = rep p c /\ k = slot c b /\ wanted b = true) then [(0, pl_totalCount p mod U64_MOD)] else []).
  { intros j Hj. unfold reduce_chunk. destruct (decide (j = c)); [by destruct (decide _); [naive_solver|]|].
    destruct (slot_spec c j (Hlt _ _ Hp) Hj ltac:(done)) as (Hsl & _ & _).
    rewrite sends_in_app.
    assert (Hr : forall (P : Prop) (d : Decision P) q x y z r, sends_in (if d then [recv_op q x y z] else []) r = []).
    { intros P d q x y z r. destruct d; [|done]. unfold recv_op. rewrite sends_in_cons. by destruct (decide _) as [[? ?]|]. }
    rewrite Hr. cbn [app]. destruct (decide (h = rep p c /\ wanted j = true)) as [[Hh Hw]|Hno].
    - unfold send_op. rewrite sends_in_cons. cbn [op_isRecv op_peerRank op_offset op_count]. change (sends_in [] (rank_at p b k)) with (@nil (Z * Z)). rewrite app_nil_r.
      destruct (decide (_ /\ _)) as [[_ He]|Hne], (decide _) as [Hy|Hy']; try done.
      + destruct (rank_at_inj p Hok j _ b k Hsl Hq He) as [-> <-]. naive_solver.
      + destruct Hy as (-> & _ & _ & -> & _). naive_solver.
    - destruct (decide _) as [Hy|]; [|done]. destruct Hy as (-> & ? & ? & ? & ?). naive_solver. }
  unfold L. rewrite (cl_lists p Hok). fold comm sizes.
  rewrite (select_one (fun l => sends_in l (rank_at p b k)) (reduce_chunk c h) _ b);
    [|done|intros; apply sends_in_app|intros j Hj Hne; rewrite Hsend by done; by destruct (decide _); [naive_solver|]|by eapply Hlt].
  rewrite Hsend by (by eapply Hlt). repeat destruct (decide _); try done; naive_solver.
Qed.

Lemma reduce_recvs c h a k : place_ok p c h -> place_ok p a k ->
  recvs_in (concat (reduce_chunk c h <$> seq 0 (length L))) (rank_at p a k)
  = if decide (a <> c /\ h = slot a c /\ k = rep p a /\ wanted c = true) then [(0, pl_totalCount p mod U64_MOD)] else [].
Proof.
  intros Hp Hq. assert (Hlt : forall c h, place_ok p c h -> (c < length sizes)%nat) by (intros ? ? (? & Hs & _); by eapply lookup_lt_Some).
  assert (Hrecv : forall j, (j < length sizes)%nat -> recvs_in (reduce_chunk c h j) (rank_at p a k)
            = if decide (j = a /\ a <> c /\ h = slot a c /\ k = rep p a /\ wanted c = true) then [(0, pl_totalCount p mod U64_MOD)] else []).
  { intros j Hj. unfold reduce_chunk. destruct (decide (j = c)); [by destruct (decide _); [naive_solver|]|].
    destruct (rep_spec p Hok j Hj) as (Hrep & _ & _).
    rewrite recvs_in_app.
    assert (Hr : forall (P : Prop) (d : Decision P) q x y z r, recvs_in (if d then [send_op q x y z] else []) r = []).
    { intros P d q x y z r. destruct d; [|done]. unfold send_op. rewrite recvs_in_cons. by destruct (decide _) as [[? ?]|]. }
    rewrite Hr, app_nil_r. destruct (decide (h = slot j c /\ wanted c = true)) as [[Hh Hw]|Hno].
    - unfold recv_op. rewrite recvs_in_cons. cbn [op_isRecv op_peerRank op_offset op_count]. change (recvs_in [] (rank_at p a k)) with (@nil (Z * Z)). rewrite app_nil_r.
      destruct (decide (_ /\ _)) as [[_ He]|Hne], (decide _) as [Hy|Hy']; try done.
      + destruct (rank_at_inj p Hok j _ a k Hrep Hq He) as [-> <-]. naive_solver.
      + destruct Hy as (-> & _ & _ & -> & _). naive_solver.
    - destruct (decide _) as [Hy|]; [|done]. destruct Hy as (-> & ? & ? & ? & ?). naive_solver. }
  unfold L. rewrite (cl_lists p Hok). fold comm sizes.
  rewrite (select_one (fun l => recvs_in l (rank_at p a k)) (reduce_chunk c h) _ a);
    [|done|intros; apply recvs_in_app|intros j Hj Hne; rewrite Hrecv by done; by destruct (decide _); [naive_solver|]|by eapply Hlt].
  rewrite Hrecv by (by eapply Hlt). repeat destruct (decide _); try done; naive_solver.
Qed.

Lemma single_reduce_hetero c h : reducing p = true -> place_ok p c h ->
  single_hetero (planner_at p im c h) [[]] = Some (Some [[concat (reduce_chunk c h <$> seq 0 (length L))]]).
Proof.
  intros Hred Hp. unfold single_hetero. change (reducing (planner_at p im c h)) with (reducing p). rewrite Hred.
  change (pl_clusterInterRankList (planner_at p im c h)) with L. rewrite single_reduce_eq; [done|done|].
  intros j Hj. apply elem_of_seq in Hj. unfold L in Hj. rewrite (cl_lists p Hok) in Hj. fold comm sizes in Hj. lia.
Qed.
End SingleReduce.

(** the single-NIC reductions.  When every cluster has a rank per cluster,
    no rank refuses; the first inter-cluster rank of a cluster sends its whole
    partial result to one rank of each other cluster that wants it (for Reduce
    only the root's) and nothing else is sent; every receive has its send; and
    the receiving ranks of a cluster are distinct from each other and from the
    one that holds the cluster's own part. *)
Theorem single_reduce_match (p : flagcxC2cPlanner) (im : nat -> Z -> Z) (a b : nat) (ha hb : Z)
    (Hok : clusters_ok p)
    (Hslots : Forall (fun n => Z.of_nat (length (cc_clusterSizes (pl_comm p))) <= n) (cc_clusterSizes (pl_comm p)))
    (Htotal : is_u64 (pl_totalCount p)) (Hred : reducing p = true)
    (Ha : place_ok p a ha) (Hb : place_ok p b hb) (Hne : a <> b) :
  let part := if decide (wanted p b = true /\ ha = rep p a /\ hb = slot p a b) then [(0, pl_totalCount p)] else [] in
  (exists opsA opsB,
     single_hetero (planner_at p im a ha) [[]] = Some (Some [[opsA]]) /\
     single_hetero (planner_at p im b hb) [[]] = Some (Some [[opsB]]) /\
     sends_in opsA (rank_at p b hb) = part /\ recvs_in opsB (rank_at p a ha) = part) /\
  place_ok p b (slot p a b) /\ slot p a b <> rep p b /\
  (forall a' ha', place_ok p a' ha' -> a' <> b -> slot p a' b = slot p a b -> a' = a).
Proof.
  intros part. assert (Hlt : forall c h, place_ok p c h -> (c < length (cc_clusterSizes (pl_comm p)))%nat)
    by (intros ? ? (? & Hs & _); by eapply lookup_lt_Some).
  split.
  - do 2 eexists. rewrite !(single_reduce_hetero p im Hok Hslots) by done. split; [done|]. split; [done|].
    rewrite (reduce_sends p im Hok Hslots), (reduce_recvs p im Hok) by done. rewrite Z.mod_small by apply Htotal.
    unfold part. split; repeat destruct (decide _); try done; naive_solver.
  - destruct (slot_spec p Hok Hslots a b (Hlt _ _ Ha) (Hlt _ _ Hb) Hne) as (H1 & H2 & H3). split; [done|]. split; [done|].
    intros a' ha' Ha'. apply H3. by eapply Hlt.
Qed.

Lemma example_clusters_ok op : clusters_ok (exchange_plan op).
Proof.
  assert (Hplaces : forall c h, place_ok (exchange_plan op) c h -> ((c = 0 \/ c = 1)%nat /\ (h = 0 \/ h = 1 \/ h = 2))).
  { intros c h (n & Hn & Hh). cbn in Hn. destruct c as [|[|c]]; cbn in Hn; simplify_eq; lia. }
  split; [done|done|by repeat constructor| | |].
  - intros c h Hp. destruct (Hplaces c h Hp) as [[->| ->] [->|[->| ->]]]; reflexivity.
  - intros c h Hp. destruct (Hplaces c h Hp) as [[->| ->] [->|[->| ->]]]; reflexivity.
  - intros c ranks Hr. destruct c as [|[|c]]; cbn in Hr; simplify_eq.
    + exists 0. split; [done|]. exists 0. split; [|done]. by exists 3.
    + exists 3. split; [done|]. exists 0. split; [|done]. by exists 3.
Qed.

Lemma single_reduce_match_witness :
  let p := exchange_plan flagcxCommOpAllReduce in
  exists opsA opsB,
    single_hetero (planner_at p (fun _ h => h) 1 0) [[]] = Some (Some [[opsA]]) /\
    single_hetero (planner_at p (fun _ h => h) 0 2) [[]] = Some (Some [[opsB]]) /\
    sends_in opsA 2 = [(0, 7)] /\ recvs_in opsB 3 = [(0, 7)].
Proof.
  intros p. destruct (single_reduce_match p (fun _ h => h) 1 0 0 2) as ((opsA & opsB & H1 & H2 & H3 & H4) & _).
  - apply example_clusters_ok.
  - by_deciding.
  - by_deciding.
  - reflexivity.
  - by exists 3.
  - by exists 3.
  - done.
  - exists opsA, opsB. split; [exact H1|]. split; [exact H2|]. split; [exact H3|exact H4].
Defined.

(** ** One NIC per cluster: the pipelined AllGather *)

Lemma push_at_length {A : Type} (steps steps' : list (list A)) k x : push_at steps k x = Some steps' -> length steps' = length steps.
Proof. unfold push_at. destruct (arr_get steps k); [|done]. cbn [mbind option_bind]. intros [= <-]. by rewrite length_insert. Qed.
Lemma push_at_range {A : Type} (steps : list (list A)) k x : Z.of_nat (length steps) <= k -> push_at steps k x = None.
Proof.
  intros Hk. unfold push_at, arr_get. destruct (0 <=? k) eqn:?; [|done]. bool_to_prop.
  rewrite lookup_ge_None_2 by lia. done.
Qed.

Section PipelinedAllGather.
Variable p : flagcxC2cPlanner.
Hypothesis Halgo : algo_is p flagcxAlgoPipeline = true.
Hypothesis Hinter : pl_homoInterMyRank p <> -1.
Hypothesis Hid : 0 <= pl_clusterId p < cc_nclusters (pl_comm p).
Hypothesis Htwo : 2 <= cc_nclusters (pl_comm p).

(** The cluster this one sends to in step 0. *)
Definition next_cluster : Z := (pl_clusterId p + cc_nclusters (pl_comm p) - 1) mod cc_nclusters (pl_comm p).

Lemma next_cluster_step : step_of p (pl_clusterId p) next_cluster = 0 /\ next_cluster <> pl_clusterId p /\ 0 <= next_cluster.
Proof.
  unfold step_of, next_cluster. set (n := cc_nclusters (pl_comm p)) in *. set (c := pl_clusterId p) in *.
  assert (Hm : (c + n - 1) mod n = if c =? 0 then n - 1 else c - 1).
  { destruct (Z.eqb_spec c 0) as [->|]; [rewrite Z.mod_small by lia; lia|].
    replace (c + n - 1) with (c - 1 + 1 * n) by lia. rewrite Z.mod_add by lia. apply Z.mod_small. lia. }
  rewrite Hm. destruct (Z.eqb_spec c 0) as [->|].
  - replace (0 + n - 1 - (n - 1)) with 0 by lia. rewrite Z.rem_0_l by lia. lia.
  - replace (c + n - 1 - (c - 1)) with n by lia. rewrite Z.rem_same by lia. lia.
Qed.

Lemma single_allgather_step steps off j steps' off' :
  Z.of_nat (length steps) <= cc_nclusters (pl_comm p) - 1 -> single_allgather p (steps, off) j = Some (steps', off') ->
  Z.of_nat j <> next_cluster /\ length steps' = length steps.
Proof.
  destruct next_cluster_step as (Hs & Hne & H0). intros Hl He. unfold single_allgather in He.
  destruct (arr_get (cc_clusterSizes (pl_comm p)) (Z.of_nat j)) as [size|]; [|done]. cbn [mbind option_bind] in He.
  rewrite Halgo in He. destruct (decide (Z.of_nat j = next_cluster)) as [Hj|Hj]; (split; [|]); [exfalso|exfalso|done|].
  1,2: rewrite (proj2 (Z.eqb_neq (pl_clusterId p) (Z.of_nat j))), (proj2 (Z.eqb_neq (pl_homoInterMyRank p) (-1))) in He by lia; cbn [orb] in He;
    destruct (first_rank (pl_clusterInterRankList p) (Z.of_nat j)); [|done]; cbn [mbind option_bind] in He; rewrite Hj, Hs in He;
    destruct (push_at steps 0 _) as [s1|] eqn:Hp; [|done]; cbn [mbind option_bind] in He; apply push_at_length in Hp;
    rewrite push_at_range in He by lia; done.
  destruct (_ || _); cbn [mbind option_bind] in He; [by simplify_eq|].
  destruct (first_rank (pl_clusterInterRankList p) (Z.of_nat j)); [|done]. cbn [mbind option_bind] in He.
  destruct (push_at steps _ _) as [s1|] eqn:Hp; [|done]. cbn [mbind option_bind] in He. apply push_at_length in Hp.
  destruct (push_at s1 _ _) as [s2|] eqn:Hp2; [|done]. cbn [mbind option_bind] in He. apply push_at_length in Hp2.
  simplify_eq. lia.
Qed.

Lemma single_allgather_fails js steps off :
  Z.to_nat next_cluster ∈ js -> Z.of_nat (length steps) <= cc_nclusters (pl_comm p) - 1 -> mfold (single_allgather p) (steps, off) js = None.
Proof.
  destruct next_cluster_step as (_ & _ & H0).
  revert steps off. induction js as [|j js IH]; intros steps off Hin Hl; [by apply elem_of_nil in Hin|]. cbn [mfold].
  destruct (single_allgather p (steps, off) j) as [[steps' off']|] eqn:He; [|done]. cbn [mbind option_bind].
  destruct (single_allgather_step _ _ _ _ _ Hl He) as [Hj Hl']. apply IH; [|lia].
  apply elem_of_cons in Hin as [?|]; [lia|done].
Qed.
End PipelinedAllGather.

Lemma single_hetero_fails (p : flagcxC2cPlanner) hetero :
  pl_commOp p = flagcxCommOpAllGather -> pl_algorithm p = flagcxAlgoPipeline -> nsteps p = cc_nclusters (pl_comm p) - 1 ->
  pl_homoInterMyRank p <> -1 -> 0 <= pl_clusterId p < cc_nclusters (pl_comm p) -> 2 <= cc_nclusters (pl_comm p) ->
  Z.of_nat (length (pl_clusterInterRankList p)) = cc_nclusters (pl_comm p) -> single_hetero p hetero = None.
Proof.
  intros Hop Halgo Hn Hinter Hid Htwo Hlists.
  unfold single_hetero, reducing, is_op. rewrite Hop.
  change (op_is flagcxCommOpAllGather flagcxCommOpAllReduce || op_is flagcxCommOpAllGather flagcxCommOpReduceScatter
    || op_is flagcxCommOpAllGather flagcxCommOpReduce) with false.
  change (op_is flagcxCommOpAllGather flagcxCommOpAllGather) with true. cbn beta iota.
  rewrite single_allgather_fails; [done|by apply bool_decide_eq_true|done..| |].
  - apply elem_of_seq. pose proof (next_cluster_step p Hid Htwo) as (_ & _ & H0).
    assert (Hb : next_cluster p < cc_nclusters (pl_comm p)) by (apply Z.mod_pos_bound; lia). lia.
  - rewrite length_replicate. lia.
Qed.

Lemma planner_op before e sendCount recvCount rootRank comm op redOp p :
  mk_flagcxC2cPlanner before e sendCount recvCount rootRank comm op redOp = Some p -> pl_commOp p = op.
Proof.
  intros Hp. unfold mk_flagcxC2cPlanner in Hp.
  destruct (arr_get (cc_clusterIds comm) (cc_rank comm)) as [c|]; [|done]. cbn [mbind option_bind] in Hp.
  destruct (if rootRank =? -1 then _ else _); [|done]. cbn [mbind option_bind] in Hp.
  destruct (sum_sizes _ _ _ _); [|done]. cbn [mbind option_bind] in Hp.
  destruct (arr_get (cc_clusterSizes comm) c); [|done]. cbn [mbind option_bind] in Hp.
  destruct (all_inter _ _ _) as [each0|]; [|done]. cbn [mbind option_bind] in Hp.
  destruct (if each0 then _ else _) as [[each multi]|]; [|done]. cbn [mbind option_bind] in Hp.
  destruct (init_steps _ _ _ _ _ _) as [? [[[[? ?] ?] ?] ?]]. by injection Hp as <-.
Qed.

(** the pipelined AllGather of single-NIC clusters writes outside
    [heteroFuncStep] on every inter-cluster rank of every communicator of two
    or more clusters: the receive from the cluster that gets its data in step
    0 is put into step [nclusters - 1] of [nclusters - 1] steps. *)
Theorem pipelined_allgather_out_of_range (before sendCount recvCount rootRank : Z) (comm : flagcxComm) (redOp : flagcxRedOp_t)
    (p : flagcxC2cPlanner) (env : option string) (fuel : nat) (v : v_counts) (s : strategy)
    (Hp : mk_flagcxC2cPlanner before (Some "RING_PIPELINED"%string) sendCount recvCount rootRank comm flagcxCommOpAllGather redOp = Some p)
    (Hsingle : pl_multiNic p = false) (Hinter : cc_homoInterMyRank comm <> -1)
    (Hids : Forall (fun c => 0 <= c < cc_nclusters comm) (cc_clusterIds comm))
    (Hlists : Z.of_nat (length (cc_clusterInterRankList comm)) = cc_nclusters comm) (Htwo : 2 <= cc_nclusters comm) :
  findStrategy p env fuel v s = None.
Proof.
  assert (Hq : forall hetero, single_hetero (reset_nics p) hetero = None).
  { intros hetero. unfold mk_flagcxC2cPlanner in Hp.
    destruct (arr_get (cc_clusterIds comm) (cc_rank comm)) as [c|] eqn:Hc; [|done]. cbn [mbind option_bind] in Hp.
    assert (Hrange : 0 <= c < cc_nclusters comm).
    { unfold arr_get in Hc. destruct (0 <=? cc_rank comm); [|done]. rewrite Forall_lookup in Hids. by eapply Hids. }
    destruct (if rootRank =? -1 then _ else _); [|done]. cbn [mbind option_bind] in Hp.
    destruct (sum_sizes _ _ _ _); [|done]. cbn [mbind option_bind] in Hp.
    destruct (arr_get (cc_clusterSizes comm) c); [|done]. cbn [mbind option_bind] in Hp.
    destruct (all_inter _ _ _) as [each0|]; [|done]. cbn [mbind option_bind] in Hp.
    destruct (if each0 then _ else _) as [[each multi]|]; [|done]. cbn [mbind option_bind] in Hp.
    assert (Hsteps : exists n1 n2 n3 n4 n5, init_steps (Some "RING_PIPELINED"%string) flagcxCommOpAllGather each multi (z =? c) (cc_nclusters comm)
                       = (flagcxAlgoPipeline, (n1, n2, n3, n4, n5)) /\ n2 + n3 + n4 = cc_nclusters comm - 1).
    { destruct each, multi; do 5 eexists; split; try reflexivity; lia. }
    destruct Hsteps as (n1 & n2 & n3 & n4 & n5 & Hi & Hn). rewrite Hi in Hp. injection Hp as <-.
    apply single_hetero_fails; try done. }
  assert (Hnic : pl_multiNic (reset_nics p) = false).
  { assert (Hop : pl_commOp p = flagcxCommOpAllGather) by (by eapply planner_op).
    unfold reset_nics. cbn [pl_multiNic]. by rewrite Hop, Hsingle. }
  unfold findStrategy. destruct (find_nchunks p); [|done]. cbn [mbind option_bind].
  destruct (refresh p env 1 (st_manager s)) as [m|]; [|done]. cbn [mbind option_bind].
  destruct (find_refreshFunc p m); [|done]. cbn [mbind option_bind]. rewrite Hnic. unfold find_single.
  destruct (single_slots (reset_nics p)) as [[|]|] eqn:Hsl; [|exfalso|done]; cbn [mbind option_bind negb].
  - destruct (single_pre (reset_nics p) _ _); [|done]. cbn [mbind option_bind]. by rewrite Hq.
  - unfold single_slots, reducing, is_op in Hsl. change (pl_commOp (reset_nics p)) with (pl_commOp p) in Hsl.
    rewrite (planner_op _ _ _ _ _ _ _ _ _ Hp) in Hsl. done.
Qed.

Definition single_comm : flagcxComm :=
  MkComm 0 6 2 0 0 3 [3; 3] [0; 0; 0; 1; 1; 1] [0; 1; 2; 0; 1; 2] 0 0 1 [[0]; [3]].
Definition single_plan : flagcxC2cPlanner :=
  MkPlanner 1 0 0 1 1 12 2 12 (-1) single_comm flagcxCommOpAllGather flagcxRedNoOp [[0]; [3]] 0 0 0 12 (-1) false 3 0
    false false flagcxAlgoPipeline (MkManager 12 ∅).

Lemma pipelined_allgather_out_of_range_witness :
  findStrategy single_plan None 9 (MkVCounts [] [] [] []) (empty_strategy single_plan) = None.
Proof.
  apply (pipelined_allgather_out_of_range (-1) 2 12 (-1) single_comm flagcxRedNoOp single_plan); first [reflexivity | by_deciding].
Defined.

(** ** Three clusters *)

(** Three clusters of two ranks, each with a NIC; and what a rank exchanges
    over all its steps. *)
Definition three_comm (r : Z) : flagcxComm :=
  MkComm r 6 3 (r mod 2) 0 2 [2; 2; 2] [0; 0; 1; 1; 2; 2] [0; 1; 0; 1; 0; 1] 0 (r mod 2) 2 [[0; 1]; [2; 3]; [4; 5]].
Definition strategy_of (env : option string) (sendCount recvCount root : Z) (c : flagcxComm) (op : flagcxCommOp_t)
    : option (flagcxResult_t * strategy) :=
  p ← mk_flagcxC2cPlanner (-1) env sendCount recvCount root c op flagcxRedNoOp;
  '(r, _, _, _, s) ← findStrategy p None 9 (MkVCounts [] [] [] []) (empty_strategy p);
  Some (r, s).
Definition all_ops (s : strategy) : list flagcxC2cP2pOp := concat (concat (st_heteroFuncSteps s)).
Definition sent_to (r : Z) (x : option (flagcxResult_t * strategy)) : option (list (Z * Z)) := (fun rs => sends_in (all_ops rs.2) r) <$> x.
Definition received_from (r : Z) (x : option (flagcxResult_t * strategy)) : option (list (Z * Z)) :=
  (fun rs => recvs_in (all_ops rs.2) r) <$> x.

(** The sequential Scatter of three clusters, every rank with a NIC: the root
    cluster has one function per other cluster, but only the first is put into
    the only step.  Rank 4 waits for a slice from rank 0, which never sends it;
    with the pipeline both agree. *)
Lemma scatter_loses_cluster :
  sent_to 4 (strategy_of None 12 2 0 (three_comm 0) flagcxCommOpScatter) = Some [] /\
  received_from 0 (strategy_of None 12 2 0 (three_comm 4) flagcxCommOpScatter) = Some [(0, 2)] /\
  sent_to 4 (strategy_of (Some "RING_PIPELINED"%string) 12 2 0 (three_comm 0) flagcxCommOpScatter) = Some [(8, 2)] /\
  received_from 0 (strategy_of (Some "RING_PIPELINED"%string) 12 2 0 (three_comm 4) flagcxCommOpScatter) = Some [(0, 2)].
Proof. vm_compute. by split_and!. Qed.

(** And the sequential Gather: rank 4 sends, rank 0 does not receive. *)
Lemma gather_loses_cluster :
  sent_to 0 (strategy_of None 2 12 0 (three_comm 4) flagcxCommOpGather) = Some [(0, 2)] /\
  received_from 4 (strategy_of None 2 12 0 (three_comm 0) flagcxCommOpGather) = Some [] /\
  received_from 4 (strategy_of (Some "RING_PIPELINED"%string) 2 12 0 (three_comm 0) flagcxCommOpGather) = Some [(0, 2)].
Proof. vm_compute. by split_and!. Qed.

(** The sequential AllGather of three clusters, every rank with a NIC, puts
    broadcasts into steps that exist in the pipeline only. *)
Lemma sequential_allgather_out_of_range :
  strategy_of None 2 12 (-1) (three_comm 0) flagcxCommOpAllGather = None /\
  exists s, strategy_of (Some "RING_PIPELINED"%string) 2 12 (-1) (three_comm 0) flagcxCommOpAllGather = Some (flagcxSuccess, s).
Proof. split; [vm_compute; reflexivity|]. eexists. vm_compute. reflexivity. Qed.

(** Reduce to a cluster of three ranks, where another cluster has one rank
    only: the root cluster's size is checked, but a sending cluster also asks
    for a slot in the one-rank cluster, to which nothing is sent.  Its ranks
    refuse while the root's ranks go on to wait for it. *)
Definition small_comm (r : Z) : flagcxComm :=
  let c := if r <? 3 then 0 else if r =? 3 then 1 else 2 in
  MkComm r 7 3 (if r <? 3 then r else if r =? 3 then 0 else r - 4) 0 (if r =? 3 then 1 else 3) [3; 1; 3]
    [0; 0; 0; 1; 2; 2; 2] [0; 1; 2; 0; 0; 1; 2] 0 (if (r =? 0) || (r =? 3) || (r =? 4) then 0 else -1) 1 [[0]; [3]; [4]].
Lemma reduce_refused_by_sender :
  fst <$> strategy_of None 6 6 0 (small_comm 4) flagcxCommOpReduce = Some flagcxNotSupported /\
  fst <$> strategy_of None 6 6 0 (small_comm 1) flagcxCommOpReduce = Some flagcxSuccess /\
  received_from 4 (strategy_of None 6 6 0 (small_comm 1) flagcxCommOpReduce) = Some [(0, 6)].
Proof. vm_compute. by split_and!. Qed.

(** The pipelined AllReduce re-lays the reduced regions at rank
    [j + clusterOffset] where [j] counts the inter-cluster ranks: with the
    inter-cluster ranks 0 and 2 of three, the region rank 2 reduced goes to
    the list of rank 1 and is never gathered. *)
Definition restage_comm (inter : list (list Z)) (r : Z) : flagcxComm :=
  MkComm r 6 2 (r mod 3) 0 3 [3; 3] [0; 0; 0; 1; 1; 1] [0; 1; 2; 0; 1; 2] 0 0 2 inter.
Definition gather_step (c : flagcxComm) : option flagcxC2cHeteroFunc :=
  '(_, s) ← strategy_of (Some "RING_PIPELINED"%string) 12 12 (-1) c flagcxCommOpAllReduce;
  fs ← arr_get (st_heteroFuncSteps s) 1; head fs.
Lemma restage_wrong_rank :
  gather_step (restage_comm [[0; 2]; [3; 5]] 2) = Some [] /\
  gather_step (restage_comm [[0; 1]; [3; 4]] 1) = Some [MkP2pOp 1 4 3 3 false; MkP2pOp 1 4 9 3 true].
Proof. vm_compute. by split. Qed.
