(* ===== verification/C2cRunner.v ===== *)
(** Running a cluster-to-cluster plan ([flagcx/runner/c2c_algo.cc],
    [flagcx/runner/hybrid_runner.cc], [flagcx/runner/include/runner_result.h]):
    which calls into the device, the homogeneous library and the
    heterogeneous transport a plan makes, in which order, and how their
    results decide what happens next. *)
From S2P Require Import Prelude Flagcx Arrays C2cBuffers C2cPlanner C2cStrategy C2cFind.

(** ** Data types *)

Inductive flagcxDataType_t :=
| flagcxInt8 | flagcxUint8 | flagcxInt32 | flagcxUint32 | flagcxInt64 | flagcxUint64
| flagcxFloat16 | flagcxFloat32 | flagcxFloat64 | flagcxBfloat16.

Definition getFlagcxDataTypeSize (dtype : flagcxDataType_t) : Z :=
  match dtype with
  | flagcxInt8 => 1 | flagcxUint8 => 1 | flagcxInt32 => 4 | flagcxUint32 => 4 | flagcxInt64 => 8 | flagcxUint64 => 8
  | flagcxFloat16 => 2 | flagcxFloat32 => 4 | flagcxFloat64 => 8 | flagcxBfloat16 => 2
  end.

(** ** Results *)

Definition flagcxRunnerResultAccepted (result : flagcxResult_t) : bool :=
  bool_decide (result = flagcxSuccess) || bool_decide (result = flagcxInProgress).
Definition flagcxRunnerRecordFirstError (candidate firstError : flagcxResult_t) : flagcxResult_t :=
  if flagcxRunnerResultAccepted firstError && negb (flagcxRunnerResultAccepted candidate) then candidate else firstError.
(** The new [*completed], and the result; no pointer is [None]. *)
Definition flagcxRunnerClassifyEventQuery (queryResult : flagcxResult_t) (completed : option bool) : option bool * flagcxResult_t :=
  match completed with
  | None => (None, flagcxInvalidArgument)
  | Some _ =>
      if bool_decide (queryResult = flagcxSuccess) then (Some true, flagcxSuccess)
      else if bool_decide (queryResult = flagcxInProgress) then (Some false, flagcxSuccess)
      else (Some false, queryResult)
  end.

(** ** Calls

    What a plan runs on: the device adaptor, the library of the homogeneous
    cluster and the heterogeneous transport, each a call with its arguments.
    Addresses and streams are numbers, 0 the null pointer. *)
Inductive ccl_comm := homoComm | homoInterComm.

Inductive call :=
| CclGroupStart | CclGroupEnd | HeteroGroupStart | HeteroGroupEnd
| CclReduce (sendbuff recvbuff count : Z) (dt : flagcxDataType_t) (op : flagcxRedOp_t) (root : Z) (c : ccl_comm) (stream : Z)
| CclAllReduce (sendbuff recvbuff count : Z) (dt : flagcxDataType_t) (op : flagcxRedOp_t) (c : ccl_comm) (stream : Z)
| CclReduceScatter (sendbuff recvbuff count : Z) (dt : flagcxDataType_t) (op : flagcxRedOp_t) (c : ccl_comm) (stream : Z)
| CclAllGather (sendbuff recvbuff count : Z) (dt : flagcxDataType_t) (c : ccl_comm) (stream : Z)
| CclGather (sendbuff recvbuff count : Z) (dt : flagcxDataType_t) (root : Z) (c : ccl_comm) (stream : Z)
| CclScatter (sendbuff recvbuff count : Z) (dt : flagcxDataType_t) (root : Z) (c : ccl_comm) (stream : Z)
| CclBroadcast (sendbuff recvbuff count : Z) (dt : flagcxDataType_t) (root : Z) (c : ccl_comm) (stream : Z)
| CclAlltoAll (sendbuff recvbuff count : Z) (dt : flagcxDataType_t) (c : ccl_comm) (stream : Z)
| CclSend (buff count : Z) (dt : flagcxDataType_t) (peer : Z) (c : ccl_comm) (stream : Z)
| CclRecv (buff count : Z) (dt : flagcxDataType_t) (peer : Z) (c : ccl_comm) (stream : Z)
| HeteroSendOnChannel (buff count : Z) (dt : flagcxDataType_t) (peer stream channel : Z)
| HeteroRecvOnChannel (buff count : Z) (dt : flagcxDataType_t) (peer stream channel : Z)
| HeteroSend (buff count : Z) (dt : flagcxDataType_t) (peer stream : Z)
| HeteroRecv (buff count : Z) (dt : flagcxDataType_t) (peer stream : Z)
| DeviceMemset (ptr value size stream : Z)
| DeviceMemcpy (dst src size stream : Z)
| DeviceMalloc (size stream : Z)
| DeviceFree (ptr stream : Z)
| StreamCreate
| StreamDestroy (stream : Z)
| StreamSynchronize (stream : Z).

#[export] Instance flagcxDataType_eq_dec : EqDecision flagcxDataType_t.
Proof. solve_decision. Defined.
#[export] Instance ccl_comm_eq_dec : EqDecision ccl_comm.
Proof. solve_decision. Defined.
#[export] Instance call_eq_dec : EqDecision call.
Proof. solve_decision. Defined.

(** The channel of an edge of the heterogeneous graph
    ([flagcx/core/coll_proxy_transport.cc]): both ends compute the same. *)
Definition flagcxCollProxyChannelForEdge (srcRank dstRank phase : Z) : Z :=
  let value := (srcRank mod U32_MOD) *u64 11400714785074694791 in
  let value := Z.lxor value ((dstRank mod U32_MOD) *u64 14029467366897019727) in
  let value := Z.lxor value (phase *u64 1609587929392839161) in
  let value := Z.lxor value (Z.shiftr value 33) in
  1 + value mod 4.

(** A call that was made, its result, and what it wrote through its pointer
    argument (null before the call). *)
Record event := Event { ev_call : call; ev_result : flagcxResult_t; ev_out : Z }.

(** The other side answers a call as it likes, from everything before. *)
Definition environment : Type := list event -> call -> flagcxResult_t * Z.

(** A piece of the program: from the calls so far to the calls after it and
    its value; [None] is an access out of range. *)
Definition prog (A : Type) : Type := list event -> option (list event * A).
Definition done_ {A : Type} (x : A) : prog A := fun h => Some (h, x).
Definition next {A B : Type} (p : prog A) (k : A -> prog B) : prog B :=
  fun h => match p h with Some (h', x) => k x h' | None => None end.
Definition lift {A : Type} (x : option A) : prog A := fun h => match x with Some a => Some (h, a) | None => None end.

Declare Scope prog_scope.
Delimit Scope prog_scope with prog.
Notation "'let!' x := p 'in' q" := (next p (fun x => q)) (at level 200, x name, p at level 100, q at level 200, right associativity) : prog_scope.
Global Open Scope prog_scope.

Section Runner.
Variable ans : environment.

Definition perform_out (c : call) : prog (flagcxResult_t * Z) := fun h => Some (h ++ [Event c (ans h c).1 (ans h c).2], ans h c).
Definition perform (c : call) : prog flagcxResult_t := let! r := perform_out c in done_ r.1.

(** [FLAGCXCHECK(p); k], and [if (p != flagcxSuccess) return]. *)
Definition check (p k : prog flagcxResult_t) : prog flagcxResult_t :=
  let! r := p in if flagcx_failed r then done_ r else k.
Definition strictly (p k : prog flagcxResult_t) : prog flagcxResult_t :=
  let! r := p in if bool_decide (r = flagcxSuccess) then k else done_ r.

(** A loop that returns at the first result that is not accepted. *)
Fixpoint run_each {A : Type} (f : A -> prog flagcxResult_t) (l : list A) : prog flagcxResult_t :=
  match l with
  | [] => done_ flagcxSuccess
  | x :: l' => let! r := f x in if negb (flagcxRunnerResultAccepted r) then done_ r else run_each f l'
  end.

Definition flagcxRunnerRunGroup (start body end_ : prog flagcxResult_t) : prog flagcxResult_t :=
  let! startResult := start in
  if negb (flagcxRunnerResultAccepted startResult) then done_ startResult else
  let! bodyResult := body in
  let firstError := flagcxRunnerRecordFirstError bodyResult flagcxSuccess in
  let! endResult := end_ in
  done_ (flagcxRunnerRecordFirstError endResult firstError).
Definition ccl_group (body : prog flagcxResult_t) : prog flagcxResult_t :=
  flagcxRunnerRunGroup (perform CclGroupStart) body (perform CclGroupEnd).
Definition hetero_group (body : prog flagcxResult_t) : prog flagcxResult_t :=
  flagcxRunnerRunGroup (perform HeteroGroupStart) body (perform HeteroGroupEnd).

(** [static_cast<char *>(buff) + offset * getFlagcxDataTypeSize(datatype)]. *)
Definition at_offset (buff offset : Z) (dt : flagcxDataType_t) : Z := buff +u64 (offset *u64 getFlagcxDataTypeSize dt).

(** ** The functions of a plan *)

(** What every function of a plan runs with. *)
Record run_args := MkRunArgs {
  ra_comm : flagcxComm;
  ra_datatype : flagcxDataType_t;
  ra_sendbuff : Z;
  ra_recvbuff : Z;
  ra_scratchbuff : Z;
  ra_redOp : flagcxRedOp_t;
  ra_root : Z
}.

Definition p2p_run (o : flagcxC2cP2pOp) (buff : Z) (dt : flagcxDataType_t) (comm : flagcxComm) (stream : Z) : prog flagcxResult_t :=
  let ptr := at_offset buff (op_offset o) dt in
  if op_isRecv o
  then perform (HeteroRecvOnChannel ptr (op_count o) dt (op_peerRank o) stream
                  (flagcxCollProxyChannelForEdge (op_peerRank o) (cc_rank comm) 0))
  else perform (HeteroSendOnChannel ptr (op_count o) dt (op_peerRank o) stream
                  (flagcxCollProxyChannelForEdge (cc_rank comm) (op_peerRank o) 0)).

Definition hetero_run (f : flagcxC2cHeteroFunc) (sendbuff recvbuff : Z) (dt : flagcxDataType_t) (comm : flagcxComm) (stream : Z)
    : prog flagcxResult_t :=
  hetero_group (run_each (fun o => p2p_run o (if op_isRecv o then recvbuff else sendbuff) dt comm stream) f).

Section HomoFunc.
Variable f : flagcxC2cHomoFunc.
Variable a : run_args.
Variable stream : Z.
Let comm := ra_comm a.
Let dt := ra_datatype a.

Definition homo_sendbuff : Z :=
  if hf_sendType f =? 0 then ra_sendbuff a else if hf_sendType f =? 1 then ra_recvbuff a else ra_scratchbuff a.
Definition homo_recvbuff : Z := if hf_recvType f =? 1 then ra_recvbuff a else ra_scratchbuff a.
Definition homo_root : Z := if hf_rootRank f =? -1 then ra_root a else hf_rootRank f.
Definition homo_comm : ccl_comm := if hf_homoType f =? 1 then homoInterComm else homoComm.
Definition homo_send : Z := at_offset homo_sendbuff (hf_sendOffset f) dt.
Definition homo_recv : Z := at_offset homo_recvbuff (hf_recvOffset f) dt.

(** The regions a rank received from other clusters. *)
Definition received_regions (clusterId rank : Z) : list flagcxBufferInfo :=
  filter (fun it => bi_isRecv it = true) (getBufferInfoList (hf_manager f) clusterId rank).

Definition homo_run_send : prog flagcxResult_t :=
  if hf_homoType f =? 0 then
    if cc_homoRank comm =? homo_root then
      let! clusterId := lift (arr_get (cc_clusterIds comm) (cc_rank comm)) in
      let! ranks := lift (arr_get (cc_clusterInterRankList comm) clusterId) in
      run_each (fun ir => if negb (cc_homoInterMyRank comm =? Z.of_nat ir.1)
                          then let! peer := lift (arr_get (cc_globalRank2HomoRank comm) ir.2) in
                               perform (CclSend homo_send (hf_count f) dt peer homoComm stream)
                          else done_ flagcxSuccess)
        (imap pair ranks)
    else done_ flagcxSuccess
  else if hf_homoType f =? 1 then
    if 0 <? cc_homoInterMyRank comm then
      let! clusterId := lift (arr_get (cc_clusterIds comm) (cc_rank comm)) in
      run_each (fun it => perform (CclSend (at_offset homo_sendbuff (bi_offset it) dt) (bi_count it) dt 0 homoInterComm stream))
        (received_regions clusterId (cc_rank comm))
    else done_ flagcxSuccess
  else if hf_homoType f =? 2 then
    if (cc_homoInterMyRank comm =? 0) && negb (cc_homoRank comm =? homo_root)
    then perform (CclSend homo_send (hf_count f) dt homo_root homoComm stream)
    else done_ flagcxSuccess
  else done_ flagcxSuccess.

Definition homo_run_recv : prog flagcxResult_t :=
  if hf_homoType f =? 0 then
    if negb (cc_homoInterMyRank comm =? -1) && negb (cc_homoRank comm =? homo_root)
    then perform (CclRecv homo_recv (hf_count f) dt homo_root homoComm stream)
    else done_ flagcxSuccess
  else if hf_homoType f =? 1 then
    if cc_homoInterMyRank comm =? 0 then
      let! clusterId := lift (arr_get (cc_clusterIds comm) (cc_rank comm)) in
      let! ranks := lift (arr_get (cc_clusterInterRankList comm) clusterId) in
      run_each (fun ir => run_each (fun it => perform (CclRecv (at_offset homo_recvbuff (bi_offset it) dt) (bi_count it) dt
                                                         (Z.of_nat ir.1) homoInterComm stream))
                            (received_regions clusterId ir.2))
        (drop 1 (imap pair ranks))
    else done_ flagcxSuccess
  else if hf_homoType f =? 2 then
    if negb (cc_homoInterMyRank comm =? 0) && (cc_homoRank comm =? homo_root) then
      let! clusterId := lift (arr_get (cc_clusterIds comm) (cc_rank comm)) in
      let! peer := lift (r ← first_rank (cc_clusterInterRankList comm) clusterId; arr_get (cc_globalRank2HomoRank comm) r) in
      perform (CclRecv homo_recv (hf_count f) dt peer homoComm stream)
    else done_ flagcxSuccess
  else done_ flagcxSuccess.

(** One peer of AlltoAllv within the cluster. *)
Definition homo_run_peer (v : v_counts) (i : nat) : prog flagcxResult_t :=
  let! mine := lift (arr_get (cc_clusterIds comm) (cc_rank comm)) in
  let! theirs := lift (arr_get (cc_clusterIds comm) (Z.of_nat i)) in
  let! sc := lift (arr_get (vc_sendCounts v) (Z.of_nat i)) in
  let! sent := (if flagcxCCLAdaptorNeedSendrecv sc && (mine =? theirs) then
                  let! sd := lift (arr_get (vc_sDispls v) (Z.of_nat i)) in
                  let! peer := lift (arr_get (cc_globalRank2HomoRank comm) (Z.of_nat i)) in
                  perform (CclSend (at_offset homo_sendbuff sd dt) sc dt peer homoComm stream)
                else done_ flagcxSuccess) in
  if negb (flagcxRunnerResultAccepted sent) then done_ sent else
  let! rc := lift (arr_get (vc_recvCounts v) (Z.of_nat i)) in
  if flagcxCCLAdaptorNeedSendrecv rc && (mine =? theirs) then
    let! rd := lift (arr_get (vc_rDispls v) (Z.of_nat i)) in
    let! peer := lift (arr_get (cc_globalRank2HomoRank comm) (Z.of_nat i)) in
    perform (CclRecv (at_offset homo_recvbuff rd dt) rc dt peer homoComm stream)
  else done_ flagcxSuccess.

(** [counts] are the arrays of AlltoAllv, [None] when they were not passed. *)
Definition homo_run (counts : option v_counts) : prog flagcxResult_t :=
  if (hf_homoType f =? 1) && (cc_homoInterMyRank comm =? -1) then done_ flagcxSuccess else
  let redOp := ra_redOp a in
  match hf_commOp f with
  | flagcxCommOpReduce => perform (CclReduce homo_send homo_recv (hf_count f) dt redOp homo_root homo_comm stream)
  | flagcxCommOpAllReduce => perform (CclAllReduce homo_send homo_recv (hf_count f) dt redOp homo_comm stream)
  | flagcxCommOpReduceScatter => perform (CclReduceScatter homo_send homo_recv (hf_count f) dt redOp homo_comm stream)
  | flagcxCommOpAllGather => perform (CclAllGather homo_send homo_recv (hf_count f) dt homo_comm stream)
  | flagcxCommOpGather => perform (CclGather homo_send homo_recv (hf_count f) dt homo_root homo_comm stream)
  | flagcxCommOpScatter => perform (CclScatter homo_send homo_recv (hf_count f) dt homo_root homo_comm stream)
  | flagcxCommOpSend => ccl_group homo_run_send
  | flagcxCommOpRecv => ccl_group homo_run_recv
  | flagcxCommOpBroadcast => perform (CclBroadcast homo_send homo_recv (hf_count f) dt homo_root homo_comm stream)
  | flagcxCommOpAlltoAll => perform (CclAlltoAll homo_send homo_recv (hf_count f) dt homo_comm stream)
  | flagcxCommOpAlltoAllv =>
      ccl_group (let! v := lift counts in run_each (homo_run_peer v) (seq 0 (Z.to_nat (cc_nranks comm))))
  | flagcxCommNoOp => done_ flagcxSuccess
  end.
End HomoFunc.

Definition refresh_run (rf : flagcxC2cRefreshFunc) (recvbuff scratchbuff : Z) (dt : flagcxDataType_t) (stream : Z) : prog flagcxResult_t :=
  let buff := at_offset (if rf_bufftype rf =? 1 then recvbuff else scratchbuff) (rf_start rf) dt in
  if bool_decide (rf_redOp rf = flagcxSum) then
    check (perform (DeviceMemset buff 0 (rf_offset rf *u64 getFlagcxDataTypeSize dt) stream))
      (check (perform (DeviceMemset (at_offset buff (rf_offset rf +u64 rf_count rf) dt) 0
                         ((rf_totalCount rf -u64 rf_offset rf -u64 rf_count rf) *u64 getFlagcxDataTypeSize dt) stream))
         (done_ flagcxSuccess))
  else done_ flagcxSuccess.

(** ** A plan *)

(** The members of [flagcxC2cPlanner] that [execute] changes. *)
Record c2c_plan := MkPlan {
  cp_planner : flagcxC2cPlanner;
  cp_strategyFound : bool;
  cp_nchunks : Z;
  cp_refresh : flagcxC2cRefreshFunc;
  cp_strategy : strategy;
  cp_counts : option v_counts
}.

Section Execute.
Variable pl : c2c_plan.
Variable a : run_args.                (* with the scratch buffer *)
Variable stream hetStream : Z.
Let p := cp_planner pl.
Let s := cp_strategy pl.
Let dt := ra_datatype a.

Definition run_homo_at (steps : list (list flagcxC2cHomoFunc)) (stream : Z) (counts : option v_counts) (k : Z) : prog flagcxResult_t :=
  let! fs := lift (arr_get steps k) in run_each (fun f => homo_run f a stream counts) fs.
Definition run_refresh (rf : flagcxC2cRefreshFunc) : prog flagcxResult_t :=
  refresh_run rf (ra_recvbuff a) (ra_scratchbuff a) dt stream.

(** The buffers of the exchange between clusters. *)
Definition recvTmpBuff : Z := if ra_scratchbuff a =? 0 then ra_recvbuff a else ra_scratchbuff a.
Definition sendTmpBuff : Z :=
  let opis o := op_is (pl_commOp p) o in
  if opis flagcxCommOpAlltoAll || opis flagcxCommOpAlltoAllv || (opis flagcxCommOpScatter && (pl_rank p =? pl_rootRank p)) ||
     (opis flagcxCommOpGather && pl_eachNicPerRank p) || (opis flagcxCommOpAllGather && pl_eachNicPerRank p && pl_multiNic p)
  then ra_sendbuff a else recvTmpBuff.
Definition run_hetero (f : flagcxC2cHeteroFunc) (stream : Z) : prog flagcxResult_t :=
  hetero_run f sendTmpBuff recvTmpBuff dt (pl_comm p) stream.

(** The inter function that goes with the [i]-th hetero function of a step. *)
Definition run_inter (k : Z) (i : nat) (stream : Z) (before after : prog flagcxResult_t -> prog flagcxResult_t) : prog flagcxResult_t :=
  let! fs := lift (arr_get (st_homoInterFuncSteps s) k) in
  match fs !! i with
  | Some f => before (let! r := homo_run f a stream None in
                      if negb (flagcxRunnerResultAccepted r) then done_ r else after (done_ flagcxSuccess))
  | None => done_ flagcxSuccess
  end.

(** One hetero function of a pipelined step, with the steps that follow it. *)
Definition pipelined_func (k : Z) (refresh : prog flagcxResult_t -> prog flagcxResult_t) (ifn : nat * flagcxC2cHeteroFunc) : prog flagcxResult_t :=
  let! r := run_hetero ifn.2 hetStream in
  if negb (flagcxRunnerResultAccepted r) then done_ r
  else run_inter k ifn.1 hetStream (strictly (perform (StreamSynchronize hetStream))) refresh.

Definition sync_streams (k : prog flagcxResult_t) : prog flagcxResult_t :=
  check (perform (StreamSynchronize stream)) (check (perform (StreamSynchronize hetStream)) k).

Definition pre_pipe_step (rf : flagcxC2cRefreshFunc) (k : nat) : prog flagcxResult_t :=
  check (ccl_group (run_homo_at (st_preHomoFuncSteps s) stream (cp_counts pl) (pl_nSeqPreSteps p + Z.of_nat k)))
    (let! fs := lift (arr_get (st_heteroFuncSteps s) (Z.of_nat k)) in
     check (hetero_group (run_each (pipelined_func (Z.of_nat k) (strictly (run_refresh rf))) (imap pair fs)))
       (sync_streams (done_ flagcxSuccess))).

Definition pipelined_steps : bool := (0 <? pl_nPipePreSteps p) || (0 <? pl_nPipePostSteps p).
Definition refresh_before : bool :=
  algo_is p flagcxAlgoSequential || ((pl_nPipePreSteps p =? 0) && (pl_nPipePostSteps p =? 0)).

Definition inter_func (rf : flagcxC2cRefreshFunc) (k : Z) (ifn : nat * flagcxC2cHeteroFunc) : prog flagcxResult_t :=
  check (if refresh_before then run_refresh rf else done_ flagcxSuccess)
    (check (run_hetero ifn.2 stream)
       (run_inter k ifn.1 stream (check (perform (StreamSynchronize stream)))
          (check (if algo_is p flagcxAlgoPipeline && pipelined_steps then run_refresh rf else done_ flagcxSuccess)))).
Definition inter_step (rf : flagcxC2cRefreshFunc) (k : nat) : prog flagcxResult_t :=
  let step := pl_nPipePreSteps p + Z.of_nat k in
  let! fs := lift (arr_get (st_heteroFuncSteps s) step) in
  run_each (inter_func rf step) (imap pair fs).

Definition post_pipe_step (k : nat) : prog flagcxResult_t :=
  check (ccl_group (run_homo_at (st_postHomoFuncSteps s) stream None (Z.of_nat k)))
    (let step := pl_nPipePreSteps p + pl_nSeqInterSteps p + Z.of_nat k in
     let! fs := lift (arr_get (st_heteroFuncSteps s) step) in
     check (hetero_group (run_each (pipelined_func step id) (imap pair fs)))
       (sync_streams (done_ flagcxSuccess))).

Definition post_func (rf : flagcxC2cRefreshFunc) (f : flagcxC2cHomoFunc) : prog flagcxResult_t :=
  strictly (if refresh_before then run_refresh rf else done_ flagcxSuccess) (homo_run f a stream None).
Definition post_seq_step (rf : flagcxC2cRefreshFunc) (k : nat) : prog flagcxResult_t :=
  let! fs := lift (arr_get (st_postHomoFuncSteps s) (pl_nPipePostSteps p + Z.of_nat k)) in
  run_each (post_func rf) fs.

Definition count_to (n : Z) : list nat := seq 0 (Z.to_nat n).

Definition steps_before : prog flagcxResult_t :=
  check (ccl_group (run_each (fun k => run_homo_at (st_preHomoFuncSteps s) stream (cp_counts pl) (Z.of_nat k)) (count_to (pl_nSeqPreSteps p))))
    (check (perform (StreamSynchronize stream)) (done_ flagcxSuccess)).
Definition steps_after (rf : flagcxC2cRefreshFunc) : prog flagcxResult_t :=
  check (run_refresh rf)
    (check (perform (StreamSynchronize stream))
       (check (run_each (pre_pipe_step rf) (count_to (pl_nPipePreSteps p)))
          (check (run_each (inter_step rf) (count_to (pl_nSeqInterSteps p)))
             (check (perform (StreamSynchronize stream))
                (check (run_each post_pipe_step (count_to (pl_nPipePostSteps p)))
                   (check (ccl_group (run_each (post_seq_step rf) (count_to (pl_nSeqPostSteps p))))
                      (done_ flagcxSuccess))))))).

(** [refreshFunc_] once its buffer is known. *)
Definition settled_refresh : option flagcxC2cRefreshFunc :=
  let rf := cp_refresh pl in
  if rf_bufftype rf =? -1 then
    let opis o := op_is (pl_commOp p) o in
    start ← (if (opis flagcxCommOpReduceScatter || opis flagcxCommOpAllReduce) && algo_is p flagcxAlgoPipeline
             then per_rank p (pl_clusterOffset p *u64 pl_totalCount p) else Some (rf_start rf));
    Some (MkRefreshFunc (if ra_scratchbuff a =? 0 then 1 else 2) start (rf_offset rf) (rf_count rf) (rf_totalCount rf) (rf_redOp rf))
  else Some rf.

(** The steps, and [refreshFunc_] afterwards. *)
Definition exec_steps : prog (flagcxResult_t * flagcxC2cRefreshFunc) :=
  let! r := steps_before in
  if flagcx_failed r then done_ (r, cp_refresh pl) else
  let! rf := lift settled_refresh in
  let! r' := steps_after rf in
  done_ (r', rf).
End Execute.

(** ** [execute] *)

Definition flagcxC2cNeedsScatterRootScratchSeed (commOp : flagcxCommOp_t) (eachNicPerRank : bool) (rank rootRank homoInterMyRank : Z) : bool :=
  op_is commOp flagcxCommOpScatter && negb eachNicPerRank && (rank =? rootRank) && (homoInterMyRank =? 0).

Definition needs_scratch (p : flagcxC2cPlanner) : bool :=
  let opis o := op_is (pl_commOp p) o in
  let each := pl_eachNicPerRank p in
  opis flagcxCommOpReduceScatter || (opis flagcxCommOpScatter && (pl_isRootCluster p || negb each)) ||
  (opis flagcxCommOpGather && ((each && pl_isRootCluster p) || (negb each && negb (pl_rank p =? pl_rootRank p)))).

(** How far the body came: its result, the scratch buffer, the stream and
    [refreshFunc_]. *)
Record exec_state := MkExec { ex_result : flagcxResult_t; ex_scratch : Z; ex_hetStream : Z; ex_refresh : flagcxC2cRefreshFunc }.

Definition with_scratch (a : run_args) (scratch : Z) : run_args :=
  MkRunArgs (ra_comm a) (ra_datatype a) (ra_sendbuff a) (ra_recvbuff a) scratch (ra_redOp a) (ra_root a).

Definition exec_body (pl : c2c_plan) (a : run_args) (stream : Z) : prog exec_state :=
  let p := cp_planner pl in
  let bytes := pl_totalCount p *u64 getFlagcxDataTypeSize (ra_datatype a) in
  let! malloced := (if needs_scratch p then perform_out (DeviceMalloc bytes stream) else done_ (flagcxSuccess, 0)) in
  let scratch := malloced.2 in
  if flagcx_failed malloced.1 then done_ (MkExec malloced.1 scratch 0 (cp_refresh pl)) else
  let! seeded := (if flagcxC2cNeedsScatterRootScratchSeed (pl_commOp p) (pl_eachNicPerRank p) (pl_rank p) (pl_rootRank p) (pl_homoInterMyRank p)
                  then perform (DeviceMemcpy scratch (ra_sendbuff a) bytes stream) else done_ flagcxSuccess) in
  if flagcx_failed seeded then done_ (MkExec seeded scratch 0 (cp_refresh pl)) else
  let! created := perform_out StreamCreate in
  if flagcx_failed created.1 then done_ (MkExec created.1 scratch 0 (cp_refresh pl)) else
  let! r := exec_steps pl (with_scratch a scratch) stream created.2 in
  done_ (MkExec r.1 scratch created.2 r.2).

(** What follows the body, whatever its result. *)
Definition record_first (p : prog flagcxResult_t) (firstError : flagcxResult_t) : prog flagcxResult_t :=
  let! r := p in done_ (flagcxRunnerRecordFirstError r firstError).
Definition drain (stream : Z) (e : exec_state) : prog flagcxResult_t :=
  if bool_decide (ex_result e = flagcxSuccess) then done_ (ex_result e) else
  let! r := record_first (perform (StreamSynchronize stream)) (ex_result e) in
  if ex_hetStream e =? 0 then done_ r else record_first (perform (StreamSynchronize (ex_hetStream e))) r.
Definition release (stream : Z) (e : exec_state) (result : flagcxResult_t) : prog flagcxResult_t :=
  let! r := (if ex_scratch e =? 0 then done_ result else record_first (perform (DeviceFree (ex_scratch e) stream)) result) in
  if ex_hetStream e =? 0 then done_ r else record_first (perform (StreamDestroy (ex_hetStream e))) r.

(** A plan whose strategy was found: run it, then clean up. *)
Definition exec_plan (pl : c2c_plan) (a : run_args) (stream : Z) : prog (c2c_plan * flagcxResult_t) :=
  let! e := exec_body pl a stream in
  let! r := drain stream e in
  let! r' := release stream e r in
  done_ (MkPlan (cp_planner pl) (cp_strategyFound pl) (cp_nchunks pl) (ex_refresh e) (cp_strategy pl) (cp_counts pl), r').

(** A reduction needs a rank for every cluster. *)
Fixpoint cluster_counts_ok (nclusters : Z) (n : nat) (lists : list (list Z)) : option bool :=
  match n with
  | O => Some true
  | S n' =>
      match lists with
      | [] => None
      | ranks :: lists' =>
          let interRanks := as_int (Z.of_nat (length ranks)) in
          if (interRanks <? nclusters) && (2 <? nclusters) && (1 <? interRanks) then Some false
          else cluster_counts_ok nclusters n' lists'
      end
  end.

(** [counts] are the arrays, [None] when one is a null pointer. *)
Definition validate (p : flagcxC2cPlanner) (root : Z) (counts : option v_counts) : option flagcxResult_t :=
  let opis o := op_is (pl_commOp p) o in
  if negb (bool_decide (pl_redOp p ∈ [flagcxRedNoOp; flagcxSum; flagcxMax; flagcxMin])) then Some flagcxNotSupported else
  rooted ← (if root =? -1 then Some true else c ← arr_get (cc_clusterIds (pl_comm p)) root; Some (c =? pl_rootClusterId p));
  if negb (rooted : bool) then Some flagcxInvalidArgument else
  enough ← (if opis flagcxCommOpAllReduce || opis flagcxCommOpReduceScatter
            then cluster_counts_ok (cc_nclusters (pl_comm p)) (Z.to_nat (cc_nclusters (pl_comm p))) (pl_clusterInterRankList p)
            else Some true);
  if negb (enough : bool) then Some flagcxNotSupported else
  if opis flagcxCommOpAlltoAllv && bool_decide (counts = None) then Some flagcxInvalidArgument else
  Some flagcxSuccess.

(** The plan with a strategy: found before, imported ([imported] is what
    reading the XML file gave, when the environment asks for that), or found
    now.  [granularity] and [fuel] are those of [findStrategy]. *)
Definition obtain (imported : option (c2c_plan -> flagcxResult_t * c2c_plan)) (granularity : option string) (fuel : nat) (pl : c2c_plan)
    : option (flagcxResult_t * c2c_plan) :=
  match imported with
  | Some import => Some (import pl)
  | None =>
      if cp_strategyFound pl then Some (flagcxSuccess, pl) else
      '(r, q, nchunks, rf, s) ← findStrategy (cp_planner pl) granularity fuel (default (MkVCounts [] [] [] []) (cp_counts pl)) (cp_strategy pl);
      Some (r, MkPlan q (negb (flagcx_failed r)) nchunks rf s (cp_counts pl))
  end.

(** The arrays of AlltoAllv become members. *)
Definition set_counts (pl : c2c_plan) (counts : option v_counts) : c2c_plan :=
  if op_is (pl_commOp (cp_planner pl)) flagcxCommOpAlltoAllv
  then MkPlan (cp_planner pl) (cp_strategyFound pl) (cp_nchunks pl) (cp_refresh pl) (cp_strategy pl) counts else pl.

Definition execute (imported : option (c2c_plan -> flagcxResult_t * c2c_plan)) (granularity : option string) (fuel : nat) (pl : c2c_plan)
    (sendbuff recvbuff : Z) (dt : flagcxDataType_t) (root stream : Z) (counts : option v_counts) : prog (c2c_plan * flagcxResult_t) :=
  let p := cp_planner pl in
  let! valid := lift (validate p root counts) in
  if flagcx_failed valid then done_ (pl, valid) else
  let! found := lift (obtain imported granularity fuel (set_counts pl counts)) in
  if flagcx_failed found.1 then done_ (found.2, found.1) else
  let pl2 := found.2 in
  let! homoRoot := lift (if 0 <=? root then arr_get (cc_globalRank2HomoRank (pl_comm (cp_planner pl2))) root else Some (-1)) in
  exec_plan pl2 (MkRunArgs (pl_comm (cp_planner pl2)) dt sendbuff recvbuff 0 (pl_redOp (cp_planner pl2)) homoRoot) stream.

(** ** The hybrid runner *)

Record C2cPatternKey := MkKey { key_count : Z; key_rootClusterId : Z; key_commOp : flagcxCommOp_t; key_redOp : flagcxRedOp_t; key_comm : Z }.

(** The environment variables, the word before [clusterIds], the XML import. *)
Record c2c_settings := MkSettings {
  cs_before : Z; cs_algo : option string; cs_granularity : option string; cs_fuel : nat;
  cs_imported : option (c2c_plan -> flagcxResult_t * c2c_plan)
}.

(** A planner as its constructor leaves it. *)
Definition fresh_plan (p : flagcxC2cPlanner) : c2c_plan :=
  MkPlan p false (pl_nchunks p) (MkRefreshFunc (-1) 0 0 0 0 flagcxSum) (empty_strategy p) None.
End Runner.

#[export] Instance C2cPatternKey_eq_dec : EqDecision C2cPatternKey.
Proof. solve_decision. Defined.
Abbreviation plan_cache := (@flagcxLRUCache C2cPatternKey c2c_plan) (only parsing).

Section Hybrid.
Variable ans : environment.
Variable cfg : c2c_settings.
(** The communicator, and where it is. *)
Variable commAddr : Z.
Variable comm : flagcxComm.

Definition plan_for (cache : plan_cache) (key : C2cPatternKey) (sendCount recvCount root : Z) : option (plan_cache * c2c_plan) :=
  match lru_get cache key with
  | (Some pl, cache') => Some (cache', pl)
  | (None, cache') =>
      p ← mk_flagcxC2cPlanner (cs_before cfg) (cs_algo cfg) sendCount recvCount root comm (key_commOp key) (key_redOp key);
      cache'' ← lru_put cache' key (fresh_plan p);
      Some (cache'', fresh_plan p)
  end.

(** What every collective of [hybrid_runner.cc] does; the plan that [execute]
    changed is a copy. *)
Definition hybrid_run (cache : plan_cache) (key : C2cPatternKey) (sendCount recvCount root : Z)
    (sendbuff recvbuff : Z) (dt : flagcxDataType_t) (stream : Z) : prog (plan_cache * flagcxResult_t) :=
  let! cp := lift (plan_for cache key (sendCount mod U64_MOD) (recvCount mod U64_MOD) root) in
  let! r := execute ans (cs_imported cfg) (cs_granularity cfg) (cs_fuel cfg) cp.2 sendbuff recvbuff dt root stream None in
  done_ (cp.1, if flagcx_failed r.2 then r.2 else flagcxSuccess).

Section Collectives.
Variable cache : plan_cache.
Variable sendbuff recvbuff count : Z.
Variable dt : flagcxDataType_t.
Variable op : flagcxRedOp_t.
Variable root stream : Z.
Let n := cc_nranks comm.

(** A rooted collective whose plan depends on the root's cluster only. *)
Definition cluster_key (commOp : flagcxCommOp_t) (redOp : flagcxRedOp_t) : option C2cPatternKey :=
  c ← arr_get (cc_clusterIds comm) root; Some (MkKey count (c mod U64_MOD) commOp redOp commAddr).
Definition all_key (commOp : flagcxCommOp_t) (redOp : flagcxRedOp_t) : C2cPatternKey :=
  MkKey count (cc_nclusters comm mod U64_MOD) commOp redOp commAddr.

Definition hybridRunnerReduce : prog (plan_cache * flagcxResult_t) :=
  let! key := lift (cluster_key flagcxCommOpReduce op) in hybrid_run cache key count count root sendbuff recvbuff dt stream.
Definition hybridRunnerGather : prog (plan_cache * flagcxResult_t) :=
  hybrid_run cache (MkKey count (root mod U64_MOD) flagcxCommOpGather flagcxRedNoOp commAddr) count (count * n) root sendbuff recvbuff dt stream.
Definition hybridRunnerScatter : prog (plan_cache * flagcxResult_t) :=
  hybrid_run cache (MkKey count (root mod U64_MOD) flagcxCommOpScatter flagcxRedNoOp commAddr) (count * n) count root sendbuff recvbuff dt stream.
Definition hybridRunnerBroadcast : prog (plan_cache * flagcxResult_t) :=
  let! key := lift (cluster_key flagcxCommOpBroadcast flagcxRedNoOp) in hybrid_run cache key count count root sendbuff recvbuff dt stream.
Definition hybridRunnerAllReduce : prog (plan_cache * flagcxResult_t) :=
  hybrid_run cache (all_key flagcxCommOpAllReduce op) count count (-1) sendbuff recvbuff dt stream.
Definition hybridRunnerReduceScatter : prog (plan_cache * flagcxResult_t) :=
  hybrid_run cache (all_key flagcxCommOpReduceScatter op) (n * count) count (-1) sendbuff recvbuff dt stream.
Definition hybridRunnerAllGather : prog (plan_cache * flagcxResult_t) :=
  hybrid_run cache (all_key flagcxCommOpAllGather flagcxRedNoOp) count (count * n) (-1) sendbuff recvbuff dt stream.
Definition hybridRunnerAlltoAll : prog (plan_cache * flagcxResult_t) :=
  hybrid_run cache (MkKey count 1 flagcxCommOpAlltoAll flagcxRedNoOp commAddr) count count (-1) sendbuff recvbuff dt stream.
End Collectives.

(** AlltoAllv does not use the cache. *)
Definition hybridRunnerAlltoAllv (sendbuff recvbuff : Z) (counts : option v_counts) (dt : flagcxDataType_t) (stream : Z) : prog flagcxResult_t :=
  let! p := lift (mk_flagcxC2cPlanner (cs_before cfg) (cs_algo cfg) 1 1 (-1) comm flagcxCommOpAlltoAllv flagcxRedNoOp) in
  let! r := execute ans (cs_imported cfg) (cs_granularity cfg) (cs_fuel cfg) (fresh_plan p) sendbuff recvbuff dt (-1) stream counts in
  done_ (if flagcx_failed r.2 then r.2 else flagcxSuccess).

Definition hybridRunnerSend (sendbuff count : Z) (dt : flagcxDataType_t) (peer stream : Z) : prog flagcxResult_t :=
  let! mine := lift (arr_get (cc_clusterIds comm) (cc_rank comm)) in
  let! theirs := lift (arr_get (cc_clusterIds comm) peer) in
  check (if mine =? theirs
         then let! h := lift (arr_get (cc_globalRank2HomoRank comm) peer) in perform ans (CclSend sendbuff count dt h homoComm stream)
         else perform ans (HeteroSend sendbuff count dt peer stream))
    (done_ flagcxSuccess).
Definition hybridRunnerRecv (recvbuff count : Z) (dt : flagcxDataType_t) (peer stream : Z) : prog flagcxResult_t :=
  let! mine := lift (arr_get (cc_clusterIds comm) (cc_rank comm)) in
  let! theirs := lift (arr_get (cc_clusterIds comm) peer) in
  check (if mine =? theirs
         then let! h := lift (arr_get (cc_globalRank2HomoRank comm) peer) in perform ans (CclRecv recvbuff count dt h homoComm stream)
         else perform ans (HeteroRecv recvbuff count dt peer stream))
    (done_ flagcxSuccess).

Definition hybridRunnerGroupStart : prog flagcxResult_t :=
  strictly (perform ans HeteroGroupStart)
    (let! result := perform ans CclGroupStart in
     if bool_decide (result = flagcxSuccess) then done_ flagcxSuccess
     else let! closed := perform ans HeteroGroupEnd in done_ result).
Definition hybridRunnerGroupEnd : prog flagcxResult_t :=
  let! result := perform ans CclGroupEnd in
  let! r := perform ans HeteroGroupEnd in
  done_ (flagcxRunnerRecordFirstError r result).
End Hybrid.
