(* ===== verification/C2cExecute.v ===== *)
(** What running a plan guarantees, whatever the libraries below answer:
    groups are closed, the scratch buffer and the stream are released, the
    first error is the one returned, and, when nothing fails, exactly the
    point-to-point operations of the strategy are issued, in order. *)
From S2P Require Import Prelude Flagcx Arrays C2cBuffers C2cPlanner C2cStrategy C2cFind C2cRunner.

(** ** Traces *)

(** Group calls: which group a call opens or closes. *)
Inductive group_kind := CclGroup | HeteroGroup.
Definition opens (e : event) : option group_kind :=
  match ev_call e with CclGroupStart => Some CclGroup | HeteroGroupStart => Some HeteroGroup | _ => None end.
Definition closes (e : event) : option group_kind :=
  match ev_call e with CclGroupEnd => Some CclGroup | HeteroGroupEnd => Some HeteroGroup | _ => None end.

(** Every group that was opened is closed, innermost first; a group whose
    start was refused is not closed. *)
Inductive bracketed : list event -> Prop :=
| bracketed_nil : bracketed []
| bracketed_call e t : opens e = None -> closes e = None -> bracketed t -> bracketed (e :: t)
| bracketed_refused e t : flagcxRunnerResultAccepted (ev_result e) = false -> closes e = None -> bracketed t -> bracketed (e :: t)
| bracketed_group g s t1 e t2 :
    opens s = Some g -> flagcxRunnerResultAccepted (ev_result s) = true -> bracketed t1 -> closes e = Some g -> bracketed t2 ->
    bracketed (s :: t1 ++ e :: t2).

Lemma bracketed_app t1 t2 : bracketed t1 -> bracketed t2 -> bracketed (t1 ++ t2).
Proof.
  induction 1; intros Ht; cbn; [done|by constructor 2; auto|by constructor 3; auto|].
  rewrite <-app_assoc. cbn. eapply bracketed_group; eauto.
Qed.

Lemma bracketed_one e : opens e = None -> closes e = None -> bracketed [e].
Proof. intros Ho Hc. by apply bracketed_call, bracketed_nil. Qed.

(** The result of the first call that failed. *)
Definition first_failure (t : list event) : option flagcxResult_t := head (filter (fun r => flagcx_failed r = true) (ev_result <$> t)).
Definition reports (t : list event) (r : flagcxResult_t) : Prop :=
  match first_failure t with Some e => r = e | None => flagcx_failed r = false end.

Lemma accepted_failed r : flagcxRunnerResultAccepted r = negb (flagcx_failed r).
Proof. by destruct r. Qed.

Lemma first_failure_app t1 t2 :
  first_failure (t1 ++ t2) = match first_failure t1 with Some e => Some e | None => first_failure t2 end.
Proof. unfold first_failure. rewrite fmap_app, filter_app. by destruct (filter _ (ev_result <$> t1)). Qed.
Lemma first_failure_one c r out : first_failure [Event c r out] = if flagcx_failed r then Some r else None.
Proof. by destruct r. Qed.
Lemma first_failure_failed t e : first_failure t = Some e -> flagcx_failed e = true.
Proof.
  unfold first_failure. intros H. apply head_Some_elem_of in H. by apply list_elem_of_filter in H as [? _].
Qed.
Lemma reports_failed t r : reports t r -> flagcx_failed r = true -> first_failure t = Some r.
Proof. unfold reports. destruct (first_failure t); [by intros ->|by intros ->]. Qed.
Lemma reports_passed t r : reports t r -> flagcx_failed r = false -> first_failure t = None.
Proof. unfold reports. destruct (first_failure t) eqn:H; [|done]. intros ->. apply first_failure_failed in H. by rewrite H. Qed.

(** ** What a piece of the program does

    [emits p Q]: from every history [p] returns, and [Q] holds of the calls it
    added and its value. *)
Definition emits {A : Type} (p : prog A) (Q : list event -> A -> Prop) : Prop :=
  forall h, exists t x, p h = Some (h ++ t, x) /\ Q t x.

Lemma emits_done {A : Type} (x : A) (Q : list event -> A -> Prop) : Q [] x -> emits (done_ x) Q.
Proof. intros HQ h. exists [], x. by rewrite app_nil_r. Qed.
Lemma emits_lift {A : Type} (o : option A) x (Q : list event -> A -> Prop) : o = Some x -> Q [] x -> emits (lift o) Q.
Proof. intros -> HQ h. exists [], x. by rewrite app_nil_r. Qed.
Lemma emits_next {A B : Type} (p : prog A) (k : A -> prog B) Q1 (Q : list event -> B -> Prop) :
  emits p Q1 -> (forall t1 x, Q1 t1 x -> emits (k x) (fun t2 y => Q (t1 ++ t2) y)) -> emits (next p k) Q.
Proof.
  intros Hp Hk h. destruct (Hp h) as (t1 & x & Hx & H1). destruct (Hk t1 x H1 (h ++ t1)) as (t2 & y & Hy & H2).
  exists (t1 ++ t2), y. unfold next. rewrite Hx, Hy. by rewrite app_assoc.
Qed.
Lemma emits_weaken {A : Type} (p : prog A) (Q1 Q : list event -> A -> Prop) : emits p Q1 -> (forall t x, Q1 t x -> Q t x) -> emits p Q.
Proof. intros Hp HQ h. destruct (Hp h) as (t & x & Hx & H). exists t, x. auto. Qed.

(** Binding a lifted value. *)
Lemma emits_bind_lift {A B : Type} (o : option A) x (k : A -> prog B) (Q : list event -> B -> Prop) :
  o = Some x -> emits (k x) Q -> emits (next (lift o) k) Q.
Proof. intros -> Hk h. by apply Hk. Qed.

Section Logic.
Variable ans : environment.

Lemma emits_perform_out c (Q : list event -> flagcxResult_t * Z -> Prop) :
  (forall r out, Q [Event c r out] (r, out)) -> emits (perform_out ans c) Q.
Proof. intros HQ h. eexists _, _. split; [reflexivity|]. rewrite (surjective_pairing (ans h c)) at 3. apply HQ. Qed.
Lemma emits_perform c (Q : list event -> flagcxResult_t -> Prop) : (forall r out, Q [Event c r out] r) -> emits (perform ans c) Q.
Proof.
  intros HQ. eapply emits_next; [apply emits_perform_out with (Q := fun t x => exists r out, t = [Event c r out] /\ x = (r, out)); eauto|].
  intros t1 x (r & out & -> & ->). apply emits_done. apply HQ.
Qed.

(** The calls that allocate or release. *)
Definition resource_call (c : call) : bool :=
  match c with DeviceMalloc _ _ | DeviceFree _ _ | StreamCreate | StreamDestroy _ => true | _ => false end.

(** The point-to-point operation of a call: kind, peer, address, count and
    channel. *)
Definition p2p_of (c : call) : option (bool * Z * Z * Z * Z) :=
  match c with
  | HeteroSendOnChannel buff count dt peer stream channel => Some (false, peer, buff, count, channel)
  | HeteroRecvOnChannel buff count dt peer stream channel => Some (true, peer, buff, count, channel)
  | _ => None
  end.
Definition p2p_calls (t : list event) : list (bool * Z * Z * Z * Z) := omap (fun e => p2p_of (ev_call e)) t.

(** What every step of a plan does: it closes its groups, reports its first
    error, leaves the resources alone, and plays [X] if no call fails. *)
Record step_ok (X : list (bool * Z * Z * Z * Z)) (t : list event) (r : flagcxResult_t) : Prop := {
  so_bracketed : bracketed t;
  so_reports : reports t r;
  so_resources : Forall (fun e => resource_call (ev_call e) = false) t;
  so_plays : Forall (fun e => ev_result e = flagcxSuccess) t -> r = flagcxSuccess /\ p2p_calls t = X
}.
Definition step (p : prog flagcxResult_t) (X : list (bool * Z * Z * Z * Z)) : Prop := emits p (step_ok X).

Lemma step_ok_app X Y t1 r1 t2 r2 :
  step_ok X t1 r1 -> flagcx_failed r1 = false -> step_ok Y t2 r2 -> step_ok (X ++ Y) (t1 ++ t2) r2.
Proof.
  intros [B1 R1 N1 P1] Hr [B2 R2 N2 P2]. split.
  - by apply bracketed_app.
  - unfold reports. rewrite first_failure_app, (reports_passed _ _ R1 Hr). exact R2.
  - by apply Forall_app.
  - intros [H1 H2]%Forall_app. destruct (P1 H1) as [_ <-]. destruct (P2 H2) as [-> <-]. split; [done|]. unfold p2p_calls. by rewrite omap_app.
Qed.

(** A result that ends the step: a failure, or (never when every call
    succeeds) one that is not success. *)
Lemma step_ok_stop X Y t r : step_ok X t r -> r <> flagcxSuccess -> step_ok Y t r.
Proof. intros [B R N P] Hr. split; [done..|]. intros H. by destruct (P H). Qed.

Lemma step_done : step (done_ flagcxSuccess) [].
Proof. apply emits_done. split; [constructor|done|constructor|done]. Qed.

Lemma step_weaken p X Y : step p X -> X = Y -> step p Y.
Proof. by intros H <-. Qed.

Lemma step_perform c :
  (forall r out, opens (Event c r out) = None /\ closes (Event c r out) = None) -> resource_call c = false ->
  step (perform ans c) (option_list (p2p_of c)).
Proof.
  intros Hg Hr. apply emits_perform. intros r out. destruct (Hg r out) as [Ho Hc]. split.
  - by repeat constructor.
  - unfold reports. rewrite first_failure_one. by destruct (flagcx_failed r) eqn:Hf.
  - by repeat constructor.
  - intros H. inversion H; subst. split; [done|]. unfold p2p_calls. cbn. by destruct (p2p_of c).
Qed.

Lemma step_check p k X Y : step p X -> step k Y -> step (check p k) (X ++ Y).
Proof.
  intros Hp Hk. eapply emits_next; [exact Hp|]. intros t1 r H1. cbn. destruct (flagcx_failed r) eqn:Hf.
  - apply emits_done. rewrite app_nil_r. apply (step_ok_stop X); [done|]. by intros ->.
  - eapply emits_weaken; [exact Hk|]. intros t2 r2 H2. by eapply step_ok_app.
Qed.
Lemma step_strictly p k X Y : step p X -> step k Y -> step (strictly p k) (X ++ Y).
Proof.
  intros Hp Hk. eapply emits_next; [exact Hp|]. intros t1 r H1. cbn. case_bool_decide as Hs.
  - eapply emits_weaken; [exact Hk|]. intros t2 r2 H2. eapply step_ok_app; [done|by rewrite Hs|done].
  - apply emits_done. rewrite app_nil_r. by apply (step_ok_stop X).
Qed.
Lemma step_accepted p k X Y : step p X -> step k Y ->
  step (let! r := p in if negb (flagcxRunnerResultAccepted r) then done_ r else k) (X ++ Y).
Proof.
  intros Hp Hk. eapply emits_next; [exact Hp|]. intros t1 r H1. cbn. rewrite accepted_failed, negb_involutive. destruct (flagcx_failed r) eqn:Hf.
  - apply emits_done. rewrite app_nil_r. apply (step_ok_stop X); [done|]. by intros ->.
  - eapply emits_weaken; [exact Hk|]. intros t2 r2 H2. by eapply step_ok_app.
Qed.
Lemma step_each {A : Type} (f : A -> prog flagcxResult_t) (X : A -> list (bool * Z * Z * Z * Z)) l :
  (forall x, x ∈ l -> step (f x) (X x)) -> step (run_each f l) (concat (X <$> l)).
Proof.
  induction l as [|x l IH]; intros Hl; [apply step_done|]. cbn [run_each fmap list_fmap concat].
  apply step_accepted; [apply Hl; set_solver|]. apply IH. intros y Hy. apply Hl. set_solver.
Qed.
Lemma step_lift {A : Type} (o : option A) x (k : A -> prog flagcxResult_t) X : o = Some x -> step (k x) X -> step (next (lift o) k) X.
Proof. intros Ho Hk. by eapply emits_bind_lift. Qed.

Lemma record_first_failed r1 r2 :
  flagcxRunnerRecordFirstError r2 r1 = if flagcx_failed r1 then r1 else if flagcx_failed r2 then r2 else r1.
Proof. by destruct r1, r2. Qed.

(** A group: the start, the body and the end. *)
Lemma step_group g c1 c2 body X :
  (forall r out, opens (Event c1 r out) = Some g) -> (forall r out, closes (Event c1 r out) = None) ->
  (forall r out, closes (Event c2 r out) = Some g) ->
  resource_call c1 = false -> resource_call c2 = false -> p2p_of c1 = None -> p2p_of c2 = None ->
  step body X -> step (flagcxRunnerRunGroup (perform ans c1) body (perform ans c2)) X.
Proof.
  intros Ho Hc1 Hc2 R1 R2 P1 P2 Hb. unfold flagcxRunnerRunGroup.
  eapply emits_next; [apply emits_perform with (Q := fun t r => exists out, t = [Event c1 r out]); eauto|].
  intros ts rs (out1 & ->). rewrite accepted_failed, negb_involutive.
  destruct (flagcx_failed rs) eqn:Hs.
  - apply emits_done. cbn. split.
    + constructor 3; [cbn; rewrite accepted_failed; by rewrite Hs|apply Hc1|constructor].
    + unfold reports. by rewrite first_failure_one, Hs.
    + by repeat constructor.
    + intros H. inversion H as [|? ? He]; subst. cbn in He. by subst.
  - eapply emits_next; [exact Hb|]. intros t1 r1 [B1 E1 N1 Pl1].
    eapply emits_next; [apply emits_perform with (Q := fun t r => exists out, t = [Event c2 r out]); eauto|].
    intros te re (out2 & ->). apply emits_done. rewrite app_nil_r. split.
    + cbn. apply (bracketed_group g); [apply Ho|cbn; by rewrite accepted_failed, Hs|done|apply Hc2|constructor].
    + unfold reports. rewrite !first_failure_app, !first_failure_one, Hs, !record_first_failed. change (flagcx_failed flagcxSuccess) with false. cbn iota.
      destruct (flagcx_failed r1) eqn:Hr1; [by rewrite (reports_failed _ _ E1 Hr1), Hr1|].
      rewrite (reports_passed _ _ E1 Hr1). change (flagcx_failed flagcxSuccess) with false. by destruct (flagcx_failed re).
    + repeat apply Forall_app_2; [by repeat constructor|done|by repeat constructor].
    + intros H. apply Forall_app in H as [H1 H]. apply Forall_app in H as [H2 H3].
      destruct (Pl1 H2) as [-> <-]. inversion H3 as [|? ? He]; subst. cbn in He. subst. split; [done|].
      unfold p2p_calls. rewrite !omap_app. cbn. by rewrite P1, P2, app_nil_r.
Qed.
Lemma step_ccl_group body X : step body X -> step (ccl_group ans body) X.
Proof. intros H. by apply (step_group CclGroup). Qed.
Lemma step_hetero_group body X : step body X -> step (hetero_group ans body) X.
Proof. intros H. by apply (step_group HeteroGroup). Qed.
End Logic.

(** ** The functions of a plan *)

(** A communicator whose rank can look up its cluster and every rank. *)
Record comm_ok (comm : flagcxComm) : Prop := {
  co_cluster : exists c ranks, arr_get (cc_clusterIds comm) (cc_rank comm) = Some c /\
                 arr_get (cc_clusterInterRankList comm) c = Some ranks /\ ranks <> [] /\
                 Forall (fun r => is_Some (arr_get (cc_globalRank2HomoRank comm) r)) ranks;
  co_ranks : forall i, (i < Z.to_nat (cc_nranks comm))%nat ->
               is_Some (arr_get (cc_clusterIds comm) (Z.of_nat i)) /\ is_Some (arr_get (cc_globalRank2HomoRank comm) (Z.of_nat i))
}.

(** The arrays of AlltoAllv have an entry for every rank. *)
Definition arrays_ok (nranks : Z) (counts : option v_counts) : Prop :=
  exists v, counts = Some v /\
    Forall (fun l => length l = Z.to_nat nranks) [vc_sendCounts v; vc_sDispls v; vc_recvCounts v; vc_rDispls v].

(** What the point-to-point operations of a hetero function become. *)
Definition played (dt : flagcxDataType_t) (comm : flagcxComm) (sendbuff recvbuff : Z) (o : flagcxC2cP2pOp) : bool * Z * Z * Z * Z :=
  (op_isRecv o, op_peerRank o, at_offset (if op_isRecv o then recvbuff else sendbuff) (op_offset o) dt, op_count o,
   if op_isRecv o then flagcxCollProxyChannelForEdge (op_peerRank o) (cc_rank comm) 0
   else flagcxCollProxyChannelForEdge (cc_rank comm) (op_peerRank o) 0).

Lemma concat_nils {A B : Type} (l : list A) : concat ((fun _ => @nil B) <$> l) = [].
Proof. induction l; [done|]. exact IHl. Qed.
Lemma concat_singles {A B : Type} (f : A -> B) (l : list A) : concat ((fun x => [f x]) <$> l) = f <$> l.
Proof. induction l as [|x l IH]; [done|]. cbn. by rewrite IH. Qed.

Section Functions.
Variable ans : environment.

(** A call that is no group, resource or point-to-point call. *)
Lemma step_call c :
  (forall r out, opens (Event c r out) = None /\ closes (Event c r out) = None) -> resource_call c = false -> p2p_of c = None ->
  step (perform ans c) [].
Proof. intros Hg Hr Hp. eapply step_weaken; [by apply step_perform|]. by rewrite Hp. Qed.

Lemma step_each_nil {A : Type} (f : A -> prog flagcxResult_t) l : (forall x, x ∈ l -> step (f x) []) -> step (run_each f l) [].
Proof. intros Hl. eapply step_weaken; [by apply (step_each f (fun _ => []))|]. apply concat_nils. Qed.

Lemma step_check_nil p k Y : step p [] -> step k Y -> step (check p k) Y.
Proof. intros Hp Hk. exact (step_check p k [] Y Hp Hk). Qed.
Lemma step_strictly_nil p k Y : step p [] -> step k Y -> step (strictly p k) Y.
Proof. intros Hp Hk. exact (step_strictly p k [] Y Hp Hk). Qed.

Lemma hetero_run_step f sendbuff recvbuff dt comm stream :
  step (hetero_run ans f sendbuff recvbuff dt comm stream) (played dt comm sendbuff recvbuff <$> f).
Proof.
  apply step_hetero_group. eapply step_weaken.
  - apply (step_each _ (fun o => [played dt comm sendbuff recvbuff o])). intros o _. unfold p2p_run, played.
    destruct (op_isRecv o); (eapply step_weaken; [by apply step_perform|done]).
  - apply concat_singles.
Qed.

Lemma refresh_run_step rf recvbuff scratch dt stream : step (refresh_run ans rf recvbuff scratch dt stream) [].
Proof.
  unfold refresh_run. case_bool_decide; [|apply step_done].
  repeat (apply step_check_nil; [by apply step_call|]). apply step_done.
Qed.

Lemma homo_run_step f a stream counts :
  comm_ok (ra_comm a) -> (hf_commOp f = flagcxCommOpAlltoAllv -> arrays_ok (cc_nranks (ra_comm a)) counts) ->
  step (homo_run ans f a stream counts) [].
Proof.
  intros [(c & ranks & Hc & Hl & Hne & Hr) Hall] Hv. unfold homo_run. destruct (_ && _); [apply step_done|].
  destruct (hf_commOp f) eqn:Hop; try by apply step_call.
  - apply step_ccl_group. unfold homo_run_send. repeat case_test; try apply step_done; try by apply step_call.
    + eapply step_lift; [exact Hc|]. eapply step_lift; [exact Hl|]. apply step_each_nil. intros [i r] Hin. cbn.
      case_test; [|apply step_done]. rewrite Forall_forall in Hr. destruct (Hr r) as [peer Hp].
      { apply elem_of_lookup_imap in Hin as (j & y & [= -> ->] & Hy). by eapply list_elem_of_lookup_2. }
      eapply step_lift; [exact Hp|]. by apply step_call.
    + eapply step_lift; [exact Hc|]. apply step_each_nil. intros it _. by apply step_call.
  - apply step_ccl_group. unfold homo_run_recv. repeat case_test; try apply step_done; try by apply step_call.
    + eapply step_lift; [exact Hc|]. eapply step_lift; [exact Hl|]. apply step_each_nil. intros [i r] _.
      apply step_each_nil. intros it _. by apply step_call.
    + eapply step_lift; [exact Hc|]. destruct ranks as [|r ranks]; [done|]. rewrite Forall_cons in Hr. destruct Hr as [[peer Hp] _].
      eapply step_lift; [unfold first_rank; rewrite Hl; exact Hp|]. by apply step_call.
  - apply step_ccl_group. destruct (Hv eq_refl) as (v & -> & Hlen). eapply step_lift; [reflexivity|].
    apply step_each_nil. intros i Hi. apply elem_of_seq in Hi. destruct (Hall i ltac:(lia)) as [[ci Hci] [gi Hgi]].
    assert (Hget : forall l : list Z, length l = Z.to_nat (cc_nranks (ra_comm a)) -> exists x, arr_get l (Z.of_nat i) = Some x).
    { intros l Hll. rewrite arr_get_nat. apply lookup_lt_is_Some_2. lia. }
    rewrite !Forall_cons in Hlen. destruct Hlen as (L1 & L2 & L3 & L4 & _).
    destruct (Hget _ L1) as [? E1], (Hget _ L2) as [? E2], (Hget _ L3) as [? E3], (Hget _ L4) as [? E4].
    unfold homo_run_peer. repeat (eapply step_lift; [eassumption|]).
    apply (step_accepted _ _ [] []).
    + case_test; [|apply step_done]. repeat (eapply step_lift; [eassumption|]). by apply step_call.
    + eapply step_lift; [exact E3|]. case_test; [|apply step_done]. repeat (eapply step_lift; [eassumption|]). by apply step_call.
  - apply step_done.
Qed.
End Functions.

(** ** A plan *)

(** A plan has a list for every step, its planner and its arguments are about
    the same communicator, and AlltoAllv has its arrays. *)
Record plan_shape (pl : c2c_plan) : Prop := {
  ps_comm : comm_ok (pl_comm (cp_planner pl));
  ps_nranks : cc_nranks (pl_comm (cp_planner pl)) <> 0;
  ps_nonneg : 0 <= pl_nSeqPreSteps (cp_planner pl) /\ 0 <= pl_nPipePreSteps (cp_planner pl) /\ 0 <= pl_nSeqInterSteps (cp_planner pl) /\
              0 <= pl_nPipePostSteps (cp_planner pl) /\ 0 <= pl_nSeqPostSteps (cp_planner pl);
  ps_pre : length (st_preHomoFuncSteps (cp_strategy pl)) = Z.to_nat (pl_nSeqPreSteps (cp_planner pl) + pl_nPipePreSteps (cp_planner pl));
  ps_hetero : length (st_heteroFuncSteps (cp_strategy pl)) = Z.to_nat (nsteps (cp_planner pl));
  ps_inter : length (st_homoInterFuncSteps (cp_strategy pl)) = Z.to_nat (nsteps (cp_planner pl));
  ps_post : length (st_postHomoFuncSteps (cp_strategy pl)) = Z.to_nat (pl_nPipePostSteps (cp_planner pl) + pl_nSeqPostSteps (cp_planner pl));
  ps_counts : Forall (Forall (fun f => hf_commOp f = flagcxCommOpAlltoAllv -> arrays_ok (cc_nranks (pl_comm (cp_planner pl))) (cp_counts pl)))
                (st_preHomoFuncSteps (cp_strategy pl));
  ps_no_counts : Forall (Forall (fun f => hf_commOp f <> flagcxCommOpAlltoAllv))
                   (st_homoInterFuncSteps (cp_strategy pl) ++ st_postHomoFuncSteps (cp_strategy pl))
}.

Section Plan.
Variable ans : environment.
Variable pl : c2c_plan.
Variable a : run_args.
Variable stream hetStream : Z.
Hypothesis Hshape : plan_shape pl.
Hypothesis Hcomm : ra_comm a = pl_comm (cp_planner pl).
Let p := cp_planner pl.
Let s := cp_strategy pl.

(** What the hetero functions of a step play. *)
Definition plays_func (f : flagcxC2cHeteroFunc) : list (bool * Z * Z * Z * Z) :=
  played (ra_datatype a) (pl_comm p) (sendTmpBuff pl a) (recvTmpBuff a) <$> f.
Definition plays_step (k : nat) : list (bool * Z * Z * Z * Z) := concat (plays_func <$> default [] (st_heteroFuncSteps s !! k)).

Lemma run_hetero_step f st : step (run_hetero ans pl a f st) (plays_func f).
Proof. apply hetero_run_step. Qed.

Lemma run_homo_at_step steps st counts k :
  (Z.to_nat k < length steps)%nat -> 0 <= k ->
  Forall (Forall (fun f => hf_commOp f = flagcxCommOpAlltoAllv -> arrays_ok (cc_nranks (pl_comm p)) counts)) steps ->
  step (run_homo_at ans a steps st counts k) [].
Proof.
  intros Hk Hk0 Hf. destruct (lookup_lt_is_Some_2 steps (Z.to_nat k) Hk) as [fs Hfs].
  assert (Hg : arr_get steps k = Some fs) by (rewrite <-(Z2Nat.id k Hk0); by rewrite arr_get_nat).
  eapply step_lift; [exact Hg|]. apply step_each_nil. intros f Hin. apply homo_run_step.
  - rewrite Hcomm. apply (ps_comm _ Hshape).
  - rewrite Hcomm. rewrite Forall_lookup in Hf. specialize (Hf _ _ Hfs). rewrite Forall_forall in Hf. by apply Hf.
Qed.

Lemma run_refresh_step rf st : step (run_refresh ans a st rf) [].
Proof. apply refresh_run_step. Qed.

Lemma run_inter_step k i st before after :
  (Z.to_nat k < Z.to_nat (nsteps p))%nat -> 0 <= k ->
  (forall q, step q [] -> step (before q) []) -> (forall q, step q [] -> step (after q) []) ->
  step (run_inter ans pl a k i st before after) [].
Proof.
  intros Hk Hk0 Hbefore Hafter. unfold run_inter.
  destruct (lookup_lt_is_Some_2 (st_homoInterFuncSteps s) (Z.to_nat k)) as [fs Hfs]; [unfold s; rewrite (ps_inter _ Hshape); exact Hk|].
  assert (Hg : arr_get (st_homoInterFuncSteps s) k = Some fs) by (rewrite <-(Z2Nat.id k Hk0); by rewrite arr_get_nat).
  eapply step_lift; [exact Hg|]. destruct (fs !! i) as [f|] eqn:Hf; [|apply step_done].
  apply Hbefore. apply (step_accepted _ _ [] []); [|apply Hafter, step_done].
  apply homo_run_step; [rewrite Hcomm; apply (ps_comm _ Hshape)|]. intros Hop. exfalso.
  pose proof (ps_no_counts _ Hshape) as Hno. apply Forall_app in Hno as [Hno _]. rewrite Forall_lookup in Hno.
  specialize (Hno _ _ Hfs). rewrite Forall_lookup in Hno. by apply (Hno _ _ Hf).
Qed.

Lemma pipelined_func_step k refresh ifn :
  (Z.to_nat k < Z.to_nat (nsteps p))%nat -> 0 <= k -> (forall q, step q [] -> step (refresh q) []) ->
  step (pipelined_func ans pl a hetStream k refresh ifn) (plays_func ifn.2).
Proof.
  intros Hk Hk0 Hr. unfold pipelined_func. eapply step_weaken; [|apply app_nil_r]. apply step_accepted; [apply run_hetero_step|].
  apply run_inter_step; [done..| |done]. intros q Hq. apply step_strictly_nil; [by apply step_call|done].
Qed.

Lemma sync_streams_step k : step k [] -> step (sync_streams ans stream hetStream k) [].
Proof. intros Hk. unfold sync_streams. repeat (apply step_check_nil; [by apply step_call|]). done. Qed.

(** The hetero functions of a step, in a loop. *)
Lemma step_funcs k (g : nat * flagcxC2cHeteroFunc -> prog flagcxResult_t) (q : list flagcxC2cHeteroFunc -> prog flagcxResult_t) :
  (k < Z.to_nat (nsteps p))%nat -> (forall ifn, step (g ifn) (plays_func ifn.2)) ->
  (forall fs, step (run_each g (imap pair fs)) (plays_step k) -> step (q fs) (plays_step k)) ->
  step (let! fs := lift (arr_get (st_heteroFuncSteps s) (Z.of_nat k)) in q fs) (plays_step k).
Proof.
  intros Hk Hg Hq. destruct (lookup_lt_is_Some_2 (st_heteroFuncSteps s) k) as [fs Hfs]; [unfold s; by rewrite (ps_hetero _ Hshape)|].
  eapply step_lift; [rewrite arr_get_nat; exact Hfs|]. apply Hq. eapply step_weaken; [apply (step_each _ (fun ifn => plays_func ifn.2)); auto|].
  unfold plays_step. rewrite Hfs. cbn [default]. f_equal. rewrite fmap_imap.
  change (imap (fun (n : nat) => (fun ifn : nat * flagcxC2cHeteroFunc => plays_func ifn.2) ∘ pair n) fs) with (imap (fun _ => plays_func) fs).
  apply imap_const.
Qed.

Lemma shape_steps : Z.to_nat (nsteps p) = (Z.to_nat (pl_nPipePreSteps p) + (Z.to_nat (pl_nSeqInterSteps p) + Z.to_nat (pl_nPipePostSteps p)))%nat.
Proof. pose proof (ps_nonneg _ Hshape) as H. fold p in H. unfold nsteps. lia. Qed.

Lemma no_counts_post counts :
  Forall (Forall (fun f => hf_commOp f = flagcxCommOpAlltoAllv -> arrays_ok (cc_nranks (pl_comm p)) counts)) (st_postHomoFuncSteps s).
Proof.
  pose proof (ps_no_counts _ Hshape) as Hno. apply Forall_app in Hno as [_ Hno].
  eapply Forall_impl; [exact Hno|]. intros fs Hfs. eapply Forall_impl; [exact Hfs|]. intros f Hf Hop. by destruct Hf.
Qed.

Lemma pre_pipe_step_ok rf k : (k < Z.to_nat (pl_nPipePreSteps p))%nat -> step (pre_pipe_step ans pl a stream hetStream rf k) (plays_step k).
Proof.
  intros Hk. pose proof (ps_nonneg _ Hshape) as Hn. fold p in Hn. pose proof shape_steps as Hs. unfold pre_pipe_step. apply step_check_nil.
  - apply step_ccl_group. apply run_homo_at_step; [|fold p; lia|apply (ps_counts _ Hshape)].
    rewrite (ps_pre _ Hshape). fold p. lia.
  - apply (step_funcs k (pipelined_func ans pl a hetStream (Z.of_nat k) (strictly (run_refresh ans a stream rf)))
             (fun fs => check (hetero_group ans (run_each (pipelined_func ans pl a hetStream (Z.of_nat k) (strictly (run_refresh ans a stream rf))) (imap pair fs)))
                          (sync_streams ans stream hetStream (done_ flagcxSuccess)))); [lia| |].
    + intros ifn. apply pipelined_func_step; [lia|lia|]. intros q Hq. by apply step_strictly_nil; [apply run_refresh_step|].
    + intros fs Hfs. eapply step_weaken; [|apply app_nil_r]. apply step_check; [by apply step_hetero_group|]. apply sync_streams_step, step_done.
Qed.

Lemma inter_step_ok rf k : (k < Z.to_nat (pl_nSeqInterSteps p))%nat ->
  step (inter_step ans pl a stream rf k) (plays_step (Z.to_nat (pl_nPipePreSteps p) + k)).
Proof.
  intros Hk. pose proof (ps_nonneg _ Hshape) as Hn. fold p in Hn. pose proof shape_steps as Hs. unfold inter_step. fold p s.
  replace (pl_nPipePreSteps p + Z.of_nat k) with (Z.of_nat (Z.to_nat (pl_nPipePreSteps p) + k)) by lia.
  apply (step_funcs _ (inter_func ans pl a stream rf (Z.of_nat (Z.to_nat (pl_nPipePreSteps p) + k)))
           (fun fs => run_each (inter_func ans pl a stream rf (Z.of_nat (Z.to_nat (pl_nPipePreSteps p) + k))) (imap pair fs))); [lia| |done].
  intros ifn. unfold inter_func. apply step_check_nil; [case_test; [apply run_refresh_step|apply step_done]|].
  eapply step_weaken; [|apply app_nil_r]. apply step_check; [apply run_hetero_step|].
  apply run_inter_step; [lia|lia| |]; intros q Hq; apply step_check_nil; try done; [by apply step_call|].
  case_test; [apply run_refresh_step|apply step_done].
Qed.

Lemma post_pipe_step_ok k : (k < Z.to_nat (pl_nPipePostSteps p))%nat ->
  step (post_pipe_step ans pl a stream hetStream k) (plays_step (Z.to_nat (pl_nPipePreSteps p) + Z.to_nat (pl_nSeqInterSteps p) + k)).
Proof.
  intros Hk. pose proof (ps_nonneg _ Hshape) as Hn. fold p in Hn. pose proof shape_steps as Hs. unfold post_pipe_step. apply step_check_nil.
  - apply step_ccl_group. apply run_homo_at_step; [|lia|apply no_counts_post]. rewrite (ps_post _ Hshape). fold p. lia.
  - cbv zeta. fold p s. set (j := (Z.to_nat (pl_nPipePreSteps p) + Z.to_nat (pl_nSeqInterSteps p) + k)%nat).
    replace (pl_nPipePreSteps p + pl_nSeqInterSteps p + Z.of_nat k) with (Z.of_nat j) by (unfold j; lia).
    apply (step_funcs j (pipelined_func ans pl a hetStream (Z.of_nat j) id)
             (fun fs => check (hetero_group ans (run_each (pipelined_func ans pl a hetStream (Z.of_nat j) id) (imap pair fs)))
                          (sync_streams ans stream hetStream (done_ flagcxSuccess)))); [unfold j; lia| |].
    + intros ifn. apply pipelined_func_step; [unfold j; fold p in Hs; unfold j in *; lia|lia|done].
    + intros fs Hfs. eapply step_weaken; [|apply app_nil_r]. apply step_check; [by apply step_hetero_group|]. apply sync_streams_step, step_done.
Qed.

Lemma post_seq_step_ok rf k : (k < Z.to_nat (pl_nSeqPostSteps p))%nat -> step (post_seq_step ans pl a stream rf k) [].
Proof.
  intros Hk. pose proof (ps_nonneg _ Hshape) as Hn. fold p in Hn. unfold post_seq_step. fold p s.
  destruct (lookup_lt_is_Some_2 (st_postHomoFuncSteps s) (Z.to_nat (pl_nPipePostSteps p) + k)) as [fs Hfs]; [unfold s; rewrite (ps_post _ Hshape); fold p; lia|].
  eapply step_lift.
  { replace (pl_nPipePostSteps p + Z.of_nat k) with (Z.of_nat (Z.to_nat (pl_nPipePostSteps p) + k)) by lia. rewrite arr_get_nat. exact Hfs. }
  apply step_each_nil. intros f Hf. unfold post_func. apply step_strictly_nil; [case_test; [apply run_refresh_step|apply step_done]|].
  apply homo_run_step; [rewrite Hcomm; apply (ps_comm _ Hshape)|].
  pose proof (no_counts_post None) as Hno. rewrite Forall_lookup in Hno. specialize (Hno _ _ Hfs). rewrite Forall_forall in Hno.
  rewrite Hcomm. by apply Hno.
Qed.

(** All hetero functions, in the order of the steps. *)
Definition plays_all : list (bool * Z * Z * Z * Z) := concat (plays_func <$> concat (st_heteroFuncSteps s)).
Lemma plays_steps : concat (plays_step <$> seq 0 (length (st_heteroFuncSteps s))) = plays_all.
Proof.
  unfold plays_all, plays_step. generalize (st_heteroFuncSteps s). intros l. induction l as [|fs l IH]; [done|].
  cbn [length seq fmap list_fmap concat]. rewrite <-seq_shift, <-list_fmap_compose. cbn [lookup list_lookup default].
  rewrite fmap_app, concat_app. f_equal. rewrite <-IH. f_equal.
Qed.

Lemma count_to_step (g : nat -> prog flagcxResult_t) (off : nat) n :
  (forall k, (k < Z.to_nat n)%nat -> step (g k) (plays_step (off + k))) ->
  step (run_each g (count_to n)) (concat (plays_step <$> seq off (Z.to_nat n))).
Proof.
  intros Hg. eapply step_weaken; [apply (step_each g (fun k => plays_step (off + k)))|].
  - intros k Hk. apply elem_of_seq in Hk. apply Hg. lia.
  - f_equal. unfold count_to. rewrite <-(Nat.add_0_r off), <-fmap_add_seq, <-list_fmap_compose, Nat.add_0_r. done.
Qed.

Lemma steps_before_ok : step (steps_before ans pl a stream) [].
Proof.
  pose proof (ps_nonneg _ Hshape) as Hn. fold p in Hn. unfold steps_before. apply step_check_nil.
  - apply step_ccl_group, step_each_nil. intros k Hk. apply elem_of_seq in Hk. apply run_homo_at_step; [|lia|apply (ps_counts _ Hshape)].
    rewrite (ps_pre _ Hshape). fold p in Hk |- *. lia.
  - apply step_check_nil; [by apply step_call|apply step_done].
Qed.

Lemma steps_after_ok rf : step (steps_after ans pl a stream hetStream rf) plays_all.
Proof.
  unfold steps_after. apply step_check_nil; [apply run_refresh_step|]. apply step_check_nil; [by apply step_call|].
  rewrite <-plays_steps. unfold s. rewrite (ps_hetero _ Hshape). fold p. rewrite shape_steps, !seq_app, !fmap_app, !concat_app.
  apply step_check; [apply (count_to_step _ 0), pre_pipe_step_ok|]. apply step_check; [apply (count_to_step _ (0 + Z.to_nat (pl_nPipePreSteps p))), inter_step_ok|].
  apply step_check_nil; [by apply step_call|]. eapply step_weaken; [|apply app_nil_r].
  apply step_check; [apply (count_to_step _ (0 + Z.to_nat (pl_nPipePreSteps p) + Z.to_nat (pl_nSeqInterSteps p))), post_pipe_step_ok|].
  eapply step_weaken; [|apply app_nil_r]. apply step_check; [|apply step_done].
  apply step_ccl_group, step_each_nil. intros k Hk. apply elem_of_seq in Hk. apply post_seq_step_ok. fold p in Hk. lia.
Qed.

Lemma exec_steps_ok :
  emits (exec_steps ans pl a stream hetStream) (fun t x => step_ok plays_all t x.1).
Proof.
  eapply emits_next; [apply steps_before_ok|]. intros t1 r H1. cbn beta. destruct (flagcx_failed r) eqn:Hf.
  - apply emits_done. rewrite app_nil_r. cbn [fst]. apply (step_ok_stop []); [done|]. by intros ->.
  - assert (Hrf : exists rf, settled_refresh pl a = Some rf).
    { unfold settled_refresh, per_rank. pose proof (ps_nranks _ Hshape) as Hn. rewrite (proj2 (Z.eqb_neq _ _) Hn).
      destruct (_ =? -1); [|eauto]. destruct (_ && _); cbn [mbind option_bind]; eauto. }
    destruct Hrf as [rf Hrf]. eapply emits_bind_lift; [exact Hrf|].
    eapply emits_next; [apply steps_after_ok|]. intros t2 r2 H2. apply emits_done. rewrite app_nil_r. cbn [fst].
    by apply (step_ok_app [] _ t1 r).
Qed.
End Plan.

(** ** The whole of [execute] *)

(** The scratch buffers and streams that calls produced. *)
Definition scratches (t : list event) : list Z :=
  omap (fun e => match ev_call e with DeviceMalloc _ _ => if ev_out e =? 0 then None else Some (ev_out e) | _ => None end) t.
Definition streams (t : list event) : list Z :=
  omap (fun e => match ev_call e with
                 | StreamCreate => if flagcx_failed (ev_result e) || (ev_out e =? 0) then None else Some (ev_out e)
                 | _ => None end) t.
Definition is_release (c : call) : bool := match c with DeviceFree _ _ | StreamDestroy _ => true | _ => false end.

Lemma kept_one e : is_release (ev_call e) = false -> Forall (fun e => is_release (ev_call e) = false) [e].
Proof. intros He. by apply Forall_singleton. Qed.

(** What a run of a plan does. *)
Record run_ok (X : list (bool * Z * Z * Z * Z)) (stream : Z) (t : list event) (r : flagcxResult_t) : Prop := {
  ro_bracketed : bracketed t;
  ro_reports : reports t r;
  ro_releases : exists t1 t2, t = t1 ++ t2 /\ Forall (fun e => is_release (ev_call e) = false) t1 /\
                  ev_call <$> t2 = ((fun q => DeviceFree q stream) <$> scratches t1) ++ (StreamDestroy <$> streams t1);
  ro_plays : Forall (fun e => ev_result e = flagcxSuccess) t -> r = flagcxSuccess /\ p2p_calls t = X
}.

(** Calls outside groups whose results are recorded, or end the body. *)
Record body_ok (X : list (bool * Z * Z * Z * Z)) (t : list event) (e : exec_state) : Prop := {
  bo_bracketed : bracketed t;
  bo_reports : reports t (ex_result e);
  bo_kept : Forall (fun e => is_release (ev_call e) = false) t;
  bo_scratch : scratches t = if ex_scratch e =? 0 then [] else [ex_scratch e];
  bo_stream : streams t = if ex_hetStream e =? 0 then [] else [ex_hetStream e];
  bo_plays : Forall (fun e => ev_result e = flagcxSuccess) t -> ex_result e = flagcxSuccess /\ p2p_calls t = X
}.

Lemma quiet_resources t : Forall (fun e => resource_call (ev_call e) = false) t ->
  scratches t = [] /\ streams t = [] /\ Forall (fun e => is_release (ev_call e) = false) t.
Proof.
  induction 1 as [|[c r out] t Hc _ (IH1 & IH2 & IH3)]; [done|]. cbn in *.
  destruct c; try done; (split_and!; [exact IH1|exact IH2|by constructor]).
Qed.

(** Behind calls that returned success so far. *)
Lemma body_ok_app X t1 t2 e :
  bracketed t1 -> first_failure t1 = None -> Forall (fun e => is_release (ev_call e) = false) t1 -> p2p_calls t1 = [] ->
  scratches (t1 ++ t2) = (if ex_scratch e =? 0 then [] else [ex_scratch e]) ->
  streams (t1 ++ t2) = (if ex_hetStream e =? 0 then [] else [ex_hetStream e]) ->
  step_ok X t2 (ex_result e) -> body_ok X (t1 ++ t2) e.
Proof.
  intros Hb Hf Hk Hp Hs1 Hs2 [B R N P]. split; [by apply bracketed_app| | |done|done|].
  - unfold reports. by rewrite first_failure_app, Hf.
  - apply Forall_app. split; [done|]. by apply quiet_resources.
  - intros [_ Hs]%Forall_app. destruct (P Hs) as [-> <-]. split; [done|]. unfold p2p_calls in *. by rewrite omap_app, Hp.
Qed.

(** The body stops at a call that failed. *)
Lemma body_ok_failed X t1 c r out e :
  bracketed t1 -> first_failure t1 = None -> Forall (fun e => is_release (ev_call e) = false) t1 ->
  opens (Event c r out) = None -> closes (Event c r out) = None -> is_release c = false ->
  scratches (t1 ++ [Event c r out]) = (if ex_scratch e =? 0 then [] else [ex_scratch e]) ->
  streams (t1 ++ [Event c r out]) = (if ex_hetStream e =? 0 then [] else [ex_hetStream e]) ->
  flagcx_failed r = true -> ex_result e = r -> body_ok X (t1 ++ [Event c r out]) e.
Proof.
  intros Hb Hf Hk Ho Hc Hr Hs1 Hs2 Hfail He. split; [apply bracketed_app; [done|by repeat constructor]| | |done|done|].
  - unfold reports. rewrite first_failure_app, Hf, first_failure_one, Hfail. exact He.
  - apply Forall_app. split; [done|]. by repeat constructor.
  - intros [_ Hs]%Forall_app. inversion Hs as [|? ? He']; subst. cbn in He'. by rewrite He' in Hfail.
Qed.

Lemma scratches_app t1 t2 : scratches (t1 ++ t2) = scratches t1 ++ scratches t2.
Proof. apply omap_app. Qed.
Lemma streams_app t1 t2 : streams (t1 ++ t2) = streams t1 ++ streams t2.
Proof. apply omap_app. Qed.

Section Whole.
Variable ans : environment.
Variable pl : c2c_plan.
Variable a : run_args.
Variable stream : Z.
Hypothesis Hshape : plan_shape pl.
Hypothesis Hcomm : ra_comm a = pl_comm (cp_planner pl).
Let p := cp_planner pl.

(** What the plan plays with a given scratch buffer. *)
Definition plays_with (scratch : Z) : list (bool * Z * Z * Z * Z) := plays_all pl (with_scratch a scratch).

Lemma exec_body_ok : emits (exec_body ans pl a stream) (fun t e => body_ok (plays_with (ex_scratch e)) t e).
Proof.
  unfold exec_body. cbv zeta.
  eapply emits_next with (Q1 := fun t x => (t = [] /\ x = (flagcxSuccess, 0)) \/
      t = [Event (DeviceMalloc (pl_totalCount p *u64 getFlagcxDataTypeSize (ra_datatype a)) stream) x.1 x.2]).
  { destruct (needs_scratch _); [apply emits_perform_out; auto|apply emits_done; auto]. }
  intros t1 [r1 scratch] Ht1. cbn [fst snd]. destruct (flagcx_failed r1) eqn:Hr1.
  { apply emits_done. rewrite app_nil_r. destruct Ht1 as [[_ [= -> _]]| ->]; [done|].
    apply (body_ok_failed _ []); try done; try constructor; cbn; by destruct (scratch =? 0). }
  assert (Hq1 : bracketed t1 /\ first_failure t1 = None /\ Forall (fun e => is_release (ev_call e) = false) t1 /\ p2p_calls t1 = [] /\
                scratches t1 = (if scratch =? 0 then [] else [scratch]) /\ streams t1 = []).
  { destruct Ht1 as [[-> [= -> ->]]| ->]; [by split_and!; try constructor|]. cbn [fst snd]. rewrite first_failure_one, Hr1.
    split_and!; try done; try by repeat constructor. cbn. by destruct (scratch =? 0). }
  clear Ht1. destruct Hq1 as (B1 & F1 & K1 & P1 & S1 & T1).
  eapply emits_next with (Q1 := fun t x => (t = [] /\ x = flagcxSuccess) \/
      exists out, t = [Event (DeviceMemcpy scratch (ra_sendbuff a) (pl_totalCount p *u64 getFlagcxDataTypeSize (ra_datatype a)) stream) x out]).
  { destruct (flagcxC2cNeedsScatterRootScratchSeed _ _ _ _ _); [apply emits_perform; eauto|apply emits_done; auto]. }
  intros t2 r2 Ht2. destruct (flagcx_failed r2) eqn:Hr2.
  { apply emits_done. rewrite app_nil_r. destruct Ht2 as [[-> ->]|[out ->]]; [done|].
    apply body_ok_failed; try done; rewrite ?scratches_app, ?streams_app, ?S1, ?T1; cbn; by destruct (scratch =? 0). }
  assert (Hq2 : bracketed (t1 ++ t2) /\ first_failure (t1 ++ t2) = None /\ Forall (fun e => is_release (ev_call e) = false) (t1 ++ t2) /\
                p2p_calls (t1 ++ t2) = [] /\ scratches (t1 ++ t2) = (if scratch =? 0 then [] else [scratch]) /\ streams (t1 ++ t2) = []).
  { destruct Ht2 as [[-> ->]|[out ->]]; [by rewrite app_nil_r|]. unfold p2p_calls in *.
    rewrite first_failure_app, F1, first_failure_one, Hr2, omap_app, P1, scratches_app, streams_app, S1, T1.
    split_and!; try done; [apply bracketed_app; [done|by apply bracketed_one]|apply Forall_app; split; [done|by apply kept_one]|apply app_nil_r]. }
  clear B1 F1 K1 P1 S1 T1 Ht2. destruct Hq2 as (B2 & F2 & K2 & P2 & S2 & T2).
  eapply emits_next with (Q1 := fun t x => t = [Event StreamCreate x.1 x.2]); [by apply emits_perform_out|].
  intros t3 [r3 het] ->. cbn [fst snd]. destruct (flagcx_failed r3) eqn:Hr3.
  { apply emits_done. rewrite app_nil_r, app_assoc. apply body_ok_failed; try done.
    - rewrite scratches_app, S2. apply app_nil_r.
    - rewrite streams_app, T2. cbn. by rewrite Hr3. }
  eapply emits_next; [apply (exec_steps_ok ans pl (with_scratch a scratch) stream het Hshape Hcomm)|].
  intros t4 [r4 rf] H4. cbn [fst snd] in *. apply emits_done. rewrite app_nil_r.
  assert (Hassoc : t1 ++ t2 ++ [Event StreamCreate r3 het] ++ t4 = ((t1 ++ t2) ++ [Event StreamCreate r3 het]) ++ t4) by (by rewrite !app_assoc).
  rewrite Hassoc. clear Hassoc. destruct (quiet_resources t4 (so_resources _ _ _ H4)) as (S4 & T4 & _).
  apply body_ok_app.
  - apply bracketed_app; [done|by apply bracketed_one].
  - by rewrite first_failure_app, F2, first_failure_one, Hr3.
  - apply Forall_app. split; [done|by apply kept_one].
  - unfold p2p_calls in *. by rewrite omap_app, P2.
  - rewrite scratches_app, S4, app_nil_r, scratches_app, S2. apply app_nil_r.
  - rewrite streams_app, T4, app_nil_r, streams_app, T2. cbn. rewrite Hr3. cbn. by destruct (het =? 0).
  - exact H4.
Qed.

(** A call whose result is recorded. *)
Lemma reports_record t r c r' out :
  reports t r -> reports (t ++ [Event c r' out]) (flagcxRunnerRecordFirstError r' r).
Proof.
  intros Hr. rewrite record_first_failed. unfold reports. rewrite first_failure_app, first_failure_one.
  destruct (flagcx_failed r) eqn:Hf; [by rewrite (reports_failed _ _ Hr Hf)|]. rewrite (reports_passed _ _ Hr Hf).
  by destruct (flagcx_failed r') eqn:Hf'.
Qed.

(** Calls whose results are recorded one after the other. *)
Definition recorded (r0 : flagcxResult_t) (cs : list call) (t : list event) (r : flagcxResult_t) : Prop :=
  ev_call <$> t = cs /\ (forall t0, reports t0 r0 -> reports (t0 ++ t) r) /\ (Forall (fun e => ev_result e = flagcxSuccess) t -> r = r0).

Lemma recorded_none r0 : emits (done_ r0) (recorded r0 []).
Proof. apply emits_done. split; [done|]. split; [intros t0 H0; by rewrite app_nil_r|done]. Qed.
Lemma recorded_one c r0 : emits (record_first (perform ans c) r0) (recorded r0 [c]).
Proof.
  eapply emits_next; [apply emits_perform with (Q := fun t r => exists out, t = [Event c r out]); eauto|].
  intros t1 r (out & ->). apply emits_done. rewrite app_nil_r. split; [done|]. split; [intros t0 H0; by apply reports_record|].
  intros Hs. inversion Hs as [|? ? He]; subst. cbn in He. subst. by destruct r0.
Qed.
Lemma recorded_next q k r0 cs1 cs2 :
  emits q (recorded r0 cs1) -> (forall r, emits (k r) (recorded r cs2)) -> emits (next q k) (recorded r0 (cs1 ++ cs2)).
Proof.
  intros Hq Hk. eapply emits_next; [exact Hq|]. intros t1 r (C1 & R1 & S1). eapply emits_weaken; [apply Hk|].
  intros t2 r2 (C2 & R2 & S2). split; [by rewrite fmap_app, C1, C2|]. split.
  - intros t0 H0. rewrite app_assoc. auto.
  - intros [Hs1 Hs2]%Forall_app. rewrite S2, S1 by done. done.
Qed.

Lemma drain_ok e :
  emits (drain ans stream e)
    (recorded (ex_result e) (if bool_decide (ex_result e = flagcxSuccess) then []
                             else [StreamSynchronize stream] ++ (if ex_hetStream e =? 0 then [] else [StreamSynchronize (ex_hetStream e)]))).
Proof.
  unfold drain. case_bool_decide; [apply recorded_none|]. apply recorded_next; [apply recorded_one|]. intros r.
  destruct (_ =? 0); [apply recorded_none|apply recorded_one].
Qed.
Lemma release_ok e r0 :
  emits (release ans stream e r0)
    (recorded r0 ((if ex_scratch e =? 0 then [] else [DeviceFree (ex_scratch e) stream]) ++
                  (if ex_hetStream e =? 0 then [] else [StreamDestroy (ex_hetStream e)]))).
Proof.
  unfold release. apply recorded_next; [destruct (_ =? 0); [apply recorded_none|apply recorded_one]|]. intros r.
  destruct (_ =? 0); [apply recorded_none|apply recorded_one].
Qed.

(** Calls that are neither group calls nor point-to-point calls. *)
Definition plain (c : call) : bool :=
  match c with
  | DeviceFree _ _ | StreamDestroy _ | StreamSynchronize _ => true
  | _ => false
  end.
Lemma plain_trace t cs : ev_call <$> t = cs -> forallb plain cs = true -> bracketed t /\ p2p_calls t = [].
Proof.
  revert cs. induction t as [|[c r out] t IH]; intros cs <- Hp; [by split; [constructor|]|]. cbn in Hp.
  apply andb_true_iff in Hp as [Hc Hp]. destruct (IH _ eq_refl Hp) as [Hb Hn].
  split; [apply bracketed_call; [by destruct c..|done]|]. unfold p2p_calls in *. cbn. by destruct c.
Qed.
Lemma sync_trace t cs : ev_call <$> t = cs -> (forall c, c ∈ cs -> exists st, c = StreamSynchronize st) ->
  scratches t = [] /\ streams t = [] /\ Forall (fun e => is_release (ev_call e) = false) t.
Proof.
  intros <- Hc. apply quiet_resources, Forall_forall. intros e He.
  destruct (Hc (ev_call e)) as [st ->]; [by apply list_elem_of_fmap_2|done].
Qed.

Lemma exec_plan_ok :
  emits (exec_plan ans pl a stream) (fun t x => exists scratch, run_ok (plays_with scratch) stream t x.2 /\ scratch = default 0 (head (scratches t))).
Proof.
  eapply emits_next; [apply exec_body_ok|]. intros t1 e [B1 R1 K1 S1 T1 P1].
  eapply emits_next; [apply drain_ok|]. intros t2 r2 (C2 & R2 & F2).
  eapply emits_next; [apply release_ok|]. intros t3 r3 (C3 & R3 & F3).
  apply emits_done. cbn [snd]. rewrite app_nil_r. exists (ex_scratch e).
  destruct (sync_trace _ _ C2) as (S2 & T2 & K2).
  { intros c Hc. destruct (bool_decide (ex_result e = flagcxSuccess)), (ex_hetStream e =? 0); cbn in Hc;
      repeat (apply elem_of_cons in Hc as [->|Hc]; [eauto|]); by apply elem_of_nil in Hc. }
  destruct (plain_trace _ _ C2) as [B2 N2]; [destruct (bool_decide (ex_result e = flagcxSuccess)), (ex_hetStream e =? 0); reflexivity|].
  assert (P3 : forallb plain (ev_call <$> t3) = true) by (rewrite C3; destruct (ex_scratch e =? 0), (ex_hetStream e =? 0); reflexivity).
  destruct (plain_trace _ _ eq_refl P3) as [B3 N3].
  assert (S3 : scratches t3 = []).
  { unfold scratches. assert (Hcs : forall l, forallb plain (ev_call <$> l) = true ->
      omap (fun e => match ev_call e with DeviceMalloc _ _ => if ev_out e =? 0 then None else Some (ev_out e) | _ => None end) l = []).
    { induction l as [|[c r out] l IH]; [done|]. cbn. intros [Hc Hl]%andb_true_iff. rewrite IH by done. by destruct c. }
    by apply Hcs. }
  split.
  - split.
    + by repeat apply bracketed_app.
    + rewrite app_assoc. apply R3, R2, R1.
    + exists (t1 ++ t2), t3. split; [by rewrite app_assoc|]. split; [by apply Forall_app|].
      rewrite C3, scratches_app, streams_app, S1, T1, S2, T2, !app_nil_r. destruct (ex_scratch e =? 0), (ex_hetStream e =? 0); reflexivity.
    + intros H. apply Forall_app in H as [H1 H]. apply Forall_app in H as [H2 H3].
      destruct (P1 H1) as [He Hp]. rewrite F3, F2, He by done. split; [done|].
      unfold p2p_calls in *. rewrite !omap_app, Hp, N2, N3. by rewrite !app_nil_r.
  - rewrite !scratches_app, S1, S2, S3, !app_nil_r. destruct (Z.eqb_spec (ex_scratch e) 0) as [->|]; done.
Qed.
End Whole.

(** ** Theorems *)

(** A call of [execute] that is accepted and has a strategy: [pl2] is the plan
    that is run. *)
Record runnable (imported : option (c2c_plan -> flagcxResult_t * c2c_plan)) (granularity : option string) (fuel : nat)
    (pl : c2c_plan) (root : Z) (counts : option v_counts) (pl2 : c2c_plan) : Prop := {
  ru_valid : validate (cp_planner pl) root counts = Some flagcxSuccess;
  ru_found : obtain imported granularity fuel (set_counts pl counts) = Some (flagcxSuccess, pl2);
  ru_shape : plan_shape pl2;
  ru_root : root < 0 \/ is_Some (arr_get (cc_globalRank2HomoRank (pl_comm (cp_planner pl2))) root)
}.

Section Theorems.
Variable ans : environment.
Variable imported : option (c2c_plan -> flagcxResult_t * c2c_plan).
Variable granularity : option string.
Variable fuel : nat.
Variable pl pl2 : c2c_plan.
Variable sendbuff recvbuff : Z.
Variable dt : flagcxDataType_t.
Variable root stream : Z.
Variable counts : option v_counts.

(** The arguments of the functions, with a given scratch buffer. *)
Definition args_of (scratch : Z) : run_args :=
  MkRunArgs (pl_comm (cp_planner pl2)) dt sendbuff recvbuff scratch (pl_redOp (cp_planner pl2))
    (if 0 <=? root then default 0 (arr_get (cc_globalRank2HomoRank (pl_comm (cp_planner pl2))) root) else -1).

Lemma execute_ok (Hrun : runnable imported granularity fuel pl root counts pl2) :
  emits (execute ans imported granularity fuel pl sendbuff recvbuff dt root stream counts)
    (fun t x => run_ok (plays_all pl2 (args_of (default 0 (head (scratches t))))) stream t x.2).
Proof.
  destruct Hrun as [Hv Ho Hs Hroot]. unfold execute. eapply emits_bind_lift; [exact Hv|]. change (flagcx_failed flagcxSuccess) with false. cbn iota.
  eapply emits_bind_lift; [exact Ho|]. cbn [fst snd]. change (flagcx_failed flagcxSuccess) with false. cbn iota.
  assert (Hr : exists hr, (if 0 <=? root then arr_get (cc_globalRank2HomoRank (pl_comm (cp_planner pl2))) root else Some (-1)) = Some hr /\
                 hr = ra_root (args_of 0)).
  { unfold args_of. cbn [ra_root]. destruct (Z.leb_spec 0 root); [|eauto]. destruct Hroot as [|[hr Hr]]; [lia|]. exists hr. by rewrite Hr. }
  destruct Hr as (hr & Hhr & ->). eapply emits_bind_lift; [exact Hhr|].
  eapply emits_weaken; [by apply (exec_plan_ok ans pl2 (args_of 0) stream)|].
  intros t x (scratch & Hok & ->). exact Hok.
Qed.

(** [execute] returns, and closes every group it opened.  Whatever the
    libraries answer to each call, the run of a plan with a strategy comes to
    an end, and in its calls every accepted group start has its end, properly
    nested; a refused start has none. *)
Theorem execute_closes_groups (h : list event) (Hrun : runnable imported granularity fuel pl root counts pl2) :
  exists t pl' r,
    execute ans imported granularity fuel pl sendbuff recvbuff dt root stream counts h = Some (h ++ t, (pl', r)) /\ bracketed t.
Proof. destruct (execute_ok Hrun h) as (t & [pl' r] & He & Hok). exists t, pl', r. split; [exact He|apply Hok]. Qed.

(** C31: [execute] releases what it took, and only that.  Every scratch buffer
    an allocation gave and every stream that was created is released exactly
    once, on success and on every error, and no call comes after the
    releases. *)
Theorem execute_releases (h : list event) (Hrun : runnable imported granularity fuel pl root counts pl2) :
  exists t1 t2 pl' r,
    execute ans imported granularity fuel pl sendbuff recvbuff dt root stream counts h = Some (h ++ t1 ++ t2, (pl', r)) /\
    Forall (fun e => is_release (ev_call e) = false) t1 /\
    ev_call <$> t2 = ((fun q => DeviceFree q stream) <$> scratches t1) ++ (StreamDestroy <$> streams t1).
Proof.
  destruct (execute_ok Hrun h) as (t & [pl' r] & He & Hok). destruct (ro_releases _ _ _ _ Hok) as (t1 & t2 & -> & Hk & Hr).
  by exists t1, t2, pl', r.
Qed.

(** C29: [execute] returns the first error.  If a call fails, its result is
    what [execute] returns, whatever fails after it, in the rest of the group
    or while cleaning up; if no call fails, [execute] does not. *)
Theorem execute_first_error (h : list event) (Hrun : runnable imported granularity fuel pl root counts pl2) :
  exists t pl' r,
    execute ans imported granularity fuel pl sendbuff recvbuff dt root stream counts h = Some (h ++ t, (pl', r)) /\
    match first_failure t with Some e => r = e | None => flagcx_failed r = false end.
Proof. destruct (execute_ok Hrun h) as (t & [pl' r] & He & Hok). exists t, pl', r. split; [exact He|apply Hok]. Qed.

(** C26: [execute] plays the strategy.  When every call succeeds it returns
    success, and the point-to-point operations it issued are those of the
    strategy's hetero functions, each once, step by step and in order, at
    their offsets in the planner's send and receive buffers and on the channel
    of their edge. *)
Theorem execute_plays (h : list event) (Hrun : runnable imported granularity fuel pl root counts pl2) :
  exists t pl' r,
    execute ans imported granularity fuel pl sendbuff recvbuff dt root stream counts h = Some (h ++ t, (pl', r)) /\
    (Forall (fun e => ev_result e = flagcxSuccess) t ->
     r = flagcxSuccess /\
     let a := args_of (default 0 (head (scratches t))) in
     p2p_calls t = played dt (pl_comm (cp_planner pl2)) (sendTmpBuff pl2 a) (recvTmpBuff a)
                     <$> concat (concat (st_heteroFuncSteps (cp_strategy pl2)))).
Proof.
  destruct (execute_ok Hrun h) as (t & [pl' r] & He & Hok). exists t, pl', r. split; [exact He|]. intros Hs.
  destruct (ro_plays _ _ _ _ Hok Hs) as [Hr Hp]. split; [exact Hr|]. rewrite Hp. unfold plays_all, plays_func.
  symmetry. apply concat_map.
Qed.
End Theorems.

(** ** Examples *)

(** The example's AllReduce, with its strategy; a library where everything
    succeeds, and one where the [n]-th call fails. *)
Definition example_run : c2c_plan := fresh_plan example_plan.
Definition example_found : option (flagcxResult_t * c2c_plan) := obtain None None 9 example_run.
Definition all_succeed : environment := fun _ _ => (flagcxSuccess, 4096).
Definition fails_at (n : nat) (r : flagcxResult_t) : environment :=
  fun h _ => if decide (length h = n) then (r, 0) else (flagcxSuccess, 4096).
Definition example_solved : c2c_plan := default example_run (snd <$> example_found).

Lemma example_runnable : runnable None None 9 example_run (-1) None example_solved.
Proof.
  assert (Hp : cp_planner example_solved = reset_nics example_plan) by (vm_compute; reflexivity).
  split; [vm_compute; reflexivity|vm_compute; reflexivity| |left; lia].
  split; rewrite ?Hp.
  - split.
    + exists 0, [0; 1]. split_and!; [reflexivity|reflexivity|done|]. by repeat constructor; eexists.
    + intros i Hi. change (Z.to_nat (cc_nranks (pl_comm (reset_nics example_plan)))) with 6%nat in Hi.
      do 6 (destruct i as [|i]; [by split; eexists|]). lia.
  - done.
  - by_deciding.
  - vm_compute. reflexivity.
  - vm_compute. reflexivity.
  - vm_compute. reflexivity.
  - vm_compute. reflexivity.
  - assert (Hno : Forall (Forall (fun f => hf_commOp f <> flagcxCommOpAlltoAllv)) (st_preHomoFuncSteps (cp_strategy example_solved))) by by_deciding.
    eapply Forall_impl; [exact Hno|]. intros fs Hfs. eapply Forall_impl; [exact Hfs|]. intros f Hf Hop. by destruct Hf.
  - by_deciding.
Qed.

Lemma execute_closes_groups_witness :
  exists t pl' r,
    execute (fails_at 2 flagcxRemoteError) None None 9 example_run 1000 2000 flagcxFloat32 (-1) 7 None [] = Some (t, (pl', r)) /\ bracketed t.
Proof. exact (execute_closes_groups (fails_at 2 flagcxRemoteError) None None 9 example_run example_solved 1000 2000 flagcxFloat32 (-1) 7 None [] example_runnable). Defined.

Lemma execute_releases_witness :
  exists t1 t2 pl' r,
    execute (fails_at 2 flagcxRemoteError) None None 9 example_run 1000 2000 flagcxFloat32 (-1) 7 None [] = Some (t1 ++ t2, (pl', r)) /\
    Forall (fun e => is_release (ev_call e) = false) t1 /\
    ev_call <$> t2 = ((fun q => DeviceFree q 7) <$> scratches t1) ++ (StreamDestroy <$> streams t1).
Proof. exact (execute_releases (fails_at 2 flagcxRemoteError) None None 9 example_run example_solved 1000 2000 flagcxFloat32 (-1) 7 None [] example_runnable). Defined.

Lemma execute_first_error_witness :
  exists t pl' r,
    execute (fails_at 9 flagcxRemoteError) None None 9 example_run 1000 2000 flagcxFloat32 (-1) 7 None [] = Some (t, (pl', r)) /\
    match first_failure t with Some e => r = e | None => flagcx_failed r = false end.
Proof. exact (execute_first_error (fails_at 9 flagcxRemoteError) None None 9 example_run example_solved 1000 2000 flagcxFloat32 (-1) 7 None [] example_runnable). Defined.

Lemma execute_plays_witness :
  exists t pl' r,
    execute all_succeed None None 9 example_run 1000 2000 flagcxFloat32 (-1) 7 None [] = Some (t, (pl', r)) /\
    (Forall (fun e => ev_result e = flagcxSuccess) t ->
     r = flagcxSuccess /\
     let a := args_of example_solved 1000 2000 flagcxFloat32 (-1) (default 0 (head (scratches t))) in
     p2p_calls t = played flagcxFloat32 (pl_comm (cp_planner example_solved)) (sendTmpBuff example_solved a) (recvTmpBuff a)
                     <$> concat (concat (st_heteroFuncSteps (cp_strategy example_solved)))).
Proof. exact (execute_plays all_succeed None None 9 example_run example_solved 1000 2000 flagcxFloat32 (-1) 7 None [] example_runnable). Defined.

(** The example's calls: its three point-to-point operations. *)
Example example_plays :
  (fun x => (p2p_calls x.1, x.2.2)) <$> execute all_succeed None None 9 example_run 1000 2000 flagcxFloat32 (-1) 7 None []
  = Some ([(false, 5, 2000, 3, 4); (true, 4, 2012, 1, 4); (true, 5, 2016, 3, 1)], flagcxSuccess).
Proof. vm_compute. reflexivity. Qed.

(** ** The hybrid runner *)

(** Plans of the cache that have their strategy. *)
Definition unsolved (cache : plan_cache) : Prop := Forall (fun kv => cp_strategyFound kv.2 = false) (lru_items cache).

Lemma lru_find_in (cache : plan_cache) key v : lru_find cache key = Some v -> (key, v) ∈ lru_items cache.
Proof.
  unfold lru_find. destruct (filter _ _) as [|kv l] eqn:Hf; [done|]. cbn. intros [= <-].
  assert (Hin : kv ∈ filter (fun kv => kv.1 = key) (lru_items cache)) by (rewrite Hf; set_solver).
  apply list_elem_of_filter in Hin as [<- Hin]. by destruct kv.
Qed.
Lemma unsolved_without cache key : unsolved cache -> Forall (fun kv => cp_strategyFound kv.2 = false) (lru_without (lru_items cache) key).
Proof. intros H. apply Forall_forall. intros kv Hin. apply list_elem_of_filter in Hin as [_ Hin]. unfold unsolved in H. rewrite Forall_forall in H. auto. Qed.

Lemma plan_for_unsolved cfg comm cache key sc rc root cache' pl :
  unsolved cache -> plan_for cfg comm cache key sc rc root = Some (cache', pl) -> unsolved cache' /\ cp_strategyFound pl = false.
Proof.
  intros Hc. unfold plan_for, lru_get. destruct (lru_find cache key) as [v|] eqn:Hf.
  - intros [= <- <-]. assert (Hv : cp_strategyFound v = false) by (unfold unsolved in Hc; rewrite Forall_forall in Hc; by apply (Hc (key, v)), lru_find_in).
    split; [|done]. constructor; [done|by apply unsolved_without].
  - destruct (mk_flagcxC2cPlanner _ _ _ _ _ _ _ _) as [p|]; [|done]. cbn [mbind option_bind]. unfold lru_put. rewrite Hf.
    assert (Hlast : Forall (fun kv => cp_strategyFound kv.2 = false) (removelast (lru_items cache))).
    { unfold unsolved in Hc. rewrite removelast_firstn_len. by apply Forall_take. }
    destruct (Z.of_nat (length (lru_items cache)) =? lru_capacity cache); [case_bool_decide; [done|]|]; cbn [mbind option_bind];
      intros [= <- <-]; (split; [by constructor|done]).
Qed.

(** the plan cache never holds a strategy.  A plan enters the cache before
    [execute] finds its strategy, and what [execute] changes is a copy: from a
    cache of unsolved plans every collective gets an unsolved plan, searches
    its strategy, and leaves a cache of unsolved plans. *)
Theorem cache_never_solved (ans : environment) (cfg : c2c_settings) (comm : flagcxComm) (cache cache' : plan_cache) (key : C2cPatternKey)
    (sendCount recvCount root sendbuff recvbuff stream : Z) (dt : flagcxDataType_t) (h h' : list event) (r : flagcxResult_t)
    (Hcache : unsolved cache)
    (Hrun : hybrid_run ans cfg comm cache key sendCount recvCount root sendbuff recvbuff dt stream h = Some (h', (cache', r))) :
  unsolved cache' /\
  exists pl, plan_for cfg comm cache key (sendCount mod U64_MOD) (recvCount mod U64_MOD) root = Some (cache', pl) /\ cp_strategyFound pl = false.
Proof.
  unfold hybrid_run, next, lift in Hrun.
  destruct (plan_for cfg comm cache key _ _ root) as [[c pl]|] eqn:Hp; [|done]. cbn [fst snd] in Hrun.
  destruct (execute _ _ _ _ _ _ _ _ _ _ _ h) as [[h1 [pl' r']]|]; [|done]. injection Hrun as <- <- _.
  destruct (plan_for_unsolved _ _ _ _ _ _ _ _ _ Hcache Hp) as [Hc Hs]. split; [done|]. by exists pl.
Qed.

Definition example_settings : c2c_settings := MkSettings (-1) None None 9 None.
Lemma cache_never_solved_witness :
  exists h' cache' r,
    hybridRunnerAllReduce all_succeed example_settings 64 example_comm (MkLRU 16 []) 1000 2000 7 flagcxFloat32 flagcxSum 7 [] = Some (h', (cache', r)) /\
    unsolved cache' /\ length (lru_items cache') = 1%nat.
Proof.
  destruct (hybridRunnerAllReduce all_succeed example_settings 64 example_comm (MkLRU 16 []) 1000 2000 7 flagcxFloat32 flagcxSum 7 [])
    as [[h' [cache' r]]|] eqn:Hrun; [|vm_compute in Hrun; discriminate].
  exists h', cache', r. split; [reflexivity|]. split.
  - refine (proj1 (cache_never_solved all_succeed example_settings example_comm (MkLRU 16 []) cache' _ _ _ _ _ _ _ _ [] h' r _ Hrun)). constructor.
  - vm_compute in Hrun. injection Hrun as _ <- _. reflexivity.
Defined.

(** The groups of the hybrid runner: both are open after a success, none
    after a failure. *)
Lemma hybrid_group_start ans :
  emits (hybridRunnerGroupStart ans)
    (fun t r => (r = flagcxSuccess -> ev_call <$> t = [HeteroGroupStart; CclGroupStart]) /\ (flagcx_failed r = true -> bracketed t)).
Proof.
  eapply emits_next; [apply emits_perform with (Q := fun t r => exists out, t = [Event HeteroGroupStart r out]); eauto|].
  intros t1 r1 (o1 & ->). case_bool_decide as Hr1.
  - eapply emits_next; [apply emits_perform with (Q := fun t r => exists out, t = [Event CclGroupStart r out]); eauto|].
    intros t2 r2 (o2 & ->). case_bool_decide as Hr2; [by apply emits_done|].
    eapply emits_next; [apply emits_perform with (Q := fun t r => exists out, t = [Event HeteroGroupEnd r out]); eauto|].
    intros t3 r3 (o3 & ->). apply emits_done. split; [done|]. intros Hf. subst r1.
    apply (bracketed_group HeteroGroup _ [Event CclGroupStart r2 o2] (Event HeteroGroupEnd r3 o3) []); try done; [|constructor].
    apply bracketed_refused; [|done|constructor]. cbn. by rewrite accepted_failed, Hf.
  - apply emits_done. split; [done|]. intros Hf. apply bracketed_refused; [|done|constructor]. cbn. by rewrite accepted_failed, Hf.
Qed.

(** The cache knows a communicator by its address only, and nothing leaves the
    cache when a communicator is destroyed: one that is created at the same
    address gets the plan of the other's cluster layout. *)
Definition other_comm : flagcxComm :=
  MkComm 0 6 2 0 0 3 [3; 3] [0; 0; 0; 1; 1; 1] [0; 1; 2; 0; 1; 2] 0 0 2 [[1; 2]; [3; 5]].
Lemma stale_plan :
  let key := MkKey 7 2 flagcxCommOpAllReduce flagcxSum 64 in
  (c ← plan_for example_settings example_comm (MkLRU 16 []) key 7 7 (-1);
   d ← plan_for example_settings other_comm c.1 key 7 7 (-1);
   Some (pl_clusterInterRankList (cp_planner d.2))) = Some [[0; 1]; [3; 4; 5]].
Proof. vm_compute. reflexivity. Qed.
