(* ===== verification/NetTransport.v ===== *)
(** The core shared by the network transports
    ([flagcx/adaptor/net/net_transport.cc],
    [flagcx/adaptor/include/net_transport.h]): lanes, submission contexts,
    release groups, the completion scoreboard, visibility of GETs, credits,
    request state and address ranges.

    A nullable object is an [option], a nullable out pointer a boolean that
    tells whether it is non-null, and an out value is [None] when the code
    leaves it untouched.  Release groups are shared between scoreboards, so they
    live in a heap [groups]; [NULL] is the address 0, and following an address
    that is not in the heap is undefined ([None]).  The scoreboard owns its
    array of entries.  Methods that take a lock are one step; those that use
    atomics without a lock are given here as they run without interference, and
    split at their accesses in [NetAtomics]. *)
From S2P Require Import Prelude Flagcx Arrays.

Abbreviation NULL := 0 (only parsing).
Abbreviation FLAGCX_NET_MAX_MR_KEYS := 8 (only parsing).
Abbreviation UINT32_MAX := 4294967295 (only parsing).

(** ** Address ranges *)

Record flagcxNetMrInfo := MkMrInfo {
  mi_nKeys : Z;
  mi_lkeys : list Z;
  mi_rkeys : list Z
}.

Record flagcxNetRegion := MkRegion {
  rg_base : Z;
  rg_size : Z;
  rg_mrInfo : option flagcxNetMrInfo;
  rg_localMrHandle : Z
}.

(** The address and the key of an access of [size] bytes at [offset]. *)
Definition flagcxTransportResolveRegion (region : option flagcxNetRegion) (offset size keyIndex localKey : Z)
    (address key : bool) : option (flagcxResult_t * option (Z * Z)) :=
  let invalid := Some (flagcxInvalidArgument, None) in
  match region with
  | None => invalid
  | Some region =>
    match rg_mrInfo region with
    | None => invalid
    | Some mrInfo =>
      if negb address || negb key || (negb (localKey =? 0) && negb (localKey =? 1)) ||
         (U64_MAX - rg_size region <? rg_base region) || (rg_size region <? offset) ||
         (rg_size region - offset <? size)
      then invalid
      else if (mi_nKeys mrInfo =? 0) || (FLAGCX_NET_MAX_MR_KEYS <? mi_nKeys mrInfo) then invalid
      else
        let resolvedIndex := if mi_nKeys mrInfo =? 1 then 0 else keyIndex in
        if mi_nKeys mrInfo <=? resolvedIndex then Some (flagcxNotSupported, None)
        else
          k ← arr_get (if negb (localKey =? 0) then mi_lkeys mrInfo else mi_rkeys mrInfo) resolvedIndex;
          Some (flagcxSuccess, Some (rg_base region +u64 offset, k))
    end
  end.

(** The fields of [flagcxOneSideHandleInfo] the range resolution reads. *)
Record flagcxOneSideHandleInfo := MkOneSideHandleInfo {
  os_baseVas : option (list Z);
  os_regionSizes : option (list Z);
  os_mrInfos : option (list flagcxNetMrInfo);
  os_nRanks : Z
}.

Record flagcxNetResolvedRange := MkResolvedRange {
  rr_address : Z;
  rr_size : Z;
  rr_mrInfo : flagcxNetMrInfo
}.

Definition flagcxNetResolveOneSideRange (info : option flagcxOneSideHandleInfo) (rank offset size : Z)
    (range : bool) : option (flagcxResult_t * option flagcxNetResolvedRange) :=
  let invalid := Some (flagcxInvalidArgument, None) in
  match info with
  | None => invalid
  | Some info =>
    match os_baseVas info, os_regionSizes info, os_mrInfos info with
    | Some baseVas, Some regionSizes, Some mrInfos =>
      if negb range || (rank <? 0) || (os_nRanks info <=? rank) then invalid
      else
        base ← arr_get baseVas rank;
        regionSize ← arr_get regionSizes rank;
        if (regionSize <? offset) || (regionSize - offset <? size) ||
           (U64_MAX - base <? offset) || (U64_MAX - base - offset <? size)
        then invalid
        else
          mrInfo ← arr_get mrInfos rank;
          Some (flagcxSuccess, Some (MkResolvedRange (base +u64 offset) size mrInfo))
    | _, _, _ => invalid
    end
  end.

(** ** Lanes *)

Record flagcxNetLaneSet := MkLaneSet { ls_count : Z; ls_unorderedCursor : Z }.

Abbreviation FLAGCX_NET_LANE_ORDERED := 0 (only parsing).
Abbreviation FLAGCX_NET_LANE_UNORDERED := 1 (only parsing).

Definition flagcxNetSelectLane (lanes : option flagcxNetLaneSet) (mode orderingKey : Z) (laneIndex : bool) :
    flagcxResult_t * option Z :=
  match lanes with
  | None => (flagcxInvalidArgument, None)
  | Some lanes =>
    if negb laneIndex || (ls_count lanes =? 0) then (flagcxInvalidArgument, None)
    else if mode =? FLAGCX_NET_LANE_ORDERED then
      (flagcxSuccess, Some ((orderingKey mod ls_count lanes) mod U32_MOD))
    else if mode =? FLAGCX_NET_LANE_UNORDERED then
      (flagcxSuccess, Some (ls_unorderedCursor lanes mod ls_count lanes))
    else (flagcxInvalidArgument, None)
  end.

Definition flagcxNetCommitLane (lanes : option flagcxNetLaneSet) (mode laneIndex : Z) :
    flagcxResult_t * option flagcxNetLaneSet :=
  match lanes with
  | None => (flagcxInvalidArgument, lanes)
  | Some l =>
    if (ls_count l =? 0) || (ls_count l <=? laneIndex) then (flagcxInvalidArgument, lanes)
    else if mode =? FLAGCX_NET_LANE_ORDERED then (flagcxSuccess, lanes)
    else if negb (mode =? FLAGCX_NET_LANE_UNORDERED) then (flagcxInvalidArgument, lanes)
    else
      let current := ls_unorderedCursor l mod ls_count l in
      if negb (laneIndex =? current) then (flagcxInvalidArgument, lanes)
      else (flagcxSuccess, Some (MkLaneSet (ls_count l) ((current +u32 1) mod ls_count l)))
  end.

(** ** Submission contexts *)

Record flagcxNetSubmitContext := MkSubmitContext {
  sc_orderingKey : Z;
  sc_groupId : Z;
  sc_generation : Z;
  sc_sequence : Z;
  sc_flags : Z;
  sc_laneMask : Z
}.

Abbreviation FLAGCX_NET_SUBMIT_DATA := 1 (only parsing).
Abbreviation FLAGCX_NET_SUBMIT_RELEASE := 2 (only parsing).
Abbreviation FLAGCX_NET_SUBMIT_INDEPENDENT := 4 (only parsing).

(** [struct flagcxNetSubmitContext context = {}] *)
Definition submit_context_zero : flagcxNetSubmitContext := MkSubmitContext 0 0 0 0 0 NULL.

Definition flagcxNetSubmitContextMatches (lhs rhs : flagcxNetSubmitContext) : bool :=
  (sc_orderingKey lhs =? sc_orderingKey rhs) && (sc_groupId lhs =? sc_groupId rhs) &&
  (sc_generation lhs =? sc_generation rhs) && (sc_sequence lhs =? sc_sequence rhs) &&
  (sc_flags lhs =? sc_flags rhs).

(** The thread-local context: [flagcxNetThreadSubmitContext] and
    [flagcxNetThreadSubmitContextValid]. *)
Record thread_submit := MkThreadSubmit {
  ts_context : flagcxNetSubmitContext;
  ts_valid : bool
}.

Definition flagcxNetSetSubmitContext (context : option flagcxNetSubmitContext) (t : thread_submit) :
    flagcxResult_t * thread_submit :=
  match context with
  | None => (flagcxInvalidArgument, t)
  | Some c => (flagcxSuccess, MkThreadSubmit c true)
  end.

Definition flagcxNetGetSubmitContext (context : bool) (t : thread_submit) :
    flagcxResult_t * option flagcxNetSubmitContext :=
  if negb context then (flagcxInvalidArgument, None)
  else if negb (ts_valid t) then (flagcxNotSupported, None)
  else (flagcxSuccess, Some (ts_context t)).

Definition flagcxNetClearSubmitContext (t : thread_submit) : thread_submit :=
  MkThreadSubmit submit_context_zero false.

(** ** Release groups *)

Inductive flagcxNetReleaseGroupState :=
| FLAGCX_NET_RELEASE_GROUP_OPEN
| FLAGCX_NET_RELEASE_GROUP_SEALED
| FLAGCX_NET_RELEASE_GROUP_COMPLETE.

#[export] Instance flagcxNetReleaseGroupState_eq_dec : EqDecision flagcxNetReleaseGroupState.
Proof. solve_decision. Defined.

(** Without the lock word: methods under the lock are steps. *)
Record flagcxNetReleaseGroup := MkReleaseGroup {
  gr_groupId : Z;
  gr_generation : Z;
  gr_state : flagcxNetReleaseGroupState;
  gr_pending : Z;
  gr_members : Z;
  gr_releaseAllowed : bool;
  gr_firstError : flagcxResult_t
}.

(** [struct flagcxNetReleaseGroup group = {}] *)
Definition release_group_zero : flagcxNetReleaseGroup :=
  MkReleaseGroup 0 0 FLAGCX_NET_RELEASE_GROUP_OPEN 0 0 false flagcxSuccess.

Abbreviation groups := (gmap Z flagcxNetReleaseGroup).

(** A result code. *)
Definition failed (r : flagcxResult_t) : bool := negb (bool_decide (r = flagcxSuccess)).

Lemma failed_success r : failed r = false <-> r = flagcxSuccess.
Proof. by destruct r. Qed.

Definition set_gr_state (s : flagcxNetReleaseGroupState) (g : flagcxNetReleaseGroup) : flagcxNetReleaseGroup :=
  MkReleaseGroup (gr_groupId g) (gr_generation g) s (gr_pending g) (gr_members g) (gr_releaseAllowed g) (gr_firstError g).

Definition set_gr_counts (pending members : Z) (g : flagcxNetReleaseGroup) : flagcxNetReleaseGroup :=
  MkReleaseGroup (gr_groupId g) (gr_generation g) (gr_state g) pending members (gr_releaseAllowed g) (gr_firstError g).

Definition set_gr_firstError (e : flagcxResult_t) (g : flagcxNetReleaseGroup) : flagcxNetReleaseGroup :=
  MkReleaseGroup (gr_groupId g) (gr_generation g) (gr_state g) (gr_pending g) (gr_members g) (gr_releaseAllowed g) e.

(** [releaseAllowed = firstError == flagcxSuccess; state = COMPLETE] *)
Definition complete_group (g : flagcxNetReleaseGroup) : flagcxNetReleaseGroup :=
  MkReleaseGroup (gr_groupId g) (gr_generation g) FLAGCX_NET_RELEASE_GROUP_COMPLETE (gr_pending g) (gr_members g)
    (bool_decide (gr_firstError g = flagcxSuccess)) (gr_firstError g).

Definition flagcxNetReleaseGroupTrackLocked (g : flagcxNetReleaseGroup) (context : flagcxNetSubmitContext) :
    flagcxResult_t * flagcxNetReleaseGroup :=
  if negb (bool_decide (gr_state g = FLAGCX_NET_RELEASE_GROUP_OPEN)) ||
     negb (gr_groupId g =? sc_groupId context) || negb (gr_generation g =? sc_generation context) ||
     (gr_pending g =? UINT32_MAX) || (gr_members g =? UINT32_MAX)
  then (flagcxInvalidArgument, g)
  else (flagcxSuccess, set_gr_counts (gr_pending g +u32 1) (gr_members g +u32 1) g).

Definition flagcxNetReleaseGroupCompleteLocked (g : flagcxNetReleaseGroup) (result : flagcxResult_t) :
    flagcxResult_t * flagcxNetReleaseGroup :=
  if bool_decide (gr_state g = FLAGCX_NET_RELEASE_GROUP_COMPLETE) || (gr_pending g =? 0)
  then (flagcxInvalidArgument, g)
  else
    let g := if failed result && negb (failed (gr_firstError g)) then set_gr_firstError result g else g in
    let g := set_gr_counts (gr_pending g -u32 1) (gr_members g) g in
    let g := if (gr_pending g =? 0) && bool_decide (gr_state g = FLAGCX_NET_RELEASE_GROUP_SEALED)
             then complete_group g else g in
    (flagcxSuccess, g).

Definition flagcxNetReleaseGroupInit (group groupId generation : Z) (gs : groups) : option (flagcxResult_t * groups) :=
  if (group =? NULL) || (groupId =? 0) then Some (flagcxInvalidArgument, gs)
  else
    _ ← gs !! group;
    Some (flagcxSuccess,
      <[group := MkReleaseGroup groupId generation FLAGCX_NET_RELEASE_GROUP_OPEN 0 0 false flagcxSuccess]> gs).

Definition flagcxNetReleaseGroupSeal (group : Z) (gs : groups) : option (flagcxResult_t * groups) :=
  if group =? NULL then Some (flagcxInvalidArgument, gs)
  else
    g ← gs !! group;
    if gr_groupId g =? 0 then Some (flagcxInvalidArgument, gs)
    else if negb (bool_decide (gr_state g = FLAGCX_NET_RELEASE_GROUP_OPEN)) then Some (flagcxInvalidArgument, gs)
    else if gr_pending g =? 0 then Some (flagcxSuccess, <[group := complete_group g]> gs)
    else Some (flagcxSuccess, <[group := set_gr_state FLAGCX_NET_RELEASE_GROUP_SEALED g]> gs).

(** The out values [done] and [releaseAllowed]. *)
Definition flagcxNetReleaseGroupTest (group : Z) (done releaseAllowed : bool) (gs : groups) :
    option (flagcxResult_t * option (bool * bool)) :=
  if group =? NULL then Some (flagcxInvalidArgument, None)
  else
    g ← gs !! group;
    if (gr_groupId g =? 0) || negb done || negb releaseAllowed then Some (flagcxInvalidArgument, None)
    else
      let d := bool_decide (gr_state g = FLAGCX_NET_RELEASE_GROUP_COMPLETE) in
      Some (if d then gr_firstError g else flagcxSuccess, Some (d, if d then gr_releaseAllowed g else false)).

Definition flagcxNetReleaseGroupReset (group groupId generation : Z) (gs : groups) : option (flagcxResult_t * groups) :=
  if group =? NULL then Some (flagcxInvalidArgument, gs)
  else
    g ← gs !! group;
    if (gr_groupId g =? 0) || (groupId =? 0) then Some (flagcxInvalidArgument, gs)
    else if negb (bool_decide (gr_state g = FLAGCX_NET_RELEASE_GROUP_COMPLETE)) || (generation <=? gr_generation g)
    then Some (flagcxInvalidArgument, gs)
    else Some (flagcxSuccess,
      <[group := MkReleaseGroup groupId generation FLAGCX_NET_RELEASE_GROUP_OPEN 0 0 false flagcxSuccess]> gs).

(** ** The completion scoreboard *)

Inductive flagcxNetCompletionEntryState :=
| FLAGCX_NET_COMPLETION_ENTRY_FREE
| FLAGCX_NET_COMPLETION_ENTRY_PENDING
| FLAGCX_NET_COMPLETION_ENTRY_COMPLETE.

#[export] Instance flagcxNetCompletionEntryState_eq_dec : EqDecision flagcxNetCompletionEntryState.
Proof. solve_decision. Defined.

Record flagcxNetCompletionEntry := MkCompletionEntry {
  ce_context : flagcxNetSubmitContext;
  ce_releaseGroup : Z;
  ce_result : flagcxResult_t;
  ce_state : flagcxNetCompletionEntryState
}.

Record flagcxNetCompletionScoreboard := MkScoreboard {
  sb_entries : option (list flagcxNetCompletionEntry);
  sb_capacity : Z;
  sb_inFlight : Z;
  sb_generation : Z;
  sb_nextSequence : Z;
  sb_firstError : flagcxResult_t
}.

(** [struct flagcxNetCompletionScoreboard scoreboard = {}] *)
Definition scoreboard_zero : flagcxNetCompletionScoreboard := MkScoreboard None 0 0 0 0 flagcxSuccess.

Definition set_sb_entries (es : list flagcxNetCompletionEntry) (sb : flagcxNetCompletionScoreboard) :
    flagcxNetCompletionScoreboard :=
  MkScoreboard (Some es) (sb_capacity sb) (sb_inFlight sb) (sb_generation sb) (sb_nextSequence sb) (sb_firstError sb).

Definition set_sb_inFlight (n : Z) (sb : flagcxNetCompletionScoreboard) : flagcxNetCompletionScoreboard :=
  MkScoreboard (sb_entries sb) (sb_capacity sb) n (sb_generation sb) (sb_nextSequence sb) (sb_firstError sb).

Definition set_sb_nextSequence (n : Z) (sb : flagcxNetCompletionScoreboard) : flagcxNetCompletionScoreboard :=
  MkScoreboard (sb_entries sb) (sb_capacity sb) (sb_inFlight sb) (sb_generation sb) n (sb_firstError sb).

Definition set_sb_firstError (e : flagcxResult_t) (sb : flagcxNetCompletionScoreboard) : flagcxNetCompletionScoreboard :=
  MkScoreboard (sb_entries sb) (sb_capacity sb) (sb_inFlight sb) (sb_generation sb) (sb_nextSequence sb) e.

(** The value [flagcxNetCompletionEntryReset] gives an entry. *)
Definition flagcxNetCompletionEntryReset : flagcxNetCompletionEntry :=
  MkCompletionEntry submit_context_zero NULL flagcxSuccess FLAGCX_NET_COMPLETION_ENTRY_FREE.

(** [entries] is the array handed in, of whatever length. *)
Fixpoint reset_entries (n i : nat) (es : list flagcxNetCompletionEntry) : option (list flagcxNetCompletionEntry) :=
  match n with
  | O => Some es
  | S n => es ← arr_set es (Z.of_nat i) flagcxNetCompletionEntryReset; reset_entries n (S i) es
  end.

Definition flagcxNetCompletionScoreboardInit (scoreboard : bool) (entries : option (list flagcxNetCompletionEntry))
    (capacity generation initialSequence : Z) : option (flagcxResult_t * option flagcxNetCompletionScoreboard) :=
  match entries with
  | None => Some (flagcxInvalidArgument, None)
  | Some es =>
    if negb scoreboard || (capacity =? 0) || (initialSequence =? U64_MAX) then Some (flagcxInvalidArgument, None)
    else
      es ← reset_entries (Z.to_nat capacity) 0 es;
      Some (flagcxSuccess, Some (MkScoreboard (Some es) capacity 0 generation initialSequence flagcxSuccess))
  end.

(** Whether one of the first [n] entries, from the [i]-th, is in use. *)
Fixpoint entry_in_use (n i : nat) (es : list flagcxNetCompletionEntry) : option bool :=
  match n with
  | O => Some false
  | S n =>
    e ← arr_get es (Z.of_nat i);
    if negb (bool_decide (ce_state e = FLAGCX_NET_COMPLETION_ENTRY_FREE)) then Some true
    else entry_in_use n (S i) es
  end.

Definition flagcxNetCompletionScoreboardReset (scoreboard : option flagcxNetCompletionScoreboard)
    (generation initialSequence : Z) : option (flagcxResult_t * option flagcxNetCompletionScoreboard) :=
  let invalid := Some (flagcxInvalidArgument, scoreboard) in
  match scoreboard with
  | None => invalid
  | Some sb =>
    match sb_entries sb with
    | None => invalid
    | Some es =>
      if (sb_capacity sb =? 0) || (initialSequence =? U64_MAX) then invalid
      else if negb (sb_inFlight sb =? 0) || (generation <=? sb_generation sb) then invalid
      else
        b ← entry_in_use (Z.to_nat (sb_capacity sb)) 0 es;
        if b : bool then Some (flagcxInternalError, scoreboard)
        else Some (flagcxSuccess,
          Some (MkScoreboard (Some es) (sb_capacity sb) (sb_inFlight sb) generation initialSequence flagcxSuccess))
    end
  end.

(** [entry->... = ...; scoreboard->inFlight++] *)
Definition track_entry (sb : flagcxNetCompletionScoreboard) (es : list flagcxNetCompletionEntry) (slot : Z)
    (context : flagcxNetSubmitContext) (releaseGroup : Z) : option flagcxNetCompletionScoreboard :=
  es' ← arr_set es slot (MkCompletionEntry context releaseGroup flagcxSuccess FLAGCX_NET_COMPLETION_ENTRY_PENDING);
  Some (set_sb_inFlight (sb_inFlight sb +u32 1) (set_sb_entries es' sb)).

Definition flagcxNetTrackSubmit (scoreboard : option flagcxNetCompletionScoreboard)
    (context : option flagcxNetSubmitContext) (releaseGroup : Z) (gs : groups) :
    option (flagcxResult_t * option flagcxNetCompletionScoreboard * groups) :=
  let return_ r := Some (r, scoreboard, gs) in
  match scoreboard, context with
  | Some sb, Some c =>
    match sb_entries sb with
    | None => return_ flagcxInvalidArgument
    | Some es =>
      if (sb_capacity sb =? 0) || (sc_sequence c =? U64_MAX) then return_ flagcxInvalidArgument
      else if negb (sc_generation c =? sb_generation sb) || (sc_sequence c <? sb_nextSequence sb)
      then return_ flagcxInvalidArgument
      else if sb_capacity sb <=? sc_sequence c -u64 sb_nextSequence sb then return_ flagcxInProgress
      else
        let slot := sc_sequence c mod sb_capacity sb in
        entry ← arr_get es slot;
        if negb (bool_decide (ce_state entry = FLAGCX_NET_COMPLETION_ENTRY_FREE)) then return_ flagcxInvalidArgument
        else if ((releaseGroup =? NULL) && negb (sc_groupId c =? 0)) ||
                (negb (releaseGroup =? NULL) && (sc_groupId c =? 0))
        then return_ flagcxInvalidArgument
        else if negb (releaseGroup =? NULL) then
          g ← gs !! releaseGroup;
          let '(r, g) := flagcxNetReleaseGroupTrackLocked g c in
          if negb (failed r) then
            sb ← track_entry sb es slot c releaseGroup;
            Some (r, Some sb, <[releaseGroup := g]> gs)
          else Some (r, Some sb, <[releaseGroup := g]> gs)
        else
          sb ← track_entry sb es slot c NULL;
          Some (flagcxSuccess, Some sb, gs)
    end
  | _, _ => return_ flagcxInvalidArgument
  end.

(** The window check [flagcxNetTrackCancel] and [flagcxNetTrackCompletion]
    share. *)
Definition outside_window (sb : flagcxNetCompletionScoreboard) (c : flagcxNetSubmitContext) : bool :=
  negb (sc_generation c =? sb_generation sb) || (sc_sequence c <? sb_nextSequence sb) ||
  (sb_capacity sb <=? sc_sequence c -u64 sb_nextSequence sb).

(** The entry is not the pending one of this context. *)
Definition not_pending (entry : flagcxNetCompletionEntry) (c : flagcxNetSubmitContext) : bool :=
  negb (bool_decide (ce_state entry = FLAGCX_NET_COMPLETION_ENTRY_PENDING)) ||
  negb (flagcxNetSubmitContextMatches (ce_context entry) c).

(** [flagcxNetCompletionEntryReset(entry); scoreboard->inFlight--] *)
Definition untrack_entry (sb : flagcxNetCompletionScoreboard) (es : list flagcxNetCompletionEntry) (slot : Z) :
    option flagcxNetCompletionScoreboard :=
  es ← arr_set es slot flagcxNetCompletionEntryReset;
  Some (set_sb_inFlight (sb_inFlight sb -u32 1) (set_sb_entries es sb)).

Definition flagcxNetTrackCancel (scoreboard : option flagcxNetCompletionScoreboard)
    (context : option flagcxNetSubmitContext) (gs : groups) :
    option (flagcxResult_t * option flagcxNetCompletionScoreboard * groups) :=
  let invalid := Some (flagcxInvalidArgument, scoreboard, gs) in
  match scoreboard, context with
  | Some sb, Some c =>
    match sb_entries sb with
    | None => invalid
    | Some es =>
      if sb_capacity sb =? 0 then invalid
      else if outside_window sb c then invalid
      else
        let slot := sc_sequence c mod sb_capacity sb in
        entry ← arr_get es slot;
        if not_pending entry c then invalid
        else
          if negb (ce_releaseGroup entry =? NULL) then
            g ← gs !! ce_releaseGroup entry;
            if negb (bool_decide (gr_state g = FLAGCX_NET_RELEASE_GROUP_OPEN)) || (gr_pending g =? 0) || (gr_members g =? 0)
            then invalid
            else
              sb ← untrack_entry sb es slot;
              Some (flagcxSuccess, Some sb,
                <[ce_releaseGroup entry := set_gr_counts (gr_pending g -u32 1) (gr_members g -u32 1) g]> gs)
          else
            sb ← untrack_entry sb es slot;
            Some (flagcxSuccess, Some sb, gs)
    end
  | _, _ => invalid
  end.

(** The [while] loop of [flagcxNetTrackCompletion], which retires the completed
    prefix: the new scoreboard and [*advanced].  [fuel] bounds the iterations
    by [inFlight], which every one lowers. *)
Fixpoint retire_loop (fuel : nat) (sb : flagcxNetCompletionScoreboard) (es : list flagcxNetCompletionEntry)
    (advanced : Z) : option (flagcxNetCompletionScoreboard * Z) :=
  if sb_inFlight sb =? 0 then Some (set_sb_entries es sb, advanced)
  else
    match fuel with
    | O => None
    | S fuel =>
      let slot := sb_nextSequence sb mod sb_capacity sb in
      next ← arr_get es slot;
      if negb (bool_decide (ce_state next = FLAGCX_NET_COMPLETION_ENTRY_COMPLETE)) ||
         negb (sc_generation (ce_context next) =? sb_generation sb) ||
         negb (sc_sequence (ce_context next) =? sb_nextSequence sb)
      then Some (set_sb_entries es sb, advanced)
      else
        es ← arr_set es slot flagcxNetCompletionEntryReset;
        retire_loop fuel
          (set_sb_nextSequence (sb_nextSequence sb +u64 1) (set_sb_inFlight (sb_inFlight sb -u32 1) sb)) es
          (advanced +u32 1)
    end.

Definition flagcxNetTrackCompletion (scoreboard : option flagcxNetCompletionScoreboard)
    (context : option flagcxNetSubmitContext) (result : flagcxResult_t) (advanced : bool) (gs : groups) :
    option (flagcxResult_t * option flagcxNetCompletionScoreboard * groups * option Z) :=
  let invalid adv := Some (flagcxInvalidArgument, scoreboard, gs, adv) in
  match scoreboard, context with
  | Some sb, Some c =>
    match sb_entries sb with
    | None => invalid None
    | Some es =>
      if negb advanced || (sb_capacity sb =? 0) then invalid None
      else if outside_window sb c then invalid (Some 0)
      else
        let slot := sc_sequence c mod sb_capacity sb in
        entry ← arr_get es slot;
        if not_pending entry c then invalid (Some 0)
        else if bool_decide (result = flagcxInProgress) then Some (flagcxSuccess, scoreboard, gs, Some 0)
        else
          '(gr, gs) ←
            (if negb (ce_releaseGroup entry =? NULL) then
               g ← gs !! ce_releaseGroup entry;
               let '(gr, g) := flagcxNetReleaseGroupCompleteLocked g result in
               Some (gr, <[ce_releaseGroup entry := g]> gs)
             else Some (flagcxSuccess, gs));
          if failed gr then Some (gr, scoreboard, gs, Some 0)
          else
            let sb := if failed result && negb (failed (sb_firstError sb)) then set_sb_firstError result sb else sb in
            es ← arr_set es slot
              (MkCompletionEntry (ce_context entry) (ce_releaseGroup entry) result FLAGCX_NET_COMPLETION_ENTRY_COMPLETE);
            '(sb, adv) ← retire_loop (Z.to_nat (sb_inFlight sb)) sb es 0;
            Some (flagcxSuccess, Some sb, gs, Some adv)
    end
  | _, _ => invalid None
  end.

(** The out values [nextSequence], [inFlight] and [firstError]. *)
Definition flagcxNetCompletionScoreboardQuery (scoreboard : option flagcxNetCompletionScoreboard)
    (nextSequence inFlight firstError : bool) : flagcxResult_t * option (Z * Z * flagcxResult_t) :=
  match scoreboard with
  | None => (flagcxInvalidArgument, None)
  | Some sb =>
    if negb nextSequence || negb inFlight || negb firstError || bool_decide (sb_entries sb = None) ||
       (sb_capacity sb =? 0)
    then (flagcxInvalidArgument, None)
    else (flagcxSuccess, Some (sb_nextSequence sb, sb_inFlight sb, sb_firstError sb))
  end.

(** ** Visibility of GETs *)

Record flagcxNetGetVisibilityDomain := MkGetDomain {
  gv_orderingKey : Z;
  gv_issued : Z;             (* issuedGetSequence *)
  gv_dataCompleted : Z;      (* dataCompletedGetSequence *)
  gv_flushTarget : Z;        (* flushTargetGetSequence *)
  gv_visible : Z;            (* visibleGetSequence *)
  gv_flushRequest : Z;
  gv_flushResult : flagcxResult_t;
  gv_peer : Z;
  gv_inUse : bool
}.

(** [struct flagcxNetGetVisibilityDomain domain = {}] *)
Definition get_domain_zero : flagcxNetGetVisibilityDomain := MkGetDomain 0 0 0 0 0 NULL flagcxSuccess 0 false.

Section GetVisibility.
Implicit Types domain : option flagcxNetGetVisibilityDomain.

Definition set_gv_sequences (issued dataCompleted flushTarget visible : Z) (d : flagcxNetGetVisibilityDomain) :
    flagcxNetGetVisibilityDomain :=
  MkGetDomain (gv_orderingKey d) issued dataCompleted flushTarget visible (gv_flushRequest d) (gv_flushResult d)
    (gv_peer d) (gv_inUse d).

Definition set_gv_flush (request : Z) (result : flagcxResult_t) (d : flagcxNetGetVisibilityDomain) :
    flagcxNetGetVisibilityDomain :=
  MkGetDomain (gv_orderingKey d) (gv_issued d) (gv_dataCompleted d) (gv_flushTarget d) (gv_visible d) request result
    (gv_peer d) (gv_inUse d).

Definition flagcxNetGetVisibilityDomainInit domain (peer orderingKey : Z) :
    flagcxResult_t * option flagcxNetGetVisibilityDomain :=
  match domain with
  | None => (flagcxInvalidArgument, domain)
  | Some _ =>
    if peer <? 0 then (flagcxInvalidArgument, domain)
    else (flagcxSuccess, Some (MkGetDomain orderingKey 0 0 0 0 NULL flagcxSuccess peer true))
  end.

Definition flagcxNetGetVisibilityIssue domain (getSequence : bool) :
    flagcxResult_t * option flagcxNetGetVisibilityDomain * option Z :=
  let invalid := (flagcxInvalidArgument, domain, None) in
  match domain with
  | None => invalid
  | Some d =>
    if negb getSequence || negb (gv_inUse d) || (U64_MAX - 1 <=? gv_issued d) then invalid
    else
      let s := gv_issued d +u64 1 in
      (flagcxSuccess, Some (set_gv_sequences s (gv_dataCompleted d) (gv_flushTarget d) (gv_visible d) d), Some s)
  end.

Definition flagcxNetGetVisibilityCancelIssue domain (getSequence : Z) :
    flagcxResult_t * option flagcxNetGetVisibilityDomain :=
  let invalid := (flagcxInvalidArgument, domain) in
  match domain with
  | None => invalid
  | Some d =>
    if negb (gv_inUse d) || (getSequence =? 0) || negb (getSequence =? gv_issued d) ||
       (getSequence <=? gv_dataCompleted d)
    then invalid
    else (flagcxSuccess,
      Some (set_gv_sequences (gv_issued d -u64 1) (gv_dataCompleted d) (gv_flushTarget d) (gv_visible d) d))
  end.

(** A watermark at or above a removed sequence moves down. *)
Definition watermark_without (getSequence w : Z) : Z := if getSequence <=? w then w -u64 1 else w.

Definition flagcxNetGetVisibilityRemoveIssue domain (getSequence : Z) :
    flagcxResult_t * option flagcxNetGetVisibilityDomain :=
  let invalid := (flagcxInvalidArgument, domain) in
  match domain with
  | None => invalid
  | Some d =>
    if negb (gv_inUse d) || (getSequence =? 0) || (gv_issued d <? getSequence) then invalid
    else (flagcxSuccess,
      Some (set_gv_sequences (gv_issued d -u64 1) (watermark_without getSequence (gv_dataCompleted d))
              (watermark_without getSequence (gv_flushTarget d)) (watermark_without getSequence (gv_visible d)) d))
  end.

Definition flagcxNetGetVisibilityAdvanceData domain (dataCompletedGetSequence : Z) :
    flagcxResult_t * option flagcxNetGetVisibilityDomain :=
  let invalid := (flagcxInvalidArgument, domain) in
  match domain with
  | None => invalid
  | Some d =>
    if negb (gv_inUse d) || (dataCompletedGetSequence <? gv_dataCompleted d) ||
       (gv_issued d <? dataCompletedGetSequence)
    then invalid
    else (flagcxSuccess,
      Some (set_gv_sequences (gv_issued d) dataCompletedGetSequence (gv_flushTarget d) (gv_visible d) d))
  end.

Definition flagcxNetGetVisibilityBeginFlush domain (flushTarget : bool) :
    flagcxResult_t * option flagcxNetGetVisibilityDomain * option Z :=
  let invalid := (flagcxInvalidArgument, domain, None) in
  match domain with
  | None => invalid
  | Some d =>
    if negb flushTarget || negb (gv_inUse d) || negb (gv_flushRequest d =? NULL) ||
       negb (gv_flushTarget d =? gv_visible d) || (gv_dataCompleted d <=? gv_visible d)
    then invalid
    else (flagcxSuccess,
      Some (set_gv_sequences (gv_issued d) (gv_dataCompleted d) (gv_dataCompleted d) (gv_visible d) d),
      Some (gv_dataCompleted d))
  end.

Definition flagcxNetGetVisibilityAdvanceVisible domain (visibleGetSequence : Z) :
    flagcxResult_t * option flagcxNetGetVisibilityDomain :=
  let invalid := (flagcxInvalidArgument, domain) in
  match domain with
  | None => invalid
  | Some d =>
    if negb (gv_inUse d) || negb (gv_flushRequest d =? NULL) || negb (gv_flushTarget d =? gv_visible d) ||
       (visibleGetSequence <? gv_visible d) || (gv_dataCompleted d <? visibleGetSequence)
    then invalid
    else (flagcxSuccess,
      Some (set_gv_flush (gv_flushRequest d) flagcxSuccess
             (set_gv_sequences (gv_issued d) (gv_dataCompleted d) visibleGetSequence visibleGetSequence d)))
  end.

Definition flagcxNetGetVisibilityCompleteFlush domain (result : flagcxResult_t) :
    flagcxResult_t * option flagcxNetGetVisibilityDomain :=
  let invalid := (flagcxInvalidArgument, domain) in
  match domain with
  | None => invalid
  | Some d =>
    if negb (gv_inUse d) || (gv_flushTarget d <? gv_visible d) || (gv_dataCompleted d <? gv_flushTarget d) ||
       ((gv_flushTarget d =? gv_visible d) && (gv_flushRequest d =? NULL))
    then invalid
    else (flagcxSuccess,
      Some (set_gv_flush NULL result
             (set_gv_sequences (gv_issued d) (gv_dataCompleted d) (gv_flushTarget d) (gv_flushTarget d) d)))
  end.

End GetVisibility.

(** ** Credits

    Without interference the compare-and-swap of the loops succeeds at once;
    [NetAtomics] has the loops themselves. *)

Record flagcxNetCredit := MkCredit { cr_capacity : Z; cr_inUse : Z }.

Definition flagcxNetCreditInit (credit : option flagcxNetCredit) (capacity : Z) :
    flagcxResult_t * option flagcxNetCredit :=
  match credit with
  | None => (flagcxInvalidArgument, credit)
  | Some _ => if capacity =? 0 then (flagcxInvalidArgument, credit) else (flagcxSuccess, Some (MkCredit capacity 0))
  end.

Definition flagcxNetCreditAcquire (credit : option flagcxNetCredit) (count : Z) :
    flagcxResult_t * option flagcxNetCredit :=
  match credit with
  | None => (flagcxInvalidArgument, credit)
  | Some c =>
    if (count =? 0) || (cr_capacity c =? 0) || (cr_capacity c <? count) then (flagcxInvalidArgument, credit)
    else if (cr_capacity c <? cr_inUse c) || (cr_capacity c -u32 cr_inUse c <? count) then (flagcxInProgress, credit)
    else (flagcxSuccess, Some (MkCredit (cr_capacity c) (cr_inUse c +u32 count)))
  end.

Definition flagcxNetCreditRelease (credit : option flagcxNetCredit) (count : Z) :
    flagcxResult_t * option flagcxNetCredit :=
  match credit with
  | None => (flagcxInvalidArgument, credit)
  | Some c =>
    if (count =? 0) || (cr_capacity c =? 0) then (flagcxInvalidArgument, credit)
    else if cr_inUse c <? count then (flagcxInvalidArgument, credit)
    else (flagcxSuccess, Some (MkCredit (cr_capacity c) (cr_inUse c -u32 count)))
  end.

Definition flagcxNetCreditAvailable (credit : option flagcxNetCredit) (available : bool) : flagcxResult_t * option Z :=
  match credit with
  | None => (flagcxInvalidArgument, None)
  | Some c =>
    if negb available || (cr_capacity c =? 0) then (flagcxInvalidArgument, None)
    else if cr_capacity c <? cr_inUse c then (flagcxInternalError, None)
    else (flagcxSuccess, Some (cr_capacity c -u32 cr_inUse c))
  end.

(** ** Request state *)

Inductive flagcxNetRequestState :=
| FLAGCX_NET_REQUEST_FREE
| FLAGCX_NET_REQUEST_PENDING
| FLAGCX_NET_REQUEST_COMPLETE.

#[export] Instance flagcxNetRequestState_eq_dec : EqDecision flagcxNetRequestState.
Proof. solve_decision. Defined.

Record flagcxNetRequestCore := MkRequestCore {
  rc_state : flagcxNetRequestState;
  rc_pending : Z;
  rc_result : flagcxResult_t
}.

Section RequestCore.
Implicit Types core : option flagcxNetRequestCore.

Definition request_not_pending (c : flagcxNetRequestCore) : bool :=
  negb (bool_decide (rc_state c = FLAGCX_NET_REQUEST_PENDING)).

Definition flagcxNetRequestCoreInit core : option flagcxNetRequestCore :=
  match core with
  | None => None
  | Some _ => Some (MkRequestCore FLAGCX_NET_REQUEST_FREE 0 flagcxSuccess)
  end.

Definition flagcxNetRequestCoreAcquire core : flagcxResult_t * option flagcxNetRequestCore :=
  match core with
  | None => (flagcxInvalidArgument, core)
  | Some c =>
    if negb (bool_decide (rc_state c = FLAGCX_NET_REQUEST_FREE)) then (flagcxInProgress, core)
    else (flagcxSuccess, Some (MkRequestCore FLAGCX_NET_REQUEST_PENDING 0 flagcxSuccess))
  end.

Definition flagcxNetRequestCoreAddPending core (count : Z) : flagcxResult_t * option flagcxNetRequestCore :=
  match core with
  | None => (flagcxInvalidArgument, core)
  | Some c =>
    if (count =? 0) || request_not_pending c then (flagcxInvalidArgument, core)
    else
      let old := rc_pending c in
      let c := MkRequestCore (rc_state c) (old +u32 count) (rc_result c) in
      if UINT32_MAX - count <? old
      then (flagcxInvalidArgument, Some (MkRequestCore (rc_state c) (rc_pending c -u32 count) (rc_result c)))
      else (flagcxSuccess, Some c)
  end.

Definition flagcxNetRequestCoreRecordResult (c : flagcxNetRequestCore) (result : flagcxResult_t) :
    flagcxNetRequestCore :=
  if bool_decide (result = flagcxSuccess) || bool_decide (result = flagcxInProgress) then c
  else if bool_decide (rc_result c = flagcxSuccess) then MkRequestCore (rc_state c) (rc_pending c) result
  else c.

Definition flagcxNetRequestCoreComplete core (count : Z) (result : flagcxResult_t) :
    flagcxResult_t * option flagcxNetRequestCore :=
  match core with
  | None => (flagcxInvalidArgument, core)
  | Some c =>
    if (count =? 0) || request_not_pending c then (flagcxInvalidArgument, core)
    else
      let c := flagcxNetRequestCoreRecordResult c result in
      if rc_pending c <? count then (flagcxInvalidArgument, Some c)
      else
        let next := rc_pending c -u32 count in
        (flagcxSuccess,
         Some (MkRequestCore (if next =? 0 then FLAGCX_NET_REQUEST_COMPLETE else rc_state c) next (rc_result c)))
  end.

Definition flagcxNetRequestCoreFinish core (result : flagcxResult_t) : flagcxResult_t * option flagcxNetRequestCore :=
  match core with
  | None => (flagcxInvalidArgument, core)
  | Some c =>
    if request_not_pending c || negb (rc_pending c =? 0) then (flagcxInvalidArgument, core)
    else
      let c := flagcxNetRequestCoreRecordResult c result in
      (flagcxSuccess, Some (MkRequestCore FLAGCX_NET_REQUEST_COMPLETE (rc_pending c) (rc_result c)))
  end.

Definition flagcxNetRequestCoreTest core (done : bool) : flagcxResult_t * option bool :=
  match core with
  | None => (flagcxInvalidArgument, None)
  | Some c =>
    if negb done || bool_decide (rc_state c = FLAGCX_NET_REQUEST_FREE) then (flagcxInvalidArgument, None)
    else
      let d := bool_decide (rc_state c = FLAGCX_NET_REQUEST_COMPLETE) in
      (if d then rc_result c else flagcxSuccess, Some d)
  end.

Definition flagcxNetRequestCoreRelease core : flagcxResult_t * option flagcxNetRequestCore :=
  match core with
  | None => (flagcxInvalidArgument, core)
  | Some c =>
    if negb (bool_decide (rc_state c = FLAGCX_NET_REQUEST_COMPLETE)) then (flagcxInvalidArgument, core)
    else (flagcxSuccess, flagcxNetRequestCoreInit core)
  end.

End RequestCore.

(** [*completed] *)
Definition flagcxTransportClassifyCompletion (result : flagcxResult_t) (completed : bool) :
    flagcxResult_t * option Z :=
  if negb completed then (flagcxInvalidArgument, None)
  else if bool_decide (result = flagcxSuccess) then (flagcxSuccess, Some 1)
  else if bool_decide (result = flagcxInProgress) then (flagcxSuccess, Some 0)
  else (result, Some 0).

(** ** Posting and polling *)

Record flagcxNetPostResult := MkPostResult {
  po_result : flagcxResult_t;
  po_requested : Z;
  po_accepted : Z
}.

Definition flagcxNetPostResultInit (post : option flagcxNetPostResult) (requested accepted : Z)
    (result : flagcxResult_t) : flagcxResult_t * option flagcxNetPostResult :=
  match post with
  | None => (flagcxInvalidArgument, post)
  | Some _ =>
    if (requested <? 0) || (accepted <? 0) || (requested <? accepted) then (flagcxInvalidArgument, post)
    else (flagcxSuccess, Some (MkPostResult result requested accepted))
  end.

(** The state a polled batch is in after some iterations: the requests, the
    flags, the count, the first error, and the provider's own state. *)
Section TestBatch.
Context {S : Type} (testFn : S -> Z -> flagcxResult_t * Z * S).

(** The iterations from [i] on; [testFn] answers its result and the value it
    leaves in [doneFlags[i]], which it finds 0. *)
Fixpoint test_loop (n i : nat) (requests doneFlags : list Z) (doneCount : Z) (firstError : flagcxResult_t) (s : S) :
    option (flagcxResult_t * list Z * list Z * Z * S) :=
  match n with
  | O => Some (firstError, requests, doneFlags, doneCount, s)
  | Datatypes.S n =>
    request ← arr_get requests (Z.of_nat i);
    let '(result, done, s) := if request =? NULL then (flagcxSuccess, 1, s) else testFn s request in
    let firstError := if failed result && negb (failed firstError) then result else firstError in
    doneFlags ← arr_set doneFlags (Z.of_nat i) done;
    if negb (done =? 0) then
      requests ← arr_set requests (Z.of_nat i) NULL;
      test_loop n (Datatypes.S i) requests doneFlags (doneCount + 1) firstError s
    else test_loop n (Datatypes.S i) requests doneFlags doneCount firstError s
  end.
End TestBatch.

(** The requests, the flags and the count, after the call. *)
Definition flagcxNetTestBatchCommon {S : Type} (requests : option (list Z)) (nRequests : Z)
    (doneFlags : option (list Z)) (doneCount : bool) (testFn : option (S -> Z -> flagcxResult_t * Z * S)) (s : S) :
    option (flagcxResult_t * option (list Z) * option (list Z) * option Z * S) :=
  let invalid := Some (flagcxInvalidArgument, requests, doneFlags, None, s) in
  if negb doneCount || (nRequests <? 0) then invalid
  else if nRequests =? 0 then Some (flagcxSuccess, requests, doneFlags, Some 0, s)
  else
    match requests, doneFlags, testFn with
    | Some rs, Some fs, Some test =>
      '(r, rs, fs, count, s) ← test_loop test (Z.to_nat nRequests) 0 rs fs 0 flagcxSuccess s;
      Some (r, Some rs, Some fs, Some count, s)
    | _, _, _ => invalid
    end.

(** ** Names independent of the network *)

Definition flagcxTransportSelectLane := flagcxNetSelectLane.
Definition flagcxTransportCommitLane := flagcxNetCommitLane.
Definition flagcxTransportCreditInit := flagcxNetCreditInit.
Definition flagcxTransportCreditAcquire := flagcxNetCreditAcquire.
Definition flagcxTransportCreditRelease := flagcxNetCreditRelease.
Definition flagcxTransportCreditAvailable := flagcxNetCreditAvailable.
Definition flagcxTransportRequestInit := flagcxNetRequestCoreInit.
Definition flagcxTransportRequestAcquire := flagcxNetRequestCoreAcquire.
Definition flagcxTransportRequestAddPending := flagcxNetRequestCoreAddPending.
Definition flagcxTransportRequestComplete := flagcxNetRequestCoreComplete.
Definition flagcxTransportRequestFinish := flagcxNetRequestCoreFinish.
Definition flagcxTransportRequestTest := flagcxNetRequestCoreTest.
Definition flagcxTransportRequestRelease := flagcxNetRequestCoreRelease.
Definition flagcxTransportPostResultInit := flagcxNetPostResultInit.
