(* ===== verification/NetScoreboard.v ===== *)
(** The completion scoreboard and the release groups of [NetTransport]: the
    ring of entries implements a finite map from sequence numbers to
    submissions, from which a completed prefix is retired; a release is allowed
    exactly when every member of its group has completed without error. *)
From S2P Require Import Prelude Flagcx Arrays NetTransport.

(** ** The abstract scoreboard *)

(** A submission that is tracked and not yet retired. *)
Record live_entry := MkLive {
  le_context : flagcxNetSubmitContext;
  le_group : Z;
  le_done : option flagcxResult_t
}.

Definition entry_of (l : option live_entry) : flagcxNetCompletionEntry :=
  match l with
  | None => flagcxNetCompletionEntryReset
  | Some l =>
    MkCompletionEntry (le_context l) (le_group l) (default flagcxSuccess (le_done l))
      (if le_done l then FLAGCX_NET_COMPLETION_ENTRY_COMPLETE else FLAGCX_NET_COMPLETION_ENTRY_PENDING)
  end.

(** The ring [es] of [sb] holds the submissions [live], each at its sequence
    number modulo the capacity. *)
Record tracks (sb : flagcxNetCompletionScoreboard) (es : list flagcxNetCompletionEntry)
    (live : gmap Z live_entry) : Prop := {
  tk_cap : 0 < sb_capacity sb < U32_MOD;
  tk_len : sb_capacity sb <= Z.of_nat (length es);
  tk_next : 0 <= sb_nextSequence sb <= U64_MAX;
  tk_inFlight : sb_inFlight sb = Z.of_nat (size live);
  tk_live : forall s l, live !! s = Some l ->
    sb_nextSequence sb <= s < sb_nextSequence sb + sb_capacity sb /\ s < U64_MAX /\
    sc_sequence (le_context l) = s /\ sc_generation (le_context l) = sb_generation sb;
  tk_slots : forall s, sb_nextSequence sb <= s < sb_nextSequence sb + sb_capacity sb ->
    es !! Z.to_nat (s mod sb_capacity sb) = Some (entry_of (live !! s))
}.

(** Between calls no completed submission is first in line. *)
Definition board (sb : flagcxNetCompletionScoreboard) (live : gmap Z live_entry) : Prop :=
  exists es, sb_entries sb = Some es /\ tracks sb es live /\
    forall l, live !! sb_nextSequence sb = Some l -> le_done l = None.

(** The first [n] sequence numbers from [next] on are completed, the one after
    is not. *)
Definition retires (next : Z) (live : gmap Z live_entry) (n : nat) : Prop :=
  (forall i : Z, next <= i < next + Z.of_nat n -> exists l, live !! i = Some l /\ is_Some (le_done l)) /\
  (forall l, live !! (next + Z.of_nat n) = Some l -> le_done l = None).

(** What is left of [live] from [next] on. *)
Definition live_from (next : Z) (live : gmap Z live_entry) : gmap Z live_entry :=
  filter (fun p => next <= p.1) live.

(** ** Slots *)

Lemma slot_inj n c s s' : 0 < c -> n <= s < n + c -> n <= s' < n + c -> s mod c = s' mod c -> s = s'.
Proof.
  intros Hc Hs Hs' He.
  rewrite (Z.div_mod s c), (Z.div_mod s' c), He by lia. f_equal. f_equal.
  assert (Hd : (s' mod c) = (s mod c)) by lia.
  pose proof (Z.div_mod s c). pose proof (Z.div_mod s' c).
  assert (c * (s / c - s' / c) = s - s') by nia.
  assert (- c < s - s' < c) by lia. nia.
Qed.

Lemma slot_range s c : 0 < c -> 0 <= s mod c < c.
Proof. intros. by apply Z.mod_pos_bound. Qed.

(** Keys within a window of [c] numbers: at most [c] of them. *)
Lemma window_size {A} (m : gmap Z A) n c :
  0 <= c -> (forall s x, m !! s = Some x -> n <= s < n + c) -> Z.of_nat (size m) <= c.
Proof.
  intros Hc Hw.
  assert (Hsub : dom m ⊆ (list_to_set (seqZ n c) : gset Z)).
  { intros s [x Hx]%elem_of_dom. apply elem_of_list_to_set, elem_of_seqZ. by eapply Hw. }
  apply subseteq_size in Hsub. rewrite size_dom in Hsub.
  rewrite size_list_to_set in Hsub by apply NoDup_seqZ. rewrite length_seqZ in Hsub. lia.
Qed.

(** Only these fields matter. *)
Lemma tracks_cong sb sb' es live :
  tracks sb es live -> sb_capacity sb' = sb_capacity sb -> sb_nextSequence sb' = sb_nextSequence sb ->
  sb_inFlight sb' = sb_inFlight sb -> sb_generation sb' = sb_generation sb -> tracks sb' es live.
Proof. intros [] Hc Hn Hi Hg. constructor; rewrite ?Hc, ?Hn, ?Hi, ?Hg; done. Qed.

Section Tracks.
Context (sb : flagcxNetCompletionScoreboard) (es : list flagcxNetCompletionEntry) (live : gmap Z live_entry).
Hypothesis T : tracks sb es live.

Lemma tracks_slot s :
  sb_nextSequence sb <= s < sb_nextSequence sb + sb_capacity sb ->
  arr_get es (s mod sb_capacity sb) = Some (entry_of (live !! s)).
Proof.
  intros Hs. destruct T as [Tcap Tlen Tnext Tin Tlive Tslots]. pose proof (slot_range s (sb_capacity sb)).
  unfold arr_get. rewrite (proj2 (Z.leb_le _ _)) by lia. by apply Tslots.
Qed.

Lemma tracks_set s e :
  arr_set es (s mod sb_capacity sb) e = Some (<[Z.to_nat (s mod sb_capacity sb) := e]> es).
Proof.
  destruct T as [Tcap Tlen Tnext Tin Tlive Tslots]. pose proof (slot_range s (sb_capacity sb)).
  unfold arr_set. rewrite (proj2 (Z.leb_le _ _)), (proj2 (Z.ltb_lt _ _)) by lia. done.
Qed.

Lemma tracks_size : Z.of_nat (size live) <= sb_capacity sb.
Proof. destruct T as [Tcap Tlen Tnext Tin Tlive Tslots]. apply (window_size _ (sb_nextSequence sb)); [lia|]. intros s l Hl. by destruct (Tlive _ _ Hl). Qed.

(** A free slot has room for one more. *)
Lemma tracks_room s :
  sb_nextSequence sb <= s < sb_nextSequence sb + sb_capacity sb -> live !! s = None ->
  Z.of_nat (size live) < sb_capacity sb.
Proof.
  intros Hs Hn. destruct T as [Tcap Tlen Tnext Tin Tlive Tslots].
  assert (Z.of_nat (size (<[s := MkLive submit_context_zero 0 None]> live)) <= sb_capacity sb).
  { apply (window_size _ (sb_nextSequence sb)); [lia|]. intros s' l.
    destruct (decide (s' = s)) as [->|]; [lia|]. rewrite lookup_insert_ne by done. intros Hl. by destruct (Tlive _ _ Hl). }
  rewrite map_size_insert_None in H by done. lia.
Qed.

(** Overwriting the slot of a sequence number in the window. *)
Lemma slots_update s l' :
  sb_nextSequence sb <= s < sb_nextSequence sb + sb_capacity sb ->
  forall s', sb_nextSequence sb <= s' < sb_nextSequence sb + sb_capacity sb ->
  <[Z.to_nat (s mod sb_capacity sb) := entry_of l']> es !! Z.to_nat (s' mod sb_capacity sb) =
  Some (entry_of (partial_alter (fun _ => l') s live !! s')).
Proof.
  intros Hs s' Hs'. destruct T as [Tcap Tlen Tnext Tin Tlive Tslots].
  pose proof (slot_range s (sb_capacity sb)). pose proof (slot_range s' (sb_capacity sb)).
  destruct (decide (s' = s)) as [->|Hne].
  - rewrite list_lookup_insert_eq by lia. by rewrite lookup_partial_alter_eq.
  - rewrite list_lookup_insert_ne.
    + rewrite lookup_partial_alter_ne by done. by apply Tslots.
    + intros He. apply Hne. apply (slot_inj (sb_nextSequence sb) (sb_capacity sb)); lia.
Qed.

End Tracks.

(** ** Retiring *)

Lemma live_from_lookup next live s l :
  live_from next live !! s = Some l <-> live !! s = Some l /\ next <= s.
Proof. unfold live_from. rewrite map_lookup_filter_Some. done. Qed.

Lemma live_from_all next live : (forall s l, live !! s = Some l -> next <= s) -> live_from next live = live.
Proof.
  intros Hge. apply map_eq. intros s. destruct (live !! s) as [l|] eqn:Hl.
  - apply live_from_lookup. eauto.
  - apply eq_None_not_Some. intros [l Hl']. apply live_from_lookup in Hl' as [? _]. congruence.
Qed.

Lemma live_from_delete next live s : s < next -> live_from next (delete s live) = live_from next live.
Proof.
  intros Hs. apply map_eq. intros k. apply option_eq. intros l. rewrite !live_from_lookup, lookup_delete_Some.
  naive_solver lia.
Qed.

Lemma tracks_live_from sb es live : tracks sb es live -> live_from (sb_nextSequence sb) live = live.
Proof. intros T. apply live_from_all. intros s l Hl. destruct (tk_live _ _ _ T _ _ Hl). lia. Qed.

(** The scoreboard after retiring the submission first in line. *)
Lemma tracks_retire sb es live l :
  tracks sb es live -> live !! sb_nextSequence sb = Some l ->
  tracks (set_sb_nextSequence (sb_nextSequence sb +u64 1) (set_sb_inFlight (sb_inFlight sb -u32 1) sb))
    (<[Z.to_nat (sb_nextSequence sb mod sb_capacity sb) := flagcxNetCompletionEntryReset]> es)
    (delete (sb_nextSequence sb) live) /\
  sb_nextSequence sb +u64 1 = sb_nextSequence sb + 1.
Proof.
  intros T Hl. pose proof (tracks_size _ _ _ T) as Hsz. pose proof T as [Tcap Tlen Tnext Tin Tlive Tslots].
  destruct (Tlive _ _ Hl) as (Hw & Hmax & _).
  assert (Hd : size live = S (size (delete (sb_nextSequence sb) live))).
  { rewrite map_size_delete, Hl. cbn. enough (size live <> 0%nat) by lia.
    intros H0%map_size_empty_inv. subst. by rewrite lookup_empty in Hl. }
  assert (He : sb_nextSequence sb +u64 1 = sb_nextSequence sb + 1) by (rewrite Z.mod_small; lia).
  split; [|done]. constructor; cbn; rewrite ?He; try done; try lia.
  - by rewrite length_insert.
  - rewrite Tin, Hd, Z.mod_small; lia.
  - intros s l' [Hne Hl']%lookup_delete_Some. destruct (Tlive _ _ Hl') as (? & ? & ? & ?). split_and!; try done; lia.
  - intros s Hs. destruct (decide (s = sb_nextSequence sb + sb_capacity sb)) as [->|Hne].
    + rewrite <- Z.add_mod_idemp_r, Z.mod_same, Z.add_0_r by lia.
      pose proof (slot_range (sb_nextSequence sb) (sb_capacity sb)).
      rewrite list_lookup_insert_eq by lia. rewrite lookup_delete_ne by lia.
      destruct (live !! (sb_nextSequence sb + sb_capacity sb)) as [l'|] eqn:Hl'; [|done]. exfalso. destruct (Tlive _ _ Hl'). lia.
    + rewrite (slots_update sb es live T (sb_nextSequence sb) None) by lia. done.
Qed.

Lemma retire_loop_spec fuel : forall sb es live adv,
  tracks sb es live -> (size live <= fuel)%nat -> 0 <= adv -> adv + Z.of_nat (size live) < U32_MOD ->
  exists n sb' es', retire_loop fuel sb es adv = Some (sb', adv + Z.of_nat n) /\
    retires (sb_nextSequence sb) live n /\ sb_entries sb' = Some es' /\
    tracks sb' es' (live_from (sb_nextSequence sb + Z.of_nat n) live) /\
    sb_nextSequence sb' = sb_nextSequence sb + Z.of_nat n /\ sb_capacity sb' = sb_capacity sb /\
    sb_generation sb' = sb_generation sb /\ sb_firstError sb' = sb_firstError sb.
Proof.
  assert (Hstop : forall sb es live adv, tracks sb es live ->
    (forall l, live !! sb_nextSequence sb = Some l -> le_done l = None) ->
    exists n sb' es', Some (set_sb_entries es sb, adv) = Some (sb', adv + Z.of_nat n) /\
      retires (sb_nextSequence sb) live n /\ sb_entries sb' = Some es' /\
      tracks sb' es' (live_from (sb_nextSequence sb + Z.of_nat n) live) /\
      sb_nextSequence sb' = sb_nextSequence sb + Z.of_nat n /\ sb_capacity sb' = sb_capacity sb /\
      sb_generation sb' = sb_generation sb /\ sb_firstError sb' = sb_firstError sb).
  { intros sb es live adv T Hn. exists 0%nat, (set_sb_entries es sb), es. cbn. rewrite !Z.add_0_r.
    split_and!; try done.
    - split; [lia|]. cbn. rewrite Z.add_0_r. done.
    - rewrite (tracks_live_from _ _ _ T). destruct T. by constructor. }
  induction fuel as [|fuel IH]; intros sb es live adv T Hf Ha Hb; cbn [retire_loop];
    pose proof T as [Tcap Tlen Tnext Tin Tlive Tslots].
  - rewrite Tin. replace (size live) with 0%nat by lia. cbn. apply Hstop; [done|].
    intros l Hl. assert (size live = 0%nat) as H0%map_size_empty_inv by lia. subst. by rewrite lookup_empty in Hl.
  - destruct (Z.eqb_spec (sb_inFlight sb) 0) as [Hz|Hz].
    { apply Hstop; [done|]. intros l Hl. rewrite Tin in Hz.
      assert (size live = 0%nat) as H0%map_size_empty_inv by lia. subst. by rewrite lookup_empty in Hl. }
    rewrite (tracks_slot _ _ _ T) by lia. cbn [mbind option_bind].
    destruct (live !! sb_nextSequence sb) as [l|] eqn:Hl; cbn; [|apply Hstop; [done|]; by rewrite Hl].
    destruct (le_done l) as [r|] eqn:Hd; cbn; [|apply Hstop; [done|]; rewrite Hl; by intros ? [= <-]].
    destruct (Tlive _ _ Hl) as (Hw & Hmax & Hseq & Hgen).
    rewrite Hseq, Hgen, !Z.eqb_refl. cbn.
    rewrite (tracks_set _ _ _ T). cbn [mbind option_bind].
    destruct (tracks_retire _ _ _ _ T Hl) as [T' Hnx].
    assert (Hd' : size live = S (size (delete (sb_nextSequence sb) live))).
    { rewrite map_size_delete, Hl. cbn. enough (size live <> 0%nat) by lia.
      intros H0%map_size_empty_inv. subst. by rewrite lookup_empty in Hl. }
    rewrite (Z.mod_small (adv + 1)) by lia.
    destruct (IH _ _ _ (adv + 1) T') as (n & sb' & es' & Hr & [Hret1 Hret2] & He & Ht & Hn & Hc & Hg & Hfe);
      [lia|lia|lia|].
    rewrite Hr. exists (S n), sb', es'. cbn in *. rewrite Hnx in *. split_and!; try done; try lia.
    + do 2 f_equal. lia.
    + split.
      * intros i Hi. destruct (decide (i = sb_nextSequence sb)) as [->|]; [by eauto|].
        destruct (Hret1 i) as (l' & Hl' & Hd''); [lia|]. apply lookup_delete_Some in Hl' as [_ Hl']. eauto.
      * intros l' Hl'. apply Hret2. apply lookup_delete_Some. split; [lia|]. rewrite <- Hl'. f_equal. lia.
    + replace (sb_nextSequence sb + Z.of_nat (S n)) with (sb_nextSequence sb + 1 + Z.of_nat n) by lia.
      rewrite <- (live_from_delete _ live (sb_nextSequence sb)) by lia. done.
Qed.

(** ** The specification of the calls *)

Record abs_board := MkAbsBoard {
  ab_capacity : Z;
  ab_generation : Z;
  ab_next : Z;
  ab_firstError : flagcxResult_t;
  ab_live : gmap Z live_entry
}.

Inductive sb_call :=
| Submit (c : flagcxNetSubmitContext) (releaseGroup : Z)
| Cancel (c : flagcxNetSubmitContext)
| Complete (c : flagcxNetSubmitContext) (result : flagcxResult_t)
| Reset (generation initialSequence : Z).

(** The number of completed submissions from [next] on. *)
Fixpoint prefix_done (fuel : nat) (next : Z) (live : gmap Z live_entry) : nat :=
  match fuel with
  | O => 0
  | S fuel =>
    match live !! next with
    | Some l => if le_done l then S (prefix_done fuel (next + 1) live) else 0
    | None => 0
    end
  end.

Definition set_ab_live (live : gmap Z live_entry) (a : abs_board) : abs_board :=
  MkAbsBoard (ab_capacity a) (ab_generation a) (ab_next a) (ab_firstError a) live.

(** What [e] becomes when a further operation ends with [r]: the first error
    stays. *)
Definition first_error (e r : flagcxResult_t) : flagcxResult_t := if failed r && negb (failed e) then r else e.

(** The pending submission of a context. *)
Definition find_pending (a : abs_board) (c : flagcxNetSubmitContext) : option live_entry :=
  if (sc_generation c =? ab_generation a) && (ab_next a <=? sc_sequence c) then
    l ← ab_live a !! sc_sequence c;
    if bool_decide (le_done l = None) && flagcxNetSubmitContextMatches (le_context l) c then Some l else None
  else None.

Definition spec_submit (c : flagcxNetSubmitContext) (rg : Z) (a : abs_board) (gs : groups) :
    flagcxResult_t * abs_board * groups :=
  if (sc_sequence c =? U64_MAX) || negb (sc_generation c =? ab_generation a) || (sc_sequence c <? ab_next a)
  then (flagcxInvalidArgument, a, gs)
  else if ab_next a + ab_capacity a <=? sc_sequence c then (flagcxInProgress, a, gs)
  else if bool_decide (is_Some (ab_live a !! sc_sequence c)) || negb (Bool.eqb (rg =? NULL) (sc_groupId c =? 0))
  then (flagcxInvalidArgument, a, gs)
  else
    let a' := set_ab_live (<[sc_sequence c := MkLive c rg None]> (ab_live a)) a in
    if rg =? NULL then (flagcxSuccess, a', gs)
    else
      match gs !! rg with
      | None => (flagcxInvalidArgument, a, gs)
      | Some g =>
        let '(r, g) := flagcxNetReleaseGroupTrackLocked g c in
        (r, if failed r then a else a', <[rg := g]> gs)
      end.

Definition spec_cancel (c : flagcxNetSubmitContext) (a : abs_board) (gs : groups) :
    flagcxResult_t * abs_board * groups :=
  match find_pending a c with
  | None => (flagcxInvalidArgument, a, gs)
  | Some l =>
    let a' := set_ab_live (delete (sc_sequence c) (ab_live a)) a in
    match gs !! le_group l with
    | Some g =>
      if negb (bool_decide (gr_state g = FLAGCX_NET_RELEASE_GROUP_OPEN)) || (gr_pending g =? 0) || (gr_members g =? 0)
      then (flagcxInvalidArgument, a, gs)
      else (flagcxSuccess, a', <[le_group l := set_gr_counts (gr_pending g -u32 1) (gr_members g -u32 1) g]> gs)
    | None => (flagcxSuccess, a', gs)
    end
  end.

(** The completion is recorded, and the completed prefix retired. *)
Definition retire_completed (c : flagcxNetSubmitContext) (l : live_entry) (result : flagcxResult_t) (a : abs_board) :
    abs_board :=
  let live := <[sc_sequence c := MkLive (le_context l) (le_group l) (Some result)]> (ab_live a) in
  let next := ab_next a + Z.of_nat (prefix_done (Z.to_nat (ab_capacity a)) (ab_next a) live) in
  MkAbsBoard (ab_capacity a) (ab_generation a) next (first_error (ab_firstError a) result) (live_from next live).

Definition spec_complete (c : flagcxNetSubmitContext) (result : flagcxResult_t) (a : abs_board) (gs : groups) :
    flagcxResult_t * abs_board * groups :=
  match find_pending a c with
  | None => (flagcxInvalidArgument, a, gs)
  | Some l =>
    if bool_decide (result = flagcxInProgress) then (flagcxSuccess, a, gs)
    else
      match gs !! le_group l with
      | Some g =>
        let '(r, g) := flagcxNetReleaseGroupCompleteLocked g result in
        (r, if failed r then a else retire_completed c l result a, <[le_group l := g]> gs)
      | None => (flagcxSuccess, retire_completed c l result a, gs)
      end
  end.

Definition spec_reset (generation initialSequence : Z) (a : abs_board) (gs : groups) :
    flagcxResult_t * abs_board * groups :=
  if (initialSequence =? U64_MAX) || negb (bool_decide (ab_live a = ∅)) || (generation <=? ab_generation a)
  then (flagcxInvalidArgument, a, gs)
  else (flagcxSuccess, MkAbsBoard (ab_capacity a) generation initialSequence flagcxSuccess ∅, gs).

Definition spec_call (call : sb_call) : abs_board -> groups -> flagcxResult_t * abs_board * groups :=
  match call with
  | Submit c rg => spec_submit c rg
  | Cancel c => spec_cancel c
  | Complete c r => spec_complete c r
  | Reset gen init => spec_reset gen init
  end.

(** The calls of the code. *)
Definition run_call (call : sb_call) (sb : flagcxNetCompletionScoreboard) (gs : groups) :
    option (flagcxResult_t * option flagcxNetCompletionScoreboard * groups) :=
  match call with
  | Submit c rg => flagcxNetTrackSubmit (Some sb) (Some c) rg gs
  | Cancel c => flagcxNetTrackCancel (Some sb) (Some c) gs
  | Complete c r => '(r, sb, gs, _) ← flagcxNetTrackCompletion (Some sb) (Some c) r true gs; Some (r, sb, gs)
  | Reset gen init => '(r, sb) ← flagcxNetCompletionScoreboardReset (Some sb) gen init; Some (r, sb, gs)
  end.

(** A scoreboard implements an abstract one. *)
Definition implements (sb : flagcxNetCompletionScoreboard) (a : abs_board) : Prop :=
  board sb (ab_live a) /\ sb_capacity sb = ab_capacity a /\ sb_generation sb = ab_generation a /\
  sb_nextSequence sb = ab_next a /\ sb_firstError sb = ab_firstError a.

(** The groups of tracked submissions are alive. *)
Definition groups_alive (a : abs_board) (gs : groups) : Prop :=
  gs !! NULL = None /\
  forall s l, ab_live a !! s = Some l -> le_group l <> NULL -> is_Some (gs !! le_group l).

(** Arguments of a call are words, and its group is null or alive. *)
Definition call_ok (call : sb_call) (gs : groups) : Prop :=
  match call with
  | Submit c rg => is_u64 (sc_sequence c) /\ (rg <> NULL -> is_Some (gs !! rg))
  | Cancel c | Complete c _ => is_u64 (sc_sequence c)
  | Reset _ init => is_u64 init
  end.

(** ** The calls implement their specification *)

Lemma matches_eq l c :
  flagcxNetSubmitContextMatches l c = true -> sc_sequence l = sc_sequence c /\ sc_generation l = sc_generation c.
Proof. unfold flagcxNetSubmitContextMatches. intros H. bool_to_prop. done. Qed.

Lemma entry_state_free o : ce_state (entry_of o) = FLAGCX_NET_COMPLETION_ENTRY_FREE <-> o = None.
Proof. destruct o as [[? ? [?|]]|]; cbn; naive_solver. Qed.

Lemma entry_state_pending o :
  ce_state (entry_of o) = FLAGCX_NET_COMPLETION_ENTRY_PENDING <-> exists l, o = Some l /\ le_done l = None.
Proof. destruct o as [[? ? [?|]]|]; cbn; naive_solver. Qed.

(** A result of the code, with the state it leaves, is the one specified. *)
Definition meets (o : option (flagcxResult_t * option flagcxNetCompletionScoreboard * groups))
    (spec : flagcxResult_t * abs_board * groups) : Prop :=
  exists sb', o = Some (spec.1.1, Some sb', spec.2) /\ implements sb' spec.1.2.

Lemma meets_same sb a gs r : implements sb a -> meets (Some (r, Some sb, gs)) (r, a, gs).
Proof. intros. by exists sb. Qed.

(** Tracking a new submission. *)
Lemma track_entry_implements sb a es c rg :
  implements sb a -> sb_entries sb = Some es ->
  sc_generation c = ab_generation a -> ab_next a <= sc_sequence c < ab_next a + ab_capacity a ->
  sc_sequence c < U64_MAX -> ab_live a !! sc_sequence c = None ->
  exists sb', track_entry sb es (sc_sequence c mod sb_capacity sb) c rg = Some sb' /\
    implements sb' (set_ab_live (<[sc_sequence c := MkLive c rg None]> (ab_live a)) a).
Proof.
  intros ((es' & He & T & Hhd) & Hc & Hg & Hn & Hf) He' Hgen Hs Hmax Hfree.
  assert (es' = es) by congruence. subst es'. rewrite <- Hc, <- Hn in *.
  pose proof (tracks_room _ _ _ T _ Hs Hfree) as Hroom. pose proof T as [Tcap Tlen Tnext Tin Tlive Tslots].
  unfold track_entry. rewrite (tracks_set _ _ _ T). cbn [mbind option_bind]. eexists. split; [done|].
  split; [|done]. eexists. split; [done|]. split.
  - constructor; cbn; try done.
    + by rewrite length_insert.
    + rewrite map_size_insert_None by done. rewrite Tin, Z.mod_small; lia.
    + intros s l. destruct (decide (s = sc_sequence c)) as [->|].
      * rewrite lookup_insert_eq. intros [= <-]. cbn. split_and!; try done; lia.
      * rewrite lookup_insert_ne by done. apply Tlive.
    + apply (slots_update sb es (ab_live a) T (sc_sequence c) (Some (MkLive c rg None))). lia.
  - cbn. intros l. destruct (decide (sb_nextSequence sb = sc_sequence c)) as [Heq|].
    + rewrite Heq, lookup_insert_eq. by intros [= <-].
    + rewrite lookup_insert_ne by done. apply Hhd.
Qed.

Lemma submit_meets sb a gs c rg :
  implements sb a -> is_u64 (sc_sequence c) -> (rg <> NULL -> is_Some (gs !! rg)) ->
  meets (run_call (Submit c rg) sb gs) (spec_submit c rg a gs).
Proof.
  intros I Hu Hrg. pose proof I as ((es & He & T & _) & Hc & Hg & Hn & Hf).
  pose proof T as [Tcap Tlen Tnext Tin Tlive Tslots]. unfold is_u64 in Hu.
  cbn [run_call]. unfold flagcxNetTrackSubmit, spec_submit. rewrite He, <- Hg, <- Hn, <- Hc.
  rewrite (proj2 (Z.eqb_neq (sb_capacity sb) 0)) by lia. cbn [orb].
  destruct (sc_sequence c =? U64_MAX) eqn:Emax; [by apply meets_same|]. cbn [orb].
  destruct (negb _ || _) eqn:Egen; [by apply meets_same|]. bool_to_prop.
  rewrite Z.mod_small by lia.
  destruct (Z.leb_spec (sb_capacity sb) (sc_sequence c - sb_nextSequence sb)) as [Hw|Hw];
    destruct (Z.leb_spec (sb_nextSequence sb + sb_capacity sb) (sc_sequence c)); try lia; [by apply meets_same|].
  rewrite (tracks_slot _ _ _ T) by lia. cbn [mbind option_bind].
  case_bool_decide as Hfree; rewrite entry_state_free in Hfree; cbn [negb].
  2: { rewrite (bool_decide_eq_true_2 (is_Some _)) by (by apply not_eq_None_Some). by apply meets_same. }
  rewrite (bool_decide_eq_false_2 (is_Some _)) by (rewrite Hfree; by intros [? ?]). cbn [orb].
  destruct (track_entry_implements sb a es c rg I He) as (sb' & Ht & I'); [lia|lia|lia|done|].
  destruct (rg =? NULL) eqn:Enull, (sc_groupId c =? 0) eqn:Egid; cbn; try by apply meets_same.
  - bool_to_prop. subst rg. rewrite Ht. cbn. by exists sb'.
  - bool_to_prop. destruct Hrg as [g ->]; [done|]. cbn.
    destruct (flagcxNetReleaseGroupTrackLocked g c) as [r g'].
    destruct (failed r) eqn:Er; cbn; [by apply meets_same|].
    rewrite Ht. cbn. by exists sb'.
Qed.

(** The code finds the pending submission of a context exactly when there is
    one. *)
Lemma find_pending_spec sb a es c :
  implements sb a -> sb_entries sb = Some es -> is_u64 (sc_sequence c) ->
  (find_pending a c = None /\
     (outside_window sb c = true \/ outside_window sb c = false /\
       exists e, arr_get es (sc_sequence c mod sb_capacity sb) = Some e /\ not_pending e c = true)) \/
  (exists l, find_pending a c = Some l /\ outside_window sb c = false /\
     arr_get es (sc_sequence c mod sb_capacity sb) = Some (entry_of (Some l)) /\
     not_pending (entry_of (Some l)) c = false /\
     ab_live a !! sc_sequence c = Some l /\ le_done l = None).
Proof.
  intros ((es' & He & T & _) & Hc & Hg & Hn & Hf) He' Hu.
  assert (es' = es) by congruence. subst es'. pose proof T as [Tcap Tlen Tnext Tin Tlive Tslots]. unfold is_u64 in Hu.
  unfold find_pending, outside_window. rewrite <- Hn, <- Hg.
  destruct (Z.eqb_spec (sc_generation c) (sb_generation sb)) as [Hgc|]; cbn; [|by left; auto].
  rewrite Z.leb_antisym. destruct (Z.ltb_spec (sc_sequence c) (sb_nextSequence sb)) as [|Hge]; cbn; [by left; auto|].
  rewrite Z.mod_small by lia.
  destruct (Z.leb_spec (sb_capacity sb) (sc_sequence c - sb_nextSequence sb)) as [|Hlt].
  { left. split; [|by left]. destruct (ab_live a !! sc_sequence c) as [l|] eqn:Hl; [|done].
    exfalso. destruct (Tlive _ _ Hl). lia. }
  rewrite (tracks_slot _ _ _ T) by lia. unfold not_pending.
  destruct (ab_live a !! sc_sequence c) as [l|] eqn:Hl; cbn.
  2: { left. split; [done|]. right. eauto. }
  destruct (le_done l) as [r|] eqn:Hd; cbn.
  { left. split; [done|]. right. split; [done|]. eexists. split; [done|]. cbn. by rewrite ?Hd. }
  destruct (flagcxNetSubmitContextMatches (le_context l) c) eqn:Hm.
  - right. exists l. split_and!; try done; by rewrite Hd, ?Hm.
  - left. split; [done|]. right. split; [done|]. eexists. split; [done|]. cbn. by rewrite ?Hd, ?Hm.
Qed.

(** Rewriting the submission of a tracked sequence number, or dropping it. *)
Lemma tracks_alter sb es live s l l' :
  tracks sb es live -> live !! s = Some l ->
  (forall x, l' = Some x -> sc_sequence (le_context x) = s /\ sc_generation (le_context x) = sb_generation sb) ->
  tracks (set_sb_inFlight (if l' then sb_inFlight sb else sb_inFlight sb -u32 1) sb)
    (<[Z.to_nat (s mod sb_capacity sb) := entry_of l']> es) (partial_alter (fun _ => l') s live).
Proof.
  intros T Hl Hl'. pose proof (tracks_size _ _ _ T) as Hsz. pose proof T as [Tcap Tlen Tnext Tin Tlive Tslots].
  destruct (Tlive _ _ Hl) as (Hw & Hmax & _).
  constructor; cbn; try done.
  - by rewrite length_insert.
  - destruct l' as [x|].
    + change (partial_alter _ s live) with (<[s := x]> live). by rewrite map_size_insert_Some by eauto.
    + change (partial_alter _ s live) with (delete s live). rewrite map_size_delete, Hl, Tin. cbn.
      assert (size live <> 0%nat). { intros H0%map_size_empty_inv. subst. by rewrite lookup_empty in Hl. }
      rewrite Z.mod_small; lia.
  - intros s' x. destruct (decide (s' = s)) as [->|].
    + rewrite lookup_partial_alter_eq. intros Hx. destruct (Hl' _ Hx). done.
    + rewrite lookup_partial_alter_ne by done. apply Tlive.
  - by apply (slots_update sb es live T).
Qed.

Lemma cancel_meets sb a gs c :
  implements sb a -> groups_alive a gs -> is_u64 (sc_sequence c) ->
  meets (run_call (Cancel c) sb gs) (spec_cancel c a gs).
Proof.
  intros I [Hnull Halive] Hu. pose proof I as ((es & He & T & Hhd) & Hc & Hg & Hn & Hf).
  cbn [run_call]. unfold flagcxNetTrackCancel, spec_cancel. rewrite He.
  rewrite (proj2 (Z.eqb_neq (sb_capacity sb) 0)) by (destruct (tk_cap _ _ _ T); lia).
  destruct (find_pending_spec sb a es c I He Hu) as [[-> [-> | [-> (e & -> & Hp)]]] | (l & -> & -> & -> & Hp & Hl & Hd)];
    cbn [mbind option_bind]; [by apply meets_same|rewrite Hp; by apply meets_same|rewrite Hp].
  cbn [entry_of ce_releaseGroup].
  assert (Hfree : exists sb', untrack_entry sb es (sc_sequence c mod sb_capacity sb) = Some sb' /\
    implements sb' (set_ab_live (delete (sc_sequence c) (ab_live a)) a)).
  { unfold untrack_entry. rewrite (tracks_set _ _ _ T). cbn [mbind option_bind]. eexists. split; [done|].
    split; [|done]. eexists. split; [done|]. split.
    - by eapply tracks_cong; [apply (tracks_alter sb es (ab_live a) (sc_sequence c) l None T Hl)|..].
    - cbn. intros l' [_ Hl']%lookup_delete_Some. by apply Hhd. }
  destruct Hfree as (sb' & Hu' & I').
  destruct (Z.eqb_spec (le_group l) NULL) as [Hz|Hz]; cbn.
  - rewrite Hz, Hnull, Hu'. cbn. by exists sb'.
  - destruct (Halive _ _ Hl Hz) as [g Hgs]. rewrite Hgs. cbn.
    destruct (_ || _); [by apply meets_same|]. rewrite Hu'. cbn. by exists sb'.
Qed.

Lemma reset_meets sb a gs gen init :
  implements sb a -> is_u64 init -> meets (run_call (Reset gen init) sb gs) (spec_reset gen init a gs).
Proof.
  intros I Hu. pose proof I as ((es & He & T & Hhd) & Hc & Hg & Hn & Hf).
  pose proof T as [Tcap Tlen Tnext Tin Tlive Tslots]. unfold is_u64 in Hu.
  cbn [run_call]. unfold flagcxNetCompletionScoreboardReset, spec_reset. rewrite He, <- Hg.
  rewrite (proj2 (Z.eqb_neq (sb_capacity sb) 0)) by lia. cbn [orb].
  destruct (init =? U64_MAX) eqn:Ei; [by apply meets_same|]. cbn [orb]. rewrite Tin.
  case_bool_decide as Hl.
  2: { rewrite (proj2 (Z.eqb_neq (Z.of_nat _) 0)); [by apply meets_same|]. intros H0. apply Hl, map_size_empty_inv. lia. }
  rewrite Hl, map_size_empty. cbn [Z.of_nat Z.eqb negb orb].
  destruct (gen <=? sb_generation sb); [by apply meets_same|].
  assert (Hfree : forall i : nat, Z.of_nat i < sb_capacity sb -> es !! i = Some flagcxNetCompletionEntryReset).
  { intros i Hi. set (n := sb_nextSequence sb) in *. set (k := sb_capacity sb) in *.
    set (s := n + (Z.of_nat i - n) mod k).
    assert (Hs : n <= s < n + k) by (pose proof (Z.mod_pos_bound (Z.of_nat i - n) k); lia).
    specialize (Tslots s Hs). rewrite Hl, lookup_empty in Tslots. cbn [entry_of] in Tslots. rewrite <- Tslots. f_equal.
    unfold s. rewrite Zplus_mod_idemp_r. replace (n + (Z.of_nat i - n)) with (Z.of_nat i) by lia.
    rewrite Z.mod_small by lia. lia. }
  assert (Hscan : forall n i, Z.of_nat (i + n) <= sb_capacity sb -> entry_in_use n i es = Some false).
  { induction n as [|n IH]; intros i Hi; cbn; [done|]. rewrite arr_get_nat, Hfree by lia. cbn. apply IH. lia. }
  rewrite Hscan by lia. cbn [mbind option_bind]. eexists. split; [done|].
  split; [|done]. exists es. split; [done|]. split; [|by cbn].
  constructor; cbn; try done; try lia.
  - intros s Hs. pose proof (slot_range s (sb_capacity sb)). rewrite lookup_empty. apply Hfree. lia.
Qed.

Lemma retires_prefix_done next live n fuel :
  retires next live n -> (n <= fuel)%nat -> prefix_done fuel next live = n.
Proof.
  intros [Hr Hs]. revert fuel next Hr Hs. induction n as [|n IH]; intros fuel next Hr Hs Hf.
  - destruct fuel as [|fuel]; cbn; [done|]. destruct (live !! next) as [l|] eqn:Hl; [|done].
    rewrite Z.add_0_r in Hs. by rewrite (Hs _ Hl).
  - destruct fuel as [|fuel]; [lia|]. cbn.
    destruct (Hr next) as (l & -> & r & ->); [lia|]. f_equal. apply IH; [| |lia].
    + intros i Hi. apply Hr. lia.
    + intros l' Hl'. apply Hs. rewrite <- Hl'. f_equal. lia.
Qed.

(** A submission retires with its successors up to the first pending one. *)
Lemma complete_retires sb a es c l result :
  implements sb a -> sb_entries sb = Some es -> ab_live a !! sc_sequence c = Some l -> result <> flagcxInProgress ->
  let sb1 := if failed result && negb (failed (sb_firstError sb)) then set_sb_firstError result sb else sb in
  exists sb' adv,
    (es ← arr_set es (sc_sequence c mod sb_capacity sb)
       (MkCompletionEntry (le_context l) (le_group l) result FLAGCX_NET_COMPLETION_ENTRY_COMPLETE);
     retire_loop (Z.to_nat (sb_inFlight sb1)) sb1 es 0) = Some (sb', adv) /\
    adv = ab_next (retire_completed c l result a) - ab_next a /\
    implements sb' (retire_completed c l result a).
Proof.
  intros ((es' & He & T & Hhd) & Hc & Hg & Hn & Hf) He' Hl Hres sb1.
  assert (es' = es) by congruence. subst es'.
  set (l' := MkLive (le_context l) (le_group l) (Some result)).
  destruct (tk_live _ _ _ T _ _ Hl) as (Hw & Hmax & Hseq & Hgen).
  assert (T1 : tracks sb1 (<[Z.to_nat (sc_sequence c mod sb_capacity sb) := entry_of (Some l')]> es)
                 (<[sc_sequence c := l']> (ab_live a))).
  { eapply tracks_cong; [apply (tracks_alter sb es (ab_live a) (sc_sequence c) l (Some l') T Hl); by intros x [= <-]|..];
      unfold sb1; by destruct (_ && _). }
  rewrite (tracks_set _ _ _ T). cbn [mbind option_bind].
  change (MkCompletionEntry (le_context l) (le_group l) result FLAGCX_NET_COMPLETION_ENTRY_COMPLETE)
    with (entry_of (Some l')).
  pose proof (tracks_size _ _ _ T1) as Hsz. pose proof (tk_cap _ _ _ T1) as Hcap.
  assert (Hsz1 : sb_inFlight sb1 = Z.of_nat (size (<[sc_sequence c := l']> (ab_live a)))).
  { apply (tk_inFlight _ _ _ T1). }
  destruct (retire_loop_spec (Z.to_nat (sb_inFlight sb1)) _ _ _ 0 T1)
    as (n & sb' & es' & -> & Hr & He1 & T' & Hn' & Hc' & Hg' & Hf'); [lia|lia|lia|].
  assert (E1 : sb_nextSequence sb1 = ab_next a) by (rewrite <- Hn; unfold sb1; by destruct (_ && _)).
  assert (E2 : sb_capacity sb1 = ab_capacity a) by (rewrite <- Hc; unfold sb1; by destruct (_ && _)).
  assert (E3 : sb_generation sb1 = ab_generation a) by (rewrite <- Hg; unfold sb1; by destruct (_ && _)).
  assert (E4 : sb_firstError sb1 = first_error (ab_firstError a) result)
    by (rewrite <- Hf; unfold sb1, first_error; by destruct (_ && _)).
  rewrite E1 in *. rewrite E2 in *.
  assert (Hpre : prefix_done (Z.to_nat (ab_capacity a)) (ab_next a) (<[sc_sequence c := l']> (ab_live a)) = n).
  { apply retires_prefix_done; [done|]. apply Nat2Z.inj_le.
    assert (Hfrom : forall i, ab_next a <= i < ab_next a + Z.of_nat n ->
      i ∈ (dom (<[sc_sequence c := l']> (ab_live a)) : gset Z)).
    { intros i Hi. destruct (proj1 Hr i Hi) as (x & Hx & _). apply elem_of_dom. eauto. }
    assert (Hsub : (list_to_set (seqZ (ab_next a) (Z.of_nat n)) : gset Z) ⊆ dom (<[sc_sequence c := l']> (ab_live a))).
    { intros i Hi. apply Hfrom. by apply elem_of_list_to_set, elem_of_seqZ in Hi. }
    apply subseteq_size in Hsub. rewrite size_list_to_set in Hsub by apply NoDup_seqZ.
    rewrite length_seqZ, size_dom in Hsub. lia. }
  exists sb', (Z.of_nat n). split; [done|]. unfold retire_completed. fold l'. cbn. rewrite Hpre. split; [lia|].
  split; [|by rewrite Hc', Hg', Hn', Hf', ?E2, E3, E4].
  exists es'. cbn. split; [done|]. split; [done|]. rewrite Hn'. intros x [Hx _]%live_from_lookup.
  by apply (proj2 Hr).
Qed.

Lemma complete_meets sb a gs c result :
  implements sb a -> groups_alive a gs -> is_u64 (sc_sequence c) ->
  meets (run_call (Complete c result) sb gs) (spec_complete c result a gs).
Proof.
  intros I [Hnull Halive] Hu. pose proof I as ((es & He & T & Hhd) & Hc & Hg & Hn & Hf).
  cbn [run_call]. unfold flagcxNetTrackCompletion, spec_complete. rewrite He.
  rewrite (proj2 (Z.eqb_neq (sb_capacity sb) 0)) by (destruct (tk_cap _ _ _ T); lia). cbn [negb orb].
  destruct (find_pending_spec sb a es c I He Hu) as [[-> [-> | [-> (e & -> & Hp)]]] | (l & -> & -> & -> & Hp & Hl & Hd)];
    cbn [mbind option_bind]; [by apply meets_same|rewrite Hp; by apply meets_same|rewrite Hp].
  case_bool_decide as Hr; [by apply meets_same|]. cbn [entry_of ce_releaseGroup ce_context].
  destruct (complete_retires sb a es c l result I He Hl Hr) as (sb' & adv & Hrun & _ & I').
  destruct (Z.eqb_spec (le_group l) NULL) as [Hz|Hz]; cbn [negb].
  - rewrite Hz, Hnull in *. cbn [mbind option_bind] in *.
    destruct (arr_set es _ _) as [es1|] eqn:Hs; [|done]. cbn in Hrun |- *. rewrite Hrun. cbn. by exists sb'.
  - destruct (Halive _ _ Hl Hz) as [g Hgs]. rewrite Hgs. cbn [mbind option_bind].
    destruct (flagcxNetReleaseGroupCompleteLocked g result) as [r g'] eqn:Hg'. cbn [mbind option_bind].
    destruct (failed r) eqn:Er; [by apply meets_same|]. cbn [mbind option_bind] in Hrun.
    destruct (arr_set es _ _) as [es1|] eqn:Hs; [|done]. cbn in Hrun |- *. rewrite Hrun. cbn. exists sb'. split; [|done].
    unfold flagcxNetReleaseGroupCompleteLocked in Hg'. destruct (_ || _); by simplify_eq.
Qed.

(** A completion also answers by how much the prefix moved. *)
Lemma completion_spec sb a gs c l result :
  implements sb a -> gs !! NULL = None -> is_u64 (sc_sequence c) -> find_pending a c = Some l -> le_group l = NULL ->
  exists sb' adv, flagcxNetTrackCompletion (Some sb) (Some c) result true gs = Some (flagcxSuccess, Some sb', gs, Some adv) /\
    let a' := if bool_decide (result = flagcxInProgress) then a else retire_completed c l result a in
    implements sb' a' /\ adv = ab_next a' - ab_next a.
Proof.
  intros I Hnull Hu Hf Hg. pose proof I as ((es & He & T & Hhd) & Hc & Hgen & Hn & Hfe).
  unfold flagcxNetTrackCompletion. rewrite He.
  rewrite (proj2 (Z.eqb_neq (sb_capacity sb) 0)) by (destruct (tk_cap _ _ _ T); lia). cbn [negb orb].
  destruct (find_pending_spec sb a es c I He Hu) as [[Hf' _] | (l' & Hf' & -> & -> & Hp & Hl & Hd)]; [congruence|].
  assert (l' = l) as -> by congruence. cbn [mbind option_bind]. rewrite Hp.
  case_bool_decide as Hr; [exists sb, 0; split; [done|split; [done|lia]]|]. cbn [entry_of ce_releaseGroup ce_context].
  destruct (complete_retires sb a es c l result I He Hl Hr) as (sb' & adv & Hrun & Hadv & I').
  rewrite Hg in *. change (NULL =? NULL) with true. cbn [negb mbind option_bind] in *. change (failed flagcxSuccess) with false.
  cbn match. destruct (arr_set es _ _) as [es1|] eqn:Hs; [|done]. cbn in Hrun |- *. rewrite Hrun. cbn. by exists sb', adv.
Qed.

Lemma call_meets call sb a gs :
  implements sb a -> groups_alive a gs -> call_ok call gs -> meets (run_call call sb gs) (spec_call call a gs).
Proof.
  intros I Ha Hok. destruct call as [c rg|c|c result|gen init]; cbn [spec_call].
  - destruct Hok. by apply submit_meets.
  - by apply cancel_meets.
  - by apply complete_meets.
  - by apply reset_meets.
Qed.

(** A fresh scoreboard is empty. *)
Lemma reset_entries_spec n : forall i es,
  (i + n <= length es)%nat ->
  exists es', reset_entries n i es = Some es' /\ length es' = length es /\
    (forall k, (i <= k < i + n)%nat -> es' !! k = Some flagcxNetCompletionEntryReset) /\
    (forall k, (k < i \/ i + n <= k)%nat -> es' !! k = es !! k).
Proof.
  induction n as [|n IH]; intros i es Hi; cbn.
  - exists es. split_and!; try done. lia.
  - rewrite arr_set_nat by lia. cbn.
    destruct (IH (S i) (<[i := flagcxNetCompletionEntryReset]> es)) as (es' & -> & Hl & Hin & Hout);
      [rewrite length_insert; lia|].
    exists es'. split_and!; [done|by rewrite Hl, length_insert|..].
    + intros k Hk. destruct (decide (k = i)) as [->|]; [|apply Hin; lia].
      rewrite Hout by lia. apply list_lookup_insert_eq. lia.
    + intros k Hk. rewrite Hout by lia. apply list_lookup_insert_ne. lia.
Qed.

Lemma scoreboard_init_implements es capacity generation init :
  0 < capacity < U32_MOD -> capacity <= Z.of_nat (length es) -> 0 <= init < U64_MAX ->
  exists sb, flagcxNetCompletionScoreboardInit true (Some es) capacity generation init = Some (flagcxSuccess, Some sb) /\
    implements sb (MkAbsBoard capacity generation init flagcxSuccess ∅).
Proof.
  intros Hc Hl Hi. unfold flagcxNetCompletionScoreboardInit.
  rewrite (proj2 (Z.eqb_neq capacity 0)), (proj2 (Z.eqb_neq init U64_MAX)) by lia. cbn [negb orb].
  destruct (reset_entries_spec (Z.to_nat capacity) 0 es) as (es' & -> & Hl' & Hin & _); [lia|]. cbn [mbind option_bind].
  eexists. split; [done|]. split; [|done]. exists es'. split; [done|]. split; [|by cbn].
  constructor; cbn; try done; try lia.
  intros s Hs. pose proof (slot_range s capacity). rewrite lookup_empty. apply Hin. lia.
Qed.

(** ** Scoreboards that share release groups *)

(** Submissions to [g] that are pending. *)
Definition pending_on (g : Z) (a : abs_board) : nat :=
  size (filter (fun p : Z * live_entry => le_group p.2 = g /\ le_done p.2 = None) (ab_live a)).

(** The group of the entry a completion is for. *)
Definition completed_group (sb : flagcxNetCompletionScoreboard) (c : flagcxNetSubmitContext) : Z :=
  match es ← sb_entries sb; arr_get es (sc_sequence c mod sb_capacity sb) with
  | Some e => ce_releaseGroup e
  | None => NULL
  end.

(** [ns_results] is a history variable: the results delivered to each group
    since it was initialised. *)
Record net_system := MkNetSystem {
  ns_boards : list flagcxNetCompletionScoreboard;
  ns_groups : groups;
  ns_results : gmap Z (list flagcxResult_t)
}.

Definition results_of (sys : net_system) (g : Z) : list flagcxResult_t := default [] (ns_results sys !! g).

(** A result is delivered to the group of the entry by a completion that is
    accepted. *)
Definition deliver (call : sb_call) (r : flagcxResult_t) (sb : flagcxNetCompletionScoreboard)
    (res : gmap Z (list flagcxResult_t)) : gmap Z (list flagcxResult_t) :=
  match call with
  | Complete c result =>
    if failed r || bool_decide (result = flagcxInProgress) then res
    else <[completed_group sb c := default [] (res !! completed_group sb c) ++ [result]]> res
  | _ => res
  end.

Definition restart (g : Z) (r : flagcxResult_t) (res : gmap Z (list flagcxResult_t)) : gmap Z (list flagcxResult_t) :=
  if failed r then res else <[g := []]> res.

(** Calls on any scoreboard and on any group, in any order. *)
Inductive net_step : net_system -> net_system -> Prop :=
| step_call boards gs res i sb call r sb' gs' :
    boards !! i = Some sb -> call_ok call gs -> run_call call sb gs = Some (r, Some sb', gs') ->
    net_step (MkNetSystem boards gs res) (MkNetSystem (<[i := sb']> boards) gs' (deliver call r sb res))
| step_group_init boards gs res g gr id gen r gs' :
    gs !! g = Some gr -> gr_pending gr = 0 -> flagcxNetReleaseGroupInit g id gen gs = Some (r, gs') ->
    net_step (MkNetSystem boards gs res) (MkNetSystem boards gs' (restart g r res))
| step_group_seal boards gs res g r gs' :
    flagcxNetReleaseGroupSeal g gs = Some (r, gs') ->
    net_step (MkNetSystem boards gs res) (MkNetSystem boards gs' res)
| step_group_reset boards gs res g id gen r gs' :
    flagcxNetReleaseGroupReset g id gen gs = Some (r, gs') ->
    net_step (MkNetSystem boards gs res) (MkNetSystem boards gs' (restart g r res)).

(** Fresh scoreboards and groups. *)
Definition net_initial (sys : net_system) : Prop :=
  ns_groups sys !! NULL = None /\ (forall g gr, ns_groups sys !! g = Some gr -> gr = release_group_zero) /\
  ns_results sys = ∅ /\
  Forall (fun sb => exists es capacity generation init,
    0 < capacity < U32_MOD /\ capacity <= Z.of_nat (length es) /\ 0 <= init < U64_MAX /\
    flagcxNetCompletionScoreboardInit true (Some es) capacity generation init = Some (flagcxSuccess, Some sb))
    (ns_boards sys).

(** A group with [n] pending members and the results [rs] so far. *)
Record group_ok (n : Z) (gr : flagcxNetReleaseGroup) (rs : list flagcxResult_t) : Prop := {
  go_pending : gr_pending gr = n;
  go_members : gr_members gr = n + Z.of_nat (length rs);
  go_bound : 0 <= n /\ gr_members gr < U32_MOD;
  go_error : gr_firstError gr = fold_left first_error rs flagcxSuccess;
  go_complete : gr_state gr = FLAGCX_NET_RELEASE_GROUP_COMPLETE -> n = 0;
  go_sealed : gr_state gr = FLAGCX_NET_RELEASE_GROUP_SEALED -> 0 < n;
  go_allowed : gr_releaseAllowed gr =
    bool_decide (gr_state gr = FLAGCX_NET_RELEASE_GROUP_COMPLETE) && negb (failed (gr_firstError gr))
}.

Definition total_pending (g : Z) (abss : list abs_board) : Z := Z.of_nat (sum_list (map (pending_on g) abss)).

Record net_inv (sys : net_system) (abss : list abs_board) : Prop := {
  ni_boards : Forall2 implements (ns_boards sys) abss;
  ni_null : ns_groups sys !! NULL = None;
  ni_alive : Forall (fun a => groups_alive a (ns_groups sys)) abss;
  ni_groups : forall g gr, ns_groups sys !! g = Some gr -> group_ok (total_pending g abss) gr (results_of sys g)
}.

(** *** Counting pending members *)

Definition pends (g : Z) (l : live_entry) : bool := bool_decide (le_group l = g /\ le_done l = None).

Lemma pending_insert g cap gen next e live s l :
  live !! s = None ->
  pending_on g (MkAbsBoard cap gen next e (<[s := l]> live)) =
  (Nat.b2n (pends g l) + pending_on g (MkAbsBoard cap gen next e live))%nat.
Proof.
  intros Hn. unfold pending_on, pends. cbn. case_bool_decide as Hp; cbn.
  - rewrite map_filter_insert_True by done. rewrite map_size_insert_None; [done|].
    apply map_lookup_filter_None. by left.
  - rewrite map_filter_insert_False by done. by rewrite delete_id.
Qed.

Lemma pending_delete g cap gen next e live s l :
  live !! s = Some l ->
  pending_on g (MkAbsBoard cap gen next e live) =
  (Nat.b2n (pends g l) + pending_on g (MkAbsBoard cap gen next e (delete s live)))%nat.
Proof.
  intros Hl. rewrite <- (insert_delete_id live s l) at 1 by done. by rewrite (pending_insert g) by apply lookup_delete_eq.
Qed.

(** Completing the submission [l]. *)
Lemma pending_complete g cap gen next e live s l l' :
  live !! s = Some l -> le_done l' <> None ->
  (Nat.b2n (pends g l) + pending_on g (MkAbsBoard cap gen next e (<[s := l']> live)))%nat =
  pending_on g (MkAbsBoard cap gen next e live).
Proof.
  intros Hl Hd. rewrite (pending_delete g _ _ _ _ live s l Hl), <- (insert_delete_eq live s l').
  rewrite (pending_insert g) by apply lookup_delete_eq. unfold pends at 2. rewrite bool_decide_false by naive_solver. done.
Qed.

Lemma prefix_done_all fuel : forall next live i,
  next <= i < next + Z.of_nat (prefix_done fuel next live) -> exists l, live !! i = Some l /\ is_Some (le_done l).
Proof.
  induction fuel as [|fuel IH]; intros next live i Hi; cbn in Hi; [lia|].
  destruct (live !! next) as [l|] eqn:Hl; [|lia]. destruct (le_done l) as [r|] eqn:Hd; [|lia].
  destruct (decide (i = next)) as [->|]; [eauto|]. apply (IH (next + 1)). lia.
Qed.

(** What a completion retires. *)
Lemma retire_lookup c l result a s :
  ab_live (retire_completed c l result a) !! s =
  if ab_next (retire_completed c l result a) <=? s
  then <[sc_sequence c := MkLive (le_context l) (le_group l) (Some result)]> (ab_live a) !! s else None.
Proof.
  apply option_eq. intros x. unfold retire_completed. cbn [ab_live ab_next]. rewrite live_from_lookup.
  destruct (Z.leb_spec (ab_next a + Z.of_nat (prefix_done (Z.to_nat (ab_capacity a)) (ab_next a)
    (<[sc_sequence c := MkLive (le_context l) (le_group l) (Some result)]> (ab_live a)))) s); naive_solver lia.
Qed.

(** A pending submission other than the one completed stays. *)
Lemma retire_pending c l result a s x :
  (forall s l, ab_live a !! s = Some l -> ab_next a <= s) ->
  ab_live a !! s = Some x -> le_done x = None -> s <> sc_sequence c ->
  ab_live (retire_completed c l result a) !! s = Some x.
Proof.
  intros Hge Hs Hd Hne. rewrite retire_lookup, lookup_insert_ne by done.
  destruct (Z.leb_spec (ab_next (retire_completed c l result a)) s) as [|Hlt]; [done|]. exfalso.
  unfold retire_completed in Hlt. cbn [ab_next] in Hlt.
  destruct (prefix_done_all (Z.to_nat (ab_capacity a)) (ab_next a)
    (<[sc_sequence c := MkLive (le_context l) (le_group l) (Some result)]> (ab_live a)) s) as (y & Hy & Hdy).
  - split; [by eapply Hge|done].
  - rewrite lookup_insert_ne in Hy by done. simplify_eq. rewrite Hd in Hdy. by destruct Hdy.
Qed.

Lemma retire_next_le c l result a : ab_next a <= ab_next (retire_completed c l result a).
Proof. unfold retire_completed. cbn [ab_next]. lia. Qed.

(** Retiring drops completed submissions only. *)
Lemma pending_retire g c l result a :
  (forall s l, ab_live a !! s = Some l -> ab_next a <= s) -> ab_live a !! sc_sequence c = Some l -> le_done l = None ->
  (Nat.b2n (pends g l) + pending_on g (retire_completed c l result a))%nat = pending_on g a.
Proof.
  intros Hge Hl Hd. destruct a as [cap gen next e live]. cbn in *.
  rewrite <- (pending_complete g cap gen next e live _ l (MkLive (le_context l) (le_group l) (Some result)) Hl) by done.
  f_equal. unfold pending_on, retire_completed. cbn. f_equal.
  set (live' := <[_ := _]> live). set (n := prefix_done _ _ _).
  apply map_eq. intros i. apply option_eq. intros x. rewrite !map_lookup_filter_Some, live_from_lookup. cbn.
  split; [naive_solver|]. intros (Hx & Hg & Hdx). split_and!; try done.
  destruct (decide (next + Z.of_nat n <= i)); [done|]. exfalso.
  destruct (prefix_done_all (Z.to_nat cap) next live' i) as (y & Hy & Hdy).
  - split; [|fold n; lia]. unfold live' in Hx. destruct (decide (i = sc_sequence c)) as [->|Hne]; [by eapply Hge|].
    rewrite lookup_insert_ne in Hx by done. by eapply Hge.
  - assert (x = y) as -> by congruence. rewrite Hdx in Hdy. by destruct Hdy.
Qed.

Lemma total_pending_alter g abss i a a' :
  abss !! i = Some a ->
  total_pending g (<[i := a']> abss) = total_pending g abss - Z.of_nat (pending_on g a) + Z.of_nat (pending_on g a').
Proof.
  unfold total_pending. revert i. induction abss as [|b abss IH]; intros [|i] Hi; cbn in Hi; simplify_eq; cbn; [lia|].
  rewrite Nat2Z.inj_add. etrans; [apply (f_equal (Z.add _)); exact (IH _ Hi)|]. lia.
Qed.

Lemma total_pending_ge g abss i a : abss !! i = Some a -> Z.of_nat (pending_on g a) <= total_pending g abss.
Proof.
  unfold total_pending. revert i. induction abss as [|b abss IH]; intros [|i] Hi; cbn in Hi; simplify_eq; cbn; [lia|].
  specialize (IH _ Hi). lia.
Qed.

(** *** Groups *)

Lemma first_error_success e r : failed (first_error e r) = failed e || failed r.
Proof. unfold first_error. destruct (failed r) eqn:E, (failed e) eqn:E'; cbn; rewrite ?E, ?E'; done. Qed.

Lemma failed_false r : failed r = false <-> r = flagcxSuccess.
Proof. by destruct r. Qed.

(** The first error is success exactly when every result is. *)
Lemma first_errors_success rs : forall e,
  failed (fold_left first_error rs e) = false <-> failed e = false /\ Forall (fun r => r = flagcxSuccess) rs.
Proof.
  induction rs as [|r rs IH]; intros e; cbn; [intuition|].
  rewrite IH, first_error_success, orb_false_iff, Forall_cons, (failed_false r). tauto.
Qed.

Lemma track_ok n gr rs c r gr' :
  group_ok n gr rs -> flagcxNetReleaseGroupTrackLocked gr c = (r, gr') ->
  if failed r then gr' = gr else group_ok (n + 1) gr' rs.
Proof.
  intros [Gp Gm [Gn Gb] Ge Gc Gs Ga]. unfold flagcxNetReleaseGroupTrackLocked. case_test; intros [= <- <-]; cbn; [done|].
  constructor; cbn; try done; rewrite ?Z.mod_small; try lia; congruence.
Qed.

Lemma complete_ok n gr rs result :
  group_ok n gr rs -> 0 < n ->
  exists gr', flagcxNetReleaseGroupCompleteLocked gr result = (flagcxSuccess, gr') /\ group_ok (n - 1) gr' (rs ++ [result]).
Proof.
  intros [Gp Gm [Gn Gb] Ge Gc Gs Ga] Hn. unfold flagcxNetReleaseGroupCompleteLocked.
  rewrite bool_decide_false by (intros Hs; specialize (Gc Hs); lia).
  rewrite (proj2 (Z.eqb_neq (gr_pending gr) 0)) by lia. cbn [orb]. eexists. split; [done|].
  set (gr1 := if _ && _ then _ else gr).
  assert (H1 : gr_pending gr1 = n /\ gr_members gr1 = gr_members gr /\ gr_state gr1 = gr_state gr /\
    gr_firstError gr1 = fold_left first_error (rs ++ [result]) flagcxSuccess /\
    gr_releaseAllowed gr1 = false).
  { assert (Hall : gr_releaseAllowed gr = false).
    { rewrite Ga, bool_decide_false by (intros Hs; specialize (Gc Hs); lia). done. }
    assert (Hfe : fold_left first_error (rs ++ [result]) flagcxSuccess = first_error (gr_firstError gr) result)
      by (by rewrite fold_left_app, Ge).
    rewrite Hfe. unfold gr1, first_error. by destruct (failed result && negb (failed (gr_firstError gr))). }
  clearbody gr1. destruct H1 as (E1 & E2 & E3 & E4 & E5).
  cbn. rewrite E1, Z.mod_small by lia.
  destruct (Z.eqb_spec (n - 1) 0) as [Hz|Hz]; cbn [andb].
  - destruct (bool_decide (gr_state gr1 = FLAGCX_NET_RELEASE_GROUP_SEALED)) eqn:Hs; bool_to_prop.
    + constructor; cbn; rewrite ?E1, ?E2, ?length_app; cbn; try done; try lia.
      unfold failed. by rewrite negb_involutive.
    + constructor; cbn; rewrite ?E1, ?E2, ?E3, ?length_app; cbn; try done; try lia.
      * congruence.
      * rewrite E5, bool_decide_false; [done|]. intros Hs'. specialize (Gc Hs'). lia.
  - constructor; cbn; rewrite ?E1, ?E2, ?E3, ?length_app; cbn; try done; try lia.
    + intros Hs'. specialize (Gc Hs'). lia.
    + rewrite E5, bool_decide_false; [done|]. intros Hs'. specialize (Gc Hs'). lia.
Qed.

Lemma cancel_ok n gr rs :
  group_ok n gr rs -> 0 < n -> gr_state gr = FLAGCX_NET_RELEASE_GROUP_OPEN ->
  group_ok (n - 1) (set_gr_counts (gr_pending gr -u32 1) (gr_members gr -u32 1) gr) rs.
Proof.
  intros [Gp Gm [Gn Gb] Ge Gc Gs Ga] Hn Ho.
  constructor; cbn; rewrite ?Z.mod_small by lia; try done; try lia; rewrite Ho; done.
Qed.

Lemma seal_ok n gr rs :
  group_ok n gr rs -> gr_state gr = FLAGCX_NET_RELEASE_GROUP_OPEN ->
  group_ok n (if gr_pending gr =? 0 then complete_group gr else set_gr_state FLAGCX_NET_RELEASE_GROUP_SEALED gr) rs.
Proof.
  intros [Gp Gm [Gn Gb] Ge Gc Gs Ga] Ho. rewrite Ho in Ga. cbn in Ga.
  destruct (Z.eqb_spec (gr_pending gr) 0); constructor; cbn; try done; try lia.
  unfold failed. by rewrite negb_involutive.
Qed.

Lemma fresh_group_ok id gen :
  group_ok 0 (MkReleaseGroup id gen FLAGCX_NET_RELEASE_GROUP_OPEN 0 0 false flagcxSuccess) [].
Proof. constructor; cbn; try done; lia. Qed.

(** *** What a call does to the groups *)

(** The group and the result a call delivers. *)
Definition delivered (call : sb_call) (r : flagcxResult_t) (a : abs_board) : option (Z * flagcxResult_t) :=
  match call with
  | Complete c result =>
    if failed r || bool_decide (result = flagcxInProgress) then None
    else l ← find_pending a c; Some (le_group l, result)
  | _ => None
  end.

Definition with_delivery (d : option (Z * flagcxResult_t)) (rs : Z -> list flagcxResult_t) (g : Z) : list flagcxResult_t :=
  match d with
  | Some (h, result) => if bool_decide (h = g) then rs g ++ [result] else rs g
  | None => rs g
  end.

Lemma pends_eq g l : le_done l = None -> pends g l = bool_decide (le_group l = g).
Proof. intros Hd. unfold pends. apply bool_decide_ext. tauto. Qed.

(** The pending submission [l] counts in its group. *)
Lemma pending_positive a s l :
  ab_live a !! s = Some l -> le_done l = None -> (0 < pending_on (le_group l) a)%nat.
Proof.
  intros Hl Hd. destruct a as [cap gen next e live]. rewrite (pending_delete (le_group l) _ _ _ _ live s l Hl).
  rewrite pends_eq, bool_decide_true by done. cbn. lia.
Qed.

Section CallGroups.
Context (k : Z -> Z) (rs : Z -> list flagcxResult_t) (a : abs_board) (gs : groups).
Hypothesis k_nonneg : forall g, 0 <= k g.
Hypothesis live_ge : forall s l, ab_live a !! s = Some l -> ab_next a <= s.
Hypothesis alive : groups_alive a gs.

Definition groups_ok (k : Z -> Z) (rs : Z -> list flagcxResult_t) (a : abs_board) (gs : groups) : Prop :=
  groups_alive a gs /\
  forall g gr, gs !! g = Some gr -> group_ok (k g + Z.of_nat (pending_on g a)) gr (rs g).

Hypothesis ok : groups_ok k rs a gs.

(** The groups of [gs] and no others. *)
Definition same_groups (gs gs' : groups) : Prop := forall g, is_Some (gs !! g) <-> is_Some (gs' !! g).

Lemma same_groups_insert g gr gr' : gs !! g = Some gr -> same_groups gs (<[g := gr']> gs).
Proof.
  intros Hg h. destruct (decide (h = g)) as [->|]; [rewrite Hg, lookup_insert_eq|rewrite lookup_insert_ne by done]; [|done].
  split; eauto.
Qed.

Lemma alive_live_subset a' gs' :
  same_groups gs gs' ->
  (forall s l, ab_live a' !! s = Some l -> le_group l <> NULL -> is_Some (gs !! le_group l)) ->
  groups_alive a' gs'.
Proof.
  intros Hsame Hl. destruct alive as [Hnull _]. split.
  - apply eq_None_not_Some. intros Hs%Hsame. rewrite Hnull in Hs. by destruct Hs.
  - intros s l Hs Hz. apply Hsame. eauto.
Qed.

(** Updating the group [h] only, the pending members of the others being as
    before. *)
Lemma groups_update h gr gr' a' rs' :
  gs !! h = Some gr ->
  (forall s l, ab_live a' !! s = Some l -> le_group l <> NULL -> is_Some (gs !! le_group l)) ->
  (forall g, g <> h -> pending_on g a' = pending_on g a /\ rs' g = rs g) ->
  group_ok (k h + Z.of_nat (pending_on h a')) gr' (rs' h) ->
  groups_ok k rs' a' (<[h := gr']> gs).
Proof.
  intros Hg Hl Hrest Hok. split.
  - apply alive_live_subset; [by eapply same_groups_insert|done].
  - intros g gr1. destruct (decide (g = h)) as [->|Hne]; [rewrite lookup_insert_eq|rewrite lookup_insert_ne by done].
    + by intros [= <-].
    + intros Hg1. destruct (Hrest g Hne) as [-> ->]. by apply (proj2 ok).
Qed.

(** No group is involved. *)
Lemma groups_keep a' rs' :
  (forall s l, ab_live a' !! s = Some l -> le_group l <> NULL -> is_Some (gs !! le_group l)) ->
  (forall g, g <> NULL -> pending_on g a' = pending_on g a /\ rs' g = rs g) ->
  groups_ok k rs' a' gs.
Proof.
  intros Hl Hrest. split; [by apply alive_live_subset|]. intros g gr Hg.
  assert (g <> NULL) by (intros ->; destruct alive; congruence).
  destruct (Hrest g) as [-> ->]; [done|]. by apply (proj2 ok).
Qed.

Lemma submit_groups c rg r a' gs' :
  call_ok (Submit c rg) gs -> spec_submit c rg a gs = (r, a', gs') -> groups_ok k rs a' gs' /\ same_groups gs gs'.
Proof.
  intros [Hu Hrg]. unfold spec_submit.
  assert (Hsame : same_groups gs gs) by done.
  repeat (case_test; [intros [= <- <- <-]; done|]).
  assert (Hfree : ab_live a !! sc_sequence c = None) by (apply eq_None_not_Some; naive_solver).
  assert (Hpend : forall g, pending_on g (set_ab_live (<[sc_sequence c := MkLive c rg None]> (ab_live a)) a) =
    (Nat.b2n (bool_decide (rg = g)) + pending_on g a)%nat).
  { intros g. destruct a as [cap gen next e live]. unfold set_ab_live. cbn in Hfree |- *.
    rewrite (pending_insert g) by done. by rewrite pends_eq. }
  assert (Hlive : rg <> NULL -> is_Some (gs !! rg) -> forall s l,
    <[sc_sequence c := MkLive c rg None]> (ab_live a) !! s = Some l -> le_group l <> NULL -> is_Some (gs !! le_group l)).
  { intros _ Hg s l. destruct (decide (s = sc_sequence c)) as [->|]; [rewrite lookup_insert_eq; by intros [= <-]|].
    rewrite lookup_insert_ne by done. apply (proj2 alive). }
  case_test.
  - intros [= <- <- <-]. split; [|done]. apply groups_keep.
    + intros s l. cbn. destruct (decide (s = sc_sequence c)) as [->|]; [rewrite lookup_insert_eq; by intros [= <-]|].
      rewrite lookup_insert_ne by done. apply (proj2 alive).
    + intros g Hg. rewrite Hpend, bool_decide_false by congruence. done.
  - destruct (gs !! rg) as [gr|] eqn:Hg; [|intros [= <- <- <-]; done].
    destruct (flagcxNetReleaseGroupTrackLocked gr c) as [r0 gr'] eqn:Ht. intros [= <- <- <-].
    pose proof (track_ok _ _ _ _ _ _ (proj2 ok _ _ Hg) Ht) as Hok.
    split; [|by eapply same_groups_insert]. destruct (failed r0).
    + subst gr'. by rewrite insert_id.
    + eapply groups_update; [done|by apply Hlive; eauto|..].
      * intros g Hne. rewrite Hpend, bool_decide_false by congruence. done.
      * rewrite Hpend, bool_decide_true by done. cbn.
        replace (k rg + Z.of_nat (S (pending_on rg a))) with (k rg + Z.of_nat (pending_on rg a) + 1) by lia. done.
Qed.

Lemma find_pending_live c l : find_pending a c = Some l -> ab_live a !! sc_sequence c = Some l /\ le_done l = None.
Proof.
  unfold find_pending. destruct (_ && _); [|done]. destruct (ab_live a !! sc_sequence c) as [x|]; cbn; [|done].
  case_test; [|done]. by intros [= <-].
Qed.

Lemma cancel_groups c r a' gs' :
  spec_cancel c a gs = (r, a', gs') -> groups_ok k rs a' gs' /\ same_groups gs gs'.
Proof.
  unfold spec_cancel. destruct (find_pending a c) as [l|] eqn:Hf; [|intros [= <- <- <-]; done].
  destruct (find_pending_live _ _ Hf) as [Hl Hd].
  set (a1 := set_ab_live _ a).
  assert (Hpend : forall g, (Nat.b2n (bool_decide (le_group l = g)) + pending_on g a1)%nat = pending_on g a).
  { intros g. rewrite <- pends_eq by done. subst a1. destruct a as [cap gen next e live]. unfold set_ab_live. cbn.
    symmetry. by apply (pending_delete g). }
  assert (Hlive : forall s x, ab_live a1 !! s = Some x -> le_group x <> NULL -> is_Some (gs !! le_group x)).
  { intros s x Hx. unfold a1 in Hx. cbn in Hx. apply lookup_delete_Some in Hx as [_ Hx]. by apply (proj2 alive s). }
  destruct (gs !! le_group l) as [gr|] eqn:Hg.
  - case_test; [intros [= <- <- <-]; done|]. intros [= <- <- <-].
    split; [|by eapply same_groups_insert].
    pose proof (pending_positive _ _ _ Hl Hd) as Hpos.
    eapply groups_update; [done|done|..].
    + intros g Hne. rewrite <- Hpend, bool_decide_false by congruence. done.
    + replace (k (le_group l) + Z.of_nat (pending_on (le_group l) a1))
        with (k (le_group l) + Z.of_nat (pending_on (le_group l) a) - 1)
        by (rewrite <- Hpend, bool_decide_true by done; cbn; lia).
      apply cancel_ok; [by apply (proj2 ok)| |done]. specialize (k_nonneg (le_group l)). lia.
  - intros [= <- <- <-]. split; [|done]. apply groups_keep; [done|].
    intros g Hne. split; [|done]. rewrite <- Hpend, bool_decide_false; [done|].
    intros <-. destruct (proj2 alive _ _ Hl Hne). congruence.
Qed.

Lemma complete_groups c result r a' gs' :
  spec_complete c result a gs = (r, a', gs') ->
  groups_ok k (with_delivery (delivered (Complete c result) r a) rs) a' gs' /\ same_groups gs gs'.
Proof.
  unfold spec_complete, delivered.
  destruct (find_pending a c) as [l|] eqn:Hf; cbn [mbind option_bind].
  2: { intros [= <- <- <-]. by destruct (failed _ || _). }
  destruct (find_pending_live _ _ Hf) as [Hl Hd].
  case_bool_decide as Hr; [intros [= <- <- <-]; done|].
  pose proof (fun g => pending_retire g c l result a live_ge Hl Hd) as Hpend.
  assert (Hlive : forall s x, ab_live (retire_completed c l result a) !! s = Some x -> le_group x <> NULL ->
    is_Some (gs !! le_group x)).
  { intros s x. unfold retire_completed. cbn. intros [Hx _]%live_from_lookup.
    destruct (decide (s = sc_sequence c)) as [->|].
    - rewrite lookup_insert_eq in Hx. simplify_eq. by apply (proj2 alive _ _ Hl).
    - rewrite lookup_insert_ne in Hx by done. by apply (proj2 alive s). }
  assert (Hdl : forall g, with_delivery (if failed flagcxSuccess || false then None else Some (le_group l, result)) rs g =
    if bool_decide (le_group l = g) then rs g ++ [result] else rs g) by done.
  destruct (gs !! le_group l) as [gr|] eqn:Hg.
  - pose proof (pending_positive _ _ _ Hl Hd) as Hpos. pose proof (k_nonneg (le_group l)) as Hk.
    destruct (complete_ok _ _ _ result (proj2 ok _ _ Hg)) as (gr' & -> & Hok); [lia|].
    intros [= <- <- <-]. split; [|by eapply same_groups_insert].
    eapply groups_update; [done|done|..].
    + intros g Hne. rewrite <- (Hpend g), pends_eq, Hdl, !bool_decide_false by congruence. done.
    + rewrite Hdl, bool_decide_true by done.
      replace (k (le_group l) + Z.of_nat (pending_on (le_group l) (retire_completed c l result a)))
        with (k (le_group l) + Z.of_nat (pending_on (le_group l) a) - 1); [done|].
      rewrite <- (Hpend (le_group l)), pends_eq, bool_decide_true by done. cbn. lia.
  - intros [= <- <- <-]. split; [|done]. apply groups_keep; [done|].
    intros g Hne. assert (le_group l <> g).
    { intros <-. destruct (proj2 alive _ _ Hl Hne). congruence. }
    rewrite <- (Hpend g), pends_eq, Hdl, !bool_decide_false by done. done.
Qed.

Lemma reset_groups gen init r a' gs' :
  spec_reset gen init a gs = (r, a', gs') -> groups_ok k rs a' gs' /\ same_groups gs gs'.
Proof.
  unfold spec_reset. case_test; [intros [= <- <- <-]; done|]. intros [= <- <- <-]. split; [|done].
  apply groups_keep; [by intros s l; cbn; rewrite lookup_empty|]. intros g _. split; [|done].
  unfold pending_on. cbn. match goal with H : ab_live a = ∅ |- _ => by rewrite H end.
Qed.

Lemma call_groups call r a' gs' :
  call_ok call gs -> spec_call call a gs = (r, a', gs') ->
  groups_ok k (with_delivery (delivered call r a) rs) a' gs' /\ same_groups gs gs'.
Proof.
  intros Hok. destruct call; cbn [spec_call].
  - by apply submit_groups.
  - by apply cancel_groups.
  - by apply complete_groups.
  - by apply reset_groups.
Qed.

End CallGroups.

(** *** The invariant of the system *)

Lemma implements_live_ge sb a : implements sb a -> forall s l, ab_live a !! s = Some l -> ab_next a <= s.
Proof. intros ((es & _ & T & _) & _ & _ & <- & _) s l Hl. destruct (tk_live _ _ _ T _ _ Hl). lia. Qed.

Lemma deliver_delivered call r sb a res gs a' gs' g :
  implements sb a -> call_ok call gs -> spec_call call a gs = (r, a', gs') ->
  default [] (deliver call r sb res !! g) = with_delivery (delivered call r a) (fun h => default [] (res !! h)) g.
Proof.
  intros I Hok Hspec. destruct call as [c rg|c|c result|gen init]; try done. cbn [deliver delivered call_ok spec_call] in *.
  destruct (failed r || bool_decide (result = flagcxInProgress)) eqn:Er; [done|]. bool_to_prop.
  pose proof I as ((es & He & _ & _) & _).
  destruct (find_pending_spec sb a es c I He Hok) as [[Hf _] | (l & Hf & _ & He' & _)].
  - unfold spec_complete in Hspec. rewrite Hf in Hspec. by injection Hspec as <- <- <-.
  - rewrite Hf. cbn [mbind option_bind with_delivery].
    assert (Hc : completed_group sb c = le_group l) by (unfold completed_group; rewrite He; cbn; by rewrite He').
    rewrite Hc. case_bool_decide as Hg.
    + rewrite Hg, lookup_insert_eq. done.
    + rewrite lookup_insert_ne by done. done.
Qed.

Lemma same_groups_alive gs gs' a : same_groups gs gs' -> groups_alive a gs -> groups_alive a gs'.
Proof.
  intros Hs [Hn Ha]. split.
  - apply eq_None_not_Some. intros H1%Hs. rewrite Hn in H1. by destruct H1.
  - intros s l Hl Hz. apply Hs. eauto.
Qed.

Lemma net_call_step boards gs res i sb call r sb' gs' abss :
  net_inv (MkNetSystem boards gs res) abss ->
  boards !! i = Some sb -> call_ok call gs -> run_call call sb gs = Some (r, Some sb', gs') ->
  exists abss', net_inv (MkNetSystem (<[i := sb']> boards) gs' (deliver call r sb res)) abss'.
Proof.
  intros [Hb Hn Ha Hg] Hi Hok Hrun. cbn in *.
  destruct (Forall2_lookup_l _ _ _ _ _ Hb Hi) as (a & Hai & I).
  pose proof (proj1 (Forall_lookup _ _) Ha _ _ Hai) as Haa.
  destruct (call_meets call sb a gs I Haa Hok) as (sb1 & Hrun' & I'). rewrite Hrun in Hrun'.
  destruct (spec_call call a gs) as [[r0 a'] gs0] eqn:Hspec. cbn in *. injection Hrun' as -> -> ->.
  set (k := fun g => total_pending g abss - Z.of_nat (pending_on g a)).
  assert (Hok0 : groups_ok k (fun g => default [] (res !! g)) a gs).
  { split; [done|]. intros g gr Hgr. specialize (Hg g gr Hgr). unfold k. by rewrite Z.sub_add. }
  destruct (call_groups k (fun g => default [] (res !! g)) a gs) with (call := call) (r := r0) (a' := a') (gs' := gs0) as [[Hal Hgs] Hsame]; try done.
  { intros g. unfold k. pose proof (total_pending_ge g abss i a Hai). lia. }
  { by eapply implements_live_ge. }
  exists (<[i := a']> abss). constructor; cbn.
  - by apply Forall2_insert.
  - apply Hal.
  - apply Forall_insert; [|done]. eapply Forall_impl; [done|]. intros x. by apply same_groups_alive.
  - intros g gr Hgr. specialize (Hgs g gr Hgr). unfold results_of. cbn.
    erewrite deliver_delivered by done. rewrite (total_pending_alter g abss i a a' Hai).
    unfold k in Hgs. done.
Qed.

(** A step that changes the group [g] only. *)
Lemma net_group_step boards gs res res' g gr gr' abss :
  net_inv (MkNetSystem boards gs res) abss -> gs !! g = Some gr ->
  (forall h, h <> g -> res' !! h = res !! h) ->
  (group_ok (total_pending g abss) gr (default [] (res !! g)) ->
   group_ok (total_pending g abss) gr' (default [] (res' !! g))) ->
  net_inv (MkNetSystem boards (<[g := gr']> gs) res') abss.
Proof.
  intros [Hb Hn Ha Hg] Hgr Hres Hok. cbn in *.
  pose proof (same_groups_insert gs g gr gr' Hgr) as Hsame. constructor; cbn.
  - done.
  - apply eq_None_not_Some. intros H1%Hsame. rewrite Hn in H1. by destruct H1.
  - eapply Forall_impl; [done|]. intros x. by apply same_groups_alive.
  - intros h x. unfold results_of. cbn. destruct (decide (h = g)) as [->|Hne].
    + rewrite lookup_insert_eq. intros [= <-]. by apply Hok, Hg.
    + rewrite lookup_insert_ne, Hres by done. apply Hg.
Qed.

Lemma net_inv_step s1 s2 abss : net_inv s1 abss -> net_step s1 s2 -> exists abss', net_inv s2 abss'.
Proof.
  intros I Hstep. destruct Hstep as [boards gs res i sb call r sb' gs' Hi Hok Hrun
    | boards gs res g gr id gen r gs' Hgr Hp Hrun | boards gs res g r gs' Hrun | boards gs res g id gen r gs' Hrun].
  - by eapply net_call_step.
  - exists abss. unfold flagcxNetReleaseGroupInit in Hrun. case_test_in Hrun; [by simplify_eq|].
    rewrite Hgr in Hrun. cbn in Hrun. injection Hrun as <- <-. change (restart g flagcxSuccess res) with (<[g := []]> res).
    eapply net_group_step; [done|done| |].
    + intros h Hne. by rewrite lookup_insert_ne.
    + rewrite lookup_insert_eq. cbn. intros Hok. rewrite <- (go_pending _ _ _ Hok), Hp. apply fresh_group_ok.
  - exists abss. unfold flagcxNetReleaseGroupSeal in Hrun. case_test_in Hrun; [by simplify_eq|].
    destruct (gs !! g) as [gr|] eqn:Hgr; [|done]. cbn in Hrun.
    case_test_in Hrun; [by simplify_eq|]. case_test_in Hrun; [by simplify_eq|].
    assert (Hr : gs' = <[g := if gr_pending gr =? 0 then complete_group gr
                           else set_gr_state FLAGCX_NET_RELEASE_GROUP_SEALED gr]> gs) by (case_test_in Hrun; by simplify_eq).
    subst gs'. eapply net_group_step; [done|done|done|]. intros Hok. by apply seal_ok.
  - exists abss. unfold flagcxNetReleaseGroupReset in Hrun. case_test_in Hrun; [by simplify_eq|].
    destruct (gs !! g) as [gr|] eqn:Hgr; [|done]. cbn in Hrun.
    case_test_in Hrun; [by simplify_eq|]. case_test_in Hrun; [by simplify_eq|]. injection Hrun as <- <-. change (restart g flagcxSuccess res) with (<[g := []]> res).
    eapply net_group_step; [done|done| |].
    + intros h Hne. by rewrite lookup_insert_ne.
    + rewrite lookup_insert_eq. cbn. intros Hok. rewrite (go_complete _ _ _ Hok) by done. apply fresh_group_ok.
Qed.

Lemma net_initial_inv sys : net_initial sys -> exists abss, net_inv sys abss.
Proof.
  intros (Hn & Hz & Hr & Hb).
  assert (Hex : exists abss, Forall2 implements (ns_boards sys) abss /\ Forall (fun a => ab_live a = ∅) abss).
  { induction (ns_boards sys) as [|sb sbs IH]; [by exists []|]. inversion Hb as [|? ? Hsb Hsbs]; subst.
    destruct (IH Hsbs) as (abss & Himp & Hemp). destruct Hsb as (es & cap & gen & init & Hc & Hl & Hi & Hrun).
    destruct (scoreboard_init_implements es cap gen init Hc Hl Hi) as (sb' & Hrun' & I).
    rewrite Hrun in Hrun'. injection Hrun' as <-. eexists (_ :: abss). split; constructor; done. }
  destruct Hex as (abss & Himp & Hemp). exists abss. constructor; [done|done|..].
  - eapply Forall_impl; [done|]. intros a Ha. split; [done|]. intros s l. rewrite Ha. by rewrite lookup_empty.
  - intros g gr ->%Hz. unfold results_of. rewrite Hr, lookup_empty. cbn.
    assert (total_pending g abss = 0) as ->; [|apply fresh_group_ok].
    unfold total_pending. clear -Hemp. induction Hemp as [|a abss Ha _ IH]; cbn; [done|].
    unfold pending_on at 1. rewrite Ha. done.
Qed.

Lemma net_reachable_inv s1 s2 : net_initial s1 -> reach net_step s1 s2 -> exists abss, net_inv s2 abss.
Proof.
  intros Hi%net_initial_inv Hr. revert s1 s2 Hr Hi. apply (reach_invariant net_step (fun s => exists abss, net_inv s abss)).
  intros s1 s2 [abss I] Hs. by eapply net_inv_step.
Qed.

(** Every entry of the ring is the slot of a sequence number in the window. *)
Lemma slot_sequence n c (j : Z) : 0 <= j < c -> exists s, n <= s < n + c /\ s mod c = j.
Proof.
  intros Hj. exists (n + (j - n) mod c). pose proof (Z.mod_pos_bound (j - n) c).
  split; [lia|]. rewrite Zplus_mod_idemp_r. replace (n + (j - n)) with j by lia. apply Z.mod_small. lia.
Qed.

Lemma pending_entry_counts sb a es j e g :
  implements sb a -> sb_entries sb = Some es -> Z.of_nat j < sb_capacity sb -> es !! j = Some e ->
  ce_state e = FLAGCX_NET_COMPLETION_ENTRY_PENDING -> ce_releaseGroup e = g -> (0 < pending_on g a)%nat.
Proof.
  intros ((es' & He' & T & _) & _) He Hj Hje Hst Hgr. assert (es' = es) by congruence. subst es'.
  destruct (slot_sequence (sb_nextSequence sb) (sb_capacity sb) (Z.of_nat j)) as (s & Hs & Hm); [lia|].
  pose proof (tk_slots _ _ _ T s Hs) as Hslot. rewrite Hm, Nat2Z.id, Hje in Hslot. simplify_eq.
  apply entry_state_pending in Hst as (l & Hl & Hd). rewrite Hl. cbn [entry_of ce_releaseGroup]. by eapply pending_positive.
Qed.

(** ** Properties *)

(** C27: the completion scoreboard is a finite map from sequence numbers to
    submissions.  For every call, submission, cancellation, completion or reset,
    with any arguments, the code returns the result code the specification
    gives, changes the release group as specified, and leaves a ring that
    implements the specified map: a completion retires exactly the completed
    prefix. *)
Theorem scoreboard_refines call sb a gs :
  implements sb a -> groups_alive a gs -> call_ok call gs ->
  exists r sb' a' gs', run_call call sb gs = Some (r, Some sb', gs') /\
    spec_call call a gs = (r, a', gs') /\ implements sb' a'.
Proof.
  intros I Ha Hok. destruct (call_meets call sb a gs I Ha Hok) as (sb' & Hrun & I').
  destruct (spec_call call a gs) as [[r a'] gs']. by exists r, sb', a', gs'.
Qed.

Lemma scoreboard_refines_witness :
  exists sb, flagcxNetCompletionScoreboardInit true (Some (replicate 4 flagcxNetCompletionEntryReset)) 4 1 7 =
      Some (flagcxSuccess, Some sb) /\
    exists r sb' a' gs', run_call (Submit (MkSubmitContext 0 5 1 7 1 0) 3) sb
        {[ 3 := MkReleaseGroup 5 1 FLAGCX_NET_RELEASE_GROUP_OPEN 0 0 false flagcxSuccess ]} = Some (r, Some sb', gs') /\
      spec_call (Submit (MkSubmitContext 0 5 1 7 1 0) 3) (MkAbsBoard 4 1 7 flagcxSuccess ∅)
        {[ 3 := MkReleaseGroup 5 1 FLAGCX_NET_RELEASE_GROUP_OPEN 0 0 false flagcxSuccess ]} = (r, a', gs') /\
      implements sb' a'.
Proof.
  destruct (scoreboard_init_implements (replicate 4 flagcxNetCompletionEntryReset) 4 1 7) as (sb & Hrun & I);
    [lia|cbn; lia|lia|].
  exists sb. split; [exact Hrun|]. apply scoreboard_refines; [exact I| |].
  - split; [reflexivity|]. intros s l Hl. cbn in Hl. rewrite lookup_empty in Hl. discriminate.
  - split; [split; vm_compute; congruence|]. intros _. eexists. reflexivity.
Defined.

(** C23: release groups gate.  After any sequence of calls on scoreboards and on
    the groups they share, a group tests as done only if no submission to it is
    pending on any scoreboard and each of its members has delivered its result;
    the test then returns the first error among these results, and allows the
    release exactly when there is none.  A group that does not test as done is
    open or has a pending member. *)
Theorem release_gate s1 s2 g gr :
  net_initial s1 -> reach net_step s1 s2 -> ns_groups s2 !! g = Some gr -> gr_groupId gr <> 0 ->
  exists r done allowed,
    flagcxNetReleaseGroupTest g true true (ns_groups s2) = Some (r, Some (done, allowed)) /\
    (done = true ->
      r = fold_left first_error (results_of s2 g) flagcxSuccess /\
      gr_members gr = Z.of_nat (length (results_of s2 g)) /\
      (allowed = true <-> Forall (fun x => x = flagcxSuccess) (results_of s2 g)) /\
      forall sb es j e, sb ∈ ns_boards s2 -> sb_entries sb = Some es -> Z.of_nat j < sb_capacity sb ->
        es !! j = Some e -> ce_state e = FLAGCX_NET_COMPLETION_ENTRY_PENDING -> ce_releaseGroup e <> g) /\
    (done = false ->
      r = flagcxSuccess /\ allowed = false /\
      (gr_state gr = FLAGCX_NET_RELEASE_GROUP_OPEN \/ 0 < gr_pending gr)).
Proof.
  intros Hi Hr Hgr Hid. destruct (net_reachable_inv _ _ Hi Hr) as [abss [Hb Hn _ Hg]].
  destruct (Hg _ _ Hgr) as [Gp Gm [Gn Gb] Ge Gc Gs Ga].
  assert (Hnz : g <> NULL) by congruence.
  unfold flagcxNetReleaseGroupTest. rewrite (proj2 (Z.eqb_neq g NULL)) by done. rewrite Hgr. cbn [mbind option_bind].
  rewrite (proj2 (Z.eqb_neq (gr_groupId gr) 0)) by done. cbn [negb orb].
  do 3 eexists. split; [reflexivity|]. case_bool_decide as Hst.
  - split; [|done]. intros _. specialize (Gc Hst). rewrite Gc in *. split_and!; [done|lia| |].
    + cbn in Ga. rewrite Ga, negb_true_iff, Ge, first_errors_success. tauto.
    + intros sb es j e Hsb He Hj Hje Hes Heg. apply list_elem_of_lookup in Hsb as [i Hsb].
      destruct (Forall2_lookup_l _ _ _ _ _ Hb Hsb) as (a & Ha & I).
      pose proof (pending_entry_counts sb a es j e g I He Hj Hje Hes Heg).
      pose proof (total_pending_ge g abss i a Ha). lia.
  - split; [done|]. intros _. split_and!; [done|done|].
    destruct (gr_state gr) eqn:Hs; [by left|right|done]. rewrite Gp. by apply Gs.
Qed.

Lemma release_gate_witness :
  exists s1 s2 gr, net_initial s1 /\ reach net_step s1 s2 /\ ns_groups s2 !! 3 = Some gr /\ gr_groupId gr <> 0 /\
    exists r done allowed,
      flagcxNetReleaseGroupTest 3 true true (ns_groups s2) = Some (r, Some (done, allowed)) /\
      (done = true ->
        r = fold_left first_error (results_of s2 3) flagcxSuccess /\
        gr_members gr = Z.of_nat (length (results_of s2 3)) /\
        (allowed = true <-> Forall (fun x => x = flagcxSuccess) (results_of s2 3)) /\
        forall sb es j e, sb ∈ ns_boards s2 -> sb_entries sb = Some es -> Z.of_nat j < sb_capacity sb ->
          es !! j = Some e -> ce_state e = FLAGCX_NET_COMPLETION_ENTRY_PENDING -> ce_releaseGroup e <> 3) /\
      (done = false ->
        r = flagcxSuccess /\ allowed = false /\
        (gr_state gr = FLAGCX_NET_RELEASE_GROUP_OPEN \/ 0 < gr_pending gr)).
Proof.
  destruct (scoreboard_init_implements (replicate 2 flagcxNetCompletionEntryReset) 2 1 7) as (sb & Hrun & _);
    [lia|cbn; lia|lia|].
  pose proof Hrun as Hsb. vm_compute in Hsb. injection Hsb as <-.
  set (c := MkSubmitContext 0 5 1 7 1 0).
  match type of Hrun with _ = Some (_, Some ?b) => set (sb := b) in * end.
  set (s1 := MkNetSystem [sb] {[ 3 := release_group_zero ]} ∅).
  assert (Hi : net_initial s1).
  { split; [reflexivity|]. split; [|split; [reflexivity|]].
    - intros g gr Hg. cbn in Hg. apply lookup_singleton_Some in Hg as [_ <-]. reflexivity.
    - apply Forall_cons. split; [|apply Forall_nil; exact I]. exists (replicate 2 flagcxNetCompletionEntryReset), 2, 1, 7.
      split; [lia|split; [cbn; lia|split; [lia|exact Hrun]]]. }
  assert (Hpath : exists s2, reach net_step s1 s2 /\ exists gr, ns_groups s2 !! 3 = Some gr /\ gr_groupId gr <> 0).
  { eexists. split.
    - eapply reach_step; [eapply step_group_init with (g := 3) (id := 5) (gen := 1); reflexivity|].
      eapply reach_step; [eapply step_call with (i := 0%nat) (call := Submit c 3);
        [reflexivity|split; [split; vm_compute; congruence|intros _; eexists; reflexivity]|vm_compute; reflexivity]|].
      eapply reach_step; [eapply step_group_seal with (g := 3); vm_compute; reflexivity|].
      eapply reach_step; [eapply step_call with (i := 0%nat) (call := Complete c flagcxRemoteError);
        [reflexivity|split; vm_compute; congruence|vm_compute; reflexivity]|].
      apply reach_refl.
    - eexists. split; [vm_compute; reflexivity|vm_compute; congruence]. }
  destruct Hpath as (s2 & Hr & gr & Hgr & Hid).
  exists s1, s2, gr. split; [exact Hi|split; [exact Hr|split; [exact Hgr|split; [exact Hid|]]]].
  exact (release_gate s1 s2 3 gr Hi Hr Hgr Hid).
Defined.
