(* ===== verification/NetAtomics.v ===== *)
(** Credits and request states under interference
    ([flagcx/adaptor/net/net_transport.cc]): the calls that synchronise without a
    lock, one shared access with the local work behind it a step, by any number
    of threads in any order.  [NetTransport] has the same calls as they run
    alone. *)
From S2P Require Import Prelude Flagcx Arrays NetTransport.

(** ** Sums over threads *)

Fixpoint total {A} (f : A -> Z) (l : list A) : Z := match l with [] => 0 | x :: l => f x + total f l end.

Lemma total_insert {A} (f : A -> Z) l : forall i x y, l !! i = Some x -> total f (<[i := y]> l) = total f l - f x + f y.
Proof.
  induction l as [|z l IH]; intros [|i] x y Hl; [done|done| |].
  - injection Hl as ->. cbn. lia.
  - change (<[S i := y]> (z :: l)) with (z :: <[i := y]> l). cbn [total]. rewrite (IH i x y Hl). lia.
Qed.

Section Nonneg.
Context {A} (f : A -> Z).

Lemma total_nonneg l : (forall i x, l !! i = Some x -> 0 <= f x) -> 0 <= total f l.
Proof. induction l as [|z l IH]; intros H; cbn; [done|]. pose proof (H 0%nat z eq_refl). specialize (IH (fun i => H (S i))). lia. Qed.

Lemma total_ge l : forall i x, (forall i x, l !! i = Some x -> 0 <= f x) -> l !! i = Some x -> f x <= total f l.
Proof.
  induction l as [|z l IH]; intros [|i] x H Hi; [done|done| |]; cbn.
  - injection Hi as ->. pose proof (total_nonneg l (fun i => H (S i))). lia.
  - pose proof (H 0%nat z eq_refl). pose proof (IH i x (fun i => H (S i)) Hi). lia.
Qed.

Lemma total_two l : forall i j x y,
  (forall i x, l !! i = Some x -> 0 <= f x) -> i <> j -> l !! i = Some x -> l !! j = Some y -> f x + f y <= total f l.
Proof.
  induction l as [|z l IH]; intros i j x y H Hne Hi Hj; [done|]. cbn.
  destruct i as [|i], j as [|j]; cbn in Hi, Hj; [done| | |].
  - injection Hi as ->. pose proof (total_ge l j y (fun i => H (S i)) Hj). lia.
  - injection Hj as ->. pose proof (total_ge l i x (fun i => H (S i)) Hi). lia.
  - pose proof (H 0%nat z eq_refl). pose proof (IH i j x y (fun i => H (S i)) ltac:(congruence) Hi Hj). lia.
Qed.

Lemma total_zero l : (forall i x, l !! i = Some x -> f x = 0) -> total f l = 0.
Proof. induction l as [|z l IH]; intros H; cbn; [done|]. by rewrite (H 0%nat z eq_refl), (IH (fun i => H (S i))). Qed.
End Nonneg.

(** ** Credits *)

Module Credits.

(** Where a thread is in [flagcxNetCreditAcquire] or [flagcxNetCreditRelease]:
    the compare-and-swap is next with the value it expects. *)
Inductive credit_pc :=
| AcquireCall (count : Z)
| AcquireTry (count inUse : Z)
| ReleaseCall (count : Z)
| ReleaseTry (count inUse : Z)
| CreditReturned (r : flagcxResult_t).

Definition acquire_check (c : flagcxNetCredit) (count inUse : Z) : credit_pc :=
  if (cr_capacity c <? inUse) || (cr_capacity c -u32 inUse <? count) then CreditReturned flagcxInProgress
  else AcquireTry count inUse.
Definition release_check (count inUse : Z) : credit_pc :=
  if inUse <? count then CreditReturned flagcxInvalidArgument else ReleaseTry count inUse.

Definition credit_step (c : flagcxNetCredit) (p : credit_pc) : flagcxNetCredit * credit_pc :=
  match p with
  | AcquireCall count =>
    if (count =? 0) || (cr_capacity c =? 0) || (cr_capacity c <? count) then (c, CreditReturned flagcxInvalidArgument)
    else (c, acquire_check c count (cr_inUse c))
  | AcquireTry count inUse =>
    if cr_inUse c =? inUse then (MkCredit (cr_capacity c) (inUse +u32 count), CreditReturned flagcxSuccess)
    else (c, acquire_check c count (cr_inUse c))
  | ReleaseCall count =>
    if (count =? 0) || (cr_capacity c =? 0) then (c, CreditReturned flagcxInvalidArgument)
    else (c, release_check count (cr_inUse c))
  | ReleaseTry count inUse =>
    if cr_inUse c =? inUse then (MkCredit (cr_capacity c) (inUse -u32 count), CreditReturned flagcxSuccess)
    else (c, release_check count (cr_inUse c))
  | CreditReturned _ => (c, p)
  end.

(** Each thread with the credits it holds; it releases no more than these. *)
Record credit_system := MkCreditSystem { cs_credit : flagcxNetCredit; cs_threads : list (Z * credit_pc) }.

Definition acquires (p : credit_pc) : option Z := match p with AcquireCall n | AcquireTry n _ => Some n | _ => None end.
Definition releases (p : credit_pc) : option Z := match p with ReleaseCall n | ReleaseTry n _ => Some n | _ => None end.

(** What the thread holds after a step. *)
Definition held_after (h : Z) (p p' : credit_pc) : Z :=
  match acquires p, p' with Some n, CreditReturned flagcxSuccess => h + n | _, _ => h end.

Inductive system_step : credit_system -> credit_system -> Prop :=
| step_thread c ts i h p c' p' :
    ts !! i = Some (h, p) -> credit_step c p = (c', p') ->
    system_step (MkCreditSystem c ts) (MkCreditSystem c' (<[i := (held_after h p p', p')]> ts))
| step_acquire c ts i h r n :
    ts !! i = Some (h, CreditReturned r) -> is_u32 n ->
    system_step (MkCreditSystem c ts) (MkCreditSystem c (<[i := (h, AcquireCall n)]> ts))
| step_release c ts i h r n :
    ts !! i = Some (h, CreditReturned r) -> 0 < n <= h ->
    system_step (MkCreditSystem c ts) (MkCreditSystem c (<[i := (h - n, ReleaseCall n)]> ts)).

Definition credit_initial (capacity : Z) (s : credit_system) : Prop :=
  0 < capacity < U32_MOD /\ flagcxNetCreditInit (Some (cs_credit s)) capacity = (flagcxSuccess, Some (cs_credit s)) /\
  Forall (fun t => exists r, t = (0, CreditReturned r)) (cs_threads s).

(** The credits a thread accounts for: those it holds or is giving back. *)
Definition owed (t : Z * credit_pc) : Z := t.1 + default 0 (releases t.2).

Record credit_inv (s : credit_system) : Prop := {
  ci_capacity : 0 < cr_capacity (cs_credit s) < U32_MOD;
  ci_inUse : cr_inUse (cs_credit s) = total owed (cs_threads s) /\ cr_inUse (cs_credit s) <= cr_capacity (cs_credit s);
  ci_thread : forall i h p, cs_threads s !! i = Some (h, p) -> 0 <= h /\
    match p with
    | AcquireCall n => is_u32 n
    | AcquireTry n o => 0 < n /\ 0 <= o /\ o + n <= cr_capacity (cs_credit s)
    | ReleaseCall n => 0 < n
    | ReleaseTry n o => 0 < n <= o /\ o <= cr_capacity (cs_credit s)
    | CreditReturned _ => True
    end
}.

Lemma owed_nonneg s i t : credit_inv s -> cs_threads s !! i = Some t -> 0 <= owed t.
Proof.
  intros I Hi. destruct t as [h p]. destruct (ci_thread _ I i h p Hi) as [Hh Hp]. unfold owed. cbn [fst snd].
  destruct p; cbn; lia.
Qed.

(** A step of a thread whose check has passed is the call run alone. *)
Lemma acquire_check_spec c n :
  0 < n <= cr_capacity c -> cr_capacity c < U32_MOD -> 0 <= cr_inUse c <= cr_capacity c ->
  (acquire_check c n (cr_inUse c) = CreditReturned flagcxInProgress /\ flagcxNetCreditAcquire (Some c) n = (flagcxInProgress, Some c)) \/
  (acquire_check c n (cr_inUse c) = AcquireTry n (cr_inUse c) /\ cr_inUse c + n <= cr_capacity c).
Proof.
  intros Hn Hc Hi. unfold acquire_check, flagcxNetCreditAcquire.
  rewrite (proj2 (Z.eqb_neq n 0)), (proj2 (Z.eqb_neq (cr_capacity c) 0)), (proj2 (Z.ltb_ge (cr_capacity c) n)) by lia. cbn [orb].
  destruct (_ || _) eqn:Hb; [by left|]. right. split; [done|]. bool_to_prop.
  rewrite (Z.mod_small (cr_capacity c - cr_inUse c)) in * by lia. lia.
Qed.

Lemma acquire_step_spec c p n c' p' :
  acquires p = Some n -> match p with AcquireTry _ o => 0 < n /\ 0 <= o /\ o + n <= cr_capacity c | _ => is_u32 n end ->
  0 < cr_capacity c < U32_MOD -> 0 <= cr_inUse c <= cr_capacity c -> credit_step c p = (c', p') ->
  (exists r, p' = CreditReturned r /\ flagcxNetCreditAcquire (Some c) n = (r, Some c')) \/
  (p' = AcquireTry n (cr_inUse c) /\ c' = c /\ 0 < n /\ cr_inUse c + n <= cr_capacity c /\
   match p with AcquireTry _ o => o <> cr_inUse c | _ => True end).
Proof.
  intros Ha Hp Hc Hi Hs. destruct p as [m|m o|m|m o|r]; try done; injection Ha as ->; cbn in Hs.
  - destruct (_ || _ || _) eqn:Hb.
    + injection Hs as <- <-. left. exists flagcxInvalidArgument. split; [done|]. unfold flagcxNetCreditAcquire. by rewrite Hb.
    + injection Hs as <- <-. bool_to_prop. unfold is_u32 in Hp.
      destruct (acquire_check_spec c n) as [[-> ?]|[-> ?]]; [lia|lia|lia| |].
      * left. by exists flagcxInProgress.
      * right. split; [done|]. split; [done|]. split; [lia|]. done.
  - destruct Hp as (Hn & Ho0 & Ho). destruct (Z.eqb_spec (cr_inUse c) o) as [<-|Hne].
    + injection Hs as <- <-. left. exists flagcxSuccess. split; [done|]. unfold flagcxNetCreditAcquire.
      rewrite (proj2 (Z.eqb_neq n 0)), (proj2 (Z.eqb_neq (cr_capacity c) 0)), (proj2 (Z.ltb_ge (cr_capacity c) n)),
        (proj2 (Z.ltb_ge (cr_capacity c) (cr_inUse c))), (Z.mod_small (cr_capacity c - _)), (proj2 (Z.ltb_ge _ n)) by lia. done.
    + injection Hs as <- <-. destruct (acquire_check_spec c n) as [[-> ?]|[-> ?]]; [lia|lia|lia| |].
      * left. by exists flagcxInProgress.
      * right. done.
Qed.

Lemma release_step_spec c p n c' p' :
  releases p = Some n -> match p with ReleaseTry _ o => n <= o | _ => True end -> 0 < n <= cr_inUse c ->
  0 < cr_capacity c < U32_MOD -> cr_inUse c <= cr_capacity c -> credit_step c p = (c', p') ->
  (p' = CreditReturned flagcxSuccess /\ flagcxNetCreditRelease (Some c) n = (flagcxSuccess, Some c')) \/
  (p' = ReleaseTry n (cr_inUse c) /\ c' = c /\ match p with ReleaseTry _ o => o <> cr_inUse c | _ => True end).
Proof.
  intros Ha Hp Hn Hc Hi Hs. unfold flagcxNetCreditRelease.
  rewrite (proj2 (Z.eqb_neq n 0)), (proj2 (Z.eqb_neq (cr_capacity c) 0)), (proj2 (Z.ltb_ge (cr_inUse c) n)) by lia. cbn [orb].
  assert (Hcheck : release_check n (cr_inUse c) = ReleaseTry n (cr_inUse c)).
  { unfold release_check. by rewrite (proj2 (Z.ltb_ge (cr_inUse c) n)) by lia. }
  destruct p as [m|m o|m|m o|r]; try done; injection Ha as ->; cbn in Hs.
  - rewrite (proj2 (Z.eqb_neq n 0)), (proj2 (Z.eqb_neq (cr_capacity c) 0)) in Hs by lia. cbn in Hs. rewrite Hcheck in Hs.
    injection Hs as <- <-. by right.
  - destruct (Z.eqb_spec (cr_inUse c) o) as [<-|Hne].
    + injection Hs as <- <-. by left.
    + rewrite Hcheck in Hs. injection Hs as <- <-. by right.
Qed.

(** What the calls run alone leave in use. *)
Lemma acquire_effect c n r c' :
  0 <= cr_inUse c -> cr_capacity c < U32_MOD -> is_u32 n -> flagcxNetCreditAcquire (Some c) n = (r, Some c') ->
  cr_capacity c' = cr_capacity c /\
  if bool_decide (r = flagcxSuccess) then cr_inUse c' = cr_inUse c + n /\ cr_inUse c + n <= cr_capacity c else c' = c.
Proof.
  intros Hi Hc [Hn _]. unfold flagcxNetCreditAcquire. destruct (_ || _ || _); [by intros [= <- <-]|].
  destruct (_ || _) eqn:Hb; [by intros [= <- <-]|]. bool_to_prop. intros [= <- <-]. cbn. wrap_small. split; [done|].
  rewrite bool_decide_eq_true_2 by done. lia.
Qed.

Lemma release_effect c n c' :
  cr_inUse c < U32_MOD -> 0 < n <= cr_inUse c -> flagcxNetCreditRelease (Some c) n = (flagcxSuccess, Some c') ->
  cr_capacity c' = cr_capacity c /\ cr_inUse c' = cr_inUse c - n.
Proof.
  intros Hc Hn. unfold flagcxNetCreditRelease. destruct (_ || _); [done|]. destruct (_ <? _); [done|]. intros [= <-]. cbn.
  by rewrite Z.mod_small by lia.
Qed.

Lemma thread_owes s i h p n :
  credit_inv s -> cs_threads s !! i = Some (h, p) -> releases p = Some n -> 0 < n <= cr_inUse (cs_credit s).
Proof.
  intros I Hi Hp. destruct (ci_thread _ I i h p Hi) as [Hh Hpc]. destruct (ci_inUse _ I) as [-> _].
  pose proof (total_ge owed (cs_threads s) i (h, p) (fun j t Hj => owed_nonneg s j t I Hj) Hi) as Hle.
  assert (Ho : owed (h, p) = h + n) by (unfold owed; cbn [fst snd]; by rewrite Hp). rewrite Ho in Hle.
  destruct p; try done; injection Hp as ->; lia.
Qed.

Lemma inUse_bounds s : credit_inv s -> 0 <= cr_inUse (cs_credit s) <= cr_capacity (cs_credit s).
Proof.
  intros I. destruct (ci_inUse _ I) as [E Hle]. split; [|done]. rewrite E. apply total_nonneg. intros i t. by apply owed_nonneg.
Qed.

(** One thread changes, and the credits with it. *)
Lemma credit_inv_thread s i h p c' h' p' :
  credit_inv s -> cs_threads s !! i = Some (h, p) -> cr_capacity c' = cr_capacity (cs_credit s) ->
  cr_inUse c' = cr_inUse (cs_credit s) - owed (h, p) + owed (h', p') -> cr_inUse c' <= cr_capacity c' ->
  (0 <= h' /\ match p' with
    | AcquireCall n => is_u32 n
    | AcquireTry n o => 0 < n /\ 0 <= o /\ o + n <= cr_capacity c'
    | ReleaseCall n => 0 < n
    | ReleaseTry n o => 0 < n <= o /\ o <= cr_capacity c'
    | CreditReturned _ => True
    end) -> credit_inv (MkCreditSystem c' (<[i := (h', p')]> (cs_threads s))).
Proof.
  intros I Hi Ec Eu Hle Hp. destruct (ci_inUse _ I) as [Ei _]. constructor; cbn [cs_credit cs_threads].
  - rewrite Ec. apply I.
  - split; [|done]. rewrite (total_insert owed _ i (h, p)) by done. rewrite <- Ei. done.
  - intros j hj pj [(-> & E & _)|[_ Hj]]%list_lookup_insert_Some.
    + by injection E as <- <-.
    + rewrite Ec. by apply (ci_thread _ I j).
Qed.

Lemma thread_step_inv s i h p c' p' :
  credit_inv s -> cs_threads s !! i = Some (h, p) -> credit_step (cs_credit s) p = (c', p') ->
  credit_inv (MkCreditSystem c' (<[i := (held_after h p p', p')]> (cs_threads s))).
Proof.
  intros I Hi Hs. pose proof (inUse_bounds s I) as Hu. pose proof (ci_capacity _ I) as Hc.
  destruct (ci_thread _ I i h p Hi) as [Hh Hp]. destruct (acquires p) as [n|] eqn:Ha.
  - assert (Hn : is_u32 n) by (destruct p; try done; injection Ha as ->; unfold is_u32; [done|lia]).
    destruct (acquire_step_spec (cs_credit s) p n c' p' Ha) as [(r & -> & Hrun)|(-> & -> & H1 & H2 & _)];
      [destruct p; try done; by injection Ha as ->|done|done|done| |].
    + destruct (acquire_effect (cs_credit s) n r c' ltac:(lia) ltac:(lia) Hn Hrun) as [Ec He]. unfold held_after. rewrite Ha.
      assert (Hr : releases p = None) by (by destruct p). unfold is_u32 in Hn.
      case_bool_decide as Hr1.
      * subst r. apply (credit_inv_thread s i h p); try done; unfold owed; cbn; rewrite ?Hr; cbn; lia.
      * assert (Hheld : match r with flagcxSuccess => h + n | _ => h end = h) by (by destruct r). rewrite Hheld. subst c'.
        apply (credit_inv_thread s i h p); try done; unfold owed; cbn; rewrite ?Hr; cbn; lia.
    + assert (Hr : releases p = None) by (by destruct p). unfold held_after. rewrite Ha.
      apply (credit_inv_thread s i h p); try done; unfold owed; cbn; rewrite ?Hr; cbn; try lia.
  - destruct (releases p) as [n|] eqn:Hr.
    + pose proof (thread_owes s i h p n I Hi Hr) as Hn. unfold held_after. rewrite Ha.
      destruct (release_step_spec (cs_credit s) p n c' p' Hr) as [(-> & Hrun)|(-> & -> & _)];
        [destruct p; try done; injection Hr as ->; lia|done|done|lia|done| |].
      * destruct (release_effect (cs_credit s) n c' ltac:(lia) Hn Hrun) as [Ec Eu].
        apply (credit_inv_thread s i h p); try done; unfold owed; cbn; rewrite ?Hr; cbn; lia.
      * apply (credit_inv_thread s i h p); try done; unfold owed; cbn; rewrite ?Hr; cbn; lia.
    + destruct p as [| | | |r]; try done. injection Hs as <- <-. change (held_after h _ _) with h.
      rewrite list_insert_id by done. by destruct s.
Qed.

Lemma credit_inv_step s1 s2 : credit_inv s1 -> system_step s1 s2 -> credit_inv s2.
Proof.
  intros I Hst. revert I. destruct Hst as [c ts i h p c' p' Hi Hs|c ts i h r n Hi Hn|c ts i h r n Hi Hn]; intros I.
  - exact (thread_step_inv (MkCreditSystem c ts) i h p c' p' I Hi Hs).
  - destruct (ci_thread _ I i _ _ Hi) as [Hh _]. destruct (ci_inUse _ I) as [_ Hu].
    apply (credit_inv_thread (MkCreditSystem c ts) i h (CreditReturned r) c h (AcquireCall n)); try done. unfold owed. cbn. lia.
  - destruct (ci_thread _ I i _ _ Hi) as [Hh _]. destruct (ci_inUse _ I) as [_ Hu].
    apply (credit_inv_thread (MkCreditSystem c ts) i h (CreditReturned r) c (h - n) (ReleaseCall n)); try done; [|lia]. unfold owed. cbn. lia.
Qed.

Lemma credit_initial_inv capacity s : credit_initial capacity s -> credit_inv s.
Proof.
  intros (Hc & Hinit & Hts). cbn in Hinit. rewrite (proj2 (Z.eqb_neq capacity 0)) in Hinit by lia.
  assert (Hfresh : forall i h p, cs_threads s !! i = Some (h, p) -> h = 0 /\ exists r, p = CreditReturned r).
  { intros i h p Hi. destruct (proj1 (Forall_lookup _ _) Hts i _ Hi) as [r E]. injection E as -> ->. eauto. }
  injection Hinit as E. constructor; rewrite <- ?E; cbn; try done.
  - split; [|lia]. symmetry. apply total_zero. intros i [h p] Hi. by destruct (Hfresh i h p Hi) as (-> & r & ->).
  - intros i h p Hi. by destruct (Hfresh i h p Hi) as (-> & r & ->).
Qed.

(** C30: credits under interference.  Whatever the interleaving, the credits in
    use are those that threads hold or are giving back, and within the
    capacity; each call has the result and the effect of the call run alone in
    the state of its last access, and a release by a holder succeeds; a step
    that ends no call leaves the credits alone, and ends none only because the
    word changed since the thread read it. *)
Theorem credits_atomic capacity s1 s2 i h p c' p' :
  credit_initial capacity s1 -> reach system_step s1 s2 -> cs_threads s2 !! i = Some (h, p) ->
  credit_step (cs_credit s2) p = (c', p') ->
  cr_inUse (cs_credit s2) = total owed (cs_threads s2) /\ 0 <= cr_inUse (cs_credit s2) <= cr_capacity (cs_credit s2) /\
  match acquires p, releases p with
  | Some n, _ =>
    (exists r, p' = CreditReturned r /\ flagcxNetCreditAcquire (Some (cs_credit s2)) n = (r, Some c')) \/
    (p' = AcquireTry n (cr_inUse (cs_credit s2)) /\ c' = cs_credit s2 /\
     match p with AcquireTry _ o => o <> cr_inUse (cs_credit s2) | _ => True end)
  | None, Some n =>
    (p' = CreditReturned flagcxSuccess /\ flagcxNetCreditRelease (Some (cs_credit s2)) n = (flagcxSuccess, Some c')) \/
    (p' = ReleaseTry n (cr_inUse (cs_credit s2)) /\ c' = cs_credit s2 /\
     match p with ReleaseTry _ o => o <> cr_inUse (cs_credit s2) | _ => True end)
  | None, None => True
  end.
Proof.
  intros Hinit Hr Hi Hs.
  assert (I : credit_inv s2).
  { apply (reach_invariant system_step credit_inv credit_inv_step s1 s2 Hr). by eapply credit_initial_inv. }
  pose proof (inUse_bounds s2 I) as Hu. split; [apply I|]. split; [done|]. destruct (ci_thread _ I i h p Hi) as [_ Hp].
  destruct (acquires p) as [n|] eqn:Ha.
  - destruct (acquire_step_spec (cs_credit s2) p n c' p' Ha) as [H1|(H1 & H2 & _ & _ & H3)]; [destruct p; try done; by injection Ha as ->|apply I|done|done|by left|by right].
  - destruct (releases p) as [n|] eqn:Hrel; [|done]. pose proof (thread_owes s2 i h p n I Hi Hrel).
    apply (release_step_spec (cs_credit s2) p n c' p' Hrel); try done; [|apply I|lia].
    destruct p; try done; injection Hrel as ->; lia.
Qed.

(** Two threads take the last credit: the second finds it gone. *)
Lemma credits_atomic_witness :
  exists s2 h p c' p', cs_threads s2 !! 1%nat = Some (h, p) /\ credit_step (cs_credit s2) p = (c', p') /\
    p = AcquireTry 1 0 /\ p' = CreditReturned flagcxInProgress /\ flagcxNetCreditAcquire (Some (cs_credit s2)) 1 = (flagcxInProgress, Some c').
Proof.
  set (s1 := MkCreditSystem (MkCredit 1 0) [(0, CreditReturned flagcxSuccess); (0, CreditReturned flagcxSuccess)]).
  assert (Hi : credit_initial 1 s1).
  { split; [lia|]. split; [reflexivity|]. repeat constructor; by eexists. }
  assert (Hpath : exists s2, reach system_step s1 s2 /\ cs_threads s2 !! 1%nat = Some (0, AcquireTry 1 0) /\ cs_credit s2 = MkCredit 1 1).
  { eexists. split.
    - eapply reach_step; [eapply step_acquire with (i := 0%nat) (n := 1); [reflexivity|vm_compute; split; congruence]|].
      eapply reach_step; [eapply step_acquire with (i := 1%nat) (n := 1); [reflexivity|vm_compute; split; congruence]|].
      eapply reach_step; [eapply step_thread with (i := 1%nat); [reflexivity|vm_compute; reflexivity]|].
      eapply reach_step; [eapply step_thread with (i := 0%nat); [reflexivity|vm_compute; reflexivity]|].
      eapply reach_step; [eapply step_thread with (i := 0%nat); [reflexivity|vm_compute; reflexivity]|]. apply reach_refl.
    - split; reflexivity. }
  destruct Hpath as (s2 & Hr & Ht & Hc). exists s2, 0, (AcquireTry 1 0), (MkCredit 1 1), (CreditReturned flagcxInProgress).
  assert (Hs : credit_step (cs_credit s2) (AcquireTry 1 0) = (MkCredit 1 1, CreditReturned flagcxInProgress)) by (rewrite Hc; reflexivity).
  destruct (credits_atomic 1 s1 s2 1 0 (AcquireTry 1 0) (MkCredit 1 1) (CreditReturned flagcxInProgress) Hi Hr Ht Hs) as (_ & _ & [(r & E & Hrun)|(E & _)]).
  - split; [exact Ht|]. split; [exact Hs|]. split; [reflexivity|]. split; [reflexivity|]. injection E as <-. exact Hrun.
  - discriminate E.
Defined.

End Credits.
(** ** Requests *)

Module Requests.

(** Where a thread is in [flagcxNetRequestCoreComplete]. *)
Inductive complete_pc :=
| CompleteCall
| CompleteRecord
| CompleteLoad
| CompleteTry (pending : Z)
| CompleteStore
| CompleteReturned (r : flagcxResult_t).

Definition complete_check (count pending : Z) : complete_pc :=
  if pending <? count then CompleteReturned flagcxInvalidArgument else CompleteTry pending.

Definition complete_step (c : flagcxNetRequestCore) (count : Z) (result : flagcxResult_t) (p : complete_pc) :
    flagcxNetRequestCore * complete_pc :=
  match p with
  | CompleteCall =>
    if (count =? 0) || request_not_pending c then (c, CompleteReturned flagcxInvalidArgument) else (c, CompleteRecord)
  | CompleteRecord => (flagcxNetRequestCoreRecordResult c result, CompleteLoad)
  | CompleteLoad => (c, complete_check count (rc_pending c))
  | CompleteTry pending =>
    if rc_pending c =? pending then
      let next := pending -u32 count in
      (MkRequestCore (rc_state c) next (rc_result c), if next =? 0 then CompleteStore else CompleteReturned flagcxSuccess)
    else (c, complete_check count (rc_pending c))
  | CompleteStore => (MkRequestCore FLAGCX_NET_REQUEST_COMPLETE (rc_pending c) (rc_result c), CompleteReturned flagcxSuccess)
  | CompleteReturned _ => (c, p)
  end.

(** Where a thread is in [flagcxNetRequestCoreTest]; the result and [*done]. *)
Inductive test_pc := TestCall | TestLoad | TestReturned (r : flagcxResult_t) (done : option bool).

Definition test_step (c : flagcxNetRequestCore) (p : test_pc) : test_pc :=
  match p with
  | TestCall =>
    match rc_state c with
    | FLAGCX_NET_REQUEST_FREE => TestReturned flagcxInvalidArgument None
    | FLAGCX_NET_REQUEST_PENDING => TestReturned flagcxSuccess (Some false)
    | FLAGCX_NET_REQUEST_COMPLETE => TestLoad
    end
  | TestLoad => TestReturned (rc_result c) (Some true)
  | TestReturned _ _ => p
  end.

(** A completion: its count, its result and where its thread is. *)
Record completion := MkCompletion { cm_count : Z; cm_result : flagcxResult_t; cm_pc : complete_pc }.

Definition set_pc (p : complete_pc) (x : completion) : completion := MkCompletion (cm_count x) (cm_result x) p.

Record request_system := MkRequestSystem {
  rq_core : flagcxNetRequestCore;
  rq_completions : list completion;
  rq_tests : list test_pc
}.

Inductive request_step : request_system -> request_system -> Prop :=
| step_complete c xs ts i x c' p' :
    xs !! i = Some x -> complete_step c (cm_count x) (cm_result x) (cm_pc x) = (c', p') ->
    request_step (MkRequestSystem c xs ts) (MkRequestSystem c' (<[i := set_pc p' x]> xs) ts)
| step_test c xs ts i p :
    ts !! i = Some p -> request_step (MkRequestSystem c xs ts) (MkRequestSystem c xs (<[i := test_step c p]> ts))
(* A thread tests again. *)
| step_test_call c xs ts i r done :
    ts !! i = Some (TestReturned r done) ->
    request_step (MkRequestSystem c xs ts) (MkRequestSystem c xs (<[i := TestCall]> ts)).

(** The request is acquired and all its operations are added to it, before any
    of their completions arrives. *)
Definition request_initial (s : request_system) : Prop :=
  rq_completions s <> [] /\ Forall (fun x => 0 < cm_count x /\ cm_pc x = CompleteCall) (rq_completions s) /\
  Forall (fun p => p = TestCall) (rq_tests s) /\ total cm_count (rq_completions s) < U32_MOD /\
  exists c, flagcxNetRequestCoreAcquire (Some (MkRequestCore FLAGCX_NET_REQUEST_FREE 0 flagcxSuccess)) = (flagcxSuccess, Some c) /\
    flagcxNetRequestCoreAddPending (Some c) (total cm_count (rq_completions s)) = (flagcxSuccess, Some (rq_core s)).

(** ** Invariant *)

(** A result that is recorded. *)
Definition is_error (r : flagcxResult_t) : bool := failed r && negb (bool_decide (r = flagcxInProgress)).

(** Whether a thread has recorded its result, and taken its count off. *)
Definition recorded (p : complete_pc) : bool := match p with CompleteCall | CompleteRecord => false | _ => true end.
Definition taken_off (p : complete_pc) : bool := match p with CompleteStore | CompleteReturned _ => true | _ => false end.
Definition outstanding (x : completion) : Z := if taken_off (cm_pc x) then 0 else cm_count x.
Definition stores (x : completion) : Z := match cm_pc x with CompleteStore => 1 | _ => 0 end.

Record request_inv (s : request_system) : Prop := {
  ri_pending : rc_pending (rq_core s) = total outstanding (rq_completions s) /\ rc_pending (rq_core s) < U32_MOD;
  ri_thread : forall i x, rq_completions s !! i = Some x -> 0 < cm_count x /\
    match cm_pc x with
    | CompleteTry o => cm_count x <= o < U32_MOD
    | CompleteReturned r => r = flagcxSuccess
    | _ => True
    end;
  (* the state is stored by the last thread, which is alone *)
  ri_store : total stores (rq_completions s) =
    if bool_decide (rc_state (rq_core s) = FLAGCX_NET_REQUEST_PENDING) && (rc_pending (rq_core s) =? 0) then 1 else 0;
  ri_state : rc_state (rq_core s) = FLAGCX_NET_REQUEST_PENDING \/
    rc_state (rq_core s) = FLAGCX_NET_REQUEST_COMPLETE /\ rc_pending (rq_core s) = 0;
  ri_errors : forall i x, rq_completions s !! i = Some x -> recorded (cm_pc x) = true -> is_error (cm_result x) = true ->
    rc_result (rq_core s) <> flagcxSuccess;
  ri_result : rc_result (rq_core s) <> flagcxSuccess -> exists i x, rq_completions s !! i = Some x /\
    rc_result (rq_core s) = cm_result x /\ is_error (cm_result x) = true;
  ri_tests : forall i p, rq_tests s !! i = Some p ->
    match p with
    | TestCall => True
    | TestLoad => rc_state (rq_core s) = FLAGCX_NET_REQUEST_COMPLETE
    | TestReturned r done => done = Some false /\ r = flagcxSuccess \/
        done = Some true /\ rc_state (rq_core s) = FLAGCX_NET_REQUEST_COMPLETE /\ r = rc_result (rq_core s)
    end
}.

Lemma outstanding_nonneg s i x : request_inv s -> rq_completions s !! i = Some x -> 0 <= outstanding x.
Proof. intros I Hi. destruct (ri_thread _ I i x Hi) as [Hc _]. unfold outstanding. destruct (taken_off _); lia. Qed.

Lemma stores_nonneg x : 0 <= stores x.
Proof. unfold stores. by destruct (cm_pc x). Qed.

Lemma thread_pending s i x : request_inv s -> rq_completions s !! i = Some x -> taken_off (cm_pc x) = false ->
  cm_count x <= rc_pending (rq_core s) /\ rc_state (rq_core s) = FLAGCX_NET_REQUEST_PENDING.
Proof.
  intros I Hi Ht. pose proof (total_ge outstanding _ i x (fun j y Hj => outstanding_nonneg s j y I Hj) Hi) as Hle.
  destruct (ri_thread _ I i x Hi) as [Hc _]. destruct (ri_pending _ I) as [Hp _].
  assert (Hox : outstanding x = cm_count x) by (unfold outstanding; by rewrite Ht).
  split; [lia|]. destruct (ri_state _ I) as [?|[_ H0]]; [done|lia].
Qed.

(** Every completion has recorded its result once the state is complete. *)
Lemma complete_returned s i x :
  request_inv s -> rc_state (rq_core s) = FLAGCX_NET_REQUEST_COMPLETE -> rq_completions s !! i = Some x ->
  cm_pc x = CompleteReturned flagcxSuccess.
Proof.
  intros I Hs Hi. destruct (taken_off (cm_pc x)) eqn:Ht; [|destruct (thread_pending s i x I Hi Ht); congruence].
  pose proof (ri_store _ I) as Hst. rewrite Hs in Hst. cbn in Hst.
  pose proof (total_ge stores _ i x (fun j y _ => stores_nonneg y) Hi) as Hle. rewrite Hst in Hle. unfold stores in Hle.
  destruct (ri_thread _ I i x Hi) as [_ Hp]. destruct (cm_pc x); try done. by subst.
Qed.

(** One completion moves. *)
Lemma request_inv_thread s i x c' p' :
  request_inv s -> rq_completions s !! i = Some x -> rc_state (rq_core s) = FLAGCX_NET_REQUEST_PENDING ->
  rc_state c' = FLAGCX_NET_REQUEST_PENDING ->
  rc_pending c' = rc_pending (rq_core s) - outstanding x + outstanding (set_pc p' x) -> rc_pending c' < U32_MOD ->
  match p' with
  | CompleteTry o => cm_count x <= o < U32_MOD
  | CompleteReturned r => r = flagcxSuccess
  | _ => True
  end ->
  total stores (rq_completions s) - stores x + stores (set_pc p' x) = (if rc_pending c' =? 0 then 1 else 0) ->
  (rc_result (rq_core s) <> flagcxSuccess -> rc_result c' = rc_result (rq_core s)) ->
  (recorded p' = true -> is_error (cm_result x) = true -> rc_result c' <> flagcxSuccess) ->
  (rc_result c' <> flagcxSuccess -> rc_result (rq_core s) <> flagcxSuccess \/ rc_result c' = cm_result x /\ is_error (cm_result x) = true) ->
  request_inv (MkRequestSystem c' (<[i := set_pc p' x]> (rq_completions s)) (rq_tests s)).
Proof.
  intros I Hi Hs Hs' Hp Hmax Hpc Hst Hkeep Hrec Hnew. pose proof (lookup_lt_Some _ _ _ Hi) as Hlt.
  destruct (ri_pending _ I) as [Ep _]. constructor; cbn [rq_core rq_completions rq_tests].
  - split; [|done]. rewrite (total_insert outstanding _ i x) by done. lia.
  - intros j y [(-> & <- & _)|[_ Hj]]%list_lookup_insert_Some; [|by apply (ri_thread _ I j)].
    split; [|done]. apply (ri_thread _ I _ _ Hi).
  - rewrite (total_insert stores _ i x) by done. rewrite Hs', bool_decide_eq_true_2 by done. done.
  - by left.
  - intros j y [(-> & <- & _)|[_ Hj]]%list_lookup_insert_Some Hr He; [by apply Hrec|].
    pose proof (ri_errors _ I j y Hj Hr He) as Hne. by rewrite (Hkeep Hne).
  - intros Hne. destruct (Hnew Hne) as [H0|[E He]].
    + destruct (ri_result _ I H0) as (j & y & Hj & E & He). rewrite (Hkeep H0), E. destruct (decide (j = i)) as [->|Hji].
      * assert (y = x) as -> by congruence. exists i, (set_pc p' x). by rewrite list_lookup_insert_eq.
      * exists j, y. by rewrite list_lookup_insert_ne.
    + exists i, (set_pc p' x). by rewrite list_lookup_insert_eq.
  - intros j p Hj. pose proof (ri_tests _ I j p Hj) as Ht. destruct p as [| |r d]; [done|congruence|].
    destruct Ht as [?|(_ & ? & _)]; [by left|congruence].
Qed.

Lemma complete_step_inv s i x c' p' :
  request_inv s -> rq_completions s !! i = Some x -> complete_step (rq_core s) (cm_count x) (cm_result x) (cm_pc x) = (c', p') ->
  request_inv (MkRequestSystem c' (<[i := set_pc p' x]> (rq_completions s)) (rq_tests s)).
Proof.
  intros I Hi Hst. destruct (ri_thread _ I i x Hi) as [Hc Hpc]. destruct (ri_pending _ I) as [Ep Hmax].
  pose proof (ri_store _ I) as Hsto.
  destruct (taken_off (cm_pc x)) eqn:Ht.
  - (* the store of the state *)
    destruct (cm_pc x) eqn:Epc; try done; cbn in Hst; injection Hst as <- <-; subst.
    + pose proof (total_ge stores _ i x (fun j y _ => stores_nonneg y) Hi) as Hle.
      assert (Hsx : stores x = 1) by (unfold stores; by rewrite Epc). rewrite Hsx, Hsto in Hle.
      destruct (bool_decide (rc_state (rq_core s) = _)) eqn:Hs; [|cbn in Hle; lia]. cbn [andb] in Hsto, Hle.
      apply bool_decide_eq_true in Hs. destruct (Z.eqb_spec (rc_pending (rq_core s)) 0) as [H0|]; [|lia].
      constructor; cbn [rq_core rq_completions rq_tests rc_state rc_pending rc_result].
      * split; [|done]. rewrite (total_insert outstanding _ i x) by done.
        assert (outstanding x = 0) by (unfold outstanding; by rewrite Epc). change (outstanding (set_pc _ x)) with 0. lia.
      * intros j y [(-> & <- & _)|[_ Hj]]%list_lookup_insert_Some; [by split|by apply (ri_thread _ I j)].
      * rewrite (total_insert stores _ i x) by done.
        change (stores (set_pc _ x)) with 0. cbn. rewrite Hsto, Hsx. done.
      * by right.
      * intros j y [(-> & <- & _)|[_ Hj]]%list_lookup_insert_Some Hr He; [|by apply (ri_errors _ I j y)].
        apply (ri_errors _ I _ _ Hi); [by rewrite Epc|done].
      * intros Hne. destruct (ri_result _ I Hne) as (j & y & Hj & E & He). destruct (decide (j = i)) as [->|Hji].
        -- assert (y = x) as -> by congruence. eexists i, _. rewrite list_lookup_insert_eq by (by eapply lookup_lt_Some). done.
        -- exists j, y. by rewrite list_lookup_insert_ne.
      * intros j p Hj. pose proof (ri_tests _ I j p Hj) as Htst. destruct p as [| |r d]; [done|done|].
        destruct Htst as [?|(_ & ? & _)]; [by left|congruence].
    + assert (set_pc (CompleteReturned flagcxSuccess) x = x) as -> by (destruct x; cbn in *; by subst).
      rewrite list_insert_id by done. by destruct s.
  - destruct (thread_pending s i x I Hi Ht) as [Hle Hs].
    rewrite Hs, bool_decide_eq_true_2 in Hsto by done. cbn [andb] in Hsto.
    rewrite (proj2 (Z.eqb_neq _ 0)) in Hsto by lia.
    assert (Hsx : stores x = 0) by (unfold stores; by destruct (cm_pc x)).
    assert (Hox : outstanding x = cm_count x) by (unfold outstanding; by rewrite Ht).
    assert (Hchk : complete_check (cm_count x) (rc_pending (rq_core s)) = CompleteTry (rc_pending (rq_core s))).
    { unfold complete_check. by rewrite (proj2 (Z.ltb_ge _ _)) by lia. }
    assert (Hidle : forall p', taken_off p' = false -> outstanding (set_pc p' x) = outstanding x /\ stores (set_pc p' x) = 0).
    { intros q Hq. unfold outstanding, stores. cbn. rewrite Hq, Ht. by destruct q. }
    assert (Hnz : (rc_pending (rq_core s) =? 0) = false) by (apply Z.eqb_neq; lia).
    (* the steps that take nothing off *)
    assert (Hquiet : forall p', taken_off p' = false -> recorded p' = recorded (cm_pc x) ->
      match p' with CompleteTry o => cm_count x <= o < U32_MOD | _ => True end ->
      request_inv (MkRequestSystem (rq_core s) (<[i := set_pc p' x]> (rq_completions s)) (rq_tests s))).
    { intros q Hq Hr Htry. destruct (Hidle q Hq) as [E1 E2]. apply request_inv_thread; try done; try lia.
      - destruct q; try done.
      - rewrite Hnz. lia.
      - rewrite Hr. by apply (ri_errors _ I i).
      - by left. }
    destruct (cm_pc x) as [| | |o| |] eqn:Epc; try done; cbn in Hst.
    + rewrite (proj2 (Z.eqb_neq (cm_count x) 0)) in Hst by lia. unfold request_not_pending in Hst.
      rewrite Hs, bool_decide_eq_true_2 in Hst by done. injection Hst as <- <-. by apply Hquiet.
    + injection Hst as <- <-. destruct (Hidle CompleteLoad eq_refl) as [E1 E2].
      assert (Hrec : rc_state (flagcxNetRequestCoreRecordResult (rq_core s) (cm_result x)) = rc_state (rq_core s) /\
        rc_pending (flagcxNetRequestCoreRecordResult (rq_core s) (cm_result x)) = rc_pending (rq_core s) /\
        rc_result (flagcxNetRequestCoreRecordResult (rq_core s) (cm_result x)) =
          if bool_decide (rc_result (rq_core s) = flagcxSuccess) then (if is_error (cm_result x) then cm_result x else flagcxSuccess)
          else rc_result (rq_core s)).
      { unfold flagcxNetRequestCoreRecordResult, is_error. clear. destruct (rq_core s) as [? ? []], (cm_result x); vm_compute; done. }
      destruct Hrec as (R1 & R2 & R3). apply request_inv_thread; try done; rewrite ?R1, ?R2, ?R3; try done; try lia.
      * rewrite Hnz. lia.
      * intros Hne. by rewrite bool_decide_eq_false_2.
      * intros _ He. rewrite He. case_bool_decide; [|done]. unfold is_error in He. by destruct (cm_result x).
      * case_bool_decide; [|by left]. destruct (is_error (cm_result x)) eqn:He; [by right|done].
    + rewrite Hchk in Hst. injection Hst as <- <-. by apply Hquiet; [done| |lia].
    + destruct (Z.eqb_spec (rc_pending (rq_core s)) o) as [<-|Hne].
      2: { rewrite Hchk in Hst. injection Hst as <- <-. by apply Hquiet; [done| |lia]. }
      rewrite Z.mod_small in Hst by lia. injection Hst as <- <-.
      set (next := rc_pending (rq_core s) - cm_count x).
      assert (Hoff : outstanding (set_pc (if next =? 0 then CompleteStore else CompleteReturned flagcxSuccess) x) = 0 /\
        stores (set_pc (if next =? 0 then CompleteStore else CompleteReturned flagcxSuccess) x) = if next =? 0 then 1 else 0)
        by (by destruct (next =? 0)).
      destruct Hoff as [O1 O2]. apply request_inv_thread; cbn [rc_pending rc_state rc_result]; try done; rewrite ?O1, ?O2; try (unfold next; lia).
      * by destruct (next =? 0).
      * intros _ He. apply (ri_errors _ I i x Hi); [by rewrite Epc|done].
      * by left.
Qed.

Lemma request_inv_step s1 s2 : request_inv s1 -> request_step s1 s2 -> request_inv s2.
Proof.
  intros I Hst. revert I. destruct Hst as [c xs ts i x c' p' Hi Hs|c xs ts i p Hi|c xs ts i r d Hi]; intros I.
  - exact (complete_step_inv (MkRequestSystem c xs ts) i x c' p' I Hi Hs).
  - destruct I as [P T S St E R Te]. constructor; try done. cbn in *. intros j q [(-> & <- & _)|[_ Hj]]%list_lookup_insert_Some; [|by apply (Te j)].
    specialize (Te j p Hi). destruct p as [| |r d]; cbn; [|by right|done].
    destruct (rc_state c) eqn:Ec; [|by left|done]. by destruct St as [?|[? _]].
  - destruct I as [P T S St E R Te]. constructor; try done. cbn in *. intros j q [(-> & <- & _)|[_ Hj]]%list_lookup_insert_Some; [done|by apply (Te j)].
Qed.

Lemma request_initial_inv s : request_initial s -> request_inv s.
Proof.
  intros (Hne & Hxs & Hts & Hmax & c & Hacq & Hadd). injection Hacq as <-.
  assert (Hfresh : forall i x, rq_completions s !! i = Some x -> 0 < cm_count x /\ cm_pc x = CompleteCall).
  { intros i x Hi. by apply (proj1 (Forall_lookup _ _) Hxs i). }
  assert (Hpos : 0 < total cm_count (rq_completions s)).
  { destruct (rq_completions s) as [|x xs]; [done|]. destruct (Hfresh 0%nat x eq_refl) as [? _].
    pose proof (total_nonneg cm_count xs) as Hn. cbn. enough (0 <= total cm_count xs) by lia. apply Hn.
    intros i y Hy. destruct (Hfresh (S i) y Hy). lia. }
  assert (Hout : total outstanding (rq_completions s) = total cm_count (rq_completions s)).
  { clear -Hfresh. induction (rq_completions s) as [|x xs IH]; [done|]. cbn. rewrite IH by (intros i; apply (Hfresh (S i))).
    destruct (Hfresh 0%nat x eq_refl) as [_ E]. unfold outstanding. by rewrite E. }
  assert (Hsto : total stores (rq_completions s) = 0).
  { apply total_zero. intros i x Hi. destruct (Hfresh i x Hi) as [_ E]. unfold stores. by rewrite E. }
  unfold flagcxNetRequestCoreAddPending, request_not_pending in Hadd. cbn [rc_state rc_pending rc_result] in Hadd.
  rewrite (proj2 (Z.eqb_neq _ 0)), bool_decide_eq_true_2, (proj2 (Z.ltb_ge _ _)), Z.mod_small in Hadd by (done || lia).
  cbn in Hadd. injection Hadd as Hcore. rewrite Z.add_0_l in Hcore.
  constructor; rewrite <- ?Hcore; cbn; try done.
  - intros i x Hi. destruct (Hfresh i x Hi) as [? ->]. done.
  - rewrite Hsto. by rewrite (proj2 (Z.eqb_neq _ 0)) by lia.
  - by left.
  - intros i x Hi. destruct (Hfresh i x Hi) as [_ ->]. done.
  - intros i p Hi. by rewrite (proj1 (Forall_lookup _ _) Hts i p Hi).
Qed.

(** C24: requests under interference.  Whatever the interleaving of completions
    and tests, no completion is refused; the state is complete exactly when
    every completion has returned; and a test that reports the request as done
    comes after all of them and returns one of their errors, or success if
    none of them is an error. *)
Theorem request_completes s1 s2 :
  request_initial s1 -> reach request_step s1 s2 ->
  (forall i x r, rq_completions s2 !! i = Some x -> cm_pc x = CompleteReturned r -> r = flagcxSuccess) /\
  (rc_state (rq_core s2) = FLAGCX_NET_REQUEST_COMPLETE <->
    forall i x, rq_completions s2 !! i = Some x -> cm_pc x = CompleteReturned flagcxSuccess) /\
  (forall i r, rq_tests s2 !! i = Some (TestReturned r (Some true)) ->
    (forall j x, rq_completions s2 !! j = Some x -> cm_pc x = CompleteReturned flagcxSuccess) /\
    if failed r then exists j x, rq_completions s2 !! j = Some x /\ r = cm_result x /\ is_error r = true
    else forall j x, rq_completions s2 !! j = Some x -> is_error (cm_result x) = false).
Proof.
  intros Hi Hr.
  assert (I : request_inv s2 /\ rq_completions s2 <> []).
  { assert (I1 : request_inv s1 /\ rq_completions s1 <> []) by (split; [by apply request_initial_inv|apply Hi]).
    revert I1. apply (reach_invariant request_step (fun s => request_inv s /\ rq_completions s <> [])); [|done].
    intros a b [Ia Ha] Hab. split; [by eapply request_inv_step|].
    destruct Hab as [c xs ts i x c' p' Hx _| |]; try done. cbn in *. intros E. apply (f_equal length) in E. rewrite length_insert in E.
    by destruct xs. }
  destruct I as [I Hne]. split; [|split].
  - intros i x r Hx Hp. destruct (ri_thread _ I i x Hx) as [_ Ht]. by rewrite Hp in Ht.
  - split; [intros Hs i x; by apply complete_returned|]. intros Hall.
    destruct (ri_state _ I) as [Hs|[? _]]; [|done]. exfalso.
    assert (Hz : total stores (rq_completions s2) = 0).
    { apply total_zero. intros i x Hx. unfold stores. by rewrite (Hall i x Hx). }
    assert (Hp : rc_pending (rq_core s2) = 0).
    { destruct (ri_pending _ I) as [-> _]. apply total_zero. intros i x Hx. unfold outstanding. by rewrite (Hall i x Hx). }
    pose proof (ri_store _ I) as Hst. rewrite Hz, Hs, Hp, bool_decide_eq_true_2 in Hst by done. done.
  - intros i r Ht. destruct (ri_tests _ I i _ Ht) as [[? _]|(_ & Hs & Hr')]; [done|].
    assert (Hall : forall j x, rq_completions s2 !! j = Some x -> cm_pc x = CompleteReturned flagcxSuccess) by (intros j x; by apply complete_returned).
    split; [done|]. destruct (failed r) eqn:Hf.
    + destruct (ri_result _ I) as (j & x & Hj & E & He); [intros E; rewrite Hr', E in Hf; done|].
      exists j, x. rewrite Hr', E. done.
    + intros j x Hj. destruct (is_error (cm_result x)) eqn:He; [|done]. exfalso.
      apply (ri_errors _ I j x Hj); [by rewrite (Hall j x Hj)|done|]. rewrite <- Hr'. by apply failed_success.
Qed.

(** Two completions that race, the first with an error. *)
Lemma request_completes_witness :
  exists s2, rq_tests s2 = [TestReturned flagcxRemoteError (Some true)] /\
    forall j x, rq_completions s2 !! j = Some x -> cm_pc x = CompleteReturned flagcxSuccess.
Proof.
  set (s1 := MkRequestSystem (MkRequestCore FLAGCX_NET_REQUEST_PENDING 3 flagcxSuccess)
    [MkCompletion 2 flagcxRemoteError CompleteCall; MkCompletion 1 flagcxSuccess CompleteCall] [TestCall]).
  assert (Hi : request_initial s1).
  { split; [discriminate|]. split; [repeat constructor|]. split; [repeat constructor|]. split; [cbn; lia|].
    eexists. split; [reflexivity|vm_compute; reflexivity]. }
  assert (Hpath : exists s2, reach request_step s1 s2 /\ rq_tests s2 = [TestReturned flagcxRemoteError (Some true)]).
  { eexists. split.
    - do 3 (eapply reach_step; [eapply step_complete with (i := 0%nat); [reflexivity|vm_compute; reflexivity]|]).
      do 4 (eapply reach_step; [eapply step_complete with (i := 1%nat); [reflexivity|vm_compute; reflexivity]|]).
      do 3 (eapply reach_step; [eapply step_complete with (i := 0%nat); [reflexivity|vm_compute; reflexivity]|]).
      do 2 (eapply reach_step; [eapply step_test with (i := 0%nat); reflexivity|]). apply reach_refl.
    - vm_compute. reflexivity. }
  destruct Hpath as (s2 & Hr & Ht). exists s2. split; [exact Ht|].
  destruct (request_completes s1 s2 Hi Hr) as (_ & _ & H).
  apply (proj1 (H 0%nat flagcxRemoteError ltac:(rewrite Ht; reflexivity))).
Defined.

End Requests.
