(* ===== verification/P2pEngineTransport.v ===== *)
(** Registrations and descriptors of the P2P engine
    ([flagcx/core/p2p_engine_transport.cc],
    [flagcx/core/include/p2p_engine_transport.h], the descriptor of
    [flagcx/include/flagcx_p2p.h]): keys in a 64-byte descriptor, and the
    cutting of a transfer at the boundaries of provider registrations.

    Sizes and addresses are 64-bit words, a [std::vector] is a list.  The words
    of a serialised descriptor are little-endian.  The loop over a pair of
    registrations takes fuel; every iteration moves at least one byte. *)
From S2P Require Import Prelude Flagcx Arrays NetTransport.

(** ** Bytes *)

(** The [n] bytes of a word in memory, and back. *)
Fixpoint bytes_of (n : nat) (x : Z) : list Z :=
  match n with
  | O => []
  | S n => x mod 256 :: bytes_of n (x / 256)
  end.

Fixpoint word_of (bs : list Z) : Z :=
  match bs with
  | [] => 0
  | b :: bs => b + 256 * word_of bs
  end.

(** [memcpy(buf + off, bs, length bs)] *)
Definition memcpy_to (buf : list Z) (off : Z) (bs : list Z) : option (list Z) :=
  if (0 <=? off) && (off + Z.of_nat (length bs) <=? Z.of_nat (length buf))
  then Some (take (Z.to_nat off) buf ++ bs ++ drop (Z.to_nat off + length bs) buf)
  else None.

(** [memcpy(dst, buf + off, n)] *)
Definition memcpy_from (buf : list Z) (off : Z) (n : nat) : option (list Z) :=
  if (0 <=? off) && (off + Z.of_nat n <=? Z.of_nat (length buf))
  then Some (take n (drop (Z.to_nat off) buf))
  else None.

Lemma length_bytes_of n x : length (bytes_of n x) = n.
Proof. revert x; induction n; intros x; cbn; [done|]. by f_equal. Qed.

Lemma word_of_bytes n : forall x, 0 <= x < 256 ^ Z.of_nat n -> word_of (bytes_of n x) = x.
Proof.
  induction n as [|n IH]; intros x Hx; cbn [bytes_of word_of].
  - cbn in Hx. lia.
  - rewrite Nat2Z.inj_succ, Z.pow_succ_r in Hx by lia.
    rewrite IH by (split; [apply Z.div_pos; lia|apply Z.div_lt_upper_bound; lia]).
    pose proof (Z.div_mod x 256). lia.
Qed.

(** Reading back what was written, and reading elsewhere. *)
Lemma memcpy_to_from buf off bs :
  0 <= off -> off + Z.of_nat (length bs) <= Z.of_nat (length buf) ->
  exists buf', memcpy_to buf off bs = Some buf' /\ length buf' = length buf /\
    memcpy_from buf' off (length bs) = Some bs /\
    forall off' n, (off' + Z.of_nat n <= off \/ off + Z.of_nat (length bs) <= off') ->
      memcpy_from buf' off' n = memcpy_from buf off' n.
Proof.
  intros Ho Hl. unfold memcpy_to. rewrite (proj2 (Z.leb_le _ _)), (proj2 (Z.leb_le _ _)) by lia. cbn [andb].
  eexists. split; [done|].
  assert (Hlen : length (take (Z.to_nat off) buf ++ bs ++ drop (Z.to_nat off + length bs) buf) = length buf).
  { rewrite !length_app, length_take, length_drop. lia. }
  split; [done|]. split.
  - unfold memcpy_from. rewrite Hlen, (proj2 (Z.leb_le _ _)), (proj2 (Z.leb_le _ _)) by lia. cbn [andb].
    rewrite drop_app_length' by (rewrite length_take; lia). by rewrite take_app_length.
  - intros off' n Hn. unfold memcpy_from. rewrite Hlen. case_test; [|done]. f_equal.
    apply list_eq. intros i. destruct (decide (i < n)%nat) as [Hi|Hi]; [|rewrite !lookup_take_ge by lia; done].
    rewrite !lookup_take_lt, !lookup_drop by done.
    destruct Hn as [Hn|Hn].
    + rewrite lookup_app_l by (rewrite length_take; lia). by rewrite lookup_take_lt by lia.
    + rewrite lookup_app_r by (rewrite length_take; lia). rewrite length_take.
      rewrite lookup_app_r by lia. rewrite lookup_drop. f_equal. lia.
Qed.

(** ** Descriptors *)

Record FlagcxP2pRdmaDesc := MkRdmaDesc {
  rd_addr : Z;
  rd_size : Z;
  rd_rkey : Z;
  rd_nmsgs : Z;
  rd_rid : Z;
  rd_idx : Z;
  rd_padding : list Z
}.

Definition flagcxP2pSerializeRdmaDesc (desc : FlagcxP2pRdmaDesc) (buf : list Z) : option (list Z) :=
  buf ← memcpy_to buf 0 (bytes_of 8 (rd_addr desc));
  buf ← memcpy_to buf 8 (bytes_of 4 (rd_size desc));
  buf ← memcpy_to buf 12 (bytes_of 4 (rd_rkey desc));
  buf ← memcpy_to buf 16 (bytes_of 4 (rd_nmsgs desc));
  buf ← memcpy_to buf 20 (bytes_of 4 (rd_rid desc));
  buf ← memcpy_to buf 24 (bytes_of 8 (rd_idx desc));
  memcpy_to buf 32 (rd_padding desc).

Definition flagcxP2pDeserializeRdmaDesc (buf : list Z) : option FlagcxP2pRdmaDesc :=
  addr ← memcpy_from buf 0 8;
  size ← memcpy_from buf 8 4;
  rkey ← memcpy_from buf 12 4;
  nmsgs ← memcpy_from buf 16 4;
  rid ← memcpy_from buf 20 4;
  idx ← memcpy_from buf 24 8;
  padding ← memcpy_from buf 32 32;
  Some (MkRdmaDesc (word_of addr) (word_of size) (word_of rkey) (word_of nmsgs) (word_of rid) (word_of idx) padding).

(** The loop over the keys from the [i]-th on. *)
Fixpoint set_keys (n : nat) (i : Z) (rkeys padding : list Z) : option (list Z) :=
  match n with
  | O => Some padding
  | S n =>
    k ← arr_get rkeys i;
    padding ← memcpy_to padding ((i - 1) * 4) (bytes_of 4 k);
    set_keys n (i + 1) rkeys padding
  end.

Definition flagcxP2pDescSetKeys (desc : option FlagcxP2pRdmaDesc) (rkeys : option (list Z)) (nKeys : Z) :
    option (flagcxResult_t * option FlagcxP2pRdmaDesc) :=
  match desc, rkeys with
  | Some d, Some ks =>
    if (nKeys =? 0) || (FLAGCX_NET_MAX_MR_KEYS <? nKeys) then Some (flagcxInvalidArgument, desc)
    else
      k0 ← arr_get ks 0;
      padding ← set_keys (Z.to_nat nKeys - 1) 1 ks (replicate 32 0);
      Some (flagcxSuccess, Some (MkRdmaDesc (rd_addr d) (rd_size d) k0 nKeys (rd_rid d) (rd_idx d) padding))
  | _, _ => Some (flagcxInvalidArgument, desc)
  end.

Definition flagcxP2pDescGetKey (desc : option FlagcxP2pRdmaDesc) (keyIndex : Z) (rkey : bool) :
    option (flagcxResult_t * option Z) :=
  match desc with
  | None => Some (flagcxInvalidArgument, None)
  | Some d =>
    if negb rkey then Some (flagcxInvalidArgument, None)
    else
      let nKeys := if rd_nmsgs d =? 0 then 1 else rd_nmsgs d in
      if FLAGCX_NET_MAX_MR_KEYS <? nKeys then Some (flagcxInvalidArgument, None)
      else if nKeys =? 1 then Some (flagcxSuccess, Some (rd_rkey d))
      else if nKeys <=? keyIndex then Some (flagcxNotSupported, None)
      else if keyIndex =? 0 then Some (flagcxSuccess, Some (rd_rkey d))
      else
        k ← memcpy_from (rd_padding d) ((keyIndex - 1) * 4) 4;
        Some (flagcxSuccess, Some (word_of k))
  end.

(** A descriptor in memory. *)
Record desc_ok (d : FlagcxP2pRdmaDesc) : Prop := {
  do_addr : is_u64 (rd_addr d);
  do_size : is_u32 (rd_size d);
  do_rkey : is_u32 (rd_rkey d);
  do_nmsgs : is_u32 (rd_nmsgs d);
  do_rid : is_u32 (rd_rid d);
  do_idx : is_u64 (rd_idx d);
  do_padding : length (rd_padding d) = 32%nat
}.

Lemma set_keys_spec ks n : forall i padding,
  length padding = 32%nat -> 1 <= i -> i + Z.of_nat n <= 9 -> i + Z.of_nat n <= Z.of_nat (length ks) ->
  exists padding', set_keys n i ks padding = Some padding' /\ length padding' = 32%nat /\
    (forall j k, i <= j < i + Z.of_nat n -> arr_get ks j = Some k ->
       memcpy_from padding' ((j - 1) * 4) 4 = Some (bytes_of 4 k)) /\
    (forall j, 1 <= j < i -> memcpy_from padding' ((j - 1) * 4) 4 = memcpy_from padding ((j - 1) * 4) 4).
Proof.
  induction n as [|n IH]; intros i padding Hl Hi Hn Hks; cbn [set_keys].
  - exists padding. split_and!; try done. lia.
  - destruct (lookup_lt_is_Some_2 ks (Z.to_nat i)) as [k Hk]; [lia|].
    assert (Hg : arr_get ks i = Some k) by (unfold arr_get; by rewrite (proj2 (Z.leb_le _ _)) by lia).
    rewrite Hg. cbn [mbind option_bind].
    destruct (memcpy_to_from padding ((i - 1) * 4) (bytes_of 4 k)) as (p1 & -> & Hl1 & Hr & Ho);
      rewrite ?length_bytes_of in *; [lia|lia|]. cbn [mbind option_bind].
    destruct (IH (i + 1) p1) as (p' & -> & Hl' & Hin & Hout); [lia|lia|lia|lia|].
    exists p'. split_and!; [done|done|..].
    + intros j k' Hj Hk'. destruct (decide (j = i)) as [->|].
      * rewrite Hout by lia. rewrite Hr. congruence.
      * apply Hin; [lia|done].
    + intros j Hj. rewrite Hout by lia. apply Ho. lia.
Qed.

Lemma set_keys_ok d ks nKeys :
  desc_ok d -> 1 <= nKeys <= 8 -> nKeys <= Z.of_nat (length ks) -> Forall is_u32 ks ->
  exists d', flagcxP2pDescSetKeys (Some d) (Some ks) nKeys = Some (flagcxSuccess, Some d') /\ desc_ok d' /\
    forall i k, 0 <= i < nKeys -> arr_get ks i = Some k ->
      flagcxP2pDescGetKey (Some d') i true = Some (flagcxSuccess, Some k).
Proof.
  intros [] Hn Hl Hks. unfold flagcxP2pDescSetKeys.
  rewrite (proj2 (Z.eqb_neq nKeys 0)), (proj2 (Z.ltb_ge 8 nKeys)) by lia. cbn [orb].
  destruct (lookup_lt_is_Some_2 ks 0) as [k0 Hk0]; [lia|].
  assert (Hg0 : arr_get ks 0 = Some k0) by done. rewrite Hg0. cbn [mbind option_bind].
  destruct (set_keys_spec ks (Z.to_nat nKeys - 1) 1 (replicate 32 0)) as (p & -> & Hlp & Hin & _);
    [done|lia|lia|lia|]. cbn [mbind option_bind].
  eexists. split; [done|]. split.
  - constructor; cbn; try done; [|unfold is_u32; lia]. by apply (Forall_lookup_1 _ _ 0%nat _ Hks).
  - intros i k Hi Hk. unfold flagcxP2pDescGetKey. cbn [negb rd_nmsgs rd_rkey rd_padding].
    rewrite (proj2 (Z.eqb_neq nKeys 0)) by lia. rewrite (proj2 (Z.ltb_ge 8 nKeys)) by lia.
    destruct (Z.eqb_spec nKeys 1) as [->|].
    + assert (i = 0) as -> by lia. congruence.
    + rewrite (proj2 (Z.leb_gt nKeys i)) by lia. destruct (Z.eqb_spec i 0) as [->|]; [congruence|].
      rewrite (Hin i k) by (done || lia). cbn [mbind option_bind]. rewrite word_of_bytes; [done|].
      unfold arr_get in Hk. destruct (0 <=? i); [|done]. apply (Forall_lookup_1 _ _ _ _ Hks Hk).
Qed.

(** After a write of a word. *)
Local Ltac after_write := rewrite ?length_bytes_of in *; try lia; cbn [mbind option_bind].

Lemma serialize_deserialize d buf :
  desc_ok d -> (64 <= length buf)%nat ->
  exists buf', flagcxP2pSerializeRdmaDesc d buf = Some buf' /\ length buf' = length buf /\
    flagcxP2pDeserializeRdmaDesc buf' = Some d.
Proof.
  intros [D1 D2 D3 D4 D5 D6 D7] Hl. unfold flagcxP2pSerializeRdmaDesc.
  destruct (memcpy_to_from buf 0 (bytes_of 8 (rd_addr d))) as (b1 & -> & L1 & R1 & O1); after_write.
  destruct (memcpy_to_from b1 8 (bytes_of 4 (rd_size d))) as (b2 & -> & L2 & R2 & O2); after_write.
  destruct (memcpy_to_from b2 12 (bytes_of 4 (rd_rkey d))) as (b3 & -> & L3 & R3 & O3); after_write.
  destruct (memcpy_to_from b3 16 (bytes_of 4 (rd_nmsgs d))) as (b4 & -> & L4 & R4 & O4); after_write.
  destruct (memcpy_to_from b4 20 (bytes_of 4 (rd_rid d))) as (b5 & -> & L5 & R5 & O5); after_write.
  destruct (memcpy_to_from b5 24 (bytes_of 8 (rd_idx d))) as (b6 & -> & L6 & R6 & O6); after_write.
  destruct (memcpy_to_from b6 32 (rd_padding d)) as (b7 & -> & L7 & R7 & O7); rewrite ?D7 in *; try lia.
  exists b7. split; [done|]. split; [lia|]. unfold flagcxP2pDeserializeRdmaDesc.
  rewrite (O7 0 8%nat), (O6 0 8%nat), (O5 0 8%nat), (O4 0 8%nat), (O3 0 8%nat), (O2 0 8%nat), R1 by lia. cbn [mbind option_bind].
  rewrite (O7 8 4%nat), (O6 8 4%nat), (O5 8 4%nat), (O4 8 4%nat), (O3 8 4%nat), R2 by lia. cbn [mbind option_bind].
  rewrite (O7 12 4%nat), (O6 12 4%nat), (O5 12 4%nat), (O4 12 4%nat), R3 by lia. cbn [mbind option_bind].
  rewrite (O7 16 4%nat), (O6 16 4%nat), (O5 16 4%nat), R4 by lia. cbn [mbind option_bind].
  rewrite (O7 20 4%nat), (O6 20 4%nat), R5 by lia. cbn [mbind option_bind].
  rewrite (O7 24 8%nat), R6 by lia. cbn [mbind option_bind].
  rewrite R7. cbn [mbind option_bind].
  rewrite !word_of_bytes by done. by destruct d.
Qed.

(** ** Registrations *)

Record flagcxP2pMrSegment := MkMrSegment {
  sg_base : Z;
  sg_size : Z;
  sg_adaptorMr : Z;
  sg_keys : flagcxNetMrInfo
}.

Record flagcxP2pMrRecord := MkMrRecord {
  mr_id : Z;
  mr_base : Z;
  mr_size : Z;
  mr_segments : list flagcxP2pMrSegment
}.

Record flagcxP2pMrSlice := MkMrSlice {
  sl_segmentIndex : Z;
  sl_segmentOffset : Z;
  sl_size : Z
}.

Record flagcxP2pMrPairSlice := MkMrPairSlice {
  ps_localSegmentIndex : Z;
  ps_remoteSegmentIndex : Z;
  ps_offset : Z;
  ps_size : Z
}.

Definition rangeFits (base capacity address size : Z) : bool :=
  if address <? base then false
  else
    let offset := address -u64 base in
    (offset <=? capacity) && (size <=? capacity -u64 offset).

(** The loop of [flagcxP2pMrRecordValidate]: the end of the last segment, or
    [None] when a segment is refused. *)
Fixpoint validate_segments (next : Z) (segments : list flagcxP2pMrSegment) : option Z :=
  match segments with
  | [] => Some next
  | s :: segments =>
    if negb (sg_base s =? next) || (sg_size s =? 0) || (mi_nKeys (sg_keys s) =? 0) ||
       (FLAGCX_NET_MAX_MR_KEYS <? mi_nKeys (sg_keys s))
    then None
    else if U64_MAX - sg_size s <? sg_base s then None
    else validate_segments (sg_base s +u64 sg_size s) segments
  end.

Definition flagcxP2pMrRecordValidate (record : option flagcxP2pMrRecord) : flagcxResult_t :=
  match record with
  | None => flagcxInvalidArgument
  | Some r =>
    if (mr_base r =? 0) || (mr_size r =? 0) || bool_decide (length (mr_segments r) = 0%nat) then flagcxInvalidArgument
    else if U64_MAX - mr_size r <? mr_base r then flagcxInvalidArgument
    else
      match validate_segments (mr_base r) (mr_segments r) with
      | None => flagcxInvalidArgument
      | Some next => if next =? mr_base r +u64 mr_size r then flagcxSuccess else flagcxInvalidArgument
      end
  end.

(** The loop of [flagcxP2pMrSplitRange] from segment [i] on, [slices] being
    those produced so far. *)
Fixpoint split_range_loop (segments : list flagcxP2pMrSegment) (i cursor remaining : Z)
    (slices : list flagcxP2pMrSlice) : flagcxResult_t * list flagcxP2pMrSlice :=
  let finish := (if remaining =? 0 then flagcxSuccess else flagcxInternalError, slices) in
  match segments with
  | [] => finish
  | s :: segments =>
    if remaining <=? 0 then finish
    else
      let segmentEnd := sg_base s +u64 sg_size s in
      if segmentEnd <=? cursor then split_range_loop segments (i + 1) cursor remaining slices
      else if cursor <? sg_base s then (flagcxInternalError, slices)
      else
        let available := segmentEnd -u64 cursor in
        let sliceSize := Z.min remaining available in
        split_range_loop segments (i + 1) (cursor +u64 sliceSize) (remaining -u64 sliceSize)
          (slices ++ [MkMrSlice i (cursor -u64 sg_base s) sliceSize])
  end.

(** The result code and [*slices]. *)
Definition flagcxP2pMrSplitRange (record : option flagcxP2pMrRecord) (address size : Z) (slices : bool) :
    flagcxResult_t * option (list flagcxP2pMrSlice) :=
  if negb slices then (flagcxInvalidArgument, None)
  else
    let validateResult := flagcxP2pMrRecordValidate record in
    if failed validateResult then (validateResult, Some [])
    else
      match record with
      | None => (flagcxInvalidArgument, Some [])
      | Some r =>
        if negb (rangeFits (mr_base r) (mr_size r) address size) then (flagcxInvalidArgument, Some [])
        else if size =? 0 then (flagcxSuccess, Some [])
        else
          let '(res, sl) := split_range_loop (mr_segments r) 0 address size [] in
          (res, Some sl)
      end.

(** [while (index < segments.size() && cursor >= segments[index].end) ++index],
    over the segments from [index] on. *)
Fixpoint skip_segments (segments : list flagcxP2pMrSegment) (index : nat) (cursor : Z) :
    nat * list flagcxP2pMrSegment :=
  match segments with
  | [] => (index, [])
  | s :: segments' =>
    if sg_base s +u64 sg_size s <=? cursor then skip_segments segments' (S index) cursor else (index, segments)
  end.

(** The loop of [flagcxP2pMrSplitPair]; the lists are the segments from
    [localIndex] and [remoteIndex] on.  [None] when the fuel runs out. *)
Fixpoint split_pair_loop (fuel : nat) (localAddress remoteAddress size sliceSize fragmentSize : Z)
    (localIndex remoteIndex : nat) (local remote : list flagcxP2pMrSegment) (offset : Z)
    (slices : list flagcxP2pMrPairSlice) : option (flagcxResult_t * list flagcxP2pMrPairSlice) :=
  if size <=? offset then Some (flagcxSuccess, slices)
  else
    match fuel with
    | O => None
    | S fuel =>
      let localCursor := localAddress +u64 offset in
      let remoteCursor := remoteAddress +u64 offset in
      let '(localIndex, local) := skip_segments local localIndex localCursor in
      let '(remoteIndex, remote) := skip_segments remote remoteIndex remoteCursor in
      match local, remote with
      | l :: _, r :: _ =>
        if (localCursor <? sg_base l) || (remoteCursor <? sg_base r) then Some (flagcxInternalError, slices)
        else
          let bytes := Z.min (size -u64 offset)
            (Z.min ((sg_base l +u64 sg_size l) -u64 localCursor) ((sg_base r +u64 sg_size r) -u64 remoteCursor)) in
          let bytes := if (0 <? sliceSize) && (sliceSize <? bytes) && (fragmentSize <? bytes -u64 sliceSize)
                       then sliceSize else bytes in
          if bytes =? 0 then Some (flagcxInternalError, slices)
          else
            split_pair_loop fuel localAddress remoteAddress size sliceSize fragmentSize localIndex remoteIndex
              local remote (offset +u64 bytes)
              (slices ++ [MkMrPairSlice (Z.of_nat localIndex) (Z.of_nat remoteIndex) offset bytes])
      | _, _ => Some (flagcxInternalError, slices)
      end
    end.

Definition flagcxP2pMrSplitPair (fuel : nat) (local : option flagcxP2pMrRecord) (localAddress : Z)
    (remote : option flagcxP2pMrRecord) (remoteAddress size sliceSize fragmentSize : Z) (slices : bool) :
    option (flagcxResult_t * option (list flagcxP2pMrPairSlice)) :=
  if negb slices then Some (flagcxInvalidArgument, None)
  else if failed (flagcxP2pMrRecordValidate local) || failed (flagcxP2pMrRecordValidate remote)
  then Some (flagcxInvalidArgument, Some [])
  else
    match local, remote with
    | Some l, Some r =>
      if negb (rangeFits (mr_base l) (mr_size l) localAddress size) ||
         negb (rangeFits (mr_base r) (mr_size r) remoteAddress size)
      then Some (flagcxInvalidArgument, Some [])
      else if size =? 0 then Some (flagcxSuccess, Some [])
      else
        '(res, sl) ← split_pair_loop fuel localAddress remoteAddress size sliceSize fragmentSize 0 0
          (mr_segments l) (mr_segments r) 0 [];
        Some (res, Some sl)
    | _, _ => Some (flagcxInvalidArgument, Some [])
    end.

(** [*region] *)
Definition flagcxP2pMrSegmentRegion (segment : option flagcxP2pMrSegment) (region : bool) :
    flagcxResult_t * option flagcxNetRegion :=
  match segment with
  | None => (flagcxInvalidArgument, None)
  | Some s =>
    if negb region || (sg_base s =? 0) || (sg_size s =? 0) || (mi_nKeys (sg_keys s) =? 0) ||
       (FLAGCX_NET_MAX_MR_KEYS <? mi_nKeys (sg_keys s))
    then (flagcxInvalidArgument, None)
    else (flagcxSuccess, Some (MkRegion (sg_base s) (sg_size s) (Some (sg_keys s)) (sg_adaptorMr s)))
  end.

Definition flagcxP2pEngineOrderingKey (transferId sliceIndex : Z) : Z :=
  let value := transferId +u64 (11400714819323198485 *u64 (sliceIndex +u64 1)) in
  let value := Z.lxor value (Z.shiftr value 30) *u64 13787848793156543929 in
  let value := Z.lxor value (Z.shiftr value 27) *u64 10723151780598845931 in
  Z.lxor value (Z.shiftr value 31).

(** ** What a valid registration is *)

(** Fields hold words. *)
Definition record_words (r : flagcxP2pMrRecord) : Prop :=
  is_u64 (mr_base r) /\ is_u64 (mr_size r) /\
  Forall (fun s => is_u64 (sg_base s) /\ is_u64 (sg_size s)) (mr_segments r).

(** The segments follow each other from [next] to [stop]. *)
Fixpoint contiguous (next : Z) (segments : list flagcxP2pMrSegment) (stop : Z) : Prop :=
  match segments with
  | [] => next = stop
  | s :: segments => sg_base s = next /\ 0 < sg_size s /\ next + sg_size s <= U64_MAX /\
      contiguous (next + sg_size s) segments stop
  end.

Lemma validate_contiguous segments : forall next stop,
  Forall (fun s => is_u64 (sg_base s) /\ is_u64 (sg_size s)) segments ->
  validate_segments next segments = Some stop -> contiguous next segments stop.
Proof.
  induction segments as [|s segments IH]; intros next stop Hw; cbn; [by intros [= ->]|].
  inversion Hw as [|? ? [Hb Hs] Hw']; subst. unfold is_u64 in *.
  case_test; [done|]. case_test; [done|]. intros Hv. rewrite Z.mod_small in Hv by lia.
  apply IH in Hv; [|done]. split_and!; try lia. by replace next with (sg_base s).
Qed.

Lemma validate_record r :
  record_words r -> flagcxP2pMrRecordValidate (Some r) = flagcxSuccess ->
  0 < mr_base r /\ 0 < mr_size r /\ mr_base r + mr_size r <= U64_MAX /\
  contiguous (mr_base r) (mr_segments r) (mr_base r + mr_size r).
Proof.
  intros (Hb & Hs & Hw). unfold flagcxP2pMrRecordValidate, is_u64 in *. case_test; [done|]. case_test; [done|].
  destruct (validate_segments _ _) as [next|] eqn:Hv; [|done]. case_test; [|done]. intros _.
  apply validate_contiguous in Hv; [|done]. rewrite Z.mod_small in * by lia. subst. split_and!; try lia. done.
Qed.

Lemma contiguous_le next segments stop : contiguous next segments stop -> next <= stop.
Proof.
  revert next. induction segments as [|s segments IH]; intros next; cbn; [lia|]. intros (? & ? & ? & ?%IH). lia.
Qed.

Lemma rangeFits_spec base capacity address size :
  is_u64 base -> is_u64 capacity -> is_u64 address -> is_u64 size ->
  rangeFits base capacity address size = true <-> base <= address /\ address + size <= base + capacity.
Proof.
  unfold is_u64, rangeFits. intros. destruct (Z.ltb_spec address base); [split; [done|lia]|].
  rewrite (Z.mod_small (address - base)) by lia. rewrite andb_true_iff, !Z.leb_le.
  destruct (Z.leb_spec (address - base) capacity); [rewrite Z.mod_small by lia|]; lia.
Qed.

(** ** Cutting a range *)

(** The slices cover the addresses from [cursor] to [stop], in order, each
    within its segment. *)
Fixpoint tiles (segments : list flagcxP2pMrSegment) (cursor : Z) (slices : list flagcxP2pMrSlice) (stop : Z) : Prop :=
  match slices with
  | [] => cursor = stop
  | sl :: slices =>
    0 < sl_size sl /\
    (exists s, arr_get segments (sl_segmentIndex sl) = Some s /\ sg_base s + sl_segmentOffset sl = cursor /\
       0 <= sl_segmentOffset sl /\ sl_segmentOffset sl + sl_size sl <= sg_size s) /\
    tiles segments (cursor + sl_size sl) slices stop
  end.

Lemma split_range_loop_spec all segments : forall pre cursor remaining slices next stop,
  all = pre ++ segments -> contiguous next segments stop -> stop <= U64_MAX -> 0 <= next -> 0 <= cursor ->
  remaining = 0 \/ next <= cursor -> 0 <= remaining -> cursor + remaining <= stop ->
  exists new, split_range_loop segments (Z.of_nat (length pre)) cursor remaining slices =
      (flagcxSuccess, slices ++ new) /\
    tiles all cursor new (cursor + remaining).
Proof.
  assert (Hend : forall segs cursor slices, exists new : list flagcxP2pMrSlice,
    (flagcxSuccess, slices) = (flagcxSuccess, slices ++ new) /\ tiles segs cursor new (cursor + 0)).
  { intros segs cursor slices. exists []. rewrite app_nil_r, Z.add_0_r. done. }
  induction segments as [|s segments IH]; intros pre cursor remaining slices next stop Hall Hc Hmax Hnn Hcn Hn Hr Hs; cbn.
  - cbn in Hc. replace remaining with 0 by lia. apply Hend.
  - destruct (Z.leb_spec remaining 0). { replace remaining with 0 by lia. apply Hend. }
    destruct Hc as (Hb & Hz & Hm & Hc). pose proof (contiguous_le _ _ _ Hc) as Hle.
    assert (Hlen : Z.of_nat (length pre) + 1 = Z.of_nat (length (pre ++ [s]))) by (rewrite length_app; cbn; lia).
    assert (Hall' : all = (pre ++ [s]) ++ segments) by (by rewrite <- app_assoc).
    rewrite (Z.mod_small (sg_base s + sg_size s)) by lia.
    destruct (Z.leb_spec (sg_base s + sg_size s) cursor) as [Hskip|Hin].
    + rewrite Hlen. destruct (IH (pre ++ [s]) cursor remaining slices (next + sg_size s) stop) as (new & -> & Ht);
        try done; try lia. eauto.
    + rewrite (proj2 (Z.ltb_ge cursor (sg_base s))) by lia.
      rewrite (Z.mod_small (sg_base s + sg_size s - cursor)) by lia. set (n := Z.min _ _).
      assert (Hn' : 0 < n <= remaining /\ n <= sg_base s + sg_size s - cursor /\
        (n = remaining \/ n = sg_base s + sg_size s - cursor)) by lia. clearbody n.
      rewrite !Z.mod_small by lia. rewrite Hlen.
      set (sl := MkMrSlice _ _ _).
      destruct (IH (pre ++ [s]) (cursor + n) (remaining - n) (slices ++ [sl]) (next + sg_size s) stop) as (new & -> & Ht);
        try done; try lia.
      exists (sl :: new). rewrite <- app_assoc. split; [done|]. cbn. split; [lia|]. split.
      * exists s. rewrite arr_get_nat, Hall, lookup_app_r, Nat.sub_diag by lia. split_and!; try done; lia.
      * replace (cursor + remaining) with (cursor + n + (remaining - n)) by lia. done.
Qed.

Lemma split_range_tiles_lemma r address size :
  record_words r -> is_u64 address -> is_u64 size -> flagcxP2pMrRecordValidate (Some r) = flagcxSuccess ->
  mr_base r <= address -> address + size <= mr_base r + mr_size r ->
  exists slices, flagcxP2pMrSplitRange (Some r) address size true = (flagcxSuccess, Some slices) /\
    tiles (mr_segments r) address slices (address + size).
Proof.
  intros Hw Ha Hs Hv Hlo Hhi. unfold flagcxP2pMrSplitRange. rewrite Hv. cbn [negb failed].
  destruct (validate_record r Hw Hv) as (Hb & Hz & Hm & Hc). destruct Hw as (Hwb & Hws & _).
  change (failed flagcxSuccess) with false. cbn iota.
  rewrite (proj2 (rangeFits_spec _ _ _ _ Hwb Hws Ha Hs)) by done. cbn [negb].
  destruct (Z.eqb_spec size 0) as [->|].
  { exists []. rewrite Z.add_0_r. done. }
  unfold is_u64 in *.
  destruct (split_range_loop_spec (mr_segments r) (mr_segments r) [] address size [] (mr_base r) (mr_base r + mr_size r))
    as (new & Hrun & Ht); try done; try lia.
  change (Z.of_nat (length [])) with 0 in Hrun. rewrite Hrun. by exists new.
Qed.

(** ** Cutting a pair of ranges *)

(** The slices cover the offsets from [offset] to [size], in order; each lies
    within one segment of either side, and is not longer than [bound]. *)
Fixpoint pair_tiles (local remote : list flagcxP2pMrSegment) (localAddress remoteAddress : Z) (bound : option Z)
    (offset : Z) (slices : list flagcxP2pMrPairSlice) (size : Z) : Prop :=
  match slices with
  | [] => offset = size
  | sl :: slices =>
    ps_offset sl = offset /\ 0 < ps_size sl /\ (forall b, bound = Some b -> ps_size sl <= b) /\
    (exists l, arr_get local (ps_localSegmentIndex sl) = Some l /\
       sg_base l <= localAddress + offset /\ localAddress + offset + ps_size sl <= sg_base l + sg_size l) /\
    (exists r, arr_get remote (ps_remoteSegmentIndex sl) = Some r /\
       sg_base r <= remoteAddress + offset /\ remoteAddress + offset + ps_size sl <= sg_base r + sg_size r) /\
    pair_tiles local remote localAddress remoteAddress bound (offset + ps_size sl) slices size
  end.

Lemma skip_segments_spec all segments : forall pre next stop cursor,
  all = pre ++ segments -> contiguous next segments stop -> stop <= U64_MAX -> 0 <= next ->
  next <= cursor < stop ->
  exists pre' s rest, skip_segments segments (length pre) cursor = (length pre', s :: rest) /\
    all = pre' ++ s :: rest /\ contiguous (sg_base s) (s :: rest) stop /\ 0 <= sg_base s <= cursor /\
    cursor < sg_base s + sg_size s <= U64_MAX.
Proof.
  induction segments as [|s segments IH]; intros pre next stop cursor Hall Hc Hmax Hnn Hcur.
  - cbn in Hc. lia.
  - pose proof Hc as (Hb & Hz & Hm & Hc'). cbn [skip_segments]. rewrite Z.mod_small by lia.
    destruct (Z.leb_spec (sg_base s + sg_size s) cursor).
    + replace (S (length pre)) with (length (pre ++ [s])) by (rewrite length_app; cbn; lia).
      apply (IH (pre ++ [s]) (next + sg_size s)); try done; try lia. by rewrite <- app_assoc.
    + exists pre, s, segments. split_and!; try done; try lia. by rewrite Hb.
Qed.

(** The longest slice: [sliceSize] and a rest that is not worth a slice. *)
Definition slice_bound (sliceSize fragmentSize : Z) : option Z :=
  if 0 <? sliceSize then Some (sliceSize + fragmentSize) else None.

Section SplitPair.
Context (local remote : flagcxP2pMrRecord) (localAddress remoteAddress size sliceSize fragmentSize : Z).
Hypothesis words_local : record_words local.
Hypothesis words_remote : record_words remote.
Hypothesis words : is_u64 localAddress /\ is_u64 remoteAddress /\ is_u64 size /\ is_u64 sliceSize /\ is_u64 fragmentSize.
Hypothesis valid_local : flagcxP2pMrRecordValidate (Some local) = flagcxSuccess.
Hypothesis valid_remote : flagcxP2pMrRecordValidate (Some remote) = flagcxSuccess.
Hypothesis fits_local : mr_base local <= localAddress /\ localAddress + size <= mr_base local + mr_size local.
Hypothesis fits_remote : mr_base remote <= remoteAddress /\ remoteAddress + size <= mr_base remote + mr_size remote.

Lemma split_pair_loop_spec fuel : forall prel ls nextl prer rs nextr offset slices,
  mr_segments local = prel ++ ls -> contiguous nextl ls (mr_base local + mr_size local) ->
  0 <= nextl <= localAddress + offset ->
  mr_segments remote = prer ++ rs -> contiguous nextr rs (mr_base remote + mr_size remote) ->
  0 <= nextr <= remoteAddress + offset ->
  0 <= offset <= size -> size - offset <= Z.of_nat fuel ->
  exists new, split_pair_loop fuel localAddress remoteAddress size sliceSize fragmentSize
      (length prel) (length prer) ls rs offset slices = Some (flagcxSuccess, slices ++ new) /\
    pair_tiles (mr_segments local) (mr_segments remote) localAddress remoteAddress
      (slice_bound sliceSize fragmentSize) offset new size.
Proof.
  destruct (validate_record _ words_local valid_local) as (Hlb & Hlz & Hlm & _).
  destruct (validate_record _ words_remote valid_remote) as (Hrb & Hrz & Hrm & _).
  destruct words as (Wl & Wr & Ws & Wsl & Wf). unfold is_u64 in *.
  induction fuel as [|fuel IH]; intros prel ls nextl prer rs nextr offset slices Hls Hcl Hnl Hrs Hcr Hnr Ho Hf;
    cbn [split_pair_loop]; destruct (Z.leb_spec size offset).
  1, 3: exists []; rewrite app_nil_r; split; [done|]; cbn; lia.
  { lia. }
  rewrite (Z.mod_small (localAddress + offset)), (Z.mod_small (remoteAddress + offset)) by lia.
  destruct (skip_segments_spec _ _ _ _ _ (localAddress + offset) Hls Hcl) as (prel' & l & ls' & -> & Hls' & Hcl' & Hl1 & Hl2);
    [lia|lia|lia|].
  destruct (skip_segments_spec _ _ _ _ _ (remoteAddress + offset) Hrs Hcr) as (prer' & r & rs' & -> & Hrs' & Hcr' & Hr1 & Hr2);
    [lia|lia|lia|].
  rewrite (proj2 (Z.ltb_ge (localAddress + offset) (sg_base l))), (proj2 (Z.ltb_ge (remoteAddress + offset) (sg_base r)))
    by lia. cbn [orb].
  rewrite (Z.mod_small (sg_base l + sg_size l)), (Z.mod_small (sg_base r + sg_size r)), (Z.mod_small (size - offset)) by lia.
  rewrite (Z.mod_small (sg_base l + sg_size l - _)), (Z.mod_small (sg_base r + sg_size r - _)) by lia.
  set (whole := Z.min (size - offset) _). set (bytes := if _ && _ then sliceSize else whole).
  assert (Hw : 0 < whole <= size - offset /\ whole <= sg_base l + sg_size l - (localAddress + offset) /\
    whole <= sg_base r + sg_size r - (remoteAddress + offset)) by lia. clearbody whole.
  assert (Hb : 0 < bytes <= whole /\ (forall b, slice_bound sliceSize fragmentSize = Some b -> bytes <= b)).
  { unfold bytes, slice_bound. destruct (Z.ltb_spec 0 sliceSize); cbn; [|split; [lia|done]].
    destruct (Z.ltb_spec sliceSize whole); cbn; [|split; [lia|intros b [= <-]; lia]].
    rewrite Z.mod_small by lia. destruct (Z.ltb_spec fragmentSize (whole - sliceSize)); (split; [lia|intros b [= <-]; lia]). }
  clearbody bytes. destruct Hb as [Hb Hbound].
  rewrite (proj2 (Z.eqb_neq bytes 0)), Z.mod_small by lia.
  set (sl := MkMrPairSlice _ _ _ _).
  destruct (IH prel' (l :: ls') (sg_base l) prer' (r :: rs') (sg_base r) (offset + bytes) (slices ++ [sl]))
    as (new & -> & Ht); try done; try lia.
  exists (sl :: new). rewrite <- app_assoc. split; [done|]. cbn. split_and!; try done; try lia.
  - exists l. rewrite arr_get_nat, Hls', lookup_app_r, Nat.sub_diag by lia. split_and!; try done; lia.
  - exists r. rewrite arr_get_nat, Hrs', lookup_app_r, Nat.sub_diag by lia. split_and!; try done; lia.
Qed.

Lemma split_pair_lemma fuel :
  size <= Z.of_nat fuel ->
  exists slices,
    flagcxP2pMrSplitPair fuel (Some local) localAddress (Some remote) remoteAddress size sliceSize fragmentSize true =
      Some (flagcxSuccess, Some slices) /\
    pair_tiles (mr_segments local) (mr_segments remote) localAddress remoteAddress
      (slice_bound sliceSize fragmentSize) 0 slices size.
Proof.
  intros Hf. unfold flagcxP2pMrSplitPair. rewrite valid_local, valid_remote. cbn [negb].
  change (failed flagcxSuccess) with false. cbn [orb].
  destruct (validate_record _ words_local valid_local) as (Hlb & Hlz & Hlm & Hlc).
  destruct (validate_record _ words_remote valid_remote) as (Hrb & Hrz & Hrm & Hrc).
  destruct words as (Wl & Wr & Ws & Wsl & Wf).
  destruct words_local as (Wlb & Wls & _), words_remote as (Wrb & Wrs & _).
  rewrite (proj2 (rangeFits_spec _ _ _ _ Wlb Wls Wl Ws)), (proj2 (rangeFits_spec _ _ _ _ Wrb Wrs Wr Ws)) by done.
  cbn [negb orb]. destruct (Z.eqb_spec size 0) as [->|]; [by exists []|].
  unfold is_u64 in *.
  destruct (split_pair_loop_spec fuel [] (mr_segments local) (mr_base local) [] (mr_segments remote) (mr_base remote) 0 [])
    as (new & Hrun & Ht); try done; try lia.
  cbn [length app] in Hrun. rewrite Hrun. cbn. by exists new.
Qed.
End SplitPair.

(** ** Properties *)

(** cutting a range at provider boundaries.  The call succeeds exactly when
    the registration is valid and the range lies within it, and is refused as an
    invalid argument otherwise, leaving no slices; the slices then cover the
    range from its first to its last byte, in order, without gap or overlap,
    each within the segment it names. *)
Theorem split_range_exact r address size :
  record_words r -> is_u64 address -> is_u64 size ->
  let fits := flagcxP2pMrRecordValidate (Some r) = flagcxSuccess /\
              mr_base r <= address /\ address + size <= mr_base r + mr_size r in
  (fits -> exists slices, flagcxP2pMrSplitRange (Some r) address size true = (flagcxSuccess, Some slices) /\
     tiles (mr_segments r) address slices (address + size)) /\
  (~ fits -> flagcxP2pMrSplitRange (Some r) address size true = (flagcxInvalidArgument, Some [])).
Proof.
  intros Hw Ha Hs fits. split.
  - intros (Hv & Hlo & Hhi). by apply split_range_tiles_lemma.
  - intros Hn. unfold flagcxP2pMrSplitRange. cbn [negb].
    assert (Hv : flagcxP2pMrRecordValidate (Some r) = flagcxSuccess \/
                 flagcxP2pMrRecordValidate (Some r) = flagcxInvalidArgument).
    { unfold flagcxP2pMrRecordValidate. destruct (_ || _); [by right|]. destruct (_ <? _); [by right|].
      destruct (validate_segments _ _); [|by right]. destruct (_ =? _); [by left|by right]. }
    destruct Hv as [Hv|Hv]; rewrite Hv; [|done]. change (failed flagcxSuccess) with false. cbn iota.
    destruct (rangeFits (mr_base r) (mr_size r) address size) eqn:Hf; [|done].
    destruct Hw as (Hwb & Hws & _). apply rangeFits_spec in Hf; [|done..]. exfalso. by apply Hn.
Qed.

Lemma split_range_exact_witness :
  let keys := MkMrInfo 1 [7] [9] in
  let r := MkMrRecord 1 4096 300 [MkMrSegment 4096 100 1 keys; MkMrSegment 4196 200 2 keys] in
  record_words r /\
  (let fits := flagcxP2pMrRecordValidate (Some r) = flagcxSuccess /\
               mr_base r <= 4146 /\ 4146 + 120 <= mr_base r + mr_size r in
   (fits -> exists slices, flagcxP2pMrSplitRange (Some r) 4146 120 true = (flagcxSuccess, Some slices) /\
      tiles (mr_segments r) 4146 slices (4146 + 120)) /\
   (~ fits -> flagcxP2pMrSplitRange (Some r) 4146 120 true = (flagcxInvalidArgument, Some []))) /\
  flagcxP2pMrSplitRange (Some r) 4146 120 true = (flagcxSuccess, Some [MkMrSlice 0 50 50; MkMrSlice 1 0 70]).
Proof.
  intros keys r.
  assert (Hw : record_words r).
  { split; [|split]; [split; vm_compute; congruence..|].
    apply Forall_cons; split; [split; split; vm_compute; congruence|].
    apply Forall_cons; split; [split; split; vm_compute; congruence|]. apply Forall_nil; exact I. }
  split; [exact Hw|]. split; [|reflexivity].
  apply (split_range_exact r 4146 120 Hw); split; vm_compute; congruence.
Defined.

(** C32: cutting a transfer between two registrations.  For valid registrations
    and ranges within them the loop ends, after at most one iteration a byte,
    with slices that cover the transfer in order without gap or overlap, each
    within one segment on either side; with a slice size, none is longer than
    the slice size and the fragment size together. *)
Theorem split_pair_exact local remote localAddress remoteAddress size sliceSize fragmentSize fuel :
  record_words local -> record_words remote ->
  is_u64 localAddress /\ is_u64 remoteAddress /\ is_u64 size /\ is_u64 sliceSize /\ is_u64 fragmentSize ->
  flagcxP2pMrRecordValidate (Some local) = flagcxSuccess -> flagcxP2pMrRecordValidate (Some remote) = flagcxSuccess ->
  mr_base local <= localAddress /\ localAddress + size <= mr_base local + mr_size local ->
  mr_base remote <= remoteAddress /\ remoteAddress + size <= mr_base remote + mr_size remote ->
  size <= Z.of_nat fuel ->
  exists slices,
    flagcxP2pMrSplitPair fuel (Some local) localAddress (Some remote) remoteAddress size sliceSize fragmentSize true =
      Some (flagcxSuccess, Some slices) /\
    pair_tiles (mr_segments local) (mr_segments remote) localAddress remoteAddress
      (slice_bound sliceSize fragmentSize) 0 slices size.
Proof. intros. by apply split_pair_lemma. Qed.

Lemma split_pair_exact_witness :
  let keys := MkMrInfo 1 [7] [9] in
  let local := MkMrRecord 1 4096 300 [MkMrSegment 4096 100 1 keys; MkMrSegment 4196 200 2 keys] in
  let remote := MkMrRecord 2 8192 300 [MkMrSegment 8192 150 1 keys; MkMrSegment 8342 150 2 keys] in
  flagcxP2pMrSplitPair 200 (Some local) 4146 (Some remote) 8192 200 60 20 true =
    Some (flagcxSuccess, Some [MkMrPairSlice 0 0 0 50; MkMrPairSlice 1 0 50 60; MkMrPairSlice 1 0 110 40;
      MkMrPairSlice 1 1 150 50]) /\
  exists slices,
    flagcxP2pMrSplitPair 200 (Some local) 4146 (Some remote) 8192 200 60 20 true = Some (flagcxSuccess, Some slices) /\
    pair_tiles (mr_segments local) (mr_segments remote) 4146 8192 (slice_bound 60 20) 0 slices 200.
Proof.
  intros keys local remote. split; [reflexivity|].
  assert (Hw : record_words local /\ record_words remote).
  { split; (split; [|split]; [split; vm_compute; congruence..|];
    apply Forall_cons; split; [split; split; vm_compute; congruence|];
    apply Forall_cons; split; [split; split; vm_compute; congruence|]; apply Forall_nil; exact I). }
  destruct Hw as [Hl Hr].
  apply (split_pair_exact local remote 4146 8192 200 60 20 200 Hl Hr).
  - repeat split; vm_compute; congruence.
  - reflexivity.
  - reflexivity.
  - split; vm_compute; congruence.
  - split; vm_compute; congruence.
  - lia.
Defined.

(** keys survive the descriptor.  For one to eight keys the descriptor that
    stores them is serialised into 64 bytes, reads back as the same descriptor,
    and returns every key under its index. *)
Theorem desc_keys_roundtrip d ks nKeys buf :
  desc_ok d -> 1 <= nKeys <= 8 -> nKeys <= Z.of_nat (length ks) -> Forall is_u32 ks -> (64 <= length buf)%nat ->
  exists d' buf', flagcxP2pDescSetKeys (Some d) (Some ks) nKeys = Some (flagcxSuccess, Some d') /\
    flagcxP2pSerializeRdmaDesc d' buf = Some buf' /\ flagcxP2pDeserializeRdmaDesc buf' = Some d' /\
    forall i k, 0 <= i < nKeys -> arr_get ks i = Some k ->
      flagcxP2pDescGetKey (Some d') i true = Some (flagcxSuccess, Some k).
Proof.
  intros Hd Hn Hl Hks Hb. destruct (set_keys_ok d ks nKeys Hd Hn Hl Hks) as (d' & Hset & Hd' & Hget).
  destruct (serialize_deserialize d' buf Hd' Hb) as (buf' & Hser & _ & Hde). by exists d', buf'.
Qed.

Lemma desc_keys_roundtrip_witness :
  let d := MkRdmaDesc 4096 512 0 0 3 9 (replicate 32 0) in
  exists d' buf', flagcxP2pDescSetKeys (Some d) (Some [11; 22; 4294967295]) 3 = Some (flagcxSuccess, Some d') /\
    flagcxP2pSerializeRdmaDesc d' (replicate 64 0) = Some buf' /\ flagcxP2pDeserializeRdmaDesc buf' = Some d' /\
    forall i k, 0 <= i < 3 -> arr_get [11; 22; 4294967295] i = Some k ->
      flagcxP2pDescGetKey (Some d') i true = Some (flagcxSuccess, Some k).
Proof.
  intros d. apply (desc_keys_roundtrip d [11; 22; 4294967295] 3 (replicate 64 0)).
  - constructor; [split; vm_compute; congruence..|reflexivity].
  - lia.
  - cbn. lia.
  - repeat (apply Forall_cons; split; [split; vm_compute; congruence|]). apply Forall_nil; exact I.
  - cbn. lia.
Defined.
