(* ===== verification/P2pTransfer.v ===== *)
(** Transfers of the P2P engine ([flagcx/core/p2p_engine_core.cc],
    [flagcx/core/include/p2p_engine_core.h]): a batch of operations is posted
    to a backend under a bound on those in flight, polled, and aggregated into
    one request, one release group and one scoreboard.

    The backend is a pair of functions over a state of its own; it may answer
    anything.  [requests] is an array of [count] pointers that [post] fills.
    The release group is a member of the transfer, which the scoreboard
    reaches through its address: calls run in a heap that holds this group at
    [GROUP].  The vector of completion entries is the array of the scoreboard. *)
From S2P Require Import Prelude Flagcx Arrays NetTransport.

(** [&transfer->releaseGroup] *)
Abbreviation GROUP := 1 (only parsing).

(** ** Checked sequencing *)

(** [result = call; if (result != flagcxSuccess) return result;] *)
Definition then_ok {S} (o : option (flagcxResult_t * S)) (f : S -> option (flagcxResult_t * S)) :
    option (flagcxResult_t * S) :=
  '(r, s) ← o; if failed r then Some (r, s) else f s.

Notation "'check!' x ':=' p 'in' q" := (then_ok p (fun x => q))
  (at level 200, x pattern, p at level 100, q at level 200, right associativity).

(** A loop whose body may return early. *)
Fixpoint for_ok {S} (is_ : list nat) (body : nat -> S -> option (flagcxResult_t * S)) (s : S) :
    option (flagcxResult_t * S) :=
  match is_ with
  | [] => Some (flagcxSuccess, s)
  | i :: is_ => check! s := body i s in for_ok is_ body s
  end.

(** ** Data *)

Record flagcxP2pTransferOp := MkTransferOp {
  op_srcOffset : Z;
  op_dstOffset : Z;
  op_size : Z;
  op_srcMr : Z;
  op_dstMr : Z;
  op_orderingKey : Z;
  op_groupId : Z;
  op_generation : Z;
  op_sequence : Z;
  op_submitFlags : Z;
  op_laneMask : Z
}.

Inductive flagcxP2pTransferItemState :=
| FLAGCX_P2P_TRANSFER_QUEUED
| FLAGCX_P2P_TRANSFER_INFLIGHT
| FLAGCX_P2P_TRANSFER_COMPLETE.

#[export] Instance flagcxP2pTransferItemState_eq_dec : EqDecision flagcxP2pTransferItemState.
Proof. solve_decision. Defined.

Record flagcxP2pTransferItem := MkTransferItem {
  it_op : flagcxP2pTransferOp;
  it_submit : flagcxNetSubmitContext;
  it_request : Z;
  it_state : flagcxP2pTransferItemState
}.

(** [flagcxP2pTransferItem()] *)
Definition item_default : flagcxP2pTransferItem :=
  MkTransferItem (MkTransferOp 0 0 0 NULL NULL 0 0 0 0 FLAGCX_NET_SUBMIT_DATA NULL) submit_context_zero NULL
    FLAGCX_P2P_TRANSFER_QUEUED.

Definition set_it_state (request : Z) (st : flagcxP2pTransferItemState) (it : flagcxP2pTransferItem) :
    flagcxP2pTransferItem :=
  MkTransferItem (it_op it) (it_submit it) request st.

Record flagcxP2pTransferStatus := MkTransferStatus {
  ts_requested : Z;
  ts_submitted : Z;
  ts_completed : Z;
  ts_retired : Z;
  ts_pending : Z;
  ts_inFlight : Z;
  ts_done : bool;
  ts_releaseAllowed : bool;
  ts_result : flagcxResult_t
}.

Record flagcxP2pTransfer := MkTransfer {
  tr_items : list flagcxP2pTransferItem;
  tr_scoreboard : flagcxNetCompletionScoreboard;
  tr_releaseGroup : flagcxNetReleaseGroup;
  tr_credit : flagcxNetCredit;
  tr_request : flagcxNetRequestCore;
  tr_maxPostBatch : Z;
  tr_submitted : Z;
  tr_completed : Z;
  tr_terminalResult : flagcxResult_t;
  tr_initialized : bool
}.

(** A transfer that was just constructed. *)
Definition transfer_default : flagcxP2pTransfer :=
  MkTransfer [] scoreboard_zero release_group_zero (MkCredit 0 0)
    (MkRequestCore FLAGCX_NET_REQUEST_FREE 0 flagcxSuccess) 0 0 0 flagcxSuccess false.

Definition set_items (x : list flagcxP2pTransferItem) (t : flagcxP2pTransfer) : flagcxP2pTransfer :=
  MkTransfer x (tr_scoreboard t) (tr_releaseGroup t) (tr_credit t) (tr_request t) (tr_maxPostBatch t)
    (tr_submitted t) (tr_completed t) (tr_terminalResult t) (tr_initialized t).
Definition set_scoreboard (x : flagcxNetCompletionScoreboard) (t : flagcxP2pTransfer) : flagcxP2pTransfer :=
  MkTransfer (tr_items t) x (tr_releaseGroup t) (tr_credit t) (tr_request t) (tr_maxPostBatch t)
    (tr_submitted t) (tr_completed t) (tr_terminalResult t) (tr_initialized t).
Definition set_releaseGroup (x : flagcxNetReleaseGroup) (t : flagcxP2pTransfer) : flagcxP2pTransfer :=
  MkTransfer (tr_items t) (tr_scoreboard t) x (tr_credit t) (tr_request t) (tr_maxPostBatch t)
    (tr_submitted t) (tr_completed t) (tr_terminalResult t) (tr_initialized t).
Definition set_credit (x : flagcxNetCredit) (t : flagcxP2pTransfer) : flagcxP2pTransfer :=
  MkTransfer (tr_items t) (tr_scoreboard t) (tr_releaseGroup t) x (tr_request t) (tr_maxPostBatch t)
    (tr_submitted t) (tr_completed t) (tr_terminalResult t) (tr_initialized t).
Definition set_request (x : flagcxNetRequestCore) (t : flagcxP2pTransfer) : flagcxP2pTransfer :=
  MkTransfer (tr_items t) (tr_scoreboard t) (tr_releaseGroup t) (tr_credit t) x (tr_maxPostBatch t)
    (tr_submitted t) (tr_completed t) (tr_terminalResult t) (tr_initialized t).
Definition set_submitted (x : Z) (t : flagcxP2pTransfer) : flagcxP2pTransfer :=
  MkTransfer (tr_items t) (tr_scoreboard t) (tr_releaseGroup t) (tr_credit t) (tr_request t) (tr_maxPostBatch t)
    x (tr_completed t) (tr_terminalResult t) (tr_initialized t).
Definition set_completed (x : Z) (t : flagcxP2pTransfer) : flagcxP2pTransfer :=
  MkTransfer (tr_items t) (tr_scoreboard t) (tr_releaseGroup t) (tr_credit t) (tr_request t) (tr_maxPostBatch t)
    (tr_submitted t) x (tr_terminalResult t) (tr_initialized t).
Definition set_terminalResult (x : flagcxResult_t) (t : flagcxP2pTransfer) : flagcxP2pTransfer :=
  MkTransfer (tr_items t) (tr_scoreboard t) (tr_releaseGroup t) (tr_credit t) (tr_request t) (tr_maxPostBatch t)
    (tr_submitted t) (tr_completed t) x (tr_initialized t).
Definition set_initialized (x : bool) (t : flagcxP2pTransfer) : flagcxP2pTransfer :=
  MkTransfer (tr_items t) (tr_scoreboard t) (tr_releaseGroup t) (tr_credit t) (tr_request t) (tr_maxPostBatch t)
    (tr_submitted t) (tr_completed t) (tr_terminalResult t) x.

(** ** Calls on the members *)

(** A call on the scoreboard in the heap of the transfer. *)
Definition on_scoreboard (t : flagcxP2pTransfer)
    (call : option flagcxNetCompletionScoreboard -> groups ->
            option (flagcxResult_t * option flagcxNetCompletionScoreboard * groups)) :
    option (flagcxResult_t * flagcxP2pTransfer) :=
  '(r, sb, gs) ← call (Some (tr_scoreboard t)) {[ GROUP := tr_releaseGroup t ]};
  sb ← sb;
  g ← gs !! GROUP;
  Some (r, set_releaseGroup g (set_scoreboard sb t)).

Definition on_group (t : flagcxP2pTransfer) (call : groups -> option (flagcxResult_t * groups)) :
    option (flagcxResult_t * flagcxP2pTransfer) :=
  '(r, gs) ← call {[ GROUP := tr_releaseGroup t ]};
  g ← gs !! GROUP;
  Some (r, set_releaseGroup g t).

Definition on_credit (t : flagcxP2pTransfer) (call : option flagcxNetCredit -> flagcxResult_t * option flagcxNetCredit) :
    option (flagcxResult_t * flagcxP2pTransfer) :=
  let '(r, c) := call (Some (tr_credit t)) in
  c ← c;
  Some (r, set_credit c t).

Definition on_request (t : flagcxP2pTransfer)
    (call : option flagcxNetRequestCore -> flagcxResult_t * option flagcxNetRequestCore) :
    option (flagcxResult_t * flagcxP2pTransfer) :=
  let '(r, c) := call (Some (tr_request t)) in
  c ← c;
  Some (r, set_request c t).

(** ** Completing *)

Definition recordTerminal (t : flagcxP2pTransfer) (result : flagcxResult_t) : flagcxP2pTransfer :=
  if failed result && negb (bool_decide (result = flagcxInProgress)) && negb (failed (tr_terminalResult t))
  then set_terminalResult result t else t.

Definition completeItem (t : flagcxP2pTransfer) (index : nat) (result : flagcxResult_t) :
    option (flagcxResult_t * flagcxP2pTransfer) :=
  match tr_items t !! index with
  | None => Some (flagcxInvalidArgument, t)
  | Some item =>
    if bool_decide (it_state item = FLAGCX_P2P_TRANSFER_COMPLETE) then Some (flagcxInvalidArgument, t)
    else
      check! t := if bool_decide (it_state item = FLAGCX_P2P_TRANSFER_INFLIGHT)
                  then on_credit t (fun c => flagcxTransportCreditRelease c 1) else Some (flagcxSuccess, t) in
      check! t := on_scoreboard t (fun sb gs =>
        '(r, sb, gs, _) ← flagcxNetTrackCompletion sb (Some (it_submit item)) result true gs; Some (r, sb, gs)) in
      check! t := on_request t (fun c => flagcxTransportRequestComplete c 1 result) in
      let t := set_items (<[index := set_it_state NULL FLAGCX_P2P_TRANSFER_COMPLETE item]> (tr_items t)) t in
      Some (flagcxSuccess, recordTerminal (set_completed (tr_completed t +u32 1) t) result)
  end.

(** Whether the item is in this state. *)
Definition in_state (st : flagcxP2pTransferItemState) (t : flagcxP2pTransfer) (i : nat) : bool :=
  match tr_items t !! i with
  | Some item => bool_decide (it_state item = st)
  | None => false
  end.

(** [for (i = 0; i < items.size(); ++i)] *)
Definition indices (t : flagcxP2pTransfer) : list nat := seq 0 (length (tr_items t)).

Definition failQueued (t : flagcxP2pTransfer) (result : flagcxResult_t) : option (flagcxResult_t * flagcxP2pTransfer) :=
  let t := recordTerminal t result in
  for_ok (indices t)
    (fun i t => if in_state FLAGCX_P2P_TRANSFER_QUEUED t i then completeItem t i result else Some (flagcxSuccess, t)) t.

(** ** Progress *)

Section Backend.
Context {S : Type}.

(** [test] answers its result and [done]. *)
Context (test : S -> Z -> flagcxResult_t * bool * S).
(** [post] answers its result, the requests it filled in and [*post]. *)
Context (post : S -> list flagcxP2pTransferOp -> flagcxResult_t * list Z * flagcxNetPostResult * S).

(** The body of the loop of [pollInflight]. *)
Definition poll_item (i : nat) (ts : flagcxP2pTransfer * S) : option (flagcxResult_t * (flagcxP2pTransfer * S)) :=
  let '(t, s) := ts in
  match tr_items t !! i with
  | None => None
  | Some item =>
    if negb (bool_decide (it_state item = FLAGCX_P2P_TRANSFER_INFLIGHT)) then Some (flagcxSuccess, (t, s))
    else
      let '(testResult, done, s) := test s (it_request item) in
      let keep o := '(r, t) ← o; Some (r, (t, s)) in
      if negb done then
        if failed testResult && negb (bool_decide (testResult = flagcxInProgress))
        then keep (failQueued (recordTerminal t testResult) testResult)
        else Some (flagcxSuccess, (t, s))
      else
        let testResult := if bool_decide (testResult = flagcxInProgress) then flagcxInternalError else testResult in
        if failed testResult then
          keep (check! t := completeItem t i testResult in failQueued t testResult)
        else keep (completeItem t i flagcxSuccess)
  end.

Definition pollInflight (t : flagcxP2pTransfer) (s : S) : option (flagcxResult_t * (flagcxP2pTransfer * S)) :=
  for_ok (indices t) poll_item (t, s).

(** The first [limit] queued items. *)
Definition queued_indices (t : flagcxP2pTransfer) (limit : Z) : list nat :=
  take (Z.to_nat limit) (filter (fun i => in_state FLAGCX_P2P_TRANSFER_QUEUED t i = true) (indices t)).

Definition ops_of (t : flagcxP2pTransfer) (indices : list nat) : option (list flagcxP2pTransferOp) :=
  mapM (fun i => item ← tr_items t !! i; Some (it_op item)) indices.

(** The loop over the accepted operations, from the [k]-th on. *)
Fixpoint accept_items (indices : list nat) (k : Z) (requests : list Z) (t : flagcxP2pTransfer) :
    option (flagcxResult_t * flagcxP2pTransfer) :=
  match indices with
  | [] => Some (flagcxSuccess, t)
  | i :: indices =>
    item ← tr_items t !! i;
    request ← arr_get requests k;
    let t := set_submitted (tr_submitted t +u32 1)
      (set_items (<[i := set_it_state request FLAGCX_P2P_TRANSFER_INFLIGHT item]> (tr_items t)) t) in
    check! t := if request =? NULL then completeItem t i flagcxSuccess else Some (flagcxSuccess, t) in
    accept_items indices (k + 1) requests t
  end.

(** [static_cast<int>] of a word of 32 bits. *)
Definition int_of_u32 (x : Z) : Z := if INT_MAX <? x then x - U32_MOD else x.

(** A credit call whose result the code ignores. *)
Definition give_back (t : flagcxP2pTransfer) (count : Z) : option flagcxP2pTransfer :=
  '(_, t) ← on_credit t (fun c => flagcxTransportCreditRelease c count); Some t.

(** [postQueued] once the backend has answered. *)
Definition after_post (t : flagcxP2pTransfer) (indices : list nat) (requested : Z) (callResult : flagcxResult_t)
    (requests : list Z) (post : flagcxNetPostResult) : option (flagcxResult_t * flagcxP2pTransfer) :=
  if failed callResult then
    t ← give_back t requested;
    if bool_decide (callResult = flagcxInProgress) then Some (flagcxSuccess, t) else failQueued t callResult
  else if negb (po_requested post =? int_of_u32 requested) || (po_accepted post <? 0) ||
          (int_of_u32 requested <? po_accepted post) then
    t ← give_back t requested;
    failQueued t flagcxInternalError
  else
    let accepted := po_accepted post in
    check! t := if accepted <? requested
                then on_credit t (fun c => flagcxTransportCreditRelease c (requested - accepted))
                else Some (flagcxSuccess, t) in
    check! t := accept_items (take (Z.to_nat accepted) indices) 0 requests t in
    if failed (po_result post) && negb (bool_decide (po_result post = flagcxInProgress))
    then failQueued t (po_result post) else Some (flagcxSuccess, t).

Definition postQueued (t : flagcxP2pTransfer) (s : S) : option (flagcxResult_t * (flagcxP2pTransfer * S)) :=
  let return_ r t := Some (r, (t, s)) in
  if failed (tr_terminalResult t) then return_ flagcxSuccess t
  else
    let '(availableResult, available) := flagcxTransportCreditAvailable (Some (tr_credit t)) true in
    let available := default 0 available in
    if failed availableResult || (available =? 0) then return_ availableResult t
    else
      let limit := Z.min available (tr_maxPostBatch t) in
      let indices := queued_indices t limit in
      if bool_decide (length indices = 0%nat) then return_ flagcxSuccess t
      else
        let requested := Z.of_nat (length indices) mod U32_MOD in
        '(creditResult, t) ← on_credit t (fun c => flagcxTransportCreditAcquire c requested);
        if failed creditResult then
          return_ (if bool_decide (creditResult = flagcxInProgress) then flagcxSuccess else creditResult) t
        else
          ops ← ops_of t indices;
          let '(callResult, requests, post, s) := post s ops in
          '(r, t) ← after_post t indices requested callResult requests post;
          Some (r, (t, s)).

(** ** Entry points *)

(** [flagcxP2pTransferQuery] past its checks. *)
Definition transfer_query (t : flagcxP2pTransfer) : option (flagcxResult_t * option flagcxP2pTransferStatus) :=
  let '(result, query) := flagcxNetCompletionScoreboardQuery (Some (tr_scoreboard t)) true true true in
  match query with
  | None => Some (result, None)
  | Some (nextSequence, scoreboardInFlight, scoreboardError) =>
    let '(requestResult, requestDone) := flagcxTransportRequestTest (Some (tr_request t)) true in
    let requestDone := default false requestDone in
    '(groupResult, group) ← flagcxNetReleaseGroupTest GROUP true true {[ GROUP := tr_releaseGroup t ]};
    let '(groupDone, releaseAllowed) := default (false, false) group in
    let '(result, available) := flagcxTransportCreditAvailable (Some (tr_credit t)) true in
    match available with
    | None => Some (result, None)
    | Some available =>
      let done := requestDone && groupDone && (scoreboardInFlight =? 0) in
      let result := tr_terminalResult t in
      let result := if negb (failed result) && requestDone && failed requestResult then requestResult else result in
      let result := if negb (failed result) && groupDone && failed groupResult then groupResult else result in
      let result := if negb (failed result) && failed scoreboardError then scoreboardError else result in
      Some (flagcxSuccess,
        Some (MkTransferStatus (Z.of_nat (length (tr_items t)) mod U32_MOD) (tr_submitted t) (tr_completed t)
          (nextSequence mod U32_MOD) scoreboardInFlight (cr_capacity (tr_credit t) -u32 available) done
          (if done && negb (failed result) then releaseAllowed else false) result))
    end
  end.

Definition flagcxP2pTransferQuery (t : option flagcxP2pTransfer) (status : bool) :
    option (flagcxResult_t * option flagcxP2pTransferStatus) :=
  match t with
  | None => Some (flagcxInvalidArgument, None)
  | Some t =>
    if negb status || negb (tr_initialized t) then Some (flagcxInvalidArgument, None) else transfer_query t
  end.

(** [flagcxP2pTransferProgress] past its checks. *)
Definition transfer_progress (t : flagcxP2pTransfer) (s : S) :
    option (flagcxResult_t * option flagcxP2pTransferStatus * flagcxP2pTransfer * S) :=
  '(result, (t, s)) ← (check! ts := pollInflight t s in postQueued ts.1 ts.2);
  let t := if failed result then recordTerminal t result else t in
  '(queryResult, status) ← flagcxP2pTransferQuery (Some t) true;
  Some (if failed result then result else queryResult, status, t, s).

Definition flagcxP2pTransferProgress (t : option flagcxP2pTransfer) (status : bool) (s : S) :
    option (flagcxResult_t * option flagcxP2pTransferStatus * option flagcxP2pTransfer * S) :=
  match t with
  | None => Some (flagcxInvalidArgument, None, None, s)
  | Some t0 =>
    if negb status || negb (tr_initialized t0) then Some (flagcxInvalidArgument, None, t, s)
    else '(r, st, t, s) ← transfer_progress t0 s; Some (r, st, Some t, s)
  end.

(** [transfers[i]] may be null; the transfers are distinct. *)
Fixpoint progress_many (transfers : list (option flagcxP2pTransfer)) (firstError : flagcxResult_t) (s : S) :
    option (flagcxResult_t * list (option flagcxP2pTransfer) * S) :=
  match transfers with
  | [] => Some (firstError, [], s)
  | None :: transfers =>
    let firstError := if negb (failed firstError) then flagcxInvalidArgument else firstError in
    '(r, ts, s) ← progress_many transfers firstError s;
    Some (r, None :: ts, s)
  | Some t :: transfers =>
    '(result, _, t, s) ← flagcxP2pTransferProgress (Some t) true s;
    let firstError := if failed result && negb (failed firstError) then result else firstError in
    '(r, ts, s) ← progress_many transfers firstError s;
    Some (r, t :: ts, s)
  end.

Definition flagcxP2pTransferProgressMany (transfers : option (list (option flagcxP2pTransfer))) (count : nat) (s : S) :
    option (flagcxResult_t * list (option flagcxP2pTransfer) * S) :=
  match transfers with
  | None => Some (if bool_decide (count = 0%nat) then flagcxSuccess else flagcxInvalidArgument, [], s)
  | Some ts => if (count <=? length ts)%nat then progress_many (take count ts) flagcxSuccess s else None
  end.

End Backend.

(** The loop that prepares and tracks the operations. *)
Definition init_item (ops : list flagcxP2pTransferOp) (groupId generation : Z) (i : nat) (t : flagcxP2pTransfer) :
    option (flagcxResult_t * flagcxP2pTransfer) :=
  op ← ops !! i;
  item ← tr_items t !! i;
  let op' := MkTransferOp (op_srcOffset op) (op_dstOffset op) (op_size op) (op_srcMr op) (op_dstMr op)
    (op_orderingKey op) groupId generation (Z.of_nat i) (op_submitFlags op) (op_laneMask op) in
  let submit := MkSubmitContext (op_orderingKey op) groupId generation (Z.of_nat i) (op_submitFlags op) (op_laneMask op) in
  let t := set_items (<[i := MkTransferItem op' submit (it_request item) (it_state item)]> (tr_items t)) t in
  on_scoreboard t (fun sb gs => flagcxNetTrackSubmit sb (Some submit) GROUP gs).

Definition flagcxP2pTransferInit (t : option flagcxP2pTransfer) (backend post test : bool)
    (ops : option (list flagcxP2pTransferOp)) (count maxInFlight maxPostBatch groupId generation : Z) :
    option (flagcxResult_t * option flagcxP2pTransfer) :=
  match t, ops with
  | Some t, Some ops =>
    if negb backend || negb post || negb test || (count =? 0) || (maxInFlight =? 0) || (maxPostBatch =? 0) ||
       (groupId =? 0) || tr_initialized t
    then Some (flagcxInvalidArgument, Some t)
    else
      let n := Z.to_nat count in
      let t := MkTransfer (replicate n item_default) (tr_scoreboard t) (tr_releaseGroup t) (tr_credit t) (tr_request t)
        maxPostBatch 0 0 flagcxSuccess (tr_initialized t) in
      '(r, t) ←
        (check! t := on_credit t (fun c => flagcxTransportCreditInit c maxInFlight) in
         check! t := on_request t (fun c => (flagcxSuccess, flagcxTransportRequestInit c)) in
         check! t := on_request t flagcxTransportRequestAcquire in
         check! t := on_request t (fun c => flagcxTransportRequestAddPending c count) in
         check! t := on_group t (flagcxNetReleaseGroupInit GROUP groupId generation) in
         check! t := (
           '(r, sb) ← flagcxNetCompletionScoreboardInit true (Some (replicate n flagcxNetCompletionEntryReset)) count
             generation 0;
           Some (r, set_scoreboard (default (tr_scoreboard t) sb) t)) in
         check! t := for_ok (seq 0 n) (init_item ops groupId generation) t in
         check! t := on_group t (flagcxNetReleaseGroupSeal GROUP) in
         let t := set_initialized true t in
         for_ok (seq 0 n)
           (fun i t =>
              item ← tr_items t !! i;
              if op_size (it_op item) =? 0 then completeItem t i flagcxSuccess else Some (flagcxSuccess, t)) t);
      Some (r, Some t)
  | _, _ => Some (flagcxInvalidArgument, t)
  end.

Definition flagcxP2pTransferReset (t : option flagcxP2pTransfer) : option (flagcxResult_t * option flagcxP2pTransfer) :=
  match t with
  | None => Some (flagcxInvalidArgument, None)
  | Some t =>
    if negb (tr_initialized t) then Some (flagcxInvalidArgument, Some t)
    else
      '(result, status) ← flagcxP2pTransferQuery (Some t) true;
      match status with
      | None => Some (result, Some t)
      | Some status =>
        if negb (ts_done status) then Some (flagcxInProgress, Some t)
        else
          '(r, t) ← on_request t flagcxTransportRequestRelease;
          if failed r then Some (r, Some t)
          else Some (flagcxSuccess, Some (MkTransfer [] scoreboard_zero release_group_zero (MkCredit 0 0) (tr_request t)
                 0 0 0 flagcxSuccess false))
      end
  end.
