(* ===== verification/P2pTransferInv.v ===== *)
(** Correctness of the transfers of the P2P engine: the counters, credits,
    request, release group and scoreboard of a transfer agree with the states
    of its items whatever the backend answers, no call inside fails, and a
    backend that completes what it accepts completes the transfer. *)
From S2P Require Import Prelude Flagcx Arrays NetTransport NetScoreboard P2pTransfer.

(** Decides the comparisons of states the context settles. *)
Ltac decide_states :=
  cbn [set_it_state it_state] in *;
  repeat match goal with
  | H : context [bool_decide (?x = ?y)] |- _ =>
    first [rewrite (bool_decide_eq_true_2 (x = y)) in H by congruence
          |rewrite (bool_decide_eq_false_2 (x = y)) in H by congruence]
  | |- context [bool_decide (?x = ?y)] =>
    first [rewrite (bool_decide_eq_true_2 (x = y)) by congruence
          |rewrite (bool_decide_eq_false_2 (x = y)) by congruence]
  end;
  cbn [Nat.b2n Z.b2z negb] in *.

(** ** Items *)

Definition cnt (st : flagcxP2pTransferItemState) (items : list flagcxP2pTransferItem) : nat :=
  length (filter (fun it => it_state it = st) items).

Lemma cnt_insert st items i it it' :
  items !! i = Some it ->
  (cnt st (<[i := it']> items) + Nat.b2n (bool_decide (it_state it = st)) =
   cnt st items + Nat.b2n (bool_decide (it_state it' = st)))%nat.
Proof. intros Hi. exact (length_filter_insert (fun it => it_state it = st) items i it it' Hi). Qed.

Lemma cnt_le st items : (cnt st items <= length items)%nat.
Proof. apply length_filter. Qed.

(** Every item is in one of the three states. *)
Lemma cnt_total items :
  (cnt FLAGCX_P2P_TRANSFER_QUEUED items + cnt FLAGCX_P2P_TRANSFER_INFLIGHT items +
   cnt FLAGCX_P2P_TRANSFER_COMPLETE items = length items)%nat.
Proof.
  unfold cnt. induction items as [|it items IH]; [done|]. rewrite !filter_cons.
  destruct (it_state it); repeat (destruct (decide _); [|]); try done; cbn [length]; lia.
Qed.

Lemma cnt_all st items : cnt st items = length items -> Forall (fun it => it_state it = st) items.
Proof.
  unfold cnt. induction items as [|it items IH]; intros Hc; [constructor|].
  rewrite filter_cons in Hc. destruct (decide (it_state it = st)); cbn in Hc.
  - constructor; [done|]. apply IH. lia.
  - pose proof (length_filter (fun it => it_state it = st) items). lia.
Qed.

Lemma cnt_zero st items i it : cnt st items = 0%nat -> items !! i = Some it -> it_state it <> st.
Proof.
  intros Hc Hi Hst. pose proof (list_elem_of_lookup_2 _ _ _ Hi) as Hin.
  assert (it ∈ filter (fun it => it_state it = st) items) as Hf by (by apply list_elem_of_filter).
  unfold cnt in Hc. destruct (filter _ items); [by apply not_elem_of_nil in Hf|done].
Qed.

(** ** The invariant *)

(** The parameters of a transfer. *)
Record transfer_params := MkParams {
  pa_count : Z;
  pa_maxInFlight : Z;
  pa_groupId : Z;
  pa_generation : Z
}.

(** [rs] are the results delivered so far, [a] the abstract scoreboard, and
    [extra] the credits reserved for operations that are being posted. *)
Record transfer_inv (p : transfer_params) (extra : Z) (t : flagcxP2pTransfer) (rs : list flagcxResult_t) (a : abs_board) :
    Prop := {
  ti_init : tr_initialized t = true;
  ti_count : 0 < pa_count p < U32_MOD /\ Z.of_nat (length (tr_items t)) = pa_count p;
  ti_batch : 0 < tr_maxPostBatch t;
  ti_submit : forall i it, tr_items t !! i = Some it ->
    sc_sequence (it_submit it) = Z.of_nat i /\ sc_generation (it_submit it) = pa_generation p;
  ti_board : implements (tr_scoreboard t) a /\ ab_capacity a = pa_count p /\ ab_generation a = pa_generation p /\
    ab_firstError a = fold_left first_error rs flagcxSuccess;
  ti_dom : forall s l, ab_live a !! s = Some l -> 0 <= s < pa_count p /\ le_group l = GROUP;
  ti_next : 0 <= ab_next a <= pa_count p;
  ti_pending : forall i it, tr_items t !! i = Some it -> it_state it <> FLAGCX_P2P_TRANSFER_COMPLETE ->
    ab_live a !! Z.of_nat i = Some (MkLive (it_submit it) GROUP None);
  ti_retired : forall i it, tr_items t !! i = Some it -> it_state it = FLAGCX_P2P_TRANSFER_COMPLETE ->
    match ab_live a !! Z.of_nat i with Some l => is_Some (le_done l) | None => Z.of_nat i < ab_next a end;
  ti_group : group_ok (pa_count p - tr_completed t) (tr_releaseGroup t) rs /\
    gr_state (tr_releaseGroup t) <> FLAGCX_NET_RELEASE_GROUP_OPEN /\
    gr_groupId (tr_releaseGroup t) = pa_groupId p /\ pa_groupId p <> 0;
  ti_request : rc_pending (tr_request t) = pa_count p - tr_completed t /\
    rc_state (tr_request t) =
      (if tr_completed t =? pa_count p then FLAGCX_NET_REQUEST_COMPLETE else FLAGCX_NET_REQUEST_PENDING) /\
    rc_result (tr_request t) = fold_left first_error rs flagcxSuccess;
  ti_credit : cr_capacity (tr_credit t) = pa_maxInFlight p /\ 0 < pa_maxInFlight p < U32_MOD /\ 0 <= extra /\
    cr_inUse (tr_credit t) = Z.of_nat (cnt FLAGCX_P2P_TRANSFER_INFLIGHT (tr_items t)) + extra /\
    cr_inUse (tr_credit t) <= pa_maxInFlight p;
  ti_completed : tr_completed t = Z.of_nat (cnt FLAGCX_P2P_TRANSFER_COMPLETE (tr_items t)) /\
    length rs = cnt FLAGCX_P2P_TRANSFER_COMPLETE (tr_items t);
  ti_submitted : Z.of_nat (cnt FLAGCX_P2P_TRANSFER_INFLIGHT (tr_items t)) <= tr_submitted t /\
    tr_submitted t + Z.of_nat (cnt FLAGCX_P2P_TRANSFER_QUEUED (tr_items t)) <= pa_count p;
  ti_results : Forall (fun r => r <> flagcxInProgress) rs;
  ti_terminal : tr_terminalResult t <> flagcxInProgress /\
    (tr_terminalResult t = flagcxSuccess -> Forall (fun r => r = flagcxSuccess) rs)
}.

(** What happens to an item: it is not changed back, and its operation stays. *)
Definition item_leads (it it' : flagcxP2pTransferItem) : Prop :=
  it_op it' = it_op it /\ it_submit it' = it_submit it /\
  match it_state it with
  | FLAGCX_P2P_TRANSFER_QUEUED => True
  | FLAGCX_P2P_TRANSFER_INFLIGHT =>
      it_state it' = FLAGCX_P2P_TRANSFER_COMPLETE \/
      it_state it' = FLAGCX_P2P_TRANSFER_INFLIGHT /\ it_request it' = it_request it
  | FLAGCX_P2P_TRANSFER_COMPLETE => it_state it' = FLAGCX_P2P_TRANSFER_COMPLETE
  end.

Definition leads (t t' : flagcxP2pTransfer) : Prop := Forall2 item_leads (tr_items t) (tr_items t').

(** No item is newly in flight. *)
Definition posts_none (t t' : flagcxP2pTransfer) : Prop :=
  forall i, in_state FLAGCX_P2P_TRANSFER_INFLIGHT t' i = true -> in_state FLAGCX_P2P_TRANSFER_INFLIGHT t i = true.

#[export] Instance item_leads_preorder : PreOrder item_leads.
Proof.
  split.
  - intros it. split_and!; try done. destruct (it_state it); auto.
  - intros x y z (H1 & H2 & H3) (H4 & H5 & H6). split_and!; [congruence..|].
    destruct (it_state x); [done| |by rewrite H3 in H6].
    destruct H3 as [H3|[H3 H3']]; rewrite H3 in H6; [by left|]. destruct H6 as [|[]]; [by left|right]. split; congruence.
Qed.

#[export] Instance leads_preorder : PreOrder leads.
Proof. unfold leads. split; [intros t|intros x y z]; [reflexivity|intros H1 H2; etrans; [exact H1|exact H2]]. Qed.

#[export] Instance posts_none_preorder : PreOrder posts_none.
Proof. unfold posts_none. split; [intros t i Hi; exact Hi|]. intros x y z H1 H2 i Hi. auto. Qed.

Lemma leads_length t t' : leads t t' -> length (tr_items t') = length (tr_items t).
Proof. intros H. symmetry. exact (Forall2_length _ _ _ H). Qed.

Lemma leads_insert t t' i it it' :
  tr_items t !! i = Some it -> tr_items t' = <[i := it']> (tr_items t) -> item_leads it it' -> leads t t'.
Proof.
  intros Hi He Hl. unfold leads. rewrite He. apply Forall2_same_length_lookup. split; [by rewrite length_insert|].
  intros j x y Hx Hy. destruct (decide (j = i)) as [->|Hne].
  - rewrite list_lookup_insert_eq in Hy by (by eapply lookup_lt_Some). by simplify_eq.
  - rewrite list_lookup_insert_ne in Hy by done. by simplify_eq.
Qed.

Lemma in_state_lookup st t i : in_state st t i = true <-> exists it, tr_items t !! i = Some it /\ it_state it = st.
Proof.
  unfold in_state. destruct (tr_items t !! i) as [it|]; [|naive_solver]. rewrite bool_decide_eq_true. naive_solver.
Qed.

(** ** Completing an item *)

(** Everything of a transfer that a completion leaves alone. *)
Definition same_frame (t t' : flagcxP2pTransfer) : Prop :=
  tr_maxPostBatch t' = tr_maxPostBatch t /\ tr_submitted t' = tr_submitted t.

#[export] Instance same_frame_preorder : PreOrder same_frame.
Proof. unfold same_frame. split; [intros t|intros x y z]; naive_solver congruence. Qed.

(** The group, the request and the credit as fields of a transfer. *)
Lemma recordTerminal_eq t r :
  r <> flagcxInProgress -> recordTerminal t r = set_terminalResult (first_error (tr_terminalResult t) r) t.
Proof.
  intros Hr. unfold recordTerminal, first_error. rewrite (bool_decide_eq_false_2 _ Hr). cbn [negb]. rewrite andb_true_r.
  destruct (_ && _); [done|]. by destruct t.
Qed.

Lemma first_error_ne e r : e <> flagcxInProgress -> r <> flagcxInProgress -> first_error e r <> flagcxInProgress.
Proof. unfold first_error. by destruct (_ && _). Qed.

Section CompleteItem.
Context (p : transfer_params) (extra : Z) (t : flagcxP2pTransfer) (rs : list flagcxResult_t) (a : abs_board).
Hypothesis I : transfer_inv p extra t rs a.
Context (i : nat) (it : flagcxP2pTransferItem) (result : flagcxResult_t).
Hypothesis item : tr_items t !! i = Some it.
Hypothesis active : it_state it <> FLAGCX_P2P_TRANSFER_COMPLETE.
Hypothesis final : result <> flagcxInProgress.

Let c := it_submit it.
Let l := MkLive c GROUP None.

Lemma item_live : ab_live a !! sc_sequence c = Some l /\ sc_sequence c = Z.of_nat i /\ find_pending a c = Some l.
Proof.
  destruct (ti_submit _ _ _ _ _ I _ _ item) as [Hs Hg]. fold c in Hs, Hg.
  pose proof (ti_pending _ _ _ _ _ I _ _ item active) as Hl. fold c l in Hl. rewrite <- Hs in Hl.
  split_and!; [done|done|]. destruct (ti_board _ _ _ _ _ I) as (Im & Hc & Hgen & _).
  unfold find_pending. rewrite Hg, Hgen, Z.eqb_refl, Hl. pose proof (implements_live_ge _ _ Im _ _ Hl).
  rewrite (proj2 (Z.leb_le _ _)) by done. cbn. unfold flagcxNetSubmitContextMatches. rewrite !Z.eqb_refl. done.
Qed.

Lemma completed_lt : tr_completed t < pa_count p.
Proof.
  destruct (ti_completed _ _ _ _ _ I) as [-> _]. destruct (ti_count _ _ _ _ _ I) as [_ <-].
  pose proof (cnt_le FLAGCX_P2P_TRANSFER_COMPLETE (tr_items t)).
  enough (cnt FLAGCX_P2P_TRANSFER_COMPLETE (tr_items t) <> length (tr_items t)) by lia.
  intros Ha%cnt_all. by apply active, (proj1 (Forall_lookup _ _) Ha i).
Qed.

Lemma credit_released :
  (if bool_decide (it_state it = FLAGCX_P2P_TRANSFER_INFLIGHT)
   then on_credit t (fun c => flagcxTransportCreditRelease c 1) else Some (flagcxSuccess, t)) =
  Some (flagcxSuccess, set_credit (MkCredit (cr_capacity (tr_credit t))
    (cr_inUse (tr_credit t) - Z.b2z (bool_decide (it_state it = FLAGCX_P2P_TRANSFER_INFLIGHT)))) t).
Proof.
  destruct (ti_credit _ _ _ _ _ I) as (Hcap & Hmax & He & Hu & Hle).
  pose proof (cnt_insert FLAGCX_P2P_TRANSFER_INFLIGHT (tr_items t) i it
    (set_it_state NULL FLAGCX_P2P_TRANSFER_COMPLETE it) item) as Hc.
  destruct (decide (it_state it = FLAGCX_P2P_TRANSFER_INFLIGHT)); decide_states.
  - unfold on_credit, flagcxTransportCreditRelease, flagcxNetCreditRelease.
    change (1 =? 0) with false. rewrite (proj2 (Z.eqb_neq (cr_capacity _) 0)), (proj2 (Z.ltb_ge _ _)) by lia.
    cbn [orb mbind option_bind Z.b2z].
    by rewrite Z.mod_small by lia.
  - rewrite Z.sub_0_r. by destruct t as [? ? ? [? ?]].
Qed.

Lemma complete_locked_frame g r g' :
  flagcxNetReleaseGroupCompleteLocked g result = (r, g') -> gr_state g <> FLAGCX_NET_RELEASE_GROUP_OPEN ->
  gr_groupId g' = gr_groupId g /\ gr_state g' <> FLAGCX_NET_RELEASE_GROUP_OPEN.
Proof.
  unfold flagcxNetReleaseGroupCompleteLocked. case_test; [by intros [= <- <-]|]. intros [= <- <-] Ho.
  destruct (failed result && _); cbn; destruct (_ && _); by cbn.
Qed.

Lemma completion_tracked t1 :
  tr_scoreboard t1 = tr_scoreboard t -> tr_releaseGroup t1 = tr_releaseGroup t ->
  exists sb g, on_scoreboard t1 (fun sb gs =>
      '(r, sb, gs, _) ← flagcxNetTrackCompletion sb (Some c) result true gs; Some (r, sb, gs)) =
    Some (flagcxSuccess, set_releaseGroup g (set_scoreboard sb t1)) /\
    implements sb (retire_completed c l result a) /\
    group_ok (pa_count p - tr_completed t - 1) g (rs ++ [result]) /\
    gr_groupId g = gr_groupId (tr_releaseGroup t) /\ gr_state g <> FLAGCX_NET_RELEASE_GROUP_OPEN.
Proof.
  intros Hsb Hg. destruct item_live as (Hl & Hs & Hf). destruct (ti_board _ _ _ _ _ I) as (Im & _).
  destruct (ti_group _ _ _ _ _ I) as (Hok & Hopen & _). pose proof completed_lt.
  destruct (complete_ok _ _ _ result Hok) as (g & Hrun & Hok'); [lia|].
  set (gs := {[ GROUP := tr_releaseGroup t ]} : groups).
  assert (Hgs : gs !! GROUP = Some (tr_releaseGroup t)) by apply lookup_singleton_eq.
  assert (Ha : groups_alive a gs).
  { split; [by apply lookup_singleton_ne|]. intros s x Hx _. destruct (ti_dom _ _ _ _ _ I _ _ Hx) as [_ ->]. eauto. }
  assert (Hu : is_u64 (sc_sequence c)).
  { unfold is_u64. rewrite Hs. pose proof (lookup_lt_Some _ _ _ item). destruct (ti_count _ _ _ _ _ I). lia. }
  destruct (complete_meets (tr_scoreboard t) a gs c result Im Ha Hu) as (sb & Hcall & I').
  unfold spec_complete in Hcall, I'. rewrite Hf, (bool_decide_eq_false_2 _ final) in Hcall, I'.
  cbn [l le_group] in Hcall, I'. rewrite Hgs, Hrun in Hcall, I'. cbn [fst snd] in Hcall, I'.
  exists sb, g. split_and!; [|exact I'|done|..].
  - unfold on_scoreboard. rewrite Hsb, Hg. fold gs. cbn [run_call] in Hcall. rewrite Hcall.
    cbn [mbind option_bind]. by rewrite lookup_insert_eq.
  - by eapply complete_locked_frame.
  - by eapply complete_locked_frame.
Qed.

Lemma request_completed t1 :
  tr_request t1 = tr_request t ->
  on_request t1 (fun c => flagcxTransportRequestComplete c 1 result) =
  Some (flagcxSuccess, set_request (MkRequestCore
    (if pa_count p - tr_completed t - 1 =? 0 then FLAGCX_NET_REQUEST_COMPLETE else FLAGCX_NET_REQUEST_PENDING)
    (pa_count p - tr_completed t - 1) (fold_left first_error (rs ++ [result]) flagcxSuccess)) t1).
Proof.
  intros Hr. destruct (ti_request _ _ _ _ _ I) as (Hp & Hst & Hres). pose proof completed_lt.
  destruct (ti_completed _ _ _ _ _ I) as [Hcm _]. destruct (ti_count _ _ _ _ _ I).
  rewrite (proj2 (Z.eqb_neq _ _)) in Hst by lia.
  unfold on_request, flagcxTransportRequestComplete, flagcxNetRequestCoreComplete, request_not_pending. rewrite Hr.
  rewrite Hst. cbn [Z.eqb orb bool_decide negb]. rewrite bool_decide_true by done. cbn [negb orb].
  assert (E : flagcxNetRequestCoreRecordResult (tr_request t) result =
    MkRequestCore FLAGCX_NET_REQUEST_PENDING (pa_count p - tr_completed t)
      (fold_left first_error (rs ++ [result]) flagcxSuccess)).
  { rewrite fold_left_app. cbn [fold_left]. rewrite <- Hres, <- Hst, <- Hp.
    unfold flagcxNetRequestCoreRecordResult, first_error. rewrite (bool_decide_eq_false_2 _ final), orb_false_r.
    unfold failed. destruct (bool_decide (result = flagcxSuccess)), (bool_decide (rc_result (tr_request t) = flagcxSuccess));
      cbn; by destruct (tr_request t). }
  rewrite E. cbn [rc_pending rc_state rc_result]. rewrite (proj2 (Z.ltb_ge _ _)), Z.mod_small by lia.
  cbn [mbind option_bind]. done.
Qed.

(** The transfer after the completion; [sb] and [g] are its scoreboard and
    group. *)
Definition completed_transfer (sb : flagcxNetCompletionScoreboard) (g : flagcxNetReleaseGroup) : flagcxP2pTransfer :=
  MkTransfer (<[i := set_it_state NULL FLAGCX_P2P_TRANSFER_COMPLETE it]> (tr_items t)) sb g
    (MkCredit (cr_capacity (tr_credit t))
       (cr_inUse (tr_credit t) - Z.b2z (bool_decide (it_state it = FLAGCX_P2P_TRANSFER_INFLIGHT))))
    (MkRequestCore
      (if pa_count p - tr_completed t - 1 =? 0 then FLAGCX_NET_REQUEST_COMPLETE else FLAGCX_NET_REQUEST_PENDING)
      (pa_count p - tr_completed t - 1) (fold_left first_error (rs ++ [result]) flagcxSuccess))
    (tr_maxPostBatch t) (tr_submitted t) (tr_completed t + 1) (first_error (tr_terminalResult t) result)
    (tr_initialized t).

Lemma completeItem_runs :
  exists sb g, completeItem t i result = Some (flagcxSuccess, completed_transfer sb g) /\
    implements sb (retire_completed c l result a) /\
    group_ok (pa_count p - tr_completed t - 1) g (rs ++ [result]) /\
    gr_groupId g = gr_groupId (tr_releaseGroup t) /\ gr_state g <> FLAGCX_NET_RELEASE_GROUP_OPEN.
Proof.
  unfold completeItem. rewrite item, (bool_decide_eq_false_2 _ active), credit_released.
  cbn [then_ok mbind option_bind]. change (failed flagcxSuccess) with false. cbn match.
  set (t1 := set_credit _ t).
  destruct (completion_tracked t1) as (sb & g & Ht & Hrest); [done..|]. fold c. rewrite Ht.
  cbn [then_ok mbind option_bind]. change (failed flagcxSuccess) with false. cbn match.
  rewrite request_completed by done. cbn [then_ok mbind option_bind]. change (failed flagcxSuccess) with false.
  cbn match zeta. exists sb, g. split; [|done]. do 2 f_equal. rewrite recordTerminal_eq by done.
  unfold completed_transfer. cbn. pose proof completed_lt. destruct (ti_count _ _ _ _ _ I).
  destruct (ti_completed _ _ _ _ _ I). rewrite Z.mod_small by lia. done.
Qed.

Lemma completed_transfer_items j x :
  <[i := set_it_state NULL FLAGCX_P2P_TRANSFER_COMPLETE it]> (tr_items t) !! j = Some x ->
  j = i /\ x = set_it_state NULL FLAGCX_P2P_TRANSFER_COMPLETE it \/ j <> i /\ tr_items t !! j = Some x.
Proof.
  destruct (decide (j = i)) as [->|]; [|rewrite list_lookup_insert_ne by done; by right].
  rewrite list_lookup_insert_eq by (by eapply lookup_lt_Some). intros [= <-]. by left.
Qed.

Lemma completed_transfer_inv sb g :
  implements sb (retire_completed c l result a) ->
  group_ok (pa_count p - tr_completed t - 1) g (rs ++ [result]) ->
  gr_groupId g = gr_groupId (tr_releaseGroup t) -> gr_state g <> FLAGCX_NET_RELEASE_GROUP_OPEN ->
  transfer_inv p extra (completed_transfer sb g) (rs ++ [result]) (retire_completed c l result a).
Proof.
  intros Him Hok Hid Hst. destruct item_live as (Hl & Hs & _). pose proof completed_lt.
  pose proof I as [Jinit [Jc Jn] Jb Js (Ji & Jcap & Jgen & Jfe) Jdom Jnx Jp Jr (_ & _ & Jg) Jq (Kc & Km & Ke & Ku & Kl) [Jd Jl] (Jsa & Jsb) Jres (Jt & Jt')].
  pose proof (implements_live_ge _ _ Ji) as Hge.
  pose proof (cnt_insert FLAGCX_P2P_TRANSFER_INFLIGHT (tr_items t) i it
    (set_it_state NULL FLAGCX_P2P_TRANSFER_COMPLETE it) item) as Hci.
  pose proof (cnt_insert FLAGCX_P2P_TRANSFER_COMPLETE (tr_items t) i it
    (set_it_state NULL FLAGCX_P2P_TRANSFER_COMPLETE it) item) as Hcc.
  assert (Hcc' : cnt FLAGCX_P2P_TRANSFER_COMPLETE (<[i := set_it_state NULL FLAGCX_P2P_TRANSFER_COMPLETE it]> (tr_items t)) =
    S (cnt FLAGCX_P2P_TRANSFER_COMPLETE (tr_items t))) by (decide_states; lia).
  constructor; cbn [tr_initialized tr_items tr_maxPostBatch tr_scoreboard tr_releaseGroup tr_credit tr_request tr_completed
    tr_submitted tr_terminalResult completed_transfer].
  - done.
  - by rewrite length_insert.
  - done.
  - intros j x [[-> ->]|[_ Hx]]%completed_transfer_items; [exact (Js _ _ item)|exact (Js _ _ Hx)].
  - split_and!; try done. rewrite fold_left_app, <- Jfe. done.
  - intros s x. rewrite retire_lookup. destruct (_ <=? s); [|done].
    destruct (decide (s = sc_sequence c)) as [->|]; [rewrite lookup_insert_eq|rewrite lookup_insert_ne by done; apply Jdom].
    intros [= <-]. split; [by apply (Jdom _ _ Hl)|done].
  - pose proof (retire_next_le c l result a). pose proof (proj1 (Jdom _ _ Hl)). split; [lia|].
    destruct (decide (ab_next (retire_completed c l result a) = ab_next a)) as [->|Hne]; [lia|].
    unfold retire_completed in Hne |- *. cbn [ab_next] in *.
    destruct (prefix_done_all (Z.to_nat (ab_capacity a)) (ab_next a)
      (<[sc_sequence c := MkLive (le_context l) (le_group l) (Some result)]> (ab_live a))
      (ab_next a + Z.of_nat (prefix_done (Z.to_nat (ab_capacity a)) (ab_next a)
        (<[sc_sequence c := MkLive (le_context l) (le_group l) (Some result)]> (ab_live a))) - 1)) as (y & Hy & _); [lia|].
    apply lookup_insert_Some in Hy as [[Hy _]|[_ Hy]]; [lia|]. apply Jdom in Hy as [Hy _]. lia.
  - intros j x [[-> ->]|[Hne Hx]]%completed_transfer_items Hx'; [done|].
    apply retire_pending; [done|by apply Jp|done|lia].
  - intros j x [[-> ->]|[Hne Hx]]%completed_transfer_items Hx'; rewrite retire_lookup.
    + rewrite <- Hs, lookup_insert_eq. destruct (Z.leb_spec (ab_next (retire_completed c l result a)) (sc_sequence c)); [|lia].
      cbn. eauto.
    + specialize (Jr j x Hx Hx'). rewrite lookup_insert_ne by lia. pose proof (retire_next_le c l result a).
      destruct (Z.leb_spec (ab_next (retire_completed c l result a)) (Z.of_nat j)); [|lia].
      destruct (ab_live a !! Z.of_nat j); [done|lia].
  - split_and!; [by rewrite Z.sub_add_distr|done|by rewrite Hid; apply Jg|apply Jg].
  - cbn. split_and!; [lia| |done].
    destruct (Z.eqb_spec (pa_count p - tr_completed t - 1) 0), (Z.eqb_spec (tr_completed t + 1) (pa_count p)); done || lia.
  - cbn [cr_capacity cr_inUse]. split; [done|]. split; [done|]. split; [done|]. split; [|destruct (bool_decide _); cbn [Z.b2z]; lia].
    destruct (decide (it_state it = FLAGCX_P2P_TRANSFER_INFLIGHT)); decide_states; lia.
  - rewrite Hcc', length_app. cbn [length]. split; lia.
  - pose proof (cnt_insert FLAGCX_P2P_TRANSFER_QUEUED (tr_items t) i it
      (set_it_state NULL FLAGCX_P2P_TRANSFER_COMPLETE it) item).
    destruct (it_state it) eqn:Est; [| |done]; decide_states; lia.
  - apply Forall_app. auto.
  - split; [by apply first_error_ne|]. intros Hf.
    assert (Hf' : failed (first_error (tr_terminalResult t) result) = false) by (by rewrite Hf).
    rewrite first_error_success in Hf'. apply orb_false_iff in Hf' as [H1%failed_false H2%failed_false].
    apply Forall_app. auto.
Qed.

End CompleteItem.

(** Completing an item that is not complete succeeds and keeps the invariant. *)
Lemma completeItem_spec p extra t rs a i it result :
  transfer_inv p extra t rs a -> tr_items t !! i = Some it -> it_state it <> FLAGCX_P2P_TRANSFER_COMPLETE ->
  result <> flagcxInProgress ->
  exists t' a', completeItem t i result = Some (flagcxSuccess, t') /\ transfer_inv p extra t' (rs ++ [result]) a' /\
    tr_items t' = <[i := set_it_state NULL FLAGCX_P2P_TRANSFER_COMPLETE it]> (tr_items t) /\
    tr_terminalResult t' = first_error (tr_terminalResult t) result /\ same_frame t t'.
Proof.
  intros I Hi Hst Hr. destruct (completeItem_runs _ _ _ _ _ I _ _ _ Hi Hst Hr) as (sb & g & Hrun & Him & Hok & Hid & Hg).
  do 2 eexists. split; [exact Hrun|]. split; [by apply completed_transfer_inv|done].
Qed.

(** ** Loops *)

(** A loop whose body keeps [P], which says how far it is. *)
Lemma for_ok_seq {S} (P : nat -> S -> Prop) (body : nat -> S -> option (flagcxResult_t * S)) n : forall k s,
  (forall i s, (k <= i < k + n)%nat -> P i s -> exists s', body i s = Some (flagcxSuccess, s') /\ P (Datatypes.S i) s') ->
  P k s -> exists s', for_ok (seq k n) body s = Some (flagcxSuccess, s') /\ P (k + n)%nat s'.
Proof.
  induction n as [|n IH]; intros k s Hb Hk; cbn [seq for_ok].
  - exists s. by rewrite Nat.add_0_r.
  - destruct (Hb k s) as (s1 & -> & H1); [lia|done|]. cbn [then_ok mbind option_bind].
    change (failed flagcxSuccess) with false. cbn match.
    destruct (IH (Datatypes.S k) s1) as (s' & -> & H'); [intros i s2 Hi; apply Hb; lia|done|].
    exists s'. split; [done|]. by rewrite <- Nat.add_succ_comm.
Qed.

Definition sound (p : transfer_params) (extra : Z) (t : flagcxP2pTransfer) : Prop :=
  exists rs a, transfer_inv p extra t rs a.

Definition moves (t t' : flagcxP2pTransfer) : Prop := leads t t' /\ posts_none t t' /\ same_frame t t'.

#[export] Instance moves_preorder : PreOrder moves.
Proof.
  split; [intros t; split_and!; reflexivity|].
  intros x y z (H1 & H2 & H3) (H4 & H5 & H6). split_and!; etrans; eassumption.
Qed.

Lemma in_state_insert st t t' i it j :
  tr_items t' = <[i := it]> (tr_items t) -> (i < length (tr_items t))%nat ->
  in_state st t' j = if decide (j = i) then bool_decide (it_state it = st) else in_state st t j.
Proof.
  intros He Hi. unfold in_state. rewrite He. destruct (decide (j = i)) as [->|].
  - by rewrite list_lookup_insert_eq.
  - by rewrite list_lookup_insert_ne.
Qed.

(** [completeItem] on an item that is not complete. *)
Lemma completeItem_sound p extra t i result :
  sound p extra t -> (i < length (tr_items t))%nat -> in_state FLAGCX_P2P_TRANSFER_COMPLETE t i = false ->
  result <> flagcxInProgress ->
  exists t', completeItem t i result = Some (flagcxSuccess, t') /\ sound p extra t' /\ moves t t' /\
    tr_terminalResult t' = first_error (tr_terminalResult t) result /\
    forall st j, in_state st t' j = if decide (j = i) then bool_decide (FLAGCX_P2P_TRANSFER_COMPLETE = st) else in_state st t j.
Proof.
  intros (rs & a & I) [it Hi]%lookup_lt_is_Some Hs Hr. unfold in_state in Hs. rewrite Hi in Hs. bool_to_prop.
  destruct (completeItem_spec _ _ _ _ _ _ _ _ I Hi Hs Hr) as (t' & a' & Hrun & I' & Hit & Ht & Hf).
  assert (Hst : forall st j, in_state st t' j =
    if decide (j = i) then bool_decide (FLAGCX_P2P_TRANSFER_COMPLETE = st) else in_state st t j).
  { intros st j. by erewrite in_state_insert by (done || by eapply lookup_lt_Some). }
  exists t'. split; [done|]. split; [by exists (rs ++ [result]), a'|]. split; [|done]. split; [|split; [|done]].
  - eapply leads_insert; [done|done|]. split_and!; try done. destruct (it_state it); by auto.
  - intros j. rewrite Hst. destruct (decide (j = i)); [|done]. by intros ?%bool_decide_eq_true.
Qed.

Lemma recordTerminal_sound p extra t result :
  sound p extra t -> result <> flagcxInProgress ->
  sound p extra (recordTerminal t result) /\ moves t (recordTerminal t result) /\
  tr_terminalResult (recordTerminal t result) = first_error (tr_terminalResult t) result /\
  tr_items (recordTerminal t result) = tr_items t.
Proof.
  intros (rs & a & I) Hr. rewrite recordTerminal_eq by done.
  split; [|split; [exact (reflexivity (R := moves) t)|done]].
  exists rs, a. destruct I as [I1 I2 I3 I4 I5 I6 I6' I7 I8 I9 I10 I11 I12 I13 I13' [I14 I15]].
  constructor; cbn; try done. split; [by apply first_error_ne|]. intros Hf.
  assert (Hf' : failed (first_error (tr_terminalResult t) result) = false) by (by rewrite Hf).
  rewrite first_error_success in Hf'. apply orb_false_iff in Hf' as [?%failed_false _]. auto.
Qed.

Lemma first_error_idem e r : first_error (first_error e r) r = first_error e r.
Proof. unfold first_error. by destruct (failed r) eqn:Er, (failed e) eqn:Ee; cbn; rewrite ?Er, ?Ee. Qed.

(** After [failQueued] no item is queued. *)
Lemma failQueued_sound p extra t result :
  sound p extra t -> result <> flagcxInProgress ->
  exists t', failQueued t result = Some (flagcxSuccess, t') /\ sound p extra t' /\ moves t t' /\
    tr_terminalResult t' = first_error (tr_terminalResult t) result /\
    (forall j, in_state FLAGCX_P2P_TRANSFER_QUEUED t' j = false) /\
    (forall j, in_state FLAGCX_P2P_TRANSFER_INFLIGHT t' j = in_state FLAGCX_P2P_TRANSFER_INFLIGHT t j).
Proof.
  intros Hs Hr. unfold failQueued. destruct (recordTerminal_sound _ _ _ _ Hs Hr) as (Hs1 & Hm1 & Ht1 & Hi1).
  set (t1 := recordTerminal t result) in *.
  destruct (for_ok_seq (fun k t' => sound p extra t' /\ moves t1 t' /\ tr_terminalResult t' = tr_terminalResult t1 /\
      (forall j, (j < k)%nat -> in_state FLAGCX_P2P_TRANSFER_QUEUED t' j = false) /\
      (forall j, in_state FLAGCX_P2P_TRANSFER_INFLIGHT t' j = in_state FLAGCX_P2P_TRANSFER_INFLIGHT t1 j))
    (fun i t => if in_state FLAGCX_P2P_TRANSFER_QUEUED t i then completeItem t i result else Some (flagcxSuccess, t))
    (length (tr_items t1)) 0 t1) as (t' & Hrun & Hs' & Hm' & Ht' & Hq & Hf).
  - intros i t2 Hi (Hs2 & Hm2 & Ht2 & Hq2 & Hf2). destruct (in_state FLAGCX_P2P_TRANSFER_QUEUED t2 i) eqn:Eq.
    2: { exists t2. split_and!; try done. intros j Hj. destruct (decide (j = i)) as [->|]; [done|]. apply Hq2. lia. }
    apply in_state_lookup in Eq as (it & Hit & Hst).
    destruct (completeItem_sound p extra t2 i result Hs2) as (t3 & -> & Hs3 & Hm3 & Ht3 & Hst3); [| |done|].
    + by eapply lookup_lt_Some.
    + unfold in_state. rewrite Hit, Hst. done.
    + exists t3. split_and!; try done; [by etrans| | |].
      * rewrite Ht3, Ht2, Ht1. apply first_error_idem.
      * intros j Hj. rewrite Hst3. destruct (decide (j = i)); [done|]. apply Hq2. lia.
      * intros j. rewrite Hst3. destruct (decide (j = i)) as [->|]; [|done]. rewrite <- Hf2. unfold in_state.
        rewrite Hit, Hst. done.
  - split_and!; try done. intros j Hj. lia.
  - exists t'. unfold indices. split_and!; [done|done|by etrans|by rewrite Ht', Ht1|..].
    + intros j. destruct (decide (j < length (tr_items t1))%nat); [by apply Hq|].
      unfold in_state. rewrite lookup_ge_None_2; [done|]. rewrite (leads_length t1 t' (proj1 Hm')). lia.
    + intros j. rewrite Hf. unfold in_state. by rewrite Hi1.
Qed.

(** ** Progress *)

(** The work left: posting and completing a queued item, completing one in
    flight. *)
Definition item_weight (it : flagcxP2pTransferItem) : nat :=
  match it_state it with
  | FLAGCX_P2P_TRANSFER_QUEUED => 2
  | FLAGCX_P2P_TRANSFER_INFLIGHT => 1
  | FLAGCX_P2P_TRANSFER_COMPLETE => 0
  end.

Definition weight (t : flagcxP2pTransfer) : nat := sum_list (item_weight <$> tr_items t).

Lemma item_leads_weight it it' : item_leads it it' -> (item_weight it' <= item_weight it)%nat /\
  (it_state it' <> it_state it -> (item_weight it' < item_weight it)%nat).
Proof.
  intros (_ & _ & H). unfold item_weight. destruct (it_state it) eqn:E.
  - destruct (it_state it'); split; try lia; done.
  - destruct H as [->|[-> _]]; split; try lia; done.
  - rewrite H. split; [lia|done].
Qed.

Lemma leads_weight t t' : leads t t' -> (weight t' <= weight t)%nat.
Proof.
  unfold leads, weight. induction 1 as [|x y l k Hxy _ IH]; cbn; [lia|]. pose proof (proj1 (item_leads_weight _ _ Hxy)). cbn in IH. lia.
Qed.

(** Work was done when an item changed its state. *)
Lemma leads_weight_lt t t' st i :
  leads t t' -> in_state st t i = true -> in_state st t' i = false -> (weight t' < weight t)%nat.
Proof.
  unfold leads, weight, in_state. intros H. revert i.
  induction H as [|x y l k Hxy Hl IH]; intros [|i]; cbn; try done; intros H1 H2; bool_to_prop;
    destruct (item_leads_weight _ _ Hxy) as [Hle Hlt].
  - assert (sum_list (item_weight <$> k) <= sum_list (item_weight <$> l))%nat.
    { clear -Hl. induction Hl as [|x y l k Hxy _ IH]; cbn; [lia|]. pose proof (proj1 (item_leads_weight _ _ Hxy)). cbn in IH. lia. }
    assert (it_state y <> it_state x) by congruence. specialize (Hlt ltac:(done)). cbn in *. lia.
  - specialize (IH i H1 H2). cbn in IH. lia.
Qed.

Lemma weight_zero t : weight t = 0%nat <-> forall i, in_state FLAGCX_P2P_TRANSFER_QUEUED t i = false /\
  in_state FLAGCX_P2P_TRANSFER_INFLIGHT t i = false.
Proof.
  unfold weight, in_state. induction (tr_items t) as [|it l IH]; cbn; [split; [done|reflexivity]|]. split.
  - intros Hw. assert (Hl : sum_list (item_weight <$> l) = 0%nat) by (cbn in *; lia). intros [|i]; cbn; [|by apply IH].
    unfold item_weight in Hw. destruct (it_state it); try lia. done.
  - intros Hi. assert (Hl : sum_list (item_weight <$> l) = 0%nat) by (apply IH; intros i; exact (Hi (S i))).
    destruct (Hi 0%nat) as [H1 H2]. cbn in *. bool_to_prop. unfold item_weight. destruct (it_state it); done || lia.
Qed.
