(* ===== verification/P2pTransferProgress.v ===== *)
(** Progress of the transfers of the P2P engine over an arbitrary backend: no
    call of the engine fails, the status agrees with the items and with what
    the backend reported, and only a backend that stalls delays the end. *)
From S2P Require Import Prelude Flagcx Arrays NetTransport NetScoreboard P2pTransfer P2pTransferInv.

(** ** What a backend reports *)

(** The error a test reports, if any. *)
Definition reported_test (result : flagcxResult_t) (done : bool) : flagcxResult_t :=
  if bool_decide (result = flagcxInProgress) then (if done then flagcxInternalError else flagcxSuccess) else result.

(** The answer of [post] to [requested] operations is one of the convention. *)
Definition post_valid (requested : Z) (post : flagcxNetPostResult) : bool :=
  (po_requested post =? int_of_u32 requested) && (0 <=? po_accepted post) && (po_accepted post <=? int_of_u32 requested).

Definition reported_post (requested : Z) (callResult : flagcxResult_t) (post : flagcxNetPostResult) : flagcxResult_t :=
  if failed callResult then (if bool_decide (callResult = flagcxInProgress) then flagcxSuccess else callResult)
  else if negb (post_valid requested post) then flagcxInternalError
  else if bool_decide (po_result post = flagcxInProgress) then flagcxSuccess else po_result post.

(** The call neither took an operation nor reported an error. *)
Definition post_stalls (requested : Z) (callResult : flagcxResult_t) (post : flagcxNetPostResult) : bool :=
  negb (failed (reported_post requested callResult post)) && (failed callResult || (po_accepted post =? 0)).

(** A backend under observation: its state, the first error it reported, and
    the number of calls that achieved nothing. *)
Record watched (S : Type) := MkWatched {
  w_state : S;
  w_error : flagcxResult_t;
  w_stalls : nat
}.
Arguments MkWatched {S}.
Arguments w_state {S}.
Arguments w_error {S}.
Arguments w_stalls {S}.

Section Watched.
Context {S : Type}.
Context (test : S -> Z -> flagcxResult_t * bool * S).
Context (post : S -> list flagcxP2pTransferOp -> flagcxResult_t * list Z * flagcxNetPostResult * S).

Definition watch_test (w : watched S) (request : Z) : flagcxResult_t * bool * watched S :=
  let '(r, done, s) := test (w_state w) request in
  (r, done, MkWatched s (first_error (w_error w) (reported_test r done)) (w_stalls w + Nat.b2n (negb done))).

Definition watch_post (w : watched S) (ops : list flagcxP2pTransferOp) :
    flagcxResult_t * list Z * flagcxNetPostResult * watched S :=
  let '(r, requests, p, s) := post (w_state w) ops in
  (r, requests, p, MkWatched s (first_error (w_error w) (reported_post (Z.of_nat (length ops)) r p))
    (w_stalls w + Nat.b2n (post_stalls (Z.of_nat (length ops)) r p))).

(** A backend fills in the requests of the operations it takes. *)
Definition fills_requests : Prop := forall s ops r requests p s',
  post s ops = (r, requests, p, s') -> length requests = length ops.

(** ** Accepting operations *)

Definition accepted_item (t : flagcxP2pTransfer) (i : nat) (request : Z) (it : flagcxP2pTransferItem) :
    flagcxP2pTransfer :=
  set_submitted (tr_submitted t +u32 1)
    (set_items (<[i := set_it_state request FLAGCX_P2P_TRANSFER_INFLIGHT it]> (tr_items t)) t).

Lemma accepted_item_sound p extra t i it request :
  sound p extra t -> 0 < extra -> tr_items t !! i = Some it -> it_state it = FLAGCX_P2P_TRANSFER_QUEUED ->
  sound p (extra - 1) (accepted_item t i request it) /\ leads t (accepted_item t i request it).
Proof.
  intros (rs & a & I) He Hi Hst.
  set (it' := set_it_state request FLAGCX_P2P_TRANSFER_INFLIGHT it).
  assert (Hcnt : forall st, (cnt st (<[i := it']> (tr_items t)) + Nat.b2n (bool_decide (FLAGCX_P2P_TRANSFER_QUEUED = st)) =
    cnt st (tr_items t) + Nat.b2n (bool_decide (FLAGCX_P2P_TRANSFER_INFLIGHT = st)))%nat).
  { intros st. rewrite <- Hst. exact (cnt_insert st (tr_items t) i it it' Hi). }
  pose proof (Hcnt FLAGCX_P2P_TRANSFER_QUEUED) as Hq. pose proof (Hcnt FLAGCX_P2P_TRANSFER_INFLIGHT) as Hf.
  pose proof (Hcnt FLAGCX_P2P_TRANSFER_COMPLETE) as Hd. clear Hcnt. decide_states.
  split.
  2: { eapply leads_insert; [done|done|]. split_and!; try done. by rewrite Hst. }
  destruct I as [Jinit [Jc Jn] Jb Js Ji Jdom Jnx Jp Jr Jg Jq (Kc & Km & Ke & Ku & Kl) [Jd Jl] (Jsa & Jsb) Jres Jt].
  assert (Hx : forall j x, <[i := it']> (tr_items t) !! j = Some x ->
    exists y, tr_items t !! j = Some y /\ it_submit y = it_submit x /\
      (it_state y = FLAGCX_P2P_TRANSFER_COMPLETE <-> it_state x = FLAGCX_P2P_TRANSFER_COMPLETE)).
  { intros j x. destruct (decide (j = i)) as [->|Hne]; [|rewrite list_lookup_insert_ne by done; eauto].
    rewrite list_lookup_insert_eq by (by eapply lookup_lt_Some). intros [= <-]. exists it. rewrite Hst. done. }
  exists rs, a. constructor; cbn [tr_initialized tr_items tr_maxPostBatch tr_scoreboard tr_releaseGroup tr_credit tr_request
    tr_completed tr_submitted tr_terminalResult accepted_item set_submitted set_items]; fold it'; try done.
  - by rewrite length_insert.
  - intros j x (y & Hy & <- & _)%Hx. by apply Js.
  - intros j x (y & Hy & <- & Hc)%Hx Hc'. apply Jp; tauto.
  - intros j x (y & Hy & _ & Hc)%Hx Hc'. apply (Jr j y); tauto.
  - split_and!; try done; lia.
  - split; [rewrite Jd; lia|lia].
  - rewrite Z.mod_small by lia. lia.
Qed.

(** Only queued items change, and only those of [indices] leave the queue. *)
Lemma accept_items_sound p : forall indices k requests t extra,
  sound p extra t -> Z.of_nat (length indices) <= extra -> NoDup indices -> 0 <= k ->
  k + Z.of_nat (length indices) <= Z.of_nat (length requests) ->
  (forall i, i ∈ indices -> in_state FLAGCX_P2P_TRANSFER_QUEUED t i = true) ->
  exists t', accept_items indices k requests t = Some (flagcxSuccess, t') /\
    sound p (extra - Z.of_nat (length indices)) t' /\ leads t t' /\
    tr_terminalResult t' = tr_terminalResult t /\
    (forall i, i ∈ indices -> in_state FLAGCX_P2P_TRANSFER_QUEUED t' i = false).
Proof.
  induction indices as [|i indices IH]; intros k requests t extra Hs He Hnd Hk Hlen Hq; cbn [accept_items length] in *.
  { exists t. rewrite Z.sub_0_r. split_and!; try done. intros i Hi. by apply not_elem_of_nil in Hi. }
  apply NoDup_cons in Hnd as [Hni Hnd].
  assert (Hi : in_state FLAGCX_P2P_TRANSFER_QUEUED t i = true) by (apply Hq; left).
  apply in_state_lookup in Hi as (it & Hi & Hst). rewrite Hi. cbn [mbind option_bind].
  unfold arr_get at 1. rewrite (proj2 (Z.leb_le 0 k)) by done.
  destruct (lookup_lt_is_Some_2 requests (Z.to_nat k)) as [request Hreq]; [lia|]. rewrite Hreq. cbn [mbind option_bind].
  destruct (accepted_item_sound p extra t i it request Hs) as [Hs1 Hl1]; [lia|done|done|].
  change (set_submitted _ _) with (accepted_item t i request it). set (t1 := accepted_item t i request it) in *.
  assert (Hst1 : forall st j, in_state st t1 j = if decide (j = i) then bool_decide (FLAGCX_P2P_TRANSFER_INFLIGHT = st)
    else in_state st t j).
  { intros st j. by erewrite in_state_insert by (done || by eapply lookup_lt_Some). }
  assert (Hstep : exists t2, (if request =? NULL then completeItem t1 i flagcxSuccess else Some (flagcxSuccess, t1)) =
      Some (flagcxSuccess, t2) /\ sound p (extra - 1) t2 /\ leads t1 t2 /\ tr_terminalResult t2 = tr_terminalResult t1 /\
      (forall j, j <> i -> in_state FLAGCX_P2P_TRANSFER_QUEUED t2 j = in_state FLAGCX_P2P_TRANSFER_QUEUED t1 j) /\
      in_state FLAGCX_P2P_TRANSFER_QUEUED t2 i = false).
  { destruct (request =? NULL).
    - destruct (completeItem_sound p (extra - 1) t1 i flagcxSuccess Hs1) as (t2 & -> & Hs2 & (Hl2 & _) & Ht2 & Hst2);
        [|by rewrite Hst1, decide_True|done|].
      { rewrite (leads_length _ _ Hl1). by eapply lookup_lt_Some. }
      exists t2. split_and!; try done.
      + intros j Hj. by rewrite Hst2, decide_False.
      + by rewrite Hst2, decide_True.
    - exists t1. split_and!; try done. by rewrite Hst1, decide_True. }
  destruct Hstep as (t2 & -> & Hs2 & Hl2 & Ht2 & Hq2 & Hi2). cbn [then_ok mbind option_bind].
  change (failed flagcxSuccess) with false. cbn match.
  destruct (IH (k + 1) requests t2 (extra - 1) Hs2) as (t' & -> & Hs' & Hl' & Ht' & Hq'); [lia|done|lia|lia|..].
  { intros j Hj. assert (j <> i) by (intros ->; done). rewrite Hq2, Hst1, decide_False by done. apply Hq. by right. }
  exists t'. replace (extra - Z.of_nat (Datatypes.S (length indices))) with (extra - 1 - Z.of_nat (length indices)) by lia.
  assert (Hl02 : leads t t') by (etrans; [exact Hl1|etrans; [exact Hl2|exact Hl']]).
  split_and!; [done|done|done|by rewrite Ht', Ht2|].
  intros j [->|Hj]%elem_of_cons; [|by apply Hq'].
  destruct (in_state FLAGCX_P2P_TRANSFER_QUEUED t' i) eqn:E; [|done]. exfalso.
  apply in_state_lookup in E as (x & Hx & Hxs).
  assert (H2 : exists y, tr_items t2 !! i = Some y).
  { apply lookup_lt_is_Some. rewrite <- (leads_length _ _ Hl'). by eapply lookup_lt_Some. }
  destruct H2 as [y Hy]. destruct (Forall2_lookup_lr _ _ _ _ _ _ Hl' Hy Hx) as (_ & _ & Hw).
  unfold in_state in Hi2. rewrite Hy in Hi2. bool_to_prop. destruct (it_state y); [done| |]; naive_solver congruence.
Qed.

(** Taking credits out and giving them back. *)
Lemma set_credit_sound p extra extra' t :
  sound p extra t -> 0 <= extra' -> cr_inUse (tr_credit t) - extra + extra' <= cr_capacity (tr_credit t) ->
  sound p extra' (set_credit (MkCredit (cr_capacity (tr_credit t)) (cr_inUse (tr_credit t) - extra + extra')) t).
Proof.
  intros (rs & a & I) He Hle. exists rs, a.
  destruct I as [Jinit [Jc Jn] Jb Js Ji Jdom Jnx Jp Jr Jg Jq (Kc & Km & Ke & Ku & Kl) Jd Jsub Jres Jt].
  constructor; try done. cbn [cr_capacity cr_inUse tr_credit tr_items set_credit]. split_and!; try done; lia.
Qed.

Lemma release_sound p extra t n :
  sound p extra t -> 0 < n <= extra ->
  exists t', on_credit t (fun c => flagcxTransportCreditRelease c n) = Some (flagcxSuccess, t') /\
    sound p (extra - n) t' /\ tr_items t' = tr_items t /\ tr_terminalResult t' = tr_terminalResult t.
Proof.
  intros Hs Hn. pose proof Hs as (rs & a & I). destruct (ti_credit _ _ _ _ _ I) as (Kc & Km & Ke & Ku & Kl).
  unfold on_credit, flagcxTransportCreditRelease, flagcxNetCreditRelease.
  rewrite (proj2 (Z.eqb_neq n 0)), (proj2 (Z.eqb_neq (cr_capacity _) 0)), (proj2 (Z.ltb_ge _ _)) by lia.
  cbn [orb mbind option_bind]. rewrite Z.mod_small by lia. eexists. split; [done|]. split; [|done].
  replace (cr_inUse (tr_credit t) - n) with (cr_inUse (tr_credit t) - extra + (extra - n)) by lia.
  apply set_credit_sound; [done|lia|lia].
Qed.

Lemma acquire_sound p t n :
  sound p 0 t -> 0 < n <= cr_capacity (tr_credit t) - cr_inUse (tr_credit t) ->
  exists t', on_credit t (fun c => flagcxTransportCreditAcquire c n) = Some (flagcxSuccess, t') /\
    sound p n t' /\ tr_items t' = tr_items t /\ tr_terminalResult t' = tr_terminalResult t.
Proof.
  intros Hs Hn. pose proof Hs as (rs & a & I). destruct (ti_credit _ _ _ _ _ I) as (Kc & Km & Ke & Ku & Kl).
  unfold on_credit, flagcxTransportCreditAcquire, flagcxNetCreditAcquire.
  rewrite (proj2 (Z.eqb_neq n 0)), (proj2 (Z.eqb_neq (cr_capacity _) 0)), (proj2 (Z.ltb_ge (cr_capacity _) n)),
    (proj2 (Z.ltb_ge (cr_capacity _) (cr_inUse _))) by lia. cbn [orb].
  rewrite (Z.mod_small (_ - _)), (proj2 (Z.ltb_ge (_ - _) n)) by lia.
  cbn [mbind option_bind]. rewrite Z.mod_small by lia. eexists. split; [done|]. split; [|done].
  replace (cr_inUse (tr_credit t) + n) with (cr_inUse (tr_credit t) - 0 + n) by lia.
  apply set_credit_sound; [done|lia|lia].
Qed.

(** ** Posting *)

(** An error leaves no item queued. *)
Definition settled (t : flagcxP2pTransfer) : Prop :=
  failed (tr_terminalResult t) = true -> forall i, in_state FLAGCX_P2P_TRANSFER_QUEUED t i = false.

Lemma in_state_items t t' st i : tr_items t' = tr_items t -> in_state st t' i = in_state st t i.
Proof. unfold in_state. by intros ->. Qed.

Lemma leads_items t t' t'' : tr_items t' = tr_items t -> leads t' t'' -> leads t t''.
Proof. unfold leads. by intros ->. Qed.

Lemma failQueued_settled p extra t result :
  sound p extra t -> failed result = true -> result <> flagcxInProgress ->
  exists t', failQueued t result = Some (flagcxSuccess, t') /\ sound p extra t' /\ leads t t' /\
    (forall i, in_state FLAGCX_P2P_TRANSFER_QUEUED t' i = false) /\
    tr_terminalResult t' = first_error (tr_terminalResult t) result.
Proof.
  intros Hs _ Hr. destruct (failQueued_sound p extra t result Hs Hr) as (t' & Hrun & Hs' & (Hl & _) & Ht & Hq & _).
  by exists t'.
Qed.

Lemma int_of_u32_le n : 0 <= n -> int_of_u32 n <= n.
Proof. unfold int_of_u32. intros. destruct (_ <? _); lia. Qed.

(** The outcome of a post: the transfer is sound and settled, its result is the
    first error reported, and either an item left the queue or the call
    achieved nothing. *)
Lemma after_post_sound p t indices r requests pr :
  let n := Z.of_nat (length indices) in
  sound p n t -> 0 < n < U32_MOD -> tr_terminalResult t = flagcxSuccess -> NoDup indices ->
  (forall i, i ∈ indices -> in_state FLAGCX_P2P_TRANSFER_QUEUED t i = true) -> length requests = length indices ->
  exists t', after_post t indices n r requests pr = Some (flagcxSuccess, t') /\ sound p 0 t' /\ leads t t' /\
    settled t' /\ tr_terminalResult t' = reported_post n r pr /\
    (post_stalls n r pr = false -> exists i, i ∈ indices /\ in_state FLAGCX_P2P_TRANSFER_QUEUED t' i = false).
Proof.
  intros n Hs Hn Ht Hnd Hq Hlen.
  destruct (release_sound p n t n Hs) as (t0 & Hg & Hs0 & Hi0 & Ht0); [lia|]. rewrite Z.sub_diag in Hs0.
  assert (Hgb : give_back t n = Some t0) by (unfold give_back; by rewrite Hg).
  assert (Hin : exists i, i ∈ indices).
  { destruct indices as [|i indices']; [cbn in n; lia|]. exists i. left. }
  destruct Hin as [i0 Hi0'].
  assert (Hfe : forall e, first_error flagcxSuccess e = e) by (intros e; unfold first_error; by destruct e).
  assert (Hfail : forall e, failed e = true -> e <> flagcxInProgress -> exists t',
    failQueued t0 e = Some (flagcxSuccess, t') /\ sound p 0 t' /\ leads t t' /\ settled t' /\ tr_terminalResult t' = e /\
    exists i, i ∈ indices /\ in_state FLAGCX_P2P_TRANSFER_QUEUED t' i = false).
  { intros e He1 He2. destruct (failQueued_settled p 0 t0 e Hs0 He1 He2) as (t' & Hrun & Hs' & Hl' & Hq' & Ht').
    exists t'. split_and!; try done; [by eapply leads_items|by intros _|by rewrite Ht', Ht0, Ht, Hfe|by exists i0]. }
  unfold after_post, post_stalls, reported_post. destruct (failed r) eqn:Er.
  - rewrite Hgb. cbn [mbind option_bind]. case_bool_decide as Hr.
    + exists t0. split_and!; try done; [by eapply leads_items|intros Hf; by rewrite Ht0, Ht in Hf|by rewrite Ht0].
    + destruct (Hfail r Er Hr) as (t' & Hrun & Hs' & Hl' & Hset & Ht' & Hx). by exists t'.
  - assert (Hv : negb (po_requested pr =? int_of_u32 n) || (po_accepted pr <? 0) || (int_of_u32 n <? po_accepted pr) =
      negb (post_valid n pr)).
    { unfold post_valid. rewrite !negb_andb, Z.leb_antisym, (Z.leb_antisym (int_of_u32 n)), !negb_involutive. done. }
    rewrite Hv. destruct (post_valid n pr) eqn:Ev; cbn [negb].
    2: { rewrite Hgb. cbn [mbind option_bind].
      destruct (Hfail flagcxInternalError) as (t' & Hrun & Hs' & Hl' & Hset & Ht' & Hx); [done..|]. by exists t'. }
    unfold post_valid in Ev. bool_to_prop. pose proof (int_of_u32_le n). set (acc := po_accepted pr) in *.
    assert (Hacc : 0 <= acc <= n) by lia.
    assert (Hrel : exists t1, (if acc <? n then on_credit t (fun c => flagcxTransportCreditRelease c (n - acc))
        else Some (flagcxSuccess, t)) = Some (flagcxSuccess, t1) /\ sound p acc t1 /\ tr_items t1 = tr_items t /\
        tr_terminalResult t1 = tr_terminalResult t).
    { destruct (Z.ltb_spec acc n) as [Hlt|Hge].
      - destruct (release_sound p n t (n - acc) Hs) as (t1 & G1 & G2 & G3 & G4); [lia|]. exists t1.
        replace (n - (n - acc)) with acc in G2 by lia. done.
      - exists t. replace acc with n by lia. done. }
    destruct Hrel as (t1 & -> & Hs1 & Hi1 & Ht1). cbn [then_ok mbind option_bind]. change (failed flagcxSuccess) with false.
    cbn match.
    assert (Htk : Z.of_nat (length (take (Z.to_nat acc) indices)) = acc) by (rewrite length_take; lia).
    destruct (accept_items_sound p (take (Z.to_nat acc) indices) 0 requests t1 acc Hs1) as (t2 & -> & Hs2 & Hl2 & Ht2 & Hq2);
      [lia|by eapply sublist_NoDup; [done|apply sublist_take]|lia|lia| |].
    { intros i Hi. rewrite (in_state_items _ _ _ _ Hi1). apply Hq. by apply elem_of_take in Hi as (? & ?%list_elem_of_lookup_2 & _). }
    rewrite Htk, Z.sub_diag in Hs2. cbn [then_ok mbind option_bind]. change (failed flagcxSuccess) with false. cbn match.
    assert (Hl02 : leads t t2) by (by eapply leads_items).
    assert (Hsome : acc <> 0 -> exists i, i ∈ indices /\ i ∈ take (Z.to_nat acc) indices).
    { intros Hz. destruct indices as [|i l]; [cbn in n; lia|]. exists i. split; [left|].
      destruct (Z.to_nat acc) eqn:E; [lia|]. left. }
    destruct (failed (po_result pr) && negb (bool_decide (po_result pr = flagcxInProgress))) eqn:Ef; bool_to_prop.
    + destruct (failQueued_settled p 0 t2 (po_result pr) Hs2) as (t' & Hrun & Hs' & Hl' & Hq' & Ht'); [done|done|].
      exists t'. rewrite (bool_decide_eq_false_2 (po_result pr = _)) by done.
      split_and!; try done; [by etrans|by intros _|by rewrite Ht', Ht2, Ht1, Ht, Hfe|by exists i0].
    + assert (Hz : (if bool_decide (po_result pr = flagcxInProgress) then flagcxSuccess else po_result pr) = flagcxSuccess).
      { case_bool_decide; [done|]. destruct Ef as [Ef|Ef]; [by apply failed_false|done]. }
      rewrite Hz. exists t2. split_and!; try done.
      * intros Hf. by rewrite Ht2, Ht1, Ht in Hf.
      * by rewrite Ht2, Ht1.
      * change (failed flagcxSuccess) with false. cbn [negb orb andb]. intros Hac%Z.eqb_neq. destruct (Hsome Hac) as (i & Hi & Hi2). exists i. auto.
Qed.

Lemma in_state_lt st t i : in_state st t i = true -> (i < length (tr_items t))%nat.
Proof. intros (it & Hi & _)%in_state_lookup. by eapply lookup_lt_Some. Qed.

Lemma queued_indices_spec t limit :
  NoDup (queued_indices t limit) /\ (length (queued_indices t limit) <= Z.to_nat limit)%nat /\
  (forall i, i ∈ queued_indices t limit -> in_state FLAGCX_P2P_TRANSFER_QUEUED t i = true) /\
  (forall i, in_state FLAGCX_P2P_TRANSFER_QUEUED t i = true -> 0 < limit -> queued_indices t limit <> []).
Proof.
  unfold queued_indices, indices. split_and!.
  - eapply sublist_NoDup; [|apply sublist_take]. apply NoDup_filter, NoDup_seq.
  - rewrite length_take. lia.
  - intros i Hi. apply elem_of_take in Hi as (j & Hj%list_elem_of_lookup_2 & _). by apply list_elem_of_filter in Hj as [? _].
  - intros i Hi Hl. assert (Hin : i ∈ filter (fun i => in_state FLAGCX_P2P_TRANSFER_QUEUED t i = true)
      (seq 0 (length (tr_items t)))).
    { apply list_elem_of_filter. split; [done|]. apply elem_of_seq. pose proof (in_state_lt _ _ _ Hi). lia. }
    destruct (filter _ _) as [|j l]; [by apply not_elem_of_nil in Hin|].
    destruct (Z.to_nat limit) eqn:E; [lia|]. done.
Qed.

Lemma ops_of_length t idx :
  (forall i, i ∈ idx -> (i < length (tr_items t))%nat) -> exists ops, ops_of t idx = Some ops /\ length ops = length idx.
Proof.
  intros Hi. destruct (ops_of t idx) as [ops|] eqn:E.
  - exists ops. split; [done|]. symmetry. by eapply length_mapM.
  - exfalso. apply mapM_None_1, Exists_exists in E as (i & Hin & He).
    destruct (lookup_lt_is_Some_2 (tr_items t) i) as [it Hit]; [by apply Hi|]. by rewrite Hit in He.
Qed.

(** What a progressing step establishes of the transfer and the backend. *)
Definition step_ok (p : transfer_params) (t t' : flagcxP2pTransfer) (w w' : watched S) : Prop :=
  sound p 0 t' /\ settled t' /\ tr_terminalResult t' = w_error w' /\ leads t t' /\ (w_stalls w <= w_stalls w')%nat.

Lemma postQueued_sound p t w :
  fills_requests -> sound p 0 t -> settled t -> tr_terminalResult t = w_error w ->
  exists t' w', postQueued watch_post t w = Some (flagcxSuccess, (t', w')) /\ step_ok p t t' w w' /\
    ((exists i, in_state FLAGCX_P2P_TRANSFER_QUEUED t i = true) ->
     (forall i, in_state FLAGCX_P2P_TRANSFER_INFLIGHT t i = false) ->
     (weight t' < weight t \/ w_stalls w < w_stalls w')%nat).
Proof.
  intros Hfill Hs Hset Hterm. unfold postQueued.
  assert (Hsame : step_ok p t t w w) by (split_and!; [done|done|done|reflexivity|lia]).
  destruct (failed (tr_terminalResult t)) eqn:Ef.
  { exists t, w. split; [done|]. split; [done|]. intros [i Hi]. by rewrite Hset in Hi. }
  pose proof Hs as (rs & a & I). destruct (ti_credit _ _ _ _ _ I) as (Kc & Km & Ke & Ku & Kl).
  unfold flagcxTransportCreditAvailable, flagcxNetCreditAvailable.
  rewrite (proj2 (Z.eqb_neq (cr_capacity _) 0)), (proj2 (Z.ltb_ge _ _)) by lia. cbn [negb orb default from_option]. unfold id.
  rewrite Z.mod_small by lia. change (failed flagcxSuccess) with false. cbn [orb].
  set (avail := cr_capacity (tr_credit t) - cr_inUse (tr_credit t)).
  destruct (Z.eqb_spec avail 0) as [Hz|Hz].
  { exists t, w. split; [done|]. split; [done|]. intros _ Hnone. exfalso.
    enough (cnt FLAGCX_P2P_TRANSFER_INFLIGHT (tr_items t) = 0%nat) by lia.
    unfold cnt. apply length_zero_iff_nil. apply elem_of_nil_inv.
    intros x [Hx Hin]%list_elem_of_filter. apply list_elem_of_lookup in Hin as [i Hi].
    specialize (Hnone i). unfold in_state in Hnone. rewrite Hi in Hnone. by apply bool_decide_eq_false in Hnone. }
  pose proof (ti_batch _ _ _ _ _ I) as Hbatch.
  set (limit := Z.min avail (tr_maxPostBatch t)).
  destruct (queued_indices_spec t limit) as (Hnd & Hll & Hq & Hne). set (idx := queued_indices t limit) in *.
  case_bool_decide as Hidx.
  { exists t, w. split; [done|]. split; [done|]. intros [i Hi] _. exfalso. apply length_zero_iff_nil in Hidx. by apply (Hne i Hi); [lia|]. }
  set (n := Z.of_nat (length idx)). assert (Hn : 0 < n <= avail) by lia. rewrite (Z.mod_small n) by lia.
  destruct (acquire_sound p t n Hs) as (t1 & -> & Hs1 & Hi1 & Ht1); [lia|]. cbn [mbind option_bind].
  change (failed flagcxSuccess) with false. cbn match.
  assert (Hq1 : forall i, i ∈ idx -> in_state FLAGCX_P2P_TRANSFER_QUEUED t1 i = true).
  { intros i Hi. rewrite (in_state_items _ _ _ _ Hi1). by apply Hq. }
  destruct (ops_of_length t1 idx) as (ops & -> & Hlen); [intros i Hi; by eapply in_state_lt, Hq1|]. cbn [mbind option_bind].
  unfold watch_post. destruct (post (w_state w) ops) as [[[r requests] pr] s'] eqn:Epost.
  destruct (after_post_sound p t1 idx r requests pr Hs1) as (t' & Hrun & Hs' & Hl' & Hset' & Ht' & Hx);
    [fold n; lia|by rewrite Ht1; apply failed_false|done|done|rewrite (Hfill _ _ _ _ _ _ Epost); done|].
  fold n in Hrun, Ht', Hx. rewrite Hlen. fold n. rewrite Hrun. cbn [mbind option_bind].
  do 2 eexists. split; [done|]. assert (Hl : leads t t') by (by eapply leads_items).
  split.
  - split_and!; try done; [|cbn; lia]. rewrite Ht'. cbn [w_error].
    rewrite <- Hterm. unfold first_error. rewrite Ef. destruct (reported_post n r pr); try done. by apply failed_false in Ef.
  - intros _ _. cbn [w_stalls]. destruct (post_stalls n r pr) eqn:Est; cbn [Nat.b2n]; [right; lia|left].
    destruct Hx as (i & Hi & Hi'); [done|]. eapply leads_weight_lt; [done| |done]. by apply Hq.
Qed.

Lemma step_ok_trans p t1 t2 t3 w1 w2 w3 : step_ok p t1 t2 w1 w2 -> step_ok p t2 t3 w2 w3 -> step_ok p t1 t3 w1 w3.
Proof.
  intros (_ & _ & _ & Hl1 & Hw1) (H1 & H2 & H3 & Hl2 & Hw2). unfold step_ok. split_and!; try done; [by etrans|lia].
Qed.

(** ** Polling *)

Lemma completeItem_inflight p t i result :
  sound p 0 t -> settled t -> in_state FLAGCX_P2P_TRANSFER_INFLIGHT t i = true -> result <> flagcxInProgress ->
  exists t', completeItem t i result = Some (flagcxSuccess, t') /\ sound p 0 t' /\ moves t t' /\
    tr_terminalResult t' = first_error (tr_terminalResult t) result /\ (weight t' < weight t)%nat /\
    (forall j, j <> i -> in_state FLAGCX_P2P_TRANSFER_INFLIGHT t' j = in_state FLAGCX_P2P_TRANSFER_INFLIGHT t j) /\
    (failed result = false -> settled t').
Proof.
  intros Hs Hset Hi Hr. pose proof Hi as (it & Hit & Hst)%in_state_lookup.
  destruct (completeItem_sound p 0 t i result Hs) as (t' & Hrun & Hs' & Hm & Ht & Hst');
    [by eapply in_state_lt|unfold in_state; rewrite Hit, Hst; done|done|].
  exists t'. split_and!; try done; try apply Hm.
  - apply (leads_weight_lt t t' FLAGCX_P2P_TRANSFER_INFLIGHT i); [apply Hm|done|]. by rewrite Hst', decide_True.
  - intros j Hj. by rewrite Hst', decide_False.
  - intros Hok Hf j. rewrite Hst'. destruct (decide (j = i)); [done|]. apply Hset.
    rewrite Ht, first_error_success, Hok, orb_false_r in Hf. done.
Qed.

Lemma poll_item_sound p t w i :
  sound p 0 t -> settled t -> tr_terminalResult t = w_error w -> (i < length (tr_items t))%nat ->
  exists t' w', poll_item watch_test i (t, w) = Some (flagcxSuccess, (t', w')) /\ step_ok p t t' w w' /\
    posts_none t t' /\
    (forall j, j <> i -> in_state FLAGCX_P2P_TRANSFER_INFLIGHT t' j = in_state FLAGCX_P2P_TRANSFER_INFLIGHT t j) /\
    (in_state FLAGCX_P2P_TRANSFER_INFLIGHT t i = true -> (weight t' < weight t \/ w_stalls w < w_stalls w')%nat).
Proof.
  intros Hs Hset Hterm [it Hit]%lookup_lt_is_Some. unfold poll_item. rewrite Hit. case_bool_decide as Hst; cbn [negb].
  2: { exists t, w. split; [done|]. split; [split_and!; [done|done|done|reflexivity|lia]|]. split_and!; try done.
    unfold in_state. rewrite Hit. intros ?%bool_decide_eq_true. done. }
  assert (Hi : in_state FLAGCX_P2P_TRANSFER_INFLIGHT t i = true) by (apply in_state_lookup; eauto).
  unfold watch_test. destruct (test (w_state w) (it_request it)) as [[r done] s].
  set (w' := MkWatched s _ _).
  assert (Hsl : (w_stalls w <= w_stalls w')%nat) by (cbn; lia).
  destruct done; cbn [negb].
  - set (r' := if bool_decide (r = flagcxInProgress) then flagcxInternalError else r).
    assert (Hr' : r' <> flagcxInProgress) by (unfold r'; by case_bool_decide).
    assert (He : w_error w' = first_error (tr_terminalResult t) r') by (cbn; by rewrite Hterm).
    destruct (completeItem_inflight p t i r' Hs Hset Hi Hr') as (t1 & Hrun & Hs1 & Hm1 & Ht1 & Hw1 & Hf1 & Hset1).
    destruct (failed r') eqn:Ef.
    + rewrite Hrun. cbn [then_ok mbind option_bind]. change (failed flagcxSuccess) with false. cbn match.
      destruct (failQueued_sound p 0 t1 r' Hs1 Hr') as (t2 & -> & Hs2 & Hm2 & Ht2 & Hq2 & Hf2). cbn [mbind option_bind].
      assert (Hm : moves t t2) by (by etrans). exists t2, w'. split; [done|]. split.
      { split_and!; [done|by intros _| |apply Hm|done]. by rewrite Ht2, Ht1, first_error_idem, He. }
      split_and!; [apply Hm| |].
      * intros j Hj. by rewrite Hf2, Hf1.
      * intros _. left. pose proof (leads_weight _ _ (proj1 Hm2)). lia.
    + assert (Hr1 : r' = flagcxSuccess) by (by apply failed_false). rewrite Hr1 in Hrun. rewrite Hrun.
      cbn [mbind option_bind]. exists t1, w'. split; [done|].
      split; [split_and!; [done|by apply Hset1|by rewrite Ht1, He|apply Hm1|done]|].
      split_and!; [apply Hm1|done|by left].
  - assert (Hstall : (w_stalls w < w_stalls w')%nat) by (cbn; lia).
    destruct (failed r && negb (bool_decide (r = flagcxInProgress))) eqn:Ef; bool_to_prop.
    + destruct (recordTerminal_sound p 0 t r Hs) as (Hs1 & Hm1 & Ht1 & Hi1); [done|].
      destruct (failQueued_sound p 0 (recordTerminal t r) r Hs1) as (t2 & -> & Hs2 & Hm2 & Ht2 & Hq2 & Hf2); [done|].
      cbn [mbind option_bind]. assert (Hm : moves t t2) by (by etrans). exists t2, w'. split; [done|]. split.
      { split_and!; [done|by intros _| |apply Hm|done]. rewrite Ht2, Ht1, first_error_idem. cbn. rewrite <- Hterm.
        unfold reported_test. by rewrite bool_decide_false. }
      split_and!; [apply Hm| |by right]. intros j Hj. rewrite Hf2. by apply in_state_items.
    + exists t, w'. split; [done|].
      split; [|split_and!; [reflexivity|done|by right]].
      split_and!; [done|done| |reflexivity|done]. cbn. rewrite <- Hterm.
      assert (reported_test r false = flagcxSuccess) as ->; [|by unfold first_error].
      unfold reported_test. case_bool_decide; [done|]. destruct Ef as [Ef|Ef]; [by apply failed_false|done].
Qed.

Lemma pollInflight_sound p t w :
  sound p 0 t -> settled t -> tr_terminalResult t = w_error w ->
  exists t' w', pollInflight watch_test t w = Some (flagcxSuccess, (t', w')) /\ step_ok p t t' w w' /\ posts_none t t' /\
    ((exists i, in_state FLAGCX_P2P_TRANSFER_INFLIGHT t i = true) -> (weight t' < weight t \/ w_stalls w < w_stalls w')%nat).
Proof.
  intros Hs Hset Hterm. unfold pollInflight, indices.
  destruct (for_ok_seq (fun k (s : flagcxP2pTransfer * watched S) => step_ok p t s.1 w s.2 /\ posts_none t s.1 /\
      (forall j, (k <= j)%nat -> in_state FLAGCX_P2P_TRANSFER_INFLIGHT s.1 j = in_state FLAGCX_P2P_TRANSFER_INFLIGHT t j) /\
      ((exists j, (j < k)%nat /\ in_state FLAGCX_P2P_TRANSFER_INFLIGHT t j = true) ->
        (weight s.1 < weight t \/ w_stalls w < w_stalls s.2)%nat))
    (poll_item watch_test) (length (tr_items t)) 0 (t, w)) as ([t' w'] & Hrun & Hok & Hp & _ & Hwt).
  - intros i [t1 w1] Hi (Hok1 & Hp1 & Hf1 & Hw1). cbn [fst snd] in *. pose proof Hok1 as (Hs1 & Hset1 & Ht1 & Hl1 & Hst1).
    destruct (poll_item_sound p t1 w1 i Hs1 Hset1 Ht1) as (t2 & w2 & -> & Hok2 & Hp2 & Hf2 & Hw2).
    { rewrite (leads_length _ _ Hl1). lia. }
    exists (t2, w2). split; [done|]. cbn [fst snd]. split; [by eapply step_ok_trans|]. split; [by etrans|]. split.
    + intros j Hj. rewrite Hf2 by lia. apply Hf1. lia.
    + destruct Hok2 as (_ & _ & _ & Hl2 & Hst2). pose proof (leads_weight _ _ Hl2). pose proof (leads_weight _ _ Hl1).
      intros (j & Hj & Hin). destruct (decide (j = i)) as [->|].
      * rewrite <- Hf1 in Hin by lia. destruct (Hw2 Hin); [left|right]; lia.
      * destruct Hw1 as [?|?]; [exists j; split; [lia|done]|left; lia|right; lia].
  - cbn [fst snd]. split; [split_and!; [done|done|done|reflexivity|lia]|]. split; [reflexivity|]. split; [done|].
    intros (j & Hj & _). lia.
  - cbn [fst snd] in *. exists t', w'. split; [done|]. split; [done|]. split; [done|]. intros [i Hi]. apply Hwt.
    exists i. split; [by eapply in_state_lt|done].
Qed.

Lemma some_in_state st t : (exists i, in_state st t i = true) \/ forall i, in_state st t i = false.
Proof.
  destruct (decide (Exists (fun it => it_state it = st) (tr_items t))) as [He|He].
  - left. apply Exists_exists in He as (it & [i Hi]%list_elem_of_lookup & Hst). exists i. apply in_state_lookup. eauto.
  - right. intros i. destruct (in_state st t i) eqn:E; [|done]. exfalso. apply He.
    apply in_state_lookup in E as (it & Hi & Hst). apply Exists_exists. exists it. split; [by eapply list_elem_of_lookup_2|done].
Qed.

(** One round of polling and posting. *)
Lemma round_sound p t w :
  fills_requests -> sound p 0 t -> settled t -> tr_terminalResult t = w_error w ->
  exists t' w', (check! ts := pollInflight watch_test t w in postQueued watch_post ts.1 ts.2) =
      Some (flagcxSuccess, (t', w')) /\ step_ok p t t' w w' /\
    (weight t <> 0%nat -> (weight t' < weight t \/ w_stalls w < w_stalls w')%nat).
Proof.
  intros Hfill Hs Hset Hterm.
  destruct (pollInflight_sound p t w Hs Hset Hterm) as (t1 & w1 & -> & Hok1 & Hp1 & Hw1).
  cbn [then_ok mbind option_bind]. change (failed flagcxSuccess) with false. cbn [fst snd].
  pose proof Hok1 as (Hs1 & Hset1 & Ht1 & Hl1 & Hst1).
  destruct (postQueued_sound p t1 w1 Hfill Hs1 Hset1 Ht1) as (t2 & w2 & -> & Hok2 & Hw2).
  exists t2, w2. split; [done|]. split; [by eapply step_ok_trans|]. intros Hz.
  pose proof Hok2 as (_ & _ & _ & Hl2 & Hst2). pose proof (leads_weight _ _ Hl1). pose proof (leads_weight _ _ Hl2).
  destruct (some_in_state FLAGCX_P2P_TRANSFER_INFLIGHT t) as [Hi|Hno];
    [destruct Hw1 as [?|?]; [done|left; lia|right; lia]|].
  destruct (some_in_state FLAGCX_P2P_TRANSFER_QUEUED t) as [[i Hi]|Hnq].
  - destruct (in_state FLAGCX_P2P_TRANSFER_QUEUED t1 i) eqn:E.
    + destruct Hw2 as [?|?]; [by exists i| |left; lia|right; lia].
      intros j. destruct (in_state FLAGCX_P2P_TRANSFER_INFLIGHT t1 j) eqn:E'; [|done]. specialize (Hp1 j E'). by rewrite Hno in Hp1.
    + left. pose proof (leads_weight_lt t t1 _ i Hl1 Hi E). lia.
  - exfalso. by apply Hz, weight_zero.
Qed.

End Watched.
