(* ===== verification/P2pTransferStatus.v ===== *)
(** What a transfer of the P2P engine promises: from its initialisation on, its
    status agrees with its items, its result is the first error the backend
    reported, and it ends unless the backend stalls. *)
From S2P Require Import Prelude Flagcx Arrays NetTransport NetScoreboard P2pTransfer P2pTransferInv P2pTransferProgress.

(** ** The status *)

(** The status of a transfer with these items, this many of them in flight at
    most, and this result. *)
Record status_ok (items : list flagcxP2pTransferItem) (maxInFlight : Z) (result : flagcxResult_t)
    (st : flagcxP2pTransferStatus) : Prop := {
  so_requested : ts_requested st = Z.of_nat (length items);
  so_completed : ts_completed st = Z.of_nat (cnt FLAGCX_P2P_TRANSFER_COMPLETE items);
  so_inFlight : ts_inFlight st = Z.of_nat (cnt FLAGCX_P2P_TRANSFER_INFLIGHT items) /\ ts_inFlight st <= maxInFlight;
  so_submitted : Z.of_nat (cnt FLAGCX_P2P_TRANSFER_INFLIGHT items) <= ts_submitted st /\
    ts_submitted st + Z.of_nat (cnt FLAGCX_P2P_TRANSFER_QUEUED items) <= ts_requested st;
  so_retired : 0 <= ts_retired st <= ts_requested st /\ forall i it, items !! i = Some it ->
    (Z.of_nat i < ts_retired st -> it_state it = FLAGCX_P2P_TRANSFER_COMPLETE) /\
    (Z.of_nat i = ts_retired st -> it_state it <> FLAGCX_P2P_TRANSFER_COMPLETE);
  so_pending : ts_pending st = ts_requested st - ts_retired st;
  so_done : ts_done st = true <-> Forall (fun it => it_state it = FLAGCX_P2P_TRANSFER_COMPLETE) items;
  so_result : ts_result st = result;
  so_release : ts_releaseAllowed st = ts_done st && negb (failed result)
}.

Lemma cnt_all_iff st items : cnt st items = length items <-> Forall (fun it => it_state it = st) items.
Proof.
  split; [apply cnt_all|]. unfold cnt. induction 1 as [|it l Hit _ IH]; [done|].
  rewrite filter_cons_True by done. cbn. by f_equal.
Qed.

Section Query.
Context (p : transfer_params) (t : flagcxP2pTransfer) (rs : list flagcxResult_t) (a : abs_board).
Hypothesis I : transfer_inv p 0 t rs a.

(** Items before the first one not retired are complete, that one is not. *)
Lemma retired_items i it :
  tr_items t !! i = Some it ->
  (Z.of_nat i < ab_next a -> it_state it = FLAGCX_P2P_TRANSFER_COMPLETE) /\
  (Z.of_nat i = ab_next a -> it_state it <> FLAGCX_P2P_TRANSFER_COMPLETE).
Proof.
  intros Hi. destruct (ti_board _ _ _ _ _ I) as (Im & _). split; intros Hn.
  - destruct (decide (it_state it = FLAGCX_P2P_TRANSFER_COMPLETE)) as [|Hst]; [done|]. exfalso.
    pose proof (ti_pending _ _ _ _ _ I _ _ Hi Hst) as Hl. pose proof (implements_live_ge _ _ Im _ _ Hl). lia.
  - intros Hst. pose proof (ti_retired _ _ _ _ _ I _ _ Hi Hst) as Hr. rewrite Hn in Hr.
    destruct Im as ((es & He & T & Hhd) & _ & _ & Hnx & _). rewrite Hnx in Hhd.
    destruct (ab_live a !! ab_next a) as [l|] eqn:Hl; [|lia]. rewrite (Hhd l eq_refl) in Hr. by destruct Hr.
Qed.

(** The scoreboard tracks the items that are not retired. *)
Lemma live_size : Z.of_nat (size (ab_live a)) = pa_count p - ab_next a.
Proof.
  destruct (ti_board _ _ _ _ _ I) as (Im & _). pose proof (ti_next _ _ _ _ _ I) as Hnx.
  destruct (ti_count _ _ _ _ _ I) as [_ Hlen].
  assert (Hd : (dom (ab_live a) : gset Z) = list_to_set (seqZ (ab_next a) (pa_count p - ab_next a))).
  { apply set_eq. intros s. rewrite elem_of_dom, elem_of_list_to_set, elem_of_seqZ. split.
    - intros [l Hl]. pose proof (implements_live_ge _ _ Im _ _ Hl). destruct (ti_dom _ _ _ _ _ I _ _ Hl). lia.
    - intros Hs. destruct (lookup_lt_is_Some_2 (tr_items t) (Z.to_nat s)) as [it Hit]; [lia|].
      destruct (decide (it_state it = FLAGCX_P2P_TRANSFER_COMPLETE)) as [Hst|Hst].
      + pose proof (ti_retired _ _ _ _ _ I _ _ Hit Hst) as Hr. rewrite Z2Nat.id in Hr by lia.
        destruct (ab_live a !! s) eqn:E; [by eauto|lia].
      + pose proof (ti_pending _ _ _ _ _ I _ _ Hit Hst) as Hl. rewrite Z2Nat.id in Hl by lia. rewrite Hl. by eauto. }
  rewrite <- size_dom, Hd, size_list_to_set by apply NoDup_seqZ. rewrite length_seqZ. lia.
Qed.

Lemma query_group :
  exists r, flagcxNetReleaseGroupTest GROUP true true {[ GROUP := tr_releaseGroup t ]} =
    Some (r, Some (tr_completed t =? pa_count p,
      (tr_completed t =? pa_count p) && negb (failed (fold_left first_error rs flagcxSuccess)))) /\
    (failed r = true -> failed (fold_left first_error rs flagcxSuccess) = true).
Proof.
  destruct (ti_group _ _ _ _ _ I) as ([Gp Gm [Gn Gb] Ge Gc Gs Ga] & Hopen & Hid & Hnz).
  unfold flagcxNetReleaseGroupTest. change (GROUP =? NULL) with false. cbn match.
  rewrite lookup_singleton_eq. cbn [mbind option_bind].
  rewrite (proj2 (Z.eqb_neq _ 0)) by congruence. cbn [negb orb].
  assert (Hd : bool_decide (gr_state (tr_releaseGroup t) = FLAGCX_NET_RELEASE_GROUP_COMPLETE) =
    (tr_completed t =? pa_count p)).
  { case_bool_decide as Hst; symmetry.
    - apply Z.eqb_eq. specialize (Gc Hst). lia.
    - apply Z.eqb_neq. destruct (gr_state (tr_releaseGroup t)); [done| |done]. specialize (Gs eq_refl). lia. }
  rewrite Hd, Ga, Hd, Ge. eexists. split.
  - do 3 f_equal. by destruct (_ =? _).
  - destruct (_ =? _); [done|by cbn].
Qed.

Lemma no_error_results : failed (tr_terminalResult t) = false -> failed (fold_left first_error rs flagcxSuccess) = false.
Proof.
  intros Hf%failed_false. apply first_errors_success. split; [done|]. by apply (ti_terminal _ _ _ _ _ I).
Qed.

Lemma query_sound :
  exists st, flagcxP2pTransferQuery (Some t) true = Some (flagcxSuccess, Some st) /\
    status_ok (tr_items t) (pa_maxInFlight p) (tr_terminalResult t) st.
Proof.
  pose proof I as [Jinit [Jc Jn] Jb Js (Im & Jcap & Jgen & Jfe) Jdom Jnx Jp Jr _ (Jrp & Jrs & Jrr) (Kc & Km & Ke & Ku & Kl) [Jd Jl] (Jsa & Jsb) Jres _].
  unfold flagcxP2pTransferQuery. rewrite Jinit. cbn [negb orb]. unfold transfer_query.
  pose proof Im as ((es & He & T & _) & Hcap & _ & Hnx & Hfe).
  unfold flagcxNetCompletionScoreboardQuery. rewrite He. rewrite bool_decide_false by done.
  rewrite (proj2 (Z.eqb_neq (sb_capacity _) 0)) by (destruct (tk_cap _ _ _ T); lia). cbn [negb orb].
  unfold flagcxTransportRequestTest, flagcxNetRequestCoreTest. rewrite Jrs.
  rewrite (bool_decide_eq_false_2 (_ = FLAGCX_NET_REQUEST_FREE)) by (destruct (_ =? _); done). cbn [negb orb default from_option].
  unfold id. rewrite (bool_decide_ext _ (tr_completed t = pa_count p)).
  2: { destruct (Z.eqb_spec (tr_completed t) (pa_count p)); naive_solver. }
  destruct query_group as (r & -> & Hr). cbn [mbind option_bind default from_option]. unfold id.
  unfold flagcxTransportCreditAvailable, flagcxNetCreditAvailable.
  rewrite (proj2 (Z.eqb_neq (cr_capacity _) 0)), (proj2 (Z.ltb_ge (cr_capacity _) _)) by lia. cbn [negb orb].
  eexists. split; [done|].
  rewrite (tk_inFlight _ _ _ T), live_size, Hnx, Hfe, Jfe, Jrr.
  set (e := fold_left first_error rs flagcxSuccess) in *.
  assert (Hdn : tr_completed t = pa_count p -> (pa_count p - ab_next a =? 0) = true).
  { intros Hc. apply Z.eqb_eq. destruct (decide (ab_next a = pa_count p)); [lia|]. exfalso.
    assert (Hall : Forall (fun it => it_state it = FLAGCX_P2P_TRANSFER_COMPLETE) (tr_items t)) by (apply cnt_all; lia).
    destruct (lookup_lt_is_Some_2 (tr_items t) (Z.to_nat (ab_next a))) as [it Hit]; [lia|].
    apply (proj2 (retired_items _ _ Hit)); [lia|]. by apply (proj1 (Forall_lookup _ _) Hall (Z.to_nat (ab_next a))). }
  assert (Hdone : bool_decide (tr_completed t = pa_count p) && (tr_completed t =? pa_count p) &&
    (pa_count p - ab_next a =? 0) = (tr_completed t =? pa_count p)).
  { case_bool_decide as Hc; [rewrite (Hdn Hc)|]; destruct (Z.eqb_spec (tr_completed t) (pa_count p)); done. }
  rewrite Hdone.
  assert (Hres : (let result := tr_terminalResult t in
      let result := if negb (failed result) && bool_decide (tr_completed t = pa_count p) &&
        failed (if bool_decide (tr_completed t = pa_count p) then e else flagcxSuccess)
        then (if bool_decide (tr_completed t = pa_count p) then e else flagcxSuccess) else result in
      let result := if negb (failed result) && (tr_completed t =? pa_count p) && failed r then r else result in
      if negb (failed result) && failed e then e else result) = tr_terminalResult t).
  { cbn zeta. destruct (failed (tr_terminalResult t)) eqn:Ef; cbn [negb andb]; rewrite ?Ef; cbn [negb andb]; [by rewrite Ef|].
    pose proof (no_error_results Ef) as Hne. fold e in Hne.
    assert (Hfr : failed r = false) by (destruct (failed r); [by rewrite Hr in Hne|done]).
    rewrite Hfr, Hne, !andb_false_r. destruct (bool_decide _); rewrite ?Hne; cbn [andb failed]; rewrite ?andb_false_r, ?Ef, ?Hfr, ?andb_false_r; done. }
  cbn zeta in Hres. rewrite Hres.
  constructor; cbn [ts_requested ts_submitted ts_completed ts_retired ts_pending ts_inFlight ts_done ts_releaseAllowed ts_result];
    rewrite ?(Z.mod_small (Z.of_nat (length _))), ?(Z.mod_small (ab_next a)) by lia.
  - done.
  - done.
  - rewrite Kc, (Z.mod_small (pa_maxInFlight p - cr_inUse (tr_credit t))), Z.mod_small by lia. lia.
  - lia.
  - split; [lia|]. intros i it Hi. by apply retired_items.
  - lia.
  - rewrite <- cnt_all_iff, Z.eqb_eq. lia.
  - done.
  - destruct (_ =? _); cbn [andb]; [|done]. destruct (failed (tr_terminalResult t)) eqn:Ef; cbn [negb]; [done|].
    pose proof (no_error_results Ef) as Hz. fold e in Hz. by rewrite Hz.
Qed.

End Query.

(** ** Progress *)

(** The state of a transfer between calls, over a backend under observation. *)
Definition running {S} (p : transfer_params) (t : flagcxP2pTransfer) (w : watched S) : Prop :=
  sound p 0 t /\ settled t /\ tr_terminalResult t = w_error w.

Lemma progress_sound {S} test post p t (w : watched S) :
  fills_requests post -> running p t w ->
  exists st t' w', flagcxP2pTransferProgress (watch_test test) (watch_post post) (Some t) true w =
      Some (flagcxSuccess, Some st, Some t', w') /\
    running p t' w' /\ leads t t' /\ (w_stalls w <= w_stalls w')%nat /\
    status_ok (tr_items t') (pa_maxInFlight p) (w_error w') st /\
    (weight t <> 0%nat -> (weight t' < weight t \/ w_stalls w < w_stalls w')%nat).
Proof.
  intros Hfill (Hs & Hset & Ht).
  destruct (round_sound test post p t w Hfill Hs Hset Ht) as (t' & w' & Hrun & (Hs' & Hset' & Ht' & Hl & Hst) & Hw).
  pose proof Hs as (rs & a & I). pose proof Hs' as (rs' & a' & I').
  destruct (query_sound p t' rs' a' I') as (st & Hq & Hok).
  exists st, t', w'. unfold flagcxP2pTransferProgress. rewrite (ti_init _ _ _ _ _ I). cbn [negb orb].
  unfold transfer_progress. rewrite Hrun. cbn [mbind option_bind]. change (failed flagcxSuccess) with false. cbn match zeta.
  rewrite Hq. cbn [mbind option_bind]. split; [done|]. split; [done|]. split; [done|]. split; [done|]. rewrite <- Ht'. done.
Qed.

(** [n] progress calls in a row, with the last status. *)
Fixpoint progress_n {S} (test : S -> Z -> flagcxResult_t * bool * S)
    (post : S -> list flagcxP2pTransferOp -> flagcxResult_t * list Z * flagcxNetPostResult * S)
    (n : nat) (t : flagcxP2pTransfer) (s : S) :
    option (flagcxResult_t * option flagcxP2pTransferStatus * flagcxP2pTransfer * S) :=
  match n with
  | O => '(r, st) ← flagcxP2pTransferQuery (Some t) true; Some (r, st, t, s)
  | Datatypes.S n =>
    '(r, st, t, s) ← flagcxP2pTransferProgress test post (Some t) true s;
    t ← t;
    if failed r then Some (r, st, t, s) else progress_n test post n t s
  end.

Lemma progress_n_sound {S} test post p n : forall t (w : watched S),
  fills_requests post -> running p t w ->
  exists st t' w', progress_n (watch_test test) (watch_post post) n t w = Some (flagcxSuccess, Some st, t', w') /\
    running p t' w' /\ leads t t' /\ status_ok (tr_items t') (pa_maxInFlight p) (w_error w') st /\
    (weight t' = 0 \/ n + weight t' + w_stalls w <= weight t + w_stalls w')%nat.
Proof.
  induction n as [|n IH]; intros t w Hfill Hr; cbn [progress_n].
  - pose proof Hr as ((rs & a & I) & _ & Ht). destruct (query_sound p t rs a I) as (st & -> & Hok).
    exists st, t, w. split; [done|]. split; [done|]. split; [reflexivity|]. rewrite <- Ht. split; [done|right; lia].
  - destruct (progress_sound test post p t w Hfill Hr) as (st & t1 & w1 & -> & Hr1 & Hl1 & Hs1 & _ & Hw1).
    cbn [mbind option_bind]. change (failed flagcxSuccess) with false. cbn match.
    destruct (IH t1 w1 Hfill Hr1) as (st' & t' & w' & -> & Hr' & Hl' & Hok' & Hw').
    exists st', t', w'. split; [done|]. split; [done|]. split; [by etrans|]. split; [done|].
    pose proof (leads_weight _ _ Hl1). pose proof (leads_weight _ _ Hl').
    destruct Hw' as [Hz|Hw']; [by left|]. destruct (decide (weight t = 0%nat)); [left; lia|right].
    destruct Hw1 as [?|?]; [done|lia|lia].
Qed.

(** ** Initialisation *)

(** The item of the [i]-th operation. *)
Definition prepared (ops : list flagcxP2pTransferOp) (groupId generation : Z) (i : nat) (op : flagcxP2pTransferOp) :
    flagcxP2pTransferItem :=
  MkTransferItem
    (MkTransferOp (op_srcOffset op) (op_dstOffset op) (op_size op) (op_srcMr op) (op_dstMr op)
      (op_orderingKey op) groupId generation (Z.of_nat i) (op_submitFlags op) (op_laneMask op))
    (MkSubmitContext (op_orderingKey op) groupId generation (Z.of_nat i) (op_submitFlags op) (op_laneMask op))
    NULL FLAGCX_P2P_TRANSFER_QUEUED.

(** After the first [k] operations are tracked: everything but the scoreboard,
    the group and the items is that of [t0]. *)
Record tracked (p : transfer_params) (ops : list flagcxP2pTransferOp) (t0 : flagcxP2pTransfer) (k : nat)
    (t : flagcxP2pTransfer) (live : gmap Z live_entry) : Prop := {
  tr_board : implements (tr_scoreboard t) (MkAbsBoard (pa_count p) (pa_generation p) 0 flagcxSuccess live);
  tr_live : forall s l, live !! s = Some l <-> exists i op, s = Z.of_nat i /\ (i < k)%nat /\ ops !! i = Some op /\
    l = MkLive (it_submit (prepared ops (pa_groupId p) (pa_generation p) i op)) GROUP None;
  tr_prepared : length (tr_items t) = Z.to_nat (pa_count p) /\ forall i it, tr_items t !! i = Some it ->
    if decide (i < k)%nat then exists op, ops !! i = Some op /\ it = prepared ops (pa_groupId p) (pa_generation p) i op
    else it = item_default;
  tr_group : group_ok (Z.of_nat k) (tr_releaseGroup t) [] /\ gr_state (tr_releaseGroup t) = FLAGCX_NET_RELEASE_GROUP_OPEN /\
    gr_groupId (tr_releaseGroup t) = pa_groupId p /\ gr_generation (tr_releaseGroup t) = pa_generation p;
  tr_rest : t = MkTransfer (tr_items t) (tr_scoreboard t) (tr_releaseGroup t) (tr_credit t0) (tr_request t0)
    (tr_maxPostBatch t0) (tr_submitted t0) (tr_completed t0) (tr_terminalResult t0) (tr_initialized t0)
}.

Section Init.
Context (p : transfer_params) (ops : list flagcxP2pTransferOp) (t0 : flagcxP2pTransfer).
Hypothesis count_range : 0 < pa_count p < U32_MOD.
Hypothesis enough_ops : pa_count p <= Z.of_nat (length ops).
Hypothesis group_nonzero : pa_groupId p <> 0.

Lemma init_item_tracked k t live :
  Z.of_nat k < pa_count p -> tracked p ops t0 k t live ->
  exists t' live', init_item ops (pa_groupId p) (pa_generation p) k t = Some (flagcxSuccess, t') /\
    tracked p ops t0 (S k) t' live'.
Proof.
  intros Hk [Tb Tl [Tn Ti] (Tok & To & Tid & Tgen) Tr].
  destruct (lookup_lt_is_Some_2 ops k) as [op Hop]; [lia|].
  destruct (lookup_lt_is_Some_2 (tr_items t) k) as [it Hit]; [lia|].
  assert (it = item_default) as ->. { specialize (Ti _ _ Hit). rewrite decide_False in Ti by lia. done. }
  unfold init_item. rewrite Hop, Hit. cbn [mbind option_bind it_request it_state item_default].
  fold (prepared ops (pa_groupId p) (pa_generation p) k op).
  set (it := prepared ops (pa_groupId p) (pa_generation p) k op).
  set (c := MkSubmitContext _ _ _ _ _ _).
  change (MkTransferItem _ c NULL FLAGCX_P2P_TRANSFER_QUEUED) with it.
  set (gs := {[ GROUP := tr_releaseGroup t ]} : groups).
  assert (Hgs : gs !! GROUP = Some (tr_releaseGroup t)) by apply lookup_singleton_eq.
  assert (Hfree : live !! Z.of_nat k = None).
  { apply eq_None_not_Some. intros [l Hl]. apply Tl in Hl as (i & ? & Hi & ? & _). lia. }
  destruct (flagcxNetReleaseGroupTrackLocked (tr_releaseGroup t) c) as [r g] eqn:Etr.
  assert (Hr : r = flagcxSuccess /\ gr_state g = FLAGCX_NET_RELEASE_GROUP_OPEN /\ gr_groupId g = pa_groupId p /\
    gr_generation g = pa_generation p).
  { destruct Tok as [Gp Gm _ _ _ _ _]. cbn in Gm. unfold flagcxNetReleaseGroupTrackLocked in Etr.
    rewrite To, Tid, Tgen in Etr. cbn [sc_groupId sc_generation c] in Etr. rewrite !Z.eqb_refl in Etr.
    rewrite (proj2 (Z.eqb_neq (gr_pending _) _)), (proj2 (Z.eqb_neq (gr_members _) _)) in Etr by lia.
    rewrite bool_decide_eq_true_2 in Etr by done. cbn [negb orb] in Etr. by injection Etr as <- <-. }
  destruct Hr as (-> & Hgst & Hgid & Hggen).
  pose proof (track_ok _ _ _ _ _ _ Tok Etr) as Hok'. change (failed flagcxSuccess) with false in Hok'. cbn match in Hok'.
  destruct (submit_meets (tr_scoreboard t) _ gs c GROUP Tb) as (sb & Hrun & Him);
    [unfold is_u64; cbn; lia|by rewrite Hgs|].
  assert (Hspec : spec_submit c GROUP (MkAbsBoard (pa_count p) (pa_generation p) 0 flagcxSuccess live) gs =
    (flagcxSuccess, MkAbsBoard (pa_count p) (pa_generation p) 0 flagcxSuccess (<[Z.of_nat k := MkLive c GROUP None]> live),
     <[GROUP := g]> gs)).
  { unfold spec_submit. cbn [sc_sequence sc_generation sc_groupId c ab_generation ab_next ab_capacity ab_live].
    rewrite Z.eqb_refl, (proj2 (Z.eqb_neq _ U64_MAX)), (proj2 (Z.ltb_ge _ 0)), (proj2 (Z.leb_gt _ _)) by lia.
    rewrite Hfree, (bool_decide_eq_false_2 (is_Some None)) by (by intros [? ?]).
    rewrite (proj2 (Z.eqb_neq (pa_groupId p) 0)) by done. change (GROUP =? NULL) with false. cbn [negb orb Bool.eqb].
    rewrite Hgs, Etr. done. }
  rewrite Hspec in Hrun, Him. cbn [fst snd] in Hrun, Him. cbn [run_call] in Hrun.
  unfold on_scoreboard. cbn [tr_scoreboard tr_releaseGroup set_items]. fold gs. rewrite Hrun. cbn [mbind option_bind].
  rewrite lookup_insert_eq. cbn [mbind option_bind]. do 2 eexists. split; [reflexivity|].
  constructor; cbn [tr_items tr_scoreboard tr_releaseGroup set_releaseGroup set_scoreboard set_items].
  - exact Him.
  - intros s l. rewrite lookup_insert_Some, Tl. split.
    + intros [[<- <-]|[Hne (i & op' & -> & Hi & Hx & ->)]]; [exists k, op|exists i, op']; split_and!; try done; lia.
    + intros (i & op' & -> & Hi & Hx & ->). destruct (decide (i = k)) as [->|Hne].
      * left. assert (op' = op) as -> by congruence. done.
      * right. split; [lia|]. exists i, op'. split_and!; try done. lia.
  - rewrite length_insert. split; [done|]. intros i x. destruct (decide (i = k)) as [->|Hne].
    + rewrite list_lookup_insert_eq by (by eapply lookup_lt_Some). intros [= <-]. rewrite decide_True by lia. eauto.
    + rewrite list_lookup_insert_ne by done. intros Hx%Ti. destruct (decide (i < k)%nat), (decide (i < S k)%nat); done || lia.
  - rewrite Nat2Z.inj_succ, <- Z.add_1_r. done.
  - rewrite Tr. done.
Qed.

(** All operations are tracked and the group is sealed. *)
Lemma tracked_sound t live g :
  tracked p ops t0 (Z.to_nat (pa_count p)) t live ->
  0 < tr_maxPostBatch t0 -> tr_credit t0 = MkCredit (pa_maxInFlight p) 0 -> 0 < pa_maxInFlight p < U32_MOD ->
  tr_request t0 = MkRequestCore FLAGCX_NET_REQUEST_PENDING (pa_count p) flagcxSuccess ->
  tr_submitted t0 = 0 -> tr_completed t0 = 0 -> tr_terminalResult t0 = flagcxSuccess ->
  g = set_gr_state FLAGCX_NET_RELEASE_GROUP_SEALED (tr_releaseGroup t) ->
  sound p 0 (set_initialized true (set_releaseGroup g t)).
Proof.
  intros [Tb Tl [Tn Ti] (Tok & To & Tid & Tgen) Tr] Hb Hcr Hm Hrq Hsub Hcom Hter ->.
  assert (Hit : forall i it, tr_items t !! i = Some it -> exists op, ops !! i = Some op /\
    it = prepared ops (pa_groupId p) (pa_generation p) i op).
  { intros i it Hi. pose proof (Ti _ _ Hi) as Hx. pose proof (lookup_lt_Some _ _ _ Hi). by rewrite decide_True in Hx by lia. }
  assert (Hst : forall i it, tr_items t !! i = Some it -> it_state it = FLAGCX_P2P_TRANSFER_QUEUED).
  { intros i it Hi. by destruct (Hit _ _ Hi) as (op & _ & ->). }
  assert (Hcnt : forall st, st <> FLAGCX_P2P_TRANSFER_QUEUED -> cnt st (tr_items t) = 0%nat).
  { intros st Hne. unfold cnt. apply length_zero_iff_nil, elem_of_nil_inv. intros x [Hx Hin]%list_elem_of_filter.
    apply list_elem_of_lookup in Hin as [i Hi]. rewrite (Hst _ _ Hi) in Hx. done. }
  pose proof (cnt_total (tr_items t)) as Htot. rewrite (Hcnt FLAGCX_P2P_TRANSFER_INFLIGHT), (Hcnt FLAGCX_P2P_TRANSFER_COMPLETE) in Htot by done.
  pose proof (seal_ok _ _ _ Tok To) as Hok. rewrite (go_pending _ _ _ Tok) in Hok.
  rewrite (proj2 (Z.eqb_neq _ 0)) in Hok by lia.
  rewrite Tr. exists [], (MkAbsBoard (pa_count p) (pa_generation p) 0 flagcxSuccess live).
  constructor; cbn [tr_initialized tr_items tr_maxPostBatch tr_scoreboard tr_releaseGroup tr_credit tr_request
    tr_completed tr_submitted tr_terminalResult set_initialized set_releaseGroup];
    rewrite ?Hcr, ?Hrq, ?Hsub, ?Hcom, ?Hter, ?(Hcnt FLAGCX_P2P_TRANSFER_INFLIGHT), ?(Hcnt FLAGCX_P2P_TRANSFER_COMPLETE) by done;
    cbn [cr_capacity cr_inUse rc_pending rc_state rc_result fold_left length ab_live ab_capacity ab_generation ab_next ab_firstError].
  - done.
  - lia.
  - done.
  - intros i it Hi. by destruct (Hit _ _ Hi) as (op & _ & ->).
  - done.
  - intros s l (i & op & -> & Hi & _ & ->)%Tl. cbn. split; [lia|done].
  - lia.
  - intros i it Hi _. destruct (Hit _ _ Hi) as (op & Hop & ->). apply Tl. exists i, op.
    pose proof (lookup_lt_Some _ _ _ Hi). split_and!; try done. lia.
  - intros i it Hi Hc. by rewrite (Hst _ _ Hi) in Hc.
  - rewrite Z.sub_0_r. split_and!; try done. by rewrite Z2Nat.id in Hok by lia.
  - rewrite Z.sub_0_r, (proj2 (Z.eqb_neq 0 _)) by lia. done.
  - split_and!; try done; lia.
  - done.
  - lia.
  - constructor.
  - done.
Qed.

End Init.

(** The items of a transfer just initialised: those without data are
    complete, the others queued. *)
Definition initial_items (p : transfer_params) (ops : list flagcxP2pTransferOp) (items : list flagcxP2pTransferItem) : Prop :=
  Z.of_nat (length items) = pa_count p /\
  forall i it, items !! i = Some it -> exists op, ops !! i = Some op /\
    it_op it = it_op (prepared ops (pa_groupId p) (pa_generation p) i op) /\
    it_state it = if op_size op =? 0 then FLAGCX_P2P_TRANSFER_COMPLETE else FLAGCX_P2P_TRANSFER_QUEUED.

(** The arguments of [flagcxP2pTransferInit]. *)
Definition params_ok (p : transfer_params) (ops : list flagcxP2pTransferOp) (maxPostBatch : Z) : Prop :=
  0 < pa_count p < U32_MOD /\ pa_count p <= Z.of_nat (length ops) /\ 0 < pa_maxInFlight p < U32_MOD /\
  0 < maxPostBatch /\ pa_groupId p <> 0.

(** The loop that completes the items without data. *)
Lemma complete_empty_sound p t :
  sound p 0 t -> tr_terminalResult t = flagcxSuccess -> (forall i it, tr_items t !! i = Some it ->
    it_state it = FLAGCX_P2P_TRANSFER_QUEUED) ->
  exists t', for_ok (seq 0 (length (tr_items t)))
      (fun i t => item ← tr_items t !! i;
         if op_size (it_op item) =? 0 then completeItem t i flagcxSuccess else Some (flagcxSuccess, t)) t =
      Some (flagcxSuccess, t') /\ sound p 0 t' /\ tr_terminalResult t' = flagcxSuccess /\ leads t t' /\
    forall i it, tr_items t' !! i = Some it ->
      it_state it = if op_size (it_op it) =? 0 then FLAGCX_P2P_TRANSFER_COMPLETE else FLAGCX_P2P_TRANSFER_QUEUED.
Proof.
  intros Hs Ht Hq.
  destruct (for_ok_seq (fun k t' => sound p 0 t' /\ tr_terminalResult t' = flagcxSuccess /\ leads t t' /\
      forall i it, tr_items t' !! i = Some it -> it_state it = if (i <? k)%nat && (op_size (it_op it) =? 0)
        then FLAGCX_P2P_TRANSFER_COMPLETE else FLAGCX_P2P_TRANSFER_QUEUED)
    (fun i t => item ← tr_items t !! i;
       if op_size (it_op item) =? 0 then completeItem t i flagcxSuccess else Some (flagcxSuccess, t))
    (length (tr_items t)) 0 t) as (t' & Hrun & Hs' & Ht' & Hl' & Hst').
  - intros i t1 Hi (Hs1 & Ht1 & Hl1 & Hst1). pose proof (leads_length _ _ Hl1) as Hlen.
    destruct (lookup_lt_is_Some_2 (tr_items t1) i) as [it Hit]; [lia|]. rewrite Hit. cbn [mbind option_bind].
    pose proof (Hst1 _ _ Hit) as Hsti. rewrite Nat.ltb_irrefl in Hsti. cbn [andb] in Hsti.
    destruct (op_size (it_op it) =? 0) eqn:Esz.
    + destruct Hs1 as (rs & a & I1).
      destruct (completeItem_spec p 0 t1 rs a i it flagcxSuccess I1 Hit) as (t2 & a2 & -> & I2 & Hi2 & Ht2 & _); [congruence|done|].
      exists t2. split; [done|]. split; [by do 2 eexists|]. split; [by rewrite Ht2, Ht1|]. split.
      * etrans; [exact Hl1|]. eapply leads_insert; [done|done|]. split_and!; try done. by rewrite Hsti.
      * intros j x. rewrite Hi2. destruct (decide (j = i)) as [->|Hne].
        -- rewrite list_lookup_insert_eq by (by eapply lookup_lt_Some). intros [= <-].
           rewrite (proj2 (Nat.ltb_lt _ _)) by lia. cbn. by rewrite Esz.
        -- rewrite list_lookup_insert_ne by done. intros ->%Hst1.
           destruct (Nat.ltb_spec j i), (Nat.ltb_spec j (S i)); done || lia.
    + exists t1. split; [done|]. split; [done|]. split; [done|]. split; [done|]. intros j x Hx. rewrite (Hst1 _ _ Hx).
      destruct (decide (j = i)) as [->|]; [simplify_eq; by rewrite Esz, !andb_false_r|].
      destruct (Nat.ltb_spec j i), (Nat.ltb_spec j (S i)); done || lia.
  - split_and!; try done.
  - exists t'. split_and!; try done. intros i it Hi. rewrite (Hst' _ _ Hi).
    pose proof (lookup_lt_Some _ _ _ Hi). rewrite (leads_length _ _ Hl') in *.
    rewrite (proj2 (Nat.ltb_lt _ _)) by lia. done.
Qed.

(** An initialised transfer over a fresh observation of its backend. *)
Definition initialised (p : transfer_params) (ops : list flagcxP2pTransferOp) (maxPostBatch : Z)
    (t : flagcxP2pTransfer) : Prop :=
  exists t0, tr_initialized t0 = false /\ params_ok p ops maxPostBatch /\
    flagcxP2pTransferInit (Some t0) true true true (Some ops) (pa_count p) (pa_maxInFlight p) maxPostBatch
      (pa_groupId p) (pa_generation p) = Some (flagcxSuccess, Some t).

Ltac next_ok := cbn [then_ok mbind option_bind]; change (failed flagcxSuccess) with false; cbn match.

Lemma init_sound p ops maxPostBatch t0 :
  params_ok p ops maxPostBatch -> tr_initialized t0 = false ->
  exists t, flagcxP2pTransferInit (Some t0) true true true (Some ops) (pa_count p) (pa_maxInFlight p) maxPostBatch
      (pa_groupId p) (pa_generation p) = Some (flagcxSuccess, Some t) /\
    sound p 0 t /\ tr_terminalResult t = flagcxSuccess /\ initial_items p ops (tr_items t).
Proof.
  intros (Hc & Hops & Hm & Hb & Hg) Hi0. unfold flagcxP2pTransferInit. rewrite Hi0.
  rewrite (proj2 (Z.eqb_neq (pa_count p) 0)), (proj2 (Z.eqb_neq (pa_maxInFlight p) 0)),
    (proj2 (Z.eqb_neq maxPostBatch 0)), (proj2 (Z.eqb_neq (pa_groupId p) 0)) by lia. cbn [negb orb]. cbn zeta.
  set (n := Z.to_nat (pa_count p)).
  match goal with |- context [on_credit ?t _] => set (t1 := t) end.
  assert (E1 : on_credit t1 (fun c => flagcxTransportCreditInit c (pa_maxInFlight p)) =
    Some (flagcxSuccess, set_credit (MkCredit (pa_maxInFlight p) 0) t1)).
  { unfold on_credit, flagcxTransportCreditInit, flagcxNetCreditInit.
    rewrite (proj2 (Z.eqb_neq (pa_maxInFlight p) 0)) by lia. done. }
  rewrite E1. next_ok. set (t2 := set_credit _ t1).
  assert (E2 : on_request t2 (fun c => (flagcxSuccess, flagcxTransportRequestInit c)) =
    Some (flagcxSuccess, set_request (MkRequestCore FLAGCX_NET_REQUEST_FREE 0 flagcxSuccess) t2)) by done.
  rewrite E2. next_ok. set (t3 := set_request _ t2).
  assert (E3 : on_request t3 flagcxTransportRequestAcquire =
    Some (flagcxSuccess, set_request (MkRequestCore FLAGCX_NET_REQUEST_PENDING 0 flagcxSuccess) t3)) by done.
  rewrite E3. next_ok. set (t4 := set_request _ t3).
  assert (E4 : on_request t4 (fun c => flagcxTransportRequestAddPending c (pa_count p)) =
    Some (flagcxSuccess, set_request (MkRequestCore FLAGCX_NET_REQUEST_PENDING (pa_count p) flagcxSuccess) t4)).
  { unfold on_request, flagcxTransportRequestAddPending, flagcxNetRequestCoreAddPending, request_not_pending.
    cbn [tr_request t4 set_request rc_state rc_pending rc_result]. rewrite (proj2 (Z.eqb_neq (pa_count p) 0)) by lia.
    rewrite bool_decide_true by done. cbn [negb orb]. rewrite (proj2 (Z.ltb_ge _ 0)), Z.add_0_l, Z.mod_small by lia. done. }
  rewrite E4. next_ok. set (t5 := set_request _ t4).
  set (g0 := MkReleaseGroup (pa_groupId p) (pa_generation p) FLAGCX_NET_RELEASE_GROUP_OPEN 0 0 false flagcxSuccess).
  assert (E5 : on_group t5 (flagcxNetReleaseGroupInit GROUP (pa_groupId p) (pa_generation p)) =
    Some (flagcxSuccess, set_releaseGroup g0 t5)).
  { unfold on_group, flagcxNetReleaseGroupInit. rewrite (proj2 (Z.eqb_neq (pa_groupId p) 0)) by done.
    change (GROUP =? NULL) with false. cbn [orb]. rewrite lookup_singleton_eq. cbn [mbind option_bind].
    by rewrite lookup_insert_eq. }
  rewrite E5. next_ok. set (t6 := set_releaseGroup g0 t5).
  destruct (scoreboard_init_implements (replicate n flagcxNetCompletionEntryReset) (pa_count p) (pa_generation p) 0)
    as (sb & Esb & Him); [lia|rewrite length_replicate; lia|lia|]. rewrite Esb. cbn [mbind option_bind default from_option].
  next_ok. unfold id. set (t7 := set_scoreboard sb t6).
  assert (T0 : tracked p ops t7 0 t7 ∅).
  { constructor; cbn [tr_items tr_scoreboard tr_releaseGroup t7 t6 t5 t4 t3 t2 t1 set_scoreboard set_releaseGroup set_request set_credit].
    - done.
    - intros s l. rewrite lookup_empty. split; [done|]. intros (i & op & _ & Hi & _). lia.
    - rewrite length_replicate. split; [done|]. intros i it [-> _]%lookup_replicate. by rewrite decide_False by lia.
    - split; [apply fresh_group_ok|done].
    - done. }
  destruct (for_ok_seq (fun k t => exists live, tracked p ops t7 k t live)
    (init_item ops (pa_groupId p) (pa_generation p)) n 0 t7) as (t8 & -> & live & T8).
  { intros i t Hi [live T]. destruct (init_item_tracked p ops t7 Hc Hops Hg i t live) as (t' & live' & -> & T'); [lia|done|].
    exists t'. eauto. }
  { by exists ∅. }
  cbn [Nat.add] in T8. next_ok. pose proof T8 as [_ _ [T8n T8i] (Tok & To & Tid & _) T8r].
  set (g8 := set_gr_state FLAGCX_NET_RELEASE_GROUP_SEALED (tr_releaseGroup t8)).
  assert (E8 : on_group t8 (flagcxNetReleaseGroupSeal GROUP) = Some (flagcxSuccess, set_releaseGroup g8 t8)).
  { unfold on_group, flagcxNetReleaseGroupSeal. change (GROUP =? NULL) with false. cbn match. rewrite lookup_singleton_eq.
    cbn [mbind option_bind]. rewrite Tid, To, (proj2 (Z.eqb_neq (pa_groupId p) 0)) by done.
    rewrite bool_decide_true by done. cbn [negb]. rewrite (go_pending _ _ _ Tok), (proj2 (Z.eqb_neq _ 0)) by lia.
    cbn [mbind option_bind]. by rewrite lookup_insert_eq. }
  rewrite E8. next_ok. set (t9 := set_initialized true (set_releaseGroup g8 t8)).
  assert (Hs9 : sound p 0 t9) by (by eapply (tracked_sound p ops t7)).
  assert (Hit : forall i it, tr_items t9 !! i = Some it -> exists op, ops !! i = Some op /\
    it = prepared ops (pa_groupId p) (pa_generation p) i op).
  { intros i it Hi. change (tr_items t9) with (tr_items t8) in Hi. pose proof (T8i _ _ Hi) as Hx.
    pose proof (lookup_lt_Some _ _ _ Hi). by rewrite decide_True in Hx by lia. }
  destruct (complete_empty_sound p t9 Hs9) as (t & Hrun & Hs & Ht & Hl & Hst).
  { change (tr_terminalResult t9) with (tr_terminalResult t8). rewrite T8r. done. }
  { intros i it (op & _ & ->)%Hit. done. }
  change (tr_items t9) with (tr_items t8) in Hrun. rewrite T8n in Hrun. fold n in Hrun. rewrite Hrun.
  cbn [mbind option_bind]. exists t. split; [done|]. split; [done|]. split; [done|]. split.
  - rewrite (leads_length _ _ Hl). change (tr_items t9) with (tr_items t8). lia.
  - intros i it Hi. destruct (Forall2_lookup_r _ _ _ _ _ Hl Hi) as (it9 & (op & Hop & ->)%Hit & Hld).
    exists op. split; [done|]. destruct Hld as (Hlo & _ & _). split; [done|]. rewrite (Hst _ _ Hi), Hlo. done.
Qed.

Lemma initialised_running {S} p ops maxPostBatch t (s : S) :
  initialised p ops maxPostBatch t -> running p t (MkWatched s flagcxSuccess 0) /\ initial_items p ops (tr_items t).
Proof.
  intros (t0 & Hi & Hp & Hrun). destruct (init_sound p ops maxPostBatch t0 Hp Hi) as (t' & Hrun' & Hs & Ht & Hit).
  rewrite Hrun in Hrun'. injection Hrun' as <-. split; [|done]. split_and!; try done. intros Hf. by rewrite Ht in Hf.
Qed.

Lemma weight_le t : (weight t <= 2 * length (tr_items t))%nat.
Proof.
  unfold weight. induction (tr_items t) as [|it l IH]; cbn; [lia|]. unfold item_weight at 1. cbn in IH.
  destruct (it_state it); lia.
Qed.

Lemma weight_zero_complete t : weight t = 0%nat -> Forall (fun it => it_state it = FLAGCX_P2P_TRANSFER_COMPLETE) (tr_items t).
Proof.
  intros Hw. apply Forall_lookup. intros i it Hi. destruct (proj1 (weight_zero t) Hw i) as [Hq Hf].
  unfold in_state in Hq, Hf. rewrite Hi in Hq, Hf. bool_to_prop. by destruct (it_state it).
Qed.

(** A backend for examples: it takes one operation at a time and completes it
    at the next test. *)
Definition demo_post (s : nat) (ops : list flagcxP2pTransferOp) : flagcxResult_t * list Z * flagcxNetPostResult * nat :=
  (flagcxSuccess, replicate (length ops) 5, MkPostResult flagcxSuccess (Z.of_nat (length ops)) 1, S s).
Definition demo_test (s : nat) (request : Z) : flagcxResult_t * bool * nat := (flagcxSuccess, true, s).
Definition demo_params : transfer_params := MkParams 3 2 9 1.
Definition demo_op (size : Z) : flagcxP2pTransferOp := MkTransferOp 0 0 size 1 2 0 0 0 0 1 0.
Definition demo_ops : list flagcxP2pTransferOp := [demo_op 8; demo_op 0; demo_op 16].

Lemma demo_fills : fills_requests demo_post.
Proof. intros s ops r requests p s' [= <- <- <- <-]. apply length_replicate. Qed.

Lemma demo_initialised : exists t, initialised demo_params demo_ops 4 t.
Proof.
  assert (Hp : params_ok demo_params demo_ops 4) by (repeat split; cbn; lia).
  destruct (init_sound demo_params demo_ops 4 transfer_default Hp) as (t & Hrun & _); [reflexivity|].
  exists t, transfer_default. split; [reflexivity|split; [exact Hp|exact Hrun]].
Qed.

(** ** Properties *)

(** C19: a transfer tells the truth about its backend.  After
    [flagcxP2pTransferInit] and any number of [flagcxP2pTransferProgress], with
    a backend that answers anything, every call succeeds; the status counts
    the items as they are and never more than [maxInFlight] in flight; the
    retired operations are exactly the completed prefix; [done] says that
    every item is complete; [result] is the first error the backend reported,
    and the release is allowed exactly when the transfer is done without
    one.  After an error nothing is left in the queue.  Items only move
    forward, and keep their operation. *)
Theorem transfer_reports {S} test post p ops maxPostBatch t (s : S) n :
  fills_requests post -> initialised p ops maxPostBatch t ->
  exists st t' w', progress_n (watch_test test) (watch_post post) n t (MkWatched s flagcxSuccess 0) =
      Some (flagcxSuccess, Some st, t', w') /\
    status_ok (tr_items t') (pa_maxInFlight p) (w_error w') st /\
    (failed (w_error w') = true -> Forall (fun it => it_state it <> FLAGCX_P2P_TRANSFER_QUEUED) (tr_items t')) /\
    initial_items p ops (tr_items t) /\ Forall2 item_leads (tr_items t) (tr_items t').
Proof.
  intros Hfill [Hr Hi]%(initialised_running p ops maxPostBatch t s).
  destruct (progress_n_sound test post p n t _ Hfill Hr) as (st & t' & w' & Hrun & (_ & Hset & Ht) & Hl & Hok & _).
  exists st, t', w'. split_and!; try done. intros Hf. apply Forall_lookup. intros i it Hi' Hq.
  rewrite <- Ht in Hf. specialize (Hset Hf i). unfold in_state in Hset. rewrite Hi' in Hset.
  by apply bool_decide_eq_false in Hset.
Qed.

Lemma transfer_reports_witness :
  exists t, fills_requests demo_post /\ initialised demo_params demo_ops 4 t /\
    exists st t' w', progress_n (watch_test demo_test) (watch_post demo_post) 3 t (MkWatched 0%nat flagcxSuccess 0) =
        Some (flagcxSuccess, Some st, t', w') /\
      status_ok (tr_items t') (pa_maxInFlight demo_params) (w_error w') st /\
      (failed (w_error w') = true -> Forall (fun it => it_state it <> FLAGCX_P2P_TRANSFER_QUEUED) (tr_items t')) /\
      initial_items demo_params demo_ops (tr_items t) /\ Forall2 item_leads (tr_items t) (tr_items t').
Proof.
  destruct demo_initialised as [t Ht]. exists t. split; [exact demo_fills|]. split; [exact Ht|].
  exact (transfer_reports demo_test demo_post demo_params demo_ops 4 t 0%nat 3 demo_fills Ht).
Defined.

(** C20: a transfer ends.  After more [flagcxP2pTransferProgress] calls than
    twice its operations and the calls by which its backend achieved nothing
    (a test of a request that is not done, a post that neither takes an
    operation nor reports an error), the transfer is done. *)
Theorem transfer_ends {S} test post p ops maxPostBatch t (s : S) n st t' w' :
  fills_requests post -> initialised p ops maxPostBatch t ->
  progress_n (watch_test test) (watch_post post) n t (MkWatched s flagcxSuccess 0) = Some (flagcxSuccess, Some st, t', w') ->
  2 * pa_count p + Z.of_nat (w_stalls w') < Z.of_nat n -> ts_done st = true.
Proof.
  intros Hfill [Hr [Hlen _]]%(initialised_running p ops maxPostBatch t s) Hrun Hn.
  destruct (progress_n_sound test post p n t _ Hfill Hr) as (st1 & t1 & w1 & Hrun1 & _ & _ & Hok & Hw).
  rewrite Hrun in Hrun1. injection Hrun1 as <- <- <-. apply (so_done _ _ _ _ Hok), weight_zero_complete.
  destruct Hw as [|Hw]; [done|]. cbn in Hw. pose proof (weight_le t). lia.
Qed.

Lemma transfer_ends_witness :
  exists t st t' w', initialised demo_params demo_ops 4 t /\
    progress_n (watch_test demo_test) (watch_post demo_post) 7 t (MkWatched 0%nat flagcxSuccess 0) =
      Some (flagcxSuccess, Some st, t', w') /\
    2 * pa_count demo_params + Z.of_nat (w_stalls w') < Z.of_nat 7 /\ ts_done st = true.
Proof.
  assert (Hpath : exists t st t' w', initialised demo_params demo_ops 4 t /\
    progress_n (watch_test demo_test) (watch_post demo_post) 7 t (MkWatched 0%nat flagcxSuccess 0) =
      Some (flagcxSuccess, Some st, t', w') /\ 2 * pa_count demo_params + Z.of_nat (w_stalls w') < Z.of_nat 7).
  { assert (Hp : params_ok demo_params demo_ops 4) by (repeat split; cbn; lia).
    destruct (init_sound demo_params demo_ops 4 transfer_default Hp) as (t & Hrun & _); [reflexivity|].
    pose proof Hrun as Ht. vm_compute in Ht. injection Ht as Ht.
    do 4 eexists. split; [exists transfer_default; split; [reflexivity|split; [exact Hp|exact Hrun]]|].
    rewrite <- Ht. split; [vm_compute; reflexivity|vm_compute; reflexivity]. }
  destruct Hpath as (t & st & t' & w' & Hi & Hrun & Hn). exists t, st, t', w'.
  split; [exact Hi|split; [exact Hrun|split; [exact Hn|]]].
  exact (transfer_ends demo_test demo_post demo_params demo_ops 4 t 0%nat 7 st t' w' demo_fills Hi Hrun Hn).
Defined.

(** [flagcxP2pTransferReset] refuses a transfer that is not done and
    leaves it alone; it clears one that is done, which can then be initialised
    again. *)
Theorem transfer_reset p t :
  sound p 0 t ->
  exists t', flagcxP2pTransferReset (Some t) =
      Some (if bool_decide (Forall (fun it => it_state it = FLAGCX_P2P_TRANSFER_COMPLETE) (tr_items t))
            then flagcxSuccess else flagcxInProgress, Some t') /\
    if bool_decide (Forall (fun it => it_state it = FLAGCX_P2P_TRANSFER_COMPLETE) (tr_items t))
    then forall q ops maxPostBatch, params_ok q ops maxPostBatch ->
      exists u, flagcxP2pTransferInit (Some t') true true true (Some ops) (pa_count q) (pa_maxInFlight q) maxPostBatch
        (pa_groupId q) (pa_generation q) = Some (flagcxSuccess, Some u)
    else t' = t.
Proof.
  intros (rs & a & I). destruct (query_sound p t rs a I) as (st & Hq & Hok).
  unfold flagcxP2pTransferReset. rewrite (ti_init _ _ _ _ _ I). cbn [negb]. rewrite Hq. cbn [mbind option_bind].
  pose proof (so_done _ _ _ _ Hok) as Hd. destruct (ti_request _ _ _ _ _ I) as (_ & Hst & _).
  destruct (ti_completed _ _ _ _ _ I) as [Hc _]. destruct (ti_count _ _ _ _ _ I) as [_ Hlen].
  case_bool_decide as Hall.
  - rewrite (proj2 Hd Hall). cbn [negb].
    assert (Hcm : tr_completed t = pa_count p) by (apply cnt_all_iff in Hall; lia).
    rewrite Hcm, Z.eqb_refl in Hst.
    unfold on_request, flagcxTransportRequestRelease, flagcxNetRequestCoreRelease. rewrite Hst, bool_decide_true by done.
    cbn [negb mbind option_bind flagcxNetRequestCoreInit]. change (failed flagcxSuccess) with false. cbn match.
    eexists. split; [done|]. intros q ops b Hp. edestruct (init_sound q ops b) as (u & Hu & _); [done| |by exists u]. done.
  - assert (Hdf : ts_done st = false) by (destruct (ts_done st); [exfalso; tauto|done]). rewrite Hdf. cbn [negb]. eauto.
Qed.

Lemma transfer_reset_witness :
  exists t, sound demo_params 0 t /\
    exists t', flagcxP2pTransferReset (Some t) =
        Some (if bool_decide (Forall (fun it => it_state it = FLAGCX_P2P_TRANSFER_COMPLETE) (tr_items t))
              then flagcxSuccess else flagcxInProgress, Some t') /\
      if bool_decide (Forall (fun it => it_state it = FLAGCX_P2P_TRANSFER_COMPLETE) (tr_items t))
      then forall q ops maxPostBatch, params_ok q ops maxPostBatch ->
        exists u, flagcxP2pTransferInit (Some t') true true true (Some ops) (pa_count q) (pa_maxInFlight q) maxPostBatch
          (pa_groupId q) (pa_generation q) = Some (flagcxSuccess, Some u)
      else t' = t.
Proof.
  assert (Hs : exists t, sound demo_params 0 t).
  { destruct demo_initialised as [t Ht]. destruct (initialised_running _ _ _ _ 0%nat Ht) as [[Hs _] _]. exists t. exact Hs. }
  destruct Hs as [t Hs]. exists t. split; [exact Hs|]. exact (transfer_reset demo_params t Hs).
Defined.
