(* ===== verification/P2pBackend.v ===== *)
(** The network adaptor as a backend of the P2P engine
    ([flagcx/core/p2p_engine_backend.cc], [p2p_engine_backend.h]).

    The adaptor is a record of functions over a state of its own; a member may
    be null.  A function that issues an operation finds the submit context of
    the thread.  Both calls hold [progressMutex] throughout, so a call is one
    step.  Calling a null function is undefined: [None]. *)
From S2P Require Import Prelude Flagcx Arrays NetTransport NetScoreboard P2pTransfer P2pTransferInv P2pTransferProgress.
From S2P Require Import P2pTransferStatus.

Section Adaptor.
Context {S : Type}.

(** [iput], [iget]: the state, the thread's submit context, [sendComm], the
    offsets, the size, the ranks and the handles; the result and
    [*request]. *)
Abbreviation issue_fn :=
  (S -> thread_submit -> Z -> Z -> Z -> Z -> Z -> Z -> Z -> Z -> flagcxResult_t * Z * S) (only parsing).

Record flagcxNetAdaptor := MkNetAdaptor {
  na_iput : option issue_fn;
  na_iget : option issue_fn;
  na_test : option (S -> Z -> flagcxResult_t * bool * S)
}.

Record flagcxP2pNetBackendContext := MkBackendContext {
  bc_adaptor : option flagcxNetAdaptor;
  bc_sendComm : Z;
  bc_progressMutex : Z;
  bc_write : Z;
  bc_quiesce : option (S -> Z -> flagcxResult_t * S)
}.

(** The context a [SubmitScope] sets. *)
Definition submit_of (op : flagcxP2pTransferOp) : flagcxNetSubmitContext :=
  MkSubmitContext (op_orderingKey op) (op_groupId op) (op_generation op) (op_sequence op) (op_submitFlags op)
    (op_laneMask op).

(** The loop of [post]: the result and the requests of the accepted prefix. *)
Fixpoint post_ops (issue : issue_fn) (sendComm : Z) (ops : list flagcxP2pTransferOp) (tl : thread_submit) (s : S) :
    flagcxResult_t * list Z * thread_submit * S :=
  match ops with
  | [] => (flagcxSuccess, [], tl, s)
  | op :: ops =>
    let '(scope, tl) := flagcxNetSetSubmitContext (Some (submit_of op)) tl in
    if failed scope then (flagcxInternalError, [], tl, s)
    else
      let '(result, request, s) :=
        issue s tl sendComm (op_srcOffset op) (op_dstOffset op) (op_size op) 0 0 (op_srcMr op) (op_dstMr op) in
      let tl := flagcxNetClearSubmitContext tl in
      if failed result then (result, [], tl, s)
      else
        let '(result, requests, tl, s) := post_ops issue sendComm ops tl s in
        (result, request :: requests, tl, s)
  end.

(** [requests] and [*postResult] after the call. *)
Definition post (context : option flagcxP2pNetBackendContext) (ops : option (list flagcxP2pTransferOp)) (count : Z)
    (requests : option (list Z)) (postResult : option flagcxNetPostResult) (tl : thread_submit) (s : S) :
    option (flagcxResult_t * option (list Z) * option flagcxNetPostResult * thread_submit * S) :=
  let invalid := Some (flagcxInvalidArgument, requests, postResult, tl, s) in
  match context, ops, requests with
  | Some c, Some ops, Some requests =>
    match bc_adaptor c with
    | None => invalid
    | Some adaptor =>
      if (bc_sendComm c =? NULL) || (bc_progressMutex c =? NULL) || bool_decide (postResult = None) || (count =? 0)
      then invalid
      else
        issue ← if negb (bc_write c =? 0) then na_iput adaptor else na_iget adaptor;
        let '(result, taken, tl, s) := post_ops issue (bc_sendComm c) (take (Z.to_nat count) ops) tl s in
        let accepted := Z.of_nat (length taken) in
        let '(r, postResult) := flagcxTransportPostResultInit postResult (int_of_u32 count) (int_of_u32 accepted)
          (if accepted =? count then flagcxSuccess else result) in
        Some (r, Some (taken ++ drop (length taken) requests), postResult, tl, s)
    end
  | _, _, _ => invalid
  end.

(** [*done] after the call. *)
Definition test (context : option flagcxP2pNetBackendContext) (request : Z) (done : option bool) (s : S) :
    option (flagcxResult_t * option bool * S) :=
  let invalid := Some (flagcxInvalidArgument, done, s) in
  match context, done with
  | Some c, Some _ =>
    match bc_adaptor c with
    | None => invalid
    | Some adaptor =>
      if bc_progressMutex c =? NULL then invalid
      else
        test ← na_test adaptor;
        let '(result, done, s) := test s request in
        match bc_quiesce c with
        | Some quiesce =>
          if failed result && negb (bool_decide (result = flagcxInProgress)) then
            let '(q, s) := quiesce s (bc_sendComm c) in
            Some (result, Some (negb (failed q)), s)
          else Some (result, Some done, s)
        | None => Some (result, Some done, s)
        end
    end
  | _, _ => invalid
  end.

(** [*context] after the call; the backend's functions are [post] and [test]. *)
Definition flagcxP2pNetBackendInit (context : option flagcxP2pNetBackendContext) (adaptor : option flagcxNetAdaptor)
    (sendComm progressMutex write : Z) (backend : bool) (quiesce : option (S -> Z -> flagcxResult_t * S)) :
    flagcxResult_t * option flagcxP2pNetBackendContext :=
  match context, adaptor with
  | Some _, Some a =>
    if (sendComm =? NULL) || (progressMutex =? NULL) || negb backend ||
       (negb (write =? 0) && negb (write =? 1)) || negb (bool_decide (is_Some (na_test a))) ||
       (if negb (write =? 0) then negb (bool_decide (is_Some (na_iput a))) else negb (bool_decide (is_Some (na_iget a))))
    then (flagcxInvalidArgument, context)
    else (flagcxSuccess, Some (MkBackendContext adaptor sendComm progressMutex write quiesce))
  | _, _ => (flagcxInvalidArgument, context)
  end.

(** ** The contract *)

(** [post] and [test] over the context [c] are these functions of a backend,
    whose state is the thread's submit context and the adaptor's. *)
Definition backed (c : flagcxP2pNetBackendContext)
    (post' : thread_submit * S -> list flagcxP2pTransferOp -> flagcxResult_t * list Z * flagcxNetPostResult * (thread_submit * S))
    (test' : thread_submit * S -> Z -> flagcxResult_t * bool * (thread_submit * S)) : Prop :=
  (forall tl s ops, ops <> [] ->
    let '(r, requests, pr, (tl', s')) := post' (tl, s) ops in
    post (Some c) (Some ops) (Z.of_nat (length ops)) (Some (replicate (length ops) NULL))
      (Some (MkPostResult flagcxSuccess 0 0)) tl s = Some (r, Some requests, Some pr, tl', s')) /\
  (forall tl s request,
    let '(r, d, (tl', s')) := test' (tl, s) request in
    test (Some c) request (Some false) s = Some (r, Some d, s') /\ tl' = tl).

Lemma post_ops_spec issue sendComm ops : forall tl s,
  exists r taken tl' s', post_ops issue sendComm ops tl s = (r, taken, tl', s') /\
    (length taken <= length ops)%nat /\ (failed r = false <-> length taken = length ops) /\
    (ts_valid tl = false \/ ops <> [] -> ts_valid tl' = false).
Proof.
  induction ops as [|op ops IH]; intros tl s; cbn [post_ops].
  - exists flagcxSuccess, [], tl, s. split_and!; try done. by intros [?|?].
  - cbn [flagcxNetSetSubmitContext]. change (failed flagcxSuccess) with false. cbn match.
    destruct (issue s _ _ _ _ _ _ _ _ _) as [[r request] s1]. destruct (failed r) eqn:Er.
    + exists r, [], (flagcxNetClearSubmitContext (MkThreadSubmit (submit_of op) true)), s1.
      split_and!; try done; [cbn; lia|]. rewrite Er. split; [done|]. cbn. lia.
    + destruct (IH (flagcxNetClearSubmitContext (MkThreadSubmit (submit_of op) true)) s1)
        as (r2 & taken & tl' & s' & -> & Hle & Hiff & Hv).
      exists r2, (request :: taken), tl', s'. split_and!; [done|cbn; lia|cbn; rewrite Hiff; lia|].
      intros _. apply Hv. by left.
Qed.

(** The operations are issued in order, each under its own submit context:
    what such calls preserve is preserved. *)
Lemma post_ops_preserves (Inv : S -> Prop) issue sendComm ops :
  (forall s op, op ∈ ops -> Inv s ->
    Inv (issue s (MkThreadSubmit (submit_of op) true) sendComm (op_srcOffset op) (op_dstOffset op) (op_size op) 0 0
      (op_srcMr op) (op_dstMr op)).2) ->
  forall tl s, Inv s -> Inv (post_ops issue sendComm ops tl s).2.
Proof.
  induction ops as [|op ops IH]; intros Hi tl s Hs; cbn [post_ops]; [done|].
  cbn [flagcxNetSetSubmitContext]. change (failed flagcxSuccess) with false. cbn match.
  specialize (Hi s op ltac:(left) Hs) as Hi1.
  destruct (issue s _ _ _ _ _ _ _ _ _) as [[r request] s1]. destruct (failed r); [done|].
  specialize (IH (fun s op Hin => Hi s op ltac:(by right)) (flagcxNetClearSubmitContext (MkThreadSubmit (submit_of op) true)) s1 Hi1).
  by destruct (post_ops _ _ _ _ _) as [[[? ?] ?] ?].
Qed.

(** The functions behind an initialised context. *)
Definition net_post (issue : issue_fn) (sendComm : Z) (st : thread_submit * S) (ops : list flagcxP2pTransferOp) :
    flagcxResult_t * list Z * flagcxNetPostResult * (thread_submit * S) :=
  let '(result, taken, tl, s) := post_ops issue sendComm ops st.1 st.2 in
  let n := Z.of_nat (length ops) in
  let accepted := Z.of_nat (length taken) in
  let '(r, pr) := flagcxTransportPostResultInit (Some (MkPostResult flagcxSuccess 0 0)) (int_of_u32 n) (int_of_u32 accepted)
    (if accepted =? n then flagcxSuccess else result) in
  (r, taken ++ replicate (length ops - length taken) NULL, default (MkPostResult flagcxSuccess 0 0) pr, (tl, s)).

Definition net_test (testFn : S -> Z -> flagcxResult_t * bool * S) (quiesce : option (S -> Z -> flagcxResult_t * S))
    (sendComm : Z) (st : thread_submit * S) (request : Z) : flagcxResult_t * bool * (thread_submit * S) :=
  let '(result, done, s) := testFn st.2 request in
  match quiesce with
  | Some quiesce =>
    if failed result && negb (bool_decide (result = flagcxInProgress)) then
      let '(q, s) := quiesce s sendComm in (result, negb (failed q), (st.1, s))
    else (result, done, (st.1, s))
  | None => (result, done, (st.1, s))
  end.

Lemma context_eq c a sendComm progressMutex write quiesce c0 :
  flagcxP2pNetBackendInit (Some c0) (Some a) sendComm progressMutex write true quiesce = (flagcxSuccess, Some c) ->
  c = MkBackendContext (Some a) sendComm progressMutex write quiesce /\ sendComm <> NULL /\ progressMutex <> NULL /\
  exists issue testFn, na_test a = Some testFn /\ (if negb (write =? 0) then na_iput a else na_iget a) = Some issue.
Proof.
  unfold flagcxP2pNetBackendInit.
  destruct (na_test a) as [testFn|] eqn:Et; [|rewrite !orb_true_r; cbn; rewrite ?orb_true_r; done].
  destruct (if negb (write =? 0) then na_iput a else na_iget a) as [issue|] eqn:Ei.
  2: { assert ((if negb (write =? 0) then negb (bool_decide (is_Some (na_iput a))) else
      negb (bool_decide (is_Some (na_iget a)))) = true) as -> by (destruct (negb _); by rewrite Ei).
    rewrite orb_true_r. done. }
  case_test; [done|]. intros [= <-]. split_and!; try done. by exists issue, testFn.
Qed.

Lemma net_functions_backed c a sendComm progressMutex write quiesce issue testFn :
  c = MkBackendContext (Some a) sendComm progressMutex write quiesce -> sendComm <> NULL -> progressMutex <> NULL ->
  na_test a = Some testFn -> (if negb (write =? 0) then na_iput a else na_iget a) = Some issue ->
  backed c (net_post issue sendComm) (net_test testFn quiesce sendComm).
Proof.
  intros -> Hs Hp Ht Hi. split.
  - intros tl s ops Hne. unfold net_post, post.
    cbn [bc_adaptor bc_sendComm bc_progressMutex bc_write fst snd].
    rewrite (proj2 (Z.eqb_neq sendComm _)), (proj2 (Z.eqb_neq progressMutex _)) by done.
    rewrite (proj2 (Z.eqb_neq (Z.of_nat _) 0)) by (destruct ops; [done|cbn; lia]). cbn [negb orb].
    rewrite bool_decide_eq_false_2 by done. cbn match. rewrite Hi. cbn [mbind option_bind].
    rewrite Nat2Z.id, firstn_all.
    destruct (post_ops_spec issue sendComm ops tl s) as (r & taken & tl' & s' & -> & Hle & _).
    destruct (flagcxTransportPostResultInit _ _ _ _) as [r0 pr] eqn:Epr.
    assert (Hpr : exists x, pr = Some x).
    { unfold flagcxTransportPostResultInit, flagcxNetPostResultInit in Epr. case_test_in Epr; injection Epr as <- <-; eauto. }
    destruct Hpr as [x ->]. rewrite drop_replicate. done.
  - intros tl s request. unfold net_test, test.
    cbn [bc_adaptor bc_sendComm bc_progressMutex bc_quiesce fst snd].
    rewrite (proj2 (Z.eqb_neq progressMutex _)) by done. rewrite Ht. cbn [mbind option_bind].
    destruct (testFn s request) as [[r d] s1]. destruct quiesce as [q|]; [|done].
    destruct (_ && _); [|done]. by destruct (q s1 sendComm).
Qed.

(** What the engine relies on, of a posted batch. *)
Definition posts_prefix (post' : thread_submit * S -> list flagcxP2pTransferOp ->
    flagcxResult_t * list Z * flagcxNetPostResult * (thread_submit * S)) : Prop :=
  forall tl s ops, ops <> [] -> Z.of_nat (length ops) <= INT_MAX ->
    let '(r, requests, pr, (tl', s')) := post' (tl, s) ops in
    r = flagcxSuccess /\ post_valid (Z.of_nat (length ops)) pr = true /\ ts_valid tl' = false /\
    (po_accepted pr = Z.of_nat (length ops) <-> po_result pr = flagcxSuccess) /\
    forall k request, requests !! k = Some request -> po_accepted pr <= Z.of_nat k -> request = NULL.

Lemma net_posts_prefix issue sendComm : posts_prefix (net_post issue sendComm).
Proof.
  intros tl s ops Hne Hmax. unfold net_post. cbn [fst snd].
  destruct (post_ops_spec issue sendComm ops tl s) as (r & taken & tl' & s' & -> & Hle & Hiff & Hv).
  assert (Hint : forall n, 0 <= n <= INT_MAX -> int_of_u32 n = n).
  { intros n Hn. unfold int_of_u32. by rewrite (proj2 (Z.ltb_ge _ _)) by lia. }
  rewrite !Hint by lia. unfold flagcxTransportPostResultInit, flagcxNetPostResultInit.
  rewrite !(proj2 (Z.ltb_ge _ _)) by lia. cbn [orb default from_option]. unfold id. split_and!; try done.
  - unfold post_valid. cbn [po_requested po_accepted]. rewrite Hint by lia.
    rewrite Z.eqb_refl, !(proj2 (Z.leb_le _ _)) by lia. done.
  - apply Hv. by right.
  - cbn [po_accepted po_result]. destruct (Z.eqb_spec (Z.of_nat (length taken)) (Z.of_nat (length ops))) as [He|He]; [done|].
    split; [done|]. intros Hr%failed_false%Hiff. lia.
  - cbn [po_accepted]. intros k request Hk Hge. rewrite lookup_app_r in Hk by lia. by apply lookup_replicate in Hk as [-> _].
Qed.

Lemma net_fills_requests issue sendComm : fills_requests (net_post issue sendComm).
Proof.
  intros [tl s] ops r requests pr s'. unfold net_post. cbn [fst snd].
  destruct (post_ops_spec issue sendComm ops tl s) as (r1 & taken & tl1 & s1 & -> & Hle & _).
  destruct (flagcxTransportPostResultInit _ _ _ _) as [r0 pr0]. intros [= <- <- <- <-].
  rewrite length_app, length_replicate. lia.
Qed.

End Adaptor.

(** ** Properties *)

(** C21: transfers over a network adaptor.  Once [flagcxP2pNetBackendInit] has
    accepted an adaptor, [post] and [test] are the functions of a backend of
    the engine: a batch is answered with the length of the prefix the adaptor
    took, in order, with its error when that is not all; each operation is
    issued under its own submit context, which is cleared afterwards; a failed
    request counts as done exactly when the provider could be quiesced.
    Transfers over it therefore tell the truth. *)
Theorem net_backend_contract {S} (c0 c : flagcxP2pNetBackendContext (S := S)) a sendComm progressMutex write quiesce :
  flagcxP2pNetBackendInit (Some c0) (Some a) sendComm progressMutex write true quiesce = (flagcxSuccess, Some c) ->
  exists post' test', backed c post' test' /\ posts_prefix post' /\
    (forall p ops maxPostBatch t st n, initialised p ops maxPostBatch t ->
      exists status t' w, progress_n (watch_test test') (watch_post post') n t (MkWatched st flagcxSuccess 0) =
          Some (flagcxSuccess, Some status, t', w) /\ status_ok (tr_items t') (pa_maxInFlight p) (w_error w) status) /\
    (forall q st request r done st', quiesce = Some q -> test' st request = (r, done, st') ->
      r <> flagcxSuccess -> r <> flagcxInProgress -> exists s1, done = negb (failed (q s1 sendComm).1)) /\
    (forall (Inv : S -> Prop) issue,
      (if negb (write =? 0) then na_iput a else na_iget a) = Some issue ->
      (forall s op, Inv s -> Inv (issue s (MkThreadSubmit (submit_of op) true) sendComm (op_srcOffset op) (op_dstOffset op)
        (op_size op) 0 0 (op_srcMr op) (op_dstMr op)).2) ->
      forall st ops, Inv st.2 -> Inv (post' st ops).2.2).
Proof.
  intros (Hc & Hs & Hp & issue & testFn & Ht & Hi)%context_eq.
  exists (net_post issue sendComm), (net_test testFn quiesce sendComm).
  split; [by eapply net_functions_backed|]. split; [apply net_posts_prefix|]. split_and!.
  - intros p ops b t st n Hinit.
    destruct (initialised_running p ops b t st Hinit) as [Hr _].
    destruct (progress_n_sound (net_test testFn quiesce sendComm) (net_post issue sendComm) p n t _ (net_fills_requests issue sendComm) Hr)
      as (status & t' & w & Hrun & _ & _ & Hok & _). by exists status, t', w.
  - intros q st request r done st' ->. unfold net_test. destruct (testFn st.2 request) as [[r1 d1] s1] eqn:E.
    destruct (failed r1 && negb (bool_decide (r1 = flagcxInProgress))) eqn:Ef.
    + destruct (q s1 sendComm) as [rq s2] eqn:Eq. intros [= <- <- <-] _ _. exists s1. by rewrite Eq.
    + intros [= -> <- <-] H1 H2. exfalso. rewrite (bool_decide_eq_false_2 _ H2), andb_true_r in Ef. by apply failed_false in Ef.
  - intros Inv issue' Hi' Hpres [tl s] ops Hinv. rewrite Hi in Hi'. injection Hi' as <-. unfold net_post. cbn [fst snd].
    pose proof (post_ops_preserves Inv issue sendComm ops (fun s op _ => Hpres s op) tl s Hinv) as Hpost.
    destruct (post_ops issue sendComm ops tl s) as [[[r taken] tl'] s']. by destruct (flagcxTransportPostResultInit _ _ _ _).
Qed.

Lemma net_backend_contract_witness :
  exists (c : flagcxP2pNetBackendContext (S := nat)) a,
    flagcxP2pNetBackendInit (Some (MkBackendContext None 0 0 0 None)) (Some a) 3 4 1 true None = (flagcxSuccess, Some c) /\
    exists post' test', backed c post' test' /\ posts_prefix post' /\
    (forall p ops maxPostBatch t st n, initialised p ops maxPostBatch t ->
      exists status t' w, progress_n (watch_test test') (watch_post post') n t (MkWatched st flagcxSuccess 0) =
          Some (flagcxSuccess, Some status, t', w) /\ status_ok (tr_items t') (pa_maxInFlight p) (w_error w) status) /\
    (forall (q : nat -> Z -> flagcxResult_t * nat) st request r done st', None = Some q -> test' st request = (r, done, st') ->
      r <> flagcxSuccess -> r <> flagcxInProgress -> exists s1, done = negb (failed (q s1 3).1)) /\
    (forall (Inv : nat -> Prop) issue,
      (if negb (1 =? 0) then na_iput a else na_iget a) = Some issue ->
      (forall s op, Inv s -> Inv (issue s (MkThreadSubmit (submit_of op) true) 3 (op_srcOffset op) (op_dstOffset op)
        (op_size op) 0 0 (op_srcMr op) (op_dstMr op)).2) ->
      forall st ops, Inv st.2 -> Inv (post' st ops).2.2).
Proof.
  set (a := MkNetAdaptor (S := nat) (Some (fun s _ _ _ _ _ _ _ _ _ => (flagcxSuccess, 9, S s))) None
    (Some (fun s _ => (flagcxSuccess, true, s)))).
  exists (MkBackendContext (Some a) 3 4 1 None), a. split; [reflexivity|].
  exact (net_backend_contract (MkBackendContext None 0 0 0 None) (MkBackendContext (Some a) 3 4 1 None) a 3 4 1 None eq_refl).
Defined.
