(* ===== verification/CollProxy.v ===== *)
(** The transport of a collective proxy operation
    ([flagcx/core/coll_proxy_transport.cc]): a window of submissions numbered
    from 0 on the completion scoreboard, and the ordering key that names a
    (channel, source, destination) domain. *)
From S2P Require Import Prelude Flagcx Arrays NetTransport NetScoreboard.

Abbreviation FLAGCX_COLL_PROXY_MAX_STEPS := 16 (only parsing).

(** ** The ordering key *)

Definition pack_domain (channelId srcRank dstRank : Z) : Z :=
  Z.lor (Z.lor (Z.lor (Z.shiftl (Z.land channelId 31) 49) (Z.shiftl (Z.land srcRank 16777215) 25))
    (Z.shiftl (Z.land dstRank 16777215) 1)) 1.

(** [value ^= value >> k] *)
Definition xor_shift (k v : Z) : Z := Z.lxor v (Z.shiftr v k).

Definition mix_domain (value : Z) : Z :=
  let value := xor_shift 30 value in
  let value := (value *u64 13787848793156543929)%word in
  let value := xor_shift 27 value in
  let value := (value *u64 10723151780598845931)%word in
  xor_shift 31 value.

(** The arguments are of type [int]; converted to [uint32_t]. *)
Definition flagcxCollProxyOrderingKey (channelId srcRank dstRank : Z) : Z :=
  let value := mix_domain (pack_domain (channelId mod U32_MOD) (srcRank mod U32_MOD) (dstRank mod U32_MOD)) in
  if value =? 0 then 1 else value.

(** ** The transport *)

Record flagcxCollProxyTransport := MkCollProxy {
  cp_scoreboard : flagcxNetCompletionScoreboard;
  cp_contexts : list flagcxNetSubmitContext;
  cp_orderingKey : Z;
  cp_generation : Z;
  cp_nextSubmit : Z;
  cp_laneMask : Z;
  cp_submitFlags : Z;
  cp_capacity : Z;
  cp_initialized : bool
}.

Definition set_cp_scoreboard (x : flagcxNetCompletionScoreboard) (t : flagcxCollProxyTransport) : flagcxCollProxyTransport :=
  MkCollProxy x (cp_contexts t) (cp_orderingKey t) (cp_generation t) (cp_nextSubmit t) (cp_laneMask t)
    (cp_submitFlags t) (cp_capacity t) (cp_initialized t).
Definition set_cp_submitted (contexts : list flagcxNetSubmitContext) (next : Z) (t : flagcxCollProxyTransport) :
    flagcxCollProxyTransport :=
  MkCollProxy (cp_scoreboard t) contexts (cp_orderingKey t) (cp_generation t) next (cp_laneMask t)
    (cp_submitFlags t) (cp_capacity t) (cp_initialized t).

(** [entries] is the array of the scoreboard. *)
Definition flagcxCollProxyTransportInit (transport : option flagcxCollProxyTransport)
    (capacity generation orderingKey submitFlags : Z) : option (flagcxResult_t * option flagcxCollProxyTransport) :=
  match transport with
  | None => Some (flagcxInvalidArgument, None)
  | Some _ =>
    if (capacity =? 0) || (FLAGCX_COLL_PROXY_MAX_STEPS <? capacity) then Some (flagcxInvalidArgument, transport)
    else
      let n := Z.to_nat FLAGCX_COLL_PROXY_MAX_STEPS in
      '(result, sb) ← flagcxNetCompletionScoreboardInit true (Some (replicate n flagcxNetCompletionEntryReset)) capacity
        generation 0;
      let t := MkCollProxy (default scoreboard_zero sb) (replicate n submit_context_zero) orderingKey generation 0 NULL
        (Z.lor submitFlags FLAGCX_NET_SUBMIT_DATA) capacity (negb (failed result)) in
      Some (result, Some t)
  end.

(** The index of the context handed out in [contexts]. *)
Definition flagcxCollProxyTrackNext (transport : option flagcxCollProxyTransport) (context : bool) :
    option (flagcxResult_t * option flagcxCollProxyTransport * option Z) :=
  match transport with
  | None => Some (flagcxInvalidArgument, None, None)
  | Some t =>
    if negb context || negb (cp_initialized t) then Some (flagcxInvalidArgument, transport, None)
    else
      let sequence := cp_nextSubmit t in
      let candidate := MkSubmitContext (cp_orderingKey t) 0 (cp_generation t) sequence (cp_submitFlags t) (cp_laneMask t) in
      '(result, sb, _) ← flagcxNetTrackSubmit (Some (cp_scoreboard t)) (Some candidate) NULL ∅;
      sb ← sb;
      let t := set_cp_scoreboard sb t in
      if failed result then Some (result, Some t, None)
      else
        contexts ← arr_set (cp_contexts t) (sequence mod cp_capacity t) candidate;
        Some (flagcxSuccess, Some (set_cp_submitted contexts (cp_nextSubmit t +u64 1)%word t),
          Some (sequence mod cp_capacity t))
  end.

Definition flagcxCollProxyCancel (transport : option flagcxCollProxyTransport) (context : option flagcxNetSubmitContext) :
    option (flagcxResult_t * option flagcxCollProxyTransport) :=
  match transport, context with
  | Some t, Some c =>
    if negb (cp_initialized t) || (cp_nextSubmit t =? 0) || negb ((sc_sequence c +u64 1)%word =? cp_nextSubmit t)
    then Some (flagcxInvalidArgument, transport)
    else
      '(result, sb, _) ← flagcxNetTrackCancel (Some (cp_scoreboard t)) context ∅;
      sb ← sb;
      let t := set_cp_scoreboard sb t in
      if failed result then Some (result, Some t)
      else Some (flagcxSuccess, Some (set_cp_submitted (cp_contexts t) (cp_nextSubmit t -u64 1)%word t))
  | _, _ => Some (flagcxInvalidArgument, transport)
  end.

(** [*advanced] after the call. *)
Definition flagcxCollProxyComplete (transport : option flagcxCollProxyTransport) (context : option flagcxNetSubmitContext)
    (result : flagcxResult_t) (advanced : bool) : option (flagcxResult_t * option flagcxCollProxyTransport * option Z) :=
  match transport, context with
  | Some t, Some c =>
    if negb advanced || negb (cp_initialized t) then Some (flagcxInvalidArgument, transport, None)
    else
      '(r, sb, _, adv) ← flagcxNetTrackCompletion (Some (cp_scoreboard t)) context result true ∅;
      sb ← sb;
      Some (r, Some (set_cp_scoreboard sb t), adv)
  | _, _ => Some (flagcxInvalidArgument, transport, None)
  end.

(** ** The key names its domain *)

Lemma xor_shift_inj k x y : 0 < k -> 0 <= x -> 0 <= y -> xor_shift k x = xor_shift k y -> x = y.
Proof.
  unfold xor_shift. intros Hk Hx Hy He. apply Z.lxor_eq. set (z := Z.lxor x y).
  assert (Hz : z = Z.shiftr z k).
  { apply Z.bits_inj'. intros n Hn. unfold z. rewrite Z.shiftr_spec, !Z.lxor_spec by done.
    assert (Hb : Z.testbit (Z.lxor x (Z.shiftr x k)) n = Z.testbit (Z.lxor y (Z.shiftr y k)) n) by (by rewrite He).
    rewrite !Z.lxor_spec, !Z.shiftr_spec in Hb by done.
    destruct (Z.testbit x n), (Z.testbit y n), (Z.testbit x (n + k)), (Z.testbit y (n + k)); done. }
  assert (Hnn : 0 <= z) by (by apply Z.lxor_nonneg).
  rewrite Z.shiftr_div_pow2 in Hz by lia. destruct (Z.eq_dec z 0) as [|Hne]; [done|]. exfalso.
  pose proof (Z.div_lt z (2 ^ k)). pose proof (Z.pow_gt_1 2 k). lia.
Qed.

Lemma xor_shift_range k v : 0 <= k -> 0 <= v < U64_MOD -> 0 <= xor_shift k v < U64_MOD.
Proof.
  intros Hk Hv. unfold xor_shift. change U64_MOD with (2 ^ 64) in *.
  assert (Hs : 0 <= Z.shiftr v k < 2 ^ 64).
  { rewrite Z.shiftr_div_pow2 by done. split; [apply Z.div_pos; lia|].
    apply Z.le_lt_trans with v; [|lia]. apply Z.div_le_upper_bound; [lia|]. pose proof (Z.pow_pos_nonneg 2 k). nia. }
  assert (Hn : 0 <= Z.lxor v (Z.shiftr v k)) by (apply Z.lxor_nonneg; lia). split; [done|].
  destruct (Z.eq_dec (Z.lxor v (Z.shiftr v k)) 0) as [->|Hne]; [lia|]. apply Z.log2_lt_pow2; [lia|].
  pose proof (Z.log2_lxor v (Z.shiftr v k)).
  assert (forall x, 0 <= x < 2 ^ 64 -> Z.log2 x < 64).
  { intros x Hx. destruct (Z.eq_dec x 0) as [->|]; [done|]. apply Z.log2_lt_pow2; lia. }
  assert (Z.log2 v < 64) by auto. assert (Z.log2 (Z.shiftr v k) < 64) by auto. lia.
Qed.

(** Multiplying by a unit of the ring of 64-bit words. *)
Lemma mul_unit_inj a b x y :
  (a * b) mod U64_MOD = 1 -> 0 <= x < U64_MOD -> 0 <= y < U64_MOD -> (x *u64 a)%word = (y *u64 a)%word -> x = y.
Proof.
  intros Hu Hx Hy He. rewrite <- (Z.mod_small x U64_MOD), <- (Z.mod_small y U64_MOD) by done.
  assert (H : forall z, z mod U64_MOD = ((z *u64 a)%word * b) mod U64_MOD).
  { intros z. rewrite Z.mul_mod_idemp_l, <- Z.mul_assoc, <- Z.mul_mod_idemp_r, Hu, Z.mul_1_r by done. done. }
  by rewrite H, He, <- H.
Qed.

Lemma mix_domain_inj x y : 0 <= x < U64_MOD -> 0 <= y < U64_MOD -> mix_domain x = mix_domain y -> x = y.
Proof.
  intros Hx Hy He. unfold mix_domain in He.
  pose proof (fun v => Z.mod_pos_bound v U64_MOD eq_refl) as Hm.
  apply xor_shift_inj in He; [|lia|apply Hm|apply Hm].
  apply (mul_unit_inj _ 3573116690164977347) in He; [|reflexivity|apply xor_shift_range; [lia|apply Hm]..].
  apply xor_shift_inj in He; [|lia|apply Hm|apply Hm].
  apply (mul_unit_inj _ 10871156337175269513) in He; [|reflexivity|apply xor_shift_range; [lia|done]..].
  apply xor_shift_inj in He; lia.
Qed.

Lemma mix_domain_zero : mix_domain 0 = 0.
Proof. reflexivity. Qed.

Lemma lor_shifted a b k : 0 <= k -> 0 <= b < 2 ^ k -> Z.lor (a * 2 ^ k) b = a * 2 ^ k + b.
Proof.
  intros Hk Hb.
  assert (Hz : Z.land (a * 2 ^ k) b = 0).
  { apply Z.bits_inj'. intros n Hn. rewrite Z.land_spec, Z.bits_0.
    destruct (Z.lt_ge_cases n k) as [Hlt|Hge]; [by rewrite Z.mul_pow2_bits_low by done|].
    assert (Hh : Z.testbit b n = false).
    { destruct (Z.eq_dec b 0) as [->|]; [apply Z.bits_0|]. apply Z.bits_above_log2; [lia|].
      apply Z.lt_le_trans with k; [apply Z.log2_lt_pow2; lia|done]. }
    by rewrite Hh, andb_false_r. }
  rewrite <- Z.lxor_lor by done. by rewrite <- Z.add_nocarry_lxor by done.
Qed.

(** The fields of the packed value. *)
Lemma pack_domain_sum c s d :
  0 <= c < 32 -> 0 <= s < 16777216 -> 0 <= d < 16777216 ->
  pack_domain c s d = c * 2 ^ 49 + s * 2 ^ 25 + d * 2 + 1.
Proof.
  intros Hc Hs Hd. unfold pack_domain.
  change 31 with (Z.ones 5). change 16777215 with (Z.ones 24). rewrite !Z.land_ones by lia.
  rewrite (Z.mod_small c), (Z.mod_small s), (Z.mod_small d) by (cbn; lia).
  pose proof lor_shifted as Hor.
  rewrite !Z.shiftl_mul_pow2 by lia.
  rewrite (Hor c (s * 2 ^ 25) 49) by lia.
  replace (c * 2 ^ 49 + s * 2 ^ 25) with ((c * 2 ^ 24 + s) * 2 ^ 25) by lia.
  rewrite (Hor _ (d * 2 ^ 1) 25) by lia.
  replace ((c * 2 ^ 24 + s) * 2 ^ 25 + d * 2 ^ 1) with ((c * 2 ^ 48 + s * 2 ^ 24 + d) * 2 ^ 1) by lia.
  rewrite (Hor _ 1 1) by lia. lia.
Qed.

(** ** The window *)

(** The context of the [s]-th submission. *)
Definition context_of (t : flagcxCollProxyTransport) (s : Z) : flagcxNetSubmitContext :=
  MkSubmitContext (cp_orderingKey t) 0 (cp_generation t) s (cp_submitFlags t) (cp_laneMask t).

Inductive coll_call := TrackNext | Cancel (c : flagcxNetSubmitContext) | Complete (c : flagcxNetSubmitContext) (r : flagcxResult_t).

Definition run_coll (call : coll_call) (t : flagcxCollProxyTransport) :
    option (flagcxResult_t * option flagcxCollProxyTransport) :=
  match call with
  | TrackNext => '(r, t, _) ← flagcxCollProxyTrackNext (Some t) true; Some (r, t)
  | Cancel c => flagcxCollProxyCancel (Some t) (Some c)
  | Complete c r => '(r, t, _) ← flagcxCollProxyComplete (Some t) (Some c) r true; Some (r, t)
  end.

Definition coll_call_ok (call : coll_call) : Prop :=
  match call with TrackNext => True | Cancel c | Complete c _ => is_u64 (sc_sequence c) end.

Definition coll_step (t t' : flagcxCollProxyTransport) : Prop :=
  exists call r, coll_call_ok call /\ run_coll call t = Some (r, Some t').

Record coll_inv (t : flagcxCollProxyTransport) (a : abs_board) : Prop := {
  ci_init : cp_initialized t = true;
  ci_cap : 0 < cp_capacity t <= FLAGCX_COLL_PROXY_MAX_STEPS /\
    Z.of_nat (length (cp_contexts t)) = FLAGCX_COLL_PROXY_MAX_STEPS;
  ci_board : implements (cp_scoreboard t) a /\ ab_capacity a = cp_capacity t /\ ab_generation a = cp_generation t;
  ci_next : 0 <= ab_next a <= cp_nextSubmit t /\ cp_nextSubmit t <= ab_next a + cp_capacity t /\
    cp_nextSubmit t <= U64_MAX;
  ci_live : forall s, match ab_live a !! s with
    | Some l => ab_next a <= s < cp_nextSubmit t /\ le_context l = context_of t s /\ le_group l = NULL
    | None => ~ ab_next a <= s < cp_nextSubmit t
    end;
  ci_contexts : forall s, ab_next a <= s < cp_nextSubmit t ->
    cp_contexts t !! Z.to_nat (s mod cp_capacity t) = Some (context_of t s)
}.

Section Window.
Context (t : flagcxCollProxyTransport) (a : abs_board).
Hypothesis I : coll_inv t a.

Lemma coll_alive : groups_alive a ∅.
Proof.
  split; [done|]. intros s l Hl Hg. pose proof (ci_live _ _ I s) as Hs. rewrite Hl in Hs. by destruct Hs as (_ & _ & ?).
Qed.

(** The scoreboard may change as long as it implements the same. *)
Lemma coll_inv_scoreboard sb : implements sb a -> coll_inv (set_cp_scoreboard sb t) a.
Proof. intros Him. destruct I as [Hi Hc (_ & Hcap & Hgen) Hn Hlive Hctx]. by constructor. Qed.

(** [flagcxCollProxyTrackNext]: backpressure when the window is full, the next
    number otherwise. *)
Lemma track_next_spec :
  cp_nextSubmit t < U64_MAX ->
  if cp_nextSubmit t =? ab_next a + cp_capacity t
  then exists t', flagcxCollProxyTrackNext (Some t) true = Some (flagcxInProgress, Some t', None) /\ coll_inv t' a /\
    cp_nextSubmit t' = cp_nextSubmit t
  else exists t' a', flagcxCollProxyTrackNext (Some t) true =
      Some (flagcxSuccess, Some t', Some (cp_nextSubmit t mod cp_capacity t)) /\
    coll_inv t' a' /\ cp_nextSubmit t' = cp_nextSubmit t + 1 /\
    cp_contexts t' !! Z.to_nat (cp_nextSubmit t mod cp_capacity t) = Some (context_of t' (cp_nextSubmit t)).
Proof.
  intros Hmax. destruct I as [Hi [Hc Hlen] (Him & Hcap & Hgen) (Hn0 & Hn1 & Hn2) Hlive Hctx].
  unfold flagcxCollProxyTrackNext. rewrite Hi. cbn [negb orb]. fold (context_of t (cp_nextSubmit t)).
  set (c := context_of t (cp_nextSubmit t)). set (n := cp_nextSubmit t) in *.
  destruct (submit_meets (cp_scoreboard t) a ∅ c NULL Him) as (sb & Hrun & Him'); [unfold is_u64; cbn; lia|done|].
  cbn [run_call] in Hrun. rewrite Hrun. cbn [mbind option_bind]. clear Hrun.
  pose proof (Hlive n) as Hfree. destruct (ab_live a !! n) as [l|] eqn:El; [lia|]. clear Hfree.
  assert (Hspec : spec_submit c NULL a ∅ = if n =? ab_next a + cp_capacity t then (flagcxInProgress, a, ∅)
    else (flagcxSuccess, set_ab_live (<[n := MkLive c NULL None]> (ab_live a)) a, ∅)).
  { unfold spec_submit. cbn [sc_sequence sc_generation sc_groupId c context_of].
    rewrite (proj2 (Z.eqb_neq n U64_MAX)), Hgen, Z.eqb_refl, (proj2 (Z.ltb_ge n (ab_next a))), Hcap by lia. cbn [negb orb].
    destruct (Z.eqb_spec n (ab_next a + cp_capacity t)) as [He|He].
    - by rewrite (proj2 (Z.leb_le _ _)) by lia.
    - rewrite (proj2 (Z.leb_gt _ _)), El, (bool_decide_eq_false_2 (is_Some None)) by (lia || by intros [? ?]). done. }
  rewrite Hspec in Him' |- *. destruct (Z.eqb_spec n (ab_next a + cp_capacity t)) as [He|He]; cbn [fst snd] in Him' |- *.
  - change (failed flagcxInProgress) with true. cbn match. eexists. split; [done|]. split; [|done].
    by apply coll_inv_scoreboard.
  - change (failed flagcxSuccess) with false. cbn match. cbn [cp_contexts cp_capacity cp_nextSubmit set_cp_scoreboard].
    assert (Hslot : 0 <= n mod cp_capacity t < cp_capacity t) by (apply Z.mod_pos_bound; lia).
    unfold arr_set. rewrite (proj2 (Z.leb_le 0 _)), (proj2 (Z.ltb_lt _ _)) by lia. cbn [andb mbind option_bind].
    change (cp_nextSubmit t) with n. rewrite (Z.mod_small (n + 1)) by lia. eexists _, (set_ab_live (<[n := MkLive c NULL None]> (ab_live a)) a).
    split; [reflexivity|]. split; [|split; [done|]].
    2: { cbn [cp_contexts set_cp_submitted set_cp_scoreboard]. rewrite list_lookup_insert_eq by lia. done. }
    unfold set_ab_live. constructor; cbn [cp_initialized cp_capacity cp_contexts cp_scoreboard cp_generation cp_nextSubmit set_cp_submitted
      set_cp_scoreboard ab_next ab_live ab_capacity ab_generation set_ab_live]; try done; try lia.
    + rewrite length_insert. lia.
    + intros s. destruct (decide (s = n)) as [->|Hne].
      * rewrite lookup_insert_eq. split; [lia|done].
      * rewrite lookup_insert_ne by done. specialize (Hlive s). destruct (ab_live a !! s); [|lia].
        destruct Hlive as (? & ? & ?). split; [lia|done].
    + intros s Hs. destruct (decide (s = n)) as [->|Hne]; [by rewrite list_lookup_insert_eq by lia|].
      rewrite list_lookup_insert_ne; [apply Hctx; lia|]. intros He'. apply Hne.
      pose proof (Z.mod_pos_bound s (cp_capacity t)). apply (slot_inj (ab_next a) (cp_capacity t)); lia.
Qed.

(** [flagcxCollProxyCancel] takes back the last submission while it is
    pending. *)
Lemma cancel_spec c :
  is_u64 (sc_sequence c) ->
  exists r t' a', flagcxCollProxyCancel (Some t) (Some c) = Some (r, Some t') /\ coll_inv t' a' /\
    cp_nextSubmit t' = (if failed r then cp_nextSubmit t else cp_nextSubmit t - 1).
Proof.
  intros Hu. pose proof I as [Hi [Hc Hlen] (Him & Hcap & Hgen) (Hn0 & Hn1 & Hn2) Hlive Hctx].
  unfold flagcxCollProxyCancel. rewrite Hi. cbn [negb orb].
  destruct ((cp_nextSubmit t =? 0) || _) eqn:Eg; [by do 3 eexists|]. bool_to_prop. unfold is_u64 in Hu.
  assert (Hseq : sc_sequence c = cp_nextSubmit t - 1).
  { match goal with H : (sc_sequence c + 1) mod _ = _ |- _ => rename H into Hm end.
    destruct (decide (sc_sequence c = U64_MAX)) as [E|]; [rewrite E in Hm; change ((U64_MAX + 1) mod U64_MOD) with 0 in Hm; lia|]. rewrite Z.mod_small in Hm by lia. lia. }
  destruct (cancel_meets (cp_scoreboard t) a ∅ c Him coll_alive) as (sb & Hrun & Him'); [unfold is_u64; lia|].
  cbn [run_call] in Hrun. rewrite Hrun. cbn [mbind option_bind]. clear Hrun. unfold spec_cancel in *.
  destruct (find_pending a c) as [l|] eqn:Ef; cbn [fst snd] in Him' |- *.
  2: { change (failed flagcxInvalidArgument) with true. cbn match. do 3 eexists. split; [done|].
    split; [by apply coll_inv_scoreboard|done]. }
  rewrite lookup_empty in Him' |- *. cbn [fst snd] in Him' |- *. change (failed flagcxSuccess) with false. cbn match.
  cbn [cp_contexts cp_nextSubmit set_cp_scoreboard]. rewrite Z.mod_small by lia.
  assert (Hin : ab_next a <= sc_sequence c).
  { apply find_pending_live in Ef as [Hl _]. specialize (Hlive (sc_sequence c)). rewrite Hl in Hlive. lia. }
  eexists _, _, (set_ab_live (delete (sc_sequence c) (ab_live a)) a). split; [reflexivity|]. split; [|done].
  unfold set_ab_live. constructor; cbn [cp_initialized cp_capacity cp_contexts cp_scoreboard cp_generation cp_nextSubmit set_cp_submitted
    set_cp_scoreboard ab_next ab_live ab_capacity ab_generation set_ab_live]; try done; try lia.
  - intros s. destruct (decide (s = sc_sequence c)) as [->|Hne]; [rewrite lookup_delete_eq; lia|].
    rewrite lookup_delete_ne by done. specialize (Hlive s). destruct (ab_live a !! s); [|lia].
    destruct Hlive as (? & ? & ?). split; [lia|done].
  - intros s Hs. apply Hctx. lia.
Qed.

Lemma complete_spec c r :
  is_u64 (sc_sequence c) ->
  exists r' t' a' adv, flagcxCollProxyComplete (Some t) (Some c) r true = Some (r', Some t', adv) /\ coll_inv t' a' /\
    cp_nextSubmit t' = cp_nextSubmit t.
Proof.
  intros Hu. pose proof I as [Hi [Hc Hlen] (Him & Hcap & Hgen) (Hn0 & Hn1 & Hn2) Hlive Hctx].
  unfold flagcxCollProxyComplete. rewrite Hi. cbn [negb orb].
  destruct (complete_meets (cp_scoreboard t) a ∅ c r Him coll_alive Hu) as (sb & Hrun & Him').
  cbn [run_call] in Hrun. destruct (flagcxNetTrackCompletion _ _ _ _ _) as [[[[r1 sb1] gs1] adv]|] eqn:E; [|done].
  cbn [mbind option_bind] in Hrun |- *. injection Hrun as -> -> _. cbn [mbind option_bind].
  unfold spec_complete in *. destruct (find_pending a c) as [l|] eqn:Ef; cbn [fst snd] in Him' |- *.
  2: { do 4 eexists. split; [done|]. split; [by apply coll_inv_scoreboard|done]. }
  case_bool_decide as Hr; [do 4 eexists; split; [done|]; split; [by apply coll_inv_scoreboard|done]|].
  rewrite lookup_empty in Him' |- *. cbn [fst snd] in Him' |- *.
  eexists _, _, (retire_completed c l r a), _. split; [done|]. split; [|done].
  apply find_pending_live in Ef as [Hl Hd].
  pose proof (Hlive (sc_sequence c)) as Hlc. rewrite Hl in Hlc. destruct Hlc as (Hlr & Hlctx & Hlg).
  set (live := <[sc_sequence c := MkLive (le_context l) (le_group l) (Some r)]> (ab_live a)) in *.
  assert (Hlive' : forall s, match live !! s with
    | Some l => ab_next a <= s < cp_nextSubmit t /\ le_context l = context_of t s /\ le_group l = NULL
    | None => ~ ab_next a <= s < cp_nextSubmit t end).
  { intros s. unfold live. destruct (decide (s = sc_sequence c)) as [->|]; [by rewrite lookup_insert_eq|].
    rewrite lookup_insert_ne by done. apply Hlive. }
  set (n := prefix_done (Z.to_nat (ab_capacity a)) (ab_next a) live).
  assert (Hnx : ab_next a + Z.of_nat n <= cp_nextSubmit t).
  { destruct n as [|n'] eqn:En; [lia|].
    destruct (prefix_done_all (Z.to_nat (ab_capacity a)) (ab_next a) live (ab_next a + Z.of_nat n')) as (y & Hy & _);
      [fold n; lia|]. specialize (Hlive' (ab_next a + Z.of_nat n')). rewrite Hy in Hlive'. lia. }
  unfold retire_completed. fold live. fold n.
  constructor; cbn [cp_initialized cp_capacity cp_contexts cp_scoreboard cp_generation cp_nextSubmit set_cp_scoreboard
    ab_next ab_live ab_capacity ab_generation]; try done; try lia.
  - intros s. specialize (Hlive' s). destruct (live_from _ _ !! s) as [x|] eqn:Ex.
    + apply live_from_lookup in Ex as [Hx Hge]. rewrite Hx in Hlive'. destruct Hlive' as (? & ? & ?). split; [lia|done].
    + intros Hs. destruct (live !! s) as [x|] eqn:Hx; [|lia].
      assert (live_from (ab_next a + Z.of_nat n) live !! s = Some x) by (apply live_from_lookup; split; [done|lia]). congruence.
  - intros s Hs. apply Hctx. lia.
Qed.

End Window.

Lemma coll_init_inv t0 capacity generation orderingKey submitFlags t :
  0 <= capacity -> flagcxCollProxyTransportInit (Some t0) capacity generation orderingKey submitFlags = Some (flagcxSuccess, Some t) ->
  exists a, coll_inv t a.
Proof.
  intros Hc. unfold flagcxCollProxyTransportInit. case_test; [done|].
  destruct (scoreboard_init_implements (replicate (Z.to_nat FLAGCX_COLL_PROXY_MAX_STEPS) flagcxNetCompletionEntryReset)
    capacity generation 0) as (sb & -> & Him); [lia|rewrite length_replicate; lia|lia|].
  cbn [mbind option_bind default from_option]. intros [= <-]. unfold id.
  exists (MkAbsBoard capacity generation 0 flagcxSuccess ∅).
  constructor; cbn [cp_initialized cp_capacity cp_contexts cp_scoreboard cp_generation cp_nextSubmit ab_next ab_live
    ab_capacity ab_generation]; try done; try lia.
  - split; [lia|done].
  - intros s. rewrite lookup_empty. lia.
Qed.

Lemma coll_step_inv t t' a : cp_nextSubmit t < U64_MAX -> coll_inv t a -> coll_step t t' ->
  exists a', coll_inv t' a' /\ cp_nextSubmit t' <= cp_nextSubmit t + 1.
Proof.
  intros Hmax I (call & r & Hok & Hrun). destruct call as [|c|c r0]; cbn [run_coll coll_call_ok] in *.
  - pose proof (track_next_spec t a I Hmax) as Hs. destruct (_ =? _).
    + destruct Hs as (t1 & E & I1 & Hn). rewrite E in Hrun. cbn in Hrun. simplify_eq. exists a. split; [done|lia].
    + destruct Hs as (t1 & a1 & E & I1 & Hn & _). rewrite E in Hrun. cbn in Hrun. simplify_eq. exists a1. split; [done|lia].
  - destruct (cancel_spec t a I c Hok) as (r1 & t1 & a1 & E & I1 & Hn). rewrite E in Hrun. simplify_eq.
    exists a1. split; [done|]. destruct (failed _); lia.
  - destruct (complete_spec t a I c r0 Hok) as (r1 & t1 & a1 & adv & E & I1 & Hn). rewrite E in Hrun. cbn in Hrun. simplify_eq.
    exists a1. split; [done|lia].
Qed.

Definition coll_initialised (t : flagcxCollProxyTransport) : Prop :=
  exists t0 capacity generation orderingKey submitFlags, 0 <= capacity /\
    flagcxCollProxyTransportInit (Some t0) capacity generation orderingKey submitFlags = Some (flagcxSuccess, Some t).

(** A call while fewer than 2^64 - 1 submissions were made. *)
Definition coll_step_bounded (t t' : flagcxCollProxyTransport) : Prop := cp_nextSubmit t < U64_MAX /\ coll_step t t'.

Lemma coll_reachable_inv t t' : coll_initialised t -> reach coll_step_bounded t t' -> exists a, coll_inv t' a.
Proof.
  intros (t0 & cap & gen & key & flags & Hc & Hi) Hr. apply coll_init_inv in Hi; [|done]. revert t t' Hr Hi.
  apply (reach_invariant coll_step_bounded (fun t => exists a, coll_inv t a)).
  intros t1 t2 [a I] [Hmax Hs]. destruct (coll_step_inv t1 t2 a Hmax I Hs) as (a' & I' & _). eauto.
Qed.

(** ** Properties *)

(** C39: the window of a collective operation.  After
    [flagcxCollProxyTransportInit] and any sequence of calls, with any
    contexts, the submissions that are not retired are those from
    [nextSequence] to [nextSubmit], at most [capacity]; the context handed out
    for each is still in its slot and in the scoreboard's entry.  The next
    submission meets backpressure exactly when there are [capacity] of them,
    and otherwise gets the next number. *)
Theorem coll_window t0 t :
  coll_initialised t0 -> reach coll_step_bounded t0 t -> cp_nextSubmit t < U64_MAX ->
  let next := sb_nextSequence (cp_scoreboard t) in
  sb_inFlight (cp_scoreboard t) = cp_nextSubmit t - next /\ 0 <= cp_nextSubmit t - next <= cp_capacity t /\
  (forall s, next <= s < cp_nextSubmit t ->
    cp_contexts t !! Z.to_nat (s mod cp_capacity t) = Some (context_of t s) /\
    exists es e, sb_entries (cp_scoreboard t) = Some es /\ es !! Z.to_nat (s mod cp_capacity t) = Some e /\
      ce_state e <> FLAGCX_NET_COMPLETION_ENTRY_FREE /\ ce_context e = context_of t s) /\
  exists t' r i, flagcxCollProxyTrackNext (Some t) true = Some (r, Some t', i) /\
    if cp_nextSubmit t - next =? cp_capacity t then r = flagcxInProgress /\ i = None /\ cp_nextSubmit t' = cp_nextSubmit t
    else r = flagcxSuccess /\ i = Some (cp_nextSubmit t mod cp_capacity t) /\ cp_nextSubmit t' = cp_nextSubmit t + 1.
Proof.
  intros Hi Hr Hmax next. destruct (coll_reachable_inv t0 t Hi Hr) as [a I].
  pose proof (track_next_spec t a I Hmax) as Hnext.
  destruct I as [_ [Hc _] (((es & He & T & _) & Hcap & _ & Hnx & _) & Hacap & _) (Hn0 & Hn1 & _) Hlive Hctx].
  assert (Hnext' : next = ab_next a) by done. rewrite Hnext' in *.
  assert (Hsize : Z.of_nat (size (ab_live a)) = cp_nextSubmit t - ab_next a).
  { assert (Hd : (dom (ab_live a) : gset Z) = list_to_set (seqZ (ab_next a) (cp_nextSubmit t - ab_next a))).
    { apply set_eq. intros s. rewrite elem_of_dom, elem_of_list_to_set, elem_of_seqZ. specialize (Hlive s).
      destruct (ab_live a !! s); [|split; [by intros [? ?]|intros; exfalso; lia]]. split; [lia|by eauto]. }
    rewrite <- size_dom, Hd, size_list_to_set by apply NoDup_seqZ. rewrite length_seqZ. lia. }
  split; [rewrite (tk_inFlight _ _ _ T); lia|]. split; [lia|]. split.
  - intros s Hs. split; [by apply Hctx|]. specialize (Hlive s).
    destruct (ab_live a !! s) as [l|] eqn:El; [|lia]. destruct Hlive as (_ & Hcx & _).
    exists es, (entry_of (Some l)). split; [done|].
    pose proof (tk_slots _ _ _ T s) as Hslot. rewrite Hnx, Hcap, Hacap, El in Hslot. split; [apply Hslot; lia|].
    split; [by rewrite entry_state_free|done].
  - destruct (Z.eqb_spec (cp_nextSubmit t) (ab_next a + cp_capacity t)), (Z.eqb_spec (cp_nextSubmit t - ab_next a) (cp_capacity t)); try lia.
    + destruct Hnext as (t' & E & _ & Hn). by exists t', flagcxInProgress, None.
    + destruct Hnext as (t' & a' & E & _ & Hn & _). by eexists t', flagcxSuccess, _.
Qed.

(** the ordering key names its domain.  Keys of channels below 32 and of
    ranks below 2^24 are never zero and differ whenever the channel, the
    source or the destination does. *)
Theorem ordering_key_injective c s d c' s' d' :
  0 <= c < 32 -> 0 <= s < 16777216 -> 0 <= d < 16777216 ->
  0 <= c' < 32 -> 0 <= s' < 16777216 -> 0 <= d' < 16777216 ->
  flagcxCollProxyOrderingKey c s d <> 0 /\
  (flagcxCollProxyOrderingKey c s d = flagcxCollProxyOrderingKey c' s' d' -> c = c' /\ s = s' /\ d = d').
Proof.
  intros Hc Hs Hd Hc' Hs' Hd'. unfold flagcxCollProxyOrderingKey. rewrite !Z.mod_small by lia.
  rewrite !pack_domain_sum by done. set (x := _ + 1). set (y := c' * _ + _ + _ + 1).
  assert (Hx : 0 < x < U64_MOD) by lia. assert (Hy : 0 < y < U64_MOD) by lia.
  assert (Hnz : forall v, 0 < v < U64_MOD -> (mix_domain v =? 0) = false).
  { intros v Hv. apply Z.eqb_neq. intros Hz. rewrite <- mix_domain_zero in Hz. apply mix_domain_inj in Hz; lia. }
  rewrite !Hnz by done. split; [by apply Z.eqb_neq, Hnz|]. intros He. apply mix_domain_inj in He; [|lia|lia].
  unfold x, y in He. lia.
Qed.

Lemma ordering_key_injective_witness :
  flagcxCollProxyOrderingKey 1 5 6 <> 0 /\
  (flagcxCollProxyOrderingKey 1 5 6 = flagcxCollProxyOrderingKey 1 6 5 -> 1 = 1 /\ 5 = 6 /\ 6 = 5).
Proof. apply (ordering_key_injective 1 5 6 1 6 5); lia. Defined.

Lemma coll_window_witness :
  exists t0 t, coll_initialised t0 /\ reach coll_step_bounded t0 t /\ cp_nextSubmit t < U64_MAX /\
    let next := sb_nextSequence (cp_scoreboard t) in
    sb_inFlight (cp_scoreboard t) = cp_nextSubmit t - next /\ 0 <= cp_nextSubmit t - next <= cp_capacity t /\
    (forall s, next <= s < cp_nextSubmit t ->
      cp_contexts t !! Z.to_nat (s mod cp_capacity t) = Some (context_of t s) /\
      exists es e, sb_entries (cp_scoreboard t) = Some es /\ es !! Z.to_nat (s mod cp_capacity t) = Some e /\
        ce_state e <> FLAGCX_NET_COMPLETION_ENTRY_FREE /\ ce_context e = context_of t s) /\
    exists t' r i, flagcxCollProxyTrackNext (Some t) true = Some (r, Some t', i) /\
      if cp_nextSubmit t - next =? cp_capacity t then r = flagcxInProgress /\ i = None /\ cp_nextSubmit t' = cp_nextSubmit t
      else r = flagcxSuccess /\ i = Some (cp_nextSubmit t mod cp_capacity t) /\ cp_nextSubmit t' = cp_nextSubmit t + 1.
Proof.
  assert (Hpath : exists t0 t, coll_initialised t0 /\ reach coll_step_bounded t0 t /\ cp_nextSubmit t < U64_MAX).
  { eexists _, _. split; [|split].
    - exists (MkCollProxy scoreboard_zero [] 0 0 0 0 0 0 false), 2, 1, 7, 0. split; [lia|vm_compute; reflexivity].
    - eapply reach_step; [split; [vm_compute; reflexivity|exists TrackNext; eexists; split; [exact I|vm_compute; reflexivity]]|].
      eapply reach_step; [split; [vm_compute; reflexivity|exists TrackNext; eexists; split; [exact I|vm_compute; reflexivity]]|].
      apply reach_refl.
    - vm_compute. reflexivity. }
  destruct Hpath as (t0 & t & Hi & Hr & Hmax). exists t0, t.
  split; [exact Hi|split; [exact Hr|split; [exact Hmax|]]]. exact (coll_window t0 t Hi Hr Hmax).
Defined.
