(* ===== verification/KernelProxy.v ===== *)
(** The transport of the kernel proxy ([flagcx/core/kernel_proxy_transport.cc],
    [kernel_proxy_transport.h]): the requests of one FIFO, retired in order by
    the completion scoreboard, the staging slots, and the domains that order
    the visibility of GETs behind flushes; and the polling of the requests
    ([flagcxKernelProxyPoll] of [flagcx/core/proxy.cc]).

    The arrays [calloc] gives are lists of [capacity] entries, empty when the
    pointers are null.  The adaptor's test of a request and the posting of a
    flush are functions over a state of their own; a call that needs one that
    is null is refused. *)
From S2P Require Import Prelude Flagcx Arrays NetTransport.

(** ** Data *)

Inductive flagcxKernelProxyRequestState :=
| FLAGCX_KERNEL_PROXY_REQUEST_FREE
| FLAGCX_KERNEL_PROXY_REQUEST_RESERVED
| FLAGCX_KERNEL_PROXY_REQUEST_POSTED.

#[export] Instance flagcxKernelProxyRequestState_eq_dec : EqDecision flagcxKernelProxyRequestState.
Proof. solve_decision. Defined.

Inductive flagcxKernelProxyCompletionStage :=
| FLAGCX_KERNEL_PROXY_COMPLETION_DATA_POSTED
| FLAGCX_KERNEL_PROXY_COMPLETION_FLUSH_PENDING.

#[export] Instance flagcxKernelProxyCompletionStage_eq_dec : EqDecision flagcxKernelProxyCompletionStage.
Proof. solve_decision. Defined.

Record flagcxKernelProxyRequest := MkKernelRequest {
  kr_request : Z;
  kr_flushRecvComm : Z;
  kr_submit : flagcxNetSubmitContext;
  kr_completionResult : flagcxResult_t;
  kr_dstOff : Z;
  kr_getSequence : Z;
  kr_size : Z;
  kr_peer : Z;
  kr_dstMrIdx : Z;
  kr_stagingSlot : Z;
  kr_state : flagcxKernelProxyRequestState;
  kr_getVisibilityDomain : Z;
  kr_requiresGetFlush : bool;
  kr_getDataComplete : bool;
  kr_completionStage : flagcxKernelProxyCompletionStage
}.

(** The value [flagcxKernelProxyRequestReset] gives a request. *)
Definition flagcxKernelProxyRequestReset : flagcxKernelProxyRequest :=
  MkKernelRequest NULL NULL submit_context_zero flagcxSuccess 0 0 0 (-1) (-1) (-1)
    FLAGCX_KERNEL_PROXY_REQUEST_FREE UINT32_MAX false false FLAGCX_KERNEL_PROXY_COMPLETION_DATA_POSTED.

Record flagcxKernelProxyTransport := MkKernelProxy {
  kp_scoreboard : flagcxNetCompletionScoreboard;
  kp_requests : list flagcxKernelProxyRequest;
  kp_domains : list flagcxNetGetVisibilityDomain;   (* getVisibilityDomains *)
  kp_referenced : list bool;                        (* getVisibilityDomainReferenced *)
  kp_stagingInUse : option (list bool);
  kp_capacity : Z;
  kp_nativeInflight : Z;
  kp_stagingSlotCount : Z;
  kp_stagingCursor : Z;
  kp_nextSequence : Z;
  kp_generation : Z;
  kp_orderingKey : Z
}.

(** [memset(transport, 0, sizeof( *transport))] *)
Definition kernel_proxy_zero : flagcxKernelProxyTransport :=
  MkKernelProxy scoreboard_zero [] [] [] None 0 0 0 0 0 0 0.

Definition set_kp_scoreboard (x : flagcxNetCompletionScoreboard) (t : flagcxKernelProxyTransport) : flagcxKernelProxyTransport :=
  MkKernelProxy x (kp_requests t) (kp_domains t) (kp_referenced t) (kp_stagingInUse t) (kp_capacity t)
    (kp_nativeInflight t) (kp_stagingSlotCount t) (kp_stagingCursor t) (kp_nextSequence t) (kp_generation t) (kp_orderingKey t).
Definition set_kp_requests (x : list flagcxKernelProxyRequest) (t : flagcxKernelProxyTransport) : flagcxKernelProxyTransport :=
  MkKernelProxy (kp_scoreboard t) x (kp_domains t) (kp_referenced t) (kp_stagingInUse t) (kp_capacity t)
    (kp_nativeInflight t) (kp_stagingSlotCount t) (kp_stagingCursor t) (kp_nextSequence t) (kp_generation t) (kp_orderingKey t).
Definition set_kp_domains (x : list flagcxNetGetVisibilityDomain) (t : flagcxKernelProxyTransport) : flagcxKernelProxyTransport :=
  MkKernelProxy (kp_scoreboard t) (kp_requests t) x (kp_referenced t) (kp_stagingInUse t) (kp_capacity t)
    (kp_nativeInflight t) (kp_stagingSlotCount t) (kp_stagingCursor t) (kp_nextSequence t) (kp_generation t) (kp_orderingKey t).
Definition set_kp_referenced (x : list bool) (t : flagcxKernelProxyTransport) : flagcxKernelProxyTransport :=
  MkKernelProxy (kp_scoreboard t) (kp_requests t) (kp_domains t) x (kp_stagingInUse t) (kp_capacity t)
    (kp_nativeInflight t) (kp_stagingSlotCount t) (kp_stagingCursor t) (kp_nextSequence t) (kp_generation t) (kp_orderingKey t).
Definition set_kp_staging (x : list bool) (cursor : Z) (t : flagcxKernelProxyTransport) : flagcxKernelProxyTransport :=
  MkKernelProxy (kp_scoreboard t) (kp_requests t) (kp_domains t) (kp_referenced t) (Some x) (kp_capacity t)
    (kp_nativeInflight t) (kp_stagingSlotCount t) cursor (kp_nextSequence t) (kp_generation t) (kp_orderingKey t).
Definition set_kp_nativeInflight (x : Z) (t : flagcxKernelProxyTransport) : flagcxKernelProxyTransport :=
  MkKernelProxy (kp_scoreboard t) (kp_requests t) (kp_domains t) (kp_referenced t) (kp_stagingInUse t) (kp_capacity t)
    x (kp_stagingSlotCount t) (kp_stagingCursor t) (kp_nextSequence t) (kp_generation t) (kp_orderingKey t).
Definition set_kp_nextSequence (x : Z) (t : flagcxKernelProxyTransport) : flagcxKernelProxyTransport :=
  MkKernelProxy (kp_scoreboard t) (kp_requests t) (kp_domains t) (kp_referenced t) (kp_stagingInUse t) (kp_capacity t)
    (kp_nativeInflight t) (kp_stagingSlotCount t) (kp_stagingCursor t) x (kp_generation t) (kp_orderingKey t).

(** The first entry a loop accepts, with its index; [i] is that of the head. *)
Fixpoint first_index {A} (p : nat -> A -> bool) (i : nat) (l : list A) : option nat :=
  match l with
  | [] => None
  | x :: l => if p i x then Some i else first_index p (S i) l
  end.

(** ** Initialisation *)

(** [allocated]: whether every [calloc] succeeded. *)
Definition flagcxKernelProxyTransportDestroy (transport : option flagcxKernelProxyTransport) :
    option flagcxKernelProxyTransport :=
  match transport with
  | None => None
  | Some _ => Some kernel_proxy_zero
  end.

Definition flagcxKernelProxyTransportInit (transport : option flagcxKernelProxyTransport)
    (capacity stagingSlotCount generation orderingKey : Z) (allocated : bool) :
    option (flagcxResult_t * option flagcxKernelProxyTransport) :=
  match transport with
  | None => Some (flagcxInvalidArgument, transport)
  | Some _ =>
    if (capacity =? 0) || (generation =? 0) then Some (flagcxInvalidArgument, transport)
    else if negb allocated then Some (flagcxSystemError, flagcxKernelProxyTransportDestroy transport)
    else
      let n := Z.to_nat capacity in
      '(result, sb) ← flagcxNetCompletionScoreboardInit true (Some (replicate n flagcxNetCompletionEntryReset)) capacity
        generation 1;
      if failed result then Some (result, flagcxKernelProxyTransportDestroy transport)
      else
        sb ← sb;
        Some (flagcxSuccess, Some (MkKernelProxy sb (replicate n flagcxKernelProxyRequestReset) (replicate n get_domain_zero)
          (replicate n false) (if stagingSlotCount =? 0 then None else Some (replicate (Z.to_nat stagingSlotCount) false))
          capacity 0 stagingSlotCount 0 1 generation orderingKey))
  end.

(** ** Sequence numbers and request slots *)

(** [*submit] after the call. *)
Definition flagcxKernelProxyTrackNext (transport : option flagcxKernelProxyTransport) (flags : Z)
    (submit : option flagcxNetSubmitContext) :
    option (flagcxResult_t * option flagcxKernelProxyTransport * option flagcxNetSubmitContext) :=
  let invalid := Some (flagcxInvalidArgument, transport, submit) in
  match transport, submit with
  | Some t, Some _ =>
    if kp_capacity t =? 0 then invalid
    else
      let context := MkSubmitContext (kp_orderingKey t) 0 (kp_generation t) (kp_nextSequence t) flags NULL in
      '(result, sb, _) ← flagcxNetTrackSubmit (Some (kp_scoreboard t)) (Some context) NULL ∅;
      sb ← sb;
      let t := set_kp_scoreboard sb t in
      if failed result then Some (result, Some t, submit)
      else Some (flagcxSuccess, Some (set_kp_nextSequence (kp_nextSequence t +u64 1)%word t), Some context)
  | _, _ => invalid
  end.

Definition request_is (st : flagcxKernelProxyRequestState) (r : flagcxKernelProxyRequest) : bool :=
  bool_decide (kr_state r = st).

Definition reserve_request (submit : flagcxNetSubmitContext) (peer stagingSlot : Z) (r : flagcxKernelProxyRequest) :
    flagcxKernelProxyRequest :=
  MkKernelRequest (kr_request r) (kr_flushRecvComm r) submit (kr_completionResult r) (kr_dstOff r) (kr_getSequence r)
    (kr_size r) peer (kr_dstMrIdx r) stagingSlot FLAGCX_KERNEL_PROXY_REQUEST_RESERVED (kr_getVisibilityDomain r)
    (kr_requiresGetFlush r) (kr_getDataComplete r) (kr_completionStage r).

(** [*slot] after the call. *)
Definition flagcxKernelProxyReserveRequest (transport : option flagcxKernelProxyTransport)
    (submit : option flagcxNetSubmitContext) (peer stagingSlot : Z) (slot : bool) :
    flagcxResult_t * option flagcxKernelProxyTransport * option Z :=
  match transport, submit with
  | Some t, Some submit =>
    if negb slot || (peer <? 0) then (flagcxInvalidArgument, transport, None)
    else
      match first_index (fun _ r => request_is FLAGCX_KERNEL_PROXY_REQUEST_FREE r) 0 (kp_requests t) with
      | Some i =>
        (flagcxSuccess,
         Some (set_kp_requests (alter (reserve_request submit peer stagingSlot) i (kp_requests t)) t), Some (Z.of_nat i))
      | None => (flagcxInProgress, transport, None)
      end
  | _, _ => (flagcxInvalidArgument, transport, None)
  end.

Definition publish_request (request : Z) (completionResult : flagcxResult_t) (r : flagcxKernelProxyRequest) :
    flagcxKernelProxyRequest :=
  MkKernelRequest request (kr_flushRecvComm r) (kr_submit r) completionResult (kr_dstOff r) (kr_getSequence r)
    (kr_size r) (kr_peer r) (kr_dstMrIdx r) (kr_stagingSlot r) FLAGCX_KERNEL_PROXY_REQUEST_POSTED (kr_getVisibilityDomain r)
    (kr_requiresGetFlush r) (kr_getDataComplete r) (kr_completionStage r).

Definition flagcxKernelProxyPublishRequest (transport : option flagcxKernelProxyTransport) (slot request : Z)
    (completionResult : flagcxResult_t) : option (flagcxResult_t * option flagcxKernelProxyTransport) :=
  let invalid := Some (flagcxInvalidArgument, transport) in
  match transport with
  | None => invalid
  | Some t =>
    if (request =? NULL) || (kp_capacity t <=? slot) then invalid
    else
      entry ← arr_get (kp_requests t) slot;
      if negb (request_is FLAGCX_KERNEL_PROXY_REQUEST_RESERVED entry) then invalid
      else
        requests ← arr_set (kp_requests t) slot (publish_request request completionResult entry);
        Some (flagcxSuccess,
          Some (set_kp_nativeInflight (kp_nativeInflight t +u32 1)%word (set_kp_requests requests t)))
  end.

(** ** GETs that need a flush *)

(** The loop that marks the domains of the requests in use. *)
Definition mark_referenced (capacity : Z) (requests : list flagcxKernelProxyRequest) : list bool :=
  foldl (fun referenced r =>
      if negb (request_is FLAGCX_KERNEL_PROXY_REQUEST_FREE r) && (kr_getVisibilityDomain r <? capacity)
      then <[Z.to_nat (kr_getVisibilityDomain r) := true]> referenced else referenced)
    (replicate (Z.to_nat capacity) false) requests.

Definition serves (peer orderingKey : Z) (d : flagcxNetGetVisibilityDomain) : bool :=
  gv_inUse d && (gv_peer d =? peer) && (gv_orderingKey d =? orderingKey).

(** The domain of a peer: its own, an unused one, or one without GETs left. *)
Definition choose_domain (t : flagcxKernelProxyTransport) (peer : Z) : option nat * flagcxKernelProxyTransport :=
  match first_index (fun _ => serves peer (kp_orderingKey t)) 0 (kp_domains t) with
  | Some i => (Some i, t)
  | None =>
    match first_index (fun _ d => negb (gv_inUse d)) 0 (kp_domains t) with
    | Some i => (Some i, t)
    | None =>
      let referenced := mark_referenced (kp_capacity t) (kp_requests t) in
      (first_index (fun i d => (gv_issued d =? gv_visible d) && (gv_flushRequest d =? NULL) &&
          negb (default false (referenced !! i))) 0 (kp_domains t),
       set_kp_referenced referenced t)
    end
  end.

Definition require_flush (domain dstMrIdx dstOff size flushRecvComm : Z) (getSequence : Z) (r : flagcxKernelProxyRequest) :
    flagcxKernelProxyRequest :=
  MkKernelRequest (kr_request r) flushRecvComm (kr_submit r) (kr_completionResult r) dstOff getSequence
    size (kr_peer r) dstMrIdx (kr_stagingSlot r) (kr_state r) domain true (kr_getDataComplete r) (kr_completionStage r).

Definition flagcxKernelProxyRequireGetFlush (transport : option flagcxKernelProxyTransport)
    (slot dstMrIdx dstOff size flushRecvComm : Z) : option (flagcxResult_t * option flagcxKernelProxyTransport) :=
  let invalid := Some (flagcxInvalidArgument, transport) in
  match transport with
  | None => invalid
  | Some t =>
    if (kp_capacity t <=? slot) || (dstMrIdx <? 0) || (size =? 0) || (flushRecvComm =? NULL) then invalid
    else
      entry ← arr_get (kp_requests t) slot;
      if negb (request_is FLAGCX_KERNEL_PROXY_REQUEST_RESERVED entry) then invalid
      else
        let '(index, t) := choose_domain t (kr_peer entry) in
        match index with
        | None => Some (flagcxInProgress, Some t)
        | Some i =>
          domain ← kp_domains t !! i;
          let '(r, domain) :=
            if negb (serves (kr_peer entry) (kp_orderingKey t) domain)
            then flagcxNetGetVisibilityDomainInit (Some domain) (kr_peer entry) (kp_orderingKey t)
            else (flagcxSuccess, Some domain) in
          domain ← domain;
          let t := set_kp_domains (<[i := domain]> (kp_domains t)) t in
          if flagcx_failed r then Some (r, Some t)
          else
            let '(r, domain, seq) := flagcxNetGetVisibilityIssue (Some domain) true in
            domain ← domain;
            let t := set_kp_domains (<[i := domain]> (kp_domains t)) t in
            if flagcx_failed r then Some (r, Some t)
            else
              seq ← seq;
              requests ← arr_set (kp_requests t) slot
                (require_flush (Z.of_nat i) dstMrIdx dstOff size flushRecvComm seq entry);
              Some (flagcxSuccess, Some (set_kp_requests requests t))
        end
  end.

Definition flush_pending (r : flagcxKernelProxyRequest) : flagcxKernelProxyRequest :=
  MkKernelRequest NULL (kr_flushRecvComm r) (kr_submit r) (kr_completionResult r) (kr_dstOff r) (kr_getSequence r)
    (kr_size r) (kr_peer r) (kr_dstMrIdx r) (kr_stagingSlot r) (kr_state r) (kr_getVisibilityDomain r)
    (kr_requiresGetFlush r) true FLAGCX_KERNEL_PROXY_COMPLETION_FLUSH_PENDING.

Definition flagcxKernelProxyPublishGetFlushPending (transport : option flagcxKernelProxyTransport) (slot : Z) :
    option (flagcxResult_t * option flagcxKernelProxyTransport) :=
  let invalid := Some (flagcxInvalidArgument, transport) in
  match transport with
  | None => invalid
  | Some t =>
    if kp_capacity t <=? slot then invalid
    else
      entry ← arr_get (kp_requests t) slot;
      if negb (request_is FLAGCX_KERNEL_PROXY_REQUEST_RESERVED entry) || negb (kr_requiresGetFlush entry) then invalid
      else
        requests ← arr_set (kp_requests t) slot (publish_request NULL flagcxSuccess (flush_pending entry));
        Some (flagcxSuccess,
          Some (set_kp_nativeInflight (kp_nativeInflight t +u32 1)%word (set_kp_requests requests t)))
  end.

(** ** Progress of a request *)

Definition set_completionResult (result : flagcxResult_t) (r : flagcxKernelProxyRequest) : flagcxKernelProxyRequest :=
  MkKernelRequest (kr_request r) (kr_flushRecvComm r) (kr_submit r) result (kr_dstOff r) (kr_getSequence r)
    (kr_size r) (kr_peer r) (kr_dstMrIdx r) (kr_stagingSlot r) (kr_state r) (kr_getVisibilityDomain r)
    (kr_requiresGetFlush r) (kr_getDataComplete r) (kr_completionStage r).

(** A posted GET of the domain [di] with a sequence in [(low, high]] and no
    error. *)
Definition covered (di low high : Z) (r : flagcxKernelProxyRequest) : bool :=
  request_is FLAGCX_KERNEL_PROXY_REQUEST_POSTED r && (kr_getVisibilityDomain r =? di) &&
  (low <? kr_getSequence r) && (kr_getSequence r <=? high) && negb (failed (kr_completionResult r)).

(** [flagcxNetGetVisibilityCompleteFlush], and the failure of the GETs that
    the flush covers when it failed. *)
Definition complete_flush (di : Z) (result : flagcxResult_t) (t : flagcxKernelProxyTransport) :
    option (flagcxResult_t * flagcxKernelProxyTransport) :=
  domain ← arr_get (kp_domains t) di;
  let previousVisible := gv_visible domain in
  let '(r, domain) := flagcxNetGetVisibilityCompleteFlush (Some domain) result in
  domain ← domain;
  domains ← arr_set (kp_domains t) di domain;
  let t := set_kp_domains domains t in
  if flagcx_failed r then Some (r, t)
  else Some (flagcxSuccess,
    if failed result
    then set_kp_requests ((fun q => if covered di previousVisible (gv_visible domain) q then set_completionResult result q
                                    else q) <$> kp_requests t) t
    else t).

(** The [while] loop over the completed data; [fuel] is the number of
    sequences issued beyond [completed]. *)
Fixpoint data_prefix (fuel : nat) (requests : list flagcxKernelProxyRequest) (di issued completed : Z) : Z :=
  match fuel with
  | O => completed
  | S fuel =>
    if completed <? issued then
      match find (fun r => request_is FLAGCX_KERNEL_PROXY_REQUEST_POSTED r && (kr_getVisibilityDomain r =? di) &&
                           (kr_getSequence r =? (completed +u64 1)%word)) requests with
      | Some next => if kr_getDataComplete next then data_prefix fuel requests di issued (completed +u64 1)%word else completed
      | None => completed
      end
    else completed
  end.

Section Progress.
Context {S : Type}.
(** [testRequest]: its result and [done]. *)
Context (testRequest : option (S -> Z -> flagcxResult_t * bool * S)).
(** [postFlush]: the communicator, the registration, the offset and the size;
    its result and [*request], which it finds [NULL]. *)
Context (postFlush : option (S -> Z -> Z -> Z -> Z -> flagcxResult_t * Z * S)).

(** What the data stage leaves to do. *)
Inductive data_outcome :=
| Return (r : flagcxResult_t) (ready : bool)
| Proceed.

(** The stage [DATA_POSTED]: the request afterwards. *)
Definition progress_data (entry : flagcxKernelProxyRequest) (s : S) : data_outcome * flagcxKernelProxyRequest * S :=
  match testRequest with
  | None => (Return flagcxInvalidArgument false, entry, s)
  | Some test =>
    if kr_request entry =? NULL then (Return flagcxInvalidArgument false, entry, s)
    else
      let '(result, done, s) := test s (kr_request entry) in
      let entry := if failed result then set_completionResult result entry else entry in
      let done := done || failed result in
      if negb done then (Return flagcxSuccess false, entry, s)
      else if negb (kr_requiresGetFlush entry) then (Return flagcxSuccess true, entry, s)
      else
        let entry := flush_pending entry in
        if negb (failed (kr_completionResult entry)) then (Return flagcxSuccess false, entry, s)
        else (Proceed, entry, s)
  end.

(** The flush in flight. *)
Definition progress_flush (di : Z) (t : flagcxKernelProxyTransport) (s : S) :
    option (flagcxResult_t * flagcxKernelProxyTransport * S) :=
  domain ← arr_get (kp_domains t) di;
  if gv_flushRequest domain =? NULL then Some (flagcxSuccess, t, s)
  else
    match testRequest with
    | None => Some (flagcxInvalidArgument, t, s)
    | Some test =>
      let '(result, done, s) := test s (gv_flushRequest domain) in
      if done || failed result then
        '(r, t) ← complete_flush di result t;
        Some (r, t, s)
      else Some (flagcxSuccess, t, s)
    end.

(** The data of a prefix of the GETs is complete. *)
Definition progress_prefix (di : Z) (t : flagcxKernelProxyTransport) : option (flagcxResult_t * flagcxKernelProxyTransport) :=
  domain ← arr_get (kp_domains t) di;
  let completed := data_prefix (Z.to_nat (gv_issued domain - gv_dataCompleted domain)) (kp_requests t) di
    (gv_issued domain) (gv_dataCompleted domain) in
  let '(r, domain) := flagcxNetGetVisibilityAdvanceData (Some domain) completed in
  domain ← domain;
  domains ← arr_set (kp_domains t) di domain;
  Some (if flagcx_failed r then r else flagcxSuccess, set_kp_domains domains t).

(** A new flush, or a flush that met backpressure again. *)
Definition progress_new_flush (di : Z) (t : flagcxKernelProxyTransport) (s : S) :
    option (flagcxResult_t * flagcxKernelProxyTransport * S) :=
  domain ← arr_get (kp_domains t) di;
  if negb (gv_flushRequest domain =? NULL) || (gv_dataCompleted domain <=? gv_visible domain)
  then Some (flagcxSuccess, t, s)
  else
    let retryFlush := gv_visible domain <? gv_flushTarget domain in
    let target := if retryFlush then gv_flushTarget domain else gv_dataCompleted domain in
    match last (filter (fun r => covered di (gv_visible domain) target r = true) (kp_requests t)) with
    | None =>
      let '(r, domain) := flagcxNetGetVisibilityAdvanceVisible (Some domain) (gv_dataCompleted domain) in
      domain ← domain;
      domains ← arr_set (kp_domains t) di domain;
      Some (if flagcx_failed r then r else flagcxSuccess, set_kp_domains domains t, s)
    | Some flushRange =>
      let '(r, domain, _) := if retryFlush then (flagcxSuccess, Some domain, None)
                             else flagcxNetGetVisibilityBeginFlush (Some domain) true in
      domain ← domain;
      domains ← arr_set (kp_domains t) di domain;
      let t := set_kp_domains domains t in
      if flagcx_failed r then Some (r, t, s)
      else
        match postFlush with
        | None => Some (flagcxInvalidArgument, t, s)
        | Some postFlush =>
          let '(result, request, s) := postFlush s (kr_flushRecvComm flushRange) (kr_dstMrIdx flushRange)
            (kr_dstOff flushRange) (kr_size flushRange) in
          domains ← arr_set (kp_domains t) di (set_gv_flush request (gv_flushResult domain) domain);
          let t := set_kp_domains domains t in
          if negb (bool_decide (result = flagcxInProgress)) && (failed result || (request =? NULL)) then
            '(r, t) ← complete_flush di result t;
            Some (r, t, s)
          else Some (flagcxSuccess, t, s)
        end
    end.

(** [*ready] and [*completionResult] after the call. *)
Definition flagcxKernelProxyProgressRequest (transport : option flagcxKernelProxyTransport) (slot : Z)
    (ready completionResult : bool) (s : S) :
    option (flagcxResult_t * option (bool * flagcxResult_t) * option flagcxKernelProxyTransport * S) :=
  let invalid := Some (flagcxInvalidArgument, None, transport, s) in
  match transport with
  | None => invalid
  | Some t =>
    if (kp_capacity t <=? slot) || negb ready || negb completionResult then invalid
    else
      entry ← arr_get (kp_requests t) slot;
      if negb (request_is FLAGCX_KERNEL_PROXY_REQUEST_POSTED entry) then invalid
      else
        let '(outcome, entry, s) :=
          if bool_decide (kr_completionStage entry = FLAGCX_KERNEL_PROXY_COMPLETION_FLUSH_PENDING)
          then (Proceed, entry, s) else progress_data entry s in
        requests ← arr_set (kp_requests t) slot entry;
        let t := set_kp_requests requests t in
        let result := kr_completionResult entry in
        match outcome with
        | Return r ready => Some (r, Some (ready, result), Some t, s)
        | Proceed =>
          let di := kr_getVisibilityDomain entry in
          if kp_capacity t <=? di then Some (flagcxInternalError, Some (false, result), Some t, s)
          else
            '(r, t, s) ← progress_flush di t s;
            if failed r then Some (r, Some (false, result), Some t, s)
            else
              '(r, t) ← progress_prefix di t;
              if failed r then Some (r, Some (false, result), Some t, s)
              else
                '(r, t, s) ← progress_new_flush di t s;
                if failed r then Some (r, Some (false, result), Some t, s)
                else
                  entry ← arr_get (kp_requests t) slot;
                  domain ← arr_get (kp_domains t) di;
                  Some (flagcxSuccess,
                    Some (kr_getSequence entry <=? gv_visible domain, kr_completionResult entry), Some t, s)
        end
  end.

End Progress.

(** ** Retiring requests *)

Definition set_getSequence (s : Z) (r : flagcxKernelProxyRequest) : flagcxKernelProxyRequest :=
  MkKernelRequest (kr_request r) (kr_flushRecvComm r) (kr_submit r) (kr_completionResult r) (kr_dstOff r) s
    (kr_size r) (kr_peer r) (kr_dstMrIdx r) (kr_stagingSlot r) (kr_state r) (kr_getVisibilityDomain r)
    (kr_requiresGetFlush r) (kr_getDataComplete r) (kr_completionStage r).

(** [later->getSequence--] for the requests behind [seq] in the domain [di]. *)
Definition compact_request (di seq : Z) (r : flagcxKernelProxyRequest) : flagcxKernelProxyRequest :=
  if negb (request_is FLAGCX_KERNEL_PROXY_REQUEST_FREE r) && (kr_getVisibilityDomain r =? di) && (seq <? kr_getSequence r)
  then set_getSequence (kr_getSequence r -u64 1)%word r else r.

Definition flagcxKernelProxyRemoveGetVisibilitySequence (t : flagcxKernelProxyTransport) (entry : flagcxKernelProxyRequest) :
    option (flagcxResult_t * flagcxKernelProxyTransport) :=
  let seq := kr_getSequence entry in
  if seq =? 0 then Some (flagcxSuccess, t)
  else
    let di := kr_getVisibilityDomain entry in
    if kp_capacity t <=? di then Some (flagcxInternalError, t)
    else
      domain ← arr_get (kp_domains t) di;
      if negb (gv_inUse domain) || (gv_issued domain <? seq) then Some (flagcxInternalError, t)
      else
        let t := set_kp_requests (compact_request di seq <$> kp_requests t) t in
        let '(r, domain) := flagcxNetGetVisibilityRemoveIssue (Some domain) seq in
        domain ← domain;
        domains ← arr_set (kp_domains t) di domain;
        Some (if flagcx_failed r then r else flagcxSuccess, set_kp_domains domains t).

Definition flagcxKernelProxyCancelRequest (transport : option flagcxKernelProxyTransport) (slot : Z) :
    option (flagcxResult_t * option flagcxKernelProxyTransport) :=
  let invalid := Some (flagcxInvalidArgument, transport) in
  match transport with
  | None => invalid
  | Some t =>
    if kp_capacity t <=? slot then invalid
    else
      entry ← arr_get (kp_requests t) slot;
      if negb (request_is FLAGCX_KERNEL_PROXY_REQUEST_RESERVED entry) then invalid
      else
        '(r, t) ← flagcxKernelProxyRemoveGetVisibilitySequence t entry;
        if failed r then Some (r, Some t)
        else
          requests ← arr_set (kp_requests t) slot flagcxKernelProxyRequestReset;
          Some (flagcxSuccess, Some (set_kp_requests requests t))
  end.

(** A posted request leaves its slot. *)
Definition free_request (t : flagcxKernelProxyTransport) (slot : Z) : option flagcxKernelProxyTransport :=
  requests ← arr_set (kp_requests t) slot flagcxKernelProxyRequestReset;
  Some (set_kp_requests requests (set_kp_nativeInflight (kp_nativeInflight t -u32 1)%word t)).

(** [*releasedStagingSlot] after the call. *)
Definition flagcxKernelProxyAbortRequest (transport : option flagcxKernelProxyTransport) (slot : Z)
    (releasedStagingSlot : bool) : option (flagcxResult_t * option flagcxKernelProxyTransport * option Z) :=
  let invalid := Some (flagcxInvalidArgument, transport, None) in
  match transport with
  | None => invalid
  | Some t =>
    if negb releasedStagingSlot || (kp_capacity t <=? slot) then invalid
    else
      entry ← arr_get (kp_requests t) slot;
      if negb (request_is FLAGCX_KERNEL_PROXY_REQUEST_POSTED entry) || (kp_nativeInflight t =? 0) then invalid
      else
        '(r, t) ← flagcxKernelProxyRemoveGetVisibilitySequence t entry;
        if failed r then Some (r, Some t, None)
        else
          t ← free_request t slot;
          Some (flagcxSuccess, Some t, Some (kr_stagingSlot entry))
  end.

(** [*advanced] and [*releasedStagingSlot] after the call. *)
Definition flagcxKernelProxyCompleteRequest (transport : option flagcxKernelProxyTransport) (slot : Z)
    (result : flagcxResult_t) (advanced releasedStagingSlot : bool) :
    option (flagcxResult_t * option flagcxKernelProxyTransport * option Z * option Z) :=
  let invalid := Some (flagcxInvalidArgument, transport, None, None) in
  match transport with
  | None => invalid
  | Some t =>
    if negb advanced || negb releasedStagingSlot || (kp_capacity t <=? slot) then invalid
    else
      entry ← arr_get (kp_requests t) slot;
      if negb (request_is FLAGCX_KERNEL_PROXY_REQUEST_POSTED entry) || (kp_nativeInflight t =? 0) then invalid
      else
        '(r, sb, _, adv) ← flagcxNetTrackCompletion (Some (kp_scoreboard t)) (Some (kr_submit entry)) result true ∅;
        sb ← sb;
        let t := set_kp_scoreboard sb t in
        if failed r then Some (r, Some t, adv, None)
        else
          t ← free_request t slot;
          Some (flagcxSuccess, Some t, adv, Some (kr_stagingSlot entry))
  end.

Definition flagcxKernelProxyCompleteImmediate (transport : option flagcxKernelProxyTransport)
    (submit : option flagcxNetSubmitContext) (result : flagcxResult_t) (advanced : bool) :
    option (flagcxResult_t * option flagcxKernelProxyTransport * option Z) :=
  match transport, submit with
  | Some t, Some _ =>
    if negb advanced then Some (flagcxInvalidArgument, transport, None)
    else
      '(r, sb, _, adv) ← flagcxNetTrackCompletion (Some (kp_scoreboard t)) submit result true ∅;
      sb ← sb;
      Some (r, Some (set_kp_scoreboard sb t), adv)
  | _, _ => Some (flagcxInvalidArgument, transport, None)
  end.

(** ** Staging slots *)

(** The loop from [stagingCursor], over the [n] slots from the [i]-th on. *)
Fixpoint find_staging (n : nat) (i cursor count : Z) (inUse : list bool) : option (option Z) :=
  match n with
  | O => Some None
  | S n =>
    let candidate := ((cursor +u32 i) mod count)%word in
    used ← arr_get inUse candidate;
    if used : bool then find_staging n (i + 1) cursor count inUse else Some (Some candidate)
  end.

(** [*slot] after the call. *)
Definition flagcxKernelProxyAcquireStagingSlot (transport : option flagcxKernelProxyTransport) (slot : bool) :
    option (flagcxResult_t * option flagcxKernelProxyTransport * option Z) :=
  let invalid := Some (flagcxInvalidArgument, transport, None) in
  match transport with
  | None => invalid
  | Some t =>
    match kp_stagingInUse t with
    | None => invalid
    | Some inUse =>
      if negb slot || (kp_stagingSlotCount t =? 0) then invalid
      else
        found ← find_staging (Z.to_nat (kp_stagingSlotCount t)) 0 (kp_stagingCursor t) (kp_stagingSlotCount t) inUse;
        match found with
        | None => Some (flagcxInProgress, transport, None)
        | Some candidate =>
          inUse ← arr_set inUse candidate true;
          Some (flagcxSuccess, Some (set_kp_staging inUse (((candidate +u32 1)%word) mod kp_stagingSlotCount t) t), Some candidate)
        end
    end
  end.

Definition flagcxKernelProxyReleaseStagingSlot (transport : option flagcxKernelProxyTransport) (slot : Z) :
    option (flagcxResult_t * option flagcxKernelProxyTransport) :=
  let invalid := Some (flagcxInvalidArgument, transport) in
  match transport with
  | None => invalid
  | Some t =>
    if (slot <? 0) || (kp_stagingSlotCount t <=? slot) then invalid
    else
      match kp_stagingInUse t with
      | None => invalid
      | Some inUse =>
        used ← arr_get inUse slot;
        if negb used then invalid
        else
          inUse ← arr_set inUse slot false;
          Some (flagcxSuccess, Some (set_kp_staging inUse (kp_stagingCursor t) t))
      end
  end.

(** ** Queries *)

Definition flagcxKernelProxyQuery (transport : option flagcxKernelProxyTransport)
    (nextSequence inFlight firstError : bool) : flagcxResult_t * option (Z * Z * flagcxResult_t) :=
  match transport with
  | None => (flagcxInvalidArgument, None)
  | Some t => flagcxNetCompletionScoreboardQuery (Some (kp_scoreboard t)) nextSequence inFlight firstError
  end.

(** [*ready] and [*firstError] after the call. *)
Definition flagcxKernelProxyReleaseReady (transport : option flagcxKernelProxyTransport)
    (submit : option flagcxNetSubmitContext) (ready firstError : bool) : flagcxResult_t * option (bool * flagcxResult_t) :=
  match submit with
  | None => (flagcxInvalidArgument, None)
  | Some submit =>
    if bool_decide (transport = None) || negb ready || negb firstError then (flagcxInvalidArgument, None)
    else
      match flagcxKernelProxyQuery transport true true true with
      | (result, Some (next, _, error)) =>
        if failed result then (result, None) else (flagcxSuccess, Some (next =? sc_sequence submit, error))
      | (result, None) => (result, None)
      end
  end.

(** ** Polling *)

(** The state of a worker: the transport, the counter [completed] and the
    terminal status of its FIFO (completion words of 64 bits), the terminal
    result of the communicator, and the error flag of its RMA proxy if it has
    one. *)
Record flagcxKernelProxyState := MkKernelProxyState {
  ks_transport : flagcxKernelProxyTransport;
  ks_completed : Z;
  ks_fifoTerminal : flagcxResult_t;
  ks_terminal : flagcxResult_t;
  ks_rmaError : option bool
}.

Definition set_transport (t : flagcxKernelProxyTransport) (k : flagcxKernelProxyState) : flagcxKernelProxyState :=
  MkKernelProxyState t (ks_completed k) (ks_fifoTerminal k) (ks_terminal k) (ks_rmaError k).

(** The compare-and-swap keeps the first error. *)
Definition flagcxKernelProxyPublishTerminal (result : flagcxResult_t) (k : flagcxKernelProxyState) :
    flagcxKernelProxyState :=
  if negb (failed result) || bool_decide (result = flagcxInProgress) then k
  else
    let terminal := if failed (ks_terminal k) then ks_terminal k else result in
    MkKernelProxyState (ks_transport k) (ks_completed k)
      (if failed terminal && negb (bool_decide (terminal = flagcxInProgress)) then terminal else ks_fifoTerminal k)
      terminal (if ks_rmaError k then Some true else None).

Definition flagcxKernelProxyAdvanceCompleted (advanced : Z) (k : flagcxKernelProxyState) : flagcxKernelProxyState :=
  if advanced =? 0 then k
  else MkKernelProxyState (ks_transport k) (ks_completed k +u64 advanced)%word (ks_fifoTerminal k) (ks_terminal k)
    (ks_rmaError k).

Section Poll.
Context {S : Type}.
Context (testRequest : S -> Z -> flagcxResult_t * bool * S).
Context (postFlush : S -> Z -> Z -> Z -> Z -> flagcxResult_t * Z * S).

(** [flagcxKernelProxyProgressRequest] on a slot of the state: its result,
    [ready] and [completionResult]. *)
Definition poll_progress (i : nat) (ks : flagcxKernelProxyState * S) :
    option (flagcxResult_t * bool * flagcxResult_t * (flagcxKernelProxyState * S)) :=
  let '(k, s) := ks in
  '(r, out, t, s) ← flagcxKernelProxyProgressRequest (Some testRequest) (Some postFlush) (Some (ks_transport k))
    (Z.of_nat i) true true s;
  t ← t;
  let '(ready, completionResult) := default (false, flagcxSuccess) out in
  Some (r, ready, completionResult, (set_transport t k, s)).

(** The body of the first loop. *)
Definition poll_data (i : nat) (ks : flagcxKernelProxyState * S) : option (flagcxKernelProxyState * S) :=
  entry ← kp_requests (ks_transport ks.1) !! i;
  if negb (request_is FLAGCX_KERNEL_PROXY_REQUEST_POSTED entry) || negb (kr_requiresGetFlush entry) ||
     negb (bool_decide (kr_completionStage entry = FLAGCX_KERNEL_PROXY_COMPLETION_DATA_POSTED))
  then Some ks
  else
    '(r, _, _, (k, s)) ← poll_progress i ks;
    Some (if failed r then flagcxKernelProxyPublishTerminal r k else k, s).

(** [flagcxKernelProxyAbortRequest] and the release of its staging slot; the
    results are only logged. *)
Definition poll_abort (i : nat) (k : flagcxKernelProxyState) : option flagcxKernelProxyState :=
  '(r, t, stagingSlot) ← flagcxKernelProxyAbortRequest (Some (ks_transport k)) (Z.of_nat i) true;
  t ← t;
  let k := set_transport t k in
  let stagingSlot := default (-1) stagingSlot in
  if negb (failed r) && (0 <=? stagingSlot) then
    '(_, t) ← flagcxKernelProxyReleaseStagingSlot (Some t) stagingSlot;
    t ← t;
    Some (set_transport t k)
  else Some k.

(** The body of the second loop. *)
Definition poll_request (i : nat) (ks : flagcxKernelProxyState * S) : option (flagcxKernelProxyState * S) :=
  entry ← kp_requests (ks_transport ks.1) !! i;
  if negb (request_is FLAGCX_KERNEL_PROXY_REQUEST_POSTED entry) then Some ks
  else
    '(progressResult, ready, completionResult, (k, s)) ← poll_progress i ks;
    if failed progressResult then
      k ← poll_abort i k;
      Some (flagcxKernelProxyPublishTerminal progressResult k, s)
    else if negb ready then Some (k, s)
    else
      '(result, t, advanced, stagingSlot) ←
        flagcxKernelProxyCompleteRequest (Some (ks_transport k)) (Z.of_nat i) completionResult true true;
      t ← t;
      let k := set_transport t k in
      if failed result then
        k ← poll_abort i k;
        Some (flagcxKernelProxyPublishTerminal result k, s)
      else
        let stagingSlot := default (-1) stagingSlot in
        '(r, t) ← if 0 <=? stagingSlot then flagcxKernelProxyReleaseStagingSlot (Some t) stagingSlot
                  else Some (flagcxSuccess, Some t);
        t ← t;
        let k := flagcxKernelProxyPublishTerminal r (set_transport t k) in
        let k := flagcxKernelProxyPublishTerminal completionResult k in
        Some (flagcxKernelProxyAdvanceCompleted (default 0 advanced) k, s).

Fixpoint poll_each (body : nat -> flagcxKernelProxyState * S -> option (flagcxKernelProxyState * S)) (is_ : list nat)
    (ks : flagcxKernelProxyState * S) : option (flagcxKernelProxyState * S) :=
  match is_ with
  | [] => Some ks
  | i :: is_ => ks ← body i ks; poll_each body is_ ks
  end.

(** The adaptor and its [test] are not null. *)
Definition flagcxKernelProxyPoll (k : flagcxKernelProxyState) (s : S) : option (flagcxKernelProxyState * S) :=
  if kp_nativeInflight (ks_transport k) =? 0 then Some (k, s)
  else
    let is_ := seq 0 (Z.to_nat (kp_capacity (ks_transport k))) in
    ks ← poll_each poll_data is_ (k, s);
    poll_each poll_request is_ ks.

End Poll.
