(* ===== verification/KernelProxyInv.v ===== *)
(** The invariant of the kernel proxy's transport: what its requests, its
    visibility domains and its scoreboard say agrees after every call. *)
From S2P Require Import Prelude Flagcx Arrays NetTransport NetScoreboard KernelProxy.

Abbreviation FREE := FLAGCX_KERNEL_PROXY_REQUEST_FREE (only parsing).
Abbreviation RESERVED := FLAGCX_KERNEL_PROXY_REQUEST_RESERVED (only parsing).
Abbreviation POSTED := FLAGCX_KERNEL_PROXY_REQUEST_POSTED (only parsing).

(** ** The invariant *)

(** The request at [j] is in use and is [r]. *)
Definition used (rs : list flagcxKernelProxyRequest) (j : nat) (r : flagcxKernelProxyRequest) : Prop :=
  rs !! j = Some r /\ kr_state r <> FREE.

(** Of a GET that needs a flush, and of any other request. *)
Definition request_shape (r : flagcxKernelProxyRequest) : Prop :=
  if kr_requiresGetFlush r then
    0 < kr_getSequence r /\
    (kr_getDataComplete r = true <-> kr_completionStage r = FLAGCX_KERNEL_PROXY_COMPLETION_FLUSH_PENDING) /\
    (kr_getDataComplete r = true -> kr_state r = POSTED)
  else
    kr_getSequence r = 0 /\ kr_getDataComplete r = false /\
    kr_completionStage r = FLAGCX_KERNEL_PROXY_COMPLETION_DATA_POSTED.

(** A posted GET without error, with a sequence in [(low, high]]. *)
Definition good_get (rs : list flagcxKernelProxyRequest) (di low high : Z) : Prop :=
  exists j r, rs !! j = Some r /\ covered di low high r = true.

Record dom_inv (rs : list flagcxKernelProxyRequest) (di : Z) (d : flagcxNetGetVisibilityDomain) : Prop := {
  dv_marks : 0 <= gv_visible d <= gv_flushTarget d /\ gv_flushTarget d <= gv_dataCompleted d <= gv_issued d /\
    gv_issued d <= U64_MAX - 1;
  dv_cover : forall s, gv_visible d < s <= gv_issued d ->
    exists j r, used rs j r /\ kr_getVisibilityDomain r = di /\ kr_getSequence r = s;
  dv_data : forall j r, used rs j r -> kr_getVisibilityDomain r = di -> 0 < kr_getSequence r <= gv_dataCompleted d ->
    kr_getDataComplete r = true;
  dv_retry : gv_visible d < gv_flushTarget d -> gv_flushRequest d = NULL ->
    good_get rs di (gv_visible d) (gv_flushTarget d);
  dv_flush : gv_flushRequest d <> NULL -> gv_visible d < gv_flushTarget d
}.

Record kp_inv (t : flagcxKernelProxyTransport) (a : abs_board) : Prop := {
  kv_len : 0 < kp_capacity t < U32_MOD /\ Z.of_nat (length (kp_requests t)) = kp_capacity t /\
    Z.of_nat (length (kp_domains t)) = kp_capacity t;
  kv_inflight : kp_nativeInflight t = Z.of_nat (length (filter (fun r => kr_state r = POSTED) (kp_requests t)));
  kv_board : implements (kp_scoreboard t) a /\ ab_capacity a = kp_capacity t /\ ab_generation a = kp_generation t;
  kv_next : 0 <= ab_next a <= kp_nextSequence t /\ kp_nextSequence t <= U64_MAX /\
    kp_nextSequence t <= ab_next a + kp_capacity t;
  kv_live : forall s l, ab_live a !! s = Some l -> le_group l = NULL /\ s < kp_nextSequence t;
  kv_free : forall j r, kp_requests t !! j = Some r -> kr_state r = FREE -> r = flagcxKernelProxyRequestReset;
  kv_used : forall j r, used (kp_requests t) j r ->
    0 <= kr_peer r /\ ab_live a !! sc_sequence (kr_submit r) = Some (MkLive (kr_submit r) NULL None) /\
    request_shape r /\
    (kr_state r = POSTED -> kr_completionStage r = FLAGCX_KERNEL_PROXY_COMPLETION_DATA_POSTED -> kr_request r <> NULL);
  kv_get : forall j r, used (kp_requests t) j r -> kr_getSequence r <> 0 ->
    exists i d, kr_getVisibilityDomain r = Z.of_nat i /\ kp_domains t !! i = Some d /\ gv_inUse d = true /\
      kr_getSequence r <= gv_issued d;
  kv_submits : forall i j q r, used (kp_requests t) i q -> used (kp_requests t) j r ->
    sc_sequence (kr_submit q) = sc_sequence (kr_submit r) -> i = j;
  kv_gets : forall i j q r, used (kp_requests t) i q -> used (kp_requests t) j r -> kr_getSequence q <> 0 ->
    kr_getVisibilityDomain q = kr_getVisibilityDomain r -> kr_getSequence q = kr_getSequence r -> i = j;
  kv_dom : forall i d, kp_domains t !! i = Some d -> gv_inUse d = true -> dom_inv (kp_requests t) (Z.of_nat i) d
}.

(** ** Generic facts *)

Lemma first_index_spec {A} (p : nat -> A -> bool) l : forall k,
  match first_index p k l with
  | Some i => (k <= i)%nat /\ exists x, l !! (i - k)%nat = Some x /\ p i x = true
  | None => forall j x, l !! j = Some x -> p (k + j)%nat x = false
  end.
Proof.
  induction l as [|x l IH]; intros k; cbn [first_index]; [by intros j y Hy|].
  destruct (p k x) eqn:Ep.
  - split; [lia|]. exists x. rewrite Nat.sub_diag. done.
  - specialize (IH (S k)). destruct (first_index p (S k) l) as [i|].
    + destruct IH as (Hle & y & Hy & Hp). split; [lia|]. exists y.
      replace (i - k)%nat with (S (i - S k)) by lia. done.
    + intros [|j] y Hy; cbn in Hy; [simplify_eq; by rewrite Nat.add_0_r|].
      rewrite <- Nat.add_succ_comm. by apply IH.
Qed.

Lemma first_index_0 {A} (p : nat -> A -> bool) l i :
  first_index p 0 l = Some i -> exists x, l !! i = Some x /\ p i x = true.
Proof.
  intros Hi. pose proof (first_index_spec p l 0) as Hs. rewrite Hi in Hs. destruct Hs as (_ & x & Hx & Hp).
  rewrite Nat.sub_0_r in Hx. eauto.
Qed.

(** The number of posted requests after one of them changes. *)
Definition posted (rs : list flagcxKernelProxyRequest) : nat := length (filter (fun r => kr_state r = POSTED) rs).

Lemma posted_insert rs j r r' :
  rs !! j = Some r ->
  (posted (<[j := r']> rs) + Nat.b2n (bool_decide (kr_state r = POSTED)) =
   posted rs + Nat.b2n (bool_decide (kr_state r' = POSTED)))%nat.
Proof. intros Hj. exact (length_filter_insert (fun r => kr_state r = POSTED) rs j r r' Hj). Qed.

Lemma posted_fmap f rs : (forall r, kr_state (f r) = kr_state r) -> posted (f <$> rs) = posted rs.
Proof.
  intros Hf. unfold posted. induction rs as [|r rs IH]; [done|]. rewrite fmap_cons, !filter_cons, Hf.
  destruct (decide _); cbn [length]; by rewrite IH.
Qed.

Lemma posted_le rs : (posted rs <= length rs)%nat.
Proof. apply length_filter. Qed.

Lemma posted_positive rs j r : rs !! j = Some r -> kr_state r = POSTED -> (0 < posted rs)%nat.
Proof. intros Hj Hs. exact (length_filter_positive (fun r => kr_state r = POSTED) rs j r Hj Hs). Qed.

Lemma request_is_spec st r : request_is st r = true <-> kr_state r = st.
Proof. unfold request_is. by rewrite bool_decide_eq_true. Qed.

Lemma covered_spec di low high r :
  covered di low high r = true <->
  kr_state r = POSTED /\ kr_getVisibilityDomain r = di /\ low < kr_getSequence r <= high /\ failed (kr_completionResult r) = false.
Proof.
  unfold covered, request_is. rewrite !andb_true_iff, bool_decide_eq_true, negb_true_iff, Z.eqb_eq, Z.ltb_lt, Z.leb_le. tauto.
Qed.

Lemma used_insert rs k r' j r :
  (k < length rs)%nat -> used (<[k := r']> rs) j r <-> (j = k /\ r = r' /\ kr_state r' <> FREE) \/ (j <> k /\ used rs j r).
Proof.
  intros Hk. unfold used. destruct (decide (j = k)) as [->|Hne].
  - rewrite list_lookup_insert_eq by done. naive_solver.
  - rewrite list_lookup_insert_ne by done. naive_solver.
Qed.

(** A request the scoreboard still waits for. *)
Definition unheld (t : flagcxKernelProxyTransport) (a : abs_board) (c : flagcxNetSubmitContext) : Prop :=
  ab_live a !! sc_sequence c = Some (MkLive c NULL None) /\
  forall j r, used (kp_requests t) j r -> sc_sequence (kr_submit r) <> sc_sequence c.

Lemma kp_alive t a : kp_inv t a -> groups_alive a ∅.
Proof. intros I. split; [done|]. intros s l Hl Hg. by destruct (kv_live _ _ I _ _ Hl). Qed.

(** Changes of the scoreboard that keep the contexts of the requests. *)
Lemma kp_inv_board t a sb a' next :
  kp_inv t a -> implements sb a' -> ab_capacity a' = ab_capacity a -> ab_generation a' = ab_generation a ->
  0 <= ab_next a' <= next -> next <= U64_MAX -> next <= ab_next a' + kp_capacity t ->
  (forall s l, ab_live a' !! s = Some l -> le_group l = NULL /\ s < next) ->
  (forall j r, used (kp_requests t) j r -> ab_live a' !! sc_sequence (kr_submit r) = Some (MkLive (kr_submit r) NULL None)) ->
  kp_inv (set_kp_nextSequence next (set_kp_scoreboard sb t)) a'.
Proof.
  intros [Il Ii (Ib & Ic & Ig) In Iv If Iu Iget Is Igs Id] Him Hc Hg Hn Hn1 Hn2 Hl Hu.
  constructor; try done; cbn [kp_scoreboard kp_capacity kp_generation set_kp_nextSequence set_kp_scoreboard].
  - split_and!; congruence.
  - intros j r Hr. destruct (Iu j r Hr) as (H1 & _ & H2). split; [done|]. split; [by eapply Hu|done].
Qed.

(** ** Sequence numbers *)

Lemma track_next_inv t a flags c0 :
  kp_inv t a -> kp_nextSequence t < U64_MAX ->
  exists r t' a' c, flagcxKernelProxyTrackNext (Some t) flags (Some c0) = Some (r, Some t', Some c) /\ kp_inv t' a' /\
    ab_next a' = ab_next a /\ ab_firstError a' = ab_firstError a /\ (exists sb n, t' = set_kp_nextSequence n (set_kp_scoreboard sb t)) /\
    if kp_nextSequence t =? ab_next a + kp_capacity t
    then r = flagcxInProgress /\ kp_nextSequence t' = kp_nextSequence t
    else r = flagcxSuccess /\ kp_nextSequence t' = kp_nextSequence t + 1 /\ sc_sequence c = kp_nextSequence t /\ sc_flags c = flags /\
      unheld t' a' c.
Proof.
  intros I Hmax. pose proof I as [(Hc & Hlr & Hld) Ii (Ib & Ic & Ig) (In0 & In1 & In2) Iv If Iu Iget Is Igs Id].
  unfold flagcxKernelProxyTrackNext. rewrite (proj2 (Z.eqb_neq (kp_capacity t) 0)) by lia.
  set (n := kp_nextSequence t) in *. set (c := MkSubmitContext (kp_orderingKey t) 0 (kp_generation t) n flags NULL).
  destruct (submit_meets (kp_scoreboard t) a ∅ c NULL Ib) as (sb & Hrun & Him'); [unfold is_u64; cbn; lia|done|].
  cbn [run_call] in Hrun. rewrite Hrun. cbn [mbind option_bind]. clear Hrun.
  assert (Hfree : ab_live a !! n = None).
  { destruct (ab_live a !! n) as [l|] eqn:El; [|done]. destruct (Iv _ _ El). lia. }
  assert (Hspec : spec_submit c NULL a ∅ = if n =? ab_next a + kp_capacity t then (flagcxInProgress, a, ∅)
    else (flagcxSuccess, set_ab_live (<[n := MkLive c NULL None]> (ab_live a)) a, ∅)).
  { unfold spec_submit. cbn [sc_sequence sc_generation sc_groupId c].
    rewrite (proj2 (Z.eqb_neq n U64_MAX)), Ig, Z.eqb_refl, (proj2 (Z.ltb_ge n (ab_next a))), Ic by lia. cbn [negb orb].
    destruct (Z.eqb_spec n (ab_next a + kp_capacity t)); [by rewrite (proj2 (Z.leb_le _ _)) by lia|].
    rewrite (proj2 (Z.leb_gt _ _)) by lia. rewrite Hfree, (bool_decide_eq_false_2 (is_Some None)) by (by intros [? ?]). done. }
  rewrite Hspec in Him' |- *. destruct (Z.eqb_spec n (ab_next a + kp_capacity t)) as [He|He]; cbn [fst snd] in Him' |- *.
  - change (failed flagcxInProgress) with true. cbn match. eexists _, _, a, _. split; [done|].
    split; [|do 2 (split; [done|]); split; [|done]].
    2: { exists sb, n. by destruct t. }
    change (set_kp_scoreboard sb t) with (set_kp_nextSequence n (set_kp_scoreboard sb t)).
    apply (kp_inv_board t a); try done. intros j r Hr. by apply (Iu j r Hr).
  - change (failed flagcxSuccess) with false. cbn match. cbn [kp_nextSequence set_kp_scoreboard]. fold n.
    rewrite Z.mod_small by lia.
    eexists _, _, (set_ab_live (<[n := MkLive c NULL None]> (ab_live a)) a), c. split; [reflexivity|].
    assert (Hheld : forall j r, used (kp_requests t) j r -> sc_sequence (kr_submit r) <> n).
    { intros j r Hr Hs. destruct (Iu j r Hr) as (_ & Hl & _). rewrite Hs in Hl. congruence. }
    split; [|do 2 (split; [done|]); split; [by exists sb, (n + 1)|]].
    + apply (kp_inv_board t a); unfold set_ab_live; cbn [ab_next ab_live ab_capacity ab_generation]; try done; try lia.
      * intros s l [[<- <-]|[Hne Hl]]%lookup_insert_Some; [cbn; split; [done|lia]|]. destruct (Iv _ _ Hl). split; [done|lia].
      * intros j r Hr. rewrite lookup_insert_ne by (intros Hs; by apply (Hheld j r Hr)). by apply (Iu j r Hr).
    + do 4 (split; [done|]). split; [|exact Hheld].
      unfold set_ab_live. cbn [ab_live sc_sequence c]. by rewrite lookup_insert_eq.
Qed.

(** ** Slots *)

(** Changing one request in use, neither its submission nor its place in its
    domain, and no domain. *)
Lemma kp_inv_request t a k q q' n :
  kp_inv t a -> used (kp_requests t) k q -> kr_state q' <> FREE ->
  kr_submit q' = kr_submit q -> kr_peer q' = kr_peer q ->
  kr_getVisibilityDomain q' = kr_getVisibilityDomain q -> kr_getSequence q' = kr_getSequence q ->
  request_shape q' ->
  (kr_state q' = POSTED -> kr_completionStage q' = FLAGCX_KERNEL_PROXY_COMPLETION_DATA_POSTED -> kr_request q' <> NULL) ->
  (kr_getDataComplete q = true -> kr_getDataComplete q' = true) ->
  (forall di low high, kr_getDataComplete q = true -> covered di low high q = true -> covered di low high q' = true) ->
  n = kp_nativeInflight t - Z.b2z (bool_decide (kr_state q = POSTED)) + Z.b2z (bool_decide (kr_state q' = POSTED)) ->
  kp_inv (set_kp_nativeInflight n (set_kp_requests (<[k := q']> (kp_requests t)) t)) a.
Proof.
  intros I [Hk Hst] Hst' Hsub Hpeer Hdom Hseq Hshape Hreq Hdata Hgood Hn.
  pose proof I as [(Hc & Hlr & Hld) Ii Ib In Iv If Iu Iget Is Igs Id].
  pose proof (lookup_lt_Some _ _ _ Hk) as Hlt.
  assert (Hback : forall j r, used (<[k := q']> (kp_requests t)) j r -> exists r0, used (kp_requests t) j r0 /\
    kr_submit r = kr_submit r0 /\ kr_getVisibilityDomain r = kr_getVisibilityDomain r0 /\ kr_getSequence r = kr_getSequence r0).
  { intros j r [(-> & -> & _)|[_ Hr]]%used_insert; [by exists q|by exists r|done]. }
  constructor; cbn [kp_capacity kp_requests kp_domains kp_nativeInflight kp_scoreboard kp_nextSequence kp_generation
    set_kp_nativeInflight set_kp_requests]; try done.
  - by rewrite length_insert.
  - pose proof (posted_insert (kp_requests t) k q q' Hk) as Hp. change (length (filter _ ?l)) with (posted l) in *.
    rewrite Hn, Ii. destruct (bool_decide (kr_state q = POSTED)), (bool_decide (kr_state q' = POSTED)); cbn in Hp |- *; lia.
  - intros j r Hj. destruct (decide (j = k)) as [->|Hne].
    + rewrite list_lookup_insert_eq in Hj by done. by simplify_eq.
    + rewrite list_lookup_insert_ne in Hj by done. by apply (If j r).
  - intros j r [(-> & -> & _)|[_ Hr]]%used_insert; [|by apply (Iu j r Hr)|done].
    rewrite Hsub, Hpeer. destruct (Iu k q) as (H1 & H2 & _); [done|]. done.
  - intros j r (r0 & Hr0 & _ & E1 & E2)%Hback. rewrite E1, E2. by apply (Iget j r0).
  - intros i j x y (x0 & Hx & E1 & _)%Hback (y0 & Hy & E2 & _)%Hback. rewrite E1, E2. by apply Is.
  - intros i j x y (x0 & Hx & _ & E1 & E2)%Hback (y0 & Hy & _ & E3 & E4)%Hback. rewrite E1, E2, E3, E4. by apply Igs.
  - intros i d Hd Hu. destruct (Id i d Hd Hu) as [Dm Dc Dd Dr Df]. constructor; try done.
    + intros s Hs. destruct (Dc s Hs) as (j & r & Hr & E1 & E2). destruct (decide (j = k)) as [->|Hne].
      * assert (r = q) as -> by (destruct Hr; congruence). exists k, q'. rewrite used_insert by done.
        split; [by left|]. split; congruence.
      * exists j, r. rewrite used_insert by done. split; [by right|done].
    + intros j r [(-> & -> & _)|[_ Hr]]%used_insert; [|by apply (Dd j r)|done]. rewrite Hdom, Hseq.
      intros E1 E2. apply Hdata. by apply (Dd k q).
    + intros Hv Hf. destruct (Dr Hv Hf) as (j & r & Hj & Hcv). destruct (decide (j = k)) as [->|Hne].
      * assert (r = q) as -> by congruence. exists k, q'. rewrite list_lookup_insert_eq by done. split; [done|].
        apply Hgood; [|done]. apply covered_spec in Hcv as (_ & E1 & E2 & _). apply (Dd k q); [done|done|lia].
      * exists j, r. by rewrite list_lookup_insert_ne.
Qed.

(** A free slot holds no GET, so taking it leaves the domains alone. *)
Lemma reserve_inv t a c peer stagingSlot :
  kp_inv t a -> unheld t a c -> 0 <= peer ->
  exists r t' slot, flagcxKernelProxyReserveRequest (Some t) (Some c) peer stagingSlot true = (r, Some t', slot) /\
    kp_inv t' a /\ kp_scoreboard t' = kp_scoreboard t /\
    (r = flagcxSuccess /\ (exists i, slot = Some (Z.of_nat i) /\ (i < length (kp_requests t))%nat /\
       t' = set_kp_requests (<[i := reserve_request c peer stagingSlot flagcxKernelProxyRequestReset]> (kp_requests t)) t) \/
     r = flagcxInProgress /\ t' = t /\ forall j r, kp_requests t !! j = Some r -> kr_state r <> FREE).
Proof.
  intros I [Hlive Hun] Hp. pose proof I as [(Hc & Hlr & Hld) Ii Ib In Iv If Iu Iget Is Igs Id].
  unfold flagcxKernelProxyReserveRequest. rewrite (proj2 (Z.ltb_ge peer 0)) by done. cbn [negb orb].
  pose proof (first_index_spec (fun _ r => request_is FREE r) (kp_requests t) 0) as Hfi.
  destruct (first_index _ 0 _) as [k|].
  2: { exists flagcxInProgress, t, None. split_and!; try done. right. split_and!; try done. intros j r Hj Hs.
    specialize (Hfi j r Hj). by rewrite (proj2 (request_is_spec FREE r)) in Hfi. }
  destruct Hfi as (_ & q & Hk & Hq%request_is_spec). rewrite Nat.sub_0_r in Hk. pose proof (If k q Hk Hq) as ->.
  pose proof (lookup_lt_Some _ _ _ Hk) as Hlt.
  assert (Hal : alter (reserve_request c peer stagingSlot) k (kp_requests t) =
    <[k := reserve_request c peer stagingSlot flagcxKernelProxyRequestReset]> (kp_requests t)).
  { apply list_eq. intros j. destruct (decide (j = k)) as [->|Hne].
    - by rewrite list_lookup_alter_eq, Hk, list_lookup_insert_eq.
    - by rewrite list_lookup_alter_ne, list_lookup_insert_ne. }
  rewrite Hal. set (q' := reserve_request c peer stagingSlot flagcxKernelProxyRequestReset).
  do 3 eexists. split; [reflexivity|]. split; [|split; [done|]].
  2: { left. split; [done|]. by exists k. }
  assert (Hu : forall j r, used (<[k := q']> (kp_requests t)) j r -> (j = k /\ r = q') \/ (j <> k /\ used (kp_requests t) j r)).
  { intros j r [(-> & -> & _)|?]%used_insert; auto. }
  assert (Hnk : forall j r, used (kp_requests t) j r -> j <> k).
  { intros j r [Hj Hs] ->. rewrite Hk in Hj. by simplify_eq. }
  constructor; cbn [kp_capacity kp_requests kp_domains kp_nativeInflight kp_scoreboard kp_nextSequence kp_generation
    set_kp_requests]; try done.
  - by rewrite length_insert.
  - pose proof (posted_insert (kp_requests t) k _ q' Hk) as Hpi. change (length (filter _ ?l)) with (posted l) in *.
    rewrite Ii. cbn in Hpi. rewrite (bool_decide_eq_false_2 (FREE = POSTED)), (bool_decide_eq_false_2 (RESERVED = POSTED)) in Hpi by done.
    cbn in Hpi. lia.
  - intros j r Hj. destruct (decide (j = k)) as [->|Hne].
    + rewrite list_lookup_insert_eq in Hj by done. by simplify_eq.
    + rewrite list_lookup_insert_ne in Hj by done. by apply (If j r).
  - intros j r [[-> ->]|[_ Hr]]%Hu; [|by apply (Iu j r)]. cbn. done.
  - intros j r [[-> ->]|[_ Hr]]%Hu; [by cbn|by apply (Iget j r)].
  - intros i j x y [[-> ->]|[_ Hx]]%Hu [[-> ->]|[_ Hy]]%Hu Hs; cbn in Hs; try done.
    + exfalso. by apply (Hun j y).
    + exfalso. by apply (Hun i x).
    + by apply (Is i j x y).
  - intros i j x y [[-> ->]|[_ Hx]]%Hu [[-> ->]|[_ Hy]]%Hu Hs Hd Hq'; cbn in Hs, Hq'; try done.
    by apply (Igs i j x y).
  - intros i d Hd Hud. destruct (Id i d Hd Hud) as [Dm Dc Dd Dr Df]. constructor; try done.
    + intros s Hs. destruct (Dc s Hs) as (j & r & Hr & E). exists j, r. rewrite used_insert by done. split; [right|done].
      split; [by eapply Hnk|done].
    + intros j r [[-> ->]|[_ Hr]]%Hu E; [cbn; lia|by apply (Dd j r)].
    + intros Hv Hf. destruct (Dr Hv Hf) as (j & r & Hj & Hcv). exists j, r. rewrite list_lookup_insert_ne; [done|].
      apply covered_spec in Hcv as (Hst & _). intros <-. apply (Hnk k r); [|done]. split; [done|congruence].
Qed.

(** A reserved request is posted: its slot keeps its submission. *)
Lemma post_slot_inv t a k q q' :
  kp_inv t a -> kp_requests t !! k = Some q -> kr_state q = RESERVED -> kr_state q' = POSTED ->
  kr_submit q' = kr_submit q -> kr_peer q' = kr_peer q ->
  kr_getVisibilityDomain q' = kr_getVisibilityDomain q -> kr_getSequence q' = kr_getSequence q -> request_shape q' ->
  (kr_completionStage q' = FLAGCX_KERNEL_PROXY_COMPLETION_DATA_POSTED -> kr_request q' <> NULL) ->
  kp_inv (set_kp_nativeInflight (kp_nativeInflight t +u32 1)%word (set_kp_requests (<[k := q']> (kp_requests t)) t)) a.
Proof.
  intros I Hq Hst Hst' Es Ep Ed Eg Hsh' Hreq. pose proof (kv_len _ _ I) as (Hc & Hlr & Hld).
  assert (Hu : used (kp_requests t) k q) by (split; [done|congruence]).
  destruct (kv_used _ _ I _ _ Hu) as (_ & _ & Hsh & _).
  assert (Hnd : kr_getDataComplete q = false).
  { unfold request_shape in Hsh. destruct (kr_requiresGetFlush q); [|tauto]. destruct Hsh as (_ & _ & Hd).
    destruct (kr_getDataComplete q); [|done]. exfalso. specialize (Hd eq_refl). congruence. }
  pose proof (kv_inflight _ _ I) as Hin. pose proof (posted_insert (kp_requests t) k q q' Hq) as Hpi.
  pose proof (posted_le (<[k := q']> (kp_requests t))) as Hle'.
  change (length (filter _ ?l)) with (posted l) in Hin. rewrite length_insert in Hle'. rewrite Hst, Hst' in Hpi.
  rewrite (bool_decide_eq_false_2 (RESERVED = POSTED)), (bool_decide_eq_true_2 (POSTED = POSTED)) in Hpi by done. cbn in Hpi.
  rewrite Z.mod_small by lia. apply (kp_inv_request t a k q q'); try done; try congruence.
  rewrite Hst, Hst', (bool_decide_eq_false_2 (RESERVED = POSTED)), (bool_decide_eq_true_2 (POSTED = POSTED)) by done.
  cbn. lia.
Qed.

(** The request of a reserved slot, and a GET whose data needs no request. *)
Lemma publish_request_inv t a k q request completionResult :
  kp_inv t a -> kp_requests t !! k = Some q -> kr_state q = RESERVED -> request <> NULL ->
  let t' := set_kp_nativeInflight (kp_nativeInflight t +u32 1)%word
    (set_kp_requests (<[k := publish_request request completionResult q]> (kp_requests t)) t) in
  flagcxKernelProxyPublishRequest (Some t) (Z.of_nat k) request completionResult = Some (flagcxSuccess, Some t') /\ kp_inv t' a.
Proof.
  intros I Hq Hst Hr t'. pose proof (kv_len _ _ I) as (Hc & Hlr & Hld). pose proof (lookup_lt_Some _ _ _ Hq) as Hlt.
  assert (Hu : used (kp_requests t) k q) by (split; [done|congruence]). destruct (kv_used _ _ I _ _ Hu) as (_ & _ & Hsh & _).
  split.
  - unfold flagcxKernelProxyPublishRequest. rewrite (proj2 (Z.eqb_neq request NULL)), (proj2 (Z.leb_gt _ _)) by (done || lia). cbn [orb].
    rewrite arr_get_nat, Hq. cbn [mbind option_bind]. rewrite (proj2 (request_is_spec RESERVED q) Hst). cbn [negb].
    by rewrite arr_set_nat.
  - apply (post_slot_inv t a k q); try done. unfold request_shape in Hsh |- *. cbn. destruct (kr_requiresGetFlush q); naive_solver.
Qed.

Lemma publish_pending_inv t a k q :
  kp_inv t a -> kp_requests t !! k = Some q -> kr_state q = RESERVED -> kr_requiresGetFlush q = true ->
  let t' := set_kp_nativeInflight (kp_nativeInflight t +u32 1)%word
    (set_kp_requests (<[k := publish_request NULL flagcxSuccess (flush_pending q)]> (kp_requests t)) t) in
  flagcxKernelProxyPublishGetFlushPending (Some t) (Z.of_nat k) = Some (flagcxSuccess, Some t') /\ kp_inv t' a.
Proof.
  intros I Hq Hst Hr t'. pose proof (kv_len _ _ I) as (Hc & Hlr & Hld). pose proof (lookup_lt_Some _ _ _ Hq) as Hlt.
  assert (Hu : used (kp_requests t) k q) by (split; [done|congruence]). destruct (kv_used _ _ I _ _ Hu) as (_ & _ & Hsh & _).
  split.
  - unfold flagcxKernelProxyPublishGetFlushPending. rewrite (proj2 (Z.leb_gt _ _)) by lia.
    rewrite arr_get_nat, Hq. cbn [mbind option_bind]. rewrite (proj2 (request_is_spec RESERVED q) Hst), Hr. cbn [negb orb].
    by rewrite arr_set_nat.
  - apply (post_slot_inv t a k q); try done. unfold request_shape in Hsh |- *. cbn. rewrite Hr in *. destruct Hsh as (H1 & _). done.
Qed.

(** ** Freeing a slot *)

(** The slot [k] of a request that no domain counts on becomes free. *)
Lemma free_inv t a k q n :
  kp_inv t a -> used (kp_requests t) k q ->
  (forall i d, kp_domains t !! i = Some d -> gv_inUse d = true -> kr_getVisibilityDomain q = Z.of_nat i ->
    kr_getSequence q <= gv_visible d) ->
  n = kp_nativeInflight t - Z.b2z (bool_decide (kr_state q = POSTED)) ->
  kp_inv (set_kp_nativeInflight n (set_kp_requests (<[k := flagcxKernelProxyRequestReset]> (kp_requests t)) t)) a.
Proof.
  intros I [Hk Hst] Hvis Hn. pose proof I as [(Hc & Hlr & Hld) Ii Ib In Iv If Iu Iget Is Igs Id].
  pose proof (lookup_lt_Some _ _ _ Hk) as Hlt.
  assert (Hback : forall j r, used (<[k := flagcxKernelProxyRequestReset]> (kp_requests t)) j r -> j <> k /\ used (kp_requests t) j r).
  { intros j r [(_ & _ & Hf)|?]%used_insert; [by destruct Hf|done|done]. }
  constructor; cbn [kp_capacity kp_requests kp_domains kp_nativeInflight kp_scoreboard kp_nextSequence kp_generation
    set_kp_nativeInflight set_kp_requests]; try done.
  - by rewrite length_insert.
  - pose proof (posted_insert (kp_requests t) k q flagcxKernelProxyRequestReset Hk) as Hp.
    change (length (filter _ ?l)) with (posted l) in *. cbn [kr_state flagcxKernelProxyRequestReset] in Hp.
    rewrite (bool_decide_eq_false_2 (FREE = POSTED)) in Hp by done.
    rewrite Hn, Ii. destruct (bool_decide (kr_state q = POSTED)); cbn in Hp |- *; lia.
  - intros j r Hj Hs. destruct (decide (j = k)) as [->|Hne].
    + rewrite list_lookup_insert_eq in Hj by done. by simplify_eq.
    + rewrite list_lookup_insert_ne in Hj by done. by apply (If j r).
  - intros j r [_ Hr]%Hback. by apply (Iu j r).
  - intros j r [_ Hr]%Hback. by apply (Iget j r).
  - intros i j x y [_ Hx]%Hback [_ Hy]%Hback. by apply Is.
  - intros i j x y [_ Hx]%Hback [_ Hy]%Hback. by apply Igs.
  - intros i d Hd Hu. specialize (Hvis i d Hd Hu). destruct (Id i d Hd Hu) as [Dm Dc Dd Dr Df]. constructor; try done.
    + intros s Hs. destruct (Dc s Hs) as (j & r & Hr & E1 & E2). exists j, r. rewrite used_insert by done. split; [right|done].
      split; [|done]. intros ->. assert (r = q) as -> by (destruct Hr; congruence). specialize (Hvis E1). lia.
    + intros j r [_ Hr]%Hback. by apply (Dd j r).
    + intros Hv Hf. destruct (Dr Hv Hf) as (j & r & Hj & Hcv). exists j, r. rewrite list_lookup_insert_ne; [done|].
      intros <-. assert (r = q) as -> by congruence. apply covered_spec in Hcv as (_ & E1 & E2 & _). specialize (Hvis E1). lia.
Qed.

Definition pred_above (di seq : Z) (r : flagcxKernelProxyRequest) : Z :=
  if (kr_getVisibilityDomain r =? di) && (seq <? kr_getSequence r) then kr_getSequence r - 1 else kr_getSequence r.

Lemma compact_used di seq r :
  kr_state r <> FREE -> 0 <= seq -> kr_getSequence r < U64_MAX ->
  compact_request di seq r = set_getSequence (pred_above di seq r) r.
Proof.
  intros Hs Hseq Hmax. unfold compact_request, pred_above.
  assert (request_is FREE r = false) as -> by (destruct (request_is FREE r) eqn:E; [|done]; by apply request_is_spec in E).
  cbn [negb andb]. destruct ((kr_getVisibilityDomain r =? di) && _) eqn:E; [|by destruct r].
  bool_to_prop. by rewrite Z.mod_small by lia.
Qed.

(** *** Taking the sequence of a reserved GET out of its domain *)

Section Removed.
Context (t : flagcxKernelProxyTransport) (a : abs_board) (k : nat) (q : flagcxKernelProxyRequest)
  (i : nat) (d : flagcxNetGetVisibilityDomain).
Hypothesis I : kp_inv t a.
Hypothesis Hu : used (kp_requests t) k q.
Hypothesis Hst : kr_state q = RESERVED.
Hypothesis Hz : kr_getSequence q <> 0.
Hypothesis Edi : kr_getVisibilityDomain q = Z.of_nat i.
Hypothesis Hd : kp_domains t !! i = Some d.
Hypothesis Hud : gv_inUse d = true.

Definition removed_requests : list flagcxKernelProxyRequest :=
  <[k := flagcxKernelProxyRequestReset]> (compact_request (Z.of_nat i) (kr_getSequence q) <$> kp_requests t).

Definition removed_domain : flagcxNetGetVisibilityDomain :=
  set_gv_sequences (gv_issued d - 1) (gv_dataCompleted d) (gv_flushTarget d) (gv_visible d) d.

(** The data of a reserved GET is not complete. *)
Lemma removed_above : 0 < kr_getSequence q /\ gv_dataCompleted d < kr_getSequence q.
Proof.
  destruct (kv_used _ _ I k q Hu) as (_ & _ & Hsh & _). unfold request_shape in Hsh.
  destruct (kr_requiresGetFlush q); [|by destruct Hsh]. destruct Hsh as (Hs & _ & Hp). split; [done|].
  destruct (Z.lt_ge_cases (gv_dataCompleted d) (kr_getSequence q)) as [|Hge]; [done|]. exfalso.
  assert (Hdc : kr_getDataComplete q = true) by (apply (dv_data _ _ _ (kv_dom _ _ I i d Hd Hud) k q Hu Edi); lia).
  specialize (Hp Hdc). congruence.
Qed.

Lemma used_max j r : used (kp_requests t) j r -> kr_getSequence r < U64_MAX.
Proof.
  intros Hr. destruct (Z.eq_dec (kr_getSequence r) 0); [lia|].
  destruct (kv_get _ _ I j r Hr) as (i' & d1 & _ & Hd1 & Hu1 & Hle1); [done|].
  destruct (dv_marks _ _ _ (kv_dom _ _ I i' d1 Hd1 Hu1)). lia.
Qed.

Lemma removed_used_inv j r :
  used removed_requests j r -> j <> k /\ exists r0, used (kp_requests t) j r0 /\
    r = set_getSequence (pred_above (Z.of_nat i) (kr_getSequence q) r0) r0.
Proof.
  pose proof removed_above. pose proof (lookup_lt_Some _ _ _ (proj1 Hu)) as Hklt.
  intros [Hj Hs]. unfold removed_requests in Hj. destruct (decide (j = k)) as [->|Hne].
  - rewrite list_lookup_insert_eq in Hj by (by rewrite length_fmap). injection Hj as <-. by destruct Hs.
  - rewrite list_lookup_insert_ne, list_lookup_fmap in Hj by done. destruct (kp_requests t !! j) as [r0|] eqn:Ej; [|done].
    cbn in Hj. injection Hj as <-. split; [done|]. exists r0.
    assert (Hs0 : kr_state r0 <> FREE). { intros E. apply Hs. unfold compact_request. by destruct (_ && _). }
    assert (Hur : used (kp_requests t) j r0) by done. split; [done|]. apply compact_used; [done|lia|by eapply used_max].
Qed.

Lemma removed_used j r :
  used (kp_requests t) j r -> j <> k ->
  used removed_requests j (set_getSequence (pred_above (Z.of_nat i) (kr_getSequence q) r) r).
Proof.
  pose proof removed_above. intros Hr Hne. pose proof Hr as [Hj Hs]. split; [|done]. unfold removed_requests.
  rewrite list_lookup_insert_ne, list_lookup_fmap, Hj by done. cbn. f_equal. apply compact_used; [done|lia|by eapply used_max].
Qed.

Lemma removed_ne j r :
  used (kp_requests t) j r -> j <> k -> kr_getVisibilityDomain r = Z.of_nat i -> kr_getSequence r <> kr_getSequence q.
Proof. intros Hr Hne Hdr Hs. apply Hne. symmetry. apply (kv_gets _ _ I k j q r Hu Hr Hz); congruence. Qed.

Lemma pred_above_zero r : kr_getSequence r <= kr_getSequence q -> pred_above (Z.of_nat i) (kr_getSequence q) r = kr_getSequence r.
Proof. intros Hr. unfold pred_above. by rewrite (proj2 (Z.ltb_ge _ _)), andb_false_r by lia. Qed.

Lemma pred_above_own r : kr_getVisibilityDomain r = Z.of_nat i ->
  pred_above (Z.of_nat i) (kr_getSequence q) r =
  if kr_getSequence q <? kr_getSequence r then kr_getSequence r - 1 else kr_getSequence r.
Proof. intros E. unfold pred_above. by rewrite E, Z.eqb_refl. Qed.

Lemma pred_above_other r : kr_getVisibilityDomain r <> Z.of_nat i ->
  set_getSequence (pred_above (Z.of_nat i) (kr_getSequence q) r) r = r.
Proof. intros E. unfold pred_above. rewrite (proj2 (Z.eqb_neq _ _)) by done. by destruct r. Qed.

Lemma removed_posted : posted removed_requests = posted (kp_requests t).
Proof.
  pose proof removed_above. unfold removed_requests. pose proof Hu as [Hk Hs].
  assert (Hcp : (compact_request (Z.of_nat i) (kr_getSequence q) <$> kp_requests t) !! k = Some q).
  { rewrite list_lookup_fmap, Hk. cbn. f_equal. rewrite compact_used by (done || lia || by eapply used_max).
    rewrite pred_above_zero by lia. by destruct q. }
  pose proof (posted_insert _ k q flagcxKernelProxyRequestReset Hcp) as Hp. rewrite Hst in Hp.
  cbn [kr_state flagcxKernelProxyRequestReset] in Hp.
  rewrite (bool_decide_eq_false_2 (RESERVED = POSTED)), (bool_decide_eq_false_2 (FREE = POSTED)) in Hp by done. cbn in Hp.
  rewrite (posted_fmap (compact_request (Z.of_nat i) (kr_getSequence q))) in Hp; [lia|].
  intros r. unfold compact_request. by destruct (_ && _).
Qed.

Lemma removed_free j r : removed_requests !! j = Some r -> kr_state r = FREE -> r = flagcxKernelProxyRequestReset.
Proof.
  intros Hj Hs. unfold removed_requests in Hj. destruct (decide (j = k)) as [->|Hne].
  - rewrite list_lookup_insert_eq in Hj by (rewrite length_fmap; by eapply lookup_lt_Some, Hu). by simplify_eq.
  - rewrite list_lookup_insert_ne, list_lookup_fmap in Hj by done. destruct (kp_requests t !! j) as [r0|] eqn:Ej; [|done].
    cbn in Hj. injection Hj as <-. unfold compact_request in Hs |- *.
    assert (Hf : kr_state r0 = FREE) by (by destruct (_ && _)). rewrite (proj2 (request_is_spec _ _) Hf). cbn. by apply (kv_free _ _ I j r0).
Qed.

Lemma removed_own : dom_inv removed_requests (Z.of_nat i) removed_domain.
Proof.
  pose proof removed_above as [H0 Hdata]. destruct (kv_dom _ _ I i d Hd Hud) as [(Dm1 & Dm2 & Dm3) Dc Dd Dr Df].
  destruct (kv_get _ _ I k q Hu Hz) as (i0 & d0 & E0 & Hd0 & _ & Hle0). assert (i0 = i) as -> by lia.
  assert (d0 = d) as -> by congruence.
  assert (Hk : forall j r, used (kp_requests t) j r -> kr_getSequence r <> kr_getSequence q -> j <> k).
  { intros j r Hr Hne ->. apply Hne. f_equal. destruct Hr, Hu. congruence. }
  constructor; cbn.
  - lia.
  - intros s Hs. destruct (Z.lt_ge_cases s (kr_getSequence q)) as [Hlt|Hge].
    + destruct (Dc s) as (j & r & Hr & E1 & E2); [lia|]. eexists j, _. split; [apply removed_used; [done|eapply Hk; [done|lia]]|].
      cbn. split; [done|]. rewrite pred_above_zero; lia.
    + destruct (Dc (s + 1)) as (j & r & Hr & E1 & E2); [lia|]. eexists j, _. split; [apply removed_used; [done|eapply Hk; [done|lia]]|].
      cbn. split; [done|]. rewrite pred_above_own, (proj2 (Z.ltb_lt _ _)) by (done || lia). lia.
  - intros j r (Hne & r0 & Hr & ->)%removed_used_inv E1 E2. cbn in E1, E2 |- *. apply (Dd j r0 Hr E1).
    rewrite pred_above_own in E2 by done. destruct (Z.ltb_spec (kr_getSequence q) (kr_getSequence r0)); lia.
  - intros Hv Hf. destruct (Dr Hv Hf) as (j & r & Hj & Hcv). pose proof Hcv as (E1 & E2 & E3 & E4)%covered_spec.
    assert (Hr : used (kp_requests t) j r) by (split; [done|congruence]).
    eexists j, _. split; [apply removed_used; [done|eapply Hk; [done|lia]]|].
    rewrite pred_above_zero by lia. by destruct r.
  - done.
Qed.

Lemma removed_other i1 d1 :
  i1 <> i -> kp_domains t !! i1 = Some d1 -> gv_inUse d1 = true -> dom_inv removed_requests (Z.of_nat i1) d1.
Proof.
  intros Hi1 Hd1 Hu1. destruct (kv_dom _ _ I i1 d1 Hd1 Hu1) as [Em Ec Ed Er Ef].
  assert (Hsame : forall j r, used (kp_requests t) j r -> kr_getVisibilityDomain r = Z.of_nat i1 -> used removed_requests j r).
  { intros j r Hr E. rewrite <- (pred_above_other r) by lia. apply removed_used; [done|]. intros ->.
    assert (r = q) as -> by (destruct Hr, Hu; congruence). lia. }
  constructor; try done.
  - intros s Hs. destruct (Ec s Hs) as (j & r & Hr & E1 & E2). exists j, r. auto.
  - intros j r (_ & r0 & Hr & ->)%removed_used_inv E1 E2. cbn in E1. rewrite (pred_above_other r0) in * by lia. by apply (Ed j r0).
  - intros Hv Hf. destruct (Er Hv Hf) as (j & r & Hj & Hcv). pose proof Hcv as (E1 & E2 & _)%covered_spec.
    exists j, r. split; [|done]. apply (Hsame j r); [split; [done|congruence]|done].
Qed.

Lemma removed_kp_inv :
  kp_inv (set_kp_requests removed_requests (set_kp_domains (<[i := removed_domain]> (kp_domains t)) t)) a.
Proof.
  pose proof removed_above as [H0 Hdata]. pose proof I as [(Hc & Hlr & Hld) Ii Ib In Iv If Iu Iget Is Igs Id].
  pose proof (lookup_lt_Some _ _ _ Hd) as Hilt.
  assert (Hnz : forall r0, pred_above (Z.of_nat i) (kr_getSequence q) r0 <> 0 -> kr_getSequence r0 <> 0).
  { intros r0 Hne E. apply Hne. rewrite pred_above_zero; lia. }
  constructor; cbn [kp_capacity kp_requests kp_domains kp_nativeInflight kp_scoreboard kp_nextSequence kp_generation
    set_kp_requests set_kp_domains]; try done.
  - unfold removed_requests. rewrite !length_insert, length_fmap. done.
  - rewrite Ii. f_equal. symmetry. exact removed_posted.
  - apply removed_free.
  - intros j r (Hne & r0 & Hr & ->)%removed_used_inv. destruct (Iu j r0 Hr) as (H1 & H2 & H3 & H4). split_and!; try done.
    unfold request_shape in *. cbn. destruct (kr_requiresGetFlush r0); [|destruct H3 as (E & ? & ?); rewrite pred_above_zero; [done|lia]].
    destruct H3 as (H3 & ?). split; [|done]. unfold pred_above. destruct ((_ =? _) && _) eqn:E; [bool_to_prop; lia|done].
  - intros j r (Hne & r0 & Hr & ->)%removed_used_inv Hs. cbn in Hs |- *.
    destruct (Iget j r0 Hr (Hnz r0 Hs)) as (i' & d1 & E1 & Hd1 & Hu1 & Hle1). exists i'. destruct (decide (i' = i)) as [->|Hi'].
    + exists removed_domain. rewrite list_lookup_insert_eq by done. split_and!; try done. cbn. assert (d1 = d) as -> by congruence.
      pose proof (removed_ne j r0 Hr Hne E1). rewrite pred_above_own by done.
      destruct (kv_get _ _ I k q Hu Hz) as (i0 & d0 & E0 & Hd0 & _ & Hle0). assert (i0 = i) as -> by lia.
      assert (d0 = d) as -> by congruence. destruct (Z.ltb_spec (kr_getSequence q) (kr_getSequence r0)); lia.
    + exists d1. rewrite list_lookup_insert_ne by done. split_and!; try done. unfold pred_above.
      rewrite (proj2 (Z.eqb_neq _ _)) by lia. done.
  - intros i1 j x y (_ & x0 & Hx & ->)%removed_used_inv (_ & y0 & Hy & ->)%removed_used_inv. cbn. by apply Is.
  - intros i1 j x y (Hn1 & x0 & Hx & ->)%removed_used_inv (Hn2 & y0 & Hy & ->)%removed_used_inv. cbn. intros Hs Hdxy Hsxy.
    apply (Igs i1 j x0 y0 Hx Hy (Hnz x0 Hs) Hdxy).
    destruct (Z.eq_dec (kr_getVisibilityDomain x0) (Z.of_nat i)) as [Ed|Ed].
    + assert (Ed' : kr_getVisibilityDomain y0 = Z.of_nat i) by congruence. rewrite !pred_above_own in Hsxy by done.
      pose proof (removed_ne i1 x0 Hx Hn1 Ed). pose proof (removed_ne j y0 Hy Hn2 Ed').
      destruct (Z.ltb_spec (kr_getSequence q) (kr_getSequence x0)), (Z.ltb_spec (kr_getSequence q) (kr_getSequence y0)); lia.
    + unfold pred_above in Hsxy. rewrite <- Hdxy, (proj2 (Z.eqb_neq _ _)) in Hsxy by done. done.
  - intros i1 d1 Hd1 Hu1. destruct (decide (i1 = i)) as [->|Hi1].
    + rewrite list_lookup_insert_eq in Hd1 by done. injection Hd1 as <-. apply removed_own.
    + rewrite list_lookup_insert_ne in Hd1 by done. by apply removed_other.
Qed.

End Removed.

(** Cancelling a reserved request frees its slot and closes the gap that its
    sequence leaves. *)
Lemma cancel_inv t a k q :
  kp_inv t a -> kp_requests t !! k = Some q -> kr_state q = RESERVED ->
  exists f ds, let t' := set_kp_requests (<[k := flagcxKernelProxyRequestReset]> (f <$> kp_requests t)) (set_kp_domains ds t) in
    flagcxKernelProxyCancelRequest (Some t) (Z.of_nat k) = Some (flagcxSuccess, Some t') /\ kp_inv t' a /\
    forall r, exists s, f r = set_getSequence s r.
Proof.
  intros I Hq Hst. pose proof (kv_len _ _ I) as (Hc & Hlr & Hld). pose proof (lookup_lt_Some _ _ _ Hq) as Hlt.
  assert (Hu : used (kp_requests t) k q) by (split; [done|congruence]).
  unfold flagcxKernelProxyCancelRequest. rewrite (proj2 (Z.leb_gt _ _)) by lia.
  rewrite arr_get_nat, Hq. cbn [mbind option_bind]. rewrite (proj2 (request_is_spec RESERVED q) Hst). cbn [negb].
  unfold flagcxKernelProxyRemoveGetVisibilitySequence. destruct (Z.eqb_spec (kr_getSequence q) 0) as [Hz|Hz].
  - cbn [mbind option_bind]. change (failed flagcxSuccess) with false. cbn match. rewrite arr_set_nat by done.
    cbn [mbind option_bind]. exists id, (kp_domains t). rewrite list_fmap_id.
    assert (set_kp_domains (kp_domains t) t = t) as -> by (by destruct t). split; [done|]. split.
    + assert (Hsame : forall t1 : flagcxKernelProxyTransport, set_kp_nativeInflight (kp_nativeInflight t1) t1 = t1) by (by intros []).
      rewrite <- (Hsame (set_kp_requests _ t)). apply (free_inv t a _ q); [done|done| |].
      * intros i d Hd Hud _. rewrite Hz. destruct (dv_marks _ _ _ (kv_dom _ _ I i d Hd Hud)). lia.
      * rewrite Hst, (bool_decide_eq_false_2 (RESERVED = POSTED)) by done. cbn. lia.
    + intros r. exists (kr_getSequence r). by destruct r.
  - destruct (kv_get _ _ I _ q Hu Hz) as (i & d & Edi & Hd & Hud & Hle). rewrite Edi.
    pose proof (lookup_lt_Some _ _ _ Hd) as Hilt. rewrite (proj2 (Z.leb_gt _ _)) by lia.
    pose proof (removed_above t a _ q i d I Hu Hst Hz Edi Hd Hud) as [H0 Hdata].
    destruct (kv_dom _ _ I i d Hd Hud) as [(Dm1 & Dm2 & Dm3) _ _ _ _].
    rewrite arr_get_nat, Hd. cbn [mbind option_bind]. rewrite Hud, (proj2 (Z.ltb_ge _ _)) by lia. cbn [negb orb].
    unfold flagcxNetGetVisibilityRemoveIssue. rewrite Hud, (proj2 (Z.eqb_neq (kr_getSequence q) 0)), (proj2 (Z.ltb_ge _ _)) by lia.
    cbn [negb orb]. unfold watermark_without. rewrite !(proj2 (Z.leb_gt (kr_getSequence q) _)) by lia.
    rewrite (Z.mod_small (gv_issued d - 1)) by lia.
    cbn [mbind option_bind kp_domains set_kp_requests]. rewrite arr_set_nat by done. cbn [mbind option_bind].
    change (flagcx_failed flagcxSuccess) with false. cbn match. cbn [kp_requests set_kp_domains set_kp_requests].
    change (failed flagcxSuccess) with false. cbn match. rewrite arr_set_nat by (by rewrite length_fmap).
    cbn [mbind option_bind]. eexists (compact_request (Z.of_nat i) (kr_getSequence q)), _. split; [reflexivity|]. split.
    + exact (removed_kp_inv t a _ q i d I Hu Hst Hz Edi Hd Hud).
    + intros r. unfold compact_request. destruct (_ && _); [by eexists|]. exists (kr_getSequence r). by destruct r.
Qed.
