(* ===== verification/KernelProxyProgress.v ===== *)
(** The calls of the kernel proxy's transport that give a GET its domain, that
    progress a request and that retire one: none fails where the invariant of
    [KernelProxyInv] holds, and all preserve it. *)
From S2P Require Import Prelude Flagcx Arrays NetTransport NetScoreboard KernelProxy KernelProxyInv.

(** ** Frames *)

(** What no call on the requests touches. *)
Definition same_board (t t' : flagcxKernelProxyTransport) : Prop :=
  kp_scoreboard t' = kp_scoreboard t /\ kp_capacity t' = kp_capacity t /\ kp_generation t' = kp_generation t /\
  kp_nextSequence t' = kp_nextSequence t /\ kp_stagingInUse t' = kp_stagingInUse t /\
  kp_stagingSlotCount t' = kp_stagingSlotCount t /\ kp_stagingCursor t' = kp_stagingCursor t.

(** The slot of a request, what it submitted and where its staging is. *)
Definition holding (r : flagcxKernelProxyRequest) : flagcxKernelProxyRequestState * flagcxNetSubmitContext * Z :=
  (kr_state r, kr_submit r, kr_stagingSlot r).

Definition same_holding (t t' : flagcxKernelProxyTransport) : Prop :=
  same_board t t' /\ holding <$> kp_requests t' = holding <$> kp_requests t /\ kp_nativeInflight t' = kp_nativeInflight t.

#[export] Instance same_board_preorder : PreOrder same_board.
Proof. split; [by intros t|]. intros t1 t2 t3. unfold same_board. intuition congruence. Qed.

#[export] Instance same_holding_preorder : PreOrder same_holding.
Proof.
  split; [by intros t; split|]. intros t1 t2 t3 (H1 & H2 & H3) (H4 & H5 & H6).
  split; [by etransitivity|]. split; congruence.
Qed.

Lemma same_holding_lookup t t' j r' :
  same_holding t t' -> kp_requests t' !! j = Some r' -> exists r, kp_requests t !! j = Some r /\ holding r' = holding r.
Proof.
  intros (_ & Hh & _) Hj. pose proof (f_equal (fun l => l !! j) Hh) as He. cbn in He.
  rewrite !list_lookup_fmap, Hj in He. destruct (kp_requests t !! j) as [r|]; [|done]. cbn in He. apply (inj Some) in He. by exists r.
Qed.

Lemma same_holding_used t t' j r' :
  same_holding t t' -> used (kp_requests t') j r' ->
  exists r, used (kp_requests t) j r /\ kr_submit r' = kr_submit r /\ kr_state r' = kr_state r.
Proof.
  intros Hs [Hj Hst]. destruct (same_holding_lookup _ _ _ _ Hs Hj) as (r & Hr & He). injection He as E1 E2 _.
  exists r. split; [split; [done|congruence]|done].
Qed.

Lemma set_inflight_id (t : flagcxKernelProxyTransport) : set_kp_nativeInflight (kp_nativeInflight t) t = t.
Proof. by destruct t. Qed.

Lemma set_requests_id (t : flagcxKernelProxyTransport) : set_kp_requests (kp_requests t) t = t.
Proof. by destruct t. Qed.

Lemma set_domains_id (t : flagcxKernelProxyTransport) : set_kp_domains (kp_domains t) t = t.
Proof. by destruct t. Qed.

(** ** A domain changes *)

(** Only results of requests of the domain change with it. *)
Definition relabels (di : Z) (f : flagcxKernelProxyRequest -> flagcxKernelProxyRequest) : Prop :=
  forall r, (exists x, f r = set_completionResult x r) /\ (kr_getVisibilityDomain r <> di -> f r = r).

Lemma relabels_id di : relabels di id.
Proof. intros r. split; [exists (kr_completionResult r); by destruct r|done]. Qed.

Lemma used_fmap di f rs j r :
  relabels di f -> used (f <$> rs) j r <-> exists r0, used rs j r0 /\ r = f r0.
Proof.
  intros Hf. unfold used. rewrite list_lookup_fmap. split.
  - intros [Hj Hs]. destruct (rs !! j) as [r0|]; [|done]. cbn in Hj. injection Hj as <-. exists r0.
    destruct (Hf r0) as [[x E] _]. rewrite E in Hs. done.
  - intros (r0 & [Hj Hs] & ->). rewrite Hj. split; [done|]. by destruct (Hf r0) as [[x ->] _].
Qed.

Lemma holding_fmap di f (rs : list flagcxKernelProxyRequest) : relabels di f -> holding <$> (f <$> rs) = holding <$> rs.
Proof.
  intros Hf. rewrite <- list_fmap_compose. apply list_fmap_ext. intros j r _. cbn. by destruct (Hf r) as [[x ->] _].
Qed.

Lemma kp_inv_domain t a i d d' f :
  kp_inv t a -> kp_domains t !! i = Some d -> gv_inUse d = true -> gv_inUse d' = true -> gv_issued d <= gv_issued d' ->
  relabels (Z.of_nat i) f -> dom_inv (f <$> kp_requests t) (Z.of_nat i) d' ->
  kp_inv (set_kp_requests (f <$> kp_requests t) (set_kp_domains (<[i := d']> (kp_domains t)) t)) a.
Proof.
  intros I Hd Hud Hud' Hiss Hf Hdom. pose proof I as [(Hc & Hlr & Hld) Ii Ib In Iv If Iu Iget Is Igs Id].
  pose proof (lookup_lt_Some _ _ _ Hd) as Hilt.
  constructor; cbn [kp_capacity kp_requests kp_domains kp_nativeInflight kp_scoreboard kp_nextSequence kp_generation
    set_kp_requests set_kp_domains]; try done.
  - by rewrite length_insert, length_fmap.
  - rewrite Ii. f_equal. symmetry. apply posted_fmap. intros r. by destruct (Hf r) as [[x ->] _].
  - intros j r Hj Hs. rewrite list_lookup_fmap in Hj. destruct (kp_requests t !! j) as [r0|] eqn:Ej; [|done].
    cbn in Hj. injection Hj as <-. destruct (Hf r0) as [[x E] Hother].
    assert (r0 = flagcxKernelProxyRequestReset) as -> by (apply (If j r0 Ej); by rewrite E in Hs).
    apply Hother. cbn. lia.
  - intros j r (r0 & Hr & ->)%(used_fmap _ _ _ _ _ Hf). destruct (Hf r0) as [[x ->] _]. exact (Iu j r0 Hr).
  - intros j r (r0 & Hr & ->)%(used_fmap _ _ _ _ _ Hf). destruct (Hf r0) as [[x ->] _]. intros Hz.
    destruct (Iget j r0 Hr Hz) as (i' & d1 & E1 & Hd1 & Hu1 & Hle). exists i'. destruct (decide (i' = i)) as [->|Hne].
    + exists d'. rewrite list_lookup_insert_eq by done. split_and!; try done. cbn. assert (d1 = d) as -> by congruence. lia.
    + exists d1. by rewrite list_lookup_insert_ne.
  - intros i1 j x y (x0 & Hx & ->)%(used_fmap _ _ _ _ _ Hf) (y0 & Hy & ->)%(used_fmap _ _ _ _ _ Hf).
    destruct (Hf x0) as [[x1 ->] _], (Hf y0) as [[y1 ->] _]. exact (Is i1 j x0 y0 Hx Hy).
  - intros i1 j x y (x0 & Hx & ->)%(used_fmap _ _ _ _ _ Hf) (y0 & Hy & ->)%(used_fmap _ _ _ _ _ Hf).
    destruct (Hf x0) as [[x1 ->] _], (Hf y0) as [[y1 ->] _]. exact (Igs i1 j x0 y0 Hx Hy).
  - intros i1 d1 Hd1 Hu1. destruct (decide (i1 = i)) as [->|Hne].
    { rewrite list_lookup_insert_eq in Hd1 by done. by injection Hd1 as <-. }
    rewrite list_lookup_insert_ne in Hd1 by done. destruct (Id i1 d1 Hd1 Hu1) as [Em Ec Ed Er Ef].
    assert (Hoth : forall r, kr_getVisibilityDomain r = Z.of_nat i1 -> f r = r) by (intros r E; apply (Hf r); lia).
    constructor; try done.
    + intros s Hs. destruct (Ec s Hs) as (j & r & Hr & E1 & E2). exists j, r. split; [|done].
      apply (used_fmap _ _ _ _ _ Hf). exists r. split; [done|]. by rewrite Hoth.
    + intros j r (r0 & Hr & ->)%(used_fmap _ _ _ _ _ Hf). destruct (Hf r0) as [[x ->] _]. exact (Ed j r0 Hr).
    + intros Hv Hn. destruct (Er Hv Hn) as (j & r & Hj & Hcv). exists j, r. split; [|done].
      rewrite list_lookup_fmap, Hj. cbn. f_equal. apply Hoth. by apply covered_spec in Hcv as (_ & ? & _).
Qed.

(** ** The end of a flush *)

(** The failure of a flush, written to the requests it covers. *)
Definition fail_covered (di low high : Z) (result : flagcxResult_t) (q : flagcxKernelProxyRequest) : flagcxKernelProxyRequest :=
  if covered di low high q then set_completionResult result q else q.

Lemma fail_covered_relabels di low high result : relabels di (fail_covered di low high result).
Proof.
  intros r. unfold fail_covered. destruct (covered di low high r) eqn:Hc.
  - split; [by eexists|]. apply covered_spec in Hc as (_ & ? & _). done.
  - split; [exists (kr_completionResult r); by destruct r|done].
Qed.

(** The requests after the end of a flush. *)
Definition after_flush (di low high : Z) (result : flagcxResult_t) (q : flagcxKernelProxyRequest) : flagcxKernelProxyRequest :=
  if failed result then fail_covered di low high result q else q.

Lemma after_flush_relabels di low high result : relabels di (after_flush di low high result).
Proof. unfold after_flush. destruct (failed result); [apply fail_covered_relabels|apply relabels_id]. Qed.

Definition flushed_domain (result : flagcxResult_t) (d : flagcxNetGetVisibilityDomain) : flagcxNetGetVisibilityDomain :=
  set_gv_flush NULL result (set_gv_sequences (gv_issued d) (gv_dataCompleted d) (gv_flushTarget d) (gv_flushTarget d) d).

Lemma set_holding t (f : flagcxKernelProxyRequest -> flagcxKernelProxyRequest) di ds :
  relabels di f -> same_holding t (set_kp_requests (f <$> kp_requests t) (set_kp_domains ds t)).
Proof. intros Hf. split; [done|]. split; [|done]. cbn. by eapply holding_fmap. Qed.

Lemma complete_flush_inv t a i d result :
  kp_inv t a -> kp_domains t !! i = Some d -> gv_inUse d = true -> gv_visible d < gv_flushTarget d ->
  let t' := set_kp_requests (after_flush (Z.of_nat i) (gv_visible d) (gv_flushTarget d) result <$> kp_requests t)
    (set_kp_domains (<[i := flushed_domain result d]> (kp_domains t)) t) in
  complete_flush (Z.of_nat i) result t = Some (flagcxSuccess, t') /\ kp_inv t' a /\ same_holding t t'.
Proof.
  intros I Hd Hud Hv t'. pose proof (lookup_lt_Some _ _ _ Hd) as Hilt.
  pose proof (kv_dom _ _ I i d Hd Hud) as D. pose proof D as [(Dm1 & Dm2 & Dm3) Dc Dd Dr Df].
  pose proof (after_flush_relabels (Z.of_nat i) (gv_visible d) (gv_flushTarget d) result) as Hf.
  split; [|split; [|by eapply set_holding]].
  - unfold complete_flush. rewrite arr_get_nat, Hd. cbn [mbind option_bind]. unfold flagcxNetGetVisibilityCompleteFlush.
    rewrite Hud, !(proj2 (Z.ltb_ge _ _)), (proj2 (Z.eqb_neq (gv_flushTarget d) (gv_visible d))) by lia. cbn [negb orb andb].
    cbn [mbind option_bind]. rewrite arr_set_nat by done. cbn [mbind option_bind].
    change (flagcx_failed flagcxSuccess) with false. cbn match. unfold t', after_flush. destruct (failed result); [done|].
    rewrite list_fmap_id. by rewrite (set_requests_id (set_kp_domains _ t)).
  - apply (kp_inv_domain t a i d (flushed_domain result d) _ I Hd Hud); [done|cbn; lia|done|].
    constructor; cbn; try done; [lia| | |lia].
    + intros s Hs. destruct (Dc s) as (j & r & Hr & E1 & E2); [lia|]. eexists j, _. split.
      { apply (used_fmap _ _ _ _ _ Hf). exists r. done. }
      destruct (Hf r) as [[x ->] _]. done.
    + intros j r (r0 & Hr & ->)%(used_fmap _ _ _ _ _ Hf). destruct (Hf r0) as [[x ->] _]. exact (Dd j r0 Hr).
Qed.

(** ** The completed prefix *)

Lemma data_prefix_spec fuel rs di issued : forall completed,
  completed <= issued <= U64_MAX - 1 -> 0 <= completed -> issued - completed <= Z.of_nat fuel ->
  let c := data_prefix fuel rs di issued completed in
  completed <= c <= issued /\
  (forall s, completed < s <= c -> exists j r, rs !! j = Some r /\ kr_state r = POSTED /\ kr_getVisibilityDomain r = di /\
    kr_getSequence r = s /\ kr_getDataComplete r = true) /\
  (c < issued -> (forall j r, rs !! j = Some r -> kr_state r = POSTED -> kr_getVisibilityDomain r = di ->
    kr_getSequence r = c + 1 -> forall j' r', rs !! j' = Some r' -> kr_state r' = POSTED -> kr_getVisibilityDomain r' = di ->
    kr_getSequence r' = c + 1 -> r' = r) -> forall j r, rs !! j = Some r -> kr_state r = POSTED ->
    kr_getVisibilityDomain r = di -> kr_getSequence r = c + 1 -> kr_getDataComplete r = false).
Proof.
  induction fuel as [|fuel IH]; intros completed Hc H0 Hf; cbn [data_prefix].
  { split; [lia|]. split; [intros s Hs; lia|lia]. }
  destruct (Z.ltb_spec completed issued) as [Hlt|Hge]; [|split; [lia|]; split; [intros s Hs; lia|lia]].
  rewrite Z.mod_small by lia.
  destruct (find _ rs) as [q|] eqn:Hq.
  - apply find_some in Hq as [Hin Hq]. apply list_elem_of_In, list_elem_of_lookup in Hin as [k Hk].
    rewrite !andb_true_iff, request_is_spec, !Z.eqb_eq in Hq. destruct Hq as ((Hst & Hdi) & Hseq).
    destruct (kr_getDataComplete q) eqn:Hdc.
    + destruct (IH (completed + 1)) as (H1 & H2 & H3); [lia|lia|lia|]. split; [lia|]. split; [|done].
      intros s Hs. destruct (Z.eq_dec s (completed + 1)) as [->|Hne]; [by exists k, q|]. apply H2. lia.
    + split; [lia|]. split; [intros s Hs; lia|]. intros _ Huniq j r Hj E1 E2 E3.
      by rewrite (Huniq k q Hk Hst Hdi Hseq j r Hj E1 E2 E3).
  - split; [lia|]. split; [intros s Hs; lia|]. intros _ _ j r Hj E1 E2 E3. exfalso.
    pose proof (find_none _ _ Hq r) as Hn. cbn in Hn. rewrite (proj2 (request_is_spec POSTED r) E1), E2, E3, !Z.eqb_refl in Hn.
    cut (true = false); [done|]. apply Hn. apply list_elem_of_In. by eapply list_elem_of_lookup_2.
Qed.

(** The mark of completed data moves over the longest prefix with data. *)
Lemma progress_prefix_inv t a i d :
  kp_inv t a -> kp_domains t !! i = Some d -> gv_inUse d = true ->
  exists c, let d' := set_gv_sequences (gv_issued d) c (gv_flushTarget d) (gv_visible d) d in
    let t' := set_kp_domains (<[i := d']> (kp_domains t)) t in
    progress_prefix (Z.of_nat i) t = Some (flagcxSuccess, t') /\ kp_inv t' a /\ same_holding t t' /\
    gv_dataCompleted d <= c <= gv_issued d.
Proof.
  intros I Hd Hud. pose proof (lookup_lt_Some _ _ _ Hd) as Hilt.
  pose proof (kv_dom _ _ I i d Hd Hud) as D. pose proof D as [(Dm1 & Dm2 & Dm3) Dc Dd Dr Df].
  set (c := data_prefix (Z.to_nat (gv_issued d - gv_dataCompleted d)) (kp_requests t) (Z.of_nat i) (gv_issued d) (gv_dataCompleted d)).
  exists c. intros d' t'.
  destruct (data_prefix_spec (Z.to_nat (gv_issued d - gv_dataCompleted d)) (kp_requests t) (Z.of_nat i) (gv_issued d) (gv_dataCompleted d))
    as (H1 & H2 & _); [lia|lia|lia|]. fold c in H1, H2.
  split; [|split; [|split]]; [| |split; done|done].
  - unfold progress_prefix. rewrite arr_get_nat, Hd. cbn [mbind option_bind]. fold c. unfold flagcxNetGetVisibilityAdvanceData.
    rewrite Hud, !(proj2 (Z.ltb_ge _ _)) by lia. cbn [negb orb]. cbn [mbind option_bind]. rewrite arr_set_nat by done. done.
  - pose proof (kp_inv_domain t a i d d' id I Hd Hud Hud) as HI. rewrite list_fmap_id in HI. unfold t'.
    rewrite <- (set_requests_id (set_kp_domains _ t)). apply HI; [cbn; lia|apply relabels_id|].
    constructor; cbn; try done; [lia|].
    intros j r Hr E1 E2. destruct (Z.le_gt_cases (kr_getSequence r) (gv_dataCompleted d)) as [Hle|Hgt].
    { apply (Dd j r Hr E1). lia. }
    destruct (H2 (kr_getSequence r)) as (j' & r' & Hj' & Est & Edi & Eseq & Edc); [lia|].
    assert (Hr' : used (kp_requests t) j' r') by (split; [done|congruence]).
    assert (j' = j) as -> by (apply (kv_gets _ _ I j' j r' r Hr' Hr); [lia|congruence|done]).
    assert (r' = r) as -> by (destruct Hr; congruence). done.
Qed.

(** ** What makes a GET visible *)

Definition visible_at (t : flagcxKernelProxyTransport) (i : nat) : Z := default 0 (gv_visible <$> kp_domains t !! i).

(** Between [t] and [t'] a posted request of the domain [i] keeps its place and
    its error; without error, it becomes visible only if [P] holds of its
    sequence. *)
Definition shows (P : Z -> Prop) (i : nat) (t t' : flagcxKernelProxyTransport) : Prop :=
  forall j q q', kp_requests t !! j = Some q -> kr_state q = POSTED -> kr_getVisibilityDomain q = Z.of_nat i ->
    kp_requests t' !! j = Some q' ->
    kr_state q' = POSTED /\ kr_getVisibilityDomain q' = Z.of_nat i /\ kr_getSequence q' = kr_getSequence q /\
    (failed (kr_completionResult q') = false -> failed (kr_completionResult q) = false /\
      (visible_at t i < kr_getSequence q <= visible_at t' i -> P (kr_getSequence q))).

Lemma shows_trans P1 P2 i t1 t2 t3 :
  shows P1 i t1 t2 -> shows P2 i t2 t3 -> length (kp_requests t2) = length (kp_requests t1) ->
  shows (fun s => P1 s \/ P2 s) i t1 t3.
Proof.
  intros H1 H2 Hlen j q q3 Hq Hst Hdi Hq3.
  destruct (lookup_lt_is_Some_2 (kp_requests t2) j) as [q2 Hq2]; [rewrite Hlen; by eapply lookup_lt_Some|].
  destruct (H1 j q q2 Hq Hst Hdi Hq2) as (Hs2 & Hd2 & Eseq & HP1).
  destruct (H2 j q2 q3 Hq2 Hs2 Hd2 Hq3) as (Hs3 & Hd3 & Eseq3 & HP2). split_and!; try congruence.
  intros Hg. destruct (HP2 Hg) as [Hg2 HP2']. destruct (HP1 Hg2) as [Hg1 HP1']. split; [done|]. intros Hv.
  destruct (Z.le_gt_cases (kr_getSequence q) (visible_at t2 i)); [left; apply HP1'; lia|right; rewrite <- Eseq; apply HP2'; lia].
Qed.

Lemma shows_weaken (P Q : Z -> Prop) i t t' : (forall s, P s -> Q s) -> shows P i t t' -> shows Q i t t'.
Proof.
  intros HPQ Hs j q q' Hq Hst Hdi Hq'. destruct (Hs j q q' Hq Hst Hdi Hq') as (? & ? & ? & HP). split_and!; try done.
  intros Hg. destruct (HP Hg) as [? HP']. split; [done|]. intros Hv. by apply HPQ, HP'.
Qed.

(** Requests and mark unchanged. *)
Lemma shows_same P i t t' : kp_requests t' = kp_requests t -> visible_at t' i = visible_at t i -> shows P i t t'.
Proof.
  intros Hr Hv j q q' Hq Hst Hdi Hq'. rewrite Hr in Hq'. assert (q' = q) as -> by congruence. split_and!; try done.
  intros Hg. split; [done|]. rewrite Hv. lia.
Qed.

Lemma same_holding_length t t' : same_holding t t' -> length (kp_requests t') = length (kp_requests t).
Proof. intros (_ & Hh & _). apply (f_equal length) in Hh. by rewrite !length_fmap in Hh. Qed.

Lemma visible_at_insert t i d d' :
  kp_domains t !! i = Some d -> visible_at (set_kp_domains (<[i := d']> (kp_domains t)) t) i = gv_visible d'.
Proof. intros Hd. unfold visible_at. cbn. rewrite list_lookup_insert_eq by (by eapply lookup_lt_Some). done. Qed.

(** A flush that ended well is the only end of a flush to show a GET. *)
Lemma complete_flush_shows t i d result :
  kp_domains t !! i = Some d ->
  let t' := set_kp_requests (after_flush (Z.of_nat i) (gv_visible d) (gv_flushTarget d) result <$> kp_requests t)
    (set_kp_domains (<[i := flushed_domain result d]> (kp_domains t)) t) in
  shows (fun s => failed result = false /\ s <= gv_flushTarget d) i t t'.
Proof.
  intros Hd t' j q q' Hq Hst Hdi Hq'. unfold t' in Hq'. cbn in Hq'. rewrite list_lookup_fmap, Hq in Hq'.
  change (Some (after_flush (Z.of_nat i) (gv_visible d) (gv_flushTarget d) result q) = Some q') in Hq'. injection Hq' as <-.
  assert (Hv : visible_at t i = gv_visible d) by (unfold visible_at; by rewrite Hd).
  assert (Hv' : visible_at t' i = gv_flushTarget d).
  { unfold t', visible_at. cbn. rewrite list_lookup_insert_eq by (by eapply lookup_lt_Some). done. }
  destruct (after_flush_relabels (Z.of_nat i) (gv_visible d) (gv_flushTarget d) result q) as [[x Ex] _].
  split_and!; try (by rewrite Ex).
  rewrite Hv, Hv'. unfold after_flush, fail_covered.
  clear x Ex. destruct (failed result) eqn:Er; [|intros Hg; split; [exact Hg|]; intros Hs; split; [done|lia]].
  destruct (covered (Z.of_nat i) (gv_visible d) (gv_flushTarget d) q) eqn:Ec; [cbn; by rewrite Er|].
  intros Hg. split; [done|]. intros Hs. exfalso. revert Ec. rewrite (proj2 (covered_spec _ _ _ q)); [done|]. done.
Qed.

(** ** Progress *)

Section Progress.
Context {S : Type}.
Context (test : S -> Z -> flagcxResult_t * bool * S) (post : S -> Z -> Z -> Z -> Z -> flagcxResult_t * Z * S).

(** The flush in flight of [d] tested as done without error, in the state [s];
    and a flush posted in the state [s] was complete at once. *)
Definition flush_ended (d : flagcxNetGetVisibilityDomain) (s : S) : Prop :=
  gv_flushRequest d <> NULL /\ exists s', test s (gv_flushRequest d) = (flagcxSuccess, true, s').
Definition flush_immediate (s : S) : Prop :=
  exists comm mr off size s', post s comm mr off size = (flagcxSuccess, NULL, s').

(** The state after the test of the data, and after that of the flush in
    flight. *)
Definition data_state (q : flagcxKernelProxyRequest) (s : S) : S :=
  if bool_decide (kr_completionStage q = FLAGCX_KERNEL_PROXY_COMPLETION_FLUSH_PENDING) then s
  else (test s (kr_request q)).2.
Definition flush_state (d : flagcxNetGetVisibilityDomain) (s : S) : S :=
  if gv_flushRequest d =? NULL then s else (test s (gv_flushRequest d)).2.

(** The stage of the domain [i], before and after. *)
Definition stage_ok (a : abs_board) (i : nat) (P : Z -> Prop) (t t' : flagcxKernelProxyTransport) : Prop :=
  kp_inv t' a /\ same_holding t t' /\ shows P i t t' /\
  exists d', kp_domains t' !! i = Some d' /\ gv_inUse d' = true.

Lemma progress_flush_inv t a i d s :
  kp_inv t a -> kp_domains t !! i = Some d -> gv_inUse d = true ->
  exists t', progress_flush (Some test) (Z.of_nat i) t s = Some (flagcxSuccess, t', flush_state d s) /\
    stage_ok a i (fun q => flush_ended d s /\ q <= gv_flushTarget d) t t'.
Proof.
  intros I Hd Hud. unfold progress_flush. rewrite arr_get_nat, Hd. cbn [mbind option_bind].
  assert (Hstay : stage_ok a i (fun q => flush_ended d s /\ q <= gv_flushTarget d) t t).
  { split; [done|]. split; [done|]. split; [by apply shows_same|by exists d]. }
  unfold flush_state. destruct (Z.eqb_spec (gv_flushRequest d) NULL) as [Hn|Hn]; [by exists t|].
  destruct (test s (gv_flushRequest d)) as [[result done] s1] eqn:Ht. cbn [snd].
  destruct (done || failed result) eqn:Hdone; [|by exists t].
  destruct (complete_flush_inv t a i d result I Hd Hud) as (Hrun & I' & Hsame).
  { by apply (dv_flush _ _ _ (kv_dom _ _ I i d Hd Hud)). }
  rewrite Hrun. cbn [mbind option_bind]. eexists. split; [reflexivity|]. split; [done|]. split; [done|].
  split; [|exists (flushed_domain result d); split; [|done]; cbn; by apply list_lookup_insert_eq, (lookup_lt_Some _ _ _ Hd)].
  eapply shows_weaken; [|by apply complete_flush_shows]. cbn. intros q [Hr Hq]. split; [|done]. split; [done|].
  exists s1. rewrite Ht. apply failed_success in Hr as ->. rewrite orb_false_r in Hdone. by rewrite Hdone.
Qed.

(** The last request that the flush [(low, high]] of [di] covers. *)
Definition flush_range (t : flagcxKernelProxyTransport) (di low high : Z) : option flagcxKernelProxyRequest :=
  last (filter (fun r => covered di low high r = true) (kp_requests t)).

Lemma flush_range_some t di low high r :
  flush_range t di low high = Some r -> good_get (kp_requests t) di low high.
Proof.
  intros Hl%last_Some_elem_of. apply list_elem_of_filter in Hl as [Hc Hl]. apply list_elem_of_lookup in Hl as [j Hj].
  by exists j, r.
Qed.

Lemma flush_range_none t di low high : flush_range t di low high = None -> ~ good_get (kp_requests t) di low high.
Proof.
  intros Hl%last_None (j & r & Hj & Hc). apply (not_elem_of_nil r). rewrite <- Hl.
  apply list_elem_of_filter. split; [done|by eapply list_elem_of_lookup_2].
Qed.

(** Every GET up to [dataCompleted] failed: they are visible without a flush. *)
Lemma advance_visible_inv t a i d :
  kp_inv t a -> kp_domains t !! i = Some d -> gv_inUse d = true -> gv_flushRequest d = NULL ->
  ~ good_get (kp_requests t) (Z.of_nat i) (gv_visible d)
      (if gv_visible d <? gv_flushTarget d then gv_flushTarget d else gv_dataCompleted d) ->
  exists d', flagcxNetGetVisibilityAdvanceVisible (Some d) (gv_dataCompleted d) = (flagcxSuccess, Some d') /\
    stage_ok a i (fun _ => False) t (set_kp_domains (<[i := d']> (kp_domains t)) t).
Proof.
  intros I Hd Hud Hn Hng. pose proof (lookup_lt_Some _ _ _ Hd) as Hilt.
  pose proof (kv_dom _ _ I i d Hd Hud) as D. pose proof D as [(Dm1 & Dm2 & Dm3) Dc Dd Dr Df].
  assert (Hft : gv_flushTarget d = gv_visible d).
  { destruct (Z.lt_ge_cases (gv_visible d) (gv_flushTarget d)) as [Hlt|]; [|lia]. exfalso.
    rewrite (proj2 (Z.ltb_lt _ _) Hlt) in Hng. by apply Hng, Dr. }
  rewrite Hft, Z.ltb_irrefl in Hng. unfold flagcxNetGetVisibilityAdvanceVisible.
  rewrite Hud, Hn, Hft, !Z.eqb_refl, !(proj2 (Z.ltb_ge _ _)) by lia. cbn [negb orb]. eexists. split; [reflexivity|].
  set (d' := set_gv_flush _ _ _). split; [|split; [done|split]].
  - pose proof (kp_inv_domain t a i d d' id I Hd Hud Hud) as HI. rewrite list_fmap_id in HI.
    rewrite <- (set_requests_id (set_kp_domains _ t)). apply HI; [cbn; lia|apply relabels_id|].
    constructor; cbn; try done; try lia. intros s Hs. apply Dc. lia.
  - intros j q q' Hq Hst Hdi Hq'. change (kp_requests t !! j = Some q') in Hq'. assert (q' = q) as -> by congruence. split_and!; try done.
    intros Hg. split; [done|]. rewrite (visible_at_insert t i d) by done. unfold visible_at. rewrite Hd. cbn. intros Hv.
    apply Hng. exists j, q. split; [done|]. by apply covered_spec.
  - exists d'. cbn. rewrite list_lookup_insert_eq by done. done.
Qed.

(** The marks of a domain whose flush is posted. *)
Definition flushing (target request : Z) (result : flagcxResult_t) (d : flagcxNetGetVisibilityDomain) :
    flagcxNetGetVisibilityDomain :=
  set_gv_flush request result (set_gv_sequences (gv_issued d) (gv_dataCompleted d) target (gv_visible d) d).

Lemma flushing_inv t a i d target request :
  kp_inv t a -> kp_domains t !! i = Some d -> gv_inUse d = true ->
  gv_visible d < target <= gv_dataCompleted d ->
  good_get (kp_requests t) (Z.of_nat i) (gv_visible d) target ->
  stage_ok a i (fun _ => False) t (set_kp_domains (<[i := flushing target request (gv_flushResult d) d]> (kp_domains t)) t).
Proof.
  intros I Hd Hud Ht Hg. pose proof (lookup_lt_Some _ _ _ Hd) as Hilt. set (d' := flushing _ _ _ d).
  pose proof (kv_dom _ _ I i d Hd Hud) as D. pose proof D as [(Dm1 & Dm2 & Dm3) Dc Dd Dr Df].
  split; [|split; [done|split]].
  - pose proof (kp_inv_domain t a i d d' id I Hd Hud Hud) as HI. rewrite list_fmap_id in HI.
    rewrite <- (set_requests_id (set_kp_domains _ t)). apply HI; [cbn; lia|apply relabels_id|].
    constructor; cbn; try done; lia.
  - apply shows_same; [done|]. rewrite (visible_at_insert t i d) by done. unfold visible_at. by rewrite Hd.
  - exists d'. cbn. rewrite list_lookup_insert_eq by done. done.
Qed.

Lemma stage_ok_trans a i P Q t1 t2 t3 :
  stage_ok a i P t1 t2 -> stage_ok a i Q t2 t3 -> stage_ok a i (fun s => P s \/ Q s) t1 t3.
Proof.
  intros (_ & Hh1 & Hs1 & _) (I3 & Hh2 & Hs2 & Hd). split; [done|]. split; [by etransitivity|]. split; [|done].
  eapply shows_trans; [done|done|]. by apply same_holding_length.
Qed.

Lemma stage_ok_weaken a i (P Q : Z -> Prop) t t' : (forall s, P s -> Q s) -> stage_ok a i P t t' -> stage_ok a i Q t t'.
Proof. intros HPQ (I & Hh & Hs & Hd). split; [done|]. split; [done|]. split; [by eapply shows_weaken|done]. Qed.

Lemma progress_new_flush_inv t a i d s :
  kp_inv t a -> kp_domains t !! i = Some d -> gv_inUse d = true ->
  exists t' s', progress_new_flush (Some post) (Z.of_nat i) t s = Some (flagcxSuccess, t', s') /\
    stage_ok a i (fun _ => flush_immediate s) t t'.
Proof.
  intros I Hd Hud. pose proof (lookup_lt_Some _ _ _ Hd) as Hilt.
  pose proof (kv_dom _ _ I i d Hd Hud) as [(Dm1 & Dm2 & Dm3) _ _ _ _].
  unfold progress_new_flush. rewrite arr_get_nat, Hd. cbn [mbind option_bind].
  destruct (Z.eqb_spec (gv_flushRequest d) NULL) as [Hn|Hn]; cbn [negb orb].
  2: { exists t, s. split; [done|]. split; [done|]. split; [done|]. split; [by apply shows_same|by exists d]. }
  destruct (Z.leb_spec (gv_dataCompleted d) (gv_visible d)) as [Hle|Hgt].
  { exists t, s. split; [done|]. split; [done|]. split; [done|]. split; [by apply shows_same|by exists d]. }
  set (target := if gv_visible d <? gv_flushTarget d then gv_flushTarget d else gv_dataCompleted d).
  fold (flush_range t (Z.of_nat i) (gv_visible d) target).
  destruct (flush_range t (Z.of_nat i) (gv_visible d) target) as [r|] eqn:Hr.
  2: { destruct (advance_visible_inv t a i d I Hd Hud Hn (flush_range_none _ _ _ _ Hr)) as (d' & Hrun & Hst).
    rewrite Hrun. cbn [mbind option_bind]. rewrite arr_set_nat by done. eexists _, s. split; [done|].
    by eapply stage_ok_weaken; [|exact Hst]. }
  apply flush_range_some in Hr.
  assert (Htg : gv_visible d < target <= gv_dataCompleted d).
  { unfold target. destruct (Z.ltb_spec (gv_visible d) (gv_flushTarget d)); lia. }
  assert (Hbegin : (if gv_visible d <? gv_flushTarget d then (flagcxSuccess, Some d, None)
      else flagcxNetGetVisibilityBeginFlush (Some d) true) =
    (flagcxSuccess, Some (flushing target NULL (gv_flushResult d) d),
      if gv_visible d <? gv_flushTarget d then None else Some (gv_dataCompleted d))).
  { unfold target, flushing. destruct (Z.ltb_spec (gv_visible d) (gv_flushTarget d)) as [Hlt|Hge].
    - do 2 f_equal. destruct d; cbn in *. by subst.
    - unfold flagcxNetGetVisibilityBeginFlush. rewrite Hud, Hn, (proj2 (Z.eqb_eq (gv_flushTarget d) _)), (proj2 (Z.leb_gt _ _)) by lia.
      cbn. do 2 f_equal. destruct d; cbn in *. by subst. }
  rewrite Hbegin. cbn [mbind option_bind]. rewrite arr_set_nat by done. cbn [mbind option_bind].
  change (flagcx_failed flagcxSuccess) with false. cbn match.
  destruct (post s _ _ _ _) as [[result request] s1] eqn:Hpost. cbn [kp_domains set_kp_domains].
  rewrite arr_set_nat by (by rewrite length_insert). cbn [mbind option_bind]. rewrite list_insert_insert_eq.
  change (set_gv_flush request _ _) with (flushing target request (gv_flushResult d) d).
  change (set_kp_domains ?x (set_kp_domains _ t)) with (set_kp_domains x t).
  set (d1 := flushing target request (gv_flushResult d) d). set (t1 := set_kp_domains (<[i := d1]> (kp_domains t)) t).
  pose proof (flushing_inv t a i d target request I Hd Hud Htg Hr) as H1. fold d1 t1 in H1.
  destruct (negb (bool_decide (result = flagcxInProgress)) && (failed result || (request =? NULL))) eqn:Hc.
  2: { eexists _, _. split; [done|]. by eapply stage_ok_weaken; [|exact H1]. }
  assert (Hd1 : kp_domains t1 !! i = Some d1) by (unfold t1; cbn; by rewrite list_lookup_insert_eq).
  pose proof H1 as (I1 & _).
  destruct (complete_flush_inv t1 a i d1 result I1 Hd1 Hud) as (Hrun & I2 & Hsame); [cbn; lia|].
  rewrite Hrun. cbn [mbind option_bind]. eexists _, _. split; [reflexivity|].
  eapply stage_ok_weaken with (P := fun q => False \/ (failed result = false /\ q <= gv_flushTarget d1)).
  - intros q [[]|[Hf _]]. apply failed_success in Hf as ->. apply andb_true_iff in Hc as [_ Hc].
    change (failed flagcxSuccess) with false in Hc. apply Z.eqb_eq in Hc. subst request. do 5 eexists. exact Hpost.
  - eapply stage_ok_trans; [exact H1|]. split; [done|]. split; [done|]. split; [by apply complete_flush_shows|].
    exists (flushed_domain result d1). split; [|done]. cbn. by apply list_lookup_insert_eq, (lookup_lt_Some _ _ _ Hd1).
Qed.

(** The flush stages of a domain. *)
Lemma progress_domain_inv t a i d s :
  kp_inv t a -> kp_domains t !! i = Some d -> gv_inUse d = true ->
  exists t1 t2 t3 s3, progress_flush (Some test) (Z.of_nat i) t s = Some (flagcxSuccess, t1, flush_state d s) /\
    progress_prefix (Z.of_nat i) t1 = Some (flagcxSuccess, t2) /\
    progress_new_flush (Some post) (Z.of_nat i) t2 (flush_state d s) = Some (flagcxSuccess, t3, s3) /\
    stage_ok a i (fun q => flush_ended d s /\ q <= gv_flushTarget d \/ flush_immediate (flush_state d s)) t t3.
Proof.
  intros I Hd Hud. destruct (progress_flush_inv t a i d s I Hd Hud) as (t1 & H1 & O1). set (s1 := flush_state d s) in *.
  pose proof O1 as (I1 & _ & _ & d1 & Hd1 & Hu1).
  destruct (progress_prefix_inv t1 a i d1 I1 Hd1 Hu1) as (c & H2 & I2 & Hh2 & _).
  set (d2 := set_gv_sequences _ _ _ _ d1) in H2. set (t2 := set_kp_domains (<[i := d2]> (kp_domains t1)) t1) in *.
  assert (Hd2 : kp_domains t2 !! i = Some d2).
  { unfold t2. cbn. apply list_lookup_insert_eq. by eapply lookup_lt_Some. }
  assert (O2 : stage_ok a i (fun _ => False) t1 t2).
  { split; [done|]. split; [done|]. split; [|by exists d2]. apply shows_same; [done|].
    unfold t2. rewrite (visible_at_insert t1 i d1) by done. unfold visible_at. by rewrite Hd1. }
  destruct (progress_new_flush_inv t2 a i d2 s1 I2 Hd2 Hu1) as (t3 & s3 & H3 & O3).
  exists t1, t2, t3, s3. split; [done|]. split; [done|]. split; [done|].
  eapply stage_ok_weaken; [|eapply stage_ok_trans; [exact O1|eapply stage_ok_trans; [exact O2|exact O3]]].
  cbn. tauto.
Qed.

(** The stage of the data: one request changes. *)
Definition data_ok (a : abs_board) (k : nat) (q q' : flagcxKernelProxyRequest) (t : flagcxKernelProxyTransport) : Prop :=
  let t' := set_kp_requests (<[k := q']> (kp_requests t)) t in
  kp_inv t' a /\ same_holding t t' /\ (forall i, shows (fun _ => False) i t t') /\
  kr_getVisibilityDomain q' = kr_getVisibilityDomain q /\ kr_requiresGetFlush q' = kr_requiresGetFlush q /\
  kr_getSequence q' = kr_getSequence q.

Lemma data_ok_intro t a k q q' :
  kp_inv t a -> kp_requests t !! k = Some q -> kr_state q = POSTED -> kr_getDataComplete q = false ->
  holding q' = holding q -> kr_peer q' = kr_peer q ->
  kr_getVisibilityDomain q' = kr_getVisibilityDomain q -> kr_requiresGetFlush q' = kr_requiresGetFlush q ->
  kr_getSequence q' = kr_getSequence q -> request_shape q' ->
  (kr_completionStage q' = FLAGCX_KERNEL_PROXY_COMPLETION_DATA_POSTED -> kr_request q' <> NULL) ->
  (failed (kr_completionResult q') = false -> failed (kr_completionResult q) = false) ->
  data_ok a k q q' t.
Proof.
  intros I Hk Hst Hdc Hh Hp Hdi Hrq Hseq Hsh Hreq Hg. pose proof Hh as Hh'. injection Hh' as E1 E2 E3.
  assert (Hu : used (kp_requests t) k q) by (split; [done|congruence]). pose proof (lookup_lt_Some _ _ _ Hk) as Hlt.
  split; [|split; [|split; [|done]]].
  - rewrite <- (set_inflight_id (set_kp_requests _ t)). apply (kp_inv_request t a k q q'); try done; try congruence.
    cbn. rewrite Hst, E1, Hst. lia.
  - split; [done|]. split; [|done]. cbn. rewrite list_fmap_insert, Hh. apply list_insert_id.
    by rewrite list_lookup_fmap, Hk.
  - intros i j x x' Hx Hsx Hdx Hx'. cbn in Hx'. destruct (decide (j = k)) as [->|Hne].
    + rewrite list_lookup_insert_eq in Hx' by done. injection Hx' as <-. assert (x = q) as -> by congruence.
      split_and!; try congruence. intros Hg'. split; [by apply Hg|]. unfold visible_at. cbn. lia.
    + rewrite list_lookup_insert_ne in Hx' by done. assert (x' = x) as -> by congruence.
      split_and!; try done. intros Hg'. split; [done|]. unfold visible_at. cbn. lia.
Qed.

Lemma progress_data_inv t a k q s :
  kp_inv t a -> kp_requests t !! k = Some q -> kr_state q = POSTED ->
  kr_completionStage q = FLAGCX_KERNEL_PROXY_COMPLETION_DATA_POSTED ->
  exists o q', progress_data (Some test) q s = (o, q', data_state q s) /\ data_ok a k q q' t /\
    match o with
    | Return r ready => r = flagcxSuccess /\ (ready = true -> kr_getSequence q' = 0)
    | Proceed => kr_requiresGetFlush q = true
    end.
Proof.
  intros I Hk Hst Hstage. assert (Hu : used (kp_requests t) k q) by (split; [done|congruence]).
  destruct (kv_used _ _ I k q Hu) as (_ & _ & Hsh & Hreq). specialize (Hreq Hst Hstage).
  assert (Hdc : kr_getDataComplete q = false).
  { unfold request_shape in Hsh. destruct (kr_requiresGetFlush q); [|tauto]. destruct Hsh as (_ & Hd & _).
    destruct (kr_getDataComplete q); [|done]. rewrite (proj1 Hd eq_refl) in Hstage. done. }
  unfold progress_data, data_state. rewrite (proj2 (Z.eqb_neq (kr_request q) NULL)) by done.
  rewrite (bool_decide_eq_false_2 (kr_completionStage q = _)) by congruence.
  destruct (test s (kr_request q)) as [[result done0] s1] eqn:Ht. cbn [snd].
  set (q1 := if failed result then set_completionResult result q else q).
  assert (Hq1 : exists x, q1 = set_completionResult x q /\ (failed x = false -> failed (kr_completionResult q) = false)).
  { unfold q1. destruct (failed result) eqn:Ef; [exists result; by rewrite Ef|]. exists (kr_completionResult q). by destruct q. }
  clearbody q1. destruct Hq1 as (x & -> & Hx).
  assert (H1 : data_ok a k q (set_completionResult x q) t) by (by apply data_ok_intro).
  destruct (negb (done0 || failed result)) eqn:Hd; cbn [set_completionResult kr_requiresGetFlush kr_completionResult].
  { do 2 eexists. split; [reflexivity|]. split; [done|done]. }
  destruct (kr_requiresGetFlush q) eqn:Hrq; cbn [negb].
  2: { do 2 eexists. split; [reflexivity|]. split; [done|]. split; [done|]. intros _. unfold request_shape in Hsh. cbn. rewrite Hrq in Hsh. tauto. }
  assert (H2 : data_ok a k q (flush_pending (set_completionResult x q)) t).
  { apply data_ok_intro; try done. unfold request_shape in Hsh |- *. cbn. rewrite Hrq in *. naive_solver. }
  change (kr_completionResult (flush_pending _)) with x.
  destruct (failed x) eqn:Ex; cbn [negb].
  - eexists _, _. split; [reflexivity|]. done.
  - eexists _, _. split; [reflexivity|]. split; [exact H2|]. done.
Qed.

(** A request that may leave its slot: no domain counts on it. *)
Definition retirable (t : flagcxKernelProxyTransport) (q : flagcxKernelProxyRequest) : Prop :=
  forall i d, kp_domains t !! i = Some d -> gv_inUse d = true -> kr_getVisibilityDomain q = Z.of_nat i ->
    kr_getSequence q <= gv_visible d.

(** How the progress of the request [r] in the state [s] may show the GETs of
    the domain [i] up to [q]: by the flush in flight of that domain, tested as
    done, or by a flush that was complete when posted. *)
Definition shown_by (t : flagcxKernelProxyTransport) (r : flagcxKernelProxyRequest) (s : S) (i : nat) (q : Z) : Prop :=
  exists d, kp_domains t !! i = Some d /\
    (flush_ended d (data_state r s) /\ q <= gv_flushTarget d \/ flush_immediate (flush_state d (data_state r s))).

Lemma progress_inv t a k q s :
  kp_inv t a -> kp_requests t !! k = Some q -> kr_state q = POSTED ->
  exists ready q' t' s',
    flagcxKernelProxyProgressRequest (Some test) (Some post) (Some t) (Z.of_nat k) true true s =
      Some (flagcxSuccess, Some (ready, kr_completionResult q'), Some t', s') /\
    kp_inv t' a /\ same_holding t t' /\ kp_requests t' !! k = Some q' /\ (ready = true -> retirable t' q') /\
    (forall i, kr_getVisibilityDomain q = Z.of_nat i -> shows (shown_by t q s i) i t t').
Proof.
  intros I Hk Hst. pose proof (lookup_lt_Some _ _ _ Hk) as Hlt. pose proof (kv_len _ _ I) as (Hc & Hlr & Hld).
  unfold flagcxKernelProxyProgressRequest. rewrite (proj2 (Z.leb_gt _ _)) by lia. cbn [negb orb].
  rewrite arr_get_nat, Hk. cbn [mbind option_bind]. rewrite (proj2 (request_is_spec POSTED q) Hst). cbn [negb].
  assert (Hu : used (kp_requests t) k q) by (split; [done|congruence]).
  assert (Hdata : exists o q1,
      (if bool_decide (kr_completionStage q = FLAGCX_KERNEL_PROXY_COMPLETION_FLUSH_PENDING) then (Proceed, q, s)
       else progress_data (Some test) q s) = (o, q1, data_state q s) /\ data_ok a k q q1 t /\
      match o with
      | Return r ready => r = flagcxSuccess /\ (ready = true -> kr_getSequence q1 = 0)
      | Proceed => kr_requiresGetFlush q = true
      end).
  { case_bool_decide as Hstage.
    - exists Proceed, q. unfold data_state. rewrite bool_decide_eq_true_2 by done. split; [done|]. destruct (kv_used _ _ I k q Hu) as (_ & _ & Hsh & _).
      unfold request_shape in Hsh. destruct (kr_requiresGetFlush q) eqn:Hrq; [|naive_solver congruence]. split; [|done].
      unfold data_ok. rewrite list_insert_id, set_requests_id by done.
      split; [done|]. split; [done|]. split; [|done]. intros i. by apply shows_same.
    - apply progress_data_inv; [done|done|done|]. by destruct (kr_completionStage q). }
  destruct Hdata as (o & q1 & -> & Hok & Ho). set (s1 := data_state q s). rewrite arr_set_nat by done. cbn [mbind option_bind].
  set (t1 := set_kp_requests (<[k := q1]> (kp_requests t)) t).
  destruct Hok as (I1 & Hh1 & Hs1 & Edi & Erq & Eseq). fold t1 in I1, Hh1, Hs1.
  assert (Hk1 : kp_requests t1 !! k = Some q1) by (unfold t1; cbn; by rewrite list_lookup_insert_eq).
  destruct o as [r ready|].
  { destruct Ho as [-> Hr]. exists ready, q1, t1, s1. split_and!; try done.
    - intros Hready i d Hd Hud _. rewrite (Hr Hready). destruct (dv_marks _ _ _ (kv_dom _ _ I1 i d Hd Hud)). lia.
    - intros i _. by eapply shows_weaken; [|apply Hs1]. }
  (* the domain *)
  assert (Hu1 : used (kp_requests t1) k q1).
  { split; [done|]. destruct (same_holding_lookup _ _ _ _ Hh1 Hk1) as (q0 & Hq0 & Eh). injection Eh as E _ _. congruence. }
  destruct (kv_used _ _ I1 k q1 Hu1) as (_ & _ & Hsh1 & _). unfold request_shape in Hsh1. rewrite Erq, Ho in Hsh1.
  destruct (kv_get _ _ I1 k q1 Hu1) as (i & d & E1 & Hd & Hud & _); [lia|].
  pose proof (lookup_lt_Some _ _ _ Hd) as Hilt. pose proof (kv_len _ _ I1) as (_ & _ & Hld1).
  rewrite E1, (proj2 (Z.leb_gt (kp_capacity t1) _)) by lia.
  destruct (progress_domain_inv t1 a i d s1 I1 Hd Hud) as (t2 & t3 & t4 & s4 & R1 & R2 & R3 & (I4 & Hh4 & Hs4 & d4 & Hd4 & Hu4)).
  rewrite R1. cbn [mbind option_bind]. change (failed flagcxSuccess) with false. cbn match.
  rewrite R2. cbn [mbind option_bind]. change (failed flagcxSuccess) with false. cbn match.
  rewrite R3. cbn [mbind option_bind]. change (failed flagcxSuccess) with false. cbn match.
  destruct (lookup_lt_is_Some_2 (kp_requests t4) k) as [q4 Hq4]; [by rewrite (same_holding_length _ _ Hh4), (same_holding_length _ _ Hh1)|].
  rewrite !arr_get_nat, Hq4, Hd4. cbn [mbind option_bind].
  eexists _, q4, t4, s4. split; [reflexivity|]. split; [done|]. split; [by etransitivity|]. split; [done|].
  assert (Hst1 : kr_state q1 = POSTED).
  { destruct (same_holding_lookup _ _ _ _ Hh1 Hk1) as (q0 & Hq0 & Eh). injection Eh as E _ _. congruence. }
  destruct (Hs4 k q1 q4 Hk1 Hst1 E1 Hq4) as (_ & Ed4 & _ & _). split.
  - intros Hready%Z.leb_le i' d' Hd' Hud' E'. assert (i' = i) as -> by lia. congruence.
  - intros i' Hi'. assert (i' = i) as -> by (rewrite Edi in E1; lia).
    eapply shows_weaken; [|eapply shows_trans; [exact (Hs1 i)|exact Hs4|by apply same_holding_length]].
    cbn. intros x [[]|Hx]. by exists d.
Qed.

End Progress.
