(* ===== verification/KernelProxyCalls.v ===== *)
(** The calls of the kernel proxy's transport that give a GET its domain, that
    complete a submission, and those on staging slots, on states where the
    invariant of [KernelProxyInv] holds. *)
From S2P Require Import Prelude Flagcx Arrays NetTransport NetScoreboard KernelProxy KernelProxyInv KernelProxyProgress.

(** ** Completions *)

Lemma submit_matches_refl c : flagcxNetSubmitContextMatches c c = true.
Proof. unfold flagcxNetSubmitContextMatches. by rewrite !Z.eqb_refl. Qed.

Lemma unheld_pending t a c :
  kp_inv t a -> ab_live a !! sc_sequence c = Some (MkLive c NULL None) ->
  is_u64 (sc_sequence c) /\ find_pending a c = Some (MkLive c NULL None).
Proof.
  intros I Hl. destruct (kv_board _ _ I) as (Him & _ & _). pose proof (implements_live_ge _ _ Him _ _ Hl) as Hge.
  pose proof (kv_next _ _ I) as (Hn0 & _). pose proof Him as ((es & _ & T & _) & _ & Hgen & _).
  destruct (tk_live _ _ _ T _ _ Hl) as (_ & Hmax & _ & Hg). cbn in Hg.
  split; [unfold is_u64; lia|]. unfold find_pending. rewrite Hg, Hgen, Z.eqb_refl, (proj2 (Z.leb_le _ _)) by lia.
  cbn [andb]. rewrite Hl. cbn. by rewrite submit_matches_refl.
Qed.

(** The board after a result: nothing on [flagcxInProgress]. *)
Definition completed_board (c : flagcxNetSubmitContext) (result : flagcxResult_t) (a : abs_board) : abs_board :=
  if bool_decide (result = flagcxInProgress) then a else retire_completed c (MkLive c NULL None) result a.

Lemma retire_next_bound c l result a m :
  ab_next a <= m -> sc_sequence c < m -> (forall s x, ab_live a !! s = Some x -> s < m) -> ab_next (retire_completed c l result a) <= m.
Proof.
  intros Hm Hc Hlt. unfold retire_completed. cbn [ab_next].
  set (live := <[_ := _]> (ab_live a)). set (n := prefix_done _ _ live).
  destruct (decide (n = 0%nat)) as [->|Hn]; [lia|].
  destruct (prefix_done_all (Z.to_nat (ab_capacity a)) (ab_next a) live (ab_next a + Z.of_nat n - 1)) as (x & Hx & _); [fold n; lia|].
  unfold live in Hx. apply lookup_insert_Some in Hx as [[E _]|[_ Hx]]; [lia|]. apply Hlt in Hx. lia.
Qed.

Lemma complete_board t a c result :
  kp_inv t a -> unheld t a c ->
  exists sb' adv, flagcxNetTrackCompletion (Some (kp_scoreboard t)) (Some c) result true ∅ =
      Some (flagcxSuccess, Some sb', ∅, Some adv) /\
    kp_inv (set_kp_scoreboard sb' t) (completed_board c result a) /\
    adv = ab_next (completed_board c result a) - ab_next a.
Proof.
  intros I [Hl Hun]. destruct (unheld_pending t a c I Hl) as [Hu Hf]. pose proof (kv_board _ _ I) as (Him & Hcap & Hgen).
  pose proof (kv_next _ _ I) as (Hn1 & Hn2 & Hn3).
  destruct (completion_spec (kp_scoreboard t) a ∅ c _ result Him (lookup_empty NULL) Hu Hf eq_refl) as (sb' & adv & Hrun & Him' & Hadv).
  exists sb', adv. split; [done|]. fold (completed_board c result a) in Him', Hadv. split; [|done].
  change (set_kp_scoreboard sb' t) with (set_kp_nextSequence (kp_nextSequence t) (set_kp_scoreboard sb' t)).
  assert (Hlive : forall s l, ab_live a !! s = Some l -> le_group l = NULL /\ s < kp_nextSequence t) by apply (kv_live _ _ I).
  assert (Hused : forall j r, used (kp_requests t) j r -> ab_live a !! sc_sequence (kr_submit r) = Some (MkLive (kr_submit r) NULL None)).
  { intros j r Hr. by apply (kv_used _ _ I j r). }
  unfold completed_board in *. case_bool_decide as Hr.
  - by apply (kp_inv_board t a).
  - set (a' := retire_completed c _ result a) in *.
    pose proof (retire_next_le c (MkLive c NULL None) result a) as Hle.
    assert (Hb : ab_next a' <= kp_nextSequence t).
    { apply retire_next_bound; [lia|by eapply Hlive|]. intros s x Hx. by eapply Hlive. }
    fold a' in Hle. apply (kp_inv_board t a); try done; try lia.
    + intros s l. unfold a'. rewrite retire_lookup. destruct (_ <=? s); [|done].
      intros [[<- <-]|[_ Hs]]%lookup_insert_Some; [|by apply Hlive]. split; [done|]. by eapply Hlive.
    + intros j r Hr'. apply retire_pending; [|by eapply Hused|done|by eapply Hun].
      by eapply implements_live_ge.
Qed.

(** A posted request that no domain counts on is completed and its slot freed;
    the FIFO's counter advances by the prefix that is retired. *)
Lemma complete_inv t a k q result :
  kp_inv t a -> kp_requests t !! k = Some q -> kr_state q = POSTED -> retirable t q ->
  exists t' adv, flagcxKernelProxyCompleteRequest (Some t) (Z.of_nat k) result true true =
      Some (flagcxSuccess, Some t', Some adv, Some (kr_stagingSlot q)) /\
    kp_inv t' (completed_board (kr_submit q) result a) /\
    adv = ab_next (completed_board (kr_submit q) result a) - ab_next a /\
    kp_requests t' = <[k := flagcxKernelProxyRequestReset]> (kp_requests t) /\
    kp_capacity t' = kp_capacity t /\ kp_nextSequence t' = kp_nextSequence t /\ kp_generation t' = kp_generation t /\
    kp_stagingInUse t' = kp_stagingInUse t /\ kp_stagingSlotCount t' = kp_stagingSlotCount t /\
    kp_stagingCursor t' = kp_stagingCursor t /\ kp_nativeInflight t' = kp_nativeInflight t - 1.
Proof.
  intros I Hk Hst Hret. pose proof (lookup_lt_Some _ _ _ Hk) as Hlt. pose proof (kv_len _ _ I) as (Hc & Hlr & _).
  assert (Hu : used (kp_requests t) k q) by (split; [done|congruence]).
  pose proof (kv_inflight _ _ I) as Hin. change (length (filter _ ?l)) with (posted l) in Hin.
  pose proof (posted_positive _ _ _ Hk Hst). pose proof (posted_le (kp_requests t)).
  set (t1 := set_kp_nativeInflight (kp_nativeInflight t - 1) (set_kp_requests (<[k := flagcxKernelProxyRequestReset]> (kp_requests t)) t)).
  assert (I1 : kp_inv t1 a).
  { apply (free_inv t a k q); [done|done|exact Hret|]. rewrite (bool_decide_eq_true_2 _ Hst). cbn. lia. }
  assert (Hun : unheld t1 a (kr_submit q)).
  { split; [by apply (kv_used _ _ I k q)|]. intros j r [(_ & _ & Hf)|[Hne Hr]]%used_insert; [by destruct Hf| |done].
    intros Hs. apply Hne. by apply (kv_submits _ _ I j k r q). }
  destruct (complete_board t1 a (kr_submit q) result I1 Hun) as (sb' & adv & Hrun & I2 & Hadv).
  unfold flagcxKernelProxyCompleteRequest. rewrite (proj2 (Z.leb_gt _ _)) by lia. cbn [negb orb].
  rewrite arr_get_nat, Hk. cbn [mbind option_bind]. rewrite (proj2 (request_is_spec POSTED q) Hst), (proj2 (Z.eqb_neq (kp_nativeInflight t) 0)) by lia.
  cbn [negb orb]. change (kp_scoreboard t1) with (kp_scoreboard t) in Hrun. rewrite Hrun. cbn [mbind option_bind].
  change (failed flagcxSuccess) with false. cbn match. unfold free_request. cbn [kp_requests set_kp_scoreboard].
  rewrite arr_set_nat by done. cbn [mbind option_bind kp_nativeInflight set_kp_scoreboard]. rewrite Z.mod_small by lia.
  eexists _, adv. split; [reflexivity|]. split; [exact I2|]. split; [done|]. done.
Qed.

Lemma complete_immediate_inv t a c result :
  kp_inv t a -> unheld t a c ->
  exists t' adv, flagcxKernelProxyCompleteImmediate (Some t) (Some c) result true = Some (flagcxSuccess, Some t', Some adv) /\
    kp_inv t' (completed_board c result a) /\ adv = ab_next (completed_board c result a) - ab_next a /\
    exists sb', t' = set_kp_scoreboard sb' t.
Proof.
  intros I Hun. destruct (complete_board t a c result I Hun) as (sb' & adv & Hrun & I' & Hadv).
  unfold flagcxKernelProxyCompleteImmediate. cbn [negb]. rewrite Hrun. cbn [mbind option_bind].
  eexists _, adv. split; [reflexivity|]. split; [done|]. split; [done|]. by exists sb'.
Qed.

(** ** The domain of a GET *)

(** A domain marked as not referenced is that of no request in use. *)
Lemma mark_referenced_spec capacity rs i :
  mark_referenced capacity rs !! i = Some false -> Z.of_nat i < capacity ->
  forall j r, used rs j r -> kr_getVisibilityDomain r <> Z.of_nat i.
Proof.
  unfold mark_referenced. generalize (replicate (Z.to_nat capacity) false) as acc.
  induction rs as [|x rs IH]; intros acc Hi Hc j r [Hj Hs] E; [done|]. cbn [foldl] in Hi.
  destruct j as [|j]; cbn in Hj; [|eapply IH; [exact Hi|done|by split|done]].
  injection Hj as ->.
  assert (Hm : negb (request_is FREE r) && (kr_getVisibilityDomain r <? capacity) = true).
  { rewrite andb_true_iff, Z.ltb_lt, negb_true_iff. split; [|lia]. destruct (request_is FREE r) eqn:Er; [|done].
    by apply request_is_spec in Er. }
  rewrite Hm, E, Nat2Z.id in Hi. revert Hi. clear -Hc.
  assert (Hstay : forall (rs : list flagcxKernelProxyRequest) (acc : list bool), acc !! i <> Some false ->
    foldl (fun referenced r => if negb (request_is FREE r) && (kr_getVisibilityDomain r <? capacity)
      then <[Z.to_nat (kr_getVisibilityDomain r) := true]> referenced else referenced) acc rs !! i <> Some false).
  { clear. induction rs as [|x rs IH]; intros acc Hacc; [done|]. cbn [foldl]. apply IH. destruct (_ && _); [|done].
    intros [[_ [? _]]|[_ ?]]%list_lookup_insert_Some; done. }
  intros Hi. apply (Hstay rs) in Hi; [done|].
  intros [[_ [? _]]|[? _]]%list_lookup_insert_Some; done.
Qed.

(** Requests, domains and marks of a domain about to issue a GET. *)
Definition issues_from (t : flagcxKernelProxyTransport) (i : nat) (d : flagcxNetGetVisibilityDomain) : Prop :=
  gv_inUse d = true /\ dom_inv (kp_requests t) (Z.of_nat i) d /\
  forall j r, used (kp_requests t) j r -> kr_getSequence r <> 0 -> kr_getVisibilityDomain r = Z.of_nat i ->
    kr_getSequence r <= gv_issued d.

Lemma fresh_domain_issues t a i peer orderingKey :
  kp_inv t a ->
  (forall j r, used (kp_requests t) j r -> kr_getSequence r <> 0 -> kr_getVisibilityDomain r <> Z.of_nat i) ->
  issues_from t i (MkGetDomain orderingKey 0 0 0 0 NULL flagcxSuccess peer true).
Proof.
  intros I Hno. split; [done|]. split; [|intros j r Hr Hz E; by destruct (Hno j r Hr Hz)].
  constructor; cbn; try lia; done.
Qed.

Lemma require_kp_inv t a k q i d0 dstMrIdx dstOff size comm :
  kp_inv t a -> kp_requests t !! k = Some q -> kr_state q = RESERVED -> kr_getSequence q = 0 ->
  (i < length (kp_domains t))%nat -> issues_from t i d0 -> gv_issued d0 < U64_MAX - 1 ->
  let s := gv_issued d0 + 1 in
  let d' := set_gv_sequences s (gv_dataCompleted d0) (gv_flushTarget d0) (gv_visible d0) d0 in
  kp_inv (set_kp_requests (<[k := require_flush (Z.of_nat i) dstMrIdx dstOff size comm s q]> (kp_requests t))
    (set_kp_domains (<[i := d']> (kp_domains t)) t)) a.
Proof.
  intros I Hk Hst Hz Hi (Hud & D & Hle) Hmax s d'. set (q' := require_flush _ _ _ _ _ _ q).
  pose proof I as [(Hc & Hlr & Hld) Ii Ib In Iv If Iu Iget Is Igs Id]. pose proof (lookup_lt_Some _ _ _ Hk) as Hlt.
  assert (Hu : used (kp_requests t) k q) by (split; [done|congruence]).
  pose proof D as [(Dm1 & Dm2 & Dm3) Dc Dd Dr Df].
  destruct (Iu k q Hu) as (Hp & Hlive & Hsh & _).
  assert (Hsh0 : kr_getDataComplete q = false /\ kr_completionStage q = FLAGCX_KERNEL_PROXY_COMPLETION_DATA_POSTED).
  { unfold request_shape in Hsh. destruct (kr_requiresGetFlush q); [lia|tauto]. }
  assert (Hin : forall j r, used (<[k := q']> (kp_requests t)) j r -> (j = k /\ r = q') \/ (j <> k /\ used (kp_requests t) j r)).
  { intros j r [(-> & -> & _)|?]%used_insert; auto. }
  assert (Hkeep : forall j r di, used (kp_requests t) j r -> 0 < kr_getSequence r -> kr_getVisibilityDomain r = di ->
    used (<[k := q']> (kp_requests t)) j r).
  { intros j r di Hr H0 _. apply used_insert; [done|]. right. split; [|done]. intros ->.
    assert (r = q) as -> by (destruct Hr; congruence). lia. }
  assert (Hgood : forall di low high, 0 <= low -> good_get (kp_requests t) di low high -> good_get (<[k := q']> (kp_requests t)) di low high).
  { intros di low high Hl (j & r & Hj & Hcv). exists j, r. split; [|done]. rewrite list_lookup_insert_ne; [done|].
    intros <-. assert (r = q) as -> by congruence. apply covered_spec in Hcv as (E & _). congruence. }
  constructor; cbn [kp_capacity kp_requests kp_domains kp_nativeInflight kp_scoreboard kp_nextSequence kp_generation
    set_kp_requests set_kp_domains]; try done.
  - by rewrite !length_insert.
  - pose proof (posted_insert (kp_requests t) k q q' Hk) as Hpi. change (length (filter _ ?l)) with (posted l) in *.
    rewrite Ii. cbn in Hpi. lia.
  - intros j r Hj Hs. destruct (decide (j = k)) as [->|Hne].
    + rewrite list_lookup_insert_eq in Hj by done. injection Hj as <-. cbn in Hs. congruence.
    + rewrite list_lookup_insert_ne in Hj by done. by apply (If j r).
  - intros j r [[-> ->]|[_ Hr]]%Hin; [|by apply (Iu j r)]. split; [done|]. split; [done|]. cbn. split; [|congruence].
    unfold request_shape. cbn. destruct Hsh0 as [-> ->]. split; [lia|done].
  - intros j r [[-> ->]|[_ Hr]]%Hin Hz'.
    + exists i, d'. rewrite list_lookup_insert_eq by done. cbn. done.
    + destruct (Iget j r Hr Hz') as (i' & d1 & E1 & Hd1 & Hu1 & Hle1). exists i'. destruct (decide (i' = i)) as [->|Hne].
      * exists d'. rewrite list_lookup_insert_eq by done. split_and!; try done. cbn. specialize (Hle j r Hr Hz' E1). lia.
      * exists d1. by rewrite list_lookup_insert_ne.
  - intros i1 j x y [[-> ->]|[_ Hx]]%Hin [[-> ->]|[_ Hy]]%Hin Hs; try done; [apply (Is k j q y Hu Hy Hs)|apply (Is i1 k x q Hx Hu Hs)|by apply (Is i1 j x y)].
  - intros i1 j x y [[-> ->]|[Hn1 Hx]]%Hin [[-> ->]|[Hn2 Hy]]%Hin Hs Hdx Hsx; try done.
    + cbn in *. exfalso. specialize (Hle j y Hy). lia.
    + cbn in *. exfalso. specialize (Hle i1 x Hx). lia.
    + by apply (Igs i1 j x y).
  - intros i1 d1 Hd1 Hu1. destruct (decide (i1 = i)) as [->|Hne].
    + rewrite list_lookup_insert_eq in Hd1 by done. injection Hd1 as <-. constructor; cbn; try done.
      * lia.
      * intros s' Hs'. destruct (Z.eq_dec s' s) as [->|].
        -- exists k, q'. rewrite used_insert by done. split; [left; split_and!; try done; cbn; congruence|done].
        -- destruct (Dc s') as (j & r & Hr & E1 & E2); [lia|]. exists j, r. split; [|done]. eapply Hkeep; [done|lia|done].
      * intros j r [[-> ->]|[_ Hr]]%Hin E1 E2; [cbn in E2; lia|by apply (Dd j r)].
      * intros Hv Hf. apply Hgood; [lia|by apply Dr].
    + rewrite list_lookup_insert_ne in Hd1 by done. destruct (Id i1 d1 Hd1 Hu1) as [Em Ec Ed Er Ef]. constructor; try done.
      * intros s' Hs'. destruct (Ec s' Hs') as (j & r & Hr & E1 & E2). exists j, r. split; [|done]. eapply Hkeep; [done|lia|done].
      * intros j r [[-> ->]|[_ Hr]]%Hin E1 E2; [cbn in E1; lia|by apply (Ed j r)].
      * intros Hv Hf. apply Hgood; [lia|by apply Er].
Qed.

Lemma kp_inv_referenced t a x : kp_inv t a -> kp_inv (set_kp_referenced x t) a.
Proof. intros []. by constructor. Qed.

(** The domain that is chosen serves the peer already, or no GET counts on it. *)
Lemma choose_domain_spec t a peer :
  kp_inv t a ->
  exists index x, choose_domain t peer = (index, x) /\ (x = t \/ exists m, x = set_kp_referenced m t) /\
    match index with
    | None => True
    | Some i => exists d, kp_domains t !! i = Some d /\
        (serves peer (kp_orderingKey t) d = false ->
         forall j r, used (kp_requests t) j r -> kr_getSequence r <> 0 -> kr_getVisibilityDomain r <> Z.of_nat i)
    end.
Proof.
  intros I. pose proof (kv_len _ _ I) as (Hc & _ & Hld). unfold choose_domain.
  destruct (first_index _ 0 (kp_domains t)) as [i|] eqn:E1.
  { apply first_index_0 in E1 as (d & Hd & Hs). exists (Some i), t. split; [done|]. split; [by left|].
    exists d. split; [done|]. congruence. }
  clear E1. destruct (first_index _ 0 (kp_domains t)) as [i|] eqn:E2.
  { apply first_index_0 in E2 as (d & Hd & Hs). exists (Some i), t. split; [done|]. split; [by left|].
    exists d. split; [done|]. intros _ j r Hr Hz Hdi.
    destruct (kv_get _ _ I j r Hr Hz) as (i' & d' & Ei & Hd' & Hu' & _). assert (i' = i) as -> by lia.
    assert (d' = d) as -> by congruence. by rewrite Hu' in Hs. }
  clear E2. set (m := mark_referenced _ _). eexists _, _. split; [reflexivity|]. split; [right; by exists m|].
  destruct (first_index _ 0 (kp_domains t)) as [i|] eqn:E3; [|done].
  apply first_index_0 in E3 as (d & Hd & Hs). exists d. split; [done|]. intros _ j r Hr _.
  pose proof (lookup_lt_Some _ _ _ Hd) as Hi. apply andb_true_iff in Hs as [_ Hs].
  eapply (mark_referenced_spec (kp_capacity t) (kp_requests t) i); [|lia|done].
  fold m. destruct (m !! i) as [b|] eqn:Eb; [|exfalso; clear Hs].
  - cbn [default from_option] in Hs. unfold id in Hs. by destruct b.
  - apply lookup_ge_None in Eb. assert (Hlen : length m = Z.to_nat (kp_capacity t)); [|lia].
    unfold m, mark_referenced. transitivity (length (replicate (Z.to_nat (kp_capacity t)) false)); [|apply length_replicate].
    generalize (replicate (Z.to_nat (kp_capacity t)) false) as acc. clear.
    induction (kp_requests t) as [|x rs IH]; intros acc; [done|]. cbn [foldl]. rewrite IH. destruct (_ && _); [by rewrite length_insert|done].
Qed.

Lemma require_inv t a k q dstMrIdx dstOff size comm :
  kp_inv t a -> kp_requests t !! k = Some q -> kr_state q = RESERVED -> kr_getSequence q = 0 ->
  exists r t', flagcxKernelProxyRequireGetFlush (Some t) (Z.of_nat k) dstMrIdx dstOff size comm = Some (r, Some t') /\
    kp_inv t' a /\ same_holding t t' /\
    (failed r = false -> forall q', kp_requests t' !! k = Some q' -> kr_requiresGetFlush q' = true).
Proof.
  intros I Hk Hst Hz. pose proof (lookup_lt_Some _ _ _ Hk) as Hlt. pose proof (kv_len _ _ I) as (Hc & Hlr & Hld).
  assert (Hu : used (kp_requests t) k q) by (split; [done|congruence]).
  destruct (kv_used _ _ I k q Hu) as (Hp & _).
  unfold flagcxKernelProxyRequireGetFlush. case_test; [by eexists _, t|].
  rewrite arr_get_nat, Hk. cbn [mbind option_bind]. rewrite (proj2 (request_is_spec RESERVED q) Hst). cbn [negb].
  destruct (choose_domain_spec t a (kr_peer q) I) as (index & x & -> & Hx & Hi).
  assert (Ix : kp_inv x a /\ same_holding t x /\ kp_requests x = kp_requests t /\ kp_domains x = kp_domains t /\
    kp_orderingKey x = kp_orderingKey t).
  { destruct Hx as [->|[m ->]]; split_and!; try done. by apply kp_inv_referenced. }
  clear Hx. destruct Ix as (Ix & Hsx & Erx & Edx & Eox).
  destruct index as [i|]; [|by eexists _, x]. destruct Hi as (d & Hd & Hno). rewrite Edx, Hd. cbn [mbind option_bind].
  pose proof (lookup_lt_Some _ _ _ Hd) as Hilt.
  set (d0 := if serves (kr_peer q) (kp_orderingKey x) d then d else MkGetDomain (kp_orderingKey x) 0 0 0 0 NULL flagcxSuccess (kr_peer q) true).
  assert (Hinit : (if negb (serves (kr_peer q) (kp_orderingKey x) d) then flagcxNetGetVisibilityDomainInit (Some d) (kr_peer q) (kp_orderingKey x)
      else (flagcxSuccess, Some d)) = (flagcxSuccess, Some d0)).
  { unfold d0. destruct (serves (kr_peer q) (kp_orderingKey x) d); cbn [negb]; [done|]. unfold flagcxNetGetVisibilityDomainInit. by rewrite (proj2 (Z.ltb_ge (kr_peer q) 0) Hp). }
  rewrite Hinit. cbn [mbind option_bind]. change (flagcx_failed flagcxSuccess) with false. cbn match.
  assert (Hiss : issues_from x i d0).
  { unfold d0. destruct (serves (kr_peer q) (kp_orderingKey x) d) eqn:Es.
    - unfold serves in Es. rewrite !andb_true_iff in Es. destruct Es as [[Hud _] _]. split; [done|].
      split; [apply (kv_dom _ _ Ix i d); [congruence|done]|]. intros j r Hr Hz' E.
      destruct (kv_get _ _ Ix j r Hr Hz') as (i' & d' & Ei & Hd' & _ & Hle). assert (i' = i) as -> by lia.
      assert (d' = d) as -> by congruence. done.
    - eapply fresh_domain_issues; [done|]. rewrite Erx. apply Hno. congruence. }
  pose proof Hiss as (Hud0 & D0 & _).
  assert (Hfull : d0 = d \/ gv_issued d0 = 0) by (unfold d0; destruct (serves (kr_peer q) (kp_orderingKey x) d); auto).
  unfold flagcxNetGetVisibilityIssue. rewrite Hud0. cbn [negb orb].
  destruct (Z.leb_spec (U64_MAX - 1) (gv_issued d0)) as [Hge|Hlt0].
  - cbn [mbind option_bind]. change (flagcx_failed flagcxInvalidArgument) with true. cbn match.
    destruct Hfull as [->|]; [|lia]. eexists _, _. split; [reflexivity|].
    cbn [kp_domains set_kp_domains]. rewrite list_insert_insert_eq.
    rewrite <- Edx, (list_insert_id (kp_domains x) i d) by congruence.
    change (set_kp_domains ?u (set_kp_domains _ x)) with (set_kp_domains u x). rewrite set_domains_id. done.
  - destruct (dv_marks _ _ _ D0) as (Hm1 & Hm2 & _). rewrite (Z.mod_small (gv_issued d0 + 1)) by lia.
    cbn [mbind option_bind]. change (flagcx_failed flagcxSuccess) with false. cbn match.
    cbn [kp_requests kp_domains set_kp_domains]. rewrite arr_set_nat by (by rewrite Erx). cbn [mbind option_bind].
    eexists _, _. split; [reflexivity|]. rewrite list_insert_insert_eq, <- Edx.
    change (set_kp_domains ?u (set_kp_domains _ x)) with (set_kp_domains u x). split.
    + apply require_kp_inv; congruence.
    + split.
      * etransitivity; [exact Hsx|]. split; [done|]. split; [|done]. cbn. rewrite list_fmap_insert.
        apply list_insert_id. by rewrite list_lookup_fmap, Erx, Hk.
      * intros _ q'. cbn. rewrite list_lookup_insert_eq by (by rewrite Erx). by intros [= <-].
Qed.
