(* ===== verification/KernelProxyPoll.v ===== *)
(** Polling the kernel proxy: no call of a round fails, so that a round never
    aborts a request and publishes no error of its own; what a completed round
    leaves of the scoreboard, the staging slots and the counters of the FIFO. *)
From S2P Require Import Prelude Flagcx Arrays NetTransport NetScoreboard KernelProxy KernelProxyInv KernelProxyProgress KernelProxyCalls.

(** ** Staging slots *)

(** A request in use owns its staging slot. *)
Record staging_inv (t : flagcxKernelProxyTransport) : Prop := {
  st_count : 0 <= kp_stagingSlotCount t <= 2 ^ 31 /\ 0 <= kp_stagingCursor t < Z.max 1 (kp_stagingSlotCount t);
  st_len : forall u, kp_stagingInUse t = Some u -> Z.of_nat (length u) = kp_stagingSlotCount t;
  st_used : forall j r, used (kp_requests t) j r -> 0 <= kr_stagingSlot r ->
    exists u, kp_stagingInUse t = Some u /\ u !! Z.to_nat (kr_stagingSlot r) = Some true /\
      kr_stagingSlot r < kp_stagingSlotCount t;
  st_owner : forall i j q r, used (kp_requests t) i q -> used (kp_requests t) j r -> 0 <= kr_stagingSlot q ->
    kr_stagingSlot q = kr_stagingSlot r -> i = j
}.

(** A slot that is taken, by no request. *)
Definition held_staging (t : flagcxKernelProxyTransport) (slot : Z) : Prop :=
  0 <= slot < kp_stagingSlotCount t /\ (exists u, kp_stagingInUse t = Some u /\ u !! Z.to_nat slot = Some true) /\
  forall j r, used (kp_requests t) j r -> kr_stagingSlot r <> slot.

(** Slots that are not handed out keep their owners. *)
Lemma staging_back t t' :
  kp_stagingInUse t' = kp_stagingInUse t -> kp_stagingSlotCount t' = kp_stagingSlotCount t ->
  kp_stagingCursor t' = kp_stagingCursor t ->
  (forall j r, used (kp_requests t') j r -> exists r0, used (kp_requests t) j r0 /\ kr_stagingSlot r = kr_stagingSlot r0) ->
  staging_inv t -> staging_inv t'.
Proof.
  intros E1 E2 E3 Hback [[Hc1 Hc2] Hl Hu Ho]. constructor; rewrite ?E1, ?E2, ?E3; try done.
  - intros j r (r0 & Hr & ->)%Hback. by apply (Hu j).
  - intros i j q r (q0 & Hq & ->)%Hback (r0 & Hr & ->)%Hback. by apply Ho.
Qed.

Lemma staging_same_holding t t' : same_holding t t' -> staging_inv t -> staging_inv t'.
Proof.
  intros Hs. pose proof Hs as ((_ & _ & _ & _ & E1 & E2 & E3) & _). apply staging_back; try done.
  intros j r [Hj Hst]. destruct (same_holding_lookup _ _ _ _ Hs Hj) as (r0 & Hj0 & He). injection He as F1 F2 F3.
  exists r0. split; [split; [done|congruence]|done].
Qed.

(** The slots from the cursor on, around the ring. *)
Lemma find_staging_spec n : forall i cursor count u,
  0 <= cursor < count -> count <= 2 ^ 31 -> 0 <= i -> i + Z.of_nat n <= count -> Z.of_nat (length u) = count ->
  match find_staging n i cursor count u with
  | Some (Some c) => 0 <= c < count /\ u !! Z.to_nat c = Some false
  | Some None => forall k, i <= k < i + Z.of_nat n -> u !! Z.to_nat ((cursor + k) mod count) = Some true
  | None => False
  end.
Proof.
  induction n as [|n IH]; intros i cursor count u Hc Hcount Hi Hn Hl; cbn [find_staging]; [intros k Hk; lia|].
  rewrite (Z.mod_small (cursor + i)) by lia. pose proof (Z.mod_pos_bound (cursor + i) count).
  destruct (slot_range_lookup u ((cursor + i) mod count)) as (b & -> & Hb); [lia|]. cbn [mbind option_bind].
  destruct b; [|split; [lia|done]]. specialize (IH (i + 1) cursor count u Hc Hcount). destruct (find_staging n _ _ _ _) as [[c|]|].
  - apply IH; lia.
  - intros k Hk. destruct (Z.eq_dec k i) as [->|]; [done|]. apply IH; lia.
  - apply IH; lia.
Qed.

Lemma acquire_inv t a :
  kp_inv t a -> staging_inv t ->
  exists r t' slot, flagcxKernelProxyAcquireStagingSlot (Some t) true = Some (r, Some t', slot) /\
    kp_inv t' a /\ staging_inv t' /\ kp_requests t' = kp_requests t /\ same_board (set_kp_staging [] 0 t) (set_kp_staging [] 0 t') /\
    kp_nativeInflight t' = kp_nativeInflight t /\
    (forall c, held_staging t c -> held_staging t' c) /\
    match r with
    | flagcxSuccess => exists c, slot = Some c /\ held_staging t' c
    | flagcxInProgress => slot = None /\ t' = t /\ forall c, 0 <= c < kp_stagingSlotCount t ->
        exists u, kp_stagingInUse t = Some u /\ u !! Z.to_nat c = Some true
    | _ => slot = None /\ t' = t
    end.
Proof.
  intros I T. pose proof T as [[Hc1 Hc2] Hl Hu Ho]. unfold flagcxKernelProxyAcquireStagingSlot.
  destruct (kp_stagingInUse t) as [u|] eqn:Eu; [|by exists flagcxInvalidArgument, t, None].
  specialize (Hl u eq_refl). case_test; [by exists flagcxInvalidArgument, t, None|]. cbn [negb] in *.
  pose proof (find_staging_spec (Z.to_nat (kp_stagingSlotCount t)) 0 (kp_stagingCursor t) (kp_stagingSlotCount t) u) as Hf.
  destruct (find_staging _ _ _ _ _) as [[c|]|]; cbn [mbind option_bind]; [| |exfalso; apply Hf; lia].
  2: { eexists _, t, None. split; [reflexivity|]. split; [done|]. split; [done|]. do 4 (split; [done|]). split; [done|]. split; [done|].
    intros c Hcc. exists u. split; [done|].
    pose proof (Z.mod_pos_bound (c - kp_stagingCursor t) (kp_stagingSlotCount t)).
    rewrite <- (Hf ltac:(lia) ltac:(lia) ltac:(lia) ltac:(lia) Hl ((c - kp_stagingCursor t) mod kp_stagingSlotCount t)) by lia.
    do 2 f_equal. rewrite Zplus_mod_idemp_r. replace (kp_stagingCursor t + (c - kp_stagingCursor t)) with c by lia.
    by rewrite Z.mod_small. }
  destruct Hf as [Hcr Hcf]; [lia|lia|lia|lia|done|]. rewrite arr_set_slot by lia. cbn [mbind option_bind].
  rewrite (Z.mod_small (c + 1)) by lia.
  set (u' := <[Z.to_nat c := true]> u). set (t' := set_kp_staging u' _ t).
  assert (Hlt : (Z.to_nat c < length u)%nat) by lia.
  assert (Hnc : forall j r, used (kp_requests t) j r -> kr_stagingSlot r <> c).
  { intros j r Hr E. destruct (Hu j r Hr) as (u0 & Hu0 & Ht & _); [lia|]. rewrite E in Ht. congruence. }
  assert (Hkeep : forall k : nat, u !! k = Some true -> u' !! k = Some true).
  { intros k Hk. unfold u'. destruct (decide (k = Z.to_nat c)) as [->|]; [congruence|]. by rewrite list_lookup_insert_ne. }
  exists flagcxSuccess, t', (Some c). split; [reflexivity|]. split; [by destruct I; constructor|]. split.
  { constructor; cbn; try done.
    - split; [lia|]. pose proof (Z.mod_pos_bound (c + 1) (kp_stagingSlotCount t)). lia.
    - intros u0 [= <-]. unfold u'. by rewrite length_insert.
    - intros j r Hr Hge. destruct (Hu j r Hr Hge) as (u0 & [= <-] & Ht & Hlt'). exists u'. auto. }
  do 3 (split; [done|]). split.
  { intros c' (Hcc & (u0 & Hu0 & Ht) & Hn'). split; [done|]. split; [|done]. exists u'. split; [done|]. apply Hkeep. congruence. }
  exists c. split; [done|]. split; [done|]. split; [|done]. exists u'. split; [done|]. unfold u'. by apply list_lookup_insert_eq.
Qed.

(** Releasing a slot that is taken by no request. *)
Lemma release_inv t a slot :
  kp_inv t a -> staging_inv t -> held_staging t slot ->
  exists u', let t' := set_kp_staging u' (kp_stagingCursor t) t in
    flagcxKernelProxyReleaseStagingSlot (Some t) slot = Some (flagcxSuccess, Some t') /\
    kp_inv t' a /\ staging_inv t' /\ (forall c, c <> slot -> held_staging t c -> held_staging t' c).
Proof.
  intros I [[Hc1 Hc2] Hl Hu Ho] (Hs & (u & Eu & Ht) & Hn). exists (<[Z.to_nat slot := false]> u). intros t'.
  specialize (Hl u Eu). unfold flagcxKernelProxyReleaseStagingSlot.
  rewrite (proj2 (Z.ltb_ge slot 0)), (proj2 (Z.leb_gt _ _)), Eu by lia. cbn [orb].
  destruct (slot_range_lookup u slot) as (b & -> & Hb); [lia|]. assert (b = true) as -> by congruence.
  cbn [mbind option_bind negb]. rewrite arr_set_slot by lia. cbn [mbind option_bind].
  split; [done|]. split; [by destruct I; constructor|].
  assert (Hkeep : forall k : Z, 0 <= k -> k <> slot -> u !! Z.to_nat k = Some true -> <[Z.to_nat slot := false]> u !! Z.to_nat k = Some true).
  { intros k H0 Hk Hkt. rewrite list_lookup_insert_ne by lia. done. }
  split.
  - constructor; cbn; try done.
    + intros u0 [= <-]. by rewrite length_insert.
    + intros j r Hr Hge. destruct (Hu j r Hr Hge) as (u0 & E0 & Ht' & Hlt'). eexists. split; [reflexivity|]. split; [|done].
      apply Hkeep; [done| |congruence]. by eapply Hn.
  - intros c Hne (Hcc & (u0 & Hu0 & Ht') & Hn'). split; [done|]. split; [|done]. eexists. split; [reflexivity|].
    apply Hkeep; [lia|done|congruence].
Qed.

(** ** The state of a worker *)

Record ks_inv (k : flagcxKernelProxyState) (a : abs_board) : Prop := {
  ki_transport : kp_inv (ks_transport k) a;
  ki_staging : staging_inv (ks_transport k);
  ki_completed : 1 <= ab_next a /\ ks_completed k = ab_next a - 1;
  ki_error : failed (ab_firstError a) = true -> failed (ks_fifoTerminal k) = true;
  ki_terminal : ks_terminal k <> flagcxInProgress
}.

(** What a round of polling leaves as it was: a request in use was so before,
    and a submission that no request holds keeps waiting. *)
Record later (t : flagcxKernelProxyTransport) (a : abs_board) (t' : flagcxKernelProxyTransport) (a' : abs_board) : Prop := {
  la_next : ab_next a <= ab_next a' /\ kp_nextSequence t' = kp_nextSequence t /\ kp_capacity t' = kp_capacity t /\
    kp_generation t' = kp_generation t /\ kp_stagingSlotCount t' = kp_stagingSlotCount t;
  la_inflight : kp_nativeInflight t' <= kp_nativeInflight t;
  la_used : forall j r', used (kp_requests t') j r' -> exists r, used (kp_requests t) j r /\ kr_submit r' = kr_submit r /\
    kr_state r' = kr_state r;
  la_waits : forall c, unheld t a c -> unheld t' a' c
}.

Lemma later_refl t a : later t a t a.
Proof. constructor; try done. intros j r Hr. by exists r. Qed.

Lemma later_trans t1 a1 t2 a2 t3 a3 : later t1 a1 t2 a2 -> later t2 a2 t3 a3 -> later t1 a1 t3 a3.
Proof.
  intros [(N1 & N2 & N3 & N4 & N5) I1 U1 W1] [(M1 & M2 & M3 & M4 & M5) I2 U2 W2]. constructor; [split_and!; congruence || lia|lia| |auto].
  intros j r3 (r2 & (r1 & Hr1 & E1 & E2)%U1 & E3 & E4)%U2. exists r1. split; [done|]. split; congruence.
Qed.

Lemma later_same_holding t t' a : same_holding t t' -> later t a t' a.
Proof.
  intros Hs. pose proof Hs as ((E1 & E2 & E3 & E4 & E5 & E6 & E7) & _ & E8). constructor; [done|lia| |].
  - intros j r' Hr. by destruct (same_holding_used _ _ _ _ Hs Hr) as (r & ? & ? & ?); exists r.
  - intros c [Hl Hn]. split; [done|]. intros j r Hr. destruct (same_holding_used _ _ _ _ Hs Hr) as (r0 & Hr0 & -> & _). by eapply Hn.
Qed.

Lemma ks_inv_transport k a t' : ks_inv k a -> kp_inv t' a -> same_holding (ks_transport k) t' -> ks_inv (set_transport t' k) a.
Proof. intros [I T C E X] I' Hs. constructor; try done. by eapply staging_same_holding. Qed.

(** Publishing an error keeps the first one. *)
Lemma publish_terminal_spec r k :
  ks_terminal k <> flagcxInProgress ->
  let k' := flagcxKernelProxyPublishTerminal r k in
  ks_transport k' = ks_transport k /\ ks_completed k' = ks_completed k /\ ks_terminal k' <> flagcxInProgress /\
  (failed r = true -> r <> flagcxInProgress -> failed (ks_fifoTerminal k') = true) /\
  (failed (ks_fifoTerminal k) = true -> failed (ks_fifoTerminal k') = true).
Proof.
  intros X. unfold flagcxKernelProxyPublishTerminal. destruct (negb (failed r) || bool_decide (r = flagcxInProgress)) eqn:Hr.
  { split; [done|]. split; [done|]. split; [done|]. split; [|done].
    intros Hf Hne. rewrite Hf in Hr. by apply bool_decide_eq_true in Hr. }
  apply orb_false_iff in Hr as [Hf%negb_false_iff Hp%bool_decide_eq_false].
  set (terminal := if failed (ks_terminal k) then ks_terminal k else r).
  assert (Ht : failed terminal = true /\ terminal <> flagcxInProgress).
  { unfold terminal. by destruct (failed (ks_terminal k)) eqn:Et. }
  destruct Ht as [Ht1 Ht2]. rewrite Ht1, (bool_decide_eq_false_2 _ Ht2). cbn [andb negb].
  split; [done|]. split; [done|]. split; [done|]. split; done.
Qed.

Lemma ks_inv_publish r k a : ks_inv k a -> ks_inv (flagcxKernelProxyPublishTerminal r k) a.
Proof.
  intros [I T C E X]. destruct (publish_terminal_spec r k X) as (Et & Ec & Ex & _ & Ef).
  constructor; rewrite ?Et, ?Ec; try done. auto.
Qed.

(** The result of a completion is published, then the counter advances. *)
Lemma close_completion k a t a' result adv :
  ks_inv k a -> kp_inv t a' -> staging_inv t -> ab_next a <= ab_next a' -> adv = ab_next a' - ab_next a ->
  (failed (ab_firstError a') = true -> failed (ab_firstError a) = true \/ failed result = true /\ result <> flagcxInProgress) ->
  let k' := flagcxKernelProxyAdvanceCompleted adv (flagcxKernelProxyPublishTerminal result (set_transport t k)) in
  ks_inv k' a' /\ ks_transport k' = t.
Proof.
  intros [I T [C0 C] E X] I' T' Hle Hadv Herr. destruct (publish_terminal_spec result (set_transport t k) X) as (Et & Ec & Ex & Er & Ef).
  set (k1 := flagcxKernelProxyPublishTerminal result (set_transport t k)) in *. intros k'.
  pose proof (kv_next _ _ I') as (H1 & H2 & _).
  assert (Hk' : ks_transport k' = t /\ ks_completed k' = ks_completed k + adv /\ ks_fifoTerminal k' = ks_fifoTerminal k1 /\
    ks_terminal k' = ks_terminal k1).
  { unfold k', flagcxKernelProxyAdvanceCompleted. destruct (Z.eqb_spec adv 0) as [->|_].
    - rewrite Ec, Z.add_0_r. done.
    - cbn. rewrite Ec. change (ks_completed (set_transport t k)) with (ks_completed k). rewrite Z.mod_small by lia. done. }
  destruct Hk' as (K1 & K2 & K3 & K4). split; [|done]. constructor; rewrite ?K1, ?K2, ?K3, ?K4; try done; [lia|].
  intros [Ha|[Hf Hn]]%Herr; auto.
Qed.

(** ** A request that is complete *)

Lemma completed_board_next c result a : ab_next a <= ab_next (completed_board c result a).
Proof. unfold completed_board. case_bool_decide; [done|]. apply retire_next_le. Qed.

Lemma completed_board_error c result a : failed (ab_firstError (completed_board c result a)) = true ->
  failed (ab_firstError a) = true \/ failed result = true /\ result <> flagcxInProgress.
Proof.
  unfold completed_board. case_bool_decide as Hr; [by left|]. unfold retire_completed, first_error. cbn [ab_firstError].
  destruct (failed result) eqn:Ef; cbn [andb]; [by right|by left].
Qed.

(** The slot [k] of [t] is freed, its submission completed with [result]. *)
Record completed_slot (t : flagcxKernelProxyTransport) (a : abs_board) (k : nat) (q : flagcxKernelProxyRequest)
    (result : flagcxResult_t) (t' : flagcxKernelProxyTransport) : Prop := {
  cs_inv : kp_inv t' (completed_board (kr_submit q) result a);
  cs_requests : kp_requests t' = <[k := flagcxKernelProxyRequestReset]> (kp_requests t);
  cs_fields : kp_capacity t' = kp_capacity t /\ kp_nextSequence t' = kp_nextSequence t /\ kp_generation t' = kp_generation t;
  cs_staging : kp_stagingInUse t' = kp_stagingInUse t /\ kp_stagingSlotCount t' = kp_stagingSlotCount t /\
    kp_stagingCursor t' = kp_stagingCursor t;
  cs_inflight : kp_nativeInflight t' = kp_nativeInflight t - 1
}.

Section Completed.
Context (t : flagcxKernelProxyTransport) (a : abs_board) (k : nat) (q : flagcxKernelProxyRequest)
  (result : flagcxResult_t) (t' : flagcxKernelProxyTransport).
Hypothesis I : kp_inv t a.
Hypothesis T : staging_inv t.
Hypothesis Hu : used (kp_requests t) k q.
Hypothesis C : completed_slot t a k q result t'.

Lemma completed_used j r : used (kp_requests t') j r -> j <> k /\ used (kp_requests t) j r.
Proof.
  rewrite (cs_requests _ _ _ _ _ _ C). intros [(_ & _ & Hf)|?]%used_insert; [by destruct Hf|done|].
  eapply lookup_lt_Some, Hu.
Qed.

Lemma completed_staging : staging_inv t' /\ (0 <= kr_stagingSlot q -> held_staging t' (kr_stagingSlot q)).
Proof.
  destruct T as [Tc Tl Tu To]. destruct (cs_staging _ _ _ _ _ _ C) as (E1 & E2 & E3). split.
  - apply (staging_back t t'); try done. intros j r [_ Hr]%completed_used. by exists r.
  - intros H0. destruct (Tu k q Hu H0) as (u & Eu & Ht & Hlt). unfold held_staging. rewrite E1, E2. split; [done|]. split; [by exists u|].
    intros j r [Hne Hr]%completed_used Es. apply Hne. symmetry. by apply (To k j q r).
Qed.

Lemma completed_later : later t a t' (completed_board (kr_submit q) result a).
Proof.
  destruct (cs_staging _ _ _ _ _ _ C) as (E1 & E2 & E3), (cs_fields _ _ _ _ _ _ C) as (F1 & F2 & F3).
  constructor.
  - split_and!; try done. apply completed_board_next.
  - rewrite (cs_inflight _ _ _ _ _ _ C). lia.
  - intros j r [_ Hr]%completed_used. by exists r.
  - intros c [Hl Hn]. split; [|intros j r [_ Hr]%completed_used; by eapply Hn].
    unfold completed_board. case_bool_decide; [done|]. apply retire_pending; try done.
    + by eapply implements_live_ge, (kv_board _ _ I).
    + intros Es. by apply (Hn k q).
Qed.

End Completed.

(** ** A round of polling *)

Section Poll.
Context {S : Type}.
Context (test : S -> Z -> flagcxResult_t * bool * S) (post : S -> Z -> Z -> Z -> Z -> flagcxResult_t * Z * S).
Implicit Types (s : S).

Lemma poll_progress_inv i k s a q :
  ks_inv k a -> kp_requests (ks_transport k) !! i = Some q -> kr_state q = POSTED ->
  exists ready q' t' s', poll_progress test post i (k, s) =
      Some (flagcxSuccess, ready, kr_completionResult q', (set_transport t' k, s')) /\
    ks_inv (set_transport t' k) a /\ same_holding (ks_transport k) t' /\
    kp_requests t' !! i = Some q' /\ (ready = true -> retirable t' q').
Proof.
  intros K Hq Hst. destruct (progress_inv test post (ks_transport k) a i q s (ki_transport _ _ K) Hq Hst)
    as (ready & q' & t' & s' & Hrun & I' & Hh & Hq' & Hr & _).
  unfold poll_progress. rewrite Hrun. cbn [mbind option_bind default from_option]. unfold id.
  exists ready, q', t', s'. split; [done|]. split; [by apply ks_inv_transport|]. done.
Qed.

Lemma poll_data_inv i k s a :
  ks_inv k a -> (i < length (kp_requests (ks_transport k)))%nat ->
  exists t' s', poll_data test post i (k, s) = Some (set_transport t' k, s') /\ ks_inv (set_transport t' k) a /\
    same_holding (ks_transport k) t'.
Proof.
  intros K Hi. destruct (lookup_lt_is_Some_2 _ _ Hi) as [q Hq]. unfold poll_data. cbn [fst]. rewrite Hq. cbn [mbind option_bind].
  destruct (negb (request_is POSTED q) || _ || _) eqn:Hc.
  { exists (ks_transport k), s. assert (set_transport (ks_transport k) k = k) as -> by (by destruct k). done. }
  apply orb_false_iff in Hc as [Hc _]. apply orb_false_iff in Hc as [Hc%negb_false_iff%request_is_spec _].
  destruct (poll_progress_inv i k s a q K Hq Hc) as (ready & q' & t' & s' & Hrun & K' & Hh & _).
  rewrite Hrun. cbn [mbind option_bind]. change (failed flagcxSuccess) with false. cbn match. by exists t', s'.
Qed.

(** What one entry of the second loop does. *)
Lemma poll_request_inv i k s a :
  ks_inv k a -> (i < length (kp_requests (ks_transport k)))%nat ->
  exists k' s' a', poll_request test post i (k, s) = Some (k', s') /\ ks_inv k' a' /\
    later (ks_transport k) a (ks_transport k') a'.
Proof.
  intros K Hi. destruct (lookup_lt_is_Some_2 _ _ Hi) as [q Hq]. unfold poll_request. cbn [fst]. rewrite Hq. cbn [mbind option_bind].
  destruct (request_is POSTED q) eqn:Hst; cbn [negb]; [|exists k, s, a; split; [done|]; split; [done|]; apply later_refl].
  apply request_is_spec in Hst. destruct (poll_progress_inv i k s a q K Hq Hst) as (ready & q1 & t1 & s1 & Hrun & K1 & Hh1 & Hq1 & Hr1).
  rewrite Hrun. cbn [mbind option_bind]. change (failed flagcxSuccess) with false. cbn match.
  pose proof (later_same_holding _ _ a Hh1) as L1.
  destruct ready; cbn [negb]; [|by exists (set_transport t1 k), s1, a].
  assert (Hst1 : kr_state q1 = POSTED).
  { destruct (same_holding_lookup _ _ _ _ Hh1 Hq1) as (q0 & Hq0 & Eh). injection Eh as E _ _. congruence. }
  assert (Hu1 : used (kp_requests t1) i q1) by (split; [done|congruence]).
  set (res := kr_completionResult q1). pose proof K1 as [I1 T1 C1 E1 X1]. cbn [ks_transport set_transport] in *.
  destruct (complete_inv t1 a i q1 res I1 Hq1 Hst1 (Hr1 eq_refl)) as (t2 & adv & Hrun2 & I2 & Hadv & Ereq & F1 & F2 & F3 & G1 & G2 & G3 & Einf).
  assert (D : completed_slot t1 a i q1 res t2) by (constructor; done).
  rewrite Hrun2. cbn [mbind option_bind default from_option]. unfold id. change (failed flagcxSuccess) with false. cbn match.
  destruct (completed_staging t1 a i q1 res t2 T1 Hu1 D) as [T2 Hheld].
  pose proof (completed_later t1 a i q1 res t2 I1 Hu1 D) as L2. pose proof (completed_board_error (kr_submit q1) res a) as Herr.
  set (a' := completed_board (kr_submit q1) res a) in *.
  (* the staging slot *)
  assert (Hrel : exists t3, (if 0 <=? kr_stagingSlot q1 then flagcxKernelProxyReleaseStagingSlot (Some t2) (kr_stagingSlot q1)
      else Some (flagcxSuccess, Some t2)) = Some (flagcxSuccess, Some t3) /\ kp_inv t3 a' /\ staging_inv t3 /\ later t2 a' t3 a').
  { destruct (Z.leb_spec 0 (kr_stagingSlot q1)) as [H0|]; [|exists t2; split; [done|]; split; [done|]; split; [done|apply later_refl]].
    destruct (release_inv t2 a' (kr_stagingSlot q1) I2 T2 (Hheld H0)) as (u & Hr & I3 & T3 & _).
    eexists. split; [exact Hr|]. split; [done|]. split; [done|]. constructor; try done. intros j r' Hr'. by exists r'. }
  destruct Hrel as (t3 & -> & I3 & T3 & L3). cbn [mbind option_bind].
  destruct (close_completion k a t3 a' res adv K I3 T3) as [K3 Et3]; [|done|done|].
  { by destruct L2 as [[? _] _ _ _]. }
  eexists _, s1, a'. split; [reflexivity|]. split; [exact K3|].
  change (ks_transport _) with (ks_transport (flagcxKernelProxyAdvanceCompleted adv (flagcxKernelProxyPublishTerminal res (set_transport t3 k)))) at 2.
  rewrite Et3. eapply later_trans; [exact L1|]. by eapply later_trans.
Qed.

(** The loops visit slots of the transport. *)
Lemma poll_each_data is_ : forall k s a,
  ks_inv k a -> Forall (fun i => (i < length (kp_requests (ks_transport k)))%nat) is_ ->
  exists k' s', poll_each (poll_data test post) is_ (k, s) = Some (k', s') /\ ks_inv k' a /\
    later (ks_transport k) a (ks_transport k') a.
Proof.
  induction is_ as [|i is_ IH]; intros k s a K Hall; cbn [poll_each].
  { exists k, s. split; [done|]. split; [done|apply later_refl]. }
  apply Forall_cons in Hall as [Hi Hall]. destruct (poll_data_inv i k s a K Hi) as (t1 & s1 & -> & K1 & Hh). cbn [mbind option_bind].
  destruct (IH (set_transport t1 k) s1 a K1) as (k' & s' & -> & K' & L).
  { cbn. by rewrite (same_holding_length _ _ Hh). }
  exists k', s'. split; [done|]. split; [done|]. eapply later_trans; [by apply later_same_holding|done].
Qed.

Lemma ks_inv_length k a : ks_inv k a -> Z.of_nat (length (kp_requests (ks_transport k))) = kp_capacity (ks_transport k).
Proof. intros [I _ _ _ _]. by destruct (kv_len _ _ I) as (_ & ? & _). Qed.

Lemma poll_each_request is_ : forall k s a,
  ks_inv k a -> Forall (fun i => (i < length (kp_requests (ks_transport k)))%nat) is_ ->
  exists k' s' a', poll_each (poll_request test post) is_ (k, s) = Some (k', s') /\ ks_inv k' a' /\
    later (ks_transport k) a (ks_transport k') a'.
Proof.
  induction is_ as [|i is_ IH]; intros k s a K Hall; cbn [poll_each].
  { exists k, s, a. split; [done|]. split; [done|apply later_refl]. }
  apply Forall_cons in Hall as [Hi Hall]. destruct (poll_request_inv i k s a K Hi) as (k1 & s1 & a1 & -> & K1 & L1). cbn [mbind option_bind].
  destruct (IH k1 s1 a1 K1) as (k' & s' & a' & -> & K' & L).
  { enough (length (kp_requests (ks_transport k1)) = length (kp_requests (ks_transport k))) as -> by done.
    apply Nat2Z.inj. rewrite (ks_inv_length k1 a1 K1), (ks_inv_length k a K). by destruct (la_next _ _ _ _ L1) as (_ & _ & ? & _). }
  exists k', s', a'. split; [done|]. split; [done|]. by eapply later_trans.
Qed.

Lemma poll_inv k s a :
  ks_inv k a -> exists k' s' a', flagcxKernelProxyPoll test post k s = Some (k', s') /\ ks_inv k' a' /\
    later (ks_transport k) a (ks_transport k') a'.
Proof.
  intros K. unfold flagcxKernelProxyPoll. destruct (kp_nativeInflight (ks_transport k) =? 0).
  { exists k, s, a. split; [done|]. split; [done|apply later_refl]. }
  assert (Hall : forall k1 a1, ks_inv k1 a1 -> kp_capacity (ks_transport k1) = kp_capacity (ks_transport k) ->
    Forall (fun i => (i < length (kp_requests (ks_transport k1)))%nat) (seq 0 (Z.to_nat (kp_capacity (ks_transport k))))).
  { intros k1 a1 K1 Hc. apply Forall_seq. intros i Hi. pose proof (ks_inv_length k1 a1 K1). lia. }
  destruct (poll_each_data _ k s a K (Hall k a K eq_refl)) as (k1 & s1 & -> & K1 & L1). cbn [mbind option_bind].
  destruct (poll_each_request _ k1 s1 a K1 (Hall k1 a K1 (proj1 (proj2 (proj2 (la_next _ _ _ _ L1)))))) as (k' & s' & a' & -> & K' & L').
  exists k', s', a'. split; [done|]. split; [done|]. by eapply later_trans.
Qed.

End Poll.
