(* ===== verification/KernelTrigger.v ===== *)
(** The descriptors that device code puts on the FIFO of the kernel proxy
    ([struct flagcxDeviceTrigger] of [flagcx/include/flagcx_kernel_core.h]): how
    the device packs an operation into three words
    ([adaptor/include/device_api/default_comm_traits.h]) and how the host reads
    its fields ([core/flagcx_kernel_host.cc]). *)
From S2P Require Import Prelude Flagcx.

(** ** Data *)

(** [enum flagcxDevicePrim] *)
Definition flagcxDevicePrimSend := 0.
Definition flagcxDevicePrimRecv := 1.
Definition flagcxDevicePrimTerm := 2.
Definition flagcxDevicePrimWait := 3.
Definition flagcxDevicePrimPut := 4.
Definition flagcxDevicePrimSignal := 5.
Definition flagcxDevicePrimBarrierSignal := 6.
Definition flagcxDevicePrimWaitSignal := 7.
Definition flagcxDevicePrimPutValue := 8.
Definition flagcxDevicePrimPutSignal := 9.
Definition flagcxDevicePrimGet := 10.
Definition flagcxDevicePrimSignalValue := 11.

Record flagcxDeviceTrigger := MkTrigger { tr_fst : Z; tr_snd : Z; tr_trd : Z }.

#[export] Instance flagcxDeviceTrigger_eq_dec : EqDecision flagcxDeviceTrigger.
Proof. solve_decision. Defined.

Definition trigger_zero : flagcxDeviceTrigger := MkTrigger 0 0 0.

(** [flagcxTriggerMask(w)] and a field of [w] bits at [off] of a word. *)
Definition flagcxTriggerMask (w : Z) : Z := if w =? 64 then U64_MAX else 2 ^ w - 1.
Definition field (off w word : Z) : Z := Z.land (Z.shiftr word off) (flagcxTriggerMask w).

(** [(uint64_t)x << off] *)
Definition at_bit (off x : Z) : Z := Z.shiftl (x mod U64_MOD) off mod U64_MOD.

Definition flagcxDeviceTriggerValidMask : Z := Z.shiftl 1 63.

(** ** The host's accessors *)

Section Accessors.
Implicit Types t : flagcxDeviceTrigger.

Definition getPrim t : Z := field 59 4 (tr_trd t).
Definition getPeerRank t : Z := field 39 20 (tr_trd t).
Definition getSlotIdx t : Z := field 36 3 (tr_trd t).
Definition getAddr t : Z := tr_fst t.
Definition getDatatype t : Z := field 32 4 (tr_trd t).
Definition getCount t : Z := field 0 32 (tr_trd t).
Definition getSrcMrIdx t : Z := field 29 7 (tr_trd t).
Definition getDstMrIdx t : Z := field 22 7 (tr_trd t).
Definition getSize t : Z := field 32 32 (tr_snd t).
Definition getSrcOffset t : Z := field 32 32 (tr_fst t).
Definition getDstOffset t : Z := field 0 32 (tr_fst t).
Definition getValue t : Z := tr_snd t.

Definition getSignalIdx t : Z :=
  if getPrim t =? flagcxDevicePrimPutSignal then field 10 12 (tr_trd t) else field 22 12 (tr_trd t).

Definition getSignalValue t : Z :=
  if getPrim t =? flagcxDevicePrimPutSignal then field 0 16 (tr_snd t)
  else if getPrim t =? flagcxDevicePrimSignalValue then tr_snd t
  else field 6 16 (tr_trd t).

Definition getExpectedValue t : Z := field 6 16 (tr_trd t).
Definition getBufferType t : Z := field 34 2 (tr_trd t).
Definition getTotalCoops t : Z := tr_fst t.

End Accessors.

(** ** The device's encoders *)

Definition buildTrd (prim peerRank primSpecific : Z) : Z :=
  Z.lor (Z.lor (at_bit 59 (Z.land (prim mod U64_MOD) (flagcxTriggerMask 4)))
               (at_bit 39 (Z.land (peerRank mod U64_MOD) (flagcxTriggerMask 20)))) primSpecific.

(** The arguments of [fifoEnqueue]. *)
Definition enqueueFifoSend (addr count datatype peer : Z) : flagcxDeviceTrigger :=
  MkTrigger addr 0 (buildTrd flagcxDevicePrimSend peer (Z.lor (at_bit 32 datatype) (at_bit 0 count))).

Definition enqueueFifoRecv (addr count datatype peer : Z) : flagcxDeviceTrigger :=
  MkTrigger addr 0 (buildTrd flagcxDevicePrimRecv peer (Z.lor (at_bit 32 datatype) (at_bit 0 count))).

Definition enqueueFifoTerm (totalCoops : Z) : flagcxDeviceTrigger :=
  MkTrigger (totalCoops mod U64_MOD) 0 (buildTrd flagcxDevicePrimTerm 0 0).

Definition enqueueFifoPut (srcOffset dstOffset size peer srcMrIdx dstMrIdx : Z) : flagcxDeviceTrigger :=
  MkTrigger (Z.lor (at_bit 32 srcOffset) (at_bit 0 dstOffset)) (at_bit 32 size)
    (buildTrd flagcxDevicePrimPut peer (Z.lor (at_bit 29 srcMrIdx) (at_bit 22 dstMrIdx))).

Definition enqueueFifoGet (srcOffset dstOffset size peer srcMrIdx dstMrIdx : Z) : flagcxDeviceTrigger :=
  MkTrigger (Z.lor (at_bit 32 srcOffset) (at_bit 0 dstOffset)) (at_bit 32 size)
    (buildTrd flagcxDevicePrimGet peer (Z.lor (at_bit 29 srcMrIdx) (at_bit 22 dstMrIdx))).

(** [combinedIdx]: the index of a signal or of a counter within the buffers of
    all contexts. *)
Record device_net := MkDeviceNet { dn_contextId : Z; dn_signalCount : Z; dn_counterCount : Z }.

Definition combinedIdx (n : device_net) (signalIdx bufferType : Z) : Z :=
  if bufferType =? 0 then dn_contextId n * dn_signalCount n + signalIdx else dn_contextId n * dn_counterCount n + signalIdx.

Definition enqueueFifoSignalRaw (n : device_net) (signalIdx peer : Z) : flagcxDeviceTrigger :=
  MkTrigger 0 0 (buildTrd flagcxDevicePrimSignal peer
    (Z.lor (at_bit 22 (dn_contextId n * dn_signalCount n + signalIdx)) (at_bit 6 1))).

Definition enqueueFifoSignal (n : device_net) (signalIdx value peer bufferType : Z) : flagcxDeviceTrigger :=
  MkTrigger 0 0 (buildTrd flagcxDevicePrimSignal peer
    (Z.lor (Z.lor (at_bit 34 bufferType) (at_bit 22 (combinedIdx n signalIdx bufferType))) (at_bit 6 (Z.land value 65535)))).

Definition enqueueFifoSignalValue (n : device_net) (signalIdx value peer bufferType : Z) : flagcxDeviceTrigger :=
  MkTrigger 0 value (buildTrd flagcxDevicePrimSignalValue peer
    (Z.lor (at_bit 34 bufferType) (at_bit 22 (combinedIdx n signalIdx bufferType)))).

Definition enqueueFifoPutValue (dstOffset value peer dstMrIdx : Z) : flagcxDeviceTrigger :=
  MkTrigger (Z.land dstOffset (flagcxTriggerMask 32)) value (buildTrd flagcxDevicePrimPutValue peer (at_bit 22 dstMrIdx)).

Definition enqueueFifoPutSignal (n : device_net) (srcOffset dstOffset size signalIdx signalValue peer srcMrIdx dstMrIdx : Z) :
    flagcxDeviceTrigger :=
  MkTrigger (Z.lor (at_bit 32 srcOffset) (at_bit 0 dstOffset))
    (Z.lor (at_bit 32 size) (at_bit 0 (Z.land signalValue 65535)))
    (buildTrd flagcxDevicePrimPutSignal peer
      (Z.lor (Z.lor (at_bit 29 srcMrIdx) (at_bit 22 dstMrIdx)) (at_bit 10 (dn_contextId n * dn_signalCount n + signalIdx)))).

(** [enqueueFifoSignalAction]: the compact encoding where the value fits. *)
Definition enqueueFifoSignalAction (n : device_net) (signalIdx value peer bufferType : Z) : flagcxDeviceTrigger :=
  if value <=? flagcxTriggerMask 16 then enqueueFifoSignal n signalIdx value peer bufferType
  else enqueueFifoSignalValue n signalIdx value peer bufferType.

(** What the slot holds, and what the host takes from it. *)
Definition published (t : flagcxDeviceTrigger) : flagcxDeviceTrigger :=
  MkTrigger (tr_fst t) (tr_snd t) (Z.lor (tr_trd t) flagcxDeviceTriggerValidMask).
Definition taken (t : flagcxDeviceTrigger) : flagcxDeviceTrigger :=
  MkTrigger (tr_fst t) (tr_snd t) (Z.ldiff (tr_trd t) flagcxDeviceTriggerValidMask).

(** A descriptor leaves the valid bit to the FIFO. *)
Definition trigger_ok (t : flagcxDeviceTrigger) : Prop := 0 <= tr_trd t < 2 ^ 63.

(** ** Bits *)

Lemma testbit_small x w k : 0 <= x < 2 ^ w -> w <= k -> Z.testbit x k = false.
Proof.
  intros Hx Hk. destruct (Z.eq_dec x 0) as [->|Hx0]; [by rewrite Z.bits_0|].
  apply Z.bits_above_log2; [lia|]. assert (Z.log2 x < w); [|lia]. apply Z.log2_lt_pow2; lia.
Qed.

Lemma mask_ones w : 0 <= w -> flagcxTriggerMask w = Z.ones w.
Proof. intros Hw. unfold flagcxTriggerMask. destruct (Z.eqb_spec w 64) as [->|]; [done|]. by rewrite Z.ones_equiv. Qed.

Lemma field_bit off w word k : 0 <= off -> 0 <= w -> 0 <= k ->
  Z.testbit (field off w word) k = (k <? w) && Z.testbit word (k + off).
Proof.
  intros Ho Hw Hk. unfold field. rewrite mask_ones, Z.land_spec, Z.shiftr_spec, Z.testbit_ones by done.
  rewrite (proj2 (Z.leb_le 0 k)) by done. cbn [andb]. apply andb_comm.
Qed.

Lemma u64_bit x k : 0 <= k -> Z.testbit (x mod U64_MOD) k = (k <? 64) && Z.testbit x k.
Proof.
  intros Hk. change U64_MOD with (2 ^ 64). destruct (Z.ltb_spec k 64); cbn [andb].
  - by rewrite Z.mod_pow2_bits_low by lia.
  - by rewrite Z.mod_pow2_bits_high by lia.
Qed.

Lemma at_bit_bit off x k : 0 <= off -> 0 <= k ->
  Z.testbit (at_bit off x) k = (k <? 64) && (off <=? k) && Z.testbit x (k - off).
Proof.
  intros Ho Hk. unfold at_bit. rewrite u64_bit, Z.shiftl_spec by done.
  destruct (Z.ltb_spec k 64); cbn [andb]; [|done]. destruct (Z.leb_spec off k); cbn [andb].
  - rewrite u64_bit, (proj2 (Z.ltb_lt (k - off) 64)) by lia. done.
  - by rewrite Z.testbit_neg_r by lia.
Qed.

Lemma mask_bit x w k : 0 <= w -> 0 <= k -> Z.testbit (Z.land x (flagcxTriggerMask w)) k = (k <? w) && Z.testbit x k.
Proof.
  intros Hw Hk. rewrite mask_ones, Z.land_spec, Z.testbit_ones by done.
  rewrite (proj2 (Z.leb_le 0 k)) by done. cbn [andb]. apply andb_comm.
Qed.

Lemma valid_bit k : 0 <= k -> Z.testbit flagcxDeviceTriggerValidMask k = (k =? 63).
Proof. intros Hk. change flagcxDeviceTriggerValidMask with (2 ^ 63). rewrite Z.pow2_bits_eqb by lia. apply Z.eqb_sym. Qed.

(** Bits by bits: the words of a descriptor, then the fields as numbers. *)
Ltac bits :=
  apply Z.bits_inj'; let k := fresh "k" in intros k ?;
  repeat first [rewrite field_bit by lia | rewrite Z.ldiff_spec | rewrite Z.lor_spec | rewrite valid_bit by lia
    | rewrite at_bit_bit by lia | rewrite mask_bit by lia | rewrite u64_bit by lia
    | match goal with
      | |- context [?a <? ?b] => destruct (Z.ltb_spec a b); try lia; cbn [andb orb negb]
      | |- context [?a <=? ?b] => destruct (Z.leb_spec a b); try lia; cbn [andb orb negb]
      | |- context [?a =? ?b] => destruct (Z.eqb_spec a b); try lia; cbn [andb orb negb]
      end].

Lemma taken_published t : trigger_ok t -> taken (published t) = t.
Proof.
  intros Ht. unfold taken, published. destruct t as [f s w]. cbn. f_equal. unfold trigger_ok in Ht. cbn in Ht.
  apply Z.bits_inj'. intros k Hk. rewrite Z.ldiff_spec, Z.lor_spec, valid_bit by done.
  destruct (Z.eqb_spec k 63) as [->|]; cbn [orb negb]; [|by rewrite orb_false_r, andb_true_r].
  rewrite andb_false_r. symmetry. apply (testbit_small w 63); lia.
Qed.

(** The bits of numbers in range that are out of their field. *)
Ltac small_bits :=
  repeat match goal with
    | H : 0 <= ?x < 2 ^ ?w |- context [Z.testbit ?x ?i] => rewrite (testbit_small x w i H) by lia
    end;
  rewrite ?andb_true_r, ?andb_false_r, ?orb_false_r; cbn [andb orb]; try done; try (f_equal; lia).

(** ** Operations *)

Inductive device_op :=
| OpSend (addr count datatype peer : Z)
| OpRecv (addr count datatype peer : Z)
| OpTerm (totalCoops : Z)
| OpPut (srcOffset dstOffset size peer srcMrIdx dstMrIdx : Z)
| OpGet (srcOffset dstOffset size peer srcMrIdx dstMrIdx : Z)
| OpSignal (signalIdx value peer bufferType : Z)
| OpPutValue (dstOffset value peer dstMrIdx : Z)
| OpPutSignal (srcOffset dstOffset size signalIdx signalValue peer srcMrIdx dstMrIdx : Z).

Definition encode (n : device_net) (op : device_op) : flagcxDeviceTrigger :=
  match op with
  | OpSend addr count datatype peer => enqueueFifoSend addr count datatype peer
  | OpRecv addr count datatype peer => enqueueFifoRecv addr count datatype peer
  | OpTerm totalCoops => enqueueFifoTerm totalCoops
  | OpPut so d_o sz p sm dm => enqueueFifoPut so d_o sz p sm dm
  | OpGet so d_o sz p sm dm => enqueueFifoGet so d_o sz p sm dm
  | OpSignal i v p b => enqueueFifoSignalAction n i v p b
  | OpPutValue d_o v p dm => enqueueFifoPutValue d_o v p dm
  | OpPutSignal so d_o sz i v p sm dm => enqueueFifoPutSignal n so d_o sz i v p sm dm
  end.

(** The arguments fit their fields. *)
Definition op_ok (n : device_net) (op : device_op) : Prop :=
  match op with
  | OpSend addr count datatype peer | OpRecv addr count datatype peer =>
    0 <= count < 2 ^ 32 /\ 0 <= datatype < 2 ^ 4 /\ 0 <= peer < 2 ^ 20
  | OpTerm totalCoops => 0 <= totalCoops < 2 ^ 31
  | OpPut so d_o sz p sm dm | OpGet so d_o sz p sm dm =>
    0 <= so < 2 ^ 32 /\ 0 <= d_o < 2 ^ 32 /\ 0 <= sz < 2 ^ 32 /\ 0 <= p < 2 ^ 20 /\ 0 <= sm < 2 ^ 7 /\ 0 <= dm < 2 ^ 7
  | OpSignal i v p b =>
    0 <= combinedIdx n i b < 2 ^ 12 /\ 0 <= v < 2 ^ 64 /\ 0 <= p < 2 ^ 20 /\ 0 <= b < 2 ^ 2
  | OpPutValue d_o v p dm => 0 <= d_o < 2 ^ 32 /\ 0 <= p < 2 ^ 20 /\ 0 <= dm < 2 ^ 7
  | OpPutSignal so d_o sz i v p sm dm =>
    0 <= so < 2 ^ 32 /\ 0 <= d_o < 2 ^ 32 /\ 0 <= sz < 2 ^ 32 /\ 0 <= combinedIdx n i 0 < 2 ^ 12 /\ 0 <= v < 2 ^ 16 /\
    0 <= p < 2 ^ 20 /\ 0 <= sm < 2 ^ 7 /\ 0 <= dm < 2 ^ 7
  end.

(** What the host reads: the primitive it switches on, and the fields that its
    case uses. *)
Definition reads (n : device_net) (op : device_op) (t : flagcxDeviceTrigger) : Prop :=
  match op with
  | OpSend addr count datatype peer =>
    getPrim t = flagcxDevicePrimSend /\ getAddr t = addr /\ getCount t = count /\ getDatatype t = datatype /\ getPeerRank t = peer
  | OpRecv addr count datatype peer =>
    getPrim t = flagcxDevicePrimRecv /\ getAddr t = addr /\ getCount t = count /\ getDatatype t = datatype /\ getPeerRank t = peer
  | OpTerm totalCoops => getPrim t = flagcxDevicePrimTerm /\ getTotalCoops t = totalCoops
  | OpPut so d_o sz p sm dm =>
    getPrim t = flagcxDevicePrimPut /\ getSrcOffset t = so /\ getDstOffset t = d_o /\ getSize t = sz /\ getPeerRank t = p /\
    getSrcMrIdx t = sm /\ getDstMrIdx t = dm
  | OpGet so d_o sz p sm dm =>
    getPrim t = flagcxDevicePrimGet /\ getSrcOffset t = so /\ getDstOffset t = d_o /\ getSize t = sz /\ getPeerRank t = p /\
    getSrcMrIdx t = sm /\ getDstMrIdx t = dm
  | OpSignal i v p b =>
    (getPrim t = flagcxDevicePrimSignal \/ getPrim t = flagcxDevicePrimSignalValue) /\
    getSignalIdx t = combinedIdx n i b /\ getSignalValue t = v /\ getPeerRank t = p /\ getBufferType t = b
  | OpPutValue d_o v p dm =>
    getPrim t = flagcxDevicePrimPutValue /\ getDstOffset t = d_o /\ getValue t = v /\ getPeerRank t = p /\ getDstMrIdx t = dm
  | OpPutSignal so d_o sz i v p sm dm =>
    getPrim t = flagcxDevicePrimPutSignal /\ getSrcOffset t = so /\ getDstOffset t = d_o /\ getSize t = sz /\
    getSignalIdx t = combinedIdx n i 0 /\ getSignalValue t = v /\ getPeerRank t = p /\ getSrcMrIdx t = sm /\ getDstMrIdx t = dm
  end.

(** *** Fields of the control word *)

(** What an encoder puts below the rank stays below it. *)
Definition specific_ok (x : Z) : Prop := 0 <= x < 2 ^ 36.

Lemma buildTrd_prim prim peer x : 0 <= prim < 2 ^ 4 -> 0 <= peer < 2 ^ 20 -> specific_ok x -> field 59 4 (buildTrd prim peer x) = prim.
Proof. intros Hp Hr Hx. unfold specific_ok in Hx. unfold buildTrd. bits; small_bits. Qed.

Lemma buildTrd_peer prim peer x : 0 <= prim < 2 ^ 4 -> 0 <= peer < 2 ^ 20 -> specific_ok x -> field 39 20 (buildTrd prim peer x) = peer.
Proof. intros Hp Hr Hx. unfold specific_ok in Hx. unfold buildTrd. bits; small_bits. Qed.

Lemma buildTrd_specific prim peer x off w :
  specific_ok x -> 0 <= off -> 0 <= w -> off + w <= 36 -> field off w (buildTrd prim peer x) = field off w x.
Proof. intros Hx Ho Hw Hle. unfold specific_ok in Hx. unfold buildTrd. bits; small_bits. Qed.

Lemma buildTrd_ok prim peer x : 0 <= prim < 2 ^ 4 -> specific_ok x -> 0 <= buildTrd prim peer x < 2 ^ 63.
Proof.
  intros Hp Hx. unfold specific_ok in Hx.
  assert (E : buildTrd prim peer x = buildTrd prim peer x mod 2 ^ 63); [|rewrite E; apply Z.mod_pos_bound; lia].
  apply Z.bits_inj'. intros k Hk. destruct (Z.ltb_spec k 63).
  - by rewrite Z.mod_pow2_bits_low by lia.
  - rewrite Z.mod_pow2_bits_high by lia. unfold buildTrd. rewrite !Z.lor_spec, !at_bit_bit, !mask_bit by lia.
    rewrite (testbit_small x 36) by (done || lia). rewrite (proj2 (Z.ltb_ge (k - 59) 4)), (proj2 (Z.ltb_ge (k - 39) 20)) by lia.
    cbn [andb]. by rewrite !andb_false_r.
Qed.

Lemma lor_small x y w : 0 <= w -> 0 <= x < 2 ^ w -> 0 <= y < 2 ^ w -> 0 <= Z.lor x y < 2 ^ w.
Proof.
  intros Hw Hx Hy. assert (E : Z.lor x y = Z.lor x y mod 2 ^ w); [|rewrite E; apply Z.mod_pos_bound; lia].
  apply Z.bits_inj'. intros k Hk. destruct (Z.ltb_spec k w); [by rewrite Z.mod_pow2_bits_low|].
  rewrite Z.mod_pow2_bits_high, Z.lor_spec, (testbit_small x w), (testbit_small y w) by (done || lia). done.
Qed.

Lemma at_bit_small off x w m : 0 <= off -> 0 <= w -> 0 <= x < 2 ^ w -> off + w <= m -> m <= 64 -> 0 <= at_bit off x < 2 ^ m.
Proof.
  intros Ho Hw Hx Hle Hm. assert (E : at_bit off x = at_bit off x mod 2 ^ m); [|rewrite E; apply Z.mod_pos_bound; lia].
  apply Z.bits_inj'. intros k Hk. destruct (Z.ltb_spec k m); [by rewrite Z.mod_pow2_bits_low|].
  rewrite Z.mod_pow2_bits_high, at_bit_bit by lia. rewrite (testbit_small x w) by (done || lia). apply andb_false_r.
Qed.

(** The part of an encoder below the rank: every field is within 36 bits. *)
Ltac specific :=
  unfold specific_ok; repeat (apply lor_small; [lia| |]);
  match goal with
  | H : 0 <= ?x < 2 ^ ?w |- 0 <= at_bit ?o ?x < _ => apply (at_bit_small o x w 36); (done || lia)
  | |- 0 <= at_bit ?o (Z.land ?x 65535) < _ => apply (at_bit_small o (Z.land x 65535) 16 36); [lia|lia| |lia|lia]; change 65535 with (Z.ones 16); rewrite Z.land_ones by lia; by apply Z.mod_pos_bound
  | |- 0 <= 0 < _ => lia
  end.

Ltac read_field :=
  lazymatch goal with
  | |- field 59 4 (buildTrd _ _ _) = _ => rewrite buildTrd_prim; [reflexivity|vm_compute; split; congruence|done|specific]
  | |- field 39 20 (buildTrd _ _ _) = _ => rewrite buildTrd_peer; [reflexivity|vm_compute; split; congruence|done|specific]
  | |- field _ _ (buildTrd _ _ _) = _ => rewrite buildTrd_specific by (specific || lia); by bits; small_bits
  | |- field _ _ _ = _ => by bits; small_bits
  end.

Ltac ranges := repeat match goal with H : (_ <= _ < _) /\ _ |- _ => destruct H end.

(** The compact form of a signal fits 16 bits. *)
Lemma land_16 v : 0 <= v < 2 ^ 16 -> Z.land v 65535 = v.
Proof. intros Hv. change 65535 with (Z.ones 16). rewrite Z.land_ones by lia. by apply Z.mod_small. Qed.

Ltac fold_combined :=
  try match goal with |- context [dn_contextId ?n * dn_signalCount ?n + ?i] =>
    change (dn_contextId n * dn_signalCount n + i) with (combinedIdx n i 0) end.

Lemma encode_ok n op : op_ok n op -> trigger_ok (encode n op).
Proof.
  unfold trigger_ok. destruct op; cbn [op_ok encode]; intros Hok; ranges.
  6: unfold enqueueFifoSignalAction; destruct (_ <=? _).
  all: cbn [tr_trd enqueueFifoSend enqueueFifoRecv enqueueFifoTerm enqueueFifoPut enqueueFifoGet enqueueFifoSignal
    enqueueFifoSignalValue enqueueFifoPutValue enqueueFifoPutSignal]; apply buildTrd_ok; [vm_compute; split; congruence|].
  all: fold_combined; specific.
Qed.

(** *** The words of the encoders *)

Lemma field_at_bit off w x : 0 <= off -> 0 <= x < 2 ^ w -> 0 <= w -> off + w <= 64 -> field off w (at_bit off x) = x.
Proof. intros Ho Hx Hw Hle. bits; small_bits. Qed.

Lemma encode_reads_put n so d_o sz p sm dm (is_get : bool) :
  op_ok n (OpPut so d_o sz p sm dm) ->
  let t := if is_get then enqueueFifoGet so d_o sz p sm dm else enqueueFifoPut so d_o sz p sm dm in
  getPrim t = (if is_get then flagcxDevicePrimGet else flagcxDevicePrimPut) /\ getSrcOffset t = so /\ getDstOffset t = d_o /\
  getSize t = sz /\ getPeerRank t = p /\ getSrcMrIdx t = sm /\ getDstMrIdx t = dm.
Proof.
  intros Hok t. cbn [op_ok] in Hok. ranges.
  unfold getPrim, getSrcOffset, getDstOffset, getSize, getPeerRank, getSrcMrIdx, getDstMrIdx, t.
  destruct is_get; cbn [tr_fst tr_snd tr_trd enqueueFifoGet enqueueFifoPut].
  all: split; [read_field|]; split; [read_field|]; split; [read_field|]; split; [read_field|]; split; [read_field|];
    split; read_field.
Qed.

Lemma encode_reads_signal n i v p b :
  op_ok n (OpSignal i v p b) -> reads n (OpSignal i v p b) (enqueueFifoSignalAction n i v p b).
Proof.
  intros Hok. cbn [op_ok] in Hok. ranges. unfold enqueueFifoSignalAction. change (flagcxTriggerMask 16) with 65535.
  cbn [reads]. unfold getSignalIdx, getSignalValue, getPeerRank, getBufferType. destruct (Z.leb_spec v 65535) as [Hv|Hv].
  - assert (Hv' : 0 <= v < 2 ^ 16) by lia.
    assert (Hprim : getPrim (enqueueFifoSignal n i v p b) = flagcxDevicePrimSignal).
    { unfold getPrim. cbn [tr_trd enqueueFifoSignal]. read_field. }
    rewrite Hprim. change (flagcxDevicePrimSignal =? flagcxDevicePrimPutSignal) with false.
    change (flagcxDevicePrimSignal =? flagcxDevicePrimSignalValue) with false.
    unfold enqueueFifoSignal. rewrite land_16 by done. cbn [tr_trd].
    split; [by left|]. split; [read_field|]. split; [read_field|]. split; read_field.
  - assert (Hprim : getPrim (enqueueFifoSignalValue n i v p b) = flagcxDevicePrimSignalValue).
    { unfold getPrim. cbn [tr_trd enqueueFifoSignalValue]. read_field. }
    rewrite Hprim. change (flagcxDevicePrimSignalValue =? flagcxDevicePrimPutSignal) with false.
    change (flagcxDevicePrimSignalValue =? flagcxDevicePrimSignalValue) with true.
    unfold enqueueFifoSignalValue. cbn [tr_trd tr_snd].
    split; [by right|]. split; [read_field|]. split; [done|]. split; read_field.
Qed.

Lemma encode_reads_put_signal n so d_o sz i v p sm dm :
  op_ok n (OpPutSignal so d_o sz i v p sm dm) ->
  reads n (OpPutSignal so d_o sz i v p sm dm) (enqueueFifoPutSignal n so d_o sz i v p sm dm).
Proof.
  intros Hok. cbn [op_ok] in Hok. ranges. cbn [reads]. unfold enqueueFifoPutSignal. rewrite land_16 by done.
  fold_combined. set (t := MkTrigger _ _ _).
  assert (Hprim : getPrim t = flagcxDevicePrimPutSignal) by (unfold getPrim; cbn [tr_trd t]; read_field).
  unfold getSignalIdx, getSignalValue. rewrite Hprim. change (flagcxDevicePrimPutSignal =? flagcxDevicePrimPutSignal) with true.
  unfold getSrcOffset, getDstOffset, getSize, getPeerRank, getSrcMrIdx, getDstMrIdx, t. cbn [tr_fst tr_snd tr_trd].
  split; [done|]. split; [read_field|]. split; [read_field|]. split; [read_field|]. split; [read_field|].
  split; [read_field|]. split; [read_field|]. split; read_field.
Qed.

(** ** Properties *)

(** C37: a descriptor says what was asked: of every operation whose arguments
    fit their fields, the host reads back the primitive and each argument that
    its case uses, after the FIFO has set and cleared the valid bit. *)
Theorem trigger_roundtrip n op :
  op_ok n op -> trigger_ok (encode n op) /\ reads n op (taken (published (encode n op))).
Proof.
  intros Hok. pose proof (encode_ok n op Hok) as Ht. split; [done|]. rewrite taken_published by done.
  destruct op; cbn [op_ok encode reads] in *.
  - ranges. cbn [enqueueFifoSend]. unfold getPrim, getAddr, getCount, getDatatype, getPeerRank. cbn [tr_fst tr_trd enqueueFifoSend].
    split; [read_field|]. split; [done|]. split; [read_field|]. split; read_field.
  - ranges. unfold getPrim, getAddr, getCount, getDatatype, getPeerRank. cbn [tr_fst tr_trd enqueueFifoRecv].
    split; [read_field|]. split; [done|]. split; [read_field|]. split; read_field.
  - unfold getPrim, getTotalCoops. cbn [tr_fst tr_trd enqueueFifoTerm]. split; [reflexivity|]. apply Z.mod_small. lia.
  - exact (encode_reads_put n _ _ _ _ _ _ false Hok).
  - exact (encode_reads_put n _ _ _ _ _ _ true Hok).
  - exact (encode_reads_signal n _ _ _ _ Hok).
  - ranges. unfold getPrim, getDstOffset, getValue, getPeerRank, getDstMrIdx. cbn [tr_fst tr_snd tr_trd enqueueFifoPutValue].
    split; [read_field|]. split; [read_field|]. split; [done|]. split; read_field.
  - exact (encode_reads_put_signal n _ _ _ _ _ _ _ _ Hok).
Qed.

Lemma trigger_roundtrip_witness :
  op_ok (MkDeviceNet 1 64 8) (OpPutSignal 4096 8192 512 3 70 5 1 2) /\
  trigger_ok (encode (MkDeviceNet 1 64 8) (OpPutSignal 4096 8192 512 3 70 5 1 2)) /\
  reads (MkDeviceNet 1 64 8) (OpPutSignal 4096 8192 512 3 70 5 1 2)
    (taken (published (encode (MkDeviceNet 1 64 8) (OpPutSignal 4096 8192 512 3 70 5 1 2)))).
Proof.
  assert (Hok : op_ok (MkDeviceNet 1 64 8) (OpPutSignal 4096 8192 512 3 70 5 1 2)) by (cbn; lia).
  split; [exact Hok|]. exact (trigger_roundtrip (MkDeviceNet 1 64 8) _ Hok).
Defined.

(** what does not fit is not refused.  The device passes a size and offsets
    of 64 bits; the size is cut to its low 32 bits, and the high half of the
    destination's offset is merged into the offset of the source. *)
Theorem put_size_truncated so d_o sz p sm dm :
  0 <= so < 2 ^ 32 -> 0 <= d_o < 2 ^ 64 -> 0 <= sz < 2 ^ 64 ->
  let t := enqueueFifoPut so d_o sz p sm dm in
  getSize t = sz mod 2 ^ 32 /\ getDstOffset t = d_o mod 2 ^ 32 /\ getSrcOffset t = Z.lor so (d_o / 2 ^ 32).
Proof.
  intros Hs Hd Hz t. unfold getSize, getDstOffset, getSrcOffset, t. cbn [tr_fst tr_snd enqueueFifoPut].
  rewrite <- !Z.land_ones, <- Z.shiftr_div_pow2 by lia. change (Z.ones 32) with (flagcxTriggerMask 32).
  split; [by bits; small_bits|]. split; [by bits; small_bits|].
  apply Z.bits_inj'. intros k Hk. rewrite field_bit, Z.lor_spec, Z.lor_spec, !at_bit_bit, Z.shiftr_spec by lia.
  destruct (Z.ltb_spec k 32); cbn [andb].
  - rewrite (proj2 (Z.ltb_lt (k + 32) 64)), (proj2 (Z.leb_le 32 (k + 32))), (proj2 (Z.leb_le 0 (k + 32))) by lia. cbn [andb].
    by rewrite Z.sub_0_r, Z.add_simpl_r.
  - by rewrite (testbit_small so 32), (testbit_small d_o 64) by (done || lia).
Qed.

Lemma put_size_truncated_witness :
  getSize (enqueueFifoPut 0 (2 ^ 32) (2 ^ 32) 1 0 0) = 0 /\ getSrcOffset (enqueueFifoPut 0 (2 ^ 32) (2 ^ 32) 1 0 0) = 1.
Proof. destruct (put_size_truncated 0 (2 ^ 32) (2 ^ 32) 1 0 0) as (H1 & _ & H2); [lia|lia|lia|]. split; [exact H1|exact H2]. Defined.
