(* ===== verification/KernelFifo.v ===== *)
(** The FIFO between device code and the kernel proxy: the producers' gate
    ([adaptor/include/device_api/fifo_producer_gate.h]), the enqueue and the
    flush of [default_comm_traits.h], [dequeue] of
    [core/flagcx_kernel_host.cc], and the closing of the gate and the end of a
    failed FIFO of [core/kernel_proxy_transport.cc].

    A device thread is a machine that takes one step per access to the words
    that threads share; the threads and the host interleave freely.  Completion
    words are those of 64 bits. *)
From S2P Require Import Prelude Flagcx Arrays NetTransport NetScoreboard KernelTrigger.

(** ** Data *)

(** The words of the buffer but for [completed] and [terminalStatus], which the
    operations take on their own. *)
Record flagcxFifo := MkFifo {
  ff_capacity : Z;
  ff_consumed : Z;
  ff_produced : Z;
  ff_producerState : Z;
  ff_slots : list flagcxDeviceTrigger
}.

Definition set_consumed (x : Z) (f : flagcxFifo) : flagcxFifo :=
  MkFifo (ff_capacity f) x (ff_produced f) (ff_producerState f) (ff_slots f).
Definition set_produced (x : Z) (f : flagcxFifo) : flagcxFifo :=
  MkFifo (ff_capacity f) (ff_consumed f) x (ff_producerState f) (ff_slots f).
Definition set_producerState (x : Z) (f : flagcxFifo) : flagcxFifo :=
  MkFifo (ff_capacity f) (ff_consumed f) (ff_produced f) x (ff_slots f).
Definition set_slots (x : list flagcxDeviceTrigger) (f : flagcxFifo) : flagcxFifo :=
  MkFifo (ff_capacity f) (ff_consumed f) (ff_produced f) (ff_producerState f) x.

(** [flagcxFifoInit] *)
Definition flagcxFifoInit (capacity : Z) : flagcxFifo :=
  MkFifo capacity 0 0 0 (replicate (Z.to_nat capacity) trigger_zero).

(** ** The gate *)

Definition flagcxFifoProducerClosedMask : Z := Z.shiftl 1 63.
Definition flagcxFifoProducerActiveMask : Z := Z.ldiff U64_MAX flagcxFifoProducerClosedMask.

(** The read-modify-write of [flagcxFifoProducerTryEnter]: whether the gate was
    open.  A refused producer drops its reference in a step of its own. *)
Definition flagcxFifoProducerTryEnter (f : flagcxFifo) : bool * flagcxFifo :=
  (Z.land (ff_producerState f) flagcxFifoProducerClosedMask =? 0,
   set_producerState (ff_producerState f +u64 1)%word f).

Definition flagcxFifoProducerLeave (f : flagcxFifo) : flagcxFifo :=
  set_producerState (ff_producerState f -u64 1)%word f.

(** [__atomic_fetch_or], and one round of the loop: whether a producer is
    active. *)
Definition close_gate (f : flagcxFifo) : flagcxFifo :=
  set_producerState (Z.lor (ff_producerState f) flagcxFifoProducerClosedMask) f.
Definition gate_busy (f : flagcxFifo) : bool :=
  negb (Z.land (ff_producerState f) flagcxFifoProducerActiveMask =? 0).

(** The words [consumed] and [completed] after the call. *)
Definition flagcxKernelProxyFinalizeTerminalFifo (f : flagcxFifo) (completed : Z) : flagcxResult_t * flagcxFifo * Z :=
  if (Z.land (ff_producerState f) flagcxFifoProducerClosedMask =? 0) || gate_busy f
  then (flagcxInvalidUsage, f, completed)
  else (flagcxSuccess, set_consumed (ff_produced f) f, ff_produced f).

(** ** Enqueue *)

(** Where a device thread is in [fifoEnqueue] of [t]; [n] is the slot it has
    reserved. *)
Inductive producer :=
| Calling (t : flagcxDeviceTrigger)                  (* before [flagcxFifoProducerTryEnter] *)
| Refused                                            (* refused, before the drop of the reference *)
| AskTerminal                                        (* refused, before the read of the terminal status *)
| Entered (t : flagcxDeviceTrigger)                  (* before the reservation *)
| Waiting (t : flagcxDeviceTrigger) (n : Z)          (* before the read of [consumed] *)
| Full (t : flagcxDeviceTrigger) (n : Z)             (* no room: before the read of the terminal status *)
| Room (t : flagcxDeviceTrigger) (n : Z)             (* room: before the last read of the terminal status *)
| StoreFst (t : flagcxDeviceTrigger) (n : Z)
| StoreSnd (t : flagcxDeviceTrigger) (n : Z)
| StoreTrd (t : flagcxDeviceTrigger) (n : Z)
| Leaving (r : flagcxResult_t)                       (* before [flagcxFifoProducerLeave] *)
| Returned (r : flagcxResult_t).

(** A store to the slot of [n]. *)
Definition store_slot (n : Z) (g : flagcxDeviceTrigger -> flagcxDeviceTrigger) (f : flagcxFifo) : flagcxFifo :=
  set_slots (alter g (Z.to_nat (n mod ff_capacity f)) (ff_slots f)) f.

Definition store_fst (x : Z) (t : flagcxDeviceTrigger) : flagcxDeviceTrigger := MkTrigger x (tr_snd t) (tr_trd t).
Definition store_snd (x : Z) (t : flagcxDeviceTrigger) : flagcxDeviceTrigger := MkTrigger (tr_fst t) x (tr_trd t).
Definition store_trd (x : Z) (t : flagcxDeviceTrigger) : flagcxDeviceTrigger := MkTrigger (tr_fst t) (tr_snd t) x.

(** One access of [fifoEnqueue]. *)
Definition fifoEnqueue_step (terminal : flagcxResult_t) (f : flagcxFifo) (p : producer) : flagcxFifo * producer :=
  match p with
  | Calling t => let '(entered, f) := flagcxFifoProducerTryEnter f in (f, if entered then Entered t else Refused)
  | Refused => (flagcxFifoProducerLeave f, AskTerminal)
  | AskTerminal => (f, Returned (if failed terminal then terminal else flagcxInternalError))
  | Entered t => (set_produced (ff_produced f +u64 1)%word f, Waiting t (ff_produced f))
  | Waiting t n => (f, if ff_capacity f <=? (n -u64 ff_consumed f)%word then Full t n else Room t n)
  | Full t n => (f, if failed terminal then Leaving terminal else Waiting t n)
  | Room t n => (f, if failed terminal then Leaving terminal else StoreFst t n)
  | StoreFst t n => (store_slot n (store_fst (tr_fst t)) f, StoreSnd t n)
  | StoreSnd t n => (store_slot n (store_snd (tr_snd t)) f, StoreTrd t n)
  | StoreTrd t n => (store_slot n (store_trd (Z.lor (tr_trd t) flagcxDeviceTriggerValidMask)) f, Leaving flagcxSuccess)
  | Leaving r => (flagcxFifoProducerLeave f, Returned r)
  | Returned r => (f, p)
  end.

(** ** Dequeue *)

(** The single consumer; [None] where the capacity is zero. *)
Definition dequeue (f : flagcxFifo) : option (flagcxResult_t * flagcxDeviceTrigger * flagcxFifo) :=
  if ff_produced f =? ff_consumed f then Some (flagcxInProgress, trigger_zero, f)
  else if ff_capacity f =? 0 then None
  else
    let idx := ff_consumed f mod ff_capacity f in
    slot ← arr_get (ff_slots f) idx;
    if Z.land (tr_trd slot) flagcxDeviceTriggerValidMask =? 0 then Some (flagcxInProgress, trigger_zero, f)
    else
      slots ← arr_set (ff_slots f) idx (store_trd 0 slot);
      Some (flagcxSuccess, taken slot, set_slots slots f).

(** The end of the processing of an item. *)
Definition consume (f : flagcxFifo) : flagcxFifo := set_consumed (ff_consumed f +u64 1)%word f.

(** ** Flush *)

(** Where a device thread is in [fifoFlush]. *)
Inductive flusher :=
| FlushCall
| FlushSnapshot
| FlushPoll (snapshot : Z)
| FlushCheck (snapshot : Z)
| FlushReturned (r : flagcxResult_t).

(** [CompletionStorage::before] on words of 64 bits. *)
Definition fifoWordBefore (lhs rhs : Z) : bool := lhs <? rhs.

Definition fifoFlush_step (terminal : flagcxResult_t) (produced completed : Z) (p : flusher) : flusher :=
  match p with
  | FlushCall => if failed terminal then FlushReturned terminal else FlushSnapshot
  | FlushSnapshot => FlushPoll produced
  | FlushPoll snapshot => if fifoWordBefore completed snapshot then FlushCheck snapshot else FlushReturned flagcxSuccess
  | FlushCheck snapshot => if failed terminal then FlushReturned terminal else FlushPoll snapshot
  | FlushReturned _ => p
  end.

(** ** The machine of producers and host *)

Inductive host_phase := HostOpen | HostClosing | HostClosed.

(** The producers' threads, the host's phase and whether it holds an item it has
    not consumed; [fs_reserved] and [fs_taken] record the descriptors in the
    order of their reservations and of the dequeues. *)
Record fifo_system := MkFifoSystem {
  fs_fifo : flagcxFifo;
  fs_terminal : flagcxResult_t;
  fs_producers : list producer;
  fs_phase : host_phase;
  fs_holding : bool;
  fs_reserved : list flagcxDeviceTrigger;
  fs_taken : list flagcxDeviceTrigger
}.

(** The record of reservations. *)
Definition reserves (p : producer) : list flagcxDeviceTrigger := match p with Entered t => [t] | _ => [] end.

Inductive fifo_step : fifo_system -> fifo_system -> Prop :=
(* One access of a device thread; fewer than 2^64 descriptors are reserved. *)
| fifo_step_producer f tm ps ph h rs tk i p f' p' :
    ps !! i = Some p -> fifoEnqueue_step tm f p = (f', p') ->
    (reserves p <> [] -> ff_produced f < U64_MAX) ->
    fifo_step (MkFifoSystem f tm ps ph h rs tk) (MkFifoSystem f' tm (<[i := p']> ps) ph h (rs ++ reserves p) tk)
(* A device thread calls [fifoEnqueue] again. *)
| fifo_step_call f tm ps ph h rs tk i r t :
    ps !! i = Some (Returned r) -> trigger_ok t ->
    fifo_step (MkFifoSystem f tm ps ph h rs tk) (MkFifoSystem f tm (<[i := Calling t]> ps) ph h rs tk)
| fifo_step_dequeue f tm ps rs tk t f' :
    dequeue f = Some (flagcxSuccess, t, f') ->
    fifo_step (MkFifoSystem f tm ps HostOpen false rs tk) (MkFifoSystem f' tm ps HostOpen true rs (tk ++ [t]))
| fifo_step_consume f tm ps rs tk :
    fifo_step (MkFifoSystem f tm ps HostOpen true rs tk) (MkFifoSystem (consume f) tm ps HostOpen false rs tk)
| fifo_step_fail f ps ph h rs tk r :
    failed r = true -> fifo_step (MkFifoSystem f flagcxSuccess ps ph h rs tk) (MkFifoSystem f r ps ph h rs tk)
(* The worker's end: the terminal status is set before the gate closes. *)
| fifo_step_close f tm ps h rs tk :
    failed tm = true ->
    fifo_step (MkFifoSystem f tm ps HostOpen h rs tk) (MkFifoSystem (close_gate f) tm ps HostClosing h rs tk)
| fifo_step_closed f tm ps h rs tk :
    gate_busy f = false ->
    fifo_step (MkFifoSystem f tm ps HostClosing h rs tk) (MkFifoSystem f tm ps HostClosed h rs tk).

Definition fifo_initial (capacity : Z) (s : fifo_system) : Prop :=
  exists ps, s = MkFifoSystem (flagcxFifoInit capacity) flagcxSuccess ps HostOpen false [] [] /\
    0 < capacity < U64_MOD /\ Z.of_nat (length ps) < 2 ^ 63 /\ Forall (fun p => exists r, p = Returned r) ps.

(** ** Producers *)

(** A producer that the gate counts; one that has passed it; the descriptor and
    the slot of one that has a reservation; one that may store. *)
Definition inside (p : producer) : bool :=
  match p with Calling _ | AskTerminal | Returned _ => false | _ => true end.
Definition admitted (p : producer) : bool :=
  match p with Calling _ | Refused | AskTerminal | Returned _ => false | _ => true end.
Definition reservation (p : producer) : option (flagcxDeviceTrigger * Z) :=
  match p with
  | Waiting t n | Full t n | Room t n | StoreFst t n | StoreSnd t n | StoreTrd t n => Some (t, n)
  | _ => None
  end.
Definition has_room (p : producer) : bool :=
  match p with Room _ _ | StoreFst _ _ | StoreSnd _ _ | StoreTrd _ _ => true | _ => false end.

Definition count_inside (ps : list producer) : nat := length (filter (fun p => inside p = true) ps).

#[local] Arguments count_inside _ : simpl never.

(** A slot whose valid bit is set. *)
Definition is_valid (t : flagcxDeviceTrigger) : bool := negb (Z.land (tr_trd t) flagcxDeviceTriggerValidMask =? 0).

(** The words a producer has stored already. *)
Definition stored (p : producer) (slot : flagcxDeviceTrigger) : Prop :=
  match p with
  | StoreSnd t n => tr_fst slot = tr_fst t
  | StoreTrd t n => tr_fst slot = tr_fst t /\ tr_snd slot = tr_snd t
  | _ => True
  end.

(** The producer [p] holds the reservation of [q]. *)
Definition holds (ps : list producer) (q : Z) : Prop :=
  exists i p t, ps !! i = Some p /\ reservation p = Some (t, q).

Record slot_inv (s : fifo_system) (q : Z) (slot : flagcxDeviceTrigger) : Prop := {
  sl_valid : is_valid slot = true ->
    Z.of_nat (length (fs_taken s)) <= q < ff_produced (fs_fifo s) /\
    (exists t, fs_reserved s !! Z.to_nat q = Some t /\ slot = published t) /\ ~ holds (fs_producers s) q;
  sl_stored : forall i p t, fs_producers s !! i = Some p -> reservation p = Some (t, q) -> stored p slot
}.

Record fifo_inv (s : fifo_system) : Prop := {
  fi_cap : 0 < ff_capacity (fs_fifo s) < U64_MOD /\ Z.of_nat (length (ff_slots (fs_fifo s))) = ff_capacity (fs_fifo s);
  fi_gate : Z.of_nat (length (fs_producers s)) < 2 ^ 63 /\
    ff_producerState (fs_fifo s) =
      Z.of_nat (count_inside (fs_producers s)) + match fs_phase s with HostOpen => 0 | _ => 2 ^ 63 end;
  fi_produced : ff_produced (fs_fifo s) = Z.of_nat (length (fs_reserved s)) /\ ff_produced (fs_fifo s) <= U64_MAX;
  fi_taken : Z.of_nat (length (fs_taken s)) = ff_consumed (fs_fifo s) + Z.b2z (fs_holding s) /\
    Z.of_nat (length (fs_taken s)) <= ff_produced (fs_fifo s);
  fi_prefix : fs_taken s = take (length (fs_taken s)) (fs_reserved s);
  fi_ok : Forall trigger_ok (fs_reserved s) /\
    forall i p t, fs_producers s !! i = Some p -> p = Calling t \/ p = Entered t -> trigger_ok t;
  fi_reservation : forall i p t n, fs_producers s !! i = Some p -> reservation p = Some (t, n) ->
    Z.of_nat (length (fs_taken s)) <= n < ff_produced (fs_fifo s) /\ fs_reserved s !! Z.to_nat n = Some t /\
    (has_room p = true -> n < ff_consumed (fs_fifo s) + ff_capacity (fs_fifo s));
  fi_unique : forall i j p q t u n, fs_producers s !! i = Some p -> fs_producers s !! j = Some q ->
    reservation p = Some (t, n) -> reservation q = Some (u, n) -> i = j;
  fi_slots : forall q, ff_consumed (fs_fifo s) <= q < ff_consumed (fs_fifo s) + ff_capacity (fs_fifo s) ->
    exists slot, ff_slots (fs_fifo s) !! Z.to_nat (q mod ff_capacity (fs_fifo s)) = Some slot /\ slot_inv s q slot;
  fi_lost : failed (fs_terminal s) = false -> forall q, Z.of_nat (length (fs_taken s)) <= q < ff_produced (fs_fifo s) ->
    holds (fs_producers s) q \/
    q < ff_consumed (fs_fifo s) + ff_capacity (fs_fifo s) /\
    exists slot, ff_slots (fs_fifo s) !! Z.to_nat (q mod ff_capacity (fs_fifo s)) = Some slot /\ is_valid slot = true;
  fi_closed : fs_phase s = HostClosed -> forall i p, fs_producers s !! i = Some p -> admitted p = false;
  fi_failed : fs_phase s <> HostOpen -> failed (fs_terminal s) = true
}.

(** ** Bits of the gate *)

Lemma land_closed n : 0 <= n < 2 ^ 63 -> Z.land n flagcxFifoProducerClosedMask = 0.
Proof.
  intros Hn. change flagcxFifoProducerClosedMask with (2 ^ 63). apply Z.bits_inj'. intros k Hk.
  rewrite Z.land_spec, Z.pow2_bits_eqb, Z.bits_0 by lia. destruct (Z.eqb_spec 63 k) as [<-|]; [|apply andb_false_r].
  rewrite andb_true_r. by apply (testbit_small n 63).
Qed.

Lemma add_closed n : 0 <= n < 2 ^ 63 -> n + 2 ^ 63 = Z.lor n flagcxFifoProducerClosedMask.
Proof.
  intros Hn. pose proof (Z.add_lor_land n flagcxFifoProducerClosedMask) as E. rewrite land_closed in E by done.
  change flagcxFifoProducerClosedMask with (2 ^ 63) in *. lia.
Qed.

Lemma gate_open_spec n (phase : host_phase) : 0 <= n < 2 ^ 63 ->
  (Z.land (n + match phase with HostOpen => 0 | _ => 2 ^ 63 end) flagcxFifoProducerClosedMask =? 0) =
  match phase with HostOpen => true | _ => false end.
Proof.
  intros Hn. assert (Hc : Z.land (n + 2 ^ 63) flagcxFifoProducerClosedMask = 2 ^ 63).
  { rewrite add_closed by done. rewrite Z.land_lor_distr_l, land_closed, Z.land_diag by done. done. }
  destruct phase; [by rewrite Z.add_0_r, land_closed|by rewrite Hc|by rewrite Hc].
Qed.

Lemma gate_active_spec n (phase : host_phase) : 0 <= n < 2 ^ 63 ->
  Z.land (n + match phase with HostOpen => 0 | _ => 2 ^ 63 end) flagcxFifoProducerActiveMask = n.
Proof.
  intros Hn. change flagcxFifoProducerActiveMask with (Z.ones 63).
  rewrite Z.land_ones by lia. destruct phase; [rewrite Z.add_0_r; by apply Z.mod_small| |];
    (rewrite <- (Z.mul_1_l (2 ^ 63)) at 1; rewrite Z.mod_add by lia; by apply Z.mod_small).
Qed.

(** ** Preservation *)

Lemma bool_decide_is_true b : bool_decide (b = true) = b.
Proof. by destruct b. Qed.

Lemma count_inside_insert ps i p p' : ps !! i = Some p ->
  (count_inside (<[i := p']> ps) + Nat.b2n (inside p) = count_inside ps + Nat.b2n (inside p'))%nat.
Proof.
  intros Hi. pose proof (length_filter_insert (fun p => inside p = true) ps i p p' Hi) as H.
  cbn beta in H. by rewrite !bool_decide_is_true in H.
Qed.

Lemma count_inside_le ps : (count_inside ps <= length ps)%nat.
Proof. apply length_filter. Qed.

(** The gate's word counts the producers inside. *)
Definition gate_word (ps : list producer) (ph : host_phase) : Z :=
  Z.of_nat (count_inside ps) + match ph with HostOpen => 0 | _ => 2 ^ 63 end.

Lemma gate_word_bounds (ps : list producer) : Z.of_nat (length ps) < 2 ^ 63 -> 0 <= Z.of_nat (count_inside ps) < 2 ^ 63.
Proof. intros Hl. pose proof (count_inside_le ps). lia. Qed.

(** The word after a producer has entered or left. *)
Lemma gate_word_insert ps ph i p p' : ps !! i = Some p -> Z.of_nat (length ps) < 2 ^ 63 ->
  gate_word (<[i := p']> ps) ph = (gate_word ps ph + Z.b2z (inside p') - Z.b2z (inside p)) mod U64_MOD.
Proof.
  intros Hi Hl. pose proof (count_inside_insert ps i p p' Hi) as Hc. pose proof (count_inside_le (<[i := p']> ps)) as Hle.
  rewrite length_insert in Hle. unfold gate_word.
  assert (E : Z.of_nat (count_inside ps) + match ph with HostOpen => 0 | _ => 2 ^ 63 end + Z.b2z (inside p') - Z.b2z (inside p) =
    Z.of_nat (count_inside (<[i := p']> ps)) + match ph with HostOpen => 0 | _ => 2 ^ 63 end).
  { destruct (inside p), (inside p'); cbn in *; lia. }
  rewrite E, Z.mod_small; [done|]. destruct ph; lia.
Qed.

Lemma slot_holds_insert ps i p p' q : ps !! i = Some p ->
  reservation p' = reservation p \/ reservation p' = None -> holds (<[i := p']> ps) q -> holds ps q.
Proof.
  intros Hi Hr (j & x & t & Hj & Hx). apply list_lookup_insert_Some in Hj as [(-> & -> & _)|[Hne Hj]]; [|by exists j, x, t].
  exists j, p, t. split; [done|]. destruct Hr; congruence.
Qed.

(** A step that changes at most the gate's word: the producer keeps its
    reservation or, after a failure, drops it. *)
Lemma quiet_inv f tm ps ph h rs tk i p p' :
  fifo_inv (MkFifoSystem f tm ps ph h rs tk) -> ps !! i = Some p ->
  reservation p' = reservation p \/ reservation p' = None /\ (reservation p <> None -> failed tm = true) ->
  (has_room p' = true -> has_room p = true \/ exists t n, reservation p' = Some (t, n) /\ n < ff_consumed f + ff_capacity f) ->
  (forall slot, stored p' slot) -> (forall t, p' = Calling t \/ p' = Entered t -> trigger_ok t) ->
  (ph = HostClosed -> admitted p' = false) ->
  fifo_inv (MkFifoSystem (set_producerState ((ff_producerState f + Z.b2z (inside p') - Z.b2z (inside p)) mod U64_MOD) f)
    tm (<[i := p']> ps) ph h rs tk).
Proof.
  intros [Fcap [Fl Fg] Fp Ft Fpre [Fok Fc] Fr Fu Fs Flost Fcl Ff] Hi Hres Hroom Hst Hok Hcl. cbn in *.
  fold (gate_word ps ph) in Fg.
  assert (Hres' : reservation p' = reservation p \/ reservation p' = None) by tauto.
  assert (Hback : forall j x, <[i := p']> ps !! j = Some x -> (j = i /\ x = p') \/ (j <> i /\ ps !! j = Some x)).
  { intros j x [(-> & -> & _)|[Hne Hj]]%list_lookup_insert_Some; auto. }
  assert (Hown : forall t n, reservation p' = Some (t, n) -> reservation p = Some (t, n)).
  { intros t n E. destruct Hres' as [E'|E']; congruence. }
  constructor; cbn; try done.
  - rewrite length_insert. split; [done|]. fold (gate_word (<[i := p']> ps) ph). rewrite Fg. symmetry.
    by apply (gate_word_insert ps ph i p p').
  - split; [done|]. intros j x t [[-> ->]|[_ Hj]]%Hback; [by apply Hok|by apply (Fc j)].
  - intros j x t n [[-> ->]|[_ Hj]]%Hback Hx; [|by apply (Fr j x)].
    destruct (Fr i p t n Hi (Hown _ _ Hx)) as (H1 & H2 & H3). split; [done|]. split; [done|].
    intros [Hp|(t' & n' & E & Hlt)]%Hroom; [by apply H3|]. congruence.
  - intros a b x y t u n [[-> ->]|[Ha Hx]]%Hback [[-> ->]|[Hb Hy]]%Hback Rx Ry; [done| | |by apply (Fu a b x y t u n)].
    + by apply (Fu i b p y t u n Hi Hy (Hown _ _ Rx)).
    + by apply (Fu a i x p t u n Hx Hi Rx (Hown _ _ Ry)).
  - intros q Hq. destruct (Fs q Hq) as (slot & Hslot & [Sv Ss]). cbn in Sv, Ss. exists slot. split; [done|]. constructor; cbn.
    + intros Hv. destruct (Sv Hv) as (H1 & H2 & H3). split; [done|]. split; [done|]. intros Hh. apply H3. by eapply slot_holds_insert.
    + intros j x t [[-> ->]|[_ Hj]]%Hback Hx; [apply Hst|by apply (Ss j x t)].
  - intros Htm q Hq. destruct (Flost Htm q Hq) as [(j & x & t & Hj & Hx)|?]; [left|by right].
    destruct (decide (j = i)) as [->|Hne].
    + assert (x = p) as -> by congruence. exists i, p', t. rewrite list_lookup_insert_eq by (by eapply lookup_lt_Some).
      split; [done|]. destruct Hres as [->|[_ Hd]]; [done|]. rewrite Hd in Htm; [done|congruence].
    + exists j, x, t. by rewrite list_lookup_insert_ne.
  - intros Hph j x [[-> ->]|[_ Hj]]%Hback; [by apply Hcl|by apply (Fcl Hph j)].
Qed.

(** The reservation of the next slot. *)
Lemma reserve_step_inv f tm ps ph h rs tk i t :
  fifo_inv (MkFifoSystem f tm ps ph h rs tk) -> ps !! i = Some (Entered t) -> ff_produced f < U64_MAX ->
  fifo_inv (MkFifoSystem (set_produced (ff_produced f +u64 1)%word f) tm (<[i := Waiting t (ff_produced f)]> ps) ph h (rs ++ [t]) tk).
Proof.
  intros [Fcap [Fl Fg] [Fp1 Fp2] [Ft1 Ft2] Fpre [Fok Fc] Fr Fu Fs Flost Fcl Ff] Hi Hmax. cbn in *.
  rewrite (Z.mod_small (ff_produced f + 1)) by lia.
  assert (Hback : forall j x, <[i := Waiting t (ff_produced f)]> ps !! j = Some x ->
    (j = i /\ x = Waiting t (ff_produced f)) \/ (j <> i /\ ps !! j = Some x)).
  { intros j x [(-> & -> & _)|[Hne Hj]]%list_lookup_insert_Some; auto. }
  assert (Hlast : (rs ++ [t]) !! Z.to_nat (ff_produced f) = Some t).
  { rewrite Fp1, Nat2Z.id. by rewrite lookup_app_r, Nat.sub_diag by lia. }
  constructor; cbn; try done.
  - rewrite length_insert. split; [done|]. fold (gate_word ps ph) in Fg. fold (gate_word (<[i := Waiting t (ff_produced f)]> ps) ph).
    rewrite (gate_word_insert ps ph i (Entered t)) by done. cbn. pose proof (gate_word_bounds ps Fl).
    rewrite Z.mod_small; [lia|]. unfold gate_word. destruct ph; lia.
  - rewrite length_app. cbn. lia.
  - lia.
  - rewrite take_app_le by lia. done.
  - split; [apply Forall_app; split; [done|]; apply Forall_singleton; by apply (Fc i (Entered t)); auto|].
    intros j x u [[-> ->]|[_ Hj]]%Hback Hx; [naive_solver|by apply (Fc j x)].
  - intros j x u n [[-> ->]|[_ Hj]]%Hback Hx.
    + cbn in Hx. injection Hx as <- <-. split; [lia|]. split; [done|]. done.
    + destruct (Fr j x u n Hj Hx) as (H1 & H2 & H3). split; [lia|]. split; [|done]. rewrite lookup_app_l; [done|]. by eapply lookup_lt_Some.
  - intros a b x y v u n [[-> ->]|[Ha Hx]]%Hback [[-> ->]|[Hb Hy]]%Hback Rx Ry; [done| | |by apply (Fu a b x y v u n)].
    + cbn in Rx. injection Rx as <- <-. destruct (Fr b y u _ Hy Ry). lia.
    + cbn in Ry. injection Ry as <- <-. destruct (Fr a x v _ Hx Rx). lia.
  - intros q Hq. destruct (Fs q Hq) as (slot & Hslot & [Sv Ss]). cbn in Sv, Ss. exists slot. split; [done|]. constructor; cbn.
    + intros Hv. destruct (Sv Hv) as (H1 & (u & H2 & H2') & H3). split; [lia|]. split.
      * exists u. split; [|done]. rewrite lookup_app_l; [done|]. by eapply lookup_lt_Some.
      * intros (j & x & u' & [[-> ->]|[_ Hj]]%Hback & Hx); [cbn in Hx; injection Hx as <- <-; lia|]. apply H3. by exists j, x, u'.
    + intros j x u [[-> ->]|[_ Hj]]%Hback Hx; [done|by apply (Ss j x u)].
  - intros Htm q Hq. destruct (Z.eq_dec q (ff_produced f)) as [->|Hne].
    { left. exists i, (Waiting t (ff_produced f)), t. rewrite list_lookup_insert_eq by (by eapply lookup_lt_Some). done. }
    destruct (Flost Htm q) as [(j & x & u & Hj & Hx)|?]; [lia| |by right]. left. exists j, x, u.
    rewrite list_lookup_insert_ne; [done|]. intros <-. assert (x = Entered t) as -> by congruence. done.
  - intros Hph j x [[-> ->]|[_ Hj]]%Hback; [|by apply (Fcl Hph j)]. by specialize (Fcl Hph i _ Hi).
Qed.

Lemma slot_unique f q n : 0 < ff_capacity f ->
  ff_consumed f <= q < ff_consumed f + ff_capacity f -> ff_consumed f <= n < ff_consumed f + ff_capacity f ->
  Z.to_nat (q mod ff_capacity f) = Z.to_nat (n mod ff_capacity f) -> q = n.
Proof.
  intros Hc Hq Hn He. apply (slot_inj (ff_consumed f) (ff_capacity f)); [done..|].
  pose proof (slot_range q (ff_capacity f) Hc). pose proof (slot_range n (ff_capacity f) Hc). lia.
Qed.

(** A store of the producer [i] to its slot [n]: no other slot of the window
    changes, and the producer's slot is not valid yet. *)
Lemma store_step_inv f tm ps ph h rs tk i p p' t n g :
  fifo_inv (MkFifoSystem f tm ps ph h rs tk) -> ps !! i = Some p -> reservation p = Some (t, n) -> has_room p = true ->
  inside p = true -> inside p' = true -> (forall u, p' <> Calling u /\ p' <> Entered u) -> admitted p = true ->
  (reservation p' = Some (t, n) /\ has_room p' = true /\
     (forall slot, is_valid (g slot) = is_valid slot) /\ (forall slot, stored p slot -> stored p' (g slot)) \/
   p' = Leaving flagcxSuccess /\ forall slot, stored p slot -> is_valid slot = false -> g slot = published t) ->
  fifo_inv (MkFifoSystem (store_slot n g f) tm (<[i := p']> ps) ph h rs tk).
Proof.
  intros [Fcap [Fl Fg] [Fp1 Fp2] [Ft1 Ft2] Fpre [Fok Fc] Fr Fu Fs Flost Fcl Ff] Hi Hres Hroom Hin Hin' Hnc Had Hg. cbn in *.
  destruct (Fr i p t n Hi Hres) as (Hn1 & Hn2 & Hn3). specialize (Hn3 Hroom).
  assert (Hnw : ff_consumed f <= n < ff_consumed f + ff_capacity f) by (destruct h; cbn in Ft1; lia).
  assert (Hback : forall j x, <[i := p']> ps !! j = Some x -> (j = i /\ x = p') \/ (j <> i /\ ps !! j = Some x)).
  { intros j x [(-> & -> & _)|[Hne Hj]]%list_lookup_insert_Some; auto. }
  assert (Hres' : reservation p' = Some (t, n) \/ reservation p' = None) by (destruct Hg as [(? & _)|[-> _]]; auto).
  assert (Hown : forall u m, reservation p' = Some (u, m) -> u = t /\ m = n).
  { intros u m E. destruct Hres' as [E'|E']; rewrite E' in E; [|done]. by injection E as <- <-. }
  assert (Hother : forall q, ff_consumed f <= q < ff_consumed f + ff_capacity f -> q <> n ->
    alter g (Z.to_nat (n mod ff_capacity f)) (ff_slots f) !! Z.to_nat (q mod ff_capacity f) =
    ff_slots f !! Z.to_nat (q mod ff_capacity f)).
  { intros q Hq Hne. apply list_lookup_alter_ne. intros E. apply Hne. symmetry. apply (slot_unique f); [lia|done|done|done]. }
  destruct (Fs n Hnw) as (slot & Hslot & [Sv Ss]). cbn in *.
  assert (Hinv : is_valid slot = false).
  { destruct (is_valid slot) eqn:E; [|done]. exfalso. destruct (Sv eq_refl) as (_ & _ & Hh). apply Hh. by exists i, p, t. }
  assert (Hnew : alter g (Z.to_nat (n mod ff_capacity f)) (ff_slots f) !! Z.to_nat (n mod ff_capacity f) = Some (g slot)).
  { by rewrite list_lookup_alter_eq, Hslot. }
  pose proof (Ss i p t Hi Hres) as Hstored.
  constructor; cbn; try done.
  - by rewrite length_alter.
  - rewrite length_insert. split; [done|]. fold (gate_word ps ph) in Fg. fold (gate_word (<[i := p']> ps) ph).
    rewrite (gate_word_insert ps ph i p), Hin, Hin' by done. cbn. pose proof (gate_word_bounds ps Fl).
    rewrite Z.mod_small; [lia|]. unfold gate_word. destruct ph; lia.
  - split; [done|]. intros j x u [[-> ->]|[_ Hj]]%Hback Hx; [|by apply (Fc j x)]. destruct (Hnc u) as [H1 H2]. by destruct Hx.
  - intros j x u m [[-> ->]|[_ Hj]]%Hback Hx; [|by apply (Fr j x)]. apply Hown in Hx as [-> ->]. done.
  - intros a b x y v u m [[-> ->]|[Ha Hx]]%Hback [[-> ->]|[Hb Hy]]%Hback Rx Ry; [done| | |by apply (Fu a b x y v u m)].
    + apply Hown in Rx as [-> ->]. by apply (Fu i b p y t u n).
    + apply Hown in Ry as [-> ->]. by apply (Fu a i x p v t n).
  - intros q Hq. destruct (Z.eq_dec q n) as [->|Hne].
    + exists (g slot). split; [done|]. constructor; cbn.
      * intros Hv. destruct Hg as [(_ & _ & Hgv & _)|[-> Hgp]]; [rewrite Hgv in Hv; congruence|].
        split; [lia|]. split; [exists t; split; [done|by apply Hgp]|].
        intros (j & x & u & [[-> ->]|[Hne Hj]]%Hback & Hx); [done|]. apply Hne. by apply (Fu j i x p u t n).
      * intros j x u [[-> ->]|[Hne Hj]]%Hback Hx.
        -- destruct Hg as [(_ & _ & _ & Hgs)|[-> _]]; [by apply Hgs|done].
        -- exfalso. apply Hne. by apply (Fu j i x p u t n).
    + rewrite Hother by done. destruct (Fs q Hq) as (slot' & Hslot' & [Sv' Ss']). cbn in Sv', Ss'. exists slot'. split; [done|]. constructor; cbn.
      * intros Hv. destruct (Sv' Hv) as (H1 & H2 & H3). split; [done|]. split; [done|].
        intros (j & x & u & [[-> ->]|[Hne' Hj]]%Hback & Hx); [by apply Hown in Hx as [_ ->]|]. apply H3. by exists j, x, u.
      * intros j x u [[-> ->]|[Hne' Hj]]%Hback Hx; [by apply Hown in Hx as [_ ->]|by apply (Ss' j x u)].
  - intros Htm q Hq. destruct (Z.eq_dec q n) as [->|Hne].
    + destruct Hg as [(Hr & _)|[-> Hgp]].
      * left. exists i, p', t. by rewrite list_lookup_insert_eq by (by eapply lookup_lt_Some).
      * right. split; [lia|]. exists (g slot). split; [done|]. rewrite Hgp by done. unfold is_valid, published. cbn.
        rewrite Z.land_lor_distr_l, Z.land_diag. destruct (Z.eqb_spec (Z.lor (Z.land (tr_trd t) flagcxDeviceTriggerValidMask) flagcxDeviceTriggerValidMask) 0) as [E|]; [|done].
        apply Z.lor_eq_0_iff in E as [_ E]. done.
    + destruct (Flost Htm q Hq) as [(j & x & u & Hj & Hx)|(Hq2 & slot' & Hslot' & Hv')].
      * left. exists j, x, u. rewrite list_lookup_insert_ne; [done|]. intros <-. assert (x = p) as -> by congruence. congruence.
      * right. split; [done|]. exists slot'. rewrite Hother; [done| |done]. destruct h; cbn in Ft1; lia.
  - intros Hph j x [[-> ->]|[_ Hj]]%Hback; [|by apply (Fcl Hph j)]. specialize (Fcl Hph i p Hi). congruence.
Qed.

Lemma set_producerState_same f x : x = ff_producerState f -> set_producerState x f = f.
Proof. intros ->. by destruct f. Qed.

(** The gate's word of a step that neither enters nor leaves. *)
Lemma gate_word_same s i p p' : fifo_inv s -> fs_producers s !! i = Some p -> inside p' = inside p ->
  (ff_producerState (fs_fifo s) + Z.b2z (inside p') - Z.b2z (inside p)) mod U64_MOD = ff_producerState (fs_fifo s).
Proof.
  intros [_ [Fl Fg] _ _ _ _ _ _ _ _ _ _] Hi ->. rewrite Z.add_simpl_r, Fg. pose proof (gate_word_bounds _ Fl).
  rewrite Z.mod_small; [done|]. destruct (fs_phase s); lia.
Qed.

Lemma producer_step_inv f tm ps ph h rs tk i p f' p' :
  fifo_inv (MkFifoSystem f tm ps ph h rs tk) -> ps !! i = Some p -> fifoEnqueue_step tm f p = (f', p') ->
  (reserves p <> [] -> ff_produced f < U64_MAX) ->
  fifo_inv (MkFifoSystem f' tm (<[i := p']> ps) ph h (rs ++ reserves p) tk).
Proof.
  intros F Hi Hstep Hmax. pose proof F as [Fcap [Fl Fg] Fp [Ft1 Ft2] Fpre [Fok Fc] Fr Fu Fs Flost Fcl Ff].
  cbn [fs_fifo fs_terminal fs_producers fs_phase fs_holding fs_reserved fs_taken] in *.
  assert (Hquiet : forall p', inside p' = inside p -> reservation p' = reservation p \/ reservation p' = None /\ (reservation p <> None -> failed tm = true) ->
    (has_room p' = true -> has_room p = true \/ exists t n, reservation p' = Some (t, n) /\ n < ff_consumed f + ff_capacity f) ->
    (forall slot, stored p' slot) -> (forall t, p' = Calling t \/ p' = Entered t -> trigger_ok t) ->
    (ph = HostClosed -> admitted p' = false) -> reserves p = [] ->
    fifo_inv (MkFifoSystem f tm (<[i := p']> ps) ph h (rs ++ reserves p) tk)).
  { intros q Hin H1 H2 H3 H4 H5 H6. rewrite H6, app_nil_r.
    pose proof (quiet_inv f tm ps ph h rs tk i p q F Hi H1 H2 H3 H4 H5) as Hq.
    rewrite (set_producerState_same f) in Hq; [done|]. exact (gate_word_same _ i p q F Hi Hin). }
  assert (Hopen : forall t, p = Calling t -> (Z.land (ff_producerState f) flagcxFifoProducerClosedMask =? 0) = match ph with HostOpen => true | _ => false end).
  { intros t _. rewrite Fg. apply gate_open_spec. by apply gate_word_bounds. }
  assert (Hclosed : ph = HostClosed -> admitted p = true -> False).
  { intros Hph Ha. specialize (Fcl Hph i p Hi). congruence. }
  destruct p as [t| | |t|t n|t n|t n|t n|t n|t n|r|r]; cbn [fifoEnqueue_step] in Hstep.
  - unfold flagcxFifoProducerTryEnter in Hstep. rewrite (Hopen t eq_refl) in Hstep. injection Hstep as <- <-.
    rewrite app_nil_r. replace (ff_producerState f + 1) with (ff_producerState f + Z.b2z true - Z.b2z false) by (cbn; lia).
    assert (Hok : trigger_ok t) by (apply (Fc i (Calling t)); [done|by left]).
    destruct ph; [apply (quiet_inv f tm ps HostOpen h rs tk i (Calling t) (Entered t) F Hi)
      |apply (quiet_inv f tm ps HostClosing h rs tk i (Calling t) Refused F Hi)
      |apply (quiet_inv f tm ps HostClosed h rs tk i (Calling t) Refused F Hi)]; try done; try (by left); naive_solver.
  - injection Hstep as <- <-. rewrite app_nil_r. unfold flagcxFifoProducerLeave.
    replace (ff_producerState f - 1) with (ff_producerState f + Z.b2z (inside AskTerminal) - Z.b2z (inside Refused)) by (cbn; lia).
    apply quiet_inv; try done; [by left|naive_solver].
  - injection Hstep as <- <-. apply Hquiet; try done; [by left|naive_solver].
  - injection Hstep as <- <-. apply reserve_step_inv; [done|done|by apply Hmax].
  - injection Hstep as <- <-. destruct (Fr i _ t n Hi eq_refl) as ([Hn1 Hn2] & _ & _).
    rewrite Z.mod_small by (destruct h; cbn in Ft1; lia). destruct (Z.leb_spec (ff_capacity f) (n - ff_consumed f)) as [Hfull|Hroom].
    + apply Hquiet; try done; [by left|naive_solver|intros Hph; exfalso; by apply Hclosed].
    + apply Hquiet; try done; [by left| |naive_solver|intros Hph; exfalso; by apply Hclosed].
      intros _. right. exists t, n. split; [done|lia].
  - destruct (failed tm) eqn:Htm; injection Hstep as <- <-; apply Hquiet; try done; try naive_solver; intros Hph; exfalso; by apply Hclosed.
  - destruct (failed tm) eqn:Htm; injection Hstep as <- <-; apply Hquiet; try done; try naive_solver; intros Hph; exfalso; by apply Hclosed.
  - injection Hstep as <- <-. rewrite app_nil_r. eapply (store_step_inv f tm ps ph h rs tk i (StoreFst t n) (StoreSnd t n) t n); try done. left. by split_and!.
  - injection Hstep as <- <-. rewrite app_nil_r. eapply (store_step_inv f tm ps ph h rs tk i (StoreSnd t n) (StoreTrd t n) t n); try done. left. by split_and!.
  - injection Hstep as <- <-. rewrite app_nil_r. eapply (store_step_inv f tm ps ph h rs tk i (StoreTrd t n) (Leaving flagcxSuccess) t n); try done. right. split; [done|].
    intros slot [E1 E2] _. unfold store_trd, published. by rewrite E1, E2.
  - injection Hstep as <- <-. rewrite app_nil_r. unfold flagcxFifoProducerLeave.
    replace (ff_producerState f - 1) with (ff_producerState f + Z.b2z (inside (Returned r)) - Z.b2z (inside (Leaving r))) by (cbn; lia).
    apply quiet_inv; try done; [by left|naive_solver].
  - injection Hstep as <- <-. apply Hquiet; try done; [by left|naive_solver].
Qed.

Lemma is_valid_published t : is_valid (published t) = true.
Proof.
  unfold is_valid, published. cbn. rewrite Z.land_lor_distr_l, Z.land_diag.
  destruct (Z.eqb_spec (Z.lor (Z.land (tr_trd t) flagcxDeviceTriggerValidMask) flagcxDeviceTriggerValidMask) 0) as [E|]; [|done].
  by apply Z.lor_eq_0_iff in E as [_ E].
Qed.

(** What the host finds at its place. *)
Lemma dequeue_spec s :
  fifo_inv s -> fs_holding s = false ->
  exists r t f', dequeue (fs_fifo s) = Some (r, t, f') /\
    if failed r then r = flagcxInProgress /\ t = trigger_zero /\ f' = fs_fifo s /\
      (ff_produced (fs_fifo s) = ff_consumed (fs_fifo s) \/
       exists slot, ff_slots (fs_fifo s) !! Z.to_nat (ff_consumed (fs_fifo s) mod ff_capacity (fs_fifo s)) = Some slot /\ is_valid slot = false)
    else r = flagcxSuccess /\ fs_reserved s !! length (fs_taken s) = Some t /\
      ~ holds (fs_producers s) (ff_consumed (fs_fifo s)) /\ ff_consumed (fs_fifo s) < ff_produced (fs_fifo s) /\
      exists slot, f' = store_slot (ff_consumed (fs_fifo s)) (fun _ => store_trd 0 slot) (fs_fifo s).
Proof.
  intros [[Fcap Flen] _ Fp [Ft1 Ft2] _ [Fok _] _ _ Fs _ _ _] Hh. rewrite Hh in Ft1. cbn in Ft1.
  set (f := fs_fifo s) in *. unfold dequeue.
  destruct (Z.eqb_spec (ff_produced f) (ff_consumed f)) as [He|Hne]; [exists flagcxInProgress, trigger_zero, f; split; [done|]; split; [done|]; split; [done|]; split; [done|by left]|].
  rewrite (proj2 (Z.eqb_neq (ff_capacity f) 0)) by lia.
  destruct (Fs (ff_consumed f)) as (slot & Hslot & [Sv _]); [lia|].
  pose proof (slot_range (ff_consumed f) (ff_capacity f)).
  unfold arr_get. rewrite (proj2 (Z.leb_le 0 _)), Hslot by lia. cbn [mbind option_bind].
  destruct (Z.land (tr_trd slot) flagcxDeviceTriggerValidMask =? 0) eqn:Hv.
  { exists flagcxInProgress, trigger_zero, f. split; [done|]. split; [done|]. split; [done|]. split; [done|]. right.
    exists slot. split; [done|]. unfold is_valid. by rewrite Hv. }
  destruct Sv as (H1 & (t & Ht & ->) & H3); [unfold is_valid; by rewrite Hv|].
  rewrite arr_set_slot by lia. cbn [mbind option_bind].
  assert (Hok : trigger_ok t) by (eapply (proj1 (Forall_lookup _ _) Fok); exact Ht).
  exists flagcxSuccess, t. rewrite taken_published by done. eexists. split; [reflexivity|]. split; [done|].
  split; [rewrite <- Ht; f_equal; lia|]. split; [done|]. split; [lia|]. exists (published t).
  unfold store_slot. f_equal. apply list_eq. intros j. destruct (decide (j = Z.to_nat (ff_consumed f mod ff_capacity f))) as [->|Hj].
  - rewrite list_lookup_insert_eq by lia. by rewrite list_lookup_alter_eq, Hslot.
  - by rewrite list_lookup_insert_ne, list_lookup_alter_ne by done.
Qed.

Lemma dequeue_step_inv f tm ps rs tk t f' :
  fifo_inv (MkFifoSystem f tm ps HostOpen false rs tk) -> dequeue f = Some (flagcxSuccess, t, f') ->
  fifo_inv (MkFifoSystem f' tm ps HostOpen true rs (tk ++ [t])).
Proof.
  intros F Hrun. destruct (dequeue_spec _ F eq_refl) as (r & t' & f1 & Hrun' & Hr). cbn in Hrun', Hr. rewrite Hrun in Hrun'.
  injection Hrun' as <- <- <-. cbn in Hr. destruct Hr as (_ & Ht & Hnh & Hlt & slot0 & ->).
  destruct F as [[Fcap Flen] [Fl Fg] [Fp1 Fp2] [Ft1 Ft2] Fpre [Fok Fc] Fr Fu Fs Flost Fcl Ff]. cbn in *.
  set (q0 := ff_consumed f) in *. set (g := fun _ : flagcxDeviceTrigger => store_trd 0 slot0).
  assert (Hother : forall q, q0 <= q < q0 + ff_capacity f -> q <> q0 ->
    alter g (Z.to_nat (q0 mod ff_capacity f)) (ff_slots f) !! Z.to_nat (q mod ff_capacity f) = ff_slots f !! Z.to_nat (q mod ff_capacity f)).
  { intros q Hq Hne. apply list_lookup_alter_ne. intros E. apply Hne. symmetry. apply (slot_unique f); [lia|fold q0; lia|fold q0; lia|exact E]. }
  constructor; cbn; try done.
  - by rewrite length_alter.
  - rewrite length_app. cbn. fold q0. lia.
  - rewrite length_app. cbn. rewrite Nat.add_1_r. rewrite (take_S_r _ _ t) by done. by rewrite <- Fpre.
  - intros i p u n Hi Hres. destruct (Fr i p u n Hi Hres) as (H1 & H2 & H3). split; [|done]. rewrite length_app. cbn.
    assert (n <> q0) by (intros ->; apply Hnh; by exists i, p, u). lia.
  - fold q0. intros q Hq. destruct (Z.eq_dec q q0) as [->|Hne].
    + exists (g slot0). split.
      { destruct (Fs q0 Hq) as (slot & Hslot & _). by rewrite list_lookup_alter_eq, Hslot. }
      constructor; cbn; [done|]. intros i p u Hi Hres. exfalso. apply Hnh. by exists i, p, u.
    + rewrite Hother by done. destruct (Fs q Hq) as (slot & Hslot & [Sv Ss]). cbn in Sv, Ss. exists slot. split; [done|]. constructor; cbn; [|done].
      intros Hv. destruct (Sv Hv) as (H1 & H2 & H3). split; [|done]. rewrite length_app. cbn. lia.
  - fold q0. intros Htm q. rewrite length_app. cbn. intros Hq. destruct (Flost Htm q) as [Hh|(H1 & slot & Hslot & Hv)]; [lia|by left|right].
    split; [done|]. exists slot. rewrite Hother; [done|lia|lia].
Qed.

Lemma fifo_inv_step s1 s2 : fifo_inv s1 -> fifo_step s1 s2 -> fifo_inv s2.
Proof.
  intros F Hstep. destruct Hstep as [f tm ps ph h rs tk i p f' p' Hi Hrun Hmax | f tm ps ph h rs tk i r t Hi Hok
    | f tm ps rs tk t f' Hrun | f tm ps rs tk | f ps ph h rs tk r Hr | f tm ps h rs tk Htm | f tm ps h rs tk Hb].
  - by eapply producer_step_inv.
  - pose proof (quiet_inv f tm ps ph h rs tk i (Returned r) (Calling t) F Hi) as Hq.
    rewrite (set_producerState_same f) in Hq; [|by apply (gate_word_same _ i (Returned r) (Calling t) F Hi)].
    apply Hq; try done; [by left|naive_solver].
  - by eapply dequeue_step_inv.
  - destruct F as [[Fcap Flen] [Fl Fg] [Fp1 Fp2] [Ft1 Ft2] Fpre [Fok Fc] Fr Fu Fs Flost Fcl Ff]. cbn in *.
    unfold consume. rewrite (Z.mod_small (ff_consumed f + 1)) by lia.
    constructor; cbn; try done; [lia| | |].
    + intros i p u n Hi Hres. destruct (Fr i p u n Hi Hres) as (H1 & H2 & H3). split; [done|]. split; [done|]. intros Hm. specialize (H3 Hm). lia.
    + intros q Hq. destruct (Z.eq_dec q (ff_consumed f + ff_capacity f)) as [->|Hne].
      * destruct (Fs (ff_consumed f)) as (slot & Hslot & [Sv Ss]); [lia|]. exists slot. cbn in *.
        rewrite <- Z.add_mod_idemp_r, Z.mod_same, Z.add_0_r by lia. split; [done|]. constructor; cbn.
        -- intros Hv. destruct (Sv Hv). lia.
        -- intros i p u Hi Hres. destruct (Fr i p u _ Hi Hres) as (_ & _ & H3).
           destruct p; cbn in *; try done; exfalso; specialize (H3 eq_refl); lia.
      * destruct (Fs q) as (slot & Hslot & [Sv Ss]); [lia|]. exists slot. split; [exact Hslot|]. constructor; [exact Sv|exact Ss].
    + intros Htm q Hq. destruct (Flost Htm q Hq) as [?|(H1 & H2)]; [by left|right]. split; [lia|done].
  - destruct F as [Fcap Fg Fp Ft Fpre Fok Fr Fu Fs Flost Fcl Ff]. cbn in *. constructor; cbn; try done; [|intros Hf; congruence].
    intros q Hq. destruct (Fs q Hq) as (slot & Hslot & [Sv Ss]). by exists slot.
  - destruct F as [Fcap [Fl Fg] Fp Ft Fpre Fok Fr Fu Fs Flost Fcl Ff]. cbn in *. constructor; cbn; try done.
    + split; [done|]. rewrite Fg, Z.add_0_r. symmetry. apply add_closed. by apply gate_word_bounds.
    + intros q Hq. destruct (Fs q Hq) as (slot & Hslot & [Sv Ss]). by exists slot.
  - destruct F as [Fcap [Fl Fg] Fp Ft Fpre Fok Fr Fu Fs Flost Fcl Ff]. cbn in *. constructor; cbn; try done; [| |intros _; by apply Ff].
    { intros q Hq. destruct (Fs q Hq) as (slot & Hslot & [Sv Ss]). by exists slot. }
    intros _ i p Hi. unfold gate_busy in Hb. apply negb_false_iff, Z.eqb_eq in Hb. rewrite Fg in Hb.
    rewrite (gate_active_spec _ HostClosing) in Hb by (by apply gate_word_bounds).
    destruct (admitted p) eqn:Ha; [|done]. exfalso.
    assert (Hp : inside p = true) by (by destruct p).
    pose proof (length_filter_positive (fun p => inside p = true) ps i p Hi Hp) as Hpos. unfold count_inside in Hb. lia.
Qed.

Lemma fifo_initial_inv capacity s : fifo_initial capacity s -> fifo_inv s.
Proof.
  intros (ps & -> & Hc & Hl & Hps).
  assert (Hret : forall i p, ps !! i = Some p -> exists r, p = Returned r) by (by apply Forall_lookup).
  assert (H0 : count_inside ps = 0%nat).
  { unfold count_inside. rewrite filter_none; [done|]. eapply Forall_impl; [exact Hps|]. by intros p [r ->]. }
  constructor; cbn; try done.
  - rewrite length_replicate. lia.
  - rewrite H0. done.
  - split; [constructor|]. intros i p t [r ->]%Hret. naive_solver.
  - by intros i p t n [r ->]%Hret.
  - by intros i j p q t u n [r ->]%Hret.
  - intros q Hq. pose proof (slot_range q capacity (proj1 Hc)). exists trigger_zero. split; [apply lookup_replicate_2; lia|].
    constructor; cbn; [done|]. by intros i p t [r ->]%Hret.
  - intros _ q Hq. lia.
Qed.

Lemma fifo_reachable_inv capacity s1 s2 : fifo_initial capacity s1 -> reach fifo_step s1 s2 -> fifo_inv s2.
Proof. intros Hi%fifo_initial_inv Hr. revert s1 s2 Hr Hi. apply (reach_invariant fifo_step fifo_inv), fifo_inv_step. Qed.

(** ** The closed gate *)

Definition is_refused (p : producer) : bool := match p with Refused => true | _ => false end.

(** In a closed FIFO the gate counts exactly the producers it has refused and
    that have not dropped their reference. *)
Lemma closed_count s : fifo_inv s -> fs_phase s = HostClosed ->
  (count_inside (fs_producers s) =? 0)%nat = negb (existsb is_refused (fs_producers s)).
Proof.
  intros F Hph. pose proof (fi_closed _ F Hph) as Hcl. destruct (existsb is_refused (fs_producers s)) eqn:He; cbn [negb].
  - apply existsb_exists in He as (p & Hin & Hp). apply list_elem_of_In, list_elem_of_lookup in Hin as [i Hi].
    destruct p; try done. apply Nat.eqb_neq.
    pose proof (length_filter_positive (fun p => inside p = true) (fs_producers s) i Refused Hi eq_refl). unfold count_inside. lia.
  - apply Nat.eqb_eq. unfold count_inside. rewrite filter_none; [done|]. apply Forall_lookup. intros i p Hi Hp.
    specialize (Hcl i p Hi). destruct p; try done.
    assert (existsb is_refused (fs_producers s) = true); [|congruence]. apply existsb_exists. exists Refused.
    split; [|done]. apply list_elem_of_In. by eapply list_elem_of_lookup_2.
Qed.

(** What no step after the closing changes. *)
Definition quiesced (s0 s : fifo_system) : Prop :=
  fs_phase s = HostClosed /\ ff_produced (fs_fifo s) = ff_produced (fs_fifo s0) /\ ff_slots (fs_fifo s) = ff_slots (fs_fifo s0) /\
  fs_reserved s = fs_reserved s0 /\ fs_taken s = fs_taken s0 /\
  forall i p, fs_producers s !! i = Some p -> admitted p = false.

Lemma quiesced_step s0 s1 s2 : fifo_inv s1 -> quiesced s0 s1 -> fifo_step s1 s2 -> quiesced s0 s2.
Proof.
  intros F (Hph & Hp & Hs & Hr & Ht & Ha) Hstep. destruct Hstep as [f tm ps ph h rs tk i p f' p' Hi Hrun Hmax | f tm ps ph h rs tk i r t Hi Hok
    | f tm ps rs tk t f' Hrun | f tm ps rs tk | f ps ph h rs tk r Hr' | f tm ps h rs tk Htm | f tm ps h rs tk Hb]; cbn in *; try done.
  - specialize (Ha i p Hi) as Hap. subst ph.
    assert (Hkeep : forall x : producer, admitted x = false -> forall j y, <[i := x]> ps !! j = Some y -> admitted y = false).
    { intros x Hx j y [(-> & -> & _)|[_ Hj]]%list_lookup_insert_Some; [done|by apply (Ha j)]. }
    pose proof F as [_ [Fl Fg] _ _ _ _ _ _ _ _ _ _]. cbn in Fl, Fg.
    destruct p; try done; cbn [fifoEnqueue_step] in Hrun; unfold quiesced; cbn.
    + unfold flagcxFifoProducerTryEnter in Hrun. rewrite Fg, (gate_open_spec _ HostClosed) in Hrun by (by apply gate_word_bounds).
      injection Hrun as <- <-. rewrite app_nil_r. split_and!; try done. by apply Hkeep.
    + injection Hrun as <- <-. rewrite app_nil_r. split_and!; try done. by apply Hkeep.
    + injection Hrun as <- <-. rewrite app_nil_r. split_and!; try done. by apply Hkeep.
    + injection Hrun as <- <-. rewrite app_nil_r. split_and!; try done. by apply Hkeep.
  - split_and!; try done. intros j x [(-> & <- & _)|[_ Hj]]%list_lookup_insert_Some; [done|by apply (Ha j)].
Qed.

(** ** Properties *)

(** C11: the FIFO loses, repeats, reorders and tears nothing.  Whatever the
    interleaving of the threads' accesses with the host's, the descriptors that
    the host has dequeued are the first ones of those reserved, in the order of
    the reservations and word for word; the host's next dequeue gives the next
    of them.  A dequeue without an item means, unless the FIFO has failed, that
    all are taken or that the thread of the next one is still writing it. *)
Theorem fifo_delivery capacity s1 s2 :
  fifo_initial capacity s1 -> reach fifo_step s1 s2 ->
  fs_taken s2 `prefix_of` fs_reserved s2 /\
  (fs_holding s2 = false -> exists r t f', dequeue (fs_fifo s2) = Some (r, t, f') /\
    (r = flagcxSuccess -> fs_reserved s2 !! length (fs_taken s2) = Some t) /\
    (r <> flagcxSuccess -> failed (fs_terminal s2) = false ->
      length (fs_taken s2) = length (fs_reserved s2) \/ holds (fs_producers s2) (Z.of_nat (length (fs_taken s2))))).
Proof.
  intros Hi Hr. pose proof (fifo_reachable_inv _ _ _ Hi Hr) as F. split.
  { rewrite (fi_prefix _ F). apply prefix_take. }
  intros Hh. destruct (dequeue_spec _ F Hh) as (r & t & f' & Hrun & Hspec). exists r, t, f'. split; [done|].
  destruct (fi_taken _ F) as [Ft1 Ft2]. destruct (fi_produced _ F) as [Fp _]. rewrite Hh in Ft1. cbn in Ft1.
  split; [intros ->; by destruct Hspec as (_ & ? & _)|]. intros Hne Htm. destruct (failed r) eqn:Hf; [|by apply failed_success in Hf].
  destruct Hspec as (_ & _ & _ & [He|(slot & Hslot & Hv)]); [left; lia|].
  destruct (Z.eq_dec (ff_consumed (fs_fifo s2)) (ff_produced (fs_fifo s2))) as [He|Hne']; [left; lia|right].
  destruct (fi_lost _ F Htm (Z.of_nat (length (fs_taken s2)))) as [?|(_ & slot' & Hslot' & Hv')]; [lia|done|].
  rewrite Ft1, Z.add_0_r in Hslot'. congruence.
Qed.

(** A thread that enqueues, from call to return. *)
Definition demo_trigger : flagcxDeviceTrigger := enqueueFifoPut 4096 8192 512 5 1 2.

Lemma fifo_delivery_witness :
  exists s1 s2, fifo_initial 2 s1 /\ reach fifo_step s1 s2 /\ fs_taken s2 = [demo_trigger] /\
    fs_taken s2 `prefix_of` fs_reserved s2.
Proof.
  set (s1 := MkFifoSystem (flagcxFifoInit 2) flagcxSuccess [Returned flagcxSuccess] HostOpen false [] []).
  assert (Hi : fifo_initial 2 s1).
  { exists [Returned flagcxSuccess]. split; [reflexivity|]. split; [lia|]. split; [cbn; lia|]. repeat constructor. by eexists. }
  assert (Hpath : exists s2, reach fifo_step s1 s2 /\ fs_taken s2 = [demo_trigger]).
  { eexists. split.
    - eapply reach_step; [eapply fifo_step_call with (i := 0%nat) (t := demo_trigger); [reflexivity|vm_compute; split; congruence]|].
      do 7 (eapply reach_step; [eapply fifo_step_producer with (i := 0%nat); [reflexivity|vm_compute; reflexivity|vm_compute; congruence]|]).
      eapply reach_step; [eapply fifo_step_dequeue; vm_compute; reflexivity|]. apply reach_refl.
    - vm_compute. reflexivity. }
  destruct Hpath as (s2 & Hr & Ht). exists s1, s2. split; [exact Hi|]. split; [exact Hr|]. split; [exact Ht|].
  exact (proj1 (fifo_delivery 2 s1 s2 Hi Hr)).
Defined.

(** C33: closing the gate is final.  Once the loop of the closing has seen no
    active producer, no thread holds or makes a reservation, stores to a slot or
    moves [produced], so that the counters the end of a failed FIFO writes stay
    right; that end succeeds unless, at that instant, a thread that the gate has
    turned away has not dropped its reference. *)
Theorem gate_quiesces capacity s1 s2 s3 completed :
  fifo_initial capacity s1 -> reach fifo_step s1 s2 -> fs_phase s2 = HostClosed -> reach fifo_step s2 s3 ->
  quiesced s2 s3 /\
  flagcxKernelProxyFinalizeTerminalFifo (fs_fifo s3) completed =
    if existsb is_refused (fs_producers s3) then (flagcxInvalidUsage, fs_fifo s3, completed)
    else (flagcxSuccess, set_consumed (ff_produced (fs_fifo s3)) (fs_fifo s3), ff_produced (fs_fifo s3)).
Proof.
  intros Hi Hr Hph Hr'. pose proof (fifo_reachable_inv _ _ _ Hi Hr) as F2.
  assert (H3 : fifo_inv s3 /\ quiesced s2 s3).
  { revert s2 s3 Hr' Hr Hph F2. intros s2 s3 Hr' _ Hph F2.
    apply (reach_invariant fifo_step (fun s => fifo_inv s /\ quiesced s2 s)) with (s1 := s2); [|done|].
    - intros a b [Fa Qa] Hab. split; [by eapply fifo_inv_step|by eapply quiesced_step].
    - split; [done|]. split_and!; try done. by apply (fi_closed _ F2). }
  destruct H3 as [F3 Q3]. split; [done|]. destruct Q3 as (Hph3 & _).
  pose proof (fi_gate _ F3) as [Fl Fg]. pose proof (closed_count _ F3 Hph3) as Hc. rewrite Hph3 in Fg.
  unfold flagcxKernelProxyFinalizeTerminalFifo, gate_busy. rewrite Fg.
  rewrite (gate_open_spec _ HostClosed), (gate_active_spec _ HostClosed) by (by apply gate_word_bounds). cbn [orb].
  destruct (existsb is_refused (fs_producers s3)); cbn [negb] in Hc.
  - apply Nat.eqb_neq in Hc. rewrite (proj2 (Z.eqb_neq _ 0)) by lia. done.
  - apply Nat.eqb_eq in Hc. rewrite Hc. done.
Qed.

(** The race of the end with a thread that is turned away. *)
Lemma gate_quiesces_witness :
  exists s1 s2 s3, fifo_initial 2 s1 /\ reach fifo_step s1 s2 /\ fs_phase s2 = HostClosed /\ reach fifo_step s2 s3 /\
    quiesced s2 s3 /\ flagcxKernelProxyFinalizeTerminalFifo (fs_fifo s3) 0 = (flagcxInvalidUsage, fs_fifo s3, 0).
Proof.
  set (s1 := MkFifoSystem (flagcxFifoInit 2) flagcxSuccess [Returned flagcxSuccess] HostOpen false [] []).
  assert (Hi : fifo_initial 2 s1).
  { exists [Returned flagcxSuccess]. split; [reflexivity|]. split; [lia|]. split; [cbn; lia|]. repeat constructor. by eexists. }
  assert (Hpath : exists s2, reach fifo_step s1 s2 /\ fs_phase s2 = HostClosed /\
    exists s3, reach fifo_step s2 s3 /\ existsb is_refused (fs_producers s3) = true).
  { eexists. split.
    - eapply reach_step; [eapply fifo_step_call with (i := 0%nat) (t := demo_trigger); [reflexivity|vm_compute; split; congruence]|].
      eapply reach_step; [eapply fifo_step_fail with (r := flagcxRemoteError); reflexivity|].
      eapply reach_step; [eapply fifo_step_close; reflexivity|].
      eapply reach_step; [eapply fifo_step_closed; vm_compute; reflexivity|]. apply reach_refl.
    - split; [vm_compute; reflexivity|]. eexists. split.
      + eapply reach_step; [eapply fifo_step_producer with (i := 0%nat); [reflexivity|vm_compute; reflexivity|vm_compute; congruence]|].
        apply reach_refl.
      + vm_compute. reflexivity. }
  destruct Hpath as (s2 & Hr & Hph & s3 & Hr' & Href). exists s1, s2, s3.
  split; [exact Hi|]. split; [exact Hr|]. split; [exact Hph|]. split; [exact Hr'|].
  destruct (gate_quiesces 2 s1 s2 s3 0 Hi Hr Hph Hr') as [Q Hfin]. split; [exact Q|]. rewrite Hfin, Href. reflexivity.
Defined.
