(* ===== verification/KernelWorker.v ===== *)
(** The worker of the kernel proxy ([flagcx/core/proxy.cc]): it takes the
    descriptors of device code from its FIFO, posts the one-sided operations on
    the network, runs the two-sided ones, and retires them in order.

    The network adaptor, the groups of two-sided operations and the flush that a
    GET needs are functions over a state [S] of their own; each answers with a
    result, and with the request where it posts one ([NULL] for none). *)
From S2P Require Import Prelude Flagcx Arrays NetTransport KernelProxy KernelTrigger KernelFifo.

(** ** The communicator *)

(** [struct flagcxOneSideHandleInfo]: its address and the fields read here; the
    connections are by context and by peer. *)
Record flagcxOneSideHandleInfo := MkHandleInfo {
  oi_address : Z;
  oi_contextSendComms : option (list (option (list Z)));
  oi_contextRecvComms : option (list (option (list Z)));
  oi_nContexts : Z;
  oi_readRequiresFlush : bool      (* gdrFlushRequirements & FLAGCX_GDR_READ_REQUIRES_FLUSH *)
}.

(** [struct flagcxDevCommInternal]: the fields read here. *)
Record flagcxDevCommInternal := MkDevComm {
  dc_hasStagingBuffer : bool;      (* putValueStagingBuffer *)
  dc_stagingContextCount : Z;
  dc_stagingSlotCount : Z;
  dc_stagingKernelBaseSlot : Z;
  dc_stagingTotalSlotCount : Z;
  dc_hasCounterBuffer : bool;      (* counterBuffer *)
  dc_contextCount : Z;
  dc_counterCount : Z
}.

(** [struct flagcxHeteroComm]: the fields read here.  [hc_stagingHandle] is the
    address of the handle of the staging buffer and whether it has its
    [baseVas]. *)
Record flagcxHeteroComm := MkHeteroComm {
  hc_rank : Z;
  hc_nRanks : Z;
  hc_rmaProxy : bool;
  hc_netAdaptor : bool;
  hc_netTest : bool;
  hc_oneSideHandleCount : Z;
  hc_oneSideHandles : list (option flagcxOneSideHandleInfo);
  hc_signalHandle : Z;
  hc_stagingHandle : option (Z * bool);
  hc_devComm : option flagcxDevCommInternal
}.

Definition handle_address (h : option flagcxOneSideHandleInfo) : Z := match h with Some h => oi_address h | None => NULL end.

(** [flagcxOneSideGetCompletionRequiresFlush] ([flagcx_hetero.cc]) *)
Definition flagcxOneSideGetCompletionRequiresFlush (comm : flagcxHeteroComm) (dstMrIdx : Z) : option bool :=
  if (dstMrIdx <? 0) || (hc_oneSideHandleCount comm <=? dstMrIdx) then Some false
  else
    info ← arr_get (hc_oneSideHandles comm) dstMrIdx;
    Some (match info with Some info => oi_readRequiresFlush info | None => false end).

(** [flagcxKernelPutValueStagingOffset]
    ([adaptor/include/device_api/flagcx_device_internal.h]); [None] for
    [false]. *)
Definition flagcxKernelPutValueStagingOffset (dc : flagcxDevCommInternal) (contextId stagingSlot : Z) : option Z :=
  if (contextId <? 0) || (dc_stagingContextCount dc <=? contextId) || (stagingSlot <? 0) ||
     (dc_stagingSlotCount dc <=? stagingSlot)
  then None
  else
    let slot := (dc_stagingKernelBaseSlot dc +u64 ((contextId *u64 dc_stagingSlotCount dc) +u64 stagingSlot))%word in
    if (dc_stagingTotalSlotCount dc <=? slot) || (U64_MAX / 8 <? slot) then None else Some (slot *u64 8)%word.

(** [flagcxKernelProxyValidatePeer] *)
Definition flagcxKernelProxyValidatePeer (comm : flagcxHeteroComm) (peerRank ctx : Z) : option flagcxResult_t :=
  meshH ← (if 0 <? hc_oneSideHandleCount comm then arr_get (hc_oneSideHandles comm) 0 else Some None);
  match meshH with
  | None => Some flagcxNotSupported
  | Some meshH =>
    if (peerRank <? 0) || (hc_nRanks comm <=? peerRank) then Some flagcxInvalidArgument
    else
      match oi_contextSendComms meshH with
      | None => Some flagcxNotSupported
      | Some sendComms =>
        if oi_nContexts meshH <=? ctx then Some flagcxNotSupported
        else
          row ← arr_get sendComms ctx;
          match row with
          | None => Some flagcxNotSupported
          | Some row =>
            sendComm ← arr_get row peerRank;
            Some (if sendComm =? NULL then flagcxNotSupported else flagcxSuccess)
          end
      end
  end.

(** [flagcxKernelProxySubmitFlags] *)
Definition flagcxKernelProxySubmitFlags (trigger : flagcxDeviceTrigger) : Z :=
  let prim := getPrim trigger in
  if (prim =? flagcxDevicePrimPut) || (prim =? flagcxDevicePrimGet) || (prim =? flagcxDevicePrimPutValue)
  then Z.lor FLAGCX_NET_SUBMIT_DATA FLAGCX_NET_SUBMIT_INDEPENDENT
  else if prim =? flagcxDevicePrimPutSignal
  then Z.lor (Z.lor FLAGCX_NET_SUBMIT_DATA FLAGCX_NET_SUBMIT_RELEASE) FLAGCX_NET_SUBMIT_INDEPENDENT
  else if (prim =? flagcxDevicePrimSignal) || (prim =? flagcxDevicePrimSignalValue)
  then Z.lor FLAGCX_NET_SUBMIT_RELEASE FLAGCX_NET_SUBMIT_INDEPENDENT
  else 0.

(** ** Posting *)

Inductive rma_type := FLAGCX_RMA_PUT | FLAGCX_RMA_GET | FLAGCX_RMA_PUT_SIGNAL | FLAGCX_RMA_PUT_VALUE.

#[export] Instance rma_type_eq_dec : EqDecision rma_type.
Proof. solve_decision. Defined.

(** A call of the network adaptor, with the submission in its scope
    ([flagcxKernelSubmitScope]). *)
Inductive net_call :=
| NetPut (sendComm srcOff dstOff size srcRank dstRank srcHandles dstHandles : Z)
| NetGet (sendComm srcOff dstOff size srcRank dstRank srcHandles dstHandles : Z)
| NetPutSignal (sendComm srcOff dstOff size srcRank dstRank srcHandles dstHandles signalOff sigHandles signalValue : Z).

(** The arguments of [flagcxKernelProxyPost]. *)
Record rma_args := MkRma {
  ra_peer : Z;
  ra_type : rma_type;
  ra_srcOff : Z;
  ra_dstOff : Z;
  ra_size : Z;
  ra_srcMrIdx : Z;
  ra_dstMrIdx : Z;
  ra_signalOff : Z;
  ra_signalValue : Z;
  ra_putValue : Z
}.

(** Words that the host writes for the device or the network: the staging
    buffer by offset and the counters by index. *)
Record host_memory := MkHostMemory { hm_staging : gmap Z Z; hm_counters : list Z }.

Section Post.
Context {S : Type}.
Context (has_put has_get has_putSignal : bool).
Context (netCall : S -> flagcxNetSubmitContext -> net_call -> flagcxResult_t * Z * S).

(** The adaptor's function where it has one. *)
Definition call_net (available : bool) (s : S) (submit : flagcxNetSubmitContext) (call : net_call) : flagcxResult_t * Z * S :=
  if available then netCall s submit call else (flagcxNotSupported, NULL, s).

(** The [switch] over the types: result, request, memory. *)
Definition post_native (comm : flagcxHeteroComm) (k : flagcxKernelProxyState) (submit : flagcxNetSubmitContext) (contextId : Z)
    (sendComm stagingSlot srcHandles dstHandles : Z) (ra : rma_args) (m : host_memory) (s : S) :
    option (flagcxResult_t * Z * host_memory * S) :=
  let peer := ra_peer ra in
  match ra_type ra with
  | FLAGCX_RMA_PUT =>
    let '(r, q, s) := call_net has_put s submit
      (NetPut sendComm (ra_srcOff ra) (ra_dstOff ra) (ra_size ra) (hc_rank comm) peer srcHandles dstHandles) in
    Some (r, q, m, s)
  | FLAGCX_RMA_GET =>
    let '(r, q, s) := call_net has_get s submit
      (NetGet sendComm (ra_srcOff ra) (ra_dstOff ra) (ra_size ra) peer (hc_rank comm) srcHandles dstHandles) in
    Some (r, q, m, s)
  | FLAGCX_RMA_PUT_SIGNAL =>
    let '(r, q, s) := call_net has_putSignal s submit
      (NetPutSignal sendComm (ra_srcOff ra) (ra_dstOff ra) (ra_size ra) (hc_rank comm) peer srcHandles dstHandles
        (ra_signalOff ra) (hc_signalHandle comm) (ra_signalValue ra)) in
    Some (r, q, m, s)
  | FLAGCX_RMA_PUT_VALUE =>
    match hc_stagingHandle comm, hc_devComm comm with
    | Some (stagingH, true), Some dc =>
      if negb (dc_hasStagingBuffer dc) || (dc_stagingContextCount dc <=? contextId) ||
         negb (dc_stagingSlotCount dc =? kp_stagingSlotCount (ks_transport k))
      then Some (flagcxInternalError, NULL, m, s)
      else if (ra_dstMrIdx ra <? 0) || (hc_oneSideHandleCount comm <=? ra_dstMrIdx ra)
      then Some (flagcxInvalidArgument, NULL, m, s)
      else if negb has_put then Some (flagcxNotSupported, NULL, m, s)
      else
        match flagcxKernelPutValueStagingOffset dc contextId stagingSlot with
        | None => Some (flagcxInternalError, NULL, m, s)
        | Some stagingOffset =>
          let m := MkHostMemory (<[stagingOffset := ra_putValue ra]> (hm_staging m)) (hm_counters m) in
          dstH ← arr_get (hc_oneSideHandles comm) (ra_dstMrIdx ra);
          let '(r, q, s) := call_net has_put s submit
            (NetPut sendComm stagingOffset (ra_dstOff ra) 8 (hc_rank comm) peer stagingH (handle_address dstH)) in
          Some (r, q, m, s)
        end
    | _, _ => Some (flagcxInternalError, NULL, m, s)
    end
  end.

(** [flagcxKernelProxyReleaseStagingSlot] where the request has a slot. *)
Definition release_staging (stagingSlot : Z) (k : flagcxKernelProxyState) : option (flagcxResult_t * flagcxKernelProxyState) :=
  if 0 <=? stagingSlot then
    '(r, t) ← flagcxKernelProxyReleaseStagingSlot (Some (ks_transport k)) stagingSlot;
    t ← t;
    Some (r, set_transport t k)
  else Some (flagcxSuccess, k).

Definition cancel_request (slot : Z) (k : flagcxKernelProxyState) : option (flagcxResult_t * flagcxKernelProxyState) :=
  '(r, t) ← flagcxKernelProxyCancelRequest (Some (ks_transport k)) slot;
  t ← t;
  Some (r, set_transport t k).

(** What follows the call of the adaptor: its result and request decide. *)
Definition post_finish (slot stagingSlot : Z) (requiresGetFlush : bool) (res : flagcxResult_t) (request : Z)
    (k : flagcxKernelProxyState) : option (flagcxResult_t * bool * flagcxKernelProxyState) :=
  if negb (request =? NULL) then
    let completionResult := if bool_decide (res = flagcxInProgress) then flagcxSuccess else res in
    '(publishResult, t) ← flagcxKernelProxyPublishRequest (Some (ks_transport k)) slot request completionResult;
    t ← t;
    let k := set_transport t k in
    if failed publishResult then Some (publishResult, false, flagcxKernelProxyPublishTerminal publishResult k)
    else Some (flagcxSuccess, true,
      if failed completionResult then flagcxKernelProxyPublishTerminal completionResult k else k)
  else if negb (failed res) && requiresGetFlush then
    '(publishResult, t) ← flagcxKernelProxyPublishGetFlushPending (Some (ks_transport k)) slot;
    t ← t;
    let k := set_transport t k in
    if failed publishResult then
      '(cancelResult, k) ← cancel_request slot k;
      let publishResult := if failed cancelResult then cancelResult else publishResult in
      Some (publishResult, false, flagcxKernelProxyPublishTerminal publishResult k)
    else Some (flagcxSuccess, true, k)
  else
    '(cancelResult, k) ← cancel_request slot k;
    let res := if failed cancelResult then cancelResult else res in
    '(releaseResult, k) ← release_staging stagingSlot k;
    if failed releaseResult then Some (releaseResult, false, flagcxKernelProxyPublishTerminal releaseResult k)
    else Some (res, false,
      if failed res && negb (bool_decide (res = flagcxInProgress)) then flagcxKernelProxyPublishTerminal res k else k).

(** The call for a slot that is reserved. *)
Definition post_reserved (comm : flagcxHeteroComm) (submit : flagcxNetSubmitContext) (contextId slot : Z)
    (h0 : flagcxOneSideHandleInfo) (sendComm stagingSlot srcHandles dstHandles : Z) (ra : rma_args)
    (k : flagcxKernelProxyState) (m : host_memory) (s : S) :
    option (flagcxResult_t * bool * flagcxKernelProxyState * host_memory * S) :=
  let ctx := contextId + 1 in
  needs ← flagcxOneSideGetCompletionRequiresFlush comm (ra_dstMrIdx ra);
  let requiresGetFlush := bool_decide (ra_type ra = FLAGCX_RMA_GET) && negb (ra_size ra =? 0) && needs in
  '(configureResult, k) ← (
    if requiresGetFlush then
      flushRecvComm ← (
        match oi_contextRecvComms h0 with
        | Some recvComms =>
          if ctx <? oi_nContexts h0 then
            row ← arr_get recvComms ctx;
            match row with Some row => arr_get row (hc_rank comm) | None => Some NULL end
          else Some NULL
        | None => Some NULL
        end);
      '(r, t) ← flagcxKernelProxyRequireGetFlush (Some (ks_transport k)) slot (ra_dstMrIdx ra) (ra_dstOff ra) (ra_size ra)
        flushRecvComm;
      t ← t;
      Some (r, set_transport t k)
    else Some (flagcxSuccess, k));
  if failed configureResult then
    '(cancelResult, k) ← cancel_request slot k;
    '(_, k) ← release_staging stagingSlot k;
    Some (if failed cancelResult then cancelResult else configureResult, false, k, m, s)
  else
    '(res, request, m, s) ← post_native comm k submit contextId sendComm stagingSlot srcHandles dstHandles ra m s;
    '(res, posted, k) ← post_finish slot stagingSlot requiresGetFlush res request k;
    Some (res, posted, k, m, s).

(** [*posted] after the call. *)
Definition flagcxKernelProxyPost (k : flagcxKernelProxyState) (comm : flagcxHeteroComm) (submit : flagcxNetSubmitContext)
    (contextId : Z) (ra : rma_args) (m : host_memory) (s : S) :
    option (flagcxResult_t * bool * flagcxKernelProxyState * host_memory * S) :=
  let refuse r := Some (r, false, k, m, s) in
  let n := hc_oneSideHandleCount comm in
  if negb (hc_rmaProxy comm) || negb (hc_netAdaptor comm) then refuse flagcxInternalError
  else
    h0 ← (if n <? 1 then Some None else arr_get (hc_oneSideHandles comm) 0);
    match h0 with
    | None => refuse flagcxInternalError
    | Some h0 =>
      if (0 <=? ra_dstMrIdx ra) && (n <=? ra_dstMrIdx ra) then refuse flagcxInvalidArgument
      else if (0 <=? ra_srcMrIdx ra) && (n <=? ra_srcMrIdx ra) then refuse flagcxInvalidArgument
      else
        let ctx := contextId + 1 in
        match oi_contextSendComms h0 with
        | None => refuse flagcxInternalError
        | Some sendComms =>
          if oi_nContexts h0 <=? ctx then refuse flagcxInternalError
          else
            row ← arr_get sendComms ctx;
            row ← row;
            sendComm ← arr_get row (ra_peer ra);
            if sendComm =? NULL then refuse flagcxInternalError
            else
              '(srcHandles, dstHandles) ← (
                if (0 <? ra_size ra) && (0 <=? ra_srcMrIdx ra) && (0 <=? ra_dstMrIdx ra) then
                  src ← arr_get (hc_oneSideHandles comm) (ra_srcMrIdx ra);
                  dst ← arr_get (hc_oneSideHandles comm) (ra_dstMrIdx ra);
                  Some (handle_address src, handle_address dst)
                else Some (NULL, NULL));
              if (0 <? ra_size ra) && ((srcHandles =? NULL) || (dstHandles =? NULL)) then refuse flagcxInvalidArgument
              else
                '(slotResult, t, staging) ← (
                  if bool_decide (ra_type ra = FLAGCX_RMA_PUT_VALUE)
                  then flagcxKernelProxyAcquireStagingSlot (Some (ks_transport k)) true
                  else Some (flagcxSuccess, Some (ks_transport k), None));
                t ← t;
                let k := set_transport t k in
                if failed slotResult then Some (slotResult, false, k, m, s)
                else
                  let stagingSlot := default (-1) staging in
                  let '(reserveResult, t, slot) :=
                    flagcxKernelProxyReserveRequest (Some (ks_transport k)) (Some submit) (ra_peer ra) stagingSlot true in
                  t ← t;
                  let k := set_transport t k in
                  if failed reserveResult then
                    '(_, k) ← release_staging stagingSlot k;
                    Some (reserveResult, false, k, m, s)
                  else
                    slot ← slot;
                    post_reserved comm submit contextId slot h0 sendComm stagingSlot srcHandles dstHandles ra k m s
        end
    end.

End Post.

(** ** The worker *)

(** [flagcxKernelWorkerState], with the transport's state, the FIFO and the
    words it writes for others. *)
Record flagcxKernelWorkerState := MkWorker {
  kw_state : flagcxKernelProxyState;
  kw_fifo : flagcxFifo;
  kw_memory : host_memory;
  kw_contextId : Z;
  kw_groupCount : Z;
  kw_termCount : Z;
  kw_hasPending : bool;
  kw_pendingTracked : bool;
  kw_pending : flagcxDeviceTrigger;
  kw_submit : flagcxNetSubmitContext;
  kw_result : flagcxResult_t
}.

Definition set_kw_state (k : flagcxKernelProxyState) (w : flagcxKernelWorkerState) : flagcxKernelWorkerState :=
  MkWorker k (kw_fifo w) (kw_memory w) (kw_contextId w) (kw_groupCount w) (kw_termCount w) (kw_hasPending w)
    (kw_pendingTracked w) (kw_pending w) (kw_submit w) (kw_result w).
Definition set_kw_fifo (f : flagcxFifo) (w : flagcxKernelWorkerState) : flagcxKernelWorkerState :=
  MkWorker (kw_state w) f (kw_memory w) (kw_contextId w) (kw_groupCount w) (kw_termCount w) (kw_hasPending w)
    (kw_pendingTracked w) (kw_pending w) (kw_submit w) (kw_result w).
Definition set_kw_memory (m : host_memory) (w : flagcxKernelWorkerState) : flagcxKernelWorkerState :=
  MkWorker (kw_state w) (kw_fifo w) m (kw_contextId w) (kw_groupCount w) (kw_termCount w) (kw_hasPending w)
    (kw_pendingTracked w) (kw_pending w) (kw_submit w) (kw_result w).
Definition set_kw_counts (groupCount termCount : Z) (w : flagcxKernelWorkerState) : flagcxKernelWorkerState :=
  MkWorker (kw_state w) (kw_fifo w) (kw_memory w) (kw_contextId w) groupCount termCount (kw_hasPending w)
    (kw_pendingTracked w) (kw_pending w) (kw_submit w) (kw_result w).
Definition set_kw_pending (hasPending pendingTracked : bool) (pending : flagcxDeviceTrigger) (submit : flagcxNetSubmitContext)
    (w : flagcxKernelWorkerState) : flagcxKernelWorkerState :=
  MkWorker (kw_state w) (kw_fifo w) (kw_memory w) (kw_contextId w) (kw_groupCount w) (kw_termCount w) hasPending
    pendingTracked pending submit (kw_result w).
Definition set_kw_result (r : flagcxResult_t) (w : flagcxKernelWorkerState) : flagcxKernelWorkerState :=
  MkWorker (kw_state w) (kw_fifo w) (kw_memory w) (kw_contextId w) (kw_groupCount w) (kw_termCount w) (kw_hasPending w)
    (kw_pendingTracked w) (kw_pending w) (kw_submit w) r.

Definition FLAGCX_KERNEL_PROXY_MAX_INFLIGHT : Z := 256.
Definition FLAGCX_KERNEL_PROXY_PUT_VALUE_SLOTS : Z := 32.

(** [flagcxKernelWorkerInit]: [prepared] is the result of the device's calls up
    to the stream, [triggerAllocated], [stateAllocated] and [allocated] say
    whether the trigger, the state and the transport's arrays are; [rma] has
    the generation and the error flag of the RMA proxy.  The worker's state is
    given where the result is [flagcxSuccess]. *)
Definition flagcxKernelWorkerInit (prepared : flagcxResult_t) (triggerAllocated stateAllocated allocated : bool)
    (fifoCapacity contextId : Z) (existingTerminal : flagcxResult_t) (rma : option (Z * bool)) (memory : host_memory) :
    option (flagcxResult_t * option flagcxKernelWorkerState) :=
  if failed prepared then Some (prepared, None)
  else if negb triggerAllocated || negb stateAllocated then Some (flagcxSystemError, None)
  else
    let generation := match rma with Some (g, _) => if negb (g =? 0) then g else 1 | None => 1 end in
    '(res, t) ← flagcxKernelProxyTransportInit (Some kernel_proxy_zero) FLAGCX_KERNEL_PROXY_MAX_INFLIGHT
      FLAGCX_KERNEL_PROXY_PUT_VALUE_SLOTS generation (contextId mod U64_MOD) allocated;
    if failed res then Some (res, None)
    else
      t ← t;
      let k := MkKernelProxyState t 0 existingTerminal existingTerminal (snd <$> rma) in
      Some (flagcxSuccess, Some (MkWorker k (flagcxFifoInit fifoCapacity) memory contextId 0 0 false false trigger_zero
        submit_context_zero flagcxSuccess)).

(** [flagcxKernelProxyStoreLocalTerminal] *)
Definition flagcxKernelProxyStoreLocalTerminal (result : flagcxResult_t) (k : flagcxKernelProxyState) : flagcxKernelProxyState :=
  if failed result && negb (bool_decide (result = flagcxInProgress))
  then MkKernelProxyState (ks_transport k) (ks_completed k) result (ks_terminal k) (ks_rmaError k) else k.

(** [(int)x] *)
Definition as_int (x : Z) : Z := let y := x mod U32_MOD in if y <? 2 ^ 31 then y else y - U32_MOD.

(** The item at hand, or the next one: the result and [*madeProgress]. *)
Definition next_item (w : flagcxKernelWorkerState) : option (flagcxResult_t * bool * flagcxKernelWorkerState) :=
  if kw_hasPending w then Some (flagcxSuccess, false, w)
  else
    '(res, trigger, f) ← dequeue (kw_fifo w);
    let w := set_kw_fifo f w in
    if failed res then Some (res, false, w)
    else Some (flagcxSuccess, true, set_kw_pending true false trigger (kw_submit w) w).

(** Its place in the order. *)
Definition track_item (w : flagcxKernelWorkerState) : option (flagcxResult_t * flagcxKernelWorkerState) :=
  if kw_pendingTracked w then Some (flagcxSuccess, w)
  else
    '(res, t, submit) ← flagcxKernelProxyTrackNext (Some (ks_transport (kw_state w)))
      (flagcxKernelProxySubmitFlags (kw_pending w)) (Some (kw_submit w));
    t ← t;
    submit ← submit;
    let w := set_kw_state (set_transport t (kw_state w)) w in
    Some (res, if failed res then w else set_kw_pending (kw_hasPending w) true (kw_pending w) submit w).

Section Worker.
Context {S : Type}.
Context (comm : flagcxHeteroComm).
Context (test : S -> Z -> flagcxResult_t * bool * S) (postFlush : S -> Z -> Z -> Z -> Z -> flagcxResult_t * Z * S).
Context (has_put has_get has_putSignal : bool).
Context (netCall : S -> flagcxNetSubmitContext -> net_call -> flagcxResult_t * Z * S).
(** [flagcxHeteroGroupStart], [flagcxHeteroGroupEnd], and [flagcxHeteroSend]
    or, with [true], [flagcxHeteroRecv] of an address, a count, a datatype and a
    peer. *)
Context (heteroGroupStart heteroGroupEnd : S -> flagcxResult_t * S).
Context (heteroSendRecv : S -> bool -> Z -> Z -> Z -> Z -> flagcxResult_t * S).

(** [flagcxKernelProxyPoll] returns at once without an adaptor to test. *)
Definition worker_poll (k : flagcxKernelProxyState) (s : S) : option (flagcxKernelProxyState * S) :=
  if hc_netAdaptor comm && hc_netTest comm then flagcxKernelProxyPoll test postFlush k s else Some (k, s).

(** What a case of the [switch] leaves: the result, whether a request is
    posted, whether the item is tried again. *)
Definition case_result : Type := flagcxResult_t * bool * bool * flagcxKernelWorkerState * S.

Definition done_case (r : flagcxResult_t) (w : flagcxKernelWorkerState) (s : S) : option case_result :=
  Some (r, false, false, w, s).

(** The posting of a one-sided operation, and its retry. *)
Definition post_case (ra : rma_args) (w : flagcxKernelWorkerState) (s : S) : option case_result :=
  '(res, posted, k, m, s) ← flagcxKernelProxyPost has_put has_get has_putSignal netCall (kw_state w) comm (kw_submit w)
    (kw_contextId w) ra (kw_memory w) s;
  Some (res, posted, bool_decide (res = flagcxInProgress), set_kw_memory m (set_kw_state k w), s).

(** A case that validates its peer first. *)
Definition peer_case (w : flagcxKernelWorkerState) (s : S) (next : Z -> option case_result) : option case_result :=
  let peerRank := getPeerRank (kw_pending w) in
  res ← flagcxKernelProxyValidatePeer comm peerRank (kw_contextId w + 1);
  if failed res then done_case res w s else next peerRank.

Definition send_case (recv : bool) (w : flagcxKernelWorkerState) (s : S) : option case_result :=
  let '(w, s) :=
    if kw_groupCount w =? 0
    then let '(_, s) := heteroGroupStart s in (set_kw_counts (kw_groupCount w + 1) (kw_termCount w) w, s)
    else (w, s) in
  let p := kw_pending w in
  let '(res, s) := heteroSendRecv s recv (getAddr p) (getCount p) (getDatatype p) (getPeerRank p) in
  done_case res w s.

Definition term_case (w : flagcxKernelWorkerState) (s : S) : option case_result :=
  let w := set_kw_counts (kw_groupCount w) (kw_termCount w + 1) w in
  if (0 <? kw_groupCount w) && (as_int (getTotalCoops (kw_pending w)) <=? kw_termCount w) then
    let '(res, s) := heteroGroupEnd s in
    done_case res (set_kw_counts (kw_groupCount w - 1) 0 w) s
  else done_case flagcxSuccess w s.

(** The counter of this context at [signalIdx]. *)
Definition counter_case (signalIdx signalValue : Z) (w : flagcxKernelWorkerState) (s : S) : option case_result :=
  match hc_devComm comm with
  | None => done_case flagcxInternalError w s
  | Some dc =>
    if negb (dc_hasCounterBuffer dc) then done_case flagcxInternalError w s
    else
      let contextCount := if 0 <? dc_contextCount dc then dc_contextCount dc else 1 in
      let totalCounterCount := (contextCount *u64 dc_counterCount dc)%word in
      if (dc_counterCount dc <=? 0) || (signalIdx <? 0) || (totalCounterCount <=? signalIdx)
      then done_case flagcxInvalidArgument w s
      else if negb (signalIdx / dc_counterCount dc =? kw_contextId w) then done_case flagcxInternalError w s
      else
        let counters := hm_counters (kw_memory w) in
        old ← arr_get counters signalIdx;
        counters ← arr_set counters signalIdx (old +u64 signalValue)%word;
        done_case flagcxSuccess (set_kw_memory (MkHostMemory (hm_staging (kw_memory w)) counters) w) s
  end.

Definition signal_case (w : flagcxKernelWorkerState) (s : S) : option case_result :=
  let p := kw_pending w in
  if getBufferType p =? 0 then
    peer_case w s (fun peerRank =>
      if hc_signalHandle comm =? NULL then done_case flagcxInternalError w s
      else post_case (MkRma peerRank FLAGCX_RMA_PUT_SIGNAL 0 0 0 (-1) (-1) (getSignalIdx p *u64 8)%word (getSignalValue p) 0) w s)
  else counter_case (getSignalIdx p) (getSignalValue p) w s.

(** The [switch] over the primitives. *)
Definition worker_execute (w : flagcxKernelWorkerState) (s : S) : option case_result :=
  let p := kw_pending w in
  let prim := getPrim p in
  if prim =? flagcxDevicePrimSend then send_case false w s
  else if prim =? flagcxDevicePrimRecv then send_case true w s
  else if prim =? flagcxDevicePrimTerm then term_case w s
  else if prim =? flagcxDevicePrimPut then
    peer_case w s (fun peerRank =>
      post_case (MkRma peerRank FLAGCX_RMA_PUT (getSrcOffset p) (getDstOffset p) (getSize p) (getSrcMrIdx p) (getDstMrIdx p)
        0 0 0) w s)
  else if (prim =? flagcxDevicePrimSignal) || (prim =? flagcxDevicePrimSignalValue) then signal_case w s
  else if prim =? flagcxDevicePrimPutSignal then
    peer_case w s (fun peerRank =>
      if hc_signalHandle comm =? NULL then done_case flagcxInternalError w s
      else post_case (MkRma peerRank FLAGCX_RMA_PUT_SIGNAL (getSrcOffset p) (getDstOffset p) (getSize p) (getSrcMrIdx p)
        (getDstMrIdx p) (getSignalIdx p *u64 8)%word (getSignalValue p) 0) w s)
  else if prim =? flagcxDevicePrimPutValue then
    peer_case w s (fun peerRank =>
      post_case (MkRma peerRank FLAGCX_RMA_PUT_VALUE 0 (getDstOffset p) 0 (-1) (getDstMrIdx p) 0 0 (getValue p)) w s)
  else if prim =? flagcxDevicePrimGet then
    peer_case w s (fun peerRank =>
      post_case (MkRma peerRank FLAGCX_RMA_GET (getSrcOffset p) (getDstOffset p) (getSize p) (getSrcMrIdx p) (getDstMrIdx p)
        0 0 0) w s)
  else done_case flagcxSuccess w s.

(** The end of an item: it is consumed, and complete unless it is posted. *)
Definition worker_retire (res : flagcxResult_t) (postedIB : bool) (w : flagcxKernelWorkerState) (s : S) :
    option (flagcxResult_t * bool * bool * flagcxKernelWorkerState * S) :=
  let w := set_kw_fifo (consume (kw_fifo w)) w in
  '(res, k) ← (
    if postedIB then Some (res, kw_state w)
    else
      '(completeResult, t, advanced) ←
        flagcxKernelProxyCompleteImmediate (Some (ks_transport (kw_state w))) (Some (kw_submit w)) res true;
      t ← t;
      let k := set_transport t (kw_state w) in
      let res := if failed completeResult then completeResult else res in
      let k := if failed res then flagcxKernelProxyPublishTerminal res k else k in
      Some (res, flagcxKernelProxyAdvanceCompleted (default 0 advanced) k));
  let w := set_kw_pending false false (kw_pending w) (kw_submit w) (set_kw_state k w) in
  if failed res
  then Some (res, true, false, set_kw_result res (set_kw_state (flagcxKernelProxyPublishTerminal res (kw_state w)) w), s)
  else Some (flagcxSuccess, true, false, w, s).

(** An item that is tracked: it waits for a release, or is executed. *)
Definition worker_item (madeProgress : bool) (w : flagcxKernelWorkerState) (s : S) :
    option (flagcxResult_t * bool * bool * flagcxKernelWorkerState * S) :=
  let release := negb (Z.land (sc_flags (kw_submit w)) FLAGCX_NET_SUBMIT_RELEASE =? 0) in
  let '(res, ready) :=
    if release then
      let '(res, out) := flagcxKernelProxyReleaseReady (Some (ks_transport (kw_state w))) (Some (kw_submit w)) true true in
      let '(ready, firstError) := default (false, flagcxSuccess) out in
      (if negb (failed res) && failed firstError then firstError else res, ready)
    else (flagcxSuccess, true) in
  if negb (failed res) && negb ready then Some (flagcxSuccess, madeProgress, false, w, s)
  else
    let w := if release && failed res then set_kw_state (flagcxKernelProxyPublishTerminal res (kw_state w)) w else w in
    '(res, postedIB, retryPending, w, s) ← (if failed res then done_case res w s else worker_execute w s);
    if retryPending : bool then Some (flagcxSuccess, madeProgress, false, w, s)
    else worker_retire res postedIB w s.

(** [flagcxKernelWorkerProgressOnce]: the result, [*madeProgress] and
    [*outstanding]. *)
Definition flagcxKernelWorkerProgressOnce (stopping stop : bool) (w : flagcxKernelWorkerState) (s : S) :
    option (flagcxResult_t * bool * bool * flagcxKernelWorkerState * S) :=
  if stopping || stop then
    let before := kp_nativeInflight (ks_transport (kw_state w)) in
    '(k, s) ← (if negb (before =? 0) then worker_poll (kw_state w) s else Some (kw_state w, s));
    let after := kp_nativeInflight (ks_transport k) in
    Some (flagcxSuccess, negb (before =? after), negb (after =? 0), set_kw_state k w, s)
  else
    '(k, s) ← worker_poll (kw_state w) s;
    let w := set_kw_state k w in
    let terminal := ks_terminal k in
    if failed terminal then
      Some (terminal, false, false,
        set_kw_result terminal (set_kw_state (flagcxKernelProxyStoreLocalTerminal terminal k) w), s)
    else
      '(res, madeProgress, w) ← next_item w;
      if bool_decide (res = flagcxInProgress) then Some (flagcxSuccess, madeProgress, false, w, s)
      else if failed res then
        Some (res, madeProgress, false, set_kw_result res (set_kw_state (flagcxKernelProxyPublishTerminal res (kw_state w)) w), s)
      else
        '(res, w) ← track_item w;
        if bool_decide (res = flagcxInProgress) then Some (flagcxSuccess, madeProgress, false, w, s)
        else if failed res then
          Some (res, madeProgress, false, set_kw_result res (set_kw_state (flagcxKernelProxyPublishTerminal res (kw_state w)) w), s)
        else worker_item madeProgress w s.

End Worker.
