(* ===== verification/KernelWorkerInv.v ===== *)
(** The worker of the kernel proxy keeps its invariant: no call of it is
    undefined, whatever the network and the groups answer, and its counters
    follow the order of the FIFO. *)
From S2P Require Import Prelude Flagcx Arrays NetTransport NetScoreboard KernelProxy KernelProxyInv KernelProxyProgress.
From S2P Require Import KernelProxyCalls KernelProxyPoll KernelTrigger KernelFifo KernelWorker.

(** ** The communicator *)

(** The connections of a handle: a row of [nRanks] peers for each context. *)
Definition rows_ok (nContexts nRanks : Z) (rows : list (option (list Z))) : Prop :=
  Z.of_nat (length rows) = nContexts /\ forall i row, rows !! i = Some (Some row) -> Z.of_nat (length row) = nRanks.

Record comm_ok (comm : flagcxHeteroComm) (m : host_memory) : Prop := {
  co_rank : 0 <= hc_rank comm < hc_nRanks comm;
  co_handles : hc_oneSideHandleCount comm <= Z.of_nat (length (hc_oneSideHandles comm));
  co_send : forall h rows, hc_oneSideHandles comm !! 0%nat = Some (Some h) -> oi_contextSendComms h = Some rows ->
    rows_ok (oi_nContexts h) (hc_nRanks comm) rows;
  co_recv : forall h rows, hc_oneSideHandles comm !! 0%nat = Some (Some h) -> oi_contextRecvComms h = Some rows ->
    rows_ok (oi_nContexts h) (hc_nRanks comm) rows;
  co_counters : forall dc, hc_devComm comm = Some dc -> dc_hasCounterBuffer dc = true -> 0 < dc_counterCount dc ->
    (Z.max 1 (dc_contextCount dc) * dc_counterCount dc) mod U64_MOD <= Z.of_nat (length (hm_counters m))
}.

(** The memory changes, but not the length of its arrays. *)
Definition same_memory (m m' : host_memory) : Prop := length (hm_counters m') = length (hm_counters m).

Lemma comm_ok_memory comm m m' : comm_ok comm m -> same_memory m m' -> comm_ok comm m'.
Proof. intros [] Hm. constructor; try done. intros dc Hd Hb Hc. unfold same_memory in Hm. rewrite Hm. eauto. Qed.

Lemma validate_total comm m peer ctx :
  comm_ok comm m -> 0 <= ctx ->
  exists r, flagcxKernelProxyValidatePeer comm peer ctx = Some r /\
    (r = flagcxSuccess -> 0 <= peer < hc_nRanks comm /\ 1 <= hc_oneSideHandleCount comm /\
      exists h rows row sendComm, arr_get (hc_oneSideHandles comm) 0 = Some (Some h) /\ oi_contextSendComms h = Some rows /\
        ctx < oi_nContexts h /\ arr_get rows ctx = Some (Some row) /\ arr_get row peer = Some sendComm /\ sendComm <> NULL).
Proof.
  intros [Hr Hh Hs Hrv _] Hctx. unfold flagcxKernelProxyValidatePeer.
  destruct (Z.ltb_spec 0 (hc_oneSideHandleCount comm)) as [Hn|Hn]; [|by exists flagcxNotSupported].
  destruct (slot_range_lookup (hc_oneSideHandles comm) 0) as (h0 & E0 & Hl0); [lia|]. rewrite E0. cbn [mbind option_bind].
  destruct h0 as [h|]; [|by exists flagcxNotSupported].
  destruct ((peer <? 0) || (hc_nRanks comm <=? peer)) eqn:Hp; [by exists flagcxInvalidArgument|]. bool_to_prop.
  destruct (oi_contextSendComms h) as [rows|] eqn:Er; [|by exists flagcxNotSupported].
  destruct (Hs h rows Hl0 Er) as [Hlen Hrow].
  destruct (Z.leb_spec (oi_nContexts h) ctx) as [|Hc]; [by exists flagcxNotSupported|].
  destruct (slot_range_lookup rows ctx) as (row & Erow & Hlrow); [lia|]. rewrite Erow. cbn [mbind option_bind].
  destruct row as [row|]; [|by exists flagcxNotSupported].
  destruct (slot_range_lookup row peer) as (sc & Esc & _); [rewrite (Hrow _ _ Hlrow); lia|]. rewrite Esc. cbn [mbind option_bind].
  eexists. split; [reflexivity|]. destruct (Z.eqb_spec sc NULL) as [|Hne]; [done|]. intros _. split; [lia|]. split; [lia|].
  by exists h, rows, row, sc.
Qed.

(** ** Frames *)

(** What posting leaves of the worker's state. *)
Definition same_order (k k' : flagcxKernelProxyState) : Prop :=
  kp_nextSequence (ks_transport k') = kp_nextSequence (ks_transport k) /\
  kp_stagingSlotCount (ks_transport k') = kp_stagingSlotCount (ks_transport k).

#[export] Instance same_order_preorder : PreOrder same_order.
Proof. split; [done|]. intros k1 k2 k3. unfold same_order. intuition congruence. Qed.

Lemma ks_inv_set k a t : ks_inv k a -> kp_inv t a -> staging_inv t -> ks_inv (set_transport t k) a.
Proof. intros [] I T. by constructor. Qed.

Lemma publish_transport r k : ks_transport (flagcxKernelProxyPublishTerminal r k) = ks_transport k.
Proof. unfold flagcxKernelProxyPublishTerminal. by destruct (_ || _). Qed.

(** ** A reserved slot *)

(** The request [q] at [i] is reserved for [c]; it alone has its staging slot,
    if it has one. *)
Record slot_reserved (k : flagcxKernelProxyState) (a : abs_board) (i : nat) (c : flagcxNetSubmitContext) (staging : Z)
    (q : flagcxKernelProxyRequest) : Prop := {
  sr_inv : ks_inv k a;
  sr_lookup : kp_requests (ks_transport k) !! i = Some q;
  sr_state : kr_state q = RESERVED;
  sr_submit : kr_submit q = c;
  sr_staging : kr_stagingSlot q = staging
}.

Lemma reserved_used k a i c staging q : slot_reserved k a i c staging q -> used (kp_requests (ks_transport k)) i q.
Proof. intros [_ Hi Hst _ _]. split; [done|congruence]. Qed.

(** The staging slot of a reservation goes back with it. *)
Lemma release_staging_inv k a slot :
  ks_inv k a -> (0 <= slot -> held_staging (ks_transport k) slot) ->
  exists k', release_staging slot k = Some (flagcxSuccess, k') /\ ks_inv k' a /\ same_order k k' /\
    kp_requests (ks_transport k') = kp_requests (ks_transport k).
Proof.
  intros K Hh. unfold release_staging. destruct (Z.leb_spec 0 slot) as [Hs|]; [|by exists k].
  destruct (release_inv (ks_transport k) a slot (ki_transport _ _ K) (ki_staging _ _ K) (Hh Hs)) as (u & Hrun & I & T & _).
  rewrite Hrun. cbn [mbind option_bind]. eexists. split; [reflexivity|]. split; [by apply ks_inv_set|]. done.
Qed.

Lemma cancel_request_inv k a i c staging q :
  slot_reserved k a i c staging q ->
  exists k', cancel_request (Z.of_nat i) k = Some (flagcxSuccess, k') /\ ks_inv k' a /\ same_order k k' /\
    unheld (ks_transport k') a c /\ (0 <= staging -> held_staging (ks_transport k') staging).
Proof.
  intros R. pose proof (reserved_used _ _ _ _ _ _ R) as Hu. destruct R as [K Hi Hst Hc Hs]. destruct K as [I T C E X].
  set (t := ks_transport k) in *. destruct (cancel_inv t a i q I Hi Hst) as (f & ds & Hrun & I' & Hf).
  set (t' := set_kp_requests _ _) in *. pose proof (lookup_lt_Some _ _ _ Hi) as Hlt.
  assert (Hback : forall j r, used (kp_requests t') j r -> j <> i /\ exists r0, used (kp_requests t) j r0 /\ holding r = holding r0).
  { intros j r [(_ & _ & Hr)|[Hne [Hj Hr]]]%used_insert; [by destruct Hr| |by rewrite length_fmap]. split; [done|].
    rewrite list_lookup_fmap in Hj. destruct (kp_requests t !! j) as [r0|] eqn:Ej; [|done]. cbn in Hj. injection Hj as <-.
    exists r0. destruct (Hf r0) as [x E0]. rewrite E0 in Hr |- *. done. }
  assert (T' : staging_inv t').
  { apply (staging_back t t'); try done. intros j r (_ & r0 & Hr & Eh)%Hback. exists r0. split; [done|]. by injection Eh. }
  exists (set_transport t' k). unfold cancel_request. fold t. rewrite Hrun. cbn [mbind option_bind].
  split; [reflexivity|]. split; [by constructor|]. split; [done|]. split; [split|].
  - rewrite <- Hc. by apply (kv_used _ _ I i q).
  - intros j r (Hne & r0 & Hr & Eh)%Hback. injection Eh as _ Eh _. rewrite Eh, <- Hc. intros Es. apply Hne.
    by apply (kv_submits _ _ I j i r0 q).
  - intros H0. destruct T as [_ _ Tu To]. destruct (Tu i q Hu) as (u & Eu & Ht & Hlt'); [lia|]. rewrite Hs in *.
    split; [done|]. split; [by exists u|]. intros j r (Hne & r0 & Hr & Eh)%Hback. injection Eh as _ _ Eh. rewrite Eh. intros Es.
    apply Hne. symmetry. apply (To i j q r0 Hu Hr); congruence.
Qed.

(** Giving the reservation back: what a refused post does. *)
Lemma give_back_inv k a i c staging q res :
  slot_reserved k a i c staging q ->
  exists k1 k2, cancel_request (Z.of_nat i) k = Some (flagcxSuccess, k1) /\ release_staging staging k1 = Some (flagcxSuccess, k2) /\
    let k' := if failed res && negb (bool_decide (res = flagcxInProgress)) then flagcxKernelProxyPublishTerminal res k2 else k2 in
    ks_inv k2 a /\ ks_inv k' a /\ same_order k k2 /\ same_order k k' /\
    unheld (ks_transport k2) a c /\ unheld (ks_transport k') a c.
Proof.
  intros R. destruct (cancel_request_inv _ _ _ _ _ _ R) as (k1 & H1 & K1 & S1 & U1 & Hh).
  destruct (release_staging_inv k1 a staging K1 Hh) as (k2 & H2 & K2 & S2 & Er). exists k1, k2. split; [done|]. split; [done|].
  assert (U2 : unheld (ks_transport k2) a c) by (unfold unheld in *; by rewrite Er).
  assert (S12 : same_order k k2) by (by etransitivity).
  destruct (failed res && _); [|done]. unfold same_order. rewrite publish_transport. split; [done|].
  split; [by apply ks_inv_publish|]. done.
Qed.

(** *** Publishing *)

Lemma publish_slot_staging t i q q' n :
  staging_inv t -> kp_requests t !! i = Some q -> kr_state q <> FREE -> kr_stagingSlot q' = kr_stagingSlot q ->
  staging_inv (set_kp_nativeInflight n (set_kp_requests (<[i := q']> (kp_requests t)) t)).
Proof.
  intros T Hi Hst Es. eapply (staging_back t); try done. intros j r [(-> & -> & _)|[_ Hr]]%used_insert.
  - exists q. split; [by split|done].
  - by exists r.
  - by eapply lookup_lt_Some.
Qed.

Lemma post_finish_inv k a i c staging q requiresGetFlush res request :
  slot_reserved k a i c staging q -> kr_requiresGetFlush q = requiresGetFlush ->
  exists r posted k', post_finish (Z.of_nat i) staging requiresGetFlush res request k = Some (r, posted, k') /\
    ks_inv k' a /\ same_order k k' /\ if posted : bool then r = flagcxSuccess else unheld (ks_transport k') a c.
Proof.
  intros R Hrq. pose proof (reserved_used _ _ _ _ _ _ R) as [_ Hne]. pose proof R as [K Hi Hst Hc Hs]. destruct K as [I T C E X] eqn:EK.
  set (t := ks_transport k) in *. unfold post_finish. fold t.
  destruct (Z.eqb_spec request NULL) as [Hr|Hr]; cbn [negb].
  - destruct (negb (failed res) && requiresGetFlush) eqn:Hf.
    + apply andb_true_iff in Hf as [_ Hf]. rewrite Hf in Hrq.
      destruct (publish_pending_inv t a i q I Hi Hst Hrq) as [Hrun I']. rewrite Hrun. cbn [mbind option_bind].
      change (failed flagcxSuccess) with false. cbn match. eexists _, _, _. split; [reflexivity|].
      split; [apply ks_inv_set; [done|done|by eapply publish_slot_staging]|]. done.
    + destruct (give_back_inv k a i c staging q res R) as (k1 & k2 & H1 & H2 & _ & K' & _ & S' & _ & U').
      rewrite H1. cbn [mbind option_bind]. change (failed flagcxSuccess) with false. cbn match. rewrite H2. cbn [mbind option_bind].
      change (failed flagcxSuccess) with false. cbn match. eexists _, _, _. split; [reflexivity|]. done.
  - set (cr := if bool_decide (res = flagcxInProgress) then flagcxSuccess else res).
    destruct (publish_request_inv t a i q request cr I Hi Hst Hr) as [Hrun I']. rewrite Hrun. cbn [mbind option_bind].
    change (failed flagcxSuccess) with false. cbn match. eexists _, _, _. split; [reflexivity|].
    match goal with |- context [set_transport ?t1 k] => assert (K' : ks_inv (set_transport t1 k) a) end.
    { apply ks_inv_set; [done|done|by eapply publish_slot_staging]. }
    destruct (failed cr); [|done]. split; [by apply ks_inv_publish|]. split; [|done]. unfold same_order. rewrite publish_transport. done.
Qed.

(** *** Reserving *)

Lemma reserve_staging t i c peer staging :
  staging_inv t -> kp_requests t !! i = Some flagcxKernelProxyRequestReset -> (0 <= staging -> held_staging t staging) ->
  staging_inv (set_kp_requests (<[i := reserve_request c peer staging flagcxKernelProxyRequestReset]> (kp_requests t)) t).
Proof.
  intros [[Hc1 Hc2] Hl Hu Ho] Hi Hh. pose proof (lookup_lt_Some _ _ _ Hi) as Hlt.
  assert (Hback : forall j r, used (<[i := reserve_request c peer staging flagcxKernelProxyRequestReset]> (kp_requests t)) j r ->
    (j = i /\ kr_stagingSlot r = staging) \/ (j <> i /\ used (kp_requests t) j r)).
  { intros j r [(-> & -> & _)|?]%used_insert; auto. }
  constructor; cbn [kp_stagingSlotCount kp_stagingCursor kp_stagingInUse kp_requests set_kp_requests]; try done.
  - intros j r [[-> ->]|[_ Hr]]%Hback H0; [|by apply (Hu j)]. destruct (Hh H0) as (Hs & (u & Eu & Ht) & _). exists u. split; [done|]. split; [done|lia].
  - intros a b q r [[-> Eq]|[Ha Hq]]%Hback [[-> Er]|[Hb Hr]]%Hback H0 Es; [done| | |by apply (Ho a b q r)].
    + exfalso. destruct (Hh ltac:(lia)) as (_ & _ & Hn). by apply (Hn b r Hr); lia.
    + exfalso. destruct (Hh ltac:(lia)) as (_ & _ & Hn). by apply (Hn a q Hq); lia.
Qed.

Lemma reserve_step k a c peer staging :
  ks_inv k a -> unheld (ks_transport k) a c -> 0 <= peer -> (0 <= staging -> held_staging (ks_transport k) staging) ->
  exists r t slot, flagcxKernelProxyReserveRequest (Some (ks_transport k)) (Some c) peer staging true = (r, Some t, slot) /\
    if failed r then t = ks_transport k
    else same_order k (set_transport t k) /\ exists i q, slot = Some (Z.of_nat i) /\ slot_reserved (set_transport t k) a i c staging q /\
      kr_getSequence q = 0 /\ kr_requiresGetFlush q = false.
Proof.
  intros K Hun Hp Hh. destruct K as [I T C E X] eqn:EK.
  destruct (reserve_inv (ks_transport k) a c peer staging I Hun Hp) as (r & t & slot & Hrun & I' & _ & Hcase).
  exists r, t, slot. split; [done|]. destruct Hcase as [(-> & i & -> & Hlt & ->)|(-> & -> & _)]; [|done].
  change (failed flagcxSuccess) with false. cbn match. split; [done|].
  exists i, (reserve_request c peer staging flagcxKernelProxyRequestReset). split; [done|]. split; [|done].
  assert (Hfree : kp_requests (ks_transport k) !! i = Some flagcxKernelProxyRequestReset).
  { unfold flagcxKernelProxyReserveRequest in Hrun. rewrite (proj2 (Z.ltb_ge peer 0)) in Hrun by done. cbn [negb orb] in Hrun.
    destruct (first_index _ 0 _) as [j|] eqn:Ej; [|done]. injection Hrun as Ht Hj. apply Nat2Z.inj in Hj as ->.
    apply first_index_0 in Ej as (x & Hx & Hs%request_is_spec). by rewrite <- (kv_free _ _ I i x Hx Hs). }
  constructor; try done; [|by cbn; rewrite list_lookup_insert_eq].
  apply ks_inv_set; [done|done|by apply reserve_staging].
Qed.

(** ** Posting *)

Section Post.
Context {S : Type} (has_put has_get has_putSignal : bool).
Context (netCall : S -> flagcxNetSubmitContext -> net_call -> flagcxResult_t * Z * S).

(** Indices of registrations, [-1] for none, and their bound. *)
Definition index_ok (comm : flagcxHeteroComm) (i : Z) : Prop := i < hc_oneSideHandleCount comm.

Lemma handle_lookup comm m i : comm_ok comm m -> 0 <= i -> index_ok comm i -> exists h, arr_get (hc_oneSideHandles comm) i = Some h.
Proof.
  intros [_ Hh _ _ _] H0 Hi. unfold index_ok in Hi. destruct (slot_range_lookup (hc_oneSideHandles comm) i) as (h & Hl & _); [lia|]. by exists h.
Qed.

Lemma requires_total comm m i : comm_ok comm m -> exists b, flagcxOneSideGetCompletionRequiresFlush comm i = Some b.
Proof.
  intros C. unfold flagcxOneSideGetCompletionRequiresFlush. destruct ((i <? 0) || _) eqn:Hi; [by eexists|]. bool_to_prop.
  destruct (handle_lookup comm m i C) as (h & ->); [lia|unfold index_ok; lia|]. by eexists.
Qed.

Lemma post_native_total comm k submit ctx sendComm staging src dst ra m s :
  comm_ok comm m ->
  exists r q m' s', post_native has_put has_get has_putSignal netCall comm k submit ctx sendComm staging src dst ra m s =
    Some (r, q, m', s') /\ same_memory m m'.
Proof.
  intros C. unfold post_native. destruct (ra_type ra).
  - destruct (call_net _ _ _ _ _) as [[r q] s']. by exists r, q, m, s'.
  - destruct (call_net _ _ _ _ _) as [[r q] s']. by exists r, q, m, s'.
  - destruct (call_net _ _ _ _ _) as [[r q] s']. by exists r, q, m, s'.
  - destruct (hc_stagingHandle comm) as [[stagingH [|]]|]; [|by eexists _, _, m, s..].
    destruct (hc_devComm comm) as [dc|]; [|by eexists _, _, m, s].
    destruct (_ || _ || _); [by eexists _, _, m, s|]. destruct ((ra_dstMrIdx ra <? 0) || _) eqn:Hi; [by eexists _, _, m, s|].
    destruct (negb has_put); [by eexists _, _, m, s|]. destruct (flagcxKernelPutValueStagingOffset _ _ _) as [off|]; [|by eexists _, _, m, s].
    bool_to_prop. destruct (handle_lookup comm m (ra_dstMrIdx ra) C) as (h & ->); [lia|unfold index_ok; lia|]. cbn [mbind option_bind].
    destruct (call_net _ _ _ _ _) as [[r q] s']. eexists r, q, _, s'. split; [reflexivity|done].
Qed.

(** The communicator a flush needs. *)
Lemma flush_comm_total comm m h0 ctx :
  comm_ok comm m -> hc_oneSideHandles comm !! 0%nat = Some (Some h0) -> 0 <= ctx ->
  exists recvComm, match oi_contextRecvComms h0 with
    | Some recvComms => if ctx <? oi_nContexts h0 then
        row ← arr_get recvComms ctx; match row with Some row => arr_get row (hc_rank comm) | None => Some NULL end
      else Some NULL
    | None => Some NULL
    end = Some recvComm.
Proof.
  intros [Hr _ _ Hrv _] H0 Hc. destruct (oi_contextRecvComms h0) as [rows|] eqn:Er; [|by eexists].
  destruct (Z.ltb_spec ctx (oi_nContexts h0)); [|by eexists]. destruct (Hrv h0 rows H0 Er) as [Hlen Hrow].
  destruct (slot_range_lookup rows ctx) as (row & -> & Hl); [lia|]. cbn [mbind option_bind]. destruct row as [row|]; [|by eexists].
  destruct (slot_range_lookup row (hc_rank comm)) as (x & -> & _); [rewrite (Hrow _ _ Hl); lia|]. by eexists.
Qed.

Lemma post_reserved_inv comm k a i c staging q ctx h0 sendComm src dst ra m s :
  slot_reserved k a i c staging q -> kr_getSequence q = 0 -> kr_requiresGetFlush q = false ->
  comm_ok comm m -> hc_oneSideHandles comm !! 0%nat = Some (Some h0) -> 0 <= ctx ->
  exists r posted k' m' s',
    post_reserved has_put has_get has_putSignal netCall comm c ctx (Z.of_nat i) h0 sendComm staging src dst ra k m s =
      Some (r, posted, k', m', s') /\
    ks_inv k' a /\ same_order k k' /\ same_memory m m' /\ if posted : bool then r = flagcxSuccess else unheld (ks_transport k') a c.
Proof.
  intros R Hz Hnf Co Hh0 Hctx. unfold post_reserved.
  destruct (requires_total comm m (ra_dstMrIdx ra) Co) as (needs & ->). cbn [mbind option_bind].
  set (b := _ && _ && needs).
  assert (Hcfg : exists r k1 q1, (if b then
      flushRecvComm ← match oi_contextRecvComms h0 with
        | Some recvComms => if ctx + 1 <? oi_nContexts h0 then
            row ← arr_get recvComms (ctx + 1); match row with Some row => arr_get row (hc_rank comm) | None => Some NULL end
          else Some NULL
        | None => Some NULL
        end;
      '(r, t) ← flagcxKernelProxyRequireGetFlush (Some (ks_transport k)) (Z.of_nat i) (ra_dstMrIdx ra) (ra_dstOff ra) (ra_size ra) flushRecvComm;
      t ← t;
      Some (r, set_transport t k)
    else Some (flagcxSuccess, k)) = Some (r, k1) /\ slot_reserved k1 a i c staging q1 /\ same_order k k1 /\
    (failed r = false -> kr_requiresGetFlush q1 = b)).
  { destruct b; [|by exists flagcxSuccess, k, q].
    destruct (flush_comm_total comm m h0 (ctx + 1) Co Hh0) as (rc & ->); [lia|]. cbn [mbind option_bind].
    destruct R as [K Hi Hst Hc Hs].
    destruct (require_inv (ks_transport k) a i q (ra_dstMrIdx ra) (ra_dstOff ra) (ra_size ra) rc (ki_transport _ _ K) Hi Hst Hz)
      as (r & t & Hrun & It & Hh & Hreq). rewrite Hrun. cbn [mbind option_bind].
    destruct (lookup_lt_is_Some_2 (kp_requests t) i) as [q1 Hq1].
    { rewrite (same_holding_length _ _ Hh). by eapply lookup_lt_Some. }
    destruct (same_holding_lookup _ _ _ _ Hh Hq1) as (q0 & Hq0 & Eh). assert (q0 = q) as -> by congruence. injection Eh as E1 E2 E3.
    exists r, (set_transport t k), q1. split; [done|]. split; [|split; [|by intros Hf; apply (Hreq Hf q1)]].
    - constructor; try congruence; [|done]. by apply ks_inv_transport.
    - destruct Hh as ((_ & _ & _ & F1 & _ & F2 & _) & _). done. }
  destruct Hcfg as (r & k1 & q1 & -> & R1 & S1 & Hb). cbn [mbind option_bind]. destruct (failed r) eqn:Hf.
  - destruct (give_back_inv k1 a i c staging q1 r R1) as (k2 & k3 & H1 & H2 & K3 & _ & S3 & _ & U3 & _).
    rewrite H1. cbn [mbind option_bind]. rewrite H2. cbn [mbind option_bind]. eexists _, false, k3, m, s. split; [reflexivity|].
    split; [done|]. split; [by etransitivity|]. done.
  - destruct (post_native_total comm k1 c ctx sendComm staging src dst ra m s Co) as (res & request & m' & s' & -> & Hm). cbn [mbind option_bind].
    destruct (post_finish_inv k1 a i c staging q1 b res request R1 (Hb eq_refl)) as (r2 & posted & k2 & -> & K2 & S2 & Hp).
    cbn [mbind option_bind]. exists r2, posted, k2, m', s'. split; [done|]. split; [done|]. split; [by etransitivity|]. done.
Qed.

Lemma acquire_step k a (is_value : bool) :
  ks_inv k a ->
  exists r t slot, (if is_value then flagcxKernelProxyAcquireStagingSlot (Some (ks_transport k)) true
    else Some (flagcxSuccess, Some (ks_transport k), None)) = Some (r, Some t, slot) /\
    ks_inv (set_transport t k) a /\ same_order k (set_transport t k) /\ kp_requests t = kp_requests (ks_transport k) /\
    (failed r = false -> 0 <= default (-1) slot -> held_staging t (default (-1) slot)).
Proof.
  intros K. destruct is_value.
  - destruct (acquire_inv _ _ (ki_transport _ _ K) (ki_staging _ _ K)) as (r & t & slot & Hrun & I & T & Er & Hb & _ & _ & Hr).
    exists r, t, slot. split; [done|]. split; [by apply ks_inv_set|].
    split; [by destruct Hb as (_ & _ & _ & ? & _ & ? & _)|]. split; [done|]. destruct r; try done.
    by destruct Hr as (c & -> & Hc).
  - exists flagcxSuccess, (ks_transport k), None. split; [done|]. split; [by destruct k|]. split; [done|]. split; [done|]. by intros.
Qed.

Lemma post_inv comm k a c ctx ra m s :
  ks_inv k a -> unheld (ks_transport k) a c -> comm_ok comm m -> 0 <= ctx ->
  flagcxKernelProxyValidatePeer comm (ra_peer ra) (ctx + 1) = Some flagcxSuccess ->
  exists r posted k' m' s', flagcxKernelProxyPost has_put has_get has_putSignal netCall k comm c ctx ra m s =
      Some (r, posted, k', m', s') /\
    ks_inv k' a /\ same_order k k' /\ same_memory m m' /\ if posted : bool then r = flagcxSuccess else unheld (ks_transport k') a c.
Proof.
  intros K U Co Hctx Hv. destruct (validate_total comm m (ra_peer ra) (ctx + 1) Co) as (r0 & Er0 & Hok); [lia|].
  assert (r0 = flagcxSuccess) as -> by congruence.
  destruct (Hok eq_refl) as (Hp & Hn & h & rows & row & sendComm & Eh & Erows & Hc & Erow & Esc & Hsc). clear Hok Er0.
  assert (Hrefuse : forall r, exists r' posted k' m' s', Some (r, false, k, m, s) = Some (r', posted, k', m', s') /\
    ks_inv k' a /\ same_order k k' /\ same_memory m m' /\ if posted : bool then r' = flagcxSuccess else unheld (ks_transport k') a c).
  { intros r. by exists r, false, k, m, s. }
  unfold flagcxKernelProxyPost. destruct (negb _ || negb _); [apply Hrefuse|].
  rewrite (proj2 (Z.ltb_ge (hc_oneSideHandleCount comm) 1)) by lia. rewrite Eh. cbn [mbind option_bind].
  destruct (_ && (_ <=? ra_dstMrIdx ra)) eqn:Hd; [apply Hrefuse|]. destruct (_ && (_ <=? ra_srcMrIdx ra)) eqn:Hs; [apply Hrefuse|].
  rewrite Erows, (proj2 (Z.leb_gt (oi_nContexts h) (ctx + 1))) by lia. rewrite Erow. cbn [mbind option_bind].
  rewrite Esc. cbn [mbind option_bind]. rewrite (proj2 (Z.eqb_neq sendComm NULL)) by done.
  match goal with |- context [mbind _ (if ?b then _ else _)] => assert (Hh : exists src dst, (if b then
      src ← arr_get (hc_oneSideHandles comm) (ra_srcMrIdx ra); dst ← arr_get (hc_oneSideHandles comm) (ra_dstMrIdx ra);
      Some (handle_address src, handle_address dst) else Some (NULL, NULL)) = Some (src, dst)) end.
  { destruct (_ && _ && _) eqn:Hb; [|by eexists _, _]. bool_to_prop. clear Hrefuse.
    destruct (handle_lookup comm m (ra_srcMrIdx ra) Co) as (x & ->); [lia|unfold index_ok; lia|].
    destruct (handle_lookup comm m (ra_dstMrIdx ra) Co) as (y & ->); [lia|unfold index_ok; lia|]. by eexists _, _. }
  destruct Hh as (src & dst & ->). cbn [mbind option_bind]. destruct (_ && (_ || _)); [apply Hrefuse|].
  destruct (acquire_step k a (bool_decide (ra_type ra = FLAGCX_RMA_PUT_VALUE)) K) as (r1 & t1 & staging & -> & K1 & S1 & Er1 & Hst).
  cbn [mbind option_bind]. destruct (failed r1) eqn:Hf1.
  { eexists r1, false, _, m, s. split; [reflexivity|]. split; [done|]. split; [done|]. split; [done|].
    unfold unheld in *. cbn. by rewrite Er1. }
  specialize (Hst eq_refl). set (slot := default (-1) staging) in *.
  assert (U1 : unheld (ks_transport (set_transport t1 k)) a c) by (unfold unheld in *; cbn; by rewrite Er1).
  destruct (reserve_step (set_transport t1 k) a c (ra_peer ra) slot K1 U1 ltac:(lia) Hst) as (r2 & t2 & i & Hrun & Hcase).
  rewrite Hrun. cbn [mbind option_bind]. destruct (failed r2) eqn:Hf2.
  - subst t2. change (set_transport (ks_transport (set_transport t1 k)) (set_transport t1 k)) with (set_transport t1 k).
    destruct (release_staging_inv (set_transport t1 k) a slot K1 Hst) as (k3 & H3 & K3 & S3 & Er3).
    rewrite H3. cbn [mbind option_bind]. exists r2, false, k3, m, s. split; [done|]. split; [done|]. split; [by etransitivity|]. split; [done|].
    unfold unheld in *. by rewrite Er3.
  - destruct Hcase as (S2 & j & q & -> & R & Hz & Hnf). cbn [mbind option_bind].
    destruct (post_reserved_inv comm _ a j c slot q ctx h sendComm src dst ra m s R Hz Hnf Co) as (r & posted & k' & m' & s' & Hrun' & K' & S' & Hm & Hp');
      [by rewrite <- (arr_get_nat _ 0)|done|]. exists r, posted, k', m', s'. split; [exact Hrun'|]. split; [done|].
    split; [|done]. etransitivity; [exact S1|]. by etransitivity.
Qed.

End Post.
