(* ===== verification/KernelWorkerOrder.v ===== *)
(** The order in which the worker of the kernel proxy runs the items of its FIFO:
    a round is never undefined, the counters that device code waits on count
    the items that are complete, and a signal waits for everything before it. *)
From S2P Require Import Prelude Flagcx Arrays NetTransport NetScoreboard KernelProxy KernelProxyInv KernelProxyProgress.
From S2P Require Import KernelProxyCalls KernelProxyPoll KernelTrigger KernelFifo KernelWorker KernelWorkerInv.

(** ** Invariant *)

Definition tracked_count (w : flagcxKernelWorkerState) : Z := if kw_pendingTracked w then 1 else 0.

(** Items are numbered from 1 in the order they are taken: [consumed] counts
    those that are retired, the next sequence that of the item at hand. *)
Record worker_inv (comm : flagcxHeteroComm) (w : flagcxKernelWorkerState) (a : abs_board) : Prop := {
  wi_state : ks_inv (kw_state w) a;
  wi_comm : comm_ok comm (kw_memory w);
  wi_context : 0 <= kw_contextId w;
  wi_fifo : 0 < ff_capacity (kw_fifo w) /\ Z.of_nat (length (ff_slots (kw_fifo w))) = ff_capacity (kw_fifo w);
  wi_consumed : 0 <= ff_consumed (kw_fifo w) /\
    kp_nextSequence (ks_transport (kw_state w)) = ff_consumed (kw_fifo w) + 1 + tracked_count w;
  wi_tracked : kw_pendingTracked w = true -> kw_hasPending w = true /\
    unheld (ks_transport (kw_state w)) a (kw_submit w) /\
    sc_sequence (kw_submit w) = kp_nextSequence (ks_transport (kw_state w)) - 1 /\
    sc_flags (kw_submit w) = flagcxKernelProxySubmitFlags (kw_pending w)
}.

(** The words of the item at hand and of the FIFO. *)
Definition same_item (w w' : flagcxKernelWorkerState) : Prop :=
  kw_fifo w' = kw_fifo w /\ kw_contextId w' = kw_contextId w /\ kw_hasPending w' = kw_hasPending w /\
  kw_pendingTracked w' = kw_pendingTracked w /\ kw_pending w' = kw_pending w /\ kw_submit w' = kw_submit w.

#[export] Instance same_item_preorder : PreOrder same_item.
Proof. split; [done|]. intros w1 w2 w3. unfold same_item. intuition congruence. Qed.

(** A step that keeps the order of the items keeps the invariant, if the item at
    hand still waits. *)
Lemma worker_inv_keep comm w w' a a' :
  worker_inv comm w a -> same_item w w' -> ks_inv (kw_state w') a' -> same_memory (kw_memory w) (kw_memory w') ->
  kp_nextSequence (ks_transport (kw_state w')) = kp_nextSequence (ks_transport (kw_state w)) ->
  (kw_pendingTracked w = true -> unheld (ks_transport (kw_state w')) a' (kw_submit w)) ->
  worker_inv comm w' a'.
Proof.
  intros [K C X F N T] (E1 & E2 & E3 & E4 & E5 & E6) K' M Hn U. unfold tracked_count in *.
  constructor; unfold tracked_count; rewrite ?E1, ?E2, ?E3, ?E4, ?E5, ?E6, ?Hn; try done; [by eapply comm_ok_memory|].
  intros Ht. destruct (T Ht) as (? & ? & ? & ?). auto.
Qed.

Lemma worker_inv_publish comm w a r : worker_inv comm w a -> worker_inv comm (set_kw_state (flagcxKernelProxyPublishTerminal r (kw_state w)) w) a.
Proof.
  intros I. eapply worker_inv_keep; try done.
  - apply ks_inv_publish, I.
  - cbn. by rewrite publish_transport.
  - intros Ht. cbn. rewrite publish_transport. apply (wi_tracked _ _ _ I Ht).
Qed.

Lemma local_terminal r k : ks_transport (flagcxKernelProxyStoreLocalTerminal r k) = ks_transport k /\
  forall a, ks_inv k a -> ks_inv (flagcxKernelProxyStoreLocalTerminal r k) a.
Proof.
  unfold flagcxKernelProxyStoreLocalTerminal. destruct (failed r) eqn:Hr; cbn [andb]; [|done]. case_bool_decide; [done|].
  split; [done|]. intros a []. by constructor.
Qed.

Lemma worker_inv_result comm w a r : worker_inv comm w a -> worker_inv comm (set_kw_result r w) a.
Proof. intros I. by eapply worker_inv_keep; try apply I. Qed.

Section Order.
Context {S : Type}.
Context (comm : flagcxHeteroComm).
Context (test : S -> Z -> flagcxResult_t * bool * S) (postFlush : S -> Z -> Z -> Z -> Z -> flagcxResult_t * Z * S).
Context (has_put has_get has_putSignal : bool).
Context (netCall : S -> flagcxNetSubmitContext -> net_call -> flagcxResult_t * Z * S).
Context (heteroGroupStart heteroGroupEnd : S -> flagcxResult_t * S).
Context (heteroSendRecv : S -> bool -> Z -> Z -> Z -> Z -> flagcxResult_t * S).

Abbreviation execute_item := (worker_execute comm has_put has_get has_putSignal netCall heteroGroupStart heteroGroupEnd heteroSendRecv).
Abbreviation item := (worker_item comm has_put has_get has_putSignal netCall heteroGroupStart heteroGroupEnd heteroSendRecv).
Abbreviation once := (flagcxKernelWorkerProgressOnce comm test postFlush has_put has_get has_putSignal netCall
  heteroGroupStart heteroGroupEnd heteroSendRecv).

(** ** Executing an item *)

(** What a case leaves: the item waits unless it is posted. *)
Definition executed (w : flagcxKernelWorkerState) (a : abs_board) (out : option (case_result (S:=S))) : Prop :=
  exists res posted retry w' s', out = Some (res, posted, retry, w', s') /\ same_item w w' /\
    same_memory (kw_memory w) (kw_memory w') /\ ks_inv (kw_state w') a /\ same_order (kw_state w) (kw_state w') /\
    (posted = true -> res = flagcxSuccess /\ retry = false) /\
    (posted = false -> unheld (ks_transport (kw_state w')) a (kw_submit w)).

Lemma executed_done w w' a r s :
  same_item w w' -> same_memory (kw_memory w) (kw_memory w') -> kw_state w' = kw_state w ->
  ks_inv (kw_state w) a -> unheld (ks_transport (kw_state w)) a (kw_submit w) -> executed w a (done_case r w' s).
Proof.
  intros Hi Hm Es K U. exists r, false, false, w', s. split; [done|]. rewrite Es. do 4 (split; [done|]). split; [done|]. by intros _.
Qed.

Section Item.
Context (w : flagcxKernelWorkerState) (a : abs_board).
Hypothesis K : ks_inv (kw_state w) a.
Hypothesis C : comm_ok comm (kw_memory w).
Hypothesis X : 0 <= kw_contextId w.
Hypothesis U : unheld (ks_transport (kw_state w)) a (kw_submit w).

Lemma peer_case_ok s next :
  (forall peer, flagcxKernelProxyValidatePeer comm peer (kw_contextId w + 1) = Some flagcxSuccess -> executed w a (next peer)) ->
  executed w a (peer_case comm w s next).
Proof.
  intros Hnext. unfold peer_case. destruct (validate_total comm _ (getPeerRank (kw_pending w)) (kw_contextId w + 1) C) as (r & E & _); [lia|].
  rewrite E. cbn [mbind option_bind]. destruct (failed r) eqn:Hr; [by apply executed_done|].
  apply Hnext. rewrite E. f_equal. by apply failed_success.
Qed.

Lemma post_case_ok ra s :
  flagcxKernelProxyValidatePeer comm (ra_peer ra) (kw_contextId w + 1) = Some flagcxSuccess ->
  executed w a (post_case comm has_put has_get has_putSignal netCall ra w s).
Proof.
  intros Hv. unfold post_case. destruct (post_inv has_put has_get has_putSignal netCall comm (kw_state w) a (kw_submit w)
    (kw_contextId w) ra (kw_memory w) s K U C X Hv) as (r & posted & k' & m' & s' & -> & K' & S' & M' & P').
  cbn [mbind option_bind]. eexists r, posted, _, _, s'. split; [reflexivity|]. split; [done|]. split; [done|]. split; [done|].
  split; [done|]. destruct posted; [|done]. split; [|done]. by subst r.
Qed.

Lemma counter_case_ok i v s : executed w a (counter_case comm i v w s).
Proof.
  unfold counter_case. destruct (hc_devComm comm) as [dc|] eqn:Ed; [|by apply executed_done].
  destruct (dc_hasCounterBuffer dc) eqn:Hb; cbn [negb]; [|by apply executed_done].
  destruct (_ || _ || _) eqn:Hi; [by apply executed_done|]. destruct (negb (_ =? kw_contextId w)); [by apply executed_done|].
  bool_to_prop. pose proof (co_counters _ _ C dc Ed Hb ltac:(lia)) as Hl.
  assert (Hn : (if 0 <? dc_contextCount dc then dc_contextCount dc else 1) = Z.max 1 (dc_contextCount dc)).
  { destruct (Z.ltb_spec 0 (dc_contextCount dc)); lia. }
  rewrite Hn in *. destruct (slot_range_lookup (hm_counters (kw_memory w)) i) as (x & -> & _); [lia|]. cbn [mbind option_bind].
  rewrite arr_set_slot by lia. cbn [mbind option_bind]. apply executed_done; try done.
  unfold same_memory. cbn. by rewrite length_insert.
Qed.

Lemma send_case_ok recv s : executed w a (send_case heteroGroupStart heteroSendRecv recv w s).
Proof.
  unfold send_case. destruct (kw_groupCount w =? 0); [destruct (heteroGroupStart s) as [r1 s1]|];
    destruct (heteroSendRecv _ _ _ _ _ _) as [r s']; by apply executed_done.
Qed.

Lemma put_signal_ok s (ra : Z -> rma_args) :
  (forall peer, ra_peer (ra peer) = peer) ->
  executed w a (peer_case comm w s (fun peer => if hc_signalHandle comm =? NULL then done_case flagcxInternalError w s
    else post_case comm has_put has_get has_putSignal netCall (ra peer) w s)).
Proof.
  intros Hp. apply peer_case_ok. intros peer Hv. case_match; [by apply executed_done|]. apply post_case_ok. by rewrite Hp.
Qed.

Lemma execute_command_ok s : executed w a (execute_item w s).
Proof.
  unfold worker_execute. cbn zeta.
  destruct (_ =? flagcxDevicePrimSend); [apply send_case_ok|].
  destruct (_ =? flagcxDevicePrimRecv); [apply send_case_ok|].
  destruct (_ =? flagcxDevicePrimTerm).
  { unfold term_case. cbn. destruct (_ && _); [destruct (heteroGroupEnd s) as [r s']|]; by apply executed_done. }
  destruct (_ =? flagcxDevicePrimPut); [apply peer_case_ok; intros peer Hv; by apply post_case_ok|].
  destruct (_ || _); [|destruct (_ =? flagcxDevicePrimPutSignal); [|destruct (_ =? flagcxDevicePrimPutValue);
    [|destruct (_ =? flagcxDevicePrimGet)]]].
  - unfold signal_case. destruct (getBufferType _ =? 0); [by apply put_signal_ok|apply counter_case_ok].
  - by apply put_signal_ok.
  - apply peer_case_ok; intros peer Hv; by apply post_case_ok.
  - apply peer_case_ok; intros peer Hv; by apply post_case_ok.
  - by apply executed_done.
Qed.

End Item.
(** ** Retiring an item *)

Lemma staging_scoreboard t sb : staging_inv t -> staging_inv (set_kp_scoreboard sb t).
Proof. apply staging_back; try done. intros j r Hr. by exists r. Qed.

(** The item at hand, executed or refused: it is posted, or it waits. *)
Record at_hand (w : flagcxKernelWorkerState) (a : abs_board) (posted : bool) (res : flagcxResult_t) : Prop := {
  ah_state : ks_inv (kw_state w) a;
  ah_comm : comm_ok comm (kw_memory w);
  ah_context : 0 <= kw_contextId w;
  ah_fifo : 0 < ff_capacity (kw_fifo w) /\ Z.of_nat (length (ff_slots (kw_fifo w))) = ff_capacity (kw_fifo w);
  ah_consumed : 0 <= ff_consumed (kw_fifo w) /\ kp_nextSequence (ks_transport (kw_state w)) = ff_consumed (kw_fifo w) + 2;
  ah_posted : if posted then res = flagcxSuccess else unheld (ks_transport (kw_state w)) a (kw_submit w)
}.

(** The completion of an item that is not posted. *)
Lemma immediate_ok w a res :
  ks_inv (kw_state w) a -> unheld (ks_transport (kw_state w)) a (kw_submit w) ->
  exists t adv a', flagcxKernelProxyCompleteImmediate (Some (ks_transport (kw_state w))) (Some (kw_submit w)) res true =
      Some (flagcxSuccess, Some t, Some adv) /\ ab_next a <= ab_next a' /\
    let k := set_transport t (kw_state w) in
    let k' := flagcxKernelProxyAdvanceCompleted adv (if failed res then flagcxKernelProxyPublishTerminal res k else k) in
    ks_inv k' a' /\ kp_nextSequence (ks_transport k') = kp_nextSequence (ks_transport (kw_state w)) /\
    kp_requests (ks_transport k') = kp_requests (ks_transport (kw_state w)).
Proof.
  intros K U. destruct (complete_immediate_inv _ a (kw_submit w) res (ki_transport _ _ K) U) as (t & adv & Hrun & I & Hadv & sb & Et).
  exists t, adv, (completed_board (kw_submit w) res a). split; [done|]. pose proof (completed_board_next (kw_submit w) res a) as Hle.
  split; [done|]. intros k k'.
  assert (Hk' : k' = flagcxKernelProxyAdvanceCompleted adv (flagcxKernelProxyPublishTerminal res k)).
  { unfold k', flagcxKernelProxyPublishTerminal. by destruct (failed res). }
  destruct (close_completion (kw_state w) a t (completed_board (kw_submit w) res a) res adv K I) as [K' E']; [|done|done|apply completed_board_error|].
  { subst t. apply staging_scoreboard, K. }
  rewrite Hk'. split; [done|]. unfold k. rewrite E', Et. done.
Qed.

Lemma retire_ok w a posted res (s : S) :
  at_hand w a posted res ->
  exists r w' a', worker_retire res posted w s = Some (r, true, false, w', s) /\ worker_inv comm w' a' /\
    ab_next a <= ab_next a' /\ ff_consumed (kw_fifo w') = ff_consumed (kw_fifo w) + 1 /\
    kp_nextSequence (ks_transport (kw_state w')) = kp_nextSequence (ks_transport (kw_state w)).
Proof.
  intros [K C X F [N0 N] P]. pose proof (kv_next _ _ (ki_transport _ _ K)) as (_ & Hmax & _).
  assert (Hc : ff_consumed (consume (kw_fifo w)) = ff_consumed (kw_fifo w) + 1).
  { cbn. apply Z.mod_small. lia. }
  unfold worker_retire. cbn [kw_state set_kw_fifo kw_submit].
  match goal with |- context [mbind _ ?e] => assert (Hk : exists k' a', e = Some (res, k') /\ ks_inv k' a' /\
      ab_next a <= ab_next a' /\ kp_nextSequence (ks_transport k') = kp_nextSequence (ks_transport (kw_state w))) end.
  { destruct posted; [by exists (kw_state w), a|].
    destruct (immediate_ok w a res K P) as (t & adv & a' & -> & Hle & K' & N' & _). cbn [mbind option_bind].
    change (failed flagcxSuccess) with false. cbn match. cbn [default from_option]. unfold id. by eexists _, a'. }
  destruct Hk as (k' & a' & -> & K' & Hle & N'). cbn [mbind option_bind].
  set (w' := set_kw_pending false false (kw_pending (set_kw_fifo (consume (kw_fifo w)) w)) (kw_submit w)
    (set_kw_state k' (set_kw_fifo (consume (kw_fifo w)) w))).
  assert (I' : worker_inv comm w' a').
  { constructor; try done. unfold tracked_count, w'. cbn [kw_state kw_fifo kw_pendingTracked set_kw_pending set_kw_state set_kw_fifo].
    rewrite Hc, N'. lia. }
  destruct (failed res).
  - eexists res, _, a'. split; [reflexivity|]. split; [by apply worker_inv_result, worker_inv_publish|]. split; [done|].
    split; [done|]. cbn. by rewrite publish_transport.
  - by exists flagcxSuccess, w', a'.
Qed.

(** An item that is refused: the requests stay. *)
Lemma retire_refused w a res (s : S) :
  ks_inv (kw_state w) a -> unheld (ks_transport (kw_state w)) a (kw_submit w) -> failed res = true ->
  exists w', worker_retire res false w s = Some (res, true, false, w', s) /\ kw_hasPending w' = false /\
    kp_requests (ks_transport (kw_state w')) = kp_requests (ks_transport (kw_state w)).
Proof.
  intros K U Hf. unfold worker_retire. cbn [kw_state set_kw_fifo kw_submit].
  destruct (immediate_ok w a res K U) as (t & adv & a' & -> & _ & _ & _ & Er). cbn [mbind option_bind].
  change (failed flagcxSuccess) with false. cbn match. cbn [default from_option]. unfold id. rewrite Hf in *.
  eexists. split; [reflexivity|]. split; [done|]. cbn. by rewrite publish_transport.
Qed.

(** ** An item *)

(** The flags of an item that waits for those before it. *)
Definition is_release (w : flagcxKernelWorkerState) : bool := negb (Z.land (sc_flags (kw_submit w)) FLAGCX_NET_SUBMIT_RELEASE =? 0).

Lemma release_ready t a c :
  kp_inv t a ->
  flagcxKernelProxyReleaseReady (Some t) (Some c) true true = (flagcxSuccess, Some (ab_next a =? sc_sequence c, ab_firstError a)).
Proof.
  intros I. pose proof (kv_len _ _ I) as [Hc _]. destruct (kv_board _ _ I) as (((es & Hes & _) & Hcap & _ & Hn & He) & Ecap & _).
  unfold flagcxKernelProxyReleaseReady, flagcxKernelProxyQuery, flagcxNetCompletionScoreboardQuery.
  rewrite (bool_decide_eq_false_2 (Some t = None)), (bool_decide_eq_false_2 (sb_entries _ = None)) by congruence.
  rewrite (proj2 (Z.eqb_neq (sb_capacity (kp_scoreboard t)) 0)) by lia. cbn [negb orb]. change (failed flagcxSuccess) with false.
  cbn match. by rewrite Hn, He.
Qed.

(** What a step leaves: the counters grow. *)
Definition stepped (w : flagcxKernelWorkerState) (a : abs_board) (w' : flagcxKernelWorkerState) (a' : abs_board) : Prop :=
  worker_inv comm w' a' /\ ab_next a <= ab_next a' /\
  ff_consumed (kw_fifo w) <= ff_consumed (kw_fifo w') <= ff_consumed (kw_fifo w) + 1 /\
  kp_nextSequence (ks_transport (kw_state w)) <= kp_nextSequence (ks_transport (kw_state w')) <=
    kp_nextSequence (ks_transport (kw_state w)) + 1.

Lemma stepped_refl w a : worker_inv comm w a -> stepped w a w a.
Proof. intros I. split; [done|lia]. Qed.

Lemma item_ok madeProgress w a s :
  worker_inv comm w a -> kw_pendingTracked w = true ->
  exists r mp w' s' a', item madeProgress w s = Some (r, mp, false, w', s') /\ stepped w a w' a' /\
    kp_nextSequence (ks_transport (kw_state w')) = kp_nextSequence (ks_transport (kw_state w)).
Proof.
  intros I Ht. pose proof I as [K C X F [N0 N] T]. destruct (T Ht) as (_ & U & _ & _).
  unfold tracked_count in N. rewrite Ht in N. unfold worker_item. fold (is_release w).
  rewrite (release_ready _ a _ (ki_transport _ _ K)). change (failed flagcxSuccess) with false. cbn [default from_option negb andb].
  unfold id. set (rr := if is_release w then _ else _). destruct rr as [res ready] eqn:Err. clear Err rr.
  destruct (negb (failed res) && negb ready) eqn:Hwait.
  { eexists flagcxSuccess, madeProgress, w, s, a. split; [reflexivity|]. split; [by apply stepped_refl|done]. }
  set (w1 := if is_release w && failed res then _ else w).
  assert (I1 : worker_inv comm w1 a) by (unfold w1; destruct (is_release w && failed res); [by apply worker_inv_publish|done]).
  assert (Hi1 : same_item w w1 /\ ks_transport (kw_state w1) = ks_transport (kw_state w)).
  { unfold w1. destruct (is_release w && failed res); [|done]. split; [done|]. apply publish_transport. }
  destruct Hi1 as [Hi1 Et1].
  assert (U1 : unheld (ks_transport (kw_state w1)) a (kw_submit w1)).
  { destruct Hi1 as (_ & _ & _ & _ & _ & ->). by rewrite Et1. }
  match goal with |- context [mbind _ ?e] => assert (Hex : executed w1 a e) end.
  { destruct (failed res); [by apply executed_done; try done; apply I1|]. by apply execute_command_ok; try done; apply I1. }
  destruct Hex as (res1 & posted & retry & w2 & s2 & -> & Hi2 & M2 & K2 & [S2 _] & P2 & U2). cbn [mbind option_bind].
  assert (Hi : same_item w w2) by (by etransitivity).
  rewrite Et1 in S2. destruct retry.
  { destruct posted; [by destruct (P2 eq_refl)|]. eexists flagcxSuccess, madeProgress, w2, s2, a. split; [reflexivity|].
    assert (I2 : worker_inv comm w2 a).
    { eapply worker_inv_keep; [exact I1|done|done|done|by rewrite S2, Et1|]. intros _. by apply U2. }
    split; [|done]. split; [done|]. rewrite S2. destruct Hi as (-> & _). lia. }
  assert (Hah : at_hand w2 a posted res1).
  { destruct Hi as (Ef & Ec & _ & _ & _ & Es). constructor; rewrite ?Ef, ?Ec, ?S2; try done; [|lia|].
    - eapply comm_ok_memory; [apply I1|done].
    - destruct posted; [by destruct (P2 eq_refl)|]. rewrite Es. destruct Hi1 as (_ & _ & _ & _ & _ & <-). by apply U2. }
  destruct (retire_ok w2 a posted res1 s2 Hah) as (r & w' & a' & -> & I' & Hle & Hc & Hn).
  eexists r, true, w', s2, a'. split; [reflexivity|]. split; [|by rewrite Hn, S2]. split; [done|].
  rewrite Hn, S2, Hc. destruct Hi as (-> & _). lia.
Qed.


(** ** A round *)

Lemma stepped_trans w1 a1 w2 a2 w3 a3 :
  stepped w1 a1 w2 a2 -> stepped w2 a2 w3 a3 ->
  (ff_consumed (kw_fifo w2) = ff_consumed (kw_fifo w1) \/ ff_consumed (kw_fifo w3) = ff_consumed (kw_fifo w2)) ->
  (kp_nextSequence (ks_transport (kw_state w2)) = kp_nextSequence (ks_transport (kw_state w1)) \/
   kp_nextSequence (ks_transport (kw_state w3)) = kp_nextSequence (ks_transport (kw_state w2))) ->
  stepped w1 a1 w3 a3.
Proof. intros (_ & H1 & H2 & H3) (I & H4 & H5 & H6) Hc Hn. split; [done|lia]. Qed.

(** Polling. *)
Lemma worker_poll_ok w a s :
  worker_inv comm w a ->
  exists k' s' a', worker_poll comm test postFlush (kw_state w) s = Some (k', s') /\
    worker_inv comm (set_kw_state k' w) a' /\ ab_next a <= ab_next a' /\
    kp_nextSequence (ks_transport k') = kp_nextSequence (ks_transport (kw_state w)).
Proof.
  intros I. pose proof (wi_state _ _ _ I) as K. unfold worker_poll. destruct (_ && _).
  - destruct (poll_inv test postFlush (kw_state w) s a K) as (k' & s' & a' & -> & K' & [(Hle & Hn & _) _ _ Hw]).
    exists k', s', a'. split; [done|]. split; [|done]. eapply worker_inv_keep; try done. intros Ht. apply Hw, (wi_tracked _ _ _ I Ht).
  - exists (kw_state w), s, a. split; [done|]. split; [|done]. by destruct w.
Qed.

Lemma dequeue_ok f :
  0 < ff_capacity f -> Z.of_nat (length (ff_slots f)) = ff_capacity f -> 
  exists r t f', dequeue f = Some (r, t, f') /\ (r = flagcxInProgress /\ f' = f \/ r = flagcxSuccess /\
    exists slots, f' = set_slots slots f /\ length slots = length (ff_slots f)).
Proof.
  intros Hc Hl. unfold dequeue. destruct (_ =? _); [by eexists _, _, f; split; [|left]|].
  rewrite (proj2 (Z.eqb_neq (ff_capacity f) 0)) by lia. pose proof (Z.mod_pos_bound (ff_consumed f) (ff_capacity f)).
  destruct (slot_range_lookup (ff_slots f) (ff_consumed f mod ff_capacity f)) as (slot & -> & _); [lia|]. cbn [mbind option_bind].
  destruct (_ =? 0); [by eexists _, _, f; split; [|left]|]. rewrite arr_set_slot by lia. cbn [mbind option_bind].
  eexists _, _, _. split; [reflexivity|]. right. split; [done|]. eexists. split; [reflexivity|]. by rewrite length_insert.
Qed.

(** The next item. *)
Lemma next_item_ok w a :
  worker_inv comm w a ->
  exists r mp w', next_item w = Some (r, mp, w') /\
    stepped w a w' a /\ kp_nextSequence (ks_transport (kw_state w')) = kp_nextSequence (ks_transport (kw_state w)) /\
    ff_consumed (kw_fifo w') = ff_consumed (kw_fifo w) /\ (r = flagcxSuccess -> kw_hasPending w' = true).
Proof.
  intros I. pose proof I as [K C X [F0 F1] [N0 N] T]. unfold next_item. destruct (kw_hasPending w) eqn:Hp.
  { eexists _, _, w. split; [reflexivity|]. split; [by apply stepped_refl|done]. }
  assert (Ht : kw_pendingTracked w = false).
  { destruct (kw_pendingTracked w) eqn:Ht; [|done]. destruct (T eq_refl). congruence. }
  unfold tracked_count in N. rewrite Ht in N.
  destruct (dequeue_ok (kw_fifo w) F0 F1) as (r & t & f & -> & [[-> ->]|(-> & slots & -> & Hl)]); cbn [mbind option_bind].
  - change (failed flagcxInProgress) with true. cbn match. assert (set_kw_fifo (kw_fifo w) w = w) as -> by (by destruct w).
    eexists _, _, w. split; [reflexivity|]. split; [by apply stepped_refl|done].
  - change (failed flagcxSuccess) with false. cbn match. eexists _, _, _. split; [reflexivity|]. split; [|done].
    split; [|cbn; lia]. constructor; try done. unfold tracked_count. cbn. lia.
Qed.

(** Its place in the order. *)
Lemma track_item_ok w a :
  worker_inv comm w a -> kw_hasPending w = true -> kp_nextSequence (ks_transport (kw_state w)) < U64_MAX ->
  exists r w' a', track_item w = Some (r, w') /\
    stepped w a w' a' /\ ff_consumed (kw_fifo w') = ff_consumed (kw_fifo w) /\
    (r = flagcxSuccess -> kw_pendingTracked w' = true).
Proof.
  intros I Hp Hmax. pose proof I as [K C X F [N0 N] T]. unfold track_item. destruct (kw_pendingTracked w) eqn:Ht.
  { exists flagcxSuccess, w, a. split; [done|]. split; [by apply stepped_refl|done]. }
  unfold tracked_count in N. rewrite Ht in N. pose proof K as [It Ts Cs Es Xs].
  destruct (track_next_inv (ks_transport (kw_state w)) a (flagcxKernelProxySubmitFlags (kw_pending w)) (kw_submit w) It Hmax)
    as (r & t & a' & c & -> & I' & Hnx & Her & (sb & n & Et) & Hcase). cbn [mbind option_bind].
  assert (K' : ks_inv (set_transport t (kw_state w)) a').
  { constructor; cbn; try done; [|by rewrite Hnx|by rewrite Her].
    subst t. change (staging_inv (set_kp_nextSequence n (set_kp_scoreboard sb (ks_transport (kw_state w))))).
    by apply (staging_back (ks_transport (kw_state w))); try done; intros j r0 Hr; exists r0. }
  destruct (_ =? _) in Hcase.
  - destruct Hcase as [-> Hn]. change (failed flagcxInProgress) with true. cbn match. eexists _, _, a'. split; [reflexivity|].
    split; [|done]. split; [|cbn; lia]. eapply worker_inv_keep; [exact I|try done..]. by rewrite Ht.
  - destruct Hcase as (-> & Hn & Hs & Hf & U). change (failed flagcxSuccess) with false. cbn match. eexists _, _, a'. split; [reflexivity|].
    split; [|done]. split; [|cbn; lia]. constructor; try done; cbn.
    + unfold tracked_count. cbn. lia.
    + intros _. split; [done|]. split; [done|]. split; [lia|done].
Qed.

Lemma stepped_terminal w a w1 a1 r r' :
  stepped w a w1 a1 -> stepped w a (set_kw_result r (set_kw_state (flagcxKernelProxyStoreLocalTerminal r' (kw_state w1)) w1)) a1.
Proof.
  intros (I & H1 & H2 & H3). destruct (local_terminal r' (kw_state w1)) as [Et Ek]. unfold stepped.
  cbn [kw_fifo kw_state set_kw_result set_kw_state]. rewrite Et. split; [|done]. apply worker_inv_result.
  eapply worker_inv_keep; [exact I|done|by apply Ek, I|done|cbn; by rewrite Et|].
  intros Ht. cbn. rewrite Et. apply (wi_tracked _ _ _ I Ht).
Qed.

Lemma once_ok stopping stop w a s :
  worker_inv comm w a -> kp_nextSequence (ks_transport (kw_state w)) < U64_MAX ->
  exists r mp out w' s' a', once stopping stop w s = Some (r, mp, out, w', s') /\ stepped w a w' a'.
Proof.
  intros I Hmax. unfold flagcxKernelWorkerProgressOnce. destruct (stopping || stop).
  { destruct (negb _).
    - destruct (worker_poll_ok w a s I) as (k & s' & a' & -> & I' & Hle & Hn). cbn [mbind option_bind].
      eexists _, _, _, _, s', a'. split; [reflexivity|]. split; [done|cbn; lia].
    - cbn [mbind option_bind]. eexists _, _, _, _, s, a. split; [reflexivity|].
      assert (set_kw_state (kw_state w) w = w) as -> by (by destruct w). by apply stepped_refl. }
  destruct (worker_poll_ok w a s I) as (k & s1 & a1 & -> & I1 & Hle1 & Hn1). cbn [mbind option_bind].
  set (w1 := set_kw_state k w) in *. change k with (kw_state w1). change (kw_state w1) with k in Hn1.
  assert (S1 : stepped w a w1 a1) by (split; [done|cbn; lia]).
  destruct (failed (ks_terminal (kw_state w1))) eqn:Hterm.
  { eexists _, _, _, _, s1, a1. split; [reflexivity|]. by apply stepped_terminal. }
  destruct (next_item_ok w1 a1 I1) as (r2 & mp & w2 & -> & S2 & Hn2 & Hc2 & Hp2). cbn [mbind option_bind].
  assert (S12 : stepped w a w2 a1).
  { eapply stepped_trans; [exact S1|exact S2|by left|]. left. exact Hn1. }
  assert (Hfail : forall r w3 a3, stepped w a w3 a3 ->
    stepped w a (set_kw_result r (set_kw_state (flagcxKernelProxyPublishTerminal r (kw_state w3)) w3)) a3).
  { intros r w3 a3 (I3 & H3). split; [by apply worker_inv_result, worker_inv_publish|]. cbn. by rewrite publish_transport. }
  case_bool_decide as Hr2; [by eexists _, _, _, w2, s1, a1|].
  destruct (failed r2) eqn:Hf2; [eexists _, _, _, _, s1, a1; split; [reflexivity|by apply Hfail]|].
  apply failed_success in Hf2. specialize (Hp2 Hf2).
  destruct (track_item_ok w2 a1 (proj1 S2) Hp2) as (r3 & w3 & a3 & -> & S3 & Hc3 & Ht3).
  { rewrite Hn2. change (kp_nextSequence (ks_transport k) < U64_MAX). lia. }
  cbn [mbind option_bind].
  assert (S13 : stepped w a w3 a3).
  { eapply stepped_trans; [exact S12|exact S3|right; done|]. left. rewrite Hn2. exact Hn1. }
  case_bool_decide as Hr3; [by eexists _, _, _, w3, s1, a3|].
  destruct (failed r3) eqn:Hf3; [eexists _, _, _, _, s1, a3; split; [reflexivity|by apply Hfail]|].
  apply failed_success in Hf3. destruct (item_ok mp w3 a3 s1 (proj1 S3) (Ht3 Hf3)) as (r & mp' & w' & s' & a' & -> & S' & Hn').
  eexists _, _, _, w', s', a'. split; [reflexivity|]. eapply stepped_trans; [exact S13|exact S'| |right; done].
  left. rewrite Hc3, Hc2. done.
Qed.

End Order.
