(* ===== verification/KernelWorkerFence.v ===== *)
(** The worker of the kernel proxy and device code, from initialisation on: the
    order of signals and of the visibility of GETs, and that a round of the
    worker is always defined. *)
From S2P Require Import Prelude Flagcx Arrays NetTransport NetScoreboard KernelProxy KernelProxyInv KernelProxyProgress.
From S2P Require Import KernelProxyCalls KernelProxyPoll KernelTrigger KernelFifo KernelWorker KernelWorkerInv KernelWorkerOrder.

(** ** Initialisation *)

Lemma posted_replicate n :
  length (filter (fun r => kr_state r = FLAGCX_KERNEL_PROXY_REQUEST_POSTED) (replicate n flagcxKernelProxyRequestReset)) = 0%nat.
Proof. induction n as [|n IH]; [done|]. cbn [replicate]. by rewrite filter_cons_False. Qed.

Lemma transport_init_inv capacity staging generation orderingKey :
  0 < capacity < U32_MOD -> 0 <= staging <= 2 ^ 31 -> generation <> 0 ->
  exists t a, flagcxKernelProxyTransportInit (Some kernel_proxy_zero) capacity staging generation orderingKey true =
      Some (flagcxSuccess, Some t) /\ kp_inv t a /\ staging_inv t /\ ab_next a = 1 /\ ab_firstError a = flagcxSuccess /\
    kp_nextSequence t = 1.
Proof.
  intros Hc Hs Hg. unfold flagcxKernelProxyTransportInit.
  rewrite (proj2 (Z.eqb_neq capacity 0)), (proj2 (Z.eqb_neq generation 0)) by lia. cbn [negb orb].
  destruct (scoreboard_init_implements (replicate (Z.to_nat capacity) flagcxNetCompletionEntryReset) capacity generation 1)
    as (sb & -> & Him); [lia|rewrite length_replicate; lia|lia|]. cbn [mbind option_bind].
  change (failed flagcxSuccess) with false. cbn match.
  eexists _, (MkAbsBoard capacity generation 1 flagcxSuccess ∅). split; [reflexivity|].
  assert (Hused : forall j r, ~ used (replicate (Z.to_nat capacity) flagcxKernelProxyRequestReset) j r).
  { intros j r [[-> _]%lookup_replicate_1 Hr]. by destruct Hr. }
  split; [|split; [|done]].
  - constructor; cbn; try done.
    + rewrite !length_replicate. lia.
    + by rewrite posted_replicate.
    + lia.
    + intros j r [-> _]%lookup_replicate_1 _. done.
    + intros j r []%Hused.
    + intros j r []%Hused.
    + intros i j q r []%Hused.
    + intros i j q r []%Hused.
    + intros i d [-> _]%lookup_replicate_1. done.
  - constructor; cbn; try done.
    + lia.
    + intros u. destruct (Z.eqb_spec staging 0); [done|]. intros [= <-]. rewrite length_replicate. lia.
    + intros j r []%Hused.
    + intros i j q r []%Hused.
Qed.

Lemma worker_init_inv comm fifoCapacity contextId terminal rma m :
  0 < fifoCapacity -> 0 <= contextId -> terminal <> flagcxInProgress -> comm_ok comm m ->
  exists w a, flagcxKernelWorkerInit flagcxSuccess true true true fifoCapacity contextId terminal rma m = Some (flagcxSuccess, Some w) /\
    worker_inv comm w a.
Proof.
  intros Hf Hx Ht C. unfold flagcxKernelWorkerInit. change (failed flagcxSuccess) with false. cbn match. cbn [negb orb].
  set (g := match rma with Some _ => _ | None => _ end).
  assert (Hg : g <> 0) by (unfold g; destruct rma as [[g0 b]|]; [destruct (Z.eqb_spec g0 0)|]; done).
  destruct (transport_init_inv FLAGCX_KERNEL_PROXY_MAX_INFLIGHT FLAGCX_KERNEL_PROXY_PUT_VALUE_SLOTS g (contextId mod U64_MOD))
    as (t & a & -> & I & T & Hn & He & Hs); [done|done|done|]. cbn [mbind option_bind].
  change (failed flagcxSuccess) with false. cbn match. eexists _, a. split; [reflexivity|].
  constructor; try done; cbn.
  - constructor; cbn; try done; [lia|]. by rewrite He.
  - rewrite length_replicate. lia.
Qed.

(** ** The machine *)

Section Fence.
Context {S : Type}.
Context (comm : flagcxHeteroComm).
Context (test : S -> Z -> flagcxResult_t * bool * S) (postFlush : S -> Z -> Z -> Z -> Z -> flagcxResult_t * Z * S).
Context (has_put has_get has_putSignal : bool).
Context (netCall : S -> flagcxNetSubmitContext -> net_call -> flagcxResult_t * Z * S).
Context (heteroGroupStart heteroGroupEnd : S -> flagcxResult_t * S).
Context (heteroSendRecv : S -> bool -> Z -> Z -> Z -> Z -> flagcxResult_t * S).

Abbreviation once := (flagcxKernelWorkerProgressOnce comm test postFlush has_put has_get has_putSignal netCall
  heteroGroupStart heteroGroupEnd heteroSendRecv).

(** A round of the worker; device code that writes the FIFO but for [consumed],
    and memory; another worker that publishes an error of the communicator; and
    the network. *)
Inductive worker_step : flagcxKernelWorkerState * S -> flagcxKernelWorkerState * S -> Prop :=
| step_once stopping stop w s r madeProgress outstanding w' s' :
    kp_nextSequence (ks_transport (kw_state w)) < U64_MAX ->
    once stopping stop w s = Some (r, madeProgress, outstanding, w', s') ->
    worker_step (w, s) (w', s')
| step_device w s produced producerState slots m :
    length slots = length (ff_slots (kw_fifo w)) -> same_memory (kw_memory w) m ->
    worker_step (w, s)
      (set_kw_memory m (set_kw_fifo (MkFifo (ff_capacity (kw_fifo w)) (ff_consumed (kw_fifo w)) produced producerState slots) w), s)
| step_terminal w s r rmaError :
    r <> flagcxInProgress ->
    worker_step (w, s)
      (set_kw_state (MkKernelProxyState (ks_transport (kw_state w)) (ks_completed (kw_state w)) (ks_fifoTerminal (kw_state w))
        r rmaError) w, s)
| step_network w s s' : worker_step (w, s) (w, s').

Definition worker_initial (x : flagcxKernelWorkerState * S) : Prop :=
  exists fifoCapacity contextId terminal rma m,
    0 < fifoCapacity /\ 0 <= contextId /\ terminal <> flagcxInProgress /\ comm_ok comm m /\
    flagcxKernelWorkerInit flagcxSuccess true true true fifoCapacity contextId terminal rma m = Some (flagcxSuccess, Some (fst x)).

Lemma worker_step_inv x y : worker_step x y -> (exists a, worker_inv comm (fst x) a) -> exists a, worker_inv comm (fst y) a.
Proof.
  intros [stopping stop w s r mp out w' s' Hmax Hrun|w s produced ps slots m Hl Hm|w s r e Hr|w s s'] [a I]; cbn [fst] in *.
  - destruct (once_ok comm test postFlush has_put has_get has_putSignal netCall heteroGroupStart heteroGroupEnd heteroSendRecv
      stopping stop w a s I Hmax) as (r1 & mp1 & out1 & w1 & s1 & a1 & Hrun1 & [I1 _]). exists a1. congruence.
  - exists a. destruct I as [K C X [F0 F1] [N0 N] T]. constructor; try done; cbn; [by eapply comm_ok_memory|by rewrite Hl].
  - exists a. eapply worker_inv_keep; try done; [|by apply I]. destruct I as [[I T C E X] _ _ _ _ _]. by constructor.
  - by exists a.
Qed.

Lemma worker_reachable_inv x y : worker_initial x -> reach worker_step x y -> exists a, worker_inv comm (fst y) a.
Proof.
  intros (fc & ctx & tm & rma & m & Hf & Hx & Ht & C & Hi) Hr.
  apply (reach_invariant worker_step (fun z => exists a, worker_inv comm (fst z) a) ltac:(intros; by eapply worker_step_inv) x y Hr).
  destruct (worker_init_inv comm fc ctx tm rma m Hf Hx Ht C) as (w & a & Hi' & I). exists a. congruence.
Qed.

(** ** Requests in the order *)

(** The sequence of a request in use. *)
Definition in_use (w : flagcxKernelWorkerState) (n : Z) : Prop :=
  exists j q, kp_requests (ks_transport (kw_state w)) !! j = Some q /\ kr_state q <> FLAGCX_KERNEL_PROXY_REQUEST_FREE /\
    sc_sequence (kr_submit q) = n.

Lemma in_use_bounds w a n :
  worker_inv comm w a -> in_use w n -> ks_completed (kw_state w) < n <= ff_consumed (kw_fifo w).
Proof.
  intros I (j & q & Hj & Hst & <-). pose proof (wi_state _ _ _ I) as K. pose proof (ki_transport _ _ K) as It.
  assert (Hu : used (kp_requests (ks_transport (kw_state w))) j q) by done.
  destruct (kv_used _ _ It j q Hu) as (_ & Hl & _). destruct (kv_live _ _ It _ _ Hl) as [_ Hlt].
  pose proof (implements_live_ge _ _ (proj1 (kv_board _ _ It)) _ _ Hl) as Hge.
  destruct (ki_completed _ _ K) as [_ Hc], (wi_consumed _ _ _ I) as [_ Hn]. unfold tracked_count in Hn.
  split; [lia|]. destruct (kw_pendingTracked w) eqn:Ht; [|lia]. destruct (wi_tracked _ _ _ I Ht) as (_ & [_ Hun] & Hs & _).
  pose proof (Hun j q Hu). lia.
Qed.

Lemma completed_consumed w a : worker_inv comm w a -> 0 <= ks_completed (kw_state w) <= ff_consumed (kw_fifo w).
Proof.
  intros I. pose proof (wi_state _ _ _ I) as K. pose proof (kv_next _ _ (ki_transport _ _ K)) as (H1 & H2 & H3).
  destruct (ki_completed _ _ K) as [H4 Hc], (wi_consumed _ _ _ I) as [_ Hn]. unfold tracked_count in Hn.
  destruct (kw_pendingTracked w) eqn:Ht; [|lia]. destruct (wi_tracked _ _ _ I Ht) as (_ & [Hl _] & Hs & _).
  pose proof (implements_live_ge _ _ (proj1 (kv_board _ _ (ki_transport _ _ K))) _ _ Hl). lia.
Qed.

(** C5: the worker of a context.  From the initialisation of the worker on,
    whatever the network, the groups, device code and other workers do: a round
    of the worker is defined as long as sequence numbers last; [completed] is at
    most [consumed]; a request in use has the number of an item that is retired
    and not complete, and no other request in use has it or its staging slot; an
    error that the scoreboard recorded is in the terminal status of the FIFO. *)
Theorem worker_sound x w s :
  worker_initial x -> reach worker_step x (w, s) ->
  (forall stopping stop s', kp_nextSequence (ks_transport (kw_state w)) < U64_MAX -> is_Some (once stopping stop w s')) /\
  0 <= ks_completed (kw_state w) <= ff_consumed (kw_fifo w) /\
  (forall n, in_use w n -> ks_completed (kw_state w) < n <= ff_consumed (kw_fifo w)) /\
  (forall i j q r, kp_requests (ks_transport (kw_state w)) !! i = Some q -> kp_requests (ks_transport (kw_state w)) !! j = Some r ->
    kr_state q <> FLAGCX_KERNEL_PROXY_REQUEST_FREE -> kr_state r <> FLAGCX_KERNEL_PROXY_REQUEST_FREE ->
    sc_sequence (kr_submit q) = sc_sequence (kr_submit r) \/ (0 <= kr_stagingSlot q /\ kr_stagingSlot q = kr_stagingSlot r) ->
    i = j) /\
  (failed (sb_firstError (kp_scoreboard (ks_transport (kw_state w)))) = true -> failed (ks_fifoTerminal (kw_state w)) = true).
Proof.
  intros Hi Hr. destruct (worker_reachable_inv x (w, s) Hi Hr) as [a I]. cbn [fst] in I. pose proof (wi_state _ _ _ I) as K.
  split; [|split; [by eapply completed_consumed|split; [intros n; by apply (in_use_bounds w a)|split]]].
  - intros stopping stop s' Hmax. destruct (once_ok comm test postFlush has_put has_get has_putSignal netCall heteroGroupStart
      heteroGroupEnd heteroSendRecv stopping stop w a s' I Hmax) as (r & mp & out & w' & s1 & a' & -> & _). by eexists.
  - intros i j q r Hq Hr' Hsq Hsr [E|[H0 E]].
    + by apply (kv_submits _ _ (ki_transport _ _ K) i j q r).
    + by apply (st_owner _ (ki_staging _ _ K) i j q r).
  - intros Hf. apply (ki_error _ _ K). destruct (kv_board _ _ (ki_transport _ _ K)) as ((_ & _ & _ & _ & <-) & _). done.
Qed.

(** C7: signals wait.  An item that is a signal, alone or behind data, is not
    executed while an earlier request is in use: the network is not called and
    the item stays at hand.  Without a recorded error the worker's state is as
    before; after one, the item is not executed at all, and completes with
    that error. *)
Theorem signal_waits x w s madeProgress i :
  worker_initial x -> reach worker_step x (w, s) -> kw_pendingTracked w = true ->
  Z.land (flagcxKernelProxySubmitFlags (kw_pending w)) FLAGCX_NET_SUBMIT_RELEASE <> 0 -> in_use w i ->
  exists r mp w', worker_item comm has_put has_get has_putSignal netCall heteroGroupStart heteroGroupEnd heteroSendRecv
      madeProgress w s = Some (r, mp, false, w', s) /\
    if failed (sb_firstError (kp_scoreboard (ks_transport (kw_state w))))
    then r = sb_firstError (kp_scoreboard (ks_transport (kw_state w))) /\ kw_hasPending w' = false /\
      kp_requests (ks_transport (kw_state w')) = kp_requests (ks_transport (kw_state w))
    else r = flagcxSuccess /\ mp = madeProgress /\ w' = w.
Proof.
  intros Hi Hr Ht Hrel (j & q & Hj & Hst & _). destruct (worker_reachable_inv x (w, s) Hi Hr) as [a I]. cbn [fst] in I.
  pose proof (wi_state _ _ _ I) as K. pose proof (ki_transport _ _ K) as It.
  destruct (wi_tracked _ _ _ I Ht) as (_ & [Hl Hun] & Hs & Hfl).
  assert (Hu : used (kp_requests (ks_transport (kw_state w))) j q) by done.
  destruct (kv_board _ _ It) as (Him & _). pose proof Him as (_ & _ & _ & _ & ->).
  (* the item is not the oldest one *)
  assert (Hne : (ab_next a =? sc_sequence (kw_submit w)) = false).
  { apply Z.eqb_neq. destruct (kv_used _ _ It j q Hu) as (_ & Hq & _). destruct (kv_live _ _ It _ _ Hq) as [_ Hlt].
    pose proof (implements_live_ge _ _ Him _ _ Hq). pose proof (Hun j q Hu). lia. }
  unfold worker_item. rewrite Hfl, (proj2 (Z.eqb_neq _ 0) Hrel). cbn [negb].
  rewrite (release_ready _ a _ It), Hne. change (failed flagcxSuccess) with false. cbn [default from_option negb andb]. unfold id.
  destruct (failed (ab_firstError a)) eqn:Hf; cbn [negb andb].
  2: { change (failed flagcxSuccess) with false. cbn [negb andb]. by eexists _, _, w. }
  rewrite Hf. unfold done_case. cbn [negb andb mbind option_bind].
  set (w1 := set_kw_state _ w). destruct (retire_refused w1 a (ab_firstError a) s) as (w' & -> & Hp & Er); [| |done|].
  - by apply ks_inv_publish.
  - cbn. by rewrite publish_transport.
  - eexists _, _, w'. split; [reflexivity|]. split; [done|]. split; [done|]. rewrite Er. cbn. by rewrite publish_transport.
Qed.

(** C13: GETs are shown by flushes.  The progress of a posted request never fails;
    a GET of its domain that has not failed becomes visible only by a flush that
    covers it, tested as done without error, or by one that was complete when
    posted; and the request is ready only when it is visible. *)
Theorem get_visible_by_flush x w s k q s' :
  let t := ks_transport (kw_state w) in
  worker_initial x -> reach worker_step x (w, s) -> kp_requests t !! k = Some q -> kr_state q = FLAGCX_KERNEL_PROXY_REQUEST_POSTED ->
  exists ready q' t' s1,
    flagcxKernelProxyProgressRequest (Some test) (Some postFlush) (Some t) (Z.of_nat k) true true s' =
      Some (flagcxSuccess, Some (ready, kr_completionResult q'), Some t', s1) /\ kp_requests t' !! k = Some q' /\
    forall i, kr_getVisibilityDomain q = Z.of_nat i ->
      (ready = true -> kr_getSequence q' <> 0 -> kr_getSequence q' <= visible_at t' i) /\
      forall j r r', kp_requests t !! j = Some r -> kr_state r = FLAGCX_KERNEL_PROXY_REQUEST_POSTED ->
        kr_getVisibilityDomain r = Z.of_nat i -> kp_requests t' !! j = Some r' -> failed (kr_completionResult r') = false ->
        visible_at t i < kr_getSequence r <= visible_at t' i -> shown_by test postFlush t q s' i (kr_getSequence r).
Proof.
  intros t Hi Hr Hq Hst. destruct (worker_reachable_inv x (w, s) Hi Hr) as [a I]. cbn [fst] in I.
  pose proof (ki_transport _ _ (wi_state _ _ _ I)) as It.
  destruct (progress_inv test postFlush t a k q s' It Hq Hst) as (ready & q' & t' & s1 & Hrun & It' & Hh & Hq' & Hrt & Hs).
  exists ready, q', t', s1. split; [done|]. split; [done|]. intros i Ei. destruct (Hs i Ei k q q' Hq Hst Ei Hq') as (Hst' & Ei' & _ & _).
  split.
  - intros Hready Hne. destruct (kv_get _ _ It' k q') as (i' & d & E1 & Hd & Hud & _); [split; [done|congruence]|done|].
    assert (i' = i) as -> by (rewrite Ei' in E1; lia). pose proof (Hrt Hready i d Hd Hud Ei'). unfold visible_at. by rewrite Hd.
  - intros j r r' Hj Hsj Ej Hj' Hf Hv. destruct (Hs i Ei j r r' Hj Hsj Ej Hj') as (_ & _ & _ & Hsh). by apply (Hsh Hf).
Qed.

End Fence.

(** ** An example *)

(** A network that completes at once when its state says so, else not yet. *)
Definition demo_comm : flagcxHeteroComm :=
  MkHeteroComm 0 2 true true true 1 [Some (MkHandleInfo 4096 (Some [None; Some [0; 11]]) None 2 false)] 64 None None.
Definition demo_test (s : bool) (request : Z) : flagcxResult_t * bool * bool := (flagcxSuccess, s, s).
Definition demo_flush (s : bool) (comm mr off size : Z) : flagcxResult_t * Z * bool := (flagcxSuccess, NULL, s).
Definition demo_net (s : bool) (submit : flagcxNetSubmitContext) (call : net_call) : flagcxResult_t * Z * bool := (flagcxSuccess, 7, s).
Definition demo_group (s : bool) : flagcxResult_t * bool := (flagcxSuccess, s).
Definition demo_p2p (s : bool) (recv : bool) (addr count datatype peer : Z) : flagcxResult_t * bool := (flagcxSuccess, s).

Abbreviation demo_step := (worker_step demo_comm demo_test demo_flush true true true demo_net demo_group demo_group demo_p2p).

Definition demo_put : flagcxDeviceTrigger := published (enqueueFifoPut 4096 8192 512 1 0 0).
Definition demo_signal : flagcxDeviceTrigger := published (enqueueFifoPutSignal (MkDeviceNet 0 4 4) 4096 8192 512 1 1 1 0 0).

Lemma fence_comm_ok : comm_ok demo_comm (MkHostMemory ∅ []).
Proof.
  constructor; [cbn; lia|cbn; lia| |..]; cbn; try done.
  - intros h rows [= <-] [= <-]. split; [done|]. intros [|[|i]] row; cbn; [done|by intros [= <-]|done].
  - by intros h rows [= <-].
Qed.

Lemma demo_initial : exists x : flagcxKernelWorkerState * bool, worker_initial demo_comm x /\ snd x = false /\
  flagcxKernelWorkerInit flagcxSuccess true true true 4 0 flagcxSuccess None (MkHostMemory ∅ []) = Some (flagcxSuccess, Some (fst x)).
Proof.
  destruct (worker_init_inv demo_comm 4 0 flagcxSuccess None (MkHostMemory ∅ [])) as (w & a & Hw & _); [lia|lia|congruence|apply fence_comm_ok|].
  exists (w, false). split; [|split; [reflexivity|exact Hw]]. exists 4, 0, flagcxSuccess, None, (MkHostMemory ∅ []).
  split; [lia|]. split; [lia|]. split; [congruence|]. split; [apply fence_comm_ok|exact Hw].
Qed.

(** A put is posted while a signal behind it waits; then the put completes. *)
Lemma demo_path :
  exists x w, worker_initial demo_comm x /\ reach demo_step x (w, false) /\ kw_pendingTracked w = true /\
    Z.land (flagcxKernelProxySubmitFlags (kw_pending w)) FLAGCX_NET_SUBMIT_RELEASE <> 0 /\ in_use w 1 /\
    (exists q, kp_requests (ks_transport (kw_state w)) !! 0%nat = Some q /\ kr_state q = FLAGCX_KERNEL_PROXY_REQUEST_POSTED) /\
    exists w', reach demo_step (w, false) (w', true) /\ ks_completed (kw_state w') = 1.
Proof.
  destruct demo_initial as ([w0 s0] & Hi & Hs & Hw). cbn [snd fst] in Hs, Hw. subst s0. vm_compute in Hw. injection Hw as Hw.
  assert (Hpath : exists w, reach demo_step (w0, false) (w, false) /\ kw_pendingTracked w = true /\
    Z.land (flagcxKernelProxySubmitFlags (kw_pending w)) FLAGCX_NET_SUBMIT_RELEASE <> 0 /\ in_use w 1 /\
    (exists q, kp_requests (ks_transport (kw_state w)) !! 0%nat = Some q /\ kr_state q = FLAGCX_KERNEL_PROXY_REQUEST_POSTED) /\
    exists w', reach demo_step (w, false) (w', true) /\ ks_completed (kw_state w') = 1).
  { subst w0. eexists. split.
    - eapply reach_step; [eapply (step_device _ _ _ _ _ _ _ _ _ _ _ _ 2 0 [demo_put; demo_signal; trigger_zero; trigger_zero]
        (MkHostMemory ∅ [])); reflexivity|].
      eapply reach_step; [eapply (step_once _ _ _ _ _ _ _ _ _ _ false false); [vm_compute; reflexivity|vm_compute; reflexivity]|].
      eapply reach_step; [eapply (step_once _ _ _ _ _ _ _ _ _ _ false false); [vm_compute; reflexivity|vm_compute; reflexivity]|].
      apply reach_refl.
    - split; [vm_compute; reflexivity|]. split; [vm_compute; congruence|]. split.
      + exists 0%nat. eexists. split; [vm_compute; reflexivity|]. split; [vm_compute; congruence|vm_compute; reflexivity].
      + split; [eexists; split; vm_compute; reflexivity|]. eexists. split.
        * eapply reach_step; [apply (step_network _ _ _ _ _ _ _ _ _ _ _ _ true)|].
          eapply reach_step; [eapply (step_once _ _ _ _ _ _ _ _ _ _ true false); [vm_compute; reflexivity|vm_compute; reflexivity]|].
          apply reach_refl.
        * vm_compute. reflexivity. }
  destruct Hpath as (w & Hr & H1 & H2 & H3 & H4 & H5). exists (w0, false), w.
  split; [exact Hi|]. split; [exact Hr|]. split; [exact H1|]. split; [exact H2|]. split; [exact H3|]. split; [exact H4|exact H5].
Qed.

Lemma worker_sound_witness :
  exists w, in_use w 1 /\ 0 < 1 <= ff_consumed (kw_fifo w).
Proof.
  destruct demo_path as (x & w & Hi & Hr & _ & _ & Hu & _ & _). exists w. split; [exact Hu|].
  destruct (worker_sound demo_comm demo_test demo_flush true true true demo_net demo_group demo_group demo_p2p x w false Hi Hr)
    as (_ & Hc & Hin & _).
  pose proof (Hin 1 Hu). lia.
Defined.

Lemma signal_waits_witness :
  exists w r mp w', in_use w 1 /\
    worker_item demo_comm true true true demo_net demo_group demo_group demo_p2p true w false = Some (r, mp, false, w', false).
Proof.
  destruct demo_path as (x & w & Hi & Hr & Ht & Hf & Hu & _ & _).
  destruct (signal_waits demo_comm demo_test demo_flush true true true demo_net demo_group demo_group demo_p2p x w false true 1 Hi Hr Ht Hf Hu)
    as (r & mp & w' & Hrun & _).
  exists w, r, mp, w'. split; [exact Hu|exact Hrun].
Defined.

Lemma get_visible_by_flush_witness :
  exists w ready result t' s1, flagcxKernelProxyProgressRequest (Some demo_test) (Some demo_flush) (Some (ks_transport (kw_state w))) 0
    true true true = Some (flagcxSuccess, Some (ready, result), Some t', s1).
Proof.
  destruct demo_path as (x & w & Hi & Hr & _ & _ & _ & (q & Hq & Hst) & _).
  destruct (get_visible_by_flush demo_comm demo_test demo_flush true true true demo_net demo_group demo_group demo_p2p x w false 0 q true
    Hi Hr Hq Hst) as (ready & q' & t' & s1 & Hrun & _).
  exists w, ready, (kr_completionResult q'), t', s1. exact Hrun.
Defined.
