(* ===== verification/KernelWorkerEnd.v ===== *)
(** The end of a worker of the kernel proxy ([flagcxKernelWorkerFinish] of
    [core/proxy.cc]) and the fence of device code: what a thread that returns
    from [fifoFlush] may rely on, while the worker runs, while it ends and after
    it has ended, with or without an error. *)
From S2P Require Import Prelude Flagcx Arrays NetTransport NetScoreboard KernelProxy KernelProxyInv KernelProxyProgress.
From S2P Require Import KernelProxyCalls KernelProxyPoll KernelTrigger KernelFifo KernelWorker KernelWorkerInv KernelWorkerOrder.
From S2P Require Import KernelWorkerFence.

(** ** The end of the worker *)

(** Where the worker is.  [second] tells the second reading of the terminal
    result, after the drain, from the first; [closed] is [producerGateClosed]. *)
Inductive worker_phase :=
| Working
| Terminal (second closed : bool)     (* before the terminal result is read and stored *)
| CloseGate (second : bool)           (* before the gate is closed *)
| AwaitProducers (second : bool)      (* in the loop of the closing *)
| Draining (closed : bool)            (* in [flagcxKernelProxyDrain] *)
| Finalizing                          (* before [flagcxKernelProxyFinalizeTerminalFifo] *)
| Finished (finalized : bool)         (* before the transport is destroyed *)
| Gone (finalized : bool).

(** What follows a reading of the terminal result. *)
Definition after_terminal (terminal : flagcxResult_t) (second closed : bool) : worker_phase :=
  if failed terminal && negb closed then CloseGate second
  else if negb second then Draining closed
  else if failed terminal then Finalizing else Finished false.

Section End_.
Context {S : Type}.
Context (comm : flagcxHeteroComm).
Context (test : S -> Z -> flagcxResult_t * bool * S) (postFlush : S -> Z -> Z -> Z -> Z -> flagcxResult_t * Z * S).
Context (has_put has_get has_putSignal : bool).
Context (netCall : S -> flagcxNetSubmitContext -> net_call -> flagcxResult_t * Z * S).
Context (heteroGroupStart heteroGroupEnd : S -> flagcxResult_t * S).
Context (heteroSendRecv : S -> bool -> Z -> Z -> Z -> Z -> flagcxResult_t * S).

Abbreviation worker_step := (worker_step comm test postFlush has_put has_get has_putSignal netCall
  heteroGroupStart heteroGroupEnd heteroSendRecv).

(** One step of [flagcxKernelWorkerFinish]. *)
Inductive finish_step : worker_phase * (flagcxKernelWorkerState * S) -> worker_phase * (flagcxKernelWorkerState * S) -> Prop :=
| finish_begin w s : finish_step (Working, (w, s)) (Terminal false false, (w, s))
| finish_terminal w s second closed :
    let terminal := ks_terminal (kw_state w) in
    finish_step (Terminal second closed, (w, s))
      (after_terminal terminal second closed,
       (set_kw_state (flagcxKernelProxyStoreLocalTerminal terminal (kw_state w)) w, s))
| finish_close w s second :
    finish_step (CloseGate second, (w, s)) (AwaitProducers second, (set_kw_fifo (close_gate (kw_fifo w)) w, s))
| finish_closed w s second :
    gate_busy (kw_fifo w) = false ->
    finish_step (AwaitProducers second, (w, s)) (if second then Finalizing else Draining true, (w, s))
| finish_poll w s closed k s' :
    kp_nativeInflight (ks_transport (kw_state w)) <> 0 ->
    worker_poll comm test postFlush (kw_state w) s = Some (k, s') ->
    finish_step (Draining closed, (w, s)) (Draining closed, (set_kw_state k w, s'))
| finish_drained w s closed :
    kp_nativeInflight (ks_transport (kw_state w)) = 0 ->
    finish_step (Draining closed, (w, s)) (Terminal true closed, (w, s))
| finish_finalize w s r f completed :
    flagcxKernelProxyFinalizeTerminalFifo (kw_fifo w) (ks_completed (kw_state w)) = (r, f, completed) ->
    let k := kw_state w in
    finish_step (Finalizing, (w, s))
      (Finished (negb (failed r)),
       (set_kw_state (MkKernelProxyState (ks_transport k) completed (ks_fifoTerminal k) (ks_terminal k) (ks_rmaError k))
          (set_kw_fifo f w), s))
| finish_destroy w s finalized t :
    flagcxKernelProxyTransportDestroy (Some (ks_transport (kw_state w))) = Some t ->
    finish_step (Finished finalized, (w, s)) (Gone finalized, (set_kw_state (set_transport t (kw_state w)) w, s)).

(** ** The machine *)

(** The worker with its phase, and a device thread that runs [fifoFlush] once. *)
Record fence_system := MkFence {
  fe_phase : worker_phase;
  fe_worker : flagcxKernelWorkerState * S;
  fe_flush : flusher
}.

Abbreviation fe_state x := (kw_state (fst (fe_worker x))).
Abbreviation fe_fifo x := (kw_fifo (fst (fe_worker x))).

Inductive fence_step : fence_system -> fence_system -> Prop :=
| fence_work x y p : worker_step x y -> fence_step (MkFence Working x p) (MkFence Working y p)
| fence_finish ph x ph' y p : finish_step (ph, x) (ph', y) -> fence_step (MkFence ph x p) (MkFence ph' y p)
| fence_flush ph x p :
    fence_step (MkFence ph x p)
      (MkFence ph x (fifoFlush_step (ks_fifoTerminal (kw_state (fst x))) (ff_produced (kw_fifo (fst x))) (ks_completed (kw_state (fst x))) p))
(* In every phase: other device code, which does not write [consumed] ... *)
| fence_device ph w s p produced producerState slots m :
    length slots = length (ff_slots (kw_fifo w)) -> same_memory (kw_memory w) m ->
    fence_step (MkFence ph (w, s) p)
      (MkFence ph (set_kw_memory m (set_kw_fifo (MkFifo (ff_capacity (kw_fifo w)) (ff_consumed (kw_fifo w)) produced producerState slots) w), s) p)
(* ... a worker that publishes the first error of the communicator ... *)
| fence_error ph w s p r rmaError :
    ks_terminal (kw_state w) = flagcxSuccess -> r <> flagcxInProgress ->
    fence_step (MkFence ph (w, s) p)
      (MkFence ph (set_kw_state (MkKernelProxyState (ks_transport (kw_state w)) (ks_completed (kw_state w)) (ks_fifoTerminal (kw_state w))
        r rmaError) w, s) p)
(* ... and the network. *)
| fence_network ph w s s' p : fence_step (MkFence ph (w, s) p) (MkFence ph (w, s') p).

Definition fence_initial (x : fence_system) : Prop :=
  fe_phase x = Working /\ worker_initial comm (fe_worker x) /\ fe_flush x = FlushCall.

(** ** Invariant *)

(** The phases after the drain, those that follow a failure, and the end of a
    failed FIFO. *)
Definition drained (ph : worker_phase) : bool :=
  match ph with Terminal true _ | CloseGate true | AwaitProducers true | Finalizing | Finished _ | Gone _ => true | _ => false end.
Definition failing (ph : worker_phase) : bool :=
  match ph with CloseGate true | AwaitProducers true | Finalizing => true | Finished b | Gone b => b | _ => false end.
Definition finalized (ph : worker_phase) : bool := match ph with Finished b | Gone b => b | _ => false end.

(** What device code may rely on, but for a failed FIFO. *)
Record in_order (w : flagcxKernelWorkerState) : Prop := {
  io_completed : 0 <= ks_completed (kw_state w) <= ff_consumed (kw_fifo w);
  io_in_use : forall n, in_use w n -> ks_completed (kw_state w) < n <= ff_consumed (kw_fifo w);
  io_tracked : kw_pendingTracked w = true -> sc_sequence (kw_submit w) = ff_consumed (kw_fifo w) + 1
}.

Record fence_inv (x : fence_system) : Prop := {
  fn_worker : match fe_phase x with
              | Finished true => True
              | Gone false => in_order (fst (fe_worker x))
              | Gone true => True
              | _ => exists a, worker_inv comm (fst (fe_worker x)) a
              end;
  fn_drained : drained (fe_phase x) = true -> kp_nativeInflight (ks_transport (fe_state x)) = 0;
  fn_failing : failing (fe_phase x) = true -> failed (ks_fifoTerminal (fe_state x)) = true;
  fn_finalized : finalized (fe_phase x) = true -> ff_consumed (fe_fifo x) = ks_completed (fe_state x)
}.

Lemma worker_inv_order w a : worker_inv comm w a -> in_order w.
Proof.
  intros I. split; [by eapply completed_consumed|intros n; by apply (in_use_bounds comm w a)|].
  intros Ht. destruct (wi_tracked _ _ _ I Ht) as (_ & _ & -> & _). destruct (wi_consumed _ _ _ I) as [_ ->].
  unfold tracked_count. rewrite Ht. lia.
Qed.

Lemma fence_inv_order x : fence_inv x -> finalized (fe_phase x) = false -> in_order (fst (fe_worker x)).
Proof.
  intros [Hw _ _ _] Hf. destruct (fe_phase x) as [| | | | | |[]|[]]; try done; destruct Hw as [a I]; by eapply worker_inv_order.
Qed.

(** What the rest of the program does to the words of the worker. *)
Lemma in_order_env w m produced producerState slots :
  in_order w ->
  in_order (set_kw_memory m (set_kw_fifo (MkFifo (ff_capacity (kw_fifo w)) (ff_consumed (kw_fifo w)) produced producerState slots) w)).
Proof. intros [H1 H2 H3]. by split. Qed.

Lemma worker_inv_env w a produced producerState slots m :
  worker_inv comm w a -> length slots = length (ff_slots (kw_fifo w)) -> same_memory (kw_memory w) m ->
  worker_inv comm
    (set_kw_memory m (set_kw_fifo (MkFifo (ff_capacity (kw_fifo w)) (ff_consumed (kw_fifo w)) produced producerState slots) w)) a.
Proof.
  intros [K C X [F0 F1] [N0 N] T] Hl Hm. constructor; try done; cbn; [by eapply comm_ok_memory|by rewrite Hl].
Qed.

Lemma worker_inv_error w a r rmaError :
  worker_inv comm w a -> r <> flagcxInProgress ->
  worker_inv comm (set_kw_state (MkKernelProxyState (ks_transport (kw_state w)) (ks_completed (kw_state w)) (ks_fifoTerminal (kw_state w))
        r rmaError) w) a.
Proof.
  intros I Hr. eapply worker_inv_keep; try done; [|by apply I]. destruct I as [[It T C E X] _ _ _ _ _]. by constructor.
Qed.

Lemma worker_inv_store w a r : worker_inv comm w a -> worker_inv comm (set_kw_state (flagcxKernelProxyStoreLocalTerminal r (kw_state w)) w) a.
Proof.
  intros I. destruct (local_terminal r (kw_state w)) as [Et Ek].
  eapply worker_inv_keep; [exact I|done|by apply Ek, I|done|cbn; by rewrite Et|].
  intros Ht. cbn. rewrite Et. apply (wi_tracked _ _ _ I Ht).
Qed.

Lemma store_failed r k : r <> flagcxInProgress -> failed r = true -> failed (ks_fifoTerminal (flagcxKernelProxyStoreLocalTerminal r k)) = true.
Proof. intros Hr Hf. unfold flagcxKernelProxyStoreLocalTerminal. rewrite Hf, bool_decide_false by done. done. Qed.

Lemma in_order_destroyed w : in_order w -> in_order (set_kw_state (set_transport kernel_proxy_zero (kw_state w)) w).
Proof. intros [H1 H2 H3]. split; try done. by intros n (j & q & Hj & _). Qed.

Lemma finish_step_inv ph x ph' y p :
  finish_step (ph, x) (ph', y) -> fence_inv (MkFence ph x p) -> fence_inv (MkFence ph' y p).
Proof.
  intros Hs [Hw Hd Hf Hz]. inversion Hs; subst; cbn [fe_phase fe_worker fe_flush fst] in *.
  - by split.
  - destruct Hw as [a I]. pose proof (worker_inv_store w a terminal I) as I'.
    destruct (local_terminal terminal (kw_state w)) as [Et _].
    assert (Hst : failed terminal = true -> failed (ks_fifoTerminal (flagcxKernelProxyStoreLocalTerminal terminal (kw_state w))) = true)
      by (apply store_failed, I).
    unfold after_terminal. fold terminal.
    destruct (failed terminal) eqn:Hft, closed, second; cbn [andb negb]; split; cbn [fe_phase fe_worker fst kw_state set_kw_state drained failing finalized];
      rewrite ?Et; try done; try (by exists a); auto.
  - destruct Hw as [a I]. split; try done. exists a. destruct I as [K C X [F0 F1] [N0 N] T]. by constructor.
  - destruct second; split; try done; intros _; first [by apply Hd|by apply Hf].
  - destruct Hw as [a I]. destruct (worker_poll_ok comm test postFlush w a s I) as (k' & s1 & a' & Hrun & I' & _).
    split; try done. exists a'. cbn. congruence.
  - by split.
  - destruct Hw as [a I]. unfold flagcxKernelProxyFinalizeTerminalFifo in *. specialize (Hd eq_refl). specialize (Hf eq_refl).
    destruct (_ || _); simplify_eq.
    + change (failed flagcxInvalidUsage) with true. cbn [negb]. split; try done. exists a.
      cbn [fe_worker fst]. by destruct w as [[] ?].
    + change (failed flagcxSuccess) with false. cbn [negb]. by split.
  - match goal with Ht : flagcxKernelProxyTransportDestroy _ = _ |- _ => injection Ht as <- end.
    destruct finalized0.
    + by split.
    + destruct Hw as [a I]. split; try done. by apply in_order_destroyed, worker_inv_order with a.
Qed.

Lemma fence_step_inv x y : fence_step x y -> fence_inv x -> fence_inv y.
Proof.
  intros Hs Hi. destruct Hs as [x y p Hs|ph x ph' y p Hs|ph x p|ph w s p produced ps slots m Hl Hm|ph w s p r e Ht Hr|ph w s s' p].
  - destruct Hi as [Hw _ _ _]. split; try done. by eapply worker_step_inv.
  - by eapply finish_step_inv.
  - by destruct Hi.
  - destruct Hi as [Hw Hd Hf Hz]. split; try done. cbn [fe_phase fe_worker fst] in *.
    destruct ph as [| | | | | |[]|[]]; try done; try (destruct Hw as [a I]; exists a; by apply worker_inv_env).
    by apply in_order_env.
  - destruct Hi as [Hw Hd Hf Hz]. split; try done. cbn [fe_phase fe_worker fst] in *.
    destruct ph as [| | | | | |[]|[]]; try done; try (destruct Hw as [a I]; exists a; by apply worker_inv_error).
    destruct Hw as [H1 H2 H3]. by split.
  - by destruct Hi.
Qed.

Lemma fence_reachable_inv x y : fence_initial x -> reach fence_step x y -> fence_inv y.
Proof.
  intros (Hp & Hw & _) Hr. apply (reach_invariant fence_step fence_inv ltac:(intros; by eapply fence_step_inv) x y Hr).
  destruct x as [ph w p]. cbn in Hp, Hw. subst ph. split; try done.
  by apply (worker_reachable_inv comm test postFlush has_put has_get has_putSignal netCall heteroGroupStart heteroGroupEnd
    heteroSendRecv w w Hw), reach_refl.
Qed.

(** What a thread in [fifoFlush] has read: the terminal status, and its snapshot
    of [produced]. *)
Definition flush_read (x y : fence_system) : Prop :=
  match fe_flush y with
  | FlushCall | FlushReturned _ => True
  | FlushSnapshot => exists y1, reach fence_step x y1 /\ reach fence_step y1 y /\ ks_fifoTerminal (fe_state y1) = flagcxSuccess
  | FlushPoll n | FlushCheck n => exists y1 y2, reach fence_step x y1 /\ reach fence_step y1 y2 /\ reach fence_step y2 y /\
      ks_fifoTerminal (fe_state y1) = flagcxSuccess /\ n = ff_produced (fe_fifo y2)
  end.

Lemma flush_read_later x y z : fe_flush z = fe_flush y -> reach fence_step y z -> flush_read x y -> flush_read x z.
Proof.
  unfold flush_read. intros -> Hr. destruct (fe_flush y); [done| | | |done].
  - intros (y1 & H1 & H2 & H3). exists y1. split; [done|]. split; [by eapply reach_trans|done].
  - intros (y1 & y2 & H1 & H2 & H3 & H4). exists y1, y2. split; [done|]. split; [done|]. split; [by eapply reach_trans|done].
  - intros (y1 & y2 & H1 & H2 & H3 & H4). exists y1, y2. split; [done|]. split; [done|]. split; [by eapply reach_trans|done].
Qed.

Lemma flush_read_step x y z : reach fence_step x y -> fence_step y z -> flush_read x y -> flush_read x z.
Proof.
  intros Hxy Hs Hq. pose proof (reach_one _ _ _ Hs) as Hyz.
  assert (Hsame : fe_flush z = fe_flush y \/ exists ph v p, y = MkFence ph v p /\ z = MkFence ph v
    (fifoFlush_step (ks_fifoTerminal (kw_state (fst v))) (ff_produced (kw_fifo (fst v))) (ks_completed (kw_state (fst v))) p)).
  { destruct Hs; first [by left|by right; eexists _, _, _]. }
  destruct Hsame as [He|(ph & v & p & -> & ->)]; [by eapply flush_read_later|].
  destruct p as [| |n|n|r]; cbn [fifoFlush_step] in *.
  - destruct (failed _) eqn:Hf; [done|]. apply failed_success in Hf. exists (MkFence ph v FlushCall). done.
  - destruct Hq as (y1 & H1 & H2 & H3). exists y1, (MkFence ph v FlushSnapshot). split; [done|]. split; [done|]. by split.
  - destruct (fifoWordBefore _ n); [|done]. destruct Hq as (y1 & y2 & H1 & H2 & H3 & H4). exists y1, y2. split; [done|]. split; [done|].
    split; [by eapply reach_trans|done].
  - destruct (failed _); [done|]. destruct Hq as (y1 & y2 & H1 & H2 & H3 & H4). exists y1, y2. split; [done|]. split; [done|].
    split; [by eapply reach_trans|done].
  - done.
Qed.

Lemma flush_reachable_read x y : fence_initial x -> reach fence_step x y -> flush_read x y.
Proof.
  intros (_ & _ & Hp) Hr.
  apply (reach_invariant fence_step (fun z => reach fence_step x z /\ flush_read x z)) with (s1 := x); [|done|].
  - intros a b [Ha Hq] Hab. split; [by eapply reach_trans, reach_one|by eapply flush_read_step].
  - split; [apply reach_refl|]. unfold flush_read. by rewrite Hp.
Qed.

(** C6: the fence of device code.  Take a thread that calls [fifoFlush] at any
    time from the start of the worker to after its end, whatever the network,
    other device code and other workers do, and let the call return
    [flagcxSuccess].  The thread had found the terminal status clear, and then
    taken the snapshot [n] of [produced].  When it returns, either the items 1 to
    [n] are all retired and complete: none of them is a request in use and none
    is at hand; or the worker has ended with an error in the meantime and has
    given up what was left: then the terminal status of the FIFO says so, no
    native request is in flight and [consumed] and [completed] are equal. *)
Theorem fifo_fence x y n :
  fence_initial x -> reach fence_step x y -> fe_flush y = FlushPoll n ->
  fifoFlush_step (ks_fifoTerminal (fe_state y)) (ff_produced (fe_fifo y)) (ks_completed (fe_state y)) (FlushPoll n)
    = FlushReturned flagcxSuccess ->
  (exists y1 y2, reach fence_step x y1 /\ reach fence_step y1 y2 /\ reach fence_step y2 y /\
     ks_fifoTerminal (fe_state y1) = flagcxSuccess /\ n = ff_produced (fe_fifo y2)) /\
  n <= ks_completed (fe_state y) <= ff_consumed (fe_fifo y) /\
  if finalized (fe_phase y)
  then failed (ks_fifoTerminal (fe_state y)) = true /\ kp_nativeInflight (ks_transport (fe_state y)) = 0 /\
    ff_consumed (fe_fifo y) = ks_completed (fe_state y)
  else (forall i, in_use (fst (fe_worker y)) i -> n < i) /\
    (kw_pendingTracked (fst (fe_worker y)) = true -> n < sc_sequence (kw_submit (fst (fe_worker y)))).
Proof.
  intros Hi Hr Hp Hf. pose proof (fence_reachable_inv x y Hi Hr) as I.
  assert (Hn : n <= ks_completed (fe_state y)).
  { cbn in Hf. unfold fifoWordBefore in Hf. destruct (Z.ltb_spec (ks_completed (fe_state y)) n); [done|lia]. }
  split; [pose proof (flush_reachable_read x y Hi Hr) as Hq; unfold flush_read in Hq; by rewrite Hp in Hq|].
  destruct (finalized (fe_phase y)) eqn:Hz.
  - pose proof (fn_finalized _ I Hz) as Hc. split; [lia|]. split; [|split; [|done]].
    + apply (fn_failing _ I). by destruct (fe_phase y) as [| | | | | |[]|[]].
    + apply (fn_drained _ I). by destruct (fe_phase y) as [| | | | | |[]|[]].
  - destruct (fence_inv_order y I Hz) as [H1 H2 H3]. split; [lia|]. split.
    + intros i Hu%H2. lia.
    + intros ->%H3. lia.
Qed.
End End_.

(** ** Examples *)

Abbreviation demo_fence := (fence_step demo_comm demo_test demo_flush true true true demo_net demo_group demo_group demo_p2p).

(** Device code has published one put. *)
Definition with_put (w : flagcxKernelWorkerState) : flagcxKernelWorkerState :=
  set_kw_memory (MkHostMemory ∅ []) (set_kw_fifo (MkFifo (ff_capacity (kw_fifo w)) (ff_consumed (kw_fifo w)) 1 0
    [demo_put; trigger_zero; trigger_zero; trigger_zero]) w).

(** A worker at its start: nothing has failed; a put that is published is posted
    and completes. *)
Lemma demo_worker : exists w, worker_initial demo_comm (w, false) /\
  (ks_fifoTerminal (kw_state w), ks_terminal (kw_state w), ks_completed (kw_state w)) = (flagcxSuccess, flagcxSuccess, 0) /\
  (kp_nativeInflight (ks_transport (kw_state w)), kp_nextSequence (ks_transport (kw_state w))) = (0, 1) /\
  (length (ff_slots (kw_fifo w)), length (hm_counters (kw_memory w))) = (4%nat, 0%nat) /\
  exists w', reach demo_step (with_put w, false) (w', true) /\ ks_completed (kw_state w') = 1.
Proof.
  destruct demo_initial as ([w0 s0] & Hi & Hs & Hw). cbn [snd fst] in Hs, Hw. subst s0. vm_compute in Hw. injection Hw as Hw.
  exists w0. split; [exact Hi|]. clear Hi. subst w0. split; [vm_compute; reflexivity|]. split; [vm_compute; reflexivity|].
  split; [vm_compute; reflexivity|]. eexists. split.
  - eapply reach_step; [eapply (step_once _ _ _ _ _ _ _ _ _ _ false false); [vm_compute; reflexivity|vm_compute; reflexivity]|].
    eapply reach_step; [apply (step_network _ _ _ _ _ _ _ _ _ _ _ _ true)|].
    eapply reach_step; [eapply (step_once _ _ _ _ _ _ _ _ _ _ true false); [vm_compute; reflexivity|vm_compute; reflexivity]|].
    apply reach_refl.
  - vm_compute. reflexivity.
Qed.

Lemma reach_working x y p : reach demo_step x y -> reach demo_fence (MkFence Working x p) (MkFence Working y p).
Proof. induction 1 as [x|x y z Hs _ IH]; [apply reach_refl|]. eapply reach_step; [by apply fence_work|exact IH]. Qed.

(** A thread takes its snapshot of one put and finds it not complete. *)
Lemma demo_waits w : ks_fifoTerminal (kw_state w) = flagcxSuccess -> ks_completed (kw_state w) = 0 ->
  length (ff_slots (kw_fifo w)) = 4%nat -> length (hm_counters (kw_memory w)) = 0%nat ->
  reach demo_fence (MkFence Working (w, false) FlushCall) (MkFence Working (with_put w, false) (FlushPoll 1)).
Proof.
  intros Ht Hc Hl Hm. eapply reach_step; [apply (fence_device _ _ _ _ _ _ _ _ _ _ Working w false FlushCall 1 0
    [demo_put; trigger_zero; trigger_zero; trigger_zero] (MkHostMemory ∅ [])); [by rewrite Hl|by unfold same_memory; rewrite Hm]|].
  eapply reach_step; [apply fence_flush|]. cbn. rewrite Ht.
  eapply reach_step; [apply fence_flush|]. apply reach_refl.
Qed.

Lemma fifo_fence_witness : exists y : fence_system (S:=bool), ks_completed (kw_state (fst (fe_worker y))) = 1 /\
  1 <= ff_consumed (kw_fifo (fst (fe_worker y))) /\ forall i, in_use (fst (fe_worker y)) i -> 1 < i.
Proof.
  destruct demo_worker as (w & Hi & Hf & _ & Hl & w' & Hr & Hc). injection Hf as Ht _ Hc0. injection Hl as Hl Hm.
  exists (MkFence Working (w', true) (FlushPoll 1)). split; [exact Hc|].
  assert (Hx : fence_initial demo_comm (MkFence Working (w, false) FlushCall)) by (split; [reflexivity|split; [exact Hi|reflexivity]]).
  assert (Hxy : reach demo_fence (MkFence Working (w, false) FlushCall) (MkFence Working (w', true) (FlushPoll 1)))
    by (eapply reach_trans; [by apply demo_waits|by apply reach_working]).
  destruct (fifo_fence demo_comm demo_test demo_flush true true true demo_net demo_group demo_group demo_p2p _ _ 1 Hx Hxy eq_refl)
    as (_ & H1 & H2 & _); [cbn; rewrite Hc; reflexivity|]. split; [cbn in *; lia|exact H2].
Defined.

(** The other case is real: the worker of a failed FIFO ends before it takes the
    put, and the thread that waits for it returns [flagcxSuccess]. *)
Lemma flush_of_failed_fifo : exists x y : fence_system (S:=bool), fence_initial demo_comm x /\ reach demo_fence x y /\
  fe_flush y = FlushReturned flagcxSuccess /\ finalized (fe_phase y) = true /\
  kp_nextSequence (ks_transport (kw_state (fst (fe_worker y)))) = 1.
Proof.
  destruct demo_worker as (w & Hi & Hf & Hn & Hl & _). injection Hf as Ht Htm Hc0. injection Hn as Hn Hs. injection Hl as Hl Hm.
  exists (MkFence Working (w, false) FlushCall).
  eexists. split; [split; [reflexivity|split; [exact Hi|reflexivity]]|]. split.
  - eapply reach_trans; [by apply demo_waits|].
    eapply reach_step; [apply fence_flush|]. cbn. rewrite Hc0. cbn.
    eapply reach_step; [apply fence_flush|]. cbn. rewrite Ht. cbn.
    eapply reach_step; [apply (fence_error _ _ _ _ _ _ _ _ _ _ _ _ _ _ flagcxRemoteError None); [exact Htm|done]|].
    eapply reach_step; [apply fence_finish, finish_begin|].
    eapply reach_step; [apply fence_finish, finish_terminal|]. cbn.
    eapply reach_step; [apply fence_finish, finish_close|].
    eapply reach_step; [apply fence_finish, finish_closed; reflexivity|]. cbn.
    eapply reach_step; [apply fence_finish, finish_drained; exact Hn|].
    eapply reach_step; [apply fence_finish, finish_terminal|]. cbn.
    eapply reach_step; [eapply fence_finish, finish_finalize; reflexivity|]. cbn.
    eapply reach_step; [apply fence_flush|]. apply reach_refl.
  - split; [reflexivity|]. split; [reflexivity|]. exact Hs.
Qed.
