(* ===== verification/UniDag.v ===== *)
(** The dependency graphs of the uniform runner
    ([flagcx/runner/uni_runner_impl.cc], [runner/include/uni_runner_impl.h]):
    how each collective is cut into chunks and slices, and the graph of copies,
    transfers and reductions that a rank builds for it.

    [UniSched] runs the graphs; [UniDagShape] and [UniDagChain] state the
    graphs in closed form, [UniDagInit], [UniDagChainInit] and [UniCollectives]
    prove that the code builds them.  A node is its index in the array of nodes, a queue the list of
    its nodes from head to tail.  The arrays are allocated larger than asked
    (the byte size is passed as the number of elements); the model has the
    bounds that are asked for.  Any allocation may fail: [mem n] tells whether
    the [n]-th is granted. *)
From S2P Require Import Prelude Flagcx Arrays C2cRunner KernelTrigger.

(** ** Nodes *)

Record uniRunnerP2pOpData := MkP2pOp {
  po_addr : Z;
  po_count : Z;
  po_peerRank : Z;
  po_datatype : flagcxDataType_t;
  po_type : Z
}.

(** [uniRunnerDagNodeType] with the member of the union it selects. *)
Inductive nodeData :=
| P2pNode (ops : option (list uniRunnerP2pOpData)) (eventIdx : Z)
| RedNode (input1 input2 output count nthreads : Z) (datatype : flagcxDataType_t) (redOp : flagcxRedOp_t) (triggerIdx : Z)
| CpyNode (src dst count : Z) (datatype : flagcxDataType_t) (eventIdx : Z).

Record uniRunnerDagNode := MkNode {
  nd_data : nodeData;
  nd_numParents : Z;
  nd_numChildren : Z;
  nd_children : option (list Z)
}.

(** What [flagcxCalloc] leaves. *)
Definition node_zero : uniRunnerDagNode := MkNode (P2pNode None 0) 0 0 None.

Definition set_data d n := MkNode d (nd_numParents n) (nd_numChildren n) (nd_children n).
Definition set_numParents p n := MkNode (nd_data n) p (nd_numChildren n) (nd_children n).
Definition set_children c n := MkNode (nd_data n) (nd_numParents n) (nd_numChildren n) c.

Definition is_red (n : uniRunnerDagNode) : bool := match nd_data n with RedNode _ _ _ _ _ _ _ _ => true | _ => false end.

(** The nodes and queues of [flagcxUniRunnerState]; [dg_requests] counts the
    allocations asked for and [dg_live] those that are held. *)
Record dag := MkDag {
  dg_nodes : option (list uniRunnerDagNode);
  dg_numDagNodes : Z;
  dg_numPendingNodes : Z;
  dg_p2pReady : list Z;
  dg_redReady : list Z;
  dg_p2pInflight : list Z;
  dg_redInflight : list Z;
  dg_requests : nat;
  dg_live : Z
}.

Definition dag_empty : dag := MkDag None 0 0 [] [] [] [] 0 0.

Definition set_nodes l d :=
  MkDag (Some l) (dg_numDagNodes d) (dg_numPendingNodes d) (dg_p2pReady d) (dg_redReady d) (dg_p2pInflight d) (dg_redInflight d) (dg_requests d) (dg_live d).
Definition set_num n d :=
  MkDag (dg_nodes d) n (dg_numPendingNodes d) (dg_p2pReady d) (dg_redReady d) (dg_p2pInflight d) (dg_redInflight d) (dg_requests d) (dg_live d).
Definition set_pending n d :=
  MkDag (dg_nodes d) (dg_numDagNodes d) n (dg_p2pReady d) (dg_redReady d) (dg_p2pInflight d) (dg_redInflight d) (dg_requests d) (dg_live d).
Definition set_ready p r d :=
  MkDag (dg_nodes d) (dg_numDagNodes d) (dg_numPendingNodes d) p r (dg_p2pInflight d) (dg_redInflight d) (dg_requests d) (dg_live d).
Definition set_inflight p r d :=
  MkDag (dg_nodes d) (dg_numDagNodes d) (dg_numPendingNodes d) (dg_p2pReady d) (dg_redReady d) p r (dg_requests d) (dg_live d).
Definition count_request ok d :=
  MkDag (dg_nodes d) (dg_numDagNodes d) (dg_numPendingNodes d) (dg_p2pReady d) (dg_redReady d) (dg_p2pInflight d) (dg_redInflight d)
    (S (dg_requests d)) (dg_live d + (if ok : bool then 1 else 0)).

(** ** Cutting

    [total] elements in [n] parts, of which the first [total mod n] have one
    element more; [int] indices are widened to [size_t]. *)

Definition to_size (x : Z) : Z := x mod U64_MOD.

Definition part_count (total n i : Z) : Z := (total / n) +u64 (if i <? total mod n then 1 else 0).

(** [s * base * typeSize] and then [+= std::min(s, (int)remainder) * typeSize]. *)
Definition part_offset (total n i typeSize : Z) : Z :=
  (i *u64 (total / n) *u64 typeSize) +u64 (Z.min i (total mod n) *u64 typeSize).

(** [(chunk * base + std::min(chunk, (int)remainder)) * typeSize]. *)
Definition chunk_offset (total n i typeSize : Z) : Z :=
  (i *u64 (total / n) +u64 Z.min i (total mod n)) *u64 typeSize.

(** ** What a collective is called with *)

Record uni_args := MkUniArgs {
  ua_rank : Z;
  ua_nranks : Z;
  ua_numSlices : Z;
  ua_nthreads : Z;
  ua_sendbuff : Z;
  ua_recvbuff : Z;
  ua_scratchbuff : Z;
  ua_count : Z;
  ua_datatype : flagcxDataType_t;
  ua_redOp : flagcxRedOp_t
}.

Section Build.
Variable mem : nat -> bool.
Variable a : uni_args.

Abbreviation rank := (ua_rank a).
Abbreviation nranks := (ua_nranks a).
Abbreviation numSlices := (ua_numSlices a).
Abbreviation typeSize := (getFlagcxDataTypeSize (ua_datatype a)).

(** ** Building

    A piece of a function that builds: from the counter [globalNodeIdx] and the
    state; [None] is an access out of range. *)

Definition build : Type := Z * dag -> option (flagcxResult_t * (Z * dag)).

Definition finish : build := fun s => Some (flagcxSuccess, s).

(** [FLAGCXCHECK(p); q] *)
Definition and_then (p q : build) : build := fun s =>
  '(r, s) ← p s; if flagcx_failed r then Some (r, s) else q s.

(** [for (int i = from; n more times; i++)] *)
Fixpoint for_loop (from : Z) (n : nat) (body : Z -> build) : build :=
  match n with
  | O => finish
  | S n => and_then (body from) (for_loop (from + 1) n body)
  end.
Definition for_to (n : Z) : (Z -> build) -> build := for_loop 0 (Z.to_nat n).

Definition on_dag (f : dag -> dag) : build := fun s => Some (flagcxSuccess, (s.1, f s.2)).

(** [flagcxCalloc] *)
Definition calloc : build := fun '(g, d) =>
  let ok := mem (dg_requests d) in
  Some (if ok then flagcxSuccess else flagcxSystemError, (g, count_request ok d)).

(** [runnerState->dagNodes[i]] changed by [f] *)
Definition upd_node (i : Z) (f : uniRunnerDagNode -> uniRunnerDagNode) : build := fun '(g, d) =>
  l ← dg_nodes d; n ← arr_get l i; l' ← arr_set l i (f n); Some (flagcxSuccess, (g, set_nodes l' d)).

(** [runnerState->dagNodes[i].children[j] = c] *)
Definition set_child (i j c : Z) : build := fun '(g, d) =>
  l ← dg_nodes d; n ← arr_get l i; cs ← nd_children n; cs' ← arr_set cs j c;
  l' ← arr_set l i (set_children (Some cs') n); Some (flagcxSuccess, (g, set_nodes l' d)).

(** The array of [n] nodes. *)
Definition alloc_nodes (n : Z) : build :=
  and_then (on_dag (set_num n)) (and_then calloc (on_dag (set_nodes (replicate (Z.to_nat n) node_zero)))).

(** [dagNodes[i].numChildren = n] and the array for them, or no array. *)
Definition set_numChildren (i n : Z) : build :=
  upd_node i (fun nd => MkNode (nd_data nd) (nd_numParents nd) n (nd_children nd)).
Definition alloc_children (i n : Z) : build :=
  and_then calloc (upd_node i (set_children (Some (replicate (Z.to_nat n) 0)))).

(** [int idx = globalNodeIdx++] *)
Definition with_idx (k : Z -> build) : build := fun '(g, d) => k g (g + 1, d).
Definition here (k : Z -> build) : build := fun '(g, d) => k g (g, d).

Definition pend : build := on_dag (fun d => set_pending (dg_numPendingNodes d + 1) d).
Definition enqueue_p2p (i : Z) : build := on_dag (fun d => set_ready (dg_p2pReady d ++ [i]) (dg_redReady d) d).
Definition enqueue_red (i : Z) : build := on_dag (fun d => set_ready (dg_p2pReady d) (dg_redReady d ++ [i]) d).

(** A P2P node: its type, the array of its operations, and these. *)
Definition p2p_node (i : Z) (ops : list uniRunnerP2pOpData) : build :=
  and_then (upd_node i (set_data (P2pNode None 0)))
  (and_then calloc (upd_node i (set_data (P2pNode (Some ops) 0)))).

Definition uni_send_op (addr count peer : Z) : uniRunnerP2pOpData := MkP2pOp addr count peer (ua_datatype a) flagcxDevicePrimSend.
Definition uni_recv_op (addr count peer : Z) : uniRunnerP2pOpData := MkP2pOp addr count peer (ua_datatype a) flagcxDevicePrimRecv.

(** A division by [n]. *)
Definition divide_by (n : Z) : build := fun s => if n =? 0 then None else Some (flagcxSuccess, s).

Definition set_parents (i p : Z) : build := upd_node i (set_numParents p).

Local Notation "p ';>' q" := (and_then p q) (at level 65, right associativity).

(** A reduction node, what it waits for and its only child, if it has one. *)
Definition red_node (i : Z) (data : nodeData) (child : option Z) : build :=
  upd_node i (set_data data) ;> pend ;> set_parents i 1 ;>
  match child with
  | Some c => set_numChildren i 1 ;> alloc_children i 1 ;> set_child i 0 c
  | None => set_numChildren i 0
  end.

(** The only rank: a copy, unless the buffers are the same. *)
Definition single_copy : build :=
  if (0 <? ua_count a) && negb (ua_sendbuff a =? ua_recvbuff a) then
    calloc ;> on_dag (fun d => set_num 1 (set_nodes [node_zero] d)) ;>
    upd_node 0 (set_data (CpyNode (ua_sendbuff a) (ua_recvbuff a) (ua_count a) (ua_datatype a) 0)) ;>
    set_parents 0 0 ;> set_numChildren 0 0 ;> enqueue_p2p 0 ;> on_dag (set_pending 0)
  else finish.

(** The number of elements of a slice of a rank's chunk, and where it begins. *)
Definition slice_count (chunk s : Z) : Z := part_count (part_count (ua_count a) nranks chunk) numSlices s.
Definition slice_in_chunk (chunk s : Z) : Z := part_offset (part_count (ua_count a) nranks chunk) numSlices s typeSize.
Definition slice_offset (chunk s : Z) : Z :=
  chunk_offset (ua_count a) nranks chunk typeSize +u64 slice_in_chunk chunk s.

Definition nextRank : Z := Z.rem (rank + 1) nranks.
Definition prevRank : Z := Z.rem (rank - 1 + nranks) nranks.

(** The transfer of a step: a slice of [txChunk] to the next rank, a slice of
    [rxChunk] from the one before. *)
Definition ring_ops (srcBase txChunk rxChunk s : Z) : list uniRunnerP2pOpData :=
  [uni_send_op (srcBase +u64 slice_offset txChunk s) (slice_count txChunk s) nextRank;
   uni_recv_op (ua_recvbuff a +u64 slice_offset rxChunk s) (slice_count rxChunk s) prevRank].

(** ** Local reduction *)

Definition initUniRunnerStateLocRed : build :=
  if nranks <? 2 then finish else
  alloc_nodes numSlices ;>
  for_to numSlices (fun s =>
    let rxOffset := slice_offset rank s in
    upd_node s (set_data (RedNode (ua_recvbuff a +u64 rxOffset) (ua_sendbuff a +u64 rxOffset) (ua_recvbuff a +u64 rxOffset)
      (slice_count rank s) (ua_nthreads a) (ua_datatype a) (ua_redOp a) 0)) ;>
    set_parents s 0 ;> set_numChildren s 0 ;> enqueue_red s).

(** ** Ring all-gather *)

Definition ag_step (nodesPerSlice s i : Z) : build := with_idx (fun p2p =>
  let txChunk := Z.rem (rank - i + nranks) nranks in
  let rxChunk := Z.rem (rank - i - 1 + nranks) nranks in
  p2p_node p2p (ring_ops (if i =? 0 then ua_sendbuff a else ua_recvbuff a) txChunk rxChunk s)).

(** The second pass over a slice: the chain through its nodes. *)
Definition ag_link (nodesPerSlice numNodes sliceNodeBaseIdx s i : Z) : build :=
  let currIdx := sliceNodeBaseIdx + i in
  let numChildren := if currIdx =? numNodes - 1 then 0 else 1 in
  set_parents currIdx (if currIdx =? 0 then 0 else 1) ;>
  set_numChildren currIdx numChildren ;> alloc_children currIdx numChildren ;>
  if s =? numSlices - 1 then
    if negb (currIdx =? numNodes - 1) then set_child currIdx 0 (i + 1) else finish
  else set_child currIdx 0 (currIdx + nodesPerSlice).

Definition initUniRunnerStateRingAG : build :=
  if nranks <? 1 then fun s => Some (flagcxInvalidArgument, s)
  else if nranks =? 1 then single_copy else
  let nodesPerSlice := nranks - 1 in
  let numNodes := numSlices * nodesPerSlice in
  alloc_nodes (numNodes + 1) ;>
  for_to numSlices (fun s => here (fun sliceNodeBaseIdx =>
    for_to (nranks - 1) (ag_step nodesPerSlice s) ;>
    for_to nodesPerSlice (ag_link nodesPerSlice numNodes sliceNodeBaseIdx s))) ;>
  with_idx (fun cpy =>
    let localChunkOffset := chunk_offset (ua_count a) nranks rank typeSize in
    upd_node cpy (set_data (CpyNode (ua_sendbuff a +u64 localChunkOffset) (ua_recvbuff a +u64 localChunkOffset)
      (part_count (ua_count a) nranks rank) (ua_datatype a) 0)) ;>
    set_parents cpy 0 ;> set_numChildren cpy 0 ;>
    enqueue_p2p cpy ;> enqueue_p2p 0 ;> on_dag (set_pending (numNodes - 1))).

(** ** Ring all-reduce *)

(** The parents of a transfer of the reduce-scatter, and its queue: the first of
    all is ready. *)
Definition p2p_parents (p2p first later i : Z) : build :=
  if p2p =? 0 then set_parents p2p 0 ;> enqueue_p2p p2p
  else set_parents p2p (if i =? 0 then first else later) ;> pend.

Definition ar_scatter_step (nodesPerSlice s i : Z) : build := with_idx (fun p2p =>
  let txChunk := Z.rem (rank - i + nranks) nranks in
  let rxChunk := Z.rem (rank - i - 1 + nranks) nranks in
  let rxOffset := slice_offset rxChunk s in
  p2p_node p2p (ring_ops (if i =? 0 then ua_sendbuff a else ua_recvbuff a) txChunk rxChunk s) ;>
  p2p_parents p2p 1 2 i ;>
  set_numChildren p2p 2 ;> alloc_children p2p 2 ;>
  set_child p2p 0 (if s =? numSlices - 1 then 2 * (i + 1) else p2p + nodesPerSlice) ;>
  set_child p2p 1 (p2p + 1) ;>
  with_idx (fun red =>
    red_node red (RedNode (ua_recvbuff a +u64 rxOffset) (ua_sendbuff a +u64 rxOffset) (ua_recvbuff a +u64 rxOffset)
      (slice_count rxChunk s) (ua_nthreads a) (ua_datatype a) (ua_redOp a) 0) (Some (red + 1)))).

(** A transfer of the all-gather: [first] parents in the first step, and the
    index of the first transfer of the phase. *)
Definition ar_gather_step (nodesPerSlice numNodes first phase s i : Z) : build := with_idx (fun p2p =>
  let txChunk := Z.rem (rank - i + 1 + nranks) nranks in
  let rxChunk := Z.rem (rank - i + nranks) nranks in
  let numChildren := if p2p =? numNodes - 1 then 0 else 1 in
  p2p_node p2p (ring_ops (ua_recvbuff a) txChunk rxChunk s) ;>
  pend ;> set_parents p2p (if i =? 0 then first else 1) ;>
  set_numChildren p2p numChildren ;> alloc_children p2p numChildren ;>
  if s =? numSlices - 1 then
    if negb (p2p =? numNodes - 1) then set_child p2p 0 (phase + i + 1) else finish
  else set_child p2p 0 (p2p + nodesPerSlice)).

Definition initUniRunnerStateRingAR : build :=
  if nranks <? 1 then fun s => Some (flagcxInvalidArgument, s)
  else if nranks =? 1 then single_copy else
  let nodesPerSlice := 3 * (nranks - 1) in
  let numNodes := numSlices * nodesPerSlice in
  alloc_nodes numNodes ;>
  for_to numSlices (fun s =>
    for_to (nranks - 1) (ar_scatter_step nodesPerSlice s) ;>
    for_to (nranks - 1) (ar_gather_step nodesPerSlice numNodes 2 (2 * nranks - 2) s)).

(** ** Sliced ring all-reduce: the reductions of a step in [numRedSlices] parts *)

(** One part of a reduction: its elements, and its offset within the slice. *)
Definition red_count (sliceCount numRedSlices r : Z) : Z := part_count sliceCount numRedSlices r.
Definition red_offset (rxOffset sliceCount numRedSlices r : Z) : Z :=
  (rxOffset +u64 (r *u64 (sliceCount / numRedSlices) *u64 typeSize)) +u64 (Z.min r (sliceCount mod numRedSlices) *u64 typeSize).

Definition sliced_scatter_step (numRedSlices nodesPerSlice s i : Z) : build := with_idx (fun p2p =>
  let txChunk := Z.rem (rank - i + nranks) nranks in
  let rxChunk := Z.rem (rank - i - 1 + nranks) nranks in
  let rxOffset := slice_offset rxChunk s in
  let rxSliceCount := slice_count rxChunk s in
  p2p_node p2p (ring_ops (if i =? 0 then ua_sendbuff a else ua_recvbuff a) txChunk rxChunk s) ;>
  p2p_parents p2p 1 (1 + numRedSlices) i ;>
  set_numChildren p2p (1 + numRedSlices) ;> alloc_children p2p (1 + numRedSlices) ;>
  set_child p2p 0 (if s =? numSlices - 1 then (i + 1) * (1 + numRedSlices) else p2p + nodesPerSlice) ;>
  for_to numRedSlices (fun r => set_child p2p (r + 1) (p2p + 1 + r)) ;>
  divide_by numRedSlices ;> here (fun redSliceStartIdx => for_to numRedSlices (fun r => with_idx (fun red =>
    let redOffset := red_offset rxOffset rxSliceCount numRedSlices r in
    red_node red (RedNode (ua_recvbuff a +u64 redOffset) (ua_sendbuff a +u64 redOffset) (ua_recvbuff a +u64 redOffset)
      (red_count rxSliceCount numRedSlices r) (ua_nthreads a) (ua_datatype a) (ua_redOp a) 0)
      (Some (redSliceStartIdx + numRedSlices)))))).

Definition initUniRunnerStateSlicedAR (numRedSlices : Z) : build :=
  if nranks <? 1 then fun s => Some (flagcxInvalidArgument, s)
  else if nranks =? 1 then single_copy else
  let nodesPerSlice := (numRedSlices + 2) * (nranks - 1) in
  let numNodes := numSlices * nodesPerSlice in
  alloc_nodes numNodes ;>
  for_to numSlices (fun s =>
    for_to (nranks - 1) (sliced_scatter_step numRedSlices nodesPerSlice s) ;>
    for_to (nranks - 1) (ar_gather_step nodesPerSlice numNodes (1 + numRedSlices) ((1 + numRedSlices) * (nranks - 1)) s)).

(** ** Ring reduce-scatter *)

(** The chunks are of the same size here. *)
Definition rs_slice_count (s : Z) : Z := part_count (ua_count a) numSlices s.
Definition rs_in_chunk (s : Z) : Z := part_offset (ua_count a) numSlices s typeSize.
Definition rs_offset (chunk s : Z) : Z := (chunk *u64 ua_count a *u64 typeSize) +u64 rs_in_chunk s.

(** The children of a transfer that is followed by its reductions, and by the
    transfer [next] unless it is the last. *)
Definition step_children (p2p numRedSlices : Z) (next : option Z) : build :=
  let numChildren := match next with Some _ => 1 + numRedSlices | None => numRedSlices end in
  set_numChildren p2p numChildren ;> alloc_children p2p numChildren ;>
  for_to numRedSlices (fun r => set_child p2p r (p2p + 1 + r)) ;>
  match next with Some c => set_child p2p numRedSlices c | None => finish end.

Definition rs_step (numRedSlices nodesPerSlice s i : Z) : build := with_idx (fun p2p =>
  let txChunk := Z.rem (rank - i - 1 + nranks) nranks in
  let rxChunk := Z.rem (rank - i - 2 + nranks) nranks in
  let sliceCount := rs_slice_count s in
  let rxOffset := rs_offset rxChunk s in
  let srcBase := if i =? 0 then ua_sendbuff a else ua_scratchbuff a in
  p2p_node p2p [uni_send_op (srcBase +u64 rs_offset txChunk s) sliceCount nextRank;
                uni_recv_op (ua_scratchbuff a +u64 rxOffset) sliceCount prevRank] ;>
  p2p_parents p2p 1 (1 + numRedSlices) i ;>
  step_children p2p numRedSlices
    (if s =? numSlices - 1 then if negb (i =? nranks - 2) then Some ((i + 1) * (1 + numRedSlices)) else None
     else Some (p2p + nodesPerSlice)) ;>
  divide_by numRedSlices ;> here (fun redSliceStartIdx => for_to numRedSlices (fun r => with_idx (fun red =>
    let redOffset := red_offset rxOffset sliceCount numRedSlices r in
    let output := if i =? nranks - 2 then ua_recvbuff a +u64 red_offset (rs_in_chunk s) sliceCount numRedSlices r
                  else ua_scratchbuff a +u64 redOffset in
    red_node red (RedNode (ua_scratchbuff a +u64 redOffset) (ua_sendbuff a +u64 redOffset) output
      (red_count sliceCount numRedSlices r) (ua_nthreads a) (ua_datatype a) (ua_redOp a) 0)
      (if i =? nranks - 2 then None else Some (redSliceStartIdx + numRedSlices)))))).

Definition initUniRunnerStateRingRS (numRedSlices : Z) : build :=
  if nranks <? 1 then fun s => Some (flagcxInvalidArgument, s)
  else if nranks =? 1 then single_copy else
  let nodesPerSlice := (numRedSlices + 1) * (nranks - 1) in
  let numNodes := numSlices * nodesPerSlice in
  alloc_nodes numNodes ;>
  for_to numSlices (fun s => for_to (nranks - 1) (rs_step numRedSlices nodesPerSlice s)).

(** ** Tree reduction *)

(** [8 * sizeof(int) - __builtin_clz(x)] and [__builtin_ctz(x)], undefined at 0. *)
Definition bit_length (x : Z) : Z := Z.log2 x + 1.
Definition ctz (x : Z) : Z := Z.log2 (Z.land x (- x)).

Variable root : Z.

Definition algoRank : Z := Z.rem (rank - root + nranks) nranks.
Definition nTotalSteps : Z := bit_length (nranks - 1).

(** [recvNodesPerSlice]: the steps in which a rank receives. *)
Definition recv_steps : Z :=
  let recvNodesPerSlice := if algoRank =? 0 then nTotalSteps else ctz algoRank in
  if negb (algoRank =? 0) && negb (recvNodesPerSlice =? 0) && (nranks - algoRank <=? Z.shiftl 1 (recvNodesPerSlice - 1)) then
    if negb (nranks - algoRank - 1 =? 0) then bit_length (nranks - algoRank - 1) else 0
  else recvNodesPerSlice.

Definition tree_recv_step (numRedSlices nodesPerSlice s i : Z) : build := with_idx (fun recv =>
  let sliceCount := rs_slice_count s in
  let rxOffset := (ua_count a *u64 typeSize) +u64 rs_in_chunk s in
  let half := ua_count a *u64 typeSize in
  p2p_node recv [uni_recv_op (ua_scratchbuff a +u64 rxOffset) sliceCount (Z.rem (rank + Z.shiftl 1 i) nranks)] ;>
  p2p_parents recv 1 (1 + numRedSlices) i ;>
  step_children recv numRedSlices
    (if s =? numSlices - 1 then if negb (i =? nTotalSteps - 1) then Some ((i + 1) * (1 + numRedSlices)) else None
     else Some (recv + nodesPerSlice)) ;>
  divide_by numRedSlices ;> here (fun redSliceStartIdx => for_to numRedSlices (fun r => with_idx (fun red =>
    let redOffset := red_offset rxOffset sliceCount numRedSlices r in
    let input2 := if i =? 0 then ua_sendbuff a else ua_scratchbuff a in
    let output := if i =? nTotalSteps - 1 then ua_recvbuff a else ua_scratchbuff a in
    red_node red (RedNode (ua_scratchbuff a +u64 redOffset) (input2 +u64 redOffset -u64 half) (output +u64 redOffset -u64 half)
      (red_count sliceCount numRedSlices r) (ua_nthreads a) (ua_datatype a) (ua_redOp a) 0)
      (if i =? nTotalSteps - 1 then None else Some (redSliceStartIdx + numRedSlices)))))).

(** The transfer to the parent in the tree. *)
Definition tree_send (numRedSlices recvNodesPerSlice nodesPerSlice s : Z) : build := with_idx (fun send =>
  let peer := Z.rem (rank - Z.shiftl 1 (ctz algoRank) + nranks) nranks in
  let src := if recvNodesPerSlice =? 0 then ua_sendbuff a else ua_scratchbuff a in
  p2p_node send [uni_send_op (src +u64 rs_in_chunk s) (rs_slice_count s) peer] ;>
  (if recvNodesPerSlice =? 0 then
     if s =? 0 then set_parents send 0 ;> enqueue_p2p send else set_parents send 1 ;> pend
   else set_parents send (1 + numRedSlices) ;> pend) ;>
  if s =? numSlices - 1 then set_numChildren send 0
  else set_numChildren send 1 ;> alloc_children send 1 ;> set_child send 0 (send + nodesPerSlice)).

(** [None] for [nranks = 0]: the remainder is taken before [nranks] is tested. *)
Definition initUniRunnerStateTreeRed (numRedSlices : Z) : build :=
  if nranks =? 0 then fun _ => None
  else if nranks <? 1 then fun s => Some (flagcxInvalidArgument, s)
  else if nranks =? 1 then single_copy else
  let recvNodesPerSlice := recv_steps in
  let sendNodesPerSlice := if algoRank =? 0 then 0 else 1 in
  let nodesPerSlice := sendNodesPerSlice + recvNodesPerSlice + recvNodesPerSlice * numRedSlices in
  let numNodes := nodesPerSlice * numSlices in
  alloc_nodes numNodes ;>
  for_to numSlices (fun s =>
    for_to recvNodesPerSlice (tree_recv_step numRedSlices nodesPerSlice s) ;>
    if algoRank =? 0 then finish else tree_send numRedSlices recvNodesPerSlice nodesPerSlice s).

End Build.
