(* ===== verification/UniDagBuild.v ===== *)
(** Building a graph of [UniDag]: rules for the steps that fill the array of
    nodes, in the style of a program logic.  A triple says what a step leaves
    when every allocation it asks for is granted, and that it otherwise reports
    the failure and every block it holds is reachable from the nodes. *)
From S2P Require Import Prelude Flagcx Arrays C2cRunner KernelTrigger UniDag.

(** ** Blocks *)

Definition node_blocks (n : uniRunnerDagNode) : Z :=
  match nd_data n with P2pNode (Some _) _ => 1 | _ => 0 end + match nd_children n with Some _ => 1 | None => 0 end.

Fixpoint blocks (l : list uniRunnerDagNode) : Z := match l with [] => 0 | n :: l => node_blocks n + blocks l end.

Lemma blocks_app l1 l2 : blocks (l1 ++ l2) = blocks l1 + blocks l2.
Proof. induction l1 as [|n l1 IH]; cbn; [done|]. rewrite IH. lia. Qed.

Lemma blocks_zero k : blocks (replicate k node_zero) = 0.
Proof. induction k as [|k IH]; cbn; [done|]. by rewrite IH. Qed.

(** The blocks held are those that [cleanupDagScheduler] finds. *)
Definition dag_blocks (d : dag) : Z := match dg_nodes d with None => 0 | Some l => 1 + blocks l end.
Definition accounted (d : dag) : Prop := dg_live d = dag_blocks d.

(** ** Triples *)

Definition triple (mem : nat -> bool) (P : Z * dag -> Prop) (p : build) (Q : Z * dag -> Prop) : Prop :=
  forall s, P s -> exists r s', p s = Some (r, s') /\
    (r = flagcxSuccess /\ Q s' \/ r = flagcxSystemError /\ accounted s'.2 /\ exists n, mem n = false).

(** The state while the array is filled: the nodes so far, how many are left,
    and the queues. *)
Definition at_ (num g : Z) (l : list uniRunnerDagNode) (rest : nat) (pending : Z) (p2p red : list Z) (s : Z * dag) : Prop :=
  exists k, s = (g, MkDag (Some (l ++ replicate rest node_zero)) num pending p2p red [] [] k (1 + blocks l)).

Lemma for_to_ext n f g : (forall i s, f i s = g i s) -> forall s, for_to n f s = for_to n g s.
Proof.
  intros H. unfold for_to. generalize 0 as i. induction (Z.to_nat n) as [|k IH]; intros i s; [done|]. cbn. unfold and_then.
  rewrite H. destruct (g i s) as [[r s']|]; cbn; [|done]. destruct (flagcx_failed r); [done|apply IH].
Qed.

Section Rules.
Context (mem : nat -> bool).
Abbreviation T := (triple mem).

Lemma triple_finish P : T P finish P.
Proof. intros s Hs. exists flagcxSuccess, s. split; [done|]. by left. Qed.

Lemma triple_pre (P P' Q : Z * dag -> Prop) p : (forall s, P' s -> P s) -> T P p Q -> T P' p Q.
Proof. intros HP H s Hs. apply H, HP, Hs. Qed.

Lemma triple_post (P Q Q' : Z * dag -> Prop) p : T P p Q -> (forall s, Q s -> Q' s) -> T P p Q'.
Proof.
  intros H HQ s Hs. destruct (H s Hs) as (r & s' & E & [[-> Hq]|Hf]).
  - exists flagcxSuccess, s'. split; [done|]. left. split; [done|by apply HQ].
  - exists r, s'. split; [done|by right].
Qed.

Lemma triple_ext (P Q : Z * dag -> Prop) p q : (forall s, p s = q s) -> T P p Q -> T P q Q.
Proof. intros E H s Hs. rewrite <- E. by apply H. Qed.

Lemma triple_seq P Q R p q : T P p Q -> T Q q R -> T P (and_then p q) R.
Proof.
  intros Hp Hq s Hs. unfold and_then. destruct (Hp s Hs) as (r & s' & -> & [[-> HQ]|[-> Hf]]); cbn.
  - exact (Hq s' HQ).
  - exists flagcxSystemError, s'. split; [done|]. by right.
Qed.

Lemma triple_assoc P Q p q r : T P (and_then (and_then p q) r) Q -> T P (and_then p (and_then q r)) Q.
Proof.
  intros H s Hs. destruct (H s Hs) as (r' & s' & E & HQ). exists r', s'. split; [|done]. rewrite <- E. unfold and_then.
  destruct (p s) as [[r1 s1]|]; cbn; [|done]. destruct (flagcx_failed r1) eqn:Hf; cbn; [by rewrite Hf|done].
Qed.

Lemma triple_for (I : Z -> Z * dag -> Prop) body : forall n from,
  (forall i, from <= i < from + Z.of_nat n -> T (I i) (body i) (I (i + 1))) -> T (I from) (for_loop from n body) (I (from + Z.of_nat n)).
Proof.
  induction n as [|n IH]; intros from H.
  - rewrite Z.add_0_r. apply triple_finish.
  - cbn [for_loop]. eapply triple_seq; [apply H; lia|].
    replace (from + Z.of_nat (S n)) with (from + 1 + Z.of_nat n) by lia. apply IH. intros i Hi. apply H. lia.
Qed.

Lemma triple_for_to (I : Z -> Z * dag -> Prop) body n :
  0 <= n -> (forall i, 0 <= i < n -> T (I i) (body i) (I (i + 1))) -> T (I 0) (for_to n body) (I n).
Proof.
  intros Hn H. unfold for_to. pose proof (triple_for I body (Z.to_nat n) 0) as Hf. rewrite Z2Nat.id in Hf by done.
  apply Hf. intros i Hi. apply H. lia.
Qed.

Lemma triple_with_idx num g l rest pending p2p red k Q :
  T (at_ num (g + 1) (l ++ [node_zero]) rest pending p2p red) (k g) Q ->
  T (at_ num g l (S rest) pending p2p red) (with_idx k) Q.
Proof.
  intros H s (n & ->). cbn. apply H. exists n. cbn [replicate]. rewrite <- app_assoc, blocks_app. cbn.
  by rewrite !Z.add_0_r.
Qed.

Lemma triple_here num g l rest pending p2p red k Q :
  T (at_ num g l rest pending p2p red) (k g) Q -> T (at_ num g l rest pending p2p red) (here k) Q.
Proof. intros H s (n & ->). apply H. by exists n. Qed.

Lemma triple_pend num g l rest pending p2p red :
  T (at_ num g l rest pending p2p red) pend (at_ num g l rest (pending + 1) p2p red).
Proof. intros s (n & ->). eexists flagcxSuccess, _. split; [reflexivity|]. left. split; [done|]. by exists n. Qed.

Lemma triple_enqueue_p2p num g l rest pending p2p red i :
  T (at_ num g l rest pending p2p red) (enqueue_p2p i) (at_ num g l rest pending (p2p ++ [i]) red).
Proof. intros s (n & ->). eexists flagcxSuccess, _. split; [reflexivity|]. left. split; [done|]. by exists n. Qed.

Lemma triple_enqueue_red num g l rest pending p2p red i :
  T (at_ num g l rest pending p2p red) (enqueue_red i) (at_ num g l rest pending p2p (red ++ [i])).
Proof. intros s (n & ->). eexists flagcxSuccess, _. split; [reflexivity|]. left. split; [done|]. by exists n. Qed.

(** ** Changing a node *)

Lemma get_middle {A} (l1 : list A) x l2 i : i = Z.of_nat (length l1) -> arr_get (l1 ++ x :: l2) i = Some x.
Proof. intros ->. rewrite arr_get_nat. by apply list_lookup_middle. Qed.

Lemma set_middle {A} (l1 : list A) x l2 y i : i = Z.of_nat (length l1) -> arr_set (l1 ++ x :: l2) i y = Some (l1 ++ y :: l2).
Proof.
  intros ->. rewrite arr_set_nat by (rewrite length_app; cbn; lia). f_equal.
  rewrite insert_app_r_alt by lia. by rewrite Nat.sub_diag.
Qed.

Lemma triple_upd num g l1 n l2 rest pending p2p red i f :
  i = Z.of_nat (length l1) -> node_blocks (f n) = node_blocks n ->
  T (at_ num g (l1 ++ n :: l2) rest pending p2p red) (upd_node i f) (at_ num g (l1 ++ f n :: l2) rest pending p2p red).
Proof.
  intros Hi Hb s (k & ->). unfold upd_node. cbn [dg_nodes mbind option_bind]. rewrite <- app_assoc. cbn [app].
  rewrite get_middle by done. cbn [mbind option_bind]. rewrite set_middle by done. cbn.
  eexists flagcxSuccess, _. split; [reflexivity|]. left. split; [done|]. exists k. unfold set_nodes. cbn.
  rewrite <- app_assoc, !blocks_app. cbn. by rewrite Hb.
Qed.

(** An allocation with the change that takes it. *)
Lemma triple_calloc num g l1 n l2 rest pending p2p red i f :
  i = Z.of_nat (length l1) -> node_blocks (f n) = node_blocks n + 1 ->
  T (at_ num g (l1 ++ n :: l2) rest pending p2p red) (and_then (calloc mem) (upd_node i f))
    (at_ num g (l1 ++ f n :: l2) rest pending p2p red).
Proof.
  intros Hi Hb s (k & ->). unfold and_then, calloc. cbn [mbind option_bind]. cbn [dg_requests count_request].
  destruct (mem k) eqn:Hk.
  - change (flagcx_failed flagcxSuccess) with false. cbn match. unfold upd_node. cbn [count_request dg_nodes mbind option_bind].
    rewrite <- app_assoc. cbn [app]. rewrite get_middle by done. cbn [mbind option_bind]. rewrite set_middle by done. cbn.
    eexists flagcxSuccess, _. split; [reflexivity|]. left. split; [done|]. exists (S k). unfold set_nodes. cbn.
    rewrite <- app_assoc, !blocks_app. cbn. rewrite Hb. do 2 f_equal. lia.
  - eexists flagcxSystemError, _. split; [reflexivity|]. right. split; [done|]. split; [|by exists k].
    unfold accounted, dag_blocks. cbn. rewrite (blocks_app _ (replicate _ _)), blocks_zero. lia.
Qed.

Lemma triple_set_child num g l1 n l2 rest pending p2p red i j c cs :
  i = Z.of_nat (length l1) -> nd_children n = Some cs -> 0 <= j < Z.of_nat (length cs) ->
  T (at_ num g (l1 ++ n :: l2) rest pending p2p red) (set_child i j c)
    (at_ num g (l1 ++ set_children (Some (<[Z.to_nat j := c]> cs)) n :: l2) rest pending p2p red).
Proof.
  intros Hi Hcs Hj s (k & ->). unfold set_child. cbn [dg_nodes mbind option_bind]. rewrite <- app_assoc. cbn [app].
  rewrite get_middle by done. cbn [mbind option_bind]. rewrite Hcs. cbn [mbind option_bind].
  assert (E : arr_set cs j c = Some (<[Z.to_nat j := c]> cs)).
  { unfold arr_set. by rewrite (proj2 (Z.leb_le 0 j)), (proj2 (Z.ltb_lt j _)) by lia. }
  rewrite E. cbn [mbind option_bind].
  rewrite set_middle by done. cbn. eexists flagcxSuccess, _. split; [reflexivity|]. left. split; [done|]. exists k.
  unfold set_nodes. cbn. rewrite <- app_assoc, !blocks_app. cbn. unfold node_blocks. cbn. by rewrite Hcs.
Qed.

Lemma triple_divide num g l rest pending p2p red n :
  n <> 0 -> T (at_ num g l rest pending p2p red) (divide_by n) (at_ num g l rest pending p2p red).
Proof.
  intros Hn s Hs. unfold divide_by. rewrite (proj2 (Z.eqb_neq n 0)) by done. exists flagcxSuccess, s. split; [done|]. by left.
Qed.

(** ** A node at the end of the array *)

Lemma triple_p2p_node num g l rest pending p2p red i ops :
  i = Z.of_nat (length l) ->
  T (at_ num g (l ++ [node_zero]) rest pending p2p red) (p2p_node mem i ops)
    (at_ num g (l ++ [MkNode (P2pNode (Some ops) 0) 0 0 None]) rest pending p2p red).
Proof.
  intros Hi. eapply triple_seq; [by apply (triple_upd num g l node_zero [])|].
  by apply (triple_calloc num g l (set_data (P2pNode None 0) node_zero) []).
Qed.

Lemma triple_p2p_parents num g l n rest pending p2p red i first later step :
  i = Z.of_nat (length l) ->
  T (at_ num g (l ++ [n]) rest pending p2p red) (p2p_parents i first later step)
    (at_ num g (l ++ [set_numParents (if i =? 0 then 0 else if step =? 0 then first else later) n]) rest
      (pending + if i =? 0 then 0 else 1) (p2p ++ if i =? 0 then [i] else []) red).
Proof.
  intros Hi. unfold p2p_parents. destruct (i =? 0).
  - rewrite Z.add_0_r. eapply triple_seq; [by apply (triple_upd num g l n [])|].
    apply triple_enqueue_p2p.
  - rewrite app_nil_r. eapply triple_seq; [by apply (triple_upd num g l n [])|].
    apply triple_pend.
Qed.

Definition with_children (cs : list Z) (n : uniRunnerDagNode) : uniRunnerDagNode :=
  MkNode (nd_data n) (nd_numParents n) (Z.of_nat (length cs)) (Some cs).

(** The array of children, cleared. *)
Lemma triple_children num g l n rest pending p2p red i k :
  i = Z.of_nat (length l) -> nd_children n = None -> 0 <= k ->
  T (at_ num g (l ++ [n]) rest pending p2p red) (and_then (set_numChildren i k) (alloc_children mem i k))
    (at_ num g (l ++ [with_children (replicate (Z.to_nat k) 0) n]) rest pending p2p red).
Proof.
  intros Hi Hn Hk. eapply triple_seq; [by apply (triple_upd num g l n [])|].
  pose proof (triple_calloc num g l (MkNode (nd_data n) (nd_numParents n) k (nd_children n)) [] rest pending p2p red i
    (set_children (Some (replicate (Z.to_nat k) 0))) Hi) as H. unfold with_children. rewrite length_replicate, Z2Nat.id by done.
  apply H. unfold node_blocks. cbn. rewrite Hn. lia.
Qed.

Lemma triple_child num g l n rest pending p2p red i cs1 x cs2 j c :
  i = Z.of_nat (length l) -> j = Z.of_nat (length cs1) ->
  T (at_ num g (l ++ [with_children (cs1 ++ x :: cs2) n]) rest pending p2p red) (set_child i j c)
    (at_ num g (l ++ [with_children (cs1 ++ c :: cs2) n]) rest pending p2p red).
Proof.
  intros Hi ->. assert (Hlen : 0 <= Z.of_nat (length cs1) < Z.of_nat (length (cs1 ++ x :: cs2))) by (rewrite length_app; cbn; lia).
  pose proof (triple_set_child num g l (with_children (cs1 ++ x :: cs2) n) [] rest pending p2p red i _ c _ Hi eq_refl Hlen) as H.
  rewrite Nat2Z.id in H. assert (E : <[length cs1 := c]> (cs1 ++ x :: cs2) = cs1 ++ c :: cs2).
  { rewrite insert_app_r_alt by lia. by rewrite Nat.sub_diag. }
  rewrite E in H. unfold with_children at 2. unfold with_children in H at 2. cbn in H.
  replace (length (cs1 ++ c :: cs2)) with (length (cs1 ++ x :: cs2)) by (by rewrite !length_app). exact H.
Qed.

(** [children[j + r] = f r] for all [r] below [k]. *)
Lemma triple_children_loop num g l n rest pending p2p red i cs1 cs2 (j k : Z) (f : Z -> Z) :
  i = Z.of_nat (length l) -> j = Z.of_nat (length cs1) -> 0 <= k ->
  T (at_ num g (l ++ [with_children (cs1 ++ replicate (Z.to_nat k) 0 ++ cs2) n]) rest pending p2p red)
    (for_to k (fun r => set_child i (r + j) (f r)))
    (at_ num g (l ++ [with_children (cs1 ++ (f <$> seqZ 0 k) ++ cs2) n]) rest pending p2p red).
Proof.
  intros Hi Hj Hk.
  set (I := fun r => at_ num g (l ++ [with_children (cs1 ++ (f <$> seqZ 0 r) ++ replicate (Z.to_nat (k - r)) 0 ++ cs2) n]) rest pending p2p red).
  assert (H : T (I 0) (for_to k (fun r => set_child i (r + j) (f r))) (I k)).
  { apply triple_for_to; [done|]. intros r Hr. unfold I. replace (Z.to_nat (k - r)) with (S (Z.to_nat (k - (r + 1)))) by lia.
    rewrite seqZ_app, fmap_app by lia. cbn [replicate app]. change (seqZ (0 + r) 1) with [r]. cbn [fmap list_fmap].
    rewrite <- (app_assoc (f <$> _)), !(app_assoc cs1). cbn [app]. apply triple_child; [done|].
    rewrite length_app, length_fmap, length_seqZ. lia. }
  unfold I in H. rewrite Z.sub_0_r, Z.sub_diag in H. exact H.
Qed.

Lemma triple_red_node num g l rest pending p2p red i data child :
  i = Z.of_nat (length l) -> node_blocks (MkNode data 0 0 None) = 0 ->
  T (at_ num g (l ++ [node_zero]) rest pending p2p red) (red_node mem i data child)
    (at_ num g (l ++ [match child with Some c => MkNode data 1 1 (Some [c]) | None => MkNode data 1 0 None end]) rest (pending + 1) p2p red).
Proof.
  intros Hi Hb. unfold red_node.
  eapply triple_seq; [apply (triple_upd num g l node_zero []); [done|exact Hb]|].
  eapply triple_seq; [apply triple_pend|].
  eapply triple_seq; [by apply (triple_upd num g l (set_data data node_zero) [])|]. cbn.
  destruct child as [c|]; [|by apply (triple_upd num g l (MkNode data 1 0 None) [])].
  apply triple_assoc. eapply triple_seq; [by apply triple_children|].
  exact (triple_child num g l (MkNode data 1 0 None) rest _ p2p red i [] 0 [] 0 c Hi eq_refl).
Qed.

End Rules.
