(* ===== verification/UniDagShape.v ===== *)
(** The graphs of [UniDag] are well formed: every array of children covers the
    number of children, the children are distinct nodes, the number of parents
    a node waits for is the number of nodes that have it as a child, and there
    are no cycles.

    A graph is described by tags: the nodes by what they do, in the order of
    the array, with their children and parents. *)
From S2P Require Import Prelude Flagcx Arrays C2cRunner KernelTrigger UniDag UniDagBuild.

(** ** Well-formed graphs *)

Definition kids (n : uniRunnerDagNode) : list Z := take (Z.to_nat (nd_numChildren n)) (default [] (nd_children n)).
Definition is_child (nodes : list uniRunnerDagNode) (v u : nat) : bool :=
  match nodes !! u with Some n => bool_decide (Z.of_nat v ∈ kids n) | None => false end.
Definition parents (nodes : list uniRunnerDagNode) (v : nat) : list nat :=
  filter (fun u => is_child nodes v u = true) (seq 0 (length nodes)).

Record dag_ok (nodes : list uniRunnerDagNode) : Prop := {
  dk_array : forall u n, nodes !! u = Some n -> Z.of_nat (length (kids n)) = nd_numChildren n;
  dk_range : forall u n c, nodes !! u = Some n -> c ∈ kids n -> 0 <= c < Z.of_nat (length nodes);
  dk_distinct : forall u n, nodes !! u = Some n -> NoDup (kids n);
  dk_parents : forall v n, nodes !! v = Some n -> nd_numParents n = Z.of_nat (length (parents nodes v));
  dk_acyclic : exists depth : nat -> Z, forall u n c, nodes !! u = Some n -> c ∈ kids n -> depth u < depth (Z.to_nat c)
}.

(** ** Graphs described by tags *)

Section Tags.
Context {T : Type} `{EqDecision T} (tags : list T) (idx : T -> Z) (children parents_of : T -> list T) (depth : T -> Z)
  (node : T -> uniRunnerDagNode).

Record described : Prop := {
  ds_idx : forall i t, tags !! i = Some t -> idx t = Z.of_nat i;
  ds_kids : forall t, t ∈ tags -> kids (node t) = idx <$> children t /\ nd_numChildren (node t) = Z.of_nat (length (children t)) /\
    nd_numParents (node t) = Z.of_nat (length (parents_of t));
  ds_children : forall t c, t ∈ tags -> c ∈ children t -> c ∈ tags /\ depth t < depth c;
  ds_distinct : forall t, t ∈ tags -> NoDup (children t) /\ NoDup (parents_of t);
  ds_parents : forall t u, t ∈ tags -> u ∈ parents_of t <-> u ∈ tags /\ t ∈ children u
}.

Context (D : described).

Lemma tag_lookup t : t ∈ tags -> tags !! Z.to_nat (idx t) = Some t /\ 0 <= idx t < Z.of_nat (length tags).
Proof.
  intros [i Hi]%list_elem_of_lookup. pose proof (lookup_lt_Some _ _ _ Hi). rewrite (ds_idx D i t Hi), Nat2Z.id. split; [done|lia].
Qed.

Lemma idx_inj t u : t ∈ tags -> u ∈ tags -> idx t = idx u -> t = u.
Proof. intros Ht Hu E. apply tag_lookup in Ht as [Ht _], Hu as [Hu _]. rewrite E in Ht. congruence. Qed.

Lemma kids_tag t c : t ∈ tags -> c ∈ kids (node t) <-> exists u, c = idx u /\ u ∈ children t.
Proof. intros Ht. destruct (ds_kids D t Ht) as [-> _]. apply list_elem_of_fmap. Qed.

Lemma parents_tag v t : tags !! v = Some t ->
  parents (node <$> tags) v ≡ₚ (fun u => Z.to_nat (idx u)) <$> parents_of t.
Proof.
  intros Hv. assert (Ht : t ∈ tags) by (by eapply list_elem_of_lookup_2). apply NoDup_Permutation.
  - apply NoDup_filter, NoDup_seq.
  - apply NoDup_fmap_2_strong; [|apply (ds_distinct D t Ht)]. intros x y Hx Hy E.
    apply (ds_parents D t x Ht) in Hx as [Hx _]. apply (ds_parents D t y Ht) in Hy as [Hy _].
    apply tag_lookup in Hx as Hx', Hy as Hy'. apply idx_inj; [done..|lia].
  - intros u. unfold parents. rewrite list_elem_of_filter, elem_of_seq, length_fmap, list_elem_of_fmap. unfold is_child.
    rewrite list_lookup_fmap. split.
    + intros [Hc _]. destruct (tags !! u) as [w|] eqn:Hu; cbn in Hc; [|done]. apply bool_decide_eq_true in Hc.
      assert (Hw : w ∈ tags) by (by eapply list_elem_of_lookup_2). apply (kids_tag w _ Hw) in Hc as (x & Ex & Hx).
      destruct (ds_children D w x Hw Hx) as [Hxt _]. rewrite <- (ds_idx D v t Hv) in Ex. apply idx_inj in Ex; [|done..]. subst x.
      exists w. rewrite (ds_idx D u w Hu), Nat2Z.id. split; [done|]. by apply (ds_parents D t w Ht).
    + intros (w & -> & Hw). apply (ds_parents D t w Ht) in Hw as [Hw Hc]. destruct (tag_lookup w Hw) as [Hl Hr].
      rewrite Hl. cbn. split; [|lia]. apply bool_decide_eq_true, (kids_tag w _ Hw). exists t. by rewrite (ds_idx D v t Hv).
Qed.

Lemma described_ok : dag_ok (node <$> tags).
Proof.
  assert (Hn : forall u n, (node <$> tags) !! u = Some n -> exists t, tags !! u = Some t /\ n = node t /\ t ∈ tags).
  { intros u n. rewrite list_lookup_fmap. destruct (tags !! u) as [t|] eqn:Hu; cbn; [|done]. intros [= <-]. exists t.
    split; [done|]. split; [done|]. by eapply list_elem_of_lookup_2. }
  constructor.
  - intros u n (t & _ & -> & Ht)%Hn. destruct (ds_kids D t Ht) as (-> & -> & _). by rewrite length_fmap.
  - intros u n c (t & _ & -> & Ht)%Hn Hc. apply (kids_tag t c Ht) in Hc as (x & -> & Hx). rewrite length_fmap.
    apply (tag_lookup x), (ds_children D t x Ht Hx).
  - intros u n (t & _ & -> & Ht)%Hn. destruct (ds_kids D t Ht) as (-> & _). apply NoDup_fmap_2_strong; [|apply (ds_distinct D t Ht)].
    intros x y Hx Hy. apply idx_inj; eapply ds_children; done.
  - intros v n (t & Hv & -> & Ht)%Hn. destruct (ds_kids D t Ht) as (_ & _ & ->). by rewrite (parents_tag v t Hv), length_fmap.
  - exists (fun u => match tags !! u with Some t => depth t | None => 0 end). intros u n c (t & Hu & -> & Ht)%Hn Hc.
    apply (kids_tag t c Ht) in Hc as (x & -> & Hx). destruct (ds_children D t x Ht Hx) as [Hxt Hd].
    destruct (tag_lookup x Hxt) as [Hl _]. by rewrite Hu, Hl.
Qed.

End Tags.

(** ** Positions in nested lists *)

Lemma lookup_bind_uniform {A B} (f : A -> list B) (k : nat) : forall l i x,
  (forall y, y ∈ l -> length (f y) = k) -> (l ≫= f) !! i = Some x ->
  exists j y r, l !! j = Some y /\ (r < k)%nat /\ f y !! r = Some x /\ i = (j * k + r)%nat.
Proof.
  induction l as [|y l IH]; intros i x Hk Hi; [done|]. cbn in Hi. apply lookup_app_Some in Hi as [Hi|[Hge Hi]].
  - exists 0%nat, y, i. rewrite <- (Hk y) by left. by split_and!; [|apply lookup_lt_Some in Hi| |].
  - rewrite (Hk y) in Hge, Hi by left. destruct (IH _ x (fun z Hz => Hk z (list_elem_of_further _ _ _ Hz)) Hi) as (j & z & r & Hj & Hr & Hz & E).
    exists (S j), z, r. split_and!; [done..|cbn; lia].
Qed.

Lemma length_bind_uniform {A B} (f : A -> list B) (k : nat) : forall l,
  (forall y, y ∈ l -> length (f y) = k) -> length (l ≫= f) = (length l * k)%nat.
Proof.
  induction l as [|y l IH]; intros Hk; [done|]. cbn. rewrite length_app, IH, (Hk y); [done|left|].
  intros z Hz. apply Hk. by right.
Qed.

Lemma lookup_seqZ_eq n j (y : Z) : seqZ 0 n !! j = Some y -> y = Z.of_nat j /\ 0 <= y < n.
Proof. intros H. apply lookup_seqZ in H. lia. Qed.

(** ** The sliced ring all-reduce *)

(** Node of a graph: a transfer of the first phase with its slice and step, one
    of the reductions that follow it, a transfer of the second phase, or the
    copy of the local chunk. *)
Inductive ring_tag := Scatter (s i : Z) | Reduce (s i r : Z) | Gather (s i : Z) | Copy.

#[export] Instance ring_tag_eq_dec : EqDecision ring_tag.
Proof. solve_decision. Defined.

(** Membership in a list of tags that is given by cases. *)
Lemma elem_of_reduces (R s i : Z) t : t ∈ (Reduce s i <$> seqZ 0 R) <-> exists r, 0 <= r < R /\ t = Reduce s i r.
Proof.
  rewrite list_elem_of_fmap. split; [intros (r & -> & Hr%elem_of_seqZ)|intros (r & Hr & ->)]; exists r.
  - split; [lia|done].
  - rewrite elem_of_seqZ. split; [done|lia].
Qed.

Ltac tag_pick :=
  first [reflexivity | lia | by f_equal; lia | split; tag_pick | left; tag_pick | right; tag_pick |
    match goal with |- exists r, _ /\ Reduce _ _ ?x = _ => exists x end; split; [lia|f_equal; lia]].

Ltac tag_member :=
  repeat case_match; bool_to_prop;
  rewrite ?elem_of_app, ?elem_of_cons, ?elem_of_reduces, ?elem_of_nil;
  split; intros; destruct_or?; destruct_and?;
  repeat match goal with H : exists _, _ |- _ => destruct H as (? & ? & ?) end;
  simplify_eq; try lia; try done; try tag_pick.

Section SlicedAR.
Context (a : uni_args) (R : Z).
Abbreviation n := (ua_nranks a).
Abbreviation S_ := (ua_numSlices a).
Context (Hn : 2 <= n) (HS : 1 <= S_) (HR : 1 <= R).

Definition ar_size : Z := (R + 2) * (n - 1).

Definition ar_idx (t : ring_tag) : Z :=
  match t with
  | Scatter s i => s * ar_size + i * (1 + R)
  | Reduce s i r => s * ar_size + i * (1 + R) + 1 + r
  | Gather s i => s * ar_size + (n - 1) * (1 + R) + i
  | Copy => S_ * ar_size
  end.

Definition ar_step_tags (s i : Z) : list ring_tag := Scatter s i :: (Reduce s i <$> seqZ 0 R).
Definition ar_slice_tags (s : Z) : list ring_tag := (seqZ 0 (n - 1) ≫= ar_step_tags s) ++ (Gather s <$> seqZ 0 (n - 1)).
Definition ar_tags : list ring_tag := seqZ 0 S_ ≫= ar_slice_tags.

Definition ar_valid (t : ring_tag) : Prop :=
  match t with
  | Scatter s i | Gather s i => 0 <= s < S_ /\ 0 <= i < n - 1
  | Reduce s i r => 0 <= s < S_ /\ 0 <= i < n - 1 /\ 0 <= r < R
  | Copy => False
  end.

Definition ar_children (t : ring_tag) : list ring_tag :=
  match t with
  | Scatter s i =>
    (if s <? S_ - 1 then Scatter (s + 1) i else if i <? n - 2 then Scatter 0 (i + 1) else Gather 0 0) :: (Reduce s i <$> seqZ 0 R)
  | Reduce s i r => [if i <? n - 2 then Scatter s (i + 1) else Gather s 0]
  | Gather s i => if s <? S_ - 1 then [Gather (s + 1) i] else if i <? n - 2 then [Gather 0 (i + 1)] else []
  | Copy => []
  end.

Definition ar_parents (t : ring_tag) : list ring_tag :=
  match t with
  | Scatter s i =>
    (if 0 <? s then [Scatter (s - 1) i] else if 0 <? i then [Scatter (S_ - 1) (i - 1)] else []) ++
    (if 0 <? i then Reduce s (i - 1) <$> seqZ 0 R else [])
  | Reduce s i r => [Scatter s i]
  | Gather s i =>
    (if 0 <? s then [Gather (s - 1) i] else if 0 <? i then [Gather (S_ - 1) (i - 1)] else [Scatter (S_ - 1) (n - 2)]) ++
    (if 0 <? i then [] else Reduce s (n - 2) <$> seqZ 0 R)
  | Copy => []
  end.

Definition ar_depth (t : ring_tag) : Z :=
  match t with
  | Scatter s i => 2 * (i * S_ + s)
  | Reduce s i r => 2 * (i * S_ + s) + 1
  | Gather s i => 2 * ((n - 1 + i) * S_ + s)
  | Copy => 0
  end.

Lemma ar_step_length s i : length (ar_step_tags s i) = Z.to_nat (1 + R).
Proof. unfold ar_step_tags. cbn. rewrite length_fmap, length_seqZ. lia. Qed.

Lemma ar_slice_length s : length (ar_slice_tags s) = Z.to_nat ar_size.
Proof.
  unfold ar_slice_tags. rewrite length_app, (length_bind_uniform _ (Z.to_nat (1 + R))) by (intros; apply ar_step_length).
  rewrite length_fmap, !length_seqZ. unfold ar_size. nia.
Qed.

Lemma ar_tags_length : length ar_tags = Z.to_nat (S_ * ar_size).
Proof.
  unfold ar_tags. rewrite (length_bind_uniform _ (Z.to_nat ar_size)) by (intros; apply ar_slice_length).
  rewrite length_seqZ. unfold ar_size. nia.
Qed.

Lemma ar_tags_lookup k t : ar_tags !! k = Some t -> ar_idx t = Z.of_nat k.
Proof.
  intros Hk. apply (lookup_bind_uniform _ (Z.to_nat ar_size)) in Hk as (j & s & q & Hj & Hq & Ht & ->); [|intros; apply ar_slice_length].
  apply lookup_seqZ_eq in Hj as [-> Hs]. assert (0 <= ar_size) by (unfold ar_size; nia).
  apply lookup_app_Some in Ht as [Ht|[Hge Ht]].
  - apply (lookup_bind_uniform _ (Z.to_nat (1 + R))) in Ht as (j2 & i & r & Hi & Hr & Ht & ->); [|intros; apply ar_step_length].
    apply lookup_seqZ_eq in Hi as [-> Hi]. destruct r as [|r].
    + injection Ht as <-. cbn. rewrite !Nat2Z.inj_add, !Nat2Z.inj_mul, !Z2Nat.id by lia. lia.
    + cbn in Ht. rewrite list_lookup_fmap_Some in Ht. destruct Ht as (x & -> & Hx). apply lookup_seqZ_eq in Hx as [-> Hx]. cbn.
      rewrite !Nat2Z.inj_add, !Nat2Z.inj_mul, !Z2Nat.id by lia. lia.
  - rewrite (length_bind_uniform _ (Z.to_nat (1 + R))) in Hge, Ht by (intros; apply ar_step_length).
    rewrite length_seqZ in Hge, Ht. rewrite list_lookup_fmap_Some in Ht. destruct Ht as (x & -> & Hx).
    apply lookup_seqZ_eq in Hx as [-> Hx]. cbn. rewrite Nat2Z.inj_add, Nat2Z.inj_mul, Z2Nat.id by lia.
    rewrite Nat2Z.inj_sub, Nat2Z.inj_mul, !Z2Nat.id by lia. lia.
Qed.

Lemma ar_tags_elem t : t ∈ ar_tags <-> ar_valid t.
Proof.
  assert (Hst : forall s, t ∈ ar_slice_tags s <->
    (exists i, 0 <= i < n - 1 /\ (t = Scatter s i \/ exists r, 0 <= r < R /\ t = Reduce s i r)) \/ exists i, 0 <= i < n - 1 /\ t = Gather s i).
  { intros s. unfold ar_slice_tags, ar_step_tags. rewrite elem_of_app, list_elem_of_bind, list_elem_of_fmap. split.
    - intros [(i & [->|(r & -> & Hr%elem_of_seqZ)%list_elem_of_fmap]%elem_of_cons & Hi%elem_of_seqZ)|(i & -> & Hi%elem_of_seqZ)].
      + left. exists i. split; [lia|by left].
      + left. exists i. split; [lia|]. right. exists r. split; [lia|done].
      + right. exists i. split; [lia|done].
    - intros [(i & Hi & [->|(r & Hr & ->)])|(i & Hi & ->)].
      + left. exists i. rewrite elem_of_seqZ. split; [left|lia].
      + left. exists i. rewrite elem_of_seqZ. split; [|lia]. right. apply list_elem_of_fmap. exists r. rewrite elem_of_seqZ. split; [done|lia].
      + right. exists i. rewrite elem_of_seqZ. split; [done|lia]. }
  unfold ar_tags. rewrite list_elem_of_bind. split.
  - intros (s & [(i & Hi & [->|(r & Hr & ->)])|(i & Hi & ->)]%Hst & Hs%elem_of_seqZ); cbn; lia.
  - destruct t as [s i|s i r|s i|]; cbn; intros H; [| | |done]; exists s; rewrite Hst, elem_of_seqZ; (split; [|lia]).
    + left. exists i. split; [lia|by left].
    + left. exists i. split; [lia|]. right. exists r. split; [lia|done].
    + right. exists i. split; [lia|done].
Qed.

Lemma ar_children_elem t u : u ∈ ar_children t <->
  match t, u with
  | Scatter s i, Scatter s' i' => s < S_ - 1 /\ s' = s + 1 /\ i' = i \/ S_ - 1 <= s /\ i < n - 2 /\ s' = 0 /\ i' = i + 1
  | Scatter s i, Gather s' i' => S_ - 1 <= s /\ n - 2 <= i /\ s' = 0 /\ i' = 0
  | Scatter s i, Reduce s' i' r => s' = s /\ i' = i /\ 0 <= r < R
  | Reduce s i r, Scatter s' i' => i < n - 2 /\ s' = s /\ i' = i + 1
  | Reduce s i r, Gather s' i' => n - 2 <= i /\ s' = s /\ i' = 0
  | Gather s i, Gather s' i' => s < S_ - 1 /\ s' = s + 1 /\ i' = i \/ S_ - 1 <= s /\ i < n - 2 /\ s' = 0 /\ i' = i + 1
  | _, _ => False
  end.
Proof.
  destruct t as [s i|s i r|s i|], u as [s' i'|s' i' r'|s' i'|]; cbn; tag_member.
Qed.
Lemma ar_parents_elem t u : ar_valid t -> u ∈ ar_parents t <-> ar_valid u /\ t ∈ ar_children u.
Proof.
  intros Ht. rewrite ar_children_elem. destruct t as [s i|s i r|s i|], u as [s' i'|s' i' r'|s' i'|]; cbn in *; tag_member.
Qed.

Lemma ar_children_valid t u : ar_valid t -> u ∈ ar_children t -> ar_valid u /\ ar_depth t < ar_depth u.
Proof.
  intros Ht. rewrite ar_children_elem. destruct t as [s i|s i r|s i|], u as [s' i'|s' i' r'|s' i'|]; cbn in *; try done; intros H;
    destruct_or?; destruct_and?; subst; (split; [lia|nia]).
Qed.

Lemma NoDup_reduces s i : NoDup (Reduce s i <$> seqZ 0 R).
Proof. apply NoDup_fmap_2; [|apply NoDup_seqZ]. by intros x y [= ->]. Qed.

Lemma ar_distinct t : NoDup (ar_children t) /\ NoDup (ar_parents t).
Proof.
  split; destruct t as [s i|s i r|s i|]; cbn; repeat case_match; rewrite ?app_nil_r, ?app_nil_l; cbn;
    repeat (apply NoDup_cons; split); try apply NoDup_reduces; try apply NoDup_nil; try done; rewrite ?elem_of_reduces, ?elem_of_nil;
    first [by intros []|by intros (? & ? & ?)].
Qed.
(** What the nodes do. *)
Definition scatter_ops (s i : Z) : list uniRunnerP2pOpData :=
  ring_ops a (if i =? 0 then ua_sendbuff a else ua_recvbuff a) (Z.rem (ua_rank a - i + n) n) (Z.rem (ua_rank a - i - 1 + n) n) s.
Definition gather_ops (s i : Z) : list uniRunnerP2pOpData :=
  ring_ops a (ua_recvbuff a) (Z.rem (ua_rank a - i + 1 + n) n) (Z.rem (ua_rank a - i + n) n) s.
Definition reduce_data (s i r : Z) : nodeData :=
  let rxChunk := Z.rem (ua_rank a - i - 1 + n) n in
  let redOffset := red_offset a (slice_offset a rxChunk s) (slice_count a rxChunk s) R r in
  RedNode (ua_recvbuff a +u64 redOffset) (ua_sendbuff a +u64 redOffset) (ua_recvbuff a +u64 redOffset)
    (red_count (slice_count a rxChunk s) R r) (ua_nthreads a) (ua_datatype a) (ua_redOp a) 0.

Definition ar_data (t : ring_tag) : nodeData :=
  match t with
  | Scatter s i => P2pNode (Some (scatter_ops s i)) 0
  | Reduce s i r => reduce_data s i r
  | Gather s i => P2pNode (Some (gather_ops s i)) 0
  | Copy => P2pNode None 0
  end.

Definition ar_node (t : ring_tag) : uniRunnerDagNode :=
  MkNode (ar_data t) (Z.of_nat (length (ar_parents t))) (Z.of_nat (length (ar_children t))) (Some (ar_idx <$> ar_children t)).

Lemma ar_described : described ar_tags ar_idx ar_children ar_parents ar_depth ar_node.
Proof.
  constructor.
  - intros k t. apply ar_tags_lookup.
  - intros t _. split; [|done]. unfold kids, ar_node. cbn. rewrite Nat2Z.id, <- (length_fmap ar_idx). apply firstn_all.
  - intros t u Ht%ar_tags_elem Hu. destruct (ar_children_valid t u Ht Hu). by rewrite ar_tags_elem.
  - intros t _. apply ar_distinct.
  - intros t u Ht%ar_tags_elem. rewrite ar_tags_elem. by apply ar_parents_elem.
Qed.

Lemma ar_dag_ok : dag_ok (ar_node <$> ar_tags).
Proof. exact (described_ok _ _ _ _ _ _ ar_described). Qed.
End SlicedAR.
