(* ===== verification/UniDagInit.v ===== *)
(** The functions of [UniDag] build the graphs of [UniDagShape]: when every
    allocation is granted the array, the queues and the count of pending nodes
    are those of the graph, and a refused allocation leaves a state that
    [cleanupDagScheduler] can free. *)
From S2P Require Import Prelude Flagcx Arrays C2cRunner KernelTrigger UniDag UniDagBuild UniDagShape.

(** The array filled up to [l], the first node ready and the others pending. *)
Definition filled (num : Z) (l : list uniRunnerDagNode) (rest : nat) : Z * dag -> Prop :=
  let g := Z.of_nat (length l) in at_ num g l rest (if g =? 0 then 0 else g - 1) (if g =? 0 then [] else [0]) [].

(** A node at position [g]: the first is ready, the others pend. *)
Definition first_ready (g : Z) : list Z := if g =? 0 then [] else [0].
Definition others (g : Z) : Z := if g =? 0 then 0 else g - 1.

Lemma others_next g : 0 <= g -> others g + (if g =? 0 then 0 else 1) = others (g + 1).
Proof. intros Hg. unfold others. destruct (Z.eqb_spec g 0), (Z.eqb_spec (g + 1) 0); lia. Qed.

Lemma first_ready_next g : 0 <= g -> first_ready g ++ (if g =? 0 then [g] else []) = first_ready (g + 1).
Proof. intros Hg. unfold first_ready. destruct (Z.eqb_spec g 0), (Z.eqb_spec (g + 1) 0); subst; try lia; done. Qed.

Lemma others_plus g k : 0 < g -> 0 <= k -> others g + k = others (g + k).
Proof. intros Hg Hk. unfold others. destruct (Z.eqb_spec g 0), (Z.eqb_spec (g + k) 0); lia. Qed.

Lemma first_ready_plus g k : 0 < g -> 0 <= k -> first_ready g = first_ready (g + k).
Proof. intros Hg Hk. unfold first_ready. destruct (Z.eqb_spec g 0), (Z.eqb_spec (g + k) 0); lia || done. Qed.

Section Init.
Context (mem : nat -> bool).
Abbreviation T := (triple mem).

(** The reductions that follow a transfer. *)
Lemma triple_reduces num g l rest pending p2p (R : Z) (data : Z -> nodeData) child (node : Z -> uniRunnerDagNode) :
  0 <= R -> g = Z.of_nat (length l) -> (forall r, node_blocks (MkNode (data r) 0 0 None) = 0) ->
  (forall r, 0 <= r < R -> node r = match child with Some c => MkNode (data r) 1 1 (Some [c]) | None => MkNode (data r) 1 0 None end) ->
  T (at_ num g l (Z.to_nat R + rest) pending p2p [])
    (for_to R (fun r => with_idx (fun red => red_node mem red (data r) child)))
    (at_ num (g + R) (l ++ (node <$> seqZ 0 R)) rest (pending + R) p2p []).
Proof.
  intros HR Hg Hb Hnode.
  set (I := fun r => at_ num (g + r) (l ++ (node <$> seqZ 0 r)) (Z.to_nat (R - r) + rest) (pending + r) p2p []).
  assert (H : T (I 0) (for_to R (fun r => with_idx (fun red => red_node mem red (data r) child))) (I R)).
  { apply triple_for_to; [done|]. intros r Hr. unfold I. replace (Z.to_nat (R - r) + rest)%nat with (S (Z.to_nat (R - (r + 1)) + rest)) by lia.
    apply triple_with_idx. rewrite seqZ_app, fmap_app, app_assoc, !Z.add_assoc by lia.
    replace (node <$> seqZ (0 + r) 1) with [node r] by done. rewrite (Hnode r) by done. apply triple_red_node; [|done].
    rewrite length_app, length_fmap, length_seqZ. lia. }
  unfold I in H. rewrite Z.sub_0_r, Z.sub_diag, !Z.add_0_r in H. cbn [seqZ fmap list_fmap] in H.
  change (seqZ 0 0) with (@nil Z) in H. cbn [fmap list_fmap] in H. by rewrite app_nil_r in H.
Qed.

(** A loop whose every turn appends [b] nodes. *)
Lemma triple_blocks num l rest (k : Z) (b : nat) body (f : Z -> list uniRunnerDagNode) :
  0 <= k -> (forall i, 0 <= i < k -> length (f i) = b) ->
  (forall i l' rest', 0 <= i < k -> Z.of_nat (length l') = Z.of_nat (length l) + i * Z.of_nat b ->
    T (filled num l' (b + rest')) (body i) (filled num (l' ++ f i) rest')) ->
  T (filled num l (Z.to_nat k * b + rest)) (for_to k body) (filled num (l ++ (seqZ 0 k ≫= f)) rest).
Proof.
  intros Hk Hb H. set (I := fun i => filled num (l ++ (seqZ 0 i ≫= f)) (Z.to_nat (k - i) * b + rest)).
  assert (Hlen : forall i, 0 <= i <= k -> length (seqZ 0 i ≫= f) = (Z.to_nat i * b)%nat).
  { intros i Hi. rewrite (length_bind_uniform f b), length_seqZ; [done|]. intros y Hy%elem_of_seqZ. apply Hb. lia. }
  assert (HI : T (I 0) (for_to k body) (I k)).
  { apply triple_for_to; [done|]. intros i Hi. unfold I.
    replace (Z.to_nat (k - i)) with (S (Z.to_nat (k - (i + 1)))) by lia. cbn [Nat.mul]. rewrite <- Nat.add_assoc.
    rewrite (seqZ_app 0 i 1), bind_app by lia. replace (seqZ (0 + i) 1 ≫= f) with (f i) by (change (seqZ (0 + i) 1) with [i]; symmetry; apply app_nil_r).
    rewrite app_assoc. apply H; [done|]. rewrite length_app, Hlen by lia. lia. }
  unfold I in HI. rewrite Z.sub_0_r, Z.sub_diag in HI. change (seqZ 0 0 ≫= f) with (@nil uniRunnerDagNode) in HI.
  by rewrite app_nil_r in HI.
Qed.

(** Where the building starts: [initUniRunner] has reset the state. *)
Definition fresh (s : Z * dag) : Prop := exists k, s = (0, MkDag None 0 0 [] [] [] [] k 0).

Lemma triple_alloc_nodes N : T fresh (alloc_nodes mem N) (filled N [] (Z.to_nat N)).
Proof.
  intros s (k & ->). unfold alloc_nodes, and_then, on_dag, calloc. cbn. destruct (mem k) eqn:Hk; cbn.
  - eexists flagcxSuccess, _. split; [reflexivity|]. left. split; [done|]. by exists (S k).
  - eexists flagcxSystemError, _. split; [reflexivity|]. right. split; [done|]. split; [done|by exists k].
Qed.

(** ** The sliced all-reduce *)

Section SlicedAR.
Context (a : uni_args) (R : Z).
Abbreviation n := (ua_nranks a).
Abbreviation S_ := (ua_numSlices a).
Context (Hn : 2 <= n) (HS : 1 <= S_) (HR : 1 <= R).

Lemma ar_idx_first s i : 0 <= s < S_ -> 0 <= i < n - 1 -> 0 <= ar_idx a R (Scatter s i) /\ (ar_idx a R (Scatter s i) = 0 <-> s = 0 /\ i = 0).
Proof. intros Hs Hi. cbn. unfold ar_size. nia. Qed.

Lemma ar_scatter_node s i g : 0 <= s < S_ -> 0 <= i < n - 1 -> g = ar_idx a R (Scatter s i) ->
  with_children ([if s =? S_ - 1 then (i + 1) * (1 + R) else g + ar_size a R] ++ ((fun r => g + 1 + r) <$> seqZ 0 R) ++ [])
    (set_numParents (if g =? 0 then 0 else if i =? 0 then 1 else 1 + R) (MkNode (P2pNode (Some (scatter_ops a s i)) 0) 0 0 None))
  = ar_node a R (Scatter s i).
Proof.
  intros Hs Hi Hg. destruct (ar_idx_first s i Hs Hi) as [Hpos Hzero]. rewrite <- Hg in Hzero, Hpos. rewrite app_nil_r.
  unfold ar_node, with_children, set_numParents. cbn [nd_data nd_numParents].
  assert (Ec : [if s =? S_ - 1 then (i + 1) * (1 + R) else g + ar_size a R] ++ ((fun r => g + 1 + r) <$> seqZ 0 R) =
    ar_idx a R <$> ar_children a R (Scatter s i)).
  { cbn [ar_children fmap list_fmap app]. f_equal.
    - rewrite Hg. destruct (Z.eqb_spec s (S_ - 1)), (Z.ltb_spec s (S_ - 1)); try lia; [|cbn; unfold ar_size; lia].
      destruct (Z.ltb_spec i (n - 2)); cbn; unfold ar_size; [lia|]. replace i with (n - 2) by lia. lia.
    - rewrite <- list_fmap_compose. apply list_fmap_ext. intros k r _. cbn. rewrite Hg. cbn. lia. }
  rewrite Ec, length_fmap. f_equal. cbn [ar_parents]. rewrite length_app.
  destruct (Z.eqb_spec g 0) as [E|E].
  - apply Hzero in E as [-> ->]. done.
  - destruct (Z.eqb_spec i 0), (Z.ltb_spec 0 i); try lia; destruct (Z.ltb_spec 0 s); cbn; rewrite ?length_fmap, ?length_seqZ; lia.
Qed.

Lemma scatter_step_triple num l rest s i :
  0 <= s < S_ -> 0 <= i < n - 1 -> Z.of_nat (length l) = ar_idx a R (Scatter s i) ->
  T (filled num l (Z.to_nat (1 + R) + rest)) (sliced_scatter_step mem a R (ar_size a R) s i)
    (filled num (l ++ (ar_node a R <$> ar_step_tags R s i)) rest).
Proof.
  intros Hs Hi Hg. destruct (ar_idx_first s i Hs Hi) as [Hpos _].
  unfold filled. rewrite length_app, length_fmap, (ar_step_length R HR), Nat2Z.inj_add, Z2Nat.id, Hg by lia.
  remember (ar_idx a R (Scatter s i)) as g eqn:Eg.
  fold (others g) (first_ready g) (others (g + (1 + R))) (first_ready (g + (1 + R))).
  replace (Z.to_nat (1 + R) + rest)%nat with (S (Z.to_nat R + rest)) by lia.
  apply triple_with_idx. cbv zeta. eapply triple_seq; [by apply triple_p2p_node|].
  eapply triple_seq; [by apply triple_p2p_parents|].
  rewrite others_next, first_ready_next by done.
  apply triple_assoc. eapply triple_seq; [apply triple_children; [done|done|lia]|].
  replace (Z.to_nat (1 + R)) with (S (Z.to_nat R)) by lia. cbn [replicate].
  eapply triple_seq; [by apply (triple_child mem num (g + 1) l _ _ _ _ _ g [] 0)|]. cbn [app].
  eapply triple_seq.
  { pose proof (triple_children_loop mem num (g + 1) l) as H. rewrite <- (app_nil_r (replicate (Z.to_nat R) 0)).
    apply (H _ _ _ _ _ g [_] [] 1 R (fun r => g + 1 + r)); done || lia. }
  eapply triple_seq; [apply triple_divide; lia|]. apply triple_here.
  change (ring_ops a _ _ _ s) with (scatter_ops a s i). rewrite (ar_scatter_node s i g Hs Hi Eg).
  pose proof (triple_reduces num (g + 1) (l ++ [ar_node a R (Scatter s i)]) rest (others (g + 1)) (first_ready (g + 1)) R
    (reduce_data a R s i) (Some (g + 1 + R)) (fun r => ar_node a R (Reduce s i r))) as H.
  rewrite <- app_assoc in H.
  assert (E : [ar_node a R (Scatter s i)] ++ ((fun r => ar_node a R (Reduce s i r)) <$> seqZ 0 R) = ar_node a R <$> ar_step_tags R s i).
  { unfold ar_step_tags. cbn. by rewrite <- list_fmap_compose. }
  rewrite E in H. rewrite Z.add_assoc, <- (others_plus (g + 1) R), <- (first_ready_plus (g + 1) R) by lia. apply H; try done; try lia.
  - rewrite length_app. cbn. lia.
  - intros r Hr. unfold ar_node. cbn [ar_children ar_parents ar_data fmap list_fmap length]. do 3 f_equal. subst g.
    destruct (Z.ltb_spec i (n - 2)); cbn; [lia|]. replace i with (n - 2) by lia. lia.
Qed.

Abbreviation num_nodes := (S_ * ar_size a R).

Lemma gather_last s i : 0 <= s < S_ -> 0 <= i < n - 1 ->
  ar_idx a R (Gather s i) =? num_nodes - 1 = bool_decide (s = S_ - 1 /\ i = n - 2).
Proof.
  intros Hs Hi. cbn. unfold ar_size. destruct (bool_decide_reflect (s = S_ - 1 /\ i = n - 2)) as [[-> ->]|Hne].
  - apply Z.eqb_eq. lia.
  - apply Z.eqb_neq. intros E. apply Hne. assert (s = S_ - 1); [|subst s; lia].
    destruct (Z.le_gt_cases s (S_ - 2)); [|lia]. pose proof (Z.mul_nonneg_nonneg (S_ - 2 - s) ((R + 2) * (n - 1))). nia.
Qed.

Lemma gather_node s i g : 0 <= s < S_ -> 0 <= i < n - 1 -> g = ar_idx a R (Gather s i) ->
  ar_node a R (Gather s i) =
  MkNode (P2pNode (Some (gather_ops a s i)) 0) (if i =? 0 then 1 + R else 1) (if g =? num_nodes - 1 then 0 else 1)
    (Some (if g =? num_nodes - 1 then [] else
           [if s =? S_ - 1 then (1 + R) * (n - 1) + i + 1 else g + ar_size a R])).
Proof.
  intros Hs Hi Hg. unfold ar_node. cbn [ar_data ar_children ar_parents]. rewrite length_app.
  rewrite Hg, (gather_last s i Hs Hi), <- Hg. f_equal.
  - destruct (Z.eqb_spec i 0), (Z.ltb_spec 0 i); try lia; destruct (Z.ltb_spec 0 s); cbn; rewrite ?length_fmap, ?length_seqZ; lia.
  - case_bool_decide as H; destruct (Z.ltb_spec s (S_ - 1)), (Z.ltb_spec i (n - 2)); try lia; done.
  - f_equal. case_bool_decide as H; destruct (Z.ltb_spec s (S_ - 1)), (Z.ltb_spec i (n - 2)), (Z.eqb_spec s (S_ - 1)); try lia; try done.
    + cbn. f_equal. rewrite Hg. cbn. unfold ar_size. lia.
    + cbn. f_equal. rewrite Hg. cbn. unfold ar_size. lia.
    + cbn. f_equal. unfold ar_size. lia.
Qed.

Lemma gather_step_triple num l rest s i :
  0 <= s < S_ -> 0 <= i < n - 1 -> Z.of_nat (length l) = ar_idx a R (Gather s i) ->
  T (filled num l (S rest)) (ar_gather_step mem a (ar_size a R) num_nodes (1 + R) ((1 + R) * (n - 1)) s i)
    (filled num (l ++ [ar_node a R (Gather s i)]) rest).
Proof.
  intros Hs Hi Hg. assert (Hpos : 0 < ar_idx a R (Gather s i)) by (cbn; unfold ar_size; nia).
  unfold filled. rewrite length_app, Nat2Z.inj_add, Hg. cbn [length].
  remember (ar_idx a R (Gather s i)) as g eqn:Eg. rewrite (gather_node s i g Hs Hi Eg).
  change (Z.of_nat 1) with 1. fold (others g) (first_ready g) (others (g + 1)) (first_ready (g + 1)).
  rewrite <- (others_plus g 1), <- (first_ready_plus g 1) by lia.
  apply triple_with_idx. cbv zeta. eapply triple_seq; [by apply triple_p2p_node|].
  eapply triple_seq; [apply triple_pend|]. eapply triple_seq; [by apply (triple_upd mem num (g + 1) l _ [])|]. cbn.
  change (ring_ops a _ _ _ s) with (gather_ops a s i).
  apply triple_assoc. destruct (g =? num_nodes - 1) eqn:El; cbn [negb].
  - eapply triple_seq; [by apply triple_children|].
    destruct (Z.eqb_spec s (S_ - 1)) as [->|]; [apply triple_finish|].
    rewrite Eg, (gather_last s i Hs Hi) in El. apply bool_decide_eq_true in El. lia.
  - eapply triple_seq; [by apply triple_children|].
    destruct (s =? S_ - 1);
      exact (triple_child mem num (g + 1) l (MkNode (P2pNode (Some (gather_ops a s i)) 0) (if i =? 0 then 1 + R else 1) 0 None) rest _ _ _ g [] 0 [] 0 _ (eq_sym Hg) eq_refl).
Qed.

Lemma slice_triple num l rest s :
  0 <= s < S_ -> Z.of_nat (length l) = s * ar_size a R ->
  T (filled num l (Z.to_nat (ar_size a R) + rest))
    (and_then (for_to (n - 1) (sliced_scatter_step mem a R (ar_size a R) s))
       (for_to (n - 1) (ar_gather_step mem a (ar_size a R) num_nodes (1 + R) ((1 + R) * (n - 1)) s)))
    (filled num (l ++ (ar_node a R <$> ar_slice_tags a R s)) rest).
Proof.
  intros Hs Hl. unfold ar_slice_tags. rewrite fmap_app, app_assoc.
  assert (Ef : ar_node a R <$> (seqZ 0 (n - 1) ≫= ar_step_tags R s) = seqZ 0 (n - 1) ≫= (fun i => ar_node a R <$> ar_step_tags R s i)).
  { generalize (seqZ 0 (n - 1)). intros q. induction q as [|x q IH]; [done|]. cbn. by rewrite fmap_app, IH. }
  assert (Eg : ar_node a R <$> (Gather s <$> seqZ 0 (n - 1)) = seqZ 0 (n - 1) ≫= (fun i => [ar_node a R (Gather s i)])).
  { generalize (seqZ 0 (n - 1)). intros q. induction q as [|x q IH]; [done|]. cbn. by rewrite IH. }
  rewrite Ef, Eg. replace (Z.to_nat (ar_size a R) + rest)%nat
    with (Z.to_nat (n - 1) * Z.to_nat (1 + R) + (Z.to_nat (n - 1) * 1 + rest))%nat by (unfold ar_size; nia).
  eapply triple_seq.
  - apply (triple_blocks num l _ _ _ _ (fun i => ar_node a R <$> ar_step_tags R s i)); [lia| |].
    + intros i Hi. by rewrite length_fmap, (ar_step_length R HR).
    + intros i l' rest' Hi Hl'. apply scatter_step_triple; [done..|]. rewrite Hl', Hl. cbn. lia.
  - apply (triple_blocks num _ _ _ 1 _ (fun i => [ar_node a R (Gather s i)])); [lia|done|]. intros i l' rest' Hi Hl'. apply gather_step_triple; [done..|].
    rewrite Hl', length_app, (length_bind_uniform _ (Z.to_nat (1 + R))).
    + rewrite length_seqZ, Nat2Z.inj_add, Nat2Z.inj_mul, !Z2Nat.id, Hl by lia. cbn. lia.
    + intros y _. by rewrite length_fmap, (ar_step_length R HR).
Qed.

Lemma sliced_ar_triple : T fresh (initUniRunnerStateSlicedAR mem a R) (filled num_nodes (ar_node a R <$> ar_tags a R) 0).
Proof.
  unfold initUniRunnerStateSlicedAR. rewrite (proj2 (Z.ltb_ge n 1)), (proj2 (Z.eqb_neq n 1)) by lia. cbv zeta.
  change ((R + 2) * (n - 1)) with (ar_size a R).
  eapply triple_seq; [apply triple_alloc_nodes|].
  assert (Ef : ar_node a R <$> ar_tags a R = seqZ 0 S_ ≫= (fun s => ar_node a R <$> ar_slice_tags a R s)).
  { unfold ar_tags. generalize (seqZ 0 S_). intros q. induction q as [|x q IH]; [done|]. cbn. by rewrite fmap_app, IH. }
  rewrite Ef. assert (0 <= ar_size a R) by (unfold ar_size; nia).
  replace (Z.to_nat num_nodes) with (Z.to_nat S_ * Z.to_nat (ar_size a R) + 0)%nat by nia.
  apply (triple_blocks num_nodes [] _ _ _ _ (fun s => ar_node a R <$> ar_slice_tags a R s)); [lia| |].
  - intros s Hs. by rewrite length_fmap, (ar_slice_length a R Hn HR).
  - intros s l' rest' Hs Hl'. apply slice_triple; [done|]. rewrite Hl'. cbn. lia.
Qed.
End SlicedAR.
End Init.
