(* ===== verification/UniDagChain.v ===== *)
(** The graphs of the other collectives of [UniDag]: in every slice [K] steps of
    a transfer and its [R] reductions, then one more transfer if [send]; and
    the copy of the local chunk on its own if [copy].  A step is followed by
    the same step of the next slice, and in the last slice by the next step of
    the first.  Reduce-scatter has [K = nranks - 1], all-gather the same with
    no reductions and a copy, a tree reduction the receives of its rank. *)
From S2P Require Import Prelude Flagcx Arrays C2cRunner KernelTrigger UniDag UniDagBuild UniDagShape.

Section Chain.
Context (K R S_ : Z) (send copy : bool) (HK : 0 <= K) (HR : 0 <= R) (HS : 1 <= S_).

Definition ch_size : Z := K * (1 + R) + (if send then 1 else 0).

Definition ch_idx (t : ring_tag) : Z :=
  match t with
  | Scatter s i => s * ch_size + i * (1 + R)
  | Reduce s i r => s * ch_size + i * (1 + R) + 1 + r
  | Gather s i => s * ch_size + K * (1 + R) + i
  | Copy => S_ * ch_size
  end.

Definition ch_step_tags (s i : Z) : list ring_tag := Scatter s i :: (Reduce s i <$> seqZ 0 R).
Definition ch_slice_tags (s : Z) : list ring_tag := (seqZ 0 K ≫= ch_step_tags s) ++ (if send then [Gather s 0] else []).
Definition ch_tags : list ring_tag := (seqZ 0 S_ ≫= ch_slice_tags) ++ (if copy then [Copy] else []).

Definition ch_valid (t : ring_tag) : Prop :=
  match t with
  | Scatter s i => 0 <= s < S_ /\ 0 <= i < K
  | Reduce s i r => 0 <= s < S_ /\ 0 <= i < K /\ 0 <= r < R
  | Gather s i => send = true /\ 0 <= s < S_ /\ i = 0
  | Copy => copy = true
  end.

(** What follows the last slice of a step, and the reductions of a step. *)
Definition next_step (s i : Z) : list ring_tag :=
  if i <? K - 1 then [Scatter s (i + 1)] else if send then [Gather s 0] else [].

Definition ch_children (t : ring_tag) : list ring_tag :=
  match t with
  | Scatter s i => (Reduce s i <$> seqZ 0 R) ++ (if s <? S_ - 1 then [Scatter (s + 1) i] else next_step 0 i)
  | Reduce s i r => next_step s i
  | Gather s i => if s <? S_ - 1 then [Gather (s + 1) 0] else []
  | Copy => []
  end.

Definition ch_parents (t : ring_tag) : list ring_tag :=
  match t with
  | Scatter s i =>
    (if 0 <? s then [Scatter (s - 1) i] else if 0 <? i then [Scatter (S_ - 1) (i - 1)] else []) ++
    (if 0 <? i then Reduce s (i - 1) <$> seqZ 0 R else [])
  | Reduce s i r => [Scatter s i]
  | Gather s i =>
    (if 0 <? s then [Gather (s - 1) 0] else if 0 <? K then [Scatter (S_ - 1) (K - 1)] else []) ++
    (if 0 <? K then Reduce s (K - 1) <$> seqZ 0 R else [])
  | Copy => []
  end.

Definition ch_depth (t : ring_tag) : Z :=
  match t with
  | Scatter s i => 2 * (i * S_ + s)
  | Reduce s i r => 2 * (i * S_ + s) + 1
  | Gather s i => 2 * (K * S_ + s)
  | Copy => 0
  end.

Lemma ch_step_length s i : length (ch_step_tags s i) = Z.to_nat (1 + R).
Proof. unfold ch_step_tags. cbn. rewrite length_fmap, length_seqZ. lia. Qed.

Lemma ch_size_nonneg : 0 <= ch_size.
Proof. unfold ch_size. destruct send; nia. Qed.

Lemma ch_slice_length s : length (ch_slice_tags s) = Z.to_nat ch_size.
Proof.
  unfold ch_slice_tags. rewrite length_app, (length_bind_uniform _ (Z.to_nat (1 + R))) by (intros; apply ch_step_length).
  rewrite length_seqZ. unfold ch_size. destruct send; cbn; nia.
Qed.

Lemma ch_slices_length : length (seqZ 0 S_ ≫= ch_slice_tags) = Z.to_nat (S_ * ch_size).
Proof.
  rewrite (length_bind_uniform _ (Z.to_nat ch_size)) by (intros; apply ch_slice_length).
  rewrite length_seqZ. pose proof ch_size_nonneg. nia.
Qed.

Lemma ch_tags_lookup k t : ch_tags !! k = Some t -> ch_idx t = Z.of_nat k.
Proof.
  pose proof ch_size_nonneg as Hsz. intros [Hk|[Hge Hk]]%lookup_app_Some.
  2: { rewrite ch_slices_length in *. destruct copy; [|done]. destruct (k - _)%nat eqn:E; [|done]. injection Hk as <-. cbn. nia. }
  apply (lookup_bind_uniform _ (Z.to_nat ch_size)) in Hk as (j & s & q & Hj & Hq & Ht & ->); [|intros; apply ch_slice_length].
  apply lookup_seqZ_eq in Hj as [-> Hs]. apply lookup_app_Some in Ht as [Ht|[Hge Ht]].
  - apply (lookup_bind_uniform _ (Z.to_nat (1 + R))) in Ht as (j2 & i & r & Hi & Hr & Ht & ->); [|intros; apply ch_step_length].
    apply lookup_seqZ_eq in Hi as [-> Hi]. destruct r as [|r].
    + injection Ht as <-. cbn. rewrite !Nat2Z.inj_add, !Nat2Z.inj_mul, !Z2Nat.id by lia. lia.
    + cbn in Ht. rewrite list_lookup_fmap_Some in Ht. destruct Ht as (x & -> & Hx). apply lookup_seqZ_eq in Hx as [-> Hx]. cbn.
      rewrite !Nat2Z.inj_add, !Nat2Z.inj_mul, !Z2Nat.id by lia. lia.
  - rewrite (length_bind_uniform _ (Z.to_nat (1 + R))) in Hge, Ht by (intros; apply ch_step_length).
    rewrite length_seqZ in Hge, Ht. destruct send; [|done]. destruct (q - _)%nat eqn:E; [|done]. injection Ht as <-. cbn.
    rewrite Nat2Z.inj_add, Nat2Z.inj_mul, Z2Nat.id by lia. nia.
Qed.

Lemma ch_slice_elem s t : t ∈ ch_slice_tags s <->
  (exists i, 0 <= i < K /\ (t = Scatter s i \/ exists r, 0 <= r < R /\ t = Reduce s i r)) \/ send = true /\ t = Gather s 0.
Proof.
  unfold ch_slice_tags, ch_step_tags. rewrite elem_of_app, list_elem_of_bind. split.
  - intros [(i & [->|(r & Hr & ->)%elem_of_reduces]%elem_of_cons & Hi%elem_of_seqZ)|Hg].
    + left. exists i. split; [lia|by left].
    + left. exists i. split; [lia|]. right. by exists r.
    + right. destruct send; [|by apply elem_of_nil in Hg]. apply list_elem_of_singleton in Hg. done.
  - intros [(i & Hi & [->|(r & Hr & ->)])|[-> ->]].
    + left. exists i. rewrite elem_of_seqZ. split; [left|lia].
    + left. exists i. rewrite elem_of_seqZ. split; [|lia]. right. apply elem_of_reduces. by exists r.
    + right. by apply list_elem_of_singleton.
Qed.

Lemma ch_tags_elem t : t ∈ ch_tags <-> ch_valid t.
Proof.
  unfold ch_tags. rewrite elem_of_app, list_elem_of_bind. split.
  - intros [(s & [(i & Hi & [->|(r & Hr & ->)])|[Hsend ->]]%ch_slice_elem & Hs%elem_of_seqZ)|Hc]; cbn; [lia..| |].
    + split; [done|lia].
    + destruct copy eqn:E; [|by apply elem_of_nil in Hc]. apply list_elem_of_singleton in Hc as ->. exact E.
  - destruct t as [s i|s i r|s i|]; cbn; intros H; [left; exists s; rewrite ch_slice_elem, elem_of_seqZ; (split; [|lia])..|].
    + left. exists i. split; [lia|by left].
    + left. exists i. split; [lia|]. right. exists r. split; [lia|done].
    + right. by destruct H as (? & _ & ->).
    + right. rewrite H. by apply list_elem_of_singleton.
Qed.

Lemma ch_children_elem t u : u ∈ ch_children t <->
  match t, u with
  | Scatter s i, Scatter s' i' => s < S_ - 1 /\ s' = s + 1 /\ i' = i \/ S_ - 1 <= s /\ i < K - 1 /\ s' = 0 /\ i' = i + 1
  | Scatter s i, Gather s' i' => S_ - 1 <= s /\ K - 1 <= i /\ send = true /\ s' = 0 /\ i' = 0
  | Scatter s i, Reduce s' i' r => s' = s /\ i' = i /\ 0 <= r < R
  | Reduce s i r, Scatter s' i' => i < K - 1 /\ s' = s /\ i' = i + 1
  | Reduce s i r, Gather s' i' => K - 1 <= i /\ send = true /\ s' = s /\ i' = 0
  | Gather s i, Gather s' i' => s < S_ - 1 /\ s' = s + 1 /\ i' = 0
  | _, _ => False
  end.
Proof.
  destruct t as [s i|s i r|s i|], u as [s' i'|s' i' r'|s' i'|]; cbn; unfold next_step; tag_member.
Qed.

Lemma ch_parents_elem t u : ch_valid t -> u ∈ ch_parents t <-> ch_valid u /\ t ∈ ch_children u.
Proof.
  intros Ht. rewrite ch_children_elem.
  destruct t as [s i|s i r|s i|], u as [s' i'|s' i' r'|s' i'|]; cbn in *; destruct_and?; tag_member.
Qed.

Lemma ch_children_valid t u : ch_valid t -> u ∈ ch_children t -> ch_valid u /\ ch_depth t < ch_depth u.
Proof.
  intros Ht. rewrite ch_children_elem. destruct t as [s i|s i r|s i|], u as [s' i'|s' i' r'|s' i'|]; cbn in *; try done; intros H;
    destruct_or?; destruct_and?; subst; (split; [split_and?; try done; lia|nia]).
Qed.

Lemma ch_distinct t : NoDup (ch_children t) /\ NoDup (ch_parents t).
Proof.
  assert (Happ : forall s i (l : list ring_tag), NoDup l -> (forall r, Reduce s i r ∉ l) ->
    NoDup ((Reduce s i <$> seqZ 0 R) ++ l) /\ NoDup (l ++ (Reduce s i <$> seqZ 0 R))).
  { intros s i l Hl Hr. assert (H : NoDup ((Reduce s i <$> seqZ 0 R) ++ l)).
    { apply NoDup_app. split; [apply NoDup_reduces|]. split; [|done]. intros x (r & _ & ->)%elem_of_reduces. apply Hr. }
    split; [done|]. by rewrite (Permutation_app_comm l). }
  split; destruct t as [s i|s i r|s i|]; cbn; unfold next_step; repeat case_match; rewrite ?app_nil_r; cbn [app];
    try apply NoDup_nil_2; try apply NoDup_singleton; try apply NoDup_reduces;
    first [apply Happ | apply (Happ _ _ [_])]; try apply NoDup_singleton; by intros r' [=]%list_elem_of_singleton.
Qed.

Context (data : ring_tag -> nodeData).

(** A node without children has no array for them, but for the transfers of an
    all-gather. *)
Definition ch_array (t : ring_tag) : option (list Z) :=
  match t, ch_children t with
  | Scatter _ _, l => Some (ch_idx <$> l)
  | _, [] => None
  | _, l => Some (ch_idx <$> l)
  end.

Definition ch_node (t : ring_tag) : uniRunnerDagNode :=
  MkNode (data t) (Z.of_nat (length (ch_parents t))) (Z.of_nat (length (ch_children t))) (ch_array t).

Lemma ch_described : described ch_tags ch_idx ch_children ch_parents ch_depth ch_node.
Proof.
  constructor.
  - intros k t. apply ch_tags_lookup.
  - intros t _. split; [|done]. unfold kids, ch_node, ch_array. cbn [nd_numChildren nd_children]. rewrite Nat2Z.id.
    destruct t; [|destruct (ch_children _) as [|x l] eqn:E; [done|]..]; cbn [default from_option]; unfold id;
      rewrite <- (length_fmap ch_idx); apply firstn_all.
  - intros t u Ht%ch_tags_elem Hu. destruct (ch_children_valid t u Ht Hu). by rewrite ch_tags_elem.
  - intros t _. apply ch_distinct.
  - intros t u Ht%ch_tags_elem. rewrite ch_tags_elem. by apply ch_parents_elem.
Qed.

Lemma ch_dag_ok : dag_ok (ch_node <$> ch_tags).
Proof. exact (described_ok _ _ _ _ _ _ ch_described). Qed.

End Chain.
