(* ===== verification/UniDagChainInit.v ===== *)
(** Reduce-scatter, tree reduction and all-gather build the graphs of
    [UniDagChain]. *)
From S2P Require Import Prelude Flagcx Arrays C2cRunner KernelTrigger UniDag UniDagBuild UniDagShape UniDagInit UniDagChain.

(** The step that reduce-scatter and tree reduction share: the transfer [ops],
    its reductions, and what follows unless [last]. *)
Definition chain_step mem (R size S_ : Z) (ops : list uniRunnerP2pOpData) (data : Z -> nodeData) (last : bool) (s i : Z) : build :=
  with_idx (fun p2p =>
    and_then (p2p_node mem p2p ops)
    (and_then (p2p_parents p2p 1 (1 + R) i)
    (and_then (step_children mem p2p R
      (if s =? S_ - 1 then if negb last then Some ((i + 1) * (1 + R)) else None else Some (p2p + size)))
    (and_then (divide_by R) (here (fun start =>
      for_to R (fun r => with_idx (fun red => red_node mem red (data r) (if last then None else Some (start + R)))))))))).

Section Chain.
Context (mem : nat -> bool) (K R S_ : Z) (send copy : bool) (data : ring_tag -> nodeData).
Context (HK : 0 <= K) (HR : 1 <= R) (HS : 1 <= S_).
Abbreviation T := (triple mem).
Abbreviation size := (ch_size K R send).
Abbreviation idx := (ch_idx K R S_ send).
Abbreviation node := (ch_node K R S_ send data).

Lemma triple_step_children num g l nd rest pending p2p red i next :
  i = Z.of_nat (length l) -> nd_children nd = None -> g = i + 1 ->
  T (at_ num g (l ++ [nd]) rest pending p2p red) (step_children mem i R next)
    (at_ num g (l ++ [with_children (((fun r => i + 1 + r) <$> seqZ 0 R) ++ match next with Some c => [c] | None => [] end) nd]) rest pending p2p red).
Proof.
  intros Hi Hnd Hg. unfold step_children. apply triple_assoc.
  eapply triple_seq; [apply triple_children; [done..|destruct next; lia]|].
  assert (Er : replicate (Z.to_nat (match next with Some _ => 1 + R | None => R end)) 0 =
    [] ++ replicate (Z.to_nat R) 0 ++ match next with Some _ => [0] | None => [] end).
  { destruct next; cbn [app]; [|by rewrite app_nil_r]. rewrite <- replicate_S_end. f_equal. lia. }
  rewrite Er. eapply triple_seq.
  { pose proof (triple_children_loop mem num g l nd rest pending p2p red i [] (match next with Some _ => [0] | None => [] end) 0 R
      (fun r => i + 1 + r) Hi eq_refl ltac:(lia)) as H. refine (triple_ext mem _ _ _ _ (for_to_ext _ _ _ _) H). intros r s. by rewrite Z.add_0_r. }
  cbn [app]. destruct next as [c|]; [|apply triple_finish].
  apply triple_child; [done|]. rewrite length_fmap, length_seqZ. lia.
Qed.

Lemma ch_idx_first s i : 0 <= s < S_ -> 0 <= i < K -> 0 <= idx (Scatter s i) /\ (idx (Scatter s i) = 0 <-> s = 0 /\ i = 0).
Proof.
  intros Hs Hi. cbn. assert (1 <= size) by (unfold ch_size; destruct send; nia). clear HK HS.
  pose proof (Z.mul_nonneg_nonneg s size). pose proof (Z.mul_nonneg_nonneg i (1 + R)).
  split; [lia|]. split; [|intros [-> ->]; lia]. intros E. clear -E H H0 H1 Hs Hi HR. split; nia.
Qed.

Lemma ch_scatter_node s i g ops last : 0 <= s < S_ -> 0 <= i < K -> g = idx (Scatter s i) ->
  data (Scatter s i) = P2pNode (Some ops) 0 -> last = bool_decide (i = K - 1 /\ send = false) ->
  with_children (((fun r => g + 1 + r) <$> seqZ 0 R) ++
      match (if s =? S_ - 1 then if negb last then Some ((i + 1) * (1 + R)) else None else Some (g + size)) with Some c => [c] | None => [] end)
    (set_numParents (if g =? 0 then 0 else if i =? 0 then 1 else 1 + R) (MkNode (P2pNode (Some ops) 0) 0 0 None))
  = node (Scatter s i).
Proof.
  intros Hs Hi Hg Hd Hlast. destruct (ch_idx_first s i Hs Hi) as [Hpos Hzero]. rewrite <- Hg in Hzero, Hpos.
  unfold ch_node, ch_array, with_children, set_numParents. cbn [nd_data nd_numParents]. rewrite Hd.
  match goal with |- MkNode _ _ _ (Some ?x) = _ => assert (Ec : x = idx <$> ch_children K R S_ send (Scatter s i)) end.
  { cbn [ch_children]. rewrite fmap_app. f_equal.
    - rewrite <- list_fmap_compose. apply list_fmap_ext. intros k r _. cbn. rewrite Hg. cbn. lia.
    - unfold next_step. rewrite Hlast. destruct (Z.eqb_spec s (S_ - 1)), (Z.ltb_spec s (S_ - 1)); try lia; [|rewrite Hg; cbn; f_equal; lia].
      case_bool_decide as Hl; destruct (Z.ltb_spec i (K - 1)); cbn; try lia; try (f_equal; lia).
      + by destruct Hl as [_ ->].
      + destruct send eqn:Es; cbn; [f_equal; replace i with (K - 1) by lia; lia|]. exfalso. apply Hl. split; [lia|done]. }
  rewrite Ec, length_fmap. f_equal. cbn [ch_parents]. rewrite length_app.
  destruct (Z.eqb_spec g 0) as [E|E].
  - apply Hzero in E as [-> ->]. done.
  - destruct (Z.eqb_spec i 0), (Z.ltb_spec 0 i); try lia; destruct (Z.ltb_spec 0 s); cbn; rewrite ?length_fmap, ?length_seqZ; lia.
Qed.

Lemma ch_reduce_node s i r last : 0 <= i < K -> last = bool_decide (i = K - 1 /\ send = false) ->
  node (Reduce s i r) = match (if last then None else Some (idx (Scatter s i) + 1 + R)) with
    | Some c => MkNode (data (Reduce s i r)) 1 1 (Some [c]) | None => MkNode (data (Reduce s i r)) 1 0 None end.
Proof.
  intros Hi ->. unfold ch_node, ch_array. cbn [ch_children ch_parents]. unfold next_step.
  case_bool_decide as Hl; destruct (Z.ltb_spec i (K - 1)); try lia.
  - by destruct Hl as [_ ->].
  - cbn. do 3 f_equal. lia.
  - destruct send eqn:Es; cbn; [do 3 f_equal; replace i with (K - 1) by lia; lia|]. exfalso. apply Hl. split; [lia|done].
Qed.

Lemma chain_step_triple num l rest s i ops d last :
  0 <= s < S_ -> 0 <= i < K -> Z.of_nat (length l) = idx (Scatter s i) ->
  data (Scatter s i) = P2pNode (Some ops) 0 -> (forall r, data (Reduce s i r) = d r /\ node_blocks (MkNode (d r) 0 0 None) = 0) ->
  last = bool_decide (i = K - 1 /\ send = false) ->
  T (filled num l (Z.to_nat (1 + R) + rest)) (chain_step mem R size S_ ops d last s i)
    (filled num (l ++ (node <$> ch_step_tags R s i)) rest).
Proof.
  intros Hs Hi Hg Hops Hd Hlast. destruct (ch_idx_first s i Hs Hi) as [Hpos _].
  unfold filled. rewrite length_app, length_fmap, (ch_step_length R ltac:(lia)), Nat2Z.inj_add, Z2Nat.id, Hg by lia.
  remember (idx (Scatter s i)) as g eqn:Eg.
  fold (others g) (first_ready g) (others (g + (1 + R))) (first_ready (g + (1 + R))).
  replace (Z.to_nat (1 + R) + rest)%nat with (S (Z.to_nat R + rest)) by lia.
  apply triple_with_idx. eapply triple_seq; [by apply triple_p2p_node|].
  eapply triple_seq; [by apply triple_p2p_parents|].
  rewrite others_next, first_ready_next by done.
  eapply triple_seq; [by apply triple_step_children|].
  eapply triple_seq; [apply triple_divide; lia|]. apply triple_here.
  rewrite (ch_scatter_node s i g ops last Hs Hi Eg Hops Hlast).
  pose proof (triple_reduces mem num (g + 1) (l ++ [node (Scatter s i)]) rest (others (g + 1)) (first_ready (g + 1)) R
    d (if last then None else Some (g + 1 + R)) (fun r => node (Reduce s i r))) as H.
  rewrite <- app_assoc in H.
  assert (E : [node (Scatter s i)] ++ ((fun r => node (Reduce s i r)) <$> seqZ 0 R) = node <$> ch_step_tags R s i).
  { unfold ch_step_tags. cbn. by rewrite <- list_fmap_compose. }
  rewrite E in H. rewrite Z.add_assoc, <- (others_plus (g + 1) R), <- (first_ready_plus (g + 1) R) by lia. apply H; try done; try lia.
  - rewrite length_app. cbn. lia.
  - intros r. apply Hd.
  - intros r Hr. rewrite (ch_reduce_node s i r last Hi Hlast), <- Eg. destruct (Hd r) as [-> _]. by destruct last.
Qed.

(** ** The transfer that ends a slice *)

Definition chain_send (ops : list uniRunnerP2pOpData) (s : Z) : build := with_idx (fun g =>
  and_then (p2p_node mem g ops)
  (and_then (if K =? 0 then if s =? 0 then and_then (set_parents g 0) (enqueue_p2p g) else and_then (set_parents g 1) pend
             else and_then (set_parents g (1 + R)) pend)
  (if s =? S_ - 1 then set_numChildren g 0
   else and_then (set_numChildren g 1) (and_then (alloc_children mem g 1) (set_child g 0 (g + size)))))).

Lemma chain_send_triple num l rest s ops :
  send = true -> 0 <= s < S_ -> Z.of_nat (length l) = idx (Gather s 0) -> data (Gather s 0) = P2pNode (Some ops) 0 ->
  T (filled num l (S rest)) (chain_send ops s) (filled num (l ++ [node (Gather s 0)]) rest).
Proof.
  intros Hsend Hs Hg Hops. unfold filled. rewrite length_app, Nat2Z.inj_add, Hg. cbn [length].
  assert (Hz : 0 <= idx (Gather s 0) /\ (idx (Gather s 0) = 0 <-> K = 0 /\ s = 0)).
  { cbn. assert (1 <= size) by (unfold ch_size; rewrite Hsend; nia). pose proof (Z.mul_nonneg_nonneg s size).
    pose proof (Z.mul_nonneg_nonneg K (1 + R)). split; [lia|]. split; [|intros [-> ->]; lia]. intros E. split; nia. }
  remember (idx (Gather s 0)) as g eqn:Eg. destruct Hz as [Hpos Hzero].
  change (Z.of_nat 1) with 1. fold (others g) (first_ready g) (others (g + 1)) (first_ready (g + 1)).
  apply triple_with_idx. eapply triple_seq; [by apply triple_p2p_node|].
  set (par := Z.of_nat (length (ch_parents K R S_ (Gather s 0)))).
  eapply (triple_seq _ _ (at_ num (g + 1) (l ++ [MkNode (P2pNode (Some ops) 0) par 0 None]) rest (others (g + 1)) (first_ready (g + 1)) [])).
  { assert (Hpar : par = if K =? 0 then if s =? 0 then 0 else 1 else 1 + R).
    { unfold par. cbn [ch_parents]. rewrite length_app. destruct (Z.eqb_spec K 0), (Z.ltb_spec 0 K); try lia;
        destruct (Z.eqb_spec s 0), (Z.ltb_spec 0 s); try lia; cbn; rewrite ?length_fmap, ?length_seqZ; lia. }
    rewrite Hpar, <- others_next, <- first_ready_next by done. clear par Hpar.
    assert (Hup : forall p, T (at_ num (g + 1) (l ++ [MkNode (P2pNode (Some ops) 0) 0 0 None]) rest (others g) (first_ready g) [])
      (set_parents g p) (at_ num (g + 1) (l ++ [MkNode (P2pNode (Some ops) 0) p 0 None]) rest (others g) (first_ready g) [])).
    { intros p. by apply (triple_upd mem num (g + 1) l (MkNode (P2pNode (Some ops) 0) 0 0 None) []). }
    destruct (Z.eqb_spec g 0) as [E0|E0].
    - apply Hzero in E0 as [-> ->]. cbn [Z.eqb]. rewrite Z.add_0_r. eapply triple_seq; [apply Hup|]. apply triple_enqueue_p2p.
    - rewrite app_nil_r. destruct (Z.eqb_spec K 0), (Z.eqb_spec s 0); try (exfalso; apply E0, Hzero; done);
        (eapply triple_seq; [apply Hup|]; apply triple_pend). }
  unfold ch_node, ch_array. rewrite Hops. fold par. cbn [ch_children].
  destruct (Z.eqb_spec s (S_ - 1)), (Z.ltb_spec s (S_ - 1)); try lia.
  - by apply (triple_upd mem num (g + 1) l (MkNode (P2pNode (Some ops) 0) par 0 None) []).
  - apply triple_assoc. eapply triple_seq; [by apply triple_children|].
    match goal with |- T _ _ (at_ _ _ (_ ++ [?x]) _ _ _ _) => replace x with (MkNode (P2pNode (Some ops) 0) par 1 (Some [g + size])) end.
    + exact (triple_child mem num (g + 1) l (MkNode (P2pNode (Some ops) 0) par 0 None) rest _ _ _ g [] 0 [] 0 _ (eq_sym Hg) eq_refl).
    + cbn. do 3 f_equal. rewrite Eg. cbn. lia.
Qed.

(** ** All slices *)

Lemma fmap_bind_comm {A B C} (f : B -> C) (g : A -> list B) (l : list A) : f <$> (l ≫= g) = l ≫= (fun x => f <$> g x).
Proof. induction l as [|x l IH]; [done|]. cbn. by rewrite fmap_app, IH. Qed.

Lemma chain_triple num (step : Z -> Z -> build) (last_send body : Z -> build) :
  (forall s P M Q, T P (for_to K (step s)) M -> T M (if send then last_send s else finish) Q -> T P (body s) Q) ->
  (forall s i l rest, 0 <= s < S_ -> 0 <= i < K -> Z.of_nat (length l) = idx (Scatter s i) ->
    T (filled num l (Z.to_nat (1 + R) + rest)) (step s i) (filled num (l ++ (node <$> ch_step_tags R s i)) rest)) ->
  (forall s l rest, send = true -> 0 <= s < S_ -> Z.of_nat (length l) = idx (Gather s 0) ->
    T (filled num l (S rest)) (last_send s) (filled num (l ++ [node (Gather s 0)]) rest)) ->
  T (filled num [] (Z.to_nat (S_ * size)))
    (for_to S_ body)
    (filled num (node <$> (seqZ 0 S_ ≫= ch_slice_tags K R send)) 0).
Proof.
  intros Hbody Hstep Hsend. pose proof (ch_size_nonneg K R send HK ltac:(lia)) as Hsz. rewrite fmap_bind_comm.
  replace (Z.to_nat (S_ * size)) with (Z.to_nat S_ * Z.to_nat size + 0)%nat by nia.
  apply (triple_blocks mem num [] _ _ _ _ (fun s => node <$> ch_slice_tags K R send s)); [lia| |].
  { intros s Hs. by rewrite length_fmap, (ch_slice_length K R send HK ltac:(lia)). }
  intros s l rest Hs Hl. cbn in Hl. rewrite Z2Nat.id in Hl by done.
  unfold ch_slice_tags. rewrite fmap_app, app_assoc, fmap_bind_comm.
  replace (Z.to_nat size + rest)%nat with (Z.to_nat K * Z.to_nat (1 + R) + ((if send then 1 else 0) + rest))%nat
    by (unfold ch_size; destruct send; nia).
  eapply Hbody.
  - apply (triple_blocks mem num l _ _ _ _ (fun i => node <$> ch_step_tags R s i)); [done| |].
    + intros i Hi. by rewrite length_fmap, (ch_step_length R ltac:(lia)).
    + intros i l' rest' Hi Hl'. apply Hstep; [done..|]. rewrite Hl', Hl. cbn. lia.
  - destruct send eqn:Es; [|rewrite app_nil_r; apply triple_finish]. apply Hsend; [done..|].
    rewrite length_app, (length_bind_uniform _ (Z.to_nat (1 + R))).
    + rewrite length_seqZ, Nat2Z.inj_add, Nat2Z.inj_mul, !Z2Nat.id, Hl by lia. cbn. lia.
    + intros y _. by rewrite length_fmap, (ch_step_length R ltac:(lia)).
Qed.
End Chain.

(** ** Reduce-scatter *)

Section RingRS.
Context (mem : nat -> bool) (a : uni_args) (R : Z).
Abbreviation n := (ua_nranks a).
Abbreviation S_ := (ua_numSlices a).
Context (Hn : 2 <= n) (HS : 1 <= S_) (HR : 1 <= R).

Definition rs_ops (s i : Z) : list uniRunnerP2pOpData :=
  let txChunk := Z.rem (ua_rank a - i - 1 + n) n in
  let rxChunk := Z.rem (ua_rank a - i - 2 + n) n in
  let srcBase := if i =? 0 then ua_sendbuff a else ua_scratchbuff a in
  [uni_send_op a (srcBase +u64 rs_offset a txChunk s) (rs_slice_count a s) (nextRank a);
   uni_recv_op a (ua_scratchbuff a +u64 rs_offset a rxChunk s) (rs_slice_count a s) (prevRank a)].

Definition rs_reduce (s i r : Z) : nodeData :=
  let redOffset := red_offset a (rs_offset a (Z.rem (ua_rank a - i - 2 + n) n) s) (rs_slice_count a s) R r in
  RedNode (ua_scratchbuff a +u64 redOffset) (ua_sendbuff a +u64 redOffset)
    (if i =? n - 2 then ua_recvbuff a +u64 red_offset a (rs_in_chunk a s) (rs_slice_count a s) R r else ua_scratchbuff a +u64 redOffset)
    (red_count (rs_slice_count a s) R r) (ua_nthreads a) (ua_datatype a) (ua_redOp a) 0.

Definition rs_data (t : ring_tag) : nodeData :=
  match t with Scatter s i => P2pNode (Some (rs_ops s i)) 0 | Reduce s i r => rs_reduce s i r | _ => P2pNode None 0 end.

Definition rs_nodes : list uniRunnerDagNode :=
  ch_node (n - 1) R S_ false rs_data <$> ch_tags (n - 1) R S_ false false.

Lemma ring_rs_triple :
  triple mem fresh (initUniRunnerStateRingRS mem a R) (filled (S_ * ((R + 1) * (n - 1))) rs_nodes 0).
Proof.
  unfold initUniRunnerStateRingRS. rewrite (proj2 (Z.ltb_ge n 1)), (proj2 (Z.eqb_neq n 1)) by lia. cbv zeta.
  assert (Esz : (R + 1) * (n - 1) = ch_size (n - 1) R false) by (unfold ch_size; lia). rewrite Esz.
  eapply triple_seq; [apply triple_alloc_nodes|]. unfold rs_nodes, ch_tags. rewrite app_nil_r.
  apply (chain_triple mem (n - 1) R S_ false rs_data ltac:(lia) HR HS _ (rs_step mem a R (ch_size (n - 1) R false)) (fun _ => finish)); [| |done].
  - intros s P M Q Hp Hq. eapply triple_post; [exact Hp|]. intros st Hm. destruct (Hq st Hm) as (r & s' & [= <- <-] & [[_ HQ]|[? _]]); done.
  - intros s i l rest Hs Hi Hl.
    apply (chain_step_triple mem (n - 1) R S_ false rs_data ltac:(lia) HR _ l rest s i (rs_ops s i) (rs_reduce s i) (i =? n - 2)); try done.
    destruct (Z.eqb_spec i (n - 2)) as [E|E]; symmetry; [apply bool_decide_eq_true|apply bool_decide_eq_false]; [split; [lia|done]|lia].
Qed.
End RingRS.

(** ** Tree reduction *)

Section Tree.
Context (mem : nat -> bool) (a : uni_args) (root R : Z).
Abbreviation n := (ua_nranks a).
Abbreviation S_ := (ua_numSlices a).
Abbreviation K := (recv_steps a root).
Context (Hn : 2 <= n) (HS : 1 <= S_) (HR : 1 <= R).
(* The last step is the root's alone. *)
Context (HK : 0 <= K) (Hroot : algoRank a root = 0 -> K = nTotalSteps a) (Hother : algoRank a root <> 0 -> K < nTotalSteps a).

Definition tree_sends : bool := negb (algoRank a root =? 0).

Definition tree_recv_ops (s i : Z) : list uniRunnerP2pOpData :=
  [uni_recv_op a (ua_scratchbuff a +u64 ((ua_count a *u64 getFlagcxDataTypeSize (ua_datatype a)) +u64 rs_in_chunk a s)) (rs_slice_count a s)
     (Z.rem (ua_rank a + Z.shiftl 1 i) n)].

Definition tree_send_ops (s : Z) : list uniRunnerP2pOpData :=
  [uni_send_op a ((if K =? 0 then ua_sendbuff a else ua_scratchbuff a) +u64 rs_in_chunk a s) (rs_slice_count a s)
     (Z.rem (ua_rank a - Z.shiftl 1 (ctz (algoRank a root)) + n) n)].

Definition tree_reduce (s i r : Z) : nodeData :=
  let half := ua_count a *u64 getFlagcxDataTypeSize (ua_datatype a) in
  let redOffset := red_offset a (half +u64 rs_in_chunk a s) (rs_slice_count a s) R r in
  RedNode (ua_scratchbuff a +u64 redOffset) ((if i =? 0 then ua_sendbuff a else ua_scratchbuff a) +u64 redOffset -u64 half)
    ((if i =? nTotalSteps a - 1 then ua_recvbuff a else ua_scratchbuff a) +u64 redOffset -u64 half)
    (red_count (rs_slice_count a s) R r) (ua_nthreads a) (ua_datatype a) (ua_redOp a) 0.

Definition tree_data (t : ring_tag) : nodeData :=
  match t with
  | Scatter s i => P2pNode (Some (tree_recv_ops s i)) 0
  | Reduce s i r => tree_reduce s i r
  | Gather s _ => P2pNode (Some (tree_send_ops s)) 0
  | Copy => P2pNode None 0
  end.

Definition tree_nodes : list uniRunnerDagNode := ch_node K R S_ tree_sends tree_data <$> ch_tags K R S_ tree_sends false.

Lemma tree_triple :
  triple mem fresh (initUniRunnerStateTreeRed mem a root R) (filled (S_ * ch_size K R tree_sends) tree_nodes 0).
Proof.
  unfold initUniRunnerStateTreeRed. rewrite (proj2 (Z.eqb_neq n 0)), (proj2 (Z.ltb_ge n 1)), (proj2 (Z.eqb_neq n 1)) by lia. cbv zeta.
  assert (Esz : (if algoRank a root =? 0 then 0 else 1) + K + K * R = ch_size K R tree_sends).
  { unfold ch_size, tree_sends. destruct (_ =? 0); cbn; lia. }
  rewrite Esz, (Z.mul_comm (ch_size _ _ _)). eapply triple_seq; [apply triple_alloc_nodes|]. unfold tree_nodes, ch_tags. rewrite app_nil_r.
  apply (chain_triple mem K R S_ tree_sends tree_data HK HR HS _ (tree_recv_step mem a R (ch_size K R tree_sends))
    (tree_send mem a root R K (ch_size K R tree_sends))).
  - intros s P M Q Hp Hq. eapply triple_seq; [exact Hp|]. unfold tree_sends in Hq at 1. by destruct (_ =? 0).
  - intros s i l rest Hs Hi Hl.
    apply (chain_step_triple mem K R S_ tree_sends tree_data HK HR _ l rest s i (tree_recv_ops s i) (tree_reduce s i)
      (i =? nTotalSteps a - 1)); try done.
    unfold tree_sends. destruct (Z.eqb_spec (algoRank a root) 0) as [E|E]; cbn [negb].
    + rewrite (Hroot E). destruct (Z.eqb_spec i (nTotalSteps a - 1)), (bool_decide_reflect (i = nTotalSteps a - 1 /\ false = false)); naive_solver.
    + specialize (Hother E). destruct (Z.eqb_spec i (nTotalSteps a - 1)), (bool_decide_reflect (i = K - 1 /\ true = false)); try lia; naive_solver.
  - intros s l rest Hsend Hs Hl. exact (chain_send_triple mem K R S_ tree_sends tree_data HK HR HS _ l rest s (tree_send_ops s) Hsend Hs Hl eq_refl).
Qed.
End Tree.
