(* ===== verification/UniSched.v ===== *)
(** The scheduler of the uniform runner ([flagcx/runner/uni_runner_impl.cc]):
    the pool of events, the FIFO of reductions that a kernel on the device
    consumes ([core/flagcx_reduce_kernel_host.cc],
    [adaptor/kernel/nvidia/flagcx_reduce_kernel_device.cu]), and the loop that
    launches the ready nodes of a graph and collects the ones in flight.

    Calls into the device, the network and the allocator are answered by an
    environment, from everything called before.  The kernel moves whenever the
    host reads a word it shares with it.  [w_log] records what the statements
    are about: the nodes launched and the nodes found complete.  Event pools
    are below 2^31 events. *)
From S2P Require Import Prelude Flagcx Arrays C2cRunner KernelTrigger UniDag.

(** ** The FIFO of reductions *)

(** [flagcxReduceTrigger]: [value[0..3]]. *)
Record reduceTrigger := MkRed { rt_fst : Z; rt_snd : Z; rt_out : Z; rt_ctl : Z }.
Definition red_zero : reduceTrigger := MkRed 0 0 0 0.

Definition flagcxReduceTriggerAvailable := 0.
Definition flagcxReduceTriggerEnqueued := 1.
Definition flagcxReduceTriggerInprogress := 2.
Definition flagcxReduceTriggerComplete := 3.

Definition flagcxReduceTriggerOffCount := 0.
Definition flagcxReduceTriggerBitsCount := 32.
Definition flagcxReduceTriggerOffNThreads := flagcxReduceTriggerOffCount + flagcxReduceTriggerBitsCount.
Definition flagcxReduceTriggerBitsNThreads := 16.
Definition flagcxReduceTriggerOffDatatype := flagcxReduceTriggerOffNThreads + flagcxReduceTriggerBitsNThreads.
Definition flagcxReduceTriggerBitsDatatype := 4.
Definition flagcxReduceTriggerOffRedop := flagcxReduceTriggerOffDatatype + flagcxReduceTriggerBitsDatatype.
Definition flagcxReduceTriggerBitsRedop := 4.
Definition flagcxReduceTriggerOffState := flagcxReduceTriggerOffRedop + flagcxReduceTriggerBitsRedop.
Definition flagcxReduceTriggerBitsState := 2.

(** [(x & mask) << off]. *)
Definition put_field (bits off x : Z) : Z := Z.shiftl (Z.land x (flagcxTriggerMask bits)) off mod U64_MOD.

Definition datatype_code (dt : flagcxDataType_t) : Z :=
  match dt with
  | flagcxInt8 => 0 | flagcxUint8 => 1 | flagcxInt32 => 2 | flagcxUint32 => 3 | flagcxInt64 => 4 | flagcxUint64 => 5
  | flagcxFloat16 => 6 | flagcxFloat32 => 7 | flagcxFloat64 => 8 | flagcxBfloat16 => 9
  end.
Definition redop_code (op : flagcxRedOp_t) : Z :=
  match op with flagcxSum => 0 | flagcxProd => 1 | flagcxMax => 2 | flagcxMin => 3 | flagcxAvg => 4 | flagcxRedNoOp => 5 end.

Definition setValue (fst snd out count nthreads : Z) (dt : flagcxDataType_t) (op : flagcxRedOp_t) (state : Z) : reduceTrigger :=
  MkRed fst snd out
    (Z.lor (Z.lor (Z.lor (Z.lor
      (put_field flagcxReduceTriggerBitsCount flagcxReduceTriggerOffCount count)
      (put_field flagcxReduceTriggerBitsNThreads flagcxReduceTriggerOffNThreads nthreads))
      (put_field flagcxReduceTriggerBitsDatatype flagcxReduceTriggerOffDatatype (datatype_code dt)))
      (put_field flagcxReduceTriggerBitsRedop flagcxReduceTriggerOffRedop (redop_code op)))
      (put_field flagcxReduceTriggerBitsState flagcxReduceTriggerOffState state)).

Definition pollState (t : reduceTrigger) : Z :=
  Z.land (Z.shiftr (rt_ctl t) flagcxReduceTriggerOffState) (flagcxTriggerMask flagcxReduceTriggerBitsState).

(** The number of elements, as the kernel reads it. *)
Definition getCount (t : reduceTrigger) : Z :=
  Z.land (Z.shiftr (rt_ctl t) flagcxReduceTriggerOffCount) (flagcxTriggerMask flagcxReduceTriggerBitsCount).

Definition set_ctl (c : Z) (t : reduceTrigger) : reduceTrigger := MkRed (rt_fst t) (rt_snd t) (rt_out t) c.

(** The store of [setState] from the word it loaded. *)
Definition state_cleared (ctl state : Z) : Z :=
  Z.lor (Z.ldiff ctl (put_field flagcxReduceTriggerBitsState flagcxReduceTriggerOffState 3))
    (put_field flagcxReduceTriggerBitsState flagcxReduceTriggerOffState state).

(** The device's [setComplete], a fetch-or. *)
Definition setComplete (t : reduceTrigger) : reduceTrigger :=
  set_ctl (Z.lor (rt_ctl t) (put_field flagcxReduceTriggerBitsState flagcxReduceTriggerOffState flagcxReduceTriggerComplete)) t.

(** The buffer, and the slots whose reductions blocks of the kernel are at. *)
Record reduceFifo := MkRedFifo {
  rf_capacity : Z;
  rf_consumed : Z;
  rf_produced : Z;
  rf_terminate : Z;
  rf_slots : list reduceTrigger;
  rf_busy : list Z
}.

Definition rf_set_slots l f := MkRedFifo (rf_capacity f) (rf_consumed f) (rf_produced f) (rf_terminate f) l (rf_busy f).
Definition rf_set_produced p f := MkRedFifo (rf_capacity f) (rf_consumed f) p (rf_terminate f) (rf_slots f) (rf_busy f).
Definition set_terminate t f := MkRedFifo (rf_capacity f) (rf_consumed f) (rf_produced f) t (rf_slots f) (rf_busy f).

(** A block takes the next reduction, or ends one. *)
Inductive kernel_step : reduceFifo -> reduceFifo -> Prop :=
| kernel_take f : rf_consumed f < rf_produced f ->
    kernel_step f (MkRedFifo (rf_capacity f) (rf_consumed f +u64 1) (rf_produced f) (rf_terminate f) (rf_slots f)
      (rf_busy f ++ [Z.land (rf_consumed f) (rf_capacity f - 1)]))
| kernel_end f b1 slot b2 l : rf_busy f = b1 ++ slot :: b2 ->
    (t ← arr_get (rf_slots f) slot; arr_set (rf_slots f) slot (setComplete t)) = Some l ->
    kernel_step f (MkRedFifo (rf_capacity f) (rf_consumed f) (rf_produced f) (rf_terminate f) l (b1 ++ b2)).

Definition flagcxRedFifoInit (capacity : Z) : reduceFifo :=
  MkRedFifo capacity 0 0 0 (replicate (Z.to_nat capacity) red_zero) [].

(** ** The pool of events *)

Record uniRunnerP2pEventBitmap := MkBitmap { bm_bits : option (list Z); bm_nextIdx : Z; bm_size : Z }.

Definition isAvailable (m : uniRunnerP2pEventBitmap) (index : Z) : option bool :=
  bits ← bm_bits m; w ← arr_get bits (index / 64); Some (Z.land w (Z.shiftl 1 (index mod 64)) =? 0).

Definition set_bit (m : uniRunnerP2pEventBitmap) (index : Z) (f : Z -> Z -> Z) : option uniRunnerP2pEventBitmap :=
  bits ← bm_bits m; w ← arr_get bits (index / 64);
  bits' ← arr_set bits (index / 64) (f w (Z.shiftl 1 (index mod 64)));
  Some (MkBitmap (Some bits') (bm_nextIdx m) (bm_size m)).
Definition markInUse m index := set_bit m index Z.lor.
Definition markAvailable m index := set_bit m index Z.ldiff.

Definition advance (m : uniRunnerP2pEventBitmap) : uniRunnerP2pEventBitmap :=
  MkBitmap (bm_bits m) ((bm_nextIdx m + 1) mod bm_size m) (bm_size m).

(** [fuel] more turns of the loop. *)
Fixpoint getAvailable_loop (fuel : nat) (m : uniRunnerP2pEventBitmap) : option (Z * uniRunnerP2pEventBitmap) :=
  match fuel with
  | O => Some (-1, m)
  | S fuel => free ← isAvailable m (bm_nextIdx m);
    if free : bool then Some (bm_nextIdx m, advance m) else getAvailable_loop fuel (advance m)
  end.
Definition getAvailable m := getAvailable_loop (Z.to_nat (bm_size m)) m.

Definition getEvent (m : uniRunnerP2pEventBitmap) : option (Z * uniRunnerP2pEventBitmap) :=
  '(idx, m) ← getAvailable m;
  if negb (idx =? -1) then m ← markInUse m idx; Some (idx, m) else Some (idx, m).

(** ** Calls *)

(** The arrays of the event pool: the events and the bitmap. *)
Inductive heap_block := EventArray | BitArray.

Inductive uni_call :=
| UGroupStart | UGroupEnd
| USend (buff count : Z) (dt : flagcxDataType_t) (peer stream channel : Z)
| URecv (buff count : Z) (dt : flagcxDataType_t) (peer stream channel : Z)
| UMemcpy (dst src size stream : Z)
| UEventCreate | UEventDestroy (event : Z) | UEventRecord (event stream : Z) | UEventQuery (event : Z)
| UStreamCreate | UStreamDestroy (stream : Z) | UStreamSynchronize (stream : Z)
| USetDevice | UHostGetDevicePointer | UHostMalloc (size : Z) | UHostFree | UNewFifo | UDeleteFifo | ULaunchKernel
| UCalloc (block : heap_block) (bytes : Z) | UFree (block : heap_block)
| UDeviceMalloc (size : Z) | UDeviceFree (ptr : Z)
| UPoll (slot : Z) | UEnqueue.

(** A call with its result and what it wrote through its pointer argument. *)
Record uni_event := UEvent { ue_call : uni_call; ue_result : flagcxResult_t; ue_out : Z }.

Inductive node_event := Launch (i : Z) | Complete (i : Z).

(** [flagcxUniRunnerState] and what surrounds it. *)
Record world := MkWorld {
  w_dag : dag;
  w_map : uniRunnerP2pEventBitmap;
  w_events : option (list Z);
  w_eventsCreated : Z;
  w_fifo : option reduceFifo;
  w_commStream : Z;
  w_redStream : Z;
  w_cpyStream : Z;
  w_asyncResult : flagcxResult_t;
  w_abort : bool;
  w_trace : list uni_event;
  w_log : list node_event
}.

Definition set_dag d w := MkWorld d (w_map w) (w_events w) (w_eventsCreated w) (w_fifo w) (w_commStream w) (w_redStream w) (w_cpyStream w) (w_asyncResult w) (w_abort w) (w_trace w) (w_log w).
Definition set_map m w := MkWorld (w_dag w) m (w_events w) (w_eventsCreated w) (w_fifo w) (w_commStream w) (w_redStream w) (w_cpyStream w) (w_asyncResult w) (w_abort w) (w_trace w) (w_log w).
Definition set_events e n w := MkWorld (w_dag w) (w_map w) e n (w_fifo w) (w_commStream w) (w_redStream w) (w_cpyStream w) (w_asyncResult w) (w_abort w) (w_trace w) (w_log w).
Definition set_fifo f w := MkWorld (w_dag w) (w_map w) (w_events w) (w_eventsCreated w) f (w_commStream w) (w_redStream w) (w_cpyStream w) (w_asyncResult w) (w_abort w) (w_trace w) (w_log w).
Definition set_streams a b c w := MkWorld (w_dag w) (w_map w) (w_events w) (w_eventsCreated w) (w_fifo w) a b c (w_asyncResult w) (w_abort w) (w_trace w) (w_log w).
Definition set_async r b w := MkWorld (w_dag w) (w_map w) (w_events w) (w_eventsCreated w) (w_fifo w) (w_commStream w) (w_redStream w) (w_cpyStream w) r b (w_trace w) (w_log w).
Definition set_trace t w := MkWorld (w_dag w) (w_map w) (w_events w) (w_eventsCreated w) (w_fifo w) (w_commStream w) (w_redStream w) (w_cpyStream w) (w_asyncResult w) (w_abort w) t (w_log w).
Definition set_log l w := MkWorld (w_dag w) (w_map w) (w_events w) (w_eventsCreated w) (w_fifo w) (w_commStream w) (w_redStream w) (w_cpyStream w) (w_asyncResult w) (w_abort w) (w_trace w) l.

(** ** Programs *)

Definition uni_prog (A : Type) : Type := world -> option (world * A).
Definition ret {A : Type} (x : A) : uni_prog A := fun w => Some (w, x).
Definition bind {A B : Type} (p : uni_prog A) (k : A -> uni_prog B) : uni_prog B :=
  fun w => match p w with Some (w', x) => k x w' | None => None end.
Definition get {A : Type} (f : world -> option A) : uni_prog A := fun w => x ← f w; Some (w, x).
Definition modify (f : world -> option world) : uni_prog unit := fun w => w' ← f w; Some (w', tt).

Declare Scope uni_scope.
Delimit Scope uni_scope with uni.
Notation "'run!' x := p 'in' q" := (bind p (fun x => q)) (at level 200, x name, p at level 100, q at level 200, right associativity) : uni_scope.
Notation "'do!' p 'in' q" := (bind p (fun _ => q)) (at level 200, p at level 100, q at level 200, right associativity) : uni_scope.
Open Scope uni_scope.

Section Scheduler.
Variable ans : list uni_event -> uni_call -> flagcxResult_t * Z.
Variable dev : list uni_event -> reduceFifo -> reduceFifo.
Variable comm_rank : Z.

Definition call_out (c : uni_call) : uni_prog (flagcxResult_t * Z) := fun w =>
  let r := ans (w_trace w) c in Some (set_trace (w_trace w ++ [UEvent c r.1 r.2]) w, r).
Definition do_call (c : uni_call) : uni_prog flagcxResult_t := run! r := call_out c in ret r.1.

(** [FLAGCXCHECK(p); k]. *)
Definition uni_check (p k : uni_prog flagcxResult_t) : uni_prog flagcxResult_t :=
  run! r := p in if flagcx_failed r then ret r else k.

(** The host reads the FIFO: first the kernel moves. *)
Definition observe (c : uni_call) : uni_prog reduceFifo := fun w =>
  f ← w_fifo w; let f := dev (w_trace w) f in
  Some (set_trace (w_trace w ++ [UEvent c flagcxSuccess 0]) (set_fifo (Some f) w), f).
Definition put_fifo (f : reduceFifo) : uni_prog unit := modify (fun w => Some (set_fifo (Some f) w)).

Definition log (e : node_event) : uni_prog unit := modify (fun w => Some (set_log (w_log w ++ [e]) w)).
Definition resetEvent (idx : Z) : uni_prog unit := modify (fun w => m ← markAvailable (w_map w) idx; Some (set_map m w)).
Definition getEventIdx : uni_prog Z := fun w => '(idx, m) ← getEvent (w_map w); Some (set_map m w, idx).
Definition node_at (i : Z) : uni_prog uniRunnerDagNode := get (fun w => l ← dg_nodes (w_dag w); arr_get l i).
Definition put_node (i : Z) (n : uniRunnerDagNode) : uni_prog unit := modify (fun w =>
  l ← dg_nodes (w_dag w); l' ← arr_set l i n; Some (set_dag (set_nodes l' (w_dag w)) w)).
Definition event_at (idx : Z) : uni_prog Z := get (fun w => l ← w_events w; arr_get l idx).

(** ** Launching *)

(** The operations of a group, up to the first that is refused. *)
Fixpoint run_ops (ops : list uniRunnerP2pOpData) : uni_prog flagcxResult_t :=
  match ops with
  | [] => ret flagcxSuccess
  | op :: ops =>
    if po_type op =? flagcxDevicePrimSend then
      run! stream := get (fun w => Some (w_commStream w)) in
      run! r := do_call (USend (po_addr op) (po_count op) (po_datatype op) (po_peerRank op) stream
                        (flagcxCollProxyChannelForEdge comm_rank (po_peerRank op) 0)) in
      if negb (flagcxRunnerResultAccepted r) then ret r else run_ops ops
    else if po_type op =? flagcxDevicePrimRecv then
      run! stream := get (fun w => Some (w_commStream w)) in
      run! r := do_call (URecv (po_addr op) (po_count op) (po_datatype op) (po_peerRank op) stream
                        (flagcxCollProxyChannelForEdge (po_peerRank op) comm_rank 0)) in
      if negb (flagcxRunnerResultAccepted r) then ret r else run_ops ops
    else ret flagcxInvalidArgument
  end.

Definition run_group (body : uni_prog flagcxResult_t) : uni_prog flagcxResult_t :=
  run! startResult := do_call UGroupStart in
  if negb (flagcxRunnerResultAccepted startResult) then ret startResult else
  run! bodyResult := body in
  let firstError := flagcxRunnerRecordFirstError bodyResult flagcxSuccess in
  run! endResult := do_call UGroupEnd in
  ret (flagcxRunnerRecordFirstError endResult firstError).

(** A step of a launch: unless it succeeds the event goes back. *)
Definition or_reset (eventIdx : Z) (p k : uni_prog flagcxResult_t) : uni_prog flagcxResult_t :=
  run! r := p in
  if negb (bool_decide (r = flagcxSuccess)) then do! resetEvent eventIdx in ret r else k.

Definition dequeue_p2p : uni_prog Z := fun w =>
  match dg_p2pReady (w_dag w) with
  | [] => None
  | i :: q => Some (set_dag (set_ready q (dg_redReady (w_dag w)) (w_dag w)) w, i)
  end.

Definition to_inflight (i : Z) (n : uniRunnerDagNode) : uni_prog flagcxResult_t :=
  do! put_node i n in
  do! modify (fun w => Some (set_dag (set_inflight (dg_p2pInflight (w_dag w) ++ [i]) (dg_redInflight (w_dag w)) (w_dag w)) w)) in
  do! log (Launch i) in ret flagcxSuccess.

Definition launchP2pOps (eventIdx : Z) : uni_prog flagcxResult_t :=
  run! i := dequeue_p2p in
  run! n := node_at i in
  run! event := event_at eventIdx in
  match nd_data n with
  | P2pNode ops _ =>
    run! l := get (fun _ => ops) in
    or_reset eventIdx (run_group (run_ops l))
    (run! stream := get (fun w => Some (w_commStream w)) in
     or_reset eventIdx (do_call (UEventRecord event stream))
     (to_inflight i (set_data (P2pNode ops eventIdx) n)))
  | CpyNode src dst count dt _ =>
    run! stream := get (fun w => Some (w_cpyStream w)) in
    or_reset eventIdx (do_call (UMemcpy dst src (count *u64 getFlagcxDataTypeSize dt) stream))
    (or_reset eventIdx (do_call (UEventRecord event stream))
     (to_inflight i (set_data (CpyNode src dst count dt eventIdx) n)))
  | RedNode _ _ _ _ _ _ _ _ => ret flagcxSystemError
  end.

(** [enqueue]: the slot of the reduction, or -1. *)
Definition enqueue (fst snd out count nthreads : Z) (dt : flagcxDataType_t) (op : flagcxRedOp_t) : uni_prog Z :=
  run! f := observe UEnqueue in
  if rf_capacity f <=? rf_produced f -u64 rf_consumed f then ret (-1) else
  run! idx := get (fun _ => if rf_capacity f =? 0 then None else Some (rf_produced f mod rf_capacity f)) in
  run! f := observe (UPoll idx) in
  run! t := get (fun _ => arr_get (rf_slots f) idx) in
  if negb (pollState t =? flagcxReduceTriggerAvailable) then ret (-1) else
  run! l := get (fun _ => arr_set (rf_slots f) idx (setValue fst snd out count nthreads dt op flagcxReduceTriggerEnqueued)) in
  do! put_fifo (rf_set_produced (rf_produced f +u64 1) (rf_set_slots l f)) in ret idx.

(** [fuel] more nodes. *)
Fixpoint ready_p2p (fuel : nat) : uni_prog flagcxResult_t :=
  match fuel with
  | O => fun _ => None
  | S fuel => run! q := get (fun w => Some (dg_p2pReady (w_dag w))) in
    match q with
    | [] => ret flagcxSuccess
    | _ => run! eventIdx := getEventIdx in
      if eventIdx =? -1 then ret flagcxSuccess else uni_check (launchP2pOps eventIdx) (ready_p2p fuel)
    end
  end.

Fixpoint ready_red (fuel : nat) : uni_prog flagcxResult_t :=
  match fuel with
  | O => fun _ => None
  | S fuel => run! q := get (fun w => Some (dg_redReady (w_dag w))) in
    match q with
    | [] => ret flagcxSuccess
    | i :: q => run! n := node_at i in
      match nd_data n with
      | RedNode in1 in2 out count nthreads dt op _ =>
        run! idx := enqueue in1 in2 out count nthreads dt op in
        if idx =? -1 then ret flagcxSuccess else
        do! modify (fun w => Some (set_dag (set_ready (dg_p2pReady (w_dag w)) q (w_dag w)) w)) in
        do! put_node i (set_data (RedNode in1 in2 out count nthreads dt op idx) n) in
        do! modify (fun w => Some (set_dag (set_inflight (dg_p2pInflight (w_dag w)) (dg_redInflight (w_dag w) ++ [i]) (w_dag w)) w)) in
        do! log (Launch i) in ready_red fuel
      | _ => fun _ => None
      end
    end
  end.

Definition processReadyQueue : uni_prog flagcxResult_t :=
  run! p2p := get (fun w => Some (dg_p2pReady (w_dag w))) in
  uni_check (ready_p2p (S (length p2p)))
  (run! red := get (fun w => Some (dg_redReady (w_dag w))) in ready_red (S (length red))).

(** ** Completing *)

Definition enqueueReadyQueue (nodeIdx : Z) : uni_prog flagcxResult_t :=
  run! n := node_at nodeIdx in
  do! modify (fun w => let d := w_dag w in Some (set_dag
        (if is_red n then set_ready (dg_p2pReady d) (dg_redReady d ++ [nodeIdx]) d
         else set_ready (dg_p2pReady d ++ [nodeIdx]) (dg_redReady d) d) w)) in
  do! modify (fun w => Some (set_dag (set_pending (dg_numPendingNodes (w_dag w) - 1) (w_dag w)) w)) in
  ret flagcxSuccess.

(** One parent less for each child; the children that wait for none are ready. *)
Fixpoint release_children (cs : list Z) : uni_prog flagcxResult_t :=
  match cs with
  | [] => ret flagcxSuccess
  | c :: cs => run! n := node_at c in
    let n := set_numParents (nd_numParents n - 1) n in
    do! put_node c n in
    if nd_numParents n =? 0 then uni_check (enqueueReadyQueue c) (release_children cs) else release_children cs
  end.

(** [children[0 .. numChildren)] of the node, which is complete. *)
Definition complete_node (i : Z) (n : uniRunnerDagNode) : uni_prog flagcxResult_t :=
  do! log (Complete i) in
  run! cs := get (fun _ => if nd_numChildren n <=? 0 then Some [] else
                   cs ← nd_children n; if nd_numChildren n <=? Z.of_nat (length cs) then Some (take (Z.to_nat (nd_numChildren n)) cs) else None) in
  release_children cs.

Definition set_eventIdx (d : nodeData) (idx : Z) : nodeData :=
  match d with P2pNode ops _ => P2pNode ops idx | CpyNode src dst count dt _ => CpyNode src dst count dt idx | _ => d end.

(** [flagcxIntruQueueRemove]: [kept] are the nodes before the one removed. *)
Definition remove_p2p (kept rest : list Z) : uni_prog unit :=
  modify (fun w => Some (set_dag (set_inflight (kept ++ rest) (dg_redInflight (w_dag w)) (w_dag w)) w)).
Definition remove_red (kept rest : list Z) : uni_prog unit :=
  modify (fun w => Some (set_dag (set_inflight (dg_p2pInflight (w_dag w)) (kept ++ rest) (w_dag w)) w)).

Fixpoint inflight_p2p (kept rest : list Z) : uni_prog flagcxResult_t :=
  match rest with
  | [] => ret flagcxSuccess
  | i :: rest => run! n := node_at i in
    match nd_data n with
    | P2pNode _ eventIdx | CpyNode _ _ _ _ eventIdx =>
      run! event := event_at eventIdx in
      run! q := do_call (UEventQuery event) in
      let '(completed, r) := flagcxRunnerClassifyEventQuery q (Some false) in
      if flagcx_failed r then ret r else
      if bool_decide (completed = Some true) then
        do! resetEvent eventIdx in
        do! put_node i (set_data (set_eventIdx (nd_data n) (-1)) n) in
        uni_check (complete_node i n) (do! remove_p2p kept rest in inflight_p2p kept rest)
      else inflight_p2p (kept ++ [i]) rest
    | RedNode _ _ _ _ _ _ _ _ => ret flagcxSystemError
    end
  end.

(** [setState]: a load and a store. *)
Definition setState (slot state : Z) : uni_prog unit :=
  run! f := observe (UPoll slot) in
  run! t := get (fun _ => arr_get (rf_slots f) slot) in
  run! l := get (fun _ => arr_set (rf_slots f) slot (set_ctl (state_cleared (rt_ctl t) state) t)) in
  put_fifo (rf_set_slots l f).

Fixpoint inflight_red (kept rest : list Z) : uni_prog flagcxResult_t :=
  match rest with
  | [] => ret flagcxSuccess
  | i :: rest => run! n := node_at i in
    match nd_data n with
    | RedNode _ _ _ _ _ _ _ triggerIdx =>
      run! f := observe (UPoll triggerIdx) in
      run! t := get (fun _ => arr_get (rf_slots f) triggerIdx) in
      if pollState t =? flagcxReduceTriggerComplete then
        do! setState triggerIdx flagcxReduceTriggerAvailable in
        uni_check (complete_node i n) (do! remove_red kept rest in inflight_red kept rest)
      else inflight_red (kept ++ [i]) rest
    | _ => fun _ => None
    end
  end.

Definition processInflightQueue : uni_prog flagcxResult_t :=
  run! p2p := get (fun w => Some (dg_p2pInflight (w_dag w))) in
  uni_check (inflight_p2p [] p2p)
  (run! red := get (fun w => Some (dg_redInflight (w_dag w))) in inflight_red [] red).

(** ** The loop *)

Definition all_done (w : world) : bool :=
  let d := w_dag w in
  bool_decide (dg_p2pReady d = []) && bool_decide (dg_redReady d = []) && bool_decide (dg_p2pInflight d = []) &&
  bool_decide (dg_redInflight d = []) && (dg_numPendingNodes d =? 0).

Definition terminate : uni_prog unit := modify (fun w => f ← w_fifo w; Some (set_fifo (Some (set_terminate 1 f)) w)).

(** The result of the loop that has ended: whether it goes on to [fail], and
    [None] when the rounds are used up. *)
Fixpoint schedule (rounds : nat) : uni_prog (option (bool * flagcxResult_t)) :=
  match rounds with
  | O => ret None
  | S rounds => run! finished := get (fun w => Some (all_done w)) in
    if finished : bool then do! terminate in ret (Some (false, flagcxSuccess)) else
    run! r := processReadyQueue in
    if flagcx_failed r then ret (Some (true, r)) else
    run! r := processInflightQueue in
    if flagcx_failed r then ret (Some (true, r)) else schedule rounds
  end.

Definition flagcxProxyRecordAsyncError (res : flagcxResult_t) : uni_prog flagcxResult_t := fun w =>
  if negb (flagcx_failed res) then Some (w, res) else
  Some (set_async (if bool_decide (w_asyncResult w = flagcxSuccess) then res else w_asyncResult w) true w, res).

Definition run_fail (r : flagcxResult_t) : uni_prog flagcxResult_t :=
  do! modify (fun w => Some (match w_fifo w with Some f => set_fifo (Some (set_terminate 1 f)) w | None => w end)) in
  flagcxProxyRecordAsyncError r.

Definition sync (stream : world -> Z) : uni_prog flagcxResult_t := run! s := get (fun w => Some (stream w)) in do_call (UStreamSynchronize s).

(** [None] in the result: more rounds are needed. *)
Definition runUniRunner (rounds : nat) : uni_prog (option flagcxResult_t) :=
  do! do_call ULaunchKernel in
  run! o := schedule rounds in
  match o with
  | None => ret None
  | Some (true, r) => run! r := run_fail r in ret (Some r)
  | Some (false, _) =>
    run! result := sync w_redStream in
    run! r := sync w_cpyStream in
    let result := flagcxRunnerRecordFirstError r result in
    run! r := sync w_commStream in
    let result := flagcxRunnerRecordFirstError r result in
    if flagcx_failed result then run! r := run_fail result in ret (Some r) else ret (Some result)
  end.

(** ** Set-up and clean-up *)

(** The events, [created] so far; the first failure of [eventCreate]. *)
Fixpoint create_events (n : nat) (created : list Z) : uni_prog (flagcxResult_t * list Z) :=
  match n with
  | O => ret (flagcxSuccess, created)
  | S n => run! r := call_out UEventCreate in
    if bool_decide (r.1 = flagcxSuccess) then create_events n (created ++ [r.2]) else ret (r.1, created)
  end.

Fixpoint destroy_events (l : list Z) (result : flagcxResult_t) : uni_prog flagcxResult_t :=
  match l with
  | [] => ret result
  | e :: l => run! r := do_call (UEventDestroy e) in destroy_events l (flagcxRunnerRecordFirstError r result)
  end.

Definition initP2pEvents (poolSize : Z) : uni_prog flagcxResult_t :=
  do! modify (fun w => Some (set_map (MkBitmap None 0 poolSize) (set_events None 0 w))) in
  run! r := do_call (UCalloc EventArray (poolSize *u64 8)) in
  if negb (bool_decide (r = flagcxSuccess)) then ret r else
  run! c := create_events (Z.to_nat poolSize) [] in
  do! modify (fun w => Some (set_events (Some c.2) (Z.of_nat (length c.2)) w)) in
  run! r := if bool_decide (c.1 = flagcxSuccess) then do_call (UCalloc BitArray ((poolSize + 63) / 64 *u64 8)) else ret c.1 in
  if bool_decide (r = flagcxSuccess) then
    do! modify (fun w => Some (set_map (MkBitmap (Some (replicate (Z.to_nat ((poolSize + 63) / 64)) 0)) 0 poolSize) w)) in
    ret flagcxSuccess
  else
    run! r := destroy_events c.2 r in
    do! do_call (UFree EventArray) in
    do! modify (fun w => Some (set_map (MkBitmap (bm_bits (w_map w)) (bm_nextIdx (w_map w)) 0) (set_events None 0 w))) in
    ret r.

(** Every block of the graph is freed. *)
Definition cleanupDagScheduler : uni_prog flagcxResult_t := fun w =>
  let d := w_dag w in
  let freed := match dg_nodes d with
               | None => 0
               | Some l => 1 + foldr (fun n acc =>
                   match nd_data n with P2pNode (Some _) _ => 1 | _ => 0 end + match nd_children n with Some _ => 1 | None => 0 end + acc) 0
                   (take (Z.to_nat (dg_numDagNodes d)) l)
               end in
  Some (set_dag (MkDag None 0 (dg_numPendingNodes d) (dg_p2pReady d) (dg_redReady d) (dg_p2pInflight d) (dg_redInflight d)
                  (dg_requests d) (dg_live d - freed)) w, flagcxSuccess).

(** [free(p)], which does nothing for the null pointer. *)
Definition free_block (b : heap_block) (held : world -> bool) : uni_prog unit :=
  run! h := get (fun w => Some (held w)) in
  if h : bool then do! do_call (UFree b) in ret tt else ret tt.
Definition has_events (w : world) : bool := match w_events w with Some _ => true | None => false end.
Definition has_bits (w : world) : bool := match bm_bits (w_map w) with Some _ => true | None => false end.

Definition cleanupP2pEvents : uni_prog flagcxResult_t :=
  run! l := get (fun w => Some (match w_events w with Some l => take (Z.to_nat (w_eventsCreated w)) l | None => [] end)) in
  run! r := destroy_events l flagcxSuccess in
  do! free_block EventArray has_events in
  do! free_block BitArray has_bits in
  do! modify (fun w => Some (set_map (MkBitmap None 0 0) (set_events None 0 w))) in
  ret r.

Definition unless_null (stream : world -> Z) (f : Z -> uni_prog flagcxResult_t) (result : flagcxResult_t) : uni_prog flagcxResult_t :=
  run! s := get (fun w => Some (stream w)) in
  if s =? 0 then ret result else run! r := f s in ret (flagcxRunnerRecordFirstError r result).

Definition cleanupUniRunner : uni_prog flagcxResult_t :=
  run! result := unless_null w_redStream (fun s => do_call (UStreamSynchronize s)) flagcxSuccess in
  run! result := unless_null w_cpyStream (fun s => do_call (UStreamSynchronize s)) result in
  run! result := unless_null w_commStream (fun s => do_call (UStreamSynchronize s)) result in
  run! r := cleanupDagScheduler in
  let result := flagcxRunnerRecordFirstError r result in
  run! r := cleanupP2pEvents in
  let result := flagcxRunnerRecordFirstError r result in
  run! result := unless_null w_redStream (fun s => do_call (UStreamDestroy s)) result in
  run! result := unless_null w_cpyStream (fun s => do_call (UStreamDestroy s)) result in
  do! modify (fun w => Some (set_streams 0 0 0 w)) in
  run! f := get (fun w => Some (w_fifo w)) in
  match f with
  | None => ret result
  | Some _ =>
    run! r := do_call UHostFree in
    do! do_call UDeleteFifo in
    do! modify (fun w => Some (set_fifo None w)) in
    ret (flagcxRunnerRecordFirstError r result)
  end.

Definition init_fail (result : flagcxResult_t) : uni_prog flagcxResult_t :=
  run! r := cleanupUniRunner in ret (flagcxRunnerRecordFirstError r result).

(** [initUniRunner] with the sizes of the two pools. *)
Definition initUniRunner (poolSize fifoCapacity stream : Z) : uni_prog flagcxResult_t :=
  run! r := do_call USetDevice in
  if negb (bool_decide (r = flagcxSuccess)) then ret r else
  do! modify (fun w => let d := w_dag w in Some (set_fifo None (set_streams stream 0 0
        (set_map (MkBitmap None (bm_nextIdx (w_map w)) (bm_size (w_map w))) (set_events None 0
        (set_dag (MkDag None 0 (dg_numPendingNodes d) (dg_p2pReady d) (dg_redReady d) (dg_p2pInflight d) (dg_redInflight d)
                    (dg_requests d) (dg_live d)) w)))))) in
  run! r := do_call UNewFifo in
  if negb (bool_decide (r = flagcxSuccess)) then ret flagcxSystemError else
  run! r := do_call (UHostMalloc (48 +u64 (fifoCapacity *u64 32))) in
  if flagcx_failed r then do! do_call UDeleteFifo in ret r else
  if negb (bool_decide (r = flagcxSuccess)) then fun _ => None else
  do! modify (fun w => Some (set_fifo (Some (flagcxRedFifoInit fifoCapacity)) w)) in
  run! r := do_call UHostGetDevicePointer in
  if negb (bool_decide (r = flagcxSuccess)) then init_fail r else
  do! modify (fun w => let d := w_dag w in Some (set_dag
        (MkDag (dg_nodes d) (dg_numDagNodes d) 0 [] [] [] [] (dg_requests d) (dg_live d)) w)) in
  run! r := initP2pEvents poolSize in
  if negb (bool_decide (r = flagcxSuccess)) then init_fail r else
  run! r := call_out UStreamCreate in
  if negb (bool_decide (r.1 = flagcxSuccess)) then init_fail r.1 else
  do! modify (fun w => Some (set_streams (w_commStream w) r.2 (w_cpyStream w) w)) in
  run! r := call_out UStreamCreate in
  if negb (bool_decide (r.1 = flagcxSuccess)) then init_fail r.1 else
  do! modify (fun w => Some (set_streams (w_commStream w) (w_redStream w) r.2 w)) in
  ret flagcxSuccess.

(** A graph of [UniDag] is built from the counter 0. *)
Definition build_dag (b : build) : uni_prog flagcxResult_t := fun w =>
  '(r, (_, d)) ← b (0, w_dag w); Some (set_dag d w, r).

(** What the collectives share: [build] runs between set-up and clean-up;
    [None] when the scheduler needs more rounds. *)
Definition run_and_clean (b : build) (rounds : nat) : uni_prog (option flagcxResult_t) :=
  run! r := build_dag b in
  run! res := if flagcx_failed r then ret (Some r) else runUniRunner rounds in
  match res with
  | None => ret None
  | Some res => run! r := cleanupUniRunner in ret (Some (flagcxRunnerRecordFirstError r res))
  end.

(** [uniRunnerAllReduce]: [useLocRed], [useRingAG] and [useSlicedAR] are the
    parameters of the environment. *)
Definition uniRunnerAllReduce (mem : nat -> bool) (a : uni_args) (useLocRed useRingAG useSlicedAR : bool)
    (numRedSlices poolSize fifoCapacity stream : Z) (rounds : nat) : uni_prog (option flagcxResult_t) :=
  run! r := initUniRunner poolSize fifoCapacity stream in
  if negb (bool_decide (r = flagcxSuccess)) then ret (Some r) else
  run_and_clean
    (if useLocRed then initUniRunnerStateLocRed mem a else if useRingAG then initUniRunnerStateRingAG mem a
     else if useSlicedAR then initUniRunnerStateSlicedAR mem a numRedSlices else initUniRunnerStateRingAR mem a) rounds.

(** [uniRunnerReduce] and [uniRunnerReduceScatter], which take a scratch buffer
    of [scratchSize] bytes; [b] builds with the buffer. *)
Definition uniRunnerWithScratch (scratchSize : Z) (b : Z -> build) (poolSize fifoCapacity stream : Z) (rounds : nat) :
    uni_prog (option flagcxResult_t) :=
  run! scratch := call_out (UDeviceMalloc scratchSize) in
  if negb (bool_decide (scratch.1 = flagcxSuccess)) then ret (Some scratch.1) else
  run! r := initUniRunner poolSize fifoCapacity stream in
  run! res := if negb (bool_decide (r = flagcxSuccess)) then ret (Some r) else run_and_clean (b scratch.2) rounds in
  match res with
  | None => ret None
  | Some res => if scratch.2 =? 0 then ret (Some res) else
    run! r := do_call (UDeviceFree scratch.2) in ret (Some (flagcxRunnerRecordFirstError r res))
  end.

End Scheduler.
