(* ===== verification/UniLedger.v ===== *)
(** What a collective of the uniform runner takes and gives back: a ledger over
    the calls it makes.  A resource is taken by the call that creates it and
    given back by the call that destroys it; whatever the environment answers,
    the difference is what the state still refers to. *)
From S2P Require Import Prelude Flagcx Arrays C2cRunner KernelTrigger UniDag UniSched.

(** ** Resources *)

Inductive resource := REvent (e : Z) | RStream (s : Z) | RBlock (b : heap_block) | RFifo | RHostBuffer | RDevice (p : Z).

#[export] Instance heap_block_eq_dec : EqDecision heap_block.
Proof. solve_decision. Defined.
#[export] Instance resource_eq_dec : EqDecision resource.
Proof. solve_decision. Defined.

(** What a call takes when it succeeds; no stream and no buffer is null. *)
Definition taken (e : uni_event) : option resource :=
  if negb (bool_decide (ue_result e = flagcxSuccess)) then None else
  match ue_call e with
  | UEventCreate => Some (REvent (ue_out e))
  | UStreamCreate => if ue_out e =? 0 then None else Some (RStream (ue_out e))
  | UCalloc b _ => Some (RBlock b)
  | UNewFifo => Some RFifo
  | UHostMalloc _ => Some RHostBuffer
  | UDeviceMalloc _ => if ue_out e =? 0 then None else Some (RDevice (ue_out e))
  | _ => None
  end.
(** What a call gives back. *)
Definition given (e : uni_event) : option resource :=
  match ue_call e with
  | UEventDestroy x => Some (REvent x)
  | UStreamDestroy s => Some (RStream s)
  | UFree b => Some (RBlock b)
  | UDeleteFifo => Some RFifo
  | UHostFree => Some RHostBuffer
  | UDeviceFree p => Some (RDevice p)
  | _ => None
  end.

Definition count (r : resource) (o : option resource) : Z := if bool_decide (o = Some r) then 1 else 0.
Lemma count_none r : count r None = 0.
Proof. unfold count. by rewrite bool_decide_eq_false_2. Qed.

(** How often a resource was taken, less how often it was given back. *)
Fixpoint balance (r : resource) (t : list uni_event) : Z :=
  match t with [] => 0 | e :: t => count r (taken e) - count r (given e) + balance r t end.

Lemma balance_app r t1 t2 : balance r (t1 ++ t2) = balance r t1 + balance r t2.
Proof. induction t1 as [|e t1 IH]; cbn; [done|]. rewrite IH. lia. Qed.

Fixpoint copies (r : resource) (l : list resource) : Z :=
  match l with [] => 0 | x :: l => count r (Some x) + copies r l end.

Lemma copies_app r l1 l2 : copies r (l1 ++ l2) = copies r l1 + copies r l2.
Proof. induction l1 as [|x l1 IH]; cbn; [done|]. rewrite IH. lia. Qed.

(** What the state refers to. *)
Definition owned_events (w : world) : list Z := match w_events w with Some l => take (Z.to_nat (w_eventsCreated w)) l | None => [] end.
Definition stream_res (s : Z) : list resource := if s =? 0 then [] else [RStream s].
Definition owned (w : world) : list resource :=
  (REvent <$> owned_events w) ++ (if has_events w then [RBlock EventArray] else []) ++ (if has_bits w then [RBlock BitArray] else []) ++
  stream_res (w_redStream w) ++ stream_res (w_cpyStream w) ++ (match w_fifo w with Some _ => [RFifo; RHostBuffer] | None => [] end).

(** ** Programs that keep what they hold *)

Definition same_owned (w w' : world) : Prop :=
  owned_events w' = owned_events w /\ has_events w' = has_events w /\ has_bits w' = has_bits w /\
  w_redStream w' = w_redStream w /\ w_cpyStream w' = w_cpyStream w /\ (w_fifo w' = None <-> w_fifo w = None).

(** A program that takes and gives nothing. *)
Definition neutral {A} (p : uni_prog A) : Prop :=
  forall w w' x, p w = Some (w', x) -> same_owned w w' /\ forall r, balance r (w_trace w') = balance r (w_trace w).

Lemma same_owned_refl w : same_owned w w.
Proof. by split_and!. Qed.

Lemma same_owned_trans w1 w2 w3 : same_owned w1 w2 -> same_owned w2 w3 -> same_owned w1 w3.
Proof. intros (A1 & A2 & A3 & A4 & A5 & A6) (B1 & B2 & B3 & B4 & B5 & B6). split_and!; try congruence. by rewrite B6. Qed.

Lemma owned_same w w' r : same_owned w w' -> copies r (owned w') = copies r (owned w).
Proof.
  intros (H1 & H2 & H3 & H4 & H5 & H6). unfold owned. rewrite H1, H2, H3, H4, H5.
  destruct (w_fifo w) as [f|] eqn:Ef, (w_fifo w') as [f'|] eqn:Ef'; try done.
  - by discriminate (proj1 H6 eq_refl).
  - by discriminate (proj2 H6 eq_refl).
Qed.

Lemma neutral_ret {A} (x : A) : neutral (ret x).
Proof. intros w w' y [= <- _]. split; [apply same_owned_refl|done]. Qed.

Lemma neutral_none {A} : neutral (A := A) (fun _ => None).
Proof. done. Qed.

Lemma neutral_bind {A B} (p : uni_prog A) (k : A -> uni_prog B) : neutral p -> (forall x, neutral (k x)) -> neutral (bind p k).
Proof.
  intros Hp Hk w w' y. unfold bind. destruct (p w) as [[w1 x]|] eqn:E; [|done]. intros E'. destruct (Hp _ _ _ E) as [H1 H2], (Hk _ _ _ _ E') as [H3 H4].
  split; [by eapply same_owned_trans|]. intros r. by rewrite H4.
Qed.

Lemma neutral_get {A} (f : world -> option A) : neutral (get f).
Proof. intros w w' y. unfold get. destruct (f w); cbn; [|done]. intros [= <- _]. split; [apply same_owned_refl|done]. Qed.

Lemma neutral_modify f : (forall w w', f w = Some w' -> same_owned w w' /\ w_trace w' = w_trace w) -> neutral (modify f).
Proof. intros H w w' y. unfold modify. destruct (f w) as [w1|] eqn:E; cbn; [|done]. intros [= <- _]. destruct (H _ _ E) as [? ->]. done. Qed.

Lemma neutral_if {A} (b : bool) (p q : uni_prog A) : neutral p -> neutral q -> neutral (if b then p else q).
Proof. by destruct b. Qed.

Lemma neutral_check p k : neutral p -> neutral k -> neutral (uni_check p k).
Proof. intros Hp Hk. apply neutral_bind; [done|]. intros r. apply neutral_if; [apply neutral_ret|done]. Qed.

Section Calls.
Variable ans : list uni_event -> uni_call -> flagcxResult_t * Z.
Variable dev : list uni_event -> reduceFifo -> reduceFifo.
Variable comm_rank : Z.

(** Calls that take and give nothing. *)
Definition plain (c : uni_call) : Prop := forall r x, taken (UEvent c r x) = None /\ given (UEvent c r x) = None.

Lemma neutral_call c : plain c -> neutral (do_call ans c).
Proof.
  intros Hc. apply neutral_bind; [|intros; apply neutral_ret]. intros w w' y [= <- _]. split; [by destruct w; split_and!|].
  intros r. cbn. rewrite balance_app. cbn. destruct (Hc (ans (w_trace w) c).1 (ans (w_trace w) c).2) as [-> ->]. cbn. lia.
Qed.

Lemma neutral_observe c : plain c -> neutral (observe dev c).
Proof.
  intros Hc w w' y. unfold observe. destruct (w_fifo w) as [f|] eqn:Ef; cbn; [|done]. intros [= <- _]. split; [by split_and!; try done; cbn; rewrite Ef|].
  intros r. cbn. rewrite balance_app. cbn. destruct (Hc flagcxSuccess 0) as [-> ->]. cbn. lia.
Qed.

(** The same once the FIFO is there. *)
Definition neutral_fifo {A} (p : uni_prog A) : Prop :=
  forall w w' x, w_fifo w <> None -> p w = Some (w', x) -> same_owned w w' /\ forall r, balance r (w_trace w') = balance r (w_trace w).

Lemma neutral_weaken {A} (p : uni_prog A) : neutral p -> neutral_fifo p.
Proof. intros H w w' x _. apply H. Qed.

Lemma neutral_fifo_bind {A B} (p : uni_prog A) (k : A -> uni_prog B) : neutral_fifo p -> (forall x, neutral_fifo (k x)) -> neutral_fifo (bind p k).
Proof.
  intros Hp Hk w w' y Hf. unfold bind. destruct (p w) as [[w1 x]|] eqn:E; [|done]. intros E'. destruct (Hp _ _ _ Hf E) as [H1 H2].
  assert (Hf1 : w_fifo w1 <> None) by (intros Hn; apply Hf, H1, Hn). destruct (Hk _ _ _ _ Hf1 E') as [H3 H4].
  split; [by eapply same_owned_trans|]. intros r. by rewrite H4.
Qed.

Lemma neutral_put_fifo f : neutral_fifo (put_fifo f).
Proof. intros w w' y Hf [= <- _]. split; [by split_and!|done]. Qed.

(** After a look at the FIFO it is there. *)
Lemma neutral_bind_observe {A} c (k : reduceFifo -> uni_prog A) : plain c -> (forall f, neutral_fifo (k f)) -> neutral (bind (observe dev c) k).
Proof.
  intros Hc Hk w w' y. unfold bind. destruct (observe dev c w) as [[w1 f]|] eqn:E; [|done]. intros E'. destruct (neutral_observe c Hc _ _ _ E) as [H1 H2].
  assert (Hf : w_fifo w1 <> None) by (unfold observe in E; destruct (w_fifo w); [by injection E as <- _|done]).
  destruct (Hk f _ _ _ Hf E') as [H3 H4]. split; [by eapply same_owned_trans|]. intros r. by rewrite H4.
Qed.
End Calls.

Create HintDb neutral.

Ltac plain := clear; let r := fresh in intros r ?; unfold taken; cbn; destruct (bool_decide (r = flagcxSuccess)); by split.

(** Takes a program apart. *)
Ltac neutral_step :=
  first [assumption | apply neutral_ret | apply neutral_get | solve [auto with neutral] |
    match goal with
    | |- neutral (do_call _ _) => apply neutral_call; plain
    | |- neutral (observe _ _) => apply neutral_observe; plain
    | |- neutral (uni_check _ _) => apply neutral_check
    | |- neutral (bind _ _) => apply neutral_bind; [|intros ?]
    | |- neutral (modify _) => apply neutral_modify; intros ???; simplify_option_eq; by split_and!
    | |- neutral (fun _ => None) => apply neutral_none
    | |- neutral (match ?x with _ => _ end) => destruct x
    end].
Ltac neutral := repeat neutral_step.

Section Neutral.
Variable ans : list uni_event -> uni_call -> flagcxResult_t * Z.
Variable dev : list uni_event -> reduceFifo -> reduceFifo.
Variable comm_rank : Z.

Lemma neutral_run_ops l : neutral (run_ops ans comm_rank l).
Proof. induction l as [|o l IH]; cbn; neutral. Qed.

Lemma neutral_reset i : neutral (resetEvent i).
Proof.
  apply neutral_modify. intros w w'. destruct (markAvailable (w_map w) i) as [m|] eqn:E; cbn; [|done]. intros [= <-]. split; [|done].
  unfold markAvailable, set_bit in E. unfold same_owned, has_bits. cbn. destruct (bm_bits (w_map w)) eqn:Eb; cbn in E; [|done].
  by simplify_option_eq.
Qed.

Lemma neutral_event : neutral getEventIdx.
Proof.
  intros w w' x E. unfold getEventIdx in E. destruct (getEvent (w_map w)) as [[idx m]|] eqn:Eg; cbn in E; [|done]. injection E as <- _. split; [|done].
  assert (Hb : forall fuel m idx m', getAvailable_loop fuel m = Some (idx, m') -> bm_bits m' = bm_bits m).
  { clear. induction fuel as [|fuel IH]; intros m idx m' E; cbn in E; [by simplify_eq|]. destruct (isAvailable _ _) as [[]|]; cbn in E; [by simplify_eq| |done].
    by apply IH in E. }
  unfold getEvent, getAvailable in Eg. destruct (getAvailable_loop _ _) as [[idx' m']|] eqn:El; cbn in Eg; [|done]. apply Hb in El.
  unfold same_owned, has_bits. cbn. destruct (negb _); [|simplify_eq; by rewrite El]. unfold markInUse, set_bit in Eg. rewrite El in Eg.
  destruct (bm_bits (w_map w)) eqn:Eb; cbn in Eg; [|done]. by simplify_option_eq.
Qed.
#[local] Hint Resolve neutral_run_ops neutral_reset neutral_event : neutral.

Lemma neutral_group p : neutral p -> neutral (run_group ans p).
Proof. intros Hp. unfold run_group. neutral. Qed.

Lemma neutral_or_reset i p k : neutral p -> neutral k -> neutral (or_reset i p k).
Proof. intros Hp Hk. unfold or_reset. neutral. Qed.

Lemma neutral_dequeue : neutral dequeue_p2p.
Proof. intros w w' x E. unfold dequeue_p2p in E. destruct (dg_p2pReady (w_dag w)); [done|]. injection E as <- _. by split_and!. Qed.

Lemma neutral_to_inflight i n : neutral (to_inflight i n).
Proof. unfold to_inflight, put_node, log. neutral. Qed.
#[local] Hint Resolve neutral_group neutral_or_reset neutral_dequeue neutral_to_inflight : neutral.

Lemma neutral_launch i : neutral (launchP2pOps ans comm_rank i).
Proof. unfold launchP2pOps, node_at, event_at. 
  repeat first [match goal with
    | |- neutral (or_reset _ _ _) => apply neutral_or_reset
    | |- neutral (run_group _ _) => apply neutral_group
    end | neutral_step].
Qed.

Lemma neutral_enqueue a b c n k dt op : neutral (enqueue dev a b c n k dt op).
Proof.
  unfold enqueue. apply neutral_bind_observe; [plain|]. intros f. destruct (_ <=? _); [apply neutral_weaken; neutral|].
  apply neutral_fifo_bind; [apply neutral_weaken; neutral|]. intros idx. apply neutral_weaken.
  apply neutral_bind_observe; [plain|]. intros f'. apply neutral_fifo_bind; [apply neutral_weaken; neutral|]. intros t.
  destruct (negb _); [apply neutral_weaken; neutral|]. apply neutral_fifo_bind; [apply neutral_weaken; neutral|]. intros l.
  apply neutral_fifo_bind; [apply neutral_put_fifo|]. intros u. apply neutral_weaken. neutral.
Qed.

Lemma neutral_setState i x : neutral (setState dev i x).
Proof.
  unfold setState. apply neutral_bind_observe; [plain|]. intros f. apply neutral_fifo_bind; [apply neutral_weaken; neutral|]. intros t.
  apply neutral_fifo_bind; [apply neutral_weaken; neutral|]. intros l. apply neutral_put_fifo.
Qed.
#[local] Hint Resolve neutral_launch neutral_enqueue neutral_setState : neutral.

Lemma neutral_ready_p2p fuel : neutral (ready_p2p ans comm_rank fuel).
Proof. induction fuel as [|fuel IH]; cbn; neutral. Qed.

Lemma neutral_ready_red fuel : neutral (ready_red dev fuel).
Proof. induction fuel as [|fuel IH]; cbn; unfold node_at, put_node, log; neutral. Qed.
#[local] Hint Resolve neutral_ready_p2p neutral_ready_red : neutral.

Lemma neutral_ready : neutral (processReadyQueue ans dev comm_rank).
Proof. unfold processReadyQueue. neutral. Qed.

Lemma neutral_release cs : neutral (release_children cs).
Proof. induction cs as [|c cs IH]; cbn; unfold enqueueReadyQueue, node_at, put_node; neutral. Qed.
#[local] Hint Resolve neutral_ready neutral_release : neutral.

Lemma neutral_complete i n : neutral (complete_node i n).
Proof. unfold complete_node, log. neutral. Qed.
#[local] Hint Resolve neutral_complete : neutral.

Lemma neutral_inflight_p2p rest : forall kept, neutral (inflight_p2p ans kept rest).
Proof. induction rest as [|i rest IH]; intros kept; cbn; unfold node_at, event_at, put_node, remove_p2p; neutral. Qed.

Lemma neutral_inflight_red rest : forall kept, neutral (inflight_red dev kept rest).
Proof. induction rest as [|i rest IH]; intros kept; cbn; unfold node_at, remove_red; neutral. Qed.
#[local] Hint Resolve neutral_inflight_p2p neutral_inflight_red : neutral.

Lemma neutral_terminate : neutral terminate.
Proof.
  apply neutral_modify. intros w w'. destruct (w_fifo w) as [f|] eqn:Ef; cbn; [|done]. intros [= <-]. split; [|done]. split_and!; try done.
  cbn. by rewrite Ef.
Qed.
#[local] Hint Resolve neutral_terminate : neutral.

Lemma neutral_schedule rounds : neutral (schedule ans dev comm_rank rounds).
Proof. induction rounds as [|rounds IH]; cbn; unfold processInflightQueue; neutral. Qed.
#[local] Hint Resolve neutral_schedule : neutral.

Lemma neutral_run_fail r : neutral (run_fail r).
Proof.
  unfold run_fail. apply neutral_bind.
  - apply neutral_modify. intros w w' [= <-]. destruct (w_fifo w) eqn:Ef; [|by split; [apply same_owned_refl|]]. split; [|done]. split_and!; try done. cbn. by rewrite Ef.
  - intros _ w w' x. unfold flagcxProxyRecordAsyncError. destruct (negb _); intros [= <- _]; (split; [by split_and!|done]).
Qed.
#[local] Hint Resolve neutral_run_fail : neutral.

Lemma neutral_run rounds : neutral (runUniRunner ans dev comm_rank rounds).
Proof. unfold runUniRunner, sync. neutral. Qed.

Lemma neutral_build b : neutral (build_dag b).
Proof. intros w w' x. unfold build_dag. destruct (b (0, w_dag w)) as [[r [g d]]|]; cbn; [|done]. intros [= <- _]. by split_and!. Qed.
End Neutral.
#[export] Hint Resolve neutral_run neutral_build : neutral.

(** ** Set-up and clean-up *)

Lemma bind_inv {A B} (p : uni_prog A) (k : A -> uni_prog B) w w' y : bind p k w = Some (w', y) -> exists w1 x, p w = Some (w1, x) /\ k x w1 = Some (w', y).
Proof. unfold bind. destruct (p w) as [[w1 x]|]; [|done]. intros E. by exists w1, x. Qed.

(** Runs a program from its left end. *)
Ltac run_step :=
  match goal with
  | H : bind _ _ _ = Some _ |- _ => apply bind_inv in H as (? & ? & ? & H)
  | H : ret _ _ = Some _ |- _ => injection H as <- <-
  | H : get _ _ = Some _ |- _ => unfold get in H; cbn in H; injection H as <- <-
  | H : modify _ _ = Some _ |- _ => unfold modify in H; cbn in H; injection H as <- <-
  end.
Ltac run_head :=
  match goal with
  | H : ret _ _ = Some _ |- _ => injection H as <- <-
  | H : get _ _ = Some _ |- _ => unfold get in H; cbn in H; injection H as <- <-
  | H : modify _ _ = Some _ |- _ => unfold modify in H; cbn in H; injection H as <- <-
  | H : bind _ _ _ = Some _ |- _ => apply bind_inv in H as (? & ? & Hs & H)
  end.

Section Balance.
Variable ans : list uni_event -> uni_call -> flagcxResult_t * Z.
Variable dev : list uni_event -> reduceFifo -> reduceFifo.
Variable comm_rank : Z.

(** The trace alone changed, and the balance by [d]. *)
Definition moved (d : resource -> Z) (w w' : world) : Prop :=
  (exists t, w' = set_trace t w) /\ forall r, balance r (w_trace w') = balance r (w_trace w) + d r.

Lemma moved_trans d1 d2 d w1 w2 w3 : moved d1 w1 w2 -> moved d2 w2 w3 -> (forall r, d r = d1 r + d2 r) -> moved d w1 w3.
Proof. intros [[t ->] H1] [[t' ->] H2] H. split; [by exists t'|]. intros r. rewrite H2, H1, H. lia. Qed.

Lemma call_out_moved c w w' x : call_out ans c w = Some (w', x) ->
  moved (fun r => count r (taken (UEvent c x.1 x.2)) - count r (given (UEvent c x.1 x.2))) w w'.
Proof. intros [= <- <-]. split; [by eexists|]. intros r. cbn. rewrite balance_app. cbn. lia. Qed.

(** A call that gives back. *)
Lemma call_gives c o w w' x : (forall r y, taken (UEvent c r y) = None /\ given (UEvent c r y) = o) -> do_call ans c w = Some (w', x) ->
  moved (fun r => - count r o) w w'.
Proof.
  intros Hc E. unfold do_call in E. repeat run_step. destruct (call_out_moved _ _ _ _ H) as [Ht Hb]. split; [done|].
  intros r. rewrite Hb. match goal with |- context [UEvent c ?y ?z] => destruct (Hc y z) as [-> ->] end. rewrite count_none. lia.
Qed.

Lemma destroy_moved l : forall r0 w w' x, destroy_events ans l r0 w = Some (w', x) -> moved (fun r => - copies r (REvent <$> l)) w w'.
Proof.
  induction l as [|e l IH]; intros r0 w w' x E; cbn [destroy_events] in E.
  - run_step. split; [exists (w_trace w); by destruct w|]. intros r. cbn. lia.
  - run_step. apply IH in E. apply (call_gives _ (Some (REvent e))) in H; [|plain]. eapply moved_trans; [exact H|exact E|]. intros r. cbn. lia.
Qed.

Lemma create_moved n : forall created w w' x, create_events ans n created w = Some (w', x) ->
  moved (fun r => copies r (REvent <$> x.2) - copies r (REvent <$> created)) w w'.
Proof.
  induction n as [|n IH]; intros created w w' x E; cbn [create_events] in E.
  - run_step. split; [exists (w_trace w); by destruct w|]. intros r. cbn. lia.
  - run_step. apply call_out_moved in H. unfold taken in H. cbn in H. destruct (bool_decide (_ = flagcxSuccess)) eqn:Es.
    + apply IH in E. eapply moved_trans; [exact H|exact E|]. intros r. rewrite fmap_app, copies_app. cbn. rewrite count_none. lia.
    + run_step. destruct H as [Ht Hb]. split; [done|]. intros r. rewrite Hb. cbn. rewrite count_none. lia.
Qed.

Definition block (b : heap_block) (held : bool) : list resource := if held then [RBlock b] else [].

Lemma free_moved b (held : world -> bool) w w' x : free_block ans b held w = Some (w', x) -> moved (fun r => - copies r (block b (held w))) w w'.
Proof.
  intros E. unfold free_block in E. run_step. unfold get in H. cbn in H. injection H as <- <-. destruct (held w) eqn:Eh.
  - repeat run_step. apply (call_gives _ (Some (RBlock b))) in H; [|by intros ??; unfold taken; cbn; case_bool_decide; split].
    destruct H as [Ht Hb]. split; [done|]. intros r. rewrite Hb. cbn. lia.
  - run_step. split; [exists (w_trace w); by destruct w|]. intros r. cbn. lia.
Qed.

Lemma unless_null_moved (stream : world -> Z) (c : Z -> uni_call) r0 o w w' x :
  (forall s r y, taken (UEvent (c s) r y) = None /\ given (UEvent (c s) r y) = o s) -> unless_null stream (fun s => do_call ans (c s)) r0 w = Some (w', x) ->
  moved (fun r => if stream w =? 0 then 0 else - count r (o (stream w))) w w'.
Proof.
  intros Hc E. unfold unless_null in E. run_step. unfold get in H. cbn in H. injection H as <- <-. destruct (stream w =? 0).
  - run_step. split; [exists (w_trace w); by destruct w|]. intros r. lia.
  - repeat run_step. by apply (call_gives _ (o (stream w))) in H; [|apply Hc].
Qed.

Lemma stream_count r s : copies r (stream_res s) = if s =? 0 then 0 else count r (Some (RStream s)).
Proof. unfold stream_res. destruct (s =? 0); cbn; lia. Qed.

(** The streams are waited for, and destroyed. *)
Lemma drain_moved stream r0 w w' x : unless_null stream (fun s => do_call ans (UStreamSynchronize s)) r0 w = Some (w', x) -> moved (fun _ => 0) w w'.
Proof.
  intros E. apply (unless_null_moved _ _ _ (fun _ => None)) in E as [Ht Hb]; [|intros s; plain]. split; [done|]. intros r. rewrite Hb, count_none.
  by destruct (_ =? 0).
Qed.

Lemma destroy_stream_moved stream r0 w w' x : unless_null stream (fun s => do_call ans (UStreamDestroy s)) r0 w = Some (w', x) ->
  moved (fun r => - copies r (stream_res (stream w))) w w'.
Proof.
  intros E. apply (unless_null_moved _ _ _ (fun s => Some (RStream s))) in E as [Ht Hb]; [|intros s; plain]. split; [done|]. intros r. rewrite Hb, stream_count.
  by destruct (_ =? 0).
Qed.

(** What the pool of events holds. *)
Definition pool_res (w : world) : list resource := (REvent <$> owned_events w) ++ block EventArray (has_events w) ++ block BitArray (has_bits w).
Definition fifo_res (w : world) : list resource := match w_fifo w with Some _ => [RFifo; RHostBuffer] | None => [] end.

Lemma owned_parts r w : copies r (owned w) = copies r (pool_res w) + copies r (stream_res (w_redStream w)) + copies r (stream_res (w_cpyStream w)) + copies r (fifo_res w).
Proof. unfold owned, pool_res, block. rewrite !copies_app. fold (fifo_res w). lia. Qed.

(** The pool is null. *)
Definition pool_null (w : world) : Prop := w_events w = None /\ bm_bits (w_map w) = None.

Lemma cleanup_pool w w' x : cleanupP2pEvents ans w = Some (w', x) ->
  (exists t, w' = set_map (MkBitmap None 0 0) (set_events None 0 (set_trace t w))) /\
  forall r, balance r (w_trace w') = balance r (w_trace w) - copies r (pool_res w).
Proof.
  intros E. unfold cleanupP2pEvents in E. run_step. unfold get in H. cbn in H. injection H as <- <-. fold (owned_events w) in E.
  run_step. apply destroy_moved in H as [[t1 ->] B1]. run_step. apply free_moved in H as [[t2 ->] B2].
  run_step. apply free_moved in H as [[t3 ->] B3]. repeat run_step. split; [by eexists|].
  intros r. cbn in *. rewrite B3, B2, B1. unfold pool_res. rewrite !copies_app. unfold has_events, has_bits. cbn. lia.
Qed.

(** Nothing is held. *)
Definition bare (w : world) : Prop := pool_null w /\ w_redStream w = 0 /\ w_cpyStream w = 0.

(** Adds the balances up. *)
Ltac summed := intros r; repeat match goal with K : forall r, _ = _ |- _ => specialize (K r) end; lia.

(** Clean-up gives back what is held. *)
Lemma cleanup_balance w w' x : cleanupUniRunner ans w = Some (w', x) ->
  bare w' /\ w_fifo w' = None /\ forall r, balance r (w_trace w') = balance r (w_trace w) - copies r (owned w).
Proof.
  intros E. unfold cleanupUniRunner in E.
  do 3 (run_step; match goal with K : unless_null _ _ _ _ = _ |- _ => apply drain_moved in K as [[? ->] ?] end).
  run_step. match goal with K : cleanupDagScheduler _ = _ |- _ => injection K as <- <- end.
  run_step. match goal with K : cleanupP2pEvents _ _ = _ |- _ => apply cleanup_pool in K as [[t ->] B] end.
  match type of B with context [pool_res ?x] => change (pool_res x) with (pool_res w) in B end.
  do 2 (run_step; match goal with K : unless_null _ _ _ _ = _ |- _ => apply destroy_stream_moved in K as [[? ->] ?] end).
  do 4 run_step. cbn in *.
  assert (Hp : forall r, copies r (owned w) = copies r (pool_res w) + copies r (stream_res (w_redStream w)) + copies r (stream_res (w_cpyStream w)) + copies r (fifo_res w)).
  { intros r. apply owned_parts. }
  unfold fifo_res in Hp. destruct (w_fifo w) as [f|] eqn:Ef; cbn in Hp.
  - run_step. match goal with K : do_call _ UHostFree _ = _ |- _ => apply (call_gives _ (Some RHostBuffer)) in K as [[? ->] ?]; [|plain] end.
    run_step. match goal with K : do_call _ UDeleteFifo _ = _ |- _ => apply (call_gives _ (Some RFifo)) in K as [[? ->] ?]; [|plain] end.
    repeat run_step. cbn in *. split; [by split_and!|]. split; [done|]. summed.
  - repeat run_step. cbn in *. split; [by split_and!|]. split; [done|]. summed.
Qed.

Lemma set_trace_same w : set_trace (w_trace w) w = w.
Proof. by destruct w. Qed.

(** A call that takes, or not. *)
Lemma call_takes c o w w' r : (forall y, taken (UEvent c flagcxSuccess y) = Some o) -> (forall r y, given (UEvent c r y) = None) ->
  do_call ans c w = Some (w', r) -> moved (fun x => copies x (if bool_decide (r = flagcxSuccess) then [o] else [])) w w'.
Proof.
  intros Ht Hg E. unfold do_call in E. repeat run_step. destruct (call_out_moved _ _ _ _ H) as [Hw Hb]. split; [done|].
  intros y. rewrite Hb, Hg, count_none. case_bool_decide as Es; cbn.
  - rewrite Es, Ht. lia.
  - unfold taken. cbn. rewrite (bool_decide_eq_false_2 _ Es). cbn. rewrite count_none. lia.
Qed.

Lemma bits_moved r0 n w w' r : (if bool_decide (r0 = flagcxSuccess) then do_call ans (UCalloc BitArray n) else ret r0) w = Some (w', r) ->
  moved (fun x => copies x (if bool_decide (r = flagcxSuccess) then [RBlock BitArray] else [])) w w'.
Proof.
  intros E. case_bool_decide as E2; [by apply (call_takes _ (RBlock BitArray)) in E; [|intros ?..]|].
  run_head. rewrite bool_decide_eq_false_2 by done. split; [by eexists; symmetry; apply set_trace_same|]. intros x. cbn. lia.
Qed.

(** The pool is set up, or given back: what it holds was taken. *)
Lemma pool_balance size w w' r : initP2pEvents ans size w = Some (w', r) ->
  w_redStream w' = w_redStream w /\ w_cpyStream w' = w_cpyStream w /\ w_fifo w' = w_fifo w /\
  forall x, balance x (w_trace w') = balance x (w_trace w) + copies x (pool_res w').
Proof.
  intros E. unfold initP2pEvents in E. do 3 run_head. apply (call_takes _ (RBlock EventArray)) in Hs as [[t1 ->] B1]; [|by intros ?..].
  case_bool_decide as E1; cbn [negb] in E; [|run_head; do 3 (split; [done|]); intros y; rewrite B1; cbn; lia].
  run_head. match goal with K : create_events _ _ _ _ = Some (_, ?y) |- _ => destruct y as [r2 l] end. apply create_moved in Hs as [[t2 ->] B2]. run_head. cbn [fst snd] in *. run_head.
  run_head. apply bits_moved in Hs as [[t3 ->] B3].
  case_bool_decide as E3.
  - repeat run_head. do 3 (split; [done|]). intros y. cbn in *. rewrite B3, B2, B1. unfold pool_res. cbn.
    unfold owned_events. cbn. rewrite Nat2Z.id, firstn_all, !copies_app. cbn. lia.
  - run_head. apply destroy_moved in Hs as [[t4 ->] B4]. run_head. apply (call_gives _ (Some (RBlock EventArray))) in Hs as [[t5 ->] B5]; [|plain].
    repeat run_head. do 3 (split; [done|]). intros y. cbn in *. rewrite B5, B4, B3, B2, B1. cbn. lia.
Qed.


(** What set-up took is what the state refers to. *)
Definition matched (w w' : world) : Prop := forall x, balance x (w_trace w') = balance x (w_trace w) + copies x (owned w').

Lemma bare_owned w x : bare w -> w_fifo w = None -> copies x (owned w) = 0.
Proof. intros ([He Hb] & Hr & Hc) Hf. rewrite owned_parts. unfold pool_res, owned_events, has_events, has_bits, stream_res, fifo_res. by rewrite He, Hb, Hr, Hc, Hf. Qed.

Lemma fail_balance r0 w w' r w0 : matched w0 w -> init_fail ans r0 w = Some (w', r) -> matched w0 w'.
Proof.
  intros Hm E. unfold init_fail in E. run_head. apply cleanup_balance in Hs as (Hb & Hf & HB). run_head. intros y. rewrite HB, Hm, (bare_owned _ y Hb Hf). lia.
Qed.

Lemma stream_taken x y : bool_decide (y.1 = flagcxSuccess) = true -> count x (taken (UEvent UStreamCreate y.1 y.2)) = copies x (stream_res y.2).
Proof. intros E. rewrite stream_count. unfold taken. cbn. rewrite E. cbn. by destruct (_ =? 0); [apply count_none|]. Qed.

Lemma pool_matched size w w1 w2 r : initP2pEvents ans size w1 = Some (w2, r) -> matched w w1 -> pool_null w1 -> matched w w2.
Proof.
  intros (H1 & H2 & H3 & B)%pool_balance Hm [He Hb] y. rewrite B, Hm, !owned_parts. unfold fifo_res. rewrite H1, H2, H3.
  unfold pool_res at 1, owned_events, has_events, has_bits. rewrite He, Hb. cbn. lia.
Qed.

(** A stream that was created is kept. *)
Lemma stream_matched w w1 w2 y : call_out ans UStreamCreate w1 = Some (w2, y) -> matched w w1 ->
  if bool_decide (y.1 = flagcxSuccess) then
    (w_redStream w1 = 0 -> matched w (set_streams (w_commStream w2) y.2 (w_cpyStream w2) w2)) /\
    (w_cpyStream w1 = 0 -> matched w (set_streams (w_commStream w2) (w_redStream w2) y.2 w2))
  else matched w w2.
Proof.
  intros [[t ->] B]%call_out_moved Hm. destruct (bool_decide _) eqn:Ey.
  - assert (Hz : forall u z, pool_res u = pool_res w1 -> fifo_res u = fifo_res w1 -> w_trace u = t ->
      copies z (stream_res (w_redStream u)) + copies z (stream_res (w_cpyStream u)) =
        copies z (stream_res (w_redStream w1)) + copies z (stream_res (w_cpyStream w1)) + copies z (stream_res y.2) ->
      balance z (w_trace u) = balance z (w_trace w) + copies z (owned u)).
    { intros u z H1 H2 H3 H4. specialize (B z). cbn in B. rewrite H3, B, Hm, !owned_parts, (stream_taken z y Ey), H1, H2. cbn. rewrite count_none. lia. }
    split; intros H0 z; (apply Hz; [done..|]); cbn; rewrite H0; cbn; lia.
  - intros z. specialize (B z). cbn in B. cbn. rewrite B, Hm. unfold taken. cbn. rewrite Ey. cbn. rewrite count_none.
    change (owned (set_trace t w1)) with (owned w1). lia.
Qed.

(** The streams, once the pool of events is there. *)
Definition setup_streams : uni_prog flagcxResult_t :=
  run! r := call_out ans UStreamCreate in
  if negb (bool_decide (r.1 = flagcxSuccess)) then init_fail ans r.1 else
  do! modify (fun w => Some (set_streams (w_commStream w) r.2 (w_cpyStream w) w)) in
  run! r := call_out ans UStreamCreate in
  if negb (bool_decide (r.1 = flagcxSuccess)) then init_fail ans r.1 else
  do! modify (fun w => Some (set_streams (w_commStream w) (w_redStream w) r.2 w)) in
  ret flagcxSuccess.

Lemma streams_balance w0 w w' r : setup_streams w = Some (w', r) -> matched w0 w -> w_redStream w = 0 -> w_cpyStream w = 0 -> matched w0 w'.
Proof.
  intros E Hm Hr Hc. unfold setup_streams in E. run_head. pose proof (stream_matched w0 _ _ _ Hs Hm) as HS. apply call_out_moved in Hs as [[t5 ->] _].
  case_bool_decide; cbn [negb] in E; [|exact (fail_balance _ _ _ _ _ HS E)].
  destruct HS as [HS _]. specialize (HS Hr). do 3 run_head. pose proof (stream_matched w0 _ _ _ Hs HS) as HS2. apply call_out_moved in Hs as [[t6 ->] _].
  case_bool_decide; cbn [negb] in E; [|exact (fail_balance _ _ _ _ _ HS2 E)].
  do 3 run_head. by apply HS2.
Qed.

(** The pool, once the FIFO is there. *)
Definition setup_pool (size : Z) : uni_prog flagcxResult_t :=
  do! modify (fun w => let d := w_dag w in Some (set_dag
        (MkDag (dg_nodes d) (dg_numDagNodes d) 0 [] [] [] [] (dg_requests d) (dg_live d)) w)) in
  run! r := initP2pEvents ans size in
  if negb (bool_decide (r = flagcxSuccess)) then init_fail ans r else setup_streams.

Lemma set_dag_matched w0 w d : matched w0 w -> matched w0 (set_dag d w).
Proof. intros H. exact H. Qed.

Lemma setup_pool_balance size w0 w w' r : setup_pool size w = Some (w', r) -> matched w0 w -> pool_null w -> w_redStream w = 0 -> w_cpyStream w = 0 ->
  matched w0 w'.
Proof.
  intros E Hm Hp Hr Hc. unfold setup_pool in E. do 3 run_head. destruct (pool_balance _ _ _ _ Hs) as (Er & Ec & _).
  apply (pool_matched _ w0) in Hs; [|exact (set_dag_matched _ _ _ Hm)|exact Hp].
  case_bool_decide; cbn [negb] in E; [|exact (fail_balance _ _ _ _ _ Hs E)].
  eapply streams_balance; [exact E|exact Hs|by rewrite Er|by rewrite Ec].
Qed.

(** The state [initUniRunner] starts from. *)
Definition reset (stream : Z) (w : world) : world := let d := w_dag w in
  set_fifo None (set_streams stream 0 0 (set_map (MkBitmap None (bm_nextIdx (w_map w)) (bm_size (w_map w))) (set_events None 0
    (set_dag (MkDag None 0 (dg_numPendingNodes d) (dg_p2pReady d) (dg_redReady d) (dg_p2pInflight d) (dg_redInflight d) (dg_requests d) (dg_live d)) w)))).

Lemma reset_bare stream w : bare (reset stream w) /\ w_fifo (reset stream w) = None.
Proof. done. Qed.

Definition setup_fifo (size C : Z) : uni_prog flagcxResult_t :=
  run! r := do_call ans UNewFifo in
  if negb (bool_decide (r = flagcxSuccess)) then ret flagcxSystemError else
  run! r := do_call ans (UHostMalloc (48 +u64 (C *u64 32))) in
  if flagcx_failed r then do! do_call ans UDeleteFifo in ret r else
  if negb (bool_decide (r = flagcxSuccess)) then fun _ => None else
  do! modify (fun w => Some (set_fifo (Some (flagcxRedFifoInit C)) w)) in
  run! r := do_call ans UHostGetDevicePointer in
  if negb (bool_decide (r = flagcxSuccess)) then init_fail ans r else setup_pool size.

Lemma setup_fifo_balance size C w w' r : setup_fifo size C w = Some (w', r) -> bare w -> w_fifo w = None -> matched w w'.
Proof.
  intros E Hb Hf. unfold setup_fifo in E. run_head. apply (call_takes _ RFifo) in Hs as [[t2 ->] B2]; [|by intros ?..].
  case_bool_decide; cbn [negb] in E; [|run_head; intros y; rewrite B2, (bare_owned _ y) by done; done].
  run_head. apply (call_takes _ RHostBuffer) in Hs as [[t3 ->] B3]; [|by intros ?..].
  destruct (flagcx_failed _) eqn:Ef.
  { run_head. apply (call_gives _ (Some RFifo)) in Hs as [[t4 ->] B4]; [|plain]. run_head. intros y. rewrite B4, B3, B2, (bare_owned _ y) by done.
    rewrite bool_decide_eq_false_2 by (intros ->; done). cbn. lia. }
  case_bool_decide; cbn [negb] in E; [|done].
  do 3 run_head. apply (call_gives _ None) in Hs as [[t4 ->] B4]; [|plain].
  destruct Hb as ([He Hbits] & Hr & Hc).
  match type of E with _ ?w1 = _ => assert (Hm : matched w w1) end.
  { intros y. rewrite B4, owned_parts. change (w_trace (set_fifo ?f ?u)) with (w_trace u). rewrite B3, B2, count_none.
    unfold pool_res, owned_events, has_events, has_bits, stream_res, fifo_res.
    cbn. rewrite He, Hbits, Hr, Hc. cbn. lia. }
  case_bool_decide; cbn [negb] in E; [|exact (fail_balance _ _ _ _ _ Hm E)].
  eapply setup_pool_balance; [exact E|exact Hm|by split|exact Hr|exact Hc].
Qed.

Lemma setup_balance size C stream w w' r : initUniRunner ans size C stream w = Some (w', r) -> bare w -> w_fifo w = None -> matched w w'.
Proof.
  intros E Hb Hf. unfold initUniRunner in E. run_head. apply (call_gives _ None) in Hs as [[t1 ->] B1]; [|plain].
  assert (Hn : forall y, balance y (w_trace (set_trace t1 w)) = balance y (w_trace w)) by (intros y; rewrite B1, count_none; lia).
  case_bool_decide; cbn [negb] in E.
  - run_head. assert (x = reset stream (set_trace t1 w)) as -> by (by injection Hs as <-).
    intros y. destruct (reset_bare stream (set_trace t1 w)) as [Hb1 Hf1].
    pose proof (setup_fifo_balance size C _ _ _ E Hb1 Hf1 y) as Hm. rewrite Hm. change (w_trace (reset stream ?u)) with (w_trace u). by rewrite Hn.
  - run_head. intros y. rewrite Hn, (bare_owned _ y) by done. lia.
Qed.

(** A run gives back what was held when it began. *)
Lemma run_and_clean_balance b rounds w w' r : run_and_clean ans dev comm_rank b rounds w = Some (w', Some r) ->
  forall x, balance x (w_trace w') = balance x (w_trace w) - copies x (owned w).
Proof.
  intros E y. unfold run_and_clean in E. run_head. destruct (neutral_build _ _ _ _ Hs) as [S1 B1]. clear Hs. run_head.
  match type of Hs with (if ?c then _ else _) ?w1 = Some (?w2, _) => assert (HN : same_owned w1 w2 /\ forall z, balance z (w_trace w2) = balance z (w_trace w1)) end.
  { revert Hs. destruct (flagcx_failed _); [|apply neutral_run]. intros [= <- <-]. split; [apply same_owned_refl|done]. }
  destruct HN as [S2 B2]. clear Hs. match type of E with (match ?o with _ => _ end) _ = _ => destruct o; [|discriminate E] end.
  run_head. apply cleanup_balance in Hs as (_ & _ & B3). injection E as <- _.
  rewrite B3, B2, B1. by rewrite (owned_same _ _ y S2), (owned_same _ _ y S1).
Qed.

(** A collective after which nothing is held gave back all it took. *)
Definition collective (b : build) (size C stream : Z) (rounds : nat) : uni_prog (option flagcxResult_t) :=
  run! r := initUniRunner ans size C stream in
  if negb (bool_decide (r = flagcxSuccess)) then ret (Some r) else run_and_clean ans dev comm_rank b rounds.

Lemma collective_balance b size C stream rounds w w' r : collective b size C stream rounds w = Some (w', Some r) -> bare w -> w_fifo w = None ->
  bare w' -> w_fifo w' = None -> forall x, balance x (w_trace w') = balance x (w_trace w).
Proof.
  intros E Hb Hf Hb' Hf' y. unfold collective in E. run_head. pose proof (setup_balance _ _ _ _ _ _ Hs Hb Hf y) as Hm. clear Hs.
  case_bool_decide; cbn [negb] in E.
  - rewrite (run_and_clean_balance _ _ _ _ _ E y), Hm. lia.
  - injection E as -> _. rewrite Hm, (bare_owned w' y Hb' Hf'). lia.
Qed.

End Balance.
