(* ===== verification/UniSchedPool.v ===== *)
(** The pool of events and the FIFO of reductions of [UniSched]: which events
    are in use, and which state each slot of the FIFO is in while the kernel
    works through it. *)
From S2P Require Import Prelude Flagcx Arrays C2cRunner KernelTrigger UniDag UniSched.

Lemma arr_get_Some {A} (l : list A) i x : arr_get l i = Some x <-> 0 <= i /\ l !! Z.to_nat i = Some x.
Proof. unfold arr_get. destruct (Z.leb_spec 0 i); split; [done|by intros [_ ?]|done|lia]. Qed.

Lemma arr_get_is_Some {A} (l : list A) i : 0 <= i < Z.of_nat (length l) -> exists x, arr_get l i = Some x /\ l !! Z.to_nat i = Some x.
Proof.
  intros Hi. destruct (lookup_lt_is_Some_2 l (Z.to_nat i) ltac:(lia)) as [x Hx]. exists x. split; [|done]. apply arr_get_Some. split; [lia|done].
Qed.

Lemma arr_set_in {A} (l : list A) i x : 0 <= i < Z.of_nat (length l) -> arr_set l i x = Some (<[Z.to_nat i := x]> l).
Proof. intros Hi. unfold arr_set. by rewrite (proj2 (Z.leb_le 0 i)), (proj2 (Z.ltb_lt i _)) by lia. Qed.

(** ** The pool *)

Record pool_ok (m : uniRunnerP2pEventBitmap) : Prop := {
  po_size : 0 <= bm_size m;
  po_next : 0 < bm_size m -> 0 <= bm_nextIdx m < bm_size m;
  po_bits : exists l, bm_bits m = Some l /\ Z.of_nat (length l) = (bm_size m + 63) / 64
}.

Definition in_use (m : uniRunnerP2pEventBitmap) (k : Z) : bool :=
  match bm_bits m with Some l => match l !! Z.to_nat (k / 64) with Some w => Z.testbit w (k mod 64) | None => false end | None => false end.

Lemma land_bit w b : 0 <= b -> (Z.land w (Z.shiftl 1 b) =? 0) = negb (Z.testbit w b).
Proof.
  intros Hb. rewrite Z.shiftl_1_l. destruct (Z.testbit w b) eqn:E; cbn.
  - apply Z.eqb_neq. intros H. apply (f_equal (fun x => Z.testbit x b)) in H. rewrite Z.land_spec, Z.pow2_bits_true, E, Z.bits_0 in H by done. done.
  - apply Z.eqb_eq, Z.bits_inj_0. intros n. rewrite Z.land_spec. destruct (Z.eq_dec n b) as [->|Hne]; [by rewrite E|].
    rewrite Z.pow2_bits_false by done. apply andb_false_r.
Qed.

Lemma pool_word m k : pool_ok m -> 0 <= k < bm_size m ->
  exists l w, bm_bits m = Some l /\ 0 <= k / 64 < Z.of_nat (length l) /\ arr_get l (k / 64) = Some w /\ l !! Z.to_nat (k / 64) = Some w /\
    0 <= k mod 64 < 64.
Proof.
  intros [Hs _ (l & Hl & Hlen)] Hk. assert (Hr : 0 <= k / 64 < Z.of_nat (length l)) by zlia.
  destruct (arr_get_is_Some l (k / 64) Hr) as (w & Hw & Hw'). exists l, w. split_and!; try done; zlia.
Qed.

Lemma isAvailable_spec m k : pool_ok m -> 0 <= k < bm_size m -> isAvailable m k = Some (negb (in_use m k)).
Proof.
  intros Hm Hk. destruct (pool_word m k Hm Hk) as (l & w & Hl & Hr & Hw & Hw' & Hb). unfold isAvailable, in_use.
  rewrite Hl. cbn. rewrite Hw, Hw'. cbn. by rewrite land_bit by lia.
Qed.

Lemma set_bit_spec m k f (b : bool) :
  pool_ok m -> 0 <= k < bm_size m ->
  (forall w p n, 0 <= p -> 0 <= n -> Z.testbit (f w (Z.shiftl 1 p)) n = if n =? p then b else Z.testbit w n) ->
  exists m', set_bit m k f = Some m' /\ pool_ok m' /\ bm_size m' = bm_size m /\
    forall j, 0 <= j -> in_use m' j = if j =? k then b else in_use m j.
Proof.
  intros Hm Hk Hf. destruct (pool_word m k Hm Hk) as (l & w & Hl & Hr & Hw & Hw' & Hb). unfold set_bit. rewrite Hl. cbn.
  rewrite Hw. cbn. rewrite arr_set_in by done. cbn. eexists. split; [done|]. destruct Hm as [Hs Hn (l0 & Hl0 & Hlen)].
  rewrite Hl in Hl0. injection Hl0 as <-. split_and!; [|done|].
  - constructor; [done|done|]. eexists. split; [done|]. by rewrite length_insert.
  - intros j Hj. unfold in_use. cbn. rewrite Hl. destruct (decide (Z.to_nat (k / 64) = Z.to_nat (j / 64))) as [E|E].
    + rewrite <- E, list_lookup_insert_eq by lia. rewrite Hf by zlia. rewrite Hw'.
      assert (Ej : k / 64 = j / 64) by zlia. destruct (Z.eqb_spec j k), (Z.eqb_spec (j mod 64) (k mod 64)); subst; try done; zlia.
    + rewrite list_lookup_insert_ne by done. destruct (Z.eqb_spec j k); [subst; done|done].
Qed.

Lemma markInUse_spec m k : pool_ok m -> 0 <= k < bm_size m ->
  exists m', markInUse m k = Some m' /\ pool_ok m' /\ bm_size m' = bm_size m /\ forall j, 0 <= j -> in_use m' j = if j =? k then true else in_use m j.
Proof.
  intros Hm Hk. apply set_bit_spec; [done..|]. intros w p n Hp Hn. rewrite Z.lor_spec, Z.shiftl_1_l. destruct (Z.eqb_spec n p) as [->|].
  - rewrite Z.pow2_bits_true by done. apply orb_true_r.
  - rewrite Z.pow2_bits_false by done. apply orb_false_r.
Qed.

Lemma markAvailable_spec m k : pool_ok m -> 0 <= k < bm_size m ->
  exists m', markAvailable m k = Some m' /\ pool_ok m' /\ bm_size m' = bm_size m /\ forall j, 0 <= j -> in_use m' j = if j =? k then false else in_use m j.
Proof.
  intros Hm Hk. apply set_bit_spec; [done..|]. intros w p n Hp Hn. rewrite Z.ldiff_spec, Z.shiftl_1_l. destruct (Z.eqb_spec n p) as [->|].
  - rewrite Z.pow2_bits_true by done. apply andb_false_r.
  - rewrite Z.pow2_bits_false by done. apply andb_true_r.
Qed.

Lemma advance_ok m : pool_ok m -> 0 < bm_size m -> pool_ok (advance m) /\ forall j, in_use (advance m) j = in_use m j.
Proof. intros [Hs Hn Hb] Hpos. split; [|done]. constructor; cbn; [done|intros _; by apply Z.mod_pos_bound|done]. Qed.

(** The event the pool gives is free and now in use; it gives none only when
    every event it looked at is in use. *)
Lemma getEvent_spec m : pool_ok m ->
  exists idx m', getEvent m = Some (idx, m') /\ pool_ok m' /\ bm_size m' = bm_size m /\
    (idx = -1 /\ (forall j, in_use m' j = in_use m j) /\ (0 < bm_size m -> in_use m (bm_nextIdx m) = true) \/
     0 <= idx < bm_size m /\ in_use m idx = false /\ forall j, 0 <= j -> in_use m' j = if j =? idx then true else in_use m j).
Proof.
  intros Hm. assert (H : forall fuel m1, pool_ok m1 -> bm_size m1 = bm_size m -> (forall j, in_use m1 j = in_use m j) ->
    (fuel = 0%nat \/ 0 < bm_size m) ->
    exists idx m', getAvailable_loop fuel m1 = Some (idx, m') /\ pool_ok m' /\ bm_size m' = bm_size m /\ (forall j, in_use m' j = in_use m j) /\
      (idx = -1 /\ (fuel <> 0%nat -> in_use m (bm_nextIdx m1) = true) \/ 0 <= idx < bm_size m /\ in_use m idx = false)).
  { induction fuel as [|fuel IH]; intros m1 Hm1 Hsz Hu Hf.
    - exists (-1), m1. split_and!; try done. by left.
    - destruct Hf as [?|Hpos]; [done|]. cbn. assert (Hnx : 0 <= bm_nextIdx m1 < bm_size m1) by (apply Hm1; lia).
      rewrite isAvailable_spec by done. cbn. destruct (advance_ok m1 Hm1 ltac:(lia)) as [Ha Hau]. rewrite Hu.
      destruct (in_use m (bm_nextIdx m1)) eqn:E; cbn.
      + destruct (IH (advance m1)) as (idx & m' & Hl & H1 & H2 & H3 & H4); [done|done|intros j; by rewrite Hau|by right|].
        exists idx, m'. split_and!; try done. destruct H4 as [[-> _]|?]; [by left|by right].
      + exists (bm_nextIdx m1), (advance m1). split; [done|]. split; [done|]. split; [done|]. split; [intros j; by rewrite Hau|]. right. split; [lia|done]. }
  destruct (H (Z.to_nat (bm_size m)) m Hm eq_refl (fun j => eq_refl)) as (idx & m' & Hl & H1 & H2 & H3 & H4).
  { pose proof (po_size m Hm). destruct (Z.eq_dec (bm_size m) 0) as [E|]; [left; by rewrite E|right; lia]. }
  unfold getEvent, getAvailable. rewrite Hl. cbn. destruct H4 as [[-> Hn]|[Hr Hfree]].
  - exists (-1), m'. split_and!; try done. left. split_and!; try done. intros Hpos. apply Hn. lia.
  - rewrite (proj2 (Z.eqb_neq idx (-1))) by lia. cbn. destruct (markInUse_spec m' idx H1 ltac:(lia)) as (m2 & -> & H5 & H6 & H7). cbn.
    exists idx, m2. split_and!; try done; [congruence|]. right. split_and!; try lia; try done. intros j Hj. by rewrite H7, H3.
Qed.

(** ** The states of a slot *)

Lemma put_field_small bits off x : 0 <= bits -> bits <> 64 -> 0 <= off -> bits + off <= 64 ->
  0 <= put_field bits off x < 2 ^ (bits + off) /\ put_field bits off x = Z.shiftl (x mod 2 ^ bits) off.
Proof.
  intros Hb H64 Ho Hs. unfold put_field, flagcxTriggerMask. rewrite (proj2 (Z.eqb_neq bits 64)) by done.
  replace (2 ^ bits - 1) with (Z.ones bits) by (rewrite Z.ones_equiv; lia). rewrite Z.land_ones by done.
  pose proof (Z.mod_pos_bound x (2 ^ bits) ltac:(by apply Z.pow_pos_nonneg)) as Hm. rewrite Z.shiftl_mul_pow2 by done.
  assert (Hlt : 0 <= x mod 2 ^ bits * 2 ^ off < 2 ^ (bits + off)).
  { rewrite Z.pow_add_r by done. pose proof (Z.pow_pos_nonneg 2 off). nia. }
  assert (2 ^ (bits + off) <= 2 ^ 64) by (apply Z.pow_le_mono_r; lia). change U64_MOD with (2 ^ 64).
  rewrite Z.mod_small by lia. done.
Qed.

Lemma shiftr_small x n : 0 <= x < 2 ^ n -> 0 <= n -> Z.shiftr x n = 0.
Proof. intros Hx Hn. rewrite Z.shiftr_div_pow2 by done. by apply Z.div_small. Qed.

Lemma pollState_setValue fst snd out count nthreads dt op state :
  0 <= state < 4 -> pollState (setValue fst snd out count nthreads dt op state) = state.
Proof.
  intros Hst. unfold pollState, setValue. cbn [rt_ctl]. rewrite !Z.shiftr_lor.
  assert (Hz : forall bits off x, 0 <= bits -> bits <> 64 -> 0 <= off -> bits + off <= 56 -> Z.shiftr (put_field bits off x) 56 = 0).
  { intros bits off x Hb H64 Ho Hs. destruct (put_field_small bits off x Hb H64 Ho ltac:(lia)) as [Hr _]. apply shiftr_small; [|done].
    assert (2 ^ (bits + off) <= 2 ^ 56) by (apply Z.pow_le_mono_r; lia). lia. }
  change flagcxReduceTriggerOffState with 56. rewrite !Hz by (vm_compute; done). rewrite !Z.lor_0_l.
  destruct (put_field_small flagcxReduceTriggerBitsState 56 state) as [_ ->]; [vm_compute; done..|].
  rewrite Z.shiftr_shiftl_l, Z.sub_diag, Z.shiftl_0_r by done. change (2 ^ flagcxReduceTriggerBitsState) with 4. rewrite Z.mod_small by lia.
  change (flagcxTriggerMask flagcxReduceTriggerBitsState) with (Z.ones 2). rewrite Z.land_ones by done. by apply Z.mod_small.
Qed.

(** A reduction keeps 32 bits of its number of elements. *)
Lemma getCount_setValue fst snd out count nthreads dt op state : getCount (setValue fst snd out count nthreads dt op state) = count mod 2 ^ 32.
Proof.
  unfold getCount, setValue. cbn [rt_ctl]. change (Z.shiftr ?x flagcxReduceTriggerOffCount) with (Z.shiftr x 0). rewrite Z.shiftr_0_r.
  change (flagcxTriggerMask flagcxReduceTriggerBitsCount) with (Z.ones 32).
  assert (Hz : forall bits off x, 0 <= bits -> bits <> 64 -> 32 <= off -> bits + off <= 64 -> Z.land (put_field bits off x) (Z.ones 32) = 0).
  { intros bits off x Hb H64 Ho Hs. destruct (put_field_small bits off x Hb H64 ltac:(lia) Hs) as [_ ->].
    rewrite Z.land_ones, Z.shiftl_mul_pow2 by lia. replace off with (off - 32 + 32) by lia. rewrite Z.pow_add_r, Z.mul_assoc by lia. by apply Z.mod_mul. }
  rewrite !Z.land_lor_distr_l, (Hz flagcxReduceTriggerBitsNThreads), (Hz flagcxReduceTriggerBitsDatatype), (Hz flagcxReduceTriggerBitsRedop), (Hz flagcxReduceTriggerBitsState) by (vm_compute; done). rewrite !Z.lor_0_r.
  destruct (put_field_small flagcxReduceTriggerBitsCount flagcxReduceTriggerOffCount count) as [_ ->]; [vm_compute; done..|].
  change flagcxReduceTriggerOffCount with 0. change (2 ^ flagcxReduceTriggerBitsCount) with (2 ^ 32). rewrite Z.shiftl_0_r, Z.land_ones by done. by apply Z.mod_mod.
Qed.

Lemma state_field s : 0 <= s < 4 -> put_field flagcxReduceTriggerBitsState flagcxReduceTriggerOffState s = Z.shiftl s 56.
Proof.
  intros Hs. destruct (put_field_small flagcxReduceTriggerBitsState flagcxReduceTriggerOffState s) as [_ ->]; [vm_compute; done..|].
  change (2 ^ flagcxReduceTriggerBitsState) with 4. by rewrite Z.mod_small.
Qed.

Lemma pollState_setComplete t : pollState (setComplete t) = flagcxReduceTriggerComplete.
Proof.
  unfold pollState, setComplete, set_ctl. cbn [rt_ctl]. rewrite state_field by (vm_compute; done).
  change flagcxReduceTriggerOffState with 56. rewrite Z.shiftr_lor, Z.shiftr_shiftl_l, Z.sub_diag, Z.shiftl_0_r by done.
  change (flagcxTriggerMask flagcxReduceTriggerBitsState) with 3. change flagcxReduceTriggerComplete with 3.
  rewrite Z.land_lor_distr_l. apply Z.bits_inj. intros n. rewrite Z.lor_spec, !Z.land_spec, andb_diag. apply orb_diag_r || (destruct (Z.testbit 3 n), (Z.testbit _ n); done).
Qed.

Lemma ldiff_land x m : Z.land (Z.ldiff x m) m = 0.
Proof. apply Z.bits_inj_0. intros n. rewrite Z.land_spec, Z.ldiff_spec. by destruct (Z.testbit x n), (Z.testbit m n). Qed.

Lemma pollState_cleared t ctl state : 0 <= state < 4 -> pollState (set_ctl (state_cleared ctl state) t) = state.
Proof.
  intros Hs. unfold pollState, state_cleared, set_ctl. cbn [rt_ctl]. rewrite !state_field by (lia || (vm_compute; done)).
  change flagcxReduceTriggerOffState with 56. rewrite Z.shiftr_lor, Z.shiftr_ldiff, !Z.shiftr_shiftl_l, Z.sub_diag, !Z.shiftl_0_r by done.
  change (flagcxTriggerMask flagcxReduceTriggerBitsState) with (Z.ones 2). change 3 with (Z.ones 2).
  rewrite Z.land_lor_distr_l, ldiff_land, Z.lor_0_l. rewrite Z.land_ones by done. by apply Z.mod_small.
Qed.

(** ** The FIFO *)

(** The slots that wait for the kernel. *)
Definition waiting (f : reduceFifo) : list Z := (fun q => q mod rf_capacity f) <$> seqZ (rf_consumed f) (rf_produced f - rf_consumed f).
Definition underway (f : reduceFifo) : list Z := waiting f ++ rf_busy f.

(** [T]: the slots of the reductions in flight. *)
Record fifo_ok (C : Z) (T : list Z) (f : reduceFifo) : Prop := {
  fo_capacity : rf_capacity f = C /\ exists k, 0 <= k /\ C = 2 ^ k;
  fo_slots : Z.of_nat (length (rf_slots f)) = C;
  fo_counters : 0 <= rf_consumed f <= rf_produced f /\ rf_produced f - rf_consumed f <= C /\ rf_produced f < U64_MOD;
  fo_distinct : NoDup (underway f);
  fo_inflight : forall j, j ∈ underway f -> j ∈ T;
  fo_nodup : NoDup T;
  fo_range : forall j, j ∈ T -> 0 <= j < C;
  fo_state : forall j t, arr_get (rf_slots f) j = Some t ->
    pollState t = if bool_decide (j ∈ underway f) then flagcxReduceTriggerEnqueued
                  else if bool_decide (j ∈ T) then flagcxReduceTriggerComplete else flagcxReduceTriggerAvailable
}.

Lemma fifo_capacity C T f : fifo_ok C T f -> 0 < C.
Proof. intros [(_ & k & Hk & ->) _ _ _ _ _ _ _]. by apply Z.pow_pos_nonneg. Qed.

(** The kernel only takes and ends what is in the FIFO. *)
Lemma kernel_step_ok C T f f' : kernel_step f f' -> fifo_ok C T f ->
  fifo_ok C T f' /\ rf_produced f' = rf_produced f /\ rf_consumed f <= rf_consumed f' /\ forall j, j ∈ underway f' -> j ∈ underway f.
Proof.
  intros Hst I. pose proof (fifo_capacity C T f I) as HC. destruct I as [(Hcap & k & Hk & Hpow) Hsl Hcnt Hnd Hin HT Hr Hs]. destruct Hst as [f Hlt|f b1 slot b2 l Hb Hl].
  - set (f' := MkRedFifo _ _ _ _ _ _).
    assert (Hu : underway f' ≡ₚ underway f).
    { unfold underway, waiting, f'. cbn. rewrite Z.mod_small by lia.
      replace (rf_produced f - rf_consumed f) with (1 + (rf_produced f - (rf_consumed f + 1))) by lia.
      rewrite seqZ_app by lia. change (seqZ (rf_consumed f) 1) with [rf_consumed f]. cbn.
      replace (Z.land (rf_consumed f) (rf_capacity f - 1)) with (rf_consumed f mod rf_capacity f).
      2: { rewrite Hcap, Hpow, <- Z.land_ones, Z.ones_equiv by done. done. }
      by rewrite (Permutation_app_comm (rf_busy f)), app_assoc, (Permutation_app_comm _ [_]). }
    split; [|cbn; rewrite Z.mod_small by lia; split_and!; [done|lia|intros j; by rewrite Hu]].
    constructor; try done; cbn; rewrite ?Z.mod_small by lia.
    + split; [done|by exists k].
    + lia.
    + by rewrite Hu.
    + intros j. rewrite Hu. apply Hin.
    + intros j t Hj. rewrite (Hs j t Hj). by rewrite (bool_decide_ext (j ∈ underway f') (j ∈ underway f)) by (by rewrite Hu).
  - set (f' := MkRedFifo _ _ _ _ _ _). destruct (arr_get (rf_slots f) slot) as [t|] eqn:Ht; [|done]. cbn in Hl.
    assert (Hu : underway f ≡ₚ slot :: underway f').
    { unfold underway, waiting, f'. cbn. rewrite Hb. rewrite !(app_assoc _ b1). by rewrite <- Permutation_middle. }
    rewrite Hu in Hnd. apply NoDup_cons in Hnd as [Hns Hnd].
    assert (Hsl' : slot ∈ T) by (apply Hin; rewrite Hu; left).
    specialize (Hr _ Hsl') as Hrs. rewrite arr_set_in in Hl by lia. injection Hl as <-.
    split; [|split_and!; [done|cbn; lia|intros j Hj; rewrite Hu; by right]].
    constructor; cbn; try done.
    + split; [done|by exists k].
    + by rewrite length_insert.
    + intros j Hj. apply Hin. rewrite Hu. by right.
    + intros j u [Hj0 Hj]%arr_get_Some. destruct (decide (j = slot)) as [->|Hne].
      * rewrite list_lookup_insert_eq in Hj by lia. injection Hj as <-. rewrite pollState_setComplete.
        by rewrite bool_decide_eq_false_2, bool_decide_eq_true_2.
      * rewrite list_lookup_insert_ne in Hj by lia. rewrite (Hs j u) by (by apply arr_get_Some).
        rewrite (bool_decide_ext (j ∈ underway f) (j ∈ underway f')); [done|]. rewrite Hu, elem_of_cons. naive_solver.
Qed.

Lemma kernel_reach_ok C T f f' : reach kernel_step f f' -> fifo_ok C T f ->
  fifo_ok C T f' /\ rf_produced f' = rf_produced f /\ rf_consumed f <= rf_consumed f' /\ forall j, j ∈ underway f' -> j ∈ underway f.
Proof.
  intros Hr. induction Hr as [f|f1 f2 f3 Hst Hr IH]; intros I; [split_and!; done || lia|].
  destruct (kernel_step_ok C T f1 f2 Hst I) as (I2 & E2 & L2 & U2). destruct (IH I2) as (I3 & E3 & L3 & U3).
  split; [done|]. split; [congruence|]. split; [lia|]. intros j Hj. by apply U2, U3.
Qed.

Lemma fifo_perm C T T' f : T ≡ₚ T' -> fifo_ok C T f -> fifo_ok C T' f.
Proof.
  intros HT [H1 H2 H3 H4 H5 H6 H7 H8]. constructor; try done.
  - intros j. rewrite <- HT. apply H5.
  - by rewrite <- HT.
  - intros j. rewrite <- HT. apply H7.
  - intros j t Hj. rewrite (bool_decide_ext (j ∈ T') (j ∈ T)) by (by rewrite HT). by apply H8.
Qed.

#[export] Instance fifo_ok_proper C : Proper (Permutation ==> eq ==> iff) (fifo_ok C).
Proof. intros T T' HT f _ <-. split; by apply fifo_perm. Qed.

Lemma fifo_slot C T f j : fifo_ok C T f -> 0 <= j < C -> exists t, arr_get (rf_slots f) j = Some t.
Proof. intros I Hj. destruct (arr_get_is_Some (rf_slots f) j) as (t & Ht & _); [rewrite (fo_slots _ _ _ I); lia|by exists t]. Qed.

(** A slot is available when no reduction in flight has it. *)
Lemma fifo_available C T f j t : fifo_ok C T f -> arr_get (rf_slots f) j = Some t ->
  Z.eqb (pollState t) flagcxReduceTriggerAvailable = negb (bool_decide (j ∈ T)) /\
  Z.eqb (pollState t) flagcxReduceTriggerComplete = bool_decide (j ∈ T /\ j ∉ underway f).
Proof.
  intros I Ht. rewrite (fo_state _ _ _ I j t Ht). pose proof (fo_inflight _ _ _ I j) as Hu.
  destruct (decide (j ∈ underway f)), (decide (j ∈ T));
    repeat (rewrite ?bool_decide_eq_true_2, ?bool_decide_eq_false_2 by naive_solver); split; try done; naive_solver.
Qed.

(** The next reduction takes the slot after the last one. *)
Lemma fifo_add C T f fst snd out count nthreads dt op :
  fifo_ok C T f -> rf_produced f - rf_consumed f < C -> rf_produced f mod C ∉ T -> rf_produced f + 1 < U64_MOD ->
  fifo_ok C (rf_produced f mod C :: T)
    (rf_set_produced (rf_produced f +u64 1)
      (rf_set_slots (<[Z.to_nat (rf_produced f mod C) := setValue fst snd out count nthreads dt op flagcxReduceTriggerEnqueued]> (rf_slots f)) f)).
Proof.
  intros I Hroom Hfree Hp. pose proof (fifo_capacity _ _ _ I) as HC. destruct I as [(Hcap & Hpow) Hsl Hcnt Hnd Hin HT Hr Hs].
  set (idx := rf_produced f mod C) in *. assert (Hidx : 0 <= idx < C) by (by apply Z.mod_pos_bound). set (f' := rf_set_produced _ _).
  assert (Hu : underway f' ≡ₚ idx :: underway f).
  { unfold underway, waiting, f'. cbn. rewrite Z.mod_small by lia.
    replace (rf_produced f + 1 - rf_consumed f) with ((rf_produced f - rf_consumed f) + 1) by lia.
    rewrite seqZ_app, fmap_app by lia. replace (rf_consumed f + (rf_produced f - rf_consumed f)) with (rf_produced f) by lia.
    cbn. rewrite Hcap, <- (assoc_L (++)). change (seqZ (rf_produced f) 1) with [rf_produced f]. cbn. by rewrite <- Permutation_middle. }
  assert (Hni : idx ∉ underway f) by (intros H; by apply Hfree, Hin).
  constructor; cbn; try done.
  - by rewrite length_insert.
  - rewrite Z.mod_small by lia. lia.
  - rewrite Hu. by constructor.
  - intros j. rewrite Hu, !elem_of_cons. intros [->|Hj]; [by left|right; by apply Hin].
  - by constructor.
  - intros j [->|Hj]%elem_of_cons; [done|by apply Hr].
  - intros j t [Hj0 Hj]%arr_get_Some. destruct (decide (j = idx)) as [->|Hne].
    + rewrite list_lookup_insert_eq in Hj by lia. injection Hj as <-. rewrite pollState_setValue by (vm_compute; done).
      rewrite bool_decide_eq_true_2; [done|]. rewrite Hu. by left.
    + rewrite list_lookup_insert_ne in Hj by lia. rewrite (Hs j t) by (by apply arr_get_Some).
      rewrite (bool_decide_ext (j ∈ underway f') (j ∈ underway f)), (bool_decide_ext (j ∈ idx :: T) (j ∈ T)); [done|..];
        rewrite ?Hu, elem_of_cons; naive_solver.
Qed.

(** A reduction that is over gives its slot back. *)
Lemma fifo_remove C T j f t :
  fifo_ok C (j :: T) f -> j ∉ underway f -> arr_get (rf_slots f) j = Some t ->
  fifo_ok C T (rf_set_slots (<[Z.to_nat j := set_ctl (state_cleared (rt_ctl t) flagcxReduceTriggerAvailable) t]> (rf_slots f)) f).
Proof.
  intros [(Hcap & Hpow) Hsl Hcnt Hnd Hin HT Hr Hs] Hj [Hj0 Ht]%arr_get_Some. apply NoDup_cons in HT as [Hni HT]. set (f' := rf_set_slots _ _).
  assert (Hu : underway f' = underway f) by done.
  constructor; cbn; try done.
  - by rewrite length_insert.
  - rewrite Hu. intros i Hi. specialize (Hin i Hi) as [->|?]%elem_of_cons; done.
  - intros i Hi. apply Hr. by right.
  - rewrite Hu. intros i u [Hi0 Hi]%arr_get_Some. destruct (decide (i = j)) as [->|Hne].
    + rewrite list_lookup_insert_eq in Hi by (by eapply lookup_lt_Some). injection Hi as <-.
      rewrite pollState_cleared by (vm_compute; done). by rewrite !bool_decide_eq_false_2.
    + rewrite list_lookup_insert_ne in Hi by lia. rewrite (Hs i u) by (by apply arr_get_Some).
      rewrite (bool_decide_ext (i ∈ j :: T) (i ∈ T)); [done|]. rewrite elem_of_cons. naive_solver.
Qed.

(** With no reduction in flight the next one is taken. *)
Lemma fifo_room C f : fifo_ok C [] f -> rf_produced f - rf_consumed f < C.
Proof.
  intros I. pose proof (fifo_capacity _ _ _ I). destruct (Z.eq_dec (rf_produced f - rf_consumed f) 0); [lia|].
  exfalso. destruct I as [_ _ Hcnt _ Hin _ _ _]. apply (not_elem_of_nil (rf_consumed f mod rf_capacity f)), Hin.
  unfold underway, waiting. rewrite elem_of_app. left. apply list_elem_of_fmap. exists (rf_consumed f). split; [done|].
  apply elem_of_seqZ. lia.
Qed.

Lemma fifo_init C k : 0 <= k -> C = 2 ^ k -> fifo_ok C [] (flagcxRedFifoInit C).
Proof.
  intros Hk HC. assert (0 < C) by (subst; by apply Z.pow_pos_nonneg). constructor; cbn; try done; try lia.
  - split; [done|by exists k].
  - rewrite length_replicate. lia.
  - constructor.
  - constructor.
  - intros j Hj. by apply elem_of_nil in Hj.
  - intros j t [_ Hj]%arr_get_Some. apply lookup_replicate in Hj as [-> _].
    rewrite !bool_decide_eq_false_2; [done|apply not_elem_of_nil|apply not_elem_of_nil].
Qed.
