(* ===== verification/UniSchedInv.v ===== *)
(** What holds of a graph between two operations of the scheduler of
    [UniSched]: the order of the launches and completions so far, the numbers
    of parents that are left, and which nodes the queues hold. *)
From S2P Require Import Prelude Flagcx Arrays C2cRunner KernelTrigger UniDag UniDagShape UniSched UniSchedPool.

(** ** Nodes *)

(** The index of the event or of the slot, the only member that changes. *)
Definition idx_of (d : nodeData) : Z :=
  match d with P2pNode _ e => e | RedNode _ _ _ _ _ _ _ t => t | CpyNode _ _ _ _ e => e end.
Definition static (d : nodeData) : nodeData :=
  match d with
  | P2pNode ops _ => P2pNode ops 0
  | RedNode in1 in2 out count nthreads dt op _ => RedNode in1 in2 out count nthreads dt op 0
  | CpyNode src dst count dt _ => CpyNode src dst count dt 0
  end.
Definition same_node (n0 n : uniRunnerDagNode) : Prop :=
  static (nd_data n) = static (nd_data n0) /\ nd_numChildren n = nd_numChildren n0 /\ nd_children n = nd_children n0.

Definition idx_at (l : list uniRunnerDagNode) (i : Z) : Z := match arr_get l i with Some n => idx_of (nd_data n) | None => -1 end.

Lemma same_red n0 n : same_node n0 n -> is_red n = is_red n0.
Proof. intros (H & _). unfold is_red. by destruct (nd_data n), (nd_data n0). Qed.

Lemma same_kids n0 n : same_node n0 n -> kids n = kids n0.
Proof. intros (_ & H1 & H2). unfold kids. by rewrite H1, H2. Qed.

(** ** The order of events *)

Section Graph.
Variable G : list uniRunnerDagNode.
Abbreviation N := (Z.of_nat (length G)).

Definition red_at (i : Z) : option bool := n ← arr_get G i; Some (is_red n).

(** Every node is launched at most once, after all its parents are complete,
    and found complete at most once, after its launch. *)
Inductive ordered : list node_event -> Prop :=
| ordered_nil : ordered []
| ordered_launch L i : ordered L -> 0 <= i < N -> Launch i ∉ L ->
    (forall u, u ∈ parents G (Z.to_nat i) -> Complete (Z.of_nat u) ∈ L) -> ordered (L ++ [Launch i])
| ordered_complete L i : ordered L -> Launch i ∈ L -> Complete i ∉ L -> ordered (L ++ [Complete i]).

#[export] Instance node_event_eq_dec : EqDecision node_event.
Proof. solve_decision. Defined.

Definition launches (L : list node_event) : list Z := omap (fun e => match e with Launch i => Some i | Complete _ => None end) L.

Lemma elem_of_launches L i : i ∈ launches L <-> Launch i ∈ L.
Proof.
  unfold launches. rewrite list_elem_of_omap. split.
  - intros ([j|j] & Hj & [= <-]). done.
  - intros H. by exists (Launch i).
Qed.

Lemma ordered_launches L : ordered L -> NoDup (launches L) /\ (forall i, Launch i ∈ L -> 0 <= i < N) /\ (forall i, Complete i ∈ L -> Launch i ∈ L).
Proof.
  induction 1 as [|L i HL (H1 & H2 & H3) Hi Hn Hp|L i HL (H1 & H2 & H3) Hi Hn].
  - split; [constructor|]. split; intros i Hi; by apply elem_of_nil in Hi.
  - unfold launches in *. rewrite omap_app. cbn. split; [|split].
    + apply NoDup_app. split; [done|]. split; [|apply NoDup_singleton]. intros j Hj ->%list_elem_of_singleton.
      by apply Hn, elem_of_launches.
    + intros j [Hj|Hj%list_elem_of_singleton]%elem_of_app; [by apply H2|congruence].
    + intros j [Hj|Hj%list_elem_of_singleton]%elem_of_app; [|done]. apply elem_of_app. left. by apply H3.
  - unfold launches in *. rewrite omap_app. cbn. rewrite app_nil_r. split; [done|]. split.
    + intros j [Hj|Hj%list_elem_of_singleton]%elem_of_app; [by apply H2|done].
    + intros j [Hj|Hj%list_elem_of_singleton]%elem_of_app; apply elem_of_app; left; [by apply H3|by injection Hj as ->].
Qed.

(** One launch is left for a node that was not launched. *)
Lemma launches_room L i : ordered L -> 0 <= i < N -> Launch i ∉ L -> Z.of_nat (length (launches L)) < N.
Proof.
  intros HL Hi Hn. destruct (ordered_launches L HL) as (H1 & H2 & _).
  assert (Hlen : (length (i :: launches L) <= length (seqZ 0 N))%nat).
  { apply submseteq_length, NoDup_submseteq.
    - constructor; [by rewrite elem_of_launches|done].
    - intros j [->|Hj]%elem_of_cons; apply elem_of_seqZ; [lia|]. apply elem_of_launches, H2 in Hj. lia. }
  rewrite length_seqZ in Hlen. cbn in Hlen. lia.
Qed.

(** ** Parents *)

(** The parents of the node that are not complete. *)
Definition open_parents (L : list node_event) (v : nat) : list nat := filter (fun u => Complete (Z.of_nat u) ∉ L) (parents G v).

(** [ns]: the numbers of parents; [todo]: the children that the node completed
    last has yet to release. *)
Record counts_ok (L : list node_event) (ns : list Z) (todo : list Z) : Prop := {
  ct_length : length ns = length G;
  ct_value : forall v x, ns !! v = Some x ->
    x = Z.of_nat (length (open_parents L v)) + (if bool_decide (Z.of_nat v ∈ todo) then 1 else 0)
}.

Lemma counts_launch L i ns todo : counts_ok L ns todo -> counts_ok (L ++ [Launch i]) ns todo.
Proof.
  intros [H1 H2]. constructor; [done|]. intros v x Hx. rewrite (H2 v x Hx). unfold open_parents. do 3 f_equal.
  apply list_filter_iff. intros u. rewrite elem_of_app, list_elem_of_singleton. naive_solver.
Qed.

Lemma filter_remove_one {A} `{EqDecision A} (P : A -> Prop) `{forall x, Decision (P x)} (l : list A) (x : A) :
  NoDup l -> P x -> length (filter P l) = (length (filter (fun y => P y /\ y <> x) l) + if bool_decide (x ∈ l) then 1 else 0)%nat.
Proof.
  intros Hl Hx. induction Hl as [|y l Hy Hl IH]; [done|]. rewrite !filter_cons. destruct (decide (y = x)) as [->|Hne].
  - rewrite decide_True by done. rewrite decide_False by tauto. cbn. rewrite IH, bool_decide_eq_false_2 by done.
    rewrite bool_decide_eq_true_2 by left. lia.
  - rewrite (bool_decide_ext (x ∈ y :: l) (x ∈ l)) by (rewrite elem_of_cons; naive_solver).
    destruct (decide (P y)); [rewrite decide_True by done|rewrite decide_False by tauto]; cbn; rewrite IH; lia.
Qed.

(** A node that ends leaves its children to be released. *)
Lemma counts_complete L i n ns : counts_ok L ns [] -> arr_get G i = Some n ->
  Complete i ∉ L -> counts_ok (L ++ [Complete i]) ns (kids n).
Proof.
  intros [H1 H2] Hi Hc. apply arr_get_Some in Hi as [Hi0 Hi]. constructor; [done|]. intros v x Hx. rewrite (H2 v x Hx).
  rewrite bool_decide_eq_false_2 by apply not_elem_of_nil. unfold open_parents.
  rewrite (filter_remove_one (fun u => Complete (Z.of_nat u) ∉ L) _ (Z.to_nat i)); [|apply NoDup_filter, NoDup_seq|by rewrite Z2Nat.id].
  rewrite (list_filter_iff (fun u => Complete (Z.of_nat u) ∉ L ++ [Complete i]) (fun y => Complete (Z.of_nat y) ∉ L /\ y <> Z.to_nat i)).
  2: { intros u. rewrite elem_of_app, list_elem_of_singleton. split; [|intros [??] [?|[= ?]]; [done|lia]].
       intros H. split; [tauto|]. intros ->. apply H. right. by rewrite Z2Nat.id. }
  rewrite (bool_decide_ext (Z.to_nat i ∈ parents G v) (Z.of_nat v ∈ kids n)); [destruct (bool_decide _); lia|].
  unfold parents, is_child. rewrite list_elem_of_filter, elem_of_seq, Hi, bool_decide_eq_true. apply lookup_lt_Some in Hi. naive_solver lia.
Qed.

(** One child is released. *)
Lemma counts_release L c ns todo x :
  counts_ok L ns (c :: todo) -> c ∉ todo -> 0 <= c -> ns !! Z.to_nat c = Some x -> counts_ok L (<[Z.to_nat c := x - 1]> ns) todo.
Proof.
  intros [H1 H2] Hc Hc0 Hx. constructor; [by rewrite length_insert|]. intros v y Hy. destruct (decide (v = Z.to_nat c)) as [->|Hne].
  - rewrite list_lookup_insert_eq in Hy by (by eapply lookup_lt_Some). injection Hy as <-. rewrite (H2 _ x Hx), Z2Nat.id by done.
    rewrite bool_decide_eq_true_2 by left. rewrite bool_decide_eq_false_2 by done. lia.
  - rewrite list_lookup_insert_ne in Hy by done. rewrite (H2 v y Hy).
    rewrite (bool_decide_ext (Z.of_nat v ∈ c :: todo) (Z.of_nat v ∈ todo)); [done|]. rewrite elem_of_cons. naive_solver lia.
Qed.

(** A node that waits for nobody has only complete parents. *)
Lemma counts_zero L ns v : counts_ok L ns [] -> ns !! v = Some 0 -> forall u, u ∈ parents G v -> Complete (Z.of_nat u) ∈ L.
Proof.
  intros [_ H] Hv u Hu. specialize (H v 0 Hv). rewrite bool_decide_eq_false_2 in H by apply not_elem_of_nil.
  destruct (decide (Complete (Z.of_nat u) ∈ L)); [done|]. exfalso.
  assert (u ∈ open_parents L v) by (apply list_elem_of_filter; done). destruct (open_parents L v); [by eapply elem_of_nil|cbn in H; lia].
Qed.

(** ** Queues *)

Definition blocked (ns : list Z) : list Z := filter (fun x => x <> 0) ns.

(** [Q]: the ready nodes, [F]: those in flight. *)
Record queues_ok (ns : list Z) (L : list node_event) (Q F : list Z) (pending : Z) : Prop := {
  qs_nodup : NoDup (Q ++ F);
  qs_ready : forall i, i ∈ Q -> 0 <= i < N /\ Launch i ∉ L;
  qs_inflight : forall i, i ∈ F <-> Launch i ∈ L /\ Complete i ∉ L;
  qs_zero : forall v x, ns !! v = Some x -> x = 0 <-> Z.of_nat v ∈ Q \/ Launch (Z.of_nat v) ∈ L;
  qs_pending : pending = Z.of_nat (length (blocked ns))
}.

Lemma queues_perm ns L Q Q' F F' k : Q ≡ₚ Q' -> F ≡ₚ F' -> queues_ok ns L Q F k -> queues_ok ns L Q' F' k.
Proof.
  intros HQ HF [H1 H2 H3 H4 H5]. constructor; [by rewrite <- HQ, <- HF|intros i; rewrite <- HQ; apply H2|intros i; rewrite <- HF; apply H3| |done].
  intros v x Hx. rewrite <- HQ. by apply H4.
Qed.

Lemma queues_launch ns L i Q F k : queues_ok ns L (i :: Q) F k -> (forall j, Complete j ∈ L -> Launch j ∈ L) ->
  queues_ok ns (L ++ [Launch i]) Q (i :: F) k.
Proof.
  intros [H1 H2 H3 H4 H5] HL. cbn in H1. apply NoDup_cons in H1 as [Hi H1]. rewrite elem_of_app in Hi.
  destruct (H2 i) as [Hir Hil]; [by left|]. constructor; [|..|done].
  - rewrite <- Permutation_middle. constructor; [by rewrite elem_of_app|done].
  - intros j Hj. destruct (H2 j) as [Hr Hl]; [by right|]. split; [done|]. rewrite elem_of_app, list_elem_of_singleton.
    intros [?|[= ->]]; [done|tauto].
  - intros j. rewrite elem_of_cons, H3, !elem_of_app, !list_elem_of_singleton. specialize (HL j). split.
    + intros [->|[? ?]]; [split; [by right|intros [?|?]; [by apply Hil, HL|done]]|split; [by left|intros [?|?]; done]].
    + intros [[?|[= ->]] Hc]; [right|by left]. split; [done|]. tauto.
  - intros v x Hx. rewrite (H4 v x Hx), elem_of_cons, elem_of_app, list_elem_of_singleton. naive_solver.
Qed.

Lemma queues_complete ns L i Q F k : queues_ok ns L Q (i :: F) k -> queues_ok ns (L ++ [Complete i]) Q F k.
Proof.
  intros [H1 H2 H3 H4 H5]. rewrite <- Permutation_middle in H1. apply NoDup_cons in H1 as [Hi H1]. rewrite elem_of_app in Hi.
  constructor; [done|..|done].
  - intros j Hj. destruct (H2 j Hj) as [Hr Hl]. split; [done|]. rewrite elem_of_app, list_elem_of_singleton. intros [?|?]; done.
  - intros j. rewrite !elem_of_app, !list_elem_of_singleton. specialize (H3 j). rewrite elem_of_cons in H3. split.
    + intros Hj. split; [left; tauto|]. intros [?|[= ->]]; tauto.
    + intros [[?|?] Hc]; [|done]. destruct (decide (j = i)) as [->|]; [exfalso; apply Hc; by right|]. naive_solver.
  - intros v x Hx. rewrite (H4 v x Hx), elem_of_app, list_elem_of_singleton. naive_solver.
Qed.

(** One parent less for [c]. *)
Lemma queues_release ns L Q F k c x : queues_ok ns L Q F k -> length ns = length G -> 0 <= c -> ns !! Z.to_nat c = Some x -> 0 < x ->
  queues_ok (<[Z.to_nat c := x - 1]> ns) L (if x - 1 =? 0 then c :: Q else Q) F (if x - 1 =? 0 then k - 1 else k).
Proof.
  intros [H1 H2 H3 H4 H5] Hlen0 Hc Hx Hpos. pose proof (H4 _ x Hx) as Hz. rewrite Z2Nat.id in Hz by done.
  pose proof (lookup_lt_Some _ _ _ Hx) as Hlt.
  assert (Hcr : c ∉ Q /\ Launch c ∉ L) by (split; intros ?; (assert (x = 0) by tauto); lia). destruct Hcr as [Hcq Hcl].
  pose proof (length_filter_insert (fun y => y <> 0) ns (Z.to_nat c) x (x - 1) Hx) as Hlen. rewrite (bool_decide_eq_true_2 (x <> 0)) in Hlen by lia.
  assert (Hf : c ∉ F) by (rewrite H3; tauto).
  assert (Hz' : forall v y, <[Z.to_nat c := x - 1]> ns !! v = Some y ->
    y = 0 <-> Z.of_nat v ∈ (if x - 1 =? 0 then c :: Q else Q) \/ Launch (Z.of_nat v) ∈ L).
  { intros v y Hy. destruct (decide (v = Z.to_nat c)) as [->|Hne].
    - rewrite list_lookup_insert_eq in Hy by done. injection Hy as <-. rewrite Z2Nat.id by done.
      destruct (Z.eqb_spec (x - 1) 0); [rewrite elem_of_cons|]; tauto.
    - rewrite list_lookup_insert_ne in Hy by done. rewrite (H4 v y Hy). destruct (x - 1 =? 0); [|done]. rewrite elem_of_cons. naive_solver lia. }
  unfold blocked in *. destruct (Z.eqb_spec (x - 1) 0).
  - rewrite bool_decide_eq_false_2 in Hlen by lia. cbn [Nat.b2n] in Hlen. constructor; [..|done|unfold blocked; lia].
    + cbn. constructor; [rewrite elem_of_app; tauto|done].
    + intros j [->|Hj]%elem_of_cons; [|by apply H2]. split; [lia|done].
    + done.
  - rewrite bool_decide_eq_true_2 in Hlen by lia. cbn [Nat.b2n] in Hlen. constructor; try done. unfold blocked. lia.
Qed.

(** With empty queues and no child to release, every node is complete. *)
Lemma queues_idle ns L k : dag_ok G -> counts_ok L ns [] -> queues_ok ns L [] [] k -> k = 0 /\ forall i, 0 <= i < N -> Complete i ∈ L.
Proof.
  intros HG Hct [_ _ H3 H4 H5].
  assert (HLC : forall i, Launch i ∈ L -> Complete i ∈ L).
  { intros i Hi. destruct (decide (Complete i ∈ L)); [done|]. exfalso. apply (not_elem_of_nil (A := Z) i), H3. done. }
  destruct (dk_acyclic _ HG) as (depth & Hdepth).
  assert (Hlow : exists lo, forall v, (v < length G)%nat -> lo <= depth v).
  { clear. induction (length G) as [|m [lo IH]]; [exists 0; intros; lia|]. exists (Z.min lo (depth m)). intros v Hv.
    destruct (decide (v = m)) as [->|]; [lia|]. specialize (IH v). lia. }
  destruct Hlow as (lo & Hlow).
  assert (Hall : forall m v, (v < length G)%nat -> depth v < lo + Z.of_nat m -> Complete (Z.of_nat v) ∈ L).
  { induction m as [|m IH]; intros v Hv Hm; [specialize (Hlow v Hv); lia|]. apply HLC.
    destruct (lookup_lt_is_Some_2 ns v) as [x Hx]; [by rewrite (ct_length _ _ _ Hct)|].
    assert (Hx0 : x = 0).
    { rewrite (ct_value _ _ _ Hct v x Hx), bool_decide_eq_false_2 by apply not_elem_of_nil.
      destruct (open_parents L v) as [|u us] eqn:E; [done|]. exfalso. assert (Hu : u ∈ open_parents L v) by (rewrite E; left).
      apply list_elem_of_filter in Hu as [Hu Hp]. apply Hu. unfold parents, is_child in Hp.
      apply list_elem_of_filter in Hp as [Hc Hur%elem_of_seq]. destruct (G !! u) as [n|] eqn:Hn; [|done].
      apply bool_decide_eq_true in Hc. specialize (Hdepth u n _ Hn Hc). rewrite Nat2Z.id in Hdepth. apply IH; lia. }
    destruct (proj1 (H4 v x Hx) Hx0) as [Hq|?]; [by apply elem_of_nil in Hq|done]. }
  assert (HC : forall i, 0 <= i < N -> Complete i ∈ L).
  { intros i Hi. rewrite <- (Z2Nat.id i) by lia. apply (Hall (Z.to_nat (depth (Z.to_nat i) - lo + 1))); [lia|]. specialize (Hlow (Z.to_nat i)). lia. }
  split; [|done]. rewrite H5. destruct (blocked ns) as [|x xs] eqn:E; [done|]. exfalso.
  assert (Hx : x ∈ blocked ns) by (rewrite E; left). apply list_elem_of_filter in Hx as [Hx [v Hv]%list_elem_of_lookup].
  apply Hx. rewrite (ct_value _ _ _ Hct v x Hv), bool_decide_eq_false_2 by apply not_elem_of_nil.
  destruct (open_parents L v) as [|u us] eqn:E'; [done|]. exfalso. assert (Hu : u ∈ open_parents L v) by (rewrite E'; left).
  apply list_elem_of_filter in Hu as [Hu Hp]. apply Hu, HC. apply list_elem_of_filter in Hp as [_ Hp%elem_of_seq]. lia.
Qed.

(** The graph before the first launch. *)
Lemma counts_init : dag_ok G -> counts_ok [] (nd_numParents <$> G) [].
Proof.
  intros HG. constructor; [by rewrite length_fmap|]. intros v x. rewrite list_lookup_fmap. destruct (G !! v) as [n|] eqn:Hn; cbn; [|done].
  intros [= <-]. rewrite (dk_parents _ HG v n Hn), bool_decide_eq_false_2 by apply not_elem_of_nil. rewrite Z.add_0_r. unfold open_parents.
  rewrite filter_all; [done|]. apply Forall_forall. intros u _. apply not_elem_of_nil.
Qed.

End Graph.
