(* ===== verification/UniSchedStep.v ===== *)
(** The steps of the scheduler of [UniSched] keep its invariant: launching a
    transfer, a copy or a reduction, completing a node, releasing a child. *)
From S2P Require Import Prelude Flagcx Arrays C2cRunner KernelTrigger UniDag UniDagBuild UniDagShape UniSched UniSchedPool UniSchedInv.

(** ** Programs that are defined *)

Definition runs {A} (p : uni_prog A) (w : world) (Q : world -> A -> Prop) : Prop := exists w' x, p w = Some (w', x) /\ Q w' x.

Section Runs.
Context {A B : Type}.

Lemma runs_ret (x : A) w (Q : world -> A -> Prop) : Q w x -> runs (ret x) w Q.
Proof. intros H. by exists w, x. Qed.

Lemma runs_bind (p : uni_prog A) (k : A -> uni_prog B) w Q : runs p w (fun w' x => runs (k x) w' Q) -> runs (bind p k) w Q.
Proof. intros (w' & x & Hp & w2 & y & Hk & HQ). exists w2, y. unfold bind. by rewrite Hp. Qed.

Lemma runs_get (f : world -> option A) w x (Q : world -> A -> Prop) : f w = Some x -> Q w x -> runs (get f) w Q.
Proof. intros Hf HQ. exists w, x. unfold get. by rewrite Hf. Qed.

Lemma runs_modify f w w' (Q : world -> unit -> Prop) : f w = Some w' -> Q w' tt -> runs (modify f) w Q.
Proof. intros Hf HQ. exists w', tt. unfold modify. by rewrite Hf. Qed.

Lemma runs_mono (p : uni_prog A) w (Q Q' : world -> A -> Prop) : runs p w Q -> (forall w' x, Q w' x -> Q' w' x) -> runs p w Q'.
Proof. intros (w' & x & Hp & HQ) H. exists w', x. split; [done|by apply H]. Qed.
End Runs.

Lemma runs_check p k w Q : runs p w (fun w' r => if flagcx_failed r then Q w' r else runs k w' Q) -> runs (uni_check p k) w Q.
Proof.
  intros H. unfold uni_check. apply runs_bind. eapply runs_mono; [exact H|]. intros w' r Hr. cbn in Hr.
  destruct (flagcx_failed r); [by apply runs_ret|done].
Qed.

(** ** Lists of nodes *)

Section Nodes.
Variables (l : list uniRunnerDagNode) (i : Z) (n : uniRunnerDagNode) (d : nodeData).
Hypothesis Hi : arr_get l i = Some n.

Lemma node_lookup : l !! Z.to_nat i = Some n.
Proof. by apply arr_get_Some in Hi as [_ ?]. Qed.

Lemma node_range : 0 <= i < Z.of_nat (length l).
Proof. apply arr_get_Some in Hi as [? H]. apply lookup_lt_Some in H. lia. Qed.

Lemma same_upd G : Forall2 same_node G l -> static d = static (nd_data n) -> Forall2 same_node G (<[Z.to_nat i := set_data d n]> l).
Proof.
  intros H Hs. pose proof node_lookup as Hl. destruct (Forall2_lookup_r _ _ _ _ _ H Hl) as (n0 & Hn0 & H1 & H2 & H3).
  rewrite <- (list_insert_id G (Z.to_nat i) n0 Hn0). apply Forall2_insert; [done|]. split; [|done]. cbn. congruence.
Qed.

Lemma parents_upd : nd_numParents <$> <[Z.to_nat i := set_data d n]> l = nd_numParents <$> l.
Proof. rewrite list_fmap_insert. apply list_insert_id. rewrite list_lookup_fmap, node_lookup. done. Qed.

Lemma idx_upd : idx_at (<[Z.to_nat i := set_data d n]> l) i = idx_of d.
Proof.
  unfold idx_at, arr_get. pose proof node_range. rewrite (proj2 (Z.leb_le 0 i)) by lia. by rewrite list_lookup_insert_eq by lia.
Qed.

Lemma idx_upd_ne n' j : j <> i -> idx_at (<[Z.to_nat i := n']> l) j = idx_at l j.
Proof.
  intros Hne. unfold idx_at, arr_get. pose proof node_range. destruct (Z.leb_spec 0 j); [|done]. by rewrite list_lookup_insert_ne by lia.
Qed.

Lemma idxs_upd n' (Q : list Z) : i ∉ Q -> idx_at (<[Z.to_nat i := n']> l) <$> Q = idx_at l <$> Q.
Proof. intros Hn. apply list_fmap_ext. intros k j Hj. apply idx_upd_ne. intros ->. by apply Hn; eapply list_elem_of_lookup_2. Qed.

Lemma idxs_same n' (Q : list Z) : idx_of (nd_data n') = idx_of (nd_data n) -> idx_at (<[Z.to_nat i := n']> l) <$> Q = idx_at l <$> Q.
Proof.
  intros Hn. apply list_fmap_ext. intros k j Hj. destruct (decide (j = i)) as [->|]; [|by apply idx_upd_ne].
  unfold idx_at. rewrite Hi. unfold arr_get. pose proof node_range. rewrite (proj2 (Z.leb_le 0 i)) by lia. by rewrite list_lookup_insert_eq by lia.
Qed.
End Nodes.

(** ** The invariant *)

(** [E]: the events in use. *)
Record events_ok (size : Z) (m : uniRunnerP2pEventBitmap) (events : option (list Z)) (E : list Z) : Prop := {
  ev_pool : pool_ok m;
  ev_size : bm_size m = size;
  ev_events : exists l, events = Some l /\ Z.of_nat (length l) = size;
  ev_nodup : NoDup E;
  ev_range : forall k, k ∈ E -> 0 <= k < size;
  ev_use : forall k, 0 <= k < size -> in_use m k = bool_decide (k ∈ E)
}.

Lemma events_perm size m ev E E' : E ≡ₚ E' -> events_ok size m ev E -> events_ok size m ev E'.
Proof.
  intros HE [H1 H2 H3 H4 H5 H6]. constructor; try done; [by rewrite <- HE|intros k; rewrite <- HE; apply H5|].
  intros k Hk. rewrite (H6 k Hk). apply bool_decide_ext. by rewrite HE.
Qed.

#[export] Instance events_ok_proper size m ev : Proper (Permutation ==> iff) (events_ok size m ev).
Proof. intros E E' HE. split; by apply events_perm. Qed.

Lemma events_at size m ev E k : events_ok size m ev E -> k ∈ E -> exists e, (l ← ev; arr_get l k) = Some e.
Proof.
  intros [_ _ (l & -> & Hl) _ Hr _] Hk. cbn. destruct (arr_get_is_Some l k) as (e & He & _); [rewrite Hl; by apply Hr|by exists e].
Qed.

Lemma events_get size m ev E : events_ok size m ev E -> exists idx m', getEvent m = Some (idx, m') /\
  (idx = -1 /\ events_ok size m' ev E /\ (0 < size -> E <> []) \/ idx <> -1 /\ events_ok size m' ev (idx :: E)).
Proof.
  intros [H1 H2 H3 H4 H5 H6]. destruct (getEvent_spec m H1) as (idx & m' & Hg & Hp & Hs & H). exists idx, m'. split; [done|].
  destruct H as [(-> & Hu & Hn)|(Hr & Hf & Hu)].
  - left. split; [done|]. split; [constructor; try done; [congruence|intros k Hk; by rewrite Hu, H6]|].
    intros Hpos ->. pose proof (po_next m H1 ltac:(lia)) as Hnx. rewrite H6 in Hn by lia. specialize (Hn ltac:(lia)).
    apply bool_decide_eq_true in Hn. by apply elem_of_nil in Hn.
  - right. split; [lia|]. rewrite H2 in Hr. rewrite H6 in Hf by done. apply bool_decide_eq_false in Hf. constructor; try done; [congruence|by constructor|..].
    + intros k [->|Hk]%elem_of_cons; [done|by apply H5].
    + intros k Hk. rewrite Hu by lia. rewrite H6 by done. destruct (Z.eqb_spec k idx) as [->|].
      * symmetry. apply bool_decide_eq_true_2. left.
      * apply bool_decide_ext. rewrite elem_of_cons. naive_solver.
Qed.

Lemma events_reset size m ev k E : events_ok size m ev (k :: E) -> exists m', markAvailable m k = Some m' /\ events_ok size m' ev E.
Proof.
  intros [H1 H2 H3 H4 H5 H6]. destruct (markAvailable_spec m k H1) as (m' & Hm & Hp & Hs & Hu); [rewrite H2; apply H5; left|].
  apply NoDup_cons in H4 as [Hn H4]. exists m'. split; [done|]. constructor; try done; [congruence|intros j Hj; apply H5; by right|].
  intros j Hj. rewrite Hu by lia. rewrite H6 by done. destruct (Z.eqb_spec j k) as [->|].
  - symmetry. by apply bool_decide_eq_false_2.
  - apply bool_decide_ext. rewrite elem_of_cons. naive_solver.
Qed.

Section Sched.
Variable G : list uniRunnerDagNode.
Variables C size : Z.
Abbreviation N := (Z.of_nat (length G)).

(** The array of nodes, and all the blocks of the graph, are held. *)
Definition held (w : world) : Prop :=
  dg_live (w_dag w) = 1 + blocks G /\ dg_numDagNodes (w_dag w) = N /\ exists l, dg_nodes (w_dag w) = Some l /\ Forall2 same_node G l.
Definition same_held (w w' : world) : Prop := dg_live (w_dag w') = dg_live (w_dag w) /\ dg_numDagNodes (w_dag w') = dg_numDagNodes (w_dag w).

(** [X]: an event that is taken but not yet used; [todo]: the children of the
    node that ended last, yet to be released; [P] and [R]: the nodes in flight,
    less the one that has ended. *)
Record inv (X todo P R : list Z) (l : list uniRunnerDagNode) (w : world) : Prop := {
  iv_nodes : dg_nodes (w_dag w) = Some l;
  iv_static : Forall2 same_node G l;
  iv_held : dg_live (w_dag w) = 1 + blocks G /\ dg_numDagNodes (w_dag w) = N;
  iv_log : ordered G (w_log w);
  iv_counts : counts_ok G (w_log w) (nd_numParents <$> l) todo;
  iv_p2p : forall i, i ∈ dg_p2pReady (w_dag w) ++ P -> red_at G i = Some false;
  iv_red : forall i, i ∈ dg_redReady (w_dag w) ++ R -> red_at G i = Some true;
  iv_queues : queues_ok G (nd_numParents <$> l) (w_log w) (dg_p2pReady (w_dag w) ++ dg_redReady (w_dag w)) (P ++ R) (dg_numPendingNodes (w_dag w));
  iv_events : events_ok size (w_map w) (w_events w) (X ++ (idx_at l <$> P));
  iv_fifo : exists f, w_fifo w = Some f /\ fifo_ok C (idx_at l <$> R) f /\ rf_produced f <= Z.of_nat (length (launches (w_log w)))
}.

Lemma inv_trace X todo P R l w t : inv X todo P R l w -> inv X todo P R l (set_trace t w).
Proof. intros []. by constructor. Qed.

Lemma inv_inflight X todo P R l w p r : inv X todo P R l w -> inv X todo P R l (set_dag (set_inflight p r (w_dag w)) w).
Proof. intros []. by constructor. Qed.

Lemma red_node_at X todo P R l w i b : inv X todo P R l w -> red_at G i = Some b -> exists n0 n, arr_get G i = Some n0 /\ arr_get l i = Some n /\ same_node n0 n /\ is_red n = b.
Proof.
  intros I Hr. unfold red_at in Hr. destruct (arr_get G i) as [n0|] eqn:Hn0; [|done]. injection Hr as <-.
  apply arr_get_Some in Hn0 as [Hi0 Hn0]. destruct (Forall2_lookup_l _ _ _ _ _ (iv_static _ _ _ _ _ _ I) Hn0) as (n & Hn & Hs).
  exists n0, n. split; [done|]. split; [by apply arr_get_Some|]. split; [done|by apply same_red].
Qed.

Lemma inv_held X todo P R l w : inv X todo P R l w -> held w.
Proof. intros [I1 I2 [I3 I4] _ _ _ _ _ _ _]. split; [done|]. split; [done|]. by exists l. Qed.

Lemma inv_length X todo P R l w : inv X todo P R l w -> length l = length G.
Proof. intros I. symmetry. eapply Forall2_length, iv_static, I. Qed.

(** What the launch of a ready node does to the log. *)
Lemma launch_log X P R l w i n d :
  inv X [] P R l w -> i ∈ dg_p2pReady (w_dag w) ++ dg_redReady (w_dag w) -> arr_get l i = Some n -> static d = static (nd_data n) ->
  let l' := <[Z.to_nat i := set_data d n]> l in
  Forall2 same_node G l' /\ ordered G (w_log w ++ [Launch i]) /\ counts_ok G (w_log w ++ [Launch i]) (nd_numParents <$> l') [] /\
  idx_at l' <$> P = idx_at l <$> P /\ idx_at l' <$> R = idx_at l <$> R /\
  length (launches (w_log w ++ [Launch i])) = S (length (launches (w_log w))) /\
  forall Q, i :: Q ≡ₚ dg_p2pReady (w_dag w) ++ dg_redReady (w_dag w) ->
    queues_ok G (nd_numParents <$> l') (w_log w ++ [Launch i]) Q (i :: P ++ R) (dg_numPendingNodes (w_dag w)).
Proof.
  intros [I1 I2 _ I3 I4 _ _ I7 _ _] Hq Hi Hs. cbn.
  pose proof (node_range l i n Hi) as Hir. pose proof (Forall2_length _ _ _ I2) as Hlen. destruct (qs_ready _ _ _ _ _ _ I7 i Hq) as [_ Hil].
  assert (Hnf : i ∉ P ++ R) by (intros H%(qs_inflight _ _ _ _ _ _ I7); tauto). rewrite elem_of_app in Hnf.
  assert (Hx : (nd_numParents <$> l) !! Z.to_nat i = Some (nd_numParents n)) by (by rewrite list_lookup_fmap, (node_lookup l i n Hi)).
  assert (H0 : nd_numParents n = 0) by (apply (qs_zero _ _ _ _ _ _ I7 _ _ Hx); left; by rewrite Z2Nat.id by lia). rewrite H0 in Hx.
  rewrite parents_upd by done. split; [by apply same_upd|]. split; [|split; [by apply counts_launch|]].
  { apply ordered_launch; [done|lia|done|]. eapply (counts_zero G); done. }
  split; [apply (idxs_upd l i n Hi); tauto|]. split; [apply (idxs_upd l i n Hi); tauto|]. split.
  { unfold launches. rewrite omap_app, length_app. cbn. lia. }
  intros Q HQ. apply queues_launch; [|apply (ordered_launches G _ I3)]. eapply queues_perm; [symmetry; exact HQ|done|exact I7].
Qed.

(** A node is launched: it goes from a queue of ready nodes to the nodes in
    flight, with the event or the slot it was given. *)
Lemma inv_launch_p2p e P R l w w' i q n d :
  inv [e] [] P R l w -> dg_p2pReady (w_dag w) = i :: q -> arr_get l i = Some n -> static d = static (nd_data n) -> idx_of d = e -> same_held w w' ->
  dg_nodes (w_dag w') = Some (<[Z.to_nat i := set_data d n]> l) -> dg_p2pReady (w_dag w') = q ->
  dg_redReady (w_dag w') = dg_redReady (w_dag w) -> dg_numPendingNodes (w_dag w') = dg_numPendingNodes (w_dag w) ->
  w_log w' = w_log w ++ [Launch i] -> w_map w' = w_map w -> w_events w' = w_events w -> w_fifo w' = w_fifo w ->
  inv [] [] (P ++ [i]) R (<[Z.to_nat i := set_data d n]> l) w'.
Proof.
  intros I Hq Hi Hs He [E01 E02] E1 E2 E3 E4 E5 E6 E7 E8.
  destruct (launch_log _ _ _ _ _ i n d I ltac:(rewrite Hq; left) Hi Hs) as (H1 & H2 & H3 & H4 & H5 & H6 & H7).
  destruct I as [_ _ I0 _ _ I5 I6 _ I8 (f & If & Ifo & Ipr)]. constructor; rewrite ?E01, ?E02, ?E2, ?E3, ?E4, ?E5, ?E6, ?E7, ?E8; try done.
  - intros j Hj. apply I5. rewrite Hq. set_solver.
  - eapply queues_perm; [done| |apply (H7 (q ++ dg_redReady (w_dag w))); by rewrite Hq].
    by rewrite <- (assoc_L (++)), (Permutation_middle P R i).
  - rewrite fmap_app, H4. cbn. rewrite (idx_upd l i n d Hi), He. eapply events_perm; [|exact I8]. cbn. by rewrite (Permutation_app_comm _ [_]).
  - exists f. rewrite H5, H6. split; [done|]. split; [done|lia].
Qed.

Lemma inv_launch_red P R l w w' i q n d f f' :
  inv [] [] P R l w -> dg_redReady (w_dag w) = i :: q -> arr_get l i = Some n -> static d = static (nd_data n) ->
  w_fifo w = Some f -> fifo_ok C (idx_of d :: (idx_at l <$> R)) f' -> rf_produced f' = rf_produced f + 1 -> same_held w w' ->
  dg_nodes (w_dag w') = Some (<[Z.to_nat i := set_data d n]> l) -> dg_p2pReady (w_dag w') = dg_p2pReady (w_dag w) ->
  dg_redReady (w_dag w') = q -> dg_numPendingNodes (w_dag w') = dg_numPendingNodes (w_dag w) ->
  w_log w' = w_log w ++ [Launch i] -> w_map w' = w_map w -> w_events w' = w_events w -> w_fifo w' = Some f' ->
  inv [] [] P (R ++ [i]) (<[Z.to_nat i := set_data d n]> l) w'.
Proof.
  intros I Hq Hi Hs Hf Hfo Hpr [E01 E02] E1 E2 E3 E4 E5 E6 E7 E8.
  destruct (launch_log _ _ _ _ _ i n d I ltac:(rewrite Hq; apply elem_of_app; right; left) Hi Hs) as (H1 & H2 & H3 & H4 & H5 & H6 & H7).
  destruct I as [_ _ I0 _ _ I5 I6 _ I8 (f0 & If & Ifo & Ipr)]. constructor; rewrite ?E01, ?E02, ?E2, ?E3, ?E4, ?E5, ?E6, ?E7, ?E8, ?H4; try done.
  - intros j Hj. apply I6. rewrite Hq. set_solver.
  - eapply queues_perm; [done| |apply (H7 (dg_p2pReady (w_dag w) ++ q)); rewrite Hq; by apply Permutation_middle].
    rewrite (assoc_L (++)). by rewrite (Permutation_app_comm _ [i]).
  - exists f'. rewrite H6, fmap_app, H5. cbn. rewrite (idx_upd l i n d Hi). split; [done|]. split.
    + eapply fifo_perm; [|exact Hfo]. by rewrite (Permutation_app_comm _ [_]).
    + assert (f0 = f) by congruence. subst f0. lia.
Qed.

(** What the end of a node in flight does to the log. *)
Lemma complete_log P R l w i n Q : inv [] [] P R l w -> P ++ R ≡ₚ i :: Q -> arr_get l i = Some n ->
  ordered G (w_log w ++ [Complete i]) /\ counts_ok G (w_log w ++ [Complete i]) (nd_numParents <$> l) (kids n) /\
  launches (w_log w ++ [Complete i]) = launches (w_log w) /\ i ∉ Q /\
  queues_ok G (nd_numParents <$> l) (w_log w ++ [Complete i]) (dg_p2pReady (w_dag w) ++ dg_redReady (w_dag w)) Q (dg_numPendingNodes (w_dag w)).
Proof.
  intros [_ I2 _ I3 I4 _ _ I7 _ _] HQ Hi. eapply queues_perm in I7; [|done|exact HQ].
  assert (Hl : Launch i ∈ w_log w /\ Complete i ∉ w_log w) by (apply (qs_inflight _ _ _ _ _ _ I7); left). destruct Hl as [Hl Hc].
  split; [by apply ordered_complete|]. split.
  - apply arr_get_Some in Hi as [Hi0 Hi]. destruct (Forall2_lookup_r _ _ _ _ _ I2 Hi) as (n0 & Hn0 & Hs).
    rewrite (same_kids n0 n Hs). apply counts_complete; [done| |done]. by apply arr_get_Some.
  - split; [unfold launches; rewrite omap_app; apply app_nil_r|]. split; [|by apply queues_complete].
    pose proof (qs_nodup _ _ _ _ _ _ I7) as Hnd. apply NoDup_app in Hnd as (_ & _ & Hnd). by apply NoDup_cons in Hnd as [? _].
Qed.

Lemma inv_complete_p2p kept rest R l w w' i n d m :
  inv [] [] (kept ++ i :: rest) R l w -> arr_get l i = Some n -> static d = static (nd_data n) ->
  markAvailable (w_map w) (idx_of (nd_data n)) = Some m -> same_held w w' ->
  dg_nodes (w_dag w') = Some (<[Z.to_nat i := set_data d n]> l) -> dg_p2pReady (w_dag w') = dg_p2pReady (w_dag w) ->
  dg_redReady (w_dag w') = dg_redReady (w_dag w) -> dg_numPendingNodes (w_dag w') = dg_numPendingNodes (w_dag w) ->
  w_log w' = w_log w ++ [Complete i] -> w_map w' = m -> w_events w' = w_events w -> w_fifo w' = w_fifo w ->
  inv [] (kids n) (kept ++ rest) R (<[Z.to_nat i := set_data d n]> l) w'.
Proof.
  intros I Hi Hs Hm [E01 E02] E1 E2 E3 E4 E5 E6 E7 E8.
  destruct (complete_log _ _ _ _ i n ((kept ++ rest) ++ R) I) as (H1 & H2 & H3 & H4 & H5); [|done|].
  { rewrite <- !(assoc_L (++)). symmetry. apply Permutation_middle. }
  destruct I as [_ I2 I0 _ _ I5 I6 _ I8 (f & If & Ifo & Ipr)]. rewrite !elem_of_app in H4.
  constructor; rewrite ?E01, ?E02, ?E2, ?E3, ?E4, ?E5, ?E6, ?E7, ?E8, ?H3, ?parents_upd by done; try done.
  - by apply same_upd.
  - intros j Hj. apply I5. set_solver.
  - rewrite (idxs_upd l i n Hi) by (rewrite elem_of_app; tauto).
    destruct (events_reset size (w_map w) (w_events w) (idx_of (nd_data n)) (idx_at l <$> kept ++ rest)) as (m' & Hm' & Hev); [|by simplify_eq].
    eapply events_perm; [|exact I8]. cbn. rewrite !fmap_app. cbn. unfold idx_at at 2. rewrite Hi. by rewrite <- Permutation_middle.
  - exists f. rewrite (idxs_upd l i n Hi) by tauto. done.
Qed.

Lemma inv_complete_red P kept rest l w w' i n f f' :
  inv [] [] P (kept ++ i :: rest) l w -> arr_get l i = Some n -> w_fifo w = Some f -> fifo_ok C (idx_at l <$> kept ++ rest) f' ->
  rf_produced f' = rf_produced f -> w_dag w' = w_dag w ->
  w_log w' = w_log w ++ [Complete i] -> w_map w' = w_map w -> w_events w' = w_events w -> w_fifo w' = Some f' ->
  inv [] (kids n) P (kept ++ rest) l w'.
Proof.
  intros I Hi Hf Hfo Hpr E1 E5 E6 E7 E8.
  destruct (complete_log _ _ _ _ i n (P ++ kept ++ rest) I) as (H1 & H2 & H3 & H4 & H5); [|done|].
  { rewrite !(assoc_L (++)). symmetry. apply Permutation_middle. }
  destruct I as [I1 I2 I0 _ _ I5 I6 _ I8 (f0 & If & Ifo & Ipr)].
  constructor; rewrite ?E1, ?E5, ?E6, ?E7, ?E8, ?H3; try done.
  - intros j Hj. apply I6. set_solver.
  - exists f'. split; [done|]. split; [done|]. assert (f0 = f) by congruence. subst f0. lia.
Qed.

(** A child has one parent less, and is ready when that was the last. *)
Lemma inv_release c todo P R l w w' n :
  inv [] (c :: todo) P R l w -> c ∉ todo -> arr_get l c = Some n ->
  let n' := set_numParents (nd_numParents n - 1) n in
  let last := nd_numParents n - 1 =? 0 in
  same_held w w' ->
  dg_nodes (w_dag w') = Some (<[Z.to_nat c := n']> l) ->
  dg_p2pReady (w_dag w') = (if last && negb (is_red n) then dg_p2pReady (w_dag w) ++ [c] else dg_p2pReady (w_dag w)) ->
  dg_redReady (w_dag w') = (if last && is_red n then dg_redReady (w_dag w) ++ [c] else dg_redReady (w_dag w)) ->
  dg_numPendingNodes (w_dag w') = (if last then dg_numPendingNodes (w_dag w) - 1 else dg_numPendingNodes (w_dag w)) ->
  w_log w' = w_log w -> w_map w' = w_map w -> w_events w' = w_events w -> w_fifo w' = w_fifo w ->
  inv [] todo P R (<[Z.to_nat c := n']> l) w'.
Proof.
  intros I Hc Hi n' last [E01 E02] E1 E2 E3 E4 E5 E6 E7 E8. pose proof (inv_length _ _ _ _ _ _ I) as Hlen.
  destruct I as [I1 I2 I0 I3 I4 I5 I6 I7 I8 (f & If & Ifo & Ipr)]. pose proof (node_range l c n Hi) as Hcr.
  assert (Hx : (nd_numParents <$> l) !! Z.to_nat c = Some (nd_numParents n)) by (by rewrite list_lookup_fmap, (node_lookup l c n Hi)).
  assert (Hpos : 0 < nd_numParents n).
  { rewrite (ct_value _ _ _ _ I4 _ _ Hx), Z2Nat.id, bool_decide_eq_true_2 by (lia || left). lia. }
  assert (Hns : nd_numParents <$> <[Z.to_nat c := n']> l = <[Z.to_nat c := nd_numParents n - 1]> (nd_numParents <$> l)) by (by rewrite list_fmap_insert).
  destruct (Forall2_lookup_r _ _ _ _ _ I2 (node_lookup l c n Hi)) as (n0 & Hn0 & Hsame).
  assert (Hred : red_at G c = Some (is_red n)).
  { unfold red_at, arr_get. rewrite (proj2 (Z.leb_le 0 c)) by lia. rewrite Hn0. cbn. by rewrite (same_red n0 n Hsame). }
  assert (Hq := queues_release G _ _ _ _ _ c _ I7 ltac:(rewrite length_fmap; lia) ltac:(lia) Hx Hpos).
  constructor; rewrite ?E01, ?E02, ?E4, ?E5, ?E6, ?E7, ?E8, ?Hns; try done.
  - rewrite <- (list_insert_id G _ n0 Hn0). by apply Forall2_insert.
  - apply counts_release; [done|done|lia|done].
  - rewrite E2. intros j Hj. destruct (last && negb (is_red n)) eqn:E; [|by apply I5]. apply andb_true_iff in E as [_ E%negb_true_iff].
    destruct (decide (j = c)) as [->|]; [by rewrite Hred, E|]. apply I5. set_solver.
  - rewrite E3. intros j Hj. destruct (last && is_red n) eqn:E; [|by apply I6]. apply andb_true_iff in E as [_ E].
    destruct (decide (j = c)) as [->|]; [by rewrite Hred, E|]. apply I6. set_solver.
  - eapply queues_perm; [|done|exact Hq]. rewrite E2, E3. subst last. destruct (nd_numParents n - 1 =? 0), (is_red n); cbn; try done.
    + rewrite (assoc_L (++)). by rewrite (Permutation_app_comm _ [c]).
    + rewrite <- (assoc_L (++)). cbn. by rewrite <- Permutation_middle.
  - rewrite (idxs_same l c n Hi) by done. done.
  - exists f. rewrite (idxs_same l c n Hi) by done. done.
Qed.
End Sched.
