(* ===== verification/UniSchedRun.v ===== *)
(** The programs of the scheduler of [UniSched] over the invariant of
    [UniSchedStep]: the two queues of ready nodes, the two queues of nodes in
    flight, and a round of the loop. *)
From S2P Require Import Prelude Flagcx Arrays C2cRunner KernelTrigger UniDag UniDagBuild UniDagShape UniSched UniSchedPool UniSchedInv UniSchedStep.

(** Nodes that can be launched: the operations of a transfer are there. *)
Definition runnable (n : uniRunnerDagNode) : Prop := match nd_data n with P2pNode None _ => False | _ => True end.

(** What the environment keeps to: recording an event, starting a copy and
    allocating on the host either succeed or fail, and only the kernel moves the
    FIFO. *)
Record lawful (ans : list uni_event -> uni_call -> flagcxResult_t * Z) (dev : list uni_event -> reduceFifo -> reduceFifo) : Prop := {
  lw_record : forall t e s, (ans t (UEventRecord e s)).1 <> flagcxInProgress;
  lw_copy : forall t dst src size s, (ans t (UMemcpy dst src size s)).1 <> flagcxInProgress;
  lw_host : forall t size, (ans t (UHostMalloc size)).1 <> flagcxInProgress;
  lw_kernel : forall t f, reach kernel_step f (dev t f)
}.

(** An environment that does not keep the host waiting. *)
Record prompt (C : Z) (ans : list uni_event -> uni_call -> flagcxResult_t * Z) (dev : list uni_event -> reduceFifo -> reduceFifo) : Prop := {
  pr_query : forall t e, (ans t (UEventQuery e)).1 <> flagcxInProgress;
  pr_kernel : forall t f T, fifo_ok C T f -> underway (dev t f) = []
}.

Section Run.
Variable ans : list uni_event -> uni_call -> flagcxResult_t * Z.
Variable dev : list uni_event -> reduceFifo -> reduceFifo.
Variable comm_rank : Z.
Variable G : list uniRunnerDagNode.
Variables C size : Z.
Hypothesis HG : dag_ok G.
Hypothesis Hrun : Forall runnable G.
Hypothesis HN : Z.of_nat (length G) < U64_MOD.
Hypothesis HL : lawful ans dev.

Abbreviation inv := (inv G C size).
Definition INV (l : list uniRunnerDagNode) (w : world) : Prop := inv [] [] (dg_p2pInflight (w_dag w)) (dg_redInflight (w_dag w)) l w.

(** The result of a step: however it ends the order of events is right and the
    graph is held; [Q] holds unless it failed. *)
Definition safe (w : world) : Prop := ordered G (w_log w) /\ held G w.
Definition result_ok (Q : world -> Prop) (w : world) (r : flagcxResult_t) : Prop := safe w /\ (flagcx_failed r = false -> Q w).

Lemma inv_safe X todo P R l w : inv X todo P R l w -> safe w.
Proof. intros I. split; [apply I|by eapply inv_held]. Qed.

Lemma result_check p k w Q Q' :
  runs p w (result_ok Q) -> (forall w', Q w' -> runs k w' (result_ok Q')) -> runs (uni_check p k) w (result_ok Q').
Proof.
  intros Hp Hk. apply runs_check. eapply runs_mono; [exact Hp|]. intros w' r [Ho HQ]. destruct (flagcx_failed r) eqn:E; [|by apply Hk, HQ].
  split; [done|]. congruence.
Qed.

(** ** Calls *)

Lemma runs_call c w Q : (forall t, Q (set_trace t w) (ans (w_trace w) c).1) -> runs (do_call ans c) w Q.
Proof. intros H. eexists _, _. split; [reflexivity|]. apply H. Qed.

Lemma runs_ops l : forall w Q, (forall t r, Q (set_trace t w) r) -> runs (run_ops ans comm_rank l) w Q.
Proof.
  induction l as [|op l IH]; intros w Q H; cbn.
  - apply runs_ret. destruct w. apply (H w_trace).
  - destruct (po_type op =? flagcxDevicePrimSend).
    + apply runs_bind. eapply runs_get; [done|]. apply runs_bind, runs_call. intros t. destruct (negb _); [by apply runs_ret|].
      apply IH. intros t' r. apply H.
    + destruct (po_type op =? flagcxDevicePrimRecv).
      * apply runs_bind. eapply runs_get; [done|]. apply runs_bind, runs_call. intros t. destruct (negb _); [by apply runs_ret|].
        apply IH. intros t' r. apply H.
      * apply runs_ret. destruct w. apply (H w_trace).
Qed.

Lemma first_error_not_in_progress r first : first <> flagcxInProgress -> flagcxRunnerRecordFirstError r first <> flagcxInProgress.
Proof. intros H. unfold flagcxRunnerRecordFirstError. destruct (_ && _) eqn:E; [|done]. apply andb_true_iff in E as [_ E]. by intros ->. Qed.

Lemma runs_group l w Q : (forall t r, r <> flagcxInProgress -> Q (set_trace t w) r) -> runs (run_group ans (run_ops ans comm_rank l)) w Q.
Proof.
  intros H. unfold run_group. apply runs_bind, runs_call. intros t. destruct (negb _) eqn:E.
  - apply runs_ret, H. intros Er. by rewrite Er in E.
  - apply runs_bind, runs_ops. intros t1 r1. apply runs_bind, runs_call. intros t2. apply runs_ret, H.
    by apply first_error_not_in_progress, first_error_not_in_progress.
Qed.

(** ** Launching *)

(** The state after a launch from the queue of transfers and copies. *)
Definition launched_p2p (i : Z) (q : list Z) (w w' : world) : Prop :=
  (exists l, INV l w') /\ dg_p2pReady (w_dag w') = q /\ dg_redReady (w_dag w') = dg_redReady (w_dag w) /\
  dg_p2pInflight (w_dag w') = dg_p2pInflight (w_dag w) ++ [i] /\ dg_redInflight (w_dag w') = dg_redInflight (w_dag w) /\
  w_log w' = w_log w ++ [Launch i].

Lemma to_inflight_ok e i q n d l w t :
  inv [e] [] (dg_p2pInflight (w_dag w)) (dg_redInflight (w_dag w)) l w -> dg_p2pReady (w_dag w) = i :: q ->
  arr_get l i = Some n -> static d = static (nd_data n) -> idx_of d = e ->
  runs (to_inflight i (set_data d n)) (set_trace t (set_dag (set_ready q (dg_redReady (w_dag w)) (w_dag w)) w)) (result_ok (launched_p2p i q w)).
Proof.
  intros I Hq Hi Hs He. unfold to_inflight. apply runs_bind. eapply runs_modify.
  { cbn. rewrite (iv_nodes _ _ _ _ _ _ _ _ _ I). cbn. rewrite arr_set_in by (eapply node_range; done). cbn. reflexivity. }
  apply runs_bind. eapply runs_modify; [reflexivity|]. apply runs_bind. eapply runs_modify; [reflexivity|]. apply runs_ret.
  assert (I' := inv_launch_p2p G C size e _ _ l w
    (set_log (w_log w ++ [Launch i]) (set_trace t (set_dag (set_inflight (dg_p2pInflight (w_dag w) ++ [i]) (dg_redInflight (w_dag w))
       (set_nodes (<[Z.to_nat i := set_data d n]> l) (set_ready q (dg_redReady (w_dag w)) (w_dag w)))) w)))
    i q n d I Hq Hi Hs He (conj eq_refl eq_refl) eq_refl eq_refl eq_refl eq_refl eq_refl eq_refl eq_refl eq_refl).
  split; [exact (inv_safe _ _ _ _ _ _ I')|]. intros _. split; [by eexists|]. done.
Qed.

Lemma launchP2pOps_ok e i q l w :
  inv [e] [] (dg_p2pInflight (w_dag w)) (dg_redInflight (w_dag w)) l w -> dg_p2pReady (w_dag w) = i :: q ->
  runs (launchP2pOps ans comm_rank e) w (result_ok (launched_p2p i q w)).
Proof.
  intros I Hq. unfold launchP2pOps.
  destruct (red_node_at G C size _ _ _ _ l w i false I) as (n0 & n & Hn0 & Hn & Hs & Hr).
  { apply (iv_p2p _ _ _ _ _ _ _ _ _ I). rewrite Hq. left. }
  destruct (events_at size (w_map w) (w_events w) _ e (iv_events _ _ _ _ _ _ _ _ _ I)) as [ev Hev]; [left|].
  apply runs_bind. eexists _, _. split; [unfold dequeue_p2p; rewrite Hq; reflexivity|].
  apply runs_bind. eapply runs_get; [cbn; rewrite (iv_nodes _ _ _ _ _ _ _ _ _ I); exact Hn|].
  apply runs_bind. eapply runs_get; [exact Hev|].
  set (w1 := set_dag _ w). assert (I1 : forall t, ordered G (w_log (set_trace t w1))) by (intros t; apply I).
  assert (Hres : forall t p k, (forall t Q', (forall t' r, r <> flagcxInProgress -> Q' (set_trace t' w1) r) -> runs p (set_trace t w1) Q') ->
    (forall t, runs k (set_trace t w1) (result_ok (launched_p2p i q w))) -> runs (or_reset e p k) (set_trace t w1) (result_ok (launched_p2p i q w))).
  { intros t p k Hp Hk. unfold or_reset. apply runs_bind, Hp. intros t1 r Hne. case_bool_decide as E; cbn; [apply Hk|].
    destruct (events_reset size (w_map w) (w_events w) e _ (iv_events _ _ _ _ _ _ _ _ _ I)) as (m & Hm & _).
    apply runs_bind. eapply runs_modify; [cbn; rewrite Hm; done|]. apply runs_ret. split; [exact (inv_safe _ _ _ _ _ _ I)|].
    unfold flagcx_failed. by rewrite !bool_decide_eq_false_2. }
  assert (Hcall : forall c, (forall t, (ans t c).1 <> flagcxInProgress) -> forall t Q',
    (forall t' r, r <> flagcxInProgress -> Q' (set_trace t' w1) r) -> runs (do_call ans c) (set_trace t w1) Q').
  { intros c Hc t Q' H. apply runs_call. intros t'. by apply H. }
  assert (Hw1 : set_trace (w_trace w) w1 = w1) by (by destruct w). rewrite <- Hw1.
  unfold is_red in Hr. destruct (nd_data n) as [ops ei|?|src dst count dt ei] eqn:Ed; [|done|].
  - destruct ops as [ops|].
    2: { exfalso. apply arr_get_Some in Hn0 as [_ Hn0]. apply (Forall_lookup_1 _ _ _ _ Hrun) in Hn0.
         destruct Hs as [Hs _]. unfold runnable in Hn0. rewrite Ed in Hs. destruct (nd_data n0) as [[]|?|?]; try discriminate; done. }
    apply runs_bind. eapply runs_get; [done|]. apply Hres.
    { intros t Q' H. apply runs_group. intros t' r Hne. by apply H. }
    intros t. apply runs_bind. eapply runs_get; [done|]. apply Hres; [apply Hcall; intros; apply HL|]. intros t'.
    apply to_inflight_ok with e l; try done. by rewrite Ed.
  - apply runs_bind. eapply runs_get; [done|]. apply Hres; [apply Hcall; intros; apply HL|]. intros t.
    apply Hres; [apply Hcall; intros; apply HL|]. intros t'. apply to_inflight_ok with e l; try done. by rewrite Ed.
Qed.

(** As many transfers and copies as there are events; without a single event
    in use, at least one. *)
Lemma ready_p2p_ok fuel : forall l w, INV l w -> (length (dg_p2pReady (w_dag w)) < fuel)%nat ->
  runs (ready_p2p ans comm_rank fuel) w (result_ok (fun w' => (exists l', INV l' w') /\
    (0 < size -> dg_p2pReady (w_dag w') = [] \/ dg_p2pInflight (w_dag w') <> []) /\
    forall i, Complete i ∈ w_log w' <-> Complete i ∈ w_log w)).
Proof.
  induction fuel as [|fuel IH]; intros l w I Hf; [lia|]. cbn. apply runs_bind. eapply runs_get; [done|].
  destruct (dg_p2pReady (w_dag w)) as [|i q] eqn:Hq.
  { apply runs_ret. split; [exact (inv_safe _ _ _ _ _ _ I)|]. intros _. split; [by exists l|]. split; [by left|done]. }
  destruct (events_get size (w_map w) (w_events w) _ (iv_events _ _ _ _ _ _ _ _ _ I)) as (idx & m & Hm & He).
  apply runs_bind. eexists _, _. split; [unfold getEventIdx; rewrite Hm; reflexivity|].
  destruct He as [(-> & He & Hne)|(Hidx & He)].
  - rewrite Z.eqb_refl. apply runs_ret. split; [exact (inv_safe _ _ _ _ _ _ I)|]. intros _. split; [exists l; destruct I; by constructor|].
    split; [|done]. intros Hpos. right. intros Hnil. cbn in Hnil. specialize (Hne Hpos). by rewrite Hnil in Hne.
  - rewrite (proj2 (Z.eqb_neq _ _) Hidx). eapply result_check.
    + apply (launchP2pOps_ok idx i q l); [destruct I; by constructor|done].
    + intros w' ((l' & I') & Hq' & _ & Hin & _ & Hlog). eapply runs_mono; [apply (IH l' w' I'); rewrite Hq'; cbn in Hf; lia|].
      intros w2 r [Ho HQ]. split; [done|]. intros Hr. destruct (HQ Hr) as (H1 & H2 & H3). split; [done|]. split; [done|].
      intros j. rewrite H3, Hlog. cbn. rewrite elem_of_app, list_elem_of_singleton. naive_solver.
Qed.

(** ** Reductions *)

Lemma runs_observe c w f Q : w_fifo w = Some f -> (forall t, Q (set_trace t (set_fifo (Some (dev (w_trace w) f)) w)) (dev (w_trace w) f)) ->
  runs (observe dev c) w Q.
Proof. intros Hf H. unfold observe. eexists _, _. split; [by rewrite Hf|apply H]. Qed.

Lemma kernel_moves t T f : fifo_ok C T f -> fifo_ok C T (dev t f) /\ rf_produced (dev t f) = rf_produced f.
Proof. intros I. destruct (kernel_reach_ok C T f (dev t f) (lw_kernel _ _ HL t f) I) as (H1 & H2 & _). done. Qed.

Lemma enqueue_ok T f w in1 in2 out count nthreads dt op :
  w_fifo w = Some f -> fifo_ok C T f -> rf_produced f + 1 < U64_MOD ->
  runs (enqueue dev in1 in2 out count nthreads dt op) w (fun w' idx => exists t f', w' = set_trace t (set_fifo (Some f') w) /\
    (idx = -1 /\ fifo_ok C T f' /\ rf_produced f' = rf_produced f /\ T <> [] \/
     idx <> -1 /\ fifo_ok C (idx :: T) f' /\ rf_produced f' = rf_produced f + 1)).
Proof.
  intros Hf I Hp. unfold enqueue. apply runs_bind, (runs_observe _ w f _ Hf). intros t. set (f1 := dev _ f).
  destruct (kernel_moves (w_trace w) T f I) as [I1 E1]. fold f1 in I1, E1. pose proof (fifo_capacity _ _ _ I1) as HC.
  destruct (fo_capacity _ _ _ I1) as [Hcap _]. pose proof (fo_counters _ _ _ I1) as Hcnt. rewrite Hcap.
  rewrite (Z.mod_small (_ - _)) by lia. destruct (Z.leb_spec C (rf_produced f1 - rf_consumed f1)).
  { apply runs_ret. eexists _, f1. split; [reflexivity|]. left. split_and!; try done. intros ->. pose proof (fifo_room C f1 I1). lia. }
  rewrite (proj2 (Z.eqb_neq C 0)) by lia. apply runs_bind. eapply runs_get; [done|]. set (idx := rf_produced f1 mod C).
  assert (Hidx : 0 <= idx < C) by (by apply Z.mod_pos_bound).
  apply runs_bind. eapply runs_observe; [reflexivity|]. intros t2. set (f2 := dev _ f1).
  destruct (kernel_reach_ok C T f1 f2 (lw_kernel _ _ HL _ f1) I1) as (I2 & E2 & Hcon & _).
  destruct (fifo_slot C T f2 idx I2 Hidx) as [t3 Ht3]. apply runs_bind. eapply runs_get; [exact Ht3|].
  destruct (fifo_available C T f2 idx t3 I2 Ht3) as [-> _]. case_bool_decide as Hin; cbn [negb].
  { apply runs_ret. eexists _, f2. split; [reflexivity|]. left. split_and!; [done|done|congruence|]. intros ->. by apply elem_of_nil in Hin. }
  apply runs_bind. eapply runs_get; [rewrite arr_set_in; [reflexivity|rewrite (fo_slots _ _ _ I2); lia]|].
  apply runs_bind. eapply runs_modify; [reflexivity|]. apply runs_ret. eexists _, _. split; [reflexivity|]. right. split; [lia|].
  assert (Ei : idx = rf_produced f2 mod C) by (unfold idx; congruence). split.
  - rewrite Ei. apply fifo_add; [done|lia|by rewrite <- Ei|lia].
  - cbn. rewrite Z.mod_small by lia. lia.
Qed.

(** As many reductions as there are slots; with none in flight, at least one. *)
Lemma ready_red_ok fuel : forall l w, INV l w -> (length (dg_redReady (w_dag w)) < fuel)%nat ->
  runs (ready_red dev fuel) w (result_ok (fun w' => (exists l', INV l' w') /\
    (dg_redReady (w_dag w') = [] \/ dg_redInflight (w_dag w') <> []) /\
    dg_p2pReady (w_dag w') = dg_p2pReady (w_dag w) /\ dg_p2pInflight (w_dag w') = dg_p2pInflight (w_dag w) /\
    forall i, Complete i ∈ w_log w' <-> Complete i ∈ w_log w)).
Proof.
  induction fuel as [|fuel IH]; intros l w I Hf; [lia|]. cbn. apply runs_bind. eapply runs_get; [done|].
  destruct (dg_redReady (w_dag w)) as [|i q] eqn:Hq.
  { apply runs_ret. split; [exact (inv_safe _ _ _ _ _ _ I)|]. intros _. split; [by exists l|]. split; [by left|done]. }
  destruct (red_node_at G C size _ _ _ _ l w i true I) as (n0 & n & Hn0 & Hn & Hs & Hr).
  { apply (iv_red _ _ _ _ _ _ _ _ _ I). rewrite Hq. left. }
  apply runs_bind. eapply runs_get; [cbn; rewrite (iv_nodes _ _ _ _ _ _ _ _ _ I); exact Hn|].
  unfold is_red in Hr. destruct (nd_data n) as [?|in1 in2 out count nthreads dt op tr|?] eqn:Ed; try done.
  destruct (iv_fifo _ _ _ _ _ _ _ _ _ I) as (f & Hff & Hfo & Hpr).
  assert (Hroom : Z.of_nat (length (launches (w_log w))) < Z.of_nat (length G)).
  { destruct (qs_ready _ _ _ _ _ _ (iv_queues _ _ _ _ _ _ _ _ _ I) i) as [Hir Hil]; [rewrite Hq; apply elem_of_app; right; left|].
    apply (launches_room G _ i); [apply I|done..]. }
  apply runs_bind. eapply runs_mono; [apply (enqueue_ok _ f w in1 in2 out count nthreads dt op Hff Hfo); lia|]. cbn beta.
  intros w1 idx (t & f' & -> & [(-> & Hfo' & Hpr' & Hne)|(Hidx & Hfo' & Hpr')]).
  - rewrite Z.eqb_refl. apply runs_ret. split; [exact (inv_safe _ _ _ _ _ _ I)|]. intros _. split; [|split; [|done]].
    + exists l. destruct I; constructor; try done. exists f'. split; [done|]. split; [done|]. rewrite Hpr'. exact Hpr.
    + right. intros E. apply Hne. cbn in E. by rewrite E.
  - rewrite (proj2 (Z.eqb_neq _ _) Hidx). apply runs_bind. eapply runs_modify; [reflexivity|].
    apply runs_bind. eapply runs_modify.
    { cbn. rewrite (iv_nodes _ _ _ _ _ _ _ _ _ I). cbn. rewrite arr_set_in by (eapply node_range; done). cbn. reflexivity. }
    apply runs_bind. eapply runs_modify; [reflexivity|]. apply runs_bind. eapply runs_modify; [reflexivity|].
    set (d := RedNode in1 in2 out count nthreads dt op idx). match goal with |- runs _ ?w0 _ => set (w' := w0) end.
    assert (I' := inv_launch_red G C size _ _ l w w' i q n d f f' I Hq Hn ltac:(by rewrite Ed) Hff Hfo' Hpr'
      (conj eq_refl eq_refl) eq_refl eq_refl eq_refl eq_refl eq_refl eq_refl eq_refl eq_refl).
    eapply runs_mono; [apply (IH _ w' I'); cbn in *; lia|].
    intros w2 r [Ho HQ]. split; [done|]. intros Hrr. destruct (HQ Hrr) as (H1 & H2 & H3 & H4 & H5). split_and!; try done.
    intros j. rewrite H5. cbn. rewrite elem_of_app, list_elem_of_singleton. naive_solver.
Qed.

(** After the ready nodes are processed some node is in flight, unless the
    graph is done. *)
Definition in_flight (w : world) : list Z := dg_p2pInflight (w_dag w) ++ dg_redInflight (w_dag w).

Lemma processReadyQueue_ok l w : INV l w ->
  runs (processReadyQueue ans dev comm_rank) w (result_ok (fun w' => (exists l', INV l' w') /\
    (0 < size -> in_flight w' = [] -> forall i, 0 <= i < Z.of_nat (length G) -> Complete i ∈ w_log w') /\
    forall i, Complete i ∈ w_log w' <-> Complete i ∈ w_log w)).
Proof.
  intros I. unfold processReadyQueue. apply runs_bind. eapply runs_get; [done|]. eapply result_check.
  { apply (ready_p2p_ok _ l w I). lia. }
  intros w1 ((l1 & I1) & Hp & Hc1). apply runs_bind. eapply runs_get; [done|].
  eapply runs_mono; [apply (ready_red_ok _ l1 w1 I1); lia|]. intros w2 r [Ho HQ]. split; [done|]. intros Hr.
  destruct (HQ Hr) as ((l2 & I2) & Hq & E1 & E2 & Hc2). split; [by exists l2|]. split; [|intros i; by rewrite Hc2].
  intros Hpos [Hf1 Hf2]%app_nil. destruct Hq as [Hq|?]; [|done]. rewrite <- E1, <- E2 in Hp. destruct (Hp Hpos) as [Hp'|?]; [|done].
  destruct I2 as [_ _ _ _ I4 _ _ I7 _ _]. rewrite Hp', Hq, Hf1, Hf2 in I7. by apply (queues_idle G _ _ _ HG I4 I7).
Qed.

End Run.
