(* ===== verification/UniSchedLoop.v ===== *)
(** The nodes in flight and the loop of the scheduler of [UniSched]: what the
    loop keeps to, and that it ends. *)
From S2P Require Import Prelude Flagcx Arrays C2cRunner KernelTrigger UniDag UniDagBuild UniDagShape UniSched UniSchedPool UniSchedInv UniSchedStep UniSchedRun.

Section Loop.
Variable ans : list uni_event -> uni_call -> flagcxResult_t * Z.
Variable dev : list uni_event -> reduceFifo -> reduceFifo.
Variable comm_rank : Z.
Variable G : list uniRunnerDagNode.
Variables C size : Z.
Hypothesis HG : dag_ok G.
Hypothesis Hrun : Forall runnable G.
Hypothesis HN : Z.of_nat (length G) < U64_MOD.
Hypothesis HL : lawful ans dev.

Abbreviation inv := (inv G C size).
Abbreviation INV := (INV G C size).

(** What a node that ends leaves alone. *)
Definition released (w w' : world) : Prop :=
  dg_p2pInflight (w_dag w') = dg_p2pInflight (w_dag w) /\ dg_redInflight (w_dag w') = dg_redInflight (w_dag w) /\ w_log w' = w_log w.

Lemma enqueueReadyQueue_runs c l w n Q : dg_nodes (w_dag w) = Some l -> arr_get l c = Some n ->
  Q (set_dag (let d := w_dag w in set_pending (dg_numPendingNodes d - 1) (if is_red n then set_ready (dg_p2pReady d) (dg_redReady d ++ [c]) d
         else set_ready (dg_p2pReady d ++ [c]) (dg_redReady d) d)) w) flagcxSuccess -> runs (enqueueReadyQueue c) w Q.
Proof.
  intros Hl Hc HQ. unfold enqueueReadyQueue. apply runs_bind. eapply runs_get; [cbn; by rewrite Hl|].
  apply runs_bind. eapply runs_modify; [reflexivity|]. apply runs_bind. eapply runs_modify; [reflexivity|]. apply runs_ret.
  cbn in *. by destruct (is_red n).
Qed.

Lemma release_children_ok cs : forall l w P R, inv [] cs P R l w -> NoDup cs -> (forall c, c ∈ cs -> 0 <= c < Z.of_nat (length G)) ->
  runs (release_children cs) w (fun w' r => r = flagcxSuccess /\ (exists l', inv [] [] P R l' w') /\ released w w').
Proof.
  induction cs as [|c cs IH]; intros l w P R I Hnd Hr; cbn.
  { apply runs_ret. split; [done|]. split; [by exists l|done]. }
  apply NoDup_cons in Hnd as [Hc Hnd]. specialize (Hr c ltac:(left)) as Hcr. pose proof (inv_length _ _ _ _ _ _ _ _ _ I) as Hlen.
  destruct (arr_get_is_Some l c) as (n & Hn & _); [lia|].
  apply runs_bind. eapply runs_get; [cbn; rewrite (iv_nodes _ _ _ _ _ _ _ _ _ I); exact Hn|].
  apply runs_bind. eapply runs_modify.
  { cbn. rewrite (iv_nodes _ _ _ _ _ _ _ _ _ I). cbn. rewrite arr_set_in by lia. cbn. reflexivity. }
  set (n' := set_numParents _ n). set (l' := <[_ := n']> l). cbn [nd_numParents set_numParents n'].
  assert (Hn' : arr_get l' c = Some n').
  { apply arr_get_Some. split; [lia|]. unfold l'. rewrite list_lookup_insert_eq by lia. done. }
  assert (Hgo : forall w', inv [] cs P R l' w' -> released w w' ->
    runs (release_children cs) w' (fun w' r => r = flagcxSuccess /\ (exists l', inv [] [] P R l' w') /\ released w w')).
  { intros w' I' (E1 & E2 & E3). eapply runs_mono; [apply (IH l' w' P R I' Hnd); intros; apply Hr; by right|].
    intros w2 r (H1 & H2 & E4 & E5 & E6). split; [done|]. split; [done|]. unfold released. by rewrite E4, E5, E6. }
  pose proof (fun w' => inv_release G C size c cs P R l w w' n I Hc Hn) as Hrel. cbn in Hrel.
  destruct (nd_numParents n - 1 =? 0) eqn:Elast.
  - apply runs_check. eapply enqueueReadyQueue_runs; [reflexivity|exact Hn'|]. cbn. apply Hgo; [|by destruct (is_red n')].
    assert (Er : is_red n' = is_red n) by done. rewrite Er. apply Hrel; destruct (is_red n); done.
  - apply Hgo; [|done]. by apply Hrel.
Qed.

Lemma complete_node_ok i n0 n l w P R : arr_get G i = Some n0 -> same_node n0 n -> inv [] (kids n) P R l (set_log (w_log w ++ [Complete i]) w) ->
  runs (complete_node i n) w (fun w' r => r = flagcxSuccess /\ (exists l', inv [] [] P R l' w') /\ released (set_log (w_log w ++ [Complete i]) w) w').
Proof.
  intros Hn0 Hs I. apply arr_get_Some in Hn0 as [Hi0 Hn0]. pose proof (same_kids n0 n Hs) as Hk.
  assert (Hlen : Z.of_nat (length (kids n)) = nd_numChildren n).
  { rewrite Hk. destruct Hs as (_ & -> & _). eapply dk_array; done. }
  unfold complete_node. apply runs_bind. eapply runs_modify; [reflexivity|]. apply runs_bind. eapply runs_get with (x := kids n).
  { unfold kids in *. destruct (Z.leb_spec (nd_numChildren n) 0).
    - by replace (Z.to_nat (nd_numChildren n)) with 0%nat by lia.
    - destruct (nd_children n) as [cs|]; cbn in *; [|rewrite take_nil in Hlen; cbn in Hlen; lia].
      rewrite length_take in Hlen. by rewrite (proj2 (Z.leb_le _ _)) by lia. }
  eapply release_children_ok; [exact I|rewrite Hk; by eapply dk_distinct|]. intros c Hc. rewrite Hk in Hc. by eapply dk_range.
Qed.

(** ** The nodes in flight *)

(** After looking at the nodes of [rest]; all are over when the environment is
    prompt. *)
Definition looked_at (rest : list Z) (w w' : world) : Prop :=
  (exists l, INV l w') /\ (forall i, Complete i ∈ w_log w -> Complete i ∈ w_log w') /\
  (prompt C ans dev -> forall i, i ∈ rest -> Complete i ∈ w_log w').

Lemma looked_at_end i rest w w1 w' : w_log w1 = w_log w ++ [Complete i] -> looked_at rest w1 w' -> looked_at (i :: rest) w w'.
Proof.
  intros E (H1 & H2 & H3). rewrite E in H2. split; [done|]. split; [intros j Hj; apply H2, elem_of_app; by left|].
  intros Hp j [->|Hj]%elem_of_cons; [apply H2, elem_of_app; right; left|by apply H3].
Qed.

Lemma inflight_p2p_ok rest : forall kept l w, INV l w -> dg_p2pInflight (w_dag w) = kept ++ rest ->
  runs (inflight_p2p ans kept rest) w (result_ok G (fun w' => looked_at rest w w' /\ dg_redInflight (w_dag w') = dg_redInflight (w_dag w))).
Proof.
  induction rest as [|i rest IH]; intros kept l w I Hin; cbn.
  { apply runs_ret. split; [exact (inv_safe G C size _ _ _ _ _ _ I)|]. intros _. split; [|done]. split; [by exists l|]. split; [done|]. intros _ i Hi. by apply elem_of_nil in Hi. }
  unfold UniSchedRun.INV in I. rewrite Hin in I.
  destruct (red_node_at G C size _ _ _ _ l w i false I) as (n0 & n & Hn0 & Hn & Hs & Hr).
  { apply (iv_p2p _ _ _ _ _ _ _ _ _ I). set_solver. }
  apply runs_bind. eapply runs_get; [cbn; rewrite (iv_nodes _ _ _ _ _ _ _ _ _ I); exact Hn|].
  pose proof (iv_events _ _ _ _ _ _ _ _ _ I) as Hev. cbn in Hev. rewrite fmap_app, fmap_cons, <- Permutation_middle in Hev.
  set (e := idx_at l i) in Hev. assert (Ee : idx_of (nd_data n) = e) by (unfold e, idx_at; by rewrite Hn).
  destruct (events_at size _ _ _ e Hev ltac:(left)) as [ev Hat]. destruct (events_reset size _ _ e _ Hev) as (m & Hm & _).
  assert (Hbody : runs (run! event := event_at e in run! q := do_call ans (UEventQuery event) in
      let '(completed, r) := flagcxRunnerClassifyEventQuery q (Some false) in
      if flagcx_failed r then ret r else
      if bool_decide (completed = Some true) then
        do! resetEvent e in do! put_node i (set_data (set_eventIdx (nd_data n) (-1)) n) in
        uni_check (complete_node i n) (do! remove_p2p kept rest in inflight_p2p ans kept rest)
      else inflight_p2p ans (kept ++ [i]) rest) w
     (result_ok G (fun w' => looked_at (i :: rest) w w' /\ dg_redInflight (w_dag w') = dg_redInflight (w_dag w)))).
  { apply runs_bind. eapply runs_get; [exact Hat|]. apply runs_bind, runs_call. intros t.
    set (q := (ans _ _).1). unfold flagcxRunnerClassifyEventQuery. case_bool_decide as Eq.
    - change (flagcx_failed flagcxSuccess) with false. cbn iota. rewrite bool_decide_eq_true_2 by done.
      apply runs_bind. eapply runs_modify; [cbn; rewrite Hm; reflexivity|]. apply runs_bind. eapply runs_modify.
      { cbn. rewrite (iv_nodes _ _ _ _ _ _ _ _ _ I). cbn. rewrite arr_set_in by (eapply node_range; done). cbn. reflexivity. }
      set (d := set_eventIdx (nd_data n) (-1)). set (w1 := set_dag _ _).
      assert (Hd : static d = static (nd_data n)) by (unfold d; by destruct (nd_data n)).
      assert (I1 := inv_complete_p2p G C size kept rest _ l w (set_log (w_log w ++ [Complete i]) w1) i n d m I Hn Hd
        ltac:(by rewrite Ee) (conj eq_refl eq_refl) eq_refl eq_refl eq_refl eq_refl eq_refl eq_refl eq_refl eq_refl).
      apply runs_check. eapply runs_mono; [eapply (complete_node_ok i n0 n _ w1); [done|done|exact I1]|].
      intros w2 r (-> & (l2 & I2) & E1 & E2 & E3). change (flagcx_failed flagcxSuccess) with false. cbn iota.
      apply runs_bind. eapply runs_modify; [reflexivity|]. set (w3 := set_dag _ w2).
      eapply runs_mono; [apply (IH kept l2 w3); [|done]|].
      + unfold UniSchedRun.INV. cbn. rewrite E2. by apply inv_inflight.
      + intros w' r [Ho HQ]. split; [done|]. intros Hf. destruct (HQ Hf) as [H1 H2]. split; [|by rewrite H2].
        eapply looked_at_end; [|exact H1]. exact E3.
    - case_bool_decide as Eq2.
      + change (flagcx_failed flagcxSuccess) with false. cbn iota. rewrite bool_decide_eq_false_2 by done.
        eapply runs_mono; [apply (IH (kept ++ [i]) l)|].
        * unfold UniSchedRun.INV. cbn. rewrite Hin. by apply inv_trace.
        * cbn. by rewrite <- (assoc_L (++)).
        * intros w' r [Ho HQ]. split; [done|]. intros Hf. destruct (HQ Hf) as [(H1 & H2 & H3) H4]. split; [|done].
          split; [done|]. split; [done|]. intros Hp. exfalso. by apply (pr_query _ _ _ Hp (w_trace w) ev).
      + assert (Hfl : flagcx_failed q = true) by (unfold flagcx_failed; by rewrite !bool_decide_eq_false_2). rewrite Hfl.
        apply runs_ret. split; [exact (inv_safe G C size _ _ _ _ _ _ I)|congruence]. }
  unfold is_red in Hr. rewrite <- Ee in Hbody. destruct (nd_data n) as [ops ei|?|src dst count dt ei]; [exact Hbody|done|exact Hbody].
Qed.

(** A reduction that is over gives its slot back. *)
Lemma setState_ok j T f w : w_fifo w = Some f -> fifo_ok C (j :: T) f -> j ∉ underway f ->
  runs (setState dev j flagcxReduceTriggerAvailable) w (fun w' _ => exists t f', w' = set_trace t (set_fifo (Some f') w) /\ fifo_ok C T f' /\
    rf_produced f' = rf_produced f).
Proof.
  intros Hf I Hj. unfold setState. apply runs_bind. eapply runs_observe; [exact Hf|]. intros t. set (f1 := dev _ f).
  destruct (kernel_reach_ok C _ f f1 (lw_kernel _ _ HL _ f) I) as (I1 & E1 & _ & Hu).
  destruct (fifo_slot C _ f1 j I1) as [t1 Ht1]; [apply I; left|].
  apply runs_bind. eapply runs_get; [exact Ht1|]. apply runs_bind. eapply runs_get.
  { rewrite arr_set_in; [reflexivity|]. rewrite (fo_slots _ _ _ I1). apply I. left. }
  eapply runs_modify; [reflexivity|]. eexists _, _. split; [reflexivity|]. split; [|done].
  apply fifo_remove; [done| |done]. intros H. by apply Hj, Hu.
Qed.

Lemma inflight_red_ok rest : forall kept l w, INV l w -> dg_redInflight (w_dag w) = kept ++ rest ->
  runs (inflight_red dev kept rest) w (result_ok G (looked_at rest w)).
Proof.
  induction rest as [|i rest IH]; intros kept l w I Hin; cbn.
  { apply runs_ret. split; [exact (inv_safe G C size _ _ _ _ _ _ I)|]. intros _. split; [by exists l|]. split; [done|]. intros _ i Hi. by apply elem_of_nil in Hi. }
  unfold UniSchedRun.INV in I. rewrite Hin in I.
  destruct (red_node_at G C size _ _ _ _ l w i true I) as (n0 & n & Hn0 & Hn & Hs & Hr).
  { apply (iv_red _ _ _ _ _ _ _ _ _ I). set_solver. }
  apply runs_bind. eapply runs_get; [cbn; rewrite (iv_nodes _ _ _ _ _ _ _ _ _ I); exact Hn|].
  unfold is_red in Hr. destruct (nd_data n) as [?|in1 in2 out count nthreads dt op tr|?] eqn:Ed; try done.
  destruct (iv_fifo _ _ _ _ _ _ _ _ _ I) as (f & Hff & Hfo & Hpr).
  assert (Etr : idx_at l i = tr) by (unfold idx_at; by rewrite Hn, Ed).
  assert (Hfo2 := Hfo). rewrite fmap_app, fmap_cons, <- Permutation_middle, Etr, <- fmap_app in Hfo2.
  apply runs_bind. eapply runs_observe; [exact Hff|]. intros t. set (f1 := dev _ f).
  destruct (kernel_moves ans dev C HL (w_trace w) _ f Hfo2) as [I1 E1]. fold f1 in I1, E1.
  destruct (fifo_slot C _ f1 tr I1) as [t1 Ht1]; [apply Hfo2; left|]. apply runs_bind. eapply runs_get; [exact Ht1|].
  destruct (fifo_available C _ f1 tr t1 I1 Ht1) as [_ ->]. case_bool_decide as Hc.
  - destruct Hc as [_ Hu]. apply runs_bind. eapply runs_mono; [eapply (setState_ok tr _ f1); [done|exact I1|exact Hu]|].
    cbn beta. intros w1 [] (t2 & f2 & -> & I2 & E2). match goal with |- runs _ ?x _ => set (w1 := x) end.
    assert (I3 := inv_complete_red G C size _ kept rest l w (set_log (w_log w ++ [Complete i]) w1) i n f f2 I Hn Hff I2 (eq_trans E2 E1)
      eq_refl eq_refl eq_refl eq_refl eq_refl).
    apply runs_check. eapply runs_mono; [eapply (complete_node_ok i n0 n _ w1); [done|done|exact I3]|].
    intros w2 r (-> & (l2 & I4) & F1 & F2 & F3). change (flagcx_failed flagcxSuccess) with false. cbn iota.
    apply runs_bind. eapply runs_modify; [reflexivity|]. set (w3 := set_dag _ w2).
    eapply runs_mono; [apply (IH kept l2 w3); [|done]|].
    + unfold UniSchedRun.INV. cbn. rewrite F1. by apply inv_inflight.
    + intros w' r [Ho HQ]. split; [done|]. intros Hf. eapply looked_at_end; [|by apply HQ]. exact F3.
  - eapply runs_mono; [apply (IH (kept ++ [i]) l)|].
    + unfold UniSchedRun.INV. cbn. rewrite Hin. destruct I; constructor; try done. exists f1. split; [done|]. split; [|rewrite E1; exact Hpr].
      rewrite fmap_app, fmap_cons, <- Permutation_middle, Etr, <- fmap_app. exact I1.
    + cbn. by rewrite <- (assoc_L (++)).
    + intros w' r [Ho HQ]. split; [done|]. intros Hf. destruct (HQ Hf) as (H1 & H2 & H3).
      split; [done|]. split; [done|]. intros Hp. exfalso. apply Hc. split; [left|].
      unfold f1. rewrite (pr_kernel _ _ _ Hp _ f _ Hfo). apply not_elem_of_nil.
Qed.

Lemma processInflightQueue_ok l w : INV l w ->
  runs (processInflightQueue ans dev) w (result_ok G (looked_at (in_flight w) w)).
Proof.
  intros I. unfold processInflightQueue. apply runs_bind. eapply runs_get; [done|]. eapply result_check.
  { by apply (inflight_p2p_ok _ [] l w I). }
  intros w1 (((l1 & I1) & Hm1 & Hp1) & E1). apply runs_bind. eapply runs_get; [done|].
  eapply runs_mono; [by apply (inflight_red_ok _ [] l1 w1 I1)|]. intros w2 r [Ho HQ]. split; [done|]. intros Hf.
  destruct (HQ Hf) as (H1 & H2 & H3). split; [done|]. split; [intros i Hi; by apply H2, Hm1|].
  intros Hp i [Hi|Hi]%elem_of_app; [by apply H2, Hp1|]. apply H3; [done|]. by rewrite E1.
Qed.

(** ** Rounds *)

Lemma filter_length_mono {A} (P Q : A -> Prop) `{forall x, Decision (P x)} `{forall x, Decision (Q x)} (l : list A) :
  (forall x, P x -> Q x) -> (length (filter P l) <= length (filter Q l))%nat.
Proof.
  intros HPQ. induction l as [|x l IH]; [done|]. rewrite !filter_cons. destruct (decide (P x)), (decide (Q x)); cbn; try lia. exfalso. auto.
Qed.

(** The nodes that are not over yet. *)
Definition remaining (w : world) : nat := length (filter (fun i => Complete i ∉ w_log w) (seqZ 0 (Z.of_nat (length G)))).

Definition finished (w : world) : Prop := forall i, 0 <= i < Z.of_nat (length G) -> Complete i ∈ w_log w.

Lemma all_done_finished l w : INV l w -> all_done w = true -> finished w.
Proof.
  intros [_ _ _ _ I4 _ _ I7 _ _] Hd. unfold all_done in Hd. rewrite !andb_true_iff, !bool_decide_eq_true in Hd.
  destruct Hd as [[[[H1 H2] H3] H4] _]. rewrite H1, H2, H3, H4 in I7. exact (proj2 (queues_idle G _ _ _ HG I4 I7)).
Qed.

Lemma finished_all_done l w : INV l w -> finished w -> all_done w = true.
Proof.
  intros [_ I2 _ I3 I4 _ _ I7 _ _] Hf. destruct (ordered_launches G _ I3) as (_ & Hr & HLC).
  assert (HQ : dg_p2pReady (w_dag w) ++ dg_redReady (w_dag w) = []).
  { destruct (_ ++ _) as [|i q] eqn:E; [done|]. destruct (qs_ready _ _ _ _ _ _ I7 i) as [Hi Hl]; [left|]. exfalso. by apply Hl, HLC, Hf. }
  assert (HF : in_flight w = []).
  { destruct (in_flight w) as [|i q] eqn:E; [done|].
    destruct (proj1 (qs_inflight _ _ _ _ _ _ I7 i)) as [Hl Hc]; [change (i ∈ in_flight w); rewrite E; left|]. exfalso. by apply Hc, Hf, Hr. }
  rewrite HQ in I7. unfold in_flight in HF. rewrite HF in I7. destruct (queues_idle G _ _ _ HG I4 I7) as [H0 _].
  unfold all_done. apply app_nil in HQ as [-> ->]. apply app_nil in HF as [-> ->]. by rewrite H0.
Qed.

(** One round: it keeps the invariant, it loses no completion, and in a prompt
    environment some node ends. *)
Lemma round_ok l w : INV l w -> all_done w = false -> 0 < size ->
  runs (uni_check (processReadyQueue ans dev comm_rank) (processInflightQueue ans dev)) w
    (result_ok G (fun w' => (exists l', INV l' w') /\ (prompt C ans dev -> (remaining w' < remaining w)%nat))).
Proof.
  intros I Hd Hpos. eapply result_check; [by apply (processReadyQueue_ok ans dev comm_rank G C size HG Hrun HN HL l w)|].
  intros w1 ((l1 & I1) & Hfl & Hc1). eapply runs_mono; [by apply (processInflightQueue_ok l1 w1)|].
  intros w2 r [Ho HQ]. split; [done|]. intros Hf. destruct (HQ Hf) as (H1 & H2 & H3). split; [done|]. intros Hp.
  destruct (in_flight w1) as [|i q] eqn:E.
  { exfalso. assert (Hfin : finished w) by (intros j Hj; apply Hc1; by apply Hfl).
    rewrite (finished_all_done l w I Hfin) in Hd. done. }
  assert (Hi : i ∈ in_flight w1) by (rewrite E; left).
  destruct I1 as [_ _ _ I13 _ _ _ I17 _ _]. apply (qs_inflight _ _ _ _ _ _ I17) in Hi as [Hil Hic]. rewrite Hc1 in Hic.
  assert (Hir : 0 <= i < Z.of_nat (length G)) by (by apply (ordered_launches G _ I13)).
  unfold remaining. rewrite (filter_remove_one (fun j => Complete j ∉ w_log w) _ i); [|apply NoDup_seqZ|done].
  rewrite bool_decide_eq_true_2 by (apply elem_of_seqZ; lia).
  rewrite Nat.add_1_r. apply Nat.lt_succ_r, filter_length_mono. intros j Hj. split; [intros Hj'; apply Hj, H2; by apply Hc1|].
  intros ->. apply Hj, H3; [done|left].
Qed.

End Loop.
