(* ===== verification/UniSchedSafe.v ===== *)
(** What the scheduler of [UniSched] guarantees of any graph that is well
    formed, in any lawful environment: the order of the launches, that it never
    waits for nothing, and that it ends. *)
From S2P Require Import Prelude Flagcx Arrays C2cRunner KernelTrigger UniDag UniDagBuild UniDagShape UniDagInit UniSched UniSchedPool UniSchedInv UniSchedStep UniSchedRun UniSchedLoop.

(** ** A kernel that keeps up *)

Fixpoint kernel_takes (fuel : nat) (f : reduceFifo) : reduceFifo :=
  match fuel with
  | O => f
  | S fuel => if rf_consumed f <? rf_produced f then
      kernel_takes fuel (MkRedFifo (rf_capacity f) (rf_consumed f +u64 1) (rf_produced f) (rf_terminate f) (rf_slots f)
        (rf_busy f ++ [Z.land (rf_consumed f) (rf_capacity f - 1)]))
    else f
  end.

Fixpoint kernel_ends (fuel : nat) (f : reduceFifo) : reduceFifo :=
  match fuel, rf_busy f with
  | S fuel, slot :: b =>
    match t ← arr_get (rf_slots f) slot; arr_set (rf_slots f) slot (setComplete t) with
    | Some l => kernel_ends fuel (MkRedFifo (rf_capacity f) (rf_consumed f) (rf_produced f) (rf_terminate f) l b)
    | None => f
    end
  | _, _ => f
  end.

Definition kernel_run (f : reduceFifo) : reduceFifo :=
  let f := kernel_takes (Z.to_nat (rf_produced f - rf_consumed f)) f in kernel_ends (length (rf_busy f)) f.

Lemma kernel_takes_reach fuel : forall f, reach kernel_step f (kernel_takes fuel f).
Proof.
  induction fuel as [|fuel IH]; intros f; cbn; [apply reach_refl|]. destruct (Z.ltb_spec (rf_consumed f) (rf_produced f)); [|apply reach_refl].
  eapply reach_step; [by apply kernel_take|]. apply IH.
Qed.

Lemma kernel_ends_reach fuel : forall f, reach kernel_step f (kernel_ends fuel f).
Proof.
  induction fuel as [|fuel IH]; intros f; cbn; [apply reach_refl|]. destruct (rf_busy f) as [|slot b] eqn:Eb; [apply reach_refl|].
  destruct (_ ≫= _) as [l|] eqn:El; [|apply reach_refl]. eapply reach_step; [by apply (kernel_end f [] slot b l)|]. apply IH.
Qed.

Lemma kernel_run_reach f : reach kernel_step f (kernel_run f).
Proof. eapply reach_trans; [apply kernel_takes_reach|apply kernel_ends_reach]. Qed.

Lemma kernel_takes_all C T fuel : forall f, fifo_ok C T f -> rf_produced f - rf_consumed f <= Z.of_nat fuel ->
  rf_produced (kernel_takes fuel f) = rf_consumed (kernel_takes fuel f).
Proof.
  induction fuel as [|fuel IH]; intros f I Hf; pose proof (fo_counters _ _ _ I); cbn; [lia|].
  destruct (Z.ltb_spec (rf_consumed f) (rf_produced f)) as [Hlt|]; [|lia]. apply IH.
  - by apply (kernel_step_ok C T f _ (kernel_take f Hlt)).
  - cbn. rewrite Z.mod_small by lia. lia.
Qed.

Lemma kernel_ends_all C T fuel : forall f, fifo_ok C T f -> (length (rf_busy f) <= fuel)%nat ->
  rf_busy (kernel_ends fuel f) = [] /\ rf_produced (kernel_ends fuel f) = rf_produced f /\ rf_consumed (kernel_ends fuel f) = rf_consumed f.
Proof.
  induction fuel as [|fuel IH]; intros f I Hf; cbn.
  { destruct (rf_busy f) as [|? ?] eqn:E; [done|cbn in Hf; lia]. }
  destruct (rf_busy f) as [|slot b] eqn:Eb; [done|].
  assert (Hr : 0 <= slot < C). { apply (fo_range _ _ _ I), (fo_inflight _ _ _ I). unfold underway. rewrite Eb, elem_of_app. right. left. }
  destruct (fifo_slot _ _ _ _ I Hr) as [t Ht]. rewrite Ht. cbn. rewrite arr_set_in by (rewrite (fo_slots _ _ _ I); lia).
  eapply (IH (MkRedFifo _ _ _ _ _ b)); [|cbn in *; lia].
  refine (proj1 (kernel_step_ok C T f _ (kernel_end f [] slot b _ Eb _) I)). rewrite Ht. cbn. by rewrite arr_set_in by (rewrite (fo_slots _ _ _ I); lia).
Qed.

Lemma kernel_run_idle C T f : fifo_ok C T f -> underway (kernel_run f) = [].
Proof.
  intros I. unfold kernel_run. set (f1 := kernel_takes _ f).
  assert (I1 : fifo_ok C T f1) by (apply (kernel_reach_ok C T f f1); [apply kernel_takes_reach|done]).
  assert (E : rf_produced f1 = rf_consumed f1).
  { apply (kernel_takes_all C T); [done|]. pose proof (fo_counters _ _ _ I). lia. }
  destruct (kernel_ends_all C T (length (rf_busy f1)) f1 I1 ltac:(lia)) as (H1 & H2 & H3).
  unfold underway, waiting. by rewrite H1, H2, H3, E, Z.sub_diag.
Qed.

(** ** Where the scheduler starts *)

(** The graph [G] before it runs: every node that waits for nobody is ready, in
    the queue of its kind. *)
Record initial (G : list uniRunnerDagNode) (d : dag) : Prop := {
  il_nodes : dg_nodes d = Some G;
  il_num : dg_numDagNodes d = Z.of_nat (length G);
  il_live : dg_live d = 1 + blocks G;
  il_ready : forall i, i ∈ dg_p2pReady d ++ dg_redReady d <-> exists n, arr_get G i = Some n /\ nd_numParents n = 0;
  il_nodup : NoDup (dg_p2pReady d ++ dg_redReady d);
  il_p2p : forall i, i ∈ dg_p2pReady d -> red_at G i = Some false;
  il_red : forall i, i ∈ dg_redReady d -> red_at G i = Some true;
  il_inflight : dg_p2pInflight d = [] /\ dg_redInflight d = [];
  il_pending : dg_numPendingNodes d = Z.of_nat (length (blocked (nd_numParents <$> G)))
}.

(** With fresh pools. *)
Record started (G : list uniRunnerDagNode) (C size : Z) (w : world) : Prop := {
  sd_dag : initial G (w_dag w);
  sd_log : w_log w = [];
  sd_pool : 0 < size /\ w_map w = MkBitmap (Some (replicate (Z.to_nat ((size + 63) / 64)) 0)) 0 size;
  sd_events : exists l, w_events w = Some l /\ Z.of_nat (length l) = size;
  sd_fifo : w_fifo w = Some (flagcxRedFifoInit C) /\ exists k, 0 <= k /\ C = 2 ^ k
}.

Lemma pool_fresh size : 0 < size -> let m := MkBitmap (Some (replicate (Z.to_nat ((size + 63) / 64)) 0)) 0 size in
  pool_ok m /\ forall k, in_use m k = false.
Proof.
  intros Hs m. split.
  - constructor; cbn; try lia. eexists. split; [done|]. rewrite length_replicate, Z2Nat.id; [done|]. apply Z.div_pos; lia.
  - intros k. unfold in_use. cbn. destruct (_ !! _) as [x|] eqn:E; [|done]. apply lookup_replicate in E as [-> _]. apply Z.bits_0.
Qed.

Lemma started_INV G C size w : dag_ok G -> started G C size w -> INV G C size G w.
Proof.
  intros HG S. pose proof (sd_dag _ _ _ _ S) as D. unfold INV. destruct (il_inflight _ _ D) as [-> ->]. destruct (sd_fifo _ _ _ _ S) as (Hf & k & Hk & HC).
  destruct (sd_pool _ _ _ _ S) as (Hs & Hm). destruct (pool_fresh size Hs) as [Hp Hu]. constructor.
  - apply D.
  - apply Forall2_same_length_lookup_2; [done|]. intros i x y Hx Hy. simplify_eq. done.
  - split; apply D.
  - rewrite (sd_log _ _ _ _ S). constructor.
  - rewrite (sd_log _ _ _ _ S). by apply counts_init.
  - intros i. rewrite app_nil_r. apply D.
  - intros i. rewrite app_nil_r. apply D.
  - rewrite (sd_log _ _ _ _ S). constructor.
    + rewrite app_nil_r. apply D.
    + intros i Hi. split; [|apply not_elem_of_nil]. apply (il_ready _ _ D) in Hi as (n & Hn & _). by eapply node_range.
    + intros i. split; [intros Hi; by apply elem_of_nil in Hi|intros [Hi _]; by apply elem_of_nil in Hi].
    + intros v x. rewrite list_lookup_fmap. destruct (G !! v) as [n|] eqn:Hn; cbn; [|done]. intros [= <-].
      rewrite (il_ready _ _ D). split.
      * intros H0. left. exists n. split; [|done]. apply arr_get_Some. rewrite Nat2Z.id. split; [lia|done].
      * intros [(n' & [_ Hn']%arr_get_Some & H0)|Hi]; [|by apply elem_of_nil in Hi]. rewrite Nat2Z.id in Hn'. by simplify_eq.
    + apply D.
  - constructor; rewrite ?Hm; cbn; try done.
    + apply S.
    + constructor.
    + intros j Hj. by apply elem_of_nil in Hj.
    + intros j _. etransitivity; [exact (Hu j)|]. symmetry. apply bool_decide_eq_false_2, not_elem_of_nil.
  - exists (flagcxRedFifoInit C). split; [done|]. split; [by eapply fifo_init|]. rewrite (sd_log _ _ _ _ S). done.
Qed.

(** ** The loop *)

Section Safe.
Variable ans : list uni_event -> uni_call -> flagcxResult_t * Z.
Variable dev : list uni_event -> reduceFifo -> reduceFifo.
Variable comm_rank : Z.
Variable G : list uniRunnerDagNode.
Variables C size : Z.
Hypothesis HG : dag_ok G.
Hypothesis Hrun : Forall runnable G.
Hypothesis HN : Z.of_nat (length G) < U64_MOD.
Hypothesis HL : lawful ans dev.

(** Every node is over, and every event and slot is given back. *)
Definition settled (w : world) : Prop :=
  (forall i, 0 <= i < Z.of_nat (length G) -> Launch i ∈ w_log w /\ Complete i ∈ w_log w) /\ all_done w = true /\
  (forall k, 0 <= k < size -> isAvailable (w_map w) k = Some true) /\
  exists f, w_fifo w = Some f /\ rf_terminate f = 1 /\ underway f = [] /\ forall j t, arr_get (rf_slots f) j = Some t -> pollState t = flagcxReduceTriggerAvailable.

Lemma all_done_settled l w f : INV G C size l w -> all_done w = true -> w_fifo w = Some f -> settled (set_fifo (Some (set_terminate 1 f)) w).
Proof.
  intros I Hd Hf. pose proof (all_done_finished G C size HG l w I Hd) as Hfin. destruct (ordered_launches G _ (iv_log _ _ _ _ _ _ _ _ _ I)) as (_ & _ & HLC).
  assert (Hin : dg_p2pInflight (w_dag w) = [] /\ dg_redInflight (w_dag w) = []).
  { unfold all_done in Hd. rewrite !andb_true_iff, !bool_decide_eq_true in Hd. tauto. }
  destruct Hin as [Hp Hr]. unfold INV in I. rewrite Hp, Hr in I. split; [|split; [done|split]].
  - intros i Hi. split; [by apply HLC, Hfin|by apply Hfin].
  - intros k Hk. destruct (iv_events _ _ _ _ _ _ _ _ _ I) as [H1 H2 _ _ _ H6]. cbn. rewrite isAvailable_spec by (done || lia).
    rewrite (H6 k Hk), bool_decide_eq_false_2 by apply not_elem_of_nil. done.
  - destruct (iv_fifo _ _ _ _ _ _ _ _ _ I) as (f0 & Hf0 & Hfo & _). assert (f0 = f) by congruence. subst f0.
    eexists. split; [reflexivity|]. split; [done|].
    assert (Hu : underway f = []). { destruct (underway f) as [|j q] eqn:E; [done|]. exfalso. eapply (not_elem_of_nil (A := Z) j), (fo_inflight _ _ _ Hfo). rewrite E. left. }
    split; [done|]. intros j t Ht. rewrite (fo_state _ _ _ Hfo j t Ht), Hu. rewrite !bool_decide_eq_false_2; [done|apply not_elem_of_nil|apply not_elem_of_nil].
Qed.

(** The result of the rounds, and that enough of them end the loop. *)
Lemma schedule_ok rounds : forall l w, 0 < size -> INV G C size l w ->
  runs (schedule ans dev comm_rank rounds) w (fun w' o => safe G w' /\
    match o with
    | None => (exists l', INV G C size l' w') /\ (prompt C ans dev -> (rounds <= remaining G w)%nat)
    | Some (false, r) => r = flagcxSuccess /\ settled w'
    | Some (true, r) => flagcx_failed r = true
    end).
Proof.
  induction rounds as [|rounds IH]; intros l w Hpos I; cbn.
  { apply runs_ret. split; [by eapply inv_safe|]. split; [by exists l|lia]. }
  apply runs_bind. eapply runs_get; [done|]. destruct (all_done w) eqn:Hd.
  - destruct (iv_fifo _ _ _ _ _ _ _ _ _ I) as (f & Hf & _). apply runs_bind. eapply runs_modify; [rewrite Hf; reflexivity|].
    apply runs_ret. split; [exact (inv_safe _ _ _ _ _ _ _ _ _ I)|]. split; [done|]. by apply (all_done_settled l).
  - destruct (round_ok ans dev comm_rank G C size HG Hrun HN HL l w I Hd Hpos) as (w' & r & Hp & Hsafe & HQ).
    unfold uni_check, bind in Hp. apply runs_bind. destruct (processReadyQueue _ _ _ w) as [[w1 r1]|] eqn:E; [|done].
    exists w1, r1. split; [done|]. destruct (flagcx_failed r1) eqn:E1.
    { injection Hp as -> ->. by apply runs_ret. }
    apply runs_bind. destruct (processInflightQueue _ _ w1) as [[w2 r2]|] eqn:E'; [|done]. injection Hp as -> ->.
    exists w', r. split; [done|]. destruct (flagcx_failed r) eqn:E2; [by apply runs_ret|]. destruct (HQ eq_refl) as [(l' & I') Hm].
    eapply runs_mono; [by apply (IH l' w' Hpos)|]. intros w2 o [Hs Ho]. split; [done|].
    destruct o as [[[] ?]|]; [done..|]. destruct Ho as [Hi Hr]. split; [done|]. intros Hpr. specialize (Hm Hpr). specialize (Hr Hpr). lia.
Qed.

End Safe.
