(* ===== verification/UniRunner.v ===== *)
(** The theorems about the scheduler of the uniform runner: safety, absence of
    deadlock and termination, for every well-formed graph; and an environment
    in which they are tried. *)
From S2P Require Import Prelude Flagcx Arrays C2cRunner KernelTrigger UniDag UniDagBuild UniDagShape UniDagInit UniSched UniSchedPool UniSchedInv UniSchedStep UniSchedRun UniSchedLoop UniSchedSafe.

(** ** The example

    Everything is granted and done at once: the sliced all-reduce of rank 0 of
    two, with one slice and one reduction. *)
Definition ex_ans (t : list uni_event) (c : uni_call) : flagcxResult_t * Z := (flagcxSuccess, 1 + Z.of_nat (length t)).
Definition ex_dev (t : list uni_event) (f : reduceFifo) : reduceFifo := kernel_run f.
Definition ex_args : uni_args := MkUniArgs 0 2 1 32 4096 8192 0 6 flagcxInt32 flagcxSum.
Definition ex_mem (n : nat) : bool := true.
Definition ex_zero : world := MkWorld dag_empty (MkBitmap None 0 0) None 0 None 0 0 0 flagcxSuccess false [] [].
Definition ex_graph : list uniRunnerDagNode := ar_node ex_args 1 <$> ar_tags ex_args 1.
Definition ex_world : world :=
  match bind (initUniRunner ex_ans 2 4 9) (fun _ => build_dag (initUniRunnerStateSlicedAR ex_mem ex_args 1)) ex_zero with
  | Some (w, _) => w
  | None => ex_zero
  end.

Lemma ex_lawful : lawful ex_ans ex_dev.
Proof. constructor; [done..|]. intros t f. apply kernel_run_reach. Qed.

Lemma ex_prompt C : prompt C ex_ans ex_dev.
Proof. constructor; [done|]. intros t f T. apply kernel_run_idle. Qed.

Lemma ex_dag_ok : dag_ok ex_graph.
Proof. apply ar_dag_ok; done. Qed.

Lemma ex_runnable : Forall runnable ex_graph.
Proof. by repeat constructor. Qed.

Lemma ex_initial : initial ex_graph (w_dag ex_world).
Proof.
  constructor; lazymatch goal with |- _ = _ => vm_compute; reflexivity | |- _ => idtac end.
  - change (dg_p2pReady (w_dag ex_world) ++ dg_redReady (w_dag ex_world)) with [0]. intros i. rewrite list_elem_of_singleton. split.
    + intros ->. eexists. split; [vm_compute; reflexivity|done].
    + intros (n & [Hi Hn]%arr_get_Some & H0). destruct (Z.to_nat i) as [|[|[|k]]] eqn:E; [lia|..]; vm_compute in Hn; simplify_eq; vm_compute in H0; done.
  - change (NoDup [0]). apply NoDup_singleton.
  - intros i Hi. change (dg_p2pReady (w_dag ex_world)) with [0] in Hi. apply list_elem_of_singleton in Hi as ->. vm_compute. reflexivity.
  - intros i Hi. change (dg_redReady (w_dag ex_world)) with (@nil Z) in Hi. by apply elem_of_nil in Hi.
  - split; vm_compute; reflexivity.
Qed.

Lemma ex_started : started ex_graph 4 2 ex_world.
Proof.
  constructor; [apply ex_initial|vm_compute; reflexivity|split; vm_compute; reflexivity|..].
  - eexists. split; [vm_compute; reflexivity|done].
  - split; [vm_compute; reflexivity|]. by exists 2.
Qed.

(** ** The scheduler *)

(** C4: the scheduler runs any well-formed graph safely, in any lawful
    environment: it is always defined, each node is launched at most once and
    only after all its parents are complete, and it stops without an error only
    when every node is complete and all its events and slots are free again. *)
Theorem scheduler_safe ans dev comm_rank G C size w rounds :
  dag_ok G -> Forall runnable G -> Z.of_nat (length G) < U64_MOD -> lawful ans dev -> started G C size w ->
  exists w' o, schedule ans dev comm_rank rounds w = Some (w', o) /\ ordered G (w_log w') /\ held G w' /\
    match o with
    | None => True
    | Some (true, r) => flagcx_failed r = true
    | Some (false, r) => r = flagcxSuccess /\ settled G size w'
    end.
Proof.
  intros HG Hrun HN HL HS. destruct (sd_pool _ _ _ _ HS) as [Hpos _].
  destruct (schedule_ok ans dev comm_rank G C size HG Hrun HN HL rounds G w Hpos (started_INV _ _ _ _ HG HS)) as (w' & o & E & [Ho Hh] & H).
  exists w', o. split; [done|]. split; [done|]. split; [done|]. by destruct o as [[[] ?]|].
Qed.

Lemma scheduler_safe_witness :
  exists w' o, schedule ex_ans ex_dev 0 5 ex_world = Some (w', o) /\ ordered ex_graph (w_log w') /\ held ex_graph w' /\
    match o with
    | None => True
    | Some (true, r) => flagcx_failed r = true
    | Some (false, r) => r = flagcxSuccess /\ settled ex_graph 2 w'
    end.
Proof. apply (scheduler_safe ex_ans ex_dev 0 ex_graph 4 2 ex_world 5); [apply ex_dag_ok|apply ex_runnable|done|apply ex_lawful|apply ex_started]. Defined.

(** the scheduler never waits for nothing: in every round that is not the
    last one, once the ready nodes are launched some node is in flight. *)
Theorem scheduler_progress ans dev comm_rank G C size w rounds w1 :
  dag_ok G -> Forall runnable G -> Z.of_nat (length G) < U64_MOD -> lawful ans dev -> started G C size w ->
  schedule ans dev comm_rank rounds w = Some (w1, None) -> all_done w1 = false ->
  exists w2 r, processReadyQueue ans dev comm_rank w1 = Some (w2, r) /\ (flagcx_failed r = false -> in_flight w2 <> []).
Proof.
  intros HG Hrun HN HL HS E Hd. destruct (sd_pool _ _ _ _ HS) as [Hpos _].
  destruct (schedule_ok ans dev comm_rank G C size HG Hrun HN HL rounds G w Hpos (started_INV _ _ _ _ HG HS)) as (w' & o & E' & _ & H).
  rewrite E in E'. injection E' as <- <-. destruct H as [(l & I) _].
  destruct (processReadyQueue_ok ans dev comm_rank G C size HG Hrun HN HL l w1 I) as (w2 & r & Ep & _ & HQ).
  exists w2, r. split; [done|]. intros Hr Hf. destruct (HQ Hr) as (_ & Hfin & Hc).
  rewrite (finished_all_done G C size HG l w1 I) in Hd; [done|]. intros i Hi. by apply Hc, Hfin.
Qed.

Lemma scheduler_progress_witness : exists w1, schedule ex_ans ex_dev 0 1 ex_world = Some (w1, None) /\ all_done w1 = false /\
  exists w2 r, processReadyQueue ex_ans ex_dev 0 w1 = Some (w2, r) /\ (flagcx_failed r = false -> in_flight w2 <> []).
Proof.
  eexists. split; [vm_compute; reflexivity|]. split; [vm_compute; reflexivity|].
  apply (scheduler_progress ex_ans ex_dev 0 ex_graph 4 2 ex_world 1);
    [apply ex_dag_ok|apply ex_runnable|done|apply ex_lawful|apply ex_started|vm_compute; reflexivity|vm_compute; reflexivity].
Defined.

(** C18: in an environment that answers every query when asked, the loop ends
    after at most one round per node and one more. *)
Theorem scheduler_ends ans dev comm_rank G C size w :
  dag_ok G -> Forall runnable G -> Z.of_nat (length G) < U64_MOD -> lawful ans dev -> prompt C ans dev -> started G C size w ->
  exists w' ended, schedule ans dev comm_rank (S (length G)) w = Some (w', Some ended).
Proof.
  intros HG Hrun HN HL HP HS. destruct (sd_pool _ _ _ _ HS) as [Hpos _].
  destruct (schedule_ok ans dev comm_rank G C size HG Hrun HN HL (S (length G)) G w Hpos (started_INV _ _ _ _ HG HS)) as (w' & o & E & _ & H).
  destruct o as [ended|]; [by exists w', ended|]. exfalso. destruct H as [_ H]. specialize (H HP).
  unfold remaining in H. pose proof (length_filter (fun i => Complete i ∉ w_log w) (seqZ 0 (Z.of_nat (length G)))) as Hl.
  rewrite length_seqZ in Hl. lia.
Qed.

Lemma scheduler_ends_witness : exists w' ended, schedule ex_ans ex_dev 0 4 ex_world = Some (w', Some ended).
Proof.
  apply (scheduler_ends ex_ans ex_dev 0 ex_graph 4 2 ex_world);
    [apply ex_dag_ok|apply ex_runnable|done|apply ex_lawful|apply ex_prompt|apply ex_started].
Defined.
