(* ===== verification/UniCollective.v ===== *)
(** A collective of the uniform runner from set-up to clean-up: building the
    graph, running it and giving everything back, whatever fails on the way. *)
From S2P Require Import Prelude Flagcx Arrays C2cRunner KernelTrigger UniDag UniDagBuild UniDagShape UniDagInit UniSched UniLedger UniSchedPool UniSchedInv UniSchedStep UniSchedRun UniSchedLoop UniSchedSafe UniRunner.

(** ** Clean-up *)

(** The array is as long as [numDagNodes] says. *)
Definition sized (d : dag) : Prop := match dg_nodes d with Some l => Z.to_nat (dg_numDagNodes d) = length l | None => True end.

(** Nothing is held. *)
Record clean (w : world) : Prop := {
  cl_nodes : dg_nodes (w_dag w) = None;
  cl_live : dg_live (w_dag w) = 0;
  cl_fifo : w_fifo w = None;
  cl_events : w_events w = None;
  cl_bits : bm_bits (w_map w) = None;
  cl_streams : w_redStream w = 0 /\ w_cpyStream w = 0
}.

Lemma freed_blocks (l : list uniRunnerDagNode) :
  foldr (fun n acc => match nd_data n with P2pNode (Some _) _ => 1 | _ => 0 end + match nd_children n with Some _ => 1 | None => 0 end + acc) 0 l = blocks l.
Proof. induction l as [|n l IH]; cbn; [done|]. unfold node_blocks. by rewrite IH. Qed.

Section Cleanup.
Variable ans : list uni_event -> uni_call -> flagcxResult_t * Z.

Lemma runs_unless_null stream (c : Z -> uni_call) r w Q : (forall t r, Q (set_trace t w) r) -> runs (unless_null stream (fun s => do_call ans (c s)) r) w Q.
Proof.
  intros H. unfold unless_null. apply runs_bind. eapply runs_get; [done|]. destruct (stream w =? 0).
  - apply runs_ret. destruct w. apply (H w_trace).
  - apply runs_bind, runs_call. intros t. apply runs_ret, H.
Qed.

Lemma first_error_not_success r first : first <> flagcxSuccess -> flagcxRunnerRecordFirstError r first <> flagcxSuccess.
Proof.
  intros H. unfold flagcxRunnerRecordFirstError. destruct (_ && _) eqn:E; [|done]. apply andb_true_iff in E as [_ E]. intros ->. done.
Qed.

Lemma runs_destroy l : forall r w Q, (forall t r', (r <> flagcxSuccess -> r' <> flagcxSuccess) -> Q (set_trace t w) r') -> runs (destroy_events ans l r) w Q.
Proof.
  induction l as [|e l IH]; intros r w Q H; cbn.
  - apply runs_ret. destruct w. by apply (H w_trace).
  - apply runs_bind, runs_call. intros t. apply IH. intros t' r' Hr'. apply H. intros Hr. by apply Hr', first_error_not_success.
Qed.

Lemma runs_free b held w (Q : world -> unit -> Prop) : (forall t, Q (set_trace t w) tt) -> runs (free_block ans b held) w Q.
Proof.
  intros H. unfold free_block. apply runs_bind. eapply runs_get; [done|]. destruct (held w).
  - apply runs_bind, runs_call. intros t. apply runs_ret, H.
  - apply runs_ret. destruct w. apply (H w_trace).
Qed.

(** Everything is given back, from any state in which the blocks of the graph
    are those its nodes hold. *)
Lemma cleanupUniRunner_ok w : sized (w_dag w) -> accounted (w_dag w) ->
  runs (cleanupUniRunner ans) w (fun w' _ => clean w' /\ w_log w' = w_log w).
Proof.
  intros Hs Ha. unfold cleanupUniRunner.
  apply runs_bind, runs_unless_null. intros t1 r1. apply runs_bind, runs_unless_null. intros t2 r2. apply runs_bind, runs_unless_null. intros t3 r3.
  apply runs_bind. eexists _, _. split; [reflexivity|]. apply runs_bind. unfold cleanupP2pEvents. apply runs_bind. eapply runs_get; [reflexivity|].
  apply runs_bind, runs_destroy. intros t4 r4 _. apply runs_bind, runs_free. intros t8. apply runs_bind, runs_free. intros t9. apply runs_bind. eapply runs_modify; [reflexivity|]. apply runs_ret.
  apply runs_bind, runs_unless_null. intros t5 r5. apply runs_bind, runs_unless_null. intros t6 r6. apply runs_bind. eapply runs_modify; [reflexivity|].
  assert (Hfreed : dg_live (w_dag w) - match dg_nodes (w_dag w) with
                               | None => 0
                               | Some l => 1 + foldr (fun n acc =>
                   match nd_data n with P2pNode (Some _) _ => 1 | _ => 0 end + match nd_children n with Some _ => 1 | None => 0 end + acc) 0
                   (take (Z.to_nat (dg_numDagNodes (w_dag w))) l)
               end = 0).
  { rewrite Ha. unfold dag_blocks. unfold sized in Hs. destruct (dg_nodes (w_dag w)) as [l|]; [|done].
    rewrite Hs, firstn_all. pose proof (freed_blocks l) as Hfb. lia. }
  apply runs_bind. eapply runs_get; [reflexivity|]. cbn. destruct (w_fifo w) eqn:Ef.
  - apply runs_bind, runs_call. intros t7. apply runs_bind, runs_call. intros t10. apply runs_bind. eapply runs_modify; [reflexivity|]. apply runs_ret.
    by split; [constructor|].
  - apply runs_ret. by split; [constructor|].
Qed.

(** ** Set-up *)

Lemma runs_create n : forall created w Q,
  (forall t r l, (r = flagcxSuccess -> length l = (length created + n)%nat) -> Q (set_trace t w) (r, l)) -> runs (create_events ans n created) w Q.
Proof.
  induction n as [|n IH]; intros created w Q H; cbn.
  - apply runs_ret. destruct w. apply (H w_trace). intros _. lia.
  - apply runs_bind. eexists _, _. split; [reflexivity|]. case_bool_decide as E.
    + apply IH. intros t r l Hl. apply (H t). intros Hr. rewrite (Hl Hr), length_app. cbn. lia.
    + apply runs_ret. apply H. done.
Qed.

(** What [initUniRunner] leaves. *)
Record set_up (C size : Z) (w : world) : Prop := {
  su_dag : exists k, w_dag w = MkDag None 0 0 [] [] [] [] k 0;
  su_map : w_map w = MkBitmap (Some (replicate (Z.to_nat ((size + 63) / 64)) 0)) 0 size;
  su_events : exists l, w_events w = Some l /\ Z.of_nat (length l) = size;
  su_fifo : w_fifo w = Some (flagcxRedFifoInit C)
}.

Lemma initP2pEvents_ok C size w k : 0 <= size -> w_dag w = MkDag None 0 0 [] [] [] [] k 0 -> w_fifo w = Some (flagcxRedFifoInit C) ->
  runs (initP2pEvents ans size) w (fun w' r => w_log w' = w_log w /\ w_dag w' = w_dag w /\ (r = flagcxSuccess -> set_up C size w')).
Proof.
  intros Hs Hd Hf. unfold initP2pEvents. apply runs_bind. eapply runs_modify; [reflexivity|]. apply runs_bind, runs_call. intros t.
  case_bool_decide as E; cbn [negb]; [|by apply runs_ret; split_and!].
  apply runs_bind, runs_create. intros t2 r l Hl. apply runs_bind. eapply runs_modify; [reflexivity|]. cbn [fst snd].
  assert (Hgo : forall r2 t3, (r2 = flagcxSuccess -> length l = Z.to_nat size) ->
    runs (if bool_decide (r2 = flagcxSuccess) then
      do! modify (fun w => Some (set_map (MkBitmap (Some (replicate (Z.to_nat ((size + 63) / 64)) 0)) 0 size) w)) in ret flagcxSuccess
    else run! r := destroy_events ans l r2 in
      do! do_call ans (UFree EventArray) in
      do! modify (fun w => Some (set_map (MkBitmap (bm_bits (w_map w)) (bm_nextIdx (w_map w)) 0) (set_events None 0 w))) in ret r)
     (set_trace t3 (set_events (Some l) (Z.of_nat (length l)) (set_map (MkBitmap None 0 size) (set_events None 0 w))))
     (fun w' r => w_log w' = w_log w /\ w_dag w' = w_dag w /\ (r = flagcxSuccess -> set_up C size w'))).
  { intros r2 t3 Hlen. case_bool_decide as E2.
    - apply runs_bind. eapply runs_modify; [reflexivity|]. apply runs_ret. split_and!; try done. intros _. constructor; try done.
      + by exists k.
      + exists l. split; [done|]. rewrite Hlen; [lia|done].
    - apply runs_bind, runs_destroy. intros t4 r4 Hr4. apply runs_bind, runs_call. intros t5. apply runs_bind. eapply runs_modify; [reflexivity|]. apply runs_ret. split_and!; try done.
      intros ->. by destruct (Hr4 E2). }
  apply runs_bind. case_bool_decide as E2.
  - apply runs_call. intros t3. apply Hgo. intros _. rewrite Hl by done. done.
  - apply runs_ret. apply (Hgo r t2). done.
Qed.

(** The set-up leaves the fresh pools, or nothing. *)
Definition set_up_or_clean (C size : Z) (w w' : world) (r : flagcxResult_t) : Prop :=
  w_log w' = w_log w /\ (r = flagcxSuccess -> set_up C size w') /\ (r <> flagcxSuccess -> clean w').

Lemma init_fail_ok C size w0 w r : r <> flagcxSuccess -> sized (w_dag w) -> accounted (w_dag w) -> w_log w = w_log w0 ->
  runs (init_fail ans r) w (set_up_or_clean C size w0).
Proof.
  intros Hr Hs Ha Hl. unfold init_fail. apply runs_bind. eapply runs_mono; [by apply cleanupUniRunner_ok|]. intros w' r' [Hc Hl'].
  apply runs_ret. split; [congruence|]. split; [|done]. intros E. by destruct (first_error_not_success r' r Hr).
Qed.

Lemma initUniRunner_ok C size stream w : 0 <= size -> clean w -> (forall t n, (ans t (UHostMalloc n)).1 <> flagcxInProgress) ->
  runs (initUniRunner ans size C stream) w (set_up_or_clean C size w).
Proof.
  intros Hs [H1 H2 H3 H4 H5 [H6 H7]] HM. unfold initUniRunner. apply runs_bind, runs_call. intros t1.
  case_bool_decide as E1; cbn [negb]; [|by apply runs_ret; split; [|split; [|constructor]]].
  apply runs_bind. eapply runs_modify; [reflexivity|]. match goal with |- runs _ ?x _ => set (w1 := x) end.
  assert (Hc1 : forall t, clean (set_trace t w1)) by (intros t; by constructor).
  apply runs_bind, runs_call. intros t2. case_bool_decide as E2; cbn [negb]; [|by apply runs_ret; split; [|split; [|intros _; apply Hc1]]].
  apply runs_bind, runs_call. intros t3. set (r3 := (ans _ _).1). destruct (flagcx_failed r3) eqn:E3.
  { apply runs_bind, runs_call. intros t4. apply runs_ret. split; [done|]. split; [by intros E; rewrite E in E3|intros _; apply Hc1]. }
  case_bool_decide as E3'; cbn [negb].
  2: { exfalso. unfold flagcx_failed in E3. rewrite (bool_decide_eq_false_2 _ E3'), bool_decide_eq_false_2 in E3 by apply HM. done. }
  apply runs_bind. eapply runs_modify; [reflexivity|].
  apply runs_bind, runs_call. intros t4. case_bool_decide as E4; cbn [negb]; [|apply init_fail_ok; [done|done|exact H2|done]].
  apply runs_bind. eapply runs_modify; [reflexivity|].
  match goal with |- runs _ (set_dag ?d _) _ => assert (Hd : exists k, d = MkDag None 0 0 [] [] [] [] k 0) end.
  { cbn. rewrite H2. by eexists. }
  destruct Hd as [k ->]. apply runs_bind. eapply runs_mono; [by apply (initP2pEvents_ok C size _ k Hs)|]. intros w2 r (Hl2 & Hd2 & Hset).
  assert (Hsa : forall t, sized (w_dag (set_trace t w2)) /\ accounted (w_dag (set_trace t w2))) by (intros t; unfold sized, accounted; cbn; by rewrite Hd2).
  case_bool_decide as E5; cbn [negb]; [|apply init_fail_ok; [done| | |done]; unfold sized, accounted; by rewrite Hd2].
  specialize (Hset E5) as [[k' Hk] Hm He Hf].
  apply runs_bind. eexists _, _. split; [reflexivity|]. case_bool_decide as E6; cbn [negb]; [|apply init_fail_ok; [done|apply Hsa|apply Hsa|done]].
  apply runs_bind. eapply runs_modify; [reflexivity|].
  apply runs_bind. eexists _, _. split; [reflexivity|]. case_bool_decide as E7; cbn [negb]; [|apply init_fail_ok; [done|apply Hsa|apply Hsa|done]].
  apply runs_bind. eapply runs_modify; [reflexivity|]. apply runs_ret. split; [done|]. split; [|done]. intros _. constructor; try done. by exists k'.
Qed.
End Cleanup.

(** ** Building keeps the size of the array *)

Definition keeps (p : build) : Prop := forall s r s', p s = Some (r, s') -> sized s.2 -> sized s'.2.
(** From no array. *)
Definition sizes (p : build) : Prop := forall s r s', p s = Some (r, s') -> dg_nodes s.2 = None -> sized s'.2.

Lemma arr_set_length {A} (l l' : list A) i x : arr_set l i x = Some l' -> length l' = length l.
Proof. unfold arr_set. destruct (_ && _); [|done]. intros [= <-]. apply length_insert. Qed.

Lemma keeps_finish : keeps finish.
Proof. by intros s r s' [= _ <-]. Qed.

Lemma keeps_refuse r0 : keeps (fun s => Some (r0, s)).
Proof. by intros s r s' [= _ <-]. Qed.

Lemma keeps_none : keeps (fun _ => None).
Proof. done. Qed.

Lemma keeps_then p q : keeps p -> keeps q -> keeps (and_then p q).
Proof.
  intros Hp Hq s r s' E Hs. unfold and_then in E. destruct (p s) as [[r1 s1]|] eqn:E1; cbn in E; [|done]. specialize (Hp _ _ _ E1 Hs).
  destruct (flagcx_failed r1); [by simplify_eq|by eapply Hq].
Qed.

Lemma sizes_then p q : sizes p -> keeps q -> sizes (and_then p q).
Proof.
  intros Hp Hq s r s' E Hs. unfold and_then in E. destruct (p s) as [[r1 s1]|] eqn:E1; cbn in E; [|done]. specialize (Hp _ _ _ E1 Hs).
  destruct (flagcx_failed r1); [by simplify_eq|by eapply Hq].
Qed.

Lemma sizes_refuse r0 : sizes (fun s => Some (r0, s)).
Proof. intros s r s' [= _ <-] Hs. unfold sized. by rewrite Hs. Qed.

Lemma sizes_none : sizes (fun _ => None).
Proof. done. Qed.

Lemma keeps_for n body : (forall i, keeps (body i)) -> keeps (for_to n body).
Proof.
  intros H. unfold for_to. generalize 0 as i. induction (Z.to_nat n) as [|k IH]; intros i; cbn; [apply keeps_finish|]. by apply keeps_then.
Qed.

Lemma keeps_on_dag f : (forall d, dg_nodes (f d) = dg_nodes d /\ dg_numDagNodes (f d) = dg_numDagNodes d) -> keeps (on_dag f).
Proof. intros H s r s' [= _ <-] Hs. cbn. unfold sized. by destruct (H s.2) as [-> ->]. Qed.

Lemma keeps_calloc mem : keeps (calloc mem).
Proof. by intros [g d] r s' [= _ <-] Hs. Qed.

Lemma keeps_upd i f : keeps (upd_node i f).
Proof.
  intros [g d] r s' E Hs. cbn in E, Hs. unfold sized in Hs. destruct (dg_nodes d) as [l|] eqn:El; cbn in E; [|done]. destruct (arr_get l i) as [n|]; cbn in E; [|done].
  destruct (arr_set l i (f n)) as [l'|] eqn:E'; cbn in E; [|done]. injection E as _ <-. unfold sized. cbn. apply arr_set_length in E'. congruence.
Qed.

Lemma keeps_set_child i j c : keeps (set_child i j c).
Proof.
  intros [g d] r s' E Hs. cbn in E, Hs. unfold sized in Hs. destruct (dg_nodes d) as [l|] eqn:El; cbn in E; [|done]. destruct (arr_get l i) as [n|]; cbn in E; [|done].
  destruct (nd_children n) as [cs|]; cbn in E; [|done]. destruct (arr_set cs j c) as [cs'|]; cbn in E; [|done].
  destruct (arr_set l i _) as [l'|] eqn:E'; cbn in E; [|done]. injection E as _ <-. unfold sized. cbn. apply arr_set_length in E'. congruence.
Qed.

Lemma keeps_with_idx k : (forall i, keeps (k i)) -> keeps (with_idx k).
Proof. intros H [g d] r s' E Hs. by eapply (H g). Qed.

Lemma keeps_here k : (forall i, keeps (k i)) -> keeps (here k).
Proof. intros H [g d] r s' E Hs. by eapply (H g). Qed.

Lemma keeps_divide n : keeps (divide_by n).
Proof. intros s r s'. unfold divide_by. destruct (n =? 0); [done|]. by intros [= _ <-]. Qed.

Create HintDb sized.
#[export] Hint Resolve keeps_finish keeps_none keeps_calloc keeps_upd keeps_set_child keeps_divide keeps_refuse : sized.

Ltac keep :=
  repeat first
    [ progress (eauto 1 with sized; fail) | progress (cbv zeta) | progress (intros)
    | apply keeps_then | apply keeps_for | apply keeps_with_idx | apply keeps_here | solve [apply keeps_on_dag; by intros []]
    | progress unfold p2p_node, p2p_parents, red_node, alloc_children, set_numChildren, set_parents, pend, enqueue_p2p, enqueue_red, step_children
    | solve [eauto 2 with sized] | case_match ].

Lemma sizes_alloc mem n : sizes (alloc_nodes mem n).
Proof.
  intros [g d] r s' E Hs. unfold alloc_nodes, and_then, on_dag, calloc in E. cbn in E, Hs. destruct (mem _); cbn in E; injection E as _ <-; unfold sized; cbn.
  - by rewrite length_replicate.
  - by rewrite Hs.
Qed.

Lemma sizes_builder p : keeps p -> sizes p.
Proof. intros H s r s' E Hs. eapply H; [exact E|]. unfold sized. by rewrite Hs. Qed.

Lemma sizes_after_calloc mem p : sizes p -> sizes (and_then (calloc mem) p).
Proof.
  intros H [g d] r s' E Hs. unfold and_then in E. cbn in E. destruct (flagcx_failed _).
  - injection E as _ <-. unfold sized. cbn in *. by rewrite Hs.
  - by eapply H.
Qed.

Lemma sizes_single mem a : sizes (single_copy mem a).
Proof.
  unfold single_copy. destruct (_ && _); [|apply sizes_builder, keeps_finish].
  apply sizes_after_calloc, sizes_then; [by intros s r s' [= _ <-] _|keep].
Qed.

Lemma sizes_sliced_ar mem a R : sizes (initUniRunnerStateSlicedAR mem a R).
Proof.
  unfold initUniRunnerStateSlicedAR. destruct (_ <? 1); [apply sizes_refuse|]. destruct (_ =? 1); [apply sizes_single|]. cbv zeta.
  apply sizes_then; [apply sizes_alloc|]. unfold sliced_scatter_step, ar_gather_step. keep.
Qed.

Lemma sizes_ring_ar mem a : sizes (initUniRunnerStateRingAR mem a).
Proof.
  unfold initUniRunnerStateRingAR. destruct (_ <? 1); [apply sizes_refuse|]. destruct (_ =? 1); [apply sizes_single|]. cbv zeta.
  apply sizes_then; [apply sizes_alloc|]. unfold ar_scatter_step, ar_gather_step. keep.
Qed.

Lemma sizes_ring_rs mem a R : sizes (initUniRunnerStateRingRS mem a R).
Proof.
  unfold initUniRunnerStateRingRS. destruct (_ <? 1); [apply sizes_refuse|]. destruct (_ =? 1); [apply sizes_single|]. cbv zeta.
  apply sizes_then; [apply sizes_alloc|]. unfold rs_step. keep.
Qed.

Lemma sizes_tree mem a root R : sizes (initUniRunnerStateTreeRed mem a root R).
Proof.
  unfold initUniRunnerStateTreeRed. destruct (_ =? 0); [apply sizes_none|]. destruct (_ <? 1); [apply sizes_refuse|]. destruct (_ =? 1); [apply sizes_single|]. cbv zeta.
  apply sizes_then; [apply sizes_alloc|]. unfold tree_recv_step, tree_send. keep.
Qed.

(** ** A collective *)

Lemma same_blocks (G l : list uniRunnerDagNode) : Forall2 same_node G l -> blocks G = blocks l.
Proof.
  induction 1 as [|n0 n G l (H1 & _ & H3) _ IH]; [done|]. cbn. rewrite IH. f_equal. unfold node_blocks. rewrite H3.
  by destruct (nd_data n0), (nd_data n); simplify_eq/=.
Qed.

(** [b] makes the graph [G] or reports that memory ran out. *)
Record implements (mem : nat -> bool) (b : build) (G : list uniRunnerDagNode) : Prop := {
  im_sizes : sizes b;
  im_triple : triple mem fresh b (fun s => initial G s.2);
  im_dag : dag_ok G;
  im_runnable : Forall runnable G
}.

(** Where the first node alone is ready. *)
Lemma filled_initial n l s : is_red n = false -> nd_numParents n = 0 -> Forall (fun n => nd_numParents n <> 0) l ->
  filled (Z.of_nat (length (n :: l))) (n :: l) 0 s -> initial (n :: l) s.2.
Proof.
  intros Hr H0 Hl (k & ->). cbn [replicate]. rewrite app_nil_r.
  assert (Hg : Z.of_nat (length (n :: l)) =? 0 = false) by (by apply Z.eqb_neq). rewrite Hg.
  constructor; cbn [dg_nodes dg_numDagNodes dg_live dg_p2pReady dg_redReady dg_p2pInflight dg_redInflight dg_numPendingNodes snd]; try done.
  - intros i. rewrite app_nil_r, list_elem_of_singleton. split; [intros ->; by exists n|]. intros (n' & [Hi Hn']%arr_get_Some & Hn0).
    destruct (Z.to_nat i) as [|j] eqn:Ei; [lia|]. cbn in Hn'. exfalso. by apply (Forall_lookup_1 _ _ _ _ Hl) in Hn'.
  - apply NoDup_singleton.
  - intros i ->%list_elem_of_singleton. change (Some (is_red n) = Some false). by rewrite Hr.
  - intros i Hi. by apply elem_of_nil in Hi.
  - unfold blocked. rewrite fmap_cons, filter_cons_False by (rewrite H0; intros ?; done).
    rewrite filter_all; [rewrite length_fmap; cbn; lia|]. apply Forall_fmap. exact Hl.
Qed.

Section Collective.
Variable ans : list uni_event -> uni_call -> flagcxResult_t * Z.
Variable dev : list uni_event -> reduceFifo -> reduceFifo.
Variable comm_rank : Z.
Variables C size : Z.
Hypothesis Hpos : 0 < size.
Hypothesis HC : exists k, 0 <= k /\ C = 2 ^ k.

Lemma build_dag_ok mem b G w : implements mem b G -> set_up C size w -> w_log w = [] ->
  runs (build_dag b) w (fun w' r => r = flagcxSuccess /\ started G C size w' \/
    r = flagcxSystemError /\ sized (w_dag w') /\ accounted (w_dag w') /\ w_log w' = []).
Proof.
  intros Him Hset Hlog. pose proof (su_dag _ _ _ Hset) as (k & Hk). unfold build_dag, runs.
  destruct (im_triple _ _ _ Him (0, w_dag w)) as (r & [g d] & E & H); [by exists k; rewrite Hk|]. rewrite E. cbn.
  eexists _, _. split; [reflexivity|]. destruct H as [[-> Hfill]|(-> & Ha & _)].
  - left. split; [done|]. destruct Hset as [_ Hm He Hf]. by constructor.
  - right. split; [done|]. split; [|done]. apply (im_sizes _ _ _ Him _ _ _ E). cbn. by rewrite Hk.
Qed.

Lemma first_error_was_success r first : flagcxRunnerRecordFirstError r first = flagcxSuccess -> first = flagcxSuccess.
Proof. intros E. destruct (decide (first = flagcxSuccess)); [done|]. by destruct (first_error_not_success r first). Qed.

(** What a run leaves: [None] when the rounds were not enough. *)
Definition run_ok (G : list uniRunnerDagNode) (rounds : nat) (w : world) (o : option flagcxResult_t) : Prop :=
  safe G w /\
  match o with
  | None => prompt C ans dev -> (rounds <= length G)%nat
  | Some r => r = flagcxSuccess -> forall i, 0 <= i < Z.of_nat (length G) -> Complete i ∈ w_log w
  end.

Lemma run_fail_ok G rounds r w : safe G w -> flagcx_failed r = true ->
  runs (run! r := run_fail r in ret (Some r)) w (run_ok G rounds).
Proof.
  intros Hs Hr. apply runs_bind. unfold run_fail. apply runs_bind. eapply runs_modify; [reflexivity|]. unfold flagcxProxyRecordAsyncError. rewrite Hr. cbn [negb].
  eexists _, _. split; [reflexivity|]. apply runs_ret. split; [by destruct (w_fifo w)|]. intros ->. done.
Qed.

Lemma runUniRunner_ok G w rounds : dag_ok G -> Forall runnable G -> Z.of_nat (length G) < U64_MOD -> lawful ans dev -> started G C size w ->
  runs (runUniRunner ans dev comm_rank rounds) w (run_ok G rounds).
Proof.
  intros HG Hrun HN HL HS. unfold runUniRunner. apply runs_bind, runs_call. intros t.
  assert (I : INV G C size G (set_trace t w)).
  { exact (inv_trace G C size _ _ _ _ _ _ t (started_INV G C size w HG HS)). }
  apply runs_bind. eapply runs_mono; [by apply (schedule_ok ans dev comm_rank G C size HG Hrun HN HL rounds G _ Hpos I)|].
  intros w' o [Hs Ho]. destruct o as [[[] r]|].
  - by apply run_fail_ok.
  - destruct Ho as (_ & Hset & _). apply runs_bind. unfold sync. apply runs_bind. eapply runs_get; [reflexivity|]. apply runs_call. intros t1.
    apply runs_bind, runs_bind. eapply runs_get; [reflexivity|]. apply runs_call. intros t2.
    apply runs_bind, runs_bind. eapply runs_get; [reflexivity|]. apply runs_call. intros t3. destruct (flagcx_failed _) eqn:Ef.
    + by apply run_fail_ok.
    + apply runs_ret. split; [done|]. intros _ i Hi. by apply Hset.
  - apply runs_ret. split; [done|]. intros Hp. destruct Ho as [_ Ho]. etransitivity; [by apply Ho|]. unfold remaining.
    etransitivity; [apply length_filter|]. rewrite length_seqZ. lia.
Qed.

(** Nothing is held, whatever happened, and a success means that every node is
    complete. *)
Definition run_post (G : list uniRunnerDagNode) (rounds : nat) (w : world) (o : option flagcxResult_t) : Prop :=
  ordered G (w_log w) /\
  match o with
  | None => prompt C ans dev -> (rounds <= length G)%nat
  | Some r => clean w /\ (r = flagcxSuccess -> forall i, 0 <= i < Z.of_nat (length G) -> Complete i ∈ w_log w)
  end.

Lemma run_and_clean_ok mem b G w rounds : implements mem b G -> Z.of_nat (length G) < U64_MOD -> lawful ans dev ->
  set_up C size w -> w_log w = [] -> runs (run_and_clean ans dev comm_rank b rounds) w (run_post G rounds).
Proof.
  intros Him HN HL Hset Hlog. unfold run_and_clean. apply runs_bind. eapply runs_mono; [by eapply build_dag_ok|]. cbn beta.
  intros w1 r1 [[-> HS]|(-> & Hs & Ha & Hl1)].
  - apply runs_bind. change (flagcx_failed flagcxSuccess) with false. cbn iota.
    eapply runs_mono; [apply (runUniRunner_ok G); [apply Him|apply Him|done|done|exact HS]|].
    intros w2 o [[Ho (Hlive & Hnum & l & Hl & Hsame)] Hres]. destruct o as [r|].
    + apply runs_bind. eapply runs_mono; [apply cleanupUniRunner_ok|].
      * unfold sized. rewrite Hl, Hnum, Nat2Z.id. by apply Forall2_length in Hsame.
      * unfold accounted, dag_blocks. rewrite Hl, Hlive. f_equal. apply same_blocks. done.
      * intros w3 r3 [Hc Hl3]. apply runs_ret. split; [by rewrite Hl3|]. split; [done|]. intros E i Hi.
        apply first_error_was_success in E. rewrite Hl3. by apply Hres.
    + apply runs_ret. split; [done|exact Hres].
  - apply runs_bind. apply runs_ret. apply runs_bind. eapply runs_mono; [by apply cleanupUniRunner_ok|].
    intros w3 r3 [Hc Hl3]. apply runs_ret. split; [rewrite Hl3, Hl1; constructor|]. split; [done|]. intros E.
    by apply first_error_was_success in E.
Qed.

(** ** Nothing to run *)

(** Builds that make no graph: a rank alone with its buffers in place, or
    arguments that are refused. *)
Definition quiet (b : build) : Prop := forall s, exists r, b s = Some (r, s) /\ (r = flagcxSuccess \/ flagcx_failed r = true).
Definition makes (mem : nat -> bool) (b : build) (G : list uniRunnerDagNode) : Prop := implements mem b G \/ G = [] /\ quiet b.

(** The loop ends at once. *)
Lemma run_quiet_ok w rounds f k : w_dag w = MkDag None 0 0 [] [] [] [] k 0 -> w_fifo w = Some f ->
  runs (runUniRunner ans dev comm_rank rounds) w (fun w' o => w_log w' = w_log w /\ w_dag w' = w_dag w /\ (o = None -> rounds = O)).
Proof.
  intros Hd Hf. unfold runUniRunner. apply runs_bind, runs_call. intros t. apply runs_bind.
  destruct rounds as [|rounds]; [by apply runs_ret, runs_ret|]. cbn [schedule]. apply runs_bind. eapply runs_get; [reflexivity|].
  replace (all_done (set_trace t w)) with true by (unfold all_done; cbn; by rewrite Hd).
  apply runs_bind. eapply runs_modify; [cbn; rewrite Hf; reflexivity|]. apply runs_ret.
  do 3 (apply runs_bind; unfold sync at 1; apply runs_bind; eapply runs_get; [reflexivity|]; apply runs_call; intros ?).
  destruct (flagcx_failed _) eqn:Ef; [|by apply runs_ret].
  apply runs_bind. unfold run_fail. apply runs_bind. eapply runs_modify; [reflexivity|]. unfold flagcxProxyRecordAsyncError. rewrite Ef. cbn [negb].
  eexists _, _. split; [reflexivity|]. by apply runs_ret.
Qed.

Lemma quiet_and_clean_ok b w rounds : quiet b -> set_up C size w -> w_log w = [] -> runs (run_and_clean ans dev comm_rank b rounds) w (run_post [] rounds).
Proof.
  intros Hb [(k & Hk) _ _ Hf] Hlog. unfold run_and_clean. apply runs_bind. destruct (Hb (0, w_dag w)) as (r & E & Hr).
  assert (Hend : forall w1 res, w_log w1 = [] -> w_dag w1 = w_dag w -> runs (run! r := cleanupUniRunner ans in ret (Some (flagcxRunnerRecordFirstError r res))) w1 (run_post [] rounds)).
  { intros w1 res Hl Hd. apply runs_bind. eapply runs_mono; [apply cleanupUniRunner_ok|].
    - unfold sized. by rewrite Hd, Hk.
    - unfold accounted. by rewrite Hd, Hk.
    - intros w2 r2 [Hc Hl2]. apply runs_ret. split; [rewrite Hl2, Hl; constructor|]. split; [done|]. intros _ i Hi. cbn in Hi. lia. }
  unfold build_dag, runs at 1. rewrite E. cbn. eexists _, _. split; [reflexivity|]. apply runs_bind. destruct Hr as [->|Hr].
  - change (flagcx_failed flagcxSuccess) with false. cbn iota. eapply runs_mono; [by eapply run_quiet_ok|].
    intros w1 o (Hl & Hd & Ho). destruct o as [res|]; [apply Hend; [by rewrite Hl|by rewrite Hd]|].
    apply runs_ret. split; [rewrite Hl; cbn; rewrite Hlog; constructor|]. intros _. by rewrite Ho.
  - rewrite Hr. apply runs_ret. by apply Hend.
Qed.

Lemma built_and_clean_ok mem b G w rounds : makes mem b G -> Z.of_nat (length G) < U64_MOD -> lawful ans dev ->
  set_up C size w -> w_log w = [] -> runs (run_and_clean ans dev comm_rank b rounds) w (run_post G rounds).
Proof. intros [Him|[-> Hq]]; [by eapply run_and_clean_ok|intros; by apply quiet_and_clean_ok]. Qed.
End Collective.
