(* ===== verification/UniCollectives.v ===== *)
(** The collectives of the uniform runner: each builds a well-formed graph and
    runs it from set-up to clean-up. *)
From S2P Require Import Prelude Flagcx Arrays C2cRunner KernelTrigger UniDag UniDagBuild UniDagShape UniDagInit UniDagChain UniDagChainInit.
From S2P Require Import UniSched UniSchedPool UniSchedInv UniSchedStep UniSchedRun UniSchedLoop UniSchedSafe UniRunner UniCollective.

(** ** Graphs whose first node alone is ready *)

Section First.
Context {T : Type} (tags : list T) (idx : T -> Z) (children parents_of : T -> list T) (depth : T -> Z) (node : T -> uniRunnerDagNode).
Context (D : described tags idx children parents_of depth node).

Lemma described_initial t0 rest s : tags = t0 :: rest -> is_red (node t0) = false -> (forall t, t ∈ tags -> parents_of t = [] <-> idx t = 0) ->
  filled (Z.of_nat (length (node <$> tags))) (node <$> tags) 0 s -> initial (node <$> tags) s.2.
Proof.
  intros E Hr Hp Hf. assert (Hin : forall t, t ∈ tags -> nd_numParents (node t) = 0 <-> idx t = 0).
  { intros t Ht. rewrite <- (Hp t Ht). destruct (ds_kids _ _ _ _ _ _ D t Ht) as (_ & _ & ->). destruct (parents_of t); cbn; [done|]. split; [lia|done]. }
  rewrite E in Hf |- *. cbn in Hf |- *. apply filled_initial; [done| | |exact Hf].
  - apply Hin; [rewrite E; left|]. by rewrite (ds_idx _ _ _ _ _ _ D 0%nat t0) by (by rewrite E).
  - apply Forall_fmap, Forall_lookup_2. intros k t Ht. cbn. rewrite Hin by (rewrite E; right; by eapply list_elem_of_lookup_2).
    rewrite (ds_idx _ _ _ _ _ _ D (S k) t) by (by rewrite E). lia.
Qed.
End First.

(** ** Sliced all-reduce *)

Section SlicedAR.
Context (mem : nat -> bool) (a : uni_args) (R : Z).
Abbreviation n := (ua_nranks a).
Abbreviation S_ := (ua_numSlices a).
Context (Hn : 2 <= n) (HS : 1 <= S_) (HR : 1 <= R).

Definition ar_nodes : list uniRunnerDagNode := ar_node a R <$> ar_tags a R.

Lemma ar_tags_first : exists rest, ar_tags a R = Scatter 0 0 :: rest.
Proof.
  unfold ar_tags. rewrite (seqZ_cons 0 S_) by lia. cbn. unfold ar_slice_tags at 1. rewrite (seqZ_cons 0 (n - 1)) by lia. cbn. by eexists.
Qed.

Lemma ar_first t : t ∈ ar_tags a R -> ar_parents a R t = [] <-> ar_idx a R t = 0.
Proof.
  intros Ht%(ar_tags_elem a R). destruct t as [s i|s i r|s i|]; cbn in Ht |- *; unfold ar_size; [..|done].
  - destruct (Z.ltb_spec 0 s); [split; [done|nia]|]. destruct (Z.ltb_spec 0 i); [split; [done|nia]|]. split; [nia|done].
  - split; [done|nia].
  - destruct (Z.ltb_spec 0 s); [split; [done|nia]|]. destruct (Z.ltb_spec 0 i); split; try done; nia.
Qed.

Lemma ar_length : Z.of_nat (length ar_nodes) = S_ * ar_size a R.
Proof. unfold ar_nodes. rewrite length_fmap, (ar_tags_length a R Hn HS HR). unfold ar_size. nia. Qed.

Lemma sliced_ar_implements : implements mem (initUniRunnerStateSlicedAR mem a R) ar_nodes.
Proof.
  constructor.
  - apply sizes_sliced_ar.
  - eapply triple_post; [by apply sliced_ar_triple|]. intros s Hs. rewrite <- ar_length in Hs. destruct ar_tags_first as [rest E].
    eapply (described_initial _ _ _ _ _ _ (ar_described a R Hn HS HR)); [exact E|done|intros t; apply ar_first|exact Hs].
  - by apply ar_dag_ok.
  - apply Forall_fmap, Forall_forall. intros t Ht%(ar_tags_elem a R). by destruct t.
Qed.
End SlicedAR.

(** ** Reduce-scatter and tree reduction *)

Section Chain.
Context (mem : nat -> bool) (K R S_ : Z) (send : bool) (data : ring_tag -> nodeData).
Context (HK : 0 <= K) (HR : 1 <= R) (HS : 1 <= S_) (Hsome : send = true \/ 1 <= K).
Abbreviation nodes := (ch_node K R S_ send data <$> ch_tags K R S_ send false).

Lemma ch_length : Z.of_nat (length nodes) = S_ * ch_size K R send.
Proof.
  pose proof (ch_size_nonneg K R send HK ltac:(lia)). unfold ch_tags. rewrite app_nil_r, length_fmap, (ch_slices_length K R S_ send HK ltac:(lia) HS). nia.
Qed.

Definition ch_head : ring_tag := if 0 <? K then Scatter 0 0 else Gather 0 0.

Lemma ch_tags_first : exists rest, ch_tags K R S_ send false = ch_head :: rest.
Proof.
  unfold ch_tags. rewrite (seqZ_cons 0 S_) by lia. cbn. unfold ch_slice_tags at 1, ch_head. destruct (Z.ltb_spec 0 K).
  - rewrite (seqZ_cons 0 K) by lia. cbn. by eexists.
  - destruct Hsome as [->|]; [|lia]. replace K with 0 by lia. cbn. by eexists.
Qed.

Lemma ch_first t : t ∈ ch_tags K R S_ send false -> ch_parents K R S_ t = [] <-> ch_idx K R S_ send t = 0.
Proof.
  intros Ht%ch_tags_elem. pose proof (ch_size_nonneg K R send HK ltac:(lia)) as Hsz. destruct t as [s i|s i r|s i|]; cbn in Ht |- *; [..|done].
  - assert (0 < K * (1 + R)) by nia. assert (0 < ch_size K R send) by (unfold ch_size; destruct send; lia).
    destruct (Z.ltb_spec 0 s); [split; [done|nia]|]. destruct (Z.ltb_spec 0 i); [split; [done|nia]|]. split; [nia|done].
  - split; [done|nia].
  - destruct Ht as (-> & Hs & ->). destruct (Z.ltb_spec 0 s); [split; [done|unfold ch_size; nia]|]. destruct (Z.ltb_spec 0 K); [split; [done|nia]|].
    split; [|done]. intros _. replace s with 0 by lia. replace K with 0 by lia. done.
Qed.

Lemma chain_implements b : sizes b -> triple mem fresh b (filled (S_ * ch_size K R send) nodes 0) ->
  (forall s i, runnable (ch_node K R S_ send data (Scatter s i)) /\ is_red (ch_node K R S_ send data (Scatter s i)) = false) ->
  (forall s i, send = true -> runnable (ch_node K R S_ send data (Gather s i)) /\ is_red (ch_node K R S_ send data (Gather s i)) = false) ->
  (forall s i r, runnable (ch_node K R S_ send data (Reduce s i r))) -> implements mem b nodes.
Proof.
  intros Hsz Ht H1 H2 H3. constructor.
  - done.
  - eapply triple_post; [exact Ht|]. intros s Hs. rewrite <- ch_length in Hs. destruct ch_tags_first as [rest E].
    eapply (described_initial _ _ _ _ _ _ (ch_described K R S_ send false HK ltac:(lia) HS data)); [exact E| |intros t; apply ch_first|exact Hs].
    unfold ch_head. destruct (Z.ltb_spec 0 K); [apply H1|apply H2; destruct Hsome; [done|lia]].
  - apply ch_dag_ok; [done|lia|done].
  - apply Forall_fmap, Forall_forall. intros t Htt%ch_tags_elem. destruct t; [apply H1|apply H3|apply H2, Htt|done].
Qed.
End Chain.

Lemma ring_rs_implements mem a R : 2 <= ua_nranks a -> 1 <= ua_numSlices a -> 1 <= R ->
  implements mem (initUniRunnerStateRingRS mem a R) (rs_nodes a R).
Proof.
  intros Hn HS HR. apply chain_implements; try done; try lia.
  - apply sizes_ring_rs.
  - replace (ua_numSlices a * ch_size (ua_nranks a - 1) R false) with (ua_numSlices a * ((R + 1) * (ua_nranks a - 1))) by (unfold ch_size; lia).
    by apply ring_rs_triple.
Qed.

Lemma land_le x y : 0 <= x -> Z.land x y <= x.
Proof.
  intros Hx. assert (E : x - Z.land x y = Z.ldiff x (Z.land x y)).
  { apply Z.sub_nocarry_ldiff. apply Z.bits_inj_0. intros k. rewrite Z.ldiff_spec, Z.land_spec. by destruct (Z.testbit x k), (Z.testbit y k). }
  assert (0 <= Z.ldiff x (Z.land x y)) by (apply Z.ldiff_nonneg; by left). lia.
Qed.

Lemma ctz_le x : 0 < x -> 0 <= ctz x <= Z.log2 x.
Proof. intros Hx. unfold ctz. split; [apply Z.log2_nonneg|]. apply Z.log2_le_mono, land_le. lia. Qed.

(** How often a rank receives in the tree: the root in every step, any other
    rank not in the last. *)
Section Tree.
Context (a : uni_args) (root : Z).
Abbreviation NR := (ua_nranks a).
Context (Hn : 2 <= NR) (Hrank : 0 <= ua_rank a < NR) (Hroot : 0 <= root < NR).

Lemma algoRank_range : 0 <= algoRank a root < NR.
Proof. unfold algoRank. apply Z.rem_bound_pos; lia. Qed.

Lemma recv_steps_root : algoRank a root = 0 -> recv_steps a root = nTotalSteps a.
Proof. intros E. unfold recv_steps. by rewrite E. Qed.

Lemma recv_steps_other : algoRank a root <> 0 -> 0 <= recv_steps a root < nTotalSteps a.
Proof.
  intros Hne. pose proof algoRank_range as Hr. set (x := algoRank a root) in *. unfold recv_steps, nTotalSteps, bit_length. fold x.
  rewrite (proj2 (Z.eqb_neq x 0)) by done. cbn [negb andb]. pose proof (ctz_le x ltac:(lia)) as Hc.
  assert (Hlog : Z.log2 x <= Z.log2 (NR - 1)) by (apply Z.log2_le_mono; lia).
  destruct (Z.eqb_spec (ctz x) 0); cbn [negb andb]; [lia|]. destruct (Z.leb_spec (NR - x) (Z.shiftl 1 (ctz x - 1))) as [Hle|]; [|lia].
  destruct (Z.eqb_spec (NR - x - 1) 0); cbn [negb]; [lia|]. rewrite Z.shiftl_1_l in Hle.
  pose proof (Z.log2_nonneg (NR - x - 1)). assert (Z.log2 (NR - x - 1) < ctz x - 1) by (apply Z.log2_lt_pow2; lia). lia.
Qed.

Lemma recv_steps_nonneg : 0 <= recv_steps a root.
Proof.
  destruct (decide (algoRank a root = 0)) as [E|E]; [|by apply recv_steps_other]. rewrite recv_steps_root by done.
  unfold nTotalSteps, bit_length. pose proof (Z.log2_nonneg (NR - 1)). lia.
Qed.

Lemma tree_implements mem R : 1 <= ua_numSlices a -> 1 <= R -> implements mem (initUniRunnerStateTreeRed mem a root R) (tree_nodes a root R).
Proof.
  intros HS HR. apply chain_implements; try done.
  - apply recv_steps_nonneg.
  - unfold tree_sends. destruct (Z.eqb_spec (algoRank a root) 0) as [E|E]; [right|by left]. rewrite recv_steps_root by done.
    unfold nTotalSteps, bit_length. pose proof (Z.log2_nonneg (NR - 1)). lia.
  - apply sizes_tree.
  - apply tree_triple; [done..|apply recv_steps_nonneg|apply recv_steps_root|]. intros E. by apply recv_steps_other.
Qed.
End Tree.

(** ** Local reduction *)

Definition loc_node (a : uni_args) (s : Z) : uniRunnerDagNode :=
  let rxOffset := slice_offset a (ua_rank a) s in
  MkNode (RedNode (ua_recvbuff a +u64 rxOffset) (ua_sendbuff a +u64 rxOffset) (ua_recvbuff a +u64 rxOffset)
    (slice_count a (ua_rank a) s) (ua_nthreads a) (ua_datatype a) (ua_redOp a) 0) 0 0 None.
Definition loc_nodes (a : uni_args) : list uniRunnerDagNode := loc_node a <$> seqZ 0 (ua_numSlices a).

Section LocRed.
Context (mem : nat -> bool) (a : uni_args).
Abbreviation S_ := (ua_numSlices a).
Context (Hn : 2 <= ua_nranks a) (HS : 1 <= S_).

Lemma at_split num g l rest pending p2p red s : at_ num g l (S rest) pending p2p red s -> at_ num g (l ++ [node_zero]) rest pending p2p red s.
Proof. intros (k & ->). exists k. rewrite blocks_app, <- app_assoc. cbn. by rewrite Z.add_0_r. Qed.

Lemma loc_triple : triple mem fresh (initUniRunnerStateLocRed mem a) (at_ S_ 0 (loc_nodes a) 0 0 [] (seqZ 0 S_)).
Proof.
  unfold initUniRunnerStateLocRed. rewrite (proj2 (Z.ltb_ge (ua_nranks a) 2)) by lia.
  eapply triple_seq; [apply triple_alloc_nodes|]. unfold loc_nodes.
  set (I := fun i => at_ S_ 0 (loc_node a <$> seqZ 0 i) (Z.to_nat (S_ - i)) 0 [] (seqZ 0 i)).
  assert (H : triple mem (I 0) (for_to S_ (fun s =>
    let rxOffset := slice_offset a (ua_rank a) s in
    and_then (upd_node s (set_data (RedNode (ua_recvbuff a +u64 rxOffset) (ua_sendbuff a +u64 rxOffset) (ua_recvbuff a +u64 rxOffset)
      (slice_count a (ua_rank a) s) (ua_nthreads a) (ua_datatype a) (ua_redOp a) 0)))
    (and_then (set_parents s 0) (and_then (set_numChildren s 0) (enqueue_red s))))) (I S_)).
  { apply triple_for_to; [lia|]. intros i Hi. unfold I. replace (Z.to_nat (S_ - i)) with (S (Z.to_nat (S_ - (i + 1)))) by lia.
    eapply triple_pre; [intros s; apply at_split|]. rewrite (seqZ_app 0 i 1), fmap_app by lia.
    change (seqZ (0 + i) 1) with [i]. cbn [fmap list_fmap].
    assert (Hlen : i = Z.of_nat (length (loc_node a <$> seqZ 0 i))) by (rewrite length_fmap, length_seqZ; lia).
    eapply triple_seq; [by apply (triple_upd mem S_ 0 (loc_node a <$> seqZ 0 i) node_zero [])|].
    eapply triple_seq; [by apply (triple_upd mem S_ 0 (loc_node a <$> seqZ 0 i) _ [])|].
    eapply triple_seq; [by apply (triple_upd mem S_ 0 (loc_node a <$> seqZ 0 i) _ [])|]. apply triple_enqueue_red. }
  unfold I in H. rewrite Z.sub_0_r, Z.sub_diag in H. exact H.
Qed.

Lemma sizes_loc_red : sizes (initUniRunnerStateLocRed mem a).
Proof.
  unfold initUniRunnerStateLocRed. destruct (_ <? 2); [apply sizes_builder, keeps_finish|]. apply sizes_then; [apply sizes_alloc|]. keep.
Qed.

Lemma loc_node_at i m : arr_get (loc_nodes a) i = Some m -> 0 <= i < S_ /\ m = loc_node a i.
Proof.
  intros [Hi H]%arr_get_Some. unfold loc_nodes in H. rewrite list_lookup_fmap_Some in H. destruct H as (x & -> & Hx).
  apply lookup_seqZ_eq in Hx as [-> Hx]. rewrite Z2Nat.id in * by done. done.
Qed.

Lemma loc_length : Z.of_nat (length (loc_nodes a)) = S_.
Proof. unfold loc_nodes. rewrite length_fmap, length_seqZ. lia. Qed.

Lemma loc_get i : 0 <= i < S_ -> arr_get (loc_nodes a) i = Some (loc_node a i).
Proof.
  intros Hi. destruct (arr_get_is_Some (loc_nodes a) i) as (m & Hm & _); [rewrite loc_length; lia|]. by destruct (loc_node_at i m Hm) as [_ ->].
Qed.

(** Nothing waits for anything. *)
Lemma loc_dag_ok : dag_ok (loc_nodes a).
Proof.
  assert (Hk : forall u m, loc_nodes a !! u = Some m -> kids m = [] /\ nd_numChildren m = 0 /\ nd_numParents m = 0).
  { intros u m Hu. destruct (loc_node_at (Z.of_nat u) m) as [_ ->]; [|done]. apply arr_get_Some. rewrite Nat2Z.id. split; [lia|done]. }
  constructor.
  - intros u m Hu. destruct (Hk u m Hu) as (-> & -> & _). done.
  - intros u m c Hu. destruct (Hk u m Hu) as (-> & _). by intros ?%elem_of_nil.
  - intros u m Hu. destruct (Hk u m Hu) as (-> & _). constructor.
  - intros v m Hv. destruct (Hk v m Hv) as (_ & _ & ->). unfold parents. rewrite filter_none; [done|]. apply Forall_forall. intros u _.
    unfold is_child. destruct (loc_nodes a !! u) as [m'|] eqn:Hu; [|done]. destruct (Hk u m' Hu) as (-> & _). rewrite bool_decide_eq_true. apply not_elem_of_nil.
  - exists (fun _ => 0). intros u m c Hu. destruct (Hk u m Hu) as (-> & _). by intros ?%elem_of_nil.
Qed.

Lemma loc_implements : implements mem (initUniRunnerStateLocRed mem a) (loc_nodes a).
Proof.
  constructor; [apply sizes_loc_red| |apply loc_dag_ok|].
  - eapply triple_post; [apply loc_triple|]. intros s (k & ->). cbn [replicate]. rewrite app_nil_r.
    constructor; cbn [dg_nodes dg_numDagNodes dg_live dg_p2pReady dg_redReady dg_p2pInflight dg_redInflight dg_numPendingNodes snd app]; try done.
    + by rewrite loc_length.
    + intros i. rewrite elem_of_seqZ. split; [intros Hi; exists (loc_node a i); split; [apply loc_get; lia|done]|].
      intros (m & Hm & _). apply loc_node_at in Hm. lia.
    + apply NoDup_seqZ.
    + by intros i ?%elem_of_nil.
    + intros i Hi%elem_of_seqZ. unfold red_at. by rewrite loc_get by lia.
    + unfold blocked. rewrite filter_none; [done|]. apply Forall_fmap. unfold loc_nodes. apply Forall_fmap, Forall_forall. intros i _ H. by apply H.
  - unfold loc_nodes. apply Forall_fmap, Forall_forall. done.
Qed.
End LocRed.

(** ** A rank alone *)

(** The graph of [nranks = 1]: a copy, unless the buffers are the same. *)
Definition copy_nodes (a : uni_args) : list uniRunnerDagNode :=
  if (0 <? ua_count a) && negb (ua_sendbuff a =? ua_recvbuff a)
  then [MkNode (CpyNode (ua_sendbuff a) (ua_recvbuff a) (ua_count a) (ua_datatype a) 0) 0 0 None] else [].

Lemma single_makes mem a : makes mem (single_copy mem a) (copy_nodes a).
Proof.
  unfold copy_nodes. pose proof (sizes_single mem a) as Hsz. unfold single_copy in *. destruct (_ && _); [left|right].
  - constructor; [exact Hsz| | |by repeat constructor].
    + intros s (k & ->). unfold and_then at 1, calloc. cbn [mbind option_bind]. cbn. destruct (mem k) eqn:Hk; cbn.
      * eexists flagcxSuccess, _. split; [reflexivity|]. left. split; [done|]. constructor; try done.
        -- intros i. cbn. rewrite list_elem_of_singleton. split.
           ++ intros ->. by eexists.
           ++ intros (m & [Hi Hm]%arr_get_Some & _). destruct (Z.to_nat i) eqn:E; [lia|done].
        -- apply NoDup_singleton.
        -- by intros i ->%list_elem_of_singleton.
        -- by intros i ?%elem_of_nil.
      * eexists flagcxSystemError, _. split; [reflexivity|]. right. split; [done|]. split; [done|by exists k].
    + constructor.
      * intros [|u] m Hm; [by injection Hm as <-|done].
      * intros [|u] m c Hm; [injection Hm as <-; by intros ?%elem_of_nil|done].
      * intros [|u] m Hm; [injection Hm as <-; constructor|done].
      * intros [|v] m Hm; [by injection Hm as <-|done].
      * exists (fun _ => 0). intros [|u] m c Hm; [injection Hm as <-; by intros ?%elem_of_nil|done].
  - split; [done|]. intros s. exists flagcxSuccess. by split; [|left].
Qed.

Lemma quiet_refuse r : flagcx_failed r = true -> quiet (fun s => Some (r, s)).
Proof. intros Hr s. exists r. by split; [|right]. Qed.

(** The graph for any number of ranks, given the one for several. *)
Definition ranked_nodes (a : uni_args) (G : list uniRunnerDagNode) : list uniRunnerDagNode :=
  if ua_nranks a <? 1 then [] else if ua_nranks a =? 1 then copy_nodes a else G.

Lemma ranked_makes mem a (p : build) G : (ua_nranks a < 1 -> p = fun s => Some (flagcxInvalidArgument, s)) -> (ua_nranks a = 1 -> p = single_copy mem a) ->
  (2 <= ua_nranks a -> implements mem p G) -> makes mem p (ranked_nodes a G).
Proof.
  intros H0 H1 H2. unfold ranked_nodes. destruct (Z.ltb_spec (ua_nranks a) 1) as [Hn|Hn]; [right; rewrite H0 by done; by split; [|apply quiet_refuse]|].
  destruct (Z.eqb_spec (ua_nranks a) 1) as [E|E]; [rewrite H1 by done; apply single_makes|]. left. apply H2. lia.
Qed.

(** Every builder begins with the same tests. *)
Ltac by_ranks := intros Hn; lazymatch type of Hn with
  | _ < 1 => by rewrite (proj2 (Z.ltb_lt _ _) Hn)
  | _ = 1 => by rewrite Hn
  end.
