(* ===== verification/UniAllGather.v ===== *)
(** The ring all-gather of [UniDag]: a first pass over a slice makes its
    transfers and a second one links them, and the copy of the local chunk
    stands alone. *)
From S2P Require Import Prelude Flagcx Arrays C2cRunner KernelTrigger UniDag UniDagBuild UniDagShape UniDagInit UniDagChain UniDagChainInit.
From S2P Require Import UniSched UniSchedPool UniSchedInv UniSchedStep UniSchedRun UniSchedLoop UniSchedSafe UniRunner UniCollective UniCollectives.

Section RingAG.
Context (mem : nat -> bool) (a : uni_args).
Abbreviation NR := (ua_nranks a).
Abbreviation S_ := (ua_numSlices a).
Abbreviation K := (NR - 1).
Abbreviation num_nodes := (S_ * K).
Context (Hn : 2 <= NR) (HS : 1 <= S_).

Definition ag_copy : nodeData :=
  let localChunkOffset := chunk_offset (ua_count a) NR (ua_rank a) (getFlagcxDataTypeSize (ua_datatype a)) in
  CpyNode (ua_sendbuff a +u64 localChunkOffset) (ua_recvbuff a +u64 localChunkOffset) (part_count (ua_count a) NR (ua_rank a)) (ua_datatype a) 0.

Definition ag_data (t : ring_tag) : nodeData :=
  match t with Scatter s i => P2pNode (Some (scatter_ops a s i)) 0 | _ => ag_copy end.

Definition ag_node (t : ring_tag) : uniRunnerDagNode := ch_node K 0 S_ false ag_data t.
Definition ag_nodes : list uniRunnerDagNode := ag_node <$> ch_tags K 0 S_ false true.

(** A transfer before it is linked. *)
Definition ag_raw (s i : Z) : uniRunnerDagNode := MkNode (ag_data (Scatter s i)) 0 0 None.

Abbreviation T := (triple mem).
Abbreviation at0 g l rest := (at_ (num_nodes + 1) g l rest%nat 0 [] []).

Lemma ag_make_triple s l rest : Z.of_nat (length l) = s * K ->
  T (at0 (s * K) l (Z.to_nat K + rest)) (for_to K (ag_step mem a K s)) (at0 (s * K + K) (l ++ (ag_raw s <$> seqZ 0 K)) rest).
Proof.
  intros Hl. set (I := fun i => at0 (s * K + i) (l ++ (ag_raw s <$> seqZ 0 i)) (Z.to_nat (K - i) + rest)%nat).
  assert (H : T (I 0) (for_to K (ag_step mem a K s)) (I K)).
  { apply triple_for_to; [lia|]. intros i Hi. unfold I. replace (Z.to_nat (K - i) + rest)%nat with (S (Z.to_nat (K - (i + 1)) + rest)) by lia.
    apply triple_with_idx. cbv zeta. rewrite (seqZ_app 0 i 1), fmap_app, Z.add_assoc, (assoc_L (++)) by lia. change (seqZ (0 + i) 1) with [i].
    apply triple_p2p_node. rewrite length_app, length_fmap, length_seqZ. lia. }
  unfold I in H. rewrite Z.sub_0_r, Z.sub_diag, Z.add_0_r in H. change (seqZ 0 0) with (@nil Z) in H. cbn [fmap list_fmap] in H.
  rewrite app_nil_r in H. exact H.
Qed.

Lemma ag_last s i : 0 <= s < S_ -> 0 <= i < K -> s * K + i =? num_nodes - 1 = bool_decide (s = S_ - 1 /\ i = K - 1).
Proof.
  intros Hs Hi. destruct (bool_decide_reflect (s = S_ - 1 /\ i = K - 1)) as [[-> ->]|Hne].
  - apply Z.eqb_eq. lia.
  - apply Z.eqb_neq. intros E. apply Hne. assert (s = S_ - 1) by nia. subst s. lia.
Qed.

(** What linking makes of a transfer. *)
Lemma ag_linked s i : 0 <= s < S_ -> 0 <= i < K ->
  ag_node (Scatter s i) = MkNode (ag_data (Scatter s i)) (if s * K + i =? 0 then 0 else 1) (if s * K + i =? num_nodes - 1 then 0 else 1)
    (Some (if s * K + i =? num_nodes - 1 then [] else [if s =? S_ - 1 then i + 1 else s * K + i + K])).
Proof.
  intros Hs Hi. rewrite (ag_last s i Hs Hi). unfold ag_node, ch_node. f_equal.
  - cbn. rewrite length_app. change (seqZ 0 0) with (@nil Z). destruct (Z.eqb_spec (s * K + i) 0), (Z.ltb_spec 0 s), (Z.ltb_spec 0 i); cbn; try done; nia.
  - cbn. change (seqZ 0 0) with (@nil Z). cbn [fmap list_fmap app]. unfold next_step.
    case_bool_decide; destruct (Z.ltb_spec s (S_ - 1)), (Z.ltb_spec i (K - 1)); cbn; try done; lia.
  - unfold ch_array. f_equal. cbn. change (seqZ 0 0) with (@nil Z). cbn [fmap list_fmap app]. unfold next_step.
    case_bool_decide; destruct (Z.ltb_spec s (S_ - 1)), (Z.ltb_spec i (K - 1)), (Z.eqb_spec s (S_ - 1)); try lia; cbn; try done; f_equal; unfold ch_size; lia.
Qed.

Lemma ag_link_triple s i l1 l2 g rest : 0 <= s < S_ -> 0 <= i < K -> Z.of_nat (length l1) = s * K + i ->
  T (at0 g (l1 ++ ag_raw s i :: l2) rest) (ag_link mem a K num_nodes (s * K) s i) (at0 g (l1 ++ ag_node (Scatter s i) :: l2) rest).
Proof.
  intros Hs Hi Hl. rewrite (ag_linked s i Hs Hi). unfold ag_link. remember (s * K + i) as g0 eqn:Eg.
  eapply triple_seq; [by apply triple_upd|]. eapply triple_seq; [by apply triple_upd|].
  set (k := if g0 =? num_nodes - 1 then 0 else 1).
  eapply triple_seq; [by apply (triple_calloc mem _ g l1 (MkNode (ag_data (Scatter s i)) (if g0 =? 0 then 0 else 1) k None))|].
  subst k. destruct (g0 =? num_nodes - 1) eqn:El; cbn [negb].
  - rewrite Eg, (ag_last s i Hs Hi) in El. apply bool_decide_eq_true in El as [Es _]. rewrite (proj2 (Z.eqb_eq s (S_ - 1)) Es). apply triple_finish.
  - destruct (s =? S_ - 1); exact (triple_set_child mem _ g l1 (MkNode _ _ _ (Some [0])) l2 rest 0 [] [] g0 0 _ [0] (eq_sym Hl) eq_refl ltac:(cbn; lia)).
Qed.

Lemma ag_link_all s l rest : 0 <= s < S_ -> Z.of_nat (length l) = s * K ->
  T (at0 (s * K + K) (l ++ (ag_raw s <$> seqZ 0 K)) rest) (for_to K (ag_link mem a K num_nodes (s * K) s))
    (at0 (s * K + K) (l ++ ((fun i => ag_node (Scatter s i)) <$> seqZ 0 K)) rest).
Proof.
  intros Hs Hl.
  set (I := fun i => at0 (s * K + K) (l ++ ((fun i => ag_node (Scatter s i)) <$> seqZ 0 i) ++ (ag_raw s <$> seqZ i (K - i))) rest).
  assert (H : T (I 0) (for_to K (ag_link mem a K num_nodes (s * K) s)) (I K)).
  { apply triple_for_to; [lia|]. intros i Hi. unfold I. rewrite (seqZ_cons i (K - i)), (seqZ_app 0 i 1), fmap_app by lia. change (seqZ (0 + i) 1) with [i].
    replace (Z.pred (K - i)) with (K - (i + 1)) by lia. replace (Z.succ i) with (i + 1) by lia. cbn [fmap list_fmap]. rewrite <- (assoc_L (++) (_ <$> seqZ 0 i)). cbn [app].
    rewrite !(assoc_L (++) l). apply ag_link_triple; [done..|]. rewrite length_app, length_fmap, length_seqZ. lia. }
  unfold I in H. rewrite Z.sub_0_r, Z.sub_diag in H. change (seqZ 0 0) with (@nil Z) in H. change (seqZ K 0) with (@nil Z) in H.
  cbn [fmap list_fmap app] in H. rewrite app_nil_r in H. exact H.
Qed.

Lemma ag_slices_triple :
  T (at0 0 [] (Z.to_nat num_nodes + 1))
    (for_to S_ (fun s => here (fun base => and_then (for_to K (ag_step mem a K s)) (for_to K (ag_link mem a K num_nodes base s)))))
    (at0 num_nodes (ag_node <$> (seqZ 0 S_ ≫= ch_slice_tags K 0 false)) 1).
Proof.
  set (f := fun s => (fun i => ag_node (Scatter s i)) <$> seqZ 0 K).
  assert (Hf : forall s, ag_node <$> ch_slice_tags K 0 false s = f s).
  { intros s. unfold ch_slice_tags, f. rewrite app_nil_r. change (ch_step_tags 0 s) with (fun i => [Scatter s i]).
    generalize (seqZ 0 K). intros q. induction q as [|x q IH]; [done|]. cbn. by rewrite IH. }
  set (I := fun s => at0 (s * K) (seqZ 0 s ≫= f) (Z.to_nat ((S_ - s) * K) + 1)).
  assert (Hlen : forall s, 0 <= s -> Z.of_nat (length (seqZ 0 s ≫= f)) = s * K).
  { intros s Hs. rewrite (length_bind_uniform f (Z.to_nat K)), length_seqZ; [nia|]. intros y _. unfold f. by rewrite length_fmap, length_seqZ. }
  assert (H : T (I 0) (for_to S_ (fun s => here (fun base => and_then (for_to K (ag_step mem a K s)) (for_to K (ag_link mem a K num_nodes base s))))) (I S_)).
  { apply triple_for_to; [lia|]. intros s Hs. unfold I. apply triple_here.
    replace (Z.to_nat ((S_ - s) * K) + 1)%nat with (Z.to_nat K + (Z.to_nat ((S_ - (s + 1)) * K) + 1))%nat by nia.
    eapply triple_seq; [apply ag_make_triple, Hlen; lia|]. rewrite (seqZ_app 0 s 1), bind_app by lia.
    change (seqZ (0 + s) 1) with [s]. cbn [mbind list_bind app]. rewrite app_nil_r. replace ((s + 1) * K) with (s * K + K) by lia.
    apply ag_link_all; [done|]. apply Hlen. lia. }
  unfold I in H. rewrite Z.sub_diag, Z.sub_0_r in H. rewrite fmap_bind_comm.
  replace (seqZ 0 S_ ≫= (fun x => ag_node <$> ch_slice_tags K 0 false x)) with (seqZ 0 S_ ≫= f); [exact H|].
  generalize (seqZ 0 S_). intros q. induction q as [|x q IH]; [done|]. cbn. by rewrite Hf, IH.
Qed.

Lemma ring_ag_triple : T fresh (initUniRunnerStateRingAG mem a) (at_ (num_nodes + 1) (num_nodes + 1) ag_nodes 0 (num_nodes - 1) [num_nodes; 0] []).
Proof.
  unfold initUniRunnerStateRingAG. rewrite (proj2 (Z.ltb_ge NR 1)), (proj2 (Z.eqb_neq NR 1)) by lia. cbv zeta.
  eapply triple_seq; [apply triple_alloc_nodes|]. replace (Z.to_nat (num_nodes + 1)) with (Z.to_nat num_nodes + 1)%nat by nia.
  eapply triple_seq; [exact ag_slices_triple|]. apply triple_with_idx. unfold ag_nodes, ch_tags. rewrite fmap_app. cbn [fmap list_fmap].
  set (l := ag_node <$> _). assert (Hl : num_nodes = Z.of_nat (length l)).
  { unfold l. rewrite length_fmap, (ch_slices_length K 0 S_ false) by lia. unfold ch_size. nia. }
  eapply triple_seq; [by apply (triple_upd mem _ _ l node_zero [])|]. eapply triple_seq; [by apply (triple_upd mem _ _ l _ [])|].
  eapply triple_seq; [by apply (triple_upd mem _ _ l _ [])|]. eapply triple_seq; [apply triple_enqueue_p2p|]. eapply triple_seq; [apply triple_enqueue_p2p|].
  intros s (k & ->). eexists flagcxSuccess, _. split; [reflexivity|]. left. split; [done|]. by exists k.
Qed.

Lemma sizes_ring_ag : sizes (initUniRunnerStateRingAG mem a).
Proof.
  unfold initUniRunnerStateRingAG. destruct (_ <? 1); [apply sizes_refuse|]. destruct (_ =? 1); [apply sizes_single|]. cbv zeta.
  apply sizes_then; [apply sizes_alloc|]. unfold ag_step, ag_link. keep.
Qed.

Lemma ag_described : described (ch_tags K 0 S_ false true) (ch_idx K 0 S_ false) (ch_children K 0 S_ false) (ch_parents K 0 S_) (ch_depth K S_) ag_node.
Proof. apply ch_described; lia. Qed.

(** The first transfer and the copy wait for nobody. *)
Lemma ag_ready t : t ∈ ch_tags K 0 S_ false true -> ch_parents K 0 S_ t = [] <-> t = Scatter 0 0 \/ t = Copy.
Proof.
  intros Ht%ch_tags_elem. destruct t as [s i|s i r|s i|]; cbn in Ht |- *; [|lia|lia|naive_solver].
  change (seqZ 0 0) with (@nil Z). destruct (Z.ltb_spec 0 s), (Z.ltb_spec 0 i); cbn; split; try done; intros [[=]|[=]] || intros _; try lia.
  left. f_equal; lia.
Qed.

Lemma ag_at i m : arr_get ag_nodes i = Some m -> exists t, t ∈ ch_tags K 0 S_ false true /\ m = ag_node t /\ i = ch_idx K 0 S_ false t.
Proof.
  intros [Hi H]%arr_get_Some. unfold ag_nodes in H. rewrite list_lookup_fmap_Some in H. destruct H as (t & -> & Ht). exists t.
  split; [by eapply list_elem_of_lookup_2|]. split; [done|]. rewrite (ds_idx _ _ _ _ _ _ ag_described _ _ Ht). lia.
Qed.

Lemma ag_get t : t ∈ ch_tags K 0 S_ false true -> arr_get ag_nodes (ch_idx K 0 S_ false t) = Some (ag_node t).
Proof.
  intros Ht. destruct (tag_lookup _ _ _ _ _ _ ag_described t Ht) as [Hl Hr]. apply arr_get_Some. split; [lia|].
  unfold ag_nodes. by rewrite list_lookup_fmap, Hl.
Qed.

Lemma ag_waits t : t ∈ ch_tags K 0 S_ false true -> nd_numParents (ag_node t) = 0 <-> t = Scatter 0 0 \/ t = Copy.
Proof. intros Ht. rewrite <- (ag_ready t Ht). cbn. destruct (ch_parents _ _ _ t); cbn; [done|]. split; [lia|done]. Qed.

Lemma ag_tag_valid t : t = Scatter 0 0 \/ t = Copy -> t ∈ ch_tags K 0 S_ false true.
Proof. rewrite ch_tags_elem. intros [->| ->]; cbn; [lia|done]. Qed.

Lemma ag_tags_ends : exists mid, ch_tags K 0 S_ false true = Scatter 0 0 :: mid ++ [Copy] /\ Forall (fun t => nd_numParents (ag_node t) <> 0) mid.
Proof.
  assert (E : exists mid, seqZ 0 S_ ≫= ch_slice_tags K 0 false = Scatter 0 0 :: mid).
  { rewrite (seqZ_cons 0 S_) by lia. cbn. unfold ch_slice_tags at 1. rewrite (seqZ_cons 0 K) by lia. cbn. by eexists. }
  destruct E as [mid E]. assert (E' : ch_tags K 0 S_ false true = Scatter 0 0 :: mid ++ [Copy]) by (unfold ch_tags; by rewrite E).
  exists mid. split; [done|]. apply Forall_lookup_2. intros j t Hj. assert (Ht : ch_tags K 0 S_ false true !! S j = Some t).
  { rewrite E'. change (Scatter 0 0 :: mid ++ [Copy]) with ((Scatter 0 0 :: mid) ++ [Copy]). apply lookup_lt_Some in Hj as Hlt.
    rewrite lookup_app_l; [done|cbn; lia]. }
  rewrite ag_waits by (by eapply list_elem_of_lookup_2). pose proof (ds_idx _ _ _ _ _ _ ag_described _ _ Ht) as Hi.
  apply lookup_lt_Some in Hj. assert (Hl := ch_slices_length K 0 S_ false ltac:(lia) ltac:(lia) HS). rewrite E in Hl. cbn [length] in Hl.
  intros [->| ->]; cbn in Hi; unfold ch_size in *; nia.
Qed.

Lemma ag_initial k : initial ag_nodes (MkDag (Some ag_nodes) (num_nodes + 1) (num_nodes - 1) [num_nodes; 0] [] [] [] k (1 + blocks ag_nodes)).
Proof.
  assert (Hidx : ch_idx K 0 S_ false Copy = num_nodes) by (cbn; unfold ch_size; lia).
  assert (Hlen : length ag_nodes = S (Z.to_nat num_nodes)).
  { unfold ag_nodes, ch_tags. rewrite length_fmap, length_app, (ch_slices_length K 0 S_ false) by lia. cbn. unfold ch_size. nia. }
  assert (H0 : forall i, i ∈ [num_nodes; 0] <-> exists t, (t = Scatter 0 0 \/ t = Copy) /\ i = ch_idx K 0 S_ false t).
  { intros i. rewrite !elem_of_cons, elem_of_nil. split.
    - intros [->|[->|[]]]; [exists Copy; split; [by right|done]|exists (Scatter 0 0); split; [by left|done]].
    - intros (t & [->| ->] & ->); [right; left; done|left; done]. }
  constructor; cbn [dg_nodes dg_numDagNodes dg_live dg_p2pReady dg_redReady dg_p2pInflight dg_redInflight dg_numPendingNodes app]; try done.
  - rewrite Hlen. nia.
  - intros i. rewrite H0. split.
    + intros (t & Ht & ->). exists (ag_node t). split; [by apply ag_get, ag_tag_valid|]. apply ag_waits; [by apply ag_tag_valid|done].
    + intros (m & (t & Ht & -> & ->)%ag_at & Hz). exists t. split; [by apply ag_waits|done].
  - apply NoDup_cons. split; [|apply NoDup_singleton]. rewrite list_elem_of_singleton. nia.
  - intros i (t & Ht & ->)%H0. unfold red_at. rewrite ag_get by (by apply ag_tag_valid). by destruct Ht as [->| ->].
  - by intros i ?%elem_of_nil.
  - destruct ag_tags_ends as (mid & E & Hmid). unfold ag_nodes at 1. rewrite E. unfold blocked.
    rewrite fmap_cons, fmap_app, fmap_cons, fmap_app. cbn [fmap list_fmap]. rewrite filter_cons_False by (by intros H).
    rewrite filter_app. rewrite (filter_all (fun x => x <> 0) (nd_numParents <$> (ag_node <$> mid))) by (apply Forall_fmap, Forall_fmap; exact Hmid).
    rewrite filter_cons_False by (by intros H).
    cbn. rewrite app_nil_r, !length_fmap. assert (Hl := f_equal length E). unfold ag_nodes in Hlen. rewrite length_fmap in Hlen.
    rewrite Hlen in Hl. cbn in Hl. rewrite length_app in Hl. cbn in Hl. lia.
Qed.

Lemma ring_ag_implements : implements mem (initUniRunnerStateRingAG mem a) ag_nodes.
Proof.
  constructor.
  - apply sizes_ring_ag.
  - eapply triple_post; [apply ring_ag_triple|]. intros s (k & ->). cbn [replicate snd]. rewrite app_nil_r. apply ag_initial.
  - apply ch_dag_ok; lia.
  - apply Forall_fmap, Forall_forall. intros t Ht%ch_tags_elem. destruct t as [s i|s i r|s i|]; cbn in Ht; [done|lia|lia|done].
Qed.
End RingAG.
