(* ===== verification/UniOutcome.v ===== *)
(** What the collectives of the uniform runner come to, from set-up to
    clean-up, and that the ring all-reduce is the sliced one with one slice per
    reduction. *)
From S2P Require Import Prelude Flagcx Arrays C2cRunner KernelTrigger UniDag UniDagBuild UniDagShape UniDagInit UniDagChain UniDagChainInit.
From S2P Require Import UniSched UniLedger UniSchedPool UniSchedInv UniSchedStep UniSchedRun UniSchedLoop UniSchedSafe UniRunner UniCollective UniCollectives UniAllGather.

(** ** One slice per reduction *)

(** Steps that succeed or fail outright. *)
Definition outright (p : build) : Prop := forall s r s', p s = Some (r, s') -> r = flagcxSuccess \/ flagcx_failed r = true.

Lemma outright_then p q : outright p -> outright q -> outright (and_then p q).
Proof.
  intros Hp Hq s r s' E. unfold and_then in E. destruct (p s) as [[r1 s1]|] eqn:E1; cbn in E; [|done].
  destruct (flagcx_failed r1) eqn:Ef; [simplify_eq; by right|by eapply Hq].
Qed.

Lemma outright_finish : outright finish.
Proof. intros s r s' [= <- _]. by left. Qed.

Lemma outright_on_dag f : outright (on_dag f).
Proof. intros s r s' [= <- _]. by left. Qed.

Lemma outright_calloc mem : outright (calloc mem).
Proof. intros [g d] r s' [= <- _]. destruct (mem _); [by left|by right]. Qed.

Lemma outright_upd i f : outright (upd_node i f).
Proof.
  intros [g d] r s' E. cbn in E. destruct (dg_nodes d) as [l|]; cbn in E; [|done]. destruct (arr_get l i); cbn in E; [|done].
  destruct (arr_set l i _); cbn in E; [|done]. injection E as <- _. by left.
Qed.

Lemma outright_set_child i j c : outright (set_child i j c).
Proof.
  intros [g d] r s' E. cbn in E. destruct (dg_nodes d) as [l|]; cbn in E; [|done]. destruct (arr_get l i) as [m|]; cbn in E; [|done].
  destruct (nd_children m) as [cs|]; cbn in E; [|done]. destruct (arr_set cs j c); cbn in E; [|done]. destruct (arr_set l i _); cbn in E; [|done].
  injection E as <- _. by left.
Qed.

#[export] Hint Resolve outright_then outright_finish outright_on_dag outright_calloc outright_upd outright_set_child : sized.

Lemma outright_red_node mem i data child : outright (red_node mem i data child).
Proof. unfold red_node, set_parents, set_numChildren, alloc_children, pend. destruct child; auto 10 with sized. Qed.

Lemma then_finish p s : outright p -> and_then p finish s = p s.
Proof.
  intros H. unfold and_then. destruct (p s) as [[r s']|] eqn:E; cbn; [|done]. destruct (H s r s' E) as [->|Hf]; [done|by rewrite Hf].
Qed.

Lemma then_ext p q q' s : (forall s, q s = q' s) -> and_then p q s = and_then p q' s.
Proof. intros H. unfold and_then. destruct (p s) as [[r s']|]; cbn; [|done]. destruct (flagcx_failed r); [done|apply H]. Qed.

Lemma then_ext_l p p' q s : (forall s, p s = p' s) -> and_then p q s = and_then p' q s.
Proof. intros H. unfold and_then. by rewrite H. Qed.

Lemma red_count_one x : 0 <= x < U64_MOD -> red_count x 1 0 = x.
Proof. intros Hx. unfold red_count, part_count. rewrite Z.div_1_r, Z.mod_1_r. cbn. rewrite Z.add_0_r. by apply Z.mod_small. Qed.

Lemma red_offset_one a x c : 0 <= x < U64_MOD -> red_offset a x c 1 0 = x.
Proof.
  intros Hx. unfold red_offset. rewrite Z.mod_1_r. change (Z.min 0 0) with 0. rewrite Z.mul_0_l, Z.mod_0_l, Z.mul_0_l, Z.mod_0_l, !Z.add_0_r by done.
  by rewrite !(Z.mod_small x) by done.
Qed.

Lemma slice_count_range a c s : 0 <= slice_count a c s < U64_MOD.
Proof. unfold slice_count, part_count. by apply Z.mod_pos_bound. Qed.

Lemma slice_offset_range a c s : 0 <= slice_offset a c s < U64_MOD.
Proof. unfold slice_offset. by apply Z.mod_pos_bound. Qed.

Lemma scatter_step_one mem a size s i st : ar_scatter_step mem a size s i st = sliced_scatter_step mem a 1 size s i st.
Proof.
  destruct st as [g d]. unfold ar_scatter_step, sliced_scatter_step, with_idx at 1. unfold with_idx at 2. cbv zeta.
  do 4 (apply then_ext; intros ?). replace (2 * (i + 1)) with ((i + 1) * (1 + 1)) by lia. apply then_ext. intros ss.
  rewrite (then_ext_l (for_to 1 _) (set_child g 1 (g + 1))).
  2: { intros st. unfold for_to. change (Z.to_nat 1) with 1%nat. cbn [for_loop]. rewrite then_finish by auto with sized. by rewrite Z.add_0_r. }
  apply then_ext. intros [g4 d4]. unfold divide_by. unfold and_then at 1. cbn [Z.eqb mbind option_bind]. change (flagcx_failed flagcxSuccess) with false. cbn match.
  unfold here, for_to. change (Z.to_nat 1) with 1%nat. cbn [for_loop]. rewrite then_finish.
  2: { intros [g3 d3] r s' E. by eapply outright_red_node. }
  cbn. by rewrite red_count_one, !red_offset_one by (apply slice_count_range || apply slice_offset_range).
Qed.

Lemma ring_ar_one_part mem a st : initUniRunnerStateRingAR mem a st = initUniRunnerStateSlicedAR mem a 1 st.
Proof.
  unfold initUniRunnerStateRingAR, initUniRunnerStateSlicedAR. destruct (_ <? 1); [done|]. destruct (_ =? 1); [done|]. cbv zeta.
  change (1 + 2) with 3. change (1 + 1) with 2. replace (2 * ua_nranks a - 2) with (2 * (ua_nranks a - 1)) by lia.
  apply then_ext. intros s1. apply for_to_ext. intros s s2. apply then_ext_l. intros s3. apply for_to_ext. intros i s4. apply scatter_step_one.
Qed.

(** C35: the ring all-reduce is the sliced ring all-reduce with one slice per
    reduction: the same nodes, queues and allocations, the same errors. *)
Theorem ring_all_reduce_is_sliced mem a st : initUniRunnerStateRingAR mem a st = initUniRunnerStateSlicedAR mem a 1 st.
Proof. apply ring_ar_one_part. Qed.

(** ** The collectives *)

(** A local reduction of fewer than two ranks is nothing. *)
Definition all_reduce_graph (a : uni_args) (useLocRed useRingAG useSlicedAR : bool) (numRedSlices : Z) : list uniRunnerDagNode :=
  if useLocRed then if ua_nranks a <? 2 then [] else loc_nodes a
  else ranked_nodes a (if useRingAG then ag_nodes a else ar_nodes a (if useSlicedAR then numRedSlices else 1)).

Definition with_scratchbuff (a : uni_args) (scratch : Z) : uni_args :=
  MkUniArgs (ua_rank a) (ua_nranks a) (ua_numSlices a) (ua_nthreads a) (ua_sendbuff a) (ua_recvbuff a) scratch (ua_count a) (ua_datatype a) (ua_redOp a).

Section Outcome.
Variable ans : list uni_event -> uni_call -> flagcxResult_t * Z.
Variable dev : list uni_event -> reduceFifo -> reduceFifo.
Variable comm_rank : Z.
Variables C size : Z.
Hypothesis Hpos : 0 < size.
Hypothesis HC : exists k, 0 <= k /\ C = 2 ^ k.
Hypothesis HL : lawful ans dev.

Lemma ring_ar_implements mem a : 2 <= ua_nranks a -> 1 <= ua_numSlices a -> implements mem (initUniRunnerStateRingAR mem a) (ar_nodes a 1).
Proof.
  intros Hn HS. destruct (sliced_ar_implements mem a 1 Hn HS ltac:(lia)) as [H1 H2 H3 H4]. constructor; [apply sizes_ring_ar| |done..].
  eapply triple_ext; [|exact H2]. intros s. symmetry. apply ring_ar_one_part.
Qed.

Lemma all_reduce_makes mem a (useLocRed useRingAG useSlicedAR : bool) R : 1 <= ua_numSlices a -> 1 <= R ->
  makes mem (if useLocRed then initUniRunnerStateLocRed mem a else if useRingAG then initUniRunnerStateRingAG mem a
     else if useSlicedAR then initUniRunnerStateSlicedAR mem a R else initUniRunnerStateRingAR mem a)
    (all_reduce_graph a useLocRed useRingAG useSlicedAR R).
Proof.
  intros HS HR. unfold all_reduce_graph. destruct useLocRed.
  { destruct (Z.ltb_spec (ua_nranks a) 2) as [Hn|Hn]; [right; split; [done|]|left; by apply loc_implements].
    unfold initUniRunnerStateLocRed. rewrite (proj2 (Z.ltb_lt _ _) Hn). intros s. exists flagcxSuccess. by split; [|left]. }
  destruct useRingAG; [|destruct useSlicedAR]; apply ranked_makes.
  - unfold initUniRunnerStateRingAG. by_ranks.
  - unfold initUniRunnerStateRingAG. by_ranks.
  - intros Hn. by apply ring_ag_implements.
  - unfold initUniRunnerStateSlicedAR. by_ranks.
  - unfold initUniRunnerStateSlicedAR. by_ranks.
  - intros Hn. by apply sliced_ar_implements.
  - unfold initUniRunnerStateRingAR. by_ranks.
  - unfold initUniRunnerStateRingAR. by_ranks.
  - intros Hn. by apply ring_ar_implements.
Qed.

(** What a collective comes to, from [w0]: everything it took was given back -
    each event, stream, array and buffer destroyed or freed as often as it was
    created, and nothing left in the state - and a success means that every
    node is complete. *)
Definition collective_post (G : list uniRunnerDagNode) (rounds : nat) (w0 w : world) (o : option flagcxResult_t) : Prop :=
  ordered G (w_log w) /\
  match o with
  | None => prompt C ans dev -> (rounds <= length G)%nat
  | Some r => (clean w /\ forall x, balance x (w_trace w) = balance x (w_trace w0)) /\
    (r = flagcxSuccess -> forall i, 0 <= i < Z.of_nat (length G) -> Complete i ∈ w_log w)
  end.

Lemma clean_bare w : clean w -> bare w /\ w_fifo w = None.
Proof. by intros [_ _ ? ? ? [? ?]]. Qed.

(** Set-up, the graph and clean-up. *)
Lemma collective_runs mem b G stream rounds w : makes mem b G -> Z.of_nat (length G) < U64_MOD -> clean w -> w_log w = [] ->
  runs (collective ans dev comm_rank b size C stream rounds) w (collective_post G rounds w).
Proof.
  intros Hb HN Hc Hlog.
  assert (H : runs (collective ans dev comm_rank b size C stream rounds) w (run_post ans dev C G rounds)).
  { apply runs_bind. eapply runs_mono; [by apply (initUniRunner_ok ans C size stream w); [lia| |apply HL]|].
    intros w1 r (Hl & Hok & Hbad). case_bool_decide as E; cbn [negb].
    - eapply built_and_clean_ok; try done; [by apply Hok|congruence].
    - apply runs_ret. split; [rewrite Hl, Hlog; constructor|]. split; [by apply Hbad|done]. }
  destruct H as (w' & o & E & Ho & Hpost). exists w', o. split; [done|]. split; [done|]. destruct o as [r|]; [|done]. destruct Hpost as [Hc' Hs].
  split; [split; [done|]|done]. apply clean_bare in Hc as [H1 H2], Hc' as [H3 H4]. by eapply collective_balance.
Qed.

Lemma scratch_runs mem b (G : Z -> list uniRunnerDagNode) scratchSize stream rounds w :
  (forall x, makes mem (b x) (G x)) -> (forall x, Z.of_nat (length (G x)) < U64_MOD) -> clean w -> w_log w = [] ->
  runs (uniRunnerWithScratch ans dev comm_rank scratchSize b size C stream rounds) w
    (fun w' o => exists x, collective_post (G x) rounds w w' o).
Proof.
  intros Hb HN Hc Hlog. unfold uniRunnerWithScratch. apply runs_bind. eexists _, _. split; [reflexivity|]. set (scratch := ans _ _). set (w1 := set_trace _ w).
  assert (Hc1 : clean w1) by (by destruct Hc; constructor).
  assert (HB : forall y, balance y (w_trace w1) = balance y (w_trace w) + count y (taken (UEvent (UDeviceMalloc scratchSize) scratch.1 scratch.2))).
  { intros y. cbn. rewrite balance_app. cbn. rewrite count_none. lia. }
  unfold taken in HB. cbn in HB. case_bool_decide as E; cbn [negb] in *.
  2: { apply runs_ret. exists 0. split; [change (w_log w1) with (w_log w); rewrite Hlog; constructor|]. split; [split; [done|]|done].
       intros y. rewrite HB, count_none. lia. }
  assert (H := collective_runs mem (b scratch.2) (G scratch.2) stream rounds w1 (Hb _) (HN _) Hc1 Hlog).
  destruct H as (w2 & o & Ew & Hpost). apply runs_bind. unfold collective, bind in Ew.
  destruct (initUniRunner ans size C stream w1) as [[w3 r]|] eqn:E3; [|done]. eexists w3, r. split; [done|].
  apply runs_bind. exists w2, o. split; [done|].
  destruct o as [res|]; [|apply runs_ret; by exists scratch.2].
  destruct Hpost as (Ho & [Hcl Hbal] & Hs). destruct (scratch.2 =? 0).
  - apply runs_ret. exists scratch.2. split; [done|]. split; [split; [done|]|done]. intros y. rewrite Hbal, HB, count_none. lia.
  - apply runs_bind. eexists _, _. split; [reflexivity|]. apply runs_ret. exists scratch.2. split; [done|]. split; [split|].
    + by destruct Hcl; constructor.
    + intros y. cbn. rewrite balance_app, Hbal, HB. cbn. unfold taken. cbn. rewrite Tauto.if_same, count_none. lia.
    + intros Er i Hi. apply first_error_was_success in Er. by apply Hs.
Qed.
End Outcome.

(** C10: an all-reduce on any number of ranks, by any of its four algorithms
    and whatever fails on the way, destroys or frees every event, stream, array
    and buffer it created, each as often as it created it, and leaves nothing in
    the runner's state; when it reports success every node of its graph has
    run, each after its parents. *)
Theorem all_reduce_outcome ans dev comm_rank mem a useLocRed useRingAG useSlicedAR numRedSlices poolSize fifoCapacity stream rounds w :
  1 <= ua_numSlices a -> 1 <= numRedSlices -> 0 < poolSize -> (exists k, 0 <= k /\ fifoCapacity = 2 ^ k) -> lawful ans dev ->
  Z.of_nat (length (all_reduce_graph a useLocRed useRingAG useSlicedAR numRedSlices)) < U64_MOD -> clean w -> w_log w = [] ->
  exists w' o, uniRunnerAllReduce ans dev comm_rank mem a useLocRed useRingAG useSlicedAR numRedSlices poolSize fifoCapacity stream rounds w = Some (w', o) /\
    collective_post ans dev fifoCapacity (all_reduce_graph a useLocRed useRingAG useSlicedAR numRedSlices) rounds w w' o.
Proof.
  intros HS HR Hpos HC HL HN Hc Hlog.
  exact (collective_runs ans dev comm_rank fifoCapacity poolSize Hpos HC HL mem _ _ stream rounds w
    (all_reduce_makes mem a useLocRed useRingAG useSlicedAR numRedSlices HS HR) HN Hc Hlog).
Qed.

Lemma all_reduce_outcome_witness :
  exists w' o, uniRunnerAllReduce ex_ans ex_dev 0 ex_mem ex_args false false true 1 2 4 9 6 ex_zero = Some (w', o) /\
    collective_post ex_ans ex_dev 4 (all_reduce_graph ex_args false false true 1) 6 ex_zero w' o.
Proof.
  apply (all_reduce_outcome ex_ans ex_dev 0 ex_mem ex_args false false true 1 2 4 9 6 ex_zero);
    [done|done|done|by exists 2|apply ex_lawful|vm_compute; reflexivity|by constructor|reflexivity].
Defined.

(** C22: a reduction to a root and a reduce-scatter, whatever fails on the way,
    destroy or free every event, stream, array and buffer they created, the
    scratch buffer included, each as often as they created it, and leave nothing
    in the runner's state; when they report success every node of their graph
    has run, each after its parents. *)
Theorem reduce_outcome ans dev comm_rank mem a root numRedSlices scratchSize poolSize fifoCapacity stream rounds w (scatter : bool) :
  let build x := if scatter then initUniRunnerStateRingRS mem (with_scratchbuff a x) numRedSlices
                 else initUniRunnerStateTreeRed mem (with_scratchbuff a x) root numRedSlices in
  let graph x := ranked_nodes a (if scatter then rs_nodes (with_scratchbuff a x) numRedSlices else tree_nodes (with_scratchbuff a x) root numRedSlices) in
  0 <= ua_rank a < ua_nranks a -> 0 <= root < ua_nranks a -> 1 <= ua_numSlices a -> 1 <= numRedSlices ->
  0 < poolSize -> (exists k, 0 <= k /\ fifoCapacity = 2 ^ k) -> lawful ans dev ->
  (forall x, Z.of_nat (length (graph x)) < U64_MOD) -> clean w -> w_log w = [] ->
  exists w' o, uniRunnerWithScratch ans dev comm_rank scratchSize build poolSize fifoCapacity stream rounds w = Some (w', o) /\
    exists x, collective_post ans dev fifoCapacity (graph x) rounds w w' o.
Proof.
  intros build graph Hr Hroot HS HR Hpos HC HL HN Hc Hlog.
  apply (scratch_runs ans dev comm_rank fifoCapacity poolSize Hpos HC HL mem build graph); try done.
  intros x. unfold build, graph. change (ranked_nodes a) with (ranked_nodes (with_scratchbuff a x)). destruct scatter; apply ranked_makes.
  - unfold initUniRunnerStateRingRS. by_ranks.
  - unfold initUniRunnerStateRingRS. by_ranks.
  - intros Hn. by apply ring_rs_implements.
  - cbn. lia.
  - intros E. unfold initUniRunnerStateTreeRed. by rewrite E.
  - intros Hn. by apply tree_implements.
Qed.

Lemma reduce_outcome_witness :
  exists w' o, uniRunnerWithScratch ex_ans ex_dev 0 48 (fun x => initUniRunnerStateTreeRed ex_mem (with_scratchbuff ex_args x) 0 1) 2 4 9 6 ex_zero = Some (w', o) /\
    exists x, collective_post ex_ans ex_dev 4 (ranked_nodes ex_args (tree_nodes (with_scratchbuff ex_args x) 0 1)) 6 ex_zero w' o.
Proof.
  apply (reduce_outcome ex_ans ex_dev 0 ex_mem ex_args 0 1 48 2 4 9 6 ex_zero false);
    [done|done|done|done|done|by exists 2|apply ex_lawful|by vm_compute|by constructor|reflexivity].
Defined.
