(* ===== verification/UniParts.v ===== *)
(** The cutting of [UniDag] as intervals: the parts of a range, the slices of
    the chunks of a buffer, and the parts of a reduction cover every element
    once, and offsets do not wrap around when the buffer fits in memory. *)
From S2P Require Import Prelude Flagcx Arrays C2cRunner KernelTrigger UniDag.

(** ** Parts of a range *)

Definition part_start (total n i : Z) : Z := i * (total / n) + Z.min i (total mod n).

Section Parts.
Context (total n : Z) (Ht : 0 <= total) (Hn : 0 < n).

Lemma part_start_0 : part_start total n 0 = 0.
Proof. unfold part_start. pose proof (Z.mod_pos_bound total n Hn). lia. Qed.

Lemma part_start_end : part_start total n n = total.
Proof. unfold part_start. pose proof (Z.mod_pos_bound total n Hn). pose proof (Z.div_mod total n). nia. Qed.

Lemma part_start_mono i j : i <= j -> part_start total n i <= part_start total n j.
Proof. unfold part_start. assert (0 <= total / n) by (apply Z.div_pos; lia). nia. Qed.

Lemma part_start_range i : 0 <= i <= n -> 0 <= part_start total n i <= total.
Proof.
  intros Hi. rewrite <- part_start_0 at 1. rewrite <- part_start_end at 4.
  split; apply part_start_mono; lia.
Qed.

(** Every element is in a part. *)
Lemma part_find q : 0 <= q < total -> exists i, 0 <= i < n /\ part_start total n i <= q < part_start total n (i + 1).
Proof.
  intros Hq. assert (H : forall k : nat, Z.of_nat k <= n -> q < part_start total n (Z.of_nat k) ->
    exists i, 0 <= i < n /\ part_start total n i <= q < part_start total n (i + 1)).
  { induction k as [|k IH]; intros Hk Hlt; [change (Z.of_nat 0) with 0 in Hlt; rewrite part_start_0 in Hlt; lia|].
    destruct (Z.lt_ge_cases q (part_start total n (Z.of_nat k))) as [Hlt'|Hge]; [apply IH; [lia|done]|].
    exists (Z.of_nat k). replace (Z.of_nat k + 1) with (Z.of_nat (S k)) by lia. lia. }
  apply (H (Z.to_nat n)); rewrite Z2Nat.id by lia; [lia|]. rewrite part_start_end. lia.
Qed.

(** In one only. *)
Lemma part_inj q i j : part_start total n i <= q < part_start total n (i + 1) ->
  part_start total n j <= q < part_start total n (j + 1) -> i = j.
Proof.
  intros Hi Hj. destruct (Z.lt_trichotomy i j) as [H|[H|H]]; [|done|].
  - pose proof (part_start_mono (i + 1) j ltac:(lia)). lia.
  - pose proof (part_start_mono (j + 1) i ltac:(lia)). lia.
Qed.

Hypothesis Hu : total < U64_MOD.

Lemma part_count_exact i : 0 <= i < n -> part_count total n i = part_start total n (i + 1) - part_start total n i.
Proof.
  intros Hi. unfold part_count.
  assert (E : total / n + (if i <? total mod n then 1 else 0) = part_start total n (i + 1) - part_start total n i).
  { unfold part_start. destruct (Z.ltb_spec i (total mod n)); lia. }
  rewrite E. apply Z.mod_small. pose proof (part_start_range i ltac:(lia)). pose proof (part_start_range (i + 1) ltac:(lia)).
  pose proof (part_start_mono i (i + 1) ltac:(lia)). lia.
Qed.

Lemma part_count_range i : 0 <= i < n -> 0 <= part_count total n i <= total.
Proof.
  intros Hi. rewrite part_count_exact by done. pose proof (part_start_range i ltac:(lia)).
  pose proof (part_start_range (i + 1) ltac:(lia)). pose proof (part_start_mono i (i + 1) ltac:(lia)). lia.
Qed.

Context (ts : Z) (Hts : 0 < ts) (Hfit : total * ts < U64_MOD).

(** The summands of an offset are at most the size. *)
Lemma part_terms i : 0 <= i <= n ->
  0 <= i * (total / n) <= total /\ 0 <= Z.min i (total mod n) <= total /\ 0 <= part_start total n i * ts <= total * ts.
Proof.
  intros Hi. pose proof (part_start_range i Hi) as H. unfold part_start in *. assert (0 <= total / n) by (apply Z.div_pos; lia).
  pose proof (Z.mod_pos_bound total n Hn). split_and!; nia.
Qed.

Lemma part_offset_exact i : 0 <= i <= n -> part_offset total n i ts = part_start total n i * ts.
Proof.
  intros Hi. destruct (part_terms i Hi) as (H1 & H2 & H3). unfold part_offset, part_start in *.
  rewrite (Z.mod_small (i * _)), (Z.mod_small (i * _ * ts)), (Z.mod_small (Z.min _ _ * ts)) by nia.
  rewrite Z.mod_small by nia. lia.
Qed.

Lemma chunk_offset_exact i : 0 <= i <= n -> chunk_offset total n i ts = part_start total n i * ts.
Proof.
  intros Hi. destruct (part_terms i Hi) as (H1 & H2 & H3). unfold chunk_offset, part_start in *.
  rewrite (Z.mod_small (i * _)) by nia. rewrite (Z.mod_small (_ + _)) by nia. apply Z.mod_small. lia.
Qed.
End Parts.

(** ** Slices of chunks *)

Section Slices.
Context (a : uni_args).
Abbreviation n := (ua_nranks a).
Abbreviation S_ := (ua_numSlices a).
Abbreviation ts := (getFlagcxDataTypeSize (ua_datatype a)).
Context (Hn : 0 < n) (HS : 0 < S_) (Hc : 0 <= ua_count a) (Hfit : ua_count a * ts < U64_MOD).

Lemma datatype_size_pos dt : 0 < getFlagcxDataTypeSize dt.
Proof. by destruct dt. Qed.

Definition chunk_len (c : Z) : Z := part_count (ua_count a) n c.
(** The index of the first element of a slice. *)
Definition slice_start (c s : Z) : Z := part_start (ua_count a) n c + part_start (chunk_len c) S_ s.

Lemma count_small : ua_count a < U64_MOD.
Proof. pose proof (datatype_size_pos (ua_datatype a)). nia. Qed.

Lemma chunk_len_exact c : 0 <= c < n -> chunk_len c = part_start (ua_count a) n (c + 1) - part_start (ua_count a) n c.
Proof. intros. apply part_count_exact; auto using count_small. Qed.

Lemma chunk_len_range c : 0 <= c < n -> 0 <= chunk_len c <= ua_count a.
Proof. intros. apply part_count_range; auto using count_small. Qed.

Lemma slice_count_exact c s : 0 <= c < n -> 0 <= s < S_ -> slice_count a c s = slice_start c (s + 1) - slice_start c s.
Proof.
  intros Hcr Hs. unfold slice_count, slice_start. pose proof (chunk_len_range c Hcr). pose proof count_small.
  fold (chunk_len c). rewrite part_count_exact by lia. lia.
Qed.

Lemma slice_count_nonneg c s : 0 <= c < n -> 0 <= s < S_ -> 0 <= slice_count a c s < U64_MOD.
Proof.
  intros Hcr Hs. unfold slice_count. fold (chunk_len c). pose proof (chunk_len_range c Hcr). pose proof count_small.
  pose proof (part_count_range (chunk_len c) S_ ltac:(lia) HS ltac:(lia) s Hs). lia.
Qed.

Lemma slice_start_range c s : 0 <= c < n -> 0 <= s <= S_ -> part_start (ua_count a) n c <= slice_start c s <= part_start (ua_count a) n (c + 1).
Proof.
  intros Hcr Hs. unfold slice_start. pose proof (chunk_len_range c Hcr). pose proof (part_start_range (chunk_len c) S_ ltac:(lia) HS s Hs).
  rewrite chunk_len_exact in * by done. lia.
Qed.

Lemma slice_elem_range c s e : 0 <= c < n -> 0 <= s < S_ -> 0 <= e < slice_count a c s -> 0 <= slice_start c s + e < ua_count a.
Proof.
  intros Hcr Hs He. rewrite slice_count_exact in He by done. pose proof (slice_start_range c s Hcr ltac:(lia)).
  pose proof (slice_start_range c (s + 1) Hcr ltac:(lia)). pose proof (part_start_range (ua_count a) n Hc Hn c ltac:(lia)).
  pose proof (part_start_range (ua_count a) n Hc Hn (c + 1) ltac:(lia)). lia.
Qed.

(** Every element is in a slice of a chunk, and in one only. *)
Lemma slice_find q : 0 <= q < ua_count a -> exists c s e, 0 <= c < n /\ 0 <= s < S_ /\ 0 <= e < slice_count a c s /\ q = slice_start c s + e.
Proof.
  intros Hq. destruct (part_find (ua_count a) n Hn q Hq) as (c & Hcr & Hqc). pose proof (chunk_len_range c Hcr).
  destruct (part_find (chunk_len c) S_ HS (q - part_start (ua_count a) n c)) as (s & Hs & Hqs).
  { rewrite chunk_len_exact by done. lia. }
  exists c, s, (q - slice_start c s). rewrite slice_count_exact by done. unfold slice_start. split_and!; lia.
Qed.

Lemma slice_inj c s e c' s' e' : 0 <= c < n -> 0 <= s < S_ -> 0 <= e < slice_count a c s ->
  0 <= c' < n -> 0 <= s' < S_ -> 0 <= e' < slice_count a c' s' ->
  slice_start c s + e = slice_start c' s' + e' -> c = c' /\ s = s' /\ e = e'.
Proof.
  intros Hcr Hs He Hcr' Hs' He' E. rewrite slice_count_exact in He, He' by done.
  assert (c = c') as <-.
  { apply (part_inj (ua_count a) n Hc Hn (slice_start c s + e)).
    - pose proof (slice_start_range c s Hcr ltac:(lia)). pose proof (slice_start_range c (s + 1) Hcr ltac:(lia)). lia.
    - pose proof (slice_start_range c' s' Hcr' ltac:(lia)). pose proof (slice_start_range c' (s' + 1) Hcr' ltac:(lia)). lia. }
  assert (s = s') as <-; [|split_and!; lia]. pose proof (chunk_len_range c Hcr).
  apply (part_inj (chunk_len c) S_ ltac:(lia) HS (slice_start c s + e - part_start (ua_count a) n c)); unfold slice_start in *; lia.
Qed.

Lemma slice_offset_exact c s : 0 <= c < n -> 0 <= s < S_ -> slice_offset a c s = slice_start c s * ts.
Proof.
  intros Hcr Hs. unfold slice_offset, slice_in_chunk. fold (chunk_len c). pose proof (datatype_size_pos (ua_datatype a)).
  pose proof (chunk_len_range c Hcr). pose proof (slice_start_range c s Hcr ltac:(lia)) as Hr. pose proof count_small.
  pose proof (part_start_range (ua_count a) n Hc Hn (c + 1) ltac:(lia)). pose proof (part_start_range (ua_count a) n Hc Hn c ltac:(lia)).
  rewrite chunk_offset_exact, part_offset_exact by (lia || nia). unfold slice_start in *. rewrite Z.mod_small by nia. lia.
Qed.

(** ** Parts of a reduction *)

Context (R : Z) (HR : 0 < R).

Lemma red_offset_exact c s r : 0 <= c < n -> 0 <= s < S_ -> 0 <= r < R ->
  red_offset a (slice_offset a c s) (slice_count a c s) R r = (slice_start c s + part_start (slice_count a c s) R r) * ts.
Proof.
  intros Hcr Hs Hr. rewrite slice_offset_exact by done. pose proof (slice_count_nonneg c s Hcr Hs) as Hlen.
  pose proof (datatype_size_pos (ua_datatype a)). pose proof (slice_start_range c s Hcr ltac:(lia)).
  pose proof (part_start_range (ua_count a) n Hc Hn c ltac:(lia)).
  assert (Hend : slice_start c s + slice_count a c s <= ua_count a).
  { rewrite slice_count_exact by done. pose proof (slice_start_range c (s + 1) Hcr ltac:(lia)).
    pose proof (part_start_range (ua_count a) n Hc Hn (c + 1) ltac:(lia)). lia. }
  destruct (part_terms (slice_count a c s) R ltac:(lia) HR ltac:(lia) ts ltac:(lia) ltac:(nia) r ltac:(lia)) as (T1 & T2 & T3).
  pose proof (part_start_range (slice_count a c s) R ltac:(lia) HR r ltac:(lia)).
  unfold red_offset, part_start in *. rewrite (Z.mod_small (r * _)), (Z.mod_small (r * _ * ts)), (Z.mod_small (Z.min _ _ * ts)) by nia.
  rewrite (Z.mod_small (_ + r * _ * ts)) by nia. rewrite Z.mod_small by nia. lia.
Qed.
End Slices.
