(* ===== verification/UniSystem.v ===== *)
(** The ranks of a communicator run their graphs together.

    A rank launches and completes the nodes of its graph in any order that
    [ordered] of [UniSchedInv] allows, which is what its scheduler guarantees
    ([UniRunner]).  Between the launch and the completion of a node the device
    and the network move its data, element by element and interleaved with
    everything else: an operation of a transfer to or from a peer belongs to
    the message that has its number in this direction, in the order of the
    launches.  The completion of a node waits for all its elements.  What the
    network or the device may do is any sequence of actions. *)
From S2P Require Import Prelude Flagcx Arrays C2cRunner KernelTrigger UniDag UniDagBuild UniDagShape UniSched UniSchedPool UniSchedInv.

(** The numbers of elements that the operations of a node move: those of a
    reduction are what the kernel reads from its trigger. *)
Definition works (d : nodeData) : list Z :=
  match d with
  | P2pNode ops _ => po_count <$> default [] ops
  | RedNode in1 in2 out count nthreads dt op _ => [getCount (setValue in1 in2 out count nthreads dt op flagcxReduceTriggerEnqueued)]
  | CpyNode _ _ count _ _ => [count]
  end.

Definition elem (dt : flagcxDataType_t) (addr k : Z) : Z := addr + k * getFlagcxDataTypeSize dt.

Fixpoint until (i : Z) (l : list Z) : list Z :=
  match l with [] => [] | x :: l => if x =? i then [] else x :: until i l end.

Definition sumZ {A} (f : A -> Z) (l : list A) : Z := foldr (fun x acc => f x + acc) 0 l.

Lemma sumZ_le {A} (f g : A -> Z) l : (forall x, x ∈ l -> f x <= g x) -> sumZ f l <= sumZ g l.
Proof.
  induction l as [|x l IH]; intros H; cbn; [done|]. pose proof (H x (list_elem_of_here _ _)).
  specialize (IH (fun y Hy => H y (list_elem_of_further _ _ _ Hy))). unfold sumZ in IH. lia.
Qed.

Lemma sumZ_lt {A} (f g : A -> Z) l x : (forall y, y ∈ l -> f y <= g y) -> x ∈ l -> f x < g x -> sumZ f l < sumZ g l.
Proof.
  intros H Hx Hlt. apply list_elem_of_split in Hx as (l1 & l2 & ->).
  assert (E : forall h : A -> Z, sumZ h (l1 ++ x :: l2) = sumZ h l1 + h x + sumZ h l2).
  { intros h. unfold sumZ. induction l1 as [|y l1 IH]; cbn; [lia|]. rewrite IH; [lia|]. intros z Hz. apply H. by right. }
  rewrite !E. pose proof (sumZ_le f g l1 (fun y Hy => H y ltac:(apply elem_of_app; by left))).
  pose proof (sumZ_le f g l2 (fun y Hy => H y ltac:(apply elem_of_app; right; by right))). lia.
Qed.

Lemma sumZ_nonneg {A} (f : A -> Z) l : (forall x, x ∈ l -> 0 <= f x) -> 0 <= sumZ f l.
Proof.
  induction l as [|x l IH]; intros H; cbn; [done|]. pose proof (H x (list_elem_of_here _ _)).
  specialize (IH (fun y Hy => H y (list_elem_of_further _ _ _ Hy))). unfold sumZ in IH. lia.
Qed.

Lemma sumZ_ext {A} (f g : A -> Z) l : (forall x, x ∈ l -> f x = g x) -> sumZ f l = sumZ g l.
Proof. intros H. apply Z.le_antisymm; apply sumZ_le; intros x Hx; by rewrite (H x Hx). Qed.

Lemma sumZ_cons {A} (f : A -> Z) x l : sumZ f (x :: l) = f x + sumZ f l.
Proof. done. Qed.

Lemma sumZ_fmap {A B} (f : B -> Z) (g : A -> B) l : sumZ f (g <$> l) = sumZ (fun x => f (g x)) l.
Proof. induction l as [|x l IH]; [done|]. by rewrite fmap_cons, !sumZ_cons, IH. Qed.

Lemma sumZ_seq {A} (f : A -> Z) (d : A) l : sumZ (fun j => f (default d (l !! j))) (seq 0 (length l)) = sumZ f l.
Proof.
  induction l as [|x l IH]; [done|]. cbn [length seq]. rewrite !sumZ_cons, <- IH, <- fmap_S_seq, sumZ_fmap. done.
Qed.

Inductive action := ActLaunch (u i : Z) | ActMove (u i : Z) (j : nat) | ActComplete (u i : Z).

Section System.
Context {V : Type}.

(** [rk_done i j]: the elements that the [j]-th operation of node [i] has
    moved; [sy_chan u v m]: the elements sent so far of the [m]-th message
    from [u] to [v]. *)
Record rank_state := MkRankState { rk_log : list node_event; rk_done : Z -> nat -> Z; rk_mem : Z -> V }.
Record system := MkSystem { sy_rank : Z -> rank_state; sy_chan : Z -> Z -> nat -> list V }.

Definition add_event (e : node_event) (r : rank_state) : rank_state := MkRankState (rk_log r ++ [e]) (rk_done r) (rk_mem r).
Definition advance_op (i : Z) (j : nat) (r : rank_state) : rank_state :=
  MkRankState (rk_log r) (fun i' j' => if bool_decide (i' = i /\ j' = j) then rk_done r i j + 1 else rk_done r i' j') (rk_mem r).
Definition store (a : Z) (x : V) (r : rank_state) : rank_state :=
  MkRankState (rk_log r) (rk_done r) (fun b => if b =? a then x else rk_mem r b).
Definition at_rank (u : Z) (f : rank_state -> rank_state) (w : system) : system :=
  MkSystem (fun v => if v =? u then f (sy_rank w u) else sy_rank w v) (sy_chan w).
Definition push (u v : Z) (m : nat) (x : V) (w : system) : system :=
  MkSystem (sy_rank w) (fun u' v' m' => if bool_decide (u' = u /\ v' = v /\ m' = m) then sy_chan w u v m ++ [x] else sy_chan w u' v' m').

Context (combine : flagcxRedOp_t -> V -> V -> V) (nranks : Z) (G : Z -> list uniRunnerDagNode).

Definition data_of (u i : Z) : option nodeData := n ← arr_get (G u) i; Some (nd_data n).
Definition node_ops (u i : Z) : list uniRunnerP2pOpData := match data_of u i with Some (P2pNode (Some ops) _) => ops | _ => [] end.

(** The number of the message that an operation takes part in. *)
Definition same_way (o o' : uniRunnerP2pOpData) : Prop := po_type o' = po_type o /\ po_peerRank o' = po_peerRank o.
#[export] Instance same_way_dec o o' : Decision (same_way o o').
Proof. unfold same_way. apply _. Defined.
Definition msg_no (u : Z) (L : list node_event) (i : Z) (j : nat) (o : uniRunnerP2pOpData) : nat :=
  length (filter (same_way o) ((until i (launches L) ≫= node_ops u) ++ take j (node_ops u i))).

(** ** Actions *)

Definition in_ranks (u : Z) : bool := (0 <=? u) && (u <? nranks).
Definition launchable (u : Z) (L : list node_event) (i : Z) : bool :=
  (0 <=? i) && (i <? Z.of_nat (length (G u))) && bool_decide (Launch i ∉ L) &&
  bool_decide (Forall (fun p => Complete (Z.of_nat p) ∈ L) (parents (G u) (Z.to_nat i))).
Definition in_progress (L : list node_event) (i : Z) : bool := bool_decide (Launch i ∈ L) && bool_decide (Complete i ∉ L).
Definition all_moved (r : rank_state) (i : Z) (d : nodeData) : bool :=
  bool_decide (Forall (fun j => default 0 (works d !! j) <= rk_done r i j) (seq 0 (length (works d)))).

(** What moving the next element of an operation does. *)
Definition move_effect (u i : Z) (j : nat) (d : nodeData) (w : system) : option (system -> system) :=
  let r := sy_rank w u in let k := rk_done r i j in
  match d with
  | P2pNode ops _ => o ← default [] ops !! j;
    let m := msg_no u (rk_log r) i j o in let here := elem (po_datatype o) (po_addr o) k in
    if po_type o =? flagcxDevicePrimSend then Some (push u (po_peerRank o) m (rk_mem r here))
    else if po_type o =? flagcxDevicePrimRecv then
      x ← sy_chan w (po_peerRank o) u m !! Z.to_nat k; Some (at_rank u (store here x))
    else None
  | RedNode in1 in2 out _ _ dt op _ =>
    Some (at_rank u (store (elem dt out k) (combine op (rk_mem r (elem dt in1 k)) (rk_mem r (elem dt in2 k)))))
  | CpyNode src dst _ dt _ => Some (at_rank u (store (elem dt dst k) (rk_mem r (elem dt src k))))
  end.

Definition exec (act : action) (w : system) : option system :=
  match act with
  | ActLaunch u i =>
    if in_ranks u && launchable u (rk_log (sy_rank w u)) i then Some (at_rank u (add_event (Launch i)) w) else None
  | ActMove u i j =>
    d ← data_of u i; c ← works d !! j;
    if in_ranks u && in_progress (rk_log (sy_rank w u)) i && (rk_done (sy_rank w u) i j <? c) then
      f ← move_effect u i j d w; Some (f (at_rank u (advance_op i j) w))
    else None
  | ActComplete u i =>
    d ← data_of u i;
    if in_ranks u && in_progress (rk_log (sy_rank w u)) i && all_moved (sy_rank w u) i d then
      Some (at_rank u (add_event (Complete i)) w) else None
  end.

Fixpoint execs (acts : list action) (w : system) : option system :=
  match acts with [] => Some w | act :: acts => w ← exec act w; execs acts w end.

(** Nothing was launched or sent yet. *)
Definition at_start (w : system) : Prop :=
  (forall u, rk_log (sy_rank w u) = [] /\ forall i j, rk_done (sy_rank w u) i j = 0) /\ forall u v m, sy_chan w u v m = [].

Definition finished_all (w : system) : Prop :=
  forall u i, 0 <= u < nranks -> 0 <= i < Z.of_nat (length (G u)) -> Complete i ∈ rk_log (sy_rank w u).

(** ** Every system *)

Lemma execs_invariant (P : system -> Prop) : (forall act w w', P w -> exec act w = Some w' -> P w') ->
  forall acts w w', P w -> execs acts w = Some w' -> P w'.
Proof.
  intros H acts. induction acts as [|act acts IH]; intros w w' Hw E; cbn in E; [by injection E as <-|].
  destruct (exec act w) as [w1|] eqn:E1; [|done]. eapply IH; [by eapply H|done].
Qed.

Lemma rank_here u f w : sy_rank (at_rank u f w) u = f (sy_rank w u).
Proof. cbn. by rewrite Z.eqb_refl. Qed.

Lemma rank_other u v f w : v <> u -> sy_rank (at_rank u f w) v = sy_rank w v.
Proof. intros. cbn. by destruct (Z.eqb_spec v u). Qed.

(** A move changes the log of no rank, and one count. *)
Lemma effect_keeps u i j d w f w1 v : move_effect u i j d w = Some f ->
  rk_log (sy_rank (f w1) v) = rk_log (sy_rank w1 v) /\ rk_done (sy_rank (f w1) v) = rk_done (sy_rank w1 v).
Proof.
  intros E. destruct d as [ops ?|????????|?????]; cbn in E.
  - destruct (default [] ops !! j) as [o|]; cbn in E; [|done]. destruct (_ =? _); [by injection E as <-|].
    destruct (_ =? _); [|done]. destruct (_ !! Z.to_nat _) as [x|]; cbn in E; [|done]. injection E as <-. cbn.
    by destruct (Z.eqb_spec v u) as [->|].
  - injection E as <-. cbn. by destruct (Z.eqb_spec v u) as [->|].
  - injection E as <-. cbn. by destruct (Z.eqb_spec v u) as [->|].
Qed.

(** What an action needs, and what it does to logs and counts. *)
Inductive exec_shape (w w' : system) : action -> Prop :=
| shape_launch u i : 0 <= u < nranks -> launchable u (rk_log (sy_rank w u)) i = true ->
    w' = at_rank u (add_event (Launch i)) w -> exec_shape w w' (ActLaunch u i)
| shape_move u i j d c f : 0 <= u < nranks -> data_of u i = Some d -> works d !! j = Some c ->
    Launch i ∈ rk_log (sy_rank w u) -> Complete i ∉ rk_log (sy_rank w u) -> rk_done (sy_rank w u) i j < c ->
    move_effect u i j d w = Some f -> w' = f (at_rank u (advance_op i j) w) -> exec_shape w w' (ActMove u i j)
| shape_complete u i d : 0 <= u < nranks -> data_of u i = Some d ->
    Launch i ∈ rk_log (sy_rank w u) -> Complete i ∉ rk_log (sy_rank w u) ->
    (forall j c, works d !! j = Some c -> c <= rk_done (sy_rank w u) i j) ->
    w' = at_rank u (add_event (Complete i)) w -> exec_shape w w' (ActComplete u i).

Lemma in_ranks_true u : in_ranks u = true <-> 0 <= u < nranks.
Proof. unfold in_ranks. bool_to_prop. lia. Qed.

Lemma all_moved_true r i d : all_moved r i d = true <-> forall j c, works d !! j = Some c -> c <= rk_done r i j.
Proof.
  unfold all_moved. rewrite bool_decide_eq_true, Forall_forall. split.
  - intros H j c Hj. specialize (H j). rewrite Hj in H. cbn in H. apply H, elem_of_seq. apply lookup_lt_Some in Hj. lia.
  - intros H j Hj%elem_of_seq. destruct (lookup_lt_is_Some_2 (works d) j ltac:(lia)) as [c Hc]. rewrite Hc. cbn. by apply H.
Qed.

Lemma in_progress_true L i : in_progress L i = true <-> Launch i ∈ L /\ Complete i ∉ L.
Proof. unfold in_progress. rewrite andb_true_iff, !bool_decide_eq_true. done. Qed.

Lemma exec_inv act w w' : exec act w = Some w' -> exec_shape w w' act.
Proof.
  destruct act as [u i|u i j|u i]; cbn; intros E.
  - destruct (in_ranks u) eqn:Hu; [|done]. destruct (launchable _ _ _) eqn:Hl; [|done]. injection E as <-.
    apply in_ranks_true in Hu. by constructor.
  - destruct (data_of u i) as [d|] eqn:Hd; [|done]. cbn in E. destruct (works d !! j) as [c|] eqn:Hc; [|done]. cbn in E.
    destruct (_ && _) eqn:Hg; [|done]. destruct (move_effect u i j d w) as [f|] eqn:Hf; [|done]. injection E as <-.
    apply andb_true_iff in Hg as [[Hu Hr]%andb_true_iff Hk%Z.ltb_lt]. apply in_ranks_true in Hu. apply in_progress_true in Hr as [??].
    by eapply shape_move.
  - destruct (data_of u i) as [d|] eqn:Hd; [|done]. cbn in E. destruct (_ && _) eqn:Hg; [|done]. injection E as <-.
    apply andb_true_iff in Hg as [[Hu Hr]%andb_true_iff Hk]. apply in_ranks_true in Hu. apply in_progress_true in Hr as [??].
    rewrite all_moved_true in Hk. by eapply shape_complete.
Qed.

(** Logs are in order; counts are within the work of an operation, 0 before the
    launch and complete at the end. *)
Record sys_ok (w : system) : Prop := {
  so_log : forall u, 0 <= u < nranks -> ordered (G u) (rk_log (sy_rank w u));
  so_idle : forall u i j, 0 <= u < nranks -> Launch i ∉ rk_log (sy_rank w u) -> rk_done (sy_rank w u) i j = 0;
  so_bound : forall u i d j c, 0 <= u < nranks -> data_of u i = Some d -> works d !! j = Some c ->
    0 <= rk_done (sy_rank w u) i j <= Z.max 0 c;
  so_done : forall u i d j c, 0 <= u < nranks -> data_of u i = Some d -> works d !! j = Some c ->
    Complete i ∈ rk_log (sy_rank w u) -> c <= rk_done (sy_rank w u) i j
}.

Lemma start_ok w : at_start w -> sys_ok w.
Proof.
  intros [H _]. constructor.
  - intros u _. destruct (H u) as [-> _]. constructor.
  - intros u i j _ _. apply H.
  - intros u i d j c _ _ _. destruct (H u) as [_ ->]. lia.
  - intros u i d j c _ _ _ Hc. destruct (H u) as [E _]. rewrite E in Hc. by apply elem_of_nil in Hc.
Qed.

Lemma launchable_true u L i : launchable u L i = true <->
  0 <= i < Z.of_nat (length (G u)) /\ Launch i ∉ L /\ forall p, p ∈ parents (G u) (Z.to_nat i) -> Complete (Z.of_nat p) ∈ L.
Proof.
  unfold launchable. rewrite !andb_true_iff, !bool_decide_eq_true, Forall_forall, Z.leb_le, Z.ltb_lt. tauto.
Qed.

Lemma sys_ok_launch w u i : sys_ok w -> 0 <= u < nranks -> launchable u (rk_log (sy_rank w u)) i = true ->
  sys_ok (at_rank u (add_event (Launch i)) w).
Proof.
  intros [H1 H2 H3 H4] Hu (Hi & Hn & Hp)%launchable_true. constructor; intros v; destruct (decide (v = u)) as [->|Hv]; rewrite ?rank_here, ?rank_other by done; eauto; cbn.
  - intros _. constructor; auto.
  - intros i' j _ Hl. apply H2; [done|]. intros Hl'. apply Hl. apply elem_of_app. by left.
  - apply H3.
  - intros i' d j c _ Hd Hc [Hl|Hl%list_elem_of_singleton]%elem_of_app; [by eapply H4|done].
Qed.

Lemma sys_ok_complete w u i d : sys_ok w -> 0 <= u < nranks -> data_of u i = Some d -> Launch i ∈ rk_log (sy_rank w u) -> Complete i ∉ rk_log (sy_rank w u) ->
  (forall j c, works d !! j = Some c -> c <= rk_done (sy_rank w u) i j) -> sys_ok (at_rank u (add_event (Complete i)) w).
Proof.
  intros [H1 H2 H3 H4] Hu Hd Hl Hc Hw. constructor; intros v; destruct (decide (v = u)) as [->|Hv]; rewrite ?rank_here, ?rank_other by done; eauto; cbn.
  - intros _. constructor; auto.
  - intros i' j _ Hl'. apply H2; [done|]. intros Hl2. apply Hl'. apply elem_of_app. by left.
  - apply H3.
  - intros i' d' j c _ Hd' Hc' [Hl'|Hl'%list_elem_of_singleton]%elem_of_app; [by eapply H4|]. injection Hl' as ->.
    rewrite Hd in Hd'. injection Hd' as <-. by apply Hw.
Qed.

Lemma sys_ok_move w u i j d c f : sys_ok w -> 0 <= u < nranks -> data_of u i = Some d -> works d !! j = Some c ->
  Launch i ∈ rk_log (sy_rank w u) -> Complete i ∉ rk_log (sy_rank w u) -> rk_done (sy_rank w u) i j < c ->
  move_effect u i j d w = Some f -> sys_ok (f (at_rank u (advance_op i j) w)).
Proof.
  intros [H1 H2 H3 H4] Hu Hd Hc Hl Hn Hk Hf. constructor; intros v; destruct (effect_keeps u i j d w f (at_rank u (advance_op i j) w) v Hf) as [El Ed]; rewrite ?El, ?Ed;
    destruct (decide (v = u)) as [->|Hv]; rewrite ?rank_here, ?rank_other by done; eauto; cbn.
  - intros i' j' _ Hl'. case_bool_decide as E; [destruct E as [-> _]; done|]. by apply H2.
  - intros i' d' j' c' _ Hd' Hc'. case_bool_decide as E; [destruct E as [-> ->]|by eapply H3].
    simplify_eq. pose proof (H3 u i d j c Hu Hd Hc). lia.
  - intros i' d' j' c' _ Hd' Hc' Hcl. case_bool_decide as E; [destruct E as [-> ->]; done|by eapply H4].
Qed.

Lemma exec_ok act w w' : sys_ok w -> exec act w = Some w' -> sys_ok w'.
Proof.
  intros Hw E. destruct (exec_inv act w w' E) as [u i Hu Hl ->|u i j d c f Hu Hd Hc Hl Hn Hk Hf ->|u i d Hu Hd Hl Hn Hk ->].
  - by apply sys_ok_launch.
  - by eapply sys_ok_move.
  - by eapply sys_ok_complete.
Qed.

(** ** The work that is left *)

Definition node_left (w : system) (u i : Z) : Z :=
  let r := sy_rank w u in
  (if bool_decide (Launch i ∈ rk_log r) then 0 else 1) + (if bool_decide (Complete i ∈ rk_log r) then 0 else 1) +
  match data_of u i with
  | Some d => sumZ (fun j => Z.max 0 (default 0 (works d !! j)) - rk_done r i j) (seq 0 (length (works d)))
  | None => 0
  end.
Definition work_left (w : system) : Z := sumZ (fun u => sumZ (node_left w u) (seqZ 0 (Z.of_nat (length (G u))))) (seqZ 0 nranks).

(** A launch, a completion and every element, over all nodes of all ranks. *)
Definition workload : Z := sumZ (fun u => sumZ (fun i => 2 +
  match data_of u i with Some d => sumZ (Z.max 0) (works d) | None => 0 end) (seqZ 0 (Z.of_nat (length (G u))))) (seqZ 0 nranks).

Lemma start_left w : at_start w -> work_left w = workload.
Proof.
  intros [H _]. apply sumZ_ext. intros u _. apply sumZ_ext. intros i _. unfold node_left. destruct (H u) as [-> Hd].
  rewrite !bool_decide_eq_false_2 by apply not_elem_of_nil. destruct (data_of u i) as [d|]; [|done].
  rewrite <- (sumZ_seq (Z.max 0) 0). f_equal. apply sumZ_ext. intros j _. rewrite Hd. lia.
Qed.

Lemma work_left_nonneg w : sys_ok w -> 0 <= work_left w.
Proof.
  intros Hw. apply sumZ_nonneg. intros u Hu%elem_of_seqZ. apply sumZ_nonneg. intros i _. unfold node_left.
  destruct (data_of u i) as [d|] eqn:Hd; [|repeat case_bool_decide; lia].
  assert (0 <= sumZ (fun j => Z.max 0 (default 0 (works d !! j)) - rk_done (sy_rank w u) i j) (seq 0 (length (works d)))).
  { apply sumZ_nonneg. intros j Hj%elem_of_seq. destruct (lookup_lt_is_Some_2 (works d) j ltac:(lia)) as [c Hc]. rewrite Hc. cbn.
    pose proof (so_bound w Hw u i d j c ltac:(lia) Hd Hc). lia. }
  repeat case_bool_decide; lia.
Qed.

(** Less work is left after a change to one node. *)
Lemma work_left_lt w w' u i : 0 <= u < nranks -> 0 <= i < Z.of_nat (length (G u)) ->
  (forall v k, node_left w' v k <= node_left w v k) -> node_left w' u i < node_left w u i -> work_left w' < work_left w.
Proof.
  intros Hu Hi Hle Hlt. apply (sumZ_lt _ _ _ u).
  - intros v _. apply sumZ_le. auto.
  - apply elem_of_seqZ. lia.
  - apply (sumZ_lt _ _ _ i); [auto|apply elem_of_seqZ; lia|done].
Qed.

Lemma data_of_range u i d : data_of u i = Some d -> 0 <= i < Z.of_nat (length (G u)).
Proof.
  unfold data_of. destruct (arr_get (G u) i) as [n|] eqn:E; [|done]. intros _. apply arr_get_Some in E as [Hi E]. apply lookup_lt_Some in E. lia.
Qed.

Lemma event_kept u e e' w v : e' ∈ rk_log (sy_rank w v) -> e' ∈ rk_log (sy_rank (at_rank u (add_event e) w) v).
Proof.
  intros He. destruct (decide (v = u)) as [->|Hv]; [|by rewrite rank_other]. rewrite rank_here. cbn. apply elem_of_app. by left.
Qed.

Lemma event_left_le w u e v k : node_left (at_rank u (add_event e) w) v k <= node_left w v k.
Proof.
  pose proof (event_kept u e (Launch k) w v) as HL. pose proof (event_kept u e (Complete k) w v) as HC. unfold node_left.
  assert (E : rk_done (sy_rank (at_rank u (add_event e) w) v) = rk_done (sy_rank w v)).
  { destruct (decide (v = u)) as [->|Hv]; [by rewrite rank_here|by rewrite rank_other]. }
  rewrite E. repeat case_bool_decide; try lia; exfalso; tauto.
Qed.

Lemma event_left_lt w u i e : e ∉ rk_log (sy_rank w u) -> e = Launch i \/ e = Complete i ->
  node_left (at_rank u (add_event e) w) u i < node_left w u i.
Proof.
  intros Hn He. unfold node_left. rewrite rank_here. cbn.
  repeat case_bool_decide; rewrite ?elem_of_app, ?list_elem_of_singleton in *; try lia; exfalso; naive_solver.
Qed.

Lemma move_left u i j d f w v k : move_effect u i j d w = Some f ->
  node_left (f (at_rank u (advance_op i j) w)) v k = node_left (at_rank u (advance_op i j) w) v k.
Proof. intros Hf. unfold node_left. by destruct (effect_keeps u i j d w f (at_rank u (advance_op i j) w) v Hf) as [-> ->]. Qed.

Lemma advance_left_le u i j w v k : node_left (at_rank u (advance_op i j) w) v k <= node_left w v k.
Proof.
  unfold node_left. destruct (decide (v = u)) as [->|Hv]; [|by rewrite rank_other]. rewrite rank_here. cbn.
  destruct (data_of u k) as [d|]; [|done]. apply Z.add_le_mono_l, sumZ_le. intros j' _. case_bool_decide as E; [|lia].
  destruct E as [-> ->]. lia.
Qed.

Lemma advance_left_lt u i j d c w : data_of u i = Some d -> works d !! j = Some c ->
  node_left (at_rank u (advance_op i j) w) u i < node_left w u i.
Proof.
  intros Hd Hc. unfold node_left. rewrite rank_here, Hd. cbn. apply Z.add_lt_mono_l, (sumZ_lt _ _ _ j).
  - intros j' _. case_bool_decide as E; [|lia]. destruct E as [_ ->]. lia.
  - apply elem_of_seq. apply lookup_lt_Some in Hc. lia.
  - rewrite bool_decide_eq_true_2 by done. lia.
Qed.

(** Every action leaves less. *)
Lemma exec_left act w w' : exec act w = Some w' -> work_left w' < work_left w.
Proof.
  intros E. destruct (exec_inv act w w' E) as [u i Hu Hl E'|u i j d c f Hu Hd Hc _ _ _ Hf E'|u i d Hu Hd _ Hn _ E']; rewrite E'.
  - apply launchable_true in Hl as (Hi & Hn & _). apply (work_left_lt _ _ u i); auto using event_left_le. apply event_left_lt; auto.
  - apply (work_left_lt _ _ u i); [done|by eapply data_of_range| |]; intros; rewrite (move_left u i j d f w) by done;
      [apply advance_left_le|by eapply advance_left_lt].
  - apply (work_left_lt _ _ u i); [done|by eapply data_of_range|auto using event_left_le|]. apply event_left_lt; auto.
Qed.

(** A run from the start is no longer than the work there is. *)
Lemma execs_bound acts w w' : at_start w -> execs acts w = Some w' -> Z.of_nat (length acts) <= workload.
Proof.
  intros Hs E. rewrite <- (start_left w Hs). apply start_ok in Hs. revert w Hs E.
  induction acts as [|act acts IH]; intros w Hw E; [by apply work_left_nonneg|]. cbn in E.
  destruct (exec act w) as [w1|] eqn:E1; [|done]. pose proof (exec_left act w w1 E1).
  specialize (IH w1 (exec_ok act w w1 Hw E1) E). cbn [length]. lia.
Qed.
End System.

(** Only the graphs of the ranks matter. *)
Section Ext.
Context {V : Type} (combine : flagcxRedOp_t -> V -> V -> V) (nranks : Z) (G G' : Z -> list uniRunnerDagNode).
Context (HG : forall u, 0 <= u < nranks -> G u = G' u).

Lemma exec_ext act w : exec combine nranks G act w = exec combine nranks G' act w.
Proof.
  assert (H : forall u, in_ranks nranks u = true -> G u = G' u) by (intros u Hu; by apply HG, in_ranks_true).
  destruct act as [u i|u i j|u i]; cbn; destruct (in_ranks nranks u) eqn:Hu; cbn.
  - unfold launchable. by rewrite (H u Hu).
  - done.
  - unfold move_effect, msg_no, node_ops, data_of. by rewrite (H u Hu).
  - destruct (data_of G u i) as [d|], (data_of G' u i) as [d'|]; cbn; try done; repeat (match goal with |- context [works ?d !! j] => destruct (works d !! j); cbn end); done.
  - unfold data_of. by rewrite (H u Hu).
  - destruct (data_of G u i) as [d|], (data_of G' u i) as [d'|]; done.
Qed.

Lemma execs_ext acts : forall w, execs combine nranks G acts w = execs combine nranks G' acts w.
Proof. induction acts as [|act acts IH]; intros w; [done|]. cbn. rewrite exec_ext. destruct (exec _ _ _ act w); [apply IH|done]. Qed.

Lemma finished_ext (w : system (V := V)) : finished_all nranks G w <-> finished_all nranks G' w.
Proof. unfold finished_all. split; intros H u i Hu Hi; apply H; try done; [by rewrite HG|by rewrite <- HG]. Qed.
End Ext.
