(* ===== verification/UniRing.v ===== *)
(** The graphs of a ring all-reduce on all its ranks: the order that the parents
    of [UniDagShape] give to the transfers of a rank, and the number of the
    message each transfer belongs to.  The transfers form a chain, so every
    rank launches them in the same order. *)
From S2P Require Import Prelude Flagcx Arrays C2cRunner KernelTrigger UniDag UniDagBuild UniDagShape UniSched UniSchedPool UniSchedInv UniSystem.

Section Ring.
Context (n S_ R count nthreads : Z) (dt : flagcxDataType_t) (redOp : flagcxRedOp_t) (sendbuff recvbuff scratchbuff : Z -> Z).
Context (Hn : 2 <= n) (HS : 1 <= S_) (HR : 1 <= R).

(** What rank [u] calls the collective with. *)
Definition ring_args (u : Z) : uni_args :=
  MkUniArgs u n S_ nthreads (sendbuff u) (recvbuff u) (scratchbuff u) count dt redOp.
Definition ring_graph (u : Z) : list uniRunnerDagNode := ar_node (ring_args u) R <$> ar_tags (ring_args u) R.

(** The tags and their indices are those of any rank. *)
Abbreviation idx := (ar_idx (ring_args 0) R).
Abbreviation valid := (ar_valid (ring_args 0) R).
Abbreviation parents_of := (ar_parents (ring_args 0) R).

Lemma ring_described u : described (ar_tags (ring_args 0) R) idx (ar_children (ring_args 0) R) parents_of (ar_depth (ring_args 0)) (ar_node (ring_args u) R).
Proof. exact (ar_described (ring_args u) R Hn HS HR). Qed.

Lemma valid_elem t : valid t <-> t ∈ ar_tags (ring_args 0) R.
Proof. symmetry. by apply ar_tags_elem. Qed.

Lemma ring_length u : length (ring_graph u) = length (ar_tags (ring_args 0) R).
Proof. unfold ring_graph. by rewrite length_fmap. Qed.

Lemma node_of_tag u t : valid t -> arr_get (ring_graph u) (idx t) = Some (ar_node (ring_args u) R t).
Proof.
  intros Ht%valid_elem. destruct (tag_lookup _ _ _ _ _ _ (ring_described u) t Ht) as [Hl Hr].
  apply arr_get_Some. split; [lia|]. unfold ring_graph. rewrite list_lookup_fmap. change (ar_tags (ring_args u) R) with (ar_tags (ring_args 0) R). by rewrite Hl.
Qed.

Lemma data_of_tag u t : valid t -> data_of ring_graph u (idx t) = Some (ar_data (ring_args u) R t).
Proof. intros Ht. unfold data_of. by rewrite node_of_tag. Qed.

Lemma ring_idx_inj t t' : valid t -> valid t' -> idx t = idx t' -> t = t'.
Proof. intros Ht%valid_elem Ht'%valid_elem. by apply (UniDagShape.idx_inj _ _ _ _ _ _ (ring_described 0)). Qed.

Lemma idx_range u t : valid t -> 0 <= idx t < Z.of_nat (length (ring_graph u)).
Proof. intros Ht%valid_elem. rewrite ring_length. by destruct (tag_lookup _ _ _ _ _ _ (ring_described 0) t Ht). Qed.

Lemma tag_of_idx u i : 0 <= i < Z.of_nat (length (ring_graph u)) -> exists t, valid t /\ i = idx t.
Proof.
  rewrite ring_length. intros Hi. destruct (lookup_lt_is_Some_2 (ar_tags (ring_args 0) R) (Z.to_nat i) ltac:(lia)) as [t Ht].
  exists t. rewrite valid_elem. split; [by eapply list_elem_of_lookup_2|]. rewrite (ds_idx _ _ _ _ _ _ (ring_described 0) _ _ Ht). lia.
Qed.

Lemma parents_idx u t p : valid t -> p ∈ parents_of t -> Z.to_nat (idx p) ∈ parents (ring_graph u) (Z.to_nat (idx t)).
Proof.
  intros Ht%valid_elem Hp. destruct (tag_lookup _ _ _ _ _ _ (ring_described u) t Ht) as [Hl _].
  unfold ring_graph. change (ar_tags (ring_args u) R) with (ar_tags (ring_args 0) R).
  rewrite (parents_tag _ _ _ _ _ _ (ring_described u) _ t Hl). apply list_elem_of_fmap. by exists p.
Qed.

Lemma idx_parents u t k : valid t -> k ∈ parents (ring_graph u) (Z.to_nat (idx t)) -> exists p, p ∈ parents_of t /\ Z.of_nat k = idx p.
Proof.
  intros Ht Hk. pose proof (proj1 (valid_elem t) Ht) as Ht'. destruct (tag_lookup _ _ _ _ _ _ (ring_described u) t Ht') as [Hl _].
  unfold ring_graph in Hk. change (ar_tags (ring_args u) R) with (ar_tags (ring_args 0) R) in Hk.
  rewrite (parents_tag _ _ _ _ _ _ (ring_described u) _ t Hl) in Hk. apply list_elem_of_fmap in Hk as (p & -> & Hp).
  exists p. split; [done|]. apply Z2Nat.id, (idx_range 0), valid_elem. by apply (ds_parents _ _ _ _ _ _ (ring_described 0) t).
Qed.

(** ** Orders *)

Section Log.
Context (u : Z) (L : list node_event) (HL : ordered (ring_graph u) L).

Lemma launch_tag i : Launch i ∈ L -> exists t, valid t /\ i = idx t.
Proof. intros Hi. destruct (ordered_launches _ L HL) as (_ & H & _). by apply (tag_of_idx u), H. Qed.

Lemma complete_launched t : Complete (idx t) ∈ L -> Launch (idx t) ∈ L.
Proof. destruct (ordered_launches _ L HL) as (_ & _ & H). apply H. Qed.

Lemma parent_complete t p : valid t -> Launch (idx t) ∈ L -> p ∈ parents_of t -> Complete (idx p) ∈ L.
Proof.
  intros Ht Hl Hp. assert (Hv : valid p) by (by apply valid_elem, (ds_parents _ _ _ _ _ _ (ring_described 0) t); [apply valid_elem|]).
  pose proof (parents_idx u t p Ht Hp) as Hk.
  assert (H : forall L, ordered (ring_graph u) L -> Launch (idx t) ∈ L -> Complete (Z.of_nat (Z.to_nat (idx p))) ∈ L).
  { clear - Hk. induction 1 as [|L i HL IH Hi Hn Hp|L i HL IH Hi Hn]; intros Hl; [by apply elem_of_nil in Hl| |];
      apply elem_of_app in Hl as [Hl|Hl%list_elem_of_singleton]; apply elem_of_app; left; auto; [|done].
    injection Hl as <-. by apply Hp. }
  specialize (H L HL Hl). rewrite Z2Nat.id in H; [done|]. by apply (idx_range u).
Qed.

(** The transfers in their order. *)
Definition is_p2p (t : ring_tag) : bool := match t with Scatter _ _ | Gather _ _ => true | _ => false end.
Definition pos (t : ring_tag) : Z :=
  match t with Scatter s i => i * S_ + s | Gather s i => (n - 1 + i) * S_ + s | _ => 0 end.

Lemma chain_parent t : valid t -> is_p2p t = true -> 0 < pos t ->
  exists p, p ∈ parents_of t /\ valid p /\ is_p2p p = true /\ pos p = pos t - 1.
Proof.
  intros Ht Hp Hpos. assert (H : exists p, p ∈ parents_of t /\ is_p2p p = true /\ pos p = pos t - 1).
  2: { destruct H as (p & Hin & H1 & H2). exists p. split_and!; try done. apply valid_elem, (ds_parents _ _ _ _ _ _ (ring_described 0) t); [by apply valid_elem|done]. }
  destruct t as [s i| |s i|]; cbn in Ht, Hpos |- *; try done.
  - destruct (Z.ltb_spec 0 s); [exists (Scatter (s - 1) i); split; [by left|]; cbn; lia|].
    destruct (Z.ltb_spec 0 i); [|nia]. exists (Scatter (S_ - 1) (i - 1)). split; [by left|]. cbn. split; [done|nia].
  - destruct (Z.ltb_spec 0 s); [exists (Gather (s - 1) i); split; [by left|]; cbn; lia|].
    destruct (Z.ltb_spec 0 i); [exists (Gather (S_ - 1) (i - 1))|exists (Scatter (S_ - 1) (n - 2))]; (split; [by left|]; cbn; split; [done|nia]).
Qed.

Lemma pos_range t : valid t -> is_p2p t = true -> 0 <= pos t < 2 * (n - 1) * S_.
Proof. intros Ht Hp. destruct t as [s i| |s i|]; cbn in Ht |- *; try done; nia. Qed.

Lemma pos_inj t t' : valid t -> valid t' -> is_p2p t = true -> is_p2p t' = true -> pos t = pos t' -> t = t'.
Proof.
  intros Ht Ht' Hp Hp' E. destruct t as [s i| |s i|], t' as [s' i'| |s' i'|]; cbn in *; try done.
  - assert (i = i') as <- by nia. f_equal; lia.
  - exfalso. nia.
  - exfalso. nia.
  - assert (i = i') as <- by nia. f_equal; lia.
Qed.

Lemma chain_complete t t' : valid t -> is_p2p t = true -> Launch (idx t) ∈ L ->
  valid t' -> is_p2p t' = true -> pos t' < pos t -> Complete (idx t') ∈ L.
Proof.
  intros Ht Hp Hl Ht' Hp' Hlt. pose proof (pos_range t' Ht' Hp').
  assert (H' : forall k : nat, forall t, valid t -> is_p2p t = true -> Launch (idx t) ∈ L -> pos t = pos t' + 1 + Z.of_nat k -> Complete (idx t') ∈ L).
  { clear t Ht Hp Hl Hlt. induction k as [|k IH]; intros t Ht Hp Hl E; destruct (chain_parent t Ht Hp ltac:(lia)) as (p & Hin & Hv & Hpp & Epos);
      pose proof (parent_complete t p Ht Hl Hin) as Hc.
    - by rewrite <- (pos_inj p t' Hv Ht' Hpp Hp' ltac:(lia)).
    - eapply (IH p Hv Hpp); [by apply complete_launched|lia]. }
  apply (H' (Z.to_nat (pos t - pos t' - 1)) t Ht Hp Hl). lia.
Qed.

(** Before a transfer of the second phase all the transfers and reductions of
    the first are complete, the reductions at least of the same slice. *)
Lemma gather_after_reduce s g i r : valid (Gather s g) -> Launch (idx (Gather s g)) ∈ L -> 0 <= i < n - 1 -> 0 <= r < R -> Complete (idx (Reduce s i r)) ∈ L.
Proof.
  intros Hv Hl Hi Hr. cbn in Hv. destruct (decide (i = n - 2)) as [->|Hne].
  - apply (parent_complete (Gather s 0)); [cbn; lia| |cbn; apply elem_of_app; right; apply elem_of_reduces; by exists r].
    destruct (decide (g = 0)) as [->|Hg]; [done|]. apply complete_launched, (chain_complete (Gather s g)); [cbn; lia|done|done|cbn; lia|done|cbn; nia].
  - apply (parent_complete (Scatter s (i + 1))); [cbn; lia| |].
    + apply complete_launched, (chain_complete (Gather s g)); [cbn; lia|done|done|cbn; lia|done|cbn; nia].
    + cbn. destruct (Z.ltb_spec 0 (i + 1)); [|lia]. rewrite Z.add_simpl_r. apply elem_of_app; right; apply elem_of_reduces; by exists r.
Qed.

(** ** Messages *)

(** The operations of a node of rank [u]. *)
Definition tag_ops (t : ring_tag) : list uniRunnerP2pOpData :=
  match t with Scatter s i => scatter_ops (ring_args u) s i | Gather s i => gather_ops (ring_args u) s i | _ => [] end.

Lemma node_ops_tag t : valid t -> node_ops ring_graph u (idx t) = tag_ops t.
Proof. intros Ht. unfold node_ops. rewrite data_of_tag by done. by destruct t. Qed.

Definition moves_data (i : Z) : Prop := node_ops ring_graph u i <> [].
#[local] Instance moves_data_dec i : Decision (moves_data i).
Proof. unfold moves_data. apply _. Defined.

Lemma moves_data_tag t : valid t -> moves_data (idx t) <-> is_p2p t = true.
Proof. intros Ht. unfold moves_data. rewrite node_ops_tag by done. by destruct t. Qed.

Lemma filter_until i : moves_data i -> forall l, filter moves_data (until i l) = until i (filter moves_data l).
Proof.
  intros Hi. induction l as [|x l IH]; [done|]. cbn [until]. destruct (Z.eqb_spec x i) as [->|Hne].
  - rewrite filter_cons_True by done. cbn [until]. by rewrite Z.eqb_refl.
  - rewrite !filter_cons. destruct (decide (moves_data x)); cbn [until]; [|done]. destruct (Z.eqb_spec x i); [done|]. by rewrite IH.
Qed.

Lemma length_until l : forall k i, NoDup l -> l !! k = Some i -> length (until i l) = k.
Proof.
  induction l as [|x l IH]; intros k i Hl Hk; [done|]. apply NoDup_cons in Hl as [Hx Hl]. cbn. destruct k as [|k].
  - injection Hk as ->. by rewrite Z.eqb_refl.
  - destruct (Z.eqb_spec x i) as [->|]; [by destruct Hx; apply (list_elem_of_lookup_2 _ k)|]. cbn. f_equal. by apply IH.
Qed.

Lemma until_elem i l x : x ∈ until i l -> x ∈ l.
Proof.
  induction l as [|y l IH]; [done|]. cbn. destruct (y =? i); [by intros ?%elem_of_nil|].
  intros [->|Hx]%elem_of_cons; [by left|right; auto].
Qed.

(** Every transfer has one operation in each direction. *)
Abbreviation to_next := (fun addr c => uni_send_op (ring_args u) addr c (nextRank (ring_args u))).
Abbreviation from_prev := (fun addr c => uni_recv_op (ring_args u) addr c (prevRank (ring_args u))).

Lemma tag_ops_shape t : is_p2p t = true -> exists x c y d, tag_ops t = [to_next x c; from_prev y d].
Proof. intros Hp. destruct t; try done; by eexists _, _, _, _. Qed.

Lemma one_way x c y d z e : length (filter (same_way (to_next z e)) [to_next x c; from_prev y d]) = 1%nat /\
  length (filter (same_way (from_prev z e)) [to_next x c; from_prev y d]) = 1%nat /\ filter (same_way (from_prev z e)) [to_next x c] = [].
Proof.
  assert (H1 : forall z e x c, ~ same_way (to_next z e) (from_prev x c)) by (by intros ???? [? _]).
  assert (H2 : forall z e x c, ~ same_way (from_prev z e) (to_next x c)) by (by intros ???? [? _]).
  split_and!.
  - by rewrite filter_cons_True, filter_cons_False, filter_nil by done.
  - by rewrite filter_cons_False, filter_cons_True, filter_nil by done.
  - by rewrite filter_cons_False, filter_nil by done.
Qed.

Lemma one_each t j o : is_p2p t = true -> tag_ops t !! j = Some o ->
  filter (same_way o) (take j (tag_ops t)) = [] /\ forall t', is_p2p t' = true -> length (filter (same_way o) (tag_ops t')) = 1%nat.
Proof.
  intros Hp Hj. destruct (tag_ops_shape t Hp) as (x & c & y & d & E). rewrite E in Hj |- *.
  destruct j as [|[|j]]; [| |done]; injection Hj as <-; (split; [apply one_way || done|]); try done; intros t' Hp';
    destruct (tag_ops_shape t' Hp') as (x' & c' & y' & d' & ->); by apply one_way.
Qed.

(** The transfers are launched in the order of the chain. *)
Lemma p2p_launches : exists ts, filter moves_data (launches L) = idx <$> ts /\
  forall k t, ts !! k = Some t -> valid t /\ is_p2p t = true /\ pos t = Z.of_nat k.
Proof.
  induction HL as [|L' i HL' IH Hi Hn' Hp|L' i HL' IH Hi Hn'].
  - exists []. done.
  - destruct (IH HL') as (ts & E & Hts). unfold launches. rewrite omap_app. fold (launches L'). cbn. rewrite filter_app, E.
    destruct (tag_of_idx u i Hi) as (t & Ht & ->). rewrite filter_cons, filter_nil. destruct (decide (moves_data (idx t))) as [Hm|Hm].
    2: { exists ts. by rewrite app_nil_r. }
    apply moves_data_tag in Hm; [|done]. exists (ts ++ [t]). rewrite fmap_app. split; [done|].
    assert (Hpos : pos t = Z.of_nat (length ts)).
    { pose proof (pos_range t Ht Hm). destruct (Z.lt_trichotomy (pos t) (Z.of_nat (length ts))) as [Hlt|[H'|Hgt]]; [|done|].
      - destruct (lookup_lt_is_Some_2 ts (Z.to_nat (pos t)) ltac:(lia)) as [t' Ht'].
        destruct (Hts _ _ Ht') as (Hv & Hpp & Epos). rewrite Z2Nat.id in Epos by lia.
        apply pos_inj in Epos; [subst t'|done..]. exfalso. apply Hn', elem_of_launches.
        assert (Hin : idx t ∈ idx <$> ts) by (apply list_elem_of_fmap; exists t; split; [done|by eapply list_elem_of_lookup_2]).
        rewrite <- E in Hin. by apply list_elem_of_filter in Hin as [_ Hin].
      - destruct (chain_parent t Ht Hm ltac:(lia)) as (p & Hin & Hv & Hpp & Epos).
        specialize (Hp _ (parents_idx u t p Ht Hin)). rewrite Z2Nat.id in Hp by (by apply (idx_range u)).
        destruct (ordered_launches _ _ HL') as (_ & _ & Hcl). apply Hcl, elem_of_launches in Hp.
        assert (Hf : idx p ∈ idx <$> ts) by (rewrite <- E; apply list_elem_of_filter; split; [by apply moves_data_tag|done]).
        apply list_elem_of_fmap in Hf as (t' & Eidx & Ht'). apply list_elem_of_lookup in Ht' as [k Hk].
        destruct (Hts _ _ Hk) as (Hv' & _ & Ek). apply ring_idx_inj in Eidx; [subst t'|done..]. apply lookup_lt_Some in Hk. lia. }
    intros k t' Hk. apply lookup_snoc_Some in Hk as [[_ Hk]|[-> <-]]; [by apply Hts|done].
  - destruct (IH HL') as (ts & E & Hts). exists ts. split; [|done]. unfold launches. rewrite omap_app. cbn. by rewrite app_nil_r.
Qed.

Lemma length_ops o l : (forall i, i ∈ l -> exists t, valid t /\ i = idx t) -> (forall t, is_p2p t = true -> length (filter (same_way o) (tag_ops t)) = 1%nat) ->
  length (filter (same_way o) (l ≫= node_ops ring_graph u)) = length (filter moves_data l).
Proof.
  intros Hl Ho. induction l as [|i l IH]; [done|]. rewrite bind_cons, filter_app, length_app, IH by (intros j Hj; apply Hl; by right).
  destruct (Hl i (list_elem_of_here _ _)) as (t & Ht & ->). rewrite node_ops_tag by done. rewrite filter_cons. case_decide as Hm.
  - by rewrite Ho by (by apply moves_data_tag).
  - rewrite moves_data_tag in Hm by done. by destruct t.
Qed.

(** The operations of a transfer belong to the message with its position. *)
Lemma ring_msg t j o : valid t -> is_p2p t = true -> Launch (idx t) ∈ L -> tag_ops t !! j = Some o ->
  msg_no ring_graph u L (idx t) j o = Z.to_nat (pos t).
Proof.
  intros Ht Hp Hl Ho. unfold msg_no. destruct (one_each t j o Hp Ho) as [H1 H2].
  rewrite filter_app, length_app, node_ops_tag, H1 by done. destruct p2p_launches as (ts & E & Hts).
  destruct (ordered_launches _ L HL) as (Hnd & _ & _). rewrite length_ops; [|intros i Hi|done].
  2: { apply until_elem, elem_of_launches in Hi. by apply launch_tag. }
  assert (Hm : moves_data (idx t)) by (by apply moves_data_tag). rewrite filter_until, E by done.
  assert (Hin : idx t ∈ idx <$> ts) by (rewrite <- E; apply list_elem_of_filter; split; [done|by apply elem_of_launches]).
  apply list_elem_of_fmap in Hin as (t' & Eidx & Ht'). apply list_elem_of_lookup in Ht' as [k Hk].
  destruct (Hts _ _ Hk) as (Hv' & _ & Ek). apply ring_idx_inj in Eidx; [subst t'|done..].
  rewrite (length_until _ k); [cbn; lia| |by rewrite list_lookup_fmap, Hk]. rewrite <- E. by apply NoDup_filter.
Qed.
End Log.
End Ring.
