(* ===== verification/UniRingData.v ===== *)
(** The data of a ring all-reduce: what every operation of [UniDagShape] reads
    and writes, element by element, and the value that an element of a receive
    buffer holds at each stage. *)
From S2P Require Import Prelude Flagcx Arrays C2cRunner KernelTrigger UniDag UniDagBuild UniDagShape UniSched UniSchedPool UniSchedInv UniParts UniSystem UniRing.

Section Data.
Context {V : Type} (combine : flagcxRedOp_t -> V -> V -> V).
Context (n S_ R count nthreads : Z) (dt : flagcxDataType_t) (redOp : flagcxRedOp_t) (sendbuff recvbuff scratchbuff : Z -> Z).
Context (Hn : 2 <= n) (HS : 1 <= S_) (HR : 1 <= R).
Abbreviation ts := (getFlagcxDataTypeSize dt).
Context (Hc : 0 <= count) (Hfit : count * ts < U64_MOD).

(** The buffers of a rank fit in memory. *)
Context (Hbuf : forall u, 0 <= u < n -> 0 <= sendbuff u /\ sendbuff u + count * ts < U64_MOD /\ 0 <= recvbuff u /\ recvbuff u + count * ts < U64_MOD).
(** They are disjoint. *)
Context (Hdis : forall u, 0 <= u < n -> sendbuff u + count * ts <= recvbuff u \/ recvbuff u + count * ts <= sendbuff u).
Abbreviation args := (ring_args n S_ count nthreads dt redOp sendbuff recvbuff scratchbuff).
Abbreviation graph := (ring_graph n S_ R count nthreads dt redOp sendbuff recvbuff scratchbuff).
Abbreviation idx := (ar_idx (args 0) R).
Abbreviation valid := (ar_valid (args 0) R).

(** ** Elements *)

Definition src_cell (u q : Z) : Z := sendbuff u + q * ts.
Definition dst_cell (u q : Z) : Z := recvbuff u + q * ts.

(** The chunk that rank [u] sends in step [k] of the first phase; it receives
    that of step [k + 1].  In the second phase it is one step further on. *)
Definition chunk (u k : Z) : Z := (u - k) mod n.
Definition len (c s : Z) : Z := slice_count (args 0) c s.
Definition elt (c s e : Z) : Z := slice_start (args 0) c s + e.

Lemma chunk_range u k : 0 <= chunk u k < n.
Proof. apply Z.mod_pos_bound. lia. Qed.

Lemma chunk_inj u k k' : 0 <= k < n -> 0 <= k' < n -> chunk u k = chunk u k' -> k = k'.
Proof.
  unfold chunk. intros Hk Hk' E. pose proof (Z.div_mod (u - k) n ltac:(lia)). pose proof (Z.div_mod (u - k') n ltac:(lia)).
  assert (H' : n * ((u - k) / n - (u - k') / n) = k' - k) by lia. assert ((u - k) / n - (u - k') / n = 0) by nia. lia.
Qed.

Lemma chunk_next u k : 0 <= u < n -> chunk ((u + 1) mod n) (k + 1) = chunk u k.
Proof. unfold chunk. intros Hu. rewrite Zminus_mod_idemp_l. f_equal. lia. Qed.

Lemma chunk_self u : 0 <= u < n -> chunk u 0 = u.
Proof. unfold chunk. intros. rewrite Z.mod_small; lia. Qed.

Lemma chunk_wrap u : chunk u (-1) = chunk u (n - 1).
Proof. unfold chunk. replace (u - (-1)) with (u - (n - 1) + 1 * n) by lia. apply Z.mod_add. lia. Qed.

(** The rank that sends to [u], and the one it sends to. *)
Lemma prev_next u : 0 <= u < n -> ((u - 1) mod n + 1) mod n = u.
Proof. intros. rewrite Zplus_mod_idemp_l, Z.mod_small; lia. Qed.

Lemma rem_chunk u k : 0 <= u < n -> k <= n -> Z.rem (u - k + n) n = chunk u k.
Proof.
  intros Hu Hk. unfold chunk. rewrite Z.rem_mod_nonneg by lia. rewrite <- (Z.mod_add (u - k) 1 n) by lia. f_equal. lia.
Qed.

Lemma len_range c s : 0 <= c < n -> 0 <= s < S_ -> 0 <= len c s < U64_MOD.
Proof. intros. by apply slice_count_nonneg; cbn; try lia. Qed.

Lemma elt_range c s e : 0 <= c < n -> 0 <= s < S_ -> 0 <= e < len c s -> 0 <= elt c s e < count.
Proof. intros. by apply (slice_elem_range (args 0)); cbn; try lia. Qed.

Lemma elt_inj c s e c' s' e' : 0 <= c < n -> 0 <= s < S_ -> 0 <= e < len c s -> 0 <= c' < n -> 0 <= s' < S_ -> 0 <= e' < len c' s' ->
  elt c s e = elt c' s' e' -> c = c' /\ s = s' /\ e = e'.
Proof. intros. by apply (slice_inj (args 0)); cbn; try lia. Qed.

Lemma elt_find q : 0 <= q < count -> exists c s e, 0 <= c < n /\ 0 <= s < S_ /\ 0 <= e < len c s /\ q = elt c s e.
Proof. intros. by apply (slice_find (args 0)); cbn; try lia. Qed.

Lemma ts_pos : 0 < ts.
Proof. apply datatype_size_pos. Qed.

Lemma cells_apart u q q' : 0 <= u < n -> 0 <= q < count -> 0 <= q' < count -> src_cell u q <> dst_cell u q'.
Proof. intros Hu Hq Hq'. unfold src_cell, dst_cell. pose proof (Hdis u Hu). pose proof ts_pos. nia. Qed.

Lemma dst_cell_inj u q q' : dst_cell u q = dst_cell u q' -> q = q'.
Proof. unfold dst_cell. pose proof ts_pos as Hpos. clear - Hpos. nia. Qed.

(** ** Operations *)

Lemma slice_start_bounds c s : 0 <= c < n -> 0 <= s < S_ -> 0 <= slice_start (args 0) c s /\ slice_start (args 0) c s + len c s <= count.
Proof.
  intros Hcr Hs. pose proof (slice_start_range (args 0) ltac:(cbn; lia) ltac:(cbn; lia) Hc Hfit c s Hcr ltac:(cbn; lia)).
  pose proof (slice_start_range (args 0) ltac:(cbn; lia) ltac:(cbn; lia) Hc Hfit c (s + 1) Hcr ltac:(cbn; lia)).
  pose proof (part_start_range count n Hc ltac:(lia) c ltac:(lia)). pose proof (part_start_range count n Hc ltac:(lia) (c + 1) ltac:(lia)).
  unfold len. rewrite (slice_count_exact (args 0)) by (cbn; lia). cbn in *. lia.
Qed.

Lemma base_offset b c s : 0 <= b -> b + count * ts < U64_MOD -> 0 <= c < n -> 0 <= s < S_ ->
  b +u64 slice_offset (args 0) c s = b + slice_start (args 0) c s * ts.
Proof.
  intros Hb Hbc Hcr Hs. rewrite (slice_offset_exact (args 0)) by (cbn; lia). pose proof (slice_start_bounds c s Hcr Hs).
  pose proof (len_range c s Hcr Hs). pose proof ts_pos. cbn [ua_datatype ring_args]. apply Z.mod_small. nia.
Qed.

Definition send_to (u addr c s : Z) : uniRunnerP2pOpData :=
  MkP2pOp (addr + slice_start (args 0) c s * ts) (len c s) ((u + 1) mod n) dt flagcxDevicePrimSend.
Definition recv_in (u c s : Z) : uniRunnerP2pOpData :=
  MkP2pOp (recvbuff u + slice_start (args 0) c s * ts) (len c s) ((u - 1) mod n) dt flagcxDevicePrimRecv.

Lemma ring_ops_exact u b tx rx s : 0 <= u < n -> 0 <= b -> b + count * ts < U64_MOD -> 0 <= tx < n -> 0 <= rx < n -> 0 <= s < S_ ->
  ring_ops (args u) b tx rx s = [send_to u b tx s; recv_in u rx s].
Proof.
  intros Hu Hb Hbc Htx Hrx Hs. unfold ring_ops, send_to, recv_in, nextRank, prevRank, uni_send_op, uni_recv_op. cbn [ua_rank ua_nranks ua_recvbuff ua_datatype ring_args].
  change (slice_offset (args u)) with (slice_offset (args 0)). change (slice_count (args u)) with len.
  pose proof (Hbuf u Hu). rewrite !base_offset by lia. rewrite !Z.rem_mod_nonneg by lia.
  do 3 f_equal. rewrite <- (Z.mod_add (u - 1) 1 n) by lia. do 2 f_equal. lia.
Qed.

Lemma scatter_ops_exact u s i : 0 <= u < n -> valid (Scatter s i) ->
  scatter_ops (args u) s i = [send_to u (if i =? 0 then sendbuff u else recvbuff u) (chunk u i) s; recv_in u (chunk u (i + 1)) s].
Proof.
  intros Hu Ht. cbn in Ht. unfold scatter_ops. cbn [ua_rank ua_nranks ua_sendbuff ua_recvbuff ring_args]. pose proof (Hbuf u Hu).
  replace (u - i - 1 + n) with (u - (i + 1) + n) by lia. rewrite !rem_chunk by lia.
  apply ring_ops_exact; auto using chunk_range; try lia; destruct (i =? 0); lia.
Qed.

Lemma gather_ops_exact u s g : 0 <= u < n -> valid (Gather s g) ->
  gather_ops (args u) s g = [send_to u (recvbuff u) (chunk u (g - 1)) s; recv_in u (chunk u g) s].
Proof.
  intros Hu Ht. cbn in Ht. unfold gather_ops. cbn [ua_rank ua_nranks ua_sendbuff ua_recvbuff ring_args]. pose proof (Hbuf u Hu).
  replace (u - g + 1 + n) with (u - (g - 1) + n) by lia. rewrite !rem_chunk by lia.
  apply ring_ops_exact; auto using chunk_range; lia.
Qed.

(** The first element of a part of a reduction, in its slice. *)
Definition red_start (c s r : Z) : Z := part_start (len c s) R r.

Lemma red_part c s r k : 0 <= c < n -> 0 <= s < S_ -> 0 <= r < R -> 0 <= k < part_count (len c s) R r ->
  red_start c s r <= red_start c s r + k < red_start c s (r + 1) /\ 0 <= red_start c s r + k < len c s.
Proof.
  intros Hcr Hs Hr Hk. pose proof (len_range c s Hcr Hs). rewrite part_count_exact in Hk by lia. unfold red_start.
  pose proof (part_start_range (len c s) R ltac:(lia) ltac:(lia) r ltac:(lia)). pose proof (part_start_range (len c s) R ltac:(lia) ltac:(lia) (r + 1) ltac:(lia)). lia.
Qed.

Lemma reduce_data_exact u s i r : 0 <= u < n -> valid (Reduce s i r) ->
  reduce_data (args u) R s i r =
    let q := elt (chunk u (i + 1)) s (red_start (chunk u (i + 1)) s r) in
    RedNode (dst_cell u q) (src_cell u q) (dst_cell u q) (part_count (len (chunk u (i + 1)) s) R r) nthreads dt redOp 0.
Proof.
  intros Hu Ht. cbn in Ht. unfold reduce_data. cbn [ua_rank ua_nranks ua_nthreads ua_redOp ua_sendbuff ua_recvbuff ua_datatype ring_args].
  replace (u - i - 1 + n) with (u - (i + 1) + n) by lia. rewrite !rem_chunk by lia. set (c := chunk u (i + 1)).
  pose proof (chunk_range u (i + 1)) as Hcr. fold c in Hcr. change (slice_offset (args u)) with (slice_offset (args 0)). change (slice_count (args u)) with len.
  change (red_offset (args u)) with (red_offset (args 0)). change len with (slice_count (args 0)). rewrite (red_offset_exact (args 0)) by (cbn; lia).
  pose proof (Hbuf u Hu). pose proof (slice_start_bounds c s Hcr ltac:(lia)). pose proof (len_range c s Hcr ltac:(lia)). pose proof ts_pos.
  pose proof (part_start_range (len c s) R ltac:(lia) ltac:(lia) r ltac:(lia)). cbn [ua_datatype ring_args]. fold (len c s).
  unfold dst_cell, src_cell, elt, red_start, red_count. change (slice_count (args 0) c s) with (len c s).
  rewrite !Z.mod_small by nia. done.
Qed.
End Data.
