(* ===== verification/UniRingInv.v ===== *)
(** The invariant of a ring all-reduce: what every element of a receive buffer
    and of a message holds, at any time and however the ranks interleave. *)
From S2P Require Import Prelude Flagcx Arrays C2cRunner KernelTrigger UniDag UniDagBuild UniDagShape UniSched UniSchedPool UniSchedInv UniParts UniSystem UniRing UniRingData.

Section Inv.
Context {V : Type} (combine : flagcxRedOp_t -> V -> V -> V) (x : Z -> Z -> V).
Context (n S_ R count nthreads : Z) (dt : flagcxDataType_t) (redOp : flagcxRedOp_t) (sendbuff recvbuff scratchbuff : Z -> Z).
Context (Hn : 2 <= n) (HS : 1 <= S_) (HR : 1 <= R).
Abbreviation ts := (getFlagcxDataTypeSize dt).
Context (Hc : 0 <= count) (Hfit : count * ts < U64_MOD).
Context (Hbuf : forall u, 0 <= u < n -> 0 <= sendbuff u /\ sendbuff u + count * ts < U64_MOD /\ 0 <= recvbuff u /\ recvbuff u + count * ts < U64_MOD).
Context (Hdis : forall u, 0 <= u < n -> sendbuff u + count * ts <= recvbuff u \/ recvbuff u + count * ts <= sendbuff u).
Abbreviation args := (ring_args n S_ count nthreads dt redOp sendbuff recvbuff scratchbuff).
Abbreviation graph := (ring_graph n S_ R count nthreads dt redOp sendbuff recvbuff scratchbuff).
Abbreviation idx := (ar_idx (args 0) R).
Abbreviation valid := (ar_valid (args 0) R).
Abbreviation chunk := (chunk n).
Abbreviation len := (len n S_ count nthreads dt redOp sendbuff recvbuff scratchbuff).
Abbreviation elt := (elt n S_ count nthreads dt redOp sendbuff recvbuff scratchbuff).
Abbreviation red_start := (red_start n S_ R count nthreads dt redOp sendbuff recvbuff scratchbuff).
(** The number of elements of a reduction fits in its trigger. *)
Context (Hword : forall c s r, 0 <= c < n -> 0 <= s < S_ -> 0 <= r < R -> part_count (len c s) R r < 2 ^ 32).
Abbreviation src_cell := (src_cell dt sendbuff).
Abbreviation dst_cell := (dst_cell dt recvbuff).
Abbreviation pos := (pos n S_).
Abbreviation tag_ops := (tag_ops n S_ count nthreads dt redOp sendbuff recvbuff scratchbuff).
Abbreviation send_to := (send_to n S_ count nthreads dt redOp sendbuff recvbuff scratchbuff).
Abbreviation recv_in := (recv_in n S_ count nthreads dt redOp sendbuff recvbuff scratchbuff).

(** ** Values *)

(** Element [q] of the chunk that starts at rank [c], after [d] reductions. *)
Fixpoint partial (c q : Z) (d : nat) : V :=
  match d with
  | O => x c q
  | S d => combine redOp (partial c q d) (x ((c + Z.of_nat (S d)) mod n) q)
  end.
Definition part_sum (c q k : Z) : V := partial c q (Z.to_nat k).

Lemma part_sum_step u k q : 0 <= u < n -> 0 <= k ->
  part_sum (chunk u (k + 1)) q (k + 1) = combine redOp (part_sum (chunk u (k + 1)) q k) (x u q).
Proof.
  intros Hu Hk. unfold part_sum. replace (Z.to_nat (k + 1)) with (S (Z.to_nat k)) by lia. cbn [partial]. do 2 f_equal.
  unfold UniRingData.chunk. rewrite Zplus_mod_idemp_l, Z.mod_small; lia.
Qed.

(** What a transfer sends and receives. *)
Definition slice_of (t : ring_tag) : Z := match t with Scatter s _ | Reduce s _ _ | Gather s _ => s | Copy => 0 end.
Definition out_base (u : Z) (t : ring_tag) : Z := match t with Scatter _ i => if i =? 0 then sendbuff u else recvbuff u | _ => recvbuff u end.
Definition out_step (t : ring_tag) : Z := match t with Scatter _ i => i | Gather _ g => g - 1 | _ => 0 end.
Definition in_step (t : ring_tag) : Z := out_step t + 1.
Definition level (t : ring_tag) : Z := match t with Scatter _ i => i | _ => n - 1 end.
Definition out_len (u : Z) (t : ring_tag) : Z := len (chunk u (out_step t)) (slice_of t).
Definition in_len (u : Z) (t : ring_tag) : Z := len (chunk u (in_step t)) (slice_of t).
Definition chan_val (u : Z) (t : ring_tag) (e : Z) : V :=
  part_sum (chunk u (out_step t)) (elt (chunk u (out_step t)) (slice_of t) e) (level t).

(** ** Stages of an element *)

Section Stages.
Variable p : Z -> ring_tag -> nat -> Z.

(** Element [e] of slice [s] of the chunk [k] steps behind rank [v]. *)
Definition in_cell (v k s e : Z) : Prop := 0 <= v < n /\ 0 <= k < n /\ 0 <= s < S_ /\ 0 <= e < len (chunk v k) s.
Definition recvd (v k s e : Z) : Prop := 1 <= k /\ e < p v (Scatter s (k - 1)) 1.
Definition redd (v k s e : Z) : Prop := 1 <= k /\ exists r, 0 <= r < R /\
  red_start (chunk v k) s r <= e < red_start (chunk v k) s r + p v (Reduce s (k - 1) r) 0.
Definition gath (v k s e : Z) : Prop := k < n - 1 /\ e < p v (Gather s k) 1.
End Stages.

Definition pr (w : system (V := V)) (u : Z) (t : ring_tag) (j : nat) : Z := rk_done (sy_rank w u) (idx t) j.
Definition lg (w : system (V := V)) (u : Z) : list node_event := rk_log (sy_rank w u).

Definition cell_ok (w : system) (v k s e : Z) : Prop :=
  let c := chunk v k in let q := elt c s e in let y := rk_mem (sy_rank w v) (dst_cell v q) in
  (recvd (pr w) v k s e -> ~ redd (pr w) v k s e -> ~ gath (pr w) v k s e -> y = part_sum c q (k - 1)) /\
  (redd (pr w) v k s e -> ~ gath (pr w) v k s e -> y = part_sum c q k) /\
  (gath (pr w) v k s e -> y = part_sum c q (n - 1)).

Record ring_inv (w : system) : Prop := {
  ri_ok : sys_ok n graph w;
  ri_src : forall u q, 0 <= u < n -> 0 <= q < count -> rk_mem (sy_rank w u) (src_cell u q) = x u q;
  ri_chan : forall u t, 0 <= u < n -> valid t -> is_p2p t = true ->
    let m := sy_chan w u ((u + 1) mod n) (Z.to_nat (pos t)) in
    Z.of_nat (length m) = pr w u t 0 /\ forall (e : nat) y, m !! e = Some y -> y = chan_val u t (Z.of_nat e);
  ri_cell : forall v k s e, in_cell v k s e -> cell_ok w v k s e
}.

(** ** Operations *)

Lemma out_ops u t : 0 <= u < n -> valid t -> is_p2p t = true ->
  tag_ops u t =
  [send_to u (out_base u t) (chunk u (out_step t)) (slice_of t);
   recv_in u (chunk u (in_step t)) (slice_of t)].
Proof.
  intros Hu Ht Hp. destruct t as [s i| |s g|]; try done; unfold in_step; cbn [tag_ops out_step slice_of out_base].
  - by apply (scatter_ops_exact n S_ R).
  - replace (g - 1 + 1) with g by lia. by apply (gather_ops_exact n S_ R).
Qed.

Lemma p2p_data u t : is_p2p t = true -> ar_data (args u) R t = P2pNode (Some (tag_ops u t)) 0.
Proof. by destruct t. Qed.

Lemma step_range t : valid t -> is_p2p t = true -> 0 <= slice_of t < S_ /\ -1 <= out_step t <= n - 2 /\ 0 <= level t <= n - 1.
Proof. destruct t; cbn; try done; lia. Qed.

(** A rank receives what the one before it sends. *)
Lemma in_is_out u t : 0 <= u < n -> chunk ((u + 1) mod n) (in_step t) = chunk u (out_step t).
Proof. intros. by apply chunk_next. Qed.

Lemma works_out u t : 0 <= u < n -> valid t -> is_p2p t = true -> works (ar_data (args u) R t) !! 0%nat = Some (out_len u t).
Proof. intros Hu Ht Hp. rewrite p2p_data by done. cbn. by rewrite out_ops. Qed.

Lemma works_in u t : 0 <= u < n -> valid t -> is_p2p t = true -> works (ar_data (args u) R t) !! 1%nat = Some (in_len u t).
Proof. intros Hu Ht Hp. rewrite p2p_data by done. cbn. by rewrite out_ops. Qed.

Lemma reduce_exact u s i r : 0 <= u < n -> valid (Reduce s i r) ->
  ar_data (args u) R (Reduce s i r) = let c := chunk u (i + 1) in let q := elt c s (red_start c s r) in
    RedNode (dst_cell u q) (src_cell u q) (dst_cell u q) (part_count (len c s) R r) nthreads dt redOp 0.
Proof. intros Hu Ht. by apply reduce_data_exact. Qed.

Lemma works_red u s i r : 0 <= u < n -> valid (Reduce s i r) ->
  works (ar_data (args u) R (Reduce s i r)) = [part_count (len (chunk u (i + 1)) s) R r mod 2 ^ 32].
Proof. intros Hu Ht. rewrite reduce_exact by done. cbn [works]. by rewrite getCount_setValue. Qed.

Lemma works_tag u t j c : 0 <= u < n -> valid t -> works (ar_data (args u) R t) !! j = Some c ->
  (is_p2p t = true /\ j = 0%nat /\ c = out_len u t) \/ (is_p2p t = true /\ j = 1%nat /\ c = in_len u t) \/
  (exists s i r, t = Reduce s i r /\ j = 0%nat /\ c = part_count (len (chunk u (i + 1)) s) R r mod 2 ^ 32).
Proof.
  intros Hu Ht Hj. destruct (is_p2p t) eqn:Hp.
  - pose proof Hj as Hlt. apply lookup_lt_Some in Hlt. rewrite p2p_data in Hlt by done. cbn in Hlt. rewrite length_fmap, out_ops in Hlt by done.
    destruct j as [|[|j]]; [left|right; left|cbn in Hlt; lia]; [rewrite works_out in Hj by done|rewrite works_in in Hj by done]; by injection Hj as <-.
  - destruct t as [| s i r| |]; try done. right. right. rewrite works_red in Hj by done. exists s, i, r. destruct j; [|done]. by injection Hj as <-.
Qed.

Lemma len_bounds u k s : 0 <= s < S_ -> 0 <= len (chunk u k) s.
Proof.
  intros Hs. pose proof (chunk_range n Hn u k) as Hcr.
  pose proof (len_range n S_ count nthreads dt redOp sendbuff recvbuff scratchbuff Hn HS Hc Hfit (chunk u k) s Hcr Hs). lia.
Qed.

Lemma red_count_nonneg u k s r : 0 <= s < S_ -> 0 <= r < R -> 0 <= part_count (len (chunk u k) s) R r.
Proof.
  intros Hs Hr. pose proof (chunk_range n Hn u k) as Hcr.
  pose proof (len_range n S_ count nthreads dt redOp sendbuff recvbuff scratchbuff Hn HS Hc Hfit (chunk u k) s Hcr Hs).
  pose proof (part_count_range (len (chunk u k) s) R ltac:(lia) ltac:(lia) ltac:(lia) r Hr). lia.
Qed.

Lemma works_full u s i r : 0 <= u < n -> valid (Reduce s i r) ->
  works (ar_data (args u) R (Reduce s i r)) = [part_count (len (chunk u (i + 1)) s) R r].
Proof.
  intros Hu Ht. rewrite works_red by done. cbn in Ht. pose proof (chunk_range n Hn u (i + 1)). rewrite Z.mod_small; [done|].
  split; [apply red_count_nonneg; lia|apply Hword; lia].
Qed.

(** ** Progress and order *)

Section World.
Context (w : system (V := V)) (Hok : sys_ok n graph w).

Lemma log_ordered u : 0 <= u < n -> ordered (graph u) (lg w u).
Proof. intros. by apply (so_log n graph w Hok). Qed.

Lemma pr_started u t j : 0 <= u < n -> 0 < pr w u t j -> Launch (idx t) ∈ lg w u.
Proof.
  intros Hu Hp. destruct (decide (Launch (idx t) ∈ lg w u)) as [|Hl]; [done|].
  pose proof (so_idle n graph w Hok u (idx t) j Hu Hl) as E. unfold pr in Hp. lia.
Qed.

Lemma pr_bound u t j c : 0 <= u < n -> valid t -> works (ar_data (args u) R t) !! j = Some c -> 0 <= c -> 0 <= pr w u t j <= c.
Proof.
  intros Hu Ht Hj Hc0. pose proof (so_bound n graph w Hok u (idx t) _ j c Hu (data_of_tag _ _ _ _ _ _ _ _ _ _ Hn HS HR u t Ht) Hj). unfold pr. lia.
Qed.

Lemma pr_complete u t j c : 0 <= u < n -> valid t -> works (ar_data (args u) R t) !! j = Some c -> Complete (idx t) ∈ lg w u -> c <= pr w u t j.
Proof.
  intros Hu Ht Hj Hcl. exact (so_done n graph w Hok u (idx t) _ j c Hu (data_of_tag _ _ _ _ _ _ _ _ _ _ Hn HS HR u t Ht) Hj Hcl).
Qed.

Lemma redd_scatter v k s e : in_cell v k s e -> redd (pr w) v k s e -> Complete (idx (Scatter s (k - 1))) ∈ lg w v.
Proof.
  intros (Hv & Hk & Hs & He) [Hk1 (r & Hr & Hred)]. eapply (parent_complete _ _ _ _ _ _ _ _ _ _ Hn HS HR v _ (log_ordered v Hv) (Reduce s (k - 1) r)).
  - cbn. lia.
  - apply (pr_started v _ 0); [done|lia].
  - cbn. by left.
Qed.

Lemma gath_launched v k s e : in_cell v k s e -> gath (pr w) v k s e -> Launch (idx (Gather s k)) ∈ lg w v.
Proof. intros (Hv & Hk & Hs & He) [_ Hg]. apply (pr_started v _ 1); [done|lia]. Qed.

Lemma gath_reduced v k s e r : in_cell v k s e -> gath (pr w) v k s e -> 1 <= k -> 0 <= r < R -> Complete (idx (Reduce s (k - 1) r)) ∈ lg w v.
Proof.
  intros Hin Hg Hk1 Hr. pose proof (gath_launched v k s e Hin Hg) as Hl. destruct Hin as (Hv & Hk & Hs & He). destruct Hg as [Hkn _].
  eapply (gather_after_reduce _ _ _ _ _ _ _ _ _ _ Hn HS HR v _ (log_ordered v Hv) s k); [cbn; lia|done|lia|done].
Qed.

Lemma gath_scatter v k s e i : in_cell v k s e -> gath (pr w) v k s e -> 0 <= i < n - 1 -> Complete (idx (Scatter s i)) ∈ lg w v.
Proof.
  intros Hin Hg Hi. pose proof (gath_launched v k s e Hin Hg) as Hl. destruct Hin as (Hv & Hk & Hs & He). destruct Hg as [Hkn _].
  eapply (chain_complete _ _ _ _ _ _ _ _ _ _ Hn HS HR v _ (log_ordered v Hv) (Gather s k)); try done; cbn; try lia. nia.
Qed.

(** Once its reductions are complete a slice is reduced. *)
Lemma all_redd v k s e : in_cell v k s e -> 1 <= k -> (forall r, 0 <= r < R -> Complete (idx (Reduce s (k - 1) r)) ∈ lg w v) -> redd (pr w) v k s e.
Proof.
  intros (Hv & Hk & Hs & He) Hk1 Hall. split; [done|]. pose proof (chunk_range n Hn v k) as Hcr.
  pose proof (len_range n S_ count nthreads dt redOp sendbuff recvbuff scratchbuff Hn HS Hc Hfit (chunk v k) s Hcr Hs) as Hlen.
  destruct (part_find (len (chunk v k) s) R ltac:(lia) e He) as (r & Hr & Her). exists r. split; [done|]. unfold UniRingData.red_start.
  assert (Hvr : valid (Reduce s (k - 1) r)) by (cbn; lia).
  pose proof (pr_complete v (Reduce s (k - 1) r) 0 _ Hv Hvr ltac:(by rewrite works_full) (Hall r Hr)) as Hpr.
  replace (k - 1 + 1) with k in Hpr by lia. rewrite part_count_exact in Hpr by lia. lia.
Qed.
End World.

(** ** The flow of messages *)

(** A message has the elements that its sender has moved. *)
Record ring_flow (w : system (V := V)) : Prop := {
  rf_ok : sys_ok n graph w;
  rf_chan : forall u t, 0 <= u < n -> valid t -> is_p2p t = true -> Z.of_nat (length (sy_chan w u ((u + 1) mod n) (Z.to_nat (pos t)))) = pr w u t 0
}.

(** ** Reads *)

Lemma elem_elt b c s k : elem dt (b + slice_start (args 0) c s * ts) k = b + elt c s k * ts.
Proof. unfold elem, UniRingData.elt. lia. Qed.

Lemma elem_part b c s r k : elem dt (b + elt c s (red_start c s r) * ts) k = b + elt c s (red_start c s r + k) * ts.
Proof. unfold elem, UniRingData.elt. lia. Qed.

Section Read.
Context (w : system (V := V)) (I : ring_inv w).

(** A rank sends the value that its chunk has reached. *)
Lemma read_out u t e : 0 <= u < n -> valid t -> is_p2p t = true -> Launch (idx t) ∈ lg w u -> Complete (idx t) ∉ lg w u ->
  0 <= e < out_len u t -> rk_mem (sy_rank w u) (out_base u t + elt (chunk u (out_step t)) (slice_of t) e * ts) = chan_val u t e.
Proof.
  intros Hu Ht Hp Hl Hnc He. pose proof (ri_ok w I) as Hok. unfold chan_val, out_len in *. destruct t as [s i| |s g|]; try done; cbn [out_base out_step slice_of level] in *.
  - assert (Hcell : in_cell u i s e) by (cbn in Ht; unfold in_cell; lia). destruct (Z.eqb_spec i 0) as [->|Hi].
    + destruct Hcell as (_ & _ & Hs & _). change (sendbuff u + ?q * ts) with (src_cell u q). rewrite (ri_src w I); [|done|].
      * rewrite (chunk_self n u Hu). done.
      * pose proof (chunk_range n Hn u 0) as Hcr. by apply (elt_range n S_ count nthreads dt redOp sendbuff recvbuff scratchbuff Hn HS Hc Hfit).
    + change (recvbuff u + ?q * ts) with (dst_cell u q). destruct (ri_cell w I u i s e Hcell) as (_ & H & _). apply H.
      * apply (all_redd w Hok u i s e Hcell); [cbn in Ht; lia|]. intros r Hr.
        eapply (parent_complete _ _ _ _ _ _ _ _ _ _ Hn HS HR u _ (log_ordered w Hok u Hu) (Scatter s i)); [done|done|].
        cbn. destruct (Z.ltb_spec 0 i); [|cbn in Ht; lia]. apply elem_of_app. right. apply elem_of_reduces. by exists r.
      * intros Hg. apply Hnc, (gath_scatter w Hok u i s e i Hcell Hg). cbn in Ht. lia.
  - change (recvbuff u + ?q * ts) with (dst_cell u q). cbn in Ht. destruct (decide (g = 0)) as [->|Hg].
    + change (0 - 1) with (-1) in *. rewrite chunk_wrap in * by done.
      assert (Hcell : in_cell u (n - 1) s e) by (unfold in_cell; lia). destruct (ri_cell w I u (n - 1) s e Hcell) as (_ & H & _). apply H.
      * apply (all_redd w Hok u (n - 1) s e Hcell); [lia|]. intros r Hr.
        eapply (parent_complete _ _ _ _ _ _ _ _ _ _ Hn HS HR u _ (log_ordered w Hok u Hu) (Gather s 0)); [cbn; lia|done|].
        cbn. apply elem_of_app. right. apply elem_of_reduces. exists r. split; [done|]. f_equal. lia.
      * intros [Hg _]. lia.
    + assert (Hcell : in_cell u (g - 1) s e) by (unfold in_cell; lia). destruct (ri_cell w I u (g - 1) s e Hcell) as (_ & _ & H). apply H.
      split; [lia|]. assert (Hv : valid (Gather s (g - 1))) by (cbn; lia).
      pose proof (pr_complete w Hok u (Gather s (g - 1)) 1 _ Hu Hv (works_in u _ Hu Hv eq_refl)) as Hpr.
      unfold in_len, in_step in Hpr. cbn [out_step slice_of] in Hpr. replace (g - 1 - 1 + 1) with (g - 1) in Hpr by lia.
      pose proof (chain_complete _ _ _ _ _ _ _ _ _ _ Hn HS HR u _ (log_ordered w Hok u Hu) (Gather s g) (Gather s (g - 1))) as Hcc.
      specialize (Hpr (Hcc ltac:(cbn; lia) eq_refl Hl Hv eq_refl ltac:(cbn; nia))). lia.
Qed.

(** A reduction reads what was received and not yet reduced. *)
Lemma read_red u s i r : 0 <= u < n -> valid (Reduce s i r) -> Launch (idx (Reduce s i r)) ∈ lg w u -> Complete (idx (Reduce s i r)) ∉ lg w u ->
  let e := red_start (chunk u (i + 1)) s r + pr w u (Reduce s i r) 0 in
  pr w u (Reduce s i r) 0 < part_count (len (chunk u (i + 1)) s) R r ->
  in_cell u (i + 1) s e /\ rk_mem (sy_rank w u) (dst_cell u (elt (chunk u (i + 1)) s e)) = part_sum (chunk u (i + 1)) (elt (chunk u (i + 1)) s e) i.
Proof.
  intros Hu Ht Hl Hnc e Hlt. pose proof (ri_ok w I) as Hok. pose proof (chunk_range n Hn u (i + 1)) as Hcr. pose proof Ht as Ht'. cbn in Ht'.
  pose proof (len_range n S_ count nthreads dt redOp sendbuff recvbuff scratchbuff Hn HS Hc Hfit (chunk u (i + 1)) s Hcr ltac:(lia)) as Hlen.
  assert (Hp : 0 <= pr w u (Reduce s i r) 0) by (eapply (pr_bound w Hok u _ 0 _ Hu Ht); [by rewrite works_full|by apply red_count_nonneg; lia]).
  destruct (red_part n S_ R count nthreads dt redOp sendbuff recvbuff scratchbuff Hn HS HR Hc Hfit (chunk u (i + 1)) s r (pr w u (Reduce s i r) 0)) as [He1 He2]; [lia..|].
  fold e in He1, He2. assert (Hcell : in_cell u (i + 1) s e) by (unfold in_cell; lia). split; [done|].
  destruct (ri_cell w I u (i + 1) s e Hcell) as (H & _). replace (i + 1 - 1) with i in H by lia. apply H.
  - split; [lia|]. replace (i + 1 - 1) with i by lia. assert (Hv : valid (Scatter s i)) by (cbn; lia).
    pose proof (pr_complete w Hok u (Scatter s i) 1 _ Hu Hv (works_in u _ Hu Hv eq_refl)) as Hpr.
    unfold in_len, in_step in Hpr. cbn [out_step slice_of] in Hpr.
    assert (Hsc : Complete (idx (Scatter s i)) ∈ lg w u).
    { eapply (parent_complete _ _ _ _ _ _ _ _ _ _ Hn HS HR u _ (log_ordered w Hok u Hu) (Reduce s i r)); [done|done|]. cbn. by left. }
    specialize (Hpr Hsc). lia.
  - intros [_ (r' & Hr' & Hred)]. replace (i + 1 - 1) with i in Hred by lia. assert (Hv : valid (Reduce s i r')) by (cbn; lia).
    pose proof (pr_bound w Hok u (Reduce s i r') 0 _ Hu Hv ltac:(by rewrite works_full) ltac:(by apply red_count_nonneg; lia)) as Hb.
    rewrite part_count_exact in Hb by lia. unfold UniRingData.red_start in *.
    assert (r' = r) as ->; [|unfold e in Hred; lia]. apply (part_inj (len (chunk u (i + 1)) s) R ltac:(lia) ltac:(lia) e); lia.
  - intros Hg. apply Hnc. replace i with (i + 1 - 1) by lia. apply (gath_reduced w Hok u (i + 1) s e r Hcell Hg); lia.
Qed.
End Read.

(** ** Moves *)

(** The counts after a move. *)
Definition bumped (p p' : Z -> ring_tag -> nat -> Z) (u : Z) (t : ring_tag) (j : nat) : Prop :=
  forall v t' j', valid t' -> p' v t' j' = if bool_decide (v = u /\ t' = t /\ j' = j) then p u t j + 1 else p v t' j'.

Lemma pr_bumped w w1 u t j : valid t -> (forall v, rk_done (sy_rank w1 v) = rk_done (sy_rank (at_rank u (advance_op (idx t) j) w) v)) ->
  bumped (pr w) (pr w1) u t j.
Proof.
  intros Ht Hd v t' j' Ht'. unfold pr. rewrite Hd. cbn. destruct (Z.eqb_spec v u) as [->|Hv]; cbn.
  - destruct (decide (t' = t /\ j' = j)) as [[-> ->]|Hne]; [by rewrite !bool_decide_eq_true_2|].
    rewrite !bool_decide_eq_false_2; [done|tauto|]. intros [E ->]. apply Hne. split; [|done].
    by apply (ring_idx_inj _ _ _ _ _ _ _ _ _ _ Hn HS HR) in E.
  - rewrite bool_decide_eq_false_2; [done|]. tauto.
Qed.

(** The cell that the [e]-th element of a receive or of a reduction goes to. *)
Definition target (u : Z) (t : ring_tag) (e : Z) : Z * Z * Z :=
  match t with
  | Scatter s i => (i + 1, s, e)
  | Reduce s i r => (i + 1, s, red_start (chunk u (i + 1)) s r + e)
  | Gather s g => (g, s, e)
  | Copy => (0, 0, 0)
  end.

(** A move leaves the stages of all elements but one. *)
Lemma stages_other p p' u t j v k s e : bumped p p' u t j -> in_cell v k s e ->
  (if is_p2p t then j = 1%nat -> (v, (k, s, e)) <> (u, target u t (p u t 1%nat)) else (v, (k, s, e)) <> (u, target u t (p u t 0%nat))) ->
  (recvd p' v k s e <-> recvd p v k s e) /\ (redd p' v k s e <-> redd p v k s e) /\ (gath p' v k s e <-> gath p v k s e).
Proof.
  intros Hb (Hv & Hk & Hs & He) Hne. split_and!.
  - unfold recvd. destruct (decide (1 <= k)) as [Hk1|]; [|lia]. rewrite (Hb v (Scatter s (k - 1)) 1%nat) by (cbn; lia).
    case_bool_decide as E; [|done]. destruct E as (-> & <- & <-). cbn in Hne. specialize (Hne eq_refl). replace (k - 1 + 1) with k in Hne by lia.
    destruct (decide (e = p u (Scatter s (k - 1)) 1%nat)) as [E|]; [|lia]. exfalso. by rewrite <- E in Hne.
  - assert (H : 1 <= k -> forall r, 0 <= r < R -> red_start (chunk v k) s r <= e < red_start (chunk v k) s r + p' v (Reduce s (k - 1) r) 0%nat <->
      red_start (chunk v k) s r <= e < red_start (chunk v k) s r + p v (Reduce s (k - 1) r) 0%nat).
    { intros Hk1 r Hr. rewrite (Hb v (Reduce s (k - 1) r) 0%nat) by (cbn; lia). case_bool_decide as E; [|done].
      destruct E as (-> & <- & <-). cbn in Hne. replace (k - 1 + 1) with k in Hne by lia.
      destruct (decide (e = red_start (chunk u k) s r + p u (Reduce s (k - 1) r) 0%nat)) as [E|]; [|lia]. exfalso. by rewrite <- E in Hne. }
    unfold redd. split; intros [Hk1 (r & Hr & Hred)]; (split; [done|]); exists r; (split; [done|]); by apply (H Hk1 r Hr).
  - unfold gath. destruct (decide (k < n - 1)) as [Hkn|]; [|lia]. rewrite (Hb v (Gather s k) 1%nat) by (cbn; lia).
    case_bool_decide as E; [|done]. destruct E as (-> & <- & <-). cbn in Hne. specialize (Hne eq_refl).
    destruct (decide (e = p u (Gather s k) 1%nat)) as [E|]; [|lia]. exfalso. by rewrite <- E in Hne.
Qed.

Lemma cell_ok_same w w' v k s e : rk_mem (sy_rank w' v) (dst_cell v (elt (chunk v k) s e)) = rk_mem (sy_rank w v) (dst_cell v (elt (chunk v k) s e)) ->
  (recvd (pr w') v k s e <-> recvd (pr w) v k s e) /\ (redd (pr w') v k s e <-> redd (pr w) v k s e) /\ (gath (pr w') v k s e <-> gath (pr w) v k s e) ->
  cell_ok w v k s e -> cell_ok w' v k s e.
Proof. unfold cell_ok. intros -> (-> & -> & ->). done. Qed.

(** Sending an element. *)
Lemma send_inv w u t : ring_inv w -> 0 <= u < n -> valid t -> is_p2p t = true ->
  let w' := push u ((u + 1) mod n) (Z.to_nat (pos t)) (chan_val u t (pr w u t 0)) (at_rank u (advance_op (idx t) 0) w) in
  sys_ok n graph w' -> ring_inv w'.
Proof.
  intros I Hu Ht Hp w' Hok'. assert (Hb : bumped (pr w) (pr w') u t 0) by (by apply pr_bumped).
  assert (Hm : forall v, rk_mem (sy_rank w' v) = rk_mem (sy_rank w v)) by (intros v; cbn; by destruct (Z.eqb_spec v u) as [->|]).
  constructor; [done| | |].
  - intros v q Hv Hq. rewrite Hm. by apply (ri_src w I).
  - intros v t' Hv Ht' Hp'. cbn zeta. rewrite Hb by done. unfold w'. cbn [sy_chan push at_rank]. destruct (ri_chan w I v t' Hv Ht' Hp') as [Hlen Hval].
    pose proof (pos_range n S_ R count nthreads dt redOp sendbuff recvbuff scratchbuff Hn HS t Ht Hp) as Hpos.
    pose proof (pos_range n S_ R count nthreads dt redOp sendbuff recvbuff scratchbuff Hn HS t' Ht' Hp') as Hpos'.
    destruct (decide (v = u /\ t' = t)) as [[-> ->]|Hne].
    + rewrite !bool_decide_eq_true_2 by done. rewrite length_app. cbn [length]. split; [lia|]. intros e y Hy.
      apply lookup_snoc_Some in Hy as [[_ Hy]|[-> <-]]; [by apply Hval|]. by rewrite Hlen.
    + rewrite bool_decide_eq_false_2. 2: { intros (-> & _ & E). apply Hne. split; [done|].
        apply (pos_inj n S_ R count nthreads dt redOp sendbuff recvbuff scratchbuff Hn HS); try done. lia. }
      rewrite bool_decide_eq_false_2 by naive_solver. done.
  - intros v k s e Hcell. apply (cell_ok_same w); [by rewrite Hm| |by apply (ri_cell w I)].
    apply (stages_other _ _ u t 0); [done|done|]. by rewrite Hp.
Qed.

(** Writing an element of the receive buffer. *)
Lemma store_inv w u t j y k0 s0 e0 : ring_inv w -> 0 <= u < n -> valid t -> (is_p2p t = true -> j = 1%nat) -> (is_p2p t = false -> j = 0%nat) ->
  target u t (pr w u t j) = (k0, s0, e0) -> in_cell u k0 s0 e0 ->
  let w' := at_rank u (store (dst_cell u (elt (chunk u k0) s0 e0)) y) (at_rank u (advance_op (idx t) j) w) in
  sys_ok n graph w' -> (rk_mem (sy_rank w' u) (dst_cell u (elt (chunk u k0) s0 e0)) = y -> cell_ok w' u k0 s0 e0) -> ring_inv w'.
Proof.
  intros I Hu Ht Hj1 Hj0 Htar Hin w' Hok' Hcell'. assert (Hb : bumped (pr w) (pr w') u t j).
  { apply pr_bumped; [done|]. intros v. cbn. destruct (Z.eqb_spec v u) as [->|]; [by rewrite Z.eqb_refl|done]. }
  assert (Hm : forall v b, rk_mem (sy_rank w' v) b = if bool_decide (v = u /\ b = dst_cell u (elt (chunk u k0) s0 e0)) then y else rk_mem (sy_rank w v) b).
  { intros v b. cbn. destruct (Z.eqb_spec v u) as [->|Hv]; cbn; [rewrite Z.eqb_refl; cbn|by rewrite bool_decide_eq_false_2 by naive_solver].
    destruct (Z.eqb_spec b (dst_cell u (elt (chunk u k0) s0 e0))); [by rewrite bool_decide_eq_true_2|by rewrite bool_decide_eq_false_2 by naive_solver]. }
  assert (Helt : forall v k s e, in_cell v k s e -> 0 <= elt (chunk v k) s e < count).
  { intros v k s e (_ & _ & Hs & He). pose proof (chunk_range n Hn v k). by apply (elt_range n S_ count nthreads dt redOp sendbuff recvbuff scratchbuff Hn HS Hc Hfit). }
  constructor; [done| | |].
  - intros v q Hv Hq. rewrite Hm, bool_decide_eq_false_2; [by apply (ri_src w I)|]. intros [-> E].
    exact (cells_apart _ _ _ _ _ Hc Hfit Hdis u q _ Hv Hq (Helt _ _ _ _ Hin) E).
  - intros v t' Hv Ht' Hp'. cbn zeta. rewrite Hb by done. rewrite bool_decide_eq_false_2; [by apply (ri_chan w I)|].
    intros (-> & <- & <-). by specialize (Hj1 Hp').
  - intros v k s e Hcell. destruct (decide ((v, (k, s, e)) = (u, (k0, s0, e0)))) as [E|Hne].
    + injection E as -> -> -> ->. apply Hcell'. rewrite Hm. by rewrite bool_decide_eq_true_2.
    + apply (cell_ok_same w); [| |by apply (ri_cell w I)].
      * rewrite Hm, bool_decide_eq_false_2; [done|]. intros [-> E]. apply Hne. apply dst_cell_inj in E.
        destruct Hcell as (_ & Hk & Hs & He), Hin as (_ & Hk0 & Hs0 & He0). pose proof (chunk_range n Hn u k). pose proof (chunk_range n Hn u k0).
        apply (elt_inj n S_ count nthreads dt redOp sendbuff recvbuff scratchbuff Hn HS Hc Hfit) in E as (E & -> & ->); try done.
        by rewrite (chunk_inj n Hn u k k0 Hk Hk0 E).
      * apply (stages_other _ _ u t j); [done|done|]. destruct (is_p2p t) eqn:Hp.
        -- intros ->. by rewrite Htar.
        -- rewrite (Hj0 eq_refl) in Htar. by rewrite Htar.
Qed.

(** ** Actions *)

(** A launch or a completion moves no data. *)
Lemma event_inv w u e : ring_inv w -> sys_ok n graph (at_rank u (add_event e) w) -> ring_inv (at_rank u (add_event e) w).
Proof.
  intros I Hok'. assert (Hd : forall v t j, pr (at_rank u (add_event e) w) v t j = pr w v t j).
  { intros v t j. unfold pr. cbn. by destruct (Z.eqb_spec v u) as [->|]. }
  assert (Hm : forall v, rk_mem (sy_rank (at_rank u (add_event e) w) v) = rk_mem (sy_rank w v)).
  { intros v. cbn. by destruct (Z.eqb_spec v u) as [->|]. }
  constructor; [done| | |].
  - intros v q Hv Hq. rewrite Hm. by apply (ri_src w I).
  - intros v t Hv Ht Hp. cbn zeta. rewrite Hd. by apply (ri_chan w I).
  - intros v k s e0 Hcell. apply (cell_ok_same w); [by rewrite Hm| |by apply (ri_cell w I)].
    unfold recvd, redd, gath. setoid_rewrite Hd. done.
Qed.

Lemma send_effect w u t f : ring_inv w -> 0 <= u < n -> valid t -> is_p2p t = true -> Launch (idx t) ∈ lg w u -> Complete (idx t) ∉ lg w u ->
  pr w u t 0 < out_len u t -> move_effect combine graph u (idx t) 0 (ar_data (args u) R t) w = Some f ->
  f = push u ((u + 1) mod n) (Z.to_nat (pos t)) (chan_val u t (pr w u t 0)).
Proof.
  intros I Hu Ht Hp Hl Hn' Hlt. pose proof (ri_ok w I) as Hok. rewrite p2p_data by done. unfold move_effect. cbn [default]. rewrite out_ops by done.
  change (id [?a; ?b] !! 0%nat) with (Some a). cbn [mbind option_bind]. change (po_type (send_to u ?b ?c ?s)) with flagcxDevicePrimSend. rewrite Z.eqb_refl. intros [= <-].
  pose proof (step_range t Ht Hp) as (Hs & _). pose proof (len_bounds u (out_step t) (slice_of t) Hs).
  pose proof (pr_bound w Hok u t 0 _ Hu Ht (works_out u t Hu Ht Hp) ltac:(done)) as Hb.
  rewrite (ring_msg n S_ R count nthreads dt redOp sendbuff recvbuff scratchbuff Hn HS HR u _ (log_ordered w Hok u Hu)); try done.
  2: { by rewrite out_ops. }
  cbn [po_addr po_datatype po_peerRank UniRingData.send_to]. rewrite elem_elt, <- (read_out w I u t) by (done || lia). done.
Qed.

Lemma recv_effect w u t f : ring_inv w -> 0 <= u < n -> valid t -> is_p2p t = true -> Launch (idx t) ∈ lg w u ->
  0 <= pr w u t 1 -> move_effect combine graph u (idx t) 1 (ar_data (args u) R t) w = Some f ->
  f = at_rank u (store (dst_cell u (elt (chunk u (in_step t)) (slice_of t) (pr w u t 1)))
    (part_sum (chunk u (in_step t)) (elt (chunk u (in_step t)) (slice_of t) (pr w u t 1)) (level t))).
Proof.
  intros I Hu Ht Hp Hl Hk. pose proof (ri_ok w I) as Hok. rewrite p2p_data by done. unfold move_effect. cbn [default]. rewrite out_ops by done.
  change (id [?a; ?b] !! 1%nat) with (Some b). cbn [mbind option_bind]. change (po_type (recv_in u ?c ?s)) with flagcxDevicePrimRecv.
  change (flagcxDevicePrimRecv =? flagcxDevicePrimSend) with false. rewrite Z.eqb_refl. cbn match.
  rewrite (ring_msg n S_ R count nthreads dt redOp sendbuff recvbuff scratchbuff Hn HS HR u _ (log_ordered w Hok u Hu)); try done.
  2: { by rewrite out_ops. }
  cbn [po_addr po_datatype po_peerRank UniRingData.recv_in]. rewrite elem_elt.
  set (p := (u - 1) mod n). assert (Hpr : 0 <= p < n) by (apply Z.mod_pos_bound; lia).
  pose proof (ri_chan w I p t Hpr Ht Hp) as [_ Hval]. unfold p in Hval at 1 2. rewrite prev_next in Hval by done.
  destruct (sy_chan w _ u _ !! Z.to_nat _) as [y|] eqn:Hy; cbn [mbind option_bind]; [|done]. intros [= <-].
  rewrite (Hval _ y Hy). unfold chan_val. rewrite <- in_is_out by done. unfold p. rewrite prev_next by done.
  change (rk_done (sy_rank w u) (idx t) 1) with (pr w u t 1). rewrite Z2Nat.id by done. done.
Qed.

(** Receiving an element. *)
Lemma recv_inv w u t : ring_inv w -> 0 <= u < n -> valid t -> is_p2p t = true -> Launch (idx t) ∈ lg w u -> Complete (idx t) ∉ lg w u ->
  pr w u t 1 < in_len u t -> let q := elt (chunk u (in_step t)) (slice_of t) (pr w u t 1) in
  let w' := at_rank u (store (dst_cell u q) (part_sum (chunk u (in_step t)) q (level t))) (at_rank u (advance_op (idx t) 1) w) in
  sys_ok n graph w' -> ring_inv w'.
Proof.
  intros I Hu Ht Hp Hl Hnc Hlt q w' Hok'. pose proof (ri_ok w I) as Hok. pose proof (step_range t Ht Hp) as (Hs & Hstep & _).
  pose proof (len_bounds u (in_step t) (slice_of t) Hs).
  pose proof (pr_bound w Hok u t 1 _ Hu Ht (works_in u t Hu Ht Hp) ltac:(done)) as Hb.
  assert (Hcell : in_cell u (in_step t) (slice_of t) (pr w u t 1)) by (unfold in_cell; unfold in_len, in_step in *; split_and!; lia).
  assert (Hlg : lg w' u = lg w u) by (unfold lg, w'; rewrite !rank_here; done).
  assert (Hpr' : pr w' u t 1 = pr w u t 1 + 1) by (unfold pr, w'; rewrite !rank_here; cbn; by rewrite bool_decide_eq_true_2).
  apply (store_inv w u t 1); try done; [by rewrite Hp|by destruct t; try done; cbn [target in_step out_step slice_of]; unfold in_step; cbn; do 2 f_equal; lia|].
  intros Hy. unfold cell_ok. rewrite Hy. destruct t as [s i| |s g|]; try done; unfold in_step in *; cbn [slice_of level out_step] in *.
  - assert (Hng : ~ gath (pr w') u (i + 1) s (pr w u (Scatter s i) 1)).
    { intros Hg. apply Hnc. rewrite <- Hlg. cbn in Ht. apply (gath_scatter w' Hok' u (i + 1) s _ i Hcell Hg). lia. }
    split; [|split].
    + intros _ _ _. f_equal. lia.
    + intros Hr. exfalso. apply Hnc. rewrite <- Hlg. replace i with (i + 1 - 1) at 1 by lia. by apply (redd_scatter w' Hok' u (i + 1) s _ Hcell).
    + done.
  - assert (Hg : gath (pr w') u (g - 1 + 1) s (pr w u (Gather s g) 1)).
    { replace (g - 1 + 1) with g by lia. cbn in Ht. split; [lia|]. rewrite Hpr'. lia. }
    split_and!; done.
Qed.

(** Reducing an element. *)
Lemma reduce_inv w u s i r : ring_inv w -> 0 <= u < n -> valid (Reduce s i r) -> Launch (idx (Reduce s i r)) ∈ lg w u -> Complete (idx (Reduce s i r)) ∉ lg w u ->
  pr w u (Reduce s i r) 0 < part_count (len (chunk u (i + 1)) s) R r ->
  let e := red_start (chunk u (i + 1)) s r + pr w u (Reduce s i r) 0 in let q := elt (chunk u (i + 1)) s e in
  let w' := at_rank u (store (dst_cell u q) (part_sum (chunk u (i + 1)) q (i + 1))) (at_rank u (advance_op (idx (Reduce s i r)) 0) w) in
  sys_ok n graph w' -> ring_inv w'.
Proof.
  intros I Hu Ht Hl Hnc Hlt e q w' Hok'. pose proof (ri_ok w I) as Hok. destruct (read_red w I u s i r Hu Ht Hl Hnc Hlt) as [Hcell _]. fold e in Hcell.
  assert (Hlg : lg w' u = lg w u) by (unfold lg, w'; rewrite !rank_here; done).
  assert (Hpr' : pr w' u (Reduce s i r) 0 = pr w u (Reduce s i r) 0 + 1) by (unfold pr, w'; rewrite !rank_here; cbn; by rewrite bool_decide_eq_true_2).
  assert (Hp : 0 <= pr w u (Reduce s i r) 0).
  { eapply (pr_bound w Hok u _ 0 _ Hu Ht); [by rewrite works_full|cbn in Ht; by apply red_count_nonneg; lia]. }
  apply (store_inv w u (Reduce s i r) 0); try done. intros Hy. unfold cell_ok. fold q. cbn in Ht.
  assert (Hr : redd (pr w') u (i + 1) s e).
  { split; [lia|]. exists r. split; [lia|]. replace (i + 1 - 1) with i by lia. rewrite Hpr'. unfold e. lia. }
  split; [|split].
  - intros _ Hnr. done.
  - intros _ _. exact Hy.
  - intros Hg. exfalso. apply Hnc. rewrite <- Hlg. replace i with (i + 1 - 1) at 1 by lia. apply (gath_reduced w' Hok' u (i + 1) s e r Hcell Hg); lia.
Qed.

Lemma exec_ring act w w' : ring_inv w -> exec combine n graph act w = Some w' -> ring_inv w'.
Proof.
  intros I E. pose proof (ri_ok w I) as Hok. pose proof (exec_ok combine n graph act w w' Hok E) as Hok'.
  destruct (exec_inv combine n graph act w w' E) as [u i Hu Hl E'|u i j d c f Hu Hd Hj Hl Hnc Hk Hf E'|u i d Hu Hd Hl Hnc Hk E']; subst w'; [by apply event_inv| |by apply event_inv].
  destruct (tag_of_idx n S_ R count nthreads dt redOp sendbuff recvbuff scratchbuff Hn HS HR u i (data_of_range graph u i d Hd)) as (t & Ht & ->).
  rewrite data_of_tag in Hd by done. injection Hd as <-. change (rk_done (sy_rank w u) (idx t) j) with (pr w u t j) in Hk.
  destruct (works_tag u t j c Hu Ht Hj) as [(Hp & -> & ->)|[(Hp & -> & ->)|(s & i & r & -> & -> & ->)]].
  - rewrite (send_effect w u t f) in Hok' |- * by done. by apply send_inv.
  - pose proof (step_range t Ht Hp) as (Hs & _). pose proof (len_bounds u (in_step t) (slice_of t) Hs).
    pose proof (pr_bound w Hok u t 1 _ Hu Ht (works_in u t Hu Ht Hp) ltac:(done)) as Hb.
    rewrite (recv_effect w u t f) in Hok' |- * by (done || lia). by apply recv_inv.
  - rewrite works_full in Hj by done. injection Hj as E32. rewrite <- E32 in Hk.
    destruct (read_red w I u s i r Hu Ht Hl Hnc Hk) as [Hcell Hread]. rewrite reduce_exact in Hf by done. cbn in Hf.
    change (rk_done (sy_rank w u) ?j 0) with (pr w u (Reduce s i r) 0) in Hf. injection Hf as <-. revert Hok'.
    unfold UniRingData.dst_cell, UniRingData.src_cell. rewrite !elem_part. fold (dst_cell u (elt (chunk u (i + 1)) s (red_start (chunk u (i + 1)) s r + pr w u (Reduce s i r) 0))).
    change (sendbuff u + ?q * ts) with (src_cell u q). rewrite Hread, (ri_src w I), <- part_sum_step; [by apply reduce_inv|done|cbn in Ht; lia|done|].
    destruct Hcell as (_ & _ & Hs & He). pose proof (chunk_range n Hn u (i + 1)).
    by apply (elt_range n S_ count nthreads dt redOp sendbuff recvbuff scratchbuff Hn HS Hc Hfit).
Qed.

(** ** Flow, whatever the elements are *)

Lemma flow_same w w' : ring_flow w -> sys_ok n graph w' -> (forall u t, 0 <= u < n -> valid t -> is_p2p t = true -> pr w' u t 0 = pr w u t 0) ->
  (forall u v m, sy_chan w' u v m = sy_chan w u v m) -> ring_flow w'.
Proof. intros I Hok Hp Hm. constructor; [done|]. intros u t Hu Ht Hpp. rewrite Hm, Hp by done. by apply (rf_chan w I). Qed.

Lemma flow_send w u t y : ring_flow w -> 0 <= u < n -> valid t -> is_p2p t = true ->
  let w' := push u ((u + 1) mod n) (Z.to_nat (pos t)) y (at_rank u (advance_op (idx t) 0) w) in sys_ok n graph w' -> ring_flow w'.
Proof.
  intros I Hu Ht Hp w' Hok'. assert (Hb : bumped (pr w) (pr w') u t 0) by (by apply pr_bumped).
  constructor; [done|]. intros v t' Hv Ht' Hp'. rewrite Hb by done. unfold w'. cbn [sy_chan push at_rank]. pose proof (rf_chan w I v t' Hv Ht' Hp') as Hlen.
  pose proof (pos_range n S_ R count nthreads dt redOp sendbuff recvbuff scratchbuff Hn HS t Ht Hp) as Hpos.
  pose proof (pos_range n S_ R count nthreads dt redOp sendbuff recvbuff scratchbuff Hn HS t' Ht' Hp') as Hpos'.
  destruct (decide (v = u /\ t' = t)) as [[-> ->]|Hne].
  - rewrite !bool_decide_eq_true_2 by done. rewrite length_app. cbn [length]. lia.
  - rewrite bool_decide_eq_false_2. 2: { intros (-> & _ & E). apply Hne. split; [done|].
      apply (pos_inj n S_ R count nthreads dt redOp sendbuff recvbuff scratchbuff Hn HS); try done. lia. }
    rewrite bool_decide_eq_false_2 by naive_solver. done.
Qed.

(** Every other move writes an element of its rank. *)
Lemma flow_store w u t j a y : ring_flow w -> 0 <= u < n -> valid t -> is_p2p t = false \/ j = 1%nat ->
  let w' := at_rank u (store a y) (at_rank u (advance_op (idx t) j) w) in sys_ok n graph w' -> ring_flow w'.
Proof.
  intros I Hu Ht Hj w' Hok'. assert (Hb : bumped (pr w) (pr w') u t j).
  { apply pr_bumped; [done|]. intros v. cbn. destruct (Z.eqb_spec v u) as [->|]; [by rewrite Z.eqb_refl|done]. }
  apply (flow_same w); [done|done| |done]. intros v t' Hv Ht' Hp'. rewrite Hb by done. rewrite bool_decide_eq_false_2; [done|].
  intros (-> & -> & <-). destruct Hj as [Hj|Hj]; [congruence|done].
Qed.

Lemma exec_flow act w w' : ring_flow w -> exec combine n graph act w = Some w' -> ring_flow w'.
Proof.
  intros I E. pose proof (rf_ok w I) as Hok. pose proof (exec_ok combine n graph act w w' Hok E) as Hok'.
  assert (Hev : forall u e, sys_ok n graph (at_rank u (add_event e) w) -> ring_flow (at_rank u (add_event e) w)).
  { intros u e He. apply (flow_same w); [done|done| |done]. intros v t Hv Ht Hp. unfold pr. cbn. by destruct (Z.eqb_spec v u) as [->|]. }
  destruct (exec_inv combine n graph act w w' E) as [u i Hu Hl E'|u i j d c f Hu Hd Hj Hl Hnc Hk Hf E'|u i d Hu Hd Hl Hnc Hk E']; subst w'; [by apply Hev| |by apply Hev].
  destruct (tag_of_idx n S_ R count nthreads dt redOp sendbuff recvbuff scratchbuff Hn HS HR u i (data_of_range graph u i d Hd)) as (t & Ht & ->).
  rewrite data_of_tag in Hd by done. injection Hd as <-. clear E Hk.
  destruct (works_tag u t j c Hu Ht Hj) as [(Hp & -> & ->)|[(Hp & -> & ->)|(s & i & r & -> & -> & ->)]].
  - revert Hf Hok'. rewrite p2p_data by done. unfold move_effect. cbn [default]. rewrite out_ops by done.
    change (id [?a; ?b] !! 0%nat) with (Some a). cbn [mbind option_bind]. change (po_type (send_to u ?b ?c ?s)) with flagcxDevicePrimSend. rewrite Z.eqb_refl. intros [= <-].
    rewrite (ring_msg n S_ R count nthreads dt redOp sendbuff recvbuff scratchbuff Hn HS HR u _ (log_ordered w Hok u Hu)); [by apply flow_send|done..|by rewrite out_ops].
  - revert Hf Hok'. rewrite p2p_data by done. unfold move_effect. cbn [default]. rewrite out_ops by done.
    change (id [?a; ?b] !! 1%nat) with (Some b). cbn [mbind option_bind]. change (po_type (recv_in u ?c ?s)) with flagcxDevicePrimRecv.
    change (flagcxDevicePrimRecv =? flagcxDevicePrimSend) with false. rewrite Z.eqb_refl. cbn match.
    destruct (sy_chan w _ _ _ !! Z.to_nat _) as [y|]; cbn [mbind option_bind]; [|done]. intros [= <-]. apply flow_store; auto.
  - revert Hf Hok'. rewrite reduce_exact by done. unfold move_effect. cbv beta zeta. intros [= <-]. apply flow_store; auto.
Qed.

End Inv.
