(* ===== verification/UniRingLive.v ===== *)
(** A ring all-reduce never waits for ever: as long as a node of a rank is not
    complete, some rank has something to do. *)
From S2P Require Import Prelude Flagcx Arrays C2cRunner KernelTrigger UniDag UniDagBuild UniDagShape UniSched UniSchedPool UniSchedInv UniParts UniSystem UniRing UniRingData UniRingInv.

Lemma minimal_elem {A} (f : A -> Z) l : l <> [] -> exists x, x ∈ l /\ forall y, y ∈ l -> f x <= f y.
Proof.
  induction l as [|x l IH]; intros Hl; [done|]. destruct (decide (l = [])) as [->|Hne].
  - exists x. split; [left|]. intros y ->%list_elem_of_singleton. done.
  - destruct (IH Hne) as (z & Hz & Hmin). destruct (Z.le_gt_cases (f x) (f z)) as [Hle|Hgt].
    + exists x. split; [left|]. intros y [->|Hy]%elem_of_cons; [done|]. specialize (Hmin y Hy). lia.
    + exists z. split; [by right|]. intros y [->|Hy]%elem_of_cons; [lia|by apply Hmin].
Qed.

Section Live.
Context {V : Type} (combine : flagcxRedOp_t -> V -> V -> V).
Context (n S_ R count nthreads : Z) (dt : flagcxDataType_t) (redOp : flagcxRedOp_t) (sendbuff recvbuff scratchbuff : Z -> Z).
Context (Hn : 2 <= n) (HS : 1 <= S_) (HR : 1 <= R).
Abbreviation ts := (getFlagcxDataTypeSize dt).
Context (Hc : 0 <= count) (Hfit : count * ts < U64_MOD).
Context (Hbuf : forall u, 0 <= u < n -> 0 <= sendbuff u /\ sendbuff u + count * ts < U64_MOD /\ 0 <= recvbuff u /\ recvbuff u + count * ts < U64_MOD).
Abbreviation args := (ring_args n S_ count nthreads dt redOp sendbuff recvbuff scratchbuff).
Abbreviation graph := (ring_graph n S_ R count nthreads dt redOp sendbuff recvbuff scratchbuff).
Abbreviation idx := (ar_idx (args 0) R).
Abbreviation valid := (ar_valid (args 0) R).
Abbreviation parents_of := (ar_parents (args 0) R).
Abbreviation depth := (ar_depth (args 0)).
Abbreviation pr := (pr n S_ R count nthreads dt redOp sendbuff recvbuff scratchbuff).
Abbreviation out_len := (out_len n S_ count nthreads dt redOp sendbuff recvbuff scratchbuff).
Abbreviation in_len := (in_len n S_ count nthreads dt redOp sendbuff recvbuff scratchbuff).
Abbreviation inv := (ring_flow n S_ R count nthreads dt redOp sendbuff recvbuff scratchbuff).
Abbreviation run := (exec combine n graph).

Context (w : system (V := V)) (I : inv w).

Definition can_step : Prop := exists act w', run act w = Some w'.

Lemma step_launch u t : 0 <= u < n -> valid t -> Launch (idx t) ∉ lg w u ->
  (forall p, p ∈ parents_of t -> Complete (idx p) ∈ lg w u) -> can_step.
Proof.
  intros Hu Ht Hl Hp. exists (ActLaunch u (idx t)). cbn. rewrite (proj2 (in_ranks_true n u) Hu).
  rewrite (proj2 (launchable_true graph u _ _)); [by eexists|]. split; [by apply idx_range|]. split; [done|].
  intros k Hk. destruct (idx_parents n S_ R count nthreads dt redOp sendbuff recvbuff scratchbuff Hn HS HR u t k Ht Hk) as (p & Hin & ->). by apply Hp.
Qed.

Lemma step_move u t j c f : 0 <= u < n -> valid t -> works (ar_data (args u) R t) !! j = Some c ->
  Launch (idx t) ∈ lg w u -> Complete (idx t) ∉ lg w u -> pr w u t j < c ->
  move_effect combine graph u (idx t) j (ar_data (args u) R t) w = Some f -> can_step.
Proof.
  intros Hu Ht Hj Hl Hnc Hlt Hf. exists (ActMove u (idx t) j). cbn.
  rewrite (data_of_tag n S_ R count nthreads dt redOp sendbuff recvbuff scratchbuff Hn HS HR u t Ht). cbn [mbind option_bind]. rewrite Hj. cbn [mbind option_bind].
  change (rk_log (sy_rank w u)) with (lg w u). change (rk_done (sy_rank w u) (idx t) j) with (pr w u t j).
  rewrite (proj2 (in_ranks_true n u) Hu), (proj2 (in_progress_true _ _) (conj Hl Hnc)), (proj2 (Z.ltb_lt _ _) Hlt), Hf. by eexists.
Qed.

Lemma step_complete u t : 0 <= u < n -> valid t -> Launch (idx t) ∈ lg w u -> Complete (idx t) ∉ lg w u ->
  (forall j c, works (ar_data (args u) R t) !! j = Some c -> c <= pr w u t j) -> can_step.
Proof.
  intros Hu Ht Hl Hnc Hall. exists (ActComplete u (idx t)). cbn.
  rewrite (data_of_tag n S_ R count nthreads dt redOp sendbuff recvbuff scratchbuff Hn HS HR u t Ht). cbn [mbind option_bind].
  change (rk_log (sy_rank w u)) with (lg w u).
  rewrite (proj2 (in_ranks_true n u) Hu), (proj2 (in_progress_true _ _) (conj Hl Hnc)), (proj2 (all_moved_true _ _ _) Hall). by eexists.
Qed.

(** A send can always go on. *)
Lemma step_send u t : 0 <= u < n -> valid t -> is_p2p t = true -> Launch (idx t) ∈ lg w u -> Complete (idx t) ∉ lg w u ->
  pr w u t 0 < out_len u t -> can_step.
Proof.
  intros Hu Ht Hp Hl Hnc Hlt. eapply (step_move u t 0); [done|done|by apply works_out|done|done|done|].
  rewrite p2p_data by done. unfold move_effect. cbn [default]. rewrite (out_ops n S_ R) by done.
  change (id [?a; ?b] !! 0%nat) with (Some a). cbn [mbind option_bind]. reflexivity.
Qed.

(** A receive can go on when its element was sent. *)
Lemma step_recv u t : 0 <= u < n -> valid t -> is_p2p t = true -> Launch (idx t) ∈ lg w u -> Complete (idx t) ∉ lg w u ->
  0 <= pr w u t 1 < in_len u t -> pr w u t 1 < pr w ((u - 1) mod n) t 0 -> can_step.
Proof.
  intros Hu Ht Hp Hl Hnc Hlt Hsent. pose proof (rf_ok _ _ _ _ _ _ _ _ _ _ w I) as Hok.
  assert (Hpr : 0 <= (u - 1) mod n < n) by (apply Z.mod_pos_bound; lia).
  pose proof (rf_chan _ _ _ _ _ _ _ _ _ _ w I _ t Hpr Ht Hp) as Hlen. rewrite prev_next in Hlen by done.
  destruct (lookup_lt_is_Some_2 (sy_chan w ((u - 1) mod n) u (Z.to_nat (pos n S_ t))) (Z.to_nat (pr w u t 1)) ltac:(lia)) as [y Hy].
  eapply (step_move u t 1); [done|done|by apply works_in|done|done|lia|].
  rewrite p2p_data by done. unfold move_effect. cbn [default]. rewrite (out_ops n S_ R) by done.
  change (id [?a; ?b] !! 1%nat) with (Some b). cbn [mbind option_bind].
  rewrite (ring_msg n S_ R count nthreads dt redOp sendbuff recvbuff scratchbuff Hn HS HR u (lg w u)); try done.
  - cbn [po_type po_peerRank recv_in]. change (rk_done (sy_rank w u) (idx t) 1) with (pr w u t 1). rewrite Hy. reflexivity.
  - by apply (so_log n graph w Hok).
  - by rewrite (out_ops n S_ R).
Qed.

(** A node with complete parents can be launched, go on or complete, unless it
    waits for the rank before it. *)
Lemma step_node u t : 0 <= u < n -> valid t -> Complete (idx t) ∉ lg w u -> (forall p, p ∈ parents_of t -> Complete (idx p) ∈ lg w u) ->
  (is_p2p t = true -> pr w u t 1 < in_len u t -> pr w u t 1 < pr w ((u - 1) mod n) t 0 \/ can_step) -> can_step.
Proof.
  intros Hu Ht Hnc Hp Hwait. pose proof (rf_ok _ _ _ _ _ _ _ _ _ _ w I) as Hok.
  destruct (decide (Launch (idx t) ∈ lg w u)) as [Hl|Hl]; [|by eapply step_launch].
  destruct (decide (Forall (fun j => default 0 (works (ar_data (args u) R t) !! j) <= pr w u t j) (seq 0 (length (works (ar_data (args u) R t)))))) as [Hall|Hsome].
  { apply (step_complete u t); [done..|]. intros j c Hj. rewrite Forall_forall in Hall. specialize (Hall j). rewrite Hj in Hall. cbn in Hall.
    apply Hall, elem_of_seq. apply lookup_lt_Some in Hj. lia. }
  apply not_Forall_Exists in Hsome; [|apply _]. apply Exists_exists in Hsome as (j & Hj%elem_of_seq & Hlt).
  destruct (lookup_lt_is_Some_2 (works (ar_data (args u) R t)) j ltac:(lia)) as [c Hcj]. cbn in Hlt. rewrite Hcj in Hlt. cbn in Hlt.
  apply Z.nle_gt in Hlt. destruct (works_tag n S_ R count nthreads dt redOp sendbuff recvbuff scratchbuff Hn HS HR Hc Hfit Hbuf u t j c Hu Ht Hcj) as [(Hpp & -> & ->)|[(Hpp & -> & ->)|(s & i & r & -> & -> & ->)]].
  - by eapply step_send.
  - destruct (Hwait Hpp Hlt) as [Hs|]; [|done]. eapply (step_recv u t); try done. split; [|done].
    pose proof (step_range n S_ R count nthreads dt redOp sendbuff recvbuff scratchbuff Hn t Ht Hpp) as (Hs' & _).
    eapply (pr_bound n S_ R count nthreads dt redOp sendbuff recvbuff scratchbuff Hn HS HR w Hok u t 1 _ Hu Ht Hcj). by apply len_bounds.
  - eapply (step_move u (Reduce s i r) 0); [done|done|exact Hcj|done|done|done|]. rewrite reduce_exact by done. reflexivity.
Qed.

Definition open_nodes : list (Z * ring_tag) :=
  filter (fun '(u, t) => Complete (idx t) ∉ lg w u) (u ← seqZ 0 n; t ← ar_tags (args 0) R; [(u, t)]).

Lemma open_elem u t : (u, t) ∈ open_nodes <-> 0 <= u < n /\ valid t /\ Complete (idx t) ∉ lg w u.
Proof.
  unfold open_nodes. rewrite list_elem_of_filter, list_elem_of_bind. setoid_rewrite list_elem_of_bind. split.
  - intros [Hc' (v & (t' & Ht & Ht') & Hv%elem_of_seqZ)]. apply list_elem_of_singleton in Ht. injection Ht as -> ->.
    split; [lia|]. split; [|done]. by apply (ar_tags_elem (args 0) R).
  - intros (Hu & Ht & Hc'). split; [done|]. exists u. rewrite elem_of_seqZ. split; [|lia]. exists t. split; [by apply list_elem_of_singleton|].
    by apply (ar_tags_elem (args 0) R).
Qed.

Lemma never_stuck : finished_all n graph w \/ can_step.
Proof.
  destruct (decide (open_nodes = [])) as [E|Hne].
  { left. intros u i Hu Hi. destruct (tag_of_idx n S_ R count nthreads dt redOp sendbuff recvbuff scratchbuff Hn HS HR u i Hi) as (t & Ht & ->).
    destruct (decide (Complete (idx t) ∈ rk_log (sy_rank w u))) as [|Hnc]; [done|]. exfalso.
    assert (Hin : (u, t) ∈ open_nodes) by (by apply open_elem). rewrite E in Hin. by apply elem_of_nil in Hin. }
  right. destruct (minimal_elem (fun ut => depth ut.2) open_nodes Hne) as ([u t] & Hin & Hmin). apply open_elem in Hin as (Hu & Ht & Hnc). cbn in Hmin.
  assert (Hready : forall v, 0 <= v < n -> forall p, p ∈ parents_of t -> Complete (idx p) ∈ lg w v).
  { intros v Hv p Hp. destruct (decide (Complete (idx p) ∈ lg w v)) as [|Hpc]; [done|]. exfalso.
    apply (ar_parents_elem (args 0) R Hn HS) in Hp as [Hvp Hpt]; [|done]. destruct (ar_children_valid (args 0) R Hn HS p t Hvp Hpt) as [_ Hd].
    assert (Hin : (v, p) ∈ open_nodes) by (by apply open_elem). specialize (Hmin _ Hin). cbn in Hmin. lia. }
  apply (step_node u t Hu Ht Hnc (Hready u Hu)). intros Hp Hlt. pose proof (rf_ok _ _ _ _ _ _ _ _ _ _ w I) as Hok.
  assert (Hq : 0 <= (u - 1) mod n < n) by (apply Z.mod_pos_bound; lia). set (v := (u - 1) mod n) in *.
  destruct (Z.lt_ge_cases (pr w u t 1) (pr w v t 0)) as [|Hge]; [by left|right].
  assert (Elen : in_len u t = out_len v t).
  { unfold UniRingInv.in_len, UniRingInv.out_len. rewrite <- (in_is_out n v t Hq). unfold v. by rewrite prev_next. }
  assert (Hnv : Complete (idx t) ∉ lg w v).
  { intros Hcv. pose proof (pr_complete n S_ R count nthreads dt redOp sendbuff recvbuff scratchbuff Hn HS HR w Hok v t 0 _ Hq Ht
      (works_out n S_ R count nthreads dt redOp sendbuff recvbuff scratchbuff Hn HS Hc Hfit Hbuf v t Hq Ht Hp) Hcv). lia. }
  destruct (decide (Launch (idx t) ∈ lg w v)) as [Hlv|Hlv]; [|by eapply (step_launch v t); [..|apply Hready]].
  apply (step_send v t); try done. lia.
Qed.
End Live.
