(* ===== verification/UniRingResult.v ===== *)
(** The ring all-reduce on all its ranks: it ends, and every rank holds the same
    reduction of the data of all of them. *)
From S2P Require Import Prelude Flagcx Arrays C2cRunner KernelTrigger UniDag UniDagBuild UniDagShape UniDagInit UniSched UniSchedPool UniSchedInv UniSchedSafe.
From S2P Require Import UniRunner UniCollective UniCollectives UniOutcome UniParts UniSystem UniRing UniRingData UniRingInv UniRingLive.

(** ** The set-up *)

(** The builder of a rank, by the setting of the slices of reductions. *)
Definition ring_build (mem : nat -> bool) (a : uni_args) (useSlicedAR : bool) (numRedSlices : Z) : build :=
  if useSlicedAR then initUniRunnerStateSlicedAR mem a numRedSlices else initUniRunnerStateRingAR mem a.
Definition builds (b : build) (g : list uniRunnerDagNode) : Prop :=
  exists s, b (0, dag_empty) = Some (flagcxSuccess, s) /\ dg_nodes s.2 = Some g.

(** Ranks, slices and parts of reductions; every buffer fits in memory. *)
Record ring_setting (n S_ R count : Z) (dt : flagcxDataType_t) (sendbuff recvbuff : Z -> Z) : Prop := {
  rs_ranks : 2 <= n;
  rs_slices : 1 <= S_;
  rs_parts : 1 <= R;
  rs_count : 0 <= count;
  rs_buffers : let bytes := count * getFlagcxDataTypeSize dt in
    forall u, 0 <= u < n -> 0 <= sendbuff u /\ sendbuff u + bytes < U64_MOD /\ 0 <= recvbuff u /\ recvbuff u + bytes < U64_MOD
}.

(** Out of place, the two buffers of a rank being disjoint, and with fewer than
    2^32 elements to a chunk, as many as a trigger of a reduction can say. *)
Record out_of_place (n count : Z) (dt : flagcxDataType_t) (sendbuff recvbuff : Z -> Z) : Prop := {
  op_disjoint : let bytes := count * getFlagcxDataTypeSize dt in
    forall u, 0 <= u < n -> sendbuff u + bytes <= recvbuff u \/ recvbuff u + bytes <= sendbuff u;
  op_word : count / n + 1 < 2 ^ 32
}.

Lemma rs_fits n S_ R count dt sb rb : ring_setting n S_ R count dt sb rb -> count * getFlagcxDataTypeSize dt < U64_MOD.
Proof. intros [H1 _ _ _ H5]. specialize (H5 0 ltac:(lia)). lia. Qed.

(** The elements of all ranks in the order of the ring from rank [c]. *)
Definition ring_sum {V} (op : V -> V -> V) (n : Z) (x : Z -> V) (c : Z) : V :=
  foldl op (x c) ((fun d => x ((c + d) mod n)) <$> seqZ 1 (n - 1)).

(** No reduction has more elements than its chunk. *)
Lemma word_fits n S_ R count nthreads dt redOp sb rb scr : ring_setting n S_ R count dt sb rb -> count / n + 1 < 2 ^ 32 ->
  forall c s r, 0 <= c < n -> 0 <= s < S_ -> 0 <= r < R -> part_count (len n S_ count nthreads dt redOp sb rb scr c s) R r < 2 ^ 32.
Proof.
  intros HX Hw c s r Hc Hs Hr. pose proof (rs_fits _ _ _ _ _ _ _ HX) as Hfit. destruct HX as [Hn HS HR Hc0 _].
  pose proof (datatype_size_pos dt) as Hts. assert (Hu : count < U64_MOD) by nia.
  pose proof (part_count_range count n Hc0 ltac:(lia) Hu c Hc) as H1.
  pose proof (part_count_range (part_count count n c) S_ ltac:(lia) ltac:(lia) ltac:(lia) s Hs) as H2.
  pose proof (part_count_range (part_count (part_count count n c) S_ s) R ltac:(lia) ltac:(lia) ltac:(lia) r Hr) as H3.
  assert (H4 : part_count count n c <= count / n + 1).
  { unfold part_count. etransitivity; [apply Z.mod_le; [|done]|]; pose proof (Z.div_pos count n); destruct (_ <? _); lia. }
  unfold len, slice_count. cbn. lia.
Qed.

Section Result.
Context {V : Type} (combine : flagcxRedOp_t -> V -> V -> V).
Context (n S_ R count nthreads : Z) (dt : flagcxDataType_t) (redOp : flagcxRedOp_t) (sendbuff recvbuff scratchbuff : Z -> Z).
Context (HX : ring_setting n S_ R count dt sendbuff recvbuff) (HP : out_of_place n count dt sendbuff recvbuff).
Abbreviation args := (ring_args n S_ count nthreads dt redOp sendbuff recvbuff scratchbuff).
Abbreviation graph := (ring_graph n S_ R count nthreads dt redOp sendbuff recvbuff scratchbuff).
Abbreviation idx := (ar_idx (args 0) R).
Abbreviation valid := (ar_valid (args 0) R).
Abbreviation chunk := (chunk n).

Let Hn := rs_ranks _ _ _ _ _ _ _ HX.
Let HS := rs_slices _ _ _ _ _ _ _ HX.
Let HR := rs_parts _ _ _ _ _ _ _ HX.
Let Hc := rs_count _ _ _ _ _ _ _ HX.
Let Hfit := rs_fits _ _ _ _ _ _ _ HX.
Let Hbuf := rs_buffers _ _ _ _ _ _ _ HX.
Let Hdis := op_disjoint _ _ _ _ _ HP.
Let Hword := word_fits n S_ R count nthreads dt redOp sendbuff recvbuff scratchbuff HX (op_word _ _ _ _ _ HP).

(** What is in the send buffers. *)
Definition source (w : system (V := V)) (u q : Z) : V := rk_mem (sy_rank w u) (src_cell dt sendbuff u q).
Abbreviation inv w0 := (ring_inv combine (source w0) n S_ R count nthreads dt redOp sendbuff recvbuff scratchbuff).

Lemma start_inv w : at_start w -> inv w w.
Proof.
  intros Hs. assert (Hd : forall u t j, pr n S_ R count nthreads dt redOp sendbuff recvbuff scratchbuff w u t j = 0).
  { intros u t j. destruct Hs as [H _]. apply H. }
  constructor; [by apply start_ok|done| |].
  - intros u t _ _ _. cbn zeta. rewrite Hd. destruct Hs as [_ ->]. split; [done|]. intros e y Hy. by rewrite lookup_nil in Hy.
  - intros v k s e (_ & _ & _ & He). unfold cell_ok, recvd, redd, gath. setoid_rewrite Hd.
    split_and!; [intros []; lia|intros (_ & r & _ & ?) _; lia|intros []; lia].
Qed.

Lemma execs_inv acts w0 : at_start w0 -> forall w, execs combine n graph acts w0 = Some w -> inv w0 w.
Proof.
  intros Hs w. apply (execs_invariant combine n graph (inv w0)); [|by apply start_inv].
  intros act w1 w2. by apply exec_ring.
Qed.

(** The messages flow in any setting. *)
Lemma execs_flow acts w0 : at_start w0 -> forall w, execs combine n graph acts w0 = Some w ->
  ring_flow n S_ R count nthreads dt redOp sendbuff recvbuff scratchbuff w.
Proof.
  intros Hs w. apply (execs_invariant combine n graph (ring_flow n S_ R count nthreads dt redOp sendbuff recvbuff scratchbuff)).
  - intros act w1 w2. by apply (exec_flow combine (source w0)).
  - constructor; [by apply start_ok|]. intros u t _ _ _. destruct Hs as [H ->]. unfold pr. destruct (H u) as [_ ->]. done.
Qed.

Lemma partial_foldl x c q d : partial combine x n redOp c q d = foldl (combine redOp) (x c q) ((fun i => x ((c + i) mod n) q) <$> seqZ 1 (Z.of_nat d)).
Proof.
  induction d as [|d IH]; [done|]. replace (Z.of_nat (S d)) with (Z.of_nat d + 1) by lia.
  rewrite seqZ_app, fmap_app, foldl_app, <- IH by lia. rewrite (seqZ_cons (1 + Z.of_nat d) 1) by done. cbn [partial]. cbn.
  by replace (Z.of_nat (S d)) with (1 + Z.of_nat d) by lia.
Qed.

Lemma chunk_of u c : 0 <= u < n -> 0 <= c < n -> exists k, 0 <= k < n /\ chunk u k = c.
Proof.
  intros Hu Hcr. exists ((u - c) mod n). split; [apply Z.mod_pos_bound; lia|]. unfold UniRingData.chunk.
  rewrite Zminus_mod_idemp_r. replace (u - (u - c)) with c by lia. by apply Z.mod_small.
Qed.

(** When all is complete every element of a receive buffer has its last value. *)
Lemma final_value w0 w q c s e : inv w0 w -> finished_all n graph w -> 0 <= c < n -> 0 <= s < S_ ->
  0 <= e < len n S_ count nthreads dt redOp sendbuff recvbuff scratchbuff c s -> q = elt n S_ count nthreads dt redOp sendbuff recvbuff scratchbuff c s e ->
  forall u, 0 <= u < n -> rk_mem (sy_rank w u) (dst_cell dt recvbuff u q) = part_sum combine (source w0) n redOp c q (n - 1).
Proof.
  intros I Hf Hcr Hs He -> u Hu. pose proof (ri_ok _ _ _ _ _ _ _ _ _ _ _ _ w I) as Hok.
  assert (Hdone : forall t, valid t -> Complete (idx t) ∈ lg w u) by (intros t Ht; apply Hf; [done|by apply idx_range]).
  destruct (chunk_of u c Hu Hcr) as (k & Hk & <-). assert (Hcell : in_cell n S_ count nthreads dt redOp sendbuff recvbuff scratchbuff u k s e) by done.
  destruct (ri_cell _ _ _ _ _ _ _ _ _ _ _ _ w I u k s e Hcell) as (_ & H2 & H3). destruct (decide (k = n - 1)) as [->|Hne].
  - apply H2; [|by intros [Hg _]; lia]. apply (all_redd n S_ R count nthreads dt redOp sendbuff recvbuff scratchbuff Hn HS HR Hc Hfit Hbuf Hword w Hok); [done|lia|].
    intros r Hr. apply Hdone. cbn. lia.
  - apply H3. split; [lia|]. assert (Hv : valid (Gather s k)) by (cbn; lia).
    pose proof (pr_complete n S_ R count nthreads dt redOp sendbuff recvbuff scratchbuff Hn HS HR w Hok u (Gather s k) 1 _ Hu Hv
      (works_in n S_ R count nthreads dt redOp sendbuff recvbuff scratchbuff Hn HS Hc Hfit Hbuf u _ Hu Hv eq_refl) (Hdone _ Hv)) as Hp.
    unfold in_len, in_step in Hp. cbn [out_step slice_of] in Hp. replace (k - 1 + 1) with k in Hp by lia. lia.
Qed.
End Result.

(** The graph that a rank builds. *)
Lemma builds_ring n S_ R count nthreads dt redOp sb rb scr mem u (useSlicedAR : bool) g : 2 <= n -> 1 <= S_ -> 1 <= R ->
  builds (ring_build mem (ring_args n S_ count nthreads dt redOp sb rb scr u) useSlicedAR R) g ->
  g = ring_graph n S_ (if useSlicedAR then R else 1) count nthreads dt redOp sb rb scr u.
Proof.
  intros Hn HS HR (st & E & Hg). set (a := ring_args n S_ count nthreads dt redOp sb rb scr u) in *.
  assert (Him : implements mem (ring_build mem a useSlicedAR R) (ar_nodes a (if useSlicedAR then R else 1))).
  { unfold ring_build. destruct useSlicedAR; [by apply sliced_ar_implements|by apply ring_ar_implements]. }
  destruct (im_triple _ _ _ Him (0, dag_empty)) as (r & st' & E' & H); [by exists 0%nat|].
  rewrite E in E'. injection E' as <- <-. destruct H as [[_ Hi]|[? _]]; [|done]. rewrite (il_nodes _ _ Hi) in Hg. by injection Hg as <-.
Qed.

(** The graphs of all ranks. *)
Lemma ring_built n S_ R count nthreads dt redOp sb rb scr (mem : Z -> nat -> bool) (useSlicedAR : bool) G : ring_setting n S_ R count dt sb rb ->
  (forall u, 0 <= u < n -> builds (ring_build (mem u) (ring_args n S_ count nthreads dt redOp sb rb scr u) useSlicedAR R) (G u)) ->
  exists R', ring_setting n S_ R' count dt sb rb /\ forall u, 0 <= u < n -> G u = ring_graph n S_ R' count nthreads dt redOp sb rb scr u.
Proof.
  intros HX HG. exists (if useSlicedAR then R else 1). split; [destruct HX; constructor; try done; destruct useSlicedAR; lia|].
  intros u Hu. eapply builds_ring; [apply HX..|by apply HG].
Qed.
