(* ===== verification/UniRingSafe.v ===== *)
(** What the ring all-reduce promises: identical copies of the result on every
    rank, and an end, however the ranks and their transfers interleave. *)
From S2P Require Import Prelude Flagcx Arrays C2cRunner KernelTrigger UniDag UniDagBuild UniDagShape UniDagInit UniSched UniSchedPool UniSchedInv UniSchedSafe.
From S2P Require Import UniRunner UniCollective UniCollectives UniOutcome UniParts UniSystem UniRing UniRingData UniRingInv UniRingLive UniRingResult.

(** ** An example: two ranks, an element of each *)

Definition ex_send (u : Z) : Z := 4096 + 1024 * u.
Definition ex_recv (u : Z) : Z := 8192 + 1024 * u.
Definition ex_ring (u : Z) : uni_args := ring_args 2 1 2 32 flagcxInt32 flagcxSum ex_send ex_recv (fun _ => 0) u.
Definition ex_rings (u : Z) : list uniRunnerDagNode := ring_graph 2 1 1 2 32 flagcxInt32 flagcxSum ex_send ex_recv (fun _ => 0) u.
Definition ex_combine (op : flagcxRedOp_t) : Z -> Z -> Z := Z.add.

(** The elements of rank 0 are 10 and 11, those of rank 1 are 20 and 21. *)
Definition ex_start : system (V := Z) := MkSystem
  (fun u => MkRankState [] (fun _ _ => 0) (fun a => if a <? 8192 then 10 * (u + 1) + (a - ex_send u) / 4 else 0)) (fun _ _ _ => []).
Definition ex_phase (i : Z) (ops : list nat) : list action :=
  [ActLaunch 0 i; ActLaunch 1 i] ++ (j ← ops; [ActMove 1 i j; ActMove 0 i j]) ++ [ActComplete 1 i; ActComplete 0 i].
Definition ex_acts : list action := ex_phase 0 [0; 1]%nat ++ ex_phase 1 [0]%nat ++ ex_phase 2 [0; 1]%nat.
Definition ex_end : system := default ex_start (execs ex_combine 2 ex_rings ex_acts ex_start).

Lemma default_run (acts : list action) : match execs ex_combine 2 ex_rings acts ex_start with Some _ => true | None => false end = true ->
  execs ex_combine 2 ex_rings acts ex_start = Some (default ex_start (execs ex_combine 2 ex_rings acts ex_start)).
Proof. by destruct (execs _ _ _ _ _). Qed.

Lemma ex_setting : ring_setting 2 1 1 2 flagcxInt32 ex_send ex_recv.
Proof. constructor; try done. cbn. unfold ex_send, ex_recv. lia. Qed.

Lemma ex_apart : out_of_place 2 2 flagcxInt32 ex_send ex_recv.
Proof. constructor; [cbn; unfold ex_send, ex_recv; lia|vm_compute; done]. Qed.

Lemma ex_builds u : 0 <= u < 2 -> builds (ring_build ex_mem (ex_ring u) true 1) (ex_rings u).
Proof.
  intros Hu. assert (u = 0 \/ u = 1) as [->| ->] by lia.
  - eexists. split; vm_compute; reflexivity.
  - eexists. split; vm_compute; reflexivity.
Qed.

Lemma ex_at_start : at_start ex_start.
Proof. done. Qed.

Lemma ex_finished : finished_all 2 ex_rings ex_end.
Proof.
  intros u i Hu Hi. assert (u = 0 \/ u = 1) as [->| ->] by lia.
  - change (Z.of_nat (length (ex_rings 0))) with 3 in Hi. assert (i = 0 \/ i = 1 \/ i = 2) as [->|[->| ->]] by lia; apply (bool_decide_unpack _); vm_compute; exact Logic.I.
  - change (Z.of_nat (length (ex_rings 1))) with 3 in Hi. assert (i = 0 \/ i = 1 \/ i = 2) as [->|[->| ->]] by lia; apply (bool_decide_unpack _); vm_compute; exact Logic.I.
Qed.

(** ** The properties *)

(** C1: the ring all-reduce is correct out of place, when the send and the
    receive buffer of each rank are disjoint, and with fewer than 2^32 elements
    to a chunk: when every node of every rank is complete, an element of the
    receive buffer is the reduction of this element of all send buffers, in the
    order of the ring from the rank that owns its chunk; it is the same on every
    rank.  This holds for every schedule of the ranks, of the network and of
    the device, and for any reduction.  Neither condition can be dropped:
    [ex_in_place_values] and [ex_long_reduction] below. *)
Theorem ring_all_reduce_correct {V : Type} (combine : flagcxRedOp_t -> V -> V -> V) n S_ R count nthreads dt redOp sendbuff recvbuff scratchbuff
    (mem : Z -> nat -> bool) (useSlicedAR : bool) (G : Z -> list uniRunnerDagNode) (w w' : system) acts :
  ring_setting n S_ R count dt sendbuff recvbuff -> out_of_place n count dt sendbuff recvbuff ->
  (forall u, 0 <= u < n -> builds (ring_build (mem u) (ring_args n S_ count nthreads dt redOp sendbuff recvbuff scratchbuff u) useSlicedAR R) (G u)) ->
  at_start w -> execs combine n G acts w = Some w' -> finished_all n G w' ->
  forall q, 0 <= q < count -> exists c, 0 <= c < n /\ forall u, 0 <= u < n ->
    rk_mem (sy_rank w' u) (elem dt (recvbuff u) q) = ring_sum (combine redOp) n (fun v => rk_mem (sy_rank w v) (elem dt (sendbuff v) q)) c.
Proof.
  intros HX HP HG Hs E Hf q Hq. destruct (ring_built _ _ _ _ _ _ _ _ _ _ _ _ _ HX HG) as (R' & HX' & HG').
  rewrite (execs_ext _ _ _ _ HG') in E. apply (finished_ext _ _ _ HG') in Hf.
  destruct (elt_find n S_ count nthreads dt redOp sendbuff recvbuff scratchbuff (rs_ranks _ _ _ _ _ _ _ HX) (rs_slices _ _ _ _ _ _ _ HX)
    (rs_count _ _ _ _ _ _ _ HX) (rs_fits _ _ _ _ _ _ _ HX) q Hq) as (c & s & e & Hcr & Hsr & He & Eq).
  exists c. split; [done|]. intros u Hu. pose proof (execs_inv combine n S_ R' count nthreads dt redOp sendbuff recvbuff scratchbuff HX' HP acts w Hs w' E) as I.
  change (elem dt (recvbuff u) q) with (dst_cell dt recvbuff u q). rewrite (final_value _ _ _ _ _ _ _ _ _ _ _ HX' HP w w' q c s e I Hf Hcr Hsr He Eq u Hu).
  unfold part_sum. rewrite partial_foldl, Z2Nat.id by (pose proof (rs_ranks _ _ _ _ _ _ _ HX); lia). done.
Qed.

Lemma ring_all_reduce_correct_witness : execs ex_combine 2 ex_rings ex_acts ex_start = Some ex_end /\ forall q, 0 <= q < 2 ->
  exists c, 0 <= c < 2 /\ forall u, 0 <= u < 2 -> rk_mem (sy_rank ex_end u) (elem flagcxInt32 (ex_recv u) q) =
    ring_sum (ex_combine flagcxSum) 2 (fun v => rk_mem (sy_rank ex_start v) (elem flagcxInt32 (ex_send v) q)) c.
Proof.
  assert (E : execs ex_combine 2 ex_rings ex_acts ex_start = Some ex_end) by (apply default_run; vm_compute; reflexivity). split; [exact E|].
  apply (ring_all_reduce_correct ex_combine 2 1 1 2 32 flagcxInt32 flagcxSum ex_send ex_recv (fun _ => 0) (fun _ => ex_mem) true ex_rings ex_start ex_end ex_acts);
    [apply ex_setting|apply ex_apart|apply ex_builds|apply ex_at_start|exact E|apply ex_finished].
Defined.

(** The values of the example. *)
Example ex_values : (fun u => (fun q => rk_mem (sy_rank ex_end u) (elem flagcxInt32 (ex_recv u) q)) <$> [0; 1]) <$> [0; 1] = [[30; 32]; [30; 32]].
Proof. vm_compute. reflexivity. Qed.

(** In place, with a send buffer that is the receive buffer, a reduction reads
    the element that was received twice, and the element of its own rank is
    lost: both ranks end with twice the elements of one. *)
Definition ex_in_place (u : Z) : list uniRunnerDagNode := ring_graph 2 1 1 2 32 flagcxInt32 flagcxSum ex_recv ex_recv (fun _ => 0) u.
Definition ex_start_in_place : system (V := Z) := MkSystem
  (fun u => MkRankState [] (fun _ _ => 0) (fun a => 10 * (u + 1) + (a - ex_recv u) / 4)) (fun _ _ _ => []).

Example ex_in_place_values :
  (fun u => (fun q => rk_mem (sy_rank (default ex_start_in_place (execs ex_combine 2 ex_in_place ex_acts ex_start_in_place)) u) (elem flagcxInt32 (ex_recv u) q)) <$> [0; 1]) <$> [0; 1]
  = [[20; 42]; [20; 42]].
Proof. vm_compute. reflexivity. Qed.

(** Of a reduction of 2^32 elements the kernel sees none. *)
Example ex_long_reduction : works (RedNode 8192 4096 8192 (2 ^ 32) 32 flagcxInt32 flagcxSum 0) = [0].
Proof. vm_compute. reflexivity. Qed.

(** C12: in place or not, and whatever the number of elements, a run of the
    ring all-reduce is no longer than the work of its graphs, and where it stops
    every node is complete: as long as one is not, some rank can launch a node,
    move an element or complete a node. *)
Theorem ring_all_reduce_ends {V : Type} (combine : flagcxRedOp_t -> V -> V -> V) n S_ R count nthreads dt redOp sendbuff recvbuff scratchbuff
    (mem : Z -> nat -> bool) (useSlicedAR : bool) (G : Z -> list uniRunnerDagNode) (w w' : system) acts :
  ring_setting n S_ R count dt sendbuff recvbuff ->
  (forall u, 0 <= u < n -> builds (ring_build (mem u) (ring_args n S_ count nthreads dt redOp sendbuff recvbuff scratchbuff u) useSlicedAR R) (G u)) ->
  at_start w -> execs combine n G acts w = Some w' ->
  Z.of_nat (length acts) <= workload n G /\ (finished_all n G w' \/ exists act w2, exec combine n G act w' = Some w2).
Proof.
  intros HX HG Hs E. split; [by eapply execs_bound|]. destruct (ring_built _ _ _ _ _ _ _ _ _ _ _ _ _ HX HG) as (R' & HX' & HG').
  rewrite (execs_ext _ _ _ _ HG') in E. rewrite (finished_ext _ _ _ HG'). setoid_rewrite (exec_ext _ _ _ _ HG').
  eapply never_stuck; [apply HX'..|by eapply rs_fits|apply HX'|]. by eapply (execs_flow combine n S_ R').
Qed.

Lemma ring_all_reduce_ends_witness : exists w', execs ex_combine 2 ex_rings (take 4 ex_acts) ex_start = Some w' /\
  4 <= workload 2 ex_rings /\ (finished_all 2 ex_rings w' \/ exists act w2, exec ex_combine 2 ex_rings act w' = Some w2).
Proof.
  eexists. split; [apply default_run; vm_compute; reflexivity|].
  apply (ring_all_reduce_ends ex_combine 2 1 1 2 32 flagcxInt32 flagcxSum ex_send ex_recv (fun _ => 0) (fun _ => ex_mem) true ex_rings ex_start _ (take 4 ex_acts));
    [apply ex_setting|apply ex_builds|apply ex_at_start|apply default_run; vm_compute; reflexivity].
Defined.
